(* ===== verification/_CoqProject ===== *)
-Q . S2P
Prelude.v
CLib.v
LayerPack.v
GpuArgs.v
Storage.v
Sha1.v
KvHeader.v
KvPolicy.v
KvCache.v
KvCacheProps.v
KvRoundTrip.v
Strtod.v
Json.v
JsonProps.v
JsonSafe.v
Request.v
RequestProps.v
JsonTree.v
Stream.v
StreamProps.v
Dsml.v
DsmlProps.v
DsmlText.v
ToolText.v
ToolRoundTrip.v
ToolRepair.v
GlmRoundTrip.v
ToolMemory.v
ToolMemoryWf.v
ToolMemoryProps.v
ToolReplay.v
ToolMap.v
ToolMapProps.v
LiveState.v
JobQueue.v
Scheduler.v
SchedulerInv.v
SchedulerProps.v
SchedulerLive.v
Prefill.v
Http.v
Prompt.v
PromptProps.v
Continuation.v
Gguf.v
GgufProps.v
GgufRoundTrip.v
StrTable.v
Tokenizer.v
TokenizerProps.v
Vocab.v
ToolStream.v
ToolStreamProps.v
SseStream.v
SseProps.v
SseMessage.v
SseClaims.v
ResponsesStream.v
ResponsesProps.v
Reply.v
ReplyProps.v
ToolSchemas.v
ClientInput.v
RequestTree.v
InputProps.v
Handlers.v
HandlerProps.v
ClientMain.v
Reuse.v
ReuseProps.v
Decode.v
DecodeProps.v
Generate.v
GenerateProps.v
DistWire.v
DistRoute.v
DistRouteProps.v
DistSlice.v
DistWork.v
DistWorkProps.v
