(* ===== verification/Prelude.v ===== *)
(** * Verification of the spark.c inference engine

    This library models the C engine under
    [src/models/glm-5.3-flash-q2/engine] (written [engine/] below) and proves
    what makes its parts correct.

    ** The program

    The engine runs a language model from disk behind an HTTP server. At start-up
    [engine/src/gpu_args.c] reads the device options, [engine/src/layer_pack.c]
    places the layers on the devices and [engine/src/storage.c] computes the
    expert-cache budget. [engine/src/engine.c] opens the model file, loads the
    vocabulary and turns text into tokens and back. [engine/src/server.c] reads a
    JSON request, renders the
    conversation with its tool calls into a prompt, asks the KV store of
    [engine/src/kv_store.c] for the longest checkpoint whose text is a prefix of
    that prompt, generates, streams the text as far as it is safe to send, tracks
    where the generation is inside a tool call, and parses the finished text back
    into reasoning, content and tool calls. The KV store writes checkpoints as
    files named by the SHA-1 of their text and evicts them under a byte budget.

    ** The files

    - [Prelude] (this file): machine integers with explicit wrap-around, bytes and
      C strings, the tactics and hint databases, lemmas on lists and bytes.
    - [CLib]: the C library functions the sources call ([isspace], [strtol],
      [strtoull], [strstr], decimal printing). [Strtod]: [strtod] with correct
      rounding to binary64.
    - [LayerPack], [GpuArgs], [Storage]: the files of the same names; the CUDA
      probe, [mmap], [mlock] and the environment are arguments.
    - [Sha1], [KvHeader], [KvPolicy], [KvCache] (model), [KvCacheProps] and
      [KvRoundTrip] (theorems): [engine/src/kv_store.c]. The file system is a map
      from paths to contents; every system call has its outcome as an argument
      ([store_io]), so the theorems quantify over every failure. The
      order of [readdir] is the class [ReadDir], of which the theorems use only
      that it lists each file once. The engine session is a view
      ([session_view], [session_loader]) whose tokenizer and payload are arguments.
    - [Json] (model), [JsonProps], [JsonSafe]: the cursor-based JSON functions of
      [engine/src/server.c]. A cursor is the text from it on; a reader returns its
      value and the new cursor, or [None] where the code returns false.
    - [Request], [RequestProps]: request fields, messages, tool calls and their
      JSON in [engine/src/server.c].
    - [Stream], [StreamProps]: how much text may be sent, and the thinking
      automaton, in [engine/src/server.c].
    - [Dsml], [DsmlProps], [DsmlText]: the tool-call markup, its tracker and the
      streaming of parameter values in [engine/src/server.c].
    - [ToolText], [ToolRoundTrip], [ToolRepair], [GlmRoundTrip]: tool calls written into the prompt and read back from the
      generated text, in [engine/src/server.c].
    - [ToolMemory] (model), [ToolMemoryWf], [ToolMemoryProps], [ToolReplay]: the
      bounded memory of sampled tool calls in [engine/src/server.c], with its
      doubly linked list, the chain of each block, reference counts and byte
      totals on a heap of locations; following a freed pointer gives [None]. The
      radix tree it uses is the class [Rax], of which the proofs use only that it
      is a finite map; the instance is a [gmap].
    - [ToolMap], [ToolMapProps]: the trailer of a checkpoint file that carries
      that memory over a restart, as hooks of the KV store of [KvCache].
    - [LiveState], [Continuation]: the live states of a resident slot, the
      validation of tool results and the suffix prepared for a live session.
    - [JobQueue]: the linked queue of jobs. [Scheduler] (model), [SchedulerInv],
      [SchedulerProps], [SchedulerLive]: the client, worker
      and decode threads in batched mode, a function per critical section and a
      step relation that interleaves them in any order. [Prefill]: a prompt
      evaluated in pieces between which other slots get their turn.
    - [Http]: the request reader over any sequence of [recv] results.
    - [Prompt], [PromptProps]: conversations rendered as prompts in the DeepSeek
      and the GLM markup, the tails for live sessions, the visible keys and the
      reports of malformed calls.
    - [Gguf], [GgufProps], [GgufRoundTrip]: the model file of [engine/src/engine.c],
      a cursor over its bytes in a small error monad, the metadata, the tensor
      table and the readers of metadata values. [StrTable]: its hash table.
      [Tokenizer], [TokenizerProps], [Vocab]: the vocabulary, the two
      pre-tokenizers, the merge loop, special tokens, chat encoding and token texts.
    - [ToolStream], [ToolStreamProps]: the machine that turns tool markup into call
      events while it is generated, against a record of operations ([tool_ops]); a
      monad of sends whose outcome is an argument ([io]). [SseStream]: the live
      stream over a record of operations ([stream_ops]) and its OpenAI and Anthropic
      instances with the bytes of their events. [SseProps],
      [SseMessage]: the stream against the class [StreamView] of what a protocol
      shows to its client; [SseClaims] has the instances and the theorems.
      [ResponsesStream], [ResponsesProps]: the Responses instance and its client.
    - [Reply], [ReplyProps]: HTTP replies, finished responses and JSON documents.
    - [ToolSchemas]: the tools of a request, the flattening of
      namespaces and the order of their properties. [ClientInput]: the messages of
      the Anthropic and Responses formats. [JsonTree] has JSON documents as trees
      with their printed form, [RequestTree] reads a request from such a tree, and
      [InputProps] relates the readers of [ClientInput] to it. [Handlers],
      [HandlerProps]: the four handlers of [engine/src/server.c] from the body of a
      request to the tokens of its prompt. [ClientMain]:
      [client_main], from the socket to the queue.
    - [generate_job_inner] of [engine/src/server.c], in three parts. [Reuse],
      [ReuseProps]: what a request keeps of its slot or of a file, and the prefill
      with its checkpoints. [Decode], [DecodeProps]: the loop over the sampled
      tokens; the engine is a record of functions ([engine_view],
      [decode_engine]) with its promises as named hypotheses ([sync_promise],
      [decode_promise], [turn_promise]), the client a record of operations
      ([client_ops]), and what happens around the loop is numbered by the checks it
      makes ([decode_env]). [Generate], [GenerateProps]: the end of a generation,
      the turn, what the slot remembers of it and the whole job.
    - [DistWire]: the records, frames and packed hidden states of
      [engine/src/distributed.c], where a coordinator runs the first layers and
      workers on other machines the rest. [DistRoute], [DistRouteProps]: the
      registry of workers, the search for a route and the route on the wire; the
      order of [qsort] is the class [Qsort], with insertion sort as an instance.
      [DistSlice]: the evaluation of a slice of the layers in [engine/src/engine.c],
      with the kernels as the class [GlmKernels]. [DistWork]: a WORK frame on a
      worker, the relay of its result, and a span of tokens over the whole route;
      the clock is the class [Clock]. [DistWorkProps]: its theorems.

    Definitions keep the names of the C functions; where a C loop is a definition
    of its own it is named after what it does. A C string is the list of its bytes
    without the terminator; [size_t] offsets into a text are natural numbers; other
    integers are [Z] with the wrap-around written out.

    ** What the theorems show

    - Tool calls: the DSML the renderer writes is read back as the same calls and
      rendering what was read writes the same bytes ([ToolRoundTrip]); the GLM
      markup is read back with its arguments in the order of the schema
      ([GlmRoundTrip]); the parsers
      end on every text ([ToolText]); the repair of truncated markup balances
      it ([ToolRepair]); the tracker fed piece by piece agrees with one pass
      ([DsmlProps]); a streamed argument decodes on its own ([DsmlText]).
    - Streaming: nothing of a stop sequence, a tool marker or a split character is
      sent, the eight-byte automaton decides on the whole text, and so does the
      incremental search for a tool call inside reasoning ([StreamProps]).
    - KV store: the header and a whole checkpoint round-trip, a store is atomic
      under every failure, eviction meets the budget and takes the least score, the
      lookup finds the longest usable prefix, the checkpoint schedule and the size
      check are exact ([KvHeader], [KvPolicy], [KvCacheProps], [KvRoundTrip]); the
      incremental SHA-1 is the padded-message definition ([Sha1]).
    - JSON and requests: escape and read are inverse, the skipper is exact up to
      its nesting limit and total, cursors stay inside the text, parsed messages
      are well formed ([JsonProps], [JsonSafe], [RequestProps]).
    - Tool memory: it refines a bounded least-recently-used list of ids and texts
      ([ToolReplay.tool_memory_refines_cache]), a sampled text is attached exactly
      when every call of a message has it, and the map written with a checkpoint
      has the measured size and survives a restart ([ToolReplay], [ToolMapProps]).
    - Scheduler: the queue is a list ([JobQueue]); by induction on the steps no job
      is lost, served twice or used after its client is gone, and one thread at a
      time works on the model; while a job is not done some thread can move; a
      waiting prefill is passed over fewer times than there are slots; the
      dispatcher is first-in first-out among the jobs that can run and takes the
      best slot ([SchedulerInv] has the invariant,
      [SchedulerProps] its preservation, [SchedulerLive] the theorems). The
      prefill loop ends at exactly the prompt ([Prefill]).
    - Prompts: the prompt of the next turn is the text of the live session followed
      by the tail rendered for it ([PromptProps]), which is what the continuation of
      an Anthropic request appends, and the one-pass validation of tool results is
      the search back over the history ([Continuation]); the live state matches
      exactly the requests that answer its calls ([LiveState]).
    - HTTP: a well-formed request is read exactly, however it is cut into pieces
      ([Http]).
    - Requests: a document that a client posts becomes exactly the request its
      members say or is answered with the error that fits it ([ClientMain]); the
      schemas and orders of its tools are those of their documents
      ([ToolSchemas]); Anthropic turns are read back and the items of the
      Responses format are kept in their order ([InputProps]); a Responses request
      has every field from the members with its keys and is refused for the first
      one that cannot be accepted ([HandlerProps]).
    - Generation: the tokens a request keeps are ones it may keep and its prompt
      continues them ([ReuseProps]); whatever the model samples, the loop ends within
      the limits, the reply is the text up to the first stop sequence, and the client
      of a plain or live stream has exactly it ([DecodeProps]); a reply ends after at
      most two generations, and the next request of a conversation continues from
      the session of the turn before ([GenerateProps]).
    - Routes: whatever workers came and went, a route is found exactly when a chain
      of them covers the layers, and every worker reads from it what was written
      ([DistRouteProps]); a span of tokens over a route gives what the slices of the
      layers give one after the other, and no frame makes a worker keep a hash that
      is not the hash of the tokens of its session ([DistWorkProps]).
    - Model file and tokenizer: opening any file fails or gives a model whose parts
      lie within the file, and a file in the format is read back ([GgufProps],
      [GgufRoundTrip]); the hash table is a map ([StrTable]); the merge loop
      computes the one normal form of its relation and the pre-tokenizers cut a
      text into pieces that join to it ([TokenizerProps]); with a vocabulary loaded
      from a file the texts of the tokens of a text join to the text, special
      tokens included ([Vocab]).
    - Live streams: in whatever pieces a message is generated, the client gets the
      reasoning, the content and the calls that the parser of the finished message
      gives ([SseClaims]); the events of a Responses stream are a run of the
      client automaton ([ResponsesProps]); the bytes of replies and of events are
      read back as their JSON documents ([ReplyProps]).
    - Start-up: the placement is optimal among monotone ones, the argument parsers
      are exact and stay in range, the cache plan does not overflow, the memory
      lock is all or nothing ([LayerPack], [GpuArgs], [Storage]).
    - Some theorems are about inputs on which the code does not do what it means to:
      a lost tool call or a changed argument ([DsmlProps], [ToolRoundTrip]), a
      visible key that never matches and user text that is dropped in the GLM
      markup ([PromptProps]), a head whose end depends on the pieces received
      ([Http.lf_head_depends_on_pieces]), a size that wraps
      ([GgufProps.tensor_size_wraps]), an alias that changes a text
      ([Vocab.alias_changes_text]), a tool marker shown as reasoning and calls cut
      short in live streams ([SseClaims]), reasoning that leaves its call
      ([InputProps]), a model that is not among those listed ([ClientMain]), a
      correction without its conversation
      ([GenerateProps.correction_without_conversation]), and a snapshot of a slice
      of the layers without the rows of its cache
      ([DistWorkProps.slice_snapshot_empty]).

    ** Bounds and fuel

    Loops that are not structural take fuel that the theorems prove to be enough:
    the JSON skipper three times the length of the text plus two, the markup
    parsers and the tracker one more than the length of the text (every round
    consumes a byte), the eviction loop the number of entries, the memory lock the
    number of chunks, the loops of the tool memory the number of its entries, the
    dispatcher the number of slots (every round fills one), the prefill loop the length of
    the prompt, the request reader the size of what the network delivers, the
    model file its size, the merge loop the number of symbols, the loops over a text
    its length, a live tool stream the length of the text
    (every round consumes a byte), the loops over the members and items of a request
    the length of their text plus one, the decode loop the limit of the reply plus
    one (every round takes a token), a job two generations, the search for a route
    the number of workers plus one (every worker of a chain starts later), and a
    slice of layers the number of its tokens.
    Running out of fuel is never a silent success: it is a result of its own.

    ** Not modelled

    Inference itself (the rest of [engine/src/engine.c],
    [engine/src/tensor_parallel.c], the CUDA kernels) computes in floating point on
    device buffers; sockets, logging and timing are input and output; [engine/src/radix_tree.c] is a
    copy of a library and is seen as a finite map; the Rust engines of the other
    models are not C. Threads are interleaved at critical sections, under the
    mutual exclusion of their mutexes; a wait on a condition variable is a step
    that is enabled when its condition holds. The sampler, the evaluation of tokens
    and the payload of a session are arguments of the job. A live stream is given the
    text up to the safe length; the code passes the whole text, which is the same when
    a request has no stop sequences. Of [engine/src/server.c] the options of the
    command line, the log and the trace file are left, and of
    [engine/src/distributed.c] the snapshots of sessions, pipelined prefill, the
    command line and the handling of connections. *)
From Stdlib Require Export ZArith Lia.
From stdpp Require Export base list gmap strings.

#[global] Open Scope Z_scope.

(** ** Machine integers

    A w-bit unsigned C integer is a [Z]; every operation that can leave the
    range is followed by the wrap-around that the C abstract machine performs
    on the unsigned type.  [i32] is the two's-complement reading used by the
    [int] conversions of the code. *)
Declare Scope word_scope.
Delimit Scope word_scope with word.

Definition u8 (z : Z) : Z := z mod 2 ^ 8.
Definition u32 (z : Z) : Z := z mod 2 ^ 32.
Definition u64 (z : Z) : Z := z mod 2 ^ 64.
Definition i32 (z : Z) : Z := (z + 2 ^ 31) mod 2 ^ 32 - 2 ^ 31.

Abbreviation UINT32_MAX := 4294967295 (only parsing).
Abbreviation UINT64_MAX := 18446744073709551615 (only parsing).
Abbreviation SIZE_MAX := 18446744073709551615 (only parsing).
Abbreviation INT_MAX := 2147483647 (only parsing).
Abbreviation INT_MIN := (-2147483648) (only parsing).
Abbreviation INT64_MAX := 9223372036854775807 (only parsing).
Abbreviation LONG_MAX := 9223372036854775807 (only parsing).
Abbreviation LONG_MIN := (-9223372036854775808) (only parsing).

Definition is_u8 (z : Z) : Prop := 0 <= z < 256.
Definition is_u32 (z : Z) : Prop := 0 <= z <= UINT32_MAX.
Definition is_u64 (z : Z) : Prop := 0 <= z <= UINT64_MAX.
Definition is_i32 (z : Z) : Prop := INT_MIN <= z <= INT_MAX.

(** ** Bytes and C strings

    A byte buffer is a list of [Z] in [0..255].  A [char *] is the list of the
    bytes before its NUL terminator; [hd0] is the character the pointer is at
    (0 at the terminator). *)
Abbreviation bytes := (list Z).

Definition is_bytes (b : bytes) : Prop := Forall is_u8 b.

Definition bs (s : string) : bytes :=
  List.map (fun b => Z.of_N (Byte.to_N b)) (String.list_byte_of_string s).

Definition hd0 (s : bytes) : Z := match s with [] => 0 | c :: _ => c end.
Definition tl0 (s : bytes) : bytes := match s with [] => [] | _ :: r => r end.

(** The C string that starts at the first byte of a buffer: the bytes before
    the first NUL. *)
Fixpoint c_str (b : bytes) : bytes :=
  match b with
  | [] => []
  | c :: r => if c =? 0 then [] else c :: c_str r
  end.

(** [strncmp(s, lit, strlen(lit)) == 0], returning what follows the literal. *)
Fixpoint strip_prefix (lit s : bytes) : option bytes :=
  match lit, s with
  | [], _ => Some s
  | a :: lit', c :: s' => if a =? c then strip_prefix lit' s' else None
  | _ :: _, [] => None
  end.

Fixpoint bytes_eqb (a b : bytes) : bool :=
  match a, b with
  | [], [] => true
  | x :: a', y :: b' => (x =? y) && bytes_eqb a' b'
  | _, _ => false
  end.

(** ** Tactics *)

(** Turn boolean comparisons of the hypotheses and the goal into propositions. *)
Ltac bool_to_prop :=
  repeat match goal with
  | H : (_ && _)%bool = true |- _ => apply andb_prop in H; destruct H
  | H : (_ || _)%bool = false |- _ => apply orb_false_elim in H; destruct H
  | H : negb _ = true |- _ => apply negb_true_iff in H
  | H : negb _ = false |- _ => apply negb_false_iff in H
  | H : (_ =? _) = true |- _ => apply Z.eqb_eq in H
  | H : (_ =? _) = false |- _ => apply Z.eqb_neq in H
  | H : (_ <? _) = true |- _ => apply Z.ltb_lt in H
  | H : (_ <? _) = false |- _ => apply Z.ltb_ge in H
  | H : (_ <=? _) = true |- _ => apply Z.leb_le in H
  | H : (_ <=? _) = false |- _ => apply Z.leb_gt in H
  | H : (_ >? _) = true |- _ => rewrite Z.gtb_ltb in H
  | H : (_ >? _) = false |- _ => rewrite Z.gtb_ltb in H
  | H : (_ >=? _) = true |- _ => rewrite Z.geb_leb in H
  | H : (_ >=? _) = false |- _ => rewrite Z.geb_leb in H
  end.

(** Case analysis on the innermost test of an [if] of the goal. *)
Ltac case_if :=
  match goal with
  | |- context [if ?b then _ else _] =>
      lazymatch b with
      | context [if _ then _ else _] => fail
      | _ => let E := fresh "E" in destruct b eqn:E
      end
  end.

Ltac case_if_in H :=
  match type of H with
  | context [if ?b then _ else _] =>
      lazymatch b with
      | context [if _ then _ else _] => fail
      | _ => let E := fresh "E" in destruct b eqn:E
      end
  end.

(** Case analysis on the scrutinee of a [match] of a hypothesis. *)
Ltac case_match_in H :=
  match type of H with
  | context [match ?x with _ => _ end] =>
      lazymatch x with
      | context [match _ with _ => _ end] => fail
      | _ => let E := fresh "E" in destruct x eqn:E
      end
  end.

Create HintDb spark.
Create Rewrite HintDb spark_rw.

(** ** Lemmas on machine integers *)

Lemma u8_range z : is_u8 (u8 z).
Proof. unfold is_u8, u8. pose proof (Z.mod_pos_bound z (2 ^ 8)). lia. Qed.

Lemma u32_range z : is_u32 (u32 z).
Proof. unfold is_u32, u32. pose proof (Z.mod_pos_bound z (2 ^ 32)). lia. Qed.

Lemma u64_range z : is_u64 (u64 z).
Proof. unfold is_u64, u64. pose proof (Z.mod_pos_bound z (2 ^ 64)). lia. Qed.

Lemma u8_small z : is_u8 z → u8 z = z.
Proof. unfold is_u8, u8. intros. apply Z.mod_small. lia. Qed.

Lemma u32_small z : is_u32 z → u32 z = z.
Proof. unfold is_u32, u32. intros. apply Z.mod_small. lia. Qed.

Lemma u64_small z : is_u64 z → u64 z = z.
Proof. unfold is_u64, u64. intros. apply Z.mod_small. lia. Qed.

Lemma i32_small z : is_i32 z → i32 z = z.
Proof. unfold is_i32, i32. intros. rewrite Z.mod_small; lia. Qed.

#[export] Hint Resolve u8_range u32_range u64_range : spark.

Lemma lor_u8 a b : is_u8 a → is_u8 b → is_u8 (Z.lor a b).
Proof.
  unfold is_u8. intros Ha Hb. assert (0 <= Z.lor a b) by (apply Z.lor_nonneg; lia).
  split; [done|]. destruct (Z.eq_dec (Z.lor a b) 0) as [->|]; [lia|].
  change 256 with (2 ^ 8). apply Z.log2_lt_pow2; [lia|]. rewrite Z.log2_lor by lia.
  assert (∀ x, 0 <= x < 256 → Z.log2 x < 8) as Hl; [|pose proof (Hl a Ha); pose proof (Hl b Hb); lia].
  intros x Hx. destruct (Z.eq_dec x 0) as [->|]; [simpl; lia|]. apply Z.log2_lt_pow2; lia.
Qed.

(** ** Lemmas on bytes *)

Lemma bytes_eqb_eq a b : bytes_eqb a b = true ↔ a = b.
Proof.
  revert b; induction a as [|x a IH]; destruct b as [|y b]; simpl; try done.
  rewrite andb_true_iff, Z.eqb_eq, IH. naive_solver.
Qed.

Lemma bytes_eqb_refl a : bytes_eqb a a = true.
Proof. by apply bytes_eqb_eq. Qed.

Lemma bytes_eqb_neq a b : bytes_eqb a b = false ↔ a ≠ b.
Proof.
  rewrite <- bytes_eqb_eq. destruct (bytes_eqb a b); naive_solver.
Qed.

Lemma strip_prefix_Some lit s r : strip_prefix lit s = Some r ↔ s = lit ++ r.
Proof.
  revert s; induction lit as [|a lit IH]; intros s; simpl.
  - naive_solver.
  - destruct s as [|c s]; [naive_solver|].
    destruct (Z.eqb_spec a c) as [->|]; [|naive_solver].
    rewrite IH. naive_solver.
Qed.

Lemma strip_prefix_app lit r : strip_prefix lit (lit ++ r) = Some r.
Proof. by apply strip_prefix_Some. Qed.

Lemma c_str_id b : Forall (λ c, c ≠ 0) b → c_str b = b.
Proof.
  induction 1 as [|c b Hc _ IH]; [done|]. simpl.
  destruct (Z.eqb_spec c 0); [done|]. by rewrite IH.
Qed.

Lemma c_str_no_nul b : Forall (λ c, c ≠ 0) (c_str b).
Proof.
  induction b as [|c b IH]; simpl; [constructor|].
  destruct (Z.eqb_spec c 0); constructor; auto.
Qed.

(** A decision procedure for [is_bytes]. *)
Definition is_bytesb (b : bytes) : bool := forallb (λ c, (0 <=? c) && (c <? 256)) b.

Lemma is_bytesb_ok b : is_bytesb b = true → is_bytes b.
Proof.
  unfold is_bytesb. rewrite forallb_forall. intros H. apply List.Forall_forall.
  intros c Hc. apply H in Hc. unfold is_u8. lia.
Qed.

#[export] Hint Resolve c_str_no_nul : spark.
#[export] Hint Rewrite strip_prefix_app bytes_eqb_refl : spark_rw.

(** ** Sums over lists *)

Definition sumZ (l : list Z) : Z := foldr Z.add 0 l.

Lemma sumZ_app l k : sumZ (l ++ k) = sumZ l + sumZ k.
Proof. unfold sumZ. induction l; simpl; lia. Qed.

Lemma sumZ_nonneg l : Forall (λ z, 0 <= z) l → 0 <= sumZ l.
Proof. unfold sumZ. induction 1; simpl; lia. Qed.

#[export] Hint Rewrite sumZ_app : spark_rw.

Lemma elem_of_snoc {A} (x y : A) v : x ∈ v ++ [y] ↔ x ∈ v ∨ x = y.
Proof. by rewrite elem_of_app, list_elem_of_singleton. Qed.

Lemma Forall_snoc {A} (P : A → Prop) v y : Forall P (v ++ [y]) ↔ Forall P v ∧ P y.
Proof. by rewrite Forall_app, Forall_singleton. Qed.
