(* ===== verification/CLib.v ===== *)
(** * The C library functions the sources call

    Character classes of the "C" locale, decimal printing, the [strtol] family
    with its range error, substring search, and the measure lemmas that parsers
    built on them share.  A pointer into a C string is the list of bytes from it
    to the terminator, so a function that moves a pointer returns a suffix. *)
From S2P Require Import Prelude.

(** ** Character classes *)

Definition isspace (c : Z) : bool := (c =? 32) || ((9 <=? c) && (c <=? 13)).
Definition isdigit (c : Z) : bool := (48 <=? c) && (c <=? 57).
Definition isxdigit (c : Z) : bool :=
  isdigit c || ((97 <=? c) && (c <=? 102)) || ((65 <=? c) && (c <=? 70)).
Definition isupper (c : Z) : bool := (65 <=? c) && (c <=? 90).
Definition tolower (c : Z) : Z := if isupper c then c + 32 else c.

Fixpoint drop_while (f : Z → bool) (s : bytes) : bytes :=
  match s with
  | [] => []
  | c :: r => if f c then drop_while f r else s
  end.

Definition skip_space (s : bytes) : bytes := drop_while isspace s.

(** ** Decimal numbers *)

(** The value and the rest after the longest run of digits, and whether the
    run is nonempty. *)
Fixpoint scan_digits (acc : Z) (seen : bool) (s : bytes) : Z * bool * bytes :=
  match s with
  | [] => (acc, seen, [])
  | c :: r => if isdigit c then scan_digits (acc * 10 + (c - 48)) true r
              else (acc, seen, s)
  end.

Inductive sign := Pos | Neg.

Definition scan_sign (s : bytes) : sign * bytes :=
  match s with
  | 43 :: r => (Pos, r)
  | 45 :: r => (Neg, r)
  | _ => (Pos, s)
  end.

(** [strtol(s, &end, 10)]: the value, whether [errno] is [ERANGE], and [end]
    ([s] itself when no conversion is performed). *)
Definition strtol (s : bytes) : Z * bool * bytes :=
  let '(sg, s1) := scan_sign (skip_space s) in
  let '(n, seen, rest) := scan_digits 0 false s1 in
  if seen then
    let v := match sg with Pos => n | Neg => - n end in
    if v >? LONG_MAX then (LONG_MAX, true, rest)
    else if v <? LONG_MIN then (LONG_MIN, true, rest)
    else (v, false, rest)
  else (0, false, s).

(** [strtoull] and [strtoul] (64-bit [unsigned long]): a leading minus negates
    in the unsigned type. *)
Definition strtoull (s : bytes) : Z * bool * bytes :=
  let '(sg, s1) := scan_sign (skip_space s) in
  let '(n, seen, rest) := scan_digits 0 false s1 in
  if seen then
    if n >? UINT64_MAX then (UINT64_MAX, true, rest)
    else (match sg with Pos => n | Neg => u64 (- n) end, false, rest)
  else (0, false, s).

(** The number a run of digits denotes. *)
Definition dec_value (d : bytes) : Z := foldl (λ a c, a * 10 + (c - 48)) 0 d.

(** ["%d"] and ["%u"]: decimal digits, most significant first. *)
Fixpoint digits_rev (fuel : nat) (n : Z) : bytes :=
  match fuel with
  | O => []
  | S fuel' =>
      if n <? 10 then [48 + n] else (48 + n mod 10) :: digits_rev fuel' (n / 10)
  end.

Definition fmt_u (n : Z) : bytes :=
  rev (digits_rev (S (Z.to_nat (Z.log2 (Z.max n 1)))) n).

Definition fmt_d (n : Z) : bytes :=
  if n <? 0 then 45 :: fmt_u (- n) else fmt_u n.

(** ** Substrings *)

(** [strstr(s, needle)]: the offset of the first occurrence. *)
Fixpoint strstr (s needle : bytes) : option nat :=
  match strip_prefix needle s with
  | Some _ => Some 0%nat
  | None => match s with
            | [] => None
            | _ :: r => S <$> strstr r needle
            end
  end.

(** ** Lemmas *)

Lemma drop_while_length f s : (length (drop_while f s) <= length s)%nat.
Proof. induction s as [|c r IH]; simpl; [lia|]. destruct (f c); simpl; lia. Qed.

Lemma drop_while_stop f s : (∀ c r, s = c :: r → f c = false) → drop_while f s = s.
Proof. destruct s as [|c r]; [done|]. intros H. simpl. by rewrite (H c r). Qed.

Lemma drop_while_head f s c r : drop_while f s = c :: r → f c = false.
Proof.
  induction s as [|a s IH]; simpl; [done|]. destruct (f a) eqn:E; [done|].
  intros. by simplify_eq.
Qed.

Lemma skip_space_length s : (length (skip_space s) <= length s)%nat.
Proof. apply drop_while_length. Qed.

#[export] Hint Resolve skip_space_length drop_while_length : spark.

Lemma isdigit_true c : isdigit c = true ↔ 48 <= c <= 57.
Proof. unfold isdigit. lia. Qed.

Lemma scan_digits_app acc seen d rest :
  Forall (λ c, isdigit c = true) d → (∀ c r, rest = c :: r → isdigit c = false) →
  scan_digits acc seen (d ++ rest)
  = (foldl (λ a c, a * 10 + (c - 48)) acc d,
     match d with [] => seen | _ => true end, rest).
Proof.
  intros Hd Hr; revert acc seen; induction Hd as [|c d Hc _ IH]; intros acc seen; simpl.
  - destruct rest as [|c r]; [done|]. simpl. by rewrite (Hr c r).
  - rewrite Hc, IH. by destruct d.
Qed.

Lemma scan_digits_rest acc seen s n b rest :
  scan_digits acc seen s = (n, b, rest) →
  ∃ d, s = d ++ rest ∧ Forall (λ c, isdigit c = true) d ∧ (b = true → seen = false → d ≠ []).
Proof.
  revert acc seen; induction s as [|c s IH]; intros acc seen; simpl.
  - intros. simplify_eq. exists []. repeat split; [constructor|congruence].
  - destruct (isdigit c) eqn:Ec.
    + intros (d & -> & Hd & _)%IH. exists (c :: d). split; [done|]. split; [by constructor|done].
    + intros. simplify_eq. exists []. repeat split; [constructor|congruence].
Qed.

Lemma digits_rev_digit fuel n :
  0 <= n → Forall (λ c, isdigit c = true) (digits_rev fuel n).
Proof.
  revert n; induction fuel as [|fuel IH]; intros n Hn; simpl; [constructor|].
  case_if; bool_to_prop.
  - constructor; [|constructor]. apply isdigit_true. lia.
  - constructor; [|apply IH; apply Z.div_pos; lia].
    apply isdigit_true. pose proof (Z.mod_pos_bound n 10). lia.
Qed.

Lemma digits_rev_value fuel n :
  0 <= n < 2 ^ Z.of_nat fuel →
  foldr (λ c a, a * 10 + (c - 48)) 0 (digits_rev fuel n) = n.
Proof.
  revert n; induction fuel as [|fuel IH]; intros n Hn; simpl; [simpl in Hn; lia|].
  case_if; bool_to_prop; simpl; [lia|].
  rewrite IH; [pose proof (Z.div_mod n 10); lia|].
  split; [apply Z.div_pos; lia|]. apply Z.div_lt_upper_bound; [lia|].
  rewrite Nat2Z.inj_succ, Z.pow_succ_r in Hn by lia. lia.
Qed.

Lemma digits_rev_nonempty fuel n : digits_rev (S fuel) n ≠ [].
Proof. simpl. by case_if. Qed.

Lemma fmt_u_digit n : 0 <= n → Forall (λ c, isdigit c = true) (fmt_u n).
Proof. intros. unfold fmt_u. apply Forall_rev. by apply digits_rev_digit. Qed.

Lemma fmt_u_nonempty n : fmt_u n ≠ [].
Proof.
  unfold fmt_u. intros H%(f_equal (@rev Z)). rewrite rev_involutive in H.
  by apply digits_rev_nonempty in H.
Qed.

Lemma foldl_rev {A B} (f : A → B → A) a l :
  foldl f a (rev l) = foldr (λ b x, f x b) a l.
Proof. induction l as [|b l IH]; [done|]. simpl. by rewrite foldl_snoc, IH. Qed.

Lemma fmt_u_value n : 0 <= n → foldl (λ a c, a * 10 + (c - 48)) 0 (fmt_u n) = n.
Proof.
  intros Hn. unfold fmt_u. rewrite foldl_rev, digits_rev_value; [done|]. split; [done|].
  rewrite Nat2Z.inj_succ, Z2Nat.id by apply Z.log2_nonneg.
  pose proof (Z.log2_spec (Z.max n 1)). lia.
Qed.

(** Printing then scanning a natural number gives it back. *)
Lemma scan_digits_fmt_u n rest :
  0 <= n → (∀ c r, rest = c :: r → isdigit c = false) →
  scan_digits 0 false (fmt_u n ++ rest) = (n, true, rest).
Proof.
  intros Hn Hr. rewrite scan_digits_app by auto using fmt_u_digit.
  rewrite fmt_u_value by done. pose proof (fmt_u_nonempty n). by destruct (fmt_u n).
Qed.

Lemma fmt_u_head n c r : 0 <= n → fmt_u n = c :: r → isdigit c = true.
Proof. intros Hn E. pose proof (fmt_u_digit n Hn) as H. rewrite E in H. by inversion H. Qed.

Lemma scan_sign_digit c r : isdigit c = true → scan_sign (c :: r) = (Pos, c :: r).
Proof.
  intros Hc%isdigit_true. simpl.
  destruct c as [|p|p]; try done; do 6 (destruct p; try done); lia.
Qed.

Lemma strtol_fmt_u n rest :
  0 <= n <= LONG_MAX → (∀ c r, rest = c :: r → isdigit c = false) →
  strtol (fmt_u n ++ rest) = (n, false, rest).
Proof.
  intros Hn Hr. unfold strtol, skip_space.
  pose proof (fmt_u_nonempty n). destruct (fmt_u n) as [|c r] eqn:E; [done|].
  pose proof (fmt_u_head n c r ltac:(lia) E) as Hc%isdigit_true.
  rewrite drop_while_stop; [|intros ? ? [= <- <-]; unfold isspace; lia].
  change ((c :: r) ++ rest) with (c :: r ++ rest).
  rewrite scan_sign_digit by (by apply isdigit_true).
  change (c :: r ++ rest) with ((c :: r) ++ rest).
  rewrite <- E, scan_digits_fmt_u by (done || lia).
  rewrite Z.gtb_ltb. repeat case_if; bool_to_prop; [lia..|done].
Qed.

(** [strtoull] on a nonempty string of digits. *)
Lemma strtoull_digits d :
  d ≠ [] → Forall (λ c, isdigit c = true) d →
  strtoull d = (if dec_value d >? UINT64_MAX then (UINT64_MAX, true, [])
                else (dec_value d, false, [])).
Proof.
  intros Hne Hd. unfold strtoull, skip_space. destruct Hd as [|c d Hc Hd]; [done|].
  rewrite drop_while_stop;
    [|intros ? ? [= <- <-]; apply isdigit_true in Hc; unfold isspace; lia].
  rewrite scan_sign_digit by done.
  rewrite <- (app_nil_r (c :: d)) at 1.
  rewrite scan_digits_app; [done|by constructor|done].
Qed.

Lemma strstr_Some s needle i :
  strstr s needle = Some i → ∃ pre post, s = pre ++ needle ++ post ∧ length pre = i.
Proof.
  revert i; induction s as [|c s IH]; intros i; simpl.
  - destruct (strip_prefix needle []) as [r|] eqn:E; [|done]. intros. simplify_eq.
    apply strip_prefix_Some in E. by exists [], r.
  - destruct (strip_prefix needle (c :: s)) as [r|] eqn:E; intros H.
    + simplify_eq. apply strip_prefix_Some in E. by exists [], r.
    + apply fmap_Some in H as (j & Hj & ->). destruct (IH j Hj) as (pre & post & -> & <-).
      by exists (c :: pre), post.
Qed.

Lemma strstr_first s needle i j pre post :
  strstr s needle = Some i → s = pre ++ needle ++ post → length pre = j → (i <= j)%nat.
Proof.
  revert i j pre; induction s as [|c s IH]; intros i j pre; simpl.
  - destruct (strip_prefix needle []) eqn:E; [|done]. intros. simplify_eq. lia.
  - destruct (strip_prefix needle (c :: s)) eqn:E; intros H Hs Hj; [simplify_eq; lia|].
    apply fmap_Some in H as (k & Hk & ->). destruct pre as [|a pre].
    + simpl in Hs. rewrite Hs, strip_prefix_app in E. done.
    + injection Hs as -> Hs. subst j. simpl. apply le_n_S. by eapply IH.
Qed.

Lemma strstr_None s needle pre post : strstr s needle = None → s ≠ pre ++ needle ++ post.
Proof.
  revert pre; induction s as [|c s IH]; intros pre; simpl.
  - destruct (strip_prefix needle []) eqn:E; [done|]. intros _ Hs.
    destruct pre, needle; simpl in *; simplify_eq.
  - destruct (strip_prefix needle (c :: s)) eqn:E; [done|].
    intros H%fmap_None Hs. destruct pre as [|a pre].
    + simpl in Hs. rewrite Hs, strip_prefix_app in E. done.
    + injection Hs as -> Hs. by eapply IH.
Qed.
