(* ===== verification/LayerPack.v ===== *)
(** * Layer placement across devices

    Model of [engine/src/layer_pack.c] and [engine/include/layer_pack.h]: the
    greedy, monotonic-contiguous packer that assigns the embedding, the
    transformer layers and the output head to GPU tiers and then to the CPU
    tier, and the textual layout report.  A tier is numbered [0 .. n_gpus - 1];
    the CPU tier is [DS4_LAYER_PACK_CPU = -1] in the output array. *)
From S2P Require Import Prelude.

Abbreviation DS4_LAYER_PACK_MAX_GPUS := 16 (only parsing).
Abbreviation DS4_LAYER_PACK_CPU := (-1) (only parsing).

(** [layer_pack_config]: per-device byte budgets and the device count. *)
Record layer_pack_config := LayerPackConfig {
  gpu_budget_bytes : list Z;
  n_gpus : Z;
}.

(** The inner [while] loop: advance [d] past every device whose remaining
    budget is smaller than the entry.  [budget] holds the live devices. *)
Fixpoint advance (fuel : nat) (need : Z) (budget : list Z) (d : nat) : nat :=
  match fuel with
  | O => d
  | S fuel' =>
      match budget !! d with
      | Some b => if need >? b then advance fuel' need budget (S d) else d
      | None => d
      end
  end.

(** One iteration of the outer [for] loop: the device written for the entry,
    and the loop state [(budget, d)] after it. *)
Definition place_entry (need : Z) (budget : list Z) (d : nat) :
    Z * (list Z * nat) :=
  let d' := advance (length budget) need budget d in
  match budget !! d' with
  | Some b => (Z.of_nat d', (<[d' := b - need]> budget, d'))
  | None => (DS4_LAYER_PACK_CPU, (budget, d'))
  end.

Fixpoint place_entries (entries : list Z) (budget : list Z) (d : nat) : list Z :=
  match entries with
  | [] => []
  | e :: rest =>
      let '(dev, (budget', d')) := place_entry e budget d in
      dev :: place_entries rest budget' d'
  end.

(** [ds4_compute_layer_placement]: a return code and the contents of
    [device_for_entry[0 .. n_entries - 1]] when the code is 0.  [None] stands
    for a null pointer. *)
Definition ds4_compute_layer_placement
    (entry_bytes : option (list Z)) (n_entries : Z)
    (cfg : option layer_pack_config) (device_for_entry : option (list Z)) :
    Z * option (list Z) :=
  match entry_bytes, cfg, device_for_entry with
  | Some eb, Some c, Some out =>
      if n_entries <? 0 then (2, Some out)
      else if (n_gpus c <? 0) || (n_gpus c >? DS4_LAYER_PACK_MAX_GPUS)
      then (3, Some out)
      else
        let budget := take (Z.to_nat (n_gpus c)) (gpu_budget_bytes c) in
        let entries := take (Z.to_nat n_entries) eb in
        (0, Some (place_entries entries budget 0
                  ++ drop (Z.to_nat n_entries) out))
  | _, _, _ => (1, device_for_entry)
  end.

(** ** The textual report *)

(** [append_pseudo_layer_tags]: the buffer has room for both tags (64 bytes). *)
Definition append_pseudo_layer_tags (dev : list Z) (tier n_entries n_layers : Z) :
    bytes :=
  (if (n_entries >? 0) && (nth 0 dev 0 =? tier) then bs " + embedding" else [])
  ++ (if (n_entries >? 1) && (n_layers + 1 <? n_entries)
         && (nth (Z.to_nat (n_layers + 1)) dev 0 =? tier)
      then bs " + output head" else []).

(** The scan of [print_layer_range_for_tier]: [first] and [last] human-facing
    layer numbers owned by the tier, both -1 when it owns none. *)
Fixpoint layer_range_scan (dev : list Z) (tier i : Z) (fuel : nat)
    (first last : Z) : Z * Z :=
  match fuel with
  | O => (first, last)
  | S fuel' =>
      if nth (Z.to_nat i) dev 0 =? tier
      then layer_range_scan dev tier (i + 1) fuel'
             (if first <? 0 then i - 1 else first) (i - 1)
      else layer_range_scan dev tier (i + 1) fuel' first last
  end.

Definition layer_range_for_tier (dev : list Z) (tier n_entries n_layers : Z) : Z * Z :=
  layer_range_scan dev tier 1 (Z.to_nat (Z.min n_layers (n_entries - 1))) (-1) (-1).

(** ** The placement problem, stated without the algorithm

    A tier assignment is a list of tiers in [0 .. n] ([n] is the CPU tier,
    ordered after every GPU).  It is feasible when it is monotone and every GPU
    receives at most its budget. *)
Definition tier_of (n : nat) (dev : Z) : nat :=
  if dev =? DS4_LAYER_PACK_CPU then n else Z.to_nat dev.

(** Bytes that the entries assigned to tier [t] need. *)
Fixpoint load (entries : list Z) (tiers : list nat) (t : nat) : Z :=
  match entries, tiers with
  | e :: es, u :: us => (if decide (u = t) then e else 0) + load es us t
  | _, _ => 0
  end.

Inductive monotone_from : nat → list nat → Prop :=
| mono_nil d : monotone_from d []
| mono_cons d t ts : (d <= t)%nat → monotone_from t ts → monotone_from d (t :: ts).

Definition feasible (entries budget : list Z) (d : nat) (tiers : list nat) : Prop :=
  length tiers = length entries ∧
  monotone_from d tiers ∧
  ∀ t b, budget !! t = Some b → load entries tiers t <= b.

(** ** The inner loop *)

Section Advance.
Context (need : Z) (budget : list Z).

Lemma advance_ge fuel d : (d <= advance fuel need budget d)%nat.
Proof.
  revert d; induction fuel as [|fuel IH]; intros d; simpl; [lia|].
  destruct (budget !! d); [|lia]. case_if; [|lia]. specialize (IH (S d)). lia.
Qed.

(** A device with enough budget stops the loop. *)
Lemma advance_le fuel d t b :
  (d <= t)%nat → budget !! t = Some b → need <= b →
  (advance fuel need budget d <= t)%nat.
Proof.
  revert d; induction fuel as [|fuel IH]; intros d Hd Ht Hb; simpl; [lia|].
  destruct (budget !! d) as [b'|] eqn:Ed; [|lia]. case_if; bool_to_prop; [|lia].
  apply IH; [|done..]. destruct (decide (d = t)) as [->|]; [|lia].
  rewrite Ht in Ed. simplify_eq. lia.
Qed.

Lemma advance_length fuel d :
  (d <= length budget)%nat → (advance fuel need budget d <= length budget)%nat.
Proof.
  revert d; induction fuel as [|fuel IH]; intros d Hd; simpl; [lia|].
  destruct (budget !! d) eqn:Ed; [|lia]. apply lookup_lt_Some in Ed.
  case_if; [|lia]. apply IH. lia.
Qed.

(** With fuel for every device the loop ends on a device that fits. *)
Lemma advance_fits fuel d b :
  (length budget <= d + fuel)%nat →
  budget !! advance fuel need budget d = Some b → need <= b.
Proof.
  revert d; induction fuel as [|fuel IH]; intros d Hf; simpl.
  - intros Hb%lookup_lt_Some. lia.
  - destruct (budget !! d) as [b'|] eqn:Ed; [|congruence].
  case_if; bool_to_prop; [apply IH; lia|]. intros. simplify_eq. lia.
Qed.
End Advance.

Lemma load_nonneg entries tiers t :
  Forall (λ e, 0 <= e) entries → 0 <= load entries tiers t.
Proof.
  intros H; revert tiers; induction H as [|e es He _ IH]; intros [|u us]; simpl; try lia.
  specialize (IH us). case_decide; lia.
Qed.

Lemma tier_of_nat n d : tier_of n (Z.of_nat d) = d.
Proof. unfold tier_of. case_if; bool_to_prop; lia. Qed.

Lemma tier_of_dev n d :
  tier_of n (if decide (d < n)%nat then Z.of_nat d else -1) = (d `min` n)%nat.
Proof. case_decide; [rewrite tier_of_nat; lia|unfold tier_of; simpl; lia]. Qed.

Lemma place_entries_length entries budget d :
  length (place_entries entries budget d) = length entries.
Proof.
  revert budget d; induction entries as [|e es IH]; intros budget d; [done|].
  simpl. unfold place_entry. destruct (budget !! _); simpl; by rewrite IH.
Qed.

(** The devices produced are monotone from the loop's current device. *)
Lemma place_entries_monotone entries budget d :
  (d <= length budget)%nat →
  monotone_from d (tier_of (length budget) <$> place_entries entries budget d).
Proof.
  revert budget d; induction entries as [|e es IH]; intros budget d Hd; simpl; [constructor|].
  unfold place_entry. pose proof (advance_ge e budget (length budget) d).
  pose proof (advance_length e budget (length budget) d Hd).
  destruct (budget !! _) as [b|] eqn:Eb; simpl.
  - rewrite tier_of_nat. constructor; [lia|].
    specialize (IH (<[advance (length budget) e budget d:=b - e]> budget)).
    rewrite length_insert in IH. by apply IH.
  - apply lookup_ge_None in Eb. change (tier_of (length budget) (-1)) with (length budget).
    constructor; [lia|]. replace (advance _ e budget d) with (length budget) by lia.
    by apply IH.
Qed.

(** Charging an entry to a tier, on any assignment. *)
Definition charge (t : nat) (e : Z) (budget : list Z) : list Z :=
  match budget !! t with Some a => <[t := a - e]> budget | None => budget end.

Lemma charge_length t e budget : length (charge t e budget) = length budget.
Proof. unfold charge. destruct (budget !! t); [apply length_insert|done]. Qed.

Lemma charge_eq t e budget a :
  budget !! t = Some a → charge t e budget !! t = Some (a - e).
Proof.
  unfold charge. intros Ha. rewrite Ha.
  apply list_lookup_insert_eq. by eapply lookup_lt_Some.
Qed.

Lemma charge_ne t u e budget : t ≠ u → charge t e budget !! u = budget !! u.
Proof.
  unfold charge. intros. destruct (budget !! t); [by apply list_lookup_insert_ne|done].
Qed.

Lemma place_entry_charge need budget d :
  let d' := advance (length budget) need budget d in
  (d <= length budget)%nat →
  place_entry need budget d
  = (if decide (d' < length budget)%nat then Z.of_nat d' else -1,
     (charge d' need budget, d')).
Proof.
  intros d' Hd. unfold place_entry, charge. fold d'.
  destruct (budget !! d') eqn:E.
  - apply lookup_lt_Some in E. by rewrite decide_True.
  - apply lookup_ge_None in E. rewrite decide_False by lia. done.
Qed.

(** No GPU receives more than its budget. *)
Lemma place_entries_load entries budget d t b :
  Forall (λ z, 0 <= z) budget → (d <= length budget)%nat →
  budget !! t = Some b →
  load entries (tier_of (length budget) <$> place_entries entries budget d) t <= b.
Proof.
  revert budget d b; induction entries as [|e es IH]; intros budget d b Hb Hd Ht.
  { by eapply Forall_lookup_1 in Hb. }
  pose proof (advance_length e budget (length budget) d Hd) as Hadv.
  pose proof (advance_fits e budget (length budget) d) as Hfits.
  cbn [place_entries]. rewrite place_entry_charge by done.
  set (d' := advance _ e budget d) in *.
  assert (Forall (λ z, 0 <= z) (charge d' e budget)) as Hb'.
  { unfold charge. destruct (budget !! d') as [b'|] eqn:E; [|done].
    apply Forall_insert; [done|]. specialize (Hfits b' ltac:(lia) eq_refl). lia. }
  specialize (IH (charge d' e budget) d'). rewrite charge_length in IH. csimpl.
  rewrite tier_of_dev, Nat.min_l by done. destruct (decide (d' = t)) as [Hdt|Hdt].
  - rewrite Hdt in *. specialize (IH (b - e) Hb' Hadv (charge_eq _ _ _ _ Ht)). lia.
  - specialize (IH b Hb' Hadv). rewrite charge_ne in IH by done. specialize (IH Ht). lia.
Qed.

Lemma feasible_charge e es budget d t ts :
  feasible (e :: es) budget d (t :: ts) → feasible es (charge t e budget) t ts.
Proof.
  intros (Hl & Hm & Hf). inversion Hm; subst. split; [by simpl in Hl; lia|].
  split; [done|]. intros u b Hu. destruct (decide (t = u)) as [->|Hne].
  - destruct (budget !! u) as [a|] eqn:Ea.
    + rewrite (charge_eq _ _ _ _ Ea) in Hu. simplify_eq.
      specialize (Hf u a Ea). simpl in Hf. rewrite decide_True in Hf by done. lia.
    + unfold charge in Hu. rewrite Ea in Hu. congruence.
  - rewrite charge_ne in Hu by done. specialize (Hf u b Hu). simpl in Hf.
    rewrite decide_False in Hf by done. lia.
Qed.

(** [ba] leaves no more room than [bg] on the tiers from [d] on. *)
Definition dominated (d : nat) (ba bg : list Z) : Prop :=
  ∀ t a g, (d <= t)%nat → ba !! t = Some a → bg !! t = Some g → a <= g.

Lemma dominated_charge da ba bg t d' e :
  dominated da ba bg → (da <= t)%nat → (d' <= t)%nat → 0 <= e →
  dominated t (charge t e ba) (charge d' e bg).
Proof.
  intros Hdom Ht Hd He u a g Hu Ha Hg.
  destruct (decide (t = u)) as [->|Hne].
  - destruct (ba !! u) as [a0|] eqn:Ea; [|unfold charge in Ha; rewrite Ea in Ha; congruence].
    rewrite (charge_eq _ _ _ _ Ea) in Ha. simplify_eq.
    destruct (decide (d' = u)) as [->|].
    + destruct (bg !! u) as [g0|] eqn:Eg; [|unfold charge in Hg; rewrite Eg in Hg; congruence].
      rewrite (charge_eq _ _ _ _ Eg) in Hg. simplify_eq.
      specialize (Hdom u a0 g0 ltac:(lia) Ea Eg). lia.
    + rewrite charge_ne in Hg by done. specialize (Hdom u a0 g ltac:(lia) Ea Hg). lia.
  - rewrite charge_ne in Ha by done. rewrite charge_ne in Hg by lia.
    apply (Hdom u); [lia|done..].
Qed.

(** The greedy choice is never behind the tier of a feasible assignment. *)
Lemma advance_stays_ahead e es ba bg da dg t ts :
  0 <= e → Forall (λ z, 0 <= z) es → length bg = length ba → (dg <= da)%nat →
  dominated da ba bg → feasible (e :: es) ba da (t :: ts) → (t < length bg)%nat →
  (advance (length bg) e bg dg <= t)%nat.
Proof.
  intros He Hes Hlen Hd Hdom (_ & Hm & Hf) Ht. inversion Hm; subst.
  destruct (lookup_lt_is_Some_2 ba t) as [a Ha]; [lia|].
  destruct (lookup_lt_is_Some_2 bg t Ht) as [g Hg].
  specialize (Hf t a Ha). simpl in Hf. rewrite decide_True in Hf by done.
  pose proof (load_nonneg es ts t Hes).
  apply (advance_le e bg (length bg) dg t g); [lia|done|].
  specialize (Hdom t a g ltac:(lia) Ha Hg). lia.
Qed.

(** Greedy stays ahead of every feasible assignment. *)
Lemma place_entries_stays_ahead entries bg dg ba da tiers :
  Forall (λ e, 0 <= e) entries → length bg = length ba → (dg <= da)%nat →
  (dg <= length bg)%nat → dominated da ba bg → feasible entries ba da tiers →
  Forall2 (λ dev t, (tier_of (length bg) dev <= t `min` length bg)%nat)
    (place_entries entries bg dg) tiers.
Proof.
  intros He; revert bg dg ba da tiers.
  induction He as [|e es He Hes IH]; intros bg dg ba da tiers Hlen Hd Hdl Hdom Hf.
  { destruct Hf as (Hl & _). destruct tiers; [constructor|done]. }
  destruct tiers as [|t ts]; [by destruct Hf|].
  assert (da <= t)%nat by (destruct Hf as (_ & Hm & _); by inversion Hm).
  pose proof (advance_length e bg (length bg) dg Hdl).
  pose proof (advance_stays_ahead e es ba bg da dg t ts He Hes Hlen Hd Hdom Hf) as Hahead.
  simpl. rewrite place_entry_charge by done. set (d' := advance _ e bg dg) in *.
  assert (d' <= t)%nat by (destruct (decide (t < length bg)%nat); auto with lia).
  constructor.
  - rewrite tier_of_dev. lia.
  - specialize (IH (charge d' e bg) d' (charge t e ba) t ts).
    rewrite !charge_length in IH. apply IH; [done..| |].
    + by eapply dominated_charge.
    + by eapply feasible_charge.
Qed.

(** ** Properties *)

(** The valid calls: non-null arguments, counts in range, [size_t] data. *)
Definition valid_call (eb : list Z) (c : layer_pack_config) (out : list Z) : Prop :=
  0 <= n_gpus c <= DS4_LAYER_PACK_MAX_GPUS ∧
  length (gpu_budget_bytes c) = 16%nat ∧
  length out = length eb ∧
  Forall (λ e, 0 <= e) eb ∧ Forall (λ b, 0 <= b) (gpu_budget_bytes c).

(** The devices the packer writes for all the entries of a valid call. *)
Lemma placement_valid eb c out :
  valid_call eb c out →
  ds4_compute_layer_placement (Some eb) (Z.of_nat (length eb)) (Some c) (Some out)
  = (0, Some (place_entries eb (take (Z.to_nat (n_gpus c)) (gpu_budget_bytes c)) 0)).
Proof.
  intros (Hn & Hl & Ho & _). unfold ds4_compute_layer_placement.
  destruct (Z.ltb_spec (Z.of_nat (length eb)) 0); [lia|].
  destruct (Z.ltb_spec (n_gpus c) 0); [lia|].
  rewrite Z.gtb_ltb. destruct (Z.ltb_spec 16 (n_gpus c)); [lia|]. simpl.
  rewrite Nat2Z.id, <- Ho, drop_all, app_nil_r, Ho, take_ge by lia. done.
Qed.

(** On every valid call the packer returns 0 and writes a feasible
    placement (device numbers never decrease, the CPU tier is final, and no GPU
    is charged more than its budget) that is the best one: no feasible
    monotone placement puts any entry on an earlier tier. *)
Theorem layer_placement_optimal eb c out :
  valid_call eb c out →
  let budget := take (Z.to_nat (n_gpus c)) (gpu_budget_bytes c) in
  let n := Z.to_nat (n_gpus c) in
  ∃ dev,
    ds4_compute_layer_placement (Some eb) (Z.of_nat (length eb)) (Some c) (Some out)
    = (0, Some dev) ∧
    feasible eb budget 0 (tier_of n <$> dev) ∧
    ∀ tiers, feasible eb budget 0 tiers →
      Forall2 (λ d t, (tier_of n d <= t)%nat) dev tiers.
Proof.
  intros Hv budget n. eexists. split; [by apply placement_valid|]. fold budget.
  destruct Hv as (Hn & Hl & _ & He & Hb).
  assert (length budget = n) as Hlen
    by (subst budget n; rewrite length_take; lia).
  assert (Forall (λ z, 0 <= z) budget) by (by apply Forall_take).
  rewrite <- Hlen. split; [split; [|split]|].
  - by rewrite length_fmap, place_entries_length.
  - apply place_entries_monotone. lia.
  - intros t b Ht. apply place_entries_load; [done|lia|done].
  - intros tiers Hf.
    eapply Forall2_impl; [eapply place_entries_stays_ahead with (ba := budget) (da := 0%nat)|];
      [done|done|lia|lia| |done|simpl; intros; lia].
    intros t a g _ Ha Hg. by simplify_eq.
Qed.

Definition example_cfg : layer_pack_config :=
  LayerPackConfig ([10; 4] ++ replicate 14 0) 2.

(** An instance: five entries on two GPUs of budget 10 and 4. *)
Lemma layer_placement_optimal_witness :
  valid_call [3; 6; 4; 5; 1] example_cfg [0; 0; 0; 0; 0] ∧
  ∃ dev,
    ds4_compute_layer_placement (Some [3; 6; 4; 5; 1]) 5 (Some example_cfg)
      (Some [0; 0; 0; 0; 0]) = (0, Some dev) ∧ dev = [0; 0; 1; -1; -1].
Proof.
  assert (valid_call [3; 6; 4; 5; 1] example_cfg [0; 0; 0; 0; 0]) as Hv.
  { repeat split; simpl; try lia; repeat constructor; lia. }
  split; [exact Hv|].
  destruct (layer_placement_optimal _ _ _ Hv) as (dev & Hdev & _).
  exists dev. split; [exact Hdev|].
  vm_compute in Hdev. congruence.
Defined.

(** The error codes leave the output array untouched. *)
Lemma layer_placement_errors eb n cfg out rc out' :
  ds4_compute_layer_placement eb n cfg out = (rc, out') → rc ≠ 0 →
  out' = out ∧ (rc = 1 ∨ rc = 2 ∨ rc = 3).
Proof.
  unfold ds4_compute_layer_placement.
  destruct eb, cfg, out; intros H Hrc; repeat case_if_in H; simplify_eq; auto.
Qed.
