(* ===== verification/GpuArgs.v ===== *)
(** * The [--gpu-vram] / [--gpu-devices] parser

    Model of [engine/src/gpu_args.c] with [gpu_config] of
    [engine/include/multi_gpu.h].  Errors carry the text the code formats into
    [errbuf], cut to the buffer as [snprintf] does.  The CUDA probe behind
    ["auto"] is a parameter. *)
From S2P Require Import Prelude CLib.

Abbreviation DS4_MAX_GPUS := 16 (only parsing).
Abbreviation DS4_GPU_ARGS_MAX_VRAM_GB := 16384 (only parsing).
Abbreviation DS4_GPU_ARGS_MAX_DEVICE_INDEX := 1023 (only parsing).
Abbreviation DS4_GPU_ARGS_DEFAULT_SAFETY_MARGIN := 536870912 (only parsing).

Record gpu_config := GpuConfig {
  device_indices : list Z;
  vram_bytes : list Z;
  cfg_n_gpus : Z;
  safety_margin_bytes : Z;
}.

(** [errbuf_set] / [errbuf_setf]: the message as it is left in a buffer of
    [errbuflen] bytes. *)
Definition errbuf_set (errbuflen : Z) (msg : bytes) : bytes :=
  take (Z.to_nat (errbuflen - 1)) msg.

Definition is_blank (c : Z) : bool := (c =? 32) || (c =? 9).

(** One iteration of the [while] loop of [parse_csv_int_list]: the value,
    and the pointer [end] the loop continues from, or the error message. *)
Definition csv_step (what : bytes) (max_count max_value count : Z) (p : bytes) :
    bytes + Z * bytes :=
  let p := drop_while is_blank p in
  let '(v, erange, e) := strtol p in
  if bytes_eqb e p then inl (what ++ bs ": not a number: '" ++ p ++ bs "'")
  else if erange || (v <? 0) || (v >? max_value) then
    inl (what ++ bs ": out-of-range value: '" ++ p ++ bs "' (allowed 0.."
         ++ fmt_d max_value ++ bs ")")
  else if count >=? max_count then
    inl (what ++ bs ": too many entries (max " ++ fmt_d max_count ++ bs ")")
  else
    let e := drop_while is_blank e in
    match e with
    | [] => inr (v, [])
    | 44 :: e' =>
        if (hd0 e' =? 0) || (hd0 e' =? 44)
        then inl (what ++ bs ": empty entry near '" ++ e' ++ bs "'")
        else inr (v, e')
    | _ => inl (what ++ bs ": junk after value: '" ++ e ++ bs "'")
    end.

(** The loop; [None] is fuel exhaustion. *)
Fixpoint csv_loop (what : bytes) (max_count max_value : Z) (fuel : nat)
    (p : bytes) (acc : list Z) : option (bytes + list Z) :=
  match p with
  | [] => Some (inr acc)
  | _ :: _ =>
      match fuel with
      | O => None
      | S fuel' =>
          match csv_step what max_count max_value (Z.of_nat (length acc)) p with
          | inl msg => Some (inl msg)
          | inr (v, p') => csv_loop what max_count max_value fuel' p' (acc ++ [v])
          end
      end
  end.

Definition parse_csv_int_list (s : option bytes) (max_count max_value : Z)
    (what : bytes) : option (bytes + list Z) :=
  match s with
  | None | Some [] => Some (inl (what ++ bs ": empty value"))
  | Some s =>
      match csv_loop what max_count max_value (length s) s [] with
      | Some (inr []) => Some (inl (what ++ bs ": no values parsed"))
      | r => r
      end
  end.

(** The outcome of [parse_gpu_vram_arg]: [*out_skip_cuda] set, the filled
    configuration, or an error. *)
Inductive vram_outcome :=
| VramSkipCuda (out : gpu_config)
| VramConfig (out : gpu_config)
| VramError (msg : bytes).

(** The [for] loop that fills [device_indices] and [vram_bytes]. *)
Fixpoint fill_devices (devs : option (list Z)) (vram : list Z) (i : Z) :
    list Z * list Z :=
  match vram with
  | [] => ([], [])
  | g :: vram' =>
      let dev := match devs with
                 | Some l => nth (Z.to_nat i) l 0
                 | None => i
                 end in
      let '(ds, vs) := fill_devices devs vram' (i + 1) in
      (dev :: ds, u64 (u64 (u64 (g * 1024) * 1024) * 1024) :: vs)
  end.

Section Parse.
(** [gpu_args_probe_auto_cuda(filter, out, margin)]: defined with the CUDA
    runtime; an error message or the probed configuration. *)
Context (probe : option (list Z) → gpu_config → Z → bytes + gpu_config).

Definition parse_gpu_vram_arg (vram_arg devices_arg : option bytes)
  (out : gpu_config) : option vram_outcome :=
  let out := GpuConfig (device_indices out) (vram_bytes out) 0
             DS4_GPU_ARGS_DEFAULT_SAFETY_MARGIN in
  let devices :=
  match devices_arg with
  | None => Some (inr [])
  | Some _ => parse_csv_int_list devices_arg DS4_MAX_GPUS
                DS4_GPU_ARGS_MAX_DEVICE_INDEX (bs "--gpu-devices")
  end in
  match devices with
  | None => None
  | Some (inl msg) => Some (VramError msg)
  | Some (inr dev_list) =>
    match vram_arg, devices_arg with
    | None, None =>
        Some (VramError (bs "internal: parse_gpu_vram_arg called with both args NULL"))
    | _, _ =>
        let vram := default (bs "auto") vram_arg in
        let devs := match dev_list with [] => None | _ => Some dev_list end in
        if bytes_eqb vram (bs "0") then
          match devices_arg with
          | Some _ => Some (VramError (bs "--gpu-vram 0 conflicts with --gpu-devices"))
          | None => Some (VramSkipCuda out)
          end
        else if bytes_eqb vram (bs "auto") then
          match probe devs out (safety_margin_bytes out) with
          | inl msg => Some (VramError msg)
          | inr out' => Some (VramConfig out')
          end
        else
          match parse_csv_int_list (Some vram) DS4_MAX_GPUS
                  DS4_GPU_ARGS_MAX_VRAM_GB (bs "--gpu-vram") with
          | None => None
          | Some (inl msg) => Some (VramError msg)
          | Some (inr vram_list) =>
              if (Z.of_nat (length dev_list) >? 0)
                 && negb (Z.of_nat (length dev_list) =? Z.of_nat (length vram_list))
              then Some (VramError (bs "--gpu-devices count (" ++
                     fmt_d (Z.of_nat (length dev_list)) ++
                     bs ") does not match --gpu-vram count (" ++
                     fmt_d (Z.of_nat (length vram_list)) ++ bs ")"))
              else
                let '(ds, vs) := fill_devices devs vram_list 0 in
                Some (VramConfig (GpuConfig
                  (ds ++ drop (length ds) (device_indices out))
                  (vs ++ drop (length vs) (vram_bytes out))
                  (Z.of_nat (length vram_list)) (safety_margin_bytes out)))
          end
    end
  end.
End Parse.

(** ** The list parser *)

Lemma strtol_rest_length s v er e :
  strtol s = (v, er, e) → e ≠ s → (length e < length s)%nat.
Proof.
  unfold strtol. destruct (scan_sign (skip_space s)) as [sg s1] eqn:Esg.
  destruct (scan_digits 0 false s1) as [[n seen] rest] eqn:Esd.
  intros H Hne. destruct seen; [|simplify_eq].
  apply scan_digits_rest in Esd as (d & -> & _ & Hd).
  assert (e = rest) as -> by (repeat case_if_in H; by simplify_eq).
  specialize (Hd eq_refl eq_refl). destruct d as [|c d]; [done|].
  pose proof (skip_space_length s).
  assert (length ((c :: d) ++ rest) <= length (skip_space s))%nat as Hs.
  { destruct (skip_space s) as [|a r]; [by simplify_eq|]. simpl in Esg.
    repeat case_match; simplify_eq; simpl; lia. }
  rewrite length_app in Hs. simpl in Hs. lia.
Qed.

Section CsvStep.
Context (what : bytes) (max_count max_value : Z).

(** An accepted entry is in range, and the pointer moves forward. *)
Lemma csv_step_ok count p v p' :
  csv_step what max_count max_value count p = inr (v, p') →
  0 <= v <= max_value ∧ count < max_count ∧ (length p' < length p)%nat.
Proof.
  unfold csv_step. pose proof (drop_while_length is_blank p).
  destruct (strtol (drop_while is_blank p)) as [[v' er] e] eqn:Est. intros Hs.
  case_if_in Hs; [done|]. case_if_in Hs; [done|]. case_if_in Hs; [done|].
  apply bytes_eqb_neq in E. pose proof (strtol_rest_length _ _ _ _ Est E).
  pose proof (drop_while_length is_blank e). bool_to_prop.
  assert (v = v' ∧ (length p' <= length (drop_while is_blank e))%nat) as [-> ?].
  { destruct (drop_while is_blank e) as [|c e']; [by simplify_eq/=|].
  repeat case_match_in Hs; simplify_eq/=; lia. }
  lia.
Qed.

Lemma csv_loop_fuel fuel p acc :
  (length p <= fuel)%nat → is_Some (csv_loop what max_count max_value fuel p acc).
Proof.
  revert p acc; induction fuel as [|fuel IH]; intros p acc Hf;
  (destruct p as [|c p]; [by eexists|]); [simpl in Hf; lia|].
  cbn [csv_loop]. destruct (csv_step _ _ _ _ _) as [msg|[v p']] eqn:Es; [by eexists|].
  apply csv_step_ok in Es as (_ & _ & Hl). apply IH. simpl in *. lia.
Qed.

Lemma csv_loop_sound fuel p acc l :
  Forall (λ v, 0 <= v <= max_value) acc → Z.of_nat (length acc) <= Z.max 0 max_count →
  csv_loop what max_count max_value fuel p acc = Some (inr l) →
  Forall (λ v, 0 <= v <= max_value) l ∧ Z.of_nat (length l) <= Z.max 0 max_count.
Proof.
  revert p acc; induction fuel as [|fuel IH]; intros p acc Ha Hl;
  (destruct p as [|c p]; [cbn; intros [= <-]; done|]); [done|].
  cbn [csv_loop]. destruct (csv_step _ _ _ _ _) as [msg|[v p']] eqn:Es; [done|].
  apply csv_step_ok in Es as (Hv & Hc & _). apply IH.
  - apply Forall_app; auto.
  - rewrite length_app. simpl. lia.
Qed.

(** A printed entry followed by a comma or the end is read back. *)
Lemma csv_step_fmt count v rest :
  0 <= v <= max_value → max_value <= LONG_MAX → count < max_count →
  rest = [] ∨ (∃ c r, rest = 44 :: c :: r ∧ isdigit c = true) →
  csv_step what max_count max_value count (fmt_u v ++ rest)
  = inr (v, match rest with [] => [] | _ :: r => r end).
Proof.
  intros Hv Hmax Hc Hrest. unfold csv_step.
  assert (drop_while is_blank (fmt_u v ++ rest) = fmt_u v ++ rest) as ->.
  { apply drop_while_stop. intros c r E. pose proof (fmt_u_nonempty v).
  destruct (fmt_u v) as [|c' r'] eqn:Ev; [done|]. simplify_eq/=.
  apply fmt_u_head in Ev; [|lia]. apply isdigit_true in Ev. unfold is_blank. lia. }
  rewrite strtol_fmt_u;
  [|lia|destruct Hrest as [->|(c & r & -> & _)]; intros ? ? ?; by simplify_eq].
  rewrite (proj2 (bytes_eqb_neq rest (fmt_u v ++ rest))).
  2:{ intros Heq%(f_equal length). rewrite length_app in Heq.
    pose proof (fmt_u_nonempty v). destruct (fmt_u v); [done|]. simpl in Heq. lia. }
  repeat case_if; bool_to_prop; try (exfalso; lia).
  destruct Hrest as [->|(c & r & -> & Hd)]; [done|]. simpl.
  apply isdigit_true in Hd.
  destruct (Z.eqb_spec c 0); [lia|]. destruct (Z.eqb_spec c 44); [lia|]. done.
Qed.
End CsvStep.

(** The canonical spelling of a list. *)
Fixpoint csv_print (l : list Z) : bytes :=
  match l with
  | [] => []
  | [v] => fmt_u v
  | v :: l' => fmt_u v ++ 44 :: csv_print l'
  end.

Lemma csv_print_head l :
  Forall (λ v, 0 <= v) l → l ≠ [] → ∃ c r, csv_print l = c :: r ∧ isdigit c = true.
Proof.
  intros Hl. destruct Hl as [|v l Hv _]; [done|]. intros _.
  pose proof (fmt_u_nonempty v). destruct (fmt_u v) as [|c r] eqn:E; [done|].
  exists c. eapply fmt_u_head in E as Hc; [|done].
  destruct l; simpl; rewrite E; [by exists r|]. by eexists.
Qed.

Lemma csv_print_length l : (length l <= length (csv_print l))%nat.
Proof.
  induction l as [|v l IH]; [simpl; lia|]. pose proof (fmt_u_nonempty v).
  assert (0 < length (fmt_u v))%nat by (destruct (fmt_u v); simpl; [done|lia]).
  destruct l as [|w l]; [simpl; lia|].
  change (csv_print (v :: w :: l)) with (fmt_u v ++ 44 :: csv_print (w :: l)).
  rewrite length_app. simpl in *. lia.
Qed.

Lemma csv_loop_print what max_count max_value l acc fuel :
  Forall (λ v, 0 <= v <= max_value) l → max_value <= LONG_MAX → (length l <= fuel)%nat →
  Z.of_nat (length acc + length l) <= max_count →
  csv_loop what max_count max_value fuel (csv_print l) acc = Some (inr (acc ++ l)).
Proof.
  intros Hl Hmax. revert acc fuel.
  induction Hl as [|v l Hv Hl IH]; intros acc fuel Hf Hc.
  { destruct fuel; simpl; by rewrite app_nil_r. }
  destruct fuel as [|fuel]; [simpl in Hf; lia|].
  pose proof (fmt_u_nonempty v) as Hne. simpl in Hc, Hf.
  assert (∃ rest, csv_print (v :: l) = fmt_u v ++ rest ∧
            (rest = [] ∨ ∃ c r, rest = 44 :: c :: r ∧ isdigit c = true) ∧
            match rest with [] => [] | _ :: r => r end = csv_print l)
    as (rest & Hp & Hrest & Htl).
  { destruct l as [|w l]; [exists []; rewrite app_nil_r; auto|].
    destruct (csv_print_head (w :: l)) as (c & r & E & Hd); [|done|].
    { eapply Forall_impl; [done|]. simpl; lia. }
    exists (44 :: csv_print (w :: l)). rewrite E. split; [cbn [csv_print]; by rewrite <- E|].
    split; [right; eauto|done]. }
  rewrite Hp. destruct (fmt_u v ++ rest) as [|c p] eqn:Ep;
    [apply app_nil in Ep as [? _]; done|].
  cbn [csv_loop]. rewrite <- Ep, csv_step_fmt by (done || lia).
  rewrite Htl, IH, <- app_assoc; [done|lia|]. rewrite length_app. simpl. lia.
Qed.

(** ** Properties *)

(** The list parser reads back the canonical spelling of every list it can
    represent: nonempty, at most [max_count] entries, each in
    [0 .. max_value]. *)
Theorem parse_csv_int_list_roundtrip what l max_count max_value :
  l ≠ [] → Z.of_nat (length l) <= max_count → max_value <= LONG_MAX →
  Forall (λ v, 0 <= v <= max_value) l →
  parse_csv_int_list (Some (csv_print l)) max_count max_value what = Some (inr l).
Proof.
  intros Hne Hc Hmax Hl. unfold parse_csv_int_list.
  destruct (csv_print_head l) as (c & r & E & _); [|done|].
  { eapply Forall_impl; [done|]. simpl; lia. }
  rewrite E, <- E, csv_loop_print; [by destruct l|done|done|apply csv_print_length|].
  simpl. lia.
Qed.

Lemma parse_csv_int_list_roundtrip_witness :
  parse_csv_int_list (Some (bs "40,12,0")) 16 16384 (bs "--gpu-vram")
  = Some (inr [40; 12; 0]).
Proof.
  apply (parse_csv_int_list_roundtrip (bs "--gpu-vram") [40; 12; 0] 16 16384);
    [done|simpl; lia|lia|repeat constructor; lia].
Defined.

(** What the parser accepts is in range, and it always answers. *)
Lemma parse_csv_int_list_total s max_count max_value what :
  ∃ r, parse_csv_int_list s max_count max_value what = Some r ∧
    ∀ l, r = inr l → l ≠ [] ∧ Z.of_nat (length l) <= Z.max 0 max_count ∧
                     Forall (λ v, 0 <= v <= max_value) l.
Proof.
  unfold parse_csv_int_list. destruct s as [[|c s]|]; [by eexists| |by eexists].
  destruct (csv_loop_fuel what max_count max_value (length (c :: s)) (c :: s) []) as [r Hr];
    [done|].
  rewrite Hr. destruct r as [msg|[|v l]]; [by eexists|by eexists|]. eexists. split; [done|].
  intros ? [= <-]. apply csv_loop_sound in Hr as [Hf Hl]; [done|constructor|simpl; lia].
Qed.

Lemma gib_no_wrap g :
  0 <= g <= DS4_GPU_ARGS_MAX_VRAM_GB →
  u64 (u64 (u64 (g * 1024) * 1024) * 1024) = g * 2 ^ 30.
Proof.
  intros. rewrite (u64_small (g * 1024)) by (unfold is_u64; lia).
  rewrite (u64_small (g * 1024 * 1024)) by (unfold is_u64; lia).
  rewrite u64_small by (unfold is_u64; lia). lia.
Qed.

Lemma fill_devices_spec devs vram i ds vs :
  fill_devices devs vram i = (ds, vs) →
  length ds = length vram ∧ length vs = length vram ∧
  ∀ k g, vram !! k = Some g → 0 <= g <= DS4_GPU_ARGS_MAX_VRAM_GB →
    vs !! k = Some (g * 2 ^ 30) ∧
    ds !! k = Some (match devs with Some l => nth (Z.to_nat (i + Z.of_nat k)) l 0
                                  | None => i + Z.of_nat k end).
Proof.
  revert i ds vs; induction vram as [|g vram IH]; intros i ds vs; simpl.
  { intros [= <- <-]. repeat split; done. }
  destruct (fill_devices devs vram (i + 1)) as [ds' vs'] eqn:E. intros [= <- <-].
  destruct (IH _ _ _ E) as (Hd & Hv & Hk). split; [simpl; lia|]. split; [simpl; lia|].
  intros [|k] g' Hg Hr; simpl in *.
  - simplify_eq. rewrite gib_no_wrap by done.
    split; [done|]. destruct devs; f_equal; [f_equal; lia|lia].
  - destruct (Hk k g' Hg Hr) as [Hk1 Hk2]. split; [done|]. rewrite Hk2.
    destruct devs; f_equal; [f_equal; lia|lia].
Qed.

(** The configurations an explicit budget list can produce. *)
Definition gpu_config_wf (c : gpu_config) : Prop :=
  1 <= cfg_n_gpus c <= DS4_MAX_GPUS ∧
  length (device_indices c) = 16%nat ∧ length (vram_bytes c) = 16%nat ∧
  safety_margin_bytes c = DS4_GPU_ARGS_DEFAULT_SAFETY_MARGIN ∧
  ∀ i, Z.of_nat i < cfg_n_gpus c →
    ∃ g dev, vram_bytes c !! i = Some (g * 2 ^ 30) ∧ 0 <= g <= DS4_GPU_ARGS_MAX_VRAM_GB ∧
             device_indices c !! i = Some dev ∧ 0 <= dev <= DS4_GPU_ARGS_MAX_DEVICE_INDEX.

Lemma fill_devices_wf devs vram ds vs out :
  fill_devices devs vram 0 = (ds, vs) → vram ≠ [] → Z.of_nat (length vram) <= 16 →
  Forall (λ g, 0 <= g <= DS4_GPU_ARGS_MAX_VRAM_GB) vram →
  match devs with
  | Some l => Forall (λ d, 0 <= d <= DS4_GPU_ARGS_MAX_DEVICE_INDEX) l ∧ length l = length vram
  | None => True
  end →
  length (device_indices out) = 16%nat → length (vram_bytes out) = 16%nat →
  gpu_config_wf (GpuConfig (ds ++ drop (length ds) (device_indices out))
    (vs ++ drop (length vs) (vram_bytes out)) (Z.of_nat (length vram))
    DS4_GPU_ARGS_DEFAULT_SAFETY_MARGIN).
Proof.
  intros Hfill Hne Hlen Hg Hdevs Ho1 Ho2.
  destruct (fill_devices_spec _ _ _ _ _ Hfill) as (Hd & Hv & Hk).
  assert (0 < length vram)%nat by (destruct vram; [done|simpl; lia]).
  unfold gpu_config_wf; simpl. rewrite !length_app, !length_drop, Hd, Hv, Ho1, Ho2.
  repeat split; try lia. intros i Hi.
  destruct (lookup_lt_is_Some_2 vram i) as [g Hgi]; [lia|].
  pose proof (Forall_lookup_1 _ _ _ _ Hg Hgi) as Hgr.
  destruct (Hk i g Hgi Hgr) as [Hvi Hdi]. rewrite !lookup_app_l by lia.
  exists g, (match devs with Some l => nth i l 0 | None => Z.of_nat i end).
  split; [done|]. split; [done|].
  split; [rewrite Hdi; destruct devs; do 2 f_equal; lia|].
  destruct devs as [l|]; [|lia]. destruct Hdevs as [Hl Hll].
  destruct (lookup_lt_is_Some_2 l i) as [x Hx]; [lia|].
  pose proof (Forall_lookup_1 _ _ _ _ Hl Hx) as Hxr. simpl in Hxr.
  apply nth_lookup_Some with (d := 0) in Hx. rewrite Hx. lia.
Qed.

(** [parse_gpu_vram_arg] answers on every pair of arguments.  When the
    budget is neither ["0"] nor ["auto"], a success is a configuration with 1
    to 16 devices, every budget an exact multiple of 1 GiB that fits
    [size_t] (the three multiplications do not wrap), every device index in
    range, and the default safety margin. *)
Theorem parse_gpu_vram_arg_wf probe s devices_arg out :
  s ≠ bs "0" → s ≠ bs "auto" →
  length (device_indices out) = 16%nat → length (vram_bytes out) = 16%nat →
  (∃ msg, parse_gpu_vram_arg probe (Some s) devices_arg out = Some (VramError msg)) ∨
  (∃ c, parse_gpu_vram_arg probe (Some s) devices_arg out = Some (VramConfig c) ∧
        gpu_config_wf c).
Proof.
  intros H0 Hauto Ho1 Ho2. unfold parse_gpu_vram_arg. simpl default.
  set (devices := match devices_arg with None => _ | Some _ => _ end).
  assert (∃ r, devices = Some r ∧ ∀ l, r = inr l → Z.of_nat (length l) <= 16 ∧
            Forall (λ d, 0 <= d <= DS4_GPU_ARGS_MAX_DEVICE_INDEX) l) as (r & -> & Hr).
  { subst devices. destruct devices_arg.
    - destruct (parse_csv_int_list_total (Some l) 16 1023 (bs "--gpu-devices"))
        as (r & -> & Hr). exists r. split; [done|]. intros ? ->.
      destruct (Hr _ eq_refl) as (_ & ? & ?). split; [lia|done].
    - eexists. split; [done|]. intros ? [= <-]. split; [simpl; lia|constructor]. }
  destruct r as [msg|devl]; [by left; eexists|]. destruct (Hr _ eq_refl) as [_ Hdl].
  rewrite (proj2 (bytes_eqb_neq _ _) H0), (proj2 (bytes_eqb_neq _ _) Hauto).
  destruct (parse_csv_int_list_total (Some s) 16 16384 (bs "--gpu-vram")) as (v & -> & Hv).
  destruct v as [msg|vl]; [by left; eexists|]. destruct (Hv _ eq_refl) as (Hne & Hlen & Hg).
  case_if; [by left; eexists|]. right.
  destruct (fill_devices _ vl 0) as [ds vs] eqn:Hf. eexists. split; [done|].
  eapply fill_devices_wf; [done|done|lia|done| |done|done].
  destruct devl as [|d devl]; [done|]. split; [done|].
  change (length (d :: devl)) with (S (length devl)) in *. apply andb_false_iff in E as [E|E]; bool_to_prop; lia.
Qed.

Definition zero_gpu_config : gpu_config :=
  GpuConfig (replicate 16 0) (replicate 16 0) 0 0.

Lemma parse_gpu_vram_arg_wf_witness :
  ∃ c, parse_gpu_vram_arg (λ _ _ _, inl []) (Some (bs "40,12")) (Some (bs "1,0"))
         zero_gpu_config = Some (VramConfig c) ∧ gpu_config_wf c.
Proof.
  destruct (parse_gpu_vram_arg_wf (λ _ _ _, inl []) (bs "40,12") (Some (bs "1,0"))
              zero_gpu_config) as [[msg H]|H]; [done|done|done|done| |exact H].
  vm_compute in H. discriminate H.
Defined.
