(* ===== verification/Storage.v ===== *)
(** * Storage budgets

    Model of [engine/src/storage.c]: the GiB and expert-count argument parsers,
    the expert-cache plan, and the chunked memory lock behind
    [--simulate-used-memory].  [mmap], [mlock] and the page size are parameters
    of the lock model; the environment variable is an argument. *)
From S2P Require Import Prelude CLib.

Abbreviation DS4_GIB := 1073741824 (only parsing).

(** ** Argument parsers

    The result is the returned flag and the values left in the output
    parameters (the pointers are not null). *)

(** Whether the text ends in "gb" in any case and is longer than that. *)
Definition has_gb_suffix (s : bytes) : bool :=
  let len := length s in
  (2 <? Z.of_nat len) &&
  (let a := nth (len - 2) s 0 in (a =? 103) || (a =? 71)) &&
  (let b := nth (len - 1) s 0 in (b =? 98) || (b =? 66)).

Definition ds4_parse_gib_arg (s : option bytes) : bool * Z :=
  match s with
  | None | Some [] => (false, 0)
  | Some s =>
      let num := if has_gb_suffix s then take (length s - 2) s else s in
      if (length num =? 0)%nat then (false, 0)
      else if negb (forallb isdigit num) then (false, 0)
      else if 32 <=? Z.of_nat (length num) then (false, 0)
      else
        let '(v, erange, _) := strtoull num in
        if erange || (v =? 0) || (v >? UINT64_MAX / DS4_GIB) then (false, 0)
        else (true, u64 (v * DS4_GIB))
  end.

(** The flag, [*experts] and [*bytes]. *)
Definition ds4_parse_streaming_cache_experts_arg (s : option bytes) : bool * Z * Z :=
  match s with
  | None | Some [] => (false, 0, 0)
  | Some s =>
      if has_gb_suffix s then
        let '(ok, b) := ds4_parse_gib_arg (Some s) in (ok, 0, b)
      else if negb (forallb isdigit s) then (false, 0, 0)
      else
        let '(v, erange, _) := strtoull s in
        if erange || (v =? 0) || (v >? UINT32_MAX) then (false, 0, 0)
        else (true, u32 v, 0)
  end.

Definition storage_cache_experts_for_byte_budget (byte_budget per_expert_bytes : Z) : Z :=
  if (byte_budget =? 0) || (per_expert_bytes =? 0) then 0
  else
    let experts := byte_budget / per_expert_bytes in
    if (experts =? 0) || (experts >? UINT32_MAX) then 0 else u32 experts.

(** ** The automatic cache plan *)

(** [storage_auto_cache_percent]: [env] is [DS4_SSD_AUTO_CACHE_PCT]. *)
Definition storage_auto_cache_percent (env : option bytes) : Z :=
  match env with
  | Some ((_ :: _) as e) =>
      let '(v, erange, rest) := strtoull e in
      if negb (bytes_eqb rest e) && bytes_eqb rest [] && negb erange
         && (50 <=? v) && (v <=? 95)
      then v else 80
  | _ => 80
  end.

Record storage_cache_plan := StorageCachePlan {
  model_target_bytes : Z;
  cache_bytes : Z;
  effective_cache_bytes : Z;
  cache_experts : Z;
}.

Definition storage_auto_cache_plan (env : option bytes)
    (recommended_bytes non_routed_bytes per_expert_bytes max_model_experts : Z) :
    bool * storage_cache_plan :=
  if (recommended_bytes =? 0) || (per_expert_bytes =? 0)
  then (false, StorageCachePlan 0 0 0 0)
  else
    let pct := storage_auto_cache_percent env in
    let target := if recommended_bytes >? UINT64_MAX / pct then UINT64_MAX
                  else u64 (recommended_bytes * pct) / 100 in
    let cache := if target >? non_routed_bytes then u64 (target - non_routed_bytes) else 0 in
    let experts := cache / per_expert_bytes in
    let experts := if experts =? 0 then 1 else experts in
    let experts := if negb (max_model_experts =? 0) && (experts >? max_model_experts)
                   then max_model_experts else experts in
    let experts := if experts >? UINT32_MAX then UINT32_MAX else experts in
    (negb (u32 experts =? 0),
     StorageCachePlan target cache (u64 (experts * per_expert_bytes)) (u32 experts)).

(** ** The memory lock *)

(** What the process holds: the mapped length and the locked prefix. *)
Record lock_state := LockState { mapped : Z; locked_prefix : Z }.

Abbreviation LOCK_CHUNK := 268435456 (only parsing).

(** The offsets written while touching one chunk. *)
Fixpoint touch_pages (fuel : nat) (pos stop page : Z) : list Z :=
  match fuel with
  | O => []
  | S fuel' => if pos <? stop then pos :: touch_pages fuel' (pos + page) stop page else []
  end.

Section Lock.
Context (mmap_ok : Z → bool) (mlock_ok : Z → Z → bool) (page : Z).

(** Offsets written before the [mlock] of the chunk at [off]. *)
Definition chunk_writes (off len : Z) : list Z :=
  touch_pages (Z.to_nat (len / page + 1)) off (off + len) page
  ++ (if negb (len =? 0) then [off + len - 1] else []).

(** The [for] loop: [Some true] when every chunk is locked, [Some false]
    after a failed [mlock] with what had been locked, [None] on fuel. *)
Fixpoint lock_chunks (fuel : nat) (total off lk : Z) : option (bool * Z) :=
  if off <? total then
  match fuel with
  | O => None
  | S fuel' =>
      let len := total - off in
      let len := if len >? LOCK_CHUNK then LOCK_CHUNK else len in
      if mlock_ok off len
      then lock_chunks fuel' total (u64 (off + LOCK_CHUNK)) (lk + len)
      else Some (false, lk)
  end
  else Some (true, lk).

(** [storage_memory_lock_acquire]: the flag, [lock->bytes] (0 when
    [lock->ptr] is null), and the process state it leaves. *)
Definition storage_memory_lock_acquire (fuel : nat) (total : Z) :
  option (bool * Z * lock_state) :=
  if total =? 0 then Some (true, 0, LockState 0 0)
  else if negb (mmap_ok total) then Some (false, 0, LockState 0 0)
  else
  match lock_chunks fuel total 0 0 with
  | None => None
  | Some (true, lk) => Some (true, total, LockState total lk)
  | Some (false, _) =>
      (* munlock of the locked prefix, then munmap of the whole range *)
      Some (false, 0, LockState 0 0)
  end.

(** [storage_memory_lock_release]. *)
Definition storage_memory_lock_release (lock_bytes : Z) (st : lock_state) : Z * lock_state :=
  if lock_bytes =? 0 then (lock_bytes, st) else (0, LockState 0 0).

Lemma touch_pages_range fuel pos stop :
  0 < page → Forall (λ w, pos <= w < stop) (touch_pages fuel pos stop page).
Proof.
  intros Hp. revert pos; induction fuel as [|fuel IH]; intros pos; simpl; [constructor|].
  case_if; bool_to_prop; constructor; [lia|].
  eapply Forall_impl; [apply IH|]. simpl; lia.
Qed.

Lemma chunk_writes_range off len :
  0 < page → 0 <= len → Forall (λ w, off <= w < off + len) (chunk_writes off len).
Proof.
  intros Hp Hl. unfold chunk_writes. apply Forall_app; split.
  - by apply touch_pages_range.
  - case_if; bool_to_prop; repeat constructor; lia.
Qed.

Lemma lock_chunks_spec fuel total off lk :
  0 <= off → total <= 2 ^ 47 → lk = Z.min off total → off mod LOCK_CHUNK = 0 →
  total - off <= Z.of_nat fuel * LOCK_CHUNK →
  ∃ ok lk', lock_chunks fuel total off lk = Some (ok, lk') ∧
  (ok = true → lk' = Z.max total lk) ∧
  (ok = false → lk' < total ∧ ∃ o l, mlock_ok o l = false ∧ 0 <= o ∧ 0 < l ∧ o + l <= total).
Proof.
  revert off lk; induction fuel as [|fuel IH]; intros off lk Ho Ht Hlk Hmod Hf; simpl.
  - destruct (Z.ltb_spec off total); [simpl in Hf; lia|]. eexists _, _.
  split; [done|]. split; [lia|done].
  - destruct (Z.ltb_spec off total); [|eexists _, _; split; [done|]; split; [lia|done]].
  set (len := if total - off >? LOCK_CHUNK then LOCK_CHUNK else total - off).
  assert (0 < len <= LOCK_CHUNK ∧ off + len <= total ∧
          (len = LOCK_CHUNK ∨ off + len = total)) as (Hl1 & Hl2 & Hl3)
    by (subst len; case_if; bool_to_prop; lia).
  destruct (mlock_ok off len) eqn:Em.
  + rewrite u64_small by (unfold is_u64; lia).
    destruct (IH (off + LOCK_CHUNK) (lk + len)) as (ok & lk' & -> & H1 & H2); [lia..| |lia|].
    * rewrite Z.add_mod, Hmod by lia. done.
    * exists ok, lk'. split; [done|]. split; [|done]. intros ->.
      specialize (H1 eq_refl). lia.
  + eexists _, _. split; [done|]. split; [done|]. intros _. split; [lia|].
    exists off, len. repeat split; (done || lia).
Qed.
End Lock.

(** ** Properties *)

Lemma auto_cache_percent_range env : 50 <= storage_auto_cache_percent env <= 95.
Proof.
  unfold storage_auto_cache_percent. destruct env as [[|c e]|]; [lia| |lia].
  destruct (strtoull (c :: e)) as [[v er] rest].
  case_if; [|lia]. bool_to_prop. lia.
Qed.

(** The target is the percentage of the recommended size, saturated. *)
Lemma auto_cache_target_no_wrap env rec :
  is_u64 rec → rec <= UINT64_MAX / storage_auto_cache_percent env →
  u64 (rec * storage_auto_cache_percent env) = rec * storage_auto_cache_percent env.
Proof.
  intros Hr Hle. pose proof (auto_cache_percent_range env). apply u64_small.
  unfold is_u64 in *. split; [nia|].
  pose proof (Z.mul_div_le UINT64_MAX (storage_auto_cache_percent env)). nia.
Qed.

(** For 64-bit inputs with nonzero sizes the plan succeeds, no product or
    difference wraps, the expert count is between 1 and both limits, the cache
    is never larger than the room left beside the non-routed weights (except
    that one expert is always granted), and it is maximal: one more expert
    would not fit or would exceed a limit. *)
Theorem auto_cache_plan_correct env rec nr per maxe :
  is_u64 rec → is_u64 nr → is_u64 per → is_u64 maxe → rec ≠ 0 → per ≠ 0 →
  let '(ok, p) := storage_auto_cache_plan env rec nr per maxe in
  ok = true ∧
  model_target_bytes p
    = (if rec >? UINT64_MAX / storage_auto_cache_percent env then UINT64_MAX
       else rec * storage_auto_cache_percent env / 100) ∧
  cache_bytes p = Z.max 0 (model_target_bytes p - nr) ∧
  1 <= cache_experts p <= UINT32_MAX ∧
  (maxe ≠ 0 → cache_experts p <= maxe) ∧
  effective_cache_bytes p = cache_experts p * per ∧
  effective_cache_bytes p <= Z.max (cache_bytes p) per ∧
  (cache_experts p < UINT32_MAX → (maxe = 0 ∨ cache_experts p < maxe) →
   cache_bytes p < (cache_experts p + 1) * per).
Proof.
  intros Hrec Hnr Hper Hmax Hr0 Hp0. unfold storage_auto_cache_plan.
  destruct (Z.eqb_spec rec 0); [done|]. destruct (Z.eqb_spec per 0); [done|]. simpl orb.
  pose proof (auto_cache_percent_range env) as Hpct.
  pose proof (auto_cache_target_no_wrap env rec Hrec) as Hwrap.
  set (pct := storage_auto_cache_percent env) in *. cbv iota.
  set (target := if rec >? UINT64_MAX / pct then UINT64_MAX else u64 (rec * pct) / 100).
  assert (target = (if rec >? UINT64_MAX / pct then UINT64_MAX else rec * pct / 100)
          ∧ is_u64 target) as [Htgt Htu].
  { subst target. case_if; bool_to_prop; [unfold is_u64; lia|].
    rewrite Hwrap by lia. split; [done|]. pose proof (u64_range (rec * pct)) as Hu.
    rewrite Hwrap in Hu by lia. unfold is_u64 in *.
    pose proof (Z.div_pos (rec * pct) 100). pose proof (Z.div_le_upper_bound (rec * pct) 100 UINT64_MAX).
    lia. }
  set (cache := if target >? nr then u64 (target - nr) else 0).
  assert (cache = Z.max 0 (target - nr)) as Hcache.
  { subst cache. unfold is_u64 in *. case_if; bool_to_prop; [|lia].
    rewrite u64_small; unfold is_u64; lia. }
  set (q := cache / per).
  assert (q * per <= cache < (q + 1) * per) as Hq.
  { unfold is_u64 in *. subst q. pose proof (Z.div_mod cache per Hp0).
    pose proof (Z.mod_pos_bound cache per). nia. }
  set (e1 := if q =? 0 then 1 else q).
  set (e2 := if negb (maxe =? 0) && (e1 >? maxe) then maxe else e1).
  set (e3 := if e2 >? UINT32_MAX then UINT32_MAX else e2).
  assert (0 <= q) by (unfold is_u64 in *; nia).
  assert (1 <= e3 <= UINT32_MAX ∧ e3 <= Z.max q 1 ∧ (maxe ≠ 0 → e3 <= maxe) ∧
          (e3 < UINT32_MAX → (maxe = 0 ∨ e3 < maxe) → q <= e3)) as (He & Heq & Hem & Hemax).
  { unfold is_u64 in *. subst e3 e2 e1.
    destruct (Z.eqb_spec q 0), (Z.eqb_spec maxe 0); simpl; repeat case_if; bool_to_prop; lia. }
  assert (e3 * per <= Z.max cache per) as Hprod by (unfold is_u64 in *; nia).
  rewrite (u32_small e3) by (unfold is_u32; lia).
  rewrite (u64_small (e3 * per)) by (unfold is_u64 in *; nia). simpl.
  split; [destruct (Z.eqb_spec e3 0); [lia|done]|]. repeat split; try done; try lia.
  intros H1 H2. specialize (Hemax H1 H2). unfold is_u64 in *. nia.
Qed.

Lemma auto_cache_plan_correct_witness :
  let p := snd (storage_auto_cache_plan (Some (bs "90")) 1000 300 7 50) in
  cache_experts p = 50 ∧ effective_cache_bytes p = 350 ∧ cache_experts p <= 50.
Proof.
  pose proof (auto_cache_plan_correct (Some (bs "90")) 1000 300 7 50) as H.
  unfold is_u64 in H.
  assert (storage_auto_cache_plan (Some (bs "90")) 1000 300 7 50
          = (true, StorageCachePlan 900 600 350 50)) as E by reflexivity.
  rewrite E in *. destruct H as (_ & _ & _ & _ & H & _); [lia..|].
  simpl. repeat split; apply H; lia.
Defined.

(** The memory lock either locks the whole range, in chunks that stay
    inside it, or leaves nothing mapped; it terminates with one unit of fuel
    per 256 MiB chunk for every size the kernel can map (47 bits). *)
Theorem memory_lock_all_or_nothing mmap_ok mlock_ok total :
  0 <= total <= 2 ^ 47 →
  ∃ ok held st,
    storage_memory_lock_acquire mmap_ok mlock_ok
      (Z.to_nat (total / LOCK_CHUNK + 1)) total = Some (ok, held, st) ∧
    (ok = true → held = total ∧ st = LockState total total) ∧
    (ok = false → held = 0 ∧ st = LockState 0 0 ∧
       (mmap_ok total = false ∨
        ∃ o l, mlock_ok o l = false ∧ 0 <= o ∧ 0 < l ∧ o + l <= total)).
Proof.
  intros Ht. unfold storage_memory_lock_acquire.
  destruct (Z.eqb_spec total 0) as [->|]; [by eexists _, _, _|].
  destruct (mmap_ok total) eqn:Em; simpl negb; cbv iota;
    [|eexists _, _, _; split; [done|]; split; [done|]; auto].
  destruct (lock_chunks_spec mlock_ok (Z.to_nat (total / LOCK_CHUNK + 1)) total 0 0)
    as (ok & lk & -> & H1 & H2); [lia..|done| |].
  { pose proof (Z.div_mod total LOCK_CHUNK). pose proof (Z.mod_pos_bound total LOCK_CHUNK).
    pose proof (Z.div_pos total LOCK_CHUNK). rewrite Z2Nat.id; lia. }
  destruct ok; eexists _, _, _; (split; [done|]); split; try done; intros _.
  - rewrite (H1 eq_refl), Z.max_l by lia. done.
  - destruct (H2 eq_refl) as (_ & o & l & ?). repeat split; [done..|]. right. eauto.
Qed.

Lemma memory_lock_all_or_nothing_witness :
  0 <= 300000000 <= 2 ^ 47 ∧
  ∃ ok held st,
    storage_memory_lock_acquire (λ _, true) (λ o _, o =? 0) 2 300000000
    = Some (ok, held, st) ∧ ok = false ∧ st = LockState 0 0.
Proof.
  split; [lia|].
  destruct (memory_lock_all_or_nothing (λ _, true) (λ o _, o =? 0) 300000000)
    as (ok & held & st & H & _ & Hf); [lia|].
  exists ok, held, st. split; [exact H|]. vm_compute in H.
  injection H as <- <- <-. split; [reflexivity|]. apply Hf. reflexivity.
Defined.

(** ** The argument parsers, exactly *)

Lemma has_gb_suffix_true s :
  has_gb_suffix s = true →
  ∃ d a b, s = d ++ [a; b] ∧ d ≠ [] ∧ (a = 103 ∨ a = 71) ∧ (b = 98 ∨ b = 66).
Proof.
  unfold has_gb_suffix. intros H. bool_to_prop.
  destruct (exists_last (l := s)) as (s1 & b & ->); [by destruct s|].
  destruct (exists_last (l := s1)) as (d & a & ->); [by destruct s1; simpl in *|].
  rewrite <- app_assoc in *. simpl app in *. exists d, a, b. split; [done|].
  rewrite length_app in *. simpl length in *.
  rewrite app_nth2 in H1, H0 by lia.
  replace (length d + 2 - 2 - length d)%nat with 0%nat in H1 by lia.
  replace (length d + 2 - 1 - length d)%nat with 1%nat in H0 by lia. simpl in *.
  split; [intros ->; simpl in *; lia|]. lia.
Qed.

Lemma has_gb_suffix_digits d : Forall (λ c, isdigit c = true) d → has_gb_suffix d = false.
Proof.
  intros Hd. destruct (has_gb_suffix d) eqn:E; [|done].
  apply has_gb_suffix_true in E as (d' & a & b & -> & _ & _ & Hb).
  apply Forall_app in Hd as [_ Hd]. inversion Hd as [|? ? _ Hd']. inversion Hd' as [|? ? Hc].
  apply isdigit_true in Hc. lia.
Qed.

Lemma has_gb_suffix_app d a b :
  d ≠ [] → (a = 103 ∨ a = 71) → (b = 98 ∨ b = 66) → has_gb_suffix (d ++ [a; b]) = true.
Proof.
  intros Hne Ha Hb. unfold has_gb_suffix. rewrite length_app. simpl length.
  assert (0 < length d)%nat by (destruct d; simpl; [done|lia]).
  rewrite !app_nth2 by lia.
  replace (length d + 2 - 2 - length d)%nat with 0%nat by lia.
  replace (length d + 2 - 1 - length d)%nat with 1%nat by lia. simpl.
  destruct (Z.ltb_spec 2 (Z.of_nat (length d + 2))); [|lia]. lia.
Qed.

(** Spellings of a size: at most 31 digits and an optional "gb" suffix. *)
Inductive gib_spelling : bytes → bytes → Prop :=
| gib_plain d : gib_spelling d d
| gib_suffix d a b :
    (a = 103 ∨ a = 71) → (b = 98 ∨ b = 66) → gib_spelling d (d ++ [a; b]).

Lemma dec_value_nonneg d : Forall (λ c, isdigit c = true) d → 0 <= dec_value d.
Proof.
  intros Hd. unfold dec_value. rewrite <- (rev_involutive d), foldl_rev.
  apply Forall_rev in Hd. induction Hd as [|c r Hc _ IH]; simpl; [lia|].
  apply isdigit_true in Hc. lia.
Qed.

Lemma forallb_isdigit d : forallb isdigit d = true ↔ Forall (λ c, isdigit c = true) d.
Proof. by rewrite List.forallb_forall, List.Forall_forall. Qed.

(** The parser after the suffix has been cut. *)
Lemma parse_gib_number s d b :
  s ≠ [] → (if has_gb_suffix s then take (length s - 2) s else s) = d →
  ds4_parse_gib_arg (Some s) = (true, b) ↔
  d ≠ [] ∧ Forall (λ c, isdigit c = true) d ∧ Z.of_nat (length d) < 32 ∧
  1 <= dec_value d <= 17179869183 ∧ b = dec_value d * DS4_GIB.
Proof.
  intros Hs Hd. unfold ds4_parse_gib_arg. destruct s as [|c0 s0]; [done|]. rewrite Hd.
  rewrite <- forallb_isdigit. destruct (Nat.eqb_spec (length d) 0) as [Hl|Hl];
    [split; [done|]; intros [? _]; by destruct d|].
  destruct (forallb isdigit d) eqn:Ef; simpl negb; cbv iota; [|naive_solver].
  destruct (Z.leb_spec 32 (Z.of_nat (length d))); [split; [done|lia]|].
  apply forallb_isdigit in Ef. pose proof (dec_value_nonneg d Ef).
  assert (d ≠ []) as Hne by (by destruct d). rewrite strtoull_digits by done.
  change (UINT64_MAX / DS4_GIB) with 17179869183. rewrite !Z.gtb_ltb.
  destruct (Z.ltb_spec UINT64_MAX (dec_value d)); simpl; [split; [done|lia]|].
  destruct (Z.eqb_spec (dec_value d) 0); simpl; [split; [done|lia]|]. rewrite Z.gtb_ltb.
  destruct (Z.ltb_spec 17179869183 (dec_value d)); [split; [done|lia]|].
  rewrite u64_small by (unfold is_u64; lia).
  split; [intros [= <-]; repeat split; (done || lia)|intros (_ & _ & _ & _ & ->); done].
Qed.

(** [ds4_parse_gib_arg] succeeds exactly on the spellings of a count of
    1 to 2^34 - 1 GiB in at most 31 digits, and then the byte count is the
    exact product, without wrap-around. *)
Theorem parse_gib_arg_exact s b :
  ds4_parse_gib_arg (Some s) = (true, b) ↔
  ∃ d, gib_spelling d s ∧ d ≠ [] ∧ Forall (λ c, isdigit c = true) d ∧
       Z.of_nat (length d) < 32 ∧ 1 <= dec_value d <= UINT64_MAX / DS4_GIB ∧
       b = dec_value d * DS4_GIB.
Proof.
  change (UINT64_MAX / DS4_GIB) with 17179869183. split.
  - intros H. assert (s ≠ []) as Hs by (by intros ->).
    apply (parse_gib_number s _ b Hs eq_refl) in H as Hx. destruct (has_gb_suffix s) eqn:Eg.
    + apply has_gb_suffix_true in Eg as (d & a & c & -> & Hne & Ha & Hc).
      rewrite length_app, Nat.add_sub, take_app_length in Hx.
      exists d. split; [by constructor|]. done.
    + exists s. split; [constructor|done].
  - intros (d & Hsp & Hne & Hrest). destruct Hsp as [d|d a c Ha Hc].
    + apply (parse_gib_number d d b); [done| |done].
      rewrite has_gb_suffix_digits; [done|]. apply Hrest.
    + apply (parse_gib_number (d ++ [a; c]) d b); [by destruct d| |done].
      rewrite has_gb_suffix_app by done.
      by rewrite length_app, Nat.add_sub, take_app_length.
Qed.
