(* ===== verification/Sha1.v ===== *)
(** * SHA-1 as the KV store computes it

    Model of the incremental SHA-1 of [engine/src/kv_store.c] ([sha1_ctx],
    [rol32], [sha1_transform], [sha1_init], [sha1_update], [sha1_final],
    [hex20], [kv_store_sha1_bytes_hex]) on 32-bit words, and its equivalence
    with the one-shot definition: fold the compression function over the
    64-byte blocks of the padded message. *)
From S2P Require Import Prelude.

(** ** The compression function *)

(** The five chaining words [h[0..4]]. *)
Record sha1_h := Sha1H { h0 : Z; h1 : Z; h2 : Z; h3 : Z; h4 : Z }.

Definition rol32 (v n : Z) : Z := Z.lor (u32 (Z.shiftl v n)) (Z.shiftr v (32 - n)).

(** The big-endian word at byte offset [i * 4] of the block. *)
Definition block_word (block : bytes) (i : nat) : Z :=
  Z.lor (Z.lor (Z.shiftl (nth (i * 4) block 0) 24) (Z.shiftl (nth (i * 4 + 1) block 0) 16))
        (Z.lor (Z.shiftl (nth (i * 4 + 2) block 0) 8) (nth (i * 4 + 3) block 0)).

(** The message schedule [w[0..79]], extended [n] times. *)
Fixpoint extend_schedule (n : nat) (w : list Z) : list Z :=
  match n with
  | O => w
  | S n' =>
      let i := length w in
      let x := Z.lxor (Z.lxor (nth (i - 3) w 0) (nth (i - 8) w 0))
                      (Z.lxor (nth (i - 14) w 0) (nth (i - 16) w 0)) in
      extend_schedule n' (w ++ [rol32 x 1])
  end.

Definition schedule (block : bytes) : list Z :=
  extend_schedule 64 (block_word block <$> seq 0 16).

(** The round function [f] and constant [k] of round [i]. *)
Definition round_fk (i : nat) (b c d : Z) : Z * Z :=
  if (i <? 20)%nat then
    (Z.lor (Z.land b c) (Z.land (Z.lxor b UINT32_MAX) d), 0x5a827999)
  else if (i <? 40)%nat then (Z.lxor (Z.lxor b c) d, 0x6ed9eba1)
  else if (i <? 60)%nat then
    (Z.lor (Z.lor (Z.land b c) (Z.land b d)) (Z.land c d), 0x8f1bbcdc)
  else (Z.lxor (Z.lxor b c) d, 0xca62c1d6).

Definition sha1_round (w : list Z) (s : sha1_h) (i : nat) : sha1_h :=
  let '(f, k) := round_fk i (h1 s) (h2 s) (h3 s) in
  let tmp := u32 (rol32 (h0 s) 5 + f + h4 s + k + nth i w 0) in
  Sha1H tmp (h0 s) (rol32 (h1 s) 30) (h2 s) (h3 s).

(** [sha1_transform] on the chaining words. *)
Definition compress (h : sha1_h) (block : bytes) : sha1_h :=
  let s := foldl (sha1_round (schedule block)) h (seq 0 80) in
  Sha1H (u32 (h0 h + h0 s)) (u32 (h1 h + h1 s)) (u32 (h2 h + h2 s))
        (u32 (h3 h + h3 s)) (u32 (h4 h + h4 s)).

(** ** The incremental context *)

Record sha1_ctx := Sha1Ctx {
  ctx_h : sha1_h;
  ctx_bytes : Z;
  ctx_block : bytes;
  ctx_used : nat;
}.

Definition sha1_iv : sha1_h :=
  Sha1H 0x67452301 0xefcdab89 0x98badcfe 0x10325476 0xc3d2e1f0.

(** The block buffer is uninitialised storage; its contents never matter. *)
Definition sha1_init (block : bytes) : sha1_ctx := Sha1Ctx sha1_iv 0 block 0.

(** One iteration of the loop: copy [n] bytes, and transform a full block. *)
Definition sha1_absorb (c : sha1_ctx) (p : bytes) : sha1_ctx :=
  let used := (ctx_used c + length p)%nat in
  let block := take (ctx_used c) (ctx_block c) ++ p ++ drop used (ctx_block c) in
  if (used =? 64)%nat
  then Sha1Ctx (compress (ctx_h c) block) (ctx_bytes c) block 0
  else Sha1Ctx (ctx_h c) (ctx_bytes c) block used.

Fixpoint sha1_update_loop (fuel : nat) (c : sha1_ctx) (p : bytes) : sha1_ctx :=
  match p, fuel with
  | _ :: _, S fuel' =>
      let n := Nat.min (64 - ctx_used c) (length p) in
      sha1_update_loop fuel' (sha1_absorb c (take n p)) (drop n p)
  | _, _ => c
  end.

Definition sha1_update (c : sha1_ctx) (p : bytes) : sha1_ctx :=
  sha1_update_loop (length p)
    (Sha1Ctx (ctx_h c) (u64 (ctx_bytes c + Z.of_nat (length p))) (ctx_block c) (ctx_used c)) p.

(** [while (c->used != 56) sha1_update(c, &zero, 1)]. *)
Fixpoint sha1_pad_zeros (fuel : nat) (c : sha1_ctx) : sha1_ctx :=
  match fuel with
  | O => c
  | S fuel' => if (ctx_used c =? 56)%nat then c else sha1_pad_zeros fuel' (sha1_update c [0])
  end.

(** The big-endian bytes of an [n]-byte number. *)
Definition be_bytes (n : nat) (v : Z) : bytes :=
  (λ i, u8 (Z.shiftr v (8 * Z.of_nat (n - 1 - i)))) <$> seq 0 n.

Definition sha1_digest (h : sha1_h) : bytes :=
  be_bytes 4 (h0 h) ++ be_bytes 4 (h1 h) ++ be_bytes 4 (h2 h)
  ++ be_bytes 4 (h3 h) ++ be_bytes 4 (h4 h).

Definition sha1_final (c : sha1_ctx) : bytes :=
  let bits := u64 (ctx_bytes c * 8) in
  let c := sha1_update c [0x80] in
  let c := sha1_pad_zeros 64 c in
  let c := sha1_update c (be_bytes 8 bits) in
  sha1_digest (ctx_h c).

Definition hex_digit (v : Z) : Z := nth (Z.to_nat v) (bs "0123456789abcdef") 0.

Definition hex20 (d : bytes) : bytes :=
  d ≫= λ b, [hex_digit (Z.shiftr b 4); hex_digit (Z.land b 15)].

Definition kv_store_sha1_bytes_hex (p : bytes) : bytes :=
  hex20 (sha1_final (sha1_update (sha1_init (replicate 64 0)) p)).

(** ** The one-shot definition *)

Fixpoint sha1_blocks (k : nat) (h : sha1_h) (m : bytes) : sha1_h :=
  match k with
  | O => h
  | S k' => sha1_blocks k' (compress h (take 64 m)) (drop 64 m)
  end.

(** A message, the bit 1, zeros up to 56 modulo 64, and the length in bits. *)
Definition sha1_pad (m : bytes) : bytes :=
  m ++ [0x80] ++ replicate ((119 - length m mod 64) mod 64) 0
  ++ be_bytes 8 (u64 (Z.of_nat (length m) * 8)).

Definition sha1_spec (m : bytes) : bytes :=
  sha1_digest (sha1_blocks (length (sha1_pad m) / 64) sha1_iv (sha1_pad m)).

(** FIPS 180 test vectors. *)
Example sha1_abc :
  kv_store_sha1_bytes_hex (bs "abc") = bs "a9993e364706816aba3e25717850c26c9cd0d89d".
Proof. vm_compute. reflexivity. Qed.

Example sha1_two_blocks :
  kv_store_sha1_bytes_hex
    (bs "abcdbcdecdefdefgefghfghighijhijkijkljklmklmnlmnomnopnopq")
  = bs "84983e441c3bd26ebaae4aa1f95129e5e54670f1".
Proof. vm_compute. reflexivity. Qed.

#[local] Opaque compress.

(** ** The context represents the message absorbed so far *)

Lemma sha1_blocks_app k h m x :
  (64 * k <= length m)%nat → sha1_blocks k h (m ++ x) = sha1_blocks k h m.
Proof.
  revert h m; induction k as [|k IH]; intros h m Hl; [done|]. cbn [sha1_blocks].
  rewrite take_app_le, drop_app_le by lia. apply IH. rewrite length_drop. lia.
Qed.

Lemma sha1_blocks_snoc k h m :
  sha1_blocks (S k) h m = compress (sha1_blocks k h m) (take 64 (drop (64 * k) m)).
Proof.
  revert h m; induction k as [|k IH]; intros h m; [done|].
  change (sha1_blocks (S (S k)) h m) with (sha1_blocks (S k) (compress h (take 64 m)) (drop 64 m)).
  rewrite IH. cbn [sha1_blocks]. rewrite drop_drop.
  by replace (64 * S k)%nat with (64 + 64 * k)%nat by lia.
Qed.

Definition represents (c : sha1_ctx) (m : bytes) : Prop :=
  let k := (length m / 64)%nat in
  ctx_h c = sha1_blocks k sha1_iv m ∧
  ctx_used c = (length m mod 64)%nat ∧
  length (ctx_block c) = 64%nat ∧
  take (ctx_used c) (ctx_block c) = drop (64 * k) m.

(** Splitting a length by 64. *)
Lemma len_split (m : bytes) :
  length m = (64 * (length m / 64) + length m mod 64)%nat ∧ (length m mod 64 < 64)%nat.
Proof. split; [apply Nat.div_mod_eq|apply Nat.mod_upper_bound; lia]. Qed.

Lemma len_unique n k a : n = (64 * k + a)%nat → (a < 64)%nat → (n / 64 = k ∧ n mod 64 = a)%nat.
Proof.
  intros. split; symmetry; [by eapply Nat.div_unique|by eapply Nat.mod_unique].
Qed.

Lemma represents_absorb c m p :
  represents c m → (ctx_used c + length p <= 64)%nat → represents (sha1_absorb c p) (m ++ p).
Proof.
  intros (Hh & Hu & Hb & Ht) Hp. destruct (len_split m) as [Hm Hlt].
  assert (64 * (length m / 64) <= length m)%nat as Hk by lia.
  unfold sha1_absorb. set (block := _ ++ p ++ _).
  assert (length block = 64%nat) as Hbl
    by (subst block; rewrite !length_app, length_take, length_drop; lia).
  assert (take (ctx_used c + length p) block = drop (64 * (length m / 64)) m ++ p) as Htk.
  { subst block. rewrite Ht, app_assoc, take_app_le, take_ge; [done|..];
      rewrite length_app, length_drop; lia. }
  destruct (Nat.eqb_spec (ctx_used c + length p) 64) as [Hfull|Hpart].
  - assert (length (m ++ p) / 64 = S (length m / 64) ∧ length (m ++ p) mod 64 = 0)%nat
      as [Hd Hr].
    { apply len_unique; [rewrite length_app|]; lia. }
    unfold represents; cbn [ctx_h ctx_used ctx_block]. rewrite Hd, Hr, sha1_blocks_snoc, sha1_blocks_app by done.
    rewrite <- Hh, drop_app_le by lia. repeat split; [|done|].
    + rewrite Hfull, take_ge in Htk by lia. rewrite <- Htk.
      rewrite take_ge; [done|]. rewrite Htk, length_app, length_drop. lia.
    + rewrite drop_ge; [done|]. rewrite length_app. lia.
  - assert (length (m ++ p) / 64 = length m / 64 ∧
            length (m ++ p) mod 64 = ctx_used c + length p)%nat as [Hd Hr].
    { apply len_unique; [rewrite length_app|]; lia. }
    unfold represents; cbn [ctx_h ctx_used ctx_block]. rewrite Hd, Hr, sha1_blocks_app, drop_app_le by lia. done.
Qed.

Lemma represents_used c m : represents c m → (ctx_used c < 64)%nat.
Proof. intros (_ & -> & _). apply Nat.mod_upper_bound. lia. Qed.

Lemma sha1_absorb_bytes c p : ctx_bytes (sha1_absorb c p) = ctx_bytes c.
Proof. unfold sha1_absorb. by case_if. Qed.

Lemma represents_update_loop fuel c m p :
  represents c m → (length p <= fuel)%nat →
  represents (sha1_update_loop fuel c p) (m ++ p) ∧
  ctx_bytes (sha1_update_loop fuel c p) = ctx_bytes c.
Proof.
  revert c m p; induction fuel as [|fuel IH]; intros c m p Hr Hf;
    (destruct p as [|x p]; [by rewrite app_nil_r|]); [simpl in Hf; lia|].
  cbn [sha1_update_loop]. pose proof (represents_used c m Hr).
  set (n := Nat.min _ _).
  assert (0 < n <= length (x :: p) ∧ n <= 64 - ctx_used c)%nat as [Hn Hn64]
    by (subst n; simpl; lia).
  destruct (IH (sha1_absorb c (take n (x :: p))) (m ++ take n (x :: p)) (drop n (x :: p)))
    as [H1 H2].
  - apply represents_absorb; [done|]. rewrite length_take. lia.
  - rewrite length_drop. simpl in *. lia.
  - rewrite <- app_assoc, take_drop in H1. by rewrite H2, sha1_absorb_bytes.
Qed.

Lemma represents_update c m p :
  represents c m →
  represents (sha1_update c p) (m ++ p) ∧
  ctx_bytes (sha1_update c p) = u64 (ctx_bytes c + Z.of_nat (length p)).
Proof. intros Hr. unfold sha1_update. by apply represents_update_loop. Qed.

Lemma represents_init block : length block = 64%nat → represents (sha1_init block) [].
Proof. done. Qed.

(** The zero padding stops at 56 modulo 64. *)
Lemma represents_pad_zeros j fuel c m :
  represents c m → ((length m + j) mod 64 = 56)%nat → (j < 64)%nat → (j < fuel)%nat →
  represents (sha1_pad_zeros fuel c) (m ++ replicate j 0).
Proof.
  revert fuel c m; induction j as [|j IH]; intros fuel c m Hr Hm Hj Hf;
    (destruct fuel as [|fuel]; [lia|]); cbn [sha1_pad_zeros];
    pose proof Hr as (_ & Hu & _); rewrite Hu.
  - rewrite Nat.add_0_r in Hm. rewrite Hm, app_nil_r. done.
  - destruct (Nat.eqb_spec (length m mod 64) 56) as [E|E].
    + exfalso. rewrite <- Nat.Div0.add_mod_idemp_l, E in Hm.
      destruct (decide (S j < 8)%nat); [rewrite Nat.mod_small in Hm by lia; lia|].
      replace (56 + S j)%nat with ((S j - 8) + 1 * 64)%nat in Hm by lia.
      rewrite Nat.Div0.mod_add, Nat.mod_small in Hm by lia. lia.
    + destruct (represents_update c m [0] Hr) as [Hr' _].
      replace (m ++ replicate (S j) 0) with ((m ++ [0]) ++ replicate j 0)
        by (by rewrite <- app_assoc).
      apply IH; [done| |lia|lia]. rewrite length_app. simpl length.
      by replace (length m + 1 + j)%nat with (length m + S j)%nat by lia.
Qed.

Lemma pad_count (n : nat) : (((n + 1) + (119 - n mod 64) mod 64) mod 64 = 56)%nat.
Proof.
  rewrite Nat.Div0.add_mod_idemp_r. pose proof (Nat.mod_upper_bound n 64 ltac:(lia)).
  rewrite (Nat.div_mod_eq n 64) at 1.
  replace (64 * (n / 64) + n mod 64 + 1 + (119 - n mod 64))%nat
    with (56 + (1 + n / 64) * 64)%nat by lia.
  by rewrite Nat.Div0.mod_add.
Qed.

Lemma length_be_bytes n v : length (be_bytes n v) = n.
Proof. unfold be_bytes. by rewrite length_fmap, length_seq. Qed.

(** Finishing a context that represents [m] gives the digest of [m]. *)
Lemma sha1_final_spec c m :
  represents c m → ctx_bytes c = u64 (Z.of_nat (length m)) → sha1_final c = sha1_spec m.
Proof.
  intros Hr Hb. unfold sha1_final. rewrite Hb.
  replace (u64 (u64 (Z.of_nat (length m)) * 8)) with (u64 (Z.of_nat (length m) * 8))
    by (unfold u64; by rewrite Z.mul_mod_idemp_l).
  destruct (represents_update c m [0x80] Hr) as [H1 _].
  assert (represents (sha1_pad_zeros 64 (sha1_update c [0x80]))
            ((m ++ [0x80]) ++ replicate ((119 - length m mod 64) mod 64) 0)) as H2.
  { pose proof (Nat.mod_upper_bound (119 - length m mod 64) 64 ltac:(lia)).
    apply represents_pad_zeros; [done| |lia|lia]. rewrite length_app. apply pad_count. }
  destruct (represents_update _ _ (be_bytes 8 (u64 (Z.of_nat (length m) * 8))) H2) as [H3 _].
  rewrite <- !app_assoc in H3. fold (sha1_pad m) in H3.
  destruct H3 as (Hh & _). rewrite Hh. done.
Qed.

(** ** Properties *)

(** The incremental hash is SHA-1: on every message, whatever the block
    buffer held before and however the message is split into two updates, the
    digest is the compression function folded over the blocks of the message
    padded with the bit 1, zeros and its 64-bit length. *)
Theorem sha1_incremental_correct block m1 m2 :
  length block = 64%nat →
  sha1_final (sha1_update (sha1_update (sha1_init block) m1) m2) = sha1_spec (m1 ++ m2).
Proof.
  intros Hb. destruct (represents_update _ _ m1 (represents_init block Hb)) as [H1 B1].
  destruct (represents_update _ _ m2 H1) as [H2 B2]. apply sha1_final_spec; [done|].
  rewrite B2, B1. cbn [ctx_bytes sha1_init]. rewrite length_app, Nat2Z.inj_add.
  unfold u64. by rewrite Z.add_mod_idemp_l.
Qed.

Lemma sha1_incremental_correct_witness :
  length (replicate 64 0) = 64%nat ∧
  sha1_final (sha1_update (sha1_update (sha1_init (replicate 64 0)) (bs "ab")) (bs "c"))
  = sha1_spec (bs "abc").
Proof.
  split; [reflexivity|].
  apply (sha1_incremental_correct (replicate 64 0) (bs "ab") (bs "c")). reflexivity.
Defined.

Lemma sha1_hex_spec m : kv_store_sha1_bytes_hex m = hex20 (sha1_spec m).
Proof.
  unfold kv_store_sha1_bytes_hex. f_equal.
  destruct (represents_update _ _ m (represents_init (replicate 64 0) eq_refl)) as [H1 B1].
  apply sha1_final_spec; done.
Qed.

Lemma hex_digit_range v :
  0 <= v < 16 → (48 <= hex_digit v <= 57) ∨ (97 <= hex_digit v <= 102).
Proof.
  intros Hv.
  assert (v = 0 ∨ v = 1 ∨ v = 2 ∨ v = 3 ∨ v = 4 ∨ v = 5 ∨ v = 6 ∨ v = 7 ∨ v = 8 ∨ v = 9 ∨
          v = 10 ∨ v = 11 ∨ v = 12 ∨ v = 13 ∨ v = 14 ∨ v = 15) as Hc by lia.
  destruct_or! Hc; subst v; vm_compute; intuition congruence.
Qed.

Definition is_hex_lower (c : Z) : Prop := (48 <= c <= 57) ∨ (97 <= c <= 102).

Lemma hex20_format d :
  is_bytes d → length (hex20 d) = (2 * length d)%nat ∧ Forall is_hex_lower (hex20 d).
Proof.
  induction 1 as [|b d Hb _ [IHl IHf]]; [by split; [|constructor]|].
  change (hex20 (b :: d))
    with (hex_digit (Z.shiftr b 4) :: hex_digit (Z.land b 15) :: hex20 d).
  split; [simpl; lia|]. unfold is_u8 in Hb.
  apply Forall_cons; split; [|apply Forall_cons; split; [|done]]; apply hex_digit_range.
  - rewrite Z.shiftr_div_pow2 by lia. change (2 ^ 4) with 16.
    split; [apply Z.div_pos; lia|apply Z.div_lt_upper_bound; lia].
  - change 15 with (Z.ones 4). rewrite Z.land_ones by lia. apply Z.mod_pos_bound. lia.
Qed.

Lemma is_bytes_be_bytes n v : is_bytes (be_bytes n v).
Proof. unfold be_bytes. apply Forall_fmap, Forall_true. intros i. apply u8_range. Qed.

(** The key is always 40 lowercase hexadecimal characters. *)
Lemma sha1_hex_format m :
  length (kv_store_sha1_bytes_hex m) = 40%nat ∧
  Forall is_hex_lower (kv_store_sha1_bytes_hex m).
Proof.
  rewrite sha1_hex_spec. unfold sha1_spec, sha1_digest.
  set (h := sha1_blocks _ _ _). clearbody h.
  destruct (hex20_format (be_bytes 4 (h0 h) ++ be_bytes 4 (h1 h) ++ be_bytes 4 (h2 h)
                  ++ be_bytes 4 (h3 h) ++ be_bytes 4 (h4 h))) as [Hl Hf].
  - pose proof is_bytes_be_bytes as Hbe. unfold is_bytes in *. by rewrite !Forall_app.
  - split; [|done]. by rewrite Hl, !length_app, !length_be_bytes.
Qed.
