(* ===== verification/KvHeader.v ===== *)
(** * The KV checkpoint file: header, names and per-file operations

    Model of the file-format part of [engine/src/kv_store.c]: the little-endian
    accessors, [kv_store_fill_header], [kv_store_read_header], the file-name
    functions, [kv_store_read_entry_file] and [kv_store_touch_file].  A file is
    its contents; a [FILE] opened for reading is the bytes that remain.  The file
    system is a finite map from paths to contents. *)
From S2P Require Import Prelude CLib Sha1.

(** ** Data *)

Abbreviation DS4_KVSTORE_FIXED_HEADER := 48 (only parsing).

(** [kv_store_entry].  The text and payload sizes are kept as the header gives
    them; [e_sha] and [e_path] are C strings. *)
Record kv_store_entry := KvEntry {
  e_sha : bytes;
  e_path : bytes;
  e_quant_bits : Z;
  e_model_id : Z;
  e_reason : Z;
  e_tokens : Z;
  e_hits : Z;
  e_ctx_size : Z;
  e_ext_flags : Z;
  e_created_at : Z;
  e_last_used : Z;
  e_payload_bytes : Z;
  e_text_bytes : Z;
  e_file_size : Z;
}.

#[export] Instance kv_store_entry_eq_dec : EqDecision kv_store_entry.
Proof. solve_decision. Defined.

Definition REASON_UNKNOWN : Z := 0.
Definition REASON_COLD : Z := 1.
Definition REASON_CONTINUED : Z := 2.
Definition REASON_EVICT : Z := 3.
Definition REASON_SHUTDOWN : Z := 4.
Definition REASON_AGENT_SYSTEM : Z := 5.
Definition REASON_AGENT_SESSION : Z := 6.

(** [kv_store_reason_code]: a null pointer is [None]. *)
Definition kv_store_reason_code (reason : option bytes) : Z :=
  match reason with
  | None => REASON_UNKNOWN
  | Some r =>
      if bytes_eqb r (bs "cold") then REASON_COLD
      else if bytes_eqb r (bs "continued") then REASON_CONTINUED
      else if bytes_eqb r (bs "evict") then REASON_EVICT
      else if bytes_eqb r (bs "shutdown") then REASON_SHUTDOWN
      else if bytes_eqb r (bs "agent-system") then REASON_AGENT_SYSTEM
      else if bytes_eqb r (bs "agent-session") then REASON_AGENT_SESSION
      else REASON_UNKNOWN
  end.

Definition EXT_TOOL_MAP : Z := 1.
Definition EXT_RESPONSES_VISIBLE : Z := 2.
Definition EXT_THINKING_VISIBLE : Z := 4.

Definition kv_store_key_kind (ext_flags : Z) : bytes :=
  if negb (Z.land ext_flags EXT_RESPONSES_VISIBLE =? 0) then bs "responses-visible"
  else if negb (Z.land ext_flags EXT_THINKING_VISIBLE =? 0) then bs "thinking-visible"
  else bs "token-text".

(** ** Little-endian integers *)

Definition kv_store_le_put32 (v : Z) : bytes :=
  [u8 v; u8 (Z.shiftr v 8); u8 (Z.shiftr v 16); u8 (Z.shiftr v 24)].

Definition kv_le_put64 (v : Z) : bytes :=
  (λ i, u8 (Z.shiftr v (8 * Z.of_nat i))) <$> seq 0 8.

Definition kv_store_le_get32 (p : bytes) : Z :=
  Z.lor (Z.lor (Z.lor (nth 0 p 0) (Z.shiftl (nth 1 p 0) 8)) (Z.shiftl (nth 2 p 0) 16))
        (Z.shiftl (nth 3 p 0) 24).

(** The loop of [kv_le_get64] runs from the last byte to the first. *)
Definition kv_le_get64 (p : bytes) : Z :=
  foldr (λ b v, Z.lor (u64 (Z.shiftl v 8)) b) 0 (take 8 p).

(** ** The header *)

Definition kv_store_fill_header (model_id quant_bits reason ext_flags tokens hits ctx_size
    created_at last_used payload_bytes : Z) : bytes :=
  [75; 86; 67; 1; quant_bits; reason; ext_flags; model_id]
  ++ kv_store_le_put32 tokens ++ kv_store_le_put32 hits ++ kv_store_le_put32 ctx_size
  ++ [2; 0; 0; 0]
  ++ kv_le_put64 created_at ++ kv_le_put64 last_used ++ kv_le_put64 payload_bytes.

(** [fread(buf, 1, n, fp) == n]: the bytes read and what is left. *)
Definition fread (n : nat) (fp : bytes) : option (bytes * bytes) :=
  if (n <=? length fp)%nat then Some (take n fp, drop n fp) else None.

(** [kv_store_read_header] on an entry whose other fields are zero; the result
    carries the text size and the rest of the file. *)
Definition kv_store_read_header (fp : bytes) : option (kv_store_entry * Z * bytes) :=
  '(h, fp) ← fread 48 fp;
  let b i := nth i h 0 in
  if negb (b 0%nat =? 75) || negb (b 1%nat =? 86) || negb (b 2%nat =? 67)
     || negb (b 3%nat =? 1) then None
  else if negb (b 20%nat =? 2) then None
  else
    '(tb, fp) ← fread 4 fp;
    let text_bytes := kv_store_le_get32 tb in
    let e := {|
      e_sha := []; e_path := [];
      e_quant_bits := b 4%nat;
      e_model_id := b 7%nat;
      e_reason := if b 5%nat <=? REASON_AGENT_SESSION then b 5%nat else REASON_UNKNOWN;
      e_tokens := kv_store_le_get32 (drop 8 h);
      e_hits := kv_store_le_get32 (drop 12 h);
      e_ctx_size := kv_store_le_get32 (drop 16 h);
      e_ext_flags := b 6%nat;
      e_created_at := kv_le_get64 (drop 24 h);
      e_last_used := kv_le_get64 (drop 32 h);
      e_payload_bytes := kv_le_get64 (drop 40 h);
      e_text_bytes := text_bytes;
      e_file_size := 0 |} in
    if negb (e_tokens e =? 0) && ((e_quant_bits e =? 2) || (e_quant_bits e =? 4))
    then Some (e, text_bytes, fp) else None.

(** ** Names and paths *)

Definition kv_store_sha_hex_name (name : bytes) : option bytes :=
  if negb (length name =? 43)%nat || negb (bytes_eqb (drop 40 name) (bs ".kv")) then None
  else if forallb isxdigit (take 40 name) then Some (tolower <$> take 40 name)
  else None.

Definition kv_store_path_join (dir name : bytes) : bytes :=
  match last dir with
  | Some 47 => dir ++ name
  | _ => dir ++ [47] ++ name
  end.

(** [sha] is a 40-character string. *)
Definition kv_store_path_for_sha (dir sha : bytes) : bytes :=
  kv_store_path_join dir (take 40 sha ++ bs ".kv").

(** ** Files *)

Abbreviation fs := (gmap bytes bytes).

Definition with_place (sha path : bytes) (size : Z) (e : kv_store_entry) : kv_store_entry := {|
  e_sha := sha; e_path := path;
  e_quant_bits := e_quant_bits e; e_model_id := e_model_id e; e_reason := e_reason e;
  e_tokens := e_tokens e; e_hits := e_hits e; e_ctx_size := e_ctx_size e;
  e_ext_flags := e_ext_flags e; e_created_at := e_created_at e; e_last_used := e_last_used e;
  e_payload_bytes := e_payload_bytes e; e_text_bytes := e_text_bytes e;
  e_file_size := size |}.

Definition kv_store_read_entry_file (files : fs) (path sha : bytes) : option kv_store_entry :=
  data ← files !! path;
  let st_size := Z.of_nat (length data) in
  if st_size <? DS4_KVSTORE_FIXED_HEADER + 4 then None
  else
    '(e, text_bytes, _) ← kv_store_read_header data;
    let fixed := DS4_KVSTORE_FIXED_HEADER + 4 in
    if (UINT64_MAX - fixed <? text_bytes)
       || (u64 (UINT64_MAX - fixed - text_bytes) <? e_payload_bytes e) then None
    else
      let expected := u64 (fixed + text_bytes + e_payload_bytes e) in
      if st_size <? expected then None
      else Some (with_place sha path st_size e).

(** [kv_store_touch_file]: overwrite the header in place; [now] is [time(NULL)]. *)
Definition kv_store_touch_file (files : fs) (path : bytes) (hits now : Z) : bool * fs :=
  match files !! path with
  | None => (false, files)
  | Some data =>
      match kv_store_read_header data with
      | None => (false, files)
      | Some (e, _, _) =>
          let h := kv_store_fill_header (e_model_id e) (e_quant_bits e) (e_reason e)
                     (e_ext_flags e) (e_tokens e) hits (e_ctx_size e)
                     (e_created_at e) now (e_payload_bytes e) in
          (true, <[path := h ++ drop 48 data]> files)
      end
  end.

(** ** Little-endian round trips *)

Fixpoint le_list (n : nat) (v : Z) : bytes :=
  match n with O => [] | S n' => u8 v :: le_list n' (Z.shiftr v 8) end.

Lemma le_list_seq n v k :
  (λ i, u8 (Z.shiftr v (8 * Z.of_nat i))) <$> seq k n
  = le_list n (Z.shiftr v (8 * Z.of_nat k)).
Proof.
  revert k; induction n as [|n IH]; intros k; [done|].
  cbn [seq fmap list_fmap le_list]. f_equal. change (list_fmap _ _ ?f ?l) with (f <$> l).
  rewrite IH, Z.shiftr_shiftr by lia.
  by replace (8 * Z.of_nat (S k)) with (8 * Z.of_nat k + 8) by lia.
Qed.

Lemma kv_le_put64_list v : kv_le_put64 v = le_list 8 v.
Proof. unfold kv_le_put64. rewrite le_list_seq. by rewrite Z.shiftr_0_r. Qed.

Lemma le_put32_list v : kv_store_le_put32 v = le_list 4 v.
Proof. unfold kv_store_le_put32. simpl. rewrite !Z.shiftr_shiftr by lia. done. Qed.

Lemma le_list_length n v : length (le_list n v) = n.
Proof. revert v; induction n as [|n IH]; intros v; simpl; [done|]. by rewrite IH. Qed.

Lemma lor_add a b k : 0 <= k → 0 <= a < 2 ^ k → Z.lor a (Z.shiftl b k) = a + b * 2 ^ k.
Proof.
  intros Hk Ha. destruct (Z.eq_dec a 0) as [->|Ha0]; [by rewrite Z.lor_0_l, Z.shiftl_mul_pow2|].
  rewrite <- Z.shiftl_mul_pow2 by lia.
  rewrite Z.add_nocarry_lxor, Z.lxor_lor; [done| |].
  all: apply Z.bits_inj'; intros n Hn; rewrite Z.land_spec, Z.bits_0.
  all: destruct (Z.ltb_spec n k).
  all: try (rewrite Z.shiftl_spec_low by lia; apply andb_false_r).
  all: rewrite (Z.bits_above_log2 a n); [done|lia|].
  all: apply Z.log2_lt_pow2; [lia|].
  all: assert (2 ^ k <= 2 ^ n) by (apply Z.pow_le_mono_r; lia); lia.
Qed.

Lemma lor_u8_shift b v : is_u8 b → Z.lor (Z.shiftl v 8) b = b + v * 256.
Proof. intros. rewrite Z.lor_comm. apply lor_add; [lia|]. done. Qed.

Lemma le_fold_list n v :
  (n <= 8)%nat → 0 <= v < 2 ^ (8 * Z.of_nat n) →
  foldr (λ b v, Z.lor (u64 (Z.shiftl v 8)) b) 0 (le_list n v) = v.
Proof.
  revert v; induction n as [|n IH]; intros v Hn Hv.
  - simpl in *. lia.
  - cbn [le_list foldr].
    assert (Hp : 2 ^ (8 * Z.of_nat (S n)) = 256 * 2 ^ (8 * Z.of_nat n)).
    { replace (8 * Z.of_nat (S n)) with (8 + 8 * Z.of_nat n) by lia. by rewrite Z.pow_add_r by lia. }
    assert (H64 : 2 ^ (8 * Z.of_nat (S n)) <= 2 ^ 64) by (apply Z.pow_le_mono_r; lia).
    rewrite Z.shiftr_div_pow2 by lia. change (2 ^ 8) with 256.
    assert (Hd : 0 <= v / 256 < 2 ^ (8 * Z.of_nat n)).
    { split; [apply Z.div_pos; lia|]. apply Z.div_lt_upper_bound; lia. }
    rewrite IH by lia.
    assert (Hs : Z.shiftl (v / 256) 8 = v / 256 * 256) by (by rewrite Z.shiftl_mul_pow2).
    rewrite u64_small, lor_u8_shift by
      (auto with spark; unfold is_u64; rewrite Hs; pose proof (Z.mod_pos_bound v 256);
       pose proof (Z.div_mod v 256); lia).
    unfold u8. change (2 ^ 8) with 256. pose proof (Z.div_mod v 256). lia.
Qed.

Lemma take_app_exact {A} (n : nat) (l k : list A) : length l = n → take n (l ++ k) = l.
Proof. intros <-. by rewrite take_app_length. Qed.

Lemma drop_app_exact {A} (n : nat) (l k : list A) : length l = n → drop n (l ++ k) = k.
Proof. intros <-. by rewrite drop_app_length. Qed.

Lemma le_get64_put64 v rest : is_u64 v → kv_le_get64 (kv_le_put64 v ++ rest) = v.
Proof.
  intros Hv. unfold kv_le_get64. rewrite kv_le_put64_list.
  rewrite take_app_exact by apply le_list_length. apply le_fold_list; [lia|].
  unfold is_u64 in Hv. simpl. lia.
Qed.

Lemma le_get32_put32 v rest : is_u32 v → kv_store_le_get32 (kv_store_le_put32 v ++ rest) = v.
Proof.
  unfold is_u32. intros Hv. unfold kv_store_le_get32, kv_store_le_put32. cbn [app nth].
  rewrite !Z.shiftr_div_pow2 by lia.
  pose proof (u8_range v); pose proof (u8_range (v / 2 ^ 8)); pose proof (u8_range (v / 2 ^ 16)).
  pose proof (u8_range (v / 2 ^ 24)). unfold is_u8 in *.
  rewrite (lor_add (u8 v)), !(lor_add (_ + _)) by lia.
  unfold u8 in *. change (2 ^ 8) with 256 in *. change (2 ^ 16) with 65536 in *.
  change (2 ^ 24) with 16777216 in *. Z.to_euclidean_division_equations. lia.
Qed.

Lemma le_put32_length v : length (kv_store_le_put32 v) = 4%nat.
Proof. done. Qed.

Lemma le_put64_length v : length (kv_le_put64 v) = 8%nat.
Proof. done. Qed.

(** ** Header lemmas *)

Lemma fill_header_length m q r x t h c ca lu p :
  length (kv_store_fill_header m q r x t h c ca lu p) = 48%nat.
Proof. done. Qed.

(** The values the header can hold. *)
Definition header_ok (m q r x t h c ca lu p : Z) : Prop :=
  is_u8 m ∧ (q = 2 ∨ q = 4) ∧ 0 <= r <= REASON_AGENT_SESSION ∧ is_u8 x
  ∧ (is_u32 t ∧ t ≠ 0) ∧ is_u32 h ∧ is_u32 c ∧ is_u64 ca ∧ is_u64 lu ∧ is_u64 p.

Lemma read_fill_header m q r x t h c ca lu p text_len rest :
  header_ok m q r x t h c ca lu p → is_u32 text_len →
  kv_store_read_header
    (kv_store_fill_header m q r x t h c ca lu p ++ kv_store_le_put32 text_len ++ rest)
  = Some (KvEntry [] [] q m r t h c x ca lu p text_len 0, text_len, rest).
Proof.
  intros (Hm & Hq & Hr & Hx & [Ht Ht0] & Hh & Hc & Hca & Hlu & Hp) Htl.
  unfold kv_store_read_header, fread. rewrite length_app, fill_header_length.
  rewrite take_app_exact, drop_app_exact by done. cbn [Nat.leb Nat.add mbind option_bind].
  rewrite length_app, le_put32_length. cbn [Nat.leb Nat.add mbind option_bind].
  rewrite take_app_exact, drop_app_exact by done.
  set (hd := kv_store_fill_header _ _ _ _ _ _ _ _ _ _).
  assert (H8 : kv_store_le_get32 (drop 8 hd) = t) by exact (le_get32_put32 t _ Ht).
  assert (H12 : kv_store_le_get32 (drop 12 hd) = h) by exact (le_get32_put32 h _ Hh).
  assert (H16 : kv_store_le_get32 (drop 16 hd) = c) by exact (le_get32_put32 c _ Hc).
  assert (H24 : kv_le_get64 (drop 24 hd) = ca) by exact (le_get64_put64 ca _ Hca).
  assert (H32 : kv_le_get64 (drop 32 hd) = lu) by exact (le_get64_put64 lu _ Hlu).
  assert (H40 : kv_le_get64 (drop 40 hd) = p) by exact (le_get64_put64 p [] Hp).
  assert (Htb : kv_store_le_get32 (kv_store_le_put32 text_len) = text_len)
    by exact (le_get32_put32 text_len [] Htl).
  rewrite H8, H12, H16, H24, H32, H40, Htb.
  change (nth 0 hd 0) with 75. change (nth 1 hd 0) with 86. change (nth 2 hd 0) with 67.
  change (nth 3 hd 0) with 1. change (nth 4 hd 0) with q. change (nth 5 hd 0) with r.
  change (nth 6 hd 0) with x. change (nth 7 hd 0) with m. change (nth 20 hd 0) with 2.
  cbn [e_tokens e_quant_bits Z.eqb Pos.eqb negb orb]. clearbody hd.
  destruct (Z.eqb_spec t 0); [done|]. destruct (Z.leb_spec r REASON_AGENT_SESSION); [|lia].
  by destruct Hq as [-> | ->].
Qed.

Lemma nth_u8 p i : is_bytes p → is_u8 (nth i p 0).
Proof.
  intros Hp. destruct (nth_in_or_default i p 0) as [Hi | ->]; [|unfold is_u8; lia].
  eapply List.Forall_forall in Hp; [done|exact Hi].
Qed.

Lemma is_bytes_drop n p : is_bytes p → is_bytes (drop n p).
Proof. apply Forall_drop. Qed.

Lemma is_bytes_take n p : is_bytes p → is_bytes (take n p).
Proof. apply Forall_take. Qed.

#[export] Hint Resolve nth_u8 is_bytes_drop is_bytes_take : spark.

Lemma le_get32_range p : is_bytes p → is_u32 (kv_store_le_get32 p).
Proof.
  intros Hp. unfold kv_store_le_get32, is_u32.
  pose proof (nth_u8 p 0 Hp); pose proof (nth_u8 p 1 Hp); pose proof (nth_u8 p 2 Hp).
  pose proof (nth_u8 p 3 Hp). unfold is_u8 in *.
  rewrite (lor_add (nth 0 p 0)), !(lor_add (_ + _)) by lia. lia.
Qed.

Lemma lor_range64 a b : is_u64 a → is_u64 b → is_u64 (Z.lor a b).
Proof.
  unfold is_u64. intros Ha Hb. split; [apply Z.lor_nonneg; lia|].
  destruct (Z.eq_dec (Z.lor a b) 0) as [->|Hz]; [lia|].
  assert (0 <= Z.lor a b) by (apply Z.lor_nonneg; lia).
  enough (Z.lor a b < 2 ^ 64) by lia. apply Z.log2_lt_pow2; [lia|].
  rewrite Z.log2_lor by lia.
  assert (∀ x, 0 <= x <= UINT64_MAX → Z.log2 x < 64) as Hl; [|pose proof (Hl a Ha); pose proof (Hl b Hb); lia].
  intros x Hx. destruct (Z.eq_dec x 0) as [->|]; [simpl; lia|]. apply Z.log2_lt_pow2; lia.
Qed.

Lemma le_get64_range p : is_bytes p → is_u64 (kv_le_get64 p).
Proof.
  intros Hp. unfold kv_le_get64.
  assert (Ht : is_bytes (take 8 p)) by auto with spark.
  induction Ht as [|b l Hb _ IH]; simpl; [unfold is_u64; lia|].
  apply lor_range64; [auto with spark|]. unfold is_u8 in Hb; unfold is_u64; lia.
Qed.

Definition entry_header_ok (e : kv_store_entry) : Prop :=
  header_ok (e_model_id e) (e_quant_bits e) (e_reason e) (e_ext_flags e) (e_tokens e)
    (e_hits e) (e_ctx_size e) (e_created_at e) (e_last_used e) (e_payload_bytes e).

(** What an accepted header says about the file it was read from. *)
Lemma read_header_inv fp e tb rest :
  is_bytes fp → kv_store_read_header fp = Some (e, tb, rest) →
  entry_header_ok e ∧ is_u32 tb ∧ e_text_bytes e = tb
  ∧ e_sha e = [] ∧ e_path e = [] ∧ e_file_size e = 0
  ∧ ∃ h tbb, fp = h ++ tbb ++ rest ∧ length h = 48%nat ∧ length tbb = 4%nat
             ∧ kv_store_le_get32 tbb = tb.
Proof.
  intros Hb. unfold kv_store_read_header, fread.
  destruct (Nat.leb_spec 48 (length fp)) as [H48|]; [|done]. cbn [mbind option_bind].
  case_if; [done|]. case_if; [done|].
  destruct (Nat.leb_spec 4 (length (drop 48 fp))) as [H4|]; [|done]. cbn [mbind option_bind].
  set (h := take 48 fp). assert (Hh : is_bytes h) by (unfold h; auto with spark).
  set (tbb := take 4 (drop 48 fp)).
  assert (Htb : is_bytes tbb) by (unfold tbb; auto with spark).
  cbn [e_tokens e_quant_bits].
  match goal with |- context [if negb ?x && ?y then _ else _] =>
    destruct (negb x) eqn:Ht0; [|done]; destruct y eqn:Hq; [|done] end.
  intros [= <- <- <-]. apply negb_true_iff, Z.eqb_neq in Ht0. apply orb_true_iff in Hq.
  split; [|split; [by apply le_get32_range|do 4 (split; [done|])]].
  - unfold entry_header_ok, header_ok. cbn -[nth kv_store_le_get32 kv_le_get64 h tbb].
    repeat split; try (apply le_get32_range || apply le_get64_range || apply nth_u8);
      auto with spark; try (case_if; bool_to_prop); try lia.
    all: pose proof (nth_u8 h 5 Hh) as Hr; unfold is_u8, REASON_UNKNOWN, REASON_AGENT_SESSION in *; lia.
  - exists h, tbb. unfold h, tbb. rewrite !length_take, !take_drop.
    repeat split; lia || done.
Qed.

(** [touch_entry e hits now] is the entry after a touch. *)
Definition touch_entry (e : kv_store_entry) (hits now : Z) : kv_store_entry :=
  KvEntry (e_sha e) (e_path e) (e_quant_bits e) (e_model_id e) (e_reason e) (e_tokens e)
    hits (e_ctx_size e) (e_ext_flags e) (e_created_at e) now (e_payload_bytes e)
    (e_text_bytes e) (e_file_size e).

(** Replacing the header of a readable file by one with other extension flags,
    hits and time keeps it readable, with the text size and the rest in place. *)
Lemma read_header_refill data e tb rest x hits now :
  is_bytes data → is_u8 x → is_u32 hits → is_u64 now →
  kv_store_read_header data = Some (e, tb, rest) →
  kv_store_read_header
    (kv_store_fill_header (e_model_id e) (e_quant_bits e) (e_reason e) x
       (e_tokens e) hits (e_ctx_size e) (e_created_at e) now (e_payload_bytes e) ++ drop 48 data)
  = Some (KvEntry [] [] (e_quant_bits e) (e_model_id e) (e_reason e) (e_tokens e) hits
            (e_ctx_size e) x (e_created_at e) now (e_payload_bytes e) (e_text_bytes e) 0, tb, rest).
Proof.
  intros Hb Hx Hh Hn Hr.
  destruct (read_header_inv _ _ _ _ Hb Hr) as (Hok & Htb & Het & _ & _ & _ & h & tbb & -> & Hl & Hl4 & Hg).
  rewrite drop_app_exact by done.
  assert (Htbb : is_bytes tbb) by (apply Forall_app in Hb as [_ [? _]%Forall_app]; done).
  assert (Hput : tbb = kv_store_le_put32 tb).
  { destruct tbb as [|b0 [|b1 [|b2 [|b3 [|? ?]]]]]; try done. rewrite <- Hg.
    unfold kv_store_le_get32, kv_store_le_put32. cbn [nth].
    unfold is_bytes in Htbb. rewrite !Forall_cons in Htbb. unfold is_u8 in Htbb.
    rewrite (lor_add b0), !(lor_add (_ + _)) by lia. rewrite !Z.shiftr_div_pow2 by lia.
    unfold u8. change (2 ^ 8) with 256. change (2 ^ 16) with 65536. change (2 ^ 24) with 16777216.
    repeat f_equal; Z.to_euclidean_division_equations; lia. }
  rewrite Hput. destruct Hok as (? & ? & ? & ? & ? & ? & ? & ? & ? & ?).
  rewrite read_fill_header by (unfold header_ok; naive_solver). by rewrite Het.
Qed.

Lemma read_header_touch data e tb rest hits now :
  is_bytes data → is_u32 hits → is_u64 now →
  kv_store_read_header data = Some (e, tb, rest) →
  kv_store_read_header
    (kv_store_fill_header (e_model_id e) (e_quant_bits e) (e_reason e) (e_ext_flags e)
       (e_tokens e) hits (e_ctx_size e) (e_created_at e) now (e_payload_bytes e) ++ drop 48 data)
  = Some (touch_entry e hits now, tb, rest).
Proof.
  intros Hb Hh Hn Hr.
  destruct (read_header_inv _ _ _ _ Hb Hr) as (Hok & _ & _ & Hs & Hp & Hf & _).
  erewrite read_header_refill by (done || apply Hok). unfold touch_entry. by rewrite Hs, Hp, Hf.
Qed.

(** ** Properties *)

(** The 48-byte header written by [kv_store_fill_header], followed by the
    text size, is read back by [kv_store_read_header] field by field for every
    value the fields can hold, and the reader stops exactly after the text size. *)
Theorem kv_header_roundtrip m q r x t h c ca lu p text_len rest
    (Hok : header_ok m q r x t h c ca lu p) (Htl : is_u32 text_len) :
  let file := kv_store_fill_header m q r x t h c ca lu p
              ++ kv_store_le_put32 text_len ++ rest in
  length (kv_store_fill_header m q r x t h c ca lu p) = 48%nat ∧
  kv_store_read_header file
  = Some (KvEntry [] [] q m r t h c x ca lu p text_len 0, text_len, rest).
Proof. split; [done|]. by apply read_fill_header. Qed.

(** Witness: a cold checkpoint of 2048 tokens. *)
Lemma kv_header_roundtrip_witness :
  kv_store_read_header
    (kv_store_fill_header 0 2 1 3 2048 0 4096 1700000000 1700000001 (2 ^ 40)
     ++ kv_store_le_put32 5 ++ bs "hello")
  = Some (KvEntry [] [] 2 0 1 2048 0 4096 3 1700000000 1700000001 (2 ^ 40) 5 0, 5, bs "hello").
Proof.
  apply (kv_header_roundtrip 0 2 1 3 2048 0 4096 1700000000 1700000001 (2 ^ 40) 5 (bs "hello")).
  - unfold header_ok, is_u8, is_u32, is_u64, REASON_AGENT_SESSION. lia.
  - unfold is_u32. lia.
Defined.

(** Touching a checkpoint that reads as an entry succeeds, changes no other
    file, keeps everything after the fixed header, and the file reads back as
    the same entry with the new hit count and time. *)
Theorem touch_file_correct files path sha data e hits now
    (Hd : files !! path = Some data) (Hb : is_bytes data)
    (He : kv_store_read_entry_file files path sha = Some e)
    (Hh : is_u32 hits) (Hn : is_u64 now) :
  let '(ok, files') := kv_store_touch_file files path hits now in
  ok = true
  ∧ kv_store_read_entry_file files' path sha = Some (touch_entry e hits now)
  ∧ (∃ data', files' !! path = Some data' ∧ length data' = length data
              ∧ drop 48 data' = drop 48 data)
  ∧ ∀ q, q ≠ path → files' !! q = files !! q.
Proof.
  unfold kv_store_touch_file. rewrite Hd.
  unfold kv_store_read_entry_file in He. rewrite Hd in He. cbn [mbind option_bind] in He.
  destruct (Z.of_nat (length data) <? 48 + 4) eqn:E52; [done|].
  destruct (kv_store_read_header data) as [[[e0 tb] rest]|] eqn:Er; [|done].
  cbn [mbind option_bind] in He.
  pose proof (read_header_touch _ _ _ _ hits now Hb Hh Hn Er) as Ht.
  set (h := kv_store_fill_header _ _ _ _ _ _ _ _ _ _) in *.
  assert (Hlen : length (h ++ drop 48 data) = length data).
  { rewrite length_app, length_drop. change (length h) with 48%nat. bool_to_prop. lia. }
  split; [done|]. split; [|split].
  - unfold kv_store_read_entry_file. rewrite lookup_insert, decide_True by done.
    cbn [mbind option_bind]. rewrite Hlen, E52, Ht. cbn [mbind option_bind e_payload_bytes touch_entry].
    case_if_in He; [done|]. case_if_in He; [done|]. by injection He as <-.
  - exists (h ++ drop 48 data). by rewrite lookup_insert, decide_True, drop_app_exact.
  - intros q Hq. by rewrite lookup_insert_ne by done.
Qed.

Definition sample_file : bytes :=
  kv_store_fill_header 0 2 1 0 600 0 4096 10 10 3 ++ kv_store_le_put32 2 ++ bs "ab" ++ [1; 2; 3].

(** Witness: a touch of a small checkpoint. *)
Lemma touch_file_correct_witness :
  let '(ok, files') := kv_store_touch_file {[ bs "/k" := sample_file ]} (bs "/k") 1 99 in
  ok = true ∧ (∃ e, kv_store_read_entry_file files' (bs "/k") (bs "x") = Some e).
Proof.
  assert (Hb : is_bytes sample_file) by (apply is_bytesb_ok; reflexivity).
  set (e := KvEntry (bs "x") (bs "/k") 2 0 1 600 0 4096 0 10 10 3 2 57).
  pose proof (touch_file_correct {[ bs "/k" := sample_file ]} (bs "/k") (bs "x") sample_file e 1 99
    eq_refl Hb eq_refl ltac:(unfold is_u32; lia) ltac:(unfold is_u64; lia)) as H.
  destruct (kv_store_touch_file _ _ _ _) as [ok files'].
  destruct H as (H1 & H2 & _). split; [done|]. by exists (touch_entry e 1 99).
Defined.
