(* ===== verification/KvPolicy.v ===== *)
(** * When and how much to checkpoint

    Model of the policy functions of [engine/src/kv_store.c]: the stable prefix
    length ([kv_store_store_len]), the chat anchor, the continued-checkpoint
    schedule with its suppression, and the file-size and budget arithmetic.
    [int] values are [Z]; C division truncates ([Z.quot], [Z.rem]).  The 64-bit
    sizes wrap where the code computes them. *)
From S2P Require Import Prelude KvHeader.

(** ** Data *)

Record kv_store_options := KvOptions {
  min_tokens : Z;
  cold_max_tokens : Z;
  continued_interval_tokens : Z;
  boundary_trim_tokens : Z;
  boundary_align_tokens : Z;
}.

(** [kv_store] without its log callback; [entry], [len] and [cap] are one list. *)
Record kv_store := KvStore {
  kc_enabled : bool;
  kc_dir : bytes;
  kc_budget_bytes : Z;
  kc_reject_different_quant : bool;
  kc_opt : kv_store_options;
  kc_continued_last_store_tokens : Z;
  kc_entry : list kv_store_entry;
}.

Definition kv_store_default_options : kv_store_options :=
  KvOptions 512 30000 10000 32 2048.

Definition set_last (kc : kv_store) (n : Z) : kv_store :=
  KvStore (kc_enabled kc) (kc_dir kc) (kc_budget_bytes kc) (kc_reject_different_quant kc)
          (kc_opt kc) n (kc_entry kc).

Definition set_entries (kc : kv_store) (l : list kv_store_entry) : kv_store :=
  KvStore (kc_enabled kc) (kc_dir kc) (kc_budget_bytes kc) (kc_reject_different_quant kc)
          (kc_opt kc) (kc_continued_last_store_tokens kc) l.

(** ** Prefix lengths *)

Definition kv_store_store_len (kc : kv_store) (tokens : Z) : Z :=
  let trim := boundary_trim_tokens (kc_opt kc) in
  let align := boundary_align_tokens (kc_opt kc) in
  if tokens >? min_tokens (kc_opt kc) + trim then
    let stable := tokens - trim in
    let stable := if align >? 0 then stable - Z.rem stable align else stable in
    if stable >=? min_tokens (kc_opt kc) then stable else tokens
  else tokens.

(** The loop of [kv_store_chat_anchor_pos]: the last user marker before the
    first assistant marker, from index [i]. *)
Fixpoint chat_anchor_scan (user asst : Z) (i last_user : Z) (v : list Z) : Z :=
  match v with
  | [] => last_user
  | token :: v' =>
      if token =? asst then last_user
      else chat_anchor_scan user asst (i + 1) (if token =? user then i else last_user) v'
  end.

Definition kv_store_chat_anchor_pos (kc : kv_store) (prompt : option (list Z))
    (user_token_id assistant_token_id : Z) : Z :=
  match prompt with
  | None => -1
  | Some v =>
      if (user_token_id <? 0) || (assistant_token_id <? 0) then -1
      else
        let last_user := chat_anchor_scan user_token_id assistant_token_id 0 (-1) v in
        if last_user >=? min_tokens (kc_opt kc) then last_user else -1
  end.

(** ** The continued-checkpoint schedule *)

Definition kv_cache_continued_step (kc : kv_store) : Z :=
  if negb (kc_enabled kc) || (continued_interval_tokens (kc_opt kc) <=? 0) then 0
  else
    let step := continued_interval_tokens (kc_opt kc) in
    let align := boundary_align_tokens (kc_opt kc) in
    if align >? 0 then
      let step := Z.quot (step + align - 1) align * align in
      if step <=? 0 then align else step
    else step.

Definition kv_store_continued_store_target (kc : kv_store) (live_tokens : Z) : Z :=
  let step := kv_cache_continued_step kc in
  if step <=? 0 then 0
  else if live_tokens <? min_tokens (kc_opt kc) then 0
  else if negb (Z.rem live_tokens step =? 0) then 0
  else if live_tokens <=? kc_continued_last_store_tokens kc then 0
  else live_tokens.

Definition kv_store_note_store (kc : kv_store) (tokens : Z) : kv_store :=
  if tokens >? kc_continued_last_store_tokens kc then set_last kc tokens else kc.

Definition kv_store_suppress_continued_store (kc : kv_store) (tokens : Z) : Z * kv_store :=
  if negb (kv_store_continued_store_target kc tokens =? tokens) then (-1, kc)
  else (kc_continued_last_store_tokens kc, kv_store_note_store kc tokens).

Definition kv_store_restore_suppressed_continued (kc : kv_store)
    (old_tokens suppressed_tokens : Z) : kv_store :=
  if (old_tokens >=? 0) && (kc_continued_last_store_tokens kc =? suppressed_tokens)
  then set_last kc old_tokens else kc.

(** ** Sizes *)

Definition kv_cache_file_size_bytes (text_bytes payload_bytes trailer_bytes : Z) : option Z :=
  let fixed := DS4_KVSTORE_FIXED_HEADER + 4 in
  if (u64 (UINT64_MAX - fixed) <? text_bytes)
     || (u64 (UINT64_MAX - fixed - text_bytes) <? payload_bytes)
     || (u64 (UINT64_MAX - fixed - text_bytes - payload_bytes) <? trailer_bytes)
  then None
  else Some (u64 (fixed + text_bytes + payload_bytes + trailer_bytes)).

Definition kv_cache_budget_required (file_bytes : Z) : option Z :=
  let slack := file_bytes / 100 in
  let slack := if negb (file_bytes mod 100 =? 0) then u64 (slack + 1) else slack in
  if u64 (UINT64_MAX - file_bytes) <? slack then None
  else Some (u64 (file_bytes + slack)).

(** The result and the two output parameters as far as they are written; a null
    store or a zero budget means no limit. *)
Definition kv_store_file_size_fits (budget : option Z)
    (text_bytes payload_bytes trailer_bytes : Z) : bool * option Z * option Z :=
  match kv_cache_file_size_bytes text_bytes payload_bytes trailer_bytes with
  | None => (false, None, None)
  | Some file_bytes =>
      match budget with
      | None | Some 0 => (true, Some file_bytes, None)
      | Some b =>
          match kv_cache_budget_required file_bytes with
          | None => (false, Some file_bytes, None)
          | Some required => (required <=? b, Some file_bytes, Some required)
          end
      end
  end.

(** ** Lemmas *)

Lemma file_size_exact text payload trailer :
  is_u64 text → is_u64 payload → is_u64 trailer →
  kv_cache_file_size_bytes text payload trailer
  = if 52 + text + payload + trailer <=? UINT64_MAX
    then Some (52 + text + payload + trailer) else None.
Proof.
  unfold is_u64, kv_cache_file_size_bytes. intros Ht Hp Hr.
  rewrite u64_small by (unfold is_u64; lia).
  destruct (Z.ltb_spec (UINT64_MAX - (48 + 4)) text); simpl.
  { destruct (Z.leb_spec (52 + text + payload + trailer) UINT64_MAX); [lia|done]. }
  rewrite (u64_small (UINT64_MAX - (48 + 4) - text)) by (unfold is_u64; lia).
  destruct (Z.ltb_spec (UINT64_MAX - (48 + 4) - text) payload); simpl.
  { destruct (Z.leb_spec (52 + text + payload + trailer) UINT64_MAX); [lia|done]. }
  rewrite (u64_small (UINT64_MAX - (48 + 4) - text - payload)) by (unfold is_u64; lia).
  destruct (Z.ltb_spec (UINT64_MAX - (48 + 4) - text - payload) trailer);
    destruct (Z.leb_spec (52 + text + payload + trailer) UINT64_MAX); try lia; [done|].
  rewrite u64_small by (unfold is_u64; lia). f_equal.
Qed.

(** [ceil(n / 100)]. *)
Definition slack1 (n : Z) : Z := (n + 99) / 100.

Lemma budget_required_exact n :
  is_u64 n →
  kv_cache_budget_required n
  = if n + slack1 n <=? UINT64_MAX then Some (n + slack1 n) else None.
Proof.
  unfold is_u64, kv_cache_budget_required, slack1. intros Hn.
  assert (Hs : (if negb (n mod 100 =? 0) then u64 (n / 100 + 1) else n / 100) = (n + 99) / 100).
  { case_if; bool_to_prop; [rewrite u64_small|];
      try unfold is_u64; Z.to_euclidean_division_equations; lia. }
  rewrite Hs, u64_small by (unfold is_u64; lia).
  assert (0 <= (n + 99) / 100) by (apply Z.div_pos; lia).
  destruct (Z.ltb_spec (UINT64_MAX - n) ((n + 99) / 100));
    destruct (Z.leb_spec (n + (n + 99) / 100) UINT64_MAX); try lia; [done|].
  rewrite u64_small by (unfold is_u64; lia). done.
Qed.

Lemma continued_step_spec kc :
  let a := boundary_align_tokens (kc_opt kc) in
  let i := continued_interval_tokens (kc_opt kc) in
  kc_enabled kc = true → 0 < i →
  0 < kv_cache_continued_step kc ∧
  (a <= 0 → kv_cache_continued_step kc = i) ∧
  (0 < a → (a | kv_cache_continued_step kc) ∧ i <= kv_cache_continued_step kc < i + a).
Proof.
  intros a i Hen Hi. unfold kv_cache_continued_step. fold a i. rewrite Hen.
  destruct (Z.leb_spec i 0); [lia|]. simpl. rewrite Z.gtb_ltb. destruct (Z.ltb_spec 0 a).
  - rewrite Z.quot_div_nonneg by lia.
    pose proof (Z.div_mod (i + a - 1) a) as Hd. pose proof (Z.mod_pos_bound (i + a - 1) a) as Hm.
    destruct (Z.leb_spec ((i + a - 1) / a * a) 0); [nia|].
    repeat split; try lia; try (by apply Z.divide_factor_r).
  - repeat split; lia.
Qed.

Lemma chat_anchor_scan_spec user asst v i acc :
  ∃ k, (k <= length v)%nat ∧ (asst ∉ take k v)
       ∧ ((k < length v)%nat → v !! k = Some asst)
       ∧ ((chat_anchor_scan user asst i acc v = acc ∧ user ∉ take k v)
          ∨ ∃ j, (j < k)%nat ∧ chat_anchor_scan user asst i acc v = i + Z.of_nat j
                 ∧ v !! j = Some user ∧ user ∉ drop (S j) (take k v)).
Proof.
  revert i acc; induction v as [|t v IH]; intros i acc.
  { exists 0%nat. simpl. repeat split; try lia; set_solver. }
  simpl. destruct (Z.eqb_spec t asst) as [->|Hta].
  { exists 0%nat. simpl. repeat split; try lia; set_solver. }
  destruct (IH (i + 1) (if t =? user then i else acc)) as (k & Hk & Hn & Hs & Hr).
  exists (S k). cbn [take]. split; [simpl; lia|]. split; [set_solver|].
  split; [intros; apply Hs; simpl in *; lia|].
  destruct Hr as [[-> Hu]|(j & Hj & -> & Hv & Hu)].
  - destruct (Z.eqb_spec t user) as [->|Htu].
    + right. exists 0%nat. simpl. rewrite drop_0. repeat split; try lia; done.
    + left. split; [done|set_solver].
  - right. exists (S j). simpl. repeat split; try lia; done.
Qed.

(** A sequence of live lengths, each offered to the continued policy; a
    nonzero target is stored and noted.  This is the loop that
    [kv_store_maybe_store_continued] is called from, with every store successful. *)
Fixpoint continued_run (kc : kv_store) (lens : list Z) : list Z * kv_store :=
  match lens with
  | [] => ([], kc)
  | n :: lens' =>
      let target := kv_store_continued_store_target kc n in
      if target =? 0 then continued_run kc lens'
      else let '(ts, kc') := continued_run (kv_store_note_store kc target) lens' in
           (target :: ts, kc')
  end.

(** Whether length [n] is due for a continued checkpoint. *)
Definition due (kc : kv_store) (last n : Z) : bool :=
  (min_tokens (kc_opt kc) <=? n) && (n mod kv_cache_continued_step kc =? 0) && (last <? n).

Lemma target_due kc n :
  0 < kv_cache_continued_step kc → 0 < n →
  kv_store_continued_store_target kc n
  = if due kc (kc_continued_last_store_tokens kc) n then n else 0.
Proof.
  intros Hs Hn. unfold kv_store_continued_store_target, due.
  destruct (Z.leb_spec (kv_cache_continued_step kc) 0); [lia|].
  rewrite Z.rem_mod_nonneg by lia.
  destruct (Z.ltb_spec n (min_tokens (kc_opt kc))), (Z.leb_spec (min_tokens (kc_opt kc)) n);
    try lia; [done|]. simpl.
  destruct (n mod kv_cache_continued_step kc =? 0); [|done]. simpl.
  destruct (Z.leb_spec n (kc_continued_last_store_tokens kc)),
           (Z.ltb_spec (kc_continued_last_store_tokens kc) n); lia || done.
Qed.

Lemma note_store_opt kc n : kc_opt (kv_store_note_store kc n) = kc_opt kc
  ∧ kc_enabled (kv_store_note_store kc n) = kc_enabled kc
  ∧ kc_continued_last_store_tokens (kv_store_note_store kc n)
    = Z.max (kc_continued_last_store_tokens kc) n.
Proof.
  unfold kv_store_note_store. rewrite Z.gtb_ltb. case_if; bool_to_prop; simpl;
    repeat split; lia.
Qed.

Lemma note_store_step kc n :
  kv_cache_continued_step (kv_store_note_store kc n) = kv_cache_continued_step kc.
Proof.
  destruct (note_store_opt kc n) as (Ho & He & _). unfold kv_cache_continued_step.
  by rewrite Ho, He.
Qed.

Lemma continued_run_due kc last n0 (k a : nat) kc1 :
  0 < kv_cache_continued_step kc → 0 <= n0 → (0 < a)%nat →
  kv_cache_continued_step kc1 = kv_cache_continued_step kc → kc_opt kc1 = kc_opt kc →
  (∀ n, n0 + Z.of_nat a <= n → (kc_continued_last_store_tokens kc1 <? n) = (last <? n)) →
  (continued_run kc1 ((λ i, n0 + Z.of_nat i) <$> seq a k)).1
  = List.filter (due kc last) ((λ i, n0 + Z.of_nat i) <$> seq a k).
Proof.
  intros Hs Hn0. revert a kc1; induction k as [|k IH]; intros a kc1 Ha Hst Hop Hlt; [done|].
  cbn [seq]. rewrite fmap_cons. cbn [continued_run List.filter].
  assert (Hdue : due kc1 (kc_continued_last_store_tokens kc1) (n0 + Z.of_nat a)
                 = due kc last (n0 + Z.of_nat a)).
  { unfold due. by rewrite Hop, Hst, Hlt by lia. }
  rewrite target_due, Hdue by (rewrite ?Hst; lia).
  destruct (due kc last (n0 + Z.of_nat a)) eqn:Ed.
  - destruct (Z.eqb_spec (n0 + Z.of_nat a) 0); [lia|].
    specialize (IH (S a) (kv_store_note_store kc1 (n0 + Z.of_nat a)) ltac:(lia)).
    destruct (continued_run _ _) as [ts kc'] eqn:Er. simpl in *. f_equal.
    destruct (note_store_opt kc1 (n0 + Z.of_nat a)) as (Ho & _ & Hl).
    apply IH; rewrite ?note_store_step, ?Ho, ?Hl; try done.
    intros m Hm. rewrite <- Hlt by lia. lia.
  - simpl. apply IH; try done; [lia|]. intros m Hm. apply Hlt. lia.
Qed.

(** ** Properties *)

(** The stable prefix length never exceeds the token count or drops below
    the minimum, and either keeps the whole prompt, or is the largest multiple
    of the alignment that leaves at least the trimmed tail, in the admissible
    option range where no [int] computation overflows. *)
Theorem store_len_correct kc tokens
    (Hmin : 0 <= min_tokens (kc_opt kc) < 2 ^ 30)
    (Htrim : 0 <= boundary_trim_tokens (kc_opt kc) < 2 ^ 30)
    (Halign : 0 < boundary_align_tokens (kc_opt kc) < 2 ^ 30)
    (Htok : 0 <= tokens <= INT_MAX) :
  let o := kc_opt kc in
  let r := kv_store_store_len kc tokens in
  let best := (tokens - boundary_trim_tokens o) / boundary_align_tokens o
              * boundary_align_tokens o in
  0 <= r <= tokens
  ∧ (min_tokens o <= tokens → min_tokens o <= r)
  ∧ (r = tokens ∨ r = best)
  ∧ (r = best ↔ (min_tokens o + boundary_trim_tokens o < tokens ∧ min_tokens o <= best)
                ∨ tokens = best)
  ∧ is_i32 (min_tokens o + boundary_trim_tokens o).
Proof.
  intros o r best. unfold r, best, kv_store_store_len, is_i32. fold o. fold o in Hmin, Htrim, Halign.
  set (mn := min_tokens o) in *. set (tr := boundary_trim_tokens o) in *.
  set (al := boundary_align_tokens o) in *.
  rewrite !Z.gtb_ltb. destruct (Z.ltb_spec 0 al); [|lia].
  destruct (Z.ltb_spec (mn + tr) tokens).
  - rewrite Z.rem_mod_nonneg by lia. rewrite Z.geb_leb.
    assert (Hb : (tokens - tr) - (tokens - tr) mod al = (tokens - tr) / al * al).
    { pose proof (Z.div_mod (tokens - tr) al). lia. }
    pose proof (Z.mod_pos_bound (tokens - tr) al ltac:(lia)).
    rewrite Hb in *. destruct (Z.leb_spec mn ((tokens - tr) / al * al)); repeat split; try lia.
  - repeat split; lia.
Qed.

(** Witness: the default options on a 5000-token prompt. *)
Lemma store_len_correct_witness :
  let kc := KvStore true [] 0 false kv_store_default_options 0 [] in
  kv_store_store_len kc 5000 = 4096 ∧ 0 <= kv_store_store_len kc 5000 <= 5000.
Proof.
  split; [reflexivity|].
  apply (store_len_correct (KvStore true [] 0 false kv_store_default_options 0 []) 5000);
    simpl; lia.
Defined.

(** Offered the live lengths [n0+1, ..., n0+k] of a growing session, the
    continued policy stores exactly at the multiples of its step that reach the
    minimum and lie past the last checkpoint, each once and in order, where the
    step is the configured interval rounded up to the alignment. *)
Theorem continued_schedule kc n0 (k : nat)
    (Hen : kc_enabled kc = true) (Hn0 : 0 <= n0)
    (Hi : 0 < continued_interval_tokens (kc_opt kc)) :
  let lens := (λ i, n0 + Z.of_nat i) <$> seq 1 k in
  (continued_run kc lens).1
  = List.filter (due kc (kc_continued_last_store_tokens kc)) lens.
Proof.
  destruct (continued_step_spec kc Hen Hi) as [Hs _].
  apply continued_run_due; try done; lia.
Qed.

(** Witness: interval 10000 rounded up to 10240, one step crossed. *)
Lemma continued_schedule_witness :
  let kc := KvStore true [] 0 false kv_store_default_options 0 [] in
  (continued_run kc ((λ i, 10238 + Z.of_nat i) <$> seq 1 4)).1 = [10240].
Proof.
  etransitivity;
    [apply (continued_schedule (KvStore true [] 0 false kv_store_default_options 0 []) 10238 4);
     [reflexivity|lia|simpl; lia]|reflexivity].
Defined.

(** The size check accepts exactly the files whose true size fits in 64
    bits and whose size plus 1% headroom, rounded up, is within the budget; the
    reported sizes are the true ones, so nothing wraps around. *)
Theorem file_size_fits_exact budget text payload trailer
    (Hb : 0 < budget <= UINT64_MAX)
    (Ht : is_u64 text) (Hp : is_u64 payload) (Hr : is_u64 trailer) :
  let size := 52 + text + payload + trailer in
  let '(ok, file_bytes, required) :=
    kv_store_file_size_fits (Some budget) text payload trailer in
  (ok = true ↔ size + (size + 99) / 100 <= budget)
  ∧ (ok = true → file_bytes = Some size ∧ required = Some (size + (size + 99) / 100))
  ∧ (∀ f, file_bytes = Some f → f = size).
Proof.
  intros size. unfold kv_store_file_size_fits. rewrite file_size_exact by done. fold size.
  assert (Hsz : 0 <= size) by (unfold size, is_u64 in *; lia).
  assert (Hq : 0 <= (size + 99) / 100) by (apply Z.div_pos; lia).
  destruct (Z.leb_spec size UINT64_MAX); [|repeat split; intros; try done; lia].
  destruct budget as [|b|b]; try lia.
  rewrite budget_required_exact by (unfold is_u64; lia). unfold slack1.
  destruct (Z.leb_spec (size + (size + 99) / 100) UINT64_MAX).
  - destruct (Z.leb_spec (size + (size + 99) / 100) (Z.pos b)); repeat split;
      intros; simplify_eq; lia || done.
  - repeat split; intros; simplify_eq; lia || done.
Qed.

(** Witness: a 4 GiB budget and a 1 GiB payload. *)
Lemma file_size_fits_exact_witness :
  let '(ok, file_bytes, required) :=
    kv_store_file_size_fits (Some (2 ^ 32)) 1000 (2 ^ 30) 0 in
  ok = true ∧ file_bytes = Some (2 ^ 30 + 1052).
Proof.
  pose proof (file_size_fits_exact (2 ^ 32) 1000 (2 ^ 30) 0 ltac:(lia)
    ltac:(unfold is_u64; lia) ltac:(unfold is_u64; lia) ltac:(unfold is_u64; lia)) as H.
  destruct (kv_store_file_size_fits _ _ _ _) as [[ok f] r].
  destruct H as ([_ H1] & H2 & _).
  assert (ok = true) as -> by (apply H1; vm_compute; done).
  split; [done|]. by destruct (H2 eq_refl) as [-> _].
Defined.

(** Suppressing a due continued checkpoint and restoring it afterwards
    gives back the same store; while it is suppressed, the length is not due. *)
Theorem suppress_restore kc tokens old kc'
    (Hlast : 0 <= kc_continued_last_store_tokens kc) (Htok : 0 < tokens)
    (Hs : kv_store_suppress_continued_store kc tokens = (old, kc')) :
  kv_store_restore_suppressed_continued kc' old tokens = kc
  ∧ kv_store_continued_store_target kc' tokens = 0.
Proof.
  unfold kv_store_suppress_continued_store in Hs.
  destruct (Z.eqb_spec (kv_store_continued_store_target kc tokens) tokens) as [Ht|Hne];
    simpl in Hs; simplify_eq.
  - assert (Hlt : kc_continued_last_store_tokens kc < tokens).
    { unfold kv_store_continued_store_target in Ht. repeat case_if_in Ht; bool_to_prop; lia. }
    unfold kv_store_restore_suppressed_continued, kv_store_note_store.
    rewrite Z.gtb_ltb, Z.geb_leb. destruct (Z.ltb_spec (kc_continued_last_store_tokens kc) tokens); [|lia].
    simpl. rewrite Z.eqb_refl. destruct (Z.leb_spec 0 (kc_continued_last_store_tokens kc)); [|lia].
    split; [by destruct kc|]. unfold kv_store_continued_store_target. simpl.
    repeat case_if; bool_to_prop; lia || done.
  - split; [done|]. unfold kv_store_continued_store_target in *.
    repeat (case_if; [done|]). repeat case_if_in Hne; bool_to_prop; lia.
Qed.

(** Witness: the 10240-token waypoint of the default schedule. *)
Lemma suppress_restore_witness :
  let kc := KvStore true [] 0 false kv_store_default_options 0 [] in
  kv_store_restore_suppressed_continued (set_last kc 10240) 0 10240 = kc.
Proof.
  apply (suppress_restore (KvStore true [] 0 false kv_store_default_options 0 []) 10240);
    [simpl; lia|lia|reflexivity].
Defined.

(** The chat anchor is the position of the last user marker before the
    first assistant marker, when that position reaches the minimum, and -1
    otherwise. *)
Theorem chat_anchor_correct kc v user asst
    (Hu : 0 <= user) (Ha : 0 <= asst) :
  let r := kv_store_chat_anchor_pos kc (Some v) user asst in
  ∃ k, (k <= length v)%nat ∧ (asst ∉ take k v)
    ∧ ((k < length v)%nat → v !! k = Some asst)
    ∧ ((∃ j, (j < k)%nat ∧ r = Z.of_nat j ∧ min_tokens (kc_opt kc) <= r
             ∧ v !! j = Some user ∧ (user ∉ drop (S j) (take k v)))
       ∨ (r = -1 ∧ ∀ j, (j < k)%nat → v !! j = Some user →
                        Z.of_nat j < min_tokens (kc_opt kc))).
Proof.
  intros r. unfold r, kv_store_chat_anchor_pos. clear r.
  destruct (Z.ltb_spec user 0); [lia|]. destruct (Z.ltb_spec asst 0); [lia|]. simpl.
  destruct (chat_anchor_scan_spec user asst v 0 (-1)) as (k & Hk & Hn & Hs & Hr).
  exists k. split; [done|]. split; [done|]. split; [done|]. rewrite Z.geb_leb.
  destruct Hr as [[-> Hu']|(j & Hj & -> & Hv & Hu')].
  - right. destruct (Z.leb_spec (min_tokens (kc_opt kc)) (-1)); (split; [done|]).
    all: intros j Hj Hv; destruct Hu'.
    all: apply elem_of_take; exists j; done.
  - rewrite Z.add_0_l. destruct (Z.leb_spec (min_tokens (kc_opt kc)) (Z.of_nat j)).
    + left. exists j. done.
    + right. split; [done|]. intros i Hi Hvi.
      destruct (decide (i <= j)%nat); [lia|]. destruct Hu'.
      apply list_elem_of_lookup. exists (i - S j)%nat.
      rewrite lookup_drop, lookup_take_lt by lia. by replace (S j + (i - S j))%nat with i by lia.
Qed.

(** Witness: two user turns before the assistant. *)
Lemma chat_anchor_correct_witness :
  let kc := KvStore true [] 0 false (KvOptions 1 0 0 0 0) 0 [] in
  kv_store_chat_anchor_pos kc (Some [9; 1; 5; 1; 6; 2; 1]) 1 2 = 3
  ∧ ∃ k, (k <= 7)%nat ∧ (2 ∉ take k [9; 1; 5; 1; 6; 2; 1]).
Proof.
  split; [reflexivity|].
  destruct (chat_anchor_correct (KvStore true [] 0 false (KvOptions 1 0 0 0 0) 0 [])
    [9; 1; 5; 1; 6; 2; 1] 1 2 ltac:(lia) ltac:(lia)) as (k & Hk & Hn & _).
  by exists k.
Defined.
