(* ===== verification/KvCache.v ===== *)
(** * The KV disk cache

    Model of the store itself, [engine/src/kv_store.c]: the directory scan
    ([kv_cache_refresh]), the eviction score and loop ([kv_store_evict]),
    [kv_store_open], lookup by text prefix, storing a checkpoint through a
    temporary file and [rename], the trailer rewrite and loading.

    The directory listing is a class with the law the code relies on; the
    session, tokenizer and trailer hooks are records of functions; every system
    call that can fail has its outcome in a record of outcomes, so a theorem
    that quantifies over the record covers every failure.  Doubles are the
    binary64 numbers of [SpecFloat]; [exp2] is a parameter.  Log messages are
    not modelled. *)
From S2P Require Import Prelude CLib Sha1 KvHeader KvPolicy.
From Stdlib Require Import SpecFloat.

(** ** Directory listing *)

(** [opendir] and [readdir]: the plain names of a directory, each once. *)
Class ReadDir := {
  readdir : bytes → fs → option (list bytes);
  readdir_nodup : ∀ dir files names, readdir dir files = Some names → NoDup names;
  readdir_spec : ∀ dir files names name,
    readdir dir files = Some names → (47 ∉ name) → name ≠ [] →
    name ∈ names ↔ is_Some (files !! kv_store_path_join dir name);
  readdir_stable : ∀ dir files files',
    is_Some (readdir dir files) → is_Some (readdir dir files');
}.

(** ** Scan *)

Definition kv_cache_refresh `{ReadDir} (kc : kv_store) (files : fs) : kv_store :=
  if negb (kc_enabled kc) then kc
  else
    set_entries kc
      match readdir (kc_dir kc) files with
      | None => []
      | Some names =>
          omap (λ name,
            sha ← kv_store_sha_hex_name name;
            kv_store_read_entry_file files (kv_store_path_join (kc_dir kc) name) sha) names
      end.

(** ** Eviction *)

Record kv_store_eviction_context := EvictCtx {
  ec_text : option bytes;
  ec_text_len : Z;
  ec_model_id : Z;
  ec_quant_bits : Z;
  ec_ctx_size : Z;
  ec_reject_different_quant : bool;
}.

Definition kv_cache_incoming_supersedes_continued (e : kv_store_entry)
    (incoming : option kv_store_eviction_context) : bool :=
  match incoming with
  | None => false
  | Some inc =>
      match ec_text inc with
      | None => false
      | Some text =>
          if negb (e_reason e =? REASON_CONTINUED) then false
          else if (e_text_bytes e =? 0) || (e_text_bytes e >? SIZE_MAX) then false
          else if e_text_bytes e >=? ec_text_len inc then false
          else if negb (e_model_id e =? ec_model_id inc) then false
          else if ec_reject_different_quant inc && negb (e_quant_bits e =? ec_quant_bits inc)
          then false
          else if ec_ctx_size inc >? e_ctx_size e then false
          else bytes_eqb (kv_store_sha1_bytes_hex (take (Z.to_nat (e_text_bytes e)) text)) (e_sha e)
      end
  end.

Definition kv_cache_reason_is_anchor (reason : Z) : bool :=
  (reason =? REASON_COLD) || (reason =? REASON_EVICT) || (reason =? REASON_SHUTDOWN).

(** Double arithmetic: integer conversion and the operations, rounded to
    nearest even. *)
Definition dbl (z : Z) : spec_float := binary_normalize 53 1024 z 0 false.
Definition fadd (x y : spec_float) : spec_float := SFadd 53 1024 x y.
Definition fmul (x y : spec_float) : spec_float := SFmul 53 1024 x y.
Definition fdiv (x y : spec_float) : spec_float := SFdiv 53 1024 x y.

Definition KV_CACHE_MIN_EFFECTIVE_HITS : spec_float := fdiv (dbl 1) (dbl 100).
Definition KV_CACHE_CONTINUED_PREFIX_MIN_FACTOR : spec_float := fdiv (dbl 5) (dbl 100).
Definition KV_CACHE_CONTINUED_PREFIX_HIT_FACTOR : spec_float := fdiv (dbl 45) (dbl 100).
Definition KV_CACHE_ANCHOR_REASON_SCORE_FACTOR : spec_float := dbl 2.
Definition DS4_KVSTORE_HIT_HALF_LIFE_SECONDS : Z := 6 * 60 * 60.

Definition kv_store_entry_eviction_score (exp2 : spec_float → spec_float)
    (e : kv_store_entry) (now : Z) (incoming : option kv_store_eviction_context) : spec_float :=
  if e_file_size e =? 0 then dbl 0
  else
    let used_at := if negb (e_last_used e =? 0) then e_last_used e else e_created_at e in
    let effective_hits :=
      if used_at =? 0 then dbl 0
      else if now >? used_at then
        let elapsed := dbl (now - used_at) in
        let h := fmul (dbl (e_hits e))
                   (exp2 (fdiv (SFopp elapsed) (dbl DS4_KVSTORE_HIT_HALF_LIFE_SECONDS))) in
        if SFltb h KV_CACHE_MIN_EFFECTIVE_HITS then dbl 0 else h
      else dbl (e_hits e) in
    let score := fdiv (fmul (fadd effective_hits (dbl 1)) (dbl (e_tokens e)))
                      (dbl (e_file_size e)) in
    let score := if kv_cache_reason_is_anchor (e_reason e)
                 then fmul score KV_CACHE_ANCHOR_REASON_SCORE_FACTOR else score in
    if kv_cache_incoming_supersedes_continued e incoming then
      let h := if SFltb (dbl 0) effective_hits
               then fdiv effective_hits (fadd effective_hits (dbl 1)) else dbl 0 in
      fmul score (fadd KV_CACHE_CONTINUED_PREFIX_MIN_FACTOR
                       (fmul KV_CACHE_CONTINUED_PREFIX_HIT_FACTOR h))
    else score.

(** The victim scan, for any score: [i] is the index of the head of [rest];
    [v], [vs] and [vl] are the victim so far, its score and its [last_used]. *)
Fixpoint victim_scan (score : kv_store_entry → spec_float) (i : nat)
    (rest : list kv_store_entry) (v : nat) (vs : spec_float) (vl : Z) : nat :=
  match rest with
  | [] => v
  | e :: rest' =>
      let s := score e in
      if SFltb s vs || (SFeqb s vs && (e_last_used e <? vl))
      then victim_scan score (S i) rest' i s (e_last_used e)
      else victim_scan score (S i) rest' v vs vl
  end.

Definition pick_victim (score : kv_store_entry → spec_float) (l : list kv_store_entry) : nat :=
  match l with
  | [] => 0%nat
  | e :: rest => victim_scan score 1 rest 0 (score e) (e_last_used e)
  end.

(** [unlink]: whether it succeeds, and the files after it. *)
Definition unlink (unlink_ok : bytes → bool) (path : bytes) (files : fs) : bool * fs :=
  match files !! path with
  | Some _ => if unlink_ok path then (true, delete path files) else (false, files)
  | None => (false, files)
  end.

(** The loop [while (total > target && kc->len > 0)].  Each iteration removes an
    entry, so [length l] iterations are enough. *)
Fixpoint evict_loop (score : kv_store_entry → spec_float) (unlink_ok : bytes → bool)
    (target : Z) (fuel : nat) (total : Z) (l : list kv_store_entry) (files : fs)
    : list kv_store_entry * fs :=
  match fuel with
  | O => (l, files)
  | S fuel' =>
      if total >? target then
        let victim := pick_victim score l in
        match l !! victim with
        | None => (l, files)
        | Some e =>
            let '(ok, files') := unlink unlink_ok (e_path e) files in
            let total' := if ok then (if total >=? e_file_size e then total - e_file_size e else 0)
                          else 0 in
            evict_loop score unlink_ok target fuel' total'
              (take victim l ++ drop (S victim) l) files'
        end
      else (l, files)
  end.

Definition total_size (l : list kv_store_entry) : Z :=
  foldl (λ total e, u64 (total + e_file_size e)) 0 l.

Definition kv_store_evict `{ReadDir} (exp2 : spec_float → spec_float) (unlink_ok : bytes → bool)
    (now : Z) (kc : kv_store) (files : fs) (extra_bytes : Z)
    (incoming : option kv_store_eviction_context) : kv_store * fs :=
  if negb (kc_enabled kc) || (kc_budget_bytes kc =? 0) then (kc, files)
  else if extra_bytes >? kc_budget_bytes kc then (kc, files)
  else
    let kc := kv_cache_refresh kc files in
    let total := total_size (kc_entry kc) in
    let target := u64 (kc_budget_bytes kc - extra_bytes) in
    let '(l, files) :=
      evict_loop (λ e, kv_store_entry_eviction_score exp2 e now incoming) unlink_ok target
        (length (kc_entry kc)) total (kc_entry kc) files in
    (set_entries kc l, files).

(** ** Opening *)

(** The directories [kv_mkdir_p] creates: every prefix that a [/] after the
    first character ends, then the path; [seen] is what precedes [p]. *)
Fixpoint mkdir_prefixes (seen p : bytes) : list bytes :=
  match p with
  | [] => []
  | c :: p' => if c =? 47 then seen :: mkdir_prefixes (seen ++ [c]) p'
               else mkdir_prefixes (seen ++ [c]) p'
  end.

(** [mkdir_ok d]: [mkdir] succeeds or the directory exists. *)
Definition kv_mkdir_p (mkdir_ok : bytes → bool) (path : option bytes) : bool :=
  match path with
  | None | Some [] => false
  | Some (c :: p) => forallb mkdir_ok (mkdir_prefixes [c] p) && mkdir_ok (c :: p)
  end.

Definition kv_store_zero : kv_store :=
  KvStore false [] 0 false (KvOptions 0 0 0 0 0) 0 [].

Definition kv_store_open `{ReadDir} (exp2 : spec_float → spec_float) (mkdir_ok unlink_ok : bytes → bool)
    (now : Z) (files : fs) (dir : option bytes) (budget_mb : Z) (reject_different_quant : bool)
    (opt : kv_store_options) : bool * kv_store * fs :=
  match dir with
  | None => (false, kv_store_zero, files)
  | Some d =>
      if negb (kv_mkdir_p mkdir_ok dir) then (false, kv_store_zero, files)
      else
        let budget_mb := if budget_mb =? 0 then 4096 else budget_mb in
        let kc := KvStore true d (u64 (u64 (budget_mb * 1024) * 1024)) reject_different_quant opt 0 [] in
        let '(kc, files) := kv_store_evict exp2 unlink_ok now kc files 0 None in
        (true, kc, files)
  end.

(** ** Lookup *)

Definition kv_store_byte_prefix_match (text prefix : bytes) : bool :=
  (length prefix <=? length text)%nat &&
  ((length prefix =? 0)%nat || bytes_eqb (take (length prefix) text) prefix).

(** One candidate of [kv_store_find_text_prefix]; [best] is the index and the
    entry of the best so far. *)
Definition prefix_candidate (kc : kv_store) (prompt : bytes) (model_id quant_bits ctx_size : Z)
    (i : nat) (e : kv_store_entry) (best : option (nat * kv_store_entry))
    : option (nat * kv_store_entry) :=
  if (e_text_bytes e >? Z.of_nat (length prompt)) || (e_text_bytes e >? SIZE_MAX) then best
  else if i32 (e_tokens e) <? min_tokens (kc_opt kc) then best
  else if negb (e_model_id e =? u8 model_id) then best
  else if u32 ctx_size <? e_ctx_size e then best
  else if kc_reject_different_quant kc && negb (e_quant_bits e =? u8 quant_bits) then best
  else if match best with
          | None => false
          | Some (_, b) =>
              (e_text_bytes e <? e_text_bytes b)
              || ((e_text_bytes e =? e_text_bytes b) && (e_tokens e <=? e_tokens b))
          end then best
  else if bytes_eqb (kv_store_sha1_bytes_hex (take (Z.to_nat (e_text_bytes e)) prompt)) (e_sha e)
  then Some (i, e) else best.

Fixpoint prefix_scan (kc : kv_store) (prompt : bytes) (model_id quant_bits ctx_size : Z)
    (i : nat) (l : list kv_store_entry) (best : option (nat * kv_store_entry))
    : option (nat * kv_store_entry) :=
  match l with
  | [] => best
  | e :: l' =>
      prefix_scan kc prompt model_id quant_bits ctx_size (S i) l'
        (prefix_candidate kc prompt model_id quant_bits ctx_size i e best)
  end.

Definition kv_store_find_text_prefix `{ReadDir} (kc : kv_store) (files : fs)
    (prompt : option bytes) (model_id quant_bits ctx_size : Z) : Z * kv_store :=
  match prompt with
  | None => (-1, kc)
  | Some p =>
      let kc := kv_cache_refresh kc files in
      match prefix_scan kc p model_id quant_bits ctx_size 0 (kc_entry kc) None with
      | None => (-1, kc)
      | Some (i, _) => (Z.of_nat i, kc)
      end
  end.

(** ** Storing *)

Definition kv_cache_file_text_matches (files : fs) (path sha text : bytes) : bool :=
  if Z.of_nat (length text) >? UINT32_MAX then false
  else match files !! path with
  | None => false
  | Some data =>
      match kv_store_read_header data with
      | None => false
      | Some (_, text_bytes, fp) =>
          if negb (text_bytes =? Z.of_nat (length text)) then false
          else match fread (Z.to_nat text_bytes) fp with
          | None => false
          | Some (stored, _) =>
              bytes_eqb (kv_store_sha1_bytes_hex stored) sha
              && ((length text =? 0)%nat || bytes_eqb stored text)
          end
      end
  end.

Definition kv_cache_existing_compatible (unlink_ok : bytes → bool) (kc : kv_store) (files : fs)
    (path sha text : bytes) (model_id quant_bits ctx_size : Z) : bool * fs :=
  match kv_store_read_entry_file files path sha with
  | None => (false, files)
  | Some e =>
      let compatible :=
        (e_model_id e =? u8 model_id)
        && (negb (kc_reject_different_quant kc) || (e_quant_bits e =? u8 quant_bits))
        && (e_ctx_size e <=? u32 ctx_size)
        && kv_cache_file_text_matches files path sha text in
      if compatible then (true, files)
      else (false, (unlink unlink_ok path files).2)
  end.

(** [kv_store_trailer_hooks].  [hk_serialized_size text] is the result and the
    size; [hk_write text] is what is appended to the file, the result and the
    reported size; a null function pointer is [None]. *)
Record kv_store_trailer_hooks := Hooks {
  hk_ext_flag : Z;
  hk_serialized_size : option (bytes → bool * Z);
  hk_write : option (bytes → bytes * bool * Z);
  hk_load : bool;
}.

Definition kv_trailer_serialized_size (hooks : option kv_store_trailer_hooks) (text : bytes)
    : bool * Z :=
  match hooks ≫= hk_serialized_size with None => (true, 0) | Some f => f text end.

Definition kv_trailer_write (hooks : option kv_store_trailer_hooks) (text : bytes)
    : bytes * bool * Z :=
  match hooks ≫= hk_write with None => ([], true, 0) | Some f => f text end.

(** Outcomes of the system calls of the trailer rewrite: [fopen], the seek with
    the truncation, [fflush] after the trailer, and the header update; what the
    file holds after its end when the trailer could not be written. *)
Record trailer_io := TrailerIO {
  ti_fopen : bool;
  ti_truncate : bool;
  ti_fflush : bool;
  ti_header : bool;
  ti_partial : bytes;
  ti_now : Z;
}.

(** [ftruncate(fd, n)]. *)
Definition ftruncate (n : nat) (data : bytes) : bytes :=
  take n data ++ replicate (n - length data) 0.

Definition kv_cache_rewrite_trailer (io : trailer_io) (files : fs) (path text : bytes)
    (hooks : option kv_store_trailer_hooks) : fs :=
  match hooks with
  | None => files
  | Some hk =>
      match hk_write hk, hk_serialized_size hk with
      | Some _, Some _ =>
          let '(ok, trailer_est) := kv_trailer_serialized_size hooks text in
          if negb ok || (trailer_est =? 0) then files
          else match files !! path with
          | None => files
          | Some data =>
              if negb (ti_fopen io) then files
              else match kv_store_read_header data with
              | None => files
              | Some (hdr, text_bytes, _) =>
                  let end_ := u64 (52 + text_bytes + e_payload_bytes hdr) in
                  if (end_ <=? INT64_MAX) && ti_truncate io then
                    let body := ftruncate (Z.to_nat end_) data in
                    let '(w, wok, ignored) := kv_trailer_write hooks text in
                    if wok && ti_fflush io then
                      if (ignored >? 0) && ti_header io then
                        let h := kv_store_fill_header (e_model_id hdr) (e_quant_bits hdr)
                                   (e_reason hdr) (u8 (Z.lor (e_ext_flags hdr) (hk_ext_flag hk)))
                                   (e_tokens hdr) (e_hits hdr) (e_ctx_size hdr)
                                   (e_created_at hdr) (ti_now io) (e_payload_bytes hdr) in
                        <[path := h ++ drop 48 (body ++ w)]> files
                      else <[path := body ++ w]> files
                    else <[path := body ++ ti_partial io]> files
                  else files
              end
          end
      | _, _ => files
      end
  end.

(** Outcomes of the system calls of a store.  [si_partial] is what the
    temporary file holds when a write or the close fails; [si_errno] is the
    text of [errno] when it is set. *)
Record store_io := StoreIO {
  si_trailer : trailer_io;
  si_unlink : bytes → bool;
  si_evict_now : Z;
  si_now : Z;
  si_pid : Z;
  si_fopen : bool;
  si_fwrite_header : bool;
  si_fwrite_text_size : bool;
  si_fwrite_text : bool;
  si_write_payload : bool;
  si_fflush : bool;
  si_fclose : bool;
  si_partial : bytes;
  si_rename : bool;
  si_save_err : bytes;
  si_errno : option bytes;
}.

(** The live session as a store sees it: [ds4_session_tokens],
    [ds4_session_ctx], [ds4_engine_routed_quant_bits], [ds4_engine_model_id],
    [ds4_token_text] and [ds4_session_stage_payload]. *)
Record session_view := SessionView {
  sv_tokens : option (list Z);
  sv_ctx : Z;
  sv_quant_bits : Z;
  sv_model_id : Z;
  sv_token_text : Z → bytes;
  sv_stage : bytes + bytes;
}.

Definition kv_store_render_tokens_text (token_text : Z → bytes) (tokens : list Z) : bytes :=
  tokens ≫= token_text.

(** [kv_store_tokens_copy_prefix]; a negative length copies nothing. *)
Definition kv_store_tokens_copy_prefix (src : option (list Z)) (n : Z) : list Z :=
  match src with None => [] | Some v => take (Z.to_nat n) v end.

(** [ds4_tokens_starts_with]. *)
Definition tokens_starts_with (tokens prefix : list Z) : bool :=
  match strip_prefix prefix tokens with Some _ => true | None => false end.

Definition unknown_or (save_err : bytes) : bytes :=
  match save_err with [] => bs "unknown error" | _ => save_err end.

Record store_result := StoreResult {
  sr_ok : bool;
  sr_kc : kv_store;
  sr_files : fs;
  sr_err : option bytes;
}.

(** The part of [kv_store_store_live_prefix_text] from the temporary file on:
    write, check the final size, rename or unlink. *)
Definition store_write (io : store_io) (kc : kv_store) (files : fs) (sv : session_view)
    (store_tokens : list Z) (reason : option bytes) (text : bytes) (text_ext : Z)
    (payload : bytes) (trailer_est : Z) (hooks : option kv_store_trailer_hooks) (path : bytes)
    : store_result :=
  let tmp := path ++ bs ".tmp." ++ fmt_d (si_pid io) in
  if negb (si_fopen io) then StoreResult false kc files None
  else
    let payload_bytes := Z.of_nat (length payload) in
    let ext_flags := match hooks with
                     | Some hk => if trailer_est >? 0 then hk_ext_flag hk else 0
                     | None => 0
                     end in
    let ext_flags := Z.lor ext_flags text_ext in
    let h := kv_store_fill_header (u8 (sv_model_id sv)) (u8 (sv_quant_bits sv))
               (kv_store_reason_code reason) ext_flags (u32 (Z.of_nat (length store_tokens))) 0
               (u32 (sv_ctx sv)) (si_now io) (si_now io) payload_bytes in
    let tb := kv_store_le_put32 (u32 (Z.of_nat (length text))) in
    let before_trailer := si_fwrite_header io && si_fwrite_text_size io && si_fwrite_text io
                          && si_write_payload io in
    let '(w, wok, trailer_bytes) :=
      if before_trailer then kv_trailer_write hooks text else ([], false, 0) in
    let ok := before_trailer && wok && si_fflush io && si_fclose io in
    let contents := if ok then h ++ tb ++ text ++ payload ++ w else si_partial io in
    let files := <[tmp := contents]> files in
    let fits := (kv_store_file_size_fits (Some (kc_budget_bytes kc)) (Z.of_nat (length text))
                   payload_bytes trailer_bytes).1.1 in
    if ok && fits && si_rename io then
      StoreResult true kc (<[path := contents]> (delete tmp files)) None
    else
      StoreResult false kc (unlink (si_unlink io) tmp files).2
        (Some match si_errno io with Some m => m | None => unknown_or (si_save_err io) end).

(** [kv_store_store_live_prefix_text]: the guards, the compatible file that
    already exists, staging, the size check, eviction, then the write.
    [override] is [cache_text_override] with its extension flags. *)
Definition kv_store_store_live_prefix_text `{ReadDir} (exp2 : spec_float → spec_float)
    (io : store_io) (kc : kv_store) (files : fs) (sv : session_view)
    (tokens : option (list Z)) (store_len : Z) (reason : option bytes)
    (override : option bytes) (cache_text_ext : Z) (hooks : option kv_store_trailer_hooks)
    : store_result :=
  let fail := StoreResult false kc files None in
  if negb (kc_enabled kc) then fail
  else if match tokens with None => true | Some _ => store_len <? min_tokens (kc_opt kc) end then fail
  else
    let store_tokens := kv_store_tokens_copy_prefix tokens store_len in
    if negb (sv_quant_bits sv =? 2) && negb (sv_quant_bits sv =? 4) then fail
    else match sv_tokens sv with
    | None => fail
    | Some live =>
        if negb (length live =? length store_tokens)%nat
           || negb (tokens_starts_with live store_tokens) then fail
        else
          let text_override := match override with Some (_ :: _) => true | _ => false end in
          let text := match override with
                      | Some (c :: o) => c :: o
                      | _ => kv_store_render_tokens_text (sv_token_text sv) store_tokens
                      end in
          if Z.of_nat (length text) >? UINT32_MAX then fail
          else
            let '(size_ok, trailer_est) := kv_trailer_serialized_size hooks text in
            if negb size_ok then fail
            else
              let sha := kv_store_sha1_bytes_hex text in
              let path := kv_store_path_for_sha (kc_dir kc) sha in
              let '(exists_ok, files) :=
                kv_cache_existing_compatible (si_unlink io) kc files path sha text
                  (sv_model_id sv) (sv_quant_bits sv) (sv_ctx sv) in
              if exists_ok then
                StoreResult true kc (kv_cache_rewrite_trailer (si_trailer io) files path text hooks)
                  None
              else match sv_stage sv with
              | inl stage_err => StoreResult false kc files (Some (unknown_or stage_err))
              | inr payload =>
                  let '(fits, est_file_bytes, _) :=
                    kv_store_file_size_fits (Some (kc_budget_bytes kc)) (Z.of_nat (length text))
                      (Z.of_nat (length payload)) trailer_est in
                  if negb fits then StoreResult false kc files None
                  else
                    let incoming := EvictCtx (Some text) (Z.of_nat (length text))
                      (u8 (sv_model_id sv)) (u8 (sv_quant_bits sv)) (u32 (sv_ctx sv))
                      (kc_reject_different_quant kc) in
                    let '(kc, files) :=
                      kv_store_evict exp2 (si_unlink io) (si_evict_now io) kc files
                        (default 0 est_file_bytes) (Some incoming) in
                    store_write io kc files sv store_tokens reason text
                      (if text_override then cache_text_ext else 0) payload trailer_est hooks path
              end
    end.

Definition kv_store_store_live_prefix `{ReadDir} (exp2 : spec_float → spec_float)
    (io : store_io) (kc : kv_store) (files : fs) (sv : session_view)
    (tokens : option (list Z)) (store_len : Z) (reason : option bytes)
    (hooks : option kv_store_trailer_hooks) : store_result :=
  kv_store_store_live_prefix_text exp2 io kc files sv tokens store_len reason None 0 hooks.

Definition kv_store_maybe_store_continued `{ReadDir} (exp2 : spec_float → spec_float)
    (io : store_io) (kc : kv_store) (files : fs) (sv : session_view)
    (hooks : option kv_store_trailer_hooks) : store_result :=
  match sv_tokens sv with
  | None => StoreResult false kc files None
  | Some tokens =>
      let target := kv_store_continued_store_target kc (Z.of_nat (length tokens)) in
      if target =? 0 then StoreResult false kc files None
      else
        let r := kv_store_store_live_prefix exp2 io kc files sv (Some tokens) target
                   (Some (bs "continued")) hooks in
        if sr_ok r
        then StoreResult true (kv_store_note_store (sr_kc r) target) (sr_files r) (sr_err r)
        else r
  end.

(** ** Loading *)

(** The session as a load sees it: [ds4_session_load_payload] on the rest of the
    file and the payload size gives its success, the session's tokens after it
    and what is left of the file; [ds4_tokenize_rendered_chat]. *)
Record session_loader := SessionLoader {
  sl_ctx : Z;
  sl_quant_bits : Z;
  sl_model_id : Z;
  sl_load : bytes → Z → bool * option (list Z) * bytes;
  sl_tokenize : bytes → list Z;
}.

Definition kv_store_build_prompt_from_exact_prefix_and_text_suffix (tokenize : bytes → list Z)
    (exact_prefix : list Z) (suffix_text : option bytes) : list Z :=
  exact_prefix ++ tokenize (default [] suffix_text).

Record kv_store_load_result := LoadResult {
  lr_tokens : Z;
  lr_text_bytes : Z;
  lr_quant_bits : Z;
  lr_ext_flags : Z;
  lr_path : bytes;
}.

(** What a load does to its surroundings: the returned token count, the
    effective prompt, the result structure, the store and files, whether the
    session was invalidated, the tokens of a session that was loaded, and the file
    rest handed to the trailer hook. *)
Record load_outcome := LoadOutcome {
  lo_loaded : Z;
  lo_prompt : list Z;
  lo_result : option kv_store_load_result;
  lo_kc : kv_store;
  lo_files : fs;
  lo_invalidated : bool;
  lo_session : option (list Z);
  lo_trailer : option bytes;
}.

(** The checks on the opened file: the header, the text it caches and the rest
    of the file, or the reason of the failure. *)
Definition load_check (data prompt sha : bytes) (model_id : Z)
    : (kv_store_entry * Z * bytes) + bytes :=
  match kv_store_read_header data with
  | None => inr (bs "invalid header")
  | Some (hdr, text_bytes, fp) =>
      if negb (e_model_id hdr =? u8 model_id)
      then inr (bs "cached checkpoint was written for a different model")
      else if text_bytes >? Z.of_nat (length prompt)
      then inr (bs "cached text is longer than prompt")
      else match fread (Z.to_nat text_bytes) fp with
      | None => inr (bs "truncated cached text")
      | Some (cached_text, fp) =>
          if negb (bytes_eqb (kv_store_sha1_bytes_hex cached_text) sha)
          then inr (bs "cached text hash mismatch")
          else if negb (kv_store_byte_prefix_match prompt cached_text)
          then inr (bs "cached text prefix mismatch")
          else inl (hdr, text_bytes, fp)
      end
  end.

(** [kv_store_try_load_text]; [fopen_ok] is the outcome of opening the file for
    reading, [now] the time of the touch. *)
Definition kv_store_try_load_text `{ReadDir} (unlink_ok : bytes → bool) (fopen_ok : bool) (now : Z)
    (kc : kv_store) (files : fs) (sl : session_loader) (prompt : option bytes)
    (hooks : option kv_store_trailer_hooks) : load_outcome :=
  let none kc := LoadOutcome 0 [] None kc files false None None in
  if negb (kc_enabled kc) then none kc
  else match prompt with
  | None => none kc
  | Some p =>
      if negb (sl_quant_bits sl =? 2) && negb (sl_quant_bits sl =? 4) then none kc
      else
        let '(idx, kc) := kv_store_find_text_prefix kc files prompt (sl_model_id sl)
                            (sl_quant_bits sl) (sl_ctx sl) in
        if idx <? 0 then none kc
        else match kc_entry kc !! Z.to_nat idx with
        | None => none kc
        | Some e =>
            match files !! e_path e with
            | None => none kc
            | Some data =>
                if negb fopen_ok then none kc
                else match load_check data p (e_sha e) (sl_model_id sl) with
                | inr _ => none kc
                | inl (hdr, text_bytes, fp) =>
                    match sl_load sl fp (e_payload_bytes hdr) with
                    | (false, _, _) => LoadOutcome 0 [] None kc files true None None
                    | (true, loaded_tokens, fp) =>
                        match loaded_tokens with
                        | Some v =>
                            if Z.of_nat (length v) =? i32 (e_tokens hdr) then
                              let loaded := i32 (e_tokens hdr) in
                              let prompt' :=
                                kv_store_build_prompt_from_exact_prefix_and_text_suffix
                                  (sl_tokenize sl) v (Some (drop (Z.to_nat text_bytes) p)) in
                              let trailer :=
                                match hooks with
                                | Some hk =>
                                    if hk_load hk
                                       && negb (Z.land (e_ext_flags hdr) (hk_ext_flag hk) =? 0)
                                    then Some fp else None
                                | None => None
                                end in
                              if loaded >? 0 then
                                let '(_, files) := kv_store_touch_file files (e_path e)
                                                     (u32 (e_hits hdr + 1)) now in
                                LoadOutcome loaded prompt'
                                  (Some (LoadResult loaded text_bytes (e_quant_bits hdr)
                                           (e_ext_flags hdr) (e_path e)))
                                  (set_last kc loaded) files false (Some v) trailer
                              else LoadOutcome loaded prompt' None kc files false (Some v) trailer
                            else LoadOutcome 0 [] None kc (unlink unlink_ok (e_path e) files).2
                                   true None None
                        | None => LoadOutcome 0 [] None kc (unlink unlink_ok (e_path e) files).2
                                    true None None
                        end
                    end
                end
            end
        end
  end.
