(* ===== verification/KvRoundTrip.v ===== *)
(** * Storing and loading a checkpoint

    Theorems about [kv_store_store_live_prefix_text] and [kv_store_try_load_text]
    of [engine/src/kv_store.c] in the model of [KvCache]: whatever system call
    fails, a store leaves every other file alone except for evicted entries; a
    store that reports success leaves a checkpoint that reads back with the
    stored text; and the next lookup of a prompt that starts with the text
    finds and loads it. *)
From S2P Require Import Prelude CLib Sha1 KvHeader KvPolicy KvCache KvCacheProps.
From Stdlib Require Import SpecFloat.

#[local] Opaque kv_store_sha1_bytes_hex.

(** ** Safety of deletions *)

(** Every file of [files] is kept or was a cache entry of the directory. *)
Definition only_entries_removed (dir : bytes) (files files' : fs) : Prop :=
  ∀ p, files' !! p = files !! p
       ∨ (files' !! p = None ∧ ∃ e, cache_entry dir files e ∧ e_path e = p).

Lemma evict_loop_safe score uok target fuel total l files :
  ∃ l' files', evict_loop score uok target fuel total l files = (l', files')
    ∧ ∀ p, files' !! p = files !! p ∨ (files' !! p = None ∧ p ∈ e_path <$> l).
Proof.
  revert total l files; induction fuel as [|fuel IH]; intros total l files; cbn [evict_loop].
  { eauto 6. }
  case_if; [|eauto 6]. set (v := pick_victim score l). destruct (l !! v) as [e|] eqn:He; [|eauto 6].
  assert (Hsub : ∀ p, p ∈ e_path <$> take v l ++ drop (S v) l → p ∈ e_path <$> l).
  { intros p. pose proof (take_drop_perm v l e He) as Hp.
    assert (e_path <$> l ≡ₚ e_path e :: (e_path <$> take v l ++ drop (S v) l)) as Hpp by (by rewrite Hp at 1).
    rewrite Hpp. set_solver. }
  assert (Hel : e_path e ∈ e_path <$> l) by (eapply list_elem_of_fmap_2, list_elem_of_lookup_2, He).
  unfold unlink. destruct (files !! e_path e) as [d|] eqn:Ed; [destruct (uok (e_path e))|].
  all: match goal with |- context [evict_loop _ _ _ _ ?t ?k ?f] =>
         destruct (IH t k f) as (l' & files' & -> & Hs) end.
  all: exists l', files'; split; [done|]; intros p; destruct (Hs p) as [Heq|[Hn Hin]].
  all: try (by right; split; [|apply Hsub]).
  all: try (by left).
  destruct (decide (p = e_path e)) as [->|Hne].
  - right. by rewrite Heq, lookup_delete, decide_True.
  - left. by rewrite Heq, lookup_delete_ne.
Qed.

Lemma evict_safe `{!ReadDir} exp2 uok now kc files extra incoming :
  let '(kc', files') := kv_store_evict exp2 uok now kc files extra incoming in
  only_entries_removed (kc_dir kc) files files'
  ∧ kc_enabled kc' = kc_enabled kc ∧ kc_dir kc' = kc_dir kc
  ∧ kc_budget_bytes kc' = kc_budget_bytes kc ∧ kc_opt kc' = kc_opt kc
  ∧ kc_reject_different_quant kc' = kc_reject_different_quant kc.
Proof.
  unfold kv_store_evict. destruct (kc_enabled kc) eqn:Hen; simpl; [|split; [by left|done]].
  case_if; [split; [by left|done]|]. case_if; [split; [by left|done]|].
  set (k := kv_cache_refresh kc files).
  assert (Hk : kc_enabled k = true ∧ kc_dir k = kc_dir kc ∧ kc_budget_bytes k = kc_budget_bytes kc
    ∧ kc_opt k = kc_opt kc ∧ kc_reject_different_quant k = kc_reject_different_quant kc)
    by (unfold k, kv_cache_refresh; by rewrite Hen).
  match goal with |- context [evict_loop ?s ?u ?t ?f ?tt ?l ?fs] =>
    destruct (evict_loop_safe s u t f tt l fs) as (l' & files' & -> & Hs) end.
  simpl. split; [|tauto]. intros p. destruct (Hs p) as [|[Hn Hin]]; [by left|right].
  split; [done|]. apply list_elem_of_fmap in Hin as (e & -> & He). exists e. split; [|done].
  destruct (readdir (kc_dir kc) files) as [names|] eqn:Er.
  - apply elem_of_refresh in He; [done..|]. rewrite Er. eauto.
  - unfold k, kv_cache_refresh in He. rewrite Hen, Er in He. simpl in He. set_solver.
Qed.

Lemma unlink_other uok path files p :
  p ≠ path → (unlink uok path files).2 !! p = files !! p.
Proof.
  intros Hp. unfold unlink. destruct (files !! path); [|done].
  destruct (uok path); [|done]. simpl. by rewrite lookup_delete_ne.
Qed.

Lemma unlink_same uok path files :
  (unlink uok path files).2 !! path = files !! path ∨ (unlink uok path files).2 !! path = None.
Proof.
  unfold unlink. destruct (files !! path) eqn:E; [|by right].
  destruct (uok path); [right|by left]. simpl. by rewrite lookup_delete, decide_True.
Qed.

(** ** What a checkpoint file holds *)

(** [data] is a checkpoint of [text] with header [e]. *)
Definition holds_text (data : bytes) (e : kv_store_entry) (text : bytes) : Prop :=
  ∃ rest, kv_store_read_header data = Some (e, Z.of_nat (length text), text ++ rest)
    ∧ e_text_bytes e = Z.of_nat (length text) ∧ Z.of_nat (length text) <= UINT32_MAX
    ∧ 0 <= e_payload_bytes e
    ∧ 52 + Z.of_nat (length text) + e_payload_bytes e <= UINT64_MAX
    ∧ 52 + Z.of_nat (length text) + e_payload_bytes e <= Z.of_nat (length data).

Lemma holds_text_readable files path data e text :
  files !! path = Some data → holds_text data e text →
  let sha := kv_store_sha1_bytes_hex text in
  kv_store_read_entry_file files path sha = Some (with_place sha path (Z.of_nat (length data)) e)
  ∧ kv_cache_file_text_matches files path sha text = true.
Proof.
  intros Hd (rest & Hr & Het & Htl & Hp0 & Hov & Hsz). cbn zeta. split.
  - unfold kv_store_read_entry_file. rewrite Hd. cbn [mbind option_bind].
    destruct (Z.ltb_spec (Z.of_nat (length data)) (48 + 4)); [lia|].
    rewrite Hr. cbn [mbind option_bind].
    rewrite (u64_small (UINT64_MAX - (48 + 4) - Z.of_nat (length text))) by (unfold is_u64; lia).
    rewrite u64_small by (unfold is_u64; lia).
    destruct (Z.ltb_spec (UINT64_MAX - (48 + 4)) (Z.of_nat (length text))); [lia|].
    destruct (Z.ltb_spec (UINT64_MAX - (48 + 4) - Z.of_nat (length text)) (e_payload_bytes e)); [lia|].
    destruct (Z.ltb_spec (Z.of_nat (length data)) (48 + 4 + Z.of_nat (length text) + e_payload_bytes e)); [lia|done].
  - unfold kv_cache_file_text_matches. rewrite Z.gtb_ltb.
    destruct (Z.ltb_spec UINT32_MAX (Z.of_nat (length text))); [lia|]. rewrite Hd, Hr, Z.eqb_refl.
    simpl. unfold fread. rewrite Nat2Z.id, length_app.
    destruct (Nat.leb_spec (length text) (length text + length rest)); [|lia].
    rewrite take_app_length, !bytes_eqb_refl. by rewrite orb_true_r.
Qed.

Lemma readable_holds_text files path data sha e text :
  files !! path = Some data → is_bytes data →
  kv_store_read_entry_file files path sha = Some e →
  kv_cache_file_text_matches files path sha text = true →
  ∃ hdr, holds_text data hdr text ∧ e = with_place sha path (Z.of_nat (length data)) hdr
         ∧ sha = kv_store_sha1_bytes_hex text.
Proof.
  intros Hd Hb. unfold kv_store_read_entry_file, kv_cache_file_text_matches. rewrite Hd.
  cbn [mbind option_bind]. destruct (Z.ltb_spec (Z.of_nat (length data)) (48 + 4)); [done|].
  destruct (kv_store_read_header data) as [[[hdr tb] fp]|] eqn:Er; [|done]. cbn [mbind option_bind].
  destruct (read_header_inv _ _ _ _ Hb Er) as (Hok & Htb & Het & _).
  destruct Hok as (_ & _ & _ & _ & _ & _ & _ & _ & _ & Hpay). unfold is_u32, is_u64 in *.
  rewrite (u64_small (UINT64_MAX - (48 + 4) - tb)) by (unfold is_u64; lia).
  destruct (_ || _) eqn:Eo; [done|]. apply orb_false_iff in Eo as [_ Eo%Z.ltb_ge].
  rewrite u64_small by (unfold is_u64; lia).
  destruct (Z.ltb_spec (Z.of_nat (length data)) (48 + 4 + tb + e_payload_bytes hdr)); [done|].
  intros [= <-]. rewrite Z.gtb_ltb. destruct (Z.ltb_spec UINT32_MAX (Z.of_nat (length text))); [done|].
  destruct (Z.eqb_spec tb (Z.of_nat (length text))) as [->|]; [|done]. simpl.
  unfold fread. rewrite Nat2Z.id. destruct (Nat.leb_spec (length text) (length fp)); [|done].
  intros [Hsha%bytes_eqb_eq Htx]%andb_true_iff.
  assert (Htake : take (length text) fp = text).
  { apply orb_true_iff in Htx as [Hz%Nat.eqb_eq|Ht%bytes_eqb_eq]; [|done].
    rewrite Hz. by apply nil_length_inv in Hz as ->. }
  exists hdr. split; [|split; [done|by rewrite <- Hsha, Htake]].
  exists (drop (length text) fp).
  split; [rewrite Er; by rewrite <- (take_drop (length text) fp), Htake at 1|].
  repeat split; try done; lia.
Qed.

(** The header reader looks at the first 52 bytes only. *)
Lemma read_header_prefix fp fp' e tb rest :
  kv_store_read_header fp = Some (e, tb, rest) →
  (52 <= length fp')%nat → take 52 fp' = take 52 fp →
  kv_store_read_header fp' = Some (e, tb, drop 52 fp') ∧ rest = drop 52 fp.
Proof.
  intros Hr Hl Ht. revert Hr. unfold kv_store_read_header, fread.
  assert (H48 : take 48 fp' = take 48 fp).
  { change (take (Nat.min 48 52) fp' = take (Nat.min 48 52) fp). rewrite <- !take_take. by rewrite Ht. }
  assert (H4 : take 4 (drop 48 fp') = take 4 (drop 48 fp)).
  { rewrite !take_drop_commute. simpl. by rewrite Ht. }
  destruct (Nat.leb_spec 48 (length fp)); [|done]. destruct (Nat.leb_spec 48 (length fp')); [|lia].
  cbn [mbind option_bind]. rewrite H48. case_if; [done|]. case_if; [done|].
  destruct (Nat.leb_spec 4 (length (drop 48 fp))); [|done].
  destruct (Nat.leb_spec 4 (length (drop 48 fp'))) as [|Hbad];
    [|rewrite length_drop in Hbad; lia]. cbn [mbind option_bind e_tokens e_quant_bits].
  rewrite H4. match goal with |- context [if negb ?x && ?y then _ else _] =>
    destruct (negb x && y); [|done] end.
  intros [= <- <- <-]. rewrite !drop_drop. done.
Qed.

(** Cutting a checkpoint after its payload and appending anything keeps it. *)
Lemma holds_text_truncate data e text w :
  holds_text data e text →
  let end_ := Z.to_nat (52 + Z.of_nat (length text) + e_payload_bytes e) in
  holds_text (ftruncate end_ data ++ w) e text.
Proof.
  intros (rest & Hr & Het & Htl & Hp0 & Hov & Hsz). cbn zeta.
  set (end_ := Z.to_nat _). unfold ftruncate.
  assert (He : (end_ - length data = 0)%nat) by lia. rewrite He, app_nil_r.
  assert (Hlen : length (take end_ data ++ w) = (end_ + length w)%nat)
    by (rewrite length_app, length_take; lia).
  destruct (read_header_prefix _ (take end_ data ++ w) _ _ _ Hr) as [Hr' Hrest].
  { rewrite Hlen. lia. }
  { rewrite take_app_le by (rewrite length_take; lia). by rewrite take_take, Nat.min_l by lia. }
  exists (drop (length text) (drop 52 (take end_ data ++ w))). rewrite Hr'.
  split; [|repeat split; try done; lia]. f_equal. f_equal.
  rewrite <- (take_drop (length text) (drop 52 (take end_ data ++ w))) at 1. f_equal.
  rewrite drop_app_le by (rewrite length_take; lia).
  rewrite take_app_le by (rewrite length_drop, length_take; lia).
  replace (drop 52 (take end_ data)) with (take (end_ - 52) (drop 52 data))
    by (rewrite take_drop_commute; by replace (52 + (end_ - 52))%nat with end_ by lia).
  rewrite take_take, Nat.min_l, <- Hrest by lia. by rewrite take_app_length.
Qed.

(** Two headers that agree on everything a lookup filters by. *)
Definition same_key_fields (e e' : kv_store_entry) : Prop :=
  e_tokens e' = e_tokens e ∧ e_model_id e' = e_model_id e ∧ e_quant_bits e' = e_quant_bits e
  ∧ e_ctx_size e' = e_ctx_size e ∧ e_payload_bytes e' = e_payload_bytes e.

Lemma holds_text_refill data e text x now :
  is_bytes data → is_u8 x → is_u64 now → holds_text data e text →
  let h := kv_store_fill_header (e_model_id e) (e_quant_bits e) (e_reason e) x (e_tokens e)
             (e_hits e) (e_ctx_size e) (e_created_at e) now (e_payload_bytes e) in
  ∃ e', holds_text (h ++ drop 48 data) e' text ∧ same_key_fields e e'.
Proof.
  intros Hb Hx Hn (rest & Hr & Het & Htl & Hp0 & Hov & Hsz). cbn zeta.
  destruct (read_header_inv _ _ _ _ Hb Hr) as ((? & ? & ? & ? & ? & Hh & _) & _).
  eexists. split.
  - exists rest. split; [by apply read_header_refill|].
    cbn [e_text_bytes e_payload_bytes]. rewrite length_app, length_drop, fill_header_length. repeat split; try done; lia.
  - by repeat split.
Qed.

Lemma rewrite_trailer_holds io files path text hooks data e :
  files !! path = Some data → is_bytes data → holds_text data e text → is_u64 (ti_now io) →
  let files' := kv_cache_rewrite_trailer io files path text hooks in
  (∃ data' e', files' !! path = Some data' ∧ holds_text data' e' text ∧ same_key_fields e e')
  ∧ ∀ p, p ≠ path → files' !! p = files !! p.
Proof.
  intros Hd Hb Hh Hn. cbn zeta. unfold kv_cache_rewrite_trailer.
  assert (Hsame : (∃ data' e', files !! path = Some data' ∧ holds_text data' e' text
    ∧ same_key_fields e e') ∧ ∀ p, p ≠ path → files !! p = files !! p).
  { split; [|done]. exists data, e. by repeat split. }
  destruct hooks as [hk|]; [|done]. destruct (hk_write hk) as [wf|]; [|done].
  destruct (hk_serialized_size hk) as [sf|]; [|done]. destruct (kv_trailer_serialized_size _ _) as [ok est].
  case_if; [done|]. rewrite Hd. case_if; [done|].
  pose proof Hh as (rest & Hr & Het & Htl & Hp0 & Hov & Hsz). rewrite Hr.
  rewrite u64_small by (unfold is_u64; lia). case_if; [|done].
  destruct (kv_trailer_write (Some hk) text) as [[w wok] ignored].
  assert (Hins : ∀ d' e', holds_text d' e' text → same_key_fields e e' →
    (∃ data' e', <[path:=d']> files !! path = Some data' ∧ holds_text data' e' text
     ∧ same_key_fields e e') ∧ ∀ p, p ≠ path → <[path:=d']> files !! p = files !! p).
  { intros d' e' Hd' He'. split; [exists d', e'; by rewrite lookup_insert, decide_True|].
    intros p Hp. by rewrite lookup_insert_ne. }
  case_if.
  - case_if.
    + set (x := u8 (Z.lor (e_ext_flags e) (hk_ext_flag hk))).
      destruct (holds_text_refill data e text x (ti_now io) Hb) as (e' & Hh' & Hk);
        [unfold x; auto with spark|done|done|].
      set (h := kv_store_fill_header _ _ _ _ _ _ _ _ _ _) in *.
      apply (Hins _ e'); [|done].
      apply (holds_text_truncate _ _ _ w) in Hh'. cbn zeta in Hh'.
      destruct Hk as (? & ? & ? & ? & Hpay). rewrite Hpay in Hh'.
      set (n := Z.to_nat _) in *.
      replace (h ++ drop 48 (ftruncate n data ++ w)) with (ftruncate n (h ++ drop 48 data) ++ w); [done|].
      unfold ftruncate. rewrite length_app, length_drop. change (length h) with 48%nat.
      replace (n - length data)%nat with 0%nat by lia.
      replace (n - (48 + (length data - 48)))%nat with 0%nat by lia. rewrite !app_nil_r.
      rewrite drop_app_le by (rewrite length_take; lia). rewrite (assoc_L (++)). f_equal.
      rewrite take_app_ge by (change (length h) with 48%nat; lia). change (length h) with 48%nat.
      f_equal. rewrite take_drop_commute. by replace (48 + (n - 48))%nat with n by lia.
    + apply (Hins _ e); [|by repeat split]. by apply holds_text_truncate.
  - apply (Hins _ e); [|by repeat split]. by apply holds_text_truncate.
Qed.

(** ** The two ways a store can succeed *)

(** The key text of a store. *)
Definition store_text (sv : session_view) (override : option bytes) (store_tokens : list Z) : bytes :=
  match override with
  | Some (c :: o) => c :: o
  | _ => kv_store_render_tokens_text (sv_token_text sv) store_tokens
  end.

Definition store_tmp (path : bytes) (pid : Z) : bytes := path ++ bs ".tmp." ++ fmt_d pid.

(** Every path through [kv_store_store_live_prefix_text]. *)
Lemma store_inv `{!ReadDir} exp2 io kc files sv tokens len reason override ext hooks r :
  kv_store_store_live_prefix_text exp2 io kc files sv tokens len reason override ext hooks = r →
  let st := kv_store_tokens_copy_prefix tokens len in
  let text := store_text sv override st in
  let sha := kv_store_sha1_bytes_hex text in
  let path := kv_store_path_for_sha (kc_dir kc) sha in
  (sr_ok r = false ∧ sr_files r = files)
  ∨ ∃ v, tokens = Some v ∧ min_tokens (kc_opt kc) <= len
    ∧ (sv_quant_bits sv = 2 ∨ sv_quant_bits sv = 4) ∧ sv_tokens sv = Some st
    ∧ Z.of_nat (length text) <= UINT32_MAX
    ∧ ∃ b files1,
        kv_cache_existing_compatible (si_unlink io) kc files path sha text
          (sv_model_id sv) (sv_quant_bits sv) (sv_ctx sv) = (b, files1)
        ∧ if b then sr_ok r = true
                    ∧ sr_files r = kv_cache_rewrite_trailer (si_trailer io) files1 path text hooks
          else (sr_ok r = false ∧ sr_files r = files1)
            ∨ ∃ payload est_t est_f req inc kc2 files2 x,
                sv_stage sv = inr payload
                ∧ kv_store_file_size_fits (Some (kc_budget_bytes kc)) (Z.of_nat (length text))
                    (Z.of_nat (length payload)) est_t = (true, est_f, req)
                ∧ kv_store_evict exp2 (si_unlink io) (si_evict_now io) kc files1
                    (default 0 est_f) inc = (kc2, files2)
                ∧ (x = 0 ∨ x = ext)
                ∧ r = store_write io kc2 files2 sv st reason text x payload est_t hooks path.
Proof.
  intros <-. cbn zeta. unfold kv_store_store_live_prefix_text.
  destruct (kc_enabled kc); [|by left]. simpl. destruct tokens as [v|]; [|by left].
  destruct (Z.ltb_spec len (min_tokens (kc_opt kc))); [by left|].
  destruct (negb (sv_quant_bits sv =? 2) && negb (sv_quant_bits sv =? 4)) eqn:Eq; [by left|].
  destruct (sv_tokens sv) as [live|]; [|by left].
  set (st := kv_store_tokens_copy_prefix (Some v) len).
  destruct (Nat.eqb_spec (length live) (length st)) as [Hll|]; [|by left]. simpl.
  unfold tokens_starts_with. destruct (strip_prefix st live) as [sfx|] eqn:Es; [|by left]. simpl.
  apply strip_prefix_Some in Es.
  assert (live = st) as ->.
  { rewrite Es, length_app in Hll. destruct sfx; [|simpl in Hll; lia]. by rewrite app_nil_r in Es. }
  fold (store_text sv override st). set (text := store_text sv override st).
  rewrite Z.gtb_ltb. destruct (Z.ltb_spec UINT32_MAX (Z.of_nat (length text))); [by left|].
  destruct (kv_trailer_serialized_size hooks text) as [size_ok est_t].
  destruct size_ok; [|by left]. simpl. set (sha := kv_store_sha1_bytes_hex text).
  set (path := kv_store_path_for_sha _ sha).
  destruct (kv_cache_existing_compatible _ _ _ _ _ _ _ _ _) as [b files1] eqn:Ee.
  right. exists v. do 2 (split; [done|]). split; [apply andb_false_iff in Eq; lia|].
  do 2 (split; [done|]). exists b, files1. split; [done|]. destruct b; [done|].
  destruct (sv_stage sv) as [err|payload]; [by left|].
  destruct (kv_store_file_size_fits _ _ _ _) as [[fits est_f] req] eqn:Ef.
  destruct fits; [|by left]. simpl. right.
  destruct (kv_store_evict _ _ _ _ _ _ _) as [kc2 files2] eqn:Eev.
  exists payload, est_t, est_f, req, (Some (EvictCtx (Some text) (Z.of_nat (length text))
    (u8 (sv_model_id sv)) (u8 (sv_quant_bits sv)) (u32 (sv_ctx sv)) (kc_reject_different_quant kc))),
    kc2, files2, (if match override with Some (_ :: _) => true | _ => false end then ext else 0).
  do 3 (split; [done|]). split; [destruct override as [[|]|]; auto|done].
Qed.

Lemma existing_compatible_inv uok kc files path sha text m q c b files1 :
  kv_cache_existing_compatible uok kc files path sha text m q c = (b, files1) →
  (∀ p, p ≠ path → files1 !! p = files !! p)
  ∧ (files1 !! path = files !! path ∨ files1 !! path = None)
  ∧ (b = true → files1 = files ∧ ∃ e, kv_store_read_entry_file files path sha = Some e
       ∧ kv_cache_file_text_matches files path sha text = true).
Proof.
  unfold kv_cache_existing_compatible.
  destruct (kv_store_read_entry_file files path sha) as [e|];
    [|intros [= <- <-]; split; [done|]; split; [by left|done]].
  case_if; intros [= <- <-].
  - split; [done|]. split; [by left|]. intros _. split; [done|]. exists e.
    split; [done|]. by apply andb_true_iff in E as [_ E].
  - split; [intros; by apply unlink_other|]. split; [apply unlink_same|done].
Qed.

Lemma store_tmp_ne path pid : store_tmp path pid ≠ path.
Proof.
  unfold store_tmp. intros H. apply (f_equal length) in H. rewrite !length_app in H. simpl in H. lia.
Qed.

(** The file a successful write leaves: header, text size, text, payload and
    whatever the trailer hook appended. *)
Definition checkpoint_bytes (sv : session_view) (st : list Z) (reason : option bytes)
    (ext now : Z) (text payload w : bytes) : bytes :=
  kv_store_fill_header (u8 (sv_model_id sv)) (u8 (sv_quant_bits sv)) (kv_store_reason_code reason)
    ext (u32 (Z.of_nat (length st))) 0 (u32 (sv_ctx sv)) now now (Z.of_nat (length payload))
  ++ kv_store_le_put32 (u32 (Z.of_nat (length text))) ++ text ++ payload ++ w.

Lemma store_write_files io kc files sv st reason text x payload est hooks path :
  let r := store_write io kc files sv st reason text x payload est hooks path in
  let tmp := store_tmp path (si_pid io) in
  (∀ p, p ≠ path → p ≠ tmp → sr_files r !! p = files !! p)
  ∧ (sr_ok r = false → sr_files r !! path = files !! path)
  ∧ (sr_ok r = true → sr_files r !! tmp = None ∧ ∃ y w,
       (y = 0 ∨ ∃ hk, hooks = Some hk ∧ y = hk_ext_flag hk)
       ∧ sr_files r !! path
         = Some (checkpoint_bytes sv st reason (Z.lor y x) (si_now io) text payload w)).
Proof.
  cbn zeta. unfold store_write. fold (store_tmp path (si_pid io)).
  pose proof (store_tmp_ne path (si_pid io)) as Hne. set (tmp := store_tmp path (si_pid io)) in *.
  destruct (si_fopen io); simpl; [|done].
  set (y := match hooks with Some hk => _ | None => 0 end).
  assert (Hy : y = 0 ∨ ∃ hk, hooks = Some hk ∧ y = hk_ext_flag hk).
  { unfold y. destruct hooks as [hk|]; [|by left]. case_if; eauto. }
  clearbody y.
  match goal with |- context [if ?b then kv_trailer_write hooks text else _] => set (bt := b) end.
  destruct (if bt then kv_trailer_write hooks text else _) as [[w wok] tbytes].
  set (ok := bt && wok && si_fflush io && si_fclose io).
  match goal with |- context [ok && ?f && si_rename io] => set (fits := f) end.
  set (contents := if ok then _ else _).
  destruct (ok && fits && si_rename io) eqn:Eok; simpl.
  - assert (ok = true) as Hok by (by destruct ok).
    assert (Hc : contents = checkpoint_bytes sv st reason (Z.lor y x) (si_now io) text payload w)
      by (unfold contents; by rewrite Hok).
    clearbody contents. rewrite Hc. split; [|split; [done|]].
    + intros p Hp Hpt. by rewrite lookup_insert_ne, lookup_delete_ne, lookup_insert_ne.
    + intros _. split.
      * by rewrite lookup_insert_ne, lookup_delete, decide_True.
      * exists y, w. split; [done|]. by rewrite lookup_insert, decide_True.
  - clearbody contents. split; [|split; [|done]].
    + intros p Hp Hpt. by rewrite unlink_other, lookup_insert_ne.
    + intros _. by rewrite unlink_other, lookup_insert_ne.
Qed.

(** ** Properties *)

(** The effect of a store on every path. *)
Lemma store_effect `{!ReadDir} exp2 io kc files sv tokens len reason override ext hooks :
  let text := store_text sv override (kv_store_tokens_copy_prefix tokens len) in
  let path := kv_store_path_for_sha (kc_dir kc) (kv_store_sha1_bytes_hex text) in
  let tmp := store_tmp path (si_pid io) in
  let r := kv_store_store_live_prefix_text exp2 io kc files sv tokens len reason override ext hooks in
  (∀ p, p ≠ path → p ≠ tmp →
     sr_files r !! p = files !! p
     ∨ (sr_files r !! p = None ∧ ∃ e, cache_entry (kc_dir kc) files e ∧ e_path e = p))
  ∧ (sr_ok r = false → sr_files r !! path = files !! path ∨ sr_files r !! path = None)
  ∧ (sr_ok r = true → sr_files r !! tmp = None ∨ sr_files r !! tmp = files !! tmp).
Proof.
  intros text path tmp r. pose proof (store_inv _ _ _ _ _ _ _ _ _ _ _ r eq_refl) as Hinv.
  cbn zeta in Hinv. fold text path in Hinv.
  pose proof (store_tmp_ne path (si_pid io)) as Hne. fold tmp in Hne.
  destruct Hinv as [[Hf ->]|(v & _ & _ & _ & _ & _ & b & files1 & Hex & Hb)].
  { split; [by left|]. split; [by left|by right]. }
  destruct (existing_compatible_inv _ _ _ _ _ _ _ _ _ _ _ Hex) as (Ho & Hp & Ht).
  destruct b.
  { destruct (Ht eq_refl) as [-> _]. destruct Hb as [Hok ->].
    assert (Hrw : ∀ p, p ≠ path → kv_cache_rewrite_trailer (si_trailer io) files path text hooks !! p
                                  = files !! p).
    { intros p Hpp. unfold kv_cache_rewrite_trailer. repeat case_match; try done;
        by rewrite lookup_insert_ne. }
    split; [intros p Hpp _; left; by apply Hrw|]. split; [by rewrite Hok|].
    intros _. right. by apply Hrw. }
  destruct Hb as [[Hf ->]|(payload & et & ef & req & inc & kc2 & files2 & x & _ & _ & Hev & _ & ->)].
  { split; [intros p Hpp _; left; by apply Ho|]. split; [done|]. intros _. right. by apply Ho. }
  pose proof (evict_safe exp2 (si_unlink io) (si_evict_now io) kc files1 (default 0 ef) inc) as Hs.
  rewrite Hev in Hs. destruct Hs as [Hs _].
  destruct (store_write_files io kc2 files2 sv (kv_store_tokens_copy_prefix tokens len) reason text x
    payload et hooks path) as (Hwo & Hwf & Hwt).
  split; [|split].
  - intros p Hpp Hpt. rewrite Hwo by done. destruct (Hs p) as [Heq|[Hn (e & (n & sha & Hsha & He) & <-)]].
    + left. by rewrite Heq, Ho.
    + right. split; [done|]. exists e. split; [|done]. exists n, sha. split; [done|].
      rewrite <- He. symmetry. apply read_entry_file_ext, Ho.
      by apply read_entry_file_inv in He as [<- _].
  - intros Hf. rewrite Hwf by done. destruct (Hs path) as [->|[-> _]]; [done|by right].
  - intros Hok. left. by apply Hwt.
Qed.


Lemma reason_code_range reason : 0 <= kv_store_reason_code reason <= REASON_AGENT_SESSION.
Proof.
  unfold kv_store_reason_code. destruct reason as [r|]; [repeat case_if|];
    unfold REASON_AGENT_SESSION, REASON_UNKNOWN, REASON_COLD, REASON_CONTINUED, REASON_EVICT,
      REASON_SHUTDOWN, REASON_AGENT_SYSTEM; lia.
Qed.

(** The header a successful store writes. *)
Definition checkpoint_entry (sv : session_view) (st : list Z) (reason : option bytes)
    (ext now : Z) (text payload : bytes) : kv_store_entry :=
  KvEntry [] [] (u8 (sv_quant_bits sv)) (u8 (sv_model_id sv)) (kv_store_reason_code reason)
    (Z.of_nat (length st)) 0 (u32 (sv_ctx sv)) ext now now (Z.of_nat (length payload))
    (Z.of_nat (length text)) 0.

Lemma checkpoint_read sv st reason ext now text payload w :
  is_u8 ext → (sv_quant_bits sv = 2 ∨ sv_quant_bits sv = 4) →
  0 < Z.of_nat (length st) <= UINT32_MAX → is_u64 now →
  Z.of_nat (length text) <= UINT32_MAX → Z.of_nat (length payload) <= UINT64_MAX →
  kv_store_read_header (checkpoint_bytes sv st reason ext now text payload w)
  = Some (checkpoint_entry sv st reason ext now text payload, Z.of_nat (length text),
          text ++ payload ++ w).
Proof.
  intros Hx Hq Hst Hn Ht Hp. unfold checkpoint_bytes, checkpoint_entry.
  rewrite !(u32_small (Z.of_nat _)) by (unfold is_u32; lia).
  apply read_fill_header; [|unfold is_u32; lia].
  unfold header_ok. pose proof (reason_code_range reason).
  repeat split; try (auto with spark); try (unfold is_u32, is_u64 in *; lia); try apply Hx; try apply Hn.
  all: try apply u8_range; try apply u32_range.
  destruct Hq as [-> | ->]; [left|right]; done.
Qed.

Lemma checkpoint_holds sv st reason ext now text payload w :
  is_u8 ext → (sv_quant_bits sv = 2 ∨ sv_quant_bits sv = 4) →
  0 < Z.of_nat (length st) <= UINT32_MAX → is_u64 now →
  Z.of_nat (length text) <= UINT32_MAX →
  52 + Z.of_nat (length text) + Z.of_nat (length payload) <= UINT64_MAX →
  holds_text (checkpoint_bytes sv st reason ext now text payload w)
    (checkpoint_entry sv st reason ext now text payload) text.
Proof.
  intros Hx Hq Hst Hn Ht Hp. exists (payload ++ w).
  split; [apply checkpoint_read; done || lia|].
  cbn [e_text_bytes e_payload_bytes checkpoint_entry].
  assert (Hl : length (checkpoint_bytes sv st reason ext now text payload w)
               = (52 + length text + length payload + length w)%nat).
  { unfold checkpoint_bytes. rewrite !length_app, fill_header_length, le_put32_length. lia. }
  repeat split; lia.
Qed.

Lemma fits_no_overflow budget text payload trailer f req :
  0 <= text → 0 <= payload <= UINT64_MAX →
  kv_store_file_size_fits budget text payload trailer = (true, f, req) →
  52 + text + payload <= UINT64_MAX.
Proof.
  intros Ht Hp. unfold kv_store_file_size_fits, kv_cache_file_size_bytes.
  rewrite (u64_small (UINT64_MAX - (48 + 4))) by (unfold is_u64; lia).
  destruct (Z.ltb_spec (UINT64_MAX - (48 + 4)) text); simpl; [done|].
  rewrite (u64_small (UINT64_MAX - (48 + 4) - text)) by (unfold is_u64; lia).
  destruct (Z.ltb_spec (UINT64_MAX - (48 + 4) - text) payload); simpl; [done|]. lia.
Qed.

Section success.
Context `{!ReadDir}.
Context (exp2 : spec_float → spec_float) (io : store_io) (kc : kv_store) (files : fs)
  (sv : session_view) (v : list Z) (len : Z) (reason : option bytes) (override : option bytes)
  (ext : Z) (hooks : option kv_store_trailer_hooks).

Local Abbreviation st := (kv_store_tokens_copy_prefix (Some v) len).
Local Abbreviation text := (store_text sv override st).
Local Abbreviation sha := (kv_store_sha1_bytes_hex text).
Local Abbreviation path := (kv_store_path_for_sha (kc_dir kc) sha).
Local Abbreviation r :=
  (kv_store_store_live_prefix_text exp2 io kc files sv (Some v) len reason override ext hooks).

(** What the callers guarantee: a positive minimum, a nonempty prompt of [int]
    length, byte-sized flags, 64-bit times and payload sizes. *)
Record store_pre : Prop := {
  pre_min : 0 < min_tokens (kc_opt kc);
  pre_tokens : 0 < Z.of_nat (length v) <= INT_MAX;
  pre_ext : is_u8 ext;
  pre_hooks : ∀ hk, hooks = Some hk → is_u8 (hk_ext_flag hk);
  pre_now : is_u64 (si_now io) ∧ is_u64 (ti_now (si_trailer io));
  pre_payload : ∀ payload, sv_stage sv = inr payload → Z.of_nat (length payload) <= UINT64_MAX;
  }.

Lemma st_length :
  store_pre → min_tokens (kc_opt kc) <= len → 0 < Z.of_nat (length st) <= INT_MAX.
Proof.
  intros [Hmin Hv _ _ _ _] Hlen. simpl. rewrite length_take. lia.
Qed.

(** A store that reports success without a compatible file in place has written
    the complete checkpoint. *)
Lemma store_written :
  store_pre → sr_ok r = true → files !! path = None →
  ∃ y w payload, sv_stage sv = inr payload ∧ is_u8 y
  ∧ 52 + Z.of_nat (length text) + Z.of_nat (length payload) <= UINT64_MAX
  ∧ Z.of_nat (length text) <= UINT32_MAX
  ∧ min_tokens (kc_opt kc) <= len
  ∧ (sv_quant_bits sv = 2 ∨ sv_quant_bits sv = 4)
  ∧ sr_files r !! path = Some (checkpoint_bytes sv st reason y (si_now io) text payload w)
  ∧ kc_enabled (sr_kc r) = kc_enabled kc ∧ kc_dir (sr_kc r) = kc_dir kc
  ∧ kc_opt (sr_kc r) = kc_opt kc
  ∧ kc_reject_different_quant (sr_kc r) = kc_reject_different_quant kc.
Proof.
  intros Hpre Hok Hnone. pose proof (store_inv exp2 io kc files sv (Some v) len reason override ext hooks r eq_refl) as Hinv.
  destruct Hinv as [[Hf _]|(v' & _ & Hlen & Hq & _ & Htl & b & files1 & Hex & Hb)];
  [by rewrite Hf in Hok|].
  assert (Hb' : b = false).
  { destruct b; [|done]. destruct (existing_compatible_inv _ _ _ _ _ _ _ _ _ _ _ Hex) as (_ & _ & Ht).
  destruct (Ht eq_refl) as (_ & e & He & _). unfold kv_store_read_entry_file in He.
  by rewrite Hnone in He. }
  rewrite Hb' in Hb. destruct Hb as [[Hf _]|(payload & et & ef & req & inc & kc2 & files2 & x & Hst & Hfit & Hev & Hx & Hr)];
  [by rewrite Hf in Hok|].
  pose proof (evict_safe exp2 (si_unlink io) (si_evict_now io) kc files1 (default 0 ef) inc) as Hs.
  rewrite Hev in Hs. destruct Hs as (_ & He1 & He2 & _ & He3 & He4).
  destruct (store_write_files io kc2 files2 sv st reason text x payload et hooks path) as (_ & _ & Hwt).
  rewrite Hr in Hok |- *. destruct (Hwt Hok) as (_ & y & w & Hy & Hfile).
  exists (Z.lor y x), w, payload. split; [done|]. destruct Hpre as [_ _ Hext Hhk _ Hpay].
  split; [|split; [|do 4 (split; [done|])]].
  - apply lor_u8; [destruct Hy as [->|(hk & Hh & ->)]; [unfold is_u8; lia|auto]|].
  destruct Hx as [->| ->]; [unfold is_u8; lia|done].
  - specialize (Hpay _ Hst). eapply fits_no_overflow; [| |exact Hfit]; lia.
  - assert (Hkc : sr_kc (store_write io kc2 files2 sv st reason text x payload et hooks path) = kc2).
  { unfold store_write. repeat case_match; done. }
  rewrite Hkc. by rewrite He1, He2, He3, He4.
Qed.
End success.

(** A store that reports success leaves, at the path named by the hash of
    the text, a file that scans as a cache entry and holds exactly that text,
    whether it wrote the file or found a compatible one and rewrote its
    trailer, and whatever happened to the trailer. *)
Theorem store_success_readable `{!ReadDir} exp2 io kc files sv v len reason override ext hooks
    (Hpre : store_pre io kc sv v ext hooks)
    (Hbytes : ∀ p d, files !! p = Some d → is_bytes d)
    (Hok : sr_ok (kv_store_store_live_prefix_text exp2 io kc files sv (Some v) len reason
                    override ext hooks) = true) :
  let text := store_text sv override (kv_store_tokens_copy_prefix (Some v) len) in
  let sha := kv_store_sha1_bytes_hex text in
  let path := kv_store_path_for_sha (kc_dir kc) sha in
  let files' := sr_files (kv_store_store_live_prefix_text exp2 io kc files sv (Some v) len reason
                            override ext hooks) in
  ∃ e, kv_store_read_entry_file files' path sha = Some e
       ∧ e_text_bytes e = Z.of_nat (length text)
       ∧ kv_cache_file_text_matches files' path sha text = true.
Proof.
  cbn zeta. set (r := kv_store_store_live_prefix_text _ _ _ _ _ _ _ _ _ _ _) in *.
  pose proof (store_inv exp2 io kc files sv (Some v) len reason override ext hooks r eq_refl) as Hinv.
  cbn zeta in Hinv. set (st := kv_store_tokens_copy_prefix (Some v) len) in *.
  set (text := store_text sv override st) in *.
  set (sha := kv_store_sha1_bytes_hex text) in *. set (path := kv_store_path_for_sha _ _) in *.
  assert (Hdone : ∀ data hdr, sr_files r !! path = Some data → holds_text data hdr text →
    ∃ e, kv_store_read_entry_file (sr_files r) path sha = Some e
         ∧ e_text_bytes e = Z.of_nat (length text)
         ∧ kv_cache_file_text_matches (sr_files r) path sha text = true).
  { intros data hdr Hd Hh. destruct (holds_text_readable _ _ _ _ _ Hd Hh) as [H1 H2].
    eexists. split; [exact H1|]. split; [|exact H2]. cbn [with_place e_text_bytes].
    by destruct Hh as (? & _ & -> & _). }
  destruct Hinv as [[Hf _]|(v' & _ & Hlen & Hq & _ & Htl & b & files1 & Hex & Hb)];
    [by rewrite Hf in Hok|].
  destruct (existing_compatible_inv _ _ _ _ _ _ _ _ _ _ _ Hex) as (_ & _ & Ht).
  destruct b.
  - destruct (Ht eq_refl) as (-> & e & He & Hm). destruct Hb as [_ Hfiles].
    pose proof (read_entry_file_inv _ _ _ _ He) as (_ & _ & data & Hd & _).
    destruct (readable_holds_text _ _ _ _ _ _ Hd (Hbytes _ _ Hd) He Hm) as (hdr & Hh & _ & _).
    destruct (rewrite_trailer_holds (si_trailer io) files path text hooks data hdr Hd (Hbytes _ _ Hd) Hh)
      as [(data' & e' & Hd' & Hh' & _) _]; [apply Hpre|].
    rewrite <- Hfiles in Hd'. by apply (Hdone data' e').
  - destruct Hb as [[Hf _]|(payload & et & ef & req & inc & kc2 & files2 & x & Hst & Hfit & Hev & Hx & Hr)];
      [by rewrite Hf in Hok|].
    destruct (store_write_files io kc2 files2 sv st reason text x payload et hooks path) as (_ & _ & Hwt).
    rewrite <- Hr in Hwt. destruct (Hwt Hok) as (_ & y & w & Hy & Hfile).
    eapply (Hdone _ _ Hfile). pose proof (st_length _ _ _ _ _ _ _ Hpre Hlen) as Hst0.
    fold st in Hst0. destruct Hpre as [_ _ Hext Hhk [Hn _] Hpay].
    apply checkpoint_holds; [|done|lia|done|done|].
    + apply lor_u8; [destruct Hy as [->|(hk & Hh & ->)]; [unfold is_u8; lia|auto]|].
      destruct Hx as [->| ->]; [unfold is_u8; lia|done].
    + specialize (Hpay _ Hst). eapply fits_no_overflow; [| |exact Hfit]; lia.
Qed.

(** ** Names of stored files *)

Lemma sha_name_roundtrip m :
  let sha := kv_store_sha1_bytes_hex m in
  kv_store_sha_hex_name (take 40 sha ++ bs ".kv") = Some sha.
Proof.
  cbn zeta. destruct (sha1_hex_format m) as [Hl Hf]. set (sha := kv_store_sha1_bytes_hex m) in *.
  rewrite take_ge by lia. unfold kv_store_sha_hex_name.
  rewrite length_app, Hl, drop_app_exact, take_app_exact by done. simpl.
  assert (Hx : forallb isxdigit sha = true).
  { apply forallb_forall. intros c Hc%list_elem_of_In. eapply Forall_forall in Hf; [|exact Hc].
    unfold is_hex_lower in Hf. unfold isxdigit, isdigit. lia. }
  rewrite Hx. f_equal. clearbody sha. clear Hl Hx. induction Hf as [|c l Hc _ IH]; [done|]. csimpl.
  rewrite IH. f_equal. unfold tolower, isupper. unfold is_hex_lower in Hc.
  destruct ((65 <=? c) && (c <=? 90)) eqn:E; lia.
Qed.

Lemma byte_prefix_match_app text suffix : kv_store_byte_prefix_match (text ++ suffix) text = true.
Proof.
  unfold kv_store_byte_prefix_match. rewrite length_app, take_app_length, bytes_eqb_refl, orb_true_r.
  destruct (Nat.leb_spec (length text) (length text + length suffix)); [done|lia].
Qed.

Lemma load_check_ok data hdr text rest suffix model :
  kv_store_read_header data = Some (hdr, Z.of_nat (length text), text ++ rest) →
  e_model_id hdr = u8 model →
  load_check data (text ++ suffix) (kv_store_sha1_bytes_hex text) model
  = inl (hdr, Z.of_nat (length text), rest).
Proof.
  intros Hr Hm. unfold load_check. rewrite Hr, Hm, Z.eqb_refl. simpl. rewrite Z.gtb_ltb.
  rewrite length_app. destruct (Z.ltb_spec (Z.of_nat (length text + length suffix)) (Z.of_nat (length text))); [lia|].
  unfold fread. rewrite Nat2Z.id, length_app.
  destruct (Nat.leb_spec (length text) (length text + length rest)); [|lia].
  rewrite take_app_length, drop_app_length, bytes_eqb_refl. simpl.
  by rewrite byte_prefix_match_app.
Qed.

Section load.
Context `{!ReadDir}.
Context (exp2 : spec_float → spec_float) (io : store_io) (kc : kv_store) (files : fs)
  (sv : session_view) (v : list Z) (len : Z) (reason : option bytes) (override : option bytes)
  (ext : Z) (hooks : option kv_store_trailer_hooks) (sl : session_loader).

Local Abbreviation st := (kv_store_tokens_copy_prefix (Some v) len).
Local Abbreviation text := (store_text sv override st).
Local Abbreviation sha := (kv_store_sha1_bytes_hex text).
Local Abbreviation path := (kv_store_path_for_sha (kc_dir kc) sha).
Local Abbreviation r :=
  (kv_store_store_live_prefix_text exp2 io kc files sv (Some v) len reason override ext hooks).

(** The loading session is the storing one, and a payload loads as the tokens
    that were staged. *)
Record same_session : Prop := {
  ss_ctx : sl_ctx sl = sv_ctx sv;
  ss_quant : sl_quant_bits sl = sv_quant_bits sv;
  ss_model : sl_model_id sl = sv_model_id sv;
  ss_load : ∀ payload rest, sv_stage sv = inr payload →
  sl_load sl (payload ++ rest) (Z.of_nat (length payload)) = (true, Some st, rest);
  }.

(** The only entry of the directory after the store that covers as much text as
    the new checkpoint is the new checkpoint. *)
Lemma longest_is_new e b :
  sr_ok r = true → kv_store_read_entry_file (sr_files r) path sha = Some e →
  (∀ e', cache_entry (kc_dir kc) files e' → e_text_bytes e' < Z.of_nat (length text)) →
  cache_entry (kc_dir kc) (sr_files r) b → Z.of_nat (length text) <= e_text_bytes b → b = e.
Proof.
  intros Hok He Hshort (name & sha' & Hn & Hb) Hlong.
  pose proof (read_entry_file_inv _ _ _ _ Hb) as (Hp & _ & data & Hd & _).
  destruct (decide (kv_store_path_join (kc_dir kc) name = path)) as [Heq|Hne].
  - apply path_join_inj in Heq as ->. rewrite sha_name_roundtrip in Hn. injection Hn as <-.
  assert (Some b = Some e) as Heq by (rewrite <- Hb; exact He). by injection Heq.
  - exfalso. pose proof (store_tmp_ne path (si_pid io)).
  destruct (store_effect exp2 io kc files sv (Some v) len reason override ext hooks) as (Ho & _ & Ht).
  destruct (decide (kv_store_path_join (kc_dir kc) name = store_tmp path (si_pid io))) as [Heq|Hnt].
  + rewrite Heq in Hd. unfold store_tmp, kv_store_path_for_sha in Heq.
    rewrite (path_join_nil _ name), (path_join_nil _ (take 40 _ ++ _)) in Heq.
    rewrite <- (assoc_L (++)) in Heq. apply app_inv_head in Heq. subst name.
    destruct (sha1_hex_format text) as [Hl _].
    unfold kv_store_sha_hex_name in Hn. rewrite !length_app, length_take, Hl in Hn. done.
  + destruct (Ho _ Hne Hnt) as [Hsame|[Hnone _]]; [|by rewrite Hnone in Hd].
    specialize (Hshort b). rewrite (read_entry_file_ext files) in Hb by done.
    assert (e_text_bytes b < Z.of_nat (length text)) by (apply Hshort; by exists name, sha'). lia.
Qed.

(** A lookup right after the store picks the new checkpoint. *)
Lemma find_new e kc' suffix :
  kc_enabled kc' = true → kc_dir kc' = kc_dir kc → sr_ok r = true →
  is_Some (readdir (kc_dir kc) (sr_files r)) →
  kv_store_read_entry_file (sr_files r) path sha = Some e →
  e_text_bytes e = Z.of_nat (length text) →
  (∀ e', cache_entry (kc_dir kc) files e' → e_text_bytes e' < Z.of_nat (length text)) →
  usable (kv_cache_refresh kc' (sr_files r)) (text ++ suffix) (sl_model_id sl) (sl_quant_bits sl)
  (sl_ctx sl) e = true →
  ∃ i, kv_store_find_text_prefix kc' (sr_files r) (Some (text ++ suffix)) (sl_model_id sl)
       (sl_quant_bits sl) (sl_ctx sl) = (Z.of_nat i, kv_cache_refresh kc' (sr_files r))
     ∧ kc_entry (kv_cache_refresh kc' (sr_files r)) !! i = Some e.
Proof.
  intros Hen Hdir Hok Hrd He Het Hshort Hu.
  destruct (kv_store_find_text_prefix _ _ _ _ _ _) as [idx k] eqn:Ef.
  assert (Hin : e ∈ kc_entry (kv_cache_refresh kc' (sr_files r))).
  { apply elem_of_refresh; [done|by rewrite Hdir|]. rewrite Hdir.
  exists (take 40 sha ++ bs ".kv"), sha. split; [apply sha_name_roundtrip|done]. }
  destruct (find_text_prefix_best _ _ _ _ _ _ _ _ Ef) as (-> & [[_ Hno]|(i & b & -> & Hi & Hub & Hmax)]).
  { by rewrite Hno in Hu. }
  exists i. split; [done|]. specialize (Hmax e Hin Hu). rewrite Hi. f_equal.
  eapply longest_is_new; try done.
  - rewrite <- Hdir. apply elem_of_refresh; [done|by rewrite Hdir|]. by eapply list_elem_of_lookup_2.
  - unfold dominated in Hmax. lia.
Qed.

End load.

(** ** Witnesses *)

#[local] Transparent kv_store_sha1_bytes_hex.

Definition demo_sv : session_view :=
  SessionView (Some [65; 66; 67]) 4096 2 0 (λ t, [t]) (inr [9; 8; 7]).

Definition demo_io : store_io :=
  StoreIO (TrailerIO true true true true [] 60) (λ _, true) 50 60 1234 true true true true true
    true true [] true [] None.

Definition demo_store : kv_store :=
  KvStore true (bs "/c") 10000 false (KvOptions 2 30000 10000 32 2048) 0 [].

Definition demo_loader : session_loader :=
  SessionLoader 4096 2 0 (λ fp n, (true, Some [65; 66; 67], drop (Z.to_nat n) fp)) (λ s, s).

Lemma demo_pre : store_pre demo_io demo_store demo_sv [65; 66; 67] 0 None.
Proof.
  constructor; unfold is_u8, is_u64; simpl; try lia; try done. intros p [= <-]. simpl. lia.
Qed.

(** Witness: the three tokens are stored as the text "ABC". *)
Lemma store_success_readable_witness :
  let r := kv_store_store_live_prefix_text (λ _, dbl 1) demo_io demo_store ∅ demo_sv
             (Some [65; 66; 67]) 3 (Some (bs "cold")) None 0 None in
  ∃ e, kv_store_read_entry_file (sr_files r)
         (kv_store_path_for_sha (bs "/c") (kv_store_sha1_bytes_hex (bs "ABC")))
         (kv_store_sha1_bytes_hex (bs "ABC")) = Some e ∧ e_text_bytes e = 3.
Proof.
  destruct (store_success_readable (λ _, dbl 1) demo_io demo_store ∅ demo_sv [65; 66; 67] 3
    (Some (bs "cold")) None 0 None demo_pre) as (e & He & Ht & _).
  - intros p d. by rewrite lookup_empty.
  - vm_compute. reflexivity.
  - exists e. split; [exact He|exact Ht].
Defined.

