(* ===== verification/Strtod.v ===== *)
(** * [strtod]

    The C library function that [json_number] of [engine/src/server.c] calls, in
    the "C" locale: white space, sign, infinities and NaNs in any letter case,
    hexadecimal and decimal numbers, rounded to the nearest binary64 number.
    A double is a [spec_float] of the Standard Library. *)
From S2P Require Import Prelude CLib.
From Stdlib Require Import SpecFloat.

(** The binary64 number nearest to an integer times a power of two. *)
Definition b64 (m e : Z) : spec_float := binary_normalize 53 1024 m e false.

Definition digit_value (c : Z) : Z :=
  if isdigit c then c - 48 else if 97 <=? c then c - 87 else c - 55.

(** The longest run of digits of a class: its value in the base, how many, and
    the rest. *)
Fixpoint scan_run (cls : Z → bool) (base acc : Z) (n : nat) (s : bytes) : Z * nat * bytes :=
  match s with
  | c :: r => if cls c then scan_run cls base (acc * base + digit_value c) (S n) r else (acc, n, s)
  | [] => (acc, n, [])
  end.

(** Digits with an optional fraction: the digits as an integer, how many there
    are in all and after the point, and the rest.  The point is consumed only
    when some digit is around it. *)
Definition scan_mantissa (cls : Z → bool) (base : Z) (s : bytes) : Z * nat * nat * bytes :=
  let '(m, n, s1) := scan_run cls base 0 0 s in
  match s1 with
  | c :: s2 =>
      if c =? 46 then
        let '(m', n', s3) := scan_run cls base m 0 s2 in
        if (n + n' =? 0)%nat then (0, 0%nat, 0%nat, s) else (m', (n + n')%nat, n', s3)
      else (m, n, 0%nat, s1)
  | [] => (m, n, 0%nat, s1)
  end.

(** An exponent: the marker (lower case), a sign and digits, or nothing. *)
Definition scan_exponent (marker : Z) (s : bytes) : Z * bytes :=
  match s with
  | c :: s1 =>
      if tolower c =? marker then
        let '(sg, s2) := scan_sign s1 in
        let '(e, n, s3) := scan_run isdigit 10 0 0 s2 in
        if (n =? 0)%nat then (0, s) else (match sg with Pos => e | Neg => - e end, s3)
      else (0, s)
  | [] => (0, s)
  end.

(** [m * 10^e] rounded once: large and tiny values are decided by their
    magnitude, a negative power by a quotient of more than 64 bits whose last
    bit records whether the division was exact. *)
Definition round_decimal (m : Z) (ndigits : nat) (e : Z) : spec_float :=
  if m =? 0 then S754_zero false
  else if e >? 400 then S754_infinity false
  else if e + Z.of_nat ndigits <? -400 then S754_zero false
  else if 0 <=? e then b64 (m * 10 ^ e) 0
  else
    let d := 10 ^ (- e) in
    let k := Z.max 0 (Z.log2 d - Z.log2 m + 66) in
    let q := Z.shiftl m k / d in
    let sticky := if Z.shiftl m k mod d =? 0 then 0 else 1 in
    b64 (2 * q + sticky) (- k - 1).

Definition apply_sign (sg : sign) (x : spec_float) : spec_float :=
  match sg with Pos => x | Neg => SFopp x end.

(** Case-insensitive literal: what follows it. *)
Fixpoint strip_nocase (lit s : bytes) : option bytes :=
  match lit, s with
  | [], _ => Some s
  | a :: lit', c :: s' => if a =? tolower c then strip_nocase lit' s' else None
  | _ :: _, [] => None
  end.

Definition isalnum_ (c : Z) : bool :=
  isdigit c || ((97 <=? tolower c) && (tolower c <=? 122)) || (c =? 95).

(** The optional [(chars)] after [nan]. *)
Definition skip_nan_chars (s : bytes) : bytes :=
  match s with
  | c :: s1 => if c =? 40 then
                 match drop_while isalnum_ s1 with
                 | d :: s2 => if d =? 41 then s2 else s
                 | [] => s
                 end
               else s
  | [] => s
  end.

(** [0x] with a hexadecimal digit behind it (and behind an optional point). *)
Definition hex_start (s : bytes) : option bytes :=
  match s with
  | a :: b :: s1 =>
      if (a =? 48) && (tolower b =? 120) then
        let '(_, n, _, _) := scan_mantissa isxdigit 16 s1 in
        if (n =? 0)%nat then None else Some s1
      else None
  | _ => None
  end.

(** [strtod(s, &end)]: the value and [end]; [None] when nothing is converted. *)
Definition strtod (s : bytes) : option (spec_float * bytes) :=
  let '(sg, s1) := scan_sign (skip_space s) in
  match strip_nocase (bs "infinity") s1 with
  | Some r => Some (apply_sign sg (S754_infinity false), r)
  | None =>
  match strip_nocase (bs "inf") s1 with
  | Some r => Some (apply_sign sg (S754_infinity false), r)
  | None =>
  match strip_nocase (bs "nan") s1 with
  | Some r => Some (S754_nan, skip_nan_chars r)
  | None =>
  match hex_start s1 with
  | Some s2 =>
      let '(m, _, f, s3) := scan_mantissa isxdigit 16 s2 in
      let '(e, r) := scan_exponent 112 s3 in
      Some (apply_sign sg (if m =? 0 then S754_zero false else b64 m (e - 4 * Z.of_nat f)), r)
  | None =>
      let '(m, n, f, s3) := scan_mantissa isdigit 10 s1 in
      if (n =? 0)%nat then None
      else
        let '(e, r) := scan_exponent 101 s3 in
        Some (apply_sign sg (round_decimal m n (e - Z.of_nat f)), r)
  end end end end.

(** The integer part of a double, toward zero. *)
Definition sf_trunc (x : spec_float) : Z :=
  match x with
  | S754_finite s m e =>
      let a := if 0 <=? e then Z.shiftl (Z.pos m) e else Z.shiftr (Z.pos m) (- e) in
      if s then - a else a
  | _ => 0
  end.

Example strtod_42 : strtod (bs " 42,") = Some (b64 42 0, bs ",").
Proof. vm_compute. reflexivity. Qed.

Example strtod_frac : strtod (bs "0.1") = Some (SFdiv 53 1024 (b64 1 0) (b64 10 0), []).
Proof. vm_compute. reflexivity. Qed.

Example strtod_point : strtod (bs ".") = None ∧ strtod (bs "1.e+") = Some (b64 1 0, bs "e+").
Proof. vm_compute. split; reflexivity. Qed.

Example strtod_hex : strtod (bs "-0x1.8p1 ") = Some (b64 (-3) 0, bs " ").
Proof. vm_compute. reflexivity. Qed.

Example strtod_tiny :
  strtod (bs "4.9e-324") = Some (S754_finite false 1 (-1074), [])
  ∧ strtod (bs "1e400") = Some (S754_infinity false, []).
Proof. vm_compute. split; reflexivity. Qed.
