(* ===== verification/Json.v ===== *)
(** * The JSON reader and writer of the server

    Model of the cursor-based JSON functions of [engine/src/server.c]:
    [json_ws], [json_lit], [json_hex], [utf8_put], [json_u16], [json_string],
    [json_number], [json_int], [json_bool], the depth-limited skipper,
    [json_raw_value], [json_minify_raw_value], [json_content] and the escaping
    writer.  A cursor is the bytes from it to the terminator; a reader returns
    its value and the new cursor, or [None] where the code returns false (the
    callers never use the cursor after a failure).  A string result is the C
    string of the built buffer, so it stops at a NUL that an escape put there.

    The loops over objects and arrays that the request parsers share are
    [obj_loop] and [arr_loop]. *)
From S2P Require Import Prelude CLib Strtod.
From Stdlib Require Import SpecFloat.

(** ** Tokens *)

Definition json_ws (s : bytes) : bytes := drop_while isspace s.

Definition json_lit (lit s : bytes) : option bytes := strip_prefix lit s.

Definition json_hex (c : Z) : Z :=
  if (48 <=? c) && (c <=? 57) then c - 48
  else if (97 <=? c) && (c <=? 102) then 10 + c - 97
  else if (65 <=? c) && (c <=? 70) then 10 + c - 65
  else -1.

(** The bytes [utf8_put] appends. *)
Definition utf8_put (cp : Z) : bytes :=
  let cp := if (cp >? 0x10ffff) || ((0xd800 <=? cp) && (cp <=? 0xdfff)) then 0xfffd else cp in
  if cp <=? 0x7f then [cp]
  else if cp <=? 0x7ff then
    [Z.lor 0xc0 (Z.shiftr cp 6); Z.lor 0x80 (Z.land cp 0x3f)]
  else if cp <=? 0xffff then
    [Z.lor 0xe0 (Z.shiftr cp 12); Z.lor 0x80 (Z.land (Z.shiftr cp 6) 0x3f);
     Z.lor 0x80 (Z.land cp 0x3f)]
  else
    [Z.lor 0xf0 (Z.shiftr cp 18); Z.lor 0x80 (Z.land (Z.shiftr cp 12) 0x3f);
     Z.lor 0x80 (Z.land (Z.shiftr cp 6) 0x3f); Z.lor 0x80 (Z.land cp 0x3f)].

(** The loop of [json_u16] over [n] hexadecimal digits. *)
Fixpoint hex_digits (n : nat) (cp : Z) (s : bytes) : option (Z * bytes) :=
  match n with
  | O => Some (cp, s)
  | S n' =>
      let h := json_hex (hd0 s) in
      if h <? 0 then None else hex_digits n' (Z.lor (Z.shiftl cp 4) h) (tl0 s)
  end.

Definition json_u16 (s : bytes) : option (Z * bytes) :=
  match strip_prefix [92; 117] s with
  | None => None
  | Some r => hex_digits 4 0 r
  end.

(** The [u] escape with its surrogate pair; [s] is at the backslash. *)
Definition json_unicode (s : bytes) : option (Z * bytes) :=
  '(cp, r) ← json_u16 s;
  Some (if (0xd800 <=? cp) && (cp <=? 0xdbff) then
          match json_u16 r with
          | Some (lo, r') =>
              if (0xdc00 <=? lo) && (lo <=? 0xdfff)
              then (0x10000 + Z.shiftl (cp - 0xd800) 10 + (lo - 0xdc00), r')
              else (0xfffd, r)
          | None => (0xfffd, r)
          end
        else (cp, r)).

(** The character a one-letter escape stands for. *)
Definition simple_escape (c : Z) : option Z :=
  if c =? 34 then Some 34
  else if c =? 92 then Some 92
  else if c =? 47 then Some 47
  else if c =? 98 then Some 8
  else if c =? 102 then Some 12
  else if c =? 110 then Some 10
  else if c =? 114 then Some 13
  else if c =? 116 then Some 9
  else None.

(** The characters of a string up to the closing quote, and the cursor after
    it.  Every iteration consumes a byte, so the length is enough fuel. *)
Fixpoint json_string_body (fuel : nat) (b s : bytes) : option (bytes * bytes) :=
  match fuel, s with
  | S fuel', c :: r =>
      if c =? 34 then Some (b, r)
      else if negb (c =? 92) then json_string_body fuel' (b ++ [c]) r
      else match r with
      | [] => None
      | d :: r' =>
          if d =? 117 then
            match json_unicode s with
            | Some (cp, r'') => json_string_body fuel' (b ++ utf8_put cp) r''
            | None => None
            end
          else match simple_escape d with
          | Some x => json_string_body fuel' (b ++ [x]) r'
          | None => None
          end
      end
  | _, _ => None
  end.

Definition json_string (s : bytes) : option (bytes * bytes) :=
  match json_ws s with
  | c :: r =>
      if c =? 34 then
        '(b, r') ← json_string_body (length r) [] r;
        Some (c_str b, r')
      else None
  | [] => None
  end.

Definition json_number (s : bytes) : option (spec_float * bytes) := strtod (json_ws s).

(** [(v >= 0) ? v : 0] clamped to [INT_MAX], then the cast. *)
Definition json_int (s : bytes) : option (Z * bytes) :=
  '(v, r) ← json_number s;
  let v := if negb (SFleb (b64 0 0) v) then b64 0 0 else v in
  let v := if SFltb (b64 INT_MAX 0) v then b64 INT_MAX 0 else v in
  Some (sf_trunc v, r).

Definition json_bool (s : bytes) : option (bool * bytes) :=
  let s := json_ws s in
  match json_lit (bs "true") s with
  | Some r => Some (true, r)
  | None => match json_lit (bs "false") s with
            | Some r => Some (false, r)
            | None => None
            end
  end.

(** ** Skipping a value *)

Definition JSON_MAX_NESTING : Z := 256.

(** [json_skip_value_depth], [json_skip_array_depth] and
    [json_skip_object_depth] with their loops.  [fuel] bounds the calls. *)
Fixpoint json_skip_value_depth (fuel : nat) (depth : Z) (s : bytes) : option bytes :=
  match fuel with
  | O => None
  | S fuel' =>
      let s := json_ws s in
      let c := hd0 s in
      if c =? 34 then snd <$> json_string s
      else if c =? 123 then json_skip_object_depth fuel' depth s
      else if c =? 91 then json_skip_array_depth fuel' depth s
      else match json_lit (bs "true") s with
      | Some r => Some r
      | None =>
      match json_lit (bs "false") s with
      | Some r => Some r
      | None =>
      match json_lit (bs "null") s with
      | Some r => Some r
      | None => snd <$> json_number s
      end end end
  end
with json_skip_array_depth (fuel : nat) (depth : Z) (s : bytes) : option bytes :=
  match fuel with
  | O => None
  | S fuel' =>
      if depth >=? JSON_MAX_NESTING then None
      else
        let s := json_ws s in
        if negb (hd0 s =? 91) then None
        else
          let s := json_ws (tl0 s) in
          if hd0 s =? 93 then Some (tl0 s) else json_skip_array_loop fuel' depth s
  end
with json_skip_array_loop (fuel : nat) (depth : Z) (s : bytes) : option bytes :=
  match fuel with
  | O => None
  | S fuel' =>
      s ← json_skip_value_depth fuel' (depth + 1) s;
      let s := json_ws s in
      if hd0 s =? 93 then Some (tl0 s)
      else if negb (hd0 s =? 44) then None
      else json_skip_array_loop fuel' depth (tl0 s)
  end
with json_skip_object_depth (fuel : nat) (depth : Z) (s : bytes) : option bytes :=
  match fuel with
  | O => None
  | S fuel' =>
      if depth >=? JSON_MAX_NESTING then None
      else
        let s := json_ws s in
        if negb (hd0 s =? 123) then None
        else
          let s := json_ws (tl0 s) in
          if hd0 s =? 125 then Some (tl0 s) else json_skip_object_loop fuel' depth s
  end
with json_skip_object_loop (fuel : nat) (depth : Z) (s : bytes) : option bytes :=
  match fuel with
  | O => None
  | S fuel' =>
      '(_, s) ← json_string s;
      let s := json_ws s in
      if negb (hd0 s =? 58) then None
      else
        s ← json_skip_value_depth fuel' (depth + 1) (tl0 s);
        let s := json_ws s in
        if hd0 s =? 125 then Some (tl0 s)
        else if negb (hd0 s =? 44) then None
        else json_skip_object_loop fuel' depth (tl0 s)
  end.

(** Between two consumed bytes there are at most two nested calls. *)
Definition skip_fuel (s : bytes) : nat := (3 * length s + 3)%nat.

Definition json_skip_value (s : bytes) : option bytes := json_skip_value_depth (skip_fuel s) 0 s.

(** ** Raw values *)

(** [memcpy(out, start, end - start)] for two cursors of one string. *)
Definition span (start end_ : bytes) : bytes := take (length start - length end_) start.

Definition json_raw_value (s : bytes) : option (bytes * bytes) :=
  let start := json_ws s in
  s' ← json_skip_value start;
  Some (c_str (span start s'), s').

(** The loop of [json_minify_raw_value]. *)
Fixpoint minify_loop (in_string escape : bool) (s : bytes) : bytes :=
  match s with
  | [] => []
  | c :: r =>
      if in_string then
        c :: (if escape then minify_loop true false r
              else if c =? 92 then minify_loop true true r
              else minify_loop (negb (c =? 34)) false r)
      else if c =? 34 then c :: minify_loop true escape r
      else if negb (isspace c) then c :: minify_loop false escape r
      else minify_loop false escape r
  end.

Definition json_minify_raw_value (json : option bytes) : bytes :=
  let p := default (bs "null") json in
  let start := json_ws p in
  match json_skip_value start with
  | None => p
  | Some end_ => minify_loop false false (span start end_)
  end.

(** ** Object and array loops *)

Section loops.
Context {A : Type}.

(** White space, an optional comma, white space. *)
Definition skip_comma (s : bytes) : bytes :=
  let s := json_ws s in
  json_ws (if hd0 s =? 44 then tl0 s else s).

(** Until the closing brace: read a key and a colon, hand the key and the
  cursor to [field], skip a comma.  The end of the string is an error. *)
Fixpoint obj_loop (field : bytes → A → bytes → option (A * bytes)) (fuel : nat) (st : A)
    (s : bytes) : option (A * bytes) :=
  match fuel with
  | O => None
  | S fuel' =>
      if hd0 s =? 125 then Some (st, tl0 s)
      else if hd0 s =? 0 then None
      else
        '(key, s) ← json_string s;
        let s := json_ws s in
        if negb (hd0 s =? 58) then None
        else
          '(st, s) ← field key st (tl0 s);
          obj_loop field fuel' st (skip_comma s)
  end.

(** The opening brace, white space and the loop. *)
Definition json_object (field : bytes → A → bytes → option (A * bytes)) (st : A) (s : bytes)
    : option (A * bytes) :=
  if negb (hd0 s =? 123) then None
  else
    let s := json_ws (tl0 s) in
    obj_loop field (S (length s)) st s.

(** The same over the elements of an array. *)
Fixpoint arr_loop (elem : A → bytes → option (A * bytes)) (fuel : nat) (st : A) (s : bytes)
    : option (A * bytes) :=
  match fuel with
  | O => None
  | S fuel' =>
      if hd0 s =? 93 then Some (st, tl0 s)
      else if hd0 s =? 0 then None
      else
        '(st, s) ← elem st s;
        arr_loop elem fuel' st (skip_comma s)
  end.

Definition json_array (elem : A → bytes → option (A * bytes)) (st : A) (s : bytes)
    : option (A * bytes) :=
  if negb (hd0 s =? 91) then None
  else
    let s := json_ws (tl0 s) in
    arr_loop elem (S (length s)) st s.
End loops.

(** A field that is skipped. *)
Definition skip_field {A} (st : A) (s : bytes) : option (A * bytes) :=
  s ← json_skip_value s; Some (st, s).

(** ** Message content *)

Definition content_field (key b s : bytes) : option (bytes * bytes) :=
  if bytes_eqb key (bs "text") then
    '(t, s) ← json_string s; Some (b ++ t, s)
  else skip_field b s.

Definition content_elem (b s : bytes) : option (bytes * bytes) :=
  if hd0 s =? 34 then '(t, s) ← json_string s; Some (b ++ t, s)
  else if hd0 s =? 123 then json_object content_field b s
  else skip_field b s.

Definition json_content (s : bytes) : option (bytes * bytes) :=
  let s := json_ws s in
  if hd0 s =? 34 then json_string s
  else match json_lit (bs "null") s with
  | Some r => Some ([], r)
  | None =>
      if negb (hd0 s =? 91) then
        s ← json_skip_value s; Some ([], s)
      else json_array content_elem [] s
  end.

(** ** Writing *)

Definition hex4 (c : Z) : bytes :=
  (λ sh, nth (Z.to_nat (Z.land (Z.shiftr c sh) 15)) (bs "0123456789abcdef") 0) <$> [12; 8; 4; 0].

Definition escape_char (c : Z) : bytes :=
  if (c =? 34) || (c =? 92) then [92; c]
  else if c =? 10 then [92; 110]
  else if c =? 13 then [92; 114]
  else if c =? 9 then [92; 116]
  else if c <? 32 then [92; 117] ++ hex4 c
  else [c].

(** [json_escape] of a C string, [json_escape_n] and [json_escape_fragment_n]. *)
Definition json_escape (s : bytes) : bytes := [34] ++ (s ≫= escape_char) ++ [34].

Definition json_escape_n (s : option bytes) (n : nat) : bytes :=
  json_escape (c_str (take n (default [] s))).

Definition json_escape_fragment_n (s : bytes) (n : nat) : bytes := take n s ≫= escape_char.
