(* ===== verification/JsonProps.v ===== *)
(** * Correctness of the JSON reader

    Theorems about the model of [Json]: reading an escaped string gives the
    string back; the skipper consumes exactly one value, accepts every value
    whose nesting is within the limit and rejects the others, and does not
    depend on the fuel it is given. *)
From S2P Require Import Prelude CLib Strtod Json.
From Stdlib Require Import SpecFloat.

(** ** What the readers consume *)

Lemma json_ws_length s : (length (json_ws s) <= length s)%nat.
Proof. apply drop_while_length. Qed.

Lemma json_ws_idem s : json_ws (json_ws s) = json_ws s.
Proof.
  unfold json_ws. apply drop_while_stop. intros c r H. by eapply drop_while_head.
Qed.

Lemma json_ws_stop c r : isspace c = false → json_ws (c :: r) = c :: r.
Proof. intros H. unfold json_ws. simpl. by rewrite H. Qed.

Lemma tl0_length s : hd0 s ≠ 0 → length s = S (length (tl0 s)).
Proof. by destruct s. Qed.

Lemma strip_prefix_length lit s r :
  strip_prefix lit s = Some r → length s = (length lit + length r)%nat.
Proof. intros ->%strip_prefix_Some. by rewrite length_app. Qed.

Lemma hex_digits_length n cp s v r :
  hex_digits n cp s = Some (v, r) → length s = (n + length r)%nat.
Proof.
  revert cp s; induction n as [|n IH]; intros cp s; simpl; [naive_solver|].
  destruct s as [|c s]; simpl; [done|]. case_if; [done|]. intros H%IH. lia.
Qed.

Lemma json_unicode_length s v r : json_unicode s = Some (v, r) → (length r < length s)%nat.
Proof.
  assert (Hu : ∀ s v r, json_u16 s = Some (v, r) → (length r < length s)%nat).
  { clear. intros s v r. unfold json_u16. destruct (strip_prefix _ s) as [r'|] eqn:E; [|done].
    intros H%hex_digits_length. apply strip_prefix_length in E. simpl in E. lia. }
  unfold json_unicode. destruct (json_u16 s) as [[cp r1]|] eqn:E1; [|done]. simpl.
  apply Hu in E1. intros [= H].
  destruct (_ && _); [|by simplify_eq].
  destruct (json_u16 r1) as [[lo r2]|] eqn:E2; [|by simplify_eq].
  apply Hu in E2. case_if_in H; simplify_eq; lia.
Qed.

Lemma json_string_body_length fuel b s v r :
  json_string_body fuel b s = Some (v, r) → (length r < length s)%nat.
Proof.
  revert b s; induction fuel as [|fuel IH]; intros b s; [done|].
  destruct s as [|c s]; [done|]. cbn [json_string_body].
  case_if; [intros [= <- <-]; simpl; lia|]. case_if; [intros H%IH; simpl; lia|].
  destruct s as [|d s]; [done|]. case_if.
  - destruct (json_unicode _) as [[cp r']|] eqn:Eu; [|done]. intros H%IH.
    apply json_unicode_length in Eu. lia.
  - destruct (simple_escape d); [|done]. intros H%IH. simpl. lia.
Qed.

Lemma json_string_length s v r : json_string s = Some (v, r) → (length r < length s)%nat.
Proof.
  unfold json_string. pose proof (json_ws_length s) as Hw. destruct (json_ws s) as [|c s1]; [done|].
  case_if; [|done]. destruct (json_string_body _ _ _) as [[b r']|] eqn:Eb; [|done].
  intros [= <- <-]. apply json_string_body_length in Eb. simpl in Hw. lia.
Qed.

(** The fuel of a string is enough: more does not change the result. *)
Lemma json_string_body_fuel fuel b s :
  (length s <= fuel)%nat → json_string_body fuel b s = json_string_body (length s) b s.
Proof.
  revert b s; induction (lt_wf fuel) as [fuel _ IH]; intros b s Hf.
  destruct fuel as [|fuel]; [destruct s; [done|simpl in Hf; lia]|].
  destruct s as [|c s]; [done|]. cbn [json_string_body length].
  case_if; [done|]. simpl in Hf. case_if; [apply IH; lia|].
  destruct s as [|d s]; [done|]. case_if.
  - destruct (json_unicode _) as [[cp r']|] eqn:Eu; [|done].
    apply json_unicode_length in Eu. simpl in Eu, Hf.
    rewrite (IH fuel) by lia. rewrite (IH (length (d :: s))) by (simpl; lia). done.
  - destruct (simple_escape d); [|done]. simpl in Hf.
    rewrite (IH fuel) by lia. rewrite (IH (length (d :: s))) by (simpl; lia). done.
Qed.

Lemma scan_run_length cls base acc n s m n' r :
  scan_run cls base acc n s = (m, n', r) → (n' + length r = n + length s)%nat.
Proof.
  revert acc n; induction s as [|c s IH]; intros acc n; simpl; [intros; by simplify_eq|].
  destruct (cls c); [intros H%IH; lia|intros; by simplify_eq].
Qed.

Lemma scan_mantissa_length cls base s m n f r :
  scan_mantissa cls base s = (m, n, f, r) → (n + length r <= length s)%nat.
Proof.
  unfold scan_mantissa. destruct (scan_run cls base 0 0 s) as [[m1 n1] s1] eqn:E1.
  apply scan_run_length in E1. destruct s1 as [|c s2]; [intros; simplify_eq; lia|].
  case_if; [|intros; simplify_eq; lia].
  destruct (scan_run cls base m1 0 s2) as [[m2 n2] s3] eqn:E2. apply scan_run_length in E2.
  simpl in E1. case_if; intros; simplify_eq; lia.
Qed.

Lemma scan_sign_length s : (length (scan_sign s).2 <= length s)%nat.
Proof. unfold scan_sign. repeat case_match; simpl; lia. Qed.

Lemma scan_exponent_length k s e r : scan_exponent k s = (e, r) → (length r <= length s)%nat.
Proof.
  unfold scan_exponent. destruct s as [|c s]; [intros; by simplify_eq|].
  case_if; [|intros; by simplify_eq]. pose proof (scan_sign_length s) as Hs.
  destruct (scan_sign s) as [sg s2]. destruct (scan_run _ _ _ _ s2) as [[e' n] s3] eqn:E2.
  apply scan_run_length in E2. simpl in *. case_if; intros; simplify_eq; simpl; lia.
Qed.

Lemma strip_nocase_length lit s r :
  strip_nocase lit s = Some r → length s = (length lit + length r)%nat.
Proof.
  revert s; induction lit as [|a lit IH]; intros s; simpl; [by intros [= ->]|].
  destruct s as [|c s]; [done|]. case_if; [|done]. intros H%IH. simpl. lia.
Qed.

Lemma strtod_length s v r : strtod s = Some (v, r) → (length r < length s)%nat.
Proof.
  unfold strtod. pose proof (scan_sign_length (skip_space s)) as Hs.
  pose proof (skip_space_length s). destruct (scan_sign (skip_space s)) as [sg s1]. simpl in Hs.
  destruct (strip_nocase (bs "infinity") s1) as [r1|] eqn:E1.
  { apply strip_nocase_length in E1. intros. simplify_eq. simpl in E1. lia. }
  destruct (strip_nocase (bs "inf") s1) as [r2|] eqn:E2.
  { apply strip_nocase_length in E2. intros. simplify_eq. simpl in E2. lia. }
  destruct (strip_nocase (bs "nan") s1) as [r3|] eqn:E3.
  { apply strip_nocase_length in E3. intros. simplify_eq. simpl in E3.
    assert (length (skip_nan_chars r3) <= length r3)%nat; [|lia]. unfold skip_nan_chars.
    destruct r3 as [|c r3]; [done|]. case_if; [|done].
    pose proof (drop_while_length isalnum_ r3). destruct (drop_while isalnum_ r3); [done|].
    case_if; simpl in *; lia. }
  destruct (hex_start s1) as [s2|] eqn:E4.
  - assert (length s1 = 2 + length s2)%nat.
    { unfold hex_start in E4. destruct s1 as [|a [|b s1]]; [done..|]. case_if_in E4; [|done].
      destruct (scan_mantissa _ _ s1) as [[[? n] ?] ?]. case_if_in E4; [done|]. by simplify_eq. }
    destruct (scan_mantissa isxdigit 16 s2) as [[[m n] f] s3] eqn:E5. apply scan_mantissa_length in E5.
    destruct (scan_exponent 112 s3) as [e r'] eqn:E6. apply scan_exponent_length in E6.
    intros [= _ <-]. lia.
  - destruct (scan_mantissa isdigit 10 s1) as [[[m n] f] s3] eqn:E5. apply scan_mantissa_length in E5.
    destruct (Nat.eqb_spec n 0); [done|].
    destruct (scan_exponent 101 s3) as [e r'] eqn:E6. apply scan_exponent_length in E6.
    intros [= _ <-]. lia.
Qed.

Lemma json_number_length s v r : json_number s = Some (v, r) → (length r < length s)%nat.
Proof. intros H%strtod_length. pose proof (json_ws_length s). lia. Qed.

(** ** The skipper: consumption and fuel *)

#[local] Ltac skip_unfold :=
  cbn [json_skip_value_depth json_skip_array_depth json_skip_array_loop
       json_skip_object_depth json_skip_object_loop].

Lemma skip_consumes fuel :
  (∀ d s r, json_skip_value_depth fuel d s = Some r → (length r < length s)%nat)
  ∧ (∀ d s r, json_skip_array_depth fuel d s = Some r → (length r < length s)%nat)
  ∧ (∀ d s r, json_skip_array_loop fuel d s = Some r → (length r < length s)%nat)
  ∧ (∀ d s r, json_skip_object_depth fuel d s = Some r → (length r < length s)%nat)
  ∧ (∀ d s r, json_skip_object_loop fuel d s = Some r → (length r < length s)%nat).
Proof.
  induction fuel as [|fuel (IHv & IHa & IHal & IHo & IHol)]; [done|].
  assert (Htl : ∀ s, (length (tl0 s) <= length s)%nat) by (intros []; simpl; lia).
  split; [|split; [|split; [|split]]]; intros d s r; skip_unfold; pose proof (json_ws_length s) as Hw.
  - set (s1 := json_ws s) in *. case_if.
    { destruct (json_string s1) as [[b r']|] eqn:E1; [|done]. intros [= <-].
      apply json_string_length in E1. lia. }
    case_if; [intros H%IHo; lia|]. case_if; [intros H%IHa; lia|].
    unfold json_lit. destruct (strip_prefix (bs "true") s1) as [r1|] eqn:L1.
    { apply strip_prefix_length in L1. simpl in L1. intros [= <-]. lia. }
    destruct (strip_prefix (bs "false") s1) as [r1|] eqn:L2.
    { apply strip_prefix_length in L2. simpl in L2. intros [= <-]. lia. }
    destruct (strip_prefix (bs "null") s1) as [r1|] eqn:L3.
    { apply strip_prefix_length in L3. simpl in L3. intros [= <-]. lia. }
    destruct (json_number s1) as [[v r']|] eqn:E4; [|done]. intros [= <-].
    apply json_number_length in E4. lia.
  - case_if; [done|]. case_if; [done|]. bool_to_prop.
    pose proof (tl0_length (json_ws s) ltac:(lia)). pose proof (json_ws_length (tl0 (json_ws s))).
    case_if; [intros [= <-]|intros H'%IHal; lia]. pose proof (Htl (json_ws (tl0 (json_ws s)))). lia.
  - destruct (json_skip_value_depth fuel (d + 1) s) as [s1|] eqn:E1; [|done]. cbn [mbind option_bind].
    apply IHv in E1. pose proof (json_ws_length s1). pose proof (Htl (json_ws s1)).
    case_if; [intros [= <-]; lia|]. case_if; [done|]. intros H'%IHal. lia.
  - case_if; [done|]. case_if; [done|]. bool_to_prop.
    pose proof (tl0_length (json_ws s) ltac:(lia)). pose proof (json_ws_length (tl0 (json_ws s))).
    case_if; [intros [= <-]|intros H'%IHol; lia]. pose proof (Htl (json_ws (tl0 (json_ws s)))). lia.
  - destruct (json_string s) as [[k s1]|] eqn:E1; [|done]. cbn [mbind option_bind].
    apply json_string_length in E1. pose proof (json_ws_length s1). pose proof (Htl (json_ws s1)).
    case_if; [done|].
    destruct (json_skip_value_depth fuel (d + 1) _) as [s2|] eqn:E2; [|done]. cbn [mbind option_bind].
    apply IHv in E2. pose proof (json_ws_length s2). pose proof (Htl (json_ws s2)).
    case_if; [intros [= <-]; lia|]. case_if; [done|]. intros H'%IHol. lia.
Qed.

Lemma skip_value_length fuel d s r :
  json_skip_value_depth fuel d s = Some r → (length r < length s)%nat.
Proof. apply skip_consumes. Qed.

(** Two amounts of fuel above the bound give the same result. *)
Lemma skip_fuel_stable fuel :
  ∀ fuel' d s,
  ((3 * length s + 2 <= fuel)%nat → (3 * length s + 2 <= fuel')%nat →
   json_skip_value_depth fuel d s = json_skip_value_depth fuel' d s)
  ∧ ((3 * length s + 1 <= fuel)%nat → (3 * length s + 1 <= fuel')%nat →
     json_skip_array_depth fuel d s = json_skip_array_depth fuel' d s
     ∧ json_skip_object_depth fuel d s = json_skip_object_depth fuel' d s)
  ∧ ((3 * length s + 3 <= fuel)%nat → (3 * length s + 3 <= fuel')%nat →
     json_skip_array_loop fuel d s = json_skip_array_loop fuel' d s
     ∧ json_skip_object_loop fuel d s = json_skip_object_loop fuel' d s).
Proof.
  induction fuel as [|fuel IH]; intros fuel' d s; [split; [lia|split; lia]|].
  destruct fuel' as [|fuel']; [split; [lia|split; lia]|].
  assert (Htl : ∀ s, (length (tl0 s) <= length s)%nat) by (intros []; simpl; lia).
  split; [|split]; intros Hf Hf'; skip_unfold; pose proof (json_ws_length s) as Hw.
  - destruct (IH fuel' d (json_ws s)) as (_ & Hd & _). destruct Hd as [-> ->]; [lia..|]. done.
  - split; repeat (case_if; [done|]); bool_to_prop.
    all: pose proof (tl0_length (json_ws s) ltac:(lia)); pose proof (json_ws_length (tl0 (json_ws s))).
    all: apply (IH fuel' d (json_ws (tl0 (json_ws s)))); lia.
  - split.
    + rewrite (proj1 (IH fuel' (d + 1) s)) by lia.
      destruct (json_skip_value_depth fuel' (d + 1) s) as [s1|] eqn:E1; [|done]. cbn [mbind option_bind].
      apply skip_value_length in E1. pose proof (json_ws_length s1). pose proof (Htl (json_ws s1)).
      case_if; [done|]. case_if; [done|]. apply IH; lia.
    + destruct (json_string s) as [[k s1]|] eqn:E1; [|done]. cbn [mbind option_bind].
      apply json_string_length in E1. pose proof (json_ws_length s1). pose proof (Htl (json_ws s1)).
      case_if; [done|]. rewrite (proj1 (IH fuel' (d + 1) (tl0 (json_ws s1)))) by lia.
      destruct (json_skip_value_depth fuel' (d + 1) _) as [s2|] eqn:E2; [|done]. cbn [mbind option_bind].
      apply skip_value_length in E2. pose proof (json_ws_length s2). pose proof (Htl (json_ws s2)).
      case_if; [done|]. case_if; [done|]. apply IH; lia.
Qed.

(** ** Escaped strings *)

Lemma hex_digits_app n cp d t v :
  hex_digits n cp d = Some (v, []) → hex_digits n cp (d ++ t) = Some (v, t).
Proof.
  revert cp d; induction n as [|n IH]; intros cp d; simpl; [by intros [= -> ->]|].
  destruct d as [|c d]; simpl; [done|]. case_if; [done|]. apply IH.
Qed.

Lemma hex4_control c : 0 <= c < 32 → hex_digits 4 0 (hex4 c) = Some (c, []).
Proof.
  intros Hc.
  assert (H : forallb (λ c, bool_decide (hex_digits 4 0 (hex4 c) = Some (c, [])))
                (Z.of_nat <$> seq 0 32) = true) by (vm_compute; reflexivity).
  rewrite forallb_forall in H. specialize (H c).
  apply bool_decide_eq_true in H; [done|]. apply list_elem_of_In, list_elem_of_fmap.
  exists (Z.to_nat c). split; [lia|]. apply elem_of_seq. lia.
Qed.

Lemma utf8_put_ascii c : 0 <= c <= 127 → utf8_put c = [c].
Proof.
  intros Hc. unfold utf8_put.
  destruct (Z.gtb_spec c 0x10ffff); [lia|]. destruct (Z.leb_spec 0xd800 c); [lia|]. simpl.
  destruct (Z.leb_spec c 127); [done|lia].
Qed.

Lemma json_unicode_control c t :
  0 <= c < 32 → json_unicode ([92; 117] ++ hex4 c ++ t) = Some (c, t).
Proof.
  intros Hc. unfold json_unicode, json_u16. rewrite strip_prefix_app.
  rewrite (hex_digits_app _ _ _ t c) by (by apply hex4_control). cbn [mbind option_bind].
  destruct (Z.leb_spec 0xd800 c); [lia|done].
Qed.

(** A written character is read back as itself. *)
Lemma json_string_body_escape fuel b c t :
  is_u8 c → json_string_body (S fuel) b (escape_char c ++ t) = json_string_body fuel (b ++ [c]) t.
Proof.
  intros Hc. unfold escape_char, is_u8 in *.
  destruct ((c =? 34) || (c =? 92)) eqn:E1.
  { assert (c = 34 ∨ c = 92) as [-> | ->] by lia; reflexivity. }
  destruct (Z.eqb_spec c 10) as [->|]; [reflexivity|].
  destruct (Z.eqb_spec c 13) as [->|]; [reflexivity|].
  destruct (Z.eqb_spec c 9) as [->|]; [reflexivity|].
  destruct (Z.ltb_spec c 32).
  - rewrite <- (assoc_L (++)). pose proof (json_unicode_control c t ltac:(lia)) as Hu.
    cbn [app] in *. cbn [json_string_body]. rewrite Hu. simpl. by rewrite utf8_put_ascii by lia.
  - cbn [app json_string_body]. destruct (Z.eqb_spec c 34); [lia|].
    destruct (Z.eqb_spec c 92); [lia|done].
Qed.

Lemma escape_char_nonempty c : escape_char c ≠ [].
Proof. unfold escape_char. repeat case_if; done. Qed.

Lemma json_string_body_escaped s b rest fuel :
  is_bytes s → (length (s ≫= escape_char) < fuel)%nat →
  json_string_body fuel b ((s ≫= escape_char) ++ 34 :: rest) = Some (b ++ s, rest).
Proof.
  intros Hs; revert b fuel; induction Hs as [|c s Hc Hs IH]; intros b fuel Hf; csimpl.
  - destruct fuel; [csimpl in Hf; lia|]. cbn [app json_string_body]. by rewrite app_nil_r.
  - rewrite <- (assoc_L (++)). destruct fuel as [|fuel]; [csimpl in Hf; lia|].
    rewrite json_string_body_escape by done. csimpl in Hf. rewrite length_app in Hf.
    rewrite IH; [by rewrite <- (assoc_L (++))|].
    pose proof (escape_char_nonempty c). destruct (escape_char c); [done|]. simpl in Hf. lia.
Qed.

Lemma json_string_escape s rest :
  is_bytes s → Forall (λ c, c ≠ 0) s → json_string (json_escape s ++ rest) = Some (s, rest).
Proof.
  intros Hs Hn. unfold json_string, json_escape. cbn [app]. rewrite json_ws_stop by done. simpl.
  rewrite <- (assoc_L (++)). cbn [app].
  rewrite json_string_body_escaped; [|done|rewrite length_app; simpl; lia].
  simpl. by rewrite c_str_id.
Qed.

Lemma json_skip_value_escape s rest :
  is_bytes s → Forall (λ c, c ≠ 0) s → json_skip_value (json_escape s ++ rest) = Some rest.
Proof.
  intros Hs Hn. pose proof (json_string_escape s rest Hs Hn) as H.
  unfold json_escape in *. cbn [app] in *.
  unfold json_skip_value, skip_fuel. rewrite (Nat.add_comm _ 3). cbn [Nat.add]. skip_unfold.
  rewrite json_ws_stop by done. cbn [hd0 Z.eqb Pos.eqb]. by rewrite H.
Qed.

(** Reading a string the server wrote gives it back: for every NUL-free
    byte string, [json_string] on the output of [json_escape] followed by
    anything returns the string and stops right after it. *)
Theorem json_string_escape_roundtrip s rest
    (Hs : is_bytes s) (Hn : Forall (λ c, c ≠ 0) s) :
  json_string (json_escape s ++ rest) = Some (s, rest)
  ∧ json_content (json_escape s ++ rest) = Some (s, rest)
  ∧ json_skip_value (json_escape s ++ rest) = Some rest.
Proof.
  pose proof (json_string_escape s rest Hs Hn) as H. split; [done|].
  split; [|by apply json_skip_value_escape].
  unfold json_escape in *. cbn [app] in *. unfold json_content. by rewrite json_ws_stop.
Qed.

(** Witness: quotes, a backslash and control characters. *)
Lemma json_string_escape_roundtrip_witness :
  json_string (json_escape [34; 92; 10; 1; 31; 195; 169] ++ bs ", 1")
  = Some ([34; 92; 10; 1; 31; 195; 169], bs ", 1").
Proof.
  apply (json_string_escape_roundtrip [34; 92; 10; 1; 31; 195; 169] (bs ", 1")).
  - apply is_bytesb_ok. reflexivity.
  - repeat constructor; lia.
Defined.

(** ** Printed values *)

#[local] Set Warnings "-register-all".

(** A JSON value; a number is an optional minus and the text of its magnitude. *)
Inductive json :=
  | JNull
  | JBool (b : bool)
  | JNum (neg : bool) (d : bytes)
  | JStr (s : bytes)
  | JArr (l : list json)
  | JObj (l : list (bytes * json)).

(** Items separated by commas, then the closing bracket. *)
Fixpoint join_close (close : Z) (items : list bytes) : bytes :=
  match items with
  | [] => [close]
  | [x] => x ++ [close]
  | x :: items' => x ++ 44 :: join_close close items'
  end.

Fixpoint jprint (v : json) : bytes :=
  match v with
  | JNull => bs "null"
  | JBool true => bs "true"
  | JBool false => bs "false"
  | JNum neg d => (if neg then [45] else []) ++ d
  | JStr s => json_escape s
  | JArr l => 91 :: join_close 93 (jprint <$> l)
  | JObj l => 123 :: join_close 125 ((λ kv, json_escape kv.1 ++ 58 :: jprint kv.2) <$> l)
  end.

(** How deep arrays and objects nest. *)
Fixpoint jdepth (v : json) : Z :=
  match v with
  | JArr l => 1 + foldr (λ v m, Z.max (jdepth v) m) 0 l
  | JObj l => 1 + foldr (λ kv m, Z.max (jdepth kv.2) m) 0 l
  | _ => 0
  end.

Definition str_ok (s : bytes) : Prop := is_bytes s ∧ Forall (λ c, c ≠ 0) s.

Definition digits (d : bytes) : Prop := d ≠ [] ∧ Forall (λ c, isdigit c = true) d.

(** Digits, a fraction, an exponent with an optional sign. *)
Definition frac_text (f : bytes) : Prop := f = [] ∨ ∃ d, f = 46 :: d ∧ digits d.
Definition exp_text (x : bytes) : Prop :=
  x = [] ∨ ∃ c sg d, x = c :: sg ++ d ∧ (c = 101 ∨ c = 69) ∧ (sg = [] ∨ sg = [43] ∨ sg = [45]) ∧ digits d.
Definition num_text (s : bytes) : Prop :=
  ∃ i f x, s = i ++ f ++ x ∧ digits i ∧ frac_text f ∧ exp_text x.

Inductive json_ok : json → Prop :=
  | ok_null : json_ok JNull
  | ok_bool b : json_ok (JBool b)
  | ok_num neg d : num_text d → json_ok (JNum neg d)
  | ok_str s : str_ok s → json_ok (JStr s)
  | ok_arr l : Forall json_ok l → json_ok (JArr l)
  | ok_obj l : Forall (λ kv, str_ok kv.1 ∧ json_ok kv.2) l → json_ok (JObj l).

(** The byte after a value does not extend a number. *)
Definition value_end (rest : bytes) : Prop :=
  match rest with [] => True | c :: _ => c = 44 ∨ c = 93 ∨ c = 125 ∨ isspace c = true end.

Lemma num_text_digits d : digits d → num_text d.
Proof. intros H. exists d, [], []. rewrite !app_nil_r. split_and!; [done|done|by left|by left]. Qed.

(** The characters of the text of a number. *)
Lemma num_text_chars s : num_text s → Forall (λ c, 43 <= c <= 101) s.
Proof.
  assert (∀ d, digits d → Forall (λ c, 43 <= c <= 101) d) as Hd.
  { intros d [_ H]. eapply Forall_impl; [exact H|]. intros c Hc%isdigit_true. lia. }
  intros (i & f & x & -> & Hi & Hf & Hx). apply Forall_app. split; [by apply Hd|]. apply Forall_app. split.
  - destruct Hf as [->|(d & -> & Hf)]; [constructor|]. constructor; [lia|by apply Hd].
  - destruct Hx as [->|(c & sg & d & -> & Hc & Hs & Hx)]; [constructor|]. constructor; [lia|]. apply Forall_app. split; [|by apply Hd].
    destruct Hs as [->|[->| ->]]; by repeat constructor.
Qed.

Lemma num_text_head s : num_text s → ∃ c r, s = c :: r ∧ isdigit c = true.
Proof.
  intros (i & f & x & -> & [Hne Hi] & _). destruct i as [|c i]; [done|]. apply Forall_cons in Hi as [Hc _]. by exists c, (i ++ f ++ x).
Qed.

(** A run of digits ends where no digit follows. *)
Lemma scan_run_digits acc n d : Forall (λ c, isdigit c = true) d →
  ∃ m, ∀ rest, isdigit (hd0 rest) = false → scan_run isdigit 10 acc n (d ++ rest) = (m, (n + length d)%nat, rest).
Proof.
  intros Hd; revert acc n; induction Hd as [|c d Hc Hd IH]; intros acc n; simpl.
  - exists acc. intros [|c r] Hr; simpl in *; [by rewrite Nat.add_0_r|]. rewrite Hr. by rewrite Nat.add_0_r.
  - rewrite Hc. destruct (IH (acc * 10 + digit_value c) (S n)) as [m Hm].
    exists m. intros rest Hr. rewrite Hm by done. f_equal. f_equal. lia.
Qed.

Lemma strip_nocase_digit lit c s a :
  isdigit c = true → 97 <= a → strip_nocase (a :: lit) (c :: s) = None.
Proof.
  intros Hc Ha. apply isdigit_true in Hc. simpl. unfold tolower, isupper.
  destruct (Z.leb_spec 65 c); [lia|]. simpl. destruct (Z.eqb_spec a c); [lia|done].
Qed.

Lemma hex_start_digits d rest :
  Forall (λ c, isdigit c = true) d → d ≠ [] → tolower (hd0 rest) ≠ 120 → hex_start (d ++ rest) = None.
Proof.
  intros Hd Hne Hr. destruct d as [|c d]; [done|]. apply Forall_cons in Hd as [Hc Hd].
  unfold hex_start. cbn [app]. destruct (d ++ rest) as [|b s1] eqn:Es; [done|].
  assert (Hb : tolower b ≠ 120).
  { destruct d as [|b' d']; cbn [app] in Es; [by subst rest|].
    injection Es as -> _. apply Forall_cons in Hd as [Hb _]. apply isdigit_true in Hb. unfold tolower, isupper.
    destruct ((65 <=? b) && (b <=? 90)) eqn:E; lia. }
  destruct (Z.eqb_spec (tolower b) 120); [done|]. by rewrite andb_false_r.
Qed.

Lemma scan_sign_other c s : c ≠ 43 → c ≠ 45 → scan_sign (c :: s) = (Pos, c :: s).
Proof. intros H1 H2. unfold scan_sign. repeat case_match; simplify_eq; done. Qed.

(** What may stand after the digits of a number. *)
Lemma value_end_hd rest : value_end rest → isdigit (hd0 rest) = false ∧ hd0 rest ≠ 46 ∧ tolower (hd0 rest) ≠ 120 ∧ tolower (hd0 rest) ≠ 101.
Proof.
  unfold value_end, isspace, isdigit, tolower, isupper. destruct rest as [|c r]; cbn; [lia|]. intros H.
  destruct ((65 <=? c) && (c <=? 90)) eqn:E; lia.
Qed.

Lemma exp_end x rest : exp_text x → value_end rest →
  isdigit (hd0 (x ++ rest)) = false ∧ hd0 (x ++ rest) ≠ 46 ∧ tolower (hd0 (x ++ rest)) ≠ 120.
Proof.
  intros [->|(c & sg & d & -> & Hc & _)] Hr; [by apply value_end_hd in Hr as (? & ? & ? & _)|].
  destruct Hc as [-> | ->]; cbn; done.
Qed.

Lemma frac_end f x rest : frac_text f → exp_text x → value_end rest →
  isdigit (hd0 (f ++ x ++ rest)) = false ∧ tolower (hd0 (f ++ x ++ rest)) ≠ 120.
Proof.
  intros [->|(d & -> & _)] Hx Hr; [by apply (exp_end x rest Hx) in Hr as (? & _ & ?)|]. done.
Qed.

Lemma scan_mantissa_num i f x : digits i → frac_text f → exp_text x →
  ∃ m n k, ∀ rest, value_end rest → scan_mantissa isdigit 10 (i ++ f ++ x ++ rest) = (m, S n, k, x ++ rest).
Proof.
  intros [Hne Hi] Hf Hx. unfold scan_mantissa. destruct (scan_run_digits 0 0 i Hi) as [m Hm]. destruct i as [|ci i]; [done|].
  destruct Hf as [->|(d & -> & [Hned Hd])].
  - exists m, (length i), 0%nat. intros rest Hr. rewrite app_nil_l. destruct (exp_end x rest Hx Hr) as (H1 & H2 & _).
    rewrite Hm by done. cbn [Nat.add length]. destruct (x ++ rest) as [|c r]; [done|]. cbn in H2. by destruct (Z.eqb_spec c 46).
  - destruct (scan_run_digits m 0 d Hd) as [m' Hm']. exists m', (length i + length d)%nat, (length d). intros rest Hr.
    rewrite Hm by done. cbn [app]. change (46 =? 46) with true. cbn iota. destruct (exp_end x rest Hx Hr) as (H1 & _ & _). rewrite Hm' by done. done.
Qed.

Lemma scan_exponent_num x : exp_text x → ∃ e, ∀ rest, value_end rest → scan_exponent 101 (x ++ rest) = (e, rest).
Proof.
  intros [->|(c & sg & d & -> & Hc & Hs & [Hne Hd])].
  - exists 0. intros rest Hr. destruct (value_end_hd rest Hr) as (_ & _ & _ & He). unfold scan_exponent. cbn [app].
    destruct rest as [|y r]; [done|]. cbn in He. by destruct (Z.eqb_spec (tolower y) 101).
  - destruct (scan_run_digits 0 0 d Hd) as [e He]. destruct d as [|y d]; [done|]. apply Forall_cons in Hd as [Hy Hd]. pose proof Hy as Hy'. apply isdigit_true in Hy'.
    assert (∃ g, ∀ rest, scan_sign ((sg ++ y :: d) ++ rest) = (g, (y :: d) ++ rest)) as [g Hg].
    { destruct Hs as [->|[->| ->]]; [exists Pos|by exists Pos|by exists Neg]. intros rest. cbn [app]. apply scan_sign_other; lia. }
    exists (match g with Pos => e | Neg => - e end). intros rest Hr. destruct (value_end_hd rest Hr) as (H1 & _). unfold scan_exponent. cbn [app].
    assert (tolower c = 101) as -> by (destruct Hc as [-> | ->]; done). change (101 =? 101) with true. cbn iota. rewrite Hg. rewrite He by done. done.
Qed.

(** [strtod] consumes exactly the text of a printed number, and the value does not depend
    on what follows. *)
Lemma strtod_num neg s : num_text s →
  ∃ v, ∀ rest, value_end rest → strtod ((if neg : bool then [45] else []) ++ s ++ rest) = Some (v, rest).
Proof.
  intros (i & f & x & -> & Hi & Hf & Hx). destruct (scan_mantissa_num i f x Hi Hf Hx) as (m & n & k & Hm). destruct (scan_exponent_num x Hx) as [e He].
  exists (apply_sign (if neg then Neg else Pos) (round_decimal m (S n) (e - Z.of_nat k))). intros rest Hr.
  destruct (frac_end f x rest Hf Hx Hr) as [H1 H2]. rewrite <- !app_assoc. set (t := f ++ x ++ rest) in *.
  destruct Hi as [Hne Hi]. pose proof (hex_start_digits i t Hi Hne H2) as Hh. destruct i as [|c i]; [done|]. apply Forall_cons in Hi as [Hc Hi].
  pose proof Hc as Hc'. apply isdigit_true in Hc'. unfold strtod.
  assert (scan_sign (skip_space ((if neg then [45] else []) ++ (c :: i) ++ t)) = (if neg then Neg else Pos, (c :: i) ++ t)) as ->.
  { destruct neg; [reflexivity|]. cbn [app]. unfold skip_space. simpl. assert (isspace c = false) as -> by (unfold isspace; lia). apply scan_sign_other; lia. }
  assert (∀ a lit, 97 <= a → strip_nocase (a :: lit) ((c :: i) ++ t) = None) as Hnc by (intros; by apply strip_nocase_digit).
  change (bs "infinity") with (105 :: bs "nfinity"). change (bs "inf") with (105 :: bs "nf"). change (bs "nan") with (110 :: bs "an").
  rewrite !Hnc by lia. rewrite Hh. unfold t. rewrite Hm by done. rewrite He by done. done.
Qed.

(** The double a printed number stands for. *)
Definition num_value (neg : bool) (s : bytes) : spec_float := match strtod ((if neg then [45] else []) ++ s) with Some (v, _) => v | None => S754_nan end.

Lemma strtod_print neg s rest : num_text s → value_end rest → strtod ((if neg : bool then [45] else []) ++ s ++ rest) = Some (num_value neg s, rest).
Proof.
  intros Hs Hr. destruct (strtod_num neg s Hs) as [v Hv]. rewrite Hv by done. unfold num_value. specialize (Hv [] I). rewrite app_nil_r in Hv. by rewrite Hv.
Qed.

Section json_induction.
Context (P : json → Prop).
Context (Hnull : P JNull) (Hbool : ∀ b, P (JBool b)) (Hnum : ∀ n d, P (JNum n d))
  (Hstr : ∀ s, P (JStr s)) (Harr : ∀ l, Forall P l → P (JArr l))
  (Hobj : ∀ l, Forall (λ kv, P kv.2) l → P (JObj l)).

Lemma json_nested_ind : ∀ v, P v.
Proof.
  fix IH 1. intros [|b|n d|s|l|l]; [done|done|done|done| |].
  - apply Harr. induction l as [|v l IHl]; constructor; [apply IH|exact IHl].
  - apply Hobj. induction l as [|[k v] l IHl]; constructor; [apply IH|exact IHl].
Qed.
End json_induction.

Lemma jprint_head v :
  json_ok v → ∃ c r, jprint v = c :: r ∧ isspace c = false ∧ c ≠ 93 ∧ c ≠ 125 ∧ c ≠ 0.
Proof.
  intros Hok. destruct Hok as [|b|neg d Hd|s Hs|l _|l _].
  - by do 2 eexists.
  - destruct b; by do 2 eexists.
  - destruct neg; [by do 2 eexists|]. destruct (num_text_head d Hd) as (c & r & -> & Hc). exists c, r. apply isdigit_true in Hc.
    unfold isspace. repeat split; lia.
  - by do 2 eexists.
  - by do 2 eexists.
  - by do 2 eexists.
Qed.

Lemma jdepth_nonneg v : 0 <= jdepth v.
Proof.
  destruct v; simpl; try lia; match goal with |- 0 <= 1 + ?f => assert (0 <= f); [|lia] end;
    induction l; simpl; lia.
Qed.

(** What the skipper does on a printed value at a given depth. *)
Definition skips (v : json) : Prop :=
  json_ok v → ∀ d rest fuel, 0 <= d <= 256 → value_end rest →
  (3 * length (jprint v ++ rest) + 2 <= fuel)%nat →
  json_skip_value_depth fuel d (jprint v ++ rest)
  = if d + jdepth v <=? 256 then Some rest else None.

Lemma join_close_cons close x y items :
  join_close close (x :: y :: items) = x ++ 44 :: join_close close (y :: items).
Proof. done. Qed.

Lemma skip_array_loop_print l d rest fuel :
  l ≠ [] → Forall skips l → Forall json_ok l → 0 <= d < 256 →
  (3 * length (join_close 93 (jprint <$> l) ++ rest) + 3 <= fuel)%nat →
  json_skip_array_loop fuel d (join_close 93 (jprint <$> l) ++ rest)
  = if d + (1 + foldr (λ v m, Z.max (jdepth v) m) 0 l) <=? 256 then Some rest else None.
Proof.
  intros Hne Hs Hok Hd. revert fuel. induction Hs as [|v l Hv Hs IH]; [done|]; intros fuel Hf.
  apply Forall_cons in Hok as [Hokv Hokl]. destruct fuel as [|fuel]; [lia|]. skip_unfold.
  pose proof (jdepth_nonneg v). destruct l as [|w l].
  - cbn [fmap list_fmap join_close] in *. rewrite <- (assoc_L (++)) in *. cbn [app] in *.
    rewrite (Hv Hokv) by (lia || (unfold value_end; lia)). cbn [foldr].
    destruct (Z.leb_spec (d + 1 + jdepth v) 256), (Z.leb_spec (d + (1 + Z.max (jdepth v) 0)) 256);
      try lia; done.
  - rewrite !fmap_cons, join_close_cons in *. rewrite <- (assoc_L (++)) in *. cbn [app] in *.
    rewrite length_app in Hf. cbn [length] in Hf.
    rewrite (Hv Hokv) by (rewrite ?length_app; cbn [length]; lia || (unfold value_end; lia)).
    change (foldr _ 0 (v :: w :: l)) with (Z.max (jdepth v) (foldr (λ v m, Z.max (jdepth v) m) 0 (w :: l))).
    destruct (Z.leb_spec (d + 1 + jdepth v) 256) as [Hle|Hgt]; cbn [mbind option_bind].
    + rewrite json_ws_stop by done. cbn [hd0 tl0 Z.eqb Pos.eqb negb].
      rewrite <- fmap_cons in *. rewrite IH; [|done|done|lia].
      destruct (Z.leb_spec (d + (1 + foldr (λ v m, Z.max (jdepth v) m) 0 (w :: l))) 256);
        destruct (Z.leb_spec (d + (1 + Z.max (jdepth v) (foldr (λ v m, Z.max (jdepth v) m) 0 (w :: l)))) 256);
        try lia; done.
    + destruct (Z.leb_spec (d + (1 + Z.max (jdepth v) (foldr (λ v m, Z.max (jdepth v) m) 0 (w :: l)))) 256);
        [lia|done].
Qed.

Definition member (kv : bytes * json) : bytes := json_escape kv.1 ++ 58 :: jprint kv.2.

(** One member: the key, the colon and the value. *)
Lemma skip_member_print kv d rest fuel :
  str_ok kv.1 → skips kv.2 → json_ok kv.2 → 0 <= d < 256 → value_end rest →
  (3 * length (member kv ++ rest) + 3 <= fuel)%nat →
  ∃ s, json_string (member kv ++ rest) = Some (kv.1, s) ∧ hd0 (json_ws s) = 58
    ∧ json_skip_value_depth (pred fuel) (d + 1) (tl0 (json_ws s))
      = if d + 1 + jdepth kv.2 <=? 256 then Some rest else None.
Proof.
  intros [Hb Hn] Hv Hok Hd Hr Hf. exists (58 :: jprint kv.2 ++ rest). unfold member in *.
  rewrite <- (assoc_L (++)) in *. cbn [app] in *.
  split; [by apply json_string_escape|]. rewrite json_ws_stop by done. split; [done|]. cbn [tl0].
  rewrite length_app in Hf. cbn [length] in Hf. apply Hv; try done; lia.
Qed.

Lemma skip_object_loop_print l d rest fuel :
  l ≠ [] → Forall (λ kv, skips kv.2) l → Forall (λ kv, str_ok kv.1 ∧ json_ok kv.2) l → 0 <= d < 256 →
  (3 * length (join_close 125 (member <$> l) ++ rest) + 3 <= fuel)%nat →
  json_skip_object_loop fuel d (join_close 125 (member <$> l) ++ rest)
  = if d + (1 + foldr (λ kv m, Z.max (jdepth kv.2) m) 0 l) <=? 256 then Some rest else None.
Proof.
  intros Hne Hs Hok Hd. revert fuel. induction Hs as [|kv l Hv Hs IH]; [done|]; intros fuel Hf.
  apply Forall_cons in Hok as [[Hk Hokv] Hokl]. destruct fuel as [|fuel]; [lia|]. skip_unfold.
  pose proof (jdepth_nonneg kv.2). destruct l as [|w l].
  - cbn [fmap list_fmap join_close] in *. rewrite <- (assoc_L (++)) in *. cbn [app] in *.
    destruct (skip_member_print kv d (125 :: rest) (S fuel)) as (s & -> & Hc & Hval); try done.
    { unfold value_end. lia. }
    cbn [mbind option_bind]. rewrite Hc. cbn [Z.eqb Pos.eqb negb Nat.pred] in *. rewrite Hval.
    cbn [foldr].
    destruct (Z.leb_spec (d + 1 + jdepth kv.2) 256), (Z.leb_spec (d + (1 + Z.max (jdepth kv.2) 0)) 256);
      try lia; done.
  - rewrite !fmap_cons, join_close_cons in *. rewrite <- (assoc_L (++)) in *. cbn [app] in *.
    destruct (skip_member_print kv d (44 :: join_close 125 (member w :: (member <$> l)) ++ rest) (S fuel))
      as (s & -> & Hc & Hval); try done.
    { unfold value_end. lia. }
    cbn [mbind option_bind]. rewrite Hc. cbn [Z.eqb Pos.eqb negb Nat.pred] in *. rewrite Hval.
    rewrite length_app in Hf. cbn [length] in Hf.
    change (foldr _ 0 (kv :: w :: l)) with (Z.max (jdepth kv.2) (foldr (λ kv m, Z.max (jdepth kv.2) m) 0 (w :: l))).
    destruct (Z.leb_spec (d + 1 + jdepth kv.2) 256) as [Hle|Hgt]; cbn [mbind option_bind].
    + rewrite json_ws_stop by done. cbn [hd0 tl0 Z.eqb Pos.eqb negb].
      rewrite <- fmap_cons in *. rewrite IH; [|done|done|lia].
      destruct (Z.leb_spec (d + (1 + foldr (λ kv m, Z.max (jdepth kv.2) m) 0 (w :: l))) 256);
        destruct (Z.leb_spec (d + (1 + Z.max (jdepth kv.2) (foldr (λ kv m, Z.max (jdepth kv.2) m) 0 (w :: l)))) 256);
        try lia; done.
    + destruct (Z.leb_spec (d + (1 + Z.max (jdepth kv.2) (foldr (λ kv m, Z.max (jdepth kv.2) m) 0 (w :: l)))) 256);
        [lia|done].
Qed.

Lemma json_lit_miss lit c s : (∀ a r, lit = a :: r → a ≠ c) → lit ≠ [] → json_lit lit (c :: s) = None.
Proof.
  intros H Hne. destruct lit as [|a r]; [done|]. unfold json_lit. simpl.
  destruct (Z.eqb_spec a c); [|done]. by destruct (H a r eq_refl).
Qed.

Lemma skip_print_num neg dg : skips (JNum neg dg).
Proof.
  intros Hok d rest fuel Hd Hr Hf. destruct fuel as [|fuel]; [lia|].
  inversion Hok as [| |? ? Hdg| | |]; subst. cbn [jdepth jprint]. rewrite Z.add_0_r.
  destruct (Z.leb_spec d 256); [|lia]. rewrite <- (assoc_L (++)).
  pose proof (strtod_print neg dg rest Hdg Hr) as Hv.
  assert (Hh : ∃ c r, (if neg then [45] else []) ++ dg ++ rest = c :: r
                      ∧ (c = 45 ∨ isdigit c = true)).
  { destruct neg; [by do 2 eexists; eauto|]. destruct (num_text_head dg Hdg) as (c & r & -> & Hc). by do 2 eexists; eauto. }
  destruct Hh as (c & r & Hcr & Hc). rewrite Hcr in *. rewrite isdigit_true in Hc. skip_unfold.
  rewrite json_ws_stop by (unfold isspace; lia). cbn [hd0].
  destruct (Z.eqb_spec c 34); [lia|]. destruct (Z.eqb_spec c 123); [lia|].
  destruct (Z.eqb_spec c 91); [lia|].
  rewrite !json_lit_miss by (try done; intros ? ? [= <- _]; lia).
  unfold json_number. rewrite json_ws_stop by (unfold isspace; lia). by rewrite Hv.
Qed.

Lemma skip_print_str str : skips (JStr str).
Proof.
  intros Hok d rest fuel Hd Hr Hf. destruct fuel as [|fuel]; [lia|].
  inversion Hok as [| | |? [Hb Hn]| |]; subst. cbn [jdepth jprint]. rewrite Z.add_0_r.
  destruct (Z.leb_spec d 256); [|lia]. pose proof (json_string_escape str rest Hb Hn) as Hs.
  unfold json_escape in *. cbn [app] in *. skip_unfold. rewrite json_ws_stop by done.
  cbn [hd0 Z.eqb Pos.eqb]. by rewrite Hs.
Qed.

Lemma skip_print_arr l : Forall skips l → skips (JArr l).
Proof.
  intros IH Hok d rest fuel Hd Hr Hf. destruct fuel as [|fuel]; [lia|].
  inversion Hok as [| | | |? Hl|]; subst. cbn [jprint jdepth] in *.
  destruct fuel as [|fuel]; [simpl in Hf; lia|]. cbn [app length] in *. skip_unfold.
  rewrite json_ws_stop by done. cbn [hd0 Z.eqb Pos.eqb]. rewrite Z.geb_leb. unfold JSON_MAX_NESTING.
  pose proof (jdepth_nonneg (JArr l)) as Hj. cbn [jdepth] in Hj.
  assert (0 <= foldr (λ v m, Z.max (jdepth v) m) 0 l) by (clear; induction l; simpl; lia).
  destruct (Z.leb_spec 256 d); [destruct (Z.leb_spec (d + (1 + foldr (λ v m, Z.max (jdepth v) m) 0 l)) 256); [lia|done]|].
  rewrite json_ws_stop by done. cbn [hd0 tl0 Z.eqb Pos.eqb negb]. destruct l as [|v l].
  { cbn. destruct (Z.leb_spec (d + (1 + 0)) 256); [done|lia]. }
  assert (Hh : ∃ c r, join_close 93 (jprint <$> v :: l) ++ rest = c :: r ∧ isspace c = false ∧ c ≠ 93).
  { apply Forall_cons in Hl as [Hv _]. destruct (jprint_head v Hv) as (c & r & Hc & Hsp & Hn & _).
    rewrite fmap_cons. destruct (jprint <$> l); cbn [join_close]; rewrite Hc; by do 2 eexists. }
  destruct Hh as (c & r & Hcr & Hsp & Hn93). rewrite Hcr, json_ws_stop by done. cbn [hd0].
  destruct (Z.eqb_spec c 93); [done|]. rewrite <- Hcr. apply skip_array_loop_print; try done; lia.
Qed.

Lemma skip_print_obj l : Forall (λ kv, skips kv.2) l → skips (JObj l).
Proof.
  intros IH Hok d rest fuel Hd Hr Hf. destruct fuel as [|fuel]; [lia|].
  inversion Hok as [| | | | |? Hl]; subst. cbn [jprint jdepth] in *. fold member in *.
  destruct fuel as [|fuel]; [simpl in Hf; lia|]. cbn [app length] in *. skip_unfold.
  rewrite json_ws_stop by done. cbn [hd0 Z.eqb Pos.eqb]. rewrite Z.geb_leb. unfold JSON_MAX_NESTING.
  assert (0 <= foldr (λ kv m, Z.max (jdepth kv.2) m) 0 l) by (clear; induction l; simpl; lia).
  destruct (Z.leb_spec 256 d); [destruct (Z.leb_spec (d + (1 + foldr (λ kv m, Z.max (jdepth kv.2) m) 0 l)) 256); [lia|done]|].
  rewrite json_ws_stop by done. cbn [hd0 tl0 Z.eqb Pos.eqb negb]. destruct l as [|kv l].
  { cbn. destruct (Z.leb_spec (d + (1 + 0)) 256); [done|lia]. }
  assert (Hh : ∃ r, join_close 125 (member <$> kv :: l) ++ rest = 34 :: r).
  { rewrite fmap_cons. destruct (member <$> l); by eexists. }
  destruct Hh as (r & Hcr). rewrite Hcr, json_ws_stop by done. cbn [hd0 Z.eqb Pos.eqb].
  rewrite <- Hcr. apply skip_object_loop_print; try done; lia.
Qed.

(** The skipper on any printed value. *)
Lemma skip_print v : skips v.
Proof.
  induction v as [|b|neg dg|str|l IH|l IH] using json_nested_ind;
    auto using skip_print_num, skip_print_str, skip_print_arr, skip_print_obj.
  all: intros Hok d rest fuel Hd Hr Hf; (destruct fuel as [|fuel]; [lia|]); skip_unfold;
    cbn [jdepth]; rewrite Z.add_0_r; destruct (Z.leb_spec d 256); [|lia].
  - done.
  - by destruct b.
Qed.

Lemma escape_no_nul s : Forall (λ c, c ≠ 0) s → is_bytes s → Forall (λ c, c ≠ 0) (json_escape s).
Proof.
  intros Hn Hb. unfold json_escape. repeat (apply Forall_app; split); [by repeat constructor| |by repeat constructor].
  induction Hb as [|c s Hc Hb IH]; csimpl; [constructor|]. apply Forall_cons in Hn as [Hc0 Hn].
  apply Forall_app. split; [|by apply IH]. unfold escape_char, is_u8 in *. repeat case_if; bool_to_prop.
  5: { apply Forall_app. split; [by repeat constructor|]. apply Forall_fmap, Forall_true. intros sh.
       unfold compose. change 15 with (Z.ones 4). rewrite Z.land_ones by lia.
       pose proof (Z.mod_pos_bound (Z.shiftr c sh) (2 ^ 4) ltac:(lia)) as Hm.
       assert (Hd : Forall (λ x, x ≠ 0) (bs "0123456789abcdef")) by (repeat constructor; done).
       apply (proj1 (List.Forall_forall _ _) Hd), nth_In.
       change (length (bs "0123456789abcdef")) with 16%nat. lia. }
  all: repeat constructor; lia.
Qed.

Lemma join_close_no_nul close items :
  close ≠ 0 → Forall (Forall (λ c, c ≠ 0)) items → Forall (λ c, c ≠ 0) (join_close close items).
Proof.
  intros Hc. induction 1 as [|x items Hx Hi IH]; [by repeat constructor|].
  destruct items as [|y items]; [cbn; by apply Forall_app; repeat constructor|].
  rewrite join_close_cons. apply Forall_app. split; [done|]. by constructor.
Qed.

Lemma jprint_no_nul v : json_ok v → Forall (λ c, c ≠ 0) (jprint v).
Proof.
  induction v as [|b|neg dg|str|l IH|l IH] using json_nested_ind; intros Hok; inversion Hok as
    [| |? ? Hdg|? [Hb Hn]|? Hl|? Hl]; subst.
  - by repeat constructor.
  - destruct b; by repeat constructor.
  - cbn [jprint]. apply Forall_app. split; [destruct neg; by repeat constructor|].
    eapply Forall_impl; [exact (num_text_chars dg Hdg)|]. cbn. lia.
  - by apply escape_no_nul.
  - cbn [jprint]. constructor; [done|]. apply join_close_no_nul; [done|]. apply Forall_fmap.
    clear Hok. induction IH as [|v l Hv _ IHl]; [constructor|]. apply Forall_cons in Hl as [? ?].
    constructor; auto.
  - cbn [jprint]. constructor; [done|]. apply join_close_no_nul; [done|]. apply Forall_fmap.
    clear Hok. induction IH as [|kv l Hv _ IHl]; [constructor|]. apply Forall_cons in Hl as [[[] ?] ?].
    constructor; [|by apply IHl]. apply Forall_app.
    split; [by apply escape_no_nul|]. constructor; auto.
Qed.

(** The skipper and the raw value on a printed value. *)
Lemma skip_raw_print v rest : json_ok v → value_end rest →
  json_skip_value (jprint v ++ rest) = (if jdepth v <=? 256 then Some rest else None)
  ∧ json_raw_value (jprint v ++ rest)
    = (if jdepth v <=? 256 then Some (jprint v, rest) else None).
Proof.
  intros Hok Hend.
  assert (H : json_skip_value (jprint v ++ rest) = if jdepth v <=? 256 then Some rest else None).
  { unfold json_skip_value, skip_fuel. rewrite skip_print by (done || lia). done. }
  split; [done|]. unfold json_raw_value.
  destruct (jprint_head v Hok) as (c & r & Hc & Hsp & _). rewrite Hc in *. cbn [app] in *.
  rewrite json_ws_stop, H by done. case_if; [|done]. cbn [mbind option_bind].
  unfold span. rewrite app_comm_cons, <- Hc, length_app, Nat.add_sub, take_app_length.
  by rewrite c_str_id by (by apply jprint_no_nul).
Qed.

(** On the text of a JSON value followed by a delimiter, the skipper stops
    exactly after the value when its nesting is at most 256 and fails when it is
    deeper; [json_raw_value] returns the text of the value. *)
Theorem json_skip_value_exact v rest
    (Hok : json_ok v) (Hend : value_end rest) :
  json_skip_value (jprint v ++ rest) = (if jdepth v <=? 256 then Some rest else None)
  ∧ json_raw_value (jprint v ++ rest)
    = (if jdepth v <=? 256 then Some (jprint v, rest) else None).
Proof. by apply skip_raw_print. Qed.

(** Witness: an object with a nested array. *)
Lemma json_skip_value_exact_witness :
  json_skip_value (jprint (JObj [(bs "a", JArr [JNum true (bs "12"); JNull])]) ++ bs ",7")
  = Some (bs ",7").
Proof.
  apply (json_skip_value_exact (JObj [(bs "a", JArr [JNum true (bs "12"); JNull])]) (bs ",7")).
  - repeat constructor; simpl; try done; try lia. apply num_text_digits. by repeat constructor.
  - simpl. lia.
Defined.

(** The skipper terminates: any fuel above three times the length gives
    the result of [json_skip_value], so [None] always is a rejection by the
    code, and an accepted value leaves a strictly shorter rest. *)
Theorem json_skip_value_total s fuel (Hf : (skip_fuel s <= fuel)%nat) :
  json_skip_value_depth fuel 0 s = json_skip_value s
  ∧ ∀ r, json_skip_value s = Some r → (length r < length s)%nat.
Proof.
  split; [|intros r; apply skip_value_length].
  unfold json_skip_value, skip_fuel in *. apply skip_fuel_stable; lia.
Qed.

(** Witness: an unterminated array with ample fuel. *)
Lemma json_skip_value_total_witness :
  json_skip_value_depth 100 0 (bs "[1, [2") = None ∧ json_skip_value (bs "[1, [2") = None.
Proof.
  destruct (json_skip_value_total (bs "[1, [2") 100) as [H _]; [vm_compute; lia|].
  rewrite <- H. split; vm_compute; reflexivity.
Defined.
