(* ===== verification/JsonSafe.v ===== *)
(** * The cursor stays inside the text

    Every JSON reader of [Json] returns a suffix of its input, and the strings it
    builds are NUL-free bytes when the input is bytes. *)
From S2P Require Import Prelude CLib Strtod Json JsonProps.
From Stdlib Require Import SpecFloat.

(** ** Suffixes *)

Lemma drop_while_suffix f s : suffix (drop_while f s) s.
Proof.
  induction s as [|c s IH]; simpl; [done|]. destruct (f c); [by apply suffix_cons_r|done].
Qed.

Lemma tl0_suffix s : suffix (tl0 s) s.
Proof. destruct s; simpl; [done|]. by apply suffix_cons_r. Qed.

Lemma json_ws_suffix s : suffix (json_ws s) s.
Proof. apply drop_while_suffix. Qed.

Lemma strip_prefix_suffix lit s r : strip_prefix lit s = Some r → suffix r s.
Proof. intros ->%strip_prefix_Some. by exists lit. Qed.

Lemma strip_nocase_suffix lit s r : strip_nocase lit s = Some r → suffix r s.
Proof.
  revert s; induction lit as [|a lit IH]; intros s; simpl; [by intros [= ->]|].
  destruct s as [|c s]; [done|]. case_if; [|done]. intros H%IH. by apply suffix_cons_r.
Qed.

#[export] Hint Resolve drop_while_suffix tl0_suffix json_ws_suffix : spark.

(** Chain suffix steps of the context. *)
Ltac suffix_trans := repeat (first [ eassumption | etransitivity; [eassumption|] ]); auto with spark.

Lemma hex_digits_suffix n cp s v r : hex_digits n cp s = Some (v, r) → suffix r s.
Proof.
  revert cp s; induction n as [|n IH]; intros cp s; simpl; [by intros [= _ ->]|].
  case_if; [done|]. intros H%IH. etransitivity; [exact H|]. auto with spark.
Qed.

Lemma json_u16_suffix s v r : json_u16 s = Some (v, r) → suffix r s.
Proof.
  unfold json_u16. destruct (strip_prefix _ s) as [r'|] eqn:E; [|done].
  intros H%hex_digits_suffix. apply strip_prefix_suffix in E. by etransitivity.
Qed.

Lemma json_unicode_suffix s v r : json_unicode s = Some (v, r) → suffix r s.
Proof.
  unfold json_unicode. destruct (json_u16 s) as [[cp r1]|] eqn:E1; [|done]. simpl.
  apply json_u16_suffix in E1. intros [= H]. destruct (_ && _); [|by simplify_eq].
  destruct (json_u16 r1) as [[lo r2]|] eqn:E2; [|by simplify_eq].
  apply json_u16_suffix in E2. case_if_in H; simplify_eq; [by etransitivity|done].
Qed.

Lemma json_string_body_suffix fuel b s v r :
  json_string_body fuel b s = Some (v, r) → suffix r s.
Proof.
  revert b s; induction fuel as [|fuel IH]; intros b s; [done|].
  destruct s as [|c s]; [done|]. cbn [json_string_body].
  case_if; [intros [= _ <-]; by apply suffix_cons_r|].
  case_if; [intros H%IH; by apply suffix_cons_r|].
  destruct s as [|d s]; [done|]. case_if.
  - destruct (json_unicode _) as [[cp r']|] eqn:Eu; [|done]. intros H%IH.
    apply json_unicode_suffix in Eu. by etransitivity.
  - destruct (simple_escape d); [|done]. intros H%IH. by do 2 apply suffix_cons_r.
Qed.

Lemma json_string_suffix s v r : json_string s = Some (v, r) → suffix r s.
Proof.
  unfold json_string. pose proof (json_ws_suffix s) as Hw. destruct (json_ws s) as [|c s1]; [done|].
  case_if; [|done]. destruct (json_string_body _ _ _) as [[b r']|] eqn:Eb; [|done].
  intros [= _ <-]. apply json_string_body_suffix in Eb.
  etransitivity; [exact Eb|]. etransitivity; [|exact Hw]. by apply suffix_cons_r.
Qed.

Lemma scan_run_suffix cls base acc n s m n' r :
  scan_run cls base acc n s = (m, n', r) → suffix r s.
Proof.
  revert acc n; induction s as [|c s IH]; intros acc n; simpl; [intros; by simplify_eq|].
  destruct (cls c); [intros H%IH; by apply suffix_cons_r|intros; by simplify_eq].
Qed.

Lemma scan_mantissa_suffix cls base s m n f r :
  scan_mantissa cls base s = (m, n, f, r) → suffix r s.
Proof.
  unfold scan_mantissa. destruct (scan_run cls base 0 0 s) as [[m1 n1] s1] eqn:E1.
  apply scan_run_suffix in E1. destruct s1 as [|c s2]; [intros; by simplify_eq|].
  case_if; [|intros; by simplify_eq].
  destruct (scan_run cls base m1 0 s2) as [[m2 n2] s3] eqn:E2. apply scan_run_suffix in E2.
  case_if; intros; simplify_eq; [done|]. etransitivity; [exact E2|].
  etransitivity; [|exact E1]. by apply suffix_cons_r.
Qed.

Lemma scan_sign_suffix s : suffix (scan_sign s).2 s.
Proof. unfold scan_sign. repeat case_match; simpl; try done; by apply suffix_cons_r. Qed.

Lemma scan_exponent_suffix k s e r : scan_exponent k s = (e, r) → suffix r s.
Proof.
  unfold scan_exponent. destruct s as [|c s]; [intros; by simplify_eq|].
  case_if; [|intros; by simplify_eq]. pose proof (scan_sign_suffix s) as Hs.
  destruct (scan_sign s) as [sg s2]. destruct (scan_run _ _ _ _ s2) as [[e' n] s3] eqn:E2.
  apply scan_run_suffix in E2. simpl in *. case_if; intros; simplify_eq; [done|].
  apply suffix_cons_r. by etransitivity.
Qed.

Lemma skip_nan_suffix s : suffix (skip_nan_chars s) s.
Proof.
  unfold skip_nan_chars. destruct s as [|c s]; [done|]. case_if; [|done].
  pose proof (drop_while_suffix isalnum_ s) as Hd. destruct (drop_while isalnum_ s); [done|].
  case_if; [|done]. apply suffix_cons_r. etransitivity; [|exact Hd]. by apply suffix_cons_r.
Qed.

Lemma hex_start_suffix s r : hex_start s = Some r → suffix r s.
Proof.
  unfold hex_start. destruct s as [|a [|b s]]; [done..|]. case_if; [|done].
  destruct (scan_mantissa _ _ s) as [[[? n] ?] ?]. case_if; [done|]. intros [= <-].
  by do 2 apply suffix_cons_r.
Qed.

Lemma strtod_suffix s v r : strtod s = Some (v, r) → suffix r s.
Proof.
  unfold strtod. assert (Hs : suffix (scan_sign (skip_space s)).2 s).
  { etransitivity; [apply scan_sign_suffix|]. apply drop_while_suffix. }
  destruct (scan_sign (skip_space s)) as [sg s1]. simpl in Hs.
  destruct (strip_nocase (bs "infinity") s1) as [r1|] eqn:E1.
  { apply strip_nocase_suffix in E1. intros. simplify_eq. by etransitivity. }
  destruct (strip_nocase (bs "inf") s1) as [r2|] eqn:E2.
  { apply strip_nocase_suffix in E2. intros. simplify_eq. by etransitivity. }
  destruct (strip_nocase (bs "nan") s1) as [r3|] eqn:E3.
  { apply strip_nocase_suffix in E3. intros. simplify_eq.
    etransitivity; [apply skip_nan_suffix|]. by etransitivity. }
  destruct (hex_start s1) as [s2|] eqn:E4.
  - apply hex_start_suffix in E4.
    destruct (scan_mantissa isxdigit 16 s2) as [[[m n] f] s3] eqn:E5. apply scan_mantissa_suffix in E5.
    destruct (scan_exponent 112 s3) as [e r'] eqn:E6. apply scan_exponent_suffix in E6.
    intros [= _ <-]. suffix_trans.
  - destruct (scan_mantissa isdigit 10 s1) as [[[m n] f] s3] eqn:E5. apply scan_mantissa_suffix in E5.
    destruct (Nat.eqb_spec n 0); [done|].
    destruct (scan_exponent 101 s3) as [e r'] eqn:E6. apply scan_exponent_suffix in E6.
    intros [= _ <-]. suffix_trans.
Qed.

Lemma json_number_suffix s v r : json_number s = Some (v, r) → suffix r s.
Proof. intros H%strtod_suffix. etransitivity; [exact H|]. auto with spark. Qed.

#[local] Ltac skip_unfold :=
  cbn [json_skip_value_depth json_skip_array_depth json_skip_array_loop
       json_skip_object_depth json_skip_object_loop].

(** [tl0 (json_ws s)] and its like are suffixes of [s]. *)
Lemma tl_ws_suffix s : suffix (tl0 (json_ws s)) s.
Proof. etransitivity; [apply tl0_suffix|apply json_ws_suffix]. Qed.

#[export] Hint Resolve tl_ws_suffix : spark.

Lemma skip_suffix_all fuel :
  (∀ d s r, json_skip_value_depth fuel d s = Some r → suffix r s)
  ∧ (∀ d s r, json_skip_array_depth fuel d s = Some r → suffix r s)
  ∧ (∀ d s r, json_skip_array_loop fuel d s = Some r → suffix r s)
  ∧ (∀ d s r, json_skip_object_depth fuel d s = Some r → suffix r s)
  ∧ (∀ d s r, json_skip_object_loop fuel d s = Some r → suffix r s).
Proof.
  induction fuel as [|fuel (IHv & IHa & IHal & IHo & IHol)]; [done|].
  split; [|split; [|split; [|split]]]; intros d s r; skip_unfold; pose proof (json_ws_suffix s) as Hw.
  - set (s1 := json_ws s) in *. intros H. etransitivity; [|exact Hw]. revert H. case_if.
    { destruct (json_string s1) as [[b r']|] eqn:E1; [|done]. intros [= <-].
      by apply json_string_suffix in E1. }
    case_if; [apply IHo|]. case_if; [apply IHa|]. unfold json_lit.
    destruct (strip_prefix (bs "true") s1) eqn:L1; [intros [= <-]; by eapply strip_prefix_suffix|].
    destruct (strip_prefix (bs "false") s1) eqn:L2; [intros [= <-]; by eapply strip_prefix_suffix|].
    destruct (strip_prefix (bs "null") s1) eqn:L3; [intros [= <-]; by eapply strip_prefix_suffix|].
    destruct (json_number s1) as [[v r']|] eqn:E4; [|done]. intros [= <-].
    by apply json_number_suffix in E4.
  - case_if; [done|]. case_if; [done|]. pose proof (tl_ws_suffix s) as Ht.
    case_if; [intros [= <-]|intros H'%IHal]; (etransitivity; [|exact Ht]); auto with spark.
    etransitivity; [exact H'|]. auto with spark.
  - destruct (json_skip_value_depth fuel (d + 1) s) as [s1|] eqn:E1; [|done]. cbn [mbind option_bind].
    apply IHv in E1. pose proof (tl_ws_suffix s1).
    case_if; [intros [= <-]; suffix_trans|]. case_if; [done|]. intros H'%IHal. suffix_trans.
  - case_if; [done|]. case_if; [done|]. pose proof (tl_ws_suffix s) as Ht.
    case_if; [intros [= <-]|intros H'%IHol]; (etransitivity; [|exact Ht]); auto with spark.
    etransitivity; [exact H'|]. auto with spark.
  - destruct (json_string s) as [[k s1]|] eqn:E1; [|done]. cbn [mbind option_bind].
    apply json_string_suffix in E1. pose proof (tl_ws_suffix s1). case_if; [done|].
    destruct (json_skip_value_depth fuel (d + 1) _) as [s2|] eqn:E2; [|done]. cbn [mbind option_bind].
    apply IHv in E2. pose proof (tl_ws_suffix s2).
    case_if; [intros [= <-]; suffix_trans|]. case_if; [done|]. intros H'%IHol. suffix_trans.
Qed.

Lemma json_skip_value_suffix s r : json_skip_value s = Some r → suffix r s.
Proof. apply skip_suffix_all. Qed.

Lemma json_raw_value_suffix s v r : json_raw_value s = Some (v, r) → suffix r s.
Proof.
  unfold json_raw_value. destruct (json_skip_value (json_ws s)) as [s1|] eqn:E1; [|done].
  intros [= _ <-]. apply json_skip_value_suffix in E1. etransitivity; [exact E1|]. auto with spark.
Qed.

Lemma json_bool_suffix s v r : json_bool s = Some (v, r) → suffix r s.
Proof.
  unfold json_bool, json_lit. pose proof (json_ws_suffix s) as Hw.
  destruct (strip_prefix (bs "true") _) eqn:E1.
  { intros [= _ <-]. apply strip_prefix_suffix in E1. by etransitivity. }
  destruct (strip_prefix (bs "false") _) eqn:E2; [|done].
  intros [= _ <-]. apply strip_prefix_suffix in E2. by etransitivity.
Qed.

Lemma json_int_suffix s v r : json_int s = Some (v, r) → suffix r s.
Proof.
  unfold json_int. destruct (json_number s) as [[x r']|] eqn:E; [|done]. intros [= _ <-].
  by apply json_number_suffix in E.
Qed.

Section loops.
Context {A : Type}.

Lemma skip_comma_suffix s : suffix (skip_comma s) s.
Proof.
  unfold skip_comma. pose proof (json_ws_suffix s). pose proof (tl_ws_suffix s).
  etransitivity; [apply json_ws_suffix|]. case_if; done.
Qed.

Lemma obj_loop_suffix (field : bytes → A → bytes → option (A * bytes)) fuel st s st' r :
  (∀ k st s st' r, field k st s = Some (st', r) → suffix r s) →
  obj_loop field fuel st s = Some (st', r) → suffix r s.
Proof.
  intros Hf. revert st s; induction fuel as [|fuel IH]; intros st s; [done|]. cbn [obj_loop].
  case_if; [intros [= _ <-]; apply tl0_suffix|]. case_if; [done|].
  destruct (json_string s) as [[k s1]|] eqn:X1; [|done]. cbn [mbind option_bind]. case_if; [done|].
  destruct (field k st _) as [[st1 s2]|] eqn:X2; [|done]. cbn [mbind option_bind]. intros H%IH.
  apply json_string_suffix in X1. apply Hf in X2.
  pose proof (skip_comma_suffix s2). pose proof (tl_ws_suffix s1). suffix_trans.
Qed.

Lemma json_object_suffix (field : bytes → A → bytes → option (A * bytes)) st s st' r :
  (∀ k st s st' r, field k st s = Some (st', r) → suffix r s) →
  json_object field st s = Some (st', r) → suffix r s.
Proof.
  intros Hf. unfold json_object. case_if; [done|]. intros H%obj_loop_suffix; [|done].
  etransitivity; [exact H|]. etransitivity; [apply json_ws_suffix|apply tl0_suffix].
Qed.

Lemma arr_loop_suffix (elem : A → bytes → option (A * bytes)) fuel st s st' r :
  (∀ st s st' r, elem st s = Some (st', r) → suffix r s) →
  arr_loop elem fuel st s = Some (st', r) → suffix r s.
Proof.
  intros Hf. revert st s; induction fuel as [|fuel IH]; intros st s; [done|]. cbn [arr_loop].
  case_if; [intros [= _ <-]; apply tl0_suffix|]. case_if; [done|].
  destruct (elem st s) as [[st1 s2]|] eqn:X2; [|done]. cbn [mbind option_bind]. intros H%IH.
  apply Hf in X2. pose proof (skip_comma_suffix s2). suffix_trans.
Qed.

Lemma json_array_suffix (elem : A → bytes → option (A * bytes)) st s st' r :
  (∀ st s st' r, elem st s = Some (st', r) → suffix r s) →
  json_array elem st s = Some (st', r) → suffix r s.
Proof.
  intros Hf. unfold json_array. case_if; [done|]. intros H%arr_loop_suffix; [|done].
  etransitivity; [exact H|]. etransitivity; [apply json_ws_suffix|apply tl0_suffix].
Qed.

Lemma skip_field_suffix (st : A) s st' r : skip_field st s = Some (st', r) → suffix r s.
Proof.
  unfold skip_field. destruct (json_skip_value s) as [s1|] eqn:E; [|done]. intros [= _ <-].
  by apply json_skip_value_suffix.
Qed.
End loops.

Lemma json_content_suffix s v r : json_content s = Some (v, r) → suffix r s.
Proof.
  unfold json_content. intros H. etransitivity; [|apply json_ws_suffix]. revert H.
  set (s1 := json_ws s). case_if; [apply json_string_suffix|]. unfold json_lit.
  destruct (strip_prefix _ s1) eqn:X1; [intros [= _ <-]; by eapply strip_prefix_suffix|].
  assert (Hstr : ∀ (b s v r : bytes),
    ('(t, s) ← json_string s; Some (b ++ t, s)) = Some (v, r) → suffix r s).
  { intros b s2 v2 r2. destruct (json_string s2) as [[t s3]|] eqn:Es; [|done]. intros [= _ <-].
    by apply json_string_suffix in Es. }
  case_if.
  - destruct (json_skip_value s1) as [s2|] eqn:X2; [|done]. intros [= _ <-].
    by apply json_skip_value_suffix.
  - apply json_array_suffix. intros b s2 v2 r2. unfold content_elem. case_if; [apply Hstr|].
    case_if; [|apply skip_field_suffix]. apply json_object_suffix.
    intros k b3 s3 v3 r3. unfold content_field. case_if; [apply Hstr|apply skip_field_suffix].
Qed.

(** The cursor never leaves the text: whatever the input, every reader that
    succeeds returns a suffix of it. *)
Theorem json_cursor_safe s :
  (∀ v r, json_string s = Some (v, r) → suffix r s)
  ∧ (∀ v r, json_int s = Some (v, r) → suffix r s)
  ∧ (∀ v r, json_bool s = Some (v, r) → suffix r s)
  ∧ (∀ r, json_skip_value s = Some r → suffix r s)
  ∧ (∀ v r, json_raw_value s = Some (v, r) → suffix r s)
  ∧ (∀ v r, json_content s = Some (v, r) → suffix r s).
Proof.
  repeat split; intros *; [apply json_string_suffix|apply json_int_suffix|apply json_bool_suffix|
    apply json_skip_value_suffix|apply json_raw_value_suffix|apply json_content_suffix].
Qed.

(** ** Results are NUL-free bytes *)

Lemma is_bytes_suffix r s : suffix r s → is_bytes s → is_bytes r.
Proof. intros [p ->] H. by apply Forall_app in H as [_ ?]. Qed.

Lemma is_bytes_c_str b : is_bytes b → is_bytes (c_str b).
Proof. induction 1 as [|c b Hc _ IH]; simpl; [constructor|]. case_if; by constructor. Qed.

Lemma shiftr_bound x k n : 0 <= k → 0 <= x < 2 ^ k * n → 0 <= Z.shiftr x k < n.
Proof.
  intros Hk Hx. rewrite Z.shiftr_div_pow2 by done. assert (0 < 2 ^ k) by (apply Z.pow_pos_nonneg; lia).
  split; [apply Z.div_pos; lia|]. apply Z.div_lt_upper_bound; lia.
Qed.

Lemma land63 x : is_u8 (Z.land x 0x3f).
Proof.
  change 0x3f with (Z.ones 6). rewrite Z.land_ones by lia.
  pose proof (Z.mod_pos_bound x (2 ^ 6) ltac:(lia)). unfold is_u8. lia.
Qed.

Lemma utf8_put_bytes cp : 0 <= cp → is_bytes (utf8_put cp).
Proof.
  intros Hcp. unfold utf8_put. set (x := if (cp >? 0x10ffff) || _ then 0xfffd else cp).
  assert (Hx : 0 <= x <= 0x10ffff).
  { unfold x. rewrite Z.gtb_ltb. destruct (Z.ltb_spec 0x10ffff cp); simpl; [lia|]. case_if; lia. }
  clearbody x.
  assert (Hs : ∀ y, is_u8 (Z.lor 0x80 (Z.land y 0x3f)))
    by (intros; apply lor_u8; [unfold is_u8; lia|apply land63]).
  assert (Hl : ∀ b k n, is_u8 b → 0 <= k → 0 < n <= 256 → x < 2 ^ k * n → is_u8 (Z.lor b (Z.shiftr x k))).
  { intros b k n Hb Hk Hn Hxn. apply lor_u8; [done|]. unfold is_u8.
    pose proof (shiftr_bound x k n Hk ltac:(lia)). lia. }
  destruct (Z.leb_spec x 0x7f); [repeat constructor; unfold is_u8; lia|].
  destruct (Z.leb_spec x 0x7ff); [|destruct (Z.leb_spec x 0xffff)].
  all: repeat (apply List.Forall_cons; [try apply Hs|]); try apply List.Forall_nil.
  - apply (Hl _ 6 32); unfold is_u8; lia.
  - apply (Hl _ 12 16); unfold is_u8; lia.
  - apply (Hl _ 18 8); unfold is_u8; lia.
Qed.

Lemma hex_digits_nonneg n cp s v r : 0 <= cp → hex_digits n cp s = Some (v, r) → 0 <= v.
Proof.
  revert cp s; induction n as [|n IH]; intros cp s Hc; simpl; [intros [= <- _]; done|].
  destruct (Z.ltb_spec (json_hex (hd0 s)) 0); [done|]. apply IH.
  apply Z.lor_nonneg. split; [by apply Z.shiftl_nonneg|done].
Qed.

Lemma json_unicode_nonneg s v r : json_unicode s = Some (v, r) → 0 <= v.
Proof.
  assert (Hu : ∀ s v r, json_u16 s = Some (v, r) → 0 <= v).
  { clear. intros s v r. unfold json_u16. destruct (strip_prefix _ s); [|done].
    apply hex_digits_nonneg. lia. }
  unfold json_unicode. destruct (json_u16 s) as [[cp r1]|] eqn:E1; [|done]. simpl.
  apply Hu in E1. intros [= H].
  destruct ((0xd800 <=? cp) && (cp <=? 0xdbff)) eqn:Es; [|by simplify_eq].
  destruct (json_u16 r1) as [[lo r2]|] eqn:E2; [|by simplify_eq].
  destruct ((0xdc00 <=? lo) && (lo <=? 0xdfff)) eqn:El; simplify_eq; [|lia].
  bool_to_prop. assert (0 <= Z.shiftl (cp - 0xd800) 10) by (apply Z.shiftl_nonneg; lia). lia.
Qed.

Lemma json_string_body_bytes fuel b s v r :
  is_bytes s → is_bytes b → json_string_body fuel b s = Some (v, r) → is_bytes v.
Proof.
  revert b s; induction fuel as [|fuel IH]; intros b s Hs Hb; [done|].
  destruct s as [|c s]; [done|]. cbn [json_string_body].
  pose proof Hs as [Hc Hs']%Forall_cons.
  case_if; [intros [= <- _]; done|].
  case_if; [apply IH; [done|]; apply Forall_app; split; [done|by apply Forall_singleton]|].
  destruct s as [|d s]; [done|]. apply Forall_cons in Hs' as [Hd Hs']. case_if.
  - destruct (json_unicode _) as [[cp r']|] eqn:Eu; [|done].
    pose proof (json_unicode_nonneg _ _ _ Eu). apply json_unicode_suffix in Eu.
    apply IH; [by eapply is_bytes_suffix|]. apply Forall_app. split; [done|].
    by apply utf8_put_bytes.
  - destruct (simple_escape d) as [x|] eqn:Ex; [|done]. apply IH; [done|].
    apply Forall_app. split; [done|]. apply Forall_singleton. unfold simple_escape in Ex.
    repeat case_if_in Ex; simplify_eq; unfold is_u8; lia.
Qed.

Lemma json_string_ok s v r :
  is_bytes s → json_string s = Some (v, r) → str_ok v ∧ is_bytes r.
Proof.
  intros Hs H. pose proof (json_string_suffix _ _ _ H) as Hr.
  split; [|by eapply is_bytes_suffix]. revert H. unfold json_string.
  pose proof (is_bytes_suffix _ _ (json_ws_suffix s) Hs) as Hw.
  destruct (json_ws s) as [|c s1]; [done|]. apply Forall_cons in Hw as [_ Hw].
  case_if; [|done]. destruct (json_string_body _ _ _) as [[b r']|] eqn:Eb; [|done]. intros [= <- _].
  split; [|apply c_str_no_nul]. apply is_bytes_c_str.
  eapply json_string_body_bytes; [exact Hw|constructor|exact Eb].
Qed.

Lemma json_raw_value_ok s v r :
  is_bytes s → json_raw_value s = Some (v, r) → str_ok v ∧ is_bytes r.
Proof.
  intros Hs H. pose proof (json_raw_value_suffix _ _ _ H) as Hr.
  split; [|by eapply is_bytes_suffix]. revert H. unfold json_raw_value.
  pose proof (is_bytes_suffix _ _ (json_ws_suffix s) Hs) as Hw.
  destruct (json_skip_value (json_ws s)); [|done]. intros [= <- _].
  split; [|apply c_str_no_nul]. apply is_bytes_c_str. unfold span. by apply Forall_take.
Qed.

Lemma minify_loop_Forall (P : Z → Prop) i e s : Forall P s → Forall P (minify_loop i e s).
Proof.
  intros H; revert i e; induction H as [|c s Hc _ IH]; intros i e; simpl; [constructor|].
  repeat case_if; auto.
Qed.

Lemma json_minify_ok raw : str_ok raw → str_ok (json_minify_raw_value (Some raw)).
Proof.
  intros [Hb Hn]. unfold json_minify_raw_value. simpl.
  destruct (json_skip_value (json_ws raw)); [|done].
  assert (Hsub : ∀ P : Z → Prop, Forall P raw → Forall P (minify_loop false false (span (json_ws raw) l))).
  { intros P HP. apply minify_loop_Forall. unfold span. apply Forall_take.
    destruct (json_ws_suffix raw) as [p Hp]. rewrite Hp in HP. by apply Forall_app in HP as [_ ?]. }
  split; by apply Hsub.
Qed.
