(* ===== verification/Request.v ===== *)
(** * Request fields, messages and tool calls

    Model of the parsers of [engine/src/server.c] that read single request
    fields and chat messages, on the JSON reader of [Json]: thinking control and
    reasoning effort, model aliases, stop sequences, stream options, tool calls,
    messages, the completion prompt, and the argument objects that tool calls
    carry.  [engine/src/engine.c] contributes the thinking-mode helpers.

    An output parameter that a parser may leave alone is passed in and returned;
    a freed and replaced string is the new string. *)
From S2P Require Import Prelude CLib Strtod Json.
From Stdlib Require Import SpecFloat.

(** ** Thinking *)

Inductive ds4_think_mode := DS4_THINK_NONE | DS4_THINK_HIGH | DS4_THINK_MAX.

#[export] Instance ds4_think_mode_eq_dec : EqDecision ds4_think_mode.
Proof. solve_decision. Defined.

Definition ds4_think_mode_enabled (m : ds4_think_mode) : bool :=
  match m with DS4_THINK_NONE => false | _ => true end.

Definition DS4_THINK_MAX_MIN_CONTEXT : Z := 393216.

Definition ds4_think_mode_for_context (m : ds4_think_mode) (ctx_size : Z) : ds4_think_mode :=
  match m with
  | DS4_THINK_MAX =>
      if u32 (if ctx_size >? 0 then ctx_size else 0) <? DS4_THINK_MAX_MIN_CONTEXT
      then DS4_THINK_HIGH else DS4_THINK_MAX
  | _ => m
  end.

Definition think_mode_from_enabled (enabled : bool) (effort : ds4_think_mode) : ds4_think_mode :=
  if negb enabled then DS4_THINK_NONE
  else match effort with
  | DS4_THINK_NONE => DS4_THINK_NONE
  | DS4_THINK_MAX => DS4_THINK_MAX
  | DS4_THINK_HIGH => DS4_THINK_HIGH
  end.

(** Whether a string is one of a list of literals. *)
Definition one_of (s : bytes) (l : list string) : bool := existsb (λ x, bytes_eqb s (bs x)) l.

Definition parse_reasoning_effort_name (s : option bytes) : option ds4_think_mode :=
  s ← s;
  if bytes_eqb s (bs "max") then Some DS4_THINK_MAX
  else if one_of s ["xhigh"; "high"; "medium"; "low"; "minimal"] then Some DS4_THINK_HIGH
  else if bytes_eqb s (bs "none") then Some DS4_THINK_NONE
  else None.

Definition parse_reasoning_effort_value (out : ds4_think_mode) (s : bytes)
    : option (ds4_think_mode * bytes) :=
  let s := json_ws s in
  match json_lit (bs "null") s with
  | Some r => Some (out, r)
  | None =>
      '(effort, s) ← json_string s;
      m ← parse_reasoning_effort_name (Some effort);
      Some (m, s)
  end.

Definition thinking_field (key : bytes) (enabled : bool) (s : bytes) : option (bool * bytes) :=
  if bytes_eqb key (bs "type") then
    '(type, s) ← json_string s;
    Some (if bytes_eqb type (bs "enabled") then true
          else if bytes_eqb type (bs "disabled") then false else enabled, s)
  else skip_field enabled s.

Definition parse_thinking_control_value (enabled : bool) (s : bytes) : option (bool * bytes) :=
  let s := json_ws s in
  match json_lit (bs "null") s with
  | Some r => Some (enabled, r)
  | None =>
      if (hd0 s =? 116) || (hd0 s =? 102) then json_bool s
      else if negb (hd0 s =? 123) then skip_field enabled s
      else json_object thinking_field enabled s
  end.

Definition output_config_field (key : bytes) (effort : ds4_think_mode) (s : bytes)
    : option (ds4_think_mode * bytes) :=
  if bytes_eqb key (bs "effort") then parse_reasoning_effort_value effort s
  else skip_field effort s.

Definition parse_output_config_effort (effort : ds4_think_mode) (s : bytes)
    : option (ds4_think_mode * bytes) :=
  let s := json_ws s in
  match json_lit (bs "null") s with
  | Some r => Some (effort, r)
  | None =>
      if negb (hd0 s =? 123) then skip_field effort s
      else json_object output_config_field effort s
  end.

(** ** Model names *)

Definition model_alias_disables_thinking (model : option bytes) : bool :=
  match model with
  | None => false
  | Some m => one_of m ["deepseek-chat"; "glm-5.2-chat"; "glm-5.2-no-think"; "glm-5.2-nothink";
                        "zai/glm-5.2-chat"; "glm-5.3-flash-chat"; "glm-5.3-flash-no-think";
                        "glm-5.3-flash-nothink"; "zai/glm-5.3-flash-chat"]
  end.

Definition model_alias_enables_thinking (model : option bytes) : bool :=
  match model with
  | None => false
  | Some m => one_of m ["deepseek-reasoner"; "glm-5.2-reasoner"; "zai/glm-5.2-reasoner";
                        "glm-5.3-flash-reasoner"; "zai/glm-5.3-flash-reasoner"]
  end.

Definition server_model_alias_known (id : option bytes) : bool :=
  match id with
  | None => false
  | Some m => one_of m ["deepseek-v4-flash"; "deepseek-v4-pro"; "glm-5.2"; "glm-5.2-chat";
                        "glm-5.2-no-think"; "glm-5.2-nothink"; "glm-5.2-reasoner"; "zai/glm-5.2";
                        "zai/glm-5.2-chat"; "zai/glm-5.2-reasoner"; "glm-5.3-flash";
                        "glm-5.3-flash-chat"; "glm-5.3-flash-no-think"; "glm-5.3-flash-nothink";
                        "glm-5.3-flash-reasoner"; "zai/glm-5.3-flash"; "zai/glm-5.3-flash-chat";
                        "zai/glm-5.3-flash-reasoner"]
  end.

(** ** Stop sequences *)

(** [stop_list] without its capacity. *)
Record stop_list := StopList { stop_v : list bytes; stop_max_len : Z }.

Definition stop_list_clear (stops : stop_list) : stop_list := StopList [] 0.

Definition stop_list_push (stops : stop_list) (s : bytes) : stop_list :=
  match s with
  | [] => stops
  | _ => let n := Z.of_nat (length s) in
         StopList (stop_v stops ++ [s])
                  (if n >? stop_max_len stops then n else stop_max_len stops)
  end.

Definition stop_elem (stops : stop_list) (s : bytes) : option (stop_list * bytes) :=
  if hd0 s =? 34 then '(t, s) ← json_string s; Some (stop_list_push stops t, s)
  else skip_field stops s.

Definition parse_stop (out : stop_list) (s : bytes) : option (stop_list * bytes) :=
  let s := json_ws s in
  let out := stop_list_clear out in
  if hd0 s =? 34 then '(t, s) ← json_string s; Some (stop_list_push out t, s)
  else if negb (hd0 s =? 91) then skip_field out s
  else json_array stop_elem out s.

(** ** Stream options *)

Definition stream_options_field (key : bytes) (include_usage : bool) (s : bytes)
    : option (bool * bytes) :=
  if bytes_eqb key (bs "include_usage") then json_bool s else skip_field include_usage s.

Definition parse_stream_options (include_usage : bool) (s : bytes) : option (bool * bytes) :=
  let s := json_ws s in
  if negb (hd0 s =? 123) then skip_field include_usage s
  else json_object stream_options_field include_usage s.

(** ** Tool calls *)

Record tool_call := ToolCall {
  tc_id : option bytes;
  tc_name : option bytes;
  tc_arguments : option bytes;
}.

#[export] Instance tool_call_eq_dec : EqDecision tool_call.
Proof. solve_decision. Defined.

Definition tool_call_zero : tool_call := ToolCall None None None.

(** [json_string_replace], [json_raw_value_replace] and [json_content_replace]:
    the new value of the destination. *)
Definition json_string_replace (dst : option bytes) (s : bytes) : option (option bytes * bytes) :=
  '(t, s) ← json_string s; Some (Some t, s).
Definition json_raw_value_replace (dst : option bytes) (s : bytes) : option (option bytes * bytes) :=
  '(t, s) ← json_raw_value s; Some (Some t, s).
Definition json_content_replace (dst : option bytes) (s : bytes) : option (option bytes * bytes) :=
  '(t, s) ← json_content s; Some (Some t, s).

Definition function_call_field (key : bytes) (tc : tool_call) (s : bytes)
    : option (tool_call * bytes) :=
  if bytes_eqb key (bs "name") then
    '(n, s) ← json_string_replace (tc_name tc) s;
    Some (ToolCall (tc_id tc) n (tc_arguments tc), s)
  else if bytes_eqb key (bs "arguments") then
    let s := json_ws s in
    '(a, s) ← (if hd0 s =? 34 then json_string_replace (tc_arguments tc) s
               else json_raw_value_replace (tc_arguments tc) s);
    Some (ToolCall (tc_id tc) (tc_name tc) a, s)
  else skip_field tc s.

Definition parse_function_call (tc : tool_call) (s : bytes) : option (tool_call * bytes) :=
  json_object function_call_field tc (json_ws s).

Definition tool_call_field (key : bytes) (tc : tool_call) (s : bytes) : option (tool_call * bytes) :=
  if bytes_eqb key (bs "id") then
    '(i, s) ← json_string_replace (tc_id tc) s;
    Some (ToolCall i (tc_name tc) (tc_arguments tc), s)
  else if bytes_eqb key (bs "function") then parse_function_call tc s
  else skip_field tc s.

Definition tool_calls_elem (calls : list tool_call) (s : bytes) : option (list tool_call * bytes) :=
  '(tc, s) ← json_object tool_call_field tool_call_zero s;
  Some (match tc_name tc, tc_arguments tc with
        | Some _, Some _ => calls ++ [tc]
        | _, _ => calls
        end, s).

Definition parse_tool_calls_value (calls : list tool_call) (s : bytes)
    : option (list tool_call * bytes) :=
  let s := json_ws s in
  match json_lit (bs "null") s with
  | Some r => Some (calls, r)
  | None => json_array tool_calls_elem calls s
  end.

(** ** Messages *)

(** [chat_msg]; [msg_raw_tool_text] is [calls.raw_tool_text]. *)
Record chat_msg := ChatMsg {
  msg_role : option bytes;
  msg_content : option bytes;
  msg_reasoning : option bytes;
  msg_tool_call_id : option bytes;
  msg_tool_call_ids : list bytes;
  msg_calls : list tool_call;
  msg_raw_tool_text : option bytes;
}.

Definition chat_msg_zero : chat_msg := ChatMsg None None None None [] [] None.

Definition chat_msg_add_tool_call_id (m : chat_msg) (id : bytes) : chat_msg :=
  match id with
  | [] => m
  | _ =>
      let tid := match msg_tool_call_id m with None => Some id | Some t => Some t end in
      let ids := if existsb (bytes_eqb id) (msg_tool_call_ids m) then msg_tool_call_ids m
                 else msg_tool_call_ids m ++ [id] in
      ChatMsg (msg_role m) (msg_content m) (msg_reasoning m) tid ids (msg_calls m)
              (msg_raw_tool_text m)
  end.

Definition message_field (key : bytes) (m : chat_msg) (s : bytes) : option (chat_msg * bytes) :=
  if bytes_eqb key (bs "role") then
    '(v, s) ← json_string_replace (msg_role m) s;
    Some (ChatMsg v (msg_content m) (msg_reasoning m) (msg_tool_call_id m) (msg_tool_call_ids m)
            (msg_calls m) (msg_raw_tool_text m), s)
  else if bytes_eqb key (bs "content") then
    '(v, s) ← json_content_replace (msg_content m) s;
    Some (ChatMsg (msg_role m) v (msg_reasoning m) (msg_tool_call_id m) (msg_tool_call_ids m)
            (msg_calls m) (msg_raw_tool_text m), s)
  else if bytes_eqb key (bs "reasoning_content") then
    '(v, s) ← json_content_replace (msg_reasoning m) s;
    Some (ChatMsg (msg_role m) (msg_content m) v (msg_tool_call_id m) (msg_tool_call_ids m)
            (msg_calls m) (msg_raw_tool_text m), s)
  else if bytes_eqb key (bs "tool_call_id") then
    '(id, s) ← json_string s;
    Some (chat_msg_add_tool_call_id m id, s)
  else if bytes_eqb key (bs "tool_calls") then
    '(calls, s) ← parse_tool_calls_value [] s;
    Some (ChatMsg (msg_role m) (msg_content m) (msg_reasoning m) (msg_tool_call_id m)
            (msg_tool_call_ids m) calls None, s)
  else skip_field m s.

Definition message_elem (msgs : list chat_msg) (s : bytes) : option (list chat_msg * bytes) :=
  '(m, s) ← json_object message_field chat_msg_zero s;
  let m := ChatMsg (Some (default (bs "user") (msg_role m))) (Some (default [] (msg_content m)))
             (msg_reasoning m) (msg_tool_call_id m) (msg_tool_call_ids m) (msg_calls m)
             (msg_raw_tool_text m) in
  Some (msgs ++ [m], s).

Definition parse_messages (msgs : list chat_msg) (s : bytes) : option (list chat_msg * bytes) :=
  json_array message_elem msgs (json_ws s).

(** ** Tool arguments *)

Record json_arg := JsonArg { arg_key : bytes; arg_value : bytes; arg_is_string : bool }.

Definition json_args_field (key : bytes) (args : list json_arg) (s : bytes)
    : option (list json_arg * bytes) :=
  let s := json_ws s in
  if hd0 s =? 34 then
    '(v, s) ← json_string s;
    Some (args ++ [JsonArg key v true], s)
  else
    '(raw, s) ← json_raw_value s;
    Some (args ++ [JsonArg key (json_minify_raw_value (Some raw)) false], s).

Definition json_args_parse (json : option bytes) : option (list json_arg) :=
  fst <$> json_object json_args_field [] (json_ws (default [] json)).

Definition append_json_arg_pair (arg : json_arg) : bytes :=
  json_escape (arg_key arg) ++ bs ":"
  ++ (if arg_is_string arg then json_escape (arg_value arg) else arg_value arg).

(** The pairs with commas between them. *)
Fixpoint comma_join (l : list bytes) : bytes :=
  match l with
  | [] => []
  | [x] => x
  | x :: l' => x ++ bs "," ++ comma_join l'
  end.

Definition append_json_object_or_empty (json : option bytes) : bytes :=
  match json_args_parse json with
  | None => bs "{}"
  | Some args => bs "{" ++ comma_join (append_json_arg_pair <$> args) ++ bs "}"
  end.

Definition append_json_object_string (json : option bytes) : bytes :=
  json_escape (append_json_object_or_empty json).

(** One element of [append_tool_calls_json]; [snprintf] keeps 127 bytes. *)
Definition tool_call_json (id_prefix : bytes) (i : nat) (tc : tool_call) : bytes :=
  let idbuf := take 127 (id_prefix ++ bs "_tool_" ++ fmt_d (Z.of_nat i)) in
  [123; 34; 105; 100; 34; 58] ++ json_escape (default idbuf (tc_id tc))
  ++ [44] ++ json_escape (bs "type") ++ [58] ++ json_escape (bs "function")
  ++ [44] ++ json_escape (bs "function") ++ [58; 123] ++ json_escape (bs "name") ++ [58]
  ++ json_escape (default [] (tc_name tc))
  ++ [44] ++ json_escape (bs "arguments") ++ [58] ++ append_json_object_string (tc_arguments tc)
  ++ bs "}}".

Definition append_tool_calls_json (calls : list tool_call) (id_prefix : bytes) : bytes :=
  bs "[" ++ comma_join (imap (tool_call_json id_prefix) calls) ++ bs "]".

(** ** The completion prompt *)

(** The loop over the elements after the first: each is skipped. *)
Fixpoint prompt_rest (fuel : nat) (s : bytes) : option bytes :=
  match fuel with
  | O => None
  | S fuel' =>
      if (hd0 s =? 0) || (hd0 s =? 93) then Some s
      else
        let s := json_ws s in
        if hd0 s =? 44 then s ← json_skip_value (tl0 s); prompt_rest fuel' s
        else Some s
  end.

Definition parse_prompt (s : bytes) : option (bytes * bytes) :=
  let s := json_ws s in
  if hd0 s =? 34 then json_string s
  else if negb (hd0 s =? 91) then s ← json_skip_value s; Some ([], s)
  else
    let s := json_ws (tl0 s) in
    '(out, s) ← (if hd0 s =? 34 then json_string s
                 else if negb (hd0 s =? 0) && negb (hd0 s =? 93)
                      then s ← json_skip_value s; Some ([], s)
                      else Some ([], s));
    s ← prompt_rest (S (length s)) s;
    if negb (hd0 s =? 93) then None else Some (out, tl0 s).
