(* ===== verification/RequestProps.v ===== *)
(** * Correctness of the request parsers

    The object and array loops on well-formed text, the round trip of tool calls
    through the server's own JSON, the message identifiers, and the thinking
    controls of [Request]. *)
From S2P Require Import Prelude CLib Strtod Json JsonProps JsonSafe Request.
From Stdlib Require Import SpecFloat.

(** ** Escaped strings inside larger text *)

Lemma escape_hd k t : hd0 (json_escape k ++ t) = 34.
Proof. done. Qed.

Lemma escape_ws k t : json_ws (json_escape k ++ t) = json_escape k ++ t.
Proof. by apply json_ws_stop. Qed.

Lemma escape_length k t : (2 + length t <= length (json_escape k ++ t))%nat.
Proof. unfold json_escape. rewrite !length_app. simpl. lia. Qed.

#[local] Opaque json_escape json_string.

(** ** Loops *)

Section loop_lemmas.
Context {A : Type}.

Lemma obj_loop_mono (field : bytes → A → bytes → option (A * bytes)) n m st s x :
  obj_loop field n st s = Some x → (n <= m)%nat → obj_loop field m st s = Some x.
Proof.
  revert m st s; induction n as [|n IH]; intros m st s H Hm; [done|].
  destruct m as [|m]; [lia|]. cbn [obj_loop] in *. case_if; [done|]. case_if; [done|].
  destruct (json_string s) as [[k s1]|]; [|done]. cbn [mbind option_bind] in *. case_if; [done|].
  destruct (field k st _) as [[st' s2]|]; [|done]. cbn [mbind option_bind] in *.
  apply IH; [done|lia].
Qed.

Lemma arr_loop_mono (elem : A → bytes → option (A * bytes)) n m st s x :
  arr_loop elem n st s = Some x → (n <= m)%nat → arr_loop elem m st s = Some x.
Proof.
  revert m st s; induction n as [|n IH]; intros m st s H Hm; [done|].
  destruct m as [|m]; [lia|]. cbn [arr_loop] in *. case_if; [done|]. case_if; [done|].
  destruct (elem st s) as [[st' s2]|]; [|done]. cbn [mbind option_bind] in *.
  apply IH; [done|lia].
Qed.

(** One member of an object whose value the field parser consumes. *)
Lemma obj_loop_member (field : bytes → A → bytes → option (A * bytes)) fuel st k t st' rest :
  str_ok k → field k st t = Some (st', rest) →
  obj_loop field (S fuel) st (json_escape k ++ 58 :: t) = obj_loop field fuel st' (skip_comma rest).
Proof.
  intros [Hb Hn] Hf. cbn [obj_loop]. rewrite escape_hd. cbn [Z.eqb Pos.eqb].
  rewrite (json_string_escape k (58 :: t)) by done. cbn [mbind option_bind].
  rewrite json_ws_stop by done. cbn [hd0 tl0 Z.eqb Pos.eqb negb]. by rewrite Hf.
Qed.

(** One element of an array that the element parser consumes. *)
Lemma arr_loop_elem (elem : A → bytes → option (A * bytes)) fuel st s st' rest :
  hd0 s ≠ 93 → hd0 s ≠ 0 → elem st s = Some (st', rest) →
  arr_loop elem (S fuel) st s = arr_loop elem fuel st' (skip_comma rest).
Proof.
  intros H1 H2 He. cbn [arr_loop]. destruct (Z.eqb_spec (hd0 s) 93); [done|].
  destruct (Z.eqb_spec (hd0 s) 0); [done|]. by rewrite He.
Qed.

Lemma skip_comma_escape k t : skip_comma (44 :: json_escape k ++ t) = json_escape k ++ t.
Proof.
  unfold skip_comma. rewrite json_ws_stop by done. cbn [hd0 tl0 Z.eqb Pos.eqb]. apply escape_ws.
Qed.

Lemma skip_comma_other c r : isspace c = false → c ≠ 44 → skip_comma (c :: r) = c :: r.
Proof.
  intros H Hc. unfold skip_comma. rewrite !json_ws_stop by done. simpl.
  destruct (Z.eqb_spec c 44); [done|]. by rewrite json_ws_stop.
Qed.

Lemma json_object_escape (field : bytes → A → bytes → option (A * bytes)) st k t n x :
  obj_loop field n st (json_escape k ++ t) = Some x → (n <= 3 + length t)%nat →
  json_object field st (123 :: json_escape k ++ t) = Some x.
Proof.
  intros H Hn. unfold json_object. cbn [hd0 tl0 Z.eqb Pos.eqb negb].
  rewrite escape_ws. eapply obj_loop_mono; [exact H|]. pose proof (escape_length k t). lia.
Qed.
End loop_lemmas.

(** ** Tool calls *)

(** The call that the reader gets from the JSON of a call. *)
Definition wire_call (id_prefix : bytes) (i : nat) (tc : tool_call) : tool_call :=
  ToolCall (Some (default (take 127 (id_prefix ++ bs "_tool_" ++ fmt_d (Z.of_nat i))) (tc_id tc)))
    (Some (default [] (tc_name tc))) (Some (append_json_object_or_empty (tc_arguments tc))).

Definition wire_ok (tc : tool_call) : Prop :=
  (∀ x, tc_id tc = Some x → str_ok x) ∧ (∀ x, tc_name tc = Some x → str_ok x)
  ∧ (∀ x, tc_arguments tc = Some x → str_ok x).

Lemma bs_str_ok s : is_bytesb (bs s) && forallb (λ c, negb (c =? 0)) (bs s) = true → str_ok (bs s).
Proof.
  intros [H1 H2]%andb_true_iff. split; [by apply is_bytesb_ok|].
  apply List.Forall_forall. rewrite forallb_forall in H2. intros c Hc. apply H2 in Hc. lia.
Qed.

Lemma function_object tc nm ar rest :
  str_ok nm → str_ok ar →
  parse_function_call tc
    (123 :: json_escape (bs "name") ++ 58 :: json_escape nm
     ++ 44 :: json_escape (bs "arguments") ++ 58 :: json_escape ar ++ 125 :: rest)
  = Some (ToolCall (tc_id tc) (Some nm) (Some ar), rest).
Proof.
  intros Hn Ha. unfold parse_function_call. rewrite json_ws_stop by done.
  assert (Hk1 : str_ok (bs "name")) by (by apply bs_str_ok).
  assert (Hk2 : str_ok (bs "arguments")) by (by apply bs_str_ok).
  apply (json_object_escape _ _ _ _ 3); [|simpl; lia].
  set (t2 := 44 :: json_escape (bs "arguments") ++ 58 :: json_escape ar ++ 125 :: rest).
  rewrite (obj_loop_member _ _ _ _ _ (ToolCall (tc_id tc) (Some nm) (tc_arguments tc)) t2 Hk1).
  2: { unfold function_call_field, json_string_replace. simpl. by rewrite json_string_escape by apply Hn. }
  unfold t2. rewrite skip_comma_escape.
  rewrite (obj_loop_member _ _ _ _ _ (ToolCall (tc_id tc) (Some nm) (Some ar)) (125 :: rest) Hk2).
  - rewrite skip_comma_other by done. reflexivity.
  - unfold function_call_field, json_string_replace. rewrite escape_ws, escape_hd. simpl.
    by rewrite json_string_escape by apply Ha.
Qed.

(** *** Canonical arguments *)

Lemma str_ok_app a b : str_ok a → str_ok b → str_ok (a ++ b).
Proof. intros [? ?] [? ?]. split; by apply Forall_app. Qed.

Lemma str_ok_escape s : str_ok s → str_ok (json_escape s).
Proof.
  intros [Hb Hn]. split; [|by apply escape_no_nul].
  with_strategy transparent [json_escape] unfold json_escape.
  apply Forall_app. split; [by apply is_bytesb_ok|].
  apply Forall_app. split; [|by apply is_bytesb_ok].
  clear Hn. induction Hb as [|c s Hc _ IH]; csimpl; [constructor|]. apply Forall_app. split; [|done].
  unfold escape_char, is_u8 in *. repeat case_if; bool_to_prop; try (repeat constructor; lia).
  apply Forall_app. split; [by apply is_bytesb_ok|]. apply Forall_fmap, Forall_true. intros sh.
  unfold compose. change 15 with (Z.ones 4). rewrite Z.land_ones by lia.
  pose proof (Z.mod_pos_bound (Z.shiftr c sh) (2 ^ 4) ltac:(lia)) as Hm.
  assert (Hd : is_bytes (bs "0123456789abcdef")) by (by apply is_bytesb_ok).
  apply (proj1 (List.Forall_forall _ _) Hd), nth_In.
  change (length (bs "0123456789abcdef")) with 16%nat. lia.
Qed.

Lemma comma_join_ok l : Forall str_ok l → str_ok (comma_join l).
Proof.
  induction 1 as [|x l Hx Hl IH]; [split; constructor|]. destruct l as [|y l]; [done|].
  change (comma_join (x :: y :: l)) with (x ++ bs "," ++ comma_join (y :: l)).
  apply str_ok_app; [done|]. apply str_ok_app; [by apply bs_str_ok|done].
Qed.

Definition arg_ok (a : json_arg) : Prop := str_ok (arg_key a) ∧ str_ok (arg_value a).

Lemma json_args_field_ok k args s args' r :
  is_bytes s → str_ok k → Forall arg_ok args →
  json_args_field k args s = Some (args', r) → Forall arg_ok args' ∧ is_bytes r.
Proof.
  intros Hs Hk Ha. unfold json_args_field.
  pose proof (is_bytes_suffix _ _ (json_ws_suffix s) Hs) as Hw. case_if.
  - destruct (json_string (json_ws s)) as [[v s4]|] eqn:Ev; [|done]. intros [= <- <-].
    apply json_string_ok in Ev as [Hv Hs4]; [|done]. split; [|done].
    apply Forall_app. split; [done|]. by apply Forall_singleton.
  - destruct (json_raw_value (json_ws s)) as [[v s4]|] eqn:Ev; [|done]. intros [= <- <-].
    apply json_raw_value_ok in Ev as [Hv Hs4]; [|done]. split; [|done].
    apply Forall_app. split; [done|]. apply Forall_singleton. split; [done|]. by apply json_minify_ok.
Qed.

Lemma json_args_loop_ok fuel args s args' r :
  is_bytes s → Forall arg_ok args →
  obj_loop json_args_field fuel args s = Some (args', r) → Forall arg_ok args'.
Proof.
  revert args s; induction fuel as [|fuel IH]; intros args s Hs Ha; [done|]. cbn [obj_loop].
  case_if; [by intros [= <- _]|]. case_if; [done|].
  destruct (json_string s) as [[k s1]|] eqn:Ek; [|done]. cbn [mbind option_bind].
  apply json_string_ok in Ek as [Hk Hs1]; [|done]. case_if; [done|].
  destruct (json_args_field k args _) as [[args1 s2]|] eqn:Ef; [|done]. cbn [mbind option_bind].
  apply json_args_field_ok in Ef as [Ha1 Hs2]; [|by eapply is_bytes_suffix, Hs1; apply tl_ws_suffix|done|done].
  apply IH; [|done]. by eapply is_bytes_suffix, Hs2; apply skip_comma_suffix.
Qed.

Lemma canonical_args_ok j :
  (∀ x, j = Some x → str_ok x) → str_ok (append_json_object_or_empty j).
Proof.
  intros Hj. unfold append_json_object_or_empty, json_args_parse, json_object.
  assert (Hb : is_bytes (default [] j)) by (destruct j as [x|]; [by apply Hj|constructor]).
  case_if; [by apply bs_str_ok|].
  set (s := json_ws (tl0 _)). assert (Hs : is_bytes s).
  { eapply is_bytes_suffix; [apply json_ws_suffix|].
    eapply is_bytes_suffix; [apply tl_ws_suffix|done]. }
  destruct (obj_loop _ _ _ s) as [[args r]|] eqn:El; [|by apply bs_str_ok]. simpl.
  apply json_args_loop_ok in El; [|done|constructor].
  change (123 :: ?x) with (bs "{" ++ x). apply str_ok_app; [by apply bs_str_ok|].
  apply str_ok_app; [|by apply bs_str_ok]. apply comma_join_ok, Forall_fmap.
  eapply Forall_impl; [exact El|]. intros a [Hk Hv]. unfold compose, append_json_arg_pair.
  apply str_ok_app; [by apply str_ok_escape|]. apply str_ok_app; [by apply bs_str_ok|].
  case_if; [by apply str_ok_escape|done].
Qed.

(** *** The round trip *)

Lemma tool_call_json_eq pre i tc rest :
  tool_call_json pre i tc ++ rest
  = 123 :: json_escape (bs "id") ++ 58 :: json_escape
      (default (take 127 (pre ++ bs "_tool_" ++ fmt_d (Z.of_nat i))) (tc_id tc))
    ++ 44 :: json_escape (bs "type") ++ 58 :: json_escape (bs "function")
    ++ 44 :: json_escape (bs "function") ++ 58 :: 123 :: json_escape (bs "name")
    ++ 58 :: json_escape (default [] (tc_name tc))
    ++ 44 :: json_escape (bs "arguments") ++ 58 :: append_json_object_string (tc_arguments tc)
    ++ 125 :: 125 :: rest.
Proof. unfold tool_call_json. cbn zeta. rewrite <- !(assoc_L (++)). reflexivity. Qed.

Lemma tool_call_object pre i tc rest :
  str_ok pre → wire_ok tc →
  json_object tool_call_field tool_call_zero (tool_call_json pre i tc ++ rest)
  = Some (wire_call pre i tc, rest).
Proof.
  intros Hp (Hid & Hnm & Har). rewrite tool_call_json_eq. unfold wire_call.
  set (id := default _ (tc_id tc)). set (nm := default [] (tc_name tc)).
  assert (Hi : str_ok id).
  { unfold id. destruct (tc_id tc) as [x|]; [by apply Hid|]. simpl.
    assert (Hd : str_ok (fmt_d (Z.of_nat i))).
    { assert (Hf : Forall (λ c, isdigit c = true) (fmt_d (Z.of_nat i))).
      { unfold fmt_d. destruct (Z.ltb_spec (Z.of_nat i) 0); [lia|]. unfold fmt_u.
        apply Forall_rev. apply digits_rev_digit. lia. }
      split; (eapply Forall_impl; [exact Hf|]); intros c Hc; apply isdigit_true in Hc;
        unfold is_u8; lia. }
    destruct (str_ok_app _ _ Hp (str_ok_app _ _ (bs_str_ok "_tool_" eq_refl) Hd)) as [H1 H2].
    split; by apply Forall_take. }
  assert (Hn : str_ok nm).
  { unfold nm. destruct (tc_name tc) as [x|]; [by apply Hnm|split; constructor]. }
  pose proof (canonical_args_ok (tc_arguments tc) Har) as Ha. unfold append_json_object_string.
  set (ar := append_json_object_or_empty (tc_arguments tc)) in *. clearbody id nm ar.
  apply (json_object_escape _ _ _ _ 4).
  2: { repeat (rewrite length_app || cbn [length]). lia. }
  set (t4 := 123 :: json_escape (bs "name") ++ _).
  set (t3 := 44 :: json_escape (bs "function") ++ 58 :: t4).
  set (t2 := 44 :: json_escape (bs "type") ++ 58 :: json_escape (bs "function") ++ t3).
  rewrite (obj_loop_member _ _ _ _ _ (ToolCall (Some id) None None) t2); [|by apply bs_str_ok|].
  2: { unfold tool_call_field, json_string_replace. simpl. by rewrite json_string_escape by apply Hi. }
  unfold t2. rewrite skip_comma_escape.
  rewrite (obj_loop_member _ _ _ _ _ (ToolCall (Some id) None None) t3); [|by apply bs_str_ok|].
  2: { unfold tool_call_field, skip_field. simpl. by rewrite json_skip_value_escape by (by apply bs_str_ok). }
  unfold t3. rewrite skip_comma_escape.
  rewrite (obj_loop_member _ _ _ _ _ (ToolCall (Some id) (Some nm) (Some ar)) (125 :: rest));
    [|by apply bs_str_ok|].
  2: { unfold tool_call_field, t4. simpl. by rewrite function_object. }
  rewrite skip_comma_other by done. reflexivity.
Qed.

Lemma tool_calls_loop pre calls acc k rest :
  str_ok pre → Forall wire_ok calls →
  arr_loop tool_calls_elem (S (length calls)) acc
    (comma_join (imap (λ i, tool_call_json pre (k + i)) calls) ++ 93 :: rest)
  = Some (acc ++ imap (λ i, wire_call pre (k + i)) calls, rest).
Proof.
  intros Hp Hc. revert acc k. induction Hc as [|tc calls Htc Hc IH]; intros acc k.
  { cbn. by rewrite app_nil_r. }
  assert (Hel : ∀ t, tool_calls_elem acc (tool_call_json pre (k + 0) tc ++ t)
                     = Some (acc ++ [wire_call pre (k + 0) tc], t)).
  { intros t. unfold tool_calls_elem. by rewrite tool_call_object. }
  assert (Hhd : ∀ j tc' t, ∃ u, tool_call_json pre j tc' ++ t = 123 :: u)
    by (intros; by rewrite tool_call_json_eq; eexists).
  assert (Hstep : ∀ t fuel, arr_loop tool_calls_elem (S fuel) acc (tool_call_json pre (k + 0) tc ++ t)
    = arr_loop tool_calls_elem fuel (acc ++ [wire_call pre (k + 0) tc]) (skip_comma t)).
  { intros t fuel. apply arr_loop_elem; [..|apply Hel]; destruct (Hhd (k + 0)%nat tc t) as [u ->]; done. }
  rewrite !imap_cons. cbn [length].
  assert (Hext : ∀ (A : Type) (f : nat → tool_call → A) l,
            imap ((λ i, f (k + i)%nat) ∘ S) l = imap (λ i, f (S k + i)%nat) l).
  { intros A f l. apply imap_ext. intros i x _. unfold compose. f_equal. lia. }
  rewrite !Hext. destruct calls as [|tc2 calls].
  - cbn [imap comma_join]. rewrite Hstep, skip_comma_other by done. done.
  - change (comma_join (?x :: imap ?f (tc2 :: calls)))
      with (x ++ bs "," ++ comma_join (imap f (tc2 :: calls))).
    rewrite <- !(assoc_L (++)), Hstep.
    assert (Hsk : skip_comma (bs "," ++ comma_join (imap (λ i, tool_call_json pre (S k + i)) (tc2 :: calls)) ++ 93 :: rest)
                  = comma_join (imap (λ i, tool_call_json pre (S k + i)) (tc2 :: calls)) ++ 93 :: rest).
    { unfold skip_comma. change (bs "," ++ ?x) with (44 :: x). rewrite json_ws_stop by done.
      cbn [hd0 tl0 Z.eqb Pos.eqb]. rewrite imap_cons. destruct (imap _ calls);
        cbn [comma_join]; rewrite <- ?(assoc_L (++)).
      all: match goal with |- context [tool_call_json ?p ?j ?c ++ ?t] =>
             destruct (Hhd j c t) as [w ->] end; by apply json_ws_stop. }
    rewrite Hsk, IH. by rewrite <- (assoc_L (++)).
Qed.

Lemma comma_join_length (l : list bytes) :
  Forall (λ x, x ≠ []) l → (length l <= length (comma_join l))%nat.
Proof.
  induction 1 as [|x l Hx Hl IH]; [done|]. assert (0 < length x)%nat by (destruct x; [done|simpl; lia]).
  destruct l as [|y l]; [simpl; lia|].
  change (comma_join (x :: y :: l)) with (x ++ bs "," ++ comma_join (y :: l)).
  rewrite !length_app. cbn [length] in *. lia.
Qed.

Lemma tool_calls_roundtrip pre calls rest :
  str_ok pre → Forall wire_ok calls →
  parse_tool_calls_value [] (append_tool_calls_json calls pre ++ rest)
  = Some (imap (wire_call pre) calls, rest).
Proof.
  intros Hp Hc. unfold parse_tool_calls_value, append_tool_calls_json.
  rewrite <- !(assoc_L (++)). change (bs "[" ++ ?x) with (91 :: x). change (bs "]" ++ rest) with (93 :: rest).
  rewrite json_ws_stop by done. unfold json_lit. 
  pose proof (tool_calls_loop pre calls [] 0 rest Hp Hc) as Hl. cbn [Nat.add app] in Hl.
  set (t := comma_join _ ++ _) in *.
  assert (Hws : json_ws t = t).
  { unfold t. destruct calls as [|tc calls]; [by apply json_ws_stop|]. rewrite imap_cons.
    destruct (imap _ calls); cbn [comma_join]; rewrite <- ?(assoc_L (++)), tool_call_json_eq;
      by apply json_ws_stop. }
  assert (strip_prefix (bs "null") (91 :: t) = None) as -> by done.
  unfold json_array. cbn [hd0 tl0 Z.eqb Pos.eqb negb]. rewrite Hws.
  eapply arr_loop_mono; [exact Hl|]. unfold t. rewrite length_app. clear.
  pose proof (comma_join_length (imap (tool_call_json pre) calls)) as Hj.
  rewrite length_imap in Hj.
  change (imap (λ i, tool_call_json pre i) calls) with (imap (tool_call_json pre) calls).
  cbn [length]. enough (Forall (λ x, x ≠ []) (imap (tool_call_json pre) calls)) as Hne
    by (specialize (Hj Hne); lia).
  apply Forall_lookup. intros i x. rewrite list_lookup_imap. intros (tc & _ & ->)%fmap_Some. done.
Qed.

(** Tool calls survive the server's own JSON: parsing the [tool_calls]
    array that [append_tool_calls_json] writes gives back every call, in order,
    with its identifier (or the generated one), its name and its arguments in
    canonical form, and consumes exactly the array. *)
Theorem tool_calls_json_roundtrip pre calls rest
    (Hpre : str_ok pre) (Hcalls : Forall wire_ok calls) :
  parse_tool_calls_value [] (append_tool_calls_json calls pre ++ rest)
  = Some (imap (wire_call pre) calls, rest).
Proof. by apply tool_calls_roundtrip. Qed.

(** Witness: two calls, one without an identifier. *)
Lemma tool_calls_json_roundtrip_witness :
  parse_tool_calls_value []
    (append_tool_calls_json
       [ToolCall (Some (bs "c1")) (Some (bs "ls")) (Some (bs "{ }")); ToolCall None None None]
       (bs "x") ++ bs ",")
  = Some ([ToolCall (Some (bs "c1")) (Some (bs "ls")) (Some (bs "{}"));
           ToolCall (Some (bs "x_tool_1")) (Some []) (Some (bs "{}"))], bs ",").
Proof.
  rewrite (tool_calls_json_roundtrip (bs "x")
    [ToolCall (Some (bs "c1")) (Some (bs "ls")) (Some (bs "{ }")); ToolCall None None None] (bs ",")).
  - vm_compute. reflexivity.
  - by apply bs_str_ok.
  - apply List.Forall_cons; [|apply List.Forall_cons; [|apply List.Forall_nil]].
    all: split; [|split]; simpl; intros x Hx; simplify_eq; by apply bs_str_ok.
Defined.

(** ** Invariants through the loops *)

Section loop_invariants.
Context {A : Type} (P : A → Prop).

Lemma json_object_inv (field : bytes → A → bytes → option (A * bytes)) st s st' r :
  (∀ k st s st' r, P st → field k st s = Some (st', r) → P st') →
  P st → json_object field st s = Some (st', r) → P st'.
Proof.
  intros Hf Hst. unfold json_object. case_if; [done|]. set (fuel := S _). clearbody fuel.
  generalize (json_ws (tl0 s)) as t. revert st Hst.
  induction fuel as [|fuel IH]; intros st Hst t; [done|]. cbn [obj_loop].
  case_if; [by intros [= <- _]|]. case_if; [done|].
  destruct (json_string t) as [[k s1]|]; [|done]. cbn [mbind option_bind]. case_if; [done|].
  destruct (field k st _) as [[st1 s2]|] eqn:Ef; [|done]. cbn [mbind option_bind].
  apply IH. by eapply Hf.
Qed.

Lemma json_array_inv (elem : A → bytes → option (A * bytes)) st s st' r :
  (∀ st s st' r, P st → elem st s = Some (st', r) → P st') →
  P st → json_array elem st s = Some (st', r) → P st'.
Proof.
  intros Hf Hst. unfold json_array. case_if; [done|]. set (fuel := S _). clearbody fuel.
  generalize (json_ws (tl0 s)) as t. revert st Hst.
  induction fuel as [|fuel IH]; intros st Hst t; [done|]. cbn [arr_loop].
  case_if; [by intros [= <- _]|]. case_if; [done|].
  destruct (elem st t) as [[st1 s2]|] eqn:Ef; [|done]. cbn [mbind option_bind].
  apply IH. by eapply Hf.
Qed.
End loop_invariants.

(** The identifiers of a message: no duplicates, none empty, and the single
    identifier is the first of them. *)
Definition ids_ok (m : chat_msg) : Prop :=
  NoDup (msg_tool_call_ids m) ∧ Forall (λ i, i ≠ []) (msg_tool_call_ids m)
  ∧ msg_tool_call_id m = head (msg_tool_call_ids m).

Definition calls_ok (m : chat_msg) : Prop :=
  Forall (λ tc, is_Some (tc_name tc) ∧ is_Some (tc_arguments tc)) (msg_calls m).

Lemma existsb_bytes_eqb id l : existsb (bytes_eqb id) l = true ↔ id ∈ l.
Proof.
  rewrite existsb_exists. split.
  - intros (x & Hx & <-%bytes_eqb_eq). by apply list_elem_of_In.
  - intros H. exists id. split; [by apply list_elem_of_In|apply bytes_eqb_refl].
Qed.

Lemma add_tool_call_id_ok m id : ids_ok m → ids_ok (chat_msg_add_tool_call_id m id).
Proof.
  intros (Hnd & Hne & Hid). destruct id as [|c id]; [done|]. cbn [chat_msg_add_tool_call_id].
  set (i := c :: id). unfold ids_ok. cbn [msg_tool_call_ids msg_tool_call_id].
  destruct (existsb (bytes_eqb i) (msg_tool_call_ids m)) eqn:E.
  - split; [done|]. split; [done|]. apply existsb_bytes_eqb in E. rewrite Hid.
    destruct (msg_tool_call_ids m) as [|x l]; [set_solver|done].
  - assert (Hni : i ∉ msg_tool_call_ids m) by (rewrite <- existsb_bytes_eqb; by rewrite E).
    split; [|split].
    + apply NoDup_app. split; [done|]. split; [set_solver|apply NoDup_singleton].
    + apply Forall_app. split; [done|]. by apply Forall_singleton.
    + rewrite Hid. by destruct (msg_tool_call_ids m).
Qed.

Lemma parse_tool_calls_ok s calls r :
  parse_tool_calls_value [] s = Some (calls, r) →
  Forall (λ tc, is_Some (tc_name tc) ∧ is_Some (tc_arguments tc)) calls.
Proof.
  unfold parse_tool_calls_value. destruct (json_lit _ _); [intros [= <- _]; constructor|].
  apply json_array_inv; [|constructor]. intros cs s1 cs' r' Hcs. unfold tool_calls_elem.
  destruct (json_object _ _ _) as [[tc s2]|]; [|done]. cbn [mbind option_bind]. intros [= <- _].
  destruct (tc_name tc) eqn:En; [|done]. destruct (tc_arguments tc) eqn:Ea; [|done].
  apply Forall_app. split; [done|]. apply Forall_singleton. rewrite En, Ea. by split; eexists.
Qed.

Lemma message_field_ok k m s m' r :
  ids_ok m ∧ calls_ok m → message_field k m s = Some (m', r) → ids_ok m' ∧ calls_ok m'.
Proof.
  intros [Hi Hc]. unfold message_field, json_string_replace, json_content_replace.
  repeat case_if.
  - destruct (json_string s) as [[v s1]|]; [|done]. intros [= <- _]. by split.
  - destruct (json_content s) as [[v s1]|]; [|done]. intros [= <- _]. by split.
  - destruct (json_content s) as [[v s1]|]; [|done]. intros [= <- _]. by split.
  - destruct (json_string s) as [[v s1]|]; [|done]. intros [= <- _]. split; [by apply add_tool_call_id_ok|].
    unfold chat_msg_add_tool_call_id. by destruct v.
  - destruct (parse_tool_calls_value [] s) as [[cs s1]|] eqn:Ep; [|done]. intros [= <- _].
    split; [done|]. by eapply parse_tool_calls_ok.
  - unfold skip_field. destruct (json_skip_value s); [|done]. by intros [= <- _].
Qed.

(** C40. Every message that [parse_messages] accepts has a role and a content,
    its tool-call identifiers are nonempty and distinct with the first one as
    the message's identifier, and each of its tool calls has a name and
    arguments. *)
Theorem parse_messages_wf s msgs r (Hp : parse_messages [] s = Some (msgs, r)) :
  Forall (λ m, is_Some (msg_role m) ∧ is_Some (msg_content m) ∧ ids_ok m ∧ calls_ok m) msgs.
Proof.
  revert Hp. unfold parse_messages. apply json_array_inv; [|constructor].
  intros ms s1 ms' r' Hms. unfold message_elem.
  destruct (json_object _ _ _) as [[m s2]|] eqn:Ej; [|done]. cbn [mbind option_bind].
  intros [= <- _]. apply Forall_app. split; [done|]. apply Forall_singleton.
  apply (json_object_inv (λ m, ids_ok m ∧ calls_ok m)) in Ej as [Hi Hc].
  - split; [by eexists|]. split; [by eexists|]. by split.
  - intros. by eapply message_field_ok.
  - split; [|constructor]. split; [constructor|]. by split; [constructor|].
Qed.

(** Witness of C26: a tool result and an assistant message without content. *)
Definition demo_messages : bytes :=
  [91; 123] ++ json_escape (bs "role") ++ [58] ++ json_escape (bs "tool") ++ [44]
  ++ json_escape (bs "tool_call_id") ++ [58] ++ json_escape (bs "c1") ++ [125; 44; 123; 125; 93].

Lemma parse_messages_wf_witness :
  ∃ msgs r, parse_messages [] demo_messages = Some (msgs, r) ∧ length msgs = 2%nat
    ∧ Forall (λ m, is_Some (msg_role m) ∧ is_Some (msg_content m) ∧ ids_ok m ∧ calls_ok m) msgs.
Proof.
  destruct (parse_messages [] demo_messages) as [[msgs r]|] eqn:E.
  - exists msgs, r. split; [done|]. split; [|exact (parse_messages_wf _ _ _ E)].
    vm_compute in E. by injection E as <- <-.
  - vm_compute in E. done.
Defined.
