(* ===== verification/JsonTree.v ===== *)
(** * JSON documents as trees

    Trees for documents, the documents that nest no deeper than the reader goes, and what
    a cursor-based reader does on the printed form of a document: [reads f g] says that
    the reader [f] consumes exactly the value and returns what [g] computes from the tree.
    The rules below follow the way readers are put together: a string, a number, an
    object member by member, an array element by element. *)
From S2P Require Import Prelude CLib Strtod Json JsonProps JsonSafe Request RequestProps.
From Stdlib Require Import SpecFloat.

(** ** Trees *)

Definition jint (n : Z) : json := JNum (n <? 0) (fmt_u (Z.abs n)).
Definition key (s : string) (v : json) : bytes * json := (bs s, v).
Definition jtext (s : string) : json := JStr (bs s).
Definition jzero : json := JNum false [48].

(** Text that stands in a string as it is. *)
Definition plain_text (s : bytes) : Prop := Forall (λ c, 32 <= c < 256 ∧ c ≠ 34 ∧ c ≠ 92) s.

Lemma jint_print n : jprint (jint n) = fmt_d n.
Proof. unfold jint, fmt_d. cbn. destruct (Z.ltb_spec n 0); [rewrite Z.abs_neq by lia|rewrite Z.abs_eq by lia]; done. Qed.

Lemma jint_ok n : json_ok (jint n).
Proof. constructor. apply num_text_digits. split; [apply fmt_u_nonempty|apply fmt_u_digit; lia]. Qed.

Lemma plain_escape s : plain_text s → json_escape s = 34 :: s ++ [34].
Proof.
  intros H. unfold json_escape. cbn [app]. f_equal. f_equal. induction H as [|c s Hc H IH]; [done|]. cbn [mbind list_bind] in *. rewrite IH.
  unfold escape_char. repeat case_if; bool_to_prop; try lia. done.
Qed.

Lemma plain_ok s : plain_text s → str_ok s.
Proof. intros H. split; (eapply Forall_impl; [exact H|]); cbn; unfold is_u8; lia. Qed.

(** The items of an array or the members of an object, with commas. *)
Lemma join_close_comma close items : join_close close items = comma_join items ++ [close].
Proof. induction items as [|x items IH]; [done|]. destruct items as [|y items]; [done|]. cbn [join_close comma_join] in *. rewrite IH, <- !app_assoc. done. Qed.

(** ** Documents *)

Lemma str_ok_nil : str_ok [].
Proof. split; constructor. Qed.

Lemma str_ok_take n s : str_ok s → str_ok (take n s).
Proof. intros [H1 H2]. split; by apply Forall_take. Qed.

Lemma fmt_d_ok n : str_ok (fmt_d n).
Proof.
  assert (∀ m, 0 <= m → str_ok (fmt_u m)) as H.
  { intros m Hm. pose proof (fmt_u_digit m Hm) as Hd. split; (eapply Forall_impl; [exact Hd|]); intros c Hc%isdigit_true; unfold is_u8; lia. }
  unfold fmt_d. destruct (Z.ltb_spec n 0); [|by apply H]. destruct (H (- n)) as [H1 H2]; [lia|]. split; by constructor.
Qed.

(** A document that nests at most [d] deep. *)
Definition doc (d : Z) (v : json) : Prop := json_ok v ∧ jdepth v <= d.

Lemma doc_null d : 0 <= d → doc d JNull.
Proof. intros H. split; [constructor|done]. Qed.
Lemma doc_str d s : 0 <= d → str_ok s → doc d (JStr s).
Proof. intros H Hs. split; [by constructor|done]. Qed.
Lemma doc_text d s : 0 <= d → is_bytesb (bs s) && forallb (λ c, negb (c =? 0)) (bs s) = true → doc d (jtext s).
Proof. intros H Hs. apply doc_str; [done|by apply bs_str_ok]. Qed.
Lemma doc_int d n : 0 <= d → doc d (jint n).
Proof. intros H. split; [apply jint_ok|done]. Qed.
Lemma doc_zero d : 0 <= d → doc d jzero.
Proof. intros H. split; [|done]. constructor. apply num_text_digits. by repeat constructor. Qed.

Lemma doc_arr d l : 1 <= d → Forall (doc (d - 1)) l → doc d (JArr l).
Proof.
  intros Hd H. split; [constructor; eapply Forall_impl; [exact H|]; by intros v [? _]|]. cbn [jdepth].
  assert (foldr (λ v m, Z.max (jdepth v) m) 0 l <= d - 1); [|lia]. induction H as [|v l [_ Hv] H IH]; cbn; lia.
Qed.

Lemma doc_obj d l : 1 <= d → Forall (λ kv, str_ok kv.1 ∧ doc (d - 1) kv.2) l → doc d (JObj l).
Proof.
  intros Hd H. split; [constructor; eapply Forall_impl; [exact H|]; by intros v (? & ? & _)|]. cbn [jdepth].
  assert (foldr (λ kv m, Z.max (jdepth kv.2) m) 0 l <= d - 1); [|lia]. induction H as [|v l (_ & _ & Hv) H IH]; cbn in *; lia.
Qed.

Lemma doc_key d s v : is_bytesb (bs s) && forallb (λ c, negb (c =? 0)) (bs s) = true → doc d v → str_ok (key s v).1 ∧ doc d (key s v).2.
Proof. intros Hs Hv. split; [by apply bs_str_ok|done]. Qed.

Create HintDb docs.
#[export] Hint Resolve str_ok_nil plain_ok str_ok_take fmt_d_ok str_ok_app : docs.
#[export] Hint Extern 1 (str_ok (bs _)) => (apply bs_str_ok; reflexivity) : docs.

Ltac solve_doc := repeat first
  [ assumption | apply doc_obj; [lia|] | apply doc_arr; [lia|] | apply doc_text; [lia|reflexivity] | apply doc_str; [lia|by eauto with docs]
  | apply doc_int; lia | apply doc_zero; lia | apply doc_null; lia | apply doc_key; [reflexivity|] | apply List.Forall_cons | apply List.Forall_nil ].

Lemma doc_accepted v rest : doc 256 v → value_end rest → json_skip_value (jprint v ++ rest) = Some rest.
Proof.
  intros [Hok Hd] Hr. destruct (skip_raw_print v rest Hok Hr) as [-> _]. by destruct (Z.leb_spec (jdepth v) 256); [|lia].
Qed.


Lemma doc_mono d d' v : doc d v → d <= d' → doc d' v.
Proof. intros [H1 H2] H. split; [done|lia]. Qed.

Lemma doc_arr_inv d l : doc d (JArr l) → Forall (doc (d - 1)) l.
Proof.
  intros [H1 H2]. inversion H1 as [| | | |? Hl|]; subst. cbn [jdepth] in H2. clear H1.
  induction Hl as [|v l Hv Hl IH]; [constructor|]. cbn in H2. constructor; [split; [done|lia]|apply IH; lia].
Qed.

Lemma doc_obj_inv d l : doc d (JObj l) → Forall (λ kv, str_ok kv.1 ∧ doc (d - 1) kv.2) l.
Proof.
  intros [H1 H2]. inversion H1 as [| | | | |? Hl]; subst. cbn [jdepth] in H2. clear H1.
  induction Hl as [|[k v] l [Hk Hv] Hl IH]; [constructor|]. cbn in *. constructor; [split; [done|split; [done|cbn; lia]]|apply IH; lia].
Qed.

Lemma doc_arr_weak l : doc 256 (JArr l) → Forall (doc 256) l.
Proof. intros H%doc_arr_inv. eapply Forall_impl; [exact H|]. intros v Hv. eapply doc_mono; [exact Hv|lia]. Qed.

Lemma doc_obj_weak l : doc 256 (JObj l) → Forall (λ kv, str_ok kv.1 ∧ doc 256 kv.2) l.
Proof. intros H%doc_obj_inv. eapply Forall_impl; [exact H|]. intros v [Hk Hv]. split; [done|]. eapply doc_mono; [exact Hv|lia]. Qed.

(** ** The first byte of a value *)

Definition is_str (v : json) : bool := match v with JStr _ => true | _ => false end.
Definition is_arr (v : json) : bool := match v with JArr _ => true | _ => false end.
Definition is_obj (v : json) : bool := match v with JObj _ => true | _ => false end.
Definition is_null (v : json) : bool := match v with JNull => true | _ => false end.

Lemma num_hd neg d rest : num_text d → ∃ c r, jprint (JNum neg d) ++ rest = c :: r ∧ (c = 45 ∨ 48 <= c <= 57).
Proof.
  intros H. cbn [jprint]. destruct neg; [by do 2 eexists; eauto|]. destruct (num_text_head d H) as (c & r & -> & Hc%isdigit_true). do 2 eexists. split; [done|lia].
Qed.

Lemma json_ok_num_inv neg d : json_ok (JNum neg d) → num_text d.
Proof. by inversion 1. Qed.

Lemma print_hd c v rest : json_ok v → c = 34 ∨ c = 91 ∨ c = 123 ∨ c = 93 ∨ c = 0 →
  (hd0 (jprint v ++ rest) =? c) = (if c =? 34 then is_str v else if c =? 91 then is_arr v else if c =? 123 then is_obj v else false).
Proof.
  intros Hok Hc. destruct v as [|b|neg d|s|l|l]; try destruct b; try (destruct Hc as [->|[->|[->|[->| ->]]]]; reflexivity).
  destruct (num_hd neg d rest (json_ok_num_inv _ _ Hok)) as (x & r & -> & Hx). cbn [hd0].
  destruct (Z.eqb_spec x c); destruct Hc as [->|[->|[->|[->| ->]]]]; try done; lia.
Qed.

Lemma print_str v rest : json_ok v → (hd0 (jprint v ++ rest) =? 34) = is_str v.
Proof. intros H. by rewrite (print_hd 34 v rest H) by auto. Qed.
Lemma print_arr v rest : json_ok v → (hd0 (jprint v ++ rest) =? 91) = is_arr v.
Proof. intros H. by rewrite (print_hd 91 v rest H) by auto. Qed.
Lemma print_obj v rest : json_ok v → (hd0 (jprint v ++ rest) =? 123) = is_obj v.
Proof. intros H. by rewrite (print_hd 123 v rest H) by auto. Qed.

Lemma print_null v rest : json_ok v → json_lit (bs "null") (jprint v ++ rest) = if is_null v then Some rest else None.
Proof.
  intros Hok. destruct v as [|b|neg d|s|l|l]; try destruct b; try reflexivity.
  destruct (num_hd neg d rest (json_ok_num_inv _ _ Hok)) as (x & r & -> & Hx). apply json_lit_miss; [intros ? ? [= <- _]; lia|done].
Qed.

Lemma print_ws v rest : json_ok v → json_ws (jprint v ++ rest) = jprint v ++ rest.
Proof. intros Hok. destruct (jprint_head v Hok) as (c & r & -> & Hc & _). by apply json_ws_stop. Qed.

(** ** Readers of values *)

Section reads.
Context {A : Type}.

Definition reads (f : bytes → option (A * bytes)) (g : json → option A) : Prop :=
  ∀ v rest, doc 256 v → value_end rest → f (jprint v ++ rest) = (λ a, (a, rest)) <$> g v.

Lemma reads_ext f g g' : reads f g → (∀ v, g v = g' v) → reads f g'.
Proof. intros H E v rest Hv Hr. by rewrite H, E. Qed.

(** A reader that first skips white space. *)
Lemma reads_ws f g : reads f g → reads (λ s, f (json_ws s)) g.
Proof. intros H v rest Hv Hr. rewrite print_ws by apply Hv. by apply H. Qed.

(** A reader that chooses by the first byte, or takes [null]. *)
Lemma reads_if_str f1 f2 g1 g2 : reads f1 g1 → reads f2 g2 →
  reads (λ s, if hd0 s =? 34 then f1 s else f2 s) (λ v, if is_str v then g1 v else g2 v).
Proof. intros H1 H2 v rest Hv Hr. rewrite print_str by apply Hv. case_match; [by apply H1|by apply H2]. Qed.
Lemma reads_if_obj f1 f2 g1 g2 : reads f1 g1 → reads f2 g2 →
  reads (λ s, if hd0 s =? 123 then f1 s else f2 s) (λ v, if is_obj v then g1 v else g2 v).
Proof. intros H1 H2 v rest Hv Hr. rewrite print_obj by apply Hv. case_match; [by apply H1|by apply H2]. Qed.
Lemma reads_if_arr f1 f2 g1 g2 : reads f1 g1 → reads f2 g2 →
  reads (λ s, if hd0 s =? 91 then f1 s else f2 s) (λ v, if is_arr v then g1 v else g2 v).
Proof. intros H1 H2 v rest Hv Hr. rewrite print_arr by apply Hv. case_match; [by apply H1|by apply H2]. Qed.
Lemma reads_unless_obj f1 f2 g1 g2 : reads f1 g1 → reads f2 g2 →
  reads (λ s, if negb (hd0 s =? 123) then f1 s else f2 s) (λ v, if is_obj v then g2 v else g1 v).
Proof. intros H1 H2 v rest Hv Hr. rewrite print_obj by apply Hv. destruct (is_obj v); [by apply H2|by apply H1]. Qed.
Lemma reads_unless_arr f1 f2 g1 g2 : reads f1 g1 → reads f2 g2 →
  reads (λ s, if negb (hd0 s =? 91) then f1 s else f2 s) (λ v, if is_arr v then g2 v else g1 v).
Proof. intros H1 H2 v rest Hv Hr. rewrite print_arr by apply Hv. destruct (is_arr v); [by apply H2|by apply H1]. Qed.
Lemma reads_or_null (a : A) f g : reads f g →
  reads (λ s, match json_lit (bs "null") s with Some r => Some (a, r) | None => f s end) (λ v, if is_null v then Some a else g v).
Proof. intros H v rest Hv Hr. rewrite print_null by apply Hv. destruct (is_null v); [done|by apply H]. Qed.
Lemma reads_fail : reads (λ _, None) (λ _, None).
Proof. done. Qed.

Lemma reads_skip (a : A) : reads (skip_field a) (λ _, Some a).
Proof. intros v rest Hv Hr. unfold skip_field. by rewrite doc_accepted. Qed.
End reads.

(** Past the white space with which the reader [f] begins. *)
Ltac past_ws f :=
  let v := fresh "v" in let rest := fresh "rest" in let Hv := fresh "Hv" in let Hr := fresh "Hr" in
  lazymatch goal with |- reads _ ?g =>
    intros v rest Hv Hr; unfold f; cbv beta zeta; rewrite !(print_ws v rest) by apply Hv;
    lazymatch goal with |- ?L = _ =>
      let L' := eval pattern (jprint v ++ rest) in L in
      lazymatch L' with ?F _ => refine ((_ : reads F g) v rest Hv Hr); clear v rest Hv Hr; cbv beta end end end.

(** A result that is put to use. *)
Lemma reads_then {A B} (f : bytes → option (A * bytes)) g (h : A → option B) : reads f g →
  reads (λ s, '(a, s) ← f s; b ← h a; Some (b, s)) (λ v, g v ≫= h).
Proof. intros H v rest Hv Hr. rewrite H by done. destruct (g v) as [a|]; [|done]. cbn. by destruct (h a). Qed.
Lemma reads_map {A B} (f : bytes → option (A * bytes)) g (h : A → B) : reads f g → reads (λ s, '(a, s) ← f s; Some (h a, s)) (λ v, h <$> g v).
Proof. intros H v rest Hv Hr. rewrite H by done. by destruct (g v). Qed.

(** ** Readers of scalars *)

Definition str_of (v : json) : option bytes := match v with JStr s => Some s | _ => None end.
Definition bool_of (v : json) : option bool := match v with JBool b => Some b | _ => None end.
Definition num_of (v : json) : option spec_float := match v with JNum neg d => Some (num_value neg d) | _ => None end.

(** A number as an [int]: nothing below zero, nothing above the largest. *)
Definition clamp_int (v : spec_float) : Z :=
  let v := if negb (SFleb (b64 0 0) v) then b64 0 0 else v in
  sf_trunc (if SFltb (b64 INT_MAX 0) v then b64 INT_MAX 0 else v).

Lemma reads_string : reads json_string str_of.
Proof.
  intros v rest Hv Hr. destruct v as [|b|neg d|s|l|l]; try destruct b; try reflexivity.
  - destruct (num_hd neg d rest (json_ok_num_inv _ _ (proj1 Hv))) as (x & r & -> & Hx). unfold json_string. rewrite json_ws_stop by (unfold isspace; lia).
    destruct (Z.eqb_spec x 34); [lia|done].
  - cbn [jprint str_of fmap option_fmap]. destruct Hv as [Hs _]. inversion Hs as [| | |? [Hb Hn]| |]; subst. by apply json_string_escape.
Qed.

Lemma reads_bool : reads json_bool bool_of.
Proof.
  intros v rest Hv Hr. destruct v as [|b|neg d|s|l|l]; try destruct b; try reflexivity.
  destruct (num_hd neg d rest (json_ok_num_inv _ _ (proj1 Hv))) as (x & r & -> & Hx). unfold json_bool. rewrite json_ws_stop by (unfold isspace; lia).
  rewrite !json_lit_miss by (try done; intros ? ? [= <- _]; lia). done.
Qed.

Lemma strtod_bracket c t : c = 34 ∨ c = 91 ∨ c = 123 → strtod (c :: t) = None.
Proof.
  intros Hc. assert (hex_start (c :: t) = None) as Hh by (destruct t as [|b t]; [done|]; by destruct Hc as [->|[->| ->]]).
  unfold strtod. assert (scan_sign (skip_space (c :: t)) = (Pos, c :: t)) as -> by (by destruct Hc as [->|[->| ->]]).
  assert (strip_nocase (bs "infinity") (c :: t) = None) as -> by (by destruct Hc as [->|[->| ->]]).
  assert (strip_nocase (bs "inf") (c :: t) = None) as -> by (by destruct Hc as [->|[->| ->]]).
  assert (strip_nocase (bs "nan") (c :: t) = None) as -> by (by destruct Hc as [->|[->| ->]]).
  rewrite Hh. assert (scan_mantissa isdigit 10 (c :: t) = (0, 0%nat, 0%nat, c :: t)) as -> by (by destruct Hc as [->|[->| ->]]). done.
Qed.

Lemma reads_number : reads json_number num_of.
Proof.
  intros v rest Hv Hr. unfold json_number. rewrite print_ws by apply Hv. destruct v as [|b|neg d|s|l|l].
  - reflexivity.
  - by destruct b.
  - cbn [jprint num_of fmap option_fmap]. rewrite <- app_assoc. apply strtod_print; [|done]. by apply (json_ok_num_inv neg), Hv.
  - apply strtod_bracket. auto.
  - apply strtod_bracket. auto.
  - apply strtod_bracket. auto.
Qed.

Lemma reads_int : reads json_int (λ v, clamp_int <$> num_of v).
Proof. intros v rest Hv Hr. unfold json_int. rewrite reads_number by done. by destruct (num_of v). Qed.

Lemma reads_raw : reads json_raw_value (λ v, Some (jprint v)).
Proof.
  intros v rest [Hok Hd] Hr. destruct (skip_raw_print v rest Hok Hr) as [_ ->]. by destruct (Z.leb_spec (jdepth v) 256); [|lia].
Qed.

(** ** Objects and arrays *)

(** The result of a reader that succeeds. *)
Ltac fmap_some := repeat match goal with |- context [@fmap option ?I ?A ?B ?f (Some ?x)] => change (@fmap option I A B f (Some x)) with (Some (f x)) end;
  cbn [mbind option_bind].

Section loops.
Context {A : Type}.

(** The members of an object, and the elements of an array, in order. *)
Fixpoint members (field : bytes → A → json → option A) (st : A) (l : list (bytes * json)) : option A :=
  match l with [] => Some st | (k, v) :: l' => st ← field k st v; members field st l' end.
Fixpoint elements (elem : A → json → option A) (st : A) (l : list json) : option A :=
  match l with [] => Some st | v :: l' => st ← elem st v; elements elem st l' end.

(** The text after a value inside an object or an array. *)
Definition after_value (close : Z) (items : list bytes) : bytes := match items with [] => [close] | _ => 44 :: join_close close items end.

Lemma join_cons close x l : join_close close (x :: l) = x ++ after_value close l.
Proof. by destruct l. Qed.

Lemma after_end close items rest : close = 93 ∨ close = 125 → value_end (after_value close items ++ rest).
Proof. intros Hc. destruct items; cbn; lia. Qed.

Lemma members_skip l rest : skip_comma (after_value 125 (member <$> l) ++ rest) = join_close 125 (member <$> l) ++ rest.
Proof.
  destruct l as [|kv l]; [by apply skip_comma_other|]. rewrite fmap_cons. unfold after_value. rewrite join_cons.
  generalize (after_value 125 (member <$> l)). intros t. unfold member. cbn [app]. rewrite <- !app_assoc. apply skip_comma_escape.
Qed.

Lemma elements_skip l rest : Forall (doc 256) l → skip_comma (after_value 93 (jprint <$> l) ++ rest) = join_close 93 (jprint <$> l) ++ rest.
Proof.
  intros H. destruct l as [|v l]; [by apply skip_comma_other|]. apply Forall_cons in H as [[Hok _] _]. rewrite fmap_cons. unfold after_value. rewrite join_cons.
  cbn [app]. rewrite <- !app_assoc. unfold skip_comma. rewrite json_ws_stop by done. cbn [hd0 tl0]. change (44 =? 44) with true. cbn iota. by apply print_ws.
Qed.

(** One member: the key is read, the colon passed. *)
Lemma member_text kv l rest : join_close 125 (member <$> kv :: l) ++ rest = json_escape kv.1 ++ 58 :: jprint kv.2 ++ after_value 125 (member <$> l) ++ rest.
Proof. rewrite fmap_cons, join_cons. unfold member at 1. by rewrite <- !app_assoc. Qed.

Lemma obj_loop_print (field : bytes → A → bytes → option (A * bytes)) fieldT (Hf : ∀ k st, reads (field k st) (fieldT k st)) l : ∀ st rest fuel,
  Forall (λ kv, str_ok kv.1 ∧ doc 256 kv.2) l → (length l < fuel)%nat →
  obj_loop field fuel st (join_close 125 (member <$> l) ++ rest) = (λ st, (st, rest)) <$> members fieldT st l.
Proof.
  induction l as [|[k v] l IH]; intros st rest fuel Hl Hfuel; destruct fuel as [|fuel]; cbn [length] in Hfuel; try lia; [done|].
  apply Forall_cons in Hl as [[[Hb Hn] Hv] Hl]. rewrite member_text. cbn [fst snd members obj_loop] in *. rewrite escape_hd. cbn [Z.eqb Pos.eqb].
  rewrite json_string_escape by done. cbn [mbind option_bind]. rewrite json_ws_stop by done. cbn [hd0 tl0 Z.eqb Pos.eqb negb].
  rewrite (Hf k st v _ Hv (after_end 125 (member <$> l) rest (or_intror eq_refl))).
  destruct (fieldT k st v) as [st'|]; [|done]. fmap_some.
  rewrite members_skip. apply IH; [done|lia].
Qed.

Lemma members_length l : (length l < length (join_close 125 (member <$> l)))%nat.
Proof.
  induction l as [|kv l IH]; [cbn; lia|]. rewrite fmap_cons, join_cons, length_app. unfold member at 1. rewrite length_app. cbn [length].
  destruct l; [cbn; lia|]. rewrite fmap_cons in *. unfold after_value. cbn [length] in *. lia.
Qed.

Lemma reads_object (field : bytes → A → bytes → option (A * bytes)) fieldT (Hf : ∀ k st, reads (field k st) (fieldT k st)) st :
  reads (json_object field st) (λ v, match v with JObj l => members fieldT st l | _ => None end).
Proof.
  intros v rest Hv Hr. unfold json_object. rewrite print_obj by apply Hv. destruct v as [|b|neg d|s|l|l]; try done. cbn [is_obj negb jprint app tl0].
  apply doc_obj_weak in Hv. fold member.
  assert (json_ws (join_close 125 (member <$> l) ++ rest) = join_close 125 (member <$> l) ++ rest) as E.
  { destruct l as [|kv l]; [done|]. rewrite member_text. apply escape_ws. }
  change (λ kv, json_escape kv.1 ++ 58 :: jprint kv.2) with member. rewrite E. apply obj_loop_print; [done|done|].
  rewrite length_app. pose proof (members_length l). lia.
Qed.

Lemma arr_loop_print (elem : A → bytes → option (A * bytes)) elemT (Hf : ∀ st, reads (elem st) (elemT st)) l : ∀ st rest fuel,
  Forall (doc 256) l → (length l < fuel)%nat →
  arr_loop elem fuel st (join_close 93 (jprint <$> l) ++ rest) = (λ st, (st, rest)) <$> elements elemT st l.
Proof.
  induction l as [|v l IH]; intros st rest fuel Hl Hfuel; destruct fuel as [|fuel]; cbn [length] in Hfuel; try lia; [done|].
  apply Forall_cons in Hl as [Hv Hl]. rewrite fmap_cons, join_cons, <- app_assoc. cbn [elements arr_loop].
  rewrite (print_hd 93 v), (print_hd 0 v) by (apply Hv || auto 6). cbn [Z.eqb Pos.eqb].
  rewrite (Hf st v _ Hv (after_end 93 (jprint <$> l) rest (or_introl eq_refl))). destruct (elemT st v) as [st'|]; [|done]. fmap_some.
  rewrite elements_skip by done. apply IH; [done|lia].
Qed.

Lemma elements_length l : Forall (doc 256) l → (length l < length (join_close 93 (jprint <$> l)))%nat.
Proof.
  induction 1 as [|v l [Hv _] Hl IH]; [cbn; lia|]. rewrite fmap_cons, join_cons, length_app. destruct (jprint_head v Hv) as (c & r & -> & _). cbn [length].
  destruct l; [cbn; lia|]. rewrite fmap_cons in *. unfold after_value. cbn [length] in *. lia.
Qed.

Lemma elements_ws l rest : Forall (doc 256) l → json_ws (join_close 93 (jprint <$> l) ++ rest) = join_close 93 (jprint <$> l) ++ rest.
Proof. intros H. destruct H as [|v l [Hv _] _]; [done|]. rewrite fmap_cons, join_cons, <- app_assoc. by apply print_ws. Qed.

Lemma reads_array (elem : A → bytes → option (A * bytes)) elemT (Hf : ∀ st, reads (elem st) (elemT st)) st :
  reads (json_array elem st) (λ v, match v with JArr l => elements elemT st l | _ => None end).
Proof.
  intros v rest Hv Hr. unfold json_array. rewrite print_arr by apply Hv. destruct v as [|b|neg d|s|l|l]; try done. cbn [is_arr negb jprint app tl0].
  apply doc_arr_weak in Hv. rewrite elements_ws by done. apply arr_loop_print; [done|done|].
  rewrite length_app. pose proof (elements_length l Hv). lia.
Qed.
End loops.

(** ** Text content *)

Definition text_member (k b : bytes) (v : json) : option bytes :=
  if bytes_eqb k (bs "text") then (λ t, b ++ t) <$> str_of v else Some b.

(** The text of a content: a string, or the strings of an array and the [text] of its
    objects; anything else has none. *)
Definition text_elem (b : bytes) (v : json) : option bytes :=
  match v with
  | JStr s => Some (b ++ s)
  | JObj l => members text_member b l
  | _ => Some b
  end.
Definition text_of (v : json) : option bytes :=
  match v with
  | JStr s => Some s
  | JArr l => elements text_elem [] l
  | _ => Some []
  end.

Lemma reads_content : reads json_content text_of.
Proof.
  past_ws json_content. eapply reads_ext.
  - apply reads_if_str; [apply reads_string|]. apply reads_or_null, reads_unless_arr; [apply (reads_skip [])|].
    apply reads_array with (elemT := text_elem). intros b. eapply reads_ext.
    + unfold content_elem. apply reads_if_str; [apply reads_map, reads_string|]. apply reads_if_obj; [|apply reads_skip].
      apply reads_object with (fieldT := text_member). intros k st. unfold content_field, text_member.
      case_match; [apply reads_map, reads_string|apply reads_skip].
    + by intros [].
  - by intros [].
Qed.
