(* ===== verification/Stream.v ===== *)
(** * Streaming generated text

    Model of the functions of [engine/src/server.c] that decide how much of the
    generated text can be sent: the search for stop sequences, the tails held
    back for a stop sequence, an incomplete UTF-8 character or a tool marker,
    the tool-marker searches, and the thinking-state automaton.

    A text is its bytes; offsets ([size_t]) are natural numbers below the length
    of the text. *)
From S2P Require Import Prelude CLib Json Request.

(** [s[i]]. *)
Definition byte_at (s : bytes) (i : nat) : Z := nth i s 0.

(** ** Stop sequences *)

(** The loop of [stop_list_find_from] over the sequences; [best] is the
    position and length found so far. *)
Fixpoint stop_scan (v : list bytes) (text : bytes) (from : nat) (best : option (nat * nat))
    : option (nat * nat) :=
  match v with
  | [] => best
  | x :: v' =>
      stop_scan v' text from
        match strstr (drop from text) x with
        | None => best
        | Some off =>
            let ppos := (from + off)%nat in
            match best with
            | None => Some (ppos, length x)
            | Some (best_pos, best_len) =>
                if (ppos <? best_pos)%nat then Some (ppos, length x) else best
            end
        end
  end.

Definition stop_list_find_from (stops : stop_list) (text : option bytes) (from : nat)
    : option (nat * nat) :=
  match stop_v stops, text with
  | [], _ | _, None => None
  | v, Some t => stop_scan v t from None
  end.

Definition stop_list_stream_safe_len (stops : stop_list) (text_len : nat) : nat :=
  match stop_v stops with
  | [] => text_len
  | _ =>
      if stop_max_len stops <=? 1 then text_len
      else
        let hold := Z.to_nat (stop_max_len stops - 1) in
        if (hold <? text_len)%nat then (text_len - hold)%nat else 0%nat
  end.

(** ** UTF-8 *)

Definition utf8_expected_len (c : Z) : nat :=
  if c <? 0x80 then 1
  else if (0xc2 <=? c) && (c <=? 0xdf) then 2
  else if (0xe0 <=? c) && (c <=? 0xef) then 3
  else if (0xf0 <=? c) && (c <=? 0xf4) then 4
  else 1.

Definition is_cont (c : Z) : bool := Z.land c 0xc0 =? 0x80.

(** The loop over trailing continuation bytes: [fuel] is [4 - cont]. *)
Fixpoint back_over_cont (s : bytes) (start : nat) (fuel p : nat) : nat :=
  match fuel with
  | O => p
  | S fuel' =>
      if (start <? p)%nat && is_cont (byte_at s (p - 1)) then back_over_cont s start fuel' (p - 1)
      else p
  end.

Definition utf8_stream_safe_len (s : option bytes) (start limit : nat) (final : bool) : nat :=
  match s with
  | None => limit
  | Some s =>
      if final || (limit <=? start)%nat then limit
      else
        let p := back_over_cont s start 4 limit in
        if (p =? limit)%nat then
          if (1 <? utf8_expected_len (byte_at s (limit - 1)))%nat then (limit - 1)%nat else limit
        else if (p =? start)%nat && is_cont (byte_at s p) then start
        else
          let lead := (p - 1)%nat in
          let need := utf8_expected_len (byte_at s lead) in
          if (limit - lead <? need)%nat then lead else limit
  end.

(** ** Tool markers *)

(** The fullwidth vertical bar of the DSML markers is the three bytes of U+FF5C. *)
Definition bar : bytes := [0xef; 0xbd; 0x9c].
Definition DS4_DSML : bytes := bar ++ bs "DSML" ++ bar.
Definition DS4_DSML_SHORT : bytes := bs "DSML" ++ bar.
Definition DS4_TOOL_CALLS_START : bytes := bs "<" ++ DS4_DSML ++ bs "tool_calls>".
Definition DS4_TOOL_CALLS_END : bytes := bs "</" ++ DS4_DSML ++ bs "tool_calls>".
Definition DS4_TOOL_CALLS_START_SHORT : bytes := bs "<" ++ DS4_DSML_SHORT ++ bs "tool_calls>".
Definition DS4_TOOL_CALLS_END_SHORT : bytes := bs "</" ++ DS4_DSML_SHORT ++ bs "tool_calls>".

Definition tool_starts : list bytes :=
  [DS4_TOOL_CALLS_START; DS4_TOOL_CALLS_START_SHORT; bs "<tool_calls>"; bs "<tool_call>"].
Definition tool_ends : list bytes :=
  [DS4_TOOL_CALLS_END; DS4_TOOL_CALLS_END_SHORT; bs "</tool_calls>"; bs "</tool_call>"].

(** The first of several candidates, by position. *)
Definition earliest (s : bytes) (markers : list bytes) : option nat :=
  foldl (λ best m, match strstr s m, best with
                   | None, _ => best
                   | Some c, None => Some c
                   | Some c, Some b => if (c <? b)%nat then Some c else best
                   end) None markers.

Definition find_any_tool_start (s : bytes) : option nat := earliest s tool_starts.
Definition find_any_tool_end (s : bytes) : option nat := earliest s tool_ends.

(** [observe_tool_markers]: the new values of the three flags. *)
Definition observe_tool_markers (scan : option bytes) (saw_start saw_end orphan_end : bool)
    : bool * bool * bool :=
  match scan with
  | None => (saw_start, saw_end, orphan_end)
  | Some scan =>
      let had_start := saw_start in
      let start := find_any_tool_start scan in
      let saw_start := match start with Some _ => true | None => saw_start end in
      let end_ := if had_start then find_any_tool_end scan
                  else match start with
                       | Some off => find_any_tool_end (drop off scan)
                       | None => None
                       end in
      match end_ with
      | Some _ => (saw_start, true, orphan_end)
      | None =>
          if negb had_start && match start with None => true | Some _ => false end
             && match find_any_tool_end scan with Some _ => true | None => false end
          then (saw_start, saw_end, true) else (saw_start, saw_end, orphan_end)
      end
  end.

Fixpoint trim_tool_separator_ws (raw : bytes) (start limit : nat) : nat :=
  match limit with
  | O => O
  | S l => if (start <? limit)%nat && isspace (byte_at raw l)
           then trim_tool_separator_ws raw start l else limit
  end.

(** The searches of [text_stream_safe_limit] and of the parameter stream for the
    last byte [c], from [i] down to [scan]. *)
Fixpoint last_byte (c : Z) (raw : bytes) (scan i : nat) : option nat :=
  match i with
  | O => None
  | S j => if (scan <? i)%nat then
             if byte_at raw j =? c then Some j else last_byte c raw scan j
           else None
  end.

Definition text_stream_safe_limit (raw : bytes) (start : nat) (has_tools final : bool) : nat :=
  let raw_len := length raw in
  if (raw_len <=? start)%nat then raw_len
  else if has_tools then
    match find_any_tool_start (drop start raw) with
    | Some tool =>
        let limit := trim_tool_separator_ws raw start (start + tool) in
        utf8_stream_safe_len (Some raw) start limit true
    | None =>
        let limit :=
          if final then raw_len
          else
            let limit := trim_tool_separator_ws raw start raw_len in
            let scan := if (80 <? raw_len - start)%nat then (raw_len - 80)%nat else start in
            let limit := match last_byte 60 raw scan raw_len with
                         | Some marker => if (marker <? limit)%nat then marker else limit
                         | None => limit
                         end in
            trim_tool_separator_ws raw start limit in
        utf8_stream_safe_len (Some raw) start limit final
    end
  else utf8_stream_safe_len (Some raw) start raw_len final.

(** ** Thinking *)

(** [tail] holds the last bytes fed, at most eight. *)
Record thinking_state := ThinkingState { ts_inside : bool; ts_tail : bytes }.

Definition thinking_tail_ends_with (st : thinking_state) (s : bytes) : bool :=
  (length s <=? length (ts_tail st))%nat
  && bytes_eqb (drop (length (ts_tail st) - length s) (ts_tail st)) s.

Definition thinking_state_step (st : thinking_state) (c : Z) : thinking_state :=
  let tail := if (length (ts_tail st) =? 8)%nat then drop 1 (ts_tail st) else ts_tail st in
  let st := ThinkingState (ts_inside st) (tail ++ [c]) in
  if thinking_tail_ends_with st (bs "<think>") then ThinkingState true (ts_tail st)
  else if thinking_tail_ends_with st (bs "</think>") then ThinkingState false (ts_tail st)
  else st.

Definition thinking_state_feed (st : thinking_state) (p : bytes) : thinking_state :=
  foldl thinking_state_step st p.

Definition thinking_state_from_prompt (prompt_text : option bytes) (think_mode : ds4_think_mode)
    : thinking_state :=
  match prompt_text with
  | Some t => thinking_state_feed (ThinkingState false []) t
  | None => ThinkingState (ds4_think_mode_enabled think_mode) []
  end.

(** [complete_tool_call_inside_thinking]: the result and the new [scan_from]. *)
Definition complete_tool_call_inside_thinking (text : bytes) (scan_from : nat) : bool * nat :=
  let len := length text in
  let scan_from := if (len <? scan_from)%nat then len else scan_from in
  match find_any_tool_start (drop scan_from text) with
  | None => (false, if (80 <? len)%nat then (len - 80)%nat else 0%nat)
  | Some off =>
      let start := (scan_from + off)%nat in
      (match find_any_tool_end (drop start text) with Some _ => true | None => false end, start)
  end.
