(* ===== verification/StreamProps.v ===== *)
(** * Correctness of the streaming limits

    Theorems about [Stream]: the stop search finds the earliest occurrence, the
    held tails never let a byte of a later stop sequence or tool marker out, the
    UTF-8 limit is a character boundary, and the bounded thinking automaton
    agrees with the definition on the whole text. *)
From S2P Require Import Prelude CLib Json JsonProps JsonSafe Request RequestProps Stream.

(** ** Occurrences *)

(** [x] occurs in [t] at offset [q]. *)
Definition occurs (t x : bytes) (q : nat) : Prop :=
  (q <= length t)%nat ∧ ∃ post, drop q t = x ++ post.

Lemma occurs_split t x q : occurs t x q ↔ ∃ pre post, t = pre ++ x ++ post ∧ length pre = q.
Proof.
  split.
  - intros [Hq [post Hd]]. exists (take q t), post. rewrite <- Hd, take_drop.
    split; [done|]. rewrite length_take. lia.
  - intros (pre & post & -> & <-). split; [rewrite length_app; lia|]. exists post.
    by rewrite drop_app_length.
Qed.

Lemma strstr_occurs s x i :
  strstr s x = Some i → occurs s x i ∧ ∀ j, occurs s x j → (i <= j)%nat.
Proof.
  intros H. split; [by apply occurs_split, strstr_Some|].
  intros j (pre & post & Hs & Hl)%occurs_split. by eapply strstr_first.
Qed.

Lemma strstr_none_occurs s x j : strstr s x = None → ¬ occurs s x j.
Proof. intros H (pre & post & Hs & _)%occurs_split. by eapply strstr_None. Qed.

Lemma occurs_drop t x from off : (from <= length t)%nat →
  occurs (drop from t) x off ↔ occurs t x (from + off).
Proof.
  intros Hf. unfold occurs. rewrite length_drop, drop_drop. split; intros [H1 H2]; (split; [lia|done]).
Qed.

Lemma occurs_app_l t more x q :
  occurs (t ++ more) x q → (q + length x <= length t)%nat → occurs t x q.
Proof.
  intros [Hq [post Hd]] Hl. split; [lia|]. exists (drop (length x) (drop q t)).
  rewrite drop_app_le in Hd by lia.
  rewrite <- (take_drop (length x) (drop q t)) at 1. f_equal.
  apply (f_equal (take (length x))) in Hd. rewrite take_app_length in Hd.
  rewrite take_app_le in Hd by (rewrite length_drop; lia). done.
Qed.

(** ** The stop search *)

(** [best] is the earliest occurrence at or after [from] of the sequences [v]. *)
Definition earliest_stop (v : list bytes) (t : bytes) (from : nat) (best : option (nat * nat)) : Prop :=
  match best with
  | None => ∀ x q, x ∈ v → (from <= q)%nat → ¬ occurs t x q
  | Some (pos, len) =>
      (from <= pos)%nat ∧ (∃ x, x ∈ v ∧ length x = len ∧ occurs t x pos)
      ∧ ∀ x q, x ∈ v → (from <= q)%nat → occurs t x q → (pos <= q)%nat
  end.

Lemma stop_scan_earliest v t from done_v best :
  (from <= length t)%nat → earliest_stop done_v t from best →
  earliest_stop (done_v ++ v) t from (stop_scan v t from best).
Proof.
  intros Hf. revert done_v best. induction v as [|x v IH]; intros done_v best Hb; simpl.
  { by rewrite app_nil_r. }
  rewrite (cons_middle x done_v v), (assoc_L (++)). apply IH.
  assert (Hshift : ∀ q, (from <= q)%nat → occurs t x q → occurs (drop from t) x (q - from)).
  { intros q Hq Ho. apply occurs_drop; [done|]. by replace (from + (q - from))%nat with q by lia. }
  destruct (strstr (drop from t) x) as [off|] eqn:Es.
  - apply strstr_occurs in Es as [Ho Hmin]. apply occurs_drop in Ho; [|done].
    assert (Hx : ∀ q, (from <= q)%nat → occurs t x q → (from + off <= q)%nat).
    { intros q Hq Hoq. pose proof (Hmin _ (Hshift q Hq Hoq)). lia. }
    destruct best as [[bp bl]|]; simpl in Hb.
    + destruct Hb as (Hfb & (y & Hy & Hl & Hoy) & Hall).
      destruct (Nat.ltb_spec (from + off) bp); simpl.
      * split; [lia|]. split; [exists x; split; [set_solver|done]|].
        intros z q [Hz|Hz]%elem_of_app Hq Hoz; [pose proof (Hall z q Hz Hq Hoz); lia|].
        apply list_elem_of_singleton in Hz as ->. by apply Hx.
      * split; [done|]. split; [exists y; split; [set_solver|done]|].
        intros z q [Hz|Hz]%elem_of_app Hq Hoz; [by eapply Hall|].
        apply list_elem_of_singleton in Hz as ->. pose proof (Hx q Hq Hoz). lia.
    + simpl. split; [lia|]. split; [exists x; split; [set_solver|done]|].
      intros z q [Hz|Hz]%elem_of_app Hq Hoz; [by destruct (Hb z q Hz Hq)|].
      apply list_elem_of_singleton in Hz as ->. by apply Hx.
  - assert (Hno : ∀ q, (from <= q)%nat → ¬ occurs t x q).
    { intros q Hq Hoq. by eapply strstr_none_occurs, (Hshift q Hq Hoq). }
    destruct best as [[bp bl]|]; simpl in *.
    + destruct Hb as (Hfb & (y & Hy & Hl & Hoy) & Hall). split; [done|].
      split; [exists y; split; [set_solver|done]|].
      intros z q [Hz|Hz]%elem_of_app Hq Hoz; [by eapply Hall|].
      apply list_elem_of_singleton in Hz as ->. by destruct (Hno q Hq).
    + intros z q [Hz|Hz]%elem_of_app Hq; [by apply Hb|]. apply list_elem_of_singleton in Hz as ->. by apply Hno.
Qed.

Lemma find_from_earliest stops t from :
  (from <= length t)%nat → earliest_stop (stop_v stops) t from (stop_list_find_from stops (Some t) from).
Proof.
  intros Hf. unfold stop_list_find_from. destruct (stop_v stops) as [|x v] eqn:Ev; [set_solver|].
  rewrite <- Ev. apply (stop_scan_earliest _ _ _ [] None Hf). set_solver.
Qed.

(** The stop search returns the earliest occurrence, at or after the given
    offset, of any of the stop sequences, with the length of a sequence that
    occurs there, and fails exactly when none occurs. *)
Theorem stop_find_earliest stops t from (Hf : (from <= length t)%nat) :
  match stop_list_find_from stops (Some t) from with
  | None => ∀ x q, x ∈ stop_v stops → (from <= q)%nat → ¬ occurs t x q
  | Some (pos, len) =>
      (from <= pos)%nat ∧ (∃ x, x ∈ stop_v stops ∧ length x = len ∧ occurs t x pos)
      ∧ ∀ x q, x ∈ stop_v stops → (from <= q)%nat → occurs t x q → (pos <= q)%nat
  end.
Proof. exact (find_from_earliest stops t from Hf). Qed.

(** Witness: the second sequence occurs first. *)
Lemma stop_find_earliest_witness :
  let stops := StopList [bs "END"; bs "xy"] 3 in
  stop_list_find_from stops (Some (bs "a xy b END")) 1 = Some (2%nat, 2%nat)
  ∧ ∀ x q, x ∈ stop_v stops → (1 <= q)%nat → occurs (bs "a xy b END") x q → (2 <= q)%nat.
Proof.
  split; [reflexivity|].
  pose proof (stop_find_earliest (StopList [bs "END"; bs "xy"] 3) (bs "a xy b END") 1
    ltac:(vm_compute; lia)) as H.
  exact (proj2 (proj2 H)).
Defined.

(** ** Holding back for a stop sequence *)

(** The sequences are nonempty and the recorded maximum is at least their lengths. *)
Definition stops_ok (stops : stop_list) : Prop :=
  0 <= stop_max_len stops
  ∧ Forall (λ x, x ≠ [] ∧ Z.of_nat (length x) <= stop_max_len stops) (stop_v stops).

Lemma stop_list_push_ok stops s : stops_ok stops → stops_ok (stop_list_push stops s).
Proof.
  intros [H0 Hall]. destruct s as [|c s]; [done|]. cbn [stop_list_push]. set (x := c :: s).
  rewrite Z.gtb_ltb. unfold stops_ok. cbn [stop_v stop_max_len].
  match goal with |- context [if ?b then ?u else ?v] => set (m := if b then u else v) end.
  assert (Hm : stop_max_len stops <= m ∧ Z.of_nat (length x) <= m).
  { unfold m. destruct (Z.ltb_spec (stop_max_len stops) (Z.of_nat (length x))); lia. }
  split; [lia|]. apply Forall_app. split; [|apply Forall_singleton; split; [done|lia]].
  eapply Forall_impl; [exact Hall|]. naive_solver lia.
Qed.

Lemma parse_stop_ok out s stops r : parse_stop out s = Some (stops, r) → stops_ok stops.
Proof.
  assert (Hclear : stops_ok (stop_list_clear out)) by (split; [simpl; lia|constructor]).
  unfold parse_stop. case_if.
  - destruct (json_string (json_ws s)) as [[t s1]|]; [|done]. intros [= <- _]. by apply stop_list_push_ok.
  - case_if.
    + unfold skip_field. destruct (json_skip_value _); [|done]. by intros [= <- _].
    + apply (json_array_inv stops_ok); [|done]. intros st s1 st' r' Hst. unfold stop_elem.
      case_if; [|unfold skip_field; destruct (json_skip_value s1); [|done]; by intros [= <- _]].
      destruct (json_string s1) as [[t s2]|]; [|done]. intros [= <- _]. by apply stop_list_push_ok.
Qed.

(** Streaming never leaks part of a stop sequence: for the sequences any
    [stop] field parses to, while the text so far contains none at or after
    [from], every occurrence that a longer text may have starts at or after the
    length that was safe to send. *)
Theorem stop_hold_safe field out r stops text more from x q
    (Hparse : parse_stop out field = Some (stops, r))
    (Hfrom : (from <= length text)%nat)
    (Hnone : stop_list_find_from stops (Some text) from = None)
    (Hx : x ∈ stop_v stops) (Hq : (from <= q)%nat) (Hocc : occurs (text ++ more) x q) :
  (stop_list_stream_safe_len stops (length text) <= q)%nat.
Proof.
  apply parse_stop_ok in Hparse as [Hm Hall].
  pose proof (find_from_earliest stops text from Hfrom) as He. rewrite Hnone in He. simpl in He.
  eapply Forall_forall in Hall; [|exact Hx]. destruct Hall as [Hne Hlen].
  assert (Hlt : (length text < q + length x)%nat).
  { destruct (Nat.lt_ge_cases (length text) (q + length x)) as [|Hge]; [done|].
    destruct (He x q Hx Hq). by eapply occurs_app_l. }
  assert (0 < length x)%nat by (destruct x; [done|simpl; lia]).
  unfold stop_list_stream_safe_len. destruct (stop_v stops); [set_solver|].
  destruct (Z.leb_spec (stop_max_len stops) 1); [lia|].
  destruct (Nat.ltb_spec (Z.to_nat (stop_max_len stops - 1)) (length text)); lia.
Qed.

(** Witness: [END] split after [EN]. *)
Lemma stop_hold_safe_witness :
  (stop_list_stream_safe_len (StopList [bs "END"] 3) (length (bs "go EN")) <= 3)%nat.
Proof.
  apply (stop_hold_safe (json_escape (bs "END")) (StopList [] 0) [] (StopList [bs "END"] 3)
    (bs "go EN") (bs "D!") 0 (bs "END") 3).
  - vm_compute. reflexivity.
  - lia.
  - reflexivity.
  - simpl. set_solver.
  - lia.
  - split; [simpl; lia|]. exists (bs "!"). reflexivity.
Defined.

(** ** Character boundaries *)

(** A character: a lead byte and as many continuation bytes as it announces. *)
Definition utf8_char (ch : bytes) : Prop :=
  ∃ lead conts, ch = lead :: conts ∧ is_cont lead = false
    ∧ utf8_expected_len lead = S (length conts) ∧ Forall (λ c, is_cont c = true) conts.

Lemma utf8_expected_len_le c : (utf8_expected_len c <= 4)%nat.
Proof. unfold utf8_expected_len. repeat case_if; lia. Qed.

Lemma byte_at_app_r a b i : (length a <= i)%nat → byte_at (a ++ b) i = byte_at b (i - length a).
Proof. intros H. unfold byte_at. by apply app_nth2. Qed.

Lemma back_over_cont_spec a lead cs start fuel :
  is_cont lead = false → Forall (λ c, is_cont c = true) cs → (start <= length a)%nat →
  (length cs < fuel)%nat → ∀ more,
  back_over_cont (a ++ lead :: cs ++ more) start fuel (length a + 1 + length cs)
  = (length a + 1)%nat.
Proof.
  intros Hl Hcs Hst. revert fuel. induction cs as [|c cs IH] using rev_ind; intros fuel Hf more.
  - destruct fuel as [|fuel]; [simpl in Hf; lia|]. cbn [length back_over_cont app].
    rewrite Nat.add_0_r. replace (length a + 1 - 1)%nat with (length a) by lia.
    rewrite byte_at_app_r, Nat.sub_diag by lia. cbn [byte_at nth]. unfold byte_at. cbn [nth].
    by rewrite Hl, andb_false_r.
  - apply Forall_app in Hcs as [Hcs Hc]. apply Forall_cons in Hc as [Hc _].
    rewrite length_app in *. cbn [length] in *.
    destruct fuel as [|fuel]; [lia|]. cbn [back_over_cont].
    assert (Hb : byte_at (a ++ lead :: (cs ++ [c]) ++ more) (length a + 1 + (length cs + 1) - 1) = c).
    { rewrite byte_at_app_r by lia.
      replace (length a + 1 + (length cs + 1) - 1 - length a)%nat with (S (length cs)) by lia.
      unfold byte_at. cbn [nth]. rewrite <- (assoc_L (++)), app_nth2 by lia. by rewrite Nat.sub_diag. }
    rewrite Hb, Hc. destruct (Nat.ltb_spec start (length a + 1 + (length cs + 1))); [|lia]. simpl.
    replace (length a + 1 + (length cs + 1) - 1)%nat with (length a + 1 + length cs)%nat by lia.
    rewrite <- (assoc_L (++)). apply IH; [done|lia].
Qed.

(** The limit at the end of a text that ends with a lead byte and some of its
    continuation bytes. *)
Lemma utf8_safe_tail a lead cs start :
  is_cont lead = false → Forall (λ c, is_cont c = true) cs → (start <= length a)%nat →
  (S (length cs) <= utf8_expected_len lead)%nat →
  utf8_stream_safe_len (Some (a ++ lead :: cs)) start (length (a ++ lead :: cs)) false
  = if (S (length cs) <? utf8_expected_len lead)%nat then length a else length (a ++ lead :: cs).
Proof.
  intros Hl Hcs Hst Hn. unfold utf8_stream_safe_len. rewrite length_app. cbn [length].
  pose proof (utf8_expected_len_le lead) as H4.
  destruct (Nat.leb_spec (length a + S (length cs)) start); [lia|]. cbn [orb].
  pose proof (back_over_cont_spec a lead cs start 4 Hl Hcs Hst ltac:(lia) []) as Hb.
  rewrite app_nil_r in Hb.
  replace (length a + S (length cs))%nat with (length a + 1 + length cs)%nat by lia.
  rewrite Hb. destruct (Nat.eqb_spec (length a + 1) (length a + 1 + length cs)).
  - assert (length cs = 0%nat) as H0 by lia. apply nil_length_inv in H0 as ->. cbn [length] in *.
    replace (length a + 1 + 0 - 1)%nat with (length a) by lia.
    rewrite byte_at_app_r, Nat.sub_diag by lia. unfold byte_at. cbn [nth]. done.
  - destruct (Nat.eqb_spec (length a + 1) start); [lia|]. cbn [andb].
    replace (length a + 1 - 1)%nat with (length a) by lia.
    rewrite byte_at_app_r, Nat.sub_diag by lia. unfold byte_at. cbn [nth].
    by replace (length a + 1 + length cs - length a)%nat with (S (length cs)) by lia.
Qed.

(** The streamed limit is a character boundary: for a text that from
    [start] on is complete UTF-8 characters followed by a proper part of one,
    the limit is exactly the end of the complete characters. *)
Theorem utf8_safe_boundary pre chars ch (k : nat)
    (Hchars : Forall utf8_char chars) (Hch : utf8_char ch) (Hk : (k < length ch)%nat) :
  let text := pre ++ concat chars ++ take k ch in
  utf8_stream_safe_len (Some text) (length pre) (length text) false
  = (length pre + length (concat chars))%nat.
Proof.
  cbn zeta. destruct k as [|k].
  - rewrite take_0, app_nil_r. destruct chars as [|c0 chars _] using rev_ind.
    { cbn [concat]. rewrite app_nil_r. unfold utf8_stream_safe_len.
      rewrite Nat.leb_refl, orb_true_r. simpl. lia. }
    apply Forall_app in Hchars as [_ Hc0]. apply Forall_cons in Hc0 as [Hc0 _].
    destruct Hc0 as (lead & conts & -> & Hl & Hlen & Hcs).
    rewrite concat_app. cbn [concat]. rewrite app_nil_r, (assoc_L (++)).
    rewrite utf8_safe_tail; [|done|done|rewrite length_app; lia|lia].
    rewrite Hlen, Nat.ltb_irrefl. rewrite !length_app. lia.
  - destruct Hch as (lead & conts & -> & Hl & Hlen & Hcs). cbn [length] in Hk. cbn [take].
    rewrite (assoc_L (++)).
    rewrite utf8_safe_tail; [|done|by apply Forall_take|rewrite length_app; lia|rewrite length_take; lia].
    rewrite Hlen, length_take. destruct (Nat.ltb_spec (S (k `min` length conts)) (S (length conts))); [|lia].
    rewrite length_app. lia.
Qed.

(** Witness: "aé" followed by two of the three bytes of "€". *)
Lemma utf8_safe_boundary_witness :
  utf8_stream_safe_len (Some ([120] ++ concat [[97]; [0xc3; 0xa9]] ++ take 2 [0xe2; 0x82; 0xac])) 1 6 false
  = 4%nat.
Proof.
  apply (utf8_safe_boundary [120] [[97]; [0xc3; 0xa9]] [0xe2; 0x82; 0xac] 2).
  - apply List.Forall_cons; [|apply List.Forall_cons; [|apply List.Forall_nil]].
    + exists 97, []. repeat split. constructor.
    + exists 0xc3, [0xa9]. repeat split. repeat constructor.
  - exists 0xe2, [0x82; 0xac]. repeat split. repeat constructor.
  - simpl. lia.
Defined.

(** ** Tool markers *)

Lemma earliest_spec s ms :
  match earliest s ms with
  | None => ∀ m j, m ∈ ms → ¬ occurs s m j
  | Some i => (∃ m, m ∈ ms ∧ occurs s m i) ∧ ∀ m j, m ∈ ms → occurs s m j → (i <= j)%nat
  end.
Proof.
  unfold earliest. induction ms as [|m ms IH] using rev_ind; [simpl; set_solver|].
  rewrite foldl_app. cbn [foldl]. set (best := foldl _ None ms) in *. clearbody best.
  destruct (strstr s m) as [c|] eqn:Es.
  - apply strstr_occurs in Es as [Ho Hmin]. destruct best as [b|].
    + destruct IH as [(x & Hx & Hox) Hall]. destruct (Nat.ltb_spec c b).
      * split; [exists m; set_solver|]. intros y j [Hy|Hy]%elem_of_app Hoy.
        -- pose proof (Hall y j Hy Hoy). lia.
        -- apply list_elem_of_singleton in Hy as ->. by apply Hmin.
      * split; [exists x; set_solver|]. intros y j [Hy|Hy]%elem_of_app Hoy; [by eapply Hall|].
        apply list_elem_of_singleton in Hy as ->. pose proof (Hmin j Hoy). lia.
    + split; [exists m; set_solver|]. intros y j [Hy|Hy]%elem_of_app Hoy; [by destruct (IH y j Hy)|].
      apply list_elem_of_singleton in Hy as ->. by apply Hmin.
  - assert (Hno : ∀ j, ¬ occurs s m j) by (intros; by apply strstr_none_occurs).
    destruct best as [b|].
    + destruct IH as [(x & Hx & Hox) Hall]. split; [exists x; set_solver|].
      intros y j [Hy|Hy]%elem_of_app Hoy; [by eapply Hall|].
      apply list_elem_of_singleton in Hy as ->. by destruct (Hno j).
    + intros y j [Hy|Hy]%elem_of_app; [by apply IH|]. apply list_elem_of_singleton in Hy as ->. apply Hno.
Qed.

Lemma trim_le raw start limit : (trim_tool_separator_ws raw start limit <= limit)%nat.
Proof. induction limit as [|l IH]; simpl; [done|]. case_if; lia. Qed.

Lemma back_over_cont_le s start fuel p : (back_over_cont s start fuel p <= p)%nat.
Proof.
  revert p; induction fuel as [|fuel IH]; intros p; simpl; [lia|].
  case_if; [|lia]. specialize (IH (p - 1)%nat). lia.
Qed.

Lemma utf8_safe_le s start limit final : (utf8_stream_safe_len s start limit final <= limit)%nat.
Proof.
  unfold utf8_stream_safe_len. destruct s as [s|]; [|done].
  destruct (final || (limit <=? start)%nat) eqn:E1; [done|].
  apply orb_false_iff in E1 as [_ E1%Nat.leb_gt].
  pose proof (back_over_cont_le s start 4 limit).
  repeat case_if; lia.
Qed.

(** The last [c] of the window, when there is one in it. *)
Lemma last_byte_spec c raw scan i :
  match last_byte c raw scan i with
  | Some j => (scan <= j < i)%nat ∧ byte_at raw j = c ∧ ∀ k, (j < k < i)%nat → byte_at raw k ≠ c
  | None => ∀ k, (scan <= k < i)%nat → byte_at raw k ≠ c
  end.
Proof.
  induction i as [|i IH]; simpl; [lia|].
  destruct (Nat.ltb_spec scan (S i)); [|lia].
  destruct (Z.eqb_spec (byte_at raw i) c) as [He|Hne].
  - split; [lia|]. split; [done|lia].
  - destruct (last_byte c raw scan i) as [j|].
    + destruct IH as (Hj & H60 & Hk). split; [lia|]. split; [done|]. intros k Hk'.
      destruct (decide (k = i)) as [->|]; [done|]. apply Hk. lia.
    + intros k Hk. destruct (decide (k = i)) as [->|]; [done|]. apply IH. lia.
Qed.

(** Every marker begins with its only [<] and has at most 80 bytes. *)
Lemma tool_start_shape m :
  m ∈ tool_starts → (length m <= 80)%nat ∧ ∃ r, m = 60 :: r ∧ 60 ∉ r.
Proof.
  intros H. assert (Hb : forallb (λ m, match m with
      | c :: r => (c =? 60) && (length m <=? 80)%nat && negb (existsb (Z.eqb 60) r)
      | [] => false end) tool_starts = true) by (vm_compute; reflexivity).
  rewrite forallb_forall in Hb. apply list_elem_of_In, Hb in H. destruct m as [|c r]; [done|].
  apply andb_true_iff in H as [[Hc Hl]%andb_true_iff Hn]. apply Z.eqb_eq in Hc as ->.
  apply Nat.leb_le in Hl. split; [done|]. exists r. split; [done|]. intros Hin.
  apply negb_true_iff in Hn. rewrite (proj2 (existsb_exists _ _)) in Hn; [done|].
  exists 60. split; [by apply list_elem_of_In|done].
Qed.

Lemma occurs_byte t m q k : occurs t m q → (k < length m)%nat → byte_at t (q + k) = byte_at m k.
Proof.
  intros (pre & post & -> & <-)%occurs_split Hk. unfold byte_at.
  rewrite app_nth2 by lia. replace (length pre + k - length pre)%nat with k by lia.
  by rewrite app_nth1 by lia.
Qed.

Lemma byte_at_app_l a b i : (i < length a)%nat → byte_at (a ++ b) i = byte_at a i.
Proof. intros H. unfold byte_at. by apply app_nth1. Qed.

(** The position up to which no later marker can begin. *)
Lemma marker_held raw more start m q :
  (start <= q)%nat → (start < length raw)%nat → m ∈ tool_starts → occurs (raw ++ more) m q →
  (length raw < q + length m)%nat → (q < length raw)%nat →
  let scan := if (80 <? length raw - start)%nat then (length raw - 80)%nat else start in
  last_byte 60 raw scan (length raw) = Some q.
Proof.
  intros Hsq Hsl Hm Hocc Hlt Hq. cbn zeta.
  match goal with |- context [if ?b then ?u else start] => set (scan := if b then u else start) end.
  destruct (tool_start_shape m Hm) as (Hl80 & r & -> & Hr). cbn [length] in *.
  assert (Hscan : (scan <= q)%nat).
  { unfold scan. destruct (Nat.ltb_spec 80 (length raw - start)); lia. }
  assert (H60 : byte_at raw q = 60).
  { pose proof (occurs_byte _ _ _ 0 Hocc ltac:(simpl; lia)) as H. rewrite Nat.add_0_r in H.
    by rewrite byte_at_app_l in H by lia. }
  pose proof (last_byte_spec 60 raw scan (length raw)) as Hs.
  destruct (last_byte 60 raw scan (length raw)) as [j|]; [|by destruct (Hs q)].
  destruct Hs as (Hj & Hj60 & Hk). f_equal.
  destruct (Nat.lt_trichotomy j q) as [H|[H|H]]; [by destruct (Hk q ltac:(lia))|done|].
  exfalso. apply Hr.
  pose proof (occurs_byte _ _ _ (j - q) Hocc ltac:(simpl; lia)) as Hb.
  replace (q + (j - q))%nat with j in Hb by lia. rewrite byte_at_app_l, Hj60 in Hb by lia.
  replace (j - q)%nat with (S (j - q - 1)) in Hb by lia. unfold byte_at in Hb. cbn [nth] in Hb.
  apply list_elem_of_In. rewrite Hb. apply nth_In. lia.
Qed.

Lemma safe_limit_held raw more start m q :
  (start < length raw)%nat → find_any_tool_start (drop start raw) = None → m ∈ tool_starts → (start <= q)%nat → occurs (raw ++ more) m q →
  (text_stream_safe_limit raw start true false <= q)%nat.
Proof.
  intros Hstart Hnone Hm Hq Hocc.
  unfold text_stream_safe_limit. destruct (Nat.leb_spec (length raw) start); [lia|].
  rewrite Hnone. etransitivity; [apply utf8_safe_le|]. etransitivity; [apply trim_le|].
  pose proof (trim_le raw start (length raw)) as Htr.
  destruct (Nat.lt_ge_cases q (length raw)) as [Hql|]; [|
    match goal with |- context [last_byte 60 ?a ?b ?c] => destruct (last_byte 60 a b c) as [mk|] end;
    [destruct (Nat.ltb_spec mk (trim_tool_separator_ws raw start (length raw)))|]; lia].
  assert (Hlt : (length raw < q + length m)%nat).
  { destruct (Nat.lt_ge_cases (length raw) (q + length m)) as [|Hge]; [done|exfalso].
    apply occurs_app_l in Hocc; [|done].
    pose proof (earliest_spec (drop start raw) tool_starts) as He.
    unfold find_any_tool_start in Hnone. rewrite Hnone in He.
    apply (He m (q - start)%nat Hm), occurs_drop; [lia|]. by replace (start + (q - start))%nat with q by lia. }
  rewrite (marker_held raw more start m q) by done.
  destruct (Nat.ltb_spec q (trim_tool_separator_ws raw start (length raw))); lia.
Qed.

(** With tools enabled, streaming never sends a byte of a tool marker: while
    the text is not final and holds no complete marker from [start] on, every
    marker that a longer text may have there begins at or after the limit. *)
Theorem tool_marker_held raw more start m q
    (Hstart : (start < length raw)%nat)
    (Hnone : find_any_tool_start (drop start raw) = None)
    (Hm : m ∈ tool_starts) (Hq : (start <= q)%nat) (Hocc : occurs (raw ++ more) m q) :
  (text_stream_safe_limit raw start true false <= q)%nat.
Proof. by apply (safe_limit_held raw more start m). Qed.

(** Witness: a marker split after "<tool_". *)
Lemma tool_marker_held_witness :
  (text_stream_safe_limit (bs "ok <tool_") 0 true false <= 3)%nat.
Proof.
  apply (tool_marker_held (bs "ok <tool_") (bs "call> x") 0 (bs "<tool_call>") 3).
  - simpl. lia.
  - vm_compute. reflexivity.
  - unfold tool_starts. set_solver.
  - lia.
  - split; [simpl; lia|]. exists (bs " x"). reflexivity.
Defined.

(** ** The thinking automaton *)

(** The last eight bytes of the text, all the automaton keeps of it. *)
Definition last8 (t : bytes) : bytes := drop (length t - 8) t.

Lemma last8_snoc t c :
  (if (length (last8 t) =? 8)%nat then drop 1 (last8 t) else last8 t) ++ [c] = last8 (t ++ [c]).
Proof.
  unfold last8. rewrite length_drop, length_app, drop_drop. simpl length.
  destruct (Nat.eqb_spec (length t - (length t - 8)) 8).
  - rewrite drop_app_le by lia. do 2 f_equal. lia.
  - rewrite drop_app_le by lia. do 2 f_equal. lia.
Qed.

Lemma suffix_occurs t x : (length x <= length t)%nat →
  drop (length t - length x) t = x ↔ occurs t x (length t - length x).
Proof.
  intros Hl. split.
  - intros H. split; [lia|]. exists []. by rewrite app_nil_r.
  - intros [_ [post H]]. rewrite H. apply (f_equal length) in H.
    rewrite length_drop, length_app in H. destruct post; [apply app_nil_r|simpl in H; lia].
Qed.

Lemma tail_ends_occurs t b x : (length x <= 8)%nat →
  thinking_tail_ends_with (ThinkingState b (last8 t)) x = true
  ↔ (length x <= length t)%nat ∧ occurs t x (length t - length x).
Proof.
  intros H8. unfold thinking_tail_ends_with, last8. cbn [ts_tail].
  rewrite andb_true_iff, Nat.leb_le, bytes_eqb_eq, length_drop, drop_drop.
  split.
  - intros [Hl Hd]. split; [lia|]. apply suffix_occurs; [lia|]. etransitivity; [|exact Hd]. f_equal. lia.
  - intros [Hl Ho%suffix_occurs]; [|done]. split; [lia|]. etransitivity; [|exact Ho]. f_equal. lia.
Qed.

Lemma occurs_snoc t c x q : occurs (t ++ [c]) x q →
  occurs t x q ∨ (q + length x = S (length t))%nat.
Proof.
  intros H. destruct (Nat.le_gt_cases (q + length x) (length t)); [left; by eapply occurs_app_l|].
  right. destruct H as [Hq [post H]]. apply (f_equal length) in H.
  rewrite length_drop, !length_app in H. rewrite length_app in Hq. simpl in *. lia.
Qed.

Lemma occurs_more t more x q : occurs t x q → occurs (t ++ more) x q.
Proof.
  intros (pre & post & -> & <-)%occurs_split. apply occurs_split. exists pre, (post ++ more).
  by rewrite <- !app_assoc.
Qed.

Lemma occurs_bound t x q : occurs t x q → (q + length x <= length t)%nat.
Proof. intros (pre & post & -> & <-)%occurs_split. rewrite !length_app. lia. Qed.

(** The model is inside its reasoning after [t]: some opening marker has no closing
    one after it, or it began inside and nothing closed it. *)
Definition inside_thinking (b : bool) (t : bytes) : Prop :=
  (∃ q, occurs t (bs "<think>") q ∧ ∀ q', occurs t (bs "</think>") q' → (q' + 8 < q + 7)%nat)
  ∨ (b = true ∧ ∀ q', ¬ occurs t (bs "</think>") q').

Lemma both_markers_end t e :
  occurs t (bs "<think>") (S e) → occurs t (bs "</think>") e → False.
Proof.
  intros H1 H2. pose proof (occurs_byte t _ (S e) 0 H1 ltac:(vm_compute; lia)) as A.
  pose proof (occurs_byte t _ e 1 H2 ltac:(vm_compute; lia)) as B.
  replace (S e + 0)%nat with (e + 1)%nat in A by lia. rewrite A in B. vm_compute in B. lia.
Qed.

Lemma inside_snoc_open b t c q :
  (q + 7 = S (length t))%nat → occurs (t ++ [c]) (bs "<think>") q → inside_thinking b (t ++ [c]).
Proof.
  intros Hq Ho. left. exists q. split; [done|]. intros q' Hq'.
  pose proof (occurs_bound _ _ _ Hq') as Hb. change (length (bs "</think>")) with 8%nat in Hb.
  rewrite length_app in Hb. simpl in Hb.
  destruct (decide (q' + 8 = q + 7)%nat) as [He|]; [|lia].
  replace q with (S q') in Ho by lia. by destruct (both_markers_end (t ++ [c]) q').
Qed.

Lemma inside_snoc_close b t c q :
  (q + 8 = S (length t))%nat → occurs (t ++ [c]) (bs "</think>") q → ¬ inside_thinking b (t ++ [c]).
Proof.
  intros Hq Ho [(o & Hop & Hall)|[_ Hno]]; [|by destruct (Hno q)].
  pose proof (occurs_bound _ _ _ Hop) as Hb. change (length (bs "<think>")) with 7%nat in Hb.
  rewrite length_app in Hb. simpl in Hb. specialize (Hall q Ho). lia.
Qed.

Lemma inside_snoc_other b t c :
  (∀ q, (q + 7 = S (length t))%nat → ¬ occurs (t ++ [c]) (bs "<think>") q) →
  (∀ q, (q + 8 = S (length t))%nat → ¬ occurs (t ++ [c]) (bs "</think>") q) →
  inside_thinking b (t ++ [c]) ↔ inside_thinking b t.
Proof.
  intros Hno Hnc.
  assert (Hc : ∀ q, occurs (t ++ [c]) (bs "</think>") q ↔ occurs t (bs "</think>") q).
  { intros q. split; [|apply occurs_more]. intros H.
    destruct (occurs_snoc _ _ _ _ H) as [|He]; [done|]. by destruct (Hnc q). }
  assert (Ho : ∀ q, occurs (t ++ [c]) (bs "<think>") q ↔ occurs t (bs "<think>") q).
  { intros q. split; [|apply occurs_more]. intros H. destruct (occurs_snoc _ _ _ _ H) as [|He]; [done|].
    by destruct (Hno q). }
  unfold inside_thinking. by setoid_rewrite Hc; setoid_rewrite Ho.
Qed.

(** The automaton that keeps eight bytes decides on the whole text: after any
    text, fed in any chunks, it holds the last eight bytes and is inside exactly when
    the last marker of the text opens, or there is none that closes and it began
    inside. *)
Theorem thinking_state_correct b t1 t2 :
  let st := thinking_state_feed (thinking_state_feed (ThinkingState b []) t1) t2 in
  ts_tail st = last8 (t1 ++ t2) ∧ (ts_inside st = true ↔ inside_thinking b (t1 ++ t2)).
Proof.
  cbn zeta. unfold thinking_state_feed. rewrite <- foldl_app. generalize (t1 ++ t2) as t.
  clear t1 t2. induction t as [|c t [IHt IHi]] using rev_ind.
  { split; [done|]. split; intros H.
    - right. split; [done|]. intros q' H'%occurs_bound. simpl in H'. lia.
    - destruct H as [(q & Hq%occurs_bound & _)|[? _]]; [simpl in Hq; lia|done]. }
  rewrite foldl_app. cbn [foldl]. set (st := foldl _ _ t) in *. clearbody st.
  destruct st as [ins tl]. cbn [ts_tail ts_inside] in *. subst tl.
  unfold thinking_state_step. cbn [ts_tail ts_inside]. rewrite last8_snoc.
  pose proof (tail_ends_occurs (t ++ [c]) ins (bs "<think>") ltac:(vm_compute; lia)) as Ho.
  pose proof (tail_ends_occurs (t ++ [c]) ins (bs "</think>") ltac:(vm_compute; lia)) as Hc.
  rewrite length_app in Ho, Hc. change (length (bs "<think>")) with 7%nat in Ho.
  change (length (bs "</think>")) with 8%nat in Hc. cbn [length] in Ho, Hc.
  destruct (thinking_tail_ends_with _ (bs "<think>")).
  { split; [done|]. destruct (proj1 Ho eq_refl) as [Hl H]. split; [intros _|done].
    eapply inside_snoc_open; [|exact H]. lia. }
  destruct (thinking_tail_ends_with _ (bs "</think>")); cbn [ts_tail ts_inside].
  { split; [done|]. destruct (proj1 Hc eq_refl) as [Hl H]. split; [done|].
    intros Hi. exfalso. eapply inside_snoc_close; [|exact H|exact Hi]. lia. }
  split; [done|]. rewrite inside_snoc_other; [exact IHi| |]; intros q Hq H.
  - enough (false = true) by done. apply Ho. split; [lia|]. by replace (length t + 1 - 7)%nat with q by lia.
  - enough (false = true) by done. apply Hc. split; [lia|]. by replace (length t + 1 - 8)%nat with q by lia.
Qed.

(** ** A complete tool call inside reasoning *)

(** [p] is the first place from [from] on where a tool marker stands. *)
Definition first_marker (t : bytes) (from p : nat) : Prop :=
  (from <= p)%nat ∧ (∃ m, m ∈ tool_starts ∧ occurs t m p)
  ∧ ∀ m q, m ∈ tool_starts → (from <= q)%nat → occurs t m q → (p <= q)%nat.

Lemma find_start_spec t from : (from <= length t)%nat →
  match find_any_tool_start (drop from t) with
  | Some off => first_marker t from (from + off)
  | None => ∀ m q, m ∈ tool_starts → (from <= q)%nat → ¬ occurs t m q
  end.
Proof.
  intros Hf. pose proof (earliest_spec (drop from t) tool_starts) as H. unfold find_any_tool_start.
  assert (Hrw : ∀ s q, (from <= q)%nat → occurs t s q → occurs (drop from t) s (q - from)).
  { intros s q Hq Ho. apply occurs_drop; [done|]. by replace (from + (q - from))%nat with q by lia. }
  destruct (earliest (drop from t) tool_starts) as [off|].
  - destruct H as [(m & Hm & Ho) Hmin]. split_and!; [lia|exists m; split; [done|by apply occurs_drop]|].
    intros x q Hx Hq Hoq. specialize (Hmin x _ Hx (Hrw _ _ Hq Hoq)). lia.
  - intros m q Hm Hq Ho. by eapply H, Hrw.
Qed.

(** A marker that later text completes begins no earlier than the first of the text. *)
Lemma first_marker_more t more p : first_marker t 0 p → first_marker (t ++ more) 0 p.
Proof.
  intros (_ & (m & Hm & Ho) & Hmin). split_and!; [lia|exists m; split; [done|by apply occurs_more]|].
  intros x q Hx _ Hq. destruct (Nat.le_gt_cases p q) as [|Hlt]; [done|exfalso].
  destruct (Nat.le_gt_cases (q + length x) (length t)) as [Hin|Hout].
  { apply occurs_app_l in Hq; [|done]. specialize (Hmin x q Hx ltac:(lia) Hq). lia. }
  pose proof (occurs_bound _ _ _ Ho) as Hb.
  destruct (tool_start_shape m Hm) as (_ & r & -> & _), (tool_start_shape x Hx) as (_ & r' & -> & Hr').
  pose proof (occurs_byte _ _ _ 0 (occurs_more _ more _ _ Ho) ltac:(simpl; lia)) as Hc.
  pose proof (occurs_byte _ _ _ (p - q) Hq ltac:(simpl in *; lia)) as Hc'.
  rewrite Nat.add_0_r in Hc. replace (q + (p - q))%nat with p in Hc' by lia. rewrite Hc in Hc'.
  apply Hr', list_elem_of_In. replace (p - q)%nat with (S (p - q - 1)) in Hc' by lia.
  unfold byte_at in Hc'. cbn [nth] in Hc'. rewrite Hc'. apply nth_In. simpl in Hout. lia.
Qed.

Lemma find_start_eq t f1 f2 p : (f1 <= f2)%nat → (f2 <= length t)%nat → first_marker t f1 p → (f2 <= p)%nat →
  find_any_tool_start (drop f2 t) = Some (p - f2)%nat.
Proof.
  intros H12 H2 (_ & (m & Hm & Ho) & Hmin) Hp. pose proof (find_start_spec t f2 H2) as H.
  destruct (find_any_tool_start (drop f2 t)) as [off|].
  - destruct H as (_ & (m' & Hm' & Ho') & Hmin'). specialize (Hmin m' (f2 + off)%nat Hm' ltac:(lia) Ho').
    specialize (Hmin' m p Hm ltac:(lia) Ho). f_equal. lia.
  - by destruct (H m p Hm).
Qed.

(** Where a scan of a longer text may resume. *)
Lemma scan_resume text more : let s := (complete_tool_call_inside_thinking text 0).2 in
  (s <= length text)%nat ∧ ∀ p, first_marker (text ++ more) 0 p → (s <= p)%nat.
Proof.
  unfold complete_tool_call_inside_thinking. cbn zeta. rewrite drop_0.
  change (length text <? 0)%nat with false. cbv iota.
  pose proof (find_start_spec text 0 ltac:(lia)) as Hs. rewrite drop_0 in Hs.
  destruct (find_any_tool_start text) as [off|]; cbn [snd Nat.add] in *.
  - split; [destruct Hs as (_ & (m & _ & Ho%occurs_bound) & _); lia|].
    intros p (_ & (m & Hm & Ho) & _).
    apply (first_marker_more _ more) in Hs as (_ & _ & Hmin). by apply (Hmin m p Hm); [lia|].
  - split; [destruct (Nat.ltb_spec 80 (length text)); lia|].
    intros p (_ & (m & Hm & Ho) & _). destruct (tool_start_shape m Hm) as [H80 _].
    destruct (Nat.le_gt_cases (p + length m) (length text)) as [Hin|Hout].
    { apply occurs_app_l in Ho; [|done]. by destruct (Hs m p Hm ltac:(lia)). }
    destruct (Nat.ltb_spec 80 (length text)); lia.
Qed.

Lemma scan_again text more :
  complete_tool_call_inside_thinking (text ++ more) (complete_tool_call_inside_thinking text 0).2
  = complete_tool_call_inside_thinking (text ++ more) 0.
Proof.
  destruct (scan_resume text more) as [Hs Hlate]. cbn zeta in *.
  set (s := (complete_tool_call_inside_thinking text 0).2) in *. clearbody s.
  unfold complete_tool_call_inside_thinking. cbn zeta. rewrite drop_0, length_app.
  destruct (Nat.ltb_spec (length text + length more) s); [lia|].
  change (length text + length more <? 0)%nat with false. cbv iota.
  pose proof (find_start_spec (text ++ more) 0 ltac:(lia)) as H0. rewrite drop_0 in H0.
  destruct (find_any_tool_start (text ++ more)) as [off|].
  - cbn [Nat.add] in H0. specialize (Hlate off H0).
    rewrite (find_start_eq (text ++ more) 0 s off) by (rewrite ?length_app; lia || done).
    by replace (s + (off - s))%nat with (0 + off)%nat by lia.
  - pose proof (find_start_spec (text ++ more) s ltac:(rewrite length_app; lia)) as H1.
    destruct (find_any_tool_start (drop s (text ++ more))) as [off|]; [|done].
    destruct H1 as (_ & (m & Hm & Ho) & _). by destruct (H0 m (s + off)%nat Hm ltac:(lia)).
Qed.

(** The calls of the generation loop: one after each piece of text, on all of it. *)
Fixpoint scan_feed (seen : bytes) (scan_from : nat) (found : bool) (chunks : list bytes) : bool * nat :=
  match chunks with
  | [] => (found, scan_from)
  | c :: cs =>
      let '(found, scan_from) := complete_tool_call_inside_thinking (seen ++ c) scan_from in
      scan_feed (seen ++ c) scan_from found cs
  end.

(** Looking for a complete tool call inside reasoning piece by piece, each time
    only from where the last look left off, gives what one look at the whole text
    gives: no marker is missed, however the pieces cut it. *)
Theorem tool_in_thinking_incremental chunks c :
  scan_feed [] 0 false (chunks ++ [c])
  = complete_tool_call_inside_thinking (concat chunks ++ c) 0.
Proof.
  assert (H : ∀ cs seen s found, s = (complete_tool_call_inside_thinking seen 0).2 ∨ (seen = [] ∧ s = 0%nat) →
    scan_feed seen s found (cs ++ [c]) = complete_tool_call_inside_thinking (seen ++ concat cs ++ c) 0).
  { induction cs as [|x cs IH]; intros seen s found Hs.
    - cbn [app scan_feed concat]. destruct Hs as [->|[-> ->]].
      + rewrite scan_again. by destruct (complete_tool_call_inside_thinking (seen ++ c) 0).
      + by destruct (complete_tool_call_inside_thinking _ 0).
    - cbn [app scan_feed concat].
      assert (complete_tool_call_inside_thinking (seen ++ x) s = complete_tool_call_inside_thinking (seen ++ x) 0) as ->
        by (destruct Hs as [->|[-> ->]]; [apply scan_again|done]).
      destruct (complete_tool_call_inside_thinking (seen ++ x) 0) as [f s'] eqn:E.
      rewrite IH; [by rewrite <- !app_assoc|]. left. by rewrite E. }
  rewrite H; [done|by right].
Qed.
