(* ===== verification/Dsml.v ===== *)
(** * The tool-call markup

    Model of the DSML part of [engine/src/server.c]: the entities the renderer
    writes and the parser undoes, tag attributes, the three spellings of the
    markup, the tracker that follows the generated text through a tool call, and
    the length of a parameter value that can already be streamed.

    A text [raw] of [raw_len] bytes is its list of bytes; offsets are natural
    numbers. *)
From S2P Require Import Prelude CLib Json Request Stream.

(** ** Entities *)

Fixpoint append_dsml_attr_escaped (s : bytes) : bytes :=
  match s with
  | [] => []
  | c :: r =>
      (if c =? 38 then bs "&amp;"
       else if c =? 60 then bs "&lt;"
       else if c =? 62 then bs "&gt;"
       else if c =? 34 then bs "&quot;"
       else [c]) ++ append_dsml_attr_escaped r
  end.

(** Text in which only the closing tag [end_] is broken, by writing its first byte
    as an entity. *)
Fixpoint append_glm_tag_body_text (s end_ : bytes) : bytes :=
  match s with
  | [] => []
  | c :: r =>
      (match strip_prefix end_ s with Some _ => bs "&lt;" | None => [c] end)
      ++ append_glm_tag_body_text r end_
  end.

Definition DS4_PARAM_START : bytes := bs "<" ++ DS4_DSML ++ bs "parameter".
Definition DS4_PARAM_END : bytes := bs "</" ++ DS4_DSML ++ bs "parameter>".
Definition DS4_PARAM_START_SHORT : bytes := bs "<" ++ DS4_DSML_SHORT ++ bs "parameter".
Definition DS4_PARAM_END_SHORT : bytes := bs "</" ++ DS4_DSML_SHORT ++ bs "parameter>".
Definition DS4_INVOKE_START : bytes := bs "<" ++ DS4_DSML ++ bs "invoke".
Definition DS4_INVOKE_END : bytes := bs "</" ++ DS4_DSML ++ bs "invoke>".
Definition DS4_INVOKE_START_SHORT : bytes := bs "<" ++ DS4_DSML_SHORT ++ bs "invoke".
Definition DS4_INVOKE_END_SHORT : bytes := bs "</" ++ DS4_DSML_SHORT ++ bs "invoke>".

(** The loop of [append_dsml_parameter_text] is that of [append_glm_tag_body_text]
    with its own closing tag. *)
Definition append_dsml_parameter_text (s : bytes) : bytes :=
  append_glm_tag_body_text s DS4_PARAM_END.

(** The entities, in the order of the tests, with the byte each stands for. *)
Definition entities : list (bytes * Z) :=
  [(bs "&amp;", 38); (bs "&lt;", 60); (bs "&gt;", 62); (bs "&quot;", 34); (bs "&apos;", 39)].

(** The entity [s] begins with. *)
Fixpoint entity_at (es : list (bytes * Z)) (s : bytes) : option (Z * bytes) :=
  match es with
  | [] => None
  | (e, c) :: es' =>
      match strip_prefix e s with
      | Some r => Some (c, r)
      | None => entity_at es' s
      end
  end.

(** One round of the loop consumes a byte or an entity; [fuel] is the length. *)
Fixpoint dsml_unescape_loop (fuel : nat) (s : bytes) : bytes :=
  match fuel, s with
  | S fuel', c :: r =>
      if c =? 38 then
        match entity_at entities s with
        | Some (x, r') => x :: dsml_unescape_loop fuel' r'
        | None => 38 :: dsml_unescape_loop fuel' r
        end
      else c :: dsml_unescape_loop fuel' r
  | _, _ => []
  end.

Definition dsml_unescape_text (s : bytes) : bytes := dsml_unescape_loop (length s) s.

(** [strchr]. *)
Definition index_of (c : Z) (s : bytes) : option nat := strstr s [c].

(** [pat] has room for 63 bytes. *)
Definition dsml_attr (tag name : bytes) : option bytes :=
  let pat := take 63 (name ++ [61; 34]) in
  match strstr tag pat with
  | None => None
  | Some i =>
      let p := drop (i + length pat) tag in
      match index_of 34 p with
      | None => None
      | Some q => Some (dsml_unescape_text (take q p))
      end
  end.

(** ** Literals at a position *)

Definition raw_full_lit (raw : bytes) (pos : nat) (lit : bytes) : bool :=
  let raw_len := length raw in
  (pos <=? raw_len)%nat && (length lit <=? raw_len - pos)%nat
  && bytes_eqb (take (length lit) (drop pos raw)) lit.

Definition raw_partial_lit (raw : bytes) (pos : nat) (lit : bytes) : bool :=
  let raw_len := length raw in
  if (raw_len <? pos)%nat || (length lit <=? raw_len - pos)%nat then false
  else bytes_eqb (drop pos raw) (take (raw_len - pos) lit).

Definition raw_partial_lit_min (raw : bytes) (pos : nat) (lit : bytes) (min_len : nat) : bool :=
  let raw_len := length raw in
  if (raw_len <? pos)%nat || (length lit <=? raw_len - pos)%nat then false
  else (min_len <=? raw_len - pos)%nat && bytes_eqb (drop pos raw) (take (raw_len - pos) lit).

(** The loop of [find_lit_bounded], over the suffixes of [s]. *)
Fixpoint find_lit_bounded (s lit : bytes) : option nat :=
  if (length s <? length lit)%nat then None
  else if bytes_eqb (take (length lit) s) lit then Some 0%nat
  else match s with
       | [] => None
       | _ :: r => S <$> find_lit_bounded r lit
       end.

(** ** The tracker *)

Inductive dsml_decode_state :=
  | DSML_DECODE_OUTSIDE
  | DSML_DECODE_STRUCTURAL
  | DSML_DECODE_STRING_BODY
  | DSML_DECODE_JSON_STRUCTURAL
  | DSML_DECODE_JSON_STRING.

Inductive dsml_track_mode :=
  | DSML_TRACK_SEARCH
  | DSML_TRACK_STRUCTURAL
  | DSML_TRACK_STRING_BODY
  | DSML_TRACK_JSON_PARAM
  | DSML_TRACK_DONE.

Record dsml_syntax := DsmlSyntax {
  tool_calls_start : bytes; tool_calls_end : bytes;
  invoke_start : bytes; invoke_end : bytes;
  param_start : bytes; param_end : bytes }.

Definition dsml_syntaxes : list dsml_syntax :=
  [DsmlSyntax DS4_TOOL_CALLS_START DS4_TOOL_CALLS_END DS4_INVOKE_START DS4_INVOKE_END
     DS4_PARAM_START DS4_PARAM_END;
   DsmlSyntax DS4_TOOL_CALLS_START_SHORT DS4_TOOL_CALLS_END_SHORT
     DS4_INVOKE_START_SHORT DS4_INVOKE_END_SHORT DS4_PARAM_START_SHORT DS4_PARAM_END_SHORT;
   DsmlSyntax (bs "<tool_calls>") (bs "</tool_calls>") (bs "<invoke") (bs "</invoke>")
     (bs "<parameter") (bs "</parameter>")].

(** [dt_syn] is [None] for the null pointer of a tracker that found no tool call. *)
Record dsml_decode_tracker := Tracker {
  dt_mode : dsml_track_mode; dt_decode : dsml_decode_state; dt_syn : option dsml_syntax;
  dt_pos : nat; dt_json_in_string : bool; dt_json_escaped : bool }.

Definition dsml_max_tool_start_len : nat :=
  foldl (λ max syn, let n := length (tool_calls_start syn) in if (max <? n)%nat then n else max)
    0%nat dsml_syntaxes.

(** The best candidate so far: its offset and its spelling. *)
Definition better_start (raw : bytes) (best : option (nat * dsml_syntax)) (syn : dsml_syntax)
    : option (nat * dsml_syntax) :=
  match find_lit_bounded raw (tool_calls_start syn), best with
  | None, _ => best
  | Some p, None => Some (p, syn)
  | Some p, Some (b, _) => if (p <? b)%nat then Some (p, syn) else best
  end.

Definition dsml_find_tool_start (raw : bytes) : option (nat * dsml_syntax) :=
  match foldl (better_start raw) None dsml_syntaxes with
  | None => None
  | Some (best, syn) => Some ((best + length (tool_calls_start syn))%nat, syn)
  end.

Definition dsml_find_tool_start_from (raw : bytes) (start : nat) : option (nat * dsml_syntax) :=
  if (length raw <? start)%nat then None
  else match dsml_find_tool_start (drop start raw) with
       | None => None
       | Some (rel, syn) => Some ((start + rel)%nat, syn)
       end.

(** The copy of the tag is a C string: it ends at a zero byte. *)
Definition dsml_attr_is_string_true (raw : bytes) (tag_start tag_end : nat) : bool :=
  if (tag_end <=? tag_start)%nat || (length raw <? tag_end)%nat then false
  else match dsml_attr (c_str (take (tag_end - tag_start) (drop tag_start raw))) (bs "string") with
       | Some v => bytes_eqb v (bs "true")
       | None => false
       end.

Definition dsml_decode_state_is_tool (s : dsml_decode_state) : bool :=
  match s with DSML_DECODE_OUTSIDE => false | _ => true end.

Definition dsml_decode_state_uses_payload_sampling (s : dsml_decode_state) : bool :=
  match s with DSML_DECODE_STRING_BODY | DSML_DECODE_JSON_STRING => true | _ => false end.

Definition dsml_decode_tracker_init : dsml_decode_tracker :=
  Tracker DSML_TRACK_SEARCH DSML_DECODE_OUTSIDE None 0 false false.

(** One round of a loop of the update: it goes on (with the loop of the new mode),
    returns, or reads through the null [syn]. *)
Inductive flow := Continue (dt : dsml_decode_tracker) | Return (dt : dsml_decode_tracker) | Fault.

Definition set_decode (d : dsml_decode_state) (dt : dsml_decode_tracker) : dsml_decode_tracker :=
  Tracker (dt_mode dt) d (dt_syn dt) (dt_pos dt) (dt_json_in_string dt) (dt_json_escaped dt).
Definition set_pos (p : nat) (dt : dsml_decode_tracker) : dsml_decode_tracker :=
  Tracker (dt_mode dt) (dt_decode dt) (dt_syn dt) p (dt_json_in_string dt) (dt_json_escaped dt).
Definition set_mode (m : dsml_track_mode) (dt : dsml_decode_tracker) : dsml_decode_tracker :=
  Tracker m (dt_decode dt) (dt_syn dt) (dt_pos dt) (dt_json_in_string dt) (dt_json_escaped dt).
Definition set_json (in_string escaped : bool) (dt : dsml_decode_tracker) : dsml_decode_tracker :=
  Tracker (dt_mode dt) (dt_decode dt) (dt_syn dt) (dt_pos dt) in_string escaped.

(** The end tag of a parameter: back to the structural loop. *)
Definition leave_param (syn : dsml_syntax) (dt : dsml_decode_tracker) : dsml_decode_tracker :=
  set_decode DSML_DECODE_STRUCTURAL
    (set_mode DSML_TRACK_STRUCTURAL (set_pos (dt_pos dt + length (param_end syn)) dt)).

Definition track_search (raw : bytes) (dt : dsml_decode_tracker) : flow :=
  match dsml_find_tool_start_from raw (dt_pos dt) with
  | None =>
      let hold := dsml_max_tool_start_len in
      let pos := if (hold <? length raw)%nat then (length raw - hold)%nat else 0%nat in
      Return (set_decode DSML_DECODE_OUTSIDE (set_pos pos dt))
  | Some (pos, syn) =>
      Continue (Tracker DSML_TRACK_STRUCTURAL DSML_DECODE_STRUCTURAL (Some syn) pos
                  (dt_json_in_string dt) (dt_json_escaped dt))
  end.

Definition track_string_body (raw : bytes) (syn : dsml_syntax) (dt : dsml_decode_tracker) : flow :=
  if (dt_pos dt <? length raw)%nat then
    if raw_full_lit raw (dt_pos dt) (param_end syn) then Continue (leave_param syn dt)
    else if raw_partial_lit_min raw (dt_pos dt) (param_end syn) 2
    then Return (set_decode DSML_DECODE_STRUCTURAL dt)
    else Continue (set_pos (S (dt_pos dt)) dt)
  else Return (set_decode DSML_DECODE_STRING_BODY dt).

(** The string state after one byte of a JSON parameter. *)
Definition json_track_byte (c : Z) (in_string escaped : bool) : bool * bool :=
  if in_string then
    if escaped then (true, false)
    else if c =? 92 then (true, true)
    else if c =? 34 then (false, escaped) else (true, escaped)
  else if c =? 34 then (true, escaped) else (false, escaped).

Definition track_json_param (raw : bytes) (syn : dsml_syntax) (dt : dsml_decode_tracker) : flow :=
  if (dt_pos dt <? length raw)%nat then
    if negb (dt_json_in_string dt) && raw_full_lit raw (dt_pos dt) (param_end syn)
    then Continue (leave_param syn dt)
    else if negb (dt_json_in_string dt) && raw_partial_lit_min raw (dt_pos dt) (param_end syn) 2
    then Return (set_decode DSML_DECODE_STRUCTURAL dt)
    else
      let '(in_string, escaped) :=
        json_track_byte (byte_at raw (dt_pos dt)) (dt_json_in_string dt) (dt_json_escaped dt) in
      Continue (set_json in_string escaped (set_pos (S (dt_pos dt)) dt))
  else Return (set_decode (if dt_json_in_string dt then DSML_DECODE_JSON_STRING
                           else DSML_DECODE_JSON_STRUCTURAL) dt).

(** The position after the white space at [pos]. *)
Definition skip_space_from (raw : bytes) (pos : nat) : nat :=
  (pos + (length (drop pos raw) - length (skip_space (drop pos raw))))%nat.

(** [memchr(raw + pos, '>', raw_len - pos)], as the offset after it. *)
Definition after_gt (raw : bytes) (pos : nat) : option nat :=
  match index_of 62 (drop pos raw) with
  | Some i => Some (S (pos + i))
  | None => None
  end.

Definition track_structural (raw : bytes) (syn : dsml_syntax) (dt : dsml_decode_tracker) : flow :=
  let pos := skip_space_from raw (dt_pos dt) in
  let dt := set_pos pos dt in
  let stay := Return (set_decode DSML_DECODE_STRUCTURAL dt) in
  if (length raw <=? pos)%nat then stay
  else if raw_full_lit raw pos (tool_calls_end syn) then
    Return (set_decode DSML_DECODE_OUTSIDE
              (set_pos (pos + length (tool_calls_end syn)) (set_mode DSML_TRACK_DONE dt)))
  else if raw_full_lit raw pos (invoke_end syn) then
    Continue (set_pos (pos + length (invoke_end syn)) dt)
  else if raw_full_lit raw pos (invoke_start syn) then
    match after_gt raw pos with
    | None => stay
    | Some e => Continue (set_pos e dt)
    end
  else if raw_full_lit raw pos (param_start syn) then
    match after_gt raw pos with
    | None => stay
    | Some tag_after =>
        Continue
          (if dsml_attr_is_string_true raw pos tag_after then
             set_decode DSML_DECODE_STRING_BODY
               (set_mode DSML_TRACK_STRING_BODY (set_pos tag_after dt))
           else
             set_decode DSML_DECODE_JSON_STRUCTURAL
               (set_json false false (set_mode DSML_TRACK_JSON_PARAM (set_pos tag_after dt))))
    end
  else if raw_partial_lit raw pos (tool_calls_end syn) || raw_partial_lit raw pos (invoke_start syn)
          || raw_partial_lit raw pos (invoke_end syn) || raw_partial_lit raw pos (param_start syn)
          || raw_partial_lit raw pos (param_end syn)
  then stay else stay.

(** A round of [for (;;)]: the loop that the mode selects. *)
Definition track_round (raw : bytes) (dt : dsml_decode_tracker) : flow :=
  match dt_mode dt, dt_syn dt with
  | DSML_TRACK_DONE, _ => Return (set_decode DSML_DECODE_OUTSIDE dt)
  | DSML_TRACK_SEARCH, _ => track_search raw dt
  | DSML_TRACK_STRING_BODY, Some syn => track_string_body raw syn dt
  | DSML_TRACK_JSON_PARAM, Some syn => track_json_param raw syn dt
  | DSML_TRACK_STRUCTURAL, Some syn => track_structural raw syn dt
  | _, None => Fault
  end.

Fixpoint track_loop (fuel : nat) (raw : bytes) (dt : dsml_decode_tracker)
    : option dsml_decode_tracker :=
  match fuel with
  | O => None
  | S fuel' =>
      match track_round raw dt with
      | Continue dt' => track_loop fuel' raw dt'
      | Return dt' => Some dt'
      | Fault => None
      end
  end.

(** Every round that goes on moves [pos] forward, so the length of the text bounds
    the rounds. *)
Definition dsml_decode_tracker_update (dt : dsml_decode_tracker) (raw : option bytes)
    : option dsml_decode_tracker :=
  match raw with
  | None => Some dt
  | Some raw => track_loop (S (length raw)) raw dt
  end.

(** ** Streaming a parameter value *)

(** [s] is a proper prefix of [lit]. *)
Definition proper_prefix (s lit : bytes) : bool :=
  (length s <? length lit)%nat && bytes_eqb s (take (length s) lit).

Definition dsml_entity_stream_safe_len (raw : bytes) (start limit : nat) : nat :=
  let max_ent := 6%nat in
  let scan := if (start + max_ent <? limit)%nat then (limit - max_ent)%nat else start in
  match last_byte 38 raw scan limit with
  | None => limit
  | Some amp =>
      if existsb (λ e, proper_prefix (drop amp (take limit raw)) e.1) entities
      then amp else limit
  end.

Definition tool_param_value_stream_safe_len (raw : bytes) (start : nat) (end_tag : bytes)
    (is_string : bool) : nat :=
  let raw_len := length raw in
  let end_len := length end_tag in
  let scan := if (start + end_len <? raw_len)%nat then (raw_len - end_len)%nat else start in
  let limit :=
    match last_byte 60 raw scan raw_len with
    | None => raw_len
    | Some marker => if proper_prefix (drop marker raw) end_tag then marker else raw_len
    end in
  let limit := if is_string then dsml_entity_stream_safe_len raw start limit else limit in
  utf8_stream_safe_len (Some raw) start limit false.
