(* ===== verification/DsmlProps.v ===== *)
(** * Correctness of the tool-call tracker

    Theorems about the tracker of [Dsml]: it always returns, and following the
    text chunk by chunk ends in the state of one pass over the whole text as long
    as no chunk stops right after a [<]. A chunk that does makes it miss a closing
    tag. *)
From S2P Require Import Prelude CLib Json JsonProps JsonSafe Request RequestProps Stream StreamProps Dsml.

(** ** Literals at a position *)

(** [d] and [lit] agree on the bytes both have. *)
Definition agree (d lit : bytes) : Prop := take (length lit) d = take (length d) lit.
#[export] Instance agree_dec d lit : Decision (agree d lit) := decide (_ = _).

Lemma agree_app_l d more lit : agree (d ++ more) lit → agree d lit.
Proof.
  unfold agree. rewrite length_app. intros H.
  apply (f_equal (take (length d))) in H. rewrite !take_take in H.
  replace (length d `min` (length d + length more))%nat with (length d) in H by lia.
  rewrite <- H. rewrite Nat.min_comm, <- take_take. by rewrite take_app_length.
Qed.

Lemma agree_two d a b : agree d a → agree d b → (length a <= length d)%nat → (length b <= length d)%nat →
  agree a b.
Proof.
  unfold agree. intros Ha Hb Hla Hlb. rewrite (take_ge a) in Ha by done. rewrite (take_ge b) in Hb by done.
  rewrite <- Ha at 1. rewrite <- Hb at 2. rewrite !take_take. f_equal. lia.
Qed.

Lemma full_agree raw pos lit :
  raw_full_lit raw pos lit = true ↔
  (pos <= length raw)%nat ∧ (length lit <= length (drop pos raw))%nat ∧ agree (drop pos raw) lit.
Proof.
  unfold raw_full_lit, agree. rewrite !andb_true_iff, !Nat.leb_le, bytes_eqb_eq, length_drop.
  split; intros H; destruct_and!; split_and!; auto; try lia.
  - rewrite (take_ge lit) by lia. done.
  - rewrite (take_ge lit) in * by lia. done.
Qed.

Lemma partial_agree raw pos lit n :
  raw_partial_lit_min raw pos lit n = true ↔
  (pos <= length raw)%nat ∧ (n <= length (drop pos raw) < length lit)%nat ∧ agree (drop pos raw) lit.
Proof.
  unfold raw_partial_lit_min, agree. rewrite !length_drop.
  destruct (Nat.ltb_spec (length raw) pos); [simpl; split; [done|lia]|].
  destruct (Nat.leb_spec (length lit) (length raw - pos)); [simpl; split; [done|lia]|]. simpl.
  rewrite andb_true_iff, Nat.leb_le, bytes_eqb_eq.
  rewrite (take_ge (drop pos raw)) by (rewrite length_drop; lia). naive_solver lia.
Qed.

Lemma full_occurs raw pos lit : raw_full_lit raw pos lit = true ↔ occurs raw lit pos.
Proof.
  rewrite full_agree. unfold occurs, agree. split.
  - intros (Hp & Hl & Ha). split; [done|]. exists (drop (length lit) (drop pos raw)).
    rewrite (take_ge lit) in Ha by done. rewrite <- Ha at 1. by rewrite take_drop.
  - intros (Hp & post & Hd). rewrite Hd, length_app. split_and!; [done|lia|].
    rewrite take_app_length, take_ge by lia. done.
Qed.

Lemma full_more raw more pos lit : raw_full_lit raw pos lit = true → raw_full_lit (raw ++ more) pos lit = true.
Proof. rewrite !full_occurs. apply occurs_more. Qed.

Lemma full_bound raw pos lit : raw_full_lit raw pos lit = true → (pos + length lit <= length raw)%nat.
Proof. rewrite full_occurs. apply occurs_bound. Qed.

(** Two literals at one position agree. *)
Lemma full_two raw pos a b :
  raw_full_lit raw pos a = true → raw_full_lit raw pos b = true → agree a b.
Proof. rewrite !full_agree. intros (? & ? & ?) (? & ? & ?). by eapply agree_two. Qed.

(** The text does not end in [<], the byte every tag begins with. *)
Definition no_open_end (raw : bytes) : Prop := last raw ≠ Some 60.

(** A position where neither the closing tag nor a part of it was seen stays so. *)
Lemma mismatch_more raw more pos r :
  (pos < length raw)%nat → no_open_end raw →
  raw_full_lit raw pos (60 :: r) = false → raw_partial_lit_min raw pos (60 :: r) 2 = false →
  raw_full_lit (raw ++ more) pos (60 :: r) = false
  ∧ raw_partial_lit_min (raw ++ more) pos (60 :: r) 2 = false.
Proof.
  intros Hp Hend Hf Hm.
  assert (Hno : ¬ agree (drop pos raw) (60 :: r)).
  { intros Ha. destruct (decide (length (60%Z :: r) <= length (drop pos raw))%nat) as [Hl|Hl].
    - assert (raw_full_lit raw pos (60 :: r) = true); [|congruence].
      apply full_agree. split_and!; [lia|done|done].
    - destruct (decide (2 <= length (drop pos raw))%nat) as [H2|H2].
      + assert (raw_partial_lit_min raw pos (60 :: r) 2 = true); [|congruence].
        apply partial_agree. split_and!; [lia|done|lia|done].
      + rewrite length_drop in H2. apply Hend. rewrite <- (take_drop pos raw).
        destruct (drop pos raw) as [|c d] eqn:Ed; [apply (f_equal length) in Ed; rewrite length_drop in Ed; simpl in Ed; lia|].
        destruct d; [|apply (f_equal length) in Ed; rewrite length_drop in Ed; simpl in Ed; lia].
        unfold agree in Ha. simpl in Ha. rewrite take_nil in Ha. injection Ha as ->. apply last_snoc. }
  split; apply not_true_is_false; [intros (_ & _ & Ha)%full_agree|intros (_ & _ & Ha)%partial_agree];
    rewrite drop_app_le in Ha by lia; by apply Hno, (agree_app_l _ more).
Qed.

(** ** The search for a tool call *)

Lemma find_lit_strstr s lit : find_lit_bounded s lit = strstr s lit.
Proof.
  induction s as [|c r IH].
  - destruct lit; reflexivity.
  - cbn [find_lit_bounded strstr]. rewrite IH.
    destruct (strip_prefix lit (c :: r)) as [x|] eqn:E.
    + apply strip_prefix_Some in E. rewrite E, length_app, take_app_length, bytes_eqb_refl.
      destruct (Nat.ltb_spec (length lit + length x) (length lit)); [lia|done].
    + destruct (Nat.ltb_spec (length (c :: r)) (length lit)) as [Hlt|Hge].
      * destruct (strstr r lit) as [i|] eqn:Es; [|done]. apply strstr_occurs in Es as [Ho%occurs_bound _].
        simpl in Hlt. lia.
      * destruct (bytes_eqb _ lit) eqn:Eb; [|done]. apply bytes_eqb_eq in Eb.
        rewrite <- (take_drop (length lit) (c :: r)), Eb, strip_prefix_app in E. done.
Qed.

(** Every spelling begins its tags with their only [<], and no tag of it begins
    another. *)
Definition tags (syn : dsml_syntax) : list bytes :=
  [tool_calls_end syn; invoke_end syn; invoke_start syn; param_start syn].

Definition apart (l : list bytes) : Prop :=
  ∀ a b, a ∈ l → b ∈ l → agree a b → a = b.

#[local] Instance all_pairs_dec (l : list bytes) :
  Decision (Forall (λ a, Forall (λ b, agree a b → a = b) l) l).
Proof. apply _. Defined.

Lemma apart_ok l : bool_decide (Forall (λ a, Forall (λ b, agree a b → a = b) l) l) = true → apart l.
Proof.
  intros H%bool_decide_eq_true a b Ha Hb Hab. rewrite Forall_forall in H. specialize (H a Ha).
  rewrite Forall_forall in H. by apply H.
Qed.

Lemma starts_apart : apart (tool_calls_start <$> dsml_syntaxes).
Proof. apply apart_ok. vm_compute. reflexivity. Qed.

Lemma tags_apart syn : syn ∈ dsml_syntaxes → apart (tags syn) ∧ NoDup (tags syn) ∧ ∃ r, param_end syn = 60 :: r.
Proof.
  intros H. apply list_elem_of_In in H. destruct H as [<-|[<-|[<-|[]]]].
  all: split; [apply apart_ok; vm_compute; reflexivity|]; split.
  all: first [apply (bool_decide_eq_true_1 _); vm_compute; reflexivity|eexists; reflexivity].
Qed.

Lemma start_shape syn : syn ∈ dsml_syntaxes →
  (length (tool_calls_start syn) <= dsml_max_tool_start_len)%nat
  ∧ ∃ r, tool_calls_start syn = 60 :: r ∧ 60 ∉ r.
Proof.
  intros H. apply list_elem_of_In in H. destruct H as [<-|[<-|[<-|[]]]].
  all: split; [vm_compute; lia|]; eexists; split; [reflexivity|].
  all: apply (bool_decide_eq_true_1 _); vm_compute; reflexivity.
Qed.

Lemma start_inj s1 s2 : s1 ∈ dsml_syntaxes → s2 ∈ dsml_syntaxes →
  tool_calls_start s1 = tool_calls_start s2 → s1 = s2.
Proof.
  intros H1 H2. apply list_elem_of_In in H1, H2.
  destruct H1 as [<-|[<-|[<-|[]]]]; destruct H2 as [<-|[<-|[<-|[]]]]; first [done|discriminate].
Qed.

(** [p] is the first place from [from] on where a tool call begins, in spelling [syn]. *)
Definition first_start (raw : bytes) (from p : nat) (syn : dsml_syntax) : Prop :=
  syn ∈ dsml_syntaxes ∧ (from <= p)%nat ∧ occurs raw (tool_calls_start syn) p
  ∧ ∀ s q, s ∈ dsml_syntaxes → (from <= q)%nat → occurs raw (tool_calls_start s) q → (p <= q)%nat.

Lemma better_start_spec raw l :
  match foldl (better_start raw) None l with
  | None => ∀ s q, s ∈ l → ¬ occurs raw (tool_calls_start s) q
  | Some (p, syn) => syn ∈ l ∧ occurs raw (tool_calls_start syn) p
      ∧ ∀ s q, s ∈ l → occurs raw (tool_calls_start s) q → (p <= q)%nat
  end.
Proof.
  induction l as [|x l IH] using rev_ind; [intros s q []%elem_of_nil|].
  rewrite foldl_app. cbn [foldl]. set (best := foldl _ None l) in *. clearbody best.
  unfold better_start. rewrite find_lit_strstr.
  destruct (strstr raw (tool_calls_start x)) as [c|] eqn:Es.
  - apply strstr_occurs in Es as [Ho Hmin]. destruct best as [[b y]|].
    + destruct IH as (Hy & Hoy & Hall). destruct (Nat.ltb_spec c b).
      * split_and!; [set_solver|done|]. intros s q [Hs| ->]%elem_of_snoc Hq; [|by apply Hmin].
        specialize (Hall s q Hs Hq). lia.
      * split_and!; [set_solver|done|]. intros s q [Hs| ->]%elem_of_snoc Hq; [by eapply Hall|].
        specialize (Hmin q Hq). lia.
    + split_and!; [set_solver|done|]. intros s q [Hs| ->]%elem_of_snoc Hq; [|by apply Hmin].
      by destruct (IH s q).
  - assert (Hno : ∀ q, ¬ occurs raw (tool_calls_start x) q) by (intros; by apply strstr_none_occurs).
    destruct best as [[b y]|].
    + destruct IH as (Hy & Hoy & Hall). split_and!; [set_solver|done|].
      intros s q [Hs| ->]%elem_of_snoc Hq; [by eapply Hall|by destruct (Hno q)].
    + intros s q [Hs| ->]%elem_of_snoc; [by apply IH|apply Hno].
Qed.

Lemma find_start_from_spec raw from : (from <= length raw)%nat →
  match dsml_find_tool_start_from raw from with
  | None => ∀ s q, s ∈ dsml_syntaxes → (from <= q)%nat → ¬ occurs raw (tool_calls_start s) q
  | Some (e, syn) => ∃ p, e = (p + length (tool_calls_start syn))%nat ∧ first_start raw from p syn
  end.
Proof.
  intros Hf. unfold dsml_find_tool_start_from, dsml_find_tool_start.
  destruct (Nat.ltb_spec (length raw) from); [lia|].
  pose proof (better_start_spec (drop from raw) dsml_syntaxes) as Hs.
  assert (Hrw : ∀ s q, (from <= q)%nat → occurs raw s q → occurs (drop from raw) s (q - from)).
  { intros s q Hq Ho. apply occurs_drop; [done|]. by replace (from + (q - from))%nat with q by lia. }
  destruct (foldl _ None dsml_syntaxes) as [[p syn]|].
  - destruct Hs as (Hin & Ho & Hall). exists (from + p)%nat. split; [lia|]. split_and!; [done|lia|by apply occurs_drop|].
    intros s q Hs Hq Hoq. specialize (Hall s (q - from)%nat Hs (Hrw _ _ Hq Hoq)). lia.
  - intros s q Hs' Hq Ho. by apply (Hs s (q - from)%nat Hs'), Hrw.
Qed.

Lemma first_start_unique raw f p1 s1 p2 s2 :
  first_start raw f p1 s1 → first_start raw f p2 s2 → p1 = p2 ∧ s1 = s2.
Proof.
  intros (Hi1 & Hf1 & Ho1 & Hm1) (Hi2 & Hf2 & Ho2 & Hm2).
  assert (p1 = p2) as -> by (specialize (Hm1 _ _ Hi2 Hf2 Ho2); specialize (Hm2 _ _ Hi1 Hf1 Ho1); lia).
  split; [done|]. apply start_inj; [done|done|].
  apply starts_apart; [by apply list_elem_of_fmap_2|by apply list_elem_of_fmap_2|].
  eapply full_two; by apply full_occurs.
Qed.

(** The first tool call of a text is the first of a longer text: a marker that a
    later byte completes cannot contain it. *)
Lemma first_start_more raw more p syn :
  first_start raw 0 p syn → first_start (raw ++ more) 0 p syn.
Proof.
  intros (Hi & Hf & Ho & Hm). split_and!; [done|done|by apply occurs_more|].
  intros s q Hs _ Hq. destruct (Nat.le_gt_cases p q) as [|Hlt]; [done|exfalso].
  destruct (Nat.le_gt_cases (q + length (tool_calls_start s)) (length raw)) as [Hin|Hout].
  { apply occurs_app_l in Hq; [|done]. specialize (Hm s q Hs ltac:(lia) Hq). lia. }
  pose proof (occurs_bound _ _ _ Ho) as Hb.
  destruct (start_shape syn Hi) as (_ & r & Er & _), (start_shape s Hs) as (_ & r' & Er' & Hr').
  pose proof (occurs_byte _ _ _ 0 (occurs_more _ more _ _ Ho) ltac:(rewrite Er; simpl; lia)) as Hc.
  pose proof (occurs_byte _ _ _ (p - q) Hq ltac:(lia)) as Hc'.
  rewrite Nat.add_0_r, Er in Hc. replace (q + (p - q))%nat with p in Hc' by lia. rewrite Hc, Er' in Hc'.
  apply Hr', list_elem_of_In. replace (p - q)%nat with (S (p - q - 1)) in Hc' by lia.
  unfold byte_at in Hc'. cbn [nth] in Hc'. rewrite Hc'. apply nth_In.
  rewrite Er' in Hout. cbn [length] in Hout. lia.
Qed.

Lemma find_start_more raw more e syn :
  dsml_find_tool_start_from raw 0 = Some (e, syn) →
  dsml_find_tool_start_from (raw ++ more) 0 = Some (e, syn).
Proof.
  intros H. pose proof (find_start_from_spec raw 0 ltac:(lia)) as Hs. rewrite H in Hs.
  destruct Hs as (p & -> & Hp). apply (first_start_more _ more) in Hp.
  pose proof (find_start_from_spec (raw ++ more) 0 ltac:(lia)) as Hs'.
  destruct (dsml_find_tool_start_from (raw ++ more) 0) as [[e' syn']|].
  - destruct Hs' as (p' & -> & Hp'). by destruct (first_start_unique _ _ _ _ _ _ Hp Hp') as [-> ->].
  - destruct Hp as (Hi & _ & Ho & _). by destruct (Hs' syn p Hi ltac:(lia)).
Qed.

(** Where the search resumes after a text without a tool call. *)
Definition resume_pos (raw : bytes) : nat :=
  if (dsml_max_tool_start_len <? length raw)%nat then (length raw - dsml_max_tool_start_len)%nat else 0%nat.

Lemma find_start_resume raw more :
  dsml_find_tool_start_from raw 0 = None →
  dsml_find_tool_start_from (raw ++ more) (resume_pos raw) = dsml_find_tool_start_from (raw ++ more) 0.
Proof.
  intros H. pose proof (find_start_from_spec raw 0 ltac:(lia)) as Hn. rewrite H in Hn. clear H.
  assert (Hlate : ∀ s q, s ∈ dsml_syntaxes → occurs (raw ++ more) (tool_calls_start s) q → (resume_pos raw <= q)%nat).
  { intros s q Hs Ho. destruct (start_shape s Hs) as [Hl _].
    destruct (Nat.le_gt_cases (q + length (tool_calls_start s)) (length raw)) as [Hin|Hout].
    { apply occurs_app_l in Ho; [|done]. by destruct (Hn s q Hs ltac:(lia)). }
    unfold resume_pos. destruct (Nat.ltb_spec dsml_max_tool_start_len (length raw)); lia. }
  assert (Hr : (resume_pos raw <= length (raw ++ more))%nat).
  { rewrite length_app. unfold resume_pos. destruct (Nat.ltb_spec dsml_max_tool_start_len (length raw)); lia. }
  pose proof (find_start_from_spec (raw ++ more) _ Hr) as H1.
  pose proof (find_start_from_spec (raw ++ more) 0 ltac:(lia)) as H0.
  destruct (dsml_find_tool_start_from (raw ++ more) (resume_pos raw)) as [[e1 s1]|],
    (dsml_find_tool_start_from (raw ++ more) 0) as [[e0 s0]|].
  - destruct H1 as (p1 & -> & Hi & Hf & Ho & Hm), H0 as (p0 & -> & Hp0).
    assert (first_start (raw ++ more) 0 p1 s1) as Hp1.
    { split_and!; [done|lia|done|]. intros s q Hs _ Hq. by eapply Hm, Hq; [|eapply Hlate]. }
    by destruct (first_start_unique _ _ _ _ _ _ Hp1 Hp0) as [-> ->].
  - destruct H1 as (p1 & _ & Hi & _ & Ho & _). by destruct (H0 s1 p1 Hi ltac:(lia)).
  - destruct H0 as (p0 & _ & Hi & _ & Ho & _). destruct (H1 s0 p0 Hi); [by eapply Hlate|done].
  - done.
Qed.

(** ** White space and tag ends *)

Lemma skip_from_alt raw pos : (pos <= length raw)%nat →
  drop (skip_space_from raw pos) raw = skip_space (drop pos raw)
  ∧ (pos <= skip_space_from raw pos <= length raw)%nat.
Proof.
  intros Hp. unfold skip_space_from, skip_space. set (d := drop pos raw).
  assert (Hd : ∀ l, drop (length l - length (drop_while isspace l)) l = drop_while isspace l).
  { induction l as [|c l IH]; [done|]. cbn [drop_while]. destruct (isspace c); [|by rewrite Nat.sub_diag].
    pose proof (drop_while_length isspace l). cbn [length].
    by replace (S (length l) - length (drop_while isspace l))%nat
      with (S (length l - length (drop_while isspace l))) by lia. }
  pose proof (drop_while_length isspace d). assert (length d = length raw - pos)%nat by apply length_drop.
  split; [|lia]. rewrite <- drop_drop. apply Hd.
Qed.

Lemma skip_from_past raw pos : (length raw <= pos)%nat → skip_space_from raw pos = pos.
Proof. intros H. unfold skip_space_from. rewrite drop_ge by done. simpl. lia. Qed.

Lemma skip_space_app a b : skip_space a ≠ [] → skip_space (a ++ b) = skip_space a ++ b.
Proof.
  unfold skip_space. induction a as [|c a IH]; [done|]. simpl. destruct (isspace c); [apply IH|done].
Qed.

Lemma skip_space_all a b : skip_space a = [] → skip_space (a ++ b) = skip_space b.
Proof.
  unfold skip_space. induction a as [|c a IH]; [done|]. simpl. destruct (isspace c); [apply IH|done].
Qed.

Lemma skip_space_idem a : skip_space (skip_space a) = skip_space a.
Proof.
  unfold skip_space. apply drop_while_stop. intros c r H. by eapply drop_while_head.
Qed.

(** A skip that stops inside the text stops at the same place in a longer one. *)
Lemma skip_from_more raw more pos : (skip_space_from raw pos < length raw)%nat →
  skip_space_from (raw ++ more) pos = skip_space_from raw pos.
Proof.
  intros H. destruct (Nat.le_gt_cases pos (length raw)) as [Hp|]; [|rewrite skip_from_past in H; lia].
  destruct (skip_from_alt raw pos Hp) as [Hd Hb].
  assert (Hne : skip_space (drop pos raw) ≠ []).
  { rewrite <- Hd. intros E%(f_equal length). rewrite length_drop in E. simpl in E. lia. }
  unfold skip_space_from. rewrite drop_app_le by done. rewrite skip_space_app by done.
  rewrite !length_app. lia.
Qed.

Lemma skip_from_resume raw more pos : (pos <= length raw)%nat →
  skip_space_from (raw ++ more) (skip_space_from raw pos) = skip_space_from (raw ++ more) pos.
Proof.
  intros Hp. destruct (skip_from_alt raw pos Hp) as [Hd Hb].
  unfold skip_space_from at 1 3. rewrite !drop_app_le by lia. rewrite Hd.
  destruct (decide (skip_space (drop pos raw) = [])) as [E|E].
  - rewrite E, (skip_space_all _ _ E), app_nil_l, length_app.
    rewrite E in Hd. apply (f_equal length) in Hd. rewrite length_drop in Hd. simpl in Hd.
    rewrite length_drop. pose proof (skip_space_length more). lia.
  - rewrite (skip_space_app _ _ E), skip_space_app by (by rewrite skip_space_idem).
    rewrite skip_space_idem, !length_app. rewrite <- Hd at 1. rewrite <- Hd, !length_drop. lia.
Qed.

Lemma after_gt_more raw more pos e : after_gt raw pos = Some e → after_gt (raw ++ more) pos = Some e.
Proof.
  unfold after_gt, index_of. destruct (strstr (drop pos raw) [62]) as [i|] eqn:E; [|done].
  intros [= <-]. apply strstr_occurs in E as [Ho Hmin].
  destruct (Nat.le_gt_cases pos (length raw)) as [Hp|Hp].
  2: { apply occurs_bound in Ho. rewrite drop_ge in Ho by lia. simpl in Ho. lia. }
  rewrite drop_app_le by done. pose proof (occurs_more _ more _ _ Ho) as Ho'.
  destruct (strstr (drop pos raw ++ more) [62]) as [j|] eqn:Ej.
  - apply strstr_occurs in Ej as [Hj Hjm]. specialize (Hjm _ Ho'). do 3 f_equal.
    apply occurs_bound in Ho. simpl in Ho. apply occurs_app_l in Hj; [|simpl; lia].
    specialize (Hmin _ Hj). lia.
  - by destruct (strstr_none_occurs _ _ i Ej).
Qed.

Lemma after_gt_bound raw pos e : after_gt raw pos = Some e → (pos < e <= length raw)%nat.
Proof.
  unfold after_gt, index_of. destruct (strstr (drop pos raw) [62]) as [i|] eqn:E; [|done].
  intros [= <-]. apply strstr_occurs in E as [Ho%occurs_bound _]. rewrite length_drop in Ho. simpl in Ho. lia.
Qed.

Lemma attr_true_more raw more a b : (b <= length raw)%nat →
  dsml_attr_is_string_true (raw ++ more) a b = dsml_attr_is_string_true raw a b.
Proof.
  intros Hb. unfold dsml_attr_is_string_true. rewrite length_app.
  destruct (Nat.leb_spec b a); [done|]. simpl.
  destruct (Nat.ltb_spec (length raw) b), (Nat.ltb_spec (length raw + length more) b); try lia.
  rewrite drop_app_le, take_app_le by (rewrite ?length_drop; lia). done.
Qed.

(** ** Rounds of the tracker *)

(** A tracker past the search has a spelling. *)
Definition tracker_wf (dt : dsml_decode_tracker) : Prop :=
  match dt_mode dt with
  | DSML_TRACK_SEARCH | DSML_TRACK_DONE => True
  | _ => ∃ syn, dt_syn dt = Some syn ∧ syn ∈ dsml_syntaxes
  end.

(** Equal but for the reported state, which every return sets. *)
Definition same_track (a b : dsml_decode_tracker) : Prop :=
  set_decode DSML_DECODE_OUTSIDE a = set_decode DSML_DECODE_OUTSIDE b.

Definition same_flow (f g : flow) : Prop :=
  match f, g with
  | Continue a, Continue b => same_track a b
  | Return a, Return b => a = b
  | Fault, Fault => True
  | _, _ => False
  end.

Lemma same_track_eq a b : same_track a b → b = set_decode (dt_decode b) a.
Proof. destruct a, b. unfold same_track, set_decode. cbn. by intros [= -> -> -> -> ->]. Qed.

Ltac track_cases :=
  repeat match goal with
    | |- context [match ?x with _ => _ end] =>
        lazymatch x with context [match _ with _ => _ end] => fail | _ => destruct x end
    end.

Lemma round_decode raw dt d : same_flow (track_round raw dt) (track_round raw (set_decode d dt)).
Proof.
  destruct dt as [m d0 syn pos js je]. destruct m, syn as [syn|];
    unfold track_round, track_search, track_structural, track_string_body, track_json_param, set_decode, set_pos;
    cbn -[dsml_find_tool_start_from raw_full_lit raw_partial_lit_min raw_partial_lit after_gt skip_space_from dsml_attr_is_string_true byte_at Nat.ltb Nat.leb];
    track_cases; done.
Qed.

Lemma round_same raw a b : same_track a b → same_flow (track_round raw a) (track_round raw b).
Proof. intros ->%same_track_eq. apply round_decode. Qed.

Lemma full_pos raw pos lit : raw_full_lit raw pos lit = true → lit ≠ [] → (0 < length lit)%nat.
Proof. destruct lit; [done|simpl; lia]. Qed.

Lemma tags_nonempty syn : syn ∈ dsml_syntaxes → Forall (λ t, 0 < length t)%nat (param_end syn :: tags syn).
Proof.
  intros H. apply list_elem_of_In in H. destruct H as [<-|[<-|[<-|[]]]];
    repeat (apply List.Forall_cons; [vm_compute; lia|]); apply List.Forall_nil.
Qed.

(** What a round that goes on does: it moves forward inside the text and keeps a
    spelling. *)
Definition moves (raw : bytes) (dt dt' : dsml_decode_tracker) : Prop :=
  (dt_pos dt < dt_pos dt' <= length raw)%nat ∧ tracker_wf dt'.

Lemma search_moves raw dt dt' : track_search raw dt = Continue dt' → moves raw dt dt'.
Proof.
  unfold track_search, moves. destruct dt as [m d0 syn pos js je]. cbn [dt_pos]. intros H.
  destruct (Nat.le_gt_cases pos (length raw)) as [Hp|Hp].
  2: { unfold dsml_find_tool_start_from in H. destruct (Nat.ltb_spec (length raw) pos); [done|lia]. }
  pose proof (find_start_from_spec raw pos Hp) as Hs.
  destruct (dsml_find_tool_start_from raw pos) as [[e syn']|]; [|done]. injection H as <-.
  destruct Hs as (p & -> & Hin & Hf & Ho & _). cbn. split; [|by exists syn'].
  apply occurs_bound in Ho. destruct (start_shape syn' Hin) as (_ & r & Er & _). rewrite Er in *. simpl in *. lia.
Qed.

Lemma structural_moves raw syn dt dt' : syn ∈ dsml_syntaxes → dt_mode dt = DSML_TRACK_STRUCTURAL →
  dt_syn dt = Some syn → track_structural raw syn dt = Continue dt' → moves raw dt dt'.
Proof.
  intros Hin. destruct dt as [m d0 o pos js je]. cbn. intros -> ->. unfold track_structural, moves. cbn [dt_pos set_pos].
  pose proof (tags_nonempty _ Hin) as Hne. unfold tags in Hne. rewrite !Forall_cons in Hne.
  destruct Hne as (Hpe & Hte & Hie & His & Hps & _).
  destruct (Nat.leb_spec (length raw) (skip_space_from raw pos)) as [|Hlt]; [done|].
  assert (pos <= length raw)%nat as Hp.
  { destruct (Nat.le_gt_cases pos (length raw)); [done|]. rewrite skip_from_past in Hlt; lia. }
  destruct (skip_from_alt raw pos Hp) as [_ Hb]. intros H.
  destruct (raw_full_lit _ _ (tool_calls_end syn)); [done|].
  destruct (raw_full_lit _ _ (invoke_end syn)) eqn:E1.
  { injection H as <-. apply full_bound in E1. cbn. split; [lia|by exists syn]. }
  destruct (raw_full_lit _ _ (invoke_start syn)).
  { destruct (after_gt raw _) as [e|] eqn:Eg; [|done]. injection H as <-. apply after_gt_bound in Eg.
    cbn. split; [lia|by exists syn]. }
  destruct (raw_full_lit _ _ (param_start syn)); [|by case_match].
  destruct (after_gt raw _) as [e|] eqn:Eg; [|done]. injection H as <-. apply after_gt_bound in Eg.
  case_match; cbn; (split; [lia|by exists syn]).
Qed.

Lemma param_moves raw syn dt dt' : syn ∈ dsml_syntaxes → tracker_wf dt → dt_syn dt = Some syn →
  track_string_body raw syn dt = Continue dt' ∨ track_json_param raw syn dt = Continue dt' → moves raw dt dt'.
Proof.
  intros Hin Hwf Hsyn.
  pose proof (tags_nonempty _ Hin) as Hne. rewrite Forall_cons in Hne. destruct Hne as [Hpe _].
  destruct dt as [m d0 o pos js je]. cbn in Hsyn. subst o.
  assert (Hwf' : ∀ d p j1 j2, tracker_wf (Tracker m d (Some syn) p j1 j2)) by (intros; destruct m; done || by exists syn).
  unfold track_string_body, track_json_param, moves, leave_param. cbn [dt_pos dt_json_in_string dt_json_escaped].
  destruct (Nat.ltb_spec pos (length raw)); [|intros [?|?]; done].
  destruct (raw_full_lit _ _ _) eqn:E1.
  - apply full_bound in E1. intros [[= <-]|H']; [cbn; split; [lia|by exists syn]|].
    destruct js; cbn [negb andb] in H'; [|injection H' as <-; cbn; split; [lia|by exists syn]].
    destruct (json_track_byte _ _ _). injection H' as <-. cbn. split; [lia|apply Hwf'].
  - rewrite andb_false_r. intros [H'|H'].
    + destruct (raw_partial_lit_min _ _ _ _); [done|]. injection H' as <-. cbn. split; [lia|apply Hwf'].
    + destruct (_ && _); [done|]. destruct (json_track_byte _ _ _). injection H' as <-. cbn. split; [lia|apply Hwf'].
Qed.

Lemma round_moves raw dt dt' : tracker_wf dt → track_round raw dt = Continue dt' → moves raw dt dt'.
Proof.
  intros Hwf H. pose proof Hwf as Hwf'. unfold track_round, tracker_wf in *.
  destruct (dt_mode dt) eqn:Em; [by apply search_moves| | | |done];
    destruct Hwf' as (syn & Es & Hin); rewrite Es in H.
  - by eapply structural_moves.
  - eapply param_moves; eauto. unfold tracker_wf. by rewrite Em.
  - eapply param_moves; eauto. unfold tracker_wf. by rewrite Em.
Qed.

(** ** Runs of the tracker *)

Definition runs (raw : bytes) (dt r : dsml_decode_tracker) : Prop :=
  ∃ fuel, track_loop fuel raw dt = Some r.

Lemma loop_mono raw f1 f2 dt r : (f1 <= f2)%nat →
  track_loop f1 raw dt = Some r → track_loop f2 raw dt = Some r.
Proof.
  revert f2 dt. induction f1 as [|f1 IH]; intros f2 dt Hle H; [done|]. destruct f2 as [|f2]; [lia|].
  simpl in *. destruct (track_round raw dt); [apply IH; [lia|done]|done|done].
Qed.

Lemma round_wf raw dt dt' : tracker_wf dt →
  track_round raw dt = Return dt' → tracker_wf dt'.
Proof.
  destruct dt as [m d0 o pos js je]. unfold track_round, tracker_wf. cbn [dt_mode dt_syn].
  intros Hwf H. destruct m; [|destruct Hwf as (syn & -> & Hin)..|injection H as <-; done].
  - unfold track_search in H. destruct (dsml_find_tool_start_from _ _) as [[]|]; [done|]. by injection H as <-.
  - unfold track_structural in H.
    repeat match type of H with context [if ?x then _ else _] => destruct x end;
      repeat match type of H with context [match ?x with Some _ => _ | None => _ end] => destruct x end;
      try discriminate; injection H as <-; cbn; done || by exists syn.
  - unfold track_string_body in H.
    repeat match type of H with context [if ?x then _ else _] => destruct x end;
      try discriminate; injection H as <-; cbn; by exists syn.
  - unfold track_json_param in H. destruct (json_track_byte _ _ _).
    repeat match type of H with context [if ?x then _ else _] => destruct x end;
      try discriminate; injection H as <-; cbn; by exists syn.
Qed.

Lemma round_no_fault raw dt : tracker_wf dt → track_round raw dt ≠ Fault.
Proof.
  unfold tracker_wf, track_round. destruct (dt_mode dt); [|intros (syn & -> & _)..|done].
  - intros _. unfold track_search. by destruct (dsml_find_tool_start_from _ _) as [[]|].
  - unfold track_structural. track_cases; done.
  - unfold track_string_body. track_cases; done.
  - unfold track_json_param. destruct (json_track_byte _ _ _). track_cases; done.
Qed.

Lemma loop_total raw fuel dt : tracker_wf dt → (length raw - dt_pos dt < fuel)%nat →
  ∃ r, track_loop fuel raw dt = Some r ∧ tracker_wf r.
Proof.
  revert dt. induction fuel as [|fuel IH]; intros dt Hwf Hf; [lia|]. simpl.
  destruct (track_round raw dt) as [dt'|dt'|] eqn:E.
  - destruct (round_moves _ _ _ Hwf E) as [Hp Hwf']. apply IH; [done|lia].
  - exists dt'. split; [done|]. by eapply round_wf.
  - by destruct (round_no_fault raw dt).
Qed.

Lemma update_total dt raw : tracker_wf dt →
  ∃ r, dsml_decode_tracker_update dt (Some raw) = Some r ∧ tracker_wf r.
Proof. intros Hwf. apply loop_total; [done|]. lia. Qed.

Lemma runs_update dt raw r : tracker_wf dt →
  runs raw dt r ↔ dsml_decode_tracker_update dt (Some raw) = Some r.
Proof.
  intros Hwf. split; [|by exists (S (length raw))]. intros [f Hf].
  destruct (update_total dt raw Hwf) as (r' & Hr & _). rewrite Hr. unfold dsml_decode_tracker_update in Hr.
  apply (loop_mono _ _ (Nat.max f (S (length raw)))) in Hf, Hr; try lia. congruence.
Qed.

Lemma runs_same raw a b r : same_track a b → runs raw a r → runs raw b r.
Proof.
  intros Hs [f Hf]. exists f. revert a b Hs Hf. induction f as [|f IH]; intros a b Hs Hf; [done|].
  simpl in *. pose proof (round_same raw a b Hs) as Hfl.
  destruct (track_round raw a), (track_round raw b); try done; [by eapply IH|].
  simpl in Hfl. congruence.
Qed.

Lemma runs_step raw dt dt' r : track_round raw dt = Continue dt' → runs raw dt' r → runs raw dt r.
Proof. intros H [f Hf]. exists (S f). simpl. by rewrite H. Qed.

(** Two trackers whose rounds agree run alike. *)
Lemma runs_flow raw a b r : same_flow (track_round raw a) (track_round raw b) → runs raw a r → runs raw b r.
Proof.
  intros Hfl [[|f] Hf]; [done|]. simpl in Hf.
  destruct (track_round raw a) as [a'|a'|] eqn:Ea, (track_round raw b) as [b'|b'|] eqn:Eb; try done.
  - eapply runs_step; [done|]. eapply runs_same; [done|]. by exists f.
  - simpl in Hfl. subst. exists 1%nat. simpl. by rewrite Eb.
Qed.

(** ** A longer text *)

Section More.
Context (raw more : bytes) (Hend : no_open_end raw).

(** A tag found in the text is the tag found in the longer one. *)
Lemma tag_apart_more syn pos a b : syn ∈ dsml_syntaxes → a ∈ tags syn → b ∈ tags syn → a ≠ b →
  raw_full_lit raw pos b = true → raw_full_lit (raw ++ more) pos a = false.
Proof.
  intros Hin Ha Hb Hne Hfb. apply not_true_is_false. intros Hfa. apply Hne.
  destruct (tags_apart syn Hin) as [Hap _]. apply Hap; [done|done|]. by eapply full_two, full_more.
Qed.

Lemma structural_continue_more syn dt dt' : syn ∈ dsml_syntaxes →
  track_structural raw syn dt = Continue dt' → track_structural (raw ++ more) syn dt = Continue dt'.
Proof.
  intros Hin. destruct (tags_apart syn Hin) as (_ & Hnd & _). unfold tags in Hnd.
  rewrite !NoDup_cons in Hnd. destruct Hnd as (N1 & N2 & N3 & _).
  unfold track_structural. cbn zeta.
  destruct (Nat.leb_spec (length raw) (skip_space_from raw (dt_pos dt))) as [|Hlt]; [done|].
  rewrite (skip_from_more raw more) by done. rewrite length_app.
  destruct (Nat.leb_spec (length raw + length more) (skip_space_from raw (dt_pos dt))); [lia|].
  destruct (raw_full_lit raw _ (tool_calls_end syn)) eqn:E0; [done|].
  destruct (raw_full_lit raw _ (invoke_end syn)) eqn:E1.
  { rewrite (tag_apart_more syn _ (tool_calls_end syn) (invoke_end syn)) by (done || unfold tags; set_solver).
    by rewrite (full_more _ _ _ _ E1). }
  destruct (raw_full_lit raw _ (invoke_start syn)) eqn:E2.
  { rewrite (tag_apart_more syn _ (tool_calls_end syn) (invoke_start syn)) by (done || unfold tags; set_solver).
    rewrite (tag_apart_more syn _ (invoke_end syn) (invoke_start syn)) by (done || unfold tags; set_solver).
    rewrite (full_more _ _ _ _ E2). destruct (after_gt raw _) as [e|] eqn:Eg; [|done].
    by rewrite (after_gt_more _ _ _ _ Eg). }
  destruct (raw_full_lit raw _ (param_start syn)) eqn:E3; [|by case_match].
  rewrite (tag_apart_more syn _ (tool_calls_end syn) (param_start syn)) by (done || unfold tags; set_solver).
  rewrite (tag_apart_more syn _ (invoke_end syn) (param_start syn)) by (done || unfold tags; set_solver).
  rewrite (tag_apart_more syn _ (invoke_start syn) (param_start syn)) by (done || unfold tags; set_solver).
  rewrite (full_more _ _ _ _ E3). destruct (after_gt raw _) as [e|] eqn:Eg; [|done].
  rewrite (after_gt_more _ _ _ _ Eg), attr_true_more by (apply after_gt_bound in Eg; lia). done.
Qed.

Lemma string_continue_more syn dt dt' : syn ∈ dsml_syntaxes →
  track_string_body raw syn dt = Continue dt' → track_string_body (raw ++ more) syn dt = Continue dt'.
Proof.
  intros Hin. destruct (tags_apart syn Hin) as (_ & _ & r & Er). unfold track_string_body.
  destruct (Nat.ltb_spec (dt_pos dt) (length raw)) as [Hlt|]; [|done]. rewrite length_app.
  destruct (Nat.ltb_spec (dt_pos dt) (length raw + length more)); [|lia].
  destruct (raw_full_lit raw _ _) eqn:E1; [by rewrite (full_more _ _ _ _ E1)|].
  destruct (raw_partial_lit_min raw _ _ _) eqn:E2; [done|]. rewrite Er in *.
  by destruct (mismatch_more raw more _ _ Hlt Hend E1 E2) as [-> ->].
Qed.

Lemma json_continue_more syn dt dt' : syn ∈ dsml_syntaxes →
  track_json_param raw syn dt = Continue dt' → track_json_param (raw ++ more) syn dt = Continue dt'.
Proof.
  intros Hin. destruct (tags_apart syn Hin) as (_ & _ & r & Er). unfold track_json_param.
  destruct (Nat.ltb_spec (dt_pos dt) (length raw)) as [Hlt|]; [|done]. rewrite length_app.
  destruct (Nat.ltb_spec (dt_pos dt) (length raw + length more)); [|lia].
  rewrite byte_at_app_l by done. destruct (dt_json_in_string dt); [done|]. cbn [negb andb].
  destruct (raw_full_lit raw _ _) eqn:E1; [by rewrite (full_more _ _ _ _ E1)|].
  destruct (raw_partial_lit_min raw _ _ _) eqn:E2; [done|]. rewrite Er in *.
  by destruct (mismatch_more raw more _ _ Hlt Hend E1 E2) as [-> ->].
Qed.

(** The search only ever starts at the beginning. *)
Definition from_start (dt : dsml_decode_tracker) : Prop :=
  tracker_wf dt ∧ (dt_pos dt <= length raw)%nat ∧ (dt_mode dt = DSML_TRACK_SEARCH → dt_pos dt = 0%nat).

Lemma round_continue_more dt dt' : from_start dt →
  track_round raw dt = Continue dt' → track_round (raw ++ more) dt = Continue dt'.
Proof.
  intros (Hwf & _ & H0). unfold track_round, tracker_wf in *.
  destruct (dt_mode dt); [|destruct Hwf as (syn & -> & Hin)..|done].
  - unfold track_search. rewrite H0 by done.
    destruct (dsml_find_tool_start_from raw 0) as [[e syn]|] eqn:E; [|done].
    by rewrite (find_start_more _ _ _ _ E).
  - by apply structural_continue_more.
  - by apply string_continue_more.
  - by apply json_continue_more.
Qed.
End More.

(** ** Chunks *)

Section Resume.
Context (raw more : bytes) (Hend : no_open_end raw).

(** A return leaves a tracker that goes on in the longer text as if it had never
    returned. *)
Lemma structural_return_more syn dt d1 : syn ∈ dsml_syntaxes → (dt_pos dt <= length raw)%nat →
  dt_mode dt = DSML_TRACK_STRUCTURAL → dt_syn dt = Some syn →
  track_structural raw syn dt = Return d1 →
  same_flow (track_round (raw ++ more) d1) (track_round (raw ++ more) dt).
Proof.
  intros Hin Hp Em Es H.
  destruct (raw_full_lit raw (skip_space_from raw (dt_pos dt)) (tool_calls_end syn)) eqn:E0.
  - pose proof (full_bound _ _ _ E0) as Hb. pose proof (tags_nonempty _ Hin) as Hne.
    unfold tags in Hne. rewrite !Forall_cons in Hne. destruct Hne as (_ & Hte & _).
    unfold track_structural in H. rewrite E0 in H. cbn zeta in H.
    destruct (Nat.leb_spec (length raw) (skip_space_from raw (dt_pos dt))); [lia|]. injection H as <-.
    unfold track_round at 2. rewrite Em, Es. unfold track_structural. cbn zeta.
    rewrite (skip_from_more raw more), (full_more _ _ _ _ E0), length_app by lia.
    destruct (Nat.leb_spec (length raw + length more) (skip_space_from raw (dt_pos dt))); [lia|]. done.
  - assert (d1 = set_decode DSML_DECODE_STRUCTURAL (set_pos (skip_space_from raw (dt_pos dt)) dt)) as ->.
    { unfold track_structural in H. rewrite E0 in H. cbn zeta in H.
      repeat match type of H with context [if ?x then _ else _] => destruct x end;
        repeat match type of H with context [match ?x with Some _ => _ | None => _ end] => destruct x end;
        try discriminate; by injection H. }
    pose proof (round_decode (raw ++ more) (set_pos (skip_space_from raw (dt_pos dt)) dt) DSML_DECODE_STRUCTURAL) as Hr.
    replace (track_round (raw ++ more) dt)
      with (track_round (raw ++ more) (set_pos (skip_space_from raw (dt_pos dt)) dt)).
    { destruct (track_round _ (set_pos _ _)), (track_round _ (set_decode _ _)); try done; simpl in *; symmetry; done. }
    destruct dt as [m d0 o pos js je]. cbn [dt_mode dt_syn dt_pos] in *. subst m o. unfold track_round, set_pos. cbn [dt_mode dt_syn dt_pos].
    unfold track_structural. cbn zeta. cbn [dt_pos]. by rewrite (skip_from_resume raw more pos Hp).
Qed.

Lemma return_decode dt d d1 : d1 = set_decode d dt →
  same_flow (track_round (raw ++ more) d1) (track_round (raw ++ more) dt).
Proof. intros ->. apply round_same. by destruct dt. Qed.

Lemma round_return_more dt d1 : from_start raw dt →
  track_round raw dt = Return d1 →
  same_flow (track_round (raw ++ more) d1) (track_round (raw ++ more) dt).
Proof.
  intros (Hwf & Hp & H0) H. unfold track_round in H. unfold tracker_wf in Hwf.
  destruct (dt_mode dt) eqn:Em; [|destruct Hwf as (syn & Es & Hin); rewrite Es in H..|].
  - unfold track_search in H. rewrite (H0 eq_refl) in H.
    destruct (dsml_find_tool_start_from raw 0) as [[e syn]|] eqn:E; [done|]. injection H as <-.
    fold (resume_pos raw). destruct dt as [m d0 o pos js je]. cbn [dt_mode dt_syn dt_pos] in *. subst m. rewrite (H0 eq_refl).
    unfold track_round, set_pos, set_decode. cbn [dt_mode]. unfold track_search. cbn [dt_pos].
    rewrite (find_start_resume _ more E).
    by destruct (dsml_find_tool_start_from (raw ++ more) 0) as [[e syn]|].
  - by eapply structural_return_more.
  - unfold track_string_body in H. repeat case_match; try discriminate; injection H as <-; by eapply return_decode.
  - unfold track_json_param in H. repeat case_match; try discriminate; injection H as <-; by eapply return_decode.
  - injection H as <-. by eapply return_decode.
Qed.

Lemma resume dt d1 r : from_start raw dt → runs raw dt d1 → runs (raw ++ more) d1 r → runs (raw ++ more) dt r.
Proof.
  intros Hfs [f Hf] Hr. revert dt Hfs Hf. induction f as [|f IH]; intros dt Hfs Hf; [done|]. simpl in Hf.
  destruct (track_round raw dt) as [dt'|dt'|] eqn:E; [| |done].
  - eapply runs_step; [by apply (round_continue_more raw more Hend)|]. apply IH; [|done].
    destruct Hfs as (Hwf & _ & H0). destruct (round_moves _ _ _ Hwf E) as [Hm Hwf'].
    split_and!; [done|lia|]. intros Em. exfalso. clear -E Em.
    destruct dt as [m d o p js je]. unfold track_round in E. destruct m, o as [syn|]; try discriminate;
      unfold track_search, track_structural, track_string_body, track_json_param in E; cbn in E;
      repeat case_match; try discriminate; injection E as <-; discriminate.
  - injection Hf as <-. eapply runs_flow; [|exact Hr]. by apply round_return_more.
Qed.
End Resume.

(** The worker's calls: an update after each piece of text, on all of it so far. *)
Fixpoint tracker_feed (dt : dsml_decode_tracker) (seen : bytes) (chunks : list bytes)
    : option dsml_decode_tracker :=
  match chunks with
  | [] => Some dt
  | c :: cs =>
      match dsml_decode_tracker_update dt (Some (seen ++ c)) with
      | Some dt' => tracker_feed dt' (seen ++ c) cs
      | None => None
      end
  end.

(** No chunk but the last leaves the text ending in [<]. *)
Fixpoint safe_cuts (seen : bytes) (chunks : list bytes) : Prop :=
  match chunks with
  | c :: (_ :: _) as cs => no_open_end (seen ++ c) ∧ safe_cuts (seen ++ c) cs
  | _ => True
  end.

Lemma init_from_start raw : from_start raw dsml_decode_tracker_init.
Proof. split_and!; [done|simpl; lia|done]. Qed.

Lemma feed_resume seen d chunks : dsml_decode_tracker_update dsml_decode_tracker_init (Some seen) = Some d →
  (chunks ≠ [] → no_open_end seen) → safe_cuts seen chunks →
  ∃ r, tracker_feed d seen chunks = Some r
    ∧ dsml_decode_tracker_update dsml_decode_tracker_init (Some (seen ++ concat chunks)) = Some r.
Proof.
  revert seen d. induction chunks as [|c cs IH]; intros seen d Hd Hend Hcuts.
  { exists d. simpl. by rewrite app_nil_r. }
  assert (Hwf : tracker_wf dsml_decode_tracker_init) by done.
  destruct (update_total dsml_decode_tracker_init seen Hwf) as (d' & Hd' & Hwd).
  rewrite Hd in Hd'. injection Hd' as <-.
  destruct (update_total d (seen ++ c) Hwd) as (r1 & Hr1 & _).
  assert (Hone : dsml_decode_tracker_update dsml_decode_tracker_init (Some (seen ++ c)) = Some r1).
  { apply runs_update; [done|]. eapply resume; [by apply Hend|apply init_from_start| |].
    - by apply runs_update.
    - by apply runs_update. }
  cbn [tracker_feed concat]. rewrite Hr1, app_assoc. destruct cs as [|c2 cs].
  - apply IH; [done|done|done].
  - destruct Hcuts as [Hc1 Hc2]. by apply IH.
Qed.

(** Tracking the generated text piece by piece is tracking it at once: whatever
    the pieces, if no piece but the last leaves the text ending in [<], every update
    returns and the tracker ends in the state that one pass over the whole text
    gives, so the sampler sees the same protocol state. *)
Theorem tracker_incremental chunks (Hcuts : safe_cuts [] chunks) :
  ∃ r, tracker_feed dsml_decode_tracker_init [] chunks = Some r
    ∧ dsml_decode_tracker_update dsml_decode_tracker_init (Some (concat chunks)) = Some r.
Proof. apply (feed_resume []); [by vm_compute|done|done]. Qed.

(** A string parameter in three pieces, cut inside its closing tag. *)
Lemma tracker_incremental_witness :
  ∃ r, tracker_feed dsml_decode_tracker_init []
         [bs "<tool_calls><invoke x><parameter string="; [34] ++ bs "true" ++ [34] ++ bs ">a</para"; bs "meter>"]
       = Some r
    ∧ dsml_decode_tracker_update dsml_decode_tracker_init
        (Some (concat [bs "<tool_calls><invoke x><parameter string="; [34] ++ bs "true" ++ [34] ++ bs ">a</para"; bs "meter>"]))
      = Some r.
Proof.
  apply (tracker_incremental
    [bs "<tool_calls><invoke x><parameter string="; [34] ++ bs "true" ++ [34] ++ bs ">a</para"; bs "meter>"]).
  split; [vm_compute; discriminate|]. split; [vm_compute; discriminate|exact I].
Defined.

(** A piece that ends right after the [<] of a closing parameter tag makes the
    tracker miss the tag: it stays in the parameter body to the end of the text,
    while one pass over the same text leaves the tool call. *)
Theorem tracker_loses_split_tag :
  let a := bs "<tool_calls><invoke x><parameter string=" ++ [34] ++ bs "true" ++ [34] ++ bs ">a<" in
  let b := bs "/parameter></invoke></tool_calls>" in
  (∃ r, tracker_feed dsml_decode_tracker_init [] [a; b] = Some r
     ∧ dt_decode r = DSML_DECODE_STRING_BODY ∧ dt_mode r = DSML_TRACK_STRING_BODY)
  ∧ ∃ r, dsml_decode_tracker_update dsml_decode_tracker_init (Some (a ++ b)) = Some r
     ∧ dt_decode r = DSML_DECODE_OUTSIDE ∧ dt_mode r = DSML_TRACK_DONE.
Proof. split; vm_compute; eexists; repeat split. Qed.
