(* ===== verification/DsmlText.v ===== *)
(** * Correctness of the markup's text

    Theorems about the entities of [Dsml]: decoding splits at every position no
    entity straddles, what the renderer writes decodes to what it was given and
    never holds its closing tag, and the part of a parameter value that is
    streamed decodes on its own and holds no byte of the closing tag. *)
From S2P Require Import Prelude CLib Json JsonProps JsonSafe Request RequestProps Stream StreamProps Dsml.

(** ** Entities *)

Lemma entity_at_Some s x r : entity_at entities s = Some (x, r) ↔ ∃ e, (e, x) ∈ entities ∧ s = e ++ r.
Proof.
  split.
  - generalize entities. induction l as [|[e y] l IH]; [done|]. cbn [entity_at].
    destruct (strip_prefix e s) as [r'|] eqn:E.
    + intros [= -> ->]. apply strip_prefix_Some in E as ->. exists e. split; [left|done].
    + intros (e' & Hin & He)%IH. exists e'. split; [by right|done].
  - intros (e & Hin & ->). apply list_elem_of_In in Hin.
    destruct Hin as [[= <- <-]|[[= <- <-]|[[= <- <-]|[[= <- <-]|[[= <- <-]|[]]]]]]; reflexivity.
Qed.

Lemma entity_at_None s : entity_at entities s = None ↔ ∀ e x r, (e, x) ∈ entities → s ≠ e ++ r.
Proof.
  split.
  - intros H e x r Hin ->. assert (entity_at entities (e ++ r) = Some (x, r)); [|congruence].
    apply entity_at_Some. eauto.
  - intros H. destruct (entity_at entities s) as [[x r]|] eqn:E; [|done].
    apply entity_at_Some in E as (e & Hin & Hs). by destruct (H e x r Hin).
Qed.

(** Every entity is [&] and then at most five bytes that are ASCII and not [&]. *)
Lemma entity_shape e x : (e, x) ∈ entities →
  (length e <= 6)%nat ∧ ∃ t, e = 38 :: t ∧ Forall (λ c, c ≠ 38 ∧ c ≠ 60 ∧ 0 <= c < 128) t.
Proof.
  intros Hin. apply list_elem_of_In in Hin.
  destruct Hin as [[= <- <-]|[[= <- <-]|[[= <- <-]|[[= <- <-]|[[= <- <-]|[]]]]]];
    (split; [vm_compute; lia|]); eexists; (split; [reflexivity|]);
    repeat (apply List.Forall_cons; [vm_compute; repeat split; discriminate|]); apply List.Forall_nil.
Qed.

(** The decoder's loop as an equation on the text. *)
Lemma unescape_fuel f1 f2 s : (length s <= f1)%nat → (length s <= f2)%nat →
  dsml_unescape_loop f1 s = dsml_unescape_loop f2 s.
Proof.
  revert f2 s. induction f1 as [|f1 IH]; intros [|f2] s H1 H2; try (by destruct s; [|simpl in *; lia]).
  destruct s as [|c s]; [done|]. cbn [dsml_unescape_loop length] in *.
  rewrite (IH f2 s) by lia. destruct (c =? 38); [|done].
  destruct (entity_at entities (c :: s)) as [[x r]|] eqn:E; [|done]. f_equal.
  apply entity_at_Some in E as (e & Hin & E). destruct (entity_shape _ _ Hin) as (_ & t & -> & _).
  injection E as _ ->. apply IH; rewrite length_app in *; lia.
Qed.

Lemma unescape_eq s : dsml_unescape_text s =
  match s with
  | [] => []
  | c :: r => if c =? 38 then match entity_at entities s with
                              | Some (x, r') => x :: dsml_unescape_text r'
                              | None => 38 :: dsml_unescape_text r
                              end
              else c :: dsml_unescape_text r
  end.
Proof.
  destruct s as [|c r]; [done|]. unfold dsml_unescape_text. cbn [length dsml_unescape_loop].
  destruct (c =? 38) eqn:Ec; [|done]. destruct (entity_at entities (c :: r)) as [[x r']|] eqn:E; [|done].
  f_equal. apply entity_at_Some in E as (e & Hin & E). destruct (entity_shape _ _ Hin) as (_ & t & -> & _).
  injection E as _ ->. apply unescape_fuel; rewrite ?length_app; lia.
Qed.

Lemma unescape_plain c r : c ≠ 38 → dsml_unescape_text (c :: r) = c :: dsml_unescape_text r.
Proof. intros H. rewrite unescape_eq. by destruct (Z.eqb_spec c 38). Qed.

Lemma unescape_entity e x r : (e, x) ∈ entities → dsml_unescape_text (e ++ r) = x :: dsml_unescape_text r.
Proof.
  intros Hin. rewrite unescape_eq. rewrite (proj2 (entity_at_Some (e ++ r) x r)) by eauto.
  destruct (entity_shape _ _ Hin) as (_ & t & -> & _). done.
Qed.

(** Decoding splits at every position no entity straddles. *)
Lemma unescape_cut p rest :
  (∀ p1 p2 e x, p = p1 ++ p2 → p2 ≠ [] → (e, x) ∈ entities → (length p2 < length e)%nat →
    ∀ post, p2 ++ rest ≠ e ++ post) →
  dsml_unescape_text (p ++ rest) = dsml_unescape_text p ++ dsml_unescape_text rest.
Proof.
  remember (length p) as n eqn:En. revert p En. induction (lt_wf n) as [n _ IH]. intros p -> Hcut.
  destruct p as [|c p]; [done|]. rewrite (unescape_eq (c :: p)), (unescape_eq (_ ++ rest)).
  assert (Hsuf : ∀ a b, c :: p = a ++ b → a ≠ [] →
    dsml_unescape_text (b ++ rest) = dsml_unescape_text b ++ dsml_unescape_text rest).
  { intros a b Hab Ha. eapply IH; [|done|].
    - rewrite Hab, length_app. destruct a; [done|simpl; lia].
    - intros p1 p2 e x -> Hne Hin Hl. eapply Hcut; [|done|done|done]. by rewrite Hab, app_assoc. }
  cbn [app]. destruct (c =? 38); [|rewrite (Hsuf [c] p); done].
  destruct (entity_at entities (c :: p)) as [[x r]|] eqn:E.
  - apply entity_at_Some in E as (e & Hin & E).
    rewrite (proj2 (entity_at_Some (c :: p ++ rest) x (r ++ rest))).
    2: { exists e. split; [done|]. change (c :: p ++ rest) with ((c :: p) ++ rest). by rewrite E, app_assoc. }
    rewrite (Hsuf e r); [done|done|]. by destruct (entity_shape _ _ Hin) as (_ & t & -> & _).
  - rewrite (proj2 (entity_at_None (c :: p ++ rest))); [by rewrite (Hsuf [c] p)|].
    intros e x r Hin He. change (c :: p ++ rest) with ((c :: p) ++ rest) in He.
    destruct (Nat.lt_ge_cases (length (c :: p)) (length e)) as [Hl|Hl].
    + by eapply (Hcut [] (c :: p) e x); [..|exact He].
    + rewrite entity_at_None in E. apply (E e x (drop (length e) (c :: p)) Hin).
      apply (f_equal (take (length e))) in He. rewrite take_app_length, take_app_le in He by done.
      rewrite <- He at 1. by rewrite take_drop.
Qed.

(** ** The renderer's text is undone *)

Lemma unescape_attr s : dsml_unescape_text (append_dsml_attr_escaped s) = s.
Proof.
  induction s as [|c s IH]; [done|]. cbn [append_dsml_attr_escaped].
  destruct (Z.eqb_spec c 38) as [->|H38]; [rewrite (unescape_entity _ 38), IH; [done|left]|].
  destruct (Z.eqb_spec c 60) as [->|]; [rewrite (unescape_entity _ 60), IH; [done|right; left]|].
  destruct (Z.eqb_spec c 62) as [->|]; [rewrite (unescape_entity _ 62), IH; [done|right; right; left]|].
  destruct (Z.eqb_spec c 34) as [->|]; [rewrite (unescape_entity _ 34), IH; [done|do 3 right; left]|].
  cbn [app]. by rewrite unescape_plain, IH.
Qed.

Lemma attr_escaped_clean s : Forall (λ c, c ≠ 60 ∧ c ≠ 62 ∧ c ≠ 34) (append_dsml_attr_escaped s).
Proof.
  induction s as [|c s IH]; [constructor|]. cbn [append_dsml_attr_escaped]. apply Forall_app. split; [|done].
  repeat (case_if; [repeat (apply List.Forall_cons; [vm_compute; repeat split; discriminate|]); apply List.Forall_nil|]).
  bool_to_prop. repeat constructor; lia.
Qed.

Lemma unescape_body s end_ : 38 ∉ s → (∃ e, end_ = 60 :: e) →
  dsml_unescape_text (append_glm_tag_body_text s end_) = s.
Proof.
  intros Hs [e ->]. induction s as [|c s IH]; [done|]. apply not_elem_of_cons in Hs as [Hc Hs].
  cbn [append_glm_tag_body_text]. destruct (strip_prefix (60 :: e) (c :: s)) as [r|] eqn:E.
  - apply strip_prefix_Some in E as [= -> _]. rewrite (unescape_entity _ 60), IH; [done|done|right; left].
  - cbn [app]. rewrite unescape_plain, IH; done.
Qed.

(** The rendered body never holds its closing tag. *)
Lemma body_prefix s end_ e : 38 ∉ e → (∃ post, append_glm_tag_body_text s end_ = e ++ post) →
  ∃ post, s = e ++ post.
Proof.
  revert s. induction e as [|a e IH]; intros s He [post H]; [by exists s|].
  apply not_elem_of_cons in He as [Ha He]. destruct s as [|c s]; [done|].
  cbn [append_glm_tag_body_text] in H. destruct (strip_prefix end_ (c :: s)); injection H as Hac H; [done|].
  subst c. destruct (IH s He) as [post' ->]; [by exists post|]. by exists post'.
Qed.

Lemma body_no_end s e : 38 ∉ e → strstr (append_glm_tag_body_text s (60 :: e)) (60 :: e) = None.
Proof.
  intros He. induction s as [|c s IH]; [done|]. cbn [append_glm_tag_body_text].
  destruct (strip_prefix (60 :: e) (c :: s)) as [r|] eqn:E.
  - change (bs "&lt;") with [38; 108; 116; 59]. cbn [app strstr strip_prefix].
    cbn -[strstr append_glm_tag_body_text]. by rewrite IH.
  - cbn [app strstr]. rewrite IH. destruct (strip_prefix (60 :: e) (c :: append_glm_tag_body_text s (60 :: e))) eqn:E'; [|done].
    apply strip_prefix_Some in E'. injection E' as -> E'. destruct (body_prefix s (60 :: e) e He) as [post ->]; [by eexists|].
    exfalso. change (60 :: e ++ post) with ((60 :: e) ++ post) in E. by rewrite strip_prefix_app in E.
Qed.

(** ** Streaming a parameter value *)

Lemma back_over_cont_bounds s start fuel p : (start <= p)%nat →
  (start <= back_over_cont s start fuel p <= p)%nat
  ∧ ((back_over_cont s start fuel p < p)%nat → is_cont (byte_at s (back_over_cont s start fuel p)) = true).
Proof.
  revert p. induction fuel as [|fuel IH]; intros p Hp; simpl; [split; intros; lia|].
  destruct (Nat.ltb_spec start p) as [Hl|]; [|simpl; split; intros; lia]. simpl.
  destruct (is_cont (byte_at s (p - 1))) eqn:E; [|split; intros; lia].
  destruct (IH (p - 1)%nat ltac:(lia)) as [Hb Hc]. split; [lia|]. intros _.
  destruct (decide (back_over_cont s start fuel (p - 1) = p - 1)%nat) as [->|]; [done|]. apply Hc. lia.
Qed.

Lemma lead_byte c : (1 < utf8_expected_len c)%nat → 128 <= c.
Proof. unfold utf8_expected_len. destruct (Z.ltb_spec c 0x80); lia. Qed.

(** Where the UTF-8 limit stops short, the next byte leads a character. *)
Lemma utf8_safe_stop s start limit : (start <= limit)%nat →
  let l := utf8_stream_safe_len (Some s) start limit false in
  (start <= l <= limit)%nat ∧ (l = limit ∨ l = start ∨ 128 <= byte_at s l).
Proof.
  intros Hs. unfold utf8_stream_safe_len. cbn zeta. cbn [orb].
  destruct (Nat.leb_spec limit start); [lia|].
  destruct (back_over_cont_bounds s start 4 limit Hs) as [Hb Hc]. set (p := back_over_cont s start 4 limit) in *.
  clearbody p. destruct (Nat.eqb_spec p limit) as [->|Hne].
  - destruct (Nat.ltb_spec 1 (utf8_expected_len (byte_at s (limit - 1)))) as [Hl%lead_byte|]; [|lia].
    split; [lia|]. by right; right.
  - rewrite Hc by lia. destruct (Nat.eqb_spec p start); cbn [andb]; [split; [lia|auto]|].
    destruct (Nat.ltb_spec (limit - (p - 1)) (utf8_expected_len (byte_at s (p - 1)))) as [Hl|]; [|lia].
    split; [lia|]. right; right. apply lead_byte. lia.
Qed.

(** Nothing but an entity's own bytes can lie inside it. *)
Lemma straddle_byte t e x p2 rest post : (e, x) ∈ entities → t = p2 ++ rest → p2 ≠ [] →
  (length p2 < length e)%nat → t = e ++ post →
  byte_at t (length p2) ≠ 38 ∧ byte_at t (length p2) ≠ 60 ∧ byte_at t (length p2) < 128.
Proof.
  intros Hin -> Hne Hl He. destruct (entity_shape _ _ Hin) as (_ & tl & -> & Ht).
  unfold byte_at. rewrite He, app_nth1 by lia. destruct p2 as [|y p2]; [done|]. cbn [length nth] in *.
  rewrite Forall_forall in Ht. destruct (Ht (nth (length p2) tl 0)); [|lia].
  apply list_elem_of_In, nth_In. simpl in Hl. lia.
Qed.

(** What the entity limit promises: the cut is before an [&], or no entity begun in
    the piece can go on after it. *)
Lemma entity_safe_spec raw start limit : (start <= limit <= length raw)%nat →
  let l := dsml_entity_stream_safe_len raw start limit in
  (start <= l <= limit)%nat ∧
  (byte_at raw l = 38 ∧ (l < limit)%nat ∨
   l = limit ∧ ∀ k e x, (start <= k < limit)%nat → (e, x) ∈ entities → (limit - k < length e)%nat →
     drop k (take limit raw) ≠ take (limit - k) e).
Proof.
  intros Hb. unfold dsml_entity_stream_safe_len. cbn zeta.
  match goal with |- context [last_byte 38 raw ?s limit] => set (scan := s) end.
  assert (Hsc : (start <= scan <= limit)%nat ∧ (scan = start ∨ (scan + 6 = limit)%nat)).
  { unfold scan. destruct (Nat.ltb_spec (start + 6) limit); lia. }
  clearbody scan. pose proof (last_byte_spec 38 raw scan limit) as Hlast.
  assert (Hamp : ∀ k e x, (start <= k < limit)%nat → (e, x) ∈ entities → (limit - k < length e)%nat →
    drop k (take limit raw) = take (limit - k) e → byte_at raw k = 38 ∧ (scan <= k)%nat
    ∧ ∀ j, (k < j < limit)%nat → byte_at raw j ≠ 38).
  { intros k e x Hk Hin Hl Hd. destruct (entity_shape _ _ Hin) as (H6 & t & -> & Ht).
    assert (Hbyte : ∀ i, (i < limit - k)%nat → byte_at raw (k + i) = nth i (38 :: t) 0).
    { intros i Hi. apply (f_equal (λ l, nth i l 0)) in Hd. rewrite nth_skipn, !nth_firstn in Hd.
      destruct (Nat.ltb_spec i (limit - k)), (Nat.ltb_spec (k + i) limit); try lia. exact Hd. }
    split_and!.
    - specialize (Hbyte 0%nat ltac:(lia)). by rewrite Nat.add_0_r in Hbyte.
    - lia.
    - intros j Hj. specialize (Hbyte (j - k)%nat ltac:(lia)). replace (k + (j - k))%nat with j in Hbyte by lia.
      rewrite Hbyte. replace (j - k)%nat with (S (j - k - 1)) by lia. cbn [nth].
      rewrite Forall_forall in Ht. apply Ht, list_elem_of_In, nth_In. simpl in Hl. lia. }
  destruct (last_byte 38 raw scan limit) as [amp|].
  - destruct Hlast as (Ha & H38 & Hno).
    destruct (existsb _ entities) eqn:Ex; [split; [lia|left; split; [done|lia]]|].
    split; [lia|]. right. split; [done|]. intros k e x Hk Hin Hl Hd.
    destruct (Hamp k e x Hk Hin Hl Hd) as (Hk38 & Hks & Hkno).
    assert (k = amp) as ->.
    { destruct (Nat.lt_trichotomy k amp) as [H|[H|H]]; [by destruct (Hkno amp); [lia|]|done|].
      by destruct (Hno k); [lia|]. }
    apply not_true_iff_false in Ex. apply Ex, existsb_exists. exists (e, x).
    split; [by apply list_elem_of_In|]. unfold proper_prefix. cbn [fst].
    rewrite length_drop, length_take. replace (limit `min` length raw - amp)%nat with (limit - amp)%nat by lia.
    rewrite Hd, bytes_eqb_refl, andb_true_r. by apply Nat.ltb_lt.
  - split; [lia|]. right. split; [done|]. intros k e x Hk Hin Hl Hd.
    destruct (Hamp k e x Hk Hin Hl Hd) as (Hk38 & Hks & _). by destruct (Hlast k); [lia|].
Qed.

(** The limit before the closing tag. *)
Definition tag_limit (raw : bytes) (start : nat) (end_tag : bytes) : nat :=
  let raw_len := length raw in
  let end_len := length end_tag in
  let scan := if (start + end_len <? raw_len)%nat then (raw_len - end_len)%nat else start in
  match last_byte 60 raw scan raw_len with
  | None => raw_len
  | Some marker => if proper_prefix (drop marker raw) end_tag then marker else raw_len
  end.

Lemma tag_limit_bounds raw start end_ : (start <= length raw)%nat →
  (start <= tag_limit raw start end_ <= length raw)%nat
  ∧ (tag_limit raw start end_ = length raw ∨ byte_at raw (tag_limit raw start end_) = 60).
Proof.
  intros Hs. unfold tag_limit. cbn zeta.
  match goal with |- context [last_byte 60 raw ?s _] => set (scan := s) end.
  assert (start <= scan)%nat. { unfold scan. destruct (Nat.ltb_spec (start + length end_) (length raw)); lia. }
  pose proof (last_byte_spec 60 raw scan (length raw)) as Hl.
  destruct (last_byte 60 raw scan (length raw)) as [m|]; [|lia].
  destruct Hl as (Hm & H60 & _). case_if; [|lia]. split; [lia|by right].
Qed.

Lemma tag_limit_held raw more start end_ e q : end_ = 60 :: e → 60 ∉ e → (start <= q)%nat →
  occurs (raw ++ more) end_ q → ¬ occurs raw end_ q → (q < length raw)%nat → tag_limit raw start end_ = q.
Proof.
  intros -> He Hsq Ho Hno Hq. unfold tag_limit. cbn zeta.
  match goal with |- context [last_byte 60 raw ?s _] => set (scan := s) end.
  assert (Hlt : (length raw < q + length (60%Z :: e))%nat).
  { destruct (Nat.lt_ge_cases (length raw) (q + length (60%Z :: e))); [done|].
    by destruct Hno; eapply occurs_app_l. }
  assert (scan <= q)%nat.
  { unfold scan. destruct (Nat.ltb_spec (start + length (60%Z :: e)) (length raw)); lia. }
  assert (Hbyte : ∀ j, (q <= j < length raw)%nat → byte_at raw j = nth (j - q) (60 :: e) 0).
  { intros j Hj. pose proof (occurs_byte _ _ _ (j - q) Ho ltac:(lia)) as H'.
    replace (q + (j - q))%nat with j in H' by lia. by rewrite byte_at_app_l in H' by lia. }
  pose proof (last_byte_spec 60 raw scan (length raw)) as Hl.
  assert (last_byte 60 raw scan (length raw) = Some q) as ->.
  { assert (byte_at raw q = 60) as H60 by (rewrite Hbyte, Nat.sub_diag by lia; done).
    destruct (last_byte 60 raw scan (length raw)) as [j|]; [|by destruct (Hl q); [lia|]].
    destruct Hl as (Hj & Hj60 & Hk). f_equal.
    destruct (Nat.lt_trichotomy j q) as [H'|[H'|H']]; [by destruct (Hk q); [lia|]|done|].
    exfalso. rewrite Hbyte in Hj60 by lia. replace (j - q)%nat with (S (j - q - 1)) in Hj60 by lia.
    cbn [nth] in Hj60. apply He, list_elem_of_In. rewrite <- Hj60. apply nth_In. simpl in Hlt. lia. }
  unfold proper_prefix. rewrite length_drop.
  destruct (Nat.ltb_spec (length raw - q) (length (60 :: e))); [|simpl in *; lia]. cbn [andb].
  enough (drop q raw = take (length raw - q) (60 :: e)) as -> by (by rewrite bytes_eqb_refl).
  destruct Ho as (_ & post & Hd). rewrite drop_app_le in Hd by lia.
  apply (f_equal (take (length raw - q))) in Hd.
  rewrite take_app_le, (take_ge (drop q raw)) in Hd by (rewrite length_drop; lia).
  rewrite Hd. by rewrite take_app_le by lia.
Qed.

(** A place where a value can be cut: before a byte that no entity has inside, or at
    the end of the text when no entity has begun. *)
Definition clean_cut (raw : bytes) (start l : nat) : Prop :=
  (start <= l <= length raw)%nat ∧
  (l = start ∨ (l < length raw)%nat ∧ (byte_at raw l = 38 ∨ byte_at raw l = 60 ∨ 128 <= byte_at raw l)
   ∨ l = length raw ∧ ∀ k e x, (start <= k < l)%nat → (e, x) ∈ entities → (l - k < length e)%nat →
       drop k (take l raw) ≠ take (l - k) e).

(** An entity that straddles the cut shows the byte after it. *)
Lemma cut_straddle raw more start l : clean_cut raw start l →
  ∀ p1 p2 e x, take (l - start) (drop start raw) = p1 ++ p2 → p2 ≠ [] → (e, x) ∈ entities → (length p2 < length e)%nat →
    ∀ post, p2 ++ drop l (raw ++ more) ≠ e ++ post.
Proof.
  intros [Hb Hc] p1 p2 e x Hp Hne Hin Hl post He. set (p := take (l - start) (drop start raw)) in *.
  assert (Hlp : length p = (l - start)%nat) by (unfold p; rewrite length_take, length_drop; lia).
  assert (Hlen : (length p1 + length p2 = l - start)%nat) by (by rewrite <- Hlp, Hp, length_app).
  destruct Hc as [->|[(Hll & Hbyte)|[-> Hno]]].
  - destruct p2; [done|]. simpl in Hlen. lia.
  - destruct (straddle_byte _ e x p2 _ post Hin eq_refl Hne Hl He) as (? & ? & Hc).
    assert (byte_at (p2 ++ drop l (raw ++ more)) (length p2) = byte_at raw l) as Heq; [|rewrite Heq in *; lia].
    unfold byte_at. rewrite app_nth2, Nat.sub_diag, nth_skipn, Nat.add_0_r by lia. by apply app_nth1.
  - apply (Hno (length raw - length p2)%nat e x); [destruct p2; [done|simpl in *; lia]|done|lia|].
    rewrite (take_ge raw) by lia. replace (length raw - (length raw - length p2))%nat with (length p2) by lia.
    apply (f_equal (take (length p2))) in He. rewrite take_app_length, take_app_le in He by lia.
    rewrite <- He. unfold p in Hp. rewrite take_ge in Hp by (rewrite length_drop; lia).
    apply (f_equal (drop (length p1))) in Hp. rewrite drop_app_length, drop_drop in Hp.
    rewrite <- Hp at 2. f_equal. lia.
Qed.

Lemma cut_ok raw more start l : clean_cut raw start l →
  dsml_unescape_text (drop start (raw ++ more)) =
  dsml_unescape_text (take (l - start) (drop start raw)) ++ dsml_unescape_text (drop l (raw ++ more)).
Proof.
  intros Hc. pose proof Hc as [Hb _]. rewrite <- (unescape_cut (take (l - start) (drop start raw)) (drop l (raw ++ more))).
  - f_equal. rewrite !drop_app_le by lia. rewrite app_assoc. f_equal.
    replace l with (start + (l - start))%nat at 2 by lia. rewrite <- drop_drop. symmetry. apply take_drop.
  - intros p1 p2 e x Hp Hne Hin Hl. by eapply cut_straddle.
Qed.

(** What the limit of a parameter value promises. *)
Lemma param_limit_spec raw start syn is_string : (start <= length raw)%nat → syn ∈ dsml_syntaxes →
  let l := tool_param_value_stream_safe_len raw start (param_end syn) is_string in
  (start <= l <= length raw)%nat
  ∧ (∀ more q, (start <= q)%nat → occurs (raw ++ more) (param_end syn) q → ¬ occurs raw (param_end syn) q → (l <= q)%nat)
  ∧ (is_string = true → clean_cut raw start l).
Proof.
  intros Hstart Hsyn. cbn zeta. unfold tool_param_value_stream_safe_len. cbn zeta.
  fold (tag_limit raw start (param_end syn)).
  destruct (tag_limit_bounds raw start (param_end syn) Hstart) as [Hb0 Hc0].
  pose proof (λ more, tag_limit_held raw more start (param_end syn)) as Hheld.
  set (l0 := tag_limit raw start (param_end syn)) in *. clearbody l0.
  destruct (entity_safe_spec raw start l0 Hb0) as [Hb1 Hc1].
  set (l1 := if is_string then _ else l0).
  assert (Hb1' : (start <= l1 <= l0)%nat) by (unfold l1; destruct is_string; lia).
  destruct (utf8_safe_stop raw start l1 (proj1 Hb1')) as [Hb2 Hc2].
  set (l2 := utf8_stream_safe_len _ _ _ _) in *. clearbody l2.
  split_and!; [lia|lia| |].
  - intros more q Hsq Ho Hno. destruct (Nat.lt_ge_cases q (length raw)) as [Hq|]; [|lia].
    assert (∃ e, param_end syn = 60 :: e ∧ 60 ∉ e) as (e & He & H60).
    { apply list_elem_of_In in Hsyn. destruct Hsyn as [<-|[<-|[<-|[]]]];
        (eexists; split; [reflexivity|apply (bool_decide_eq_true_1 _); vm_compute; reflexivity]). }
    specialize (Hheld more e q He H60 Hsq Ho Hno Hq). lia.
  - intros ->. unfold l1 in *. split; [lia|]. destruct Hc2 as [->|[->|H128]]; [|by left|].
    + destruct Hc1 as [[H38 Hlt]|[-> Hno]]; [right; left; split; [lia|auto]|].
      destruct Hc0 as [->|H60]; [right; right; split; [done|by apply Hno]|].
      destruct (decide (l0 = length raw)) as [->|]; [right; right; by split|].
      right; left. split; [lia|auto].
    + destruct (decide (l2 = length raw)) as [->|]; [|right; left; split; [lia|auto]].
      exfalso. unfold byte_at in H128. rewrite nth_overflow in H128 by lia. lia.
Qed.

(** Streaming a tool argument loses nothing and leaks nothing: of the text so
    far the limit keeps back every byte that may begin the closing tag, and a string
    value decoded in the two parts the limit cuts it into, whatever text follows, is
    the value decoded at once. *)
Theorem param_stream_safe raw more start syn is_string
    (Hstart : (start <= length raw)%nat) (Hsyn : syn ∈ dsml_syntaxes) :
  let l := tool_param_value_stream_safe_len raw start (param_end syn) is_string in
  (start <= l <= length raw)%nat
  ∧ (∀ q, (start <= q)%nat → occurs (raw ++ more) (param_end syn) q → ¬ occurs raw (param_end syn) q → (l <= q)%nat)
  ∧ (is_string = true →
     dsml_unescape_text (drop start (raw ++ more)) =
     dsml_unescape_text (take (l - start) (drop start raw)) ++ dsml_unescape_text (drop l (raw ++ more))).
Proof.
  destruct (param_limit_spec raw start syn is_string Hstart Hsyn) as (Hb & Ht & Hc). split_and!; [apply Hb|apply Hb|exact (Ht more)|].
  intros Hi. by apply cut_ok, Hc.
Qed.

(** Witness: a value cut inside an entity and one cut inside the closing tag. *)
Lemma param_stream_safe_witness :
  (0 <= tool_param_value_stream_safe_len (bs "a&l") 0 (bs "</parameter>") true <= 3)%nat
  ∧ (∀ q, (0 <= q)%nat → occurs (bs "a&l" ++ bs "t;</parameter>") (bs "</parameter>") q →
       ¬ occurs (bs "a&l") (bs "</parameter>") q →
       (tool_param_value_stream_safe_len (bs "a&l") 0 (bs "</parameter>") true <= q)%nat)
  ∧ (true = true →
     dsml_unescape_text (drop 0 (bs "a&l" ++ bs "t;</parameter>")) =
     dsml_unescape_text (take (tool_param_value_stream_safe_len (bs "a&l") 0 (bs "</parameter>") true - 0) (drop 0 (bs "a&l")))
     ++ dsml_unescape_text (drop (tool_param_value_stream_safe_len (bs "a&l") 0 (bs "</parameter>") true) (bs "a&l" ++ bs "t;</parameter>"))).
Proof.
  apply (param_stream_safe (bs "a&l") (bs "t;</parameter>") 0
    (DsmlSyntax (bs "<tool_calls>") (bs "</tool_calls>") (bs "<invoke") (bs "</invoke>") (bs "<parameter") (bs "</parameter>"))
    true).
  - simpl. lia.
  - unfold dsml_syntaxes. do 2 right. left.
Defined.
