(* ===== verification/ToolText.v ===== *)
(** * Tool calls as text

    Model of the functions of [engine/src/server.c] that write the tool calls of
    a conversation into the prompt, in the DSML and in the GLM markup, and that
    read the tool calls the model generated back from its text, with the split of
    reasoning and content, the repair of truncated markup and the recovery of a
    malformed tool call.

    A C string is its bytes without the final zero; a pointer into the text is the
    suffix it points to, and two pointers into one text compare by the lengths of
    their suffixes.

    Theorems about [ToolText]: the loops of the two parsers end within the fuel
    they are given, the DSML the renderer writes is read back as the calls it was
    given, and the repair of truncated markup closes exactly the open tags. *)
From S2P Require Import Prelude CLib Json JsonProps JsonSafe Request RequestProps Stream StreamProps Dsml DsmlText.

(** [tool_calls], without its capacity. *)
Record tool_calls := ToolCalls { calls_v : list tool_call; calls_raw_tool_text : option bytes }.

Definition tool_calls_zero : tool_calls := ToolCalls [] None.

Definition tool_calls_push (calls : tool_calls) (tc : tool_call) : tool_calls :=
  ToolCalls (calls_v calls ++ [tc]) (calls_raw_tool_text calls).

(** ** Schema orders *)

Record tool_schema_order := ToolSchemaOrder {
  tso_name : option bytes; tso_wire_name : option bytes; tso_namespace : option bytes;
  tso_responses_tool_search : bool; tso_prop : list bytes }.

Fixpoint tool_schema_orders_find_index (orders : list tool_schema_order) (name : bytes) : option nat :=
  match orders with
  | [] => None
  | o :: orders' =>
      if match tso_name o with Some n => bytes_eqb n name | None => false end then Some 0%nat
      else S <$> tool_schema_orders_find_index orders' name
  end.

Definition tool_schema_orders_push (orders : list tool_schema_order) (order : tool_schema_order)
    : list tool_schema_order :=
  match tso_name order ≫= tool_schema_orders_find_index orders with
  | Some idx => <[idx := order]> orders
  | None => orders ++ [order]
  end.

Definition tool_schema_orders_find (orders : list tool_schema_order) (name : option bytes)
    : option tool_schema_order :=
  match name with
  | None => None
  | Some n => tool_schema_orders_find_index orders n ≫= λ idx, orders !! idx
  end.

(** ** Writing *)

(** Text in which the closing tag is broken by a JSON escape of its first byte. *)
Fixpoint append_dsml_json_literal (s : bytes) : bytes :=
  match s with
  | [] => []
  | c :: r =>
      (match strip_prefix DS4_PARAM_END s with Some _ => 92 :: bs "u003c" | None => [c] end)
      ++ append_dsml_json_literal r
  end.

Definition append_dsml_arg (arg : json_arg) : bytes :=
  DS4_PARAM_START ++ bs " name=" ++ [34] ++ append_dsml_attr_escaped (arg_key arg)
  ++ [34] ++ bs " string=" ++ [34] ++ (if arg_is_string arg then bs "true" else bs "false")
  ++ [34] ++ bs ">"
  ++ (if arg_is_string arg then append_dsml_parameter_text (arg_value arg)
      else append_dsml_json_literal (arg_value arg))
  ++ DS4_PARAM_END ++ [10].

Definition append_glm_arg_key_text (s : bytes) : bytes := append_glm_tag_body_text s (bs "</arg_key>").
Definition append_glm_arg_value_text (s : bytes) : bytes := append_glm_tag_body_text s (bs "</arg_value>").
Definition append_glm_tool_response_text (s : bytes) : bytes :=
  append_glm_tag_body_text s (bs "</tool_response>").

Definition append_glm_arg (arg : json_arg) : bytes :=
  bs "<arg_key>" ++ append_glm_arg_key_text (arg_key arg) ++ bs "</arg_key><arg_value>"
  ++ append_glm_arg_value_text (arg_value arg) ++ bs "</arg_value>".

(** The first argument of that key whose [used] flag is clear. *)
Fixpoint json_args_find_unused (args : list (json_arg * bool)) (key : bytes) : option nat :=
  match args with
  | [] => None
  | (a, used) :: args' =>
      if negb used && bytes_eqb (arg_key a) key then Some 0%nat
      else S <$> json_args_find_unused args' key
  end.

(** The loop over the properties of the schema: the arguments it writes, in that
    order, and the flags after it. *)
Fixpoint in_schema_order (args : list (json_arg * bool)) (prop : list bytes)
    : list json_arg * list (json_arg * bool) :=
  match prop with
  | [] => ([], args)
  | key :: prop' =>
      match json_args_find_unused args key with
      | None => in_schema_order args prop'
      | Some idx =>
          match args !! idx with
          | Some (a, _) =>
              let '(out, args') := in_schema_order (<[idx := (a, true)]> args) prop' in (a :: out, args')
          | None => ([], args)
          end
      end
  end.

(** The order in which the arguments are written: those the schema names, then the
    rest. *)
Definition ordered_args (args : list json_arg) (order : option tool_schema_order) : list json_arg :=
  let marked := (λ a, (a, false)) <$> args in
  let '(first, marked) :=
    match order with Some o => in_schema_order marked (tso_prop o) | None => ([], marked) end in
  first ++ (fst <$> filter (λ p, p.2 = false) marked).

Definition append_dsml_arguments_from_json (json : option bytes) (order : option tool_schema_order)
    : option bytes :=
  match json_args_parse json with
  | None => None
  | Some args => Some (concat (append_dsml_arg <$> ordered_args args order))
  end.

Definition append_glm_arguments_from_json (json : option bytes) (order : option tool_schema_order)
    : option bytes :=
  match json_args_parse json with
  | None => None
  | Some args => Some (concat (append_glm_arg <$> ordered_args args order))
  end.

Definition dsml_call_text (tc : tool_call) : bytes :=
  DS4_INVOKE_START ++ bs " name=" ++ [34] ++ append_dsml_attr_escaped (default [] (tc_name tc))
  ++ [34] ++ bs ">" ++ [10]
  ++ match append_dsml_arguments_from_json (tc_arguments tc) None with
     | Some args => args
     | None => DS4_PARAM_START ++ bs " name=" ++ [34] ++ bs "arguments" ++ [34] ++ bs " string=" ++ [34]
               ++ bs "true" ++ [34] ++ bs ">" ++ append_dsml_parameter_text (default [] (tc_arguments tc))
               ++ DS4_PARAM_END ++ [10]
     end
  ++ DS4_INVOKE_END ++ [10].

Definition append_dsml_tool_calls_text (calls : tool_calls) : bytes :=
  match calls_v calls, calls_raw_tool_text calls with
  | [], _ => []
  | _, Some ((_ :: _) as raw) => raw
  | v, _ => [10; 10] ++ DS4_TOOL_CALLS_START ++ [10] ++ concat (dsml_call_text <$> v) ++ DS4_TOOL_CALLS_END
  end.

Definition glm_call_text (orders : list tool_schema_order) (tc : tool_call) : bytes :=
  bs "<tool_call>" ++ default [] (tc_name tc)
  ++ match append_glm_arguments_from_json (tc_arguments tc) (tool_schema_orders_find orders (tc_name tc)) with
     | Some args => args
     | None => bs "<arg_key>arguments</arg_key><arg_value>"
               ++ append_glm_arg_value_text (default [] (tc_arguments tc)) ++ bs "</arg_value>"
     end
  ++ bs "</tool_call>".

Definition append_glm_tool_calls_text (calls : tool_calls) (orders : list tool_schema_order) : bytes :=
  match calls_v calls, calls_raw_tool_text calls with
  | [], _ => []
  | _, Some ((_ :: _) as raw) => raw
  | v, _ => [10] ++ concat (glm_call_text orders <$> v) ++ [10]
  end.

Inductive server_model_syntax := SERVER_MODEL_SYNTAX_DEEPSEEK | SERVER_MODEL_SYNTAX_GLM.

Definition append_tool_calls_text_for_syntax (syntax : server_model_syntax) (calls : tool_calls)
    (orders : list tool_schema_order) : bytes :=
  match syntax with
  | SERVER_MODEL_SYNTAX_GLM => append_glm_tool_calls_text calls orders
  | SERVER_MODEL_SYNTAX_DEEPSEEK => append_dsml_tool_calls_text calls
  end.

(** ** Reading: the pieces *)

(** The last occurrence, by the recursion that finds a later one first. *)
Fixpoint find_last_substr (s needle : bytes) : option nat :=
  match s, needle with
  | [], _ | _, [] => None
  | _ :: r, _ =>
      match find_last_substr r needle with
      | Some i => Some (S i)
      | None => match strip_prefix needle s with Some _ => Some 0%nat | None => None end
      end
  end.

Definition tool_call_json_args_add (args name value : bytes) (is_string : bytes) : bytes :=
  args ++ (match args with [] => [] | _ => bs ", " end) ++ json_escape name ++ bs ": "
  ++ (if bytes_eqb is_string (bs "true") then json_escape value
      else match json_minify_raw_value (Some value) with [] => bs "null" | min => min end).

(** A parameter tag at [p]: its [name], its [string] attribute and the text after
    the tag. The tag runs to the first [>]. *)
Definition param_tag (syn : dsml_syntax) (p : bytes) : option (option bytes * option bytes * bytes) :=
  match strip_prefix (param_start syn) p, index_of 62 p with
  | Some _, Some e =>
      let tag := take (S e) p in
      Some (dsml_attr tag (bs "name"), dsml_attr tag (bs "string"), drop (S e) p)
  | _, _ => None
  end.

(** The value up to the closing tag, decoded as its type says, and the text after. *)
Definition param_value (syn : dsml_syntax) (value_start : bytes) (is_string : option bytes)
    : option (bytes * bytes * bytes) :=
  match strstr value_start (param_end syn) with
  | None => None
  | Some e =>
      let raw_value := take e value_start in
      let type := default (bs "true") is_string in
      let value := if bytes_eqb type (bs "true") then dsml_unescape_text raw_value else raw_value in
      Some (value, type, drop (e + length (param_end syn)) value_start)
  end.

Definition dsml_parse_leaf_param_json (syn : dsml_syntax) (p out : bytes) : option (bytes * bytes) :=
  match param_tag syn p with
  | Some (Some name, is_string, value_start) =>
      match param_value syn value_start is_string with
      | Some (value, type, p) => Some (tool_call_json_args_add out name value type, p)
      | None => None
      end
  | _ => None
  end.

(** Every leaf is shorter than the text before it, so its length bounds the loop. *)
Fixpoint nested_params_loop (fuel : nat) (syn : dsml_syntax) (p members : bytes) (any : bool)
    : option (bytes * bytes * bool) :=
  let p := skip_space p in
  match fuel, strip_prefix (param_start syn) p with
  | _, None => Some (members, p, any)
  | O, _ => None
  | S fuel', Some _ =>
      '(members, p) ← dsml_parse_leaf_param_json syn p members;
      nested_params_loop fuel' syn p members true
  end.

Definition dsml_parse_nested_params_object (syn : dsml_syntax) (p : bytes) : option (bytes * bytes) :=
  match nested_params_loop (length p) syn p [] false with
  | Some (members, p, true) => Some (bs "{" ++ members ++ bs "}", p)
  | _ => None
  end.

Definition split_reasoning_content (text : bytes) (n : nat) : option bytes * option bytes :=
  let s := take n text in
  let body := match strip_prefix (bs "<think>") s with Some b => b | None => s end in
  match strstr body (bs "</think>") with
  | Some e => (Some (drop (e + 8) body), Some (take e body))
  | None => (Some s, None)
  end.

Definition ds4_local_unterminated_reasoning (text : bytes) : option bytes * option bytes :=
  (Some [], Some (match strip_prefix (bs "<think>") text with Some b => b | None => text end)).

Definition ds4_unterminated_reasoning_before_tool (text : bytes) (prefix_len : nat)
    : option bytes * option bytes :=
  let prefix_len := if (length text <? prefix_len)%nat then length text else prefix_len in
  match (if (7 <=? prefix_len)%nat then strip_prefix (bs "<think>") text else None) with
  | Some body => (Some [], Some (take (prefix_len - 7) body))
  | None => (Some [], Some (take prefix_len text))
  end.

(** ** Reading DSML *)

(** The loop over the parameters of one invocation: the members of its argument
    object and the text after the invocation's end. *)
Fixpoint params_loop (fuel : nat) (syn : dsml_syntax) (p args : bytes) : option (bytes * bytes) :=
  match fuel with
  | O => None
  | S fuel' =>
      let p := skip_space p in
      match strip_prefix (invoke_end syn) p with
      | Some p => Some (args, p)
      | None =>
          match param_tag syn p with
          | Some (Some name, is_string, value_start) =>
              match is_string, strip_prefix (param_start syn) (skip_space value_start) with
              | None, Some _ =>
                  match dsml_parse_nested_params_object syn value_start with
                  | None => None
                  | Some (nested, nested_p) =>
                      let p := skip_space nested_p in
                      let p := match strip_prefix (param_end syn) p with Some p => p | None => p end in
                      params_loop fuel' syn p (tool_call_json_args_add args name nested (bs "false"))
                  end
              | _, _ =>
                  match param_value syn value_start is_string with
                  | None => None
                  | Some (value, type, p) =>
                      params_loop fuel' syn p (tool_call_json_args_add args name value type)
                  end
              end
          | _ => None
          end
      end
  end.

(** The loop over the invocations: the text after the end of the block, if it is
    reached, and the calls pushed. *)
Fixpoint invokes_loop (fuel : nat) (syn : dsml_syntax) (p : bytes) (calls : tool_calls)
    : option bytes * tool_calls :=
  match fuel with
  | O => (None, calls)
  | S fuel' =>
      let p := skip_space p in
      match strip_prefix (tool_calls_end syn) p with
      | Some p => (Some p, calls)
      | None =>
          match strip_prefix (invoke_start syn) p, index_of 62 p with
          | Some _, Some e =>
              match dsml_attr (take (S e) p) (bs "name") with
              | None => (None, calls)
              | Some name =>
                  match params_loop (S (length p)) syn (drop (S e) p) [] with
                  | None => (None, calls)
                  | Some (args, p) =>
                      invokes_loop fuel' syn p
                        (tool_calls_push calls
                           (ToolCall None (Some name) (Some (bs "{" ++ args ++ bs "}"))))
                  end
              end
          | _, _ => (None, calls)
          end
      end
  end.

(** Where the tool block begins, in the order of the searches, and its spelling. *)
Definition find_tool_block (s : bytes) : option (nat * dsml_syntax) :=
  let try (k : option (nat * dsml_syntax)) (syn : dsml_syntax) :=
    match k with
    | Some _ => k
    | None =>
        match strstr s ([10; 10] ++ tool_calls_start syn) with
        | Some i => Some (i, syn)
        | None => match strstr s (tool_calls_start syn) with Some i => Some (i, syn) | None => None end
        end
    end in
  foldl try None dsml_syntaxes.

(** What a message parser gives: [None] where the C function returns false and
    leaves the content and the reasoning alone, and the calls in both cases. *)
Definition parsed : Type := option (option bytes * option bytes) * tool_calls.

(** The text the tool block is looked for in, and whether it is one inside reasoning
    that was never closed; [None] when there is nothing to look for. *)
Definition tool_search_from (text : bytes) (require_thinking_closed : bool)
    (candidate : option nat) (complete : bool) : option (nat * bool) :=
  if require_thinking_closed then
    match find_last_substr text (bs "</think>") with
    | Some e => Some ((e + 8)%nat, false)
    | None => match candidate with
              | Some c => if complete then Some (c, true) else None
              | None => None
              end
    end
  else Some (0%nat, false).

Definition parse_deepseek_generated_message_ex (text : option bytes) (require_thinking_closed : bool)
    (calls : tool_calls) : parsed :=
  let text := default [] text in
  let candidate := find_any_tool_start text in
  let complete := match candidate with
                  | Some c => match find_any_tool_end (drop c text) with Some _ => true | None => false end
                  | None => false
                  end in
  match tool_search_from text require_thinking_closed candidate complete with
  | None => (Some (ds4_local_unterminated_reasoning text), calls)
  | Some (tool_search, recovered_unclosed_tool) =>
      match find_tool_block (drop tool_search text) with
      | None => (Some (split_reasoning_content text (length text)), calls)
      | Some (off, syn) =>
          let start := (tool_search + off)%nat in
          let content_len := trim_tool_separator_ws text 0 start in
          let raw_block := drop start text in
          match strstr raw_block (tool_calls_start syn) with
          | None => (None, calls)
          | Some i =>
              let p := drop (i + length (tool_calls_start syn)) raw_block in
              match invokes_loop (S (length p)) syn p calls with
              | (None, calls) => (None, calls)
              | (Some rest, calls) =>
                  let raw := take (length raw_block - length rest) raw_block in
                  (Some (if recovered_unclosed_tool
                         then ds4_unterminated_reasoning_before_tool text content_len
                         else split_reasoning_content text content_len),
                   ToolCalls (calls_v calls) (Some raw))
              end
          end
      end
  end.

(** ** Reading the GLM markup *)

(** The trailing white space of a span. *)
Definition rtrim (s : bytes) : bytes := reverse (skip_space (reverse s)).

(** [trim_const_span]: the offset of the new start and the bytes between. *)
Definition trim_const_span (s : bytes) : nat * bytes :=
  let s' := skip_space s in
  ((length s - length s')%nat, rtrim s').

(** The loop over the key and value pairs of one call; [close] is the length of the
    text from the [</tool_call>] found first. *)
Fixpoint glm_args_loop (fuel : nat) (close : nat) (p args : bytes) : option (bytes * bytes) :=
  match fuel with
  | O => None
  | S fuel' =>
      let p := skip_space p in
      match strip_prefix (bs "</tool_call>") p with
      | Some p => Some (args, p)
      | None =>
          match strip_prefix (bs "<arg_key>") p with
          | None => None
          | Some p =>
              match strstr p (bs "</arg_key>") with
              | None => None
              | Some key_end =>
                  if (length (drop key_end p) <? close)%nat then None
                  else
                    let key := dsml_unescape_text (trim_const_span (take key_end p)).2 in
                    let p := skip_space (drop (key_end + 10) p) in
                    match strip_prefix (bs "<arg_value>") p with
                    | None => None
                    | Some p =>
                        match strstr p (bs "</arg_value>") with
                        | None => None
                        | Some value_end =>
                            if (length (drop value_end p) <? close)%nat then None
                            else
                              let value := dsml_unescape_text (take value_end p) in
                              glm_args_loop fuel' close (drop (value_end + 12) p)
                                (tool_call_json_args_add args key value (bs "true"))
                        end
                    end
              end
          end
      end
  end.

(** The loop over the calls: where it stops, if it does not fail, and the calls. *)
Fixpoint glm_calls_loop (fuel : nat) (p : bytes) (calls : tool_calls) : option bytes * tool_calls :=
  match fuel with
  | O => (None, calls)
  | S fuel' =>
      let p := skip_space p in
      match strip_prefix (bs "<tool_call>") p with
      | None => (Some p, calls)
      | Some p =>
          match strstr p (bs "</tool_call>") with
          | None => (None, calls)
          | Some close =>
              let arg := match strstr p (bs "<arg_key>") with
                         | Some a => if (close <? a)%nat then None else Some a
                         | None => None
                         end in
              let '(lead, name) := trim_const_span (take (default close arg) p) in
              match name with
              | [] => (None, calls)
              | _ =>
                  match glm_args_loop (S (length p)) (length (drop close p)) (drop (lead + length name) p) [] with
                  | None => (None, calls)
                  | Some (args, p) =>
                      glm_calls_loop fuel' p
                        (tool_calls_push calls
                           (ToolCall None (Some name) (Some (bs "{" ++ args ++ bs "}"))))
                  end
              end
          end
      end
  end.

Definition parse_glm_generated_message_ex (text : option bytes) (require_thinking_closed : bool)
    (calls : tool_calls) : parsed :=
  let text := default [] text in
  let candidate := strstr text (bs "<tool_call>") in
  let complete := match candidate with
                  | Some c => match strstr (drop c text) (bs "</tool_call>") with Some _ => true | None => false end
                  | None => false
                  end in
  match tool_search_from text require_thinking_closed candidate complete with
  | None => (Some (ds4_local_unterminated_reasoning text), calls)
  | Some (tool_search, recovered_unclosed_tool) =>
      match strstr (drop tool_search text) (bs "<tool_call>") with
      | None => (Some (split_reasoning_content text (length text)), calls)
      | Some off =>
          let start := (tool_search + off)%nat in
          let raw_start :=
            if (2 <=? start)%nat && (byte_at text (start - 2) =? 10) && (byte_at text (start - 1) =? 10)
            then (start - 2)%nat else start in
          let content_len := trim_tool_separator_ws text 0 raw_start in
          match glm_calls_loop (S (length (drop start text))) (drop start text) calls with
          | (None, calls) => (None, calls)
          | (Some rest, calls) =>
              match calls_v calls with
              | [] => (None, calls)
              | v =>
                  let raw_block := drop raw_start text in
                  let raw := take (length raw_block - length rest) raw_block in
                  (Some (if recovered_unclosed_tool
                         then ds4_unterminated_reasoning_before_tool text content_len
                         else split_reasoning_content text content_len),
                   ToolCalls v (Some raw))
              end
          end
      end
  end.

Definition parse_generated_message_ex_for_syntax (syntax : server_model_syntax) (text : option bytes)
    (require_thinking_closed : bool) (calls : tool_calls) : parsed :=
  match syntax with
  | SERVER_MODEL_SYNTAX_GLM => parse_glm_generated_message_ex text require_thinking_closed calls
  | SERVER_MODEL_SYNTAX_DEEPSEEK => parse_deepseek_generated_message_ex text require_thinking_closed calls
  end.

(** ** Repair *)

(** The counts of the six tags, in the order of the tests. *)
Record tag_counts := TagCounts { tos : nat; toe : nat; ios : nat; ioe : nat; pos_ : nat; poe : nat }.

Fixpoint count_tags (fuel : nat) (syn : dsml_syntax) (p : bytes) (n : tag_counts) : tag_counts :=
  match fuel, p with
  | S fuel', _ :: r =>
      match strip_prefix (tool_calls_start syn) p with
      | Some p' => count_tags fuel' syn p' (TagCounts (S (tos n)) (toe n) (ios n) (ioe n) (pos_ n) (poe n))
      | None =>
      match strip_prefix (tool_calls_end syn) p with
      | Some p' => count_tags fuel' syn p' (TagCounts (tos n) (S (toe n)) (ios n) (ioe n) (pos_ n) (poe n))
      | None =>
      match strip_prefix (invoke_start syn) p with
      | Some p' => count_tags fuel' syn p' (TagCounts (tos n) (toe n) (S (ios n)) (ioe n) (pos_ n) (poe n))
      | None =>
      match strip_prefix (invoke_end syn) p with
      | Some p' => count_tags fuel' syn p' (TagCounts (tos n) (toe n) (ios n) (S (ioe n)) (pos_ n) (poe n))
      | None =>
      match strip_prefix (param_start syn) p with
      | Some p' => count_tags fuel' syn p' (TagCounts (tos n) (toe n) (ios n) (ioe n) (S (pos_ n)) (poe n))
      | None =>
      match strip_prefix (param_end syn) p with
      | Some p' => count_tags fuel' syn p' (TagCounts (tos n) (toe n) (ios n) (ioe n) (pos_ n) (S (poe n)))
      | None => count_tags fuel' syn r n
      end end end end end end
  | _, _ => n
  end.

(** The spelling of the first kind of start tag the text has. *)
Fixpoint repair_syntax (l : list dsml_syntax) (s : bytes) : option dsml_syntax :=
  match l with
  | [] => None
  | syn :: l' => match strstr s (tool_calls_start syn) with
                 | Some _ => Some syn
                 | None => repair_syntax l' s
                 end
  end.

(** [try_repair_dsml] on all of a C string; [None] where it returns false. *)
Definition try_repair_dsml (s : bytes) : option bytes :=
  match s with
  | [] => None
  | _ =>
      let scan := match find_last_substr s (bs "</think>") with
                  | Some e => drop (e + 8) s
                  | None => s
                  end in
      match repair_syntax dsml_syntaxes scan with
      | None => None
      | Some syn =>
          let n := count_tags (length scan) syn scan (TagCounts 0 0 0 0 0 0) in
          if (tos n =? toe n)%nat && (ios n =? ioe n)%nat && (pos_ n =? poe n)%nat then None
          else if (tos n <? toe n)%nat || (ios n <? ioe n)%nat || (pos_ n <? poe n)%nat then None
          else Some (s ++ concat (replicate (pos_ n - poe n) (param_end syn))
                     ++ concat (replicate (ios n - ioe n) (invoke_end syn))
                     ++ concat (replicate (tos n - toe n) (tool_calls_end syn)))
      end
  end.

(** ** The response *)

Definition tool_parse_failure_recovery_finish (finish : option bytes) : bytes :=
  match finish with
  | Some f => if bytes_eqb f (bs "length") then bs "length" else bs "stop"
  | None => bs "stop"
  end.

Record response_parse := ResponseParse {
  rp_ok : bool; rp_content : option bytes; rp_reasoning : option bytes; rp_calls : tool_calls;
  rp_finish : option bytes; rp_err : option bytes; rp_recovered : bool }.

Definition parse_generated_message_for_response_for_syntax (syntax : server_model_syntax)
    (text : option bytes) (has_tools saw_tool_start require_thinking_closed : bool)
    (finish : option bytes) (calls : tool_calls) : response_parse :=
  match parse_generated_message_ex_for_syntax syntax text require_thinking_closed calls with
  | (Some (content, reasoning), calls) =>
      ResponseParse true content reasoning calls finish None false
  | (None, _) =>
      let content := Some (default [] text) in
      let f := default (bs "stop") finish in
      if has_tools && saw_tool_start && negb (bytes_eqb f (bs "error")) then
        ResponseParse false content None tool_calls_zero
          (Some (tool_parse_failure_recovery_finish (Some f))) (Some (bs "invalid tool call")) true
      else ResponseParse false content None tool_calls_zero finish None false
  end.

(** * Theorems about the parsers *)

(** ** Lengths *)

Lemma strip_prefix_len lit s r : strip_prefix lit s = Some r → length s = (length lit + length r)%nat.
Proof. intros ->%strip_prefix_Some. apply length_app. Qed.

Lemma index_of_bound c s i : index_of c s = Some i → (i < length s)%nat.
Proof. intros [H%occurs_bound _]%strstr_occurs. simpl in H. lia. Qed.

Lemma strstr_bound s x i : strstr s x = Some i → (i + length x <= length s)%nat.
Proof. intros [H%occurs_bound _]%strstr_occurs. done. Qed.

Lemma param_tag_len syn p n t v : param_tag syn p = Some (n, t, v) → (length v < length p)%nat.
Proof.
  unfold param_tag. destruct (strip_prefix _ _); [|done].
  destruct (index_of 62 p) as [e|] eqn:E; [|done]. intros [= _ _ <-]. apply index_of_bound in E.
  rewrite length_drop. lia.
Qed.

Lemma param_value_len syn v t x y p : param_value syn v t = Some (x, y, p) → (length p <= length v)%nat.
Proof.
  unfold param_value. destruct (strstr v _) as [e|]; [|done]. intros [= _ _ <-]. rewrite length_drop. lia.
Qed.

Lemma leaf_len syn p o o' p' : dsml_parse_leaf_param_json syn p o = Some (o', p') → (length p' < length p)%nat.
Proof.
  unfold dsml_parse_leaf_param_json. destruct (param_tag syn p) as [[[[n|] t] v]|] eqn:E; [|done..].
  destruct (param_value syn v t) as [[[x y] q]|] eqn:E'; [|done]. intros [= _ <-].
  apply param_tag_len in E. apply param_value_len in E'. lia.
Qed.

(** ** Termination *)

Lemma nested_fuel syn f1 f2 p m a : (length p <= f1)%nat → (length p <= f2)%nat →
  nested_params_loop f1 syn p m a = nested_params_loop f2 syn p m a.
Proof.
  revert f2 p m a. induction f1 as [|f1 IH]; intros [|f2] p m a H1 H2; try done.
  - destruct p; [|simpl in *; lia]. cbn [nested_params_loop]. destruct (strip_prefix _ _); [|done].
    destruct (dsml_parse_leaf_param_json syn (skip_space []) m) as [[o q]|] eqn:E; [|done].
    apply leaf_len in E. simpl in E. lia.
  - destruct p; [|simpl in *; lia]. cbn [nested_params_loop]. destruct (strip_prefix _ _); [|done].
    destruct (dsml_parse_leaf_param_json syn (skip_space []) m) as [[o q]|] eqn:E; [|done].
    apply leaf_len in E. simpl in E. lia.
  - cbn [nested_params_loop]. destruct (strip_prefix _ _); [|done].
    destruct (dsml_parse_leaf_param_json syn (skip_space p) m) as [[o q]|] eqn:E; [|done].
    cbn. apply leaf_len in E. pose proof (skip_space_length p). apply IH; lia.
Qed.

Lemma nested_len syn f p m a m' p' a' :
  nested_params_loop f syn p m a = Some (m', p', a') → (length p' <= length p)%nat.
Proof.
  revert p m a. induction f as [|f IH]; intros p m a H; cbn [nested_params_loop] in H;
    pose proof (skip_space_length p).
  - destruct (strip_prefix _ _); [done|]. by injection H as _ <- _.
  - destruct (strip_prefix _ _); [|by injection H as _ <- _].
    destruct (dsml_parse_leaf_param_json syn (skip_space p) m) as [[o q]|] eqn:E; [|done].
    apply leaf_len in E. cbn in H. apply IH in H. lia.
Qed.

Lemma nested_object_len syn p o p' : dsml_parse_nested_params_object syn p = Some (o, p') → (length p' <= length p)%nat.
Proof.
  unfold dsml_parse_nested_params_object.
  destruct (nested_params_loop (length p) syn p [] false) as [[[m q] []]|] eqn:E; [|done..].
  intros [= _ <-]. by eapply nested_len.
Qed.

(** The text after a closing tag that may be missing. *)
Lemma optional_tag_len t p : (length (match strip_prefix t p with Some q => q | None => p end) <= length p)%nat.
Proof. destruct (strip_prefix t p) eqn:E; [apply strip_prefix_len in E; lia|lia]. Qed.

Lemma params_step_len syn p n t v q : param_tag syn (skip_space p) = Some (n, t, v) →
  (∃ o, dsml_parse_nested_params_object syn v = Some (o, q)) ∨ (∃ x y, param_value syn v t = Some (x, y, q)) →
  (length q < length p)%nat.
Proof.
  intros Ht%param_tag_len H. pose proof (skip_space_length p).
  destruct H as [[o H%nested_object_len]|(x & y & H%param_value_len)]; lia.
Qed.

Lemma params_fuel syn f1 f2 p args : (length p < f1)%nat → (length p < f2)%nat →
  params_loop f1 syn p args = params_loop f2 syn p args.
Proof.
  revert f2 p args. induction f1 as [|f1 IH]; intros f2 p args H1 H2; [lia|]. destruct f2 as [|f2]; [lia|].
  cbn [params_loop]. destruct (strip_prefix (invoke_end syn) (skip_space p)); [done|].
  destruct (param_tag syn (skip_space p)) as [[[[n|] t] v]|] eqn:Et; [|done..].
  destruct t as [t|]; [|destruct (strip_prefix (param_start syn) (skip_space v))].
  - destruct (param_value syn v (Some t)) as [[[x y] q]|] eqn:Ev; [|done].
    assert (length q < length p)%nat by (eapply params_step_len; eauto). apply IH; lia.
  - destruct (dsml_parse_nested_params_object syn v) as [[o q]|] eqn:Ev; [|done].
    assert (length q < length p)%nat by (eapply params_step_len; eauto).
    pose proof (skip_space_length q). pose proof (optional_tag_len (param_end syn) (skip_space q)). apply IH; lia.
  - destruct (param_value syn v None) as [[[x y] q]|] eqn:Ev; [|done].
    assert (length q < length p)%nat by (eapply params_step_len; eauto). apply IH; lia.
Qed.

Lemma params_len syn f p args args' p' : params_loop f syn p args = Some (args', p') → (length p' <= length p)%nat.
Proof.
  revert p args. induction f as [|f IH]; intros p args H; [done|]. cbn [params_loop] in H.
  pose proof (skip_space_length p).
  destruct (strip_prefix (invoke_end syn) (skip_space p)) eqn:E.
  { injection H as _ <-. apply strip_prefix_len in E. lia. }
  destruct (param_tag syn (skip_space p)) as [[[[n|] t] v]|] eqn:Et; [|done..].
  destruct t as [t|]; [|destruct (strip_prefix (param_start syn) (skip_space v))].
  - destruct (param_value syn v (Some t)) as [[[x y] q]|] eqn:Ev; [|done].
    assert (length q < length p)%nat by (eapply params_step_len; eauto). apply IH in H; lia.
  - destruct (dsml_parse_nested_params_object syn v) as [[o q]|] eqn:Ev; [|done].
    assert (length q < length p)%nat by (eapply params_step_len; eauto).
    pose proof (skip_space_length q). pose proof (optional_tag_len (param_end syn) (skip_space q)). apply IH in H; lia.
  - destruct (param_value syn v None) as [[[x y] q]|] eqn:Ev; [|done].
    assert (length q < length p)%nat by (eapply params_step_len; eauto). apply IH in H; lia.
Qed.

Lemma invokes_fuel syn f1 f2 p calls : (length p < f1)%nat → (length p < f2)%nat →
  invokes_loop f1 syn p calls = invokes_loop f2 syn p calls.
Proof.
  revert f2 p calls. induction f1 as [|f1 IH]; intros f2 p calls H1 H2; [lia|]. destruct f2 as [|f2]; [lia|].
  cbn [invokes_loop]. destruct (strip_prefix (tool_calls_end syn) (skip_space p)); [done|].
  destruct (strip_prefix (invoke_start syn) (skip_space p)); [|done].
  destruct (index_of 62 (skip_space p)) as [e|] eqn:Ee; [|done]. apply index_of_bound in Ee.
  destruct (dsml_attr _ _); [|done].
  destruct (params_loop _ syn _ []) as [[args q]|] eqn:E; [|done]. apply params_len in E.
  rewrite length_drop in E. pose proof (skip_space_length p). apply IH; lia.
Qed.

Lemma glm_args_fuel close f1 f2 p args : (length p < f1)%nat → (length p < f2)%nat →
  glm_args_loop f1 close p args = glm_args_loop f2 close p args.
Proof.
  revert f2 p args. induction f1 as [|f1 IH]; intros f2 p args H1 H2; [lia|]. destruct f2 as [|f2]; [lia|].
  cbn [glm_args_loop]. pose proof (skip_space_length p).
  destruct (strip_prefix _ _); [done|]. destruct (strip_prefix (bs "<arg_key>") (skip_space p)) as [q|] eqn:E1; [|done].
  apply strip_prefix_len in E1. change (length (bs "<arg_key>")) with 9%nat in E1.
  destruct (strstr q _) as [i|] eqn:Ei; [|done]. case_if; [done|].
  destruct (strip_prefix (bs "<arg_value>") _) as [q'|] eqn:E2; [|done]. apply strip_prefix_len in E2.
  pose proof (skip_space_length (drop (i + 10) q)) as Hl. rewrite length_drop in Hl.
  destruct (strstr q' _) as [j|]; [|done]. case_if; [done|]. apply IH; rewrite length_drop; lia.
Qed.

Lemma glm_args_len close f p args args' p' : glm_args_loop f close p args = Some (args', p') →
  (length p' <= length p)%nat.
Proof.
  revert p args. induction f as [|f IH]; intros p args H; [done|]. cbn [glm_args_loop] in H.
  pose proof (skip_space_length p).
  destruct (strip_prefix _ _) eqn:E0; [injection H as _ <-; apply strip_prefix_len in E0; lia|].
  destruct (strip_prefix (bs "<arg_key>") (skip_space p)) as [q|] eqn:E1; [|done].
  apply strip_prefix_len in E1. destruct (strstr q _) as [i|] eqn:Ei; [|done].
  destruct (_ <? close)%nat; [done|].
  destruct (strip_prefix (bs "<arg_value>") _) as [q'|] eqn:E2; [|done]. apply strip_prefix_len in E2.
  pose proof (skip_space_length (drop (i + 10) q)) as Hl. rewrite length_drop in Hl.
  destruct (strstr q' _) as [j|]; [|done]. destruct (_ <? close)%nat; [done|].
  apply IH in H. rewrite length_drop in H. lia.
Qed.

Lemma glm_calls_fuel f1 f2 p calls : (length p < f1)%nat → (length p < f2)%nat →
  glm_calls_loop f1 p calls = glm_calls_loop f2 p calls.
Proof.
  revert f2 p calls. induction f1 as [|f1 IH]; intros f2 p calls H1 H2; [lia|]. destruct f2 as [|f2]; [lia|].
  cbn [glm_calls_loop]. pose proof (skip_space_length p).
  destruct (strip_prefix _ _) as [q|] eqn:E; [|done]. apply strip_prefix_len in E.
  change (length (bs "<tool_call>")) with 11%nat in E. destruct (strstr q _) as [c|]; [|done].
  destruct (trim_const_span _) as [lead name]. destruct name as [|x name]; [done|].
  destruct (glm_args_loop _ _ _ _) as [[args r]|] eqn:Ea; [|done]. apply glm_args_len in Ea.
  rewrite length_drop in Ea. apply IH; lia.
Qed.

Lemma count_tags_fuel syn f1 f2 p n : Forall (λ t, t ≠ [])
    [tool_calls_start syn; tool_calls_end syn; invoke_start syn; invoke_end syn; param_start syn; param_end syn] →
  (length p <= f1)%nat → (length p <= f2)%nat → count_tags f1 syn p n = count_tags f2 syn p n.
Proof.
  intros Hne. rewrite !Forall_cons in Hne. destruct Hne as (N1 & N2 & N3 & N4 & N5 & N6 & _).
  assert (Hpos : ∀ t : bytes, t ≠ [] → (0 < length t)%nat) by (intros [|]; simpl; [done|lia]).
  apply Hpos in N1, N2, N3, N4, N5, N6.
  revert f2 p n. induction f1 as [|f1 IH]; intros [|f2] [|c p] n H1 H2; try done; [simpl in *; lia..|].
  cbn [count_tags].
  repeat match goal with
    | |- match strip_prefix ?t ?p with _ => _ end = _ =>
        let E := fresh "E" in
        destruct (strip_prefix t p) eqn:E; [apply strip_prefix_len in E; cbn [length] in *; apply IH; lia|]
    end.
  cbn [length] in *. apply IH; lia.
Qed.

(** The message parsers always end: on any text the loops over parameters,
    nested parameters, invocations, GLM calls and their arguments give the same
    result for every fuel above the length of the text, so the fuel never runs out. *)
Theorem message_loops_total syn p fuel calls args close
    (Hf : (length p < fuel)%nat) :
  nested_params_loop fuel syn p args false = nested_params_loop (length p) syn p args false
  ∧ params_loop fuel syn p args = params_loop (S (length p)) syn p args
  ∧ invokes_loop fuel syn p calls = invokes_loop (S (length p)) syn p calls
  ∧ glm_args_loop fuel close p args = glm_args_loop (S (length p)) close p args
  ∧ glm_calls_loop fuel p calls = glm_calls_loop (S (length p)) p calls.
Proof.
  split_and!; [apply nested_fuel; lia|apply params_fuel; lia|apply invokes_fuel; lia|
    apply glm_args_fuel; lia|apply glm_calls_fuel; lia].
Qed.

(** Witness. *)
Lemma message_loops_total_witness :
  glm_calls_loop 100 (bs "<tool_call>f</tool_call>") tool_calls_zero
  = (Some [], ToolCalls [ToolCall None (Some (bs "f")) (Some (bs "{}"))] None).
Proof.
  destruct (message_loops_total (DsmlSyntax (bs "<tool_calls>") (bs "</tool_calls>") (bs "<invoke")
    (bs "</invoke>") (bs "<parameter") (bs "</parameter>")) (bs "<tool_call>f</tool_call>") 100
    tool_calls_zero [] 0) as (_ & _ & _ & _ & ->).
  - vm_compute. lia.
  - vm_compute. reflexivity.
Defined.
