(* ===== verification/ToolRoundTrip.v ===== *)
(** * The DSML the renderer writes is read back

    The round trip of [ToolText]: the tool calls of an assistant message, rendered
    into the prompt as DSML and read back by the parser of generated messages, are
    the same calls, with the same argument names and values in the same order. *)
From S2P Require Import Prelude CLib Json JsonProps JsonSafe Request RequestProps Stream StreamProps Dsml DsmlText ToolText.

(** ** Searches decided by one byte *)

(** A pattern is found where it stands when one of its bytes occurs nowhere before. *)
Lemma strstr_unique a q c q' b :
  c ∉ a → c ∉ q → strstr (a ++ (q ++ c :: q') ++ b) (q ++ c :: q') = Some (length a).
Proof.
  intros Ha Hq. set (pat := q ++ c :: q').
  assert (Ho : occurs (a ++ pat ++ b) pat (length a)) by (apply occurs_split; by exists a, b).
  destruct (strstr (a ++ pat ++ b) pat) as [i|] eqn:E; [|by destruct (strstr_none_occurs _ _ (length a) E)].
  apply strstr_occurs in E as [Hi Hmin]. specialize (Hmin _ Ho). f_equal.
  destruct (decide (i = length a)) as [->|]; [done|exfalso].
  assert (length pat = (length q + S (length q'))%nat) as Hlp by (unfold pat; rewrite length_app; done).
  pose proof (occurs_byte _ _ _ (length q) Hi ltac:(lia)) as Hb. unfold pat at 2, byte_at in Hb.
  rewrite (app_nth2 q), Nat.sub_diag in Hb by lia. cbn [nth] in Hb.
  assert (byte_at (a ++ pat ++ b) (i + length q) ∈ a ++ q) as Hin.
  { unfold pat. rewrite <- (app_assoc q), (app_assoc a q). unfold byte_at.
    rewrite app_nth1 by (rewrite length_app; lia). apply list_elem_of_In, nth_In. rewrite length_app. lia. }
  unfold byte_at in Hin. rewrite Hb in Hin. apply elem_of_app in Hin as [?|?]; done.
Qed.

Lemma index_of_here c a b : c ∉ a → index_of c (a ++ c :: b) = Some (length a).
Proof. intros Ha. apply (strstr_unique a [] c [] b Ha). apply not_elem_of_nil. Qed.

(** A body without the tag, then the tag: the tag has its [<] only in front. *)
Lemma strstr_body x e b : strstr x (60 :: e) = None → 60 ∉ e →
  strstr (x ++ (60 :: e) ++ b) (60 :: e) = Some (length x).
Proof.
  intros Hx He. set (pat := 60 :: e).
  assert (Ho : occurs (x ++ pat ++ b) pat (length x)) by (apply occurs_split; by exists x, b).
  destruct (strstr (x ++ pat ++ b) pat) as [i|] eqn:E; [|by destruct (strstr_none_occurs _ _ (length x) E)].
  apply strstr_occurs in E as [Hi Hmin]. specialize (Hmin _ Ho). f_equal.
  destruct (decide (i = length x)) as [->|]; [done|exfalso].
  destruct (Nat.le_gt_cases (i + length pat) (length x)) as [Hl|Hl].
  { apply occurs_app_l in Hi; [|done]. by eapply strstr_none_occurs in Hx. }
  pose proof (occurs_byte _ _ _ (length x - i) Hi ltac:(lia)) as Hb.
  replace (i + (length x - i))%nat with (length x) in Hb by lia.
  unfold byte_at in Hb. rewrite app_nth2, Nat.sub_diag in Hb by lia. unfold pat in Hb at 1. cbn [app nth] in Hb.
  replace (length x - i)%nat with (S (length x - i - 1)) in Hb by lia. unfold pat in Hb. cbn [nth] in Hb.
  apply He, list_elem_of_In. rewrite Hb. apply nth_In. unfold pat in Hl. simpl in Hl. lia.
Qed.

(** ** Attributes *)

Lemma attr_here a name v rest : 34 ∉ a → 34 ∉ name → (length name <= 61)%nat → 34 ∉ v →
  dsml_attr (a ++ name ++ [61; 34] ++ v ++ 34 :: rest) name = Some (dsml_unescape_text v).
Proof.
  intros Ha Hn Hl Hv. unfold dsml_attr. cbn zeta.
  rewrite (take_ge (name ++ [61; 34])) by (rewrite length_app; simpl; lia).
  pose proof (strstr_unique a (name ++ [61]) 34 [] (v ++ 34 :: rest) Ha) as Hs.
  rewrite <- !(app_assoc name) in Hs. cbn [app] in Hs.
  change ([61; 34] ++ v ++ 34 :: rest) with (61 :: 34 :: v ++ 34 :: rest). rewrite Hs.
  2: { intros [|H]%elem_of_app; [done|]. by apply list_elem_of_singleton in H. }
  replace (drop (length a + length (name ++ [61; 34])) (a ++ name ++ 61 :: 34 :: v ++ 34 :: rest))
    with (v ++ 34 :: rest).
  2: { rewrite <- drop_drop, drop_app_length, length_app.
       change (61 :: 34 :: v ++ 34 :: rest) with ([61; 34] ++ (v ++ 34 :: rest)).
       rewrite app_assoc, <- length_app. by rewrite drop_app_length. }
  rewrite index_of_here by done. by rewrite take_app_length.
Qed.

(** Where a pattern that ends in its only quote lies, around a quote of the text. *)
Lemma quote_split u p w a R : 34 ∉ a → 34 ∉ p → u ++ p ++ 34 :: w = a ++ 34 :: R →
  u ++ p = a ∨ ∃ u', u = a ++ 34 :: u' ∧ u' ++ p ++ 34 :: w = R.
Proof.
  intros Ha Hp H. destruct (Nat.lt_trichotomy (length (u ++ p)) (length a)) as [Hl|[Hl|Hl]].
  - exfalso. apply Ha. rewrite app_assoc in H. apply (f_equal (λ l, nth (length (u ++ p)) l 0)) in H.
    rewrite app_nth2, Nat.sub_diag, app_nth1 in H by lia. cbn [nth] in H. rewrite H. by apply list_elem_of_In, nth_In.
  - left. rewrite app_assoc in H. by apply app_inj_1 in H as [-> _].
  - right. destruct (Nat.lt_ge_cases (length a) (length u)) as [Hu|Hu].
    + exists (drop (S (length a)) u). rewrite <- (take_drop (S (length a)) u) in H.
      assert (take (S (length a)) u = a ++ [34]) as Hd.
      { rewrite <- app_assoc in H. change (a ++ 34 :: R) with (a ++ [34] ++ R) in H. rewrite (app_assoc a) in H.
        apply app_inj_1 in H as [Hd _]; [exact Hd|]. rewrite length_take, length_app. cbn [length]. lia. }
      rewrite Hd, <- !app_assoc in H. apply app_inv_head in H. injection H as <-.
      split; [|done]. rewrite <- (take_drop (S (length a)) u) at 1. by rewrite Hd, <- app_assoc.
    + exfalso. apply Hp. apply (f_equal (λ l, nth (length a) l 0)) in H.
      rewrite (app_nth2 a), Nat.sub_diag, app_nth2, app_nth1 in H by (rewrite ?length_app in *; lia).
      cbn [nth] in H. rewrite <- H. apply list_elem_of_In, nth_In. rewrite length_app in Hl. lia.
Qed.

(** The second attribute of a parameter tag: the name before it must not end in the
    bytes of the pattern. *)
Lemma string_attr_here a v t rest : 34 ∉ a → 34 ∉ v → 34 ∉ t →
  ¬ suffix (bs "string=") a → ¬ suffix (bs "string=") v →
  dsml_attr (a ++ 34 :: v ++ 34 :: bs " string=" ++ 34 :: t ++ 34 :: rest) (bs "string")
  = Some (dsml_unescape_text t).
Proof.
  intros Ha Hv Ht Hsa Hsv. set (pat := bs "string" ++ [61; 34]).
  set (pre := a ++ 34 :: v ++ 34 :: [32]).
  assert (Htxt : a ++ 34 :: v ++ 34 :: bs " string=" ++ 34 :: t ++ 34 :: rest = pre ++ pat ++ t ++ 34 :: rest).
  { unfold pre. rewrite <- app_assoc. cbn [app]. by rewrite <- app_assoc. }
  rewrite Htxt. unfold dsml_attr. cbn zeta.
  change (take 63 (bs "string" ++ [61; 34])) with pat.
  assert (strstr (pre ++ pat ++ t ++ 34 :: rest) pat = Some (length pre)) as ->.
  { assert (Ho : occurs (pre ++ pat ++ t ++ 34 :: rest) pat (length pre)).
    { apply occurs_split. by exists pre, (t ++ 34 :: rest). }
    destruct (strstr (pre ++ pat ++ t ++ 34 :: rest) pat) as [i|] eqn:E; [|by destruct (strstr_none_occurs _ _ (length pre) E)].
    apply strstr_occurs in E as [Hi Hmin]. specialize (Hmin _ Ho). f_equal.
    destruct (decide (i = length pre)) as [->|]; [done|exfalso].
    apply occurs_split in Hi as (u & w & Hw & Hu). rewrite <- Htxt in Hw. symmetry in Hw.
    change pat with (bs "string=" ++ [34]) in Hw. rewrite <- (app_assoc (bs "string=")) in Hw. cbn [app] in Hw.
    assert (34 ∉ bs "string=") as Hq by (apply (bool_decide_eq_true_1 _); vm_compute; reflexivity).
    apply quote_split in Hw as [Hw|(u1 & -> & Hw)]; [| |done|done]; [by apply Hsa; exists u|].
    apply quote_split in Hw as [Hw|(u2 & -> & Hw)]; [| |done|done]; [by apply Hsv; exists u1|].
    assert (Hlen : (length (a ++ 34%Z :: v ++ 34%Z :: u2) < length pre)%nat) by lia.
    unfold pre in Hlen. rewrite !length_app in Hlen. cbn [length] in Hlen. rewrite !length_app in Hlen. cbn [length] in Hlen.
    destruct u2; [|simpl in Hlen; lia]. discriminate. }
  rewrite <- drop_drop, drop_app_length, drop_app_length.
  rewrite index_of_here by done. by rewrite take_app_length.
Qed.

(** ** One parameter *)

Definition dsml : dsml_syntax :=
  DsmlSyntax DS4_TOOL_CALLS_START DS4_TOOL_CALLS_END DS4_INVOKE_START DS4_INVOKE_END DS4_PARAM_START DS4_PARAM_END.

Definition arg_type (a : json_arg) : bytes := if arg_is_string a then bs "true" else bs "false".

(** What the rendering of an argument relies on: its name does not end in [string=];
    a string value holds no [&], any other value not the closing tag. *)
Definition dsml_arg_ok (a : json_arg) : Prop :=
  ¬ suffix (bs "string=") (append_dsml_attr_escaped (arg_key a))
  ∧ if arg_is_string a then 38 ∉ arg_value a else strstr (arg_value a) DS4_PARAM_END = None.

Lemma json_literal_id s : strstr s DS4_PARAM_END = None → append_dsml_json_literal s = s.
Proof.
  induction s as [|c s IH]; [done|]. cbn [append_dsml_json_literal strstr]. intros H.
  destruct (strip_prefix DS4_PARAM_END (c :: s)); [done|]. destruct (strstr s DS4_PARAM_END); [done|].
  by rewrite IH.
Qed.

Definition arg_body (a : json_arg) : bytes :=
  if arg_is_string a then append_dsml_parameter_text (arg_value a) else append_dsml_json_literal (arg_value a).

Lemma param_end_shape : ∃ e, DS4_PARAM_END = 60 :: e ∧ 60 ∉ e ∧ 38 ∉ e.
Proof.
  eexists. split; [reflexivity|].
  split; apply (bool_decide_eq_true_1 _); vm_compute; reflexivity.
Qed.

(** The tag of an argument, up to its [>]. *)
Definition arg_tag (a : json_arg) : bytes :=
  DS4_PARAM_START ++ bs " name=" ++ 34 :: append_dsml_attr_escaped (arg_key a)
  ++ 34 :: bs " string=" ++ 34 :: arg_type a ++ [34].

Lemma append_dsml_arg_eq a rest :
  append_dsml_arg a ++ rest = arg_tag a ++ 62 :: arg_body a ++ DS4_PARAM_END ++ 10 :: rest.
Proof.
  unfold append_dsml_arg, arg_tag, arg_body, arg_type.
  destruct (arg_is_string a); repeat (rewrite <- app_assoc || cbn [app]); reflexivity.
Qed.

Lemma attr_no_byte k : 34 ∉ append_dsml_attr_escaped k ∧ 62 ∉ append_dsml_attr_escaped k ∧ 60 ∉ append_dsml_attr_escaped k.
Proof.
  pose proof (attr_escaped_clean k) as H. rewrite Forall_forall in H.
  split_and!; intros Hin; apply H in Hin; lia.
Qed.

Ltac byte_free := apply (bool_decide_eq_true_1 _); vm_compute; reflexivity.

Lemma arg_tag_no_gt a : 62 ∉ arg_tag a.
Proof.
  unfold arg_tag, arg_type. destruct (attr_no_byte (arg_key a)) as (_ & H62 & _).
  rewrite !not_elem_of_app, !not_elem_of_cons, !not_elem_of_app, !not_elem_of_cons, !not_elem_of_app.
  split_and!; try done; try byte_free. destruct (arg_is_string a); byte_free.
Qed.

Lemma param_tag_arg a rest : dsml_arg_ok a →
  param_tag dsml (append_dsml_arg a ++ rest)
  = Some (Some (arg_key a), Some (arg_type a), arg_body a ++ DS4_PARAM_END ++ 10 :: rest).
Proof.
  intros [Hk _]. rewrite append_dsml_arg_eq. unfold param_tag. cbn [param_start dsml].
  unfold arg_tag at 1. rewrite <- !app_assoc, strip_prefix_app.
  rewrite index_of_here by apply arg_tag_no_gt.
  change (62 :: arg_body a ++ DS4_PARAM_END ++ 10 :: rest) with ([62] ++ (arg_body a ++ DS4_PARAM_END ++ 10 :: rest)).
  rewrite app_assoc. assert (Hl : S (length (arg_tag a)) = length (arg_tag a ++ [62])) by (rewrite length_app; simpl; lia).
  rewrite Hl, take_app_length, drop_app_length.
  destruct (attr_no_byte (arg_key a)) as (H34 & _ & _). do 3 f_equal; [f_equal|].
  - unfold arg_tag.
    replace ((DS4_PARAM_START ++ bs " name=" ++ 34 :: append_dsml_attr_escaped (arg_key a) ++ 34 :: bs " string=" ++ 34 :: arg_type a ++ [34]) ++ [62])
      with ((DS4_PARAM_START ++ [32]) ++ bs "name" ++ [61; 34] ++ append_dsml_attr_escaped (arg_key a) ++ 34 :: (bs " string=" ++ 34 :: arg_type a ++ [34; 62])).
    2: { repeat (rewrite <- app_assoc || cbn [app]). reflexivity. }
    rewrite attr_here; [by rewrite unescape_attr|byte_free|byte_free|simpl; lia|done].
  - unfold arg_tag.
    replace ((DS4_PARAM_START ++ bs " name=" ++ 34 :: append_dsml_attr_escaped (arg_key a) ++ 34 :: bs " string=" ++ 34 :: arg_type a ++ [34]) ++ [62])
      with ((DS4_PARAM_START ++ bs " name=") ++ 34 :: append_dsml_attr_escaped (arg_key a) ++ 34 :: bs " string=" ++ 34 :: arg_type a ++ 34 :: [62]).
    2: { repeat (rewrite <- app_assoc || cbn [app]). reflexivity. }
    rewrite string_attr_here; [unfold arg_type; by destruct (arg_is_string a)|byte_free|done| | |done].
    + unfold arg_type. destruct (arg_is_string a); byte_free.
    + byte_free.
Qed.

Lemma param_value_arg a rest : dsml_arg_ok a →
  param_value dsml (arg_body a ++ DS4_PARAM_END ++ rest) (Some (arg_type a))
  = Some (arg_value a, arg_type a, rest).
Proof.
  intros [_ Hv]. unfold param_value, arg_body, arg_type. cbn [param_end dsml].
  destruct param_end_shape as (e & He & H60 & H38).
  assert (Hs : strstr (arg_body a) DS4_PARAM_END = None).
  { unfold arg_body. destruct (arg_is_string a); [|by rewrite json_literal_id].
    unfold append_dsml_parameter_text. rewrite He. by apply body_no_end. }
  fold (arg_body a). rewrite He in *. rewrite strstr_body by done. rewrite take_app_length.
  rewrite <- drop_drop, drop_app_length, drop_app_length.
  unfold arg_body, append_dsml_parameter_text. destruct (arg_is_string a); cbn [from_option id];
    [change (bytes_eqb (bs "true") (bs "true")) with true|change (bytes_eqb (bs "false") (bs "true")) with false].
  - rewrite unescape_body; [done|done|]. eauto.
  - by rewrite json_literal_id by (by rewrite He).
Qed.

(** ** The parameters of a call *)

Definition add_arg (acc : bytes) (a : json_arg) : bytes :=
  tool_call_json_args_add acc (arg_key a) (arg_value a) (arg_type a).

Lemma skip_space_lt s : skip_space (60 :: s) = 60 :: s.
Proof. done. Qed.

Lemma arg_starts a rest : ∃ r, append_dsml_arg a ++ rest = 60 :: r.
Proof. rewrite append_dsml_arg_eq. eexists. reflexivity. Qed.

Lemma strip_other a b rest r : (∀ t u, a ++ t ≠ b ++ u) → rest = b ++ r → strip_prefix a rest = None.
Proof.
  intros H ->. destruct (strip_prefix a (b ++ r)) as [x|] eqn:E; [|done].
  apply strip_prefix_Some in E. by destruct (H x r).
Qed.

Lemma params_render args fuel acc p rest : Forall dsml_arg_ok args →
  skip_space p = concat (append_dsml_arg <$> args) ++ DS4_INVOKE_END ++ rest →
  (length args < fuel)%nat →
  params_loop fuel dsml p acc = Some (foldl add_arg acc args, rest).
Proof.
  revert fuel acc p. induction args as [|a args IH]; intros fuel acc p Hok Hp Hf; (destruct fuel as [|fuel]; [lia|]).
  - cbn [params_loop]. rewrite Hp. cbn [fmap list_fmap concat app invoke_end dsml]. by rewrite strip_prefix_app.
  - apply Forall_cons in Hok as [Ha Hok]. cbn [params_loop]. rewrite Hp. rewrite fmap_cons. cbn [concat]. rewrite <- app_assoc.
    set (next := concat (append_dsml_arg <$> args) ++ DS4_INVOKE_END ++ rest).
    rewrite (strip_other (invoke_end dsml) DS4_PARAM_START _ (drop (length DS4_PARAM_START) (append_dsml_arg a ++ next))).
    2: { intros t u H. discriminate. }
    2: { rewrite append_dsml_arg_eq. unfold arg_tag. rewrite <- !app_assoc. by rewrite drop_app_length. }
    rewrite param_tag_arg by done. rewrite param_value_arg by done.
    apply IH; [done| |simpl in Hf; lia].
    change (skip_space (10 :: next)) with (skip_space next). unfold next.
    destruct args as [|b args]; [done|]. rewrite fmap_cons. cbn [concat]. rewrite <- app_assoc.
    destruct (arg_starts b (concat (append_dsml_arg <$> args) ++ DS4_INVOKE_END ++ rest)) as [r ->]. done.
Qed.

(** ** Calls *)

(** The arguments written for a call: the members of its argument object, or, when
    they are not an object, one string argument with all of the text. *)
Definition call_args (tc : tool_call) : list json_arg :=
  match json_args_parse (tc_arguments tc) with
  | Some args => args
  | None => [JsonArg (bs "arguments") (default [] (tc_arguments tc)) true]
  end.

Definition call_ok (tc : tool_call) : Prop := Forall dsml_arg_ok (call_args tc).

(** The call as it is read: the members in the spelling of the parser. *)
Definition read_call (tc : tool_call) : tool_call :=
  ToolCall None (Some (default [] (tc_name tc)))
    (Some (bs "{" ++ foldl add_arg [] (call_args tc) ++ bs "}")).

Lemma ordered_args_none args : ordered_args args None = args.
Proof.
  unfold ordered_args. cbn [app]. induction args as [|a args IH]; [done|].
  rewrite fmap_cons. rewrite filter_cons_True by done. rewrite fmap_cons. by rewrite IH.
Qed.

Definition call_tag (tc : tool_call) : bytes :=
  DS4_INVOKE_START ++ bs " name=" ++ 34 :: append_dsml_attr_escaped (default [] (tc_name tc)) ++ [34].

Lemma dsml_call_text_eq tc rest :
  dsml_call_text tc ++ rest =
  call_tag tc ++ 62 :: 10 :: concat (append_dsml_arg <$> call_args tc) ++ DS4_INVOKE_END ++ 10 :: rest.
Proof.
  unfold dsml_call_text, call_tag, append_dsml_arguments_from_json, call_args.
  destruct (json_args_parse (tc_arguments tc)) as [args|].
  - rewrite ordered_args_none. repeat (rewrite <- app_assoc || cbn [app]). reflexivity.
  - rewrite fmap_cons, fmap_nil. cbn [concat]. unfold append_dsml_arg. cbn [arg_is_string arg_key arg_value].
    change (append_dsml_attr_escaped (bs "arguments")) with (bs "arguments").
    repeat (rewrite <- app_assoc || cbn [app]). reflexivity.
Qed.

Lemma call_tag_no_gt tc : 62 ∉ call_tag tc.
Proof.
  unfold call_tag. destruct (attr_no_byte (default [] (tc_name tc))) as (_ & H62 & _).
  rewrite !not_elem_of_app, !not_elem_of_cons, !not_elem_of_app. split_and!; try done; byte_free.
Qed.

Lemma call_tag_name tc : dsml_attr (call_tag tc ++ [62]) (bs "name") = Some (default [] (tc_name tc)).
Proof.
  destruct (attr_no_byte (default [] (tc_name tc))) as (H34 & _ & _). unfold call_tag.
  replace ((DS4_INVOKE_START ++ bs " name=" ++ 34 :: append_dsml_attr_escaped (default [] (tc_name tc)) ++ [34]) ++ [62])
    with ((DS4_INVOKE_START ++ [32]) ++ bs "name" ++ [61; 34] ++ append_dsml_attr_escaped (default [] (tc_name tc)) ++ 34 :: [62]).
  2: { repeat (rewrite <- app_assoc || cbn [app]). reflexivity. }
  rewrite attr_here; [by rewrite unescape_attr|byte_free|byte_free|simpl; lia|done].
Qed.

Lemma args_text_length args rest :
  (length args <= length (concat (append_dsml_arg <$> args) ++ rest))%nat.
Proof.
  induction args as [|a args IH]; [simpl; lia|]. rewrite fmap_cons. cbn [concat length]. rewrite <- app_assoc.
  destruct (arg_starts a []) as [r Hr]. rewrite app_nil_r in Hr. rewrite Hr, length_app. cbn [length]. lia.
Qed.

Lemma calls_text_start v rest : ∃ r, concat (dsml_call_text <$> v) ++ DS4_TOOL_CALLS_END ++ rest = 60 :: r.
Proof.
  destruct v as [|tc v]; [eexists; reflexivity|]. rewrite fmap_cons. cbn [concat]. rewrite <- app_assoc, dsml_call_text_eq.
  eexists. reflexivity.
Qed.

Lemma invokes_render v fuel p calls rest : Forall call_ok v →
  skip_space p = concat (dsml_call_text <$> v) ++ DS4_TOOL_CALLS_END ++ rest →
  (length v < fuel)%nat →
  invokes_loop fuel dsml p calls
  = (Some rest, ToolCalls (calls_v calls ++ (read_call <$> v)) (calls_raw_tool_text calls)).
Proof.
  revert fuel p calls. induction v as [|tc v IH]; intros fuel p calls Hok Hp Hf; (destruct fuel as [|fuel]; [lia|]).
  { cbn [invokes_loop]. rewrite Hp. cbn [fmap list_fmap concat app]. cbn [tool_calls_end dsml].
    rewrite strip_prefix_app, app_nil_r. by destruct calls. }
  apply Forall_cons in Hok as [Ha Hok]. cbn [invokes_loop]. rewrite Hp, fmap_cons. cbn [concat]. rewrite <- app_assoc.
  set (next := concat (dsml_call_text <$> v) ++ DS4_TOOL_CALLS_END ++ rest). rewrite dsml_call_text_eq.
  set (inner := concat (append_dsml_arg <$> call_args tc) ++ DS4_INVOKE_END ++ 10 :: next).
  rewrite (strip_other (tool_calls_end dsml) DS4_INVOKE_START _ (drop (length DS4_INVOKE_START) (call_tag tc ++ 62 :: 10 :: inner))).
  2: { intros t u H. discriminate. }
  2: { unfold call_tag. rewrite <- !app_assoc. by rewrite drop_app_length. }
  cbn [invoke_start dsml]. unfold call_tag at 1. rewrite <- !app_assoc, strip_prefix_app.
  rewrite index_of_here by apply call_tag_no_gt.
  change (62 :: 10 :: inner) with ([62] ++ 10 :: inner). rewrite app_assoc.
  assert (Hl : S (length (call_tag tc)) = length (call_tag tc ++ [62])) by (rewrite length_app; simpl; lia).
  rewrite Hl, take_app_length, drop_app_length, call_tag_name.
  rewrite (params_render (call_args tc) _ _ _ (10 :: next)); [|done| |].
  - rewrite (IH fuel (10 :: next)); [|done| |simpl in Hf; lia].
    + rewrite fmap_cons. cbn [tool_calls_push calls_v calls_raw_tool_text]. by rewrite <- app_assoc.
    + change (skip_space (10 :: next)) with (skip_space next). unfold next. by destruct (calls_text_start v rest) as [r ->].
  - change (skip_space (10 :: inner)) with (skip_space inner). unfold inner.
    destruct (call_args tc) as [|a args]; [done|]. rewrite fmap_cons. cbn [concat]. rewrite <- app_assoc.
    by destruct (arg_starts a (concat (append_dsml_arg <$> args) ++ DS4_INVOKE_END ++ 10 :: next)) as [r ->].
  - rewrite length_app. cbn [length]. pose proof (args_text_length (call_args tc) (DS4_INVOKE_END ++ 10 :: next)).
    unfold inner. lia.
Qed.

(** ** The argument object is read back *)

Lemma minify_plain c t : c ≠ 34 → isspace c = false → minify_loop false false (c :: t) = c :: minify_loop false false t.
Proof. intros H Hs. cbn [minify_loop]. destruct (Z.eqb_spec c 34); [done|]. by rewrite Hs. Qed.

Lemma minify_inside h t : Forall (λ x, x ≠ 34 ∧ x ≠ 92) h →
  minify_loop true false (h ++ t) = h ++ minify_loop true false t.
Proof.
  induction 1 as [|x h [H1 H2] _ IH]; [done|]. cbn [app minify_loop].
  destruct (Z.eqb_spec x 92); [done|]. destruct (Z.eqb_spec x 34); [done|]. cbn [negb]. by rewrite IH.
Qed.

Lemma hex4_inside c : Forall (λ x, x ≠ 34 ∧ x ≠ 92) (hex4 c).
Proof.
  apply Forall_fmap, Forall_true. intros sh. unfold compose. change 15 with (Z.ones 4). rewrite Z.land_ones by lia.
  pose proof (Z.mod_pos_bound (Z.shiftr c sh) (2 ^ 4) ltac:(lia)) as Hm.
  assert (Hd : Forall (λ x, x ≠ 34 ∧ x ≠ 92) (bs "0123456789abcdef")) by (apply (bool_decide_eq_true_1 _); vm_compute; reflexivity).
  apply (proj1 (List.Forall_forall _ _) Hd), nth_In. change (length (bs "0123456789abcdef")) with 16%nat. lia.
Qed.

Lemma minify_escape_char c t : minify_loop true false (escape_char c ++ t) = escape_char c ++ minify_loop true false t.
Proof.
  unfold escape_char. repeat case_if; bool_to_prop; try reflexivity.
  - rewrite <- app_assoc. cbn [app minify_loop Z.eqb Pos.eqb]. by rewrite minify_inside by apply hex4_inside.
  - apply minify_inside. repeat constructor; lia.
Qed.

Lemma minify_escape k t : minify_loop false false (json_escape k ++ t) = json_escape k ++ minify_loop false false t.
Proof.
  unfold json_escape. cbn [app minify_loop Z.eqb Pos.eqb]. f_equal. rewrite <- !app_assoc. cbn [app].
  induction k as [|c k IH]; [done|]. cbn [mbind list_bind]. rewrite <- !app_assoc.
  by rewrite minify_escape_char, IH.
Qed.

(** A printed value has no white space to remove. *)
Definition minifies (b : bytes) : Prop := ∀ t, minify_loop false false (b ++ t) = b ++ minify_loop false false t.

Lemma minifies_join close items : close ≠ 34 → isspace close = false → Forall minifies items →
  minifies (join_close close items).
Proof.
  intros Hc Hs H. induction H as [|x items Hx Hi IH]; intros t.
  - by apply minify_plain.
  - destruct items as [|y items].
    + cbn [join_close]. rewrite <- !app_assoc, Hx. cbn [app]. by rewrite minify_plain.
    + cbn [join_close] in *. rewrite <- !app_assoc, Hx. cbn [app]. rewrite minify_plain by done. by rewrite (IH t).
Qed.

Lemma minifies_number d : Forall (λ c, 43 <= c <= 101) d → minifies d.
Proof.
  induction 1 as [|c d Hc _ IH]; intros t; [done|]. cbn [app].
  rewrite minify_plain; [by rewrite IH|lia|unfold isspace; lia].
Qed.

Lemma jprint_minifies v : json_ok v → minifies (jprint v).
Proof.
  induction v as [|b|neg dg|str|l IH|l IH] using json_nested_ind; intros Hok; inversion Hok as
    [| |? ? Hdg%num_text_chars|? [Hb Hn]|? Hl|? Hl]; subst; intros t.
  - done.
  - by destruct b.
  - cbn [jprint]. rewrite <- !app_assoc. destruct neg; cbn [app]; [rewrite minify_plain by done|]; by rewrite minifies_number.
  - apply minify_escape.
  - cbn [jprint app]. rewrite minify_plain by done. rewrite (minifies_join 93); try done. apply Forall_fmap.
    clear Hok. induction IH as [|v l Hv _ IHl]; [constructor|]. apply Forall_cons in Hl as [? ?]. constructor; [by apply Hv|auto].
  - cbn [jprint app]. rewrite minify_plain by done. rewrite (minifies_join 125); try done. apply Forall_fmap.
    clear Hok. induction IH as [|kv l Hv _ IHl]; [constructor|]. apply Forall_cons in Hl as [[Hk Hv'] ?].
    constructor; [|by apply IHl]. intros u. rewrite <- !app_assoc, minify_escape. cbn [app].
    rewrite minify_plain by done. by rewrite Hv.
Qed.

(** The values the arguments of a call can have: a string, or the text of a JSON
    value that is not one, nested at most as deep as the reader goes. *)
Definition value_ok (a : json_arg) : Prop :=
  str_ok (arg_key a) ∧
  if arg_is_string a then str_ok (arg_value a)
  else hd0 (arg_value a) ≠ 34 ∧ ∃ j, arg_value a = jprint j ∧ json_ok j ∧ jdepth j <= 256.

Definition pair_text (a : json_arg) : bytes :=
  json_escape (arg_key a) ++ bs ": " ++ (if arg_is_string a then json_escape (arg_value a) else arg_value a).

Lemma minify_print j : json_ok j → jdepth j <= 256 → json_minify_raw_value (Some (jprint j)) = jprint j.
Proof.
  intros Hok Hd. unfold json_minify_raw_value. cbn [from_option id]. cbn zeta.
  destruct (jprint_head j Hok) as (c & r & Hc & Hsp & _).
  assert (json_ws (jprint j) = jprint j) as -> by (rewrite Hc; by apply json_ws_stop).
  destruct (skip_raw_print j [] Hok I) as [H _]. rewrite app_nil_r in H. rewrite H.
  destruct (Z.leb_spec (jdepth j) 256); [|lia]. unfold span. cbn [length]. rewrite Nat.sub_0_r, take_ge by lia.
  pose proof (jprint_minifies j Hok []) as Hm. by rewrite !app_nil_r in Hm.
Qed.

Lemma add_arg_eq acc a : value_ok a →
  add_arg acc a = acc ++ (match acc with [] => [] | _ => bs ", " end) ++ pair_text a.
Proof.
  intros [_ Hv]. unfold add_arg, tool_call_json_args_add, pair_text, arg_type.
  destruct (arg_is_string a).
  - by change (bytes_eqb (bs "true") (bs "true")) with true.
  - change (bytes_eqb (bs "false") (bs "true")) with false. cbv iota. do 4 f_equal.
    destruct Hv as (_ & j & Hj & Hok & Hd). rewrite Hj, minify_print by done.
    by destruct (jprint_head j Hok) as (c & r & -> & _).
Qed.

(** The members after the first, each behind its comma. *)
Definition more_pairs (args : list json_arg) : bytes := concat ((λ a, bs ", " ++ pair_text a) <$> args).

Lemma pair_nonempty a : pair_text a ≠ [].
Proof. unfold pair_text, json_escape. done. Qed.

Lemma foldl_add_arg acc args : acc ≠ [] → Forall value_ok args → foldl add_arg acc args = acc ++ more_pairs args.
Proof.
  revert acc. induction args as [|a args IH]; intros acc Hacc Hok; [by rewrite app_nil_r|].
  apply Forall_cons in Hok as [Ha Hok]. cbn [foldl]. rewrite add_arg_eq by done.
  destruct acc as [|x acc]; [done|]. rewrite IH; [|done|done].
  unfold more_pairs. rewrite fmap_cons. cbn [concat]. by rewrite <- !app_assoc.
Qed.

Lemma args_field_pair a acc tail : value_ok a → value_end tail → tail ≠ [] →
  json_args_field (arg_key a) acc (32 :: (if arg_is_string a then json_escape (arg_value a) else arg_value a) ++ tail)
  = Some (acc ++ [a], tail).
Proof.
  intros [_ Hv] Hend Hne. unfold json_args_field. destruct a as [k v []]; cbn [arg_is_string arg_value arg_key] in *.
  - change (json_ws (32 :: json_escape v ++ tail)) with (json_ws (json_escape v ++ tail)).
    rewrite escape_ws, escape_hd. cbn [Z.eqb Pos.eqb]. destruct Hv as [Hb Hn]. by rewrite json_string_escape.
  - destruct Hv as (H34 & j & -> & Hok & Hd). change (json_ws (32 :: jprint j ++ tail)) with (json_ws (jprint j ++ tail)).
    assert (json_ws (jprint j ++ tail) = jprint j ++ tail) as ->.
    { destruct (jprint_head j Hok) as (c & r & -> & Hsp & _). cbn [app]. by apply json_ws_stop. }
    assert ((hd0 (jprint j ++ tail) =? 34) = false) as ->.
    { destruct (jprint_head j Hok) as (c & r & Hc & _). rewrite Hc in *. cbn [app hd0] in *. by apply Z.eqb_neq. }
    destruct (skip_raw_print j tail Hok Hend) as [_ ->]. destruct (Z.leb_spec (jdepth j) 256); [|lia].
    cbn [mbind option_bind]. by rewrite minify_print.
Qed.

Lemma args_loop_pairs a args acc fuel : Forall value_ok (a :: args) → (length args + 1 < fuel)%nat →
  obj_loop json_args_field fuel acc (pair_text a ++ more_pairs args ++ bs "}") = Some (acc ++ a :: args, []).
Proof.
  revert a acc fuel. induction args as [|b args IH]; intros a acc fuel Hok Hf;
    apply Forall_cons in Hok as [Ha Hok]; (destruct fuel as [|fuel]; [simpl in Hf; lia|]).
  - unfold pair_text. rewrite <- !app_assoc. cbn [app]. change (bs ": " ++ ?x) with (58 :: 32 :: x).
    rewrite (obj_loop_member _ _ _ _ _ (acc ++ [a]) (bs "}")).
    + destruct fuel; [simpl in Hf; lia|]. reflexivity.
    + apply Ha.
    + apply args_field_pair; [done|right; right; by left|done].
  - unfold more_pairs. rewrite fmap_cons. cbn [concat]. fold (more_pairs args).
    unfold pair_text at 1. rewrite <- !app_assoc. change (bs ": " ++ ?x) with (58 :: 32 :: x).
    rewrite (obj_loop_member _ _ _ _ _ (acc ++ [a]) (bs ", " ++ pair_text b ++ more_pairs args ++ bs "}")).
    + assert (skip_comma (bs ", " ++ pair_text b ++ more_pairs args ++ bs "}") = pair_text b ++ more_pairs args ++ bs "}") as ->.
      { unfold skip_comma. change (bs ", " ++ ?x) with (44 :: 32 :: x). rewrite json_ws_stop by done. cbn [hd0 tl0 Z.eqb Pos.eqb].
        change (json_ws (32 :: ?x)) with (json_ws x). unfold pair_text. rewrite <- !app_assoc. apply escape_ws. }
      rewrite IH; [by rewrite <- app_assoc|done|simpl in Hf; lia].
    + apply Ha.
    + apply args_field_pair; [done|by left|done].
Qed.

Lemma args_read_back args : Forall value_ok args →
  json_args_parse (Some (bs "{" ++ foldl add_arg [] args ++ bs "}")) = Some args.
Proof.
  intros Hok. unfold json_args_parse. cbn [from_option id]. destruct args as [|a args]; [reflexivity|].
  pose proof Hok as Hok'. apply Forall_cons in Hok as [Ha Hok]. cbn [foldl]. rewrite add_arg_eq by done. cbn [app].
  rewrite foldl_add_arg by (done || apply pair_nonempty). rewrite <- app_assoc.
  change (bs "{" ++ ?x) with (123 :: x). rewrite json_ws_stop by done. unfold json_object. cbn [hd0 tl0 Z.eqb Pos.eqb negb].
  assert (json_ws (pair_text a ++ more_pairs args ++ bs "}") = pair_text a ++ more_pairs args ++ bs "}") as ->.
  { unfold pair_text. rewrite <- !app_assoc. apply escape_ws. }
  rewrite args_loop_pairs; [done|done|].
  rewrite !length_app. assert (length args <= length (more_pairs args))%nat; [|pose proof (pair_nonempty a); destruct (pair_text a); [done|simpl; lia]].
  clear. unfold more_pairs. induction args as [|b args IH]; [simpl; lia|]. rewrite fmap_cons. cbn [concat length].
  rewrite !length_app. change (length (bs ", ")) with 2%nat. lia.
Qed.

(** ** The message *)

Lemma trim_app a b n : (n <= length a)%nat → trim_tool_separator_ws (a ++ b) 0 n = trim_tool_separator_ws a 0 n.
Proof.
  induction n as [|n IH]; intros Hn; [done|]. cbn [trim_tool_separator_ws].
  rewrite byte_at_app_l by lia. rewrite IH by lia. done.
Qed.

Lemma split_no_tag t n : 60 ∉ t → (n <= length t)%nat → ∀ b, split_reasoning_content (t ++ b) n = (Some (take n t), None).
Proof.
  intros H60 Hn b. unfold split_reasoning_content. rewrite take_app_le by done.
  assert (Hx : 60 ∉ take n t). { intros Hin. apply H60. apply (subseteq_take n t). done. }
  assert (strip_prefix (bs "<think>") (take n t) = None) as ->.
  { destruct (strip_prefix _ _) eqn:E; [|done]. apply strip_prefix_Some in E. rewrite E in Hx. destruct Hx. left. }
  destruct (strstr (take n t) (bs "</think>")) as [i|] eqn:E; [|done].
  apply strstr_occurs in E as [(pre & post & Hp & _)%occurs_split _]. rewrite Hp in Hx. destruct Hx.
  apply elem_of_app. right. left.
Qed.

Definition dsml_block (v : list tool_call) : bytes :=
  [10; 10] ++ DS4_TOOL_CALLS_START ++ [10] ++ concat (dsml_call_text <$> v) ++ DS4_TOOL_CALLS_END.

Lemma find_block_here content rest : 60 ∉ content →
  find_tool_block (content ++ [10; 10] ++ DS4_TOOL_CALLS_START ++ rest) = Some (length content, dsml).
Proof.
  intros H. unfold find_tool_block, dsml_syntaxes. cbn [foldl tool_calls_start].
  assert (strstr (content ++ [10; 10] ++ DS4_TOOL_CALLS_START ++ rest) ([10; 10] ++ DS4_TOOL_CALLS_START)
          = Some (length content)) as ->; [|done].
  pose proof (strstr_unique content [10; 10] 60 (tl0 DS4_TOOL_CALLS_START) rest H) as Hs.
  change ([10; 10] ++ 60 :: tl0 DS4_TOOL_CALLS_START) with ([10; 10] ++ DS4_TOOL_CALLS_START) in Hs.
  rewrite <- (app_assoc [10; 10]) in Hs. apply Hs. byte_free.
Qed.

Lemma calls_text_length v rest : (length v <= length (concat (dsml_call_text <$> v) ++ rest))%nat.
Proof.
  induction v as [|tc v IH]; [simpl; lia|]. rewrite fmap_cons. cbn [concat length]. rewrite <- app_assoc.
  assert (Hs : dsml_call_text tc ≠ []).
  { pose proof (dsml_call_text_eq tc []) as H. rewrite app_nil_r in H. rewrite H. unfold call_tag. done. }
  rewrite length_app. destruct (dsml_call_text tc); [done|]. cbn [length]. lia.
Qed.

Lemma read_call_args tc : Forall value_ok (call_args tc) → call_args (read_call tc) = call_args tc.
Proof. intros H. unfold call_args at 1, read_call. cbn [tc_arguments]. by rewrite args_read_back. Qed.

(** What a message needs so that its calls survive the trip. *)
Definition message_ok (content : bytes) (v : list tool_call) : Prop :=
  60 ∉ content ∧ v ≠ [] ∧ Forall call_ok v ∧ Forall (λ tc, Forall value_ok (call_args tc)) v.



(** ** Where the trip fails *)

(** A message with thinking whose tool call has one string argument. *)
Definition thinking_call (value : bytes) : bytes :=
  bs "plan</think>" ++ append_dsml_tool_calls_text
    (ToolCalls [ToolCall None (Some (bs "f")) (Some (bs "{" ++ json_escape (bs "k") ++ bs ":" ++ json_escape value ++ bs "}"))] None).

(** A tool argument that mentions the closing thinking tag hides its tool call:
    with thinking required to be closed, the parser starts its search after the last
    [</think>] of the text, which is the one inside the argument, finds no block and
    reports success with no calls and the markup as content. Without the tag in the
    argument the same message gives its call. *)
Theorem think_tag_in_argument_hides_call :
  match parse_deepseek_generated_message_ex (Some (thinking_call (bs "say </think> now"))) true tool_calls_zero with
  | (Some (Some content, Some reasoning), calls) =>
      reasoning = bs "plan" ∧ calls_v calls = [] ∧ find_any_tool_start content = Some 2%nat
  | _ => False
  end
  ∧ match parse_deepseek_generated_message_ex (Some (thinking_call (bs "say now"))) true tool_calls_zero with
    | (Some (Some content, Some reasoning), calls) =>
        reasoning = bs "plan" ∧ content = [] ∧ (tc_name <$> calls_v calls) = [Some (bs "f")]
    | _ => False
    end.
Proof. split; vm_compute; repeat split. Qed.

(** The GLM renderer breaks only the closing tag of the argument it writes, and
    the parser bounds a call by the first [</tool_call>]: a call whose argument
    holds that tag is rendered as text the parser rejects. *)
Theorem glm_close_tag_in_argument_rejected :
  let tc := ToolCall None (Some (bs "f"))
    (Some (bs "{" ++ json_escape (bs "k") ++ bs ":" ++ json_escape (bs "a</tool_call>b") ++ bs "}")) in
  (parse_glm_generated_message_ex (Some (append_glm_tool_calls_text (ToolCalls [tc] None) [])) false tool_calls_zero).1 = None.
Proof. vm_compute. reflexivity. Qed.

(** The renderer does not escape [&] in a string argument while the parser
    decodes every entity: an argument that is the text of an entity comes back as the
    character it names. *)
Theorem entity_in_argument_decoded :
  let tc := ToolCall None (Some (bs "f"))
    (Some (bs "{" ++ json_escape (bs "k") ++ bs ":" ++ json_escape (bs "a &lt; b") ++ bs "}")) in
  (json_args_parse ∘ tc_arguments) <$>
    calls_v (parse_deepseek_generated_message_ex
      (Some (append_dsml_tool_calls_text (ToolCalls [tc] None))) false tool_calls_zero).2
  = [Some [JsonArg (bs "k") (bs "a < b") true]].
Proof. vm_compute. reflexivity. Qed.
