(* ===== verification/ToolRepair.v ===== *)
(** * The repair of truncated markup

    The theorem about [try_repair_dsml] of [ToolText]: it only appends, and what it
    appends closes exactly the tags that were open, so that a second repair has
    nothing to do. *)
From S2P Require Import Prelude CLib Json JsonProps JsonSafe Request RequestProps Stream StreamProps Dsml DsmlText ToolText.

(** ** Tags do not straddle *)

(** A tag has its [<] only in front; a text that can follow begins with one. *)
Definition tagb (t : bytes) : bool :=
  match t with 60 :: e => negb (existsb (Z.eqb 60) e) | _ => false end.
Definition open_or_nil (t : bytes) : Prop := t = [] ∨ ∃ r, t = 60 :: r.

Lemma tagb_shape t : tagb t = true → ∃ e, t = 60 :: e ∧ 60 ∉ e.
Proof.
  destruct t as [|c e]; [done|]. unfold tagb. intros H.
  assert (c = 60) as -> by (destruct (Z.eqb_spec c 60); [done|]; repeat (destruct c as [|c|c]; try done)).
  exists e. split; [done|]. intros Hin. apply negb_true_iff in H.
  rewrite (proj2 (existsb_exists _ _)) in H; [done|]. exists 60. split; [by apply list_elem_of_In|done].
Qed.

Lemma strip_no_straddle tag p t : tagb tag = true → p ≠ [] → open_or_nil t →
  strip_prefix tag (p ++ t) = (λ r, r ++ t) <$> strip_prefix tag p.
Proof.
  intros (e & -> & He)%tagb_shape Hp Ht.
  destruct (strip_prefix (60 :: e) p) as [r|] eqn:E.
  { apply strip_prefix_Some in E as ->. rewrite <- app_assoc. by rewrite strip_prefix_app. }
  destruct (strip_prefix (60 :: e) (p ++ t)) as [r|] eqn:E'; [|done]. exfalso.
  apply strip_prefix_Some in E'. destruct p as [|c p]; [done|]. injection E' as -> E'.
  destruct (Nat.le_gt_cases (length e) (length p)) as [Hl|Hl].
  - assert (p = e ++ drop (length e) p) as Hpe.
    { apply (f_equal (take (length e))) in E'. rewrite take_app_length, take_app_le in E' by done.
      rewrite <- E' at 1. by rewrite take_drop. }
    rewrite Hpe in E. change (60 :: e ++ ?x) with ((60 :: e) ++ x) in E. by rewrite strip_prefix_app in E.
  - destruct Ht as [->|[x ->]].
    + apply (f_equal length) in E'. rewrite !length_app in E'. simpl in E'. lia.
    + apply He. apply (f_equal (λ l, nth (length p) l 0)) in E'.
      rewrite app_nth2, Nat.sub_diag, app_nth1 in E' by lia. cbn [nth] in E'. rewrite E'.
      by apply list_elem_of_In, nth_In.
Qed.

Lemma strstr_no_straddle tag p t : tagb tag = true → open_or_nil t →
  strstr p tag = None → strstr t tag = None → strstr (p ++ t) tag = None.
Proof.
  intros Htag Ht Hp Ht'. induction p as [|c p IH]; [done|]. cbn [strstr] in Hp.
  destruct (strip_prefix tag (c :: p)) eqn:E; [done|]. destruct (strstr p tag); [done|].
  cbn [app strstr]. change (c :: p ++ t) with ((c :: p) ++ t). rewrite strip_no_straddle, E by done. cbn [fmap option_fmap option_map].
  by rewrite IH.
Qed.

Lemma find_last_none t tag : strstr t tag = None → find_last_substr t tag = None.
Proof.
  induction t as [|c t IH]; [done|]. cbn [strstr find_last_substr]. destruct (strip_prefix tag (c :: t)); [done|].
  destruct (strstr t tag); [done|]. intros _. rewrite IH by done. by destruct tag.
Qed.

Lemma find_last_no_straddle tag p t : tagb tag = true → open_or_nil t → strstr t tag = None →
  find_last_substr (p ++ t) tag = find_last_substr p tag.
Proof.
  intros Htag Ht Hn. induction p as [|c p IH]; [by apply find_last_none|].
  cbn [app find_last_substr]. rewrite IH. change (c :: p ++ t) with ((c :: p) ++ t).
  rewrite strip_no_straddle by done. destruct tag; [done|]. destruct (find_last_substr p _); [done|].
  by destruct (strip_prefix _ (c :: p)).
Qed.

Lemma find_last_bound t tag i : find_last_substr t tag = Some i → (i + length tag <= length t)%nat.
Proof.
  revert i. induction t as [|c t IH]; intros i H; [done|]. cbn [find_last_substr] in H.
  destruct tag as [|a tag]; [done|]. destruct (find_last_substr t (a :: tag)) as [j|].
  - injection H as <-. specialize (IH j eq_refl). simpl in *. lia.
  - destruct (strip_prefix (a :: tag) (c :: t)) eqn:E; [|done]. injection H as <-.
    apply strip_prefix_len in E. simpl in *. lia.
Qed.

Lemma strstr_some_app p t tag i : strstr p tag = Some i → ∃ j, strstr (p ++ t) tag = Some j.
Proof.
  intros [Ho _]%strstr_occurs. destruct (strstr (p ++ t) tag) eqn:E; [by eexists|].
  by destruct (strstr_none_occurs _ _ i E); apply occurs_more.
Qed.

(** ** Counting *)

Definition all_tags (syn : dsml_syntax) : list bytes :=
  [tool_calls_start syn; tool_calls_end syn; invoke_start syn; invoke_end syn; param_start syn; param_end syn].

Lemma syntaxes_tags syn : syn ∈ dsml_syntaxes → Forall (λ t, tagb t = true) (all_tags syn).
Proof.
  intros H. apply list_elem_of_In in H. destruct H as [<-|[<-|[<-|[]]]];
    repeat (apply List.Forall_cons; [vm_compute; reflexivity|]); apply List.Forall_nil.
Qed.

Lemma tagb_nonempty t : tagb t = true → t ≠ [].
Proof. by destruct t. Qed.

Lemma count_app syn f p t n : syn ∈ dsml_syntaxes → open_or_nil t → (length (p ++ t) <= f)%nat →
  count_tags f syn (p ++ t) n = count_tags (length t) syn t (count_tags (length p) syn p n).
Proof.
  intros Hin Ht. pose proof (syntaxes_tags syn Hin) as Htags.
  assert (Hfuel : ∀ f1 f2 q m, (length q <= f1)%nat → (length q <= f2)%nat →
    count_tags f1 syn q m = count_tags f2 syn q m).
  { intros. apply count_tags_fuel; try done. eapply Forall_impl; [exact Htags|]. apply tagb_nonempty. }
  unfold all_tags in Htags. rewrite !Forall_cons in Htags.
  destruct Htags as (T1 & T2 & T3 & T4 & T5 & T6 & _).
  revert p n. induction f as [|f IH]; intros p n Hf.
  { destruct p, t; try done; simpl in Hf; lia. }
  destruct p as [|c p]; [change (count_tags (length []) syn [] n) with n; by apply Hfuel|].
  cbn [app count_tags length]. change (c :: p ++ t) with ((c :: p) ++ t).
  rewrite !strip_no_straddle by done.
  repeat match goal with
    | H : tagb ?tag = true |- context [strip_prefix ?tag (c :: p)] =>
        let E := fresh "E" in
        destruct (strip_prefix tag (c :: p)) as [q|] eqn:E; cbn [fmap option_fmap option_map];
        [apply strip_prefix_len in E; apply tagb_nonempty in H;
         assert (0 < length tag)%nat by (destruct tag; [done|simpl; lia]);
         rewrite length_app in Hf; cbn [length] in *;
         rewrite IH by (rewrite length_app; lia); f_equal; apply Hfuel; lia|]
    end.
  cbn [app length] in Hf. rewrite IH by lia. done.
Qed.

(** [k] copies of a tag. *)
Definition copies (k : nat) (tag : bytes) : bytes := concat (replicate k tag).

Lemma copies_open k tag t : tagb tag = true → open_or_nil t → open_or_nil (copies k tag ++ t).
Proof.
  intros (e & -> & _)%tagb_shape Ht. destruct k; [done|]. right. eexists. unfold copies. reflexivity.
Qed.

Lemma copies_absent k tag x : tagb tag = true → tagb x = true → strstr tag x = None → strstr (copies k tag) x = None.
Proof.
  intros Ht Hx Hn. induction k as [|k IH]; [destruct (tagb_shape x Hx) as (e & -> & _); done|].
  unfold copies in *. cbn [replicate concat]. apply strstr_no_straddle; [done| |done|done].
  pose proof (copies_open k tag [] Ht (or_introl eq_refl)) as H. by rewrite app_nil_r in H.
Qed.

(** One end tag is counted once. *)
Lemma count_one syn n : syn ∈ dsml_syntaxes →
  count_tags (length (param_end syn)) syn (param_end syn) n
    = TagCounts (tos n) (toe n) (ios n) (ioe n) (pos_ n) (S (poe n))
  ∧ count_tags (length (invoke_end syn)) syn (invoke_end syn) n
    = TagCounts (tos n) (toe n) (ios n) (S (ioe n)) (pos_ n) (poe n)
  ∧ count_tags (length (tool_calls_end syn)) syn (tool_calls_end syn) n
    = TagCounts (tos n) (S (toe n)) (ios n) (ioe n) (pos_ n) (poe n).
Proof.
  intros H. apply list_elem_of_In in H. destruct H as [<-|[<-|[<-|[]]]]; repeat split; vm_compute; reflexivity.
Qed.

Lemma count_copies syn tag (bump : nat → tag_counts → tag_counts) k : syn ∈ dsml_syntaxes → tagb tag = true →
  (∀ n, bump 0%nat n = n) → (∀ i n, bump i (bump 1%nat n) = bump (S i) n) →
  (∀ n, count_tags (length tag) syn tag n = bump 1%nat n) →
  ∀ n, count_tags (length (copies k tag)) syn (copies k tag) n = bump k n.
Proof.
  intros Hin Htag H0 HS H1. induction k as [|k IH]; intros n; [by rewrite H0|].
  change (copies (S k) tag) with (tag ++ copies k tag).
  pose proof (copies_open k tag [] Htag (or_introl eq_refl)) as Ho. rewrite app_nil_r in Ho.
  rewrite count_app by done. by rewrite H1, IH, HS.
Qed.

(** What is appended to close the open tags of [n]. *)
Definition closers (syn : dsml_syntax) (n : tag_counts) : bytes :=
  copies (pos_ n - poe n) (param_end syn) ++ copies (ios n - ioe n) (invoke_end syn)
  ++ copies (tos n - toe n) (tool_calls_end syn).

Lemma end_tags_tagb syn : syn ∈ dsml_syntaxes →
  tagb (param_end syn) = true ∧ tagb (invoke_end syn) = true ∧ tagb (tool_calls_end syn) = true.
Proof.
  intros H%syntaxes_tags. unfold all_tags in H. rewrite !Forall_cons in H.
  destruct H as (_ & H1 & _ & H2 & _ & H3 & _). done.
Qed.

Lemma closers_open syn n : syn ∈ dsml_syntaxes → open_or_nil (closers syn n).
Proof.
  intros (H1 & H2 & H3)%end_tags_tagb. unfold closers. apply copies_open; [done|]. apply copies_open; [done|].
  pose proof (copies_open (tos n - toe n) _ [] H3 (or_introl eq_refl)) as H. by rewrite app_nil_r in H.
Qed.

(** The end tags hold neither a start tag of a block nor the closing thinking tag. *)
Lemma closers_absent syn n x : syn ∈ dsml_syntaxes → x ∈ bs "</think>" :: (tool_calls_start <$> dsml_syntaxes) →
  strstr (closers syn n) x = None.
Proof.
  intros Hin Hx. destruct (end_tags_tagb syn Hin) as (H1 & H2 & H3).
  assert (Hok : tagb x = true ∧ strstr (param_end syn) x = None ∧ strstr (invoke_end syn) x = None
                ∧ strstr (tool_calls_end syn) x = None).
  { apply list_elem_of_In in Hin, Hx. cbn in Hx.
    destruct Hin as [<-|[<-|[<-|[]]]]; destruct Hx as [<-|[<-|[<-|[<-|[]]]]]; vm_compute; repeat split. }
  destruct Hok as (Htx & N1 & N2 & N3). unfold closers.
  apply strstr_no_straddle; [done| |by apply copies_absent|].
  - apply copies_open; [done|]. pose proof (copies_open (tos n - toe n) _ [] H3 (or_introl eq_refl)) as H.
    by rewrite app_nil_r in H.
  - apply strstr_no_straddle; [done| |by apply copies_absent|by apply copies_absent].
    pose proof (copies_open (tos n - toe n) _ [] H3 (or_introl eq_refl)) as H. by rewrite app_nil_r in H.
Qed.

Lemma count_closers syn n m : syn ∈ dsml_syntaxes →
  count_tags (length (closers syn n)) syn (closers syn n) m
  = TagCounts (tos m) (toe m + (tos n - toe n)) (ios m) (ioe m + (ios n - ioe n)) (pos_ m) (poe m + (pos_ n - poe n)).
Proof.
  intros Hin. destruct (end_tags_tagb syn Hin) as (H1 & H2 & H3). unfold closers.
  pose proof (copies_open (tos n - toe n) _ [] H3 (or_introl eq_refl)) as Ho3. rewrite app_nil_r in Ho3.
  rewrite count_app; [|done|by apply copies_open|lia].
  rewrite count_app; [|done|done|lia].
  rewrite (count_copies syn (param_end syn) (λ i m, TagCounts (tos m) (toe m) (ios m) (ioe m) (pos_ m) (poe m + i)));
    [|done|done|..].
  2: { intros [] ; cbn. by rewrite Nat.add_0_r. }
  2: { intros i [] ; cbn. f_equal. lia. }
  2: { intros m0. destruct (count_one syn m0 Hin) as [-> _]. destruct m0; cbn. f_equal. lia. }
  rewrite (count_copies syn (invoke_end syn) (λ i m, TagCounts (tos m) (toe m) (ios m) (ioe m + i) (pos_ m) (poe m)));
    [|done|done|..].
  2: { intros [] ; cbn. by rewrite Nat.add_0_r. }
  2: { intros i [] ; cbn. f_equal. lia. }
  2: { intros m0. destruct (count_one syn m0 Hin) as (_ & -> & _). destruct m0; cbn. f_equal. lia. }
  rewrite (count_copies syn (tool_calls_end syn) (λ i m, TagCounts (tos m) (toe m + i) (ios m) (ioe m) (pos_ m) (poe m)));
    [done|done|done|..].
  - intros [] ; cbn. by rewrite Nat.add_0_r.
  - intros i [] ; cbn. f_equal. lia.
  - intros m0. destruct (count_one syn m0 Hin) as (_ & _ & ->). destruct m0; cbn. f_equal. lia.
Qed.

Lemma repair_syntax_app l p t syn : Forall (λ s, tagb (tool_calls_start s) = true) l →
  Forall (λ s, strstr t (tool_calls_start s) = None) l → open_or_nil t →
  repair_syntax l p = Some syn → repair_syntax l (p ++ t) = Some syn ∧ syn ∈ l.
Proof.
  intros Htag Hn Ht. induction l as [|s l IH]; [done|]. cbn [repair_syntax].
  apply Forall_cons in Htag as [? ?], Hn as [? ?].
  destruct (strstr p (tool_calls_start s)) as [i|] eqn:E.
  - intros [= ->]. destruct (strstr_some_app p t _ _ E) as [j ->]. split; [done|left].
  - intros H'. rewrite strstr_no_straddle by done. destruct (IH ltac:(done) ltac:(done) H') as [-> ?]. split; [done|by right].
Qed.

(** The part of the text that is scanned. *)
Definition scanned (s : bytes) : bytes :=
  match find_last_substr s (bs "</think>") with Some e => drop (e + 8) s | None => s end.

Lemma scanned_app s t : open_or_nil t → strstr t (bs "</think>") = None → scanned (s ++ t) = scanned s ++ t.
Proof.
  intros Ht Hn. unfold scanned. rewrite find_last_no_straddle by done.
  destruct (find_last_substr s (bs "</think>")) as [e|] eqn:E; [|done].
  apply find_last_bound in E. change (length (bs "</think>")) with 8%nat in E. by rewrite drop_app_le by lia.
Qed.

(** The repair of a truncated tool call appends end tags and nothing else, and
    it is complete: in the repaired text every kind of tag is closed as often as it
    is opened, and a second repair finds nothing to do. *)
Theorem repair_balances s out (Hout : try_repair_dsml s = Some out) :
  ∃ syn t, syn ∈ dsml_syntaxes ∧ out = s ++ t
    ∧ (let n := count_tags (length (scanned out)) syn (scanned out) (TagCounts 0 0 0 0 0 0) in
       tos n = toe n ∧ ios n = ioe n ∧ pos_ n = poe n)
    ∧ try_repair_dsml out = None.
Proof.
  unfold try_repair_dsml in Hout. destruct s as [|c s]; [done|]. fold (scanned (c :: s)) in Hout.
  destruct (repair_syntax dsml_syntaxes (scanned (c :: s))) as [syn|] eqn:Er; [|done].
  set (n := count_tags _ syn (scanned (c :: s)) _) in Hout.
  destruct (_ && _) eqn:Ebal; [done|]. destruct (_ || _) eqn:Elt; [done|].
  assert (out = (c :: s) ++ closers syn n) as -> by (injection Hout as <-; reflexivity). clear Hout.
  apply orb_false_iff in Elt as [[L1 L2]%orb_false_iff L3].
  apply Nat.ltb_ge in L1, L2, L3.
  assert (Htags : Forall (λ s, tagb (tool_calls_start s) = true) dsml_syntaxes).
  { repeat (apply List.Forall_cons; [vm_compute; reflexivity|]); apply List.Forall_nil. }
  assert (Hin : syn ∈ dsml_syntaxes).
  { eapply (repair_syntax_app dsml_syntaxes _ [] syn Htags); [|by left|exact Er].
    repeat (apply List.Forall_cons; [vm_compute; reflexivity|]); apply List.Forall_nil. }
  pose proof (closers_open syn n Hin) as Ho.
  assert (Hscan : scanned ((c :: s) ++ closers syn n) = scanned (c :: s) ++ closers syn n).
  { apply scanned_app; [done|]. apply closers_absent; [done|left]. }
  assert (Hcount : count_tags (length (scanned ((c :: s) ++ closers syn n))) syn (scanned ((c :: s) ++ closers syn n))
      (TagCounts 0 0 0 0 0 0) = TagCounts (tos n) (tos n) (ios n) (ios n) (pos_ n) (pos_ n)).
  { rewrite Hscan, count_app by done. fold n. rewrite count_closers by done. f_equal; lia. }
  exists syn, (closers syn n). split_and!; [done|done|by rewrite Hcount|].
  unfold try_repair_dsml. cbn [app]. change (c :: s ++ closers syn n) with ((c :: s) ++ closers syn n).
  fold (scanned ((c :: s) ++ closers syn n)).
  assert (repair_syntax dsml_syntaxes (scanned ((c :: s) ++ closers syn n)) = Some syn) as ->.
  { rewrite Hscan. apply repair_syntax_app; [done| |done|done]. apply Forall_forall. intros x Hx.
    apply closers_absent; [done|]. right. by apply list_elem_of_fmap_2. }
  rewrite Hcount. cbn [tos toe ios ioe pos_ poe]. by rewrite !Nat.eqb_refl.
Qed.

(** Witness: a call cut inside its parameter. *)
Lemma repair_balances_witness :
  ∃ syn t, syn ∈ dsml_syntaxes
    ∧ bs "<tool_calls><invoke x><parameter y>v</parameter></invoke></tool_calls>"
      = bs "<tool_calls><invoke x><parameter y>v" ++ t
    ∧ (let n := count_tags 70 syn
          (scanned (bs "<tool_calls><invoke x><parameter y>v</parameter></invoke></tool_calls>")) (TagCounts 0 0 0 0 0 0) in
       tos n = toe n ∧ ios n = ioe n ∧ pos_ n = poe n)
    ∧ try_repair_dsml (bs "<tool_calls><invoke x><parameter y>v</parameter></invoke></tool_calls>") = None.
Proof.
  apply (repair_balances (bs "<tool_calls><invoke x><parameter y>v")).
  vm_compute. reflexivity.
Defined.
