(* ===== verification/GlmRoundTrip.v ===== *)
(** * The GLM markup the renderer writes is read back

    The round trip of the GLM half of [ToolText]: tool calls rendered with their
    arguments in the order of the schema are read back by the parser of generated
    messages, every argument as a string; and the order itself is a permutation of
    the arguments that follows the schema. *)
From S2P Require Import Prelude CLib Json JsonProps JsonSafe Request RequestProps Stream StreamProps Dsml DsmlText ToolText ToolRoundTrip ToolRepair.

(** ** The order of the arguments *)

(** The arguments whose flag is clear. *)
Definition unused (m : list (json_arg * bool)) : list json_arg := fst <$> filter (λ p, p.2 = false) m.

Lemma unused_cons a b m : unused ((a, b) :: m) = if b then unused m else a :: unused m.
Proof. unfold unused. destruct b; [by rewrite filter_cons_False|by rewrite filter_cons_True]. Qed.

Lemma find_unused_spec m key idx : json_args_find_unused m key = Some idx →
  ∃ a, m !! idx = Some (a, false) ∧ arg_key a = key
    ∧ Permutation (a :: unused (<[idx := (a, true)]> m)) (unused m)
    ∧ sublist (unused (<[idx := (a, true)]> m)) (unused m).
Proof.
  revert idx. induction m as [|[x u] m IH]; intros idx H; [done|]. cbn [json_args_find_unused] in H.
  destruct (negb u && bytes_eqb (arg_key x) key) eqn:E.
  - injection H as <-. apply andb_true_iff in E as [Hu He]. destruct u; [done|]. apply bytes_eqb_eq in He.
    exists x. cbn [list_lookup lookup insert list_insert]. rewrite !unused_cons. split_and!; [done|done|done|by constructor].
  - destruct (json_args_find_unused m key) as [i|]; [|done]. injection H as <-.
    destruct (IH i eq_refl) as (a & Hl & Hk & Hp & Hs). exists a. cbn [list_lookup lookup insert list_insert].
    rewrite !unused_cons. split_and!; [done|done| |].
    + destruct u; [done|]. etransitivity; [apply perm_swap|by constructor].
    + destruct u; [done|by constructor].
Qed.

Lemma find_unused_none m key : json_args_find_unused m key = None → ∀ a, a ∈ unused m → arg_key a ≠ key.
Proof.
  induction m as [|[x u] m IH]; intros H a Ha; [by apply elem_of_nil in Ha|]. cbn [json_args_find_unused] in H.
  destruct (negb u && bytes_eqb (arg_key x) key) eqn:E; [done|].
  destruct (json_args_find_unused m key); [done|]. rewrite unused_cons in Ha. destruct u; [by apply IH|].
  apply elem_of_cons in Ha as [->|Ha]; [|by apply IH]. by apply bytes_eqb_neq.
Qed.

Lemma in_schema_order_spec prop m out m' : in_schema_order m prop = (out, m') →
  Permutation (out ++ unused m') (unused m) ∧ sublist (unused m') (unused m)
  ∧ sublist (arg_key <$> out) prop
  ∧ (NoDup (arg_key <$> unused m) → ∀ a, a ∈ unused m' → arg_key a ∉ prop).
Proof.
  revert m out m'. induction prop as [|key prop IH]; intros m out m' H; cbn [in_schema_order] in H.
  { injection H as <- <-. split_and!; [done|done|constructor|]. intros _ a _. apply not_elem_of_nil. }
  destruct (json_args_find_unused m key) as [idx|] eqn:E.
  - destruct (find_unused_spec m key idx E) as (a & Hl & Hk & Hp & Hs). rewrite Hl in H.
    destruct (in_schema_order (<[idx := (a, true)]> m) prop) as [o n] eqn:Er. injection H as <- <-.
    destruct (IH _ _ _ Er) as (IP & IS & IK & IN). split_and!.
    + cbn [app]. rewrite IP. exact Hp.
    + by etransitivity.
    + rewrite fmap_cons, Hk. by constructor.
    + intros Hnd b Hb. pose proof (fmap_Permutation arg_key _ _ Hp) as Hpk. rewrite fmap_cons in Hpk.
      rewrite <- Hpk in Hnd. apply NoDup_cons in Hnd as [Hna Hnd]. apply not_elem_of_cons. split; [|by apply IN].
      intros He. apply Hna. rewrite Hk, <- He. apply list_elem_of_fmap_2. by eapply sublist_subseteq in IS; apply IS.
  - destruct (IH _ _ _ H) as (IP & IS & IK & IN). split_and!; [done|done|by constructor|].
    intros Hnd b Hb. apply not_elem_of_cons. split; [|by apply IN].
    eapply find_unused_none; [exact E|]. by eapply sublist_subseteq in IS; apply IS.
Qed.

Lemma unused_all args : unused ((λ a, (a, false)) <$> args) = args.
Proof. induction args as [|a args IH]; [done|]. rewrite fmap_cons, unused_cons. by rewrite IH. Qed.

(** The arguments of a call are written once each, those the schema names first
    and in the order of the schema, the others after them in the order the client
    sent them; no argument the schema names is left among the others when the names
    differ. *)
Theorem ordered_args_schema args order :
  Permutation (ordered_args args order) args
  ∧ ∃ first rest, ordered_args args order = first ++ rest ∧ sublist rest args
    ∧ sublist (arg_key <$> first) (match order with Some o => tso_prop o | None => [] end)
    ∧ (NoDup (arg_key <$> args) → ∀ a o, order = Some o → a ∈ rest → arg_key a ∉ tso_prop o).
Proof.
  unfold ordered_args. destruct order as [o|].
  - destruct (in_schema_order _ (tso_prop o)) as [first m'] eqn:E.
    destruct (in_schema_order_spec _ _ _ _ E) as (Hp & Hs & Hk & Hn). rewrite unused_all in *.
    split; [done|]. exists first, (unused m'). split_and!; [done|done|done|].
    intros Hnd a o' [= <-] Ha. by apply Hn.
  - fold (unused ((λ a, (a, false)) <$> args)). rewrite unused_all. split; [done|].
    exists [], args. split_and!; [done|done|constructor|done].
Qed.

(** ** One argument *)

(** What the GLM markup can carry: a name without markup and without white space
    around it, a value without entities that does not hold the end of the call. *)
Definition glm_arg_ok (a : json_arg) : Prop :=
  60 ∉ arg_key a ∧ 38 ∉ arg_key a ∧ trim_const_span (arg_key a) = (0%nat, arg_key a)
  ∧ 38 ∉ arg_value a ∧ strstr (arg_value a) (bs "</tool_call>") = None.

(** Every argument is read as a string. *)
Definition glm_add_arg (acc : bytes) (a : json_arg) : bytes :=
  tool_call_json_args_add acc (arg_key a) (arg_value a) (bs "true").

Lemma body_text_id s e : 60 ∉ s → append_glm_tag_body_text s (60 :: e) = s.
Proof.
  induction s as [|c s IH]; intros H; [done|]. apply not_elem_of_cons in H as [Hc Hs].
  cbn [append_glm_tag_body_text strip_prefix]. destruct (Z.eqb_spec 60 c); [done|]. cbn [app]. by rewrite IH.
Qed.

Lemma body_text_absent s e x : x = 60 :: e → strstr s x = None → ∀ end_,
  38 ∉ x → strstr (append_glm_tag_body_text s end_) x = None.
Proof.
  intros Hx Hn end_ H38. subst x. induction s as [|c s IH]; [done|]. cbn [strstr] in Hn.
  destruct (strip_prefix (60 :: e) (c :: s)) as [r|] eqn:E; [done|]. destruct (strstr s (60 :: e)); [done|].
  specialize (IH eq_refl). cbn [append_glm_tag_body_text]. destruct (strip_prefix end_ (c :: s)) as [r|] eqn:E2.
  - change (bs "&lt;") with [38; 108; 116; 59]. cbn -[append_glm_tag_body_text strstr]. 
    cbn [strstr strip_prefix Z.eqb Pos.eqb]. by rewrite IH.
  - cbn [app strstr]. rewrite IH.
    destruct (strip_prefix (60 :: e) (c :: append_glm_tag_body_text s end_)) as [r|] eqn:E3; [|done].
    apply strip_prefix_Some in E3. injection E3 as -> E3.
    apply not_elem_of_cons in H38 as [_ H38].
    destruct (body_prefix s end_ e H38) as [post ->]; [by eexists|].
    change (60 :: e ++ post) with ((60 :: e) ++ post) in E. by rewrite strip_prefix_app in E.
Qed.

Definition glm_value (a : json_arg) : bytes := append_glm_arg_value_text (arg_value a).

Lemma glm_arg_eq a rest : glm_arg_ok a →
  append_glm_arg a ++ rest =
  bs "<arg_key>" ++ arg_key a ++ bs "</arg_key>" ++ bs "<arg_value>" ++ glm_value a ++ bs "</arg_value>" ++ rest.
Proof.
  intros (H60 & _). unfold append_glm_arg, append_glm_arg_key_text.
  replace (append_glm_tag_body_text (arg_key a) (bs "</arg_key>")) with (arg_key a)
    by (symmetry; by apply (body_text_id _ (tl0 (bs "</arg_key>")))).
  repeat rewrite <- app_assoc. reflexivity.
Qed.

Lemma glm_value_absent a : glm_arg_ok a →
  strstr (glm_value a) (bs "</arg_value>") = None ∧ strstr (glm_value a) (bs "</tool_call>") = None.
Proof.
  intros (_ & _ & _ & H38 & Ht). split.
  - apply (body_no_end (arg_value a) (tl0 (bs "</arg_value>"))). byte_free.
  - by apply (body_text_absent _ (tl0 (bs "</tool_call>"))); [|exact Ht|byte_free].
Qed.

(** One round of the argument loop. *)
Lemma glm_args_step fuel close p a acc rest : glm_arg_ok a → (close <= length rest)%nat →
  skip_space p = append_glm_arg a ++ rest →
  glm_args_loop (S fuel) close p acc = glm_args_loop fuel close rest (glm_add_arg acc a).
Proof.
  intros Hok Hclose Hp. pose proof Hok as (H60 & H38k & Htrim & H38 & Ht).
  cbn [glm_args_loop]. rewrite Hp, glm_arg_eq by done.
  rewrite (strip_other (bs "</tool_call>") (bs "<arg_key>") _
    (arg_key a ++ bs "</arg_key>" ++ bs "<arg_value>" ++ glm_value a ++ bs "</arg_value>" ++ rest)) by done.
  rewrite strip_prefix_app.
  assert (strstr (arg_key a ++ bs "</arg_key>" ++ bs "<arg_value>" ++ glm_value a ++ bs "</arg_value>" ++ rest) (bs "</arg_key>")
          = Some (length (arg_key a))) as ->.
  { apply (strstr_unique (arg_key a) [] 60 (tl0 (bs "</arg_key>"))); [done|apply not_elem_of_nil]. }
  rewrite drop_app_length, take_app_length.
  match goal with |- context [(?l <? close)%nat] => destruct (Nat.ltb_spec l close) as [Hl|_] end.
  { rewrite !length_app in Hl. lia. }
  rewrite Htrim. cbn [snd]. rewrite <- drop_drop, drop_app_length.
  change (drop 10 (bs "</arg_key>" ++ ?x)) with x.
  change (skip_space (bs "<arg_value>" ++ ?x)) with (bs "<arg_value>" ++ x). rewrite strip_prefix_app.
  destruct (glm_value_absent a Hok) as [Hv _].
  assert (strstr (glm_value a ++ bs "</arg_value>" ++ rest) (bs "</arg_value>") = Some (length (glm_value a))) as ->.
  { apply (strstr_body (glm_value a) (tl0 (bs "</arg_value>"))); [done|byte_free]. }
  rewrite drop_app_length, take_app_length.
  match goal with |- context [(?l <? close)%nat] => destruct (Nat.ltb_spec l close) as [Hl|_] end.
  { rewrite !length_app in Hl. lia. }
  rewrite <- drop_drop, drop_app_length. change (drop 12 (bs "</arg_value>" ++ ?x)) with x.
  unfold glm_value, append_glm_arg_value_text. rewrite (unescape_body (arg_value a)); [|done|by eexists].
  f_equal. unfold glm_add_arg. f_equal.
  pose proof (unescape_body (arg_key a) [60] H38k ltac:(by eexists)) as Hu. by rewrite body_text_id in Hu.
Qed.

Lemma glm_args_render args fuel close p acc rest : Forall glm_arg_ok args →
  (close <= length (bs "</tool_call>" ++ rest))%nat → (length args < fuel)%nat →
  skip_space p = concat (append_glm_arg <$> args) ++ bs "</tool_call>" ++ rest →
  glm_args_loop fuel close p acc = Some (foldl glm_add_arg acc args, rest).
Proof.
  revert fuel p acc. induction args as [|a args IH]; intros fuel p acc Hok Hc Hf Hp; (destruct fuel as [|fuel]; [lia|]).
  - cbn [glm_args_loop]. rewrite Hp. cbn [fmap list_fmap concat app]. by rewrite strip_prefix_app.
  - apply Forall_cons in Hok as [Ha Hok]. rewrite fmap_cons in Hp. cbn [concat] in Hp. rewrite <- app_assoc in Hp.
    erewrite glm_args_step; [|exact Ha| |exact Hp].
    + cbn [foldl]. apply IH; [done|done|simpl in Hf; lia|].
      destruct args as [|b args]; [done|]. rewrite fmap_cons. cbn [concat]. rewrite <- app_assoc.
      apply Forall_cons in Hok as [Hb _]. rewrite glm_arg_eq by done. done.
    + rewrite length_app. lia.
Qed.

(** ** The end of a call *)

(** No suffix of the literal agrees with the tag as far as both go. *)
Definition lit_absentb (lit x : bytes) : bool :=
  forallb (λ i, negb (bytes_eqb (take (length x) (drop i lit)) (take (length lit - i) x))) (seq 0 (length lit)).

Lemma lit_absent_cons c lit x : lit_absentb (c :: lit) x = true →
  take (length x) (c :: lit) ≠ take (S (length lit)) x ∧ lit_absentb lit x = true.
Proof.
  unfold lit_absentb. cbn [length seq forallb drop Nat.sub]. intros [H1 H2]%andb_true_iff. split.
  - apply bytes_eqb_neq. by apply negb_true_iff.
  - apply forallb_forall. intros i Hi. rewrite forallb_forall in H2. rewrite <- seq_shift in H2.
    specialize (H2 (S i)). apply H2. by apply in_map.
Qed.

Lemma strstr_lit lit s x : lit_absentb lit x = true → strstr s x = None → strstr (lit ++ s) x = None.
Proof.
  intros Hl Hs. induction lit as [|c lit IH]; [done|]. apply lit_absent_cons in Hl as [Hne Hl].
  cbn [app strstr]. rewrite (IH Hl). destruct (strip_prefix x (c :: lit ++ s)) as [r|] eqn:E; [|done].
  exfalso. apply Hne. apply strip_prefix_Some in E. change (c :: lit ++ s) with ((c :: lit) ++ s) in E.
  pose proof (f_equal (take (length x `min` S (length lit))) E) as E'.
  rewrite (take_app_le (c :: lit)) in E' by (cbn [length]; lia). rewrite take_app_le in E' by lia.
  rewrite <- !take_take in E'. rewrite (take_ge (c :: lit) (S (length lit))) in E' by (cbn [length]; lia).
  rewrite take_take, Nat.min_comm, <- take_take, (take_ge x (length x)) in E' by lia. exact E'.
Qed.

Lemma strstr_no_lt s e : 60 ∉ s → strstr s (60 :: e) = None.
Proof.
  induction s as [|c s IH]; intros H; [done|]. apply not_elem_of_cons in H as [Hc Hs].
  cbn [strstr strip_prefix]. destruct (Z.eqb_spec 60 c); [done|]. by rewrite IH.
Qed.

Lemma arg_text_absent a rest : glm_arg_ok a → open_or_nil rest → strstr rest (bs "</tool_call>") = None →
  strstr (append_glm_arg a ++ rest) (bs "</tool_call>") = None.
Proof.
  intros Hok Ho Hr. rewrite glm_arg_eq by done. destruct (glm_value_absent a Hok) as [_ Hv].
  destruct Hok as (H60 & _).
  apply strstr_lit; [vm_compute; reflexivity|]. apply strstr_no_straddle; [done|right; by eexists| |].
  { by apply (strstr_no_lt _ (tl0 (bs "</tool_call>"))). }
  apply strstr_lit; [vm_compute; reflexivity|]. apply strstr_lit; [vm_compute; reflexivity|].
  apply strstr_no_straddle; [done|right; by eexists|done|].
  by apply strstr_lit; [vm_compute; reflexivity|].
Qed.

Lemma args_text_open args rest : open_or_nil rest → open_or_nil (concat (append_glm_arg <$> args) ++ rest).
Proof. destruct args as [|a args]; [done|]. intros _. right. by eexists. Qed.

Lemma args_text_absent args : Forall glm_arg_ok args →
  strstr (concat (append_glm_arg <$> args)) (bs "</tool_call>") = None.
Proof.
  induction 1 as [|a args Ha _ IH]; [done|]. rewrite fmap_cons. cbn [concat].
  apply arg_text_absent; [done| |done].
  pose proof (args_text_open args [] (or_introl eq_refl)) as H. by rewrite app_nil_r in H.
Qed.

(** ** Calls *)

Definition glm_call_args (orders : list tool_schema_order) (tc : tool_call) : list json_arg :=
  match json_args_parse (tc_arguments tc) with
  | Some args => ordered_args args (tool_schema_orders_find orders (tc_name tc))
  | None => [JsonArg (bs "arguments") (default [] (tc_arguments tc)) true]
  end.

(** A name without markup and without white space around it, and arguments the
    markup can carry. *)
Definition glm_call_ok (orders : list tool_schema_order) (tc : tool_call) : Prop :=
  60 ∉ default [] (tc_name tc) ∧ default [] (tc_name tc) ≠ []
  ∧ trim_const_span (default [] (tc_name tc)) = (0%nat, default [] (tc_name tc))
  ∧ Forall glm_arg_ok (glm_call_args orders tc).

Definition glm_read_call (orders : list tool_schema_order) (tc : tool_call) : tool_call :=
  ToolCall None (Some (default [] (tc_name tc)))
    (Some (bs "{" ++ foldl glm_add_arg [] (glm_call_args orders tc) ++ bs "}")).

Lemma glm_call_text_eq orders tc rest :
  glm_call_text orders tc ++ rest =
  bs "<tool_call>" ++ default [] (tc_name tc) ++ concat (append_glm_arg <$> glm_call_args orders tc)
  ++ bs "</tool_call>" ++ rest.
Proof.
  unfold glm_call_text, append_glm_arguments_from_json, glm_call_args.
  destruct (json_args_parse (tc_arguments tc)) as [args|]; [by rewrite <- !app_assoc|].
  rewrite fmap_cons, fmap_nil. cbn [concat]. unfold append_glm_arg. cbn [arg_key arg_value].
  change (append_glm_arg_key_text (bs "arguments")) with (bs "arguments").
  repeat (rewrite <- app_assoc || rewrite app_nil_r). reflexivity.
Qed.

(** The name of a call ends where its arguments or the call itself end. *)
Lemma glm_name_end name args rest : 60 ∉ name → Forall glm_arg_ok args →
  let q := name ++ concat (append_glm_arg <$> args) ++ bs "</tool_call>" ++ rest in
  let close := length (name ++ concat (append_glm_arg <$> args)) in
  strstr q (bs "</tool_call>") = Some close
  ∧ default close (match strstr q (bs "<arg_key>") with
                   | Some a => if (close <? a)%nat then None else Some a
                   | None => None
                   end) = length name.
Proof.
  intros H60 Hok q close. split.
  - unfold q, close. rewrite app_assoc. apply (strstr_body _ (tl0 (bs "</tool_call>"))); [|byte_free].
    apply strstr_no_straddle; [done| |by apply (strstr_no_lt _ (tl0 (bs "</tool_call>")))|by apply args_text_absent].
    pose proof (args_text_open args [] (or_introl eq_refl)) as H. by rewrite app_nil_r in H.
  - destruct args as [|a args].
    + assert (Hc : close = length name) by (unfold close; rewrite app_nil_r; done).
      destruct (strstr q (bs "<arg_key>")) as [i|] eqn:E; [|by rewrite Hc].
      destruct (Nat.ltb_spec close i) as [|Hi]; [by rewrite Hc|]. exfalso. rewrite Hc in Hi.
      apply strstr_occurs in E as [Ho _]. unfold q in Ho. cbn [fmap list_fmap concat app] in Ho.
      destruct (decide (i = length name)) as [->|].
      * destruct Ho as [_ [post Hd]]. by rewrite drop_app_length in Hd.
      * pose proof (occurs_byte _ _ _ 0 Ho ltac:(vm_compute; lia)) as Hb. rewrite Nat.add_0_r in Hb.
        rewrite byte_at_app_l in Hb by lia. apply H60. change (byte_at (bs "<arg_key>") 0) with 60 in Hb.
        rewrite <- Hb. apply list_elem_of_In, nth_In. lia.
    + assert (strstr q (bs "<arg_key>") = Some (length name)) as ->.
      { unfold q. rewrite fmap_cons. cbn [concat]. rewrite <- app_assoc. apply Forall_cons in Hok as [Ha _].
        rewrite glm_arg_eq by done. apply (strstr_unique name [] 60 (tl0 (bs "<arg_key>"))); [done|apply not_elem_of_nil]. }
      unfold close. rewrite length_app. destruct (Nat.ltb_spec (length name + length (concat (append_glm_arg <$> a :: args))) (length name)); [lia|done].
Qed.

Lemma glm_args_count args rest : (length args <= length (concat (append_glm_arg <$> args) ++ rest))%nat.
Proof.
  induction args as [|a args IH]; [simpl; lia|]. rewrite fmap_cons. cbn [concat length]. rewrite <- app_assoc, length_app.
  unfold append_glm_arg at 1. rewrite !length_app in *. change (length (bs "<arg_key>")) with 9%nat. lia.
Qed.

Lemma glm_calls_render orders v fuel p calls tail : Forall (glm_call_ok orders) v →
  strip_prefix (bs "<tool_call>") (skip_space tail) = None →
  skip_space p = skip_space (concat (glm_call_text orders <$> v) ++ tail) → (length v < fuel)%nat →
  glm_calls_loop fuel p calls
  = (Some (skip_space tail), ToolCalls (calls_v calls ++ (glm_read_call orders <$> v)) (calls_raw_tool_text calls)).
Proof.
  intros Hok Ht. revert fuel p calls. induction v as [|tc v IH]; intros fuel p calls Hp Hf; (destruct fuel as [|fuel]; [lia|]).
  { cbn [glm_calls_loop]. rewrite Hp. cbn [fmap list_fmap concat app]. rewrite Ht, app_nil_r. by destruct calls. }
  apply Forall_cons in Hok as [(H60 & Hne & Htrim & Hargs) Hok]. specialize (IH Hok).
  cbn [glm_calls_loop]. rewrite Hp, fmap_cons. cbn [concat]. rewrite <- app_assoc, glm_call_text_eq.
  set (rest := concat (glm_call_text orders <$> v) ++ tail) in *.
  change (skip_space (bs "<tool_call>" ++ ?x)) with (bs "<tool_call>" ++ x). rewrite strip_prefix_app.
  destruct (glm_name_end (default [] (tc_name tc)) (glm_call_args orders tc) rest H60 Hargs) as [Hclose Hend].
  cbn zeta in Hclose, Hend. rewrite Hclose, Hend.
  set (name := default [] (tc_name tc)) in *. rewrite take_app_length, Htrim. cbn [Nat.add].
  assert (Hm : ∀ x y : option bytes * tool_calls, match name with [] => x | _ => y end = y) by (by destruct name).
  rewrite Hm.
  rewrite drop_app_length. rewrite app_assoc, drop_app_length.
  rewrite (glm_args_render (glm_call_args orders tc) _ _ _ _ rest); [|done|lia| |].
  - rewrite IH; [|done|simpl in Hf; lia].
    rewrite fmap_cons. cbn [tool_calls_push calls_v calls_raw_tool_text]. by rewrite <- app_assoc.
  - rewrite length_app. pose proof (glm_args_count (glm_call_args orders tc) []) as Hc. rewrite app_nil_r in Hc.
    rewrite length_app. lia.
  - destruct (glm_call_args orders tc) as [|a args]; [done|]. rewrite fmap_cons. cbn [concat]. rewrite <- app_assoc.
    apply Forall_cons in Hargs as [Ha _]. by rewrite glm_arg_eq.
Qed.

(** ** The message *)

(** What a message needs so that its calls survive the trip. *)
Definition glm_message_ok (orders : list tool_schema_order) (content : bytes) (v : list tool_call) : Prop :=
  60 ∉ content ∧ last content ≠ Some 10 ∧ v ≠ [] ∧ Forall (glm_call_ok orders) v.

Lemma glm_block_length orders v rest : (length v <= length (concat (glm_call_text orders <$> v) ++ rest))%nat.
Proof.
  induction v as [|tc v IH]; [simpl; lia|]. rewrite fmap_cons. cbn [concat length]. rewrite <- app_assoc, glm_call_text_eq.
  rewrite length_app. change (length (bs "<tool_call>")) with 11%nat. rewrite !length_app in *. lia.
Qed.

(** The byte before the newline that the renderer writes. *)
Lemma last_not_newline content rest : last content ≠ Some 10 → content ≠ [] →
  (byte_at (content ++ rest) (length content - 1) =? 10) = false.
Proof.
  intros Hl Hne. destruct (exists_last Hne) as (c & x & ->). rewrite last_snoc in Hl.
  rewrite length_app. cbn [length]. rewrite <- app_assoc. unfold byte_at. rewrite app_nth2 by lia.
  replace (length c + 1 - 1 - length c)%nat with 0%nat by lia. cbn. apply Z.eqb_neq. congruence.
Qed.

Lemma trim_newline content rest :
  trim_tool_separator_ws (content ++ 10 :: rest) 0 (S (length content)) = trim_tool_separator_ws content 0 (length content).
Proof.
  cbn [trim_tool_separator_ws]. unfold byte_at at 1. rewrite app_nth2, Nat.sub_diag by lia. cbn [nth].
  change ((0 <? S (length content))%nat && isspace 10) with true. cbv iota. by apply trim_app.
Qed.


