(* ===== verification/ToolMemory.v ===== *)
(** * The memory of tool calls

    The model of the tool memory of [engine/src/server.c]: entries keyed by tool
    call id on a doubly linked list in the order of use, blocks of sampled markup
    shared by the entries and counted, and two radix trees. The structures live in
    a heap: a pointer is a location, [malloc] takes a fresh one, [free] removes it,
    and a read of a location that is not there is undefined behaviour, for which
    an operation has no result; so has a call of [die].

    The radix tree of [engine/src/radix_tree.c] is seen through the class [Rax]. *)
From S2P Require Import Prelude CLib Json Request ToolText.

(** ** The radix tree as its client sees it *)

Definition loc := positive.

(** [raxFind], [raxInsert] and [raxRemove]; an insert says whether the key is new.
    Memory is not exhausted. *)
Class RaxOps (R : Type) := {
  raxNew : R;
  raxFind : R → bytes → option loc;
  raxInsert : R → bytes → loc → bool * R;
  raxRemove : R → bytes → R;
}.

Class Rax (R : Type) `{!RaxOps R} := {
  rax_find_new k : raxFind raxNew k = None;
  rax_insert_new t k p : (raxInsert t k p).1 = true ↔ raxFind t k = None;
  rax_find_insert t k p : raxFind (raxInsert t k p).2 k = Some p;
  rax_find_insert_ne t k k' p : k ≠ k' → raxFind (raxInsert t k p).2 k' = raxFind t k';
  rax_find_remove t k : raxFind (raxRemove t k) k = None;
  rax_find_remove_ne t k k' : k ≠ k' → raxFind (raxRemove t k) k' = raxFind t k';
}.

(** ** Data *)

Inductive tool_memory_source := TOOL_MEMORY_RAM | TOOL_MEMORY_DISK.

#[export] Instance tool_memory_source_eq_dec : EqDecision tool_memory_source.
Proof. solve_decision. Defined.

Record tool_memory_block := ToolMemoryBlock {
  b_dsml : bytes;
  b_len : nat;
  b_bytes : Z;
  b_refs : Z;
  b_seen : Z;
  b_entries : option loc;
}.

Record tool_memory_entry := ToolMemoryEntry {
  te_id : bytes;
  te_block : loc;
  te_bytes : Z;
  te_stamp : Z;
  te_source : tool_memory_source;
  te_prev : option loc;
  te_next : option loc;
  te_block_next : option loc;
}.

(** The structure and the heap its pointers go to. *)
Record tool_memory (R : Type) := ToolMemory {
  tm_by_id : option R;
  tm_by_block : option R;
  tm_head : option loc;
  tm_tail : option loc;
  tm_entries : Z;
  tm_max_entries : Z;
  tm_bytes : Z;
  tm_max_bytes : Z;
  tm_clock : Z;
  tm_scan_clock : Z;
  tm_ents : gmap loc tool_memory_entry;
  tm_blocks : gmap loc tool_memory_block;
}.

Arguments ToolMemory {R} _ _ _ _ _ _ _ _ _ _ _ _.
Arguments tm_by_id {R} _.
Arguments tm_by_block {R} _.
Arguments tm_head {R} _.
Arguments tm_tail {R} _.
Arguments tm_entries {R} _.
Arguments tm_max_entries {R} _.
Arguments tm_bytes {R} _.
Arguments tm_max_bytes {R} _.
Arguments tm_clock {R} _.
Arguments tm_scan_clock {R} _.
Arguments tm_ents {R} _.
Arguments tm_blocks {R} _.

(** The sizes of the structures on a machine with eight-byte pointers. *)
Definition sizeof_block : Z := 48.
Definition sizeof_entry : Z := 64.

Definition DS4_TOOL_MEMORY_DEFAULT_MAX_IDS : Z := 100000.
Definition DS4_TOOL_MEMORY_MAX_BYTES : Z := 512 * 1024 * 1024.

(** ** Assignments to one field *)

Section fields.
Context {R : Type}.
Implicit Types m : tool_memory R.

Definition set_trees i b (m : tool_memory R) : tool_memory R := ToolMemory i b (tm_head m) (tm_tail m) (tm_entries m) (tm_max_entries m) (tm_bytes m)
  (tm_max_bytes m) (tm_clock m) (tm_scan_clock m) (tm_ents m) (tm_blocks m).
Definition set_head h (m : tool_memory R) : tool_memory R := ToolMemory (tm_by_id m) (tm_by_block m) h (tm_tail m) (tm_entries m) (tm_max_entries m)
  (tm_bytes m) (tm_max_bytes m) (tm_clock m) (tm_scan_clock m) (tm_ents m) (tm_blocks m).
Definition set_tail t (m : tool_memory R) : tool_memory R := ToolMemory (tm_by_id m) (tm_by_block m) (tm_head m) t (tm_entries m) (tm_max_entries m)
  (tm_bytes m) (tm_max_bytes m) (tm_clock m) (tm_scan_clock m) (tm_ents m) (tm_blocks m).
Definition set_counts n b (m : tool_memory R) : tool_memory R := ToolMemory (tm_by_id m) (tm_by_block m) (tm_head m) (tm_tail m) n (tm_max_entries m) b
  (tm_max_bytes m) (tm_clock m) (tm_scan_clock m) (tm_ents m) (tm_blocks m).
Definition set_clock c (m : tool_memory R) : tool_memory R := ToolMemory (tm_by_id m) (tm_by_block m) (tm_head m) (tm_tail m) (tm_entries m)
  (tm_max_entries m) (tm_bytes m) (tm_max_bytes m) c (tm_scan_clock m) (tm_ents m) (tm_blocks m).
Definition set_scan c (m : tool_memory R) : tool_memory R := ToolMemory (tm_by_id m) (tm_by_block m) (tm_head m) (tm_tail m) (tm_entries m)
  (tm_max_entries m) (tm_bytes m) (tm_max_bytes m) (tm_clock m) c (tm_ents m) (tm_blocks m).
Definition set_ents h (m : tool_memory R) : tool_memory R := ToolMemory (tm_by_id m) (tm_by_block m) (tm_head m) (tm_tail m) (tm_entries m)
  (tm_max_entries m) (tm_bytes m) (tm_max_bytes m) (tm_clock m) (tm_scan_clock m) h (tm_blocks m).
Definition set_blocks h (m : tool_memory R) : tool_memory R := ToolMemory (tm_by_id m) (tm_by_block m) (tm_head m) (tm_tail m) (tm_entries m)
  (tm_max_entries m) (tm_bytes m) (tm_max_bytes m) (tm_clock m) (tm_scan_clock m) (tm_ents m) h.

Definition te_set_links prev next e := ToolMemoryEntry (te_id e) (te_block e) (te_bytes e) (te_stamp e) (te_source e)
  prev next (te_block_next e).
Definition te_set_stamp s e := ToolMemoryEntry (te_id e) (te_block e) (te_bytes e) s (te_source e) (te_prev e)
  (te_next e) (te_block_next e).
Definition te_set_source s e := ToolMemoryEntry (te_id e) (te_block e) (te_bytes e) (te_stamp e) s (te_prev e)
  (te_next e) (te_block_next e).
Definition te_set_block_next n e := ToolMemoryEntry (te_id e) (te_block e) (te_bytes e) (te_stamp e) (te_source e)
  (te_prev e) (te_next e) n.
Definition b_set_refs n b := ToolMemoryBlock (b_dsml b) (b_len b) (b_bytes b) n (b_seen b) (b_entries b).
Definition b_set_seen n b := ToolMemoryBlock (b_dsml b) (b_len b) (b_bytes b) (b_refs b) n (b_entries b).
Definition b_set_entries p b := ToolMemoryBlock (b_dsml b) (b_len b) (b_bytes b) (b_refs b) (b_seen b) p.

(** [*p] is changed by [f]; the location must be there. *)
Definition upd_ent (p : loc) (f : tool_memory_entry → tool_memory_entry) (m : tool_memory R) : option (tool_memory R) :=
  e ← tm_ents m !! p; Some (set_ents (<[p := f e]> (tm_ents m)) m).
Definition upd_block (p : loc) (f : tool_memory_block → tool_memory_block) (m : tool_memory R) : option (tool_memory R) :=
  b ← tm_blocks m !! p; Some (set_blocks (<[p := f b]> (tm_blocks m)) m).

(** [n + 1] of an [int]; past the greatest it is undefined. *)
Definition int_succ (n : Z) : option Z := if n <? INT_MAX then Some (n + 1) else None.

(** [bytes -= n], not below zero. *)
Definition sub_bytes (n : Z) (m : tool_memory R) : tool_memory R := set_counts (tm_entries m) (if n <=? tm_bytes m then tm_bytes m - n else 0) m.

End fields.

(** ** Operations *)

Section operations.
Context {R : Type} `{!RaxOps R}.
Implicit Types m : tool_memory R.

Definition tool_memory_zero : tool_memory R := ToolMemory None None None None 0 0 0 0 0 0 ∅ ∅.

Definition tool_memory_max_entries m : Z :=
  if 0 <? tm_max_entries m then tm_max_entries m else DS4_TOOL_MEMORY_DEFAULT_MAX_IDS.

Definition tool_memory_max_bytes m : Z :=
  if 0 <? tm_max_bytes m then tm_max_bytes m else DS4_TOOL_MEMORY_MAX_BYTES.

Definition tool_memory_init_locked m : tool_memory R :=
  match tm_by_id m, tm_by_block m with
  | Some _, Some _ => m
  | _, _ => set_trees (Some raxNew) (Some raxNew) m
  end.

Definition tool_memory_link_head m (p : loc) : option (tool_memory R) :=
  m ← upd_ent p (te_set_links None (tm_head m)) m;
  m ← match tm_head m with
      | Some h => upd_ent h (λ e, te_set_links (Some p) (te_next e) e) m
      | None => Some (set_tail (Some p) m)
      end;
  Some (set_head (Some p) m).

Definition tool_memory_unlink m (p : loc) : option (tool_memory R) :=
  e ← tm_ents m !! p;
  m ← match te_prev e with
      | Some q => upd_ent q (λ x, te_set_links (te_prev x) (te_next e) x) m
      | None => Some (set_head (te_next e) m)
      end;
  e ← tm_ents m !! p;
  m ← match te_next e with
      | Some q => upd_ent q (λ x, te_set_links (te_prev e) (te_next x) x) m
      | None => Some (set_tail (te_prev e) m)
      end;
  upd_ent p (te_set_links None None) m.

Definition tool_memory_touch m (p : loc) : option (tool_memory R) :=
  let m := set_clock (u64 (tm_clock m + 1)) m in
  m ← upd_ent p (te_set_stamp (tm_clock m)) m;
  if decide (tm_head m = Some p) then Some m
  else m ← tool_memory_unlink m p; tool_memory_link_head m p.

(** [*p], where [p] is [&b->entries] or [&q->block_next]. *)
Definition read_chain m (b : loc) (at_ : option loc) : option (option loc) :=
  match at_ with
  | None => b_entries <$> tm_blocks m !! b
  | Some q => te_block_next <$> tm_ents m !! q
  end.

Definition write_chain m (b : loc) (at_ : option loc) (v : option loc) : option (tool_memory R) :=
  match at_ with
  | None => upd_block b (b_set_entries v) m
  | Some q => upd_ent q (te_set_block_next v) m
  end.

Fixpoint block_unlink_loop (fuel : nat) m (b : loc) (at_ : option loc) (e : loc) : option (tool_memory R) :=
  match fuel with
  | O => None
  | S fuel' =>
      cur ← read_chain m b at_;
      match cur with
      | None => Some m
      | Some q =>
          if decide (q = e) then
            x ← tm_ents m !! e;
            m ← write_chain m b at_ (te_block_next x);
            upd_ent e (te_set_block_next None) m
          else block_unlink_loop fuel' m b (Some q) e
      end
  end.

Definition tool_block_unlink_entry m (b e : loc) : option (tool_memory R) :=
  block_unlink_loop (S (size (tm_ents m))) m b None e.

Definition tool_memory_find_block_locked m (dsml : bytes) : option loc :=
  match tm_by_block m, dsml with
  | Some t, _ :: _ => raxFind t dsml
  | _, _ => None
  end.

(** The block is not found and is added when the tree is there. *)
Definition tool_memory_get_block_locked m (dsml : bytes) : option (loc * tool_memory R) :=
  match tool_memory_find_block_locked m dsml with
  | Some b => Some (b, m)
  | None =>
      t ← tm_by_block m;
      let p := fresh (dom (tm_blocks m)) in
      let b := ToolMemoryBlock dsml (length dsml) (Z.of_nat (length dsml) + 1 + sizeof_block) 0 0 None in
      let '(new, t) := raxInsert t dsml p in
      if new then
        let m := set_blocks (<[p := b]> (tm_blocks m)) (set_trees (tm_by_id m) (Some t) m) in
        Some (p, set_counts (tm_entries m) (u64 (tm_bytes m + b_bytes b)) m)
      else None
  end.

Definition tool_memory_release_block_locked m (p : loc) : option (tool_memory R) :=
  m ← upd_block p (λ b, b_set_refs (b_refs b - 1) b) m;
  b ← tm_blocks m !! p;
  if 0 <? b_refs b then Some m
  else
    let m := set_trees (tm_by_id m) ((λ t, raxRemove t (b_dsml b)) <$> tm_by_block m) m in
    let m := sub_bytes (b_bytes b) m in
    Some (set_blocks (delete p (tm_blocks m)) m).

Definition tool_memory_remove_entry_locked m (p : loc) : option (tool_memory R) :=
  e ← tm_ents m !! p;
  let m := set_trees ((λ t, raxRemove t (te_id e)) <$> tm_by_id m) (tm_by_block m) m in
  m ← tool_memory_unlink m p;
  m ← tool_block_unlink_entry m (te_block e) p;
  let m := sub_bytes (te_bytes e) m in
  let m := set_counts (if 0 <? tm_entries m then tm_entries m - 1 else tm_entries m) (tm_bytes m) m in
  m ← tool_memory_release_block_locked m (te_block e);
  Some (set_ents (delete p (tm_ents m)) m).

Definition over_limits m : bool :=
  (tool_memory_max_entries m <? tm_entries m) || (tool_memory_max_bytes m <? tm_bytes m).

Fixpoint prune_loop (fuel : nat) m : option (tool_memory R) :=
  match fuel with
  | O => None
  | S fuel' =>
      match over_limits m, tm_tail m with
      | true, Some p => m ← tool_memory_remove_entry_locked m p; prune_loop fuel' m
      | _, _ => Some m
      end
  end.

Definition tool_memory_prune_locked m : option (tool_memory R) := prune_loop (S (size (tm_ents m))) m.

Definition tool_memory_find_entry_locked m (id : option bytes) : option loc :=
  match tm_by_id m, id with
  | Some t, Some (c :: r) => raxFind t (c :: r)
  | _, _ => None
  end.

(** The entry that a put replaces when its text is the same. *)
Definition same_text m (p : loc) (dsml : bytes) : option bool :=
  e ← tm_ents m !! p;
  b ← tm_blocks m !! te_block e;
  Some ((b_len b =? length dsml)%nat && bytes_eqb (b_dsml b) dsml).

(** A new entry for [id] in block [b]. *)
Definition put_new m (id dsml : bytes) (source : tool_memory_source) : option (tool_memory R) :=
  '(b, m) ← tool_memory_get_block_locked m dsml;
  blk ← tm_blocks m !! b;
  let p := fresh (dom (tm_ents m)) in
  let m := set_clock (u64 (tm_clock m + 1)) m in
  let e := ToolMemoryEntry id b (Z.of_nat (length id) + 1 + sizeof_entry) (tm_clock m) source None None (b_entries blk) in
  let m := set_ents (<[p := e]> (tm_ents m)) m in
  m ← upd_block b (b_set_entries (Some p)) m;
  refs ← int_succ (b_refs blk);
  m ← upd_block b (b_set_refs refs) m;
  t ← tm_by_id m;
  let '(new, t) := raxInsert t id p in
  if new then
    let m := set_trees (Some t) (tm_by_block m) m in
    m ← tool_memory_link_head m p;
    n ← int_succ (tm_entries m);
    Some (set_counts n (u64 (tm_bytes m + te_bytes e)) m)
  else None.

Definition tool_memory_put_locked m (id dsml : option bytes) (source : tool_memory_source) : option (tool_memory R) :=
  match id, dsml with
  | Some (i :: id), Some (d :: dsml) =>
      let id := i :: id in
      let dsml := d :: dsml in
      let m := tool_memory_init_locked m in
      match tool_memory_find_entry_locked m (Some id) with
      | Some old =>
          same ← same_text m old dsml;
          if (same : bool) then
            m ← upd_ent old (λ e, if decide (source = TOOL_MEMORY_RAM) then te_set_source TOOL_MEMORY_RAM e else e) m;
            m ← tool_memory_touch m old;
            tool_memory_prune_locked m
          else
            m ← tool_memory_remove_entry_locked m old;
            m ← put_new m id dsml source;
            tool_memory_prune_locked m
      | None =>
          m ← put_new m id dsml source;
          tool_memory_prune_locked m
      end
  | _, _ => Some m
  end.

Fixpoint free_loop (fuel : nat) m : option (tool_memory R) :=
  match fuel with
  | O => None
  | S fuel' =>
      match tm_tail m with
      | Some p => m ← tool_memory_remove_entry_locked m p; free_loop fuel' m
      | None => Some m
      end
  end.

(** What is left of the heap is what the function leaks. *)
Definition tool_memory_free m : option (tool_memory R) :=
  m ← free_loop (S (size (tm_ents m))) m;
  Some (ToolMemory None None None None 0 0 0 0 0 0 (tm_ents m) (tm_blocks m)).

Definition tool_memory_lookup_locked m (id : option bytes)
  : option (option (bytes * tool_memory_source * loc) * tool_memory R) :=
  match tool_memory_find_entry_locked m id with
  | None => Some (None, m)
  | Some p =>
      m ← tool_memory_touch m p;
      e ← tm_ents m !! p;
      b ← tm_blocks m !! te_block e;
      Some (Some (b_dsml b, te_source e, te_block e), m)
  end.

(** ** The operations of the server

    [replay] is false when [disable_exact_dsml_tool_replay] is set. *)

Definition tool_memory_has_id (replay : bool) m (id : option bytes) : bool :=
  replay && match tool_memory_find_entry_locked m id with Some _ => true | None => false end.

Fixpoint put_calls m (v : list tool_call) (raw : bytes) : option (tool_memory R) :=
  match v with
  | [] => Some m
  | tc :: v' => m ← tool_memory_put_locked m (tc_id tc) (Some raw) TOOL_MEMORY_RAM; put_calls m v' raw
  end.

Definition tool_memory_remember (replay : bool) m (calls : tool_calls) : option (tool_memory R) :=
  match replay, calls_raw_tool_text calls with
  | true, Some (c :: raw) => put_calls m (calls_v calls) (c :: raw)
  | _, _ => Some m
  end.

Definition tool_memory_put_source (replay : bool) m (id dsml : option bytes) (source : tool_memory_source)
  : option (tool_memory R) :=
  match replay, id, dsml with
  | true, Some (_ :: _), Some (_ :: _) => tool_memory_put_locked m id dsml source
  | _, _, _ => Some m
  end.

(** ** Tool calls of a conversation *)

(** One call of a message: the block found so far, its source, whether every call
    had the same block, and the calls not found. *)
Record attach_state := AttachState {
  at_matched : option loc;
  at_source : tool_memory_source;
  at_exact : bool;
  at_missing : Z;
}.

Definition attach_call m (st : attach_state) (tc : tool_call) : option (attach_state * tool_memory R) :=
  '(found, m) ← tool_memory_lookup_locked m (tc_id tc);
  match found with
  | None => Some (AttachState (at_matched st) (at_source st) false (at_missing st + 1), m)
  | Some (_, source, block) =>
      let '(matched, msource, exact) :=
        match at_matched st with
        | None => (Some block, source, at_exact st)
        | Some b => (Some b, at_source st, if decide (b = block) then at_exact st else false)
        end in
      let msource := if decide (source = TOOL_MEMORY_RAM) then TOOL_MEMORY_RAM else msource in
      Some (AttachState matched msource exact (at_missing st), m)
  end.

Fixpoint attach_calls m (st : attach_state) (v : list tool_call) : option (attach_state * tool_memory R) :=
  match v with
  | [] => Some (st, m)
  | tc :: v' => '(st, m) ← attach_call m st tc; attach_calls m st v'
  end.

Record tool_replay_stats := ToolReplayStats {
  rs_mem : Z;
  rs_disk : Z;
  rs_canonical : Z;
  rs_missing_ids : Z;
}.

Definition set_raw_tool_text (msg : chat_msg) (raw : option bytes) : chat_msg :=
  ChatMsg (msg_role msg) (msg_content msg) (msg_reasoning msg) (msg_tool_call_id msg) (msg_tool_call_ids msg)
    (msg_calls msg) raw.

(** Whether a message has calls without their text. *)
Definition needs_text (msg : chat_msg) : bool :=
  match msg_calls msg, msg_raw_tool_text msg with _ :: _, None => true | _, _ => false end.

Definition attach_message m (stats : tool_replay_stats) (msg : chat_msg)
  : option (chat_msg * tool_replay_stats * tool_memory R) :=
  if needs_text msg then
    '(st, m) ← attach_calls m (AttachState None TOOL_MEMORY_DISK true 0) (msg_calls msg);
    match at_exact st, at_matched st with
    | true, Some b =>
        blk ← tm_blocks m !! b;
        let stats :=
          match at_source st with
          | TOOL_MEMORY_RAM => ToolReplayStats (rs_mem stats + 1) (rs_disk stats) (rs_canonical stats) (rs_missing_ids stats)
          | TOOL_MEMORY_DISK => ToolReplayStats (rs_mem stats) (rs_disk stats + 1) (rs_canonical stats) (rs_missing_ids stats)
          end in
        Some (set_raw_tool_text msg (Some (b_dsml blk)), stats, m)
    | _, _ =>
        Some (msg, ToolReplayStats (rs_mem stats) (rs_disk stats) (rs_canonical stats + 1)
                     (rs_missing_ids stats + at_missing st), m)
    end
  else Some (msg, stats, m).

Fixpoint attach_messages m (stats : tool_replay_stats) (msgs : list chat_msg)
  : option (list chat_msg * tool_replay_stats * tool_memory R) :=
  match msgs with
  | [] => Some ([], stats, m)
  | msg :: rest =>
      '(msg, stats, m) ← attach_message m stats msg;
      '(rest, stats, m) ← attach_messages m stats rest;
      Some (msg :: rest, stats, m)
  end.

(** Without replay every message with calls counts as rendered anew. *)
Definition count_canonical (stats : tool_replay_stats) (msg : chat_msg) : tool_replay_stats :=
  if needs_text msg then
    ToolReplayStats (rs_mem stats) (rs_disk stats) (rs_canonical stats + 1)
      (rs_missing_ids stats + Z.of_nat (length (msg_calls msg)))
  else stats.

Definition tool_memory_attach_to_messages (replay : bool) m (msgs : list chat_msg) (stats : tool_replay_stats)
  : option (list chat_msg * tool_replay_stats * tool_memory R) :=
  if replay then attach_messages m stats msgs
  else Some (msgs, foldl count_canonical stats msgs, m).

(** ** Ids of new calls *)

Definition tool_calls_contains_id (v : list tool_call) (id : option bytes) (upto : nat) : bool :=
  match id with
  | Some (c :: r) =>
      existsb (λ tc, match tc_id tc with Some x => bytes_eqb x (c :: r) | None => false end) (take upto v)
  | _ => false
  end.

Definition has_id (tc : tool_call) : bool := match tc_id tc with Some (_ :: _) => true | _ => false end.

(** The first of the random ids that is free, and the ids after it; none when the
    ids given here run out. *)
Fixpoint draw_id (replay : bool) m (v : list tool_call) (i : nat) (rnd : list bytes) : option (bytes * list bytes) :=
  match rnd with
  | [] => None
  | id :: rnd' =>
      if negb (tool_calls_contains_id v (Some id) i) && negb (tool_memory_has_id replay m (Some id))
      then Some (id, rnd')
      else draw_id replay m v i rnd'
  end.

(** The calls from [i] on; [n] of them are left. *)
Fixpoint assign_ids_from (replay : bool) m (n i : nat) (v : list tool_call) (rnd : list bytes) : option (list tool_call) :=
  match n with
  | O => Some v
  | S n' =>
      match v !! i with
      | None => Some v
      | Some tc =>
          if has_id tc then assign_ids_from replay m n' (S i) v rnd
          else
            '(id, rnd) ← draw_id replay m v i rnd;
            assign_ids_from replay m n' (S i) (<[i := ToolCall (Some id) (tc_name tc) (tc_arguments tc)]> v) rnd
      end
  end.

(** [rnd]: what the calls of [random_tool_id] give, in order. *)
Definition assign_tool_call_ids (replay : bool) m (calls : tool_calls) (rnd : list bytes) : option tool_calls :=
  v ← assign_ids_from replay m (length (calls_v calls)) 0 (calls_v calls) rnd;
  Some (ToolCalls v (calls_raw_tool_text calls)).

End operations.

(** Ids that the stream has shown before the calls were parsed; the OpenAI and the
    Anthropic stream have the same function. *)
Fixpoint apply_stream_tool_ids (v : list tool_call) (ids : list (option bytes)) : list tool_call :=
  match v, ids with
  | tc :: v', id :: ids' =>
      (if has_id tc then tc
       else match id with
            | Some (_ :: _) => ToolCall id (tc_name tc) (tc_arguments tc)
            | _ => tc
            end) :: apply_stream_tool_ids v' ids'
  | _, _ => v
  end.
