(* ===== verification/ToolMemoryWf.v ===== *)
(** * The linked structures of the tool memory

    The invariant of the structures of [ToolMemory]: the doubly linked list of use,
    the entries chained to their block, the counts and the two trees agree; and that
    linking, unlinking and removing an entry preserve it and never follow a dangling
    pointer. *)
From S2P Require Import Prelude CLib Json Request ToolText ToolMemory.

(** ** Sums over maps *)

Definition msum {A} (f : A → Z) (h : gmap loc A) : Z := sumZ (f ∘ snd <$> map_to_list h).

#[export] Instance sumZ_proper : Proper ((≡ₚ) ==> (=)) sumZ.
Proof. intros l k H. unfold sumZ. induction H; simpl; lia. Qed.

Lemma msum_insert {A} (f : A → Z) h p x : h !! p = None → msum f (<[p := x]> h) = f x + msum f h.
Proof. intros H. unfold msum. by rewrite map_to_list_insert. Qed.

Lemma msum_delete {A} (f : A → Z) h p x : h !! p = Some x → msum f h = f x + msum f (delete p h).
Proof. intros H. rewrite <- (insert_delete_id h p x H) at 1. apply msum_insert, lookup_delete_eq. Qed.

Lemma msum_ext {A} (f : A → Z) h h' : (∀ p, f <$> h !! p = f <$> h' !! p) → msum f h = msum f h'.
Proof.
  intros H. assert (He : f <$> h = f <$> h') by (apply map_eq; intros p; by rewrite !lookup_fmap).
  assert (Hs : ∀ k, msum f k = sumZ (snd <$> map_to_list (f <$> k))).
  { intros k. unfold msum. rewrite map_to_list_fmap, <- list_fmap_compose. done. }
  by rewrite !Hs, He.
Qed.

Lemma msum_nonneg {A} (f : A → Z) h : (∀ p x, h !! p = Some x → 0 <= f x) → 0 <= msum f h.
Proof.
  intros H. apply sumZ_nonneg, Forall_fmap, Forall_forall. intros [p x] Hx. apply elem_of_map_to_list in Hx.
  by apply (H p).
Qed.

(** ** Doubly linked segments *)

Notation heap := (gmap loc tool_memory_entry).

(** [ps] are linked in order; [prev] is before the first and [nxt] after the last. *)
Fixpoint dseg (h : heap) (prev : option loc) (ps : list loc) (nxt : option loc) : Prop :=
  match ps with
  | [] => True
  | p :: ps' =>
      (∃ e, h !! p = Some e ∧ te_prev e = prev ∧ te_next e = match ps' with [] => nxt | q :: _ => Some q end)
      ∧ dseg h (Some p) ps' nxt
  end.

Definition first_of (ps : list loc) (nxt : option loc) : option loc := match ps with [] => nxt | p :: _ => Some p end.
Definition last_of (prev : option loc) (ps : list loc) : option loc := match last ps with Some p => Some p | None => prev end.

Lemma last_of_cons prev p ps : last_of prev (p :: ps) = last_of (Some p) ps.
Proof. unfold last_of. rewrite last_cons. by destruct (last ps). Qed.

Lemma dseg_app h prev l1 l2 nxt :
  dseg h prev (l1 ++ l2) nxt ↔ dseg h prev l1 (first_of l2 nxt) ∧ dseg h (last_of prev l1) l2 nxt.
Proof.
  revert prev. induction l1 as [|p l1 IH]; intros prev; [simpl; tauto|].
  rewrite last_of_cons. cbn [app dseg]. rewrite IH. destruct l1 as [|q l1]; cbn [app]; [|tauto].
  destruct l2; simpl; tauto.
Qed.

Definition links_eq (h h' : heap) (ps : list loc) : Prop :=
  ∀ p, p ∈ ps → (λ e, (te_prev e, te_next e)) <$> h !! p = (λ e, (te_prev e, te_next e)) <$> h' !! p.

Lemma dseg_frame h h' prev ps nxt : links_eq h h' ps → dseg h prev ps nxt → dseg h' prev ps nxt.
Proof.
  revert prev. induction ps as [|p ps IH]; intros prev He; [done|]. intros [(e & Hp & H1 & H2) Hs]. split.
  - specialize (He p ltac:(by left)). rewrite Hp in He. destruct (h' !! p) as [e'|]; [|done].
    injection He as E1 E2. exists e'. split_and!; [done|congruence|congruence].
  - apply IH; [|done]. intros q Hq. apply He. by right.
Qed.

(** The last element of a segment gets another successor, the first another
    predecessor. *)
Lemma dseg_set_last h prev ps q e nxt nxt' : q ∉ ps → h !! q = Some e → dseg h prev (ps ++ [q]) nxt →
  dseg (<[q := te_set_links (te_prev e) nxt' e]> h) prev (ps ++ [q]) nxt'.
Proof.
  intros Hq He H. apply dseg_app in H as [H1 [(e' & He' & Hp & _) _]]. rewrite He in He'. injection He' as <-.
  apply dseg_app. split.
  - eapply dseg_frame; [|exact H1]. intros p Hp'. rewrite lookup_insert_ne by set_solver. done.
  - split; [|done]. exists (te_set_links (te_prev e) nxt' e). by rewrite lookup_insert_eq.
Qed.

Lemma dseg_set_first h prev prev' q ps e nxt : q ∉ ps → h !! q = Some e → dseg h prev (q :: ps) nxt →
  dseg (<[q := te_set_links prev' (te_next e) e]> h) prev' (q :: ps) nxt.
Proof.
  intros Hq He [(e' & He' & _ & Hn) Hs]. rewrite He in He'. injection He' as <-. split.
  - exists (te_set_links prev' (te_next e) e). by rewrite lookup_insert_eq.
  - eapply dseg_frame; [|exact Hs]. intros p Hp. rewrite lookup_insert_ne by set_solver. done.
Qed.

(** What an entry holds apart from its place in the list of use. *)
Definition te_data (e : tool_memory_entry) : tool_memory_entry := te_set_links None None e.

Definition data_eq (h h' : heap) : Prop := ∀ p, te_data <$> h !! p = te_data <$> h' !! p.

Lemma data_eq_refl h : data_eq h h.
Proof. done. Qed.

Lemma data_eq_trans h1 h2 h3 : data_eq h1 h2 → data_eq h2 h3 → data_eq h1 h3.
Proof. intros H1 H2 p. by rewrite H1. Qed.

Lemma data_eq_links h p e a b : h !! p = Some e → data_eq h (<[p := te_set_links a b e]> h).
Proof.
  intros He q. destruct (decide (p = q)) as [<-|]; [|by rewrite lookup_insert_ne].
  by rewrite lookup_insert_eq, He.
Qed.

#[export] Hint Resolve data_eq_refl data_eq_links : spark.

(** ** The list of use *)

Section lru.
Context {R : Type} `{!RaxOps R}.
Implicit Types m : tool_memory R.

Definition lru m (ps : list loc) : Prop :=
  NoDup ps ∧ dseg (tm_ents m) None ps None ∧ tm_head m = head ps ∧ tm_tail m = last ps.

(** Everything but the links, the head and the tail is the same. *)
Definition relinked m m' : Prop :=
  data_eq (tm_ents m) (tm_ents m')
  ∧ m' = set_head (tm_head m') (set_tail (tm_tail m') (set_ents (tm_ents m') m)).

Lemma relinked_trans m1 m2 m3 : relinked m1 m2 → relinked m2 m3 → relinked m1 m3.
Proof.
  intros [D1 E1] [D2 E2]. split; [by eapply data_eq_trans|]. rewrite E2. rewrite E1. by destruct m1.
Qed.

Lemma link_head_lru m ps p : lru m ps → p ∉ ps → is_Some (tm_ents m !! p) →
  ∃ m', tool_memory_link_head m p = Some m' ∧ lru m' (p :: ps) ∧ relinked m m'.
Proof.
  intros (Hnd & Hs & Hh & Ht) Hp [e He]. unfold tool_memory_link_head, upd_ent. rewrite He. cbn [mbind option_bind].
  destruct ps as [|h ps].
  - cbn [set_ents tm_head]. rewrite Hh. cbn [head mbind option_bind]. eexists. split; [done|]. split.
    + split_and!; [apply NoDup_singleton| |done|done]. split; [|done]. eexists. cbn. by rewrite lookup_insert_eq.
    + split; [cbn; by apply data_eq_links|]. by destruct m.
  - destruct Hs as [(eh & Heh & Hhp & Hhn) Hs]. cbn [set_ents tm_head tm_ents]. rewrite Hh.
    cbn [head mbind option_bind]. assert (p ≠ h) by set_solver.
    rewrite lookup_insert_ne, Heh by done. cbn [mbind option_bind]. eexists. split; [done|]. split.
    + split_and!; [by apply NoDup_cons| |done|cbn; by rewrite Ht]. cbn [tm_ents set_head set_ents]. split.
      { eexists. rewrite lookup_insert_ne, lookup_insert_eq by done. done. }
      apply NoDup_cons in Hnd as [Hnh _].
      apply (dseg_set_first _ None); [done|by rewrite lookup_insert_ne|]. split.
      { exists eh. by rewrite lookup_insert_ne. }
      eapply dseg_frame; [|exact Hs]. intros q Hq. rewrite lookup_insert_ne by set_solver. done.
    + split; [|by destruct m]. cbn. eapply data_eq_trans; [by apply data_eq_links|].
      apply data_eq_links. by rewrite lookup_insert_ne.
Qed.

(** The element before, or the head, now points to [nxt]. *)
Lemma fix_before m l1 nxt nxt' : NoDup l1 → dseg (tm_ents m) None l1 nxt →
  ∃ m', (match last_of None l1 with
         | Some q => upd_ent q (λ x, te_set_links (te_prev x) nxt' x) m
         | None => Some (set_head nxt' m)
         end) = Some m'
    ∧ dseg (tm_ents m') None l1 nxt' ∧ relinked m m' ∧ tm_tail m' = tm_tail m
    ∧ tm_head m' = (match l1 with [] => nxt' | _ => tm_head m end)
    ∧ ∀ q, q ∉ l1 → tm_ents m' !! q = tm_ents m !! q.
Proof.
  intros Hnd Hs. destruct l1 as [|q l1 _] using rev_ind.
  - eexists. split; [done|]. split_and!; [done| |done|done|done]. split; [done|]. by destruct m.
  - unfold last_of. rewrite last_snoc. apply NoDup_app in Hnd as (Hnd & Hdis & _).
    assert (Hq : q ∉ l1) by (intros Hq; apply (Hdis q Hq); by left).
    pose proof Hs as [_ [(e & He & _ & _) _]]%dseg_app. unfold upd_ent. rewrite He. cbn [mbind option_bind].
    eexists. split; [done|]. split_and!.
    + by apply (dseg_set_last _ _ _ _ _ nxt).
    + split; [by apply data_eq_links|]. by destruct m.
    + done.
    + by destruct l1.
    + intros r Hr. cbn. rewrite lookup_insert_ne; [done|]. intros <-. apply Hr, elem_of_app. right. by left.
Qed.

Lemma fix_after m l2 prev prev' : NoDup l2 → dseg (tm_ents m) prev l2 None →
  ∃ m', (match first_of l2 None with
         | Some q => upd_ent q (λ x, te_set_links prev' (te_next x) x) m
         | None => Some (set_tail prev' m)
         end) = Some m'
    ∧ dseg (tm_ents m') prev' l2 None ∧ relinked m m' ∧ tm_head m' = tm_head m
    ∧ tm_tail m' = (match l2 with [] => prev' | _ => tm_tail m end)
    ∧ ∀ q, q ∉ l2 → tm_ents m' !! q = tm_ents m !! q.
Proof.
  intros Hnd Hs. destruct l2 as [|q l2].
  - eexists. split; [done|]. split_and!; [done| |done|done|done]. split; [done|]. by destruct m.
  - apply NoDup_cons in Hnd as [Hq Hnd]. pose proof Hs as [(e & He & _ & _) _]. cbn [first_of].
    unfold upd_ent. rewrite He. cbn [mbind option_bind]. eexists. split; [done|]. split_and!; [| |done|done|].
    + by apply (dseg_set_first _ prev).
    + split; [by apply data_eq_links|]. by destruct m.
    + intros r Hr. cbn. rewrite lookup_insert_ne; [done|]. set_solver.
Qed.

Lemma unlink_lru m l1 p l2 : lru m (l1 ++ p :: l2) →
  ∃ m', tool_memory_unlink m p = Some m' ∧ lru m' (l1 ++ l2) ∧ relinked m m'.
Proof.
  intros (Hnd & Hs & Hh & Ht). pose proof Hnd as (N1 & Hd & [Np N2]%NoDup_cons)%NoDup_app.
  assert (Hp1 : p ∉ l1) by (intros H; apply (Hd p H); by left).
  pose proof Hs as [S1 [(e & He & Hep & Hen) S2]]%dseg_app. cbn [first_of] in S1.
  change (match l2 with [] => None | q :: _ => Some q end) with (first_of l2 None) in Hen.
  unfold tool_memory_unlink. rewrite He. cbn [mbind option_bind]. rewrite Hep.
  destruct (fix_before m l1 (Some p) (te_next e) N1 S1) as (m1 & -> & D1 & R1 & T1 & H1 & F1).
  cbn [mbind option_bind]. rewrite F1, He by done. cbn [mbind option_bind]. rewrite Hen.
  assert (S2' : dseg (tm_ents m1) (Some p) l2 None).
  { eapply dseg_frame; [|exact S2]. intros q Hq. rewrite F1; [done|]. intros Hq1. apply (Hd q Hq1). by right. }
  destruct (fix_after m1 l2 (Some p) (te_prev e) N2 S2') as (m2 & -> & D2 & R2 & H2 & T2 & F2).
  cbn [mbind option_bind]. unfold upd_ent. rewrite F2, F1, He by done. cbn [mbind option_bind].
  eexists. split; [done|]. split; [split_and!|].
  - apply NoDup_app. split_and!; [done| |done]. intros x Hx Hx2. apply (Hd x Hx). by right.
  - apply dseg_app. cbn [tm_ents set_ents]. rewrite <- Hen, <- Hep. split.
    + eapply dseg_frame; [|exact D1]. intros q Hq. rewrite lookup_insert_ne by (intros <-; done).
      rewrite F2; [done|]. intros Hq2. apply (Hd q Hq). by right.
    + eapply dseg_frame; [|exact D2]. intros q Hq. rewrite lookup_insert_ne by (intros <-; done). done.
  - cbn. rewrite H2, H1, Hh, Hen. by destruct l1, l2.
  - cbn. rewrite T2, T1, Ht, Hep, !last_app. unfold last_of.
    destruct l2 as [|x l2]; [cbn; by destruct (last l1)|]. rewrite (last_cons p).
    destruct (last (x :: l2)) eqn:E; [done|]. by apply last_None in E.
  - eapply relinked_trans; [exact R1|]. eapply relinked_trans; [exact R2|]. split; [|by destruct m2].
    cbn. apply data_eq_links. by rewrite F2, F1, He.
Qed.

End lru.

(** ** The entries of a block *)

Fixpoint chain (h : heap) (start : option loc) (c : list loc) : Prop :=
  match c with
  | [] => start = None
  | p :: c' => start = Some p ∧ ∃ e, h !! p = Some e ∧ chain h (te_block_next e) c'
  end.

Definition chain_eq (h h' : heap) (c : list loc) : Prop :=
  ∀ p, p ∈ c → te_block_next <$> h !! p = te_block_next <$> h' !! p.

Lemma chain_frame h h' s c : chain_eq h h' c → chain h s c → chain h' s c.
Proof.
  revert s. induction c as [|p c IH]; intros s He; [done|]. intros [-> (e & Hp & Hc)]. split; [done|].
  pose proof (He p ltac:(by left)) as H. rewrite Hp in H. destruct (h' !! p) as [e'|] eqn:E; [|done].
  injection H as H. exists e'. split; [done|]. rewrite <- H. apply IH; [|done]. intros q Hq. apply He. by right.
Qed.

Lemma chain_app h s c1 p c2 : chain h s (c1 ++ p :: c2) → ∃ e, h !! p = Some e ∧ chain h (te_block_next e) c2.
Proof.
  revert s. induction c1 as [|q c1 IH]; intros s; cbn [app chain].
  - intros [_ (e & He & Hc)]. by exists e.
  - intros [_ (e & _ & Hc)]. by apply IH in Hc.
Qed.

(** The chain up to [q] with another tail after it. *)
Lemma chain_set_next h s c1 q c2 e n c3 : NoDup (c1 ++ q :: c2) → h !! q = Some e → chain h s (c1 ++ q :: c2) →
  chain (<[q := te_set_block_next n e]> h) n c3 → chain (<[q := te_set_block_next n e]> h) s (c1 ++ q :: c3).
Proof.
  revert s. induction c1 as [|r c1 IH]; intros s Hnd He; cbn [app chain].
  - intros [-> _] Hc. split; [done|]. exists (te_set_block_next n e). by rewrite lookup_insert_eq.
  - cbn [app] in Hnd. apply NoDup_cons in Hnd as [Hr Hnd]. intros [-> (x & Hx & Hc)] Hn. split; [done|].
    exists x. split; [|by apply IH]. rewrite lookup_insert_ne; [done|]. intros <-. apply Hr, elem_of_app. right. by left.
Qed.

Lemma chain_present h s c p : chain h s c → p ∈ c → is_Some (h !! p).
Proof.
  intros Hc (c1 & c2 & ->)%list_elem_of_split. apply chain_app in Hc as (e & -> & _). by eexists.
Qed.

Lemma nodup_size (h : heap) l : NoDup l → (∀ p, p ∈ l → is_Some (h !! p)) → (length l <= size h)%nat.
Proof.
  intros Hnd Hin. rewrite <- size_dom, <- (size_list_to_set (C := gset loc) l Hnd).
  apply subseteq_size. intros p Hp%elem_of_list_to_set. by apply elem_of_dom, Hin.
Qed.

(** What an entry holds apart from its place among the entries of its block. *)
Definition te_core (e : tool_memory_entry) : tool_memory_entry := te_set_block_next None e.

Definition core_eq (h h' : heap) : Prop := ∀ p, te_core <$> h !! p = te_core <$> h' !! p.

Lemma core_eq_next h p e n : h !! p = Some e → core_eq h (<[p := te_set_block_next n e]> h).
Proof.
  intros He q. destruct (decide (p = q)) as [<-|]; [|by rewrite lookup_insert_ne].
  by rewrite lookup_insert_eq, He.
Qed.

Lemma core_eq_trans h1 h2 h3 : core_eq h1 h2 → core_eq h2 h3 → core_eq h1 h3.
Proof. intros H1 H2 p. by rewrite H1. Qed.

Section unchain.
Context {R : Type} `{!RaxOps R}.
Implicit Types m : tool_memory R.

Lemma unlink_loop_at m b fuel c1 at_ p c2 s : read_chain m b at_ = Some s → chain (tm_ents m) s (c1 ++ p :: c2) →
  NoDup (c1 ++ p :: c2) → (length c1 < fuel)%nat →
  block_unlink_loop fuel m b at_ p =
  (x ← tm_ents m !! p; m ← write_chain m b (last_of at_ c1) (te_block_next x); upd_ent p (te_set_block_next None) m).
Proof.
  revert at_ s fuel. induction c1 as [|q c1 IH]; intros at_ s fuel Hr Hc Hnd Hf; (destruct fuel as [|fuel]; [simpl in Hf; lia|]);
    cbn [block_unlink_loop]; rewrite Hr; cbn [mbind option_bind]; destruct Hc as [-> (e & He & Hc)].
  - by rewrite decide_True.
  - cbn [app] in Hnd. apply NoDup_cons in Hnd as [Hq Hnd]. rewrite decide_False by set_solver. rewrite last_of_cons.
    eapply IH; [|exact Hc|done|simpl in Hf; lia]. unfold read_chain. by rewrite He.
Qed.

Lemma block_unlink_chain m b blk c1 p c2 : tm_blocks m !! b = Some blk →
  chain (tm_ents m) (b_entries blk) (c1 ++ p :: c2) → NoDup (c1 ++ p :: c2) →
  ∃ m' v, tool_block_unlink_entry m b p = Some m'
    ∧ m' = set_ents (tm_ents m') (set_blocks (<[b := b_set_entries v blk]> (tm_blocks m)) m)
    ∧ chain (tm_ents m') v (c1 ++ c2) ∧ core_eq (tm_ents m) (tm_ents m')
    ∧ ∀ q, q ∉ c1 ++ p :: c2 → tm_ents m' !! q = tm_ents m !! q.
Proof.
  intros Hb Hc Hnd. pose proof (chain_app _ _ _ _ _ Hc) as (e & He & Hc2).
  pose proof (nodup_size (tm_ents m) _ Hnd (λ q, chain_present _ _ _ q Hc)) as Hsz. rewrite length_app in Hsz. simpl in Hsz.
  unfold tool_block_unlink_entry. erewrite unlink_loop_at; [|unfold read_chain; by rewrite Hb|exact Hc|done|lia].
  rewrite He. cbn [mbind option_bind].
  destruct c1 as [|q c1 _] using rev_ind; unfold last_of; cbn [last]; rewrite ?last_snoc; cbn [write_chain].
  - unfold upd_block, upd_ent. rewrite Hb. cbn [mbind option_bind tm_ents set_blocks]. rewrite He. cbn [mbind option_bind].
    eexists _, (te_block_next e). split; [done|]. apply NoDup_cons in Hnd as [Hp _]. split_and!; [by destruct m| |by apply core_eq_next|].
    + eapply chain_frame; [|exact Hc2]. intros q Hq. cbn. by rewrite lookup_insert_ne by set_solver.
    + intros q Hq. cbn. rewrite lookup_insert_ne; [done|]. set_solver.
  - rewrite <- app_assoc in *. cbn [app] in *. pose proof (chain_app _ _ _ _ _ Hc) as (eq & Heq & _).
    apply NoDup_app in Hnd as Hnd'. destruct Hnd' as (_ & Hd & [Hq [Hp _]%NoDup_cons]%NoDup_cons).
    assert (Hqp : q ≠ p) by set_solver. assert (Hp1 : p ∉ c1) by (intros H; by apply (Hd p H); set_solver).
    assert (Hq1 : q ∉ c1) by (intros H; by apply (Hd q H); set_solver).
    unfold upd_ent. rewrite Heq. cbn [mbind option_bind tm_ents set_ents]. rewrite lookup_insert_ne, He by done.
    cbn [mbind option_bind]. eexists _, (b_entries blk). split; [done|]. cbn [tm_ents set_ents]. split_and!.
    + rewrite (insert_id (tm_blocks m)); [by destruct m|]. rewrite Hb. by destruct blk.
    + eapply chain_frame; [|eapply (chain_set_next _ _ c1 q (p :: c2) eq (te_block_next e) c2); [done|done|done|]].
      * intros r Hr. rewrite (lookup_insert_ne _ p); [done|]. set_solver.
      * eapply chain_frame; [|exact Hc2]. intros r Hr. rewrite lookup_insert_ne by set_solver. done.
    + eapply core_eq_trans; [by apply core_eq_next|]. apply core_eq_next. by rewrite lookup_insert_ne.
    + intros r Hr. rewrite !lookup_insert_ne by set_solver. done.
Qed.

End unchain.

(** ** The invariant *)

(** What an entry holds apart from all its links. *)
Definition te_plain (e : tool_memory_entry) : bytes * loc * Z * tool_memory_source :=
  (te_id e, te_block e, te_bytes e, te_source e).

Definition plain_eq (h h' : heap) : Prop := ∀ p, te_plain <$> h !! p = te_plain <$> h' !! p.

Lemma data_plain h h' : data_eq h h' → plain_eq h h'.
Proof.
  intros H p. specialize (H p). destruct (h !! p) as [e|], (h' !! p) as [e'|]; [|done..].
  destruct e, e'. cbn in *. injection H. by intros; subst.
Qed.

Lemma core_plain h h' : core_eq h h' → plain_eq h h'.
Proof.
  intros H p. specialize (H p). destruct (h !! p) as [e|], (h' !! p) as [e'|]; [|done..].
  destruct e, e'. cbn in *. injection H. by intros; subst.
Qed.

Lemma plain_trans h1 h2 h3 : plain_eq h1 h2 → plain_eq h2 h3 → plain_eq h1 h3.
Proof. intros H1 H2 p. by rewrite H1. Qed.

Lemma plain_sym h1 h2 : plain_eq h1 h2 → plain_eq h2 h1.
Proof. by intros H p. Qed.

Lemma plain_lookup h h' p e : plain_eq h h' → h !! p = Some e →
  ∃ e', h' !! p = Some e' ∧ te_id e' = te_id e ∧ te_block e' = te_block e ∧ te_bytes e' = te_bytes e ∧ te_source e' = te_source e.
Proof.
  intros H He. specialize (H p). rewrite He in H. destruct (h' !! p) as [e'|]; [|done]. injection H as E1 E2 E3 E4.
  by exists e'.
Qed.

Lemma core_links h h' ps : core_eq h h' → links_eq h h' ps.
Proof.
  intros H p _. specialize (H p). destruct (h !! p) as [e|], (h' !! p) as [e'|]; [|done..].
  destruct e, e'. cbn in *. injection H. by intros; subst.
Qed.

Lemma data_chain h h' c : data_eq h h' → chain_eq h h' c.
Proof.
  intros H p _. specialize (H p). destruct (h !! p) as [e|], (h' !! p) as [e'|]; [|done..].
  destruct e, e'. cbn in *. injection H. by intros; subst.
Qed.

(** [c] are the entries of block [b]. *)
Definition entries_of (h : heap) (b : loc) (c : list loc) : Prop :=
  NoDup c ∧ ∀ p, p ∈ c ↔ ∃ e, h !! p = Some e ∧ te_block e = b.

Definition block_data_ok (blk : tool_memory_block) : Prop :=
  b_dsml blk ≠ [] ∧ b_len blk = length (b_dsml blk) ∧ b_bytes blk = Z.of_nat (length (b_dsml blk)) + 1 + sizeof_block.

Definition entry_ok (e : tool_memory_entry) : Prop :=
  te_id e ≠ [] ∧ te_bytes e = Z.of_nat (length (te_id e)) + 1 + sizeof_entry.

Definition block_ok (h : heap) (b : loc) (blk : tool_memory_block) : Prop :=
  block_data_ok blk ∧ ∃ c, chain h (b_entries blk) c ∧ entries_of h b c ∧ c ≠ [] ∧ b_refs blk = Z.of_nat (length c).

Definition tree_find {R} `{!RaxOps R} (t : option R) (k : bytes) : option loc := t ≫= λ t, raxFind t k.

Record tm_wf {R} `{!RaxOps R} (m : tool_memory R) (ps : list loc) : Prop := {
  wf_lru : lru m ps;
  wf_dom p : is_Some (tm_ents m !! p) ↔ p ∈ ps;
  wf_trees : is_Some (tm_by_id m) ↔ is_Some (tm_by_block m);
  wf_id id p : tree_find (tm_by_id m) id = Some p ↔ ∃ e, tm_ents m !! p = Some e ∧ te_id e = id;
  wf_tree_block d b : tree_find (tm_by_block m) d = Some b ↔ ∃ blk, tm_blocks m !! b = Some blk ∧ b_dsml blk = d;
  wf_entry p e : tm_ents m !! p = Some e → entry_ok e ∧ is_Some (tm_blocks m !! te_block e);
  wf_block b blk : tm_blocks m !! b = Some blk → block_ok (tm_ents m) b blk;
  wf_entries : tm_entries m = Z.of_nat (length ps);
  wf_bytes : tm_bytes m = msum te_bytes (tm_ents m) + msum b_bytes (tm_blocks m);
  wf_seen b blk : tm_blocks m !! b = Some blk → 0 <= b_seen blk <= tm_scan_clock m;
  wf_scan : 0 <= tm_scan_clock m;
}.

Lemma entries_of_plain h h' b c : plain_eq h h' → entries_of h b c → entries_of h' b c.
Proof.
  intros He [Hnd H]. split; [done|]. intros p. rewrite H. split; intros (e & Hp & Hb).
  - destruct (plain_lookup _ _ _ _ He Hp) as (e' & Hp' & _ & Hb' & _). exists e'. split; [done|congruence].
  - destruct (plain_lookup _ _ _ _ (plain_sym _ _ He) Hp) as (e' & Hp' & _ & Hb' & _). exists e'. split; [done|congruence].
Qed.

Lemma entries_of_unique h b c c' : entries_of h b c → entries_of h b c' → c ≡ₚ c'.
Proof. intros [H1 E1] [H2 E2]. apply NoDup_Permutation; [done|done|]. intros p. by rewrite E1, E2. Qed.

(** The id, the text and the source that an entry stands for. *)
Record cached := Cached { ca_id : bytes; ca_text : bytes; ca_source : tool_memory_source }.

Definition view {R} (m : tool_memory R) (p : loc) : option cached :=
  e ← tm_ents m !! p; b ← tm_blocks m !! te_block e; Some (Cached (te_id e) (b_dsml b) (te_source e)).

Section remove.
Context {R : Type} `{!RaxOps R} `{!Rax R}.
Implicit Types m : tool_memory R.

(** What the removal of an entry leaves behind. *)
Record removed m (p : loc) (e : tool_memory_entry) (blk : tool_memory_block) (l : list loc) (c : list loc) m' : Prop := {
  rm_lru : lru m' l;
  rm_limits : tm_max_entries m' = tm_max_entries m ∧ tm_max_bytes m' = tm_max_bytes m;
  rm_scan : tm_scan_clock m' = tm_scan_clock m;
  rm_by_id : tm_by_id m' = (λ t, raxRemove t (te_id e)) <$> tm_by_id m;
  rm_by_block : tm_by_block m' = if decide (c = []) then (λ t, raxRemove t (b_dsml blk)) <$> tm_by_block m else tm_by_block m;
  rm_plain : plain_eq (delete p (tm_ents m)) (tm_ents m');
  rm_blocks : ∃ v, tm_blocks m' = (if decide (c = []) then delete (te_block e) (tm_blocks m)
    else <[te_block e := b_set_refs (b_refs blk - 1) (b_set_entries v blk)]> (tm_blocks m)) ∧ chain (tm_ents m') v c;
  rm_chains q : q ∉ p :: c → te_block_next <$> tm_ents m' !! q = te_block_next <$> tm_ents m !! q;
  rm_entries : tm_entries m' = if 0 <? tm_entries m then tm_entries m - 1 else tm_entries m;
  rm_bytes : tm_bytes m' = (let n := if te_bytes e <=? tm_bytes m then tm_bytes m - te_bytes e else 0 in
     if decide (c = []) then (if b_bytes blk <=? n then n - b_bytes blk else 0) else n);
}.

Lemma relinked_fields m m' : relinked m m' →
  tm_by_id m' = tm_by_id m ∧ tm_by_block m' = tm_by_block m ∧ tm_entries m' = tm_entries m
  ∧ tm_max_entries m' = tm_max_entries m ∧ tm_bytes m' = tm_bytes m ∧ tm_max_bytes m' = tm_max_bytes m
  ∧ tm_clock m' = tm_clock m ∧ tm_scan_clock m' = tm_scan_clock m ∧ tm_blocks m' = tm_blocks m.
Proof. intros [_ ->]. done. Qed.

Lemma plain_delete h h' p : plain_eq h h' → plain_eq (delete p h) (delete p h').
Proof.
  intros H q. destruct (decide (p = q)) as [<-|]; [by rewrite !lookup_delete_eq|]. by rewrite !lookup_delete_ne.
Qed.

Lemma chain_delete h s c p : p ∉ c → chain h s c → chain (delete p h) s c.
Proof. intros Hp. apply chain_frame. intros q Hq. rewrite lookup_delete_ne; [done|]. set_solver. Qed.

Lemma dseg_delete h prev ps nxt p : p ∉ ps → dseg h prev ps nxt → dseg (delete p h) prev ps nxt.
Proof. intros Hp. apply dseg_frame. intros q Hq. rewrite lookup_delete_ne; [done|]. set_solver. Qed.

Lemma remove_entry_run m l1 p l2 e blk c1 c2 : lru m (l1 ++ p :: l2) → tm_ents m !! p = Some e →
  tm_blocks m !! te_block e = Some blk → chain (tm_ents m) (b_entries blk) (c1 ++ p :: c2) → NoDup (c1 ++ p :: c2) →
  b_refs blk = Z.of_nat (length (c1 ++ p :: c2)) →
  ∃ m', tool_memory_remove_entry_locked m p = Some m' ∧ removed m p e blk (l1 ++ l2) (c1 ++ c2) m'.
Proof.
  intros Hl He Hb Hc Hnd Hrefs. unfold tool_memory_remove_entry_locked. rewrite He. cbn [mbind option_bind].
  set (m0 := set_trees _ _ m).
  destruct (unlink_lru m0 l1 p l2) as (m1 & -> & L1 & R1); [done|]. cbn [mbind option_bind].
  pose proof (relinked_fields _ _ R1) as (I1 & B1 & E1 & X1 & Y1 & Z1 & C1 & S1 & K1). destruct R1 as [D1 _].
  destruct (block_unlink_chain m1 (te_block e) blk c1 p c2) as (m2 & v & -> & E2 & V2 & D2 & F2);
    [by rewrite K1|by eapply chain_frame; [apply data_chain|]|done|]. cbn [mbind option_bind].
  assert (Hp : p ∉ c1 ++ c2).
  { apply NoDup_app in Hnd as (_ & Hd & [Hp _]%NoDup_cons). intros [H|H]%elem_of_app; [|done]. apply (Hd p H). by left. }
  assert (Hpl : p ∉ l1 ++ l2).
  { destruct Hl as [(_ & Hd & [Hp' _]%NoDup_cons)%NoDup_app _]. intros [H|H]%elem_of_app; [|done]. apply (Hd p H). by left. }
  unfold tool_memory_release_block_locked, upd_block. rewrite E2.
  cbn [tm_blocks set_ents set_blocks set_counts sub_bytes]. rewrite lookup_insert_eq.
  cbn [mbind option_bind tm_blocks set_blocks]. rewrite lookup_insert_eq. cbn [mbind option_bind b_refs b_set_refs b_set_entries].
  assert (Hl2 : lru (set_ents (delete p (tm_ents m2)) m1) (l1 ++ l2)).
  { destruct L1 as (N1 & D & Hh & Ht). split_and!; [done| |done|done]. apply dseg_delete; [done|].
    eapply dseg_frame; [by apply core_links|done]. }
  assert (Hpl2 : plain_eq (delete p (tm_ents m)) (delete p (tm_ents m2))).
  { apply plain_delete. eapply plain_trans; [by apply data_plain|by apply core_plain]. }
  assert (Hch : ∀ q, q ∉ p :: c1 ++ c2 → te_block_next <$> delete p (tm_ents m2) !! q = te_block_next <$> tm_ents m !! q).
  { intros q Hq. rewrite lookup_delete_ne by set_solver. rewrite F2 by set_solver. symmetry. by apply (data_chain _ _ [q] D1); left. }
  assert (Hd : (0 <? b_refs blk - 1) = negb (bool_decide (c1 ++ c2 = []))).
  { rewrite Hrefs, length_app. cbn [length]. case_bool_decide as Hcc.
    - apply app_nil in Hcc as [-> ->]. done.
    - destruct c1, c2; [done|simpl..]; simpl; apply Z.ltb_lt; lia. }
  rewrite Hd. case_bool_decide as Hcc; cbn [negb mbind option_bind]; eexists; (split; [done|]).
  all: constructor; cbn; rewrite ?E1, ?Y1, ?I1, ?B1, ?K1.
  all: try (rewrite E2; cbn; rewrite S1; done).
  all: try exact Hl2; try exact Hpl2; try exact Hch; try (by rewrite X1, Z1); try done; try (by case_decide).
  all: exists v; (split; [|by apply chain_delete]); case_decide; try done.
  - by rewrite insert_insert_eq, delete_insert_eq.
  - by rewrite insert_insert_eq.
Qed.

Lemma same_block_text m ps b1 b2 k1 k2 : tm_wf m ps → tm_blocks m !! b1 = Some k1 → tm_blocks m !! b2 = Some k2 →
  b_dsml k1 = b_dsml k2 → b1 = b2.
Proof.
  intros W H1 H2 E. assert (tree_find (tm_by_block m) (b_dsml k1) = Some b1) as F1 by (apply (wf_tree_block _ _ W); eauto).
  assert (tree_find (tm_by_block m) (b_dsml k1) = Some b2) as F2 by (apply (wf_tree_block _ _ W); eauto). congruence.
Qed.

Lemma same_entry_id m ps p1 p2 e1 e2 : tm_wf m ps → tm_ents m !! p1 = Some e1 → tm_ents m !! p2 = Some e2 →
  te_id e1 = te_id e2 → p1 = p2.
Proof.
  intros W H1 H2 E. assert (tree_find (tm_by_id m) (te_id e1) = Some p1) as F1 by (apply (wf_id _ _ W); eauto).
  assert (tree_find (tm_by_id m) (te_id e1) = Some p2) as F2 by (apply (wf_id _ _ W); eauto). congruence.
Qed.

Lemma tree_find_remove (t : option R) k k' : k ≠ k' → tree_find ((λ t, raxRemove t k) <$> t) k' = tree_find t k'.
Proof. intros H. destruct t; [|done]. cbn. by apply rax_find_remove_ne. Qed.

Lemma tree_find_removed (t : option R) k : tree_find ((λ t, raxRemove t k) <$> t) k = None.
Proof. destruct t; [|done]. cbn. apply rax_find_remove. Qed.

(** The entries of the blocks other than that of the removed entry. *)
Lemma removed_entries m ps p e blk l c m' b' c' : tm_wf m ps → removed m p e blk l c m' → tm_ents m !! p = Some e →
  b' ≠ te_block e → entries_of (tm_ents m) b' c' → entries_of (tm_ents m') b' c'.
Proof.
  intros W Rm He Hb' Ho. eapply entries_of_plain; [exact (rm_plain _ _ _ _ _ _ _ Rm)|]. destruct Ho as [Hnd H].
  split; [done|]. intros q. rewrite H. split; intros (x & Hx & Hbx); exists x; (split; [|done]).
  - rewrite lookup_delete_ne; [done|]. intros <-. rewrite He in Hx. injection Hx as <-. by symmetry in Hbx.
  - by apply lookup_delete_Some in Hx as [_ Hx].
Qed.

Lemma removed_own m p e blk l c1 c2 m' : removed m p e blk l (c1 ++ c2) m' → tm_ents m !! p = Some e →
  entries_of (tm_ents m) (te_block e) (c1 ++ p :: c2) → entries_of (tm_ents m') (te_block e) (c1 ++ c2).
Proof.
  intros Rm He [Hnd H]. eapply entries_of_plain; [exact (rm_plain _ _ _ _ _ _ _ Rm)|].
  pose proof Hnd as (N1 & Hd & [Hp N2]%NoDup_cons)%NoDup_app. split.
  - apply NoDup_app. split_and!; [done| |done]. intros x Hx H2. apply (Hd x Hx). by right.
  - intros q. assert (Hq : q ∈ c1 ++ c2 ↔ q ≠ p ∧ q ∈ c1 ++ p :: c2).
    { rewrite !elem_of_app, elem_of_cons. split; [|naive_solver]. intros Hq. split; [|naive_solver].
      intros ->. destruct Hq as [Hq|Hq]; [|done]. apply (Hd p Hq). by left. }
    rewrite Hq, H. split.
    + intros [Hne (x & Hx & Hbx)]. exists x. by rewrite lookup_delete_ne.
    + intros (x & [Hne Hx]%lookup_delete_Some & Hbx). split; [done|]. by exists x.
Qed.

Section removed_wf.
Context m l1 p l2 e blk c1 c2 m' (W : tm_wf m (l1 ++ p :: l2)) (He : tm_ents m !! p = Some e)
  (Hb : tm_blocks m !! te_block e = Some blk) (Ho : entries_of (tm_ents m) (te_block e) (c1 ++ p :: c2))
  (Hrefs : b_refs blk = Z.of_nat (length (c1 ++ p :: c2)))
  (Rm : removed m p e blk (l1 ++ l2) (c1 ++ c2) m').

Lemma removed_back q x : tm_ents m' !! q = Some x → q ≠ p ∧ ∃ y, tm_ents m !! q = Some y ∧ te_plain y = te_plain x.
Proof.
  intros Hx. pose proof (rm_plain _ _ _ _ _ _ _ Rm q) as H. rewrite Hx in H.
  destruct (delete p (tm_ents m) !! q) as [y|] eqn:E; [|done]. apply lookup_delete_Some in E as [Hne E].
  split; [done|]. exists y. split; [done|]. by apply (inj Some) in H.
Qed.

Lemma removed_forth q y : q ≠ p → tm_ents m !! q = Some y → ∃ x, tm_ents m' !! q = Some x ∧ te_plain x = te_plain y.
Proof.
  intros Hne Hy. pose proof (rm_plain _ _ _ _ _ _ _ Rm q) as H. rewrite lookup_delete_ne, Hy in H by done.
  destruct (tm_ents m' !! q) as [x|]; [|done]. exists x. split; [done|]. by apply (inj Some) in H.
Qed.

Lemma removed_blocks b k : tm_blocks m' !! b = Some k →
  ∃ k', tm_blocks m !! b = Some k' ∧ b_dsml k = b_dsml k' ∧ b_len k = b_len k' ∧ b_bytes k = b_bytes k' ∧ b_seen k = b_seen k'
    ∧ (b ≠ te_block e → k = k') ∧ (c1 ++ c2 = [] → b ≠ te_block e).
Proof.
  destruct (rm_blocks _ _ _ _ _ _ _ Rm) as (v & -> & _). intros Hk. destruct (decide (c1 ++ c2 = [])).
  - apply lookup_delete_Some in Hk as [Hne Hk]. by exists k.
  - destruct (decide (b = te_block e)) as [->|Hne].
    + rewrite lookup_insert_eq in Hk. injection Hk as <-. by exists blk.
    + rewrite lookup_insert_ne in Hk by done. by exists k.
Qed.

Lemma removed_blocks_forth b k : tm_blocks m !! b = Some k → (c1 ++ c2 = [] → b ≠ te_block e) →
  ∃ k', tm_blocks m' !! b = Some k' ∧ b_dsml k' = b_dsml k.
Proof.
  destruct (rm_blocks _ _ _ _ _ _ _ Rm) as (v & -> & _). intros Hk Hne. destruct (decide (c1 ++ c2 = [])) as [H0|].
  - exists k. by rewrite lookup_delete_ne by (symmetry; auto).
  - destruct (decide (b = te_block e)) as [->|?].
    + rewrite lookup_insert_eq. rewrite Hb in Hk. injection Hk as <-. by eexists.
    + exists k. by rewrite lookup_insert_ne.
Qed.

(** A block without its last entry has none. *)
Lemma removed_last q y : c1 ++ c2 = [] → tm_ents m !! q = Some y → te_block y = te_block e → q = p.
Proof.
  intros H0 Hy Hbl. destruct Ho as [_ H]. assert (Hq : q ∈ c1 ++ p :: c2) by (apply H; eauto).
  apply app_nil in H0 as [-> ->]. by apply list_elem_of_singleton in Hq.
Qed.

Lemma removed_msum_ents : msum te_bytes (tm_ents m') = msum te_bytes (tm_ents m) - te_bytes e.
Proof.
  rewrite (msum_delete te_bytes (tm_ents m) p e He). rewrite (msum_ext te_bytes (tm_ents m') (delete p (tm_ents m))); [lia|].
  intros q. pose proof (rm_plain _ _ _ _ _ _ _ Rm q) as H.
  destruct (delete p (tm_ents m) !! q), (tm_ents m' !! q); try done. apply (inj Some) in H. injection H as _ _ H _. cbn. by rewrite H.
Qed.

Lemma removed_msum_blocks : msum b_bytes (tm_blocks m') =
  msum b_bytes (tm_blocks m) - if decide (c1 ++ c2 = []) then b_bytes blk else 0.
Proof.
  destruct (rm_blocks _ _ _ _ _ _ _ Rm) as (v & -> & _). rewrite (msum_delete b_bytes (tm_blocks m) _ blk Hb).
  destruct (decide (c1 ++ c2 = [])); [lia|]. rewrite <- insert_delete_eq, msum_insert by apply lookup_delete_eq. cbn. lia.
Qed.

Lemma removed_bytes : tm_bytes m' = msum te_bytes (tm_ents m') + msum b_bytes (tm_blocks m').
Proof.
  rewrite removed_msum_ents, removed_msum_blocks, (rm_bytes _ _ _ _ _ _ _ Rm), (wf_bytes _ _ W). cbn zeta.
  rewrite (msum_delete te_bytes _ _ _ He), (msum_delete b_bytes _ _ _ Hb).
  assert (H1 : 0 <= msum te_bytes (delete p (tm_ents m))).
  { apply msum_nonneg. intros q x [_ Hx]%lookup_delete_Some. destruct (wf_entry _ _ W _ _ Hx) as [[_ ->] _].
    unfold sizeof_entry. lia. }
  assert (Hbb : ∀ b k, tm_blocks m !! b = Some k → 0 <= b_bytes k).
  { intros b k Hk. destruct (wf_block _ _ W _ _ Hk) as [(_ & _ & ->) _]. unfold sizeof_block. lia. }
  assert (H2 : 0 <= msum b_bytes (delete (te_block e) (tm_blocks m))).
  { apply msum_nonneg. intros q x [_ Hx]%lookup_delete_Some. by eapply Hbb. }
  pose proof (Hbb _ _ Hb). destruct (wf_entry _ _ W _ _ He) as [[_ Heb] _]. unfold sizeof_entry in Heb.
  destruct (Z.leb_spec (te_bytes e) (te_bytes e + msum te_bytes (delete p (tm_ents m)) + (b_bytes blk + msum b_bytes (delete (te_block e) (tm_blocks m))))); [|lia].
  destruct (decide (c1 ++ c2 = [])); [|lia]. case_if; bool_to_prop; lia.
Qed.

Lemma removed_block_ok b k : tm_blocks m' !! b = Some k → block_ok (tm_ents m') b k.
Proof.
  intros Hk. destruct (removed_blocks b k Hk) as (k' & Hk' & E1 & E2 & E3 & _ & Hsame & Hlast).
  pose proof (wf_block _ _ W _ _ Hk') as [(D1 & D2 & D3) (c & Hc & Hoc & Hne & Hr)].
  split; [split_and!; congruence|]. destruct (decide (b = te_block e)) as [->|Hbe].
  - exists (c1 ++ c2). destruct (rm_blocks _ _ _ _ _ _ _ Rm) as (v & Hbl & Hv). rewrite Hbl in Hk.
    destruct (decide (c1 ++ c2 = [])) as [H0|]; [by destruct (Hlast H0)|]. rewrite lookup_insert_eq in Hk. injection Hk as <-.
    split_and!; [done|by eapply removed_own|done|]. cbn. rewrite Hrefs, !length_app. cbn. lia.
  - exists c. rewrite Hsame by done. split_and!; [|by eapply removed_entries|done|done].
    eapply chain_frame; [|exact Hc]. intros q Hq. symmetry. apply (rm_chains _ _ _ _ _ _ _ Rm).
    destruct Hoc as [_ Hoc]. apply Hoc in Hq as (x & Hx & Hbx). intros Hqc.
    assert (q ∈ c1 ++ p :: c2) as Hq' by set_solver. destruct Ho as [_ Ho']. apply Ho' in Hq' as (y & Hy & Hby). congruence.
Qed.

Lemma removed_wf : tm_wf m' (l1 ++ l2).
Proof.
  constructor.
  - exact (rm_lru _ _ _ _ _ _ _ Rm).
  - intros q. pose proof (wf_lru _ _ W) as [(_ & Hd & [Hp _]%NoDup_cons)%NoDup_app _].
    assert (Hq : q ∈ l1 ++ l2 ↔ q ≠ p ∧ q ∈ l1 ++ p :: l2).
    { rewrite !elem_of_app, elem_of_cons. split; [|naive_solver]. intros Hq. split; [|naive_solver].
      intros ->. destruct Hq as [Hq|Hq]; [|done]. apply (Hd p Hq). by left. }
    rewrite Hq, <- (wf_dom _ _ W). split.
    + intros [x (Hne & y & Hy & _)%removed_back]. split; [done|by eexists].
    + intros [Hne [y Hy]]. destruct (removed_forth q y Hne Hy) as (x & -> & _). by eexists.
  - rewrite (rm_by_id _ _ _ _ _ _ _ Rm), (rm_by_block _ _ _ _ _ _ _ Rm). case_decide; rewrite ?fmap_is_Some; apply (wf_trees _ _ W).
  - intros id q. rewrite (rm_by_id _ _ _ _ _ _ _ Rm). destruct (decide (te_id e = id)) as [<-|Hne].
    + rewrite tree_find_removed. split; [done|]. intros (x & (Hq & y & Hy & E)%removed_back & Hid). exfalso. apply Hq.
      injection E as E _ _ _. apply (same_entry_id m _ q p y e W Hy He). congruence.
    + rewrite tree_find_remove, (wf_id _ _ W) by done. split.
      * intros (y & Hy & Hid). destruct (removed_forth q y) as (x & Hx & E); [congruence|done|]. exists x. injection E as E _ _ _. split; congruence.
      * intros (x & (Hq & y & Hy & E)%removed_back & Hid). exists y. injection E as E _ _ _. split; congruence.
  - intros d b. rewrite (rm_by_block _ _ _ _ _ _ _ Rm).
    assert (Hiff : (∃ k, tm_blocks m' !! b = Some k ∧ b_dsml k = d) ↔
      (∃ k, tm_blocks m !! b = Some k ∧ b_dsml k = d) ∧ (c1 ++ c2 = [] → b ≠ te_block e)).
    { split.
      - intros (k & (k' & Hk' & E & _ & _ & _ & _ & Hl)%removed_blocks & <-). split; [by exists k'|done].
      - intros [(k & Hk & <-) Hl]. destruct (removed_blocks_forth b k Hk Hl) as (k' & Hk' & E). by exists k'. }
    rewrite Hiff, <- (wf_tree_block _ _ W). destruct (decide (c1 ++ c2 = [])) as [H0|H0]; [|naive_solver].
    destruct (decide (b_dsml blk = d)) as [<-|Hne].
    + rewrite tree_find_removed. split; [done|]. intros [Hf Hl]. apply (wf_tree_block _ _ W) in Hf as (k & Hk & E).
      destruct (Hl H0). by eapply same_block_text.
    + rewrite tree_find_remove by done. split; [|naive_solver]. intros Hf. split; [done|]. intros _ ->.
      apply (wf_tree_block _ _ W) in Hf as (k & Hk & E). congruence.
  - intros q x (Hq & y & Hy & E)%removed_back. injection E as E1 E2 E3 _.
    destruct (wf_entry _ _ W _ _ Hy) as [[O1 O2] [k Hk]]. split; [split; congruence|].
    destruct (removed_blocks_forth _ k Hk) as (k' & Hk' & _); [|rewrite <- E2; by eexists].
    intros H0 Hbe. by apply Hq, (removed_last q y).
  - intros b k. apply removed_block_ok.
  - rewrite (rm_entries _ _ _ _ _ _ _ Rm), (wf_entries _ _ W), !length_app. cbn [length]. case_if; bool_to_prop; lia.
  - apply removed_bytes.
  - intros b k (k' & Hk' & _ & _ & _ & -> & _)%removed_blocks. rewrite (rm_scan _ _ _ _ _ _ _ Rm). by apply (wf_seen _ _ W b).
  - rewrite (rm_scan _ _ _ _ _ _ _ Rm). apply (wf_scan _ _ W).
Qed.

Lemma removed_view q : q ∈ l1 ++ l2 → view m' q = view m q.
Proof.
  intros Hq%(wf_dom _ _ removed_wf). destruct Hq as [x Hx]. pose proof (removed_back q x Hx) as (Hne & y & Hy & E).
  injection E as E1 E2 _ E4. unfold view. rewrite Hx, Hy. cbn [mbind option_bind]. rewrite <- E2.
  destruct (wf_entry _ _ W _ _ Hy) as [_ [k Hk]]. rewrite Hk.
  destruct (removed_blocks_forth _ k Hk) as (k' & Hk' & Ed); [|rewrite Hk'; cbn; congruence].
  intros H0 Hbe. by apply Hne, (removed_last q y).
Qed.

End removed_wf.

Lemma remove_entry_wf m l1 p l2 : tm_wf m (l1 ++ p :: l2) →
  ∃ m', tool_memory_remove_entry_locked m p = Some m' ∧ tm_wf m' (l1 ++ l2)
    ∧ tm_max_entries m' = tm_max_entries m ∧ tm_max_bytes m' = tm_max_bytes m
    ∧ (∀ q, q ∈ l1 ++ l2 → view m' q = view m q)
    ∧ (is_Some (tm_by_id m) → is_Some (tm_by_id m')) ∧ tm_bytes m' <= tm_bytes m.
Proof.
  intros W. assert (Hp : is_Some (tm_ents m !! p)) by (apply (wf_dom _ _ W), elem_of_app; right; by left).
  destruct Hp as [e He]. destruct (wf_entry _ _ W _ _ He) as [_ [blk Hb]].
  destruct (wf_block _ _ W _ _ Hb) as (_ & c & Hc & Ho & _ & Hr). pose proof Ho as [Hnd Hin].
  assert (p ∈ c) as (c1 & c2 & ->)%list_elem_of_split by (apply Hin; eauto).
  destruct (remove_entry_run m l1 p l2 e blk c1 c2) as (m' & Hrun & Rm); [apply (wf_lru _ _ W)|done..|].
  exists m'. split; [done|]. split; [by eapply removed_wf|]. destruct (rm_limits _ _ _ _ _ _ _ Rm). split_and!; [done|done|..].
  - intros q Hq. by eapply removed_view.
  - rewrite (rm_by_id _ _ _ _ _ _ _ Rm). by rewrite fmap_is_Some.
  - assert (W' : tm_wf m' (l1 ++ l2)) by (by eapply removed_wf). rewrite (wf_bytes _ _ W'), (wf_bytes _ _ W).
    rewrite (removed_msum_ents m l1 p l2 e blk c1 c2 m' He Rm), (removed_msum_blocks m l1 p l2 e blk c1 c2 m' Hb Rm).
    destruct (wf_entry _ _ W _ _ He) as [[_ Eb] _]. destruct (wf_block _ _ W _ _ Hb) as [(_ & _ & Bb) _].
    unfold sizeof_entry in Eb. unfold sizeof_block in Bb. case_decide; lia.
Qed.

End remove.
