(* ===== verification/ToolMemoryProps.v ===== *)
(** * The memory of tool calls is a bounded cache in the order of use

    An abstract cache, a list of ids with their text, the last used first, and the
    proof that [ToolMemory] implements it: no operation follows a dangling pointer,
    every operation does to the cache what its abstract counterpart does, and the
    limits hold after every put. *)
From S2P Require Import Prelude CLib Json Request ToolText ToolMemory ToolMemoryWf.

(** ** The abstract cache *)

Definition entry_cost (id : bytes) : Z := Z.of_nat (length id) + 1 + sizeof_entry.
Definition text_cost (text : bytes) : Z := Z.of_nat (length text) + 1 + sizeof_block.

(** A text that several ids share counts once. *)
Definition cost (l : list cached) : Z :=
  sumZ ((entry_cost ∘ ca_id) <$> l) + sumZ (text_cost <$> remove_dups (ca_text <$> l)).

Definition fits (max_entries max_bytes : Z) (l : list cached) : bool :=
  (Z.of_nat (length l) <=? max_entries) && (cost l <=? max_bytes).

(** The oldest go first, until the rest fits. *)
Fixpoint drop_oldest (max_entries max_bytes : Z) (oldest_first : list cached) : list cached :=
  match oldest_first with
  | [] => []
  | x :: r => if fits max_entries max_bytes (reverse oldest_first) then oldest_first else drop_oldest max_entries max_bytes r
  end.

Definition spec_prune (max_entries max_bytes : Z) (l : list cached) : list cached :=
  reverse (drop_oldest max_entries max_bytes (reverse l)).

Definition spec_find (id : bytes) (l : list cached) : option cached :=
  match filter (λ c, ca_id c = id) l with c :: _ => Some c | [] => None end.

Definition spec_forget (id : bytes) (l : list cached) : list cached := filter (λ c, ca_id c ≠ id) l.

(** A text read back from disk is as good as one in memory only for its first use. *)
Definition spec_source (old : option cached) (text : bytes) (source : tool_memory_source) : tool_memory_source :=
  match old with
  | Some c => if decide (ca_text c = text ∧ source = TOOL_MEMORY_DISK) then ca_source c else source
  | None => source
  end.

Definition spec_put (max_entries max_bytes : Z) (id text : bytes) (source : tool_memory_source) (l : list cached) : list cached :=
  spec_prune max_entries max_bytes
    (Cached id text (spec_source (spec_find id l) text source) :: spec_forget id l).

(** A use moves an entry to the front. *)
Definition spec_use (id : bytes) (l : list cached) : list cached :=
  match spec_find id l with Some c => c :: spec_forget id l | None => l end.

(** ** The relation *)

Section rep.
Context {R : Type} `{!RaxOps R}.
Implicit Types m : tool_memory R.

Definition shows m (ps : list loc) (l : list cached) : Prop := Forall2 (λ p c, view m p = Some c) ps l.

Definition tm_rep m (l : list cached) : Prop := ∃ ps, tm_wf m ps ∧ shows m ps l.

Lemma msum_list {A} (f : A → Z) (h : gmap loc A) ps : NoDup ps → (∀ p, is_Some (h !! p) ↔ p ∈ ps) →
  msum f h = sumZ ((λ p, default 0 (f <$> h !! p)) <$> ps).
Proof.
  revert h. induction ps as [|p ps IH]; intros h Hnd Hd.
  - assert (h = ∅) as ->; [|done]. apply map_empty. intros p. apply eq_None_not_Some. rewrite Hd. apply not_elem_of_nil.
  - apply NoDup_cons in Hnd as [Hp Hnd]. assert (Hx : is_Some (h !! p)) by (apply Hd; by left). destruct Hx as [x Hx].
    rewrite (msum_delete f h p x Hx), (IH (delete p h)); [|done|].
    + rewrite fmap_cons, Hx. cbn [sumZ foldr default from_option fmap option_fmap option_map]. f_equal.
      unfold sumZ. f_equal. apply list_fmap_ext. intros i q Hq. apply list_elem_of_lookup_2 in Hq.
      rewrite lookup_delete_ne; [done|]. set_solver.
    + intros q. rewrite lookup_delete_is_Some, Hd, elem_of_cons. set_solver.
Qed.

(** The texts of the blocks are the texts of the cache. *)
Lemma block_texts m ps l : tm_wf m ps → shows m ps l →
  b_dsml ∘ snd <$> map_to_list (tm_blocks m) ≡ₚ remove_dups (ca_text <$> l).
Proof.
  intros W Hv. apply NoDup_Permutation; [|apply NoDup_remove_dups|].
  - apply NoDup_fmap_2_strong; [|apply NoDup_map_to_list]. intros [b1 k1] [b2 k2] H1 H2 E.
    apply elem_of_map_to_list in H1, H2. assert (b1 = b2) as -> by (by eapply same_block_text).
    by rewrite H1 in H2; injection H2 as ->.
  - intros d. rewrite elem_of_remove_dups, !list_elem_of_fmap. split.
    + intros ([b k] & -> & Hk%elem_of_map_to_list). destruct (wf_block _ _ W _ _ Hk) as (_ & c & _ & [_ Hc] & Hne & _).
      destruct c as [|p c]; [done|]. assert (∃ e, tm_ents m !! p = Some e ∧ te_block e = b) as (e & He & Hb) by (apply Hc; by left).
      assert (p ∈ ps) as [i Hi]%list_elem_of_lookup_1 by (apply (wf_dom _ _ W); by eexists).
      destruct (Forall2_lookup_l _ _ _ _ _ Hv Hi) as (x & Hx & Hvx). exists x. split; [|by eapply list_elem_of_lookup_2].
      unfold view in Hvx. rewrite He in Hvx. cbn [mbind option_bind] in Hvx. rewrite Hb, Hk in Hvx. by injection Hvx as <-.
    + intros (x & -> & [i Hi]%list_elem_of_lookup_1). destruct (Forall2_lookup_r _ _ _ _ _ Hv Hi) as (p & Hp & Hvx).
      unfold view in Hvx. destruct (tm_ents m !! p) as [e|]; [|done]. cbn [mbind option_bind] in Hvx.
      destruct (tm_blocks m !! te_block e) as [k|] eqn:Hk; [|done]. injection Hvx as <-.
      exists (te_block e, k). split; [done|]. by apply elem_of_map_to_list.
Qed.

Lemma rep_bytes m ps l : tm_wf m ps → shows m ps l → tm_bytes m = cost l.
Proof.
  intros W Hv. rewrite (wf_bytes _ _ W). unfold cost. f_equal.
  - pose proof (wf_lru _ _ W) as [Hnd _]. rewrite (msum_list te_bytes _ ps Hnd (wf_dom _ _ W)). f_equal.
    pose proof (λ p e, wf_entry _ _ W p e) as We. clear Hnd W.
    induction Hv as [|p c ps' l' Hp _ IH]; [done|]. rewrite !fmap_cons, IH. f_equal. unfold view in Hp. destruct (tm_ents m !! p) as [e|] eqn:He; [|done]. cbn [mbind option_bind] in Hp.
    destruct (tm_blocks m !! te_block e); [|done]. injection Hp as <-. cbn. by destruct (We _ _ He) as [[_ ->] _].
  - rewrite <- (block_texts m ps l W Hv). unfold msum. rewrite <- list_fmap_compose. f_equal. apply list_fmap_ext.
    intros i [b k] Hk%list_elem_of_lookup_2%elem_of_map_to_list. cbn.
    by destruct (wf_block _ _ W _ _ Hk) as [(_ & _ & ->) _].
Qed.

Lemma rep_length m ps l : tm_wf m ps → shows m ps l → tm_entries m = Z.of_nat (length l).
Proof. intros W Hv. rewrite (wf_entries _ _ W). by rewrite (Forall2_length _ _ _ Hv). Qed.

Lemma rep_over m ps l : tm_wf m ps → shows m ps l →
  over_limits m = negb (fits (tool_memory_max_entries m) (tool_memory_max_bytes m) l).
Proof.
  intros W Hv. unfold over_limits, fits. rewrite (rep_bytes _ _ _ W Hv), (rep_length _ _ _ W Hv), negb_andb.
  by rewrite !Z.leb_antisym, !negb_involutive.
Qed.

(** ** Eviction *)

Context `{!Rax R}.

Lemma shows_app_inv m l1 l2 l : shows m (l1 ++ l2) l → ∃ k1 k2, l = k1 ++ k2 ∧ shows m l1 k1 ∧ shows m l2 k2.
Proof. intros (k1 & k2 & H1 & H2 & ->)%Forall2_app_inv_l. by exists k1, k2. Qed.

Lemma shows_mono m m' ps l : (∀ q, q ∈ ps → view m' q = view m q) → shows m ps l → shows m' ps l.
Proof.
  intros H Hv. induction Hv as [|p c ps l Hp _ IH]; [constructor|]. constructor; [rewrite H; [done|by left]|].
  apply IH. intros q Hq. apply H. by right.
Qed.

Lemma spec_prune_snoc me mb l x : spec_prune me mb (l ++ [x]) = if fits me mb (l ++ [x]) then l ++ [x] else spec_prune me mb l.
Proof.
  unfold spec_prune. rewrite reverse_snoc. cbn [drop_oldest]. rewrite reverse_cons, reverse_involutive.
  case_if; [|done]. by rewrite reverse_cons, reverse_involutive.
Qed.

Lemma limits_eq m m' : tm_max_entries m' = tm_max_entries m → tm_max_bytes m' = tm_max_bytes m →
  tool_memory_max_entries m' = tool_memory_max_entries m ∧ tool_memory_max_bytes m' = tool_memory_max_bytes m.
Proof. unfold tool_memory_max_entries, tool_memory_max_bytes. by intros -> ->. Qed.

Lemma prune_loop_rep ps : ∀ fuel m l, tm_wf m ps → shows m ps l → (length ps < fuel)%nat →
  ∃ m', prune_loop fuel m = Some m'
    ∧ tm_rep m' (spec_prune (tool_memory_max_entries m) (tool_memory_max_bytes m) l)
    ∧ tm_max_entries m' = tm_max_entries m ∧ tm_max_bytes m' = tm_max_bytes m.
Proof.
  induction ps as [|p ps IH] using rev_ind; intros fuel m l W Hv Hf; (destruct fuel as [|fuel]; [simpl in Hf; lia|]);
    cbn [prune_loop]; rewrite (rep_over _ _ _ W Hv); pose proof (wf_lru _ _ W) as (_ & _ & _ & ->).
  - cbn [last]. apply Forall2_nil_inv_l in Hv as ->. exists m. split; [by case_match|]. split; [|done]. exists []. split; [done|constructor].
  - rewrite last_snoc. pose proof Hv as (k1 & k2 & -> & Hv1 & Hv2)%shows_app_inv.
    apply Forall2_cons_inv_l in Hv2 as (x & k & _ & ->%Forall2_nil_inv_l & ->).
    rewrite spec_prune_snoc. destruct (fits _ _ (k1 ++ [x])); cbn [negb].
    { exists m. split; [done|]. split; [|done]. by exists (ps ++ [p]). }
    destruct (remove_entry_wf m ps p [] W) as (m1 & -> & W1 & E1 & E2 & Hv' & _). cbn [mbind option_bind]. rewrite app_nil_r in *.
    destruct (IH fuel m1 k1) as (m2 & -> & Hr & E3 & E4); [done|by eapply shows_mono|rewrite length_app in Hf; simpl in Hf; lia|].
    exists m2. split; [done|]. destruct (limits_eq m m1) as [<- <-]; [done|done|]. split; [done|]. by rewrite E3, E4.
Qed.

Lemma prune_rep m ps l : tm_wf m ps → shows m ps l →
  ∃ m', tool_memory_prune_locked m = Some m'
    ∧ tm_rep m' (spec_prune (tool_memory_max_entries m) (tool_memory_max_bytes m) l)
    ∧ tm_max_entries m' = tm_max_entries m ∧ tm_max_bytes m' = tm_max_bytes m.
Proof.
  intros W Hv. apply (prune_loop_rep ps); [done|done|]. pose proof (wf_lru _ _ W) as [Hnd _].
  pose proof (nodup_size (tm_ents m) ps Hnd (λ p, proj2 (wf_dom _ _ W p))). lia.
Qed.

(** ** Changes that keep the shape *)

(** What the invariant says of an entry apart from its place in the list of use. *)
Definition te_shape (e : tool_memory_entry) : bytes * loc * Z * option loc :=
  (te_id e, te_block e, te_bytes e, te_block_next e).

Lemma wf_ext m m' ps ps' : tm_wf m ps → lru m' ps' → ps' ≡ₚ ps →
  (∀ p, te_shape <$> tm_ents m !! p = te_shape <$> tm_ents m' !! p) →
  tm_by_id m' = tm_by_id m → tm_by_block m' = tm_by_block m → tm_blocks m' = tm_blocks m →
  tm_entries m' = tm_entries m → tm_bytes m' = tm_bytes m → tm_scan_clock m' = tm_scan_clock m → tm_wf m' ps'.
Proof.
  intros W L Hp Hs E1 E2 E3 E4 E5 E6.
  assert (Hf : ∀ p e, tm_ents m !! p = Some e → ∃ e', tm_ents m' !! p = Some e' ∧ te_shape e' = te_shape e).
  { intros p e He. specialize (Hs p). rewrite He in Hs. destruct (tm_ents m' !! p) as [e'|]; [|done].
    exists e'. split; [done|]. by apply (inj Some) in Hs. }
  assert (Hb : ∀ p e, tm_ents m' !! p = Some e → ∃ e', tm_ents m !! p = Some e' ∧ te_shape e' = te_shape e).
  { intros p e He. specialize (Hs p). rewrite He in Hs. destruct (tm_ents m !! p) as [e'|]; [|done].
    exists e'. split; [done|]. by apply (inj Some) in Hs. }
  constructor; [done|..].
  - intros p. rewrite Hp, <- (wf_dom _ _ W). split; intros [e He]; [apply Hb in He as (? & -> & _)|apply Hf in He as (? & -> & _)]; by eexists.
  - rewrite E1, E2. apply (wf_trees _ _ W).
  - intros id p. rewrite E1, (wf_id _ _ W). split; intros (e & He & <-); [apply Hf in He as (x & Hx & E)|apply Hb in He as (x & Hx & E)];
      injection E as E _ _ _; by exists x.
  - intros d b. rewrite E2, E3. apply (wf_tree_block _ _ W).
  - intros p e (x & Hx & E)%Hb. injection E as I1 I2 I3 _. rewrite E3. destruct (wf_entry _ _ W _ _ Hx) as [[O1 O2] O3].
    split; [split|]; congruence.
  - rewrite E3. intros b blk Hk. destruct (wf_block _ _ W _ _ Hk) as [D (c & Hc & [Hnd Hoc] & Hne & Hr)]. split; [done|].
    exists c. split_and!; [|split; [done|]|done|done].
    + eapply chain_frame; [|exact Hc]. intros q _. specialize (Hs q). destruct (tm_ents m !! q), (tm_ents m' !! q); try done.
      apply (inj Some) in Hs. injection Hs as _ _ _ Hs. cbn. by rewrite Hs.
    + intros q. rewrite Hoc. split; intros (e & He & <-); [apply Hf in He as (x & Hx & E)|apply Hb in He as (x & Hx & E)];
        injection E as _ E _ _; by exists x.
  - rewrite E4, (wf_entries _ _ W). by rewrite Hp.
  - rewrite E5, (wf_bytes _ _ W), E3. f_equal. apply msum_ext. intros q. specialize (Hs q).
    destruct (tm_ents m !! q), (tm_ents m' !! q); try done. apply (inj Some) in Hs. injection Hs as _ _ Hs _. cbn. by rewrite Hs.
  - rewrite E3, E6. apply (wf_seen _ _ W).
  - rewrite E6. apply (wf_scan _ _ W).
Qed.

(** A write to the stamp or the source of an entry. *)
Lemma wf_upd m ps p e f : tm_wf m ps → tm_ents m !! p = Some e → te_shape (f e) = te_shape e →
  te_prev (f e) = te_prev e → te_next (f e) = te_next e →
  tm_wf (set_ents (<[p := f e]> (tm_ents m)) m) ps.
Proof.
  intros W He Hs Hp Hn. eapply wf_ext; [exact W| |done| |done..].
  - destruct (wf_lru _ _ W) as (N & D & Hh & Ht). split_and!; [done| |done|done]. eapply dseg_frame; [|exact D].
    intros q _. cbn. destruct (decide (p = q)) as [<-|]; [|by rewrite lookup_insert_ne]. rewrite lookup_insert_eq, He. cbn. by rewrite Hp, Hn.
  - intros q. cbn. destruct (decide (p = q)) as [<-|]; [|by rewrite lookup_insert_ne]. rewrite lookup_insert_eq, He. cbn. by rewrite Hs.
Qed.

Lemma relinked_wf m m' ps ps' : tm_wf m ps → relinked m m' → lru m' ps' → ps' ≡ₚ ps → tm_wf m' ps'.
Proof.
  intros W Rl L Hp. pose proof (relinked_fields _ _ Rl) as (I1 & B1 & E1 & X1 & Y1 & Z1 & C1 & S1 & K1). destruct Rl as [D _].
  eapply wf_ext; [exact W|done|done| |done..]. intros p. specialize (D p).
  destruct (tm_ents m !! p) as [e|], (tm_ents m' !! p) as [e'|]; [|done..]. destruct e, e'. cbn in *. injection D. by intros; subst.
Qed.

Lemma relinked_view m m' p : relinked m m' → view m' p = view m p.
Proof.
  intros Rl. pose proof (relinked_fields _ _ Rl) as (_ & _ & _ & _ & _ & _ & _ & _ & K1). destruct Rl as [D _].
  apply data_plain in D. specialize (D p). unfold view. destruct (tm_ents m !! p) as [e|], (tm_ents m' !! p) as [e'|]; [|done..].
  apply (inj Some) in D. injection D as D1 D2 _ D4. cbn [mbind option_bind]. by rewrite K1, D1, D2, D4.
Qed.

(** ** Use of an entry *)

Lemma touch_wf m l1 p l2 : tm_wf m (l1 ++ p :: l2) →
  ∃ m', tool_memory_touch m p = Some m' ∧ tm_wf m' (p :: l1 ++ l2)
    ∧ tm_max_entries m' = tm_max_entries m ∧ tm_max_bytes m' = tm_max_bytes m
    ∧ tm_blocks m' = tm_blocks m ∧ ∀ q, view m' q = view m q.
Proof.
  intros W. assert (Hp : is_Some (tm_ents m !! p)) by (apply (wf_dom _ _ W), elem_of_app; right; by left). destruct Hp as [e He].
  unfold tool_memory_touch. set (c := u64 (tm_clock m + 1)). unfold upd_ent. cbn [set_clock tm_ents tm_clock]. rewrite He.
  cbn [mbind option_bind]. set (m1 := set_ents _ _).
  assert (W1 : tm_wf m1 (l1 ++ p :: l2)).
  { assert (W0 : tm_wf (set_clock c m) (l1 ++ p :: l2)) by (destruct W; by constructor). by apply (wf_upd (set_clock c m)). }
  assert (V1 : ∀ q, view m1 q = view m q).
  { intros q. unfold view, m1. cbn. destruct (decide (p = q)) as [<-|]; [|by rewrite lookup_insert_ne]. by rewrite lookup_insert_eq, He. }
  pose proof (wf_lru _ _ W1) as L1. pose proof L1 as (_ & _ & Hh & _). rewrite Hh. case_decide as Hd.
  - exists m1. split; [done|]. split_and!; [|done|done|done|done]. destruct l1 as [|q l1]; [done|]. cbn in Hd. injection Hd as ->.
    destruct L1 as [[Hq _]%NoDup_cons _]. exfalso. apply Hq, elem_of_app. right. by left.
  - destruct (unlink_lru m1 l1 p l2 L1) as (m2 & -> & L2 & R2). cbn [mbind option_bind].
    pose proof L1 as [(_ & Hdis & [Hp2 _]%NoDup_cons)%NoDup_app _].
    destruct (link_head_lru m2 (l1 ++ l2) p L2) as (m3 & -> & L3 & R3).
    { intros [H|H]%elem_of_app; [|done]. apply (Hdis p H). by left. }
    { destruct R2 as [D _]. specialize (D p). unfold m1 in D. cbn in D. rewrite lookup_insert_eq in D. by destruct (tm_ents m2 !! p). }
    exists m3. split; [done|]. pose proof (relinked_trans _ _ _ R2 R3) as R23.
    pose proof (relinked_fields _ _ R23) as (_ & _ & _ & X & _ & Z & _ & _ & K). split_and!; [|done|done|done|].
    + eapply relinked_wf; [exact W1|exact R23|done|]. apply Permutation_middle.
    + intros q. rewrite (relinked_view _ _ q R23). apply V1.
Qed.

(** ** A new entry *)

Lemma get_block_spec m ps dsml t : tm_wf m ps → tm_by_block m = Some t → dsml ≠ [] → 0 <= tm_bytes m →
  tm_bytes m + text_cost dsml <= UINT64_MAX →
  ∃ b m1 blk c t', tool_memory_get_block_locked m dsml = Some (b, m1)
    ∧ m1 = set_blocks (tm_blocks m1) (set_trees (tm_by_id m) (Some t') (set_counts (tm_entries m) (tm_bytes m1) m))
    ∧ tm_blocks m1 = <[b := blk]> (tm_blocks m) ∧ (tm_blocks m !! b = Some blk ∨ tm_blocks m !! b = None)
    ∧ b_dsml blk = dsml ∧ block_data_ok blk
    ∧ chain (tm_ents m) (b_entries blk) c ∧ entries_of (tm_ents m) b c ∧ b_refs blk = Z.of_nat (length c)
    ∧ (∀ d b', raxFind t' d = Some b' ↔ ∃ k, tm_blocks m1 !! b' = Some k ∧ b_dsml k = d)
    ∧ tm_bytes m1 = msum te_bytes (tm_ents m) + msum b_bytes (tm_blocks m1)
    ∧ tm_bytes m <= tm_bytes m1 <= tm_bytes m + text_cost dsml ∧ (b_seen blk = 0 ∨ 0 <= b_seen blk <= tm_scan_clock m).
Proof.
  intros W Ht Hne H0 Hmax. unfold tool_memory_get_block_locked, tool_memory_find_block_locked. rewrite Ht.
  assert (Hf : match dsml with [] => None | _ :: _ => raxFind t dsml end = raxFind t dsml) by (by destruct dsml). rewrite Hf.
  pose proof (wf_tree_block _ _ W) as Wt. rewrite Ht in Wt. cbn [tree_find mbind option_bind] in Wt.
  destruct (raxFind t dsml) as [b|] eqn:E.
  - apply Wt in E as (blk & Hb & Hd). destruct (wf_block _ _ W _ _ Hb) as [D (c & Hc & Ho & _ & Hr)].
    exists b, m, blk, c, t. split; [done|]. rewrite insert_id by done.
    split_and!; [rewrite <- Ht; by destruct m|done|by left|done|done|done|done|done|done|by rewrite (wf_bytes _ _ W)|lia| |right; by apply (wf_seen _ _ W b)].
    unfold text_cost, sizeof_block. lia.
  - cbn [mbind option_bind]. set (b := fresh (dom (tm_blocks m))).
    assert (Hb : tm_blocks m !! b = None) by apply not_elem_of_dom, is_fresh.
    pose proof (proj2 (rax_insert_new t dsml b) E) as Hnew. destruct (raxInsert t dsml b) as [new t'] eqn:Ei. cbn in Hnew. subst new.
    pose proof (rax_find_insert t dsml b) as F1. pose proof (λ d, rax_find_insert_ne t dsml d b) as F2.
    set (blk := ToolMemoryBlock _ _ _ _ _ _). eexists b, _, blk, [], t'. split; [done|].
    assert (Hu : u64 (tm_bytes m + text_cost dsml) = tm_bytes m + text_cost dsml).
    { apply u64_small. unfold is_u64, text_cost, sizeof_block in *. lia. }
    split_and!; [by destruct m|done|by right|done|done|done| |done| | | | |by left].
    + split; [constructor|]. intros p. split; [by intros ?%elem_of_nil|]. intros (e & He & Hbe).
      destruct (wf_entry _ _ W _ _ He) as [_ [k Hk]]. congruence.
    + intros d b'. cbn. rewrite Ei in F1. cbn in F1. destruct (decide (dsml = d)) as [<-|Hdd].
      * rewrite F1. split; [intros [= <-]; exists blk; by rewrite lookup_insert_eq|]. intros (k & Hk & Hkd).
        destruct (decide (b = b')) as [<-|]; [done|]. rewrite lookup_insert_ne in Hk by done.
        assert (raxFind t dsml = Some b') as E' by (apply Wt; eauto). congruence.
      * specialize (F2 d Hdd). rewrite Ei in F2. cbn in F2. rewrite F2, Wt. split; intros (k & Hk & Hkd).
        { exists k. by rewrite lookup_insert_ne by congruence. }
        destruct (decide (b = b')) as [<-|]; [rewrite lookup_insert_eq in Hk; by injection Hk as <-|].
        rewrite lookup_insert_ne in Hk by done. by exists k.
    + cbn. rewrite msum_insert by done. cbn. change (Z.of_nat (length dsml) + 1 + sizeof_block) with (text_cost dsml).
      rewrite Hu, (wf_bytes _ _ W). cbn. fold (text_cost dsml). lia.
    + cbn. fold (text_cost dsml). rewrite Hu. unfold text_cost, sizeof_block. lia.
    + cbn. fold (text_cost dsml). rewrite Hu. lia.
Qed.

(** The state after a new entry [p] was put at the front, in block [b]. *)
Record added m (ps : list loc) (p b : loc) (e : tool_memory_entry) (blk : tool_memory_block) (c : list loc) m' : Prop := {
  ad_lru : lru m' (p :: ps);
  ad_fresh : tm_ents m !! p = None;
  ad_data : data_eq (<[p := e]> (tm_ents m)) (tm_ents m');
  ad_entry : te_block e = b ∧ entry_ok e ∧ te_block_next e = b_entries blk;
  ad_old : tm_blocks m !! b = Some blk ∨ tm_blocks m !! b = None;
  ad_blocks : tm_blocks m' = <[b := b_set_refs (b_refs blk + 1) (b_set_entries (Some p) blk)]> (tm_blocks m);
  ad_block : block_data_ok blk ∧ chain (tm_ents m) (b_entries blk) c ∧ entries_of (tm_ents m) b c
    ∧ b_refs blk = Z.of_nat (length c);
  ad_by_id id q : tree_find (tm_by_id m') id = Some q ↔ (id = te_id e ∧ q = p) ∨ (id ≠ te_id e ∧ tree_find (tm_by_id m) id = Some q);
  ad_by_block d b' : tree_find (tm_by_block m') d = Some b' ↔ ∃ k, tm_blocks m' !! b' = Some k ∧ b_dsml k = d;
  ad_trees : is_Some (tm_by_id m') ∧ is_Some (tm_by_block m');
  ad_new : tree_find (tm_by_id m) (te_id e) = None;
  ad_entries : tm_entries m' = tm_entries m + 1;
  ad_seen : 0 <= b_seen blk <= tm_scan_clock m ∧ tm_scan_clock m' = tm_scan_clock m;
  ad_bytes : tm_bytes m' = msum te_bytes (tm_ents m) + te_bytes e + msum b_bytes (tm_blocks m');
}.

Section added_wf.
Context m ps p b e blk c m' (W : tm_wf m ps) (A : added m ps p b e blk c m').

Lemma added_plain : plain_eq (<[p := e]> (tm_ents m)) (tm_ents m').
Proof. apply data_plain, (ad_data _ _ _ _ _ _ _ _ A). Qed.

Lemma added_cases q x : tm_ents m' !! q = Some x →
  (q = p ∧ te_plain x = te_plain e) ∨ (q ≠ p ∧ ∃ y, tm_ents m !! q = Some y ∧ te_plain x = te_plain y).
Proof.
  intros Hx. pose proof (added_plain q) as H. rewrite Hx in H. destruct (decide (p = q)) as [<-|Hne].
  - rewrite lookup_insert_eq in H. apply (inj Some) in H. by left.
  - rewrite lookup_insert_ne in H by done. destruct (tm_ents m !! q) as [y|]; [|done]. apply (inj Some) in H. right. split; [done|]. by exists y.
Qed.

Lemma added_self : ∃ x, tm_ents m' !! p = Some x ∧ te_plain x = te_plain e.
Proof.
  pose proof (added_plain p) as H. rewrite lookup_insert_eq in H. destruct (tm_ents m' !! p) as [x|]; [|done].
  apply (inj Some) in H. by exists x.
Qed.

Lemma added_other q y : tm_ents m !! q = Some y → q ≠ p ∧ ∃ x, tm_ents m' !! q = Some x ∧ te_plain x = te_plain y.
Proof.
  intros Hy. assert (Hne : q ≠ p) by (intros ->; by rewrite (ad_fresh _ _ _ _ _ _ _ _ A) in Hy). split; [done|].
  pose proof (added_plain q) as H. rewrite lookup_insert_ne, Hy in H by done. destruct (tm_ents m' !! q) as [x|]; [|done].
  apply (inj Some) in H. by exists x.
Qed.

Lemma added_dom q : is_Some (tm_ents m' !! q) ↔ q ∈ p :: ps.
Proof.
  rewrite elem_of_cons, <- (wf_dom _ _ W). split.
  - intros [x [[-> _]|[_ (y & -> & _)]]%added_cases]; [by left|right; by eexists].
  - intros [->|[y Hy]]; [destruct added_self as (x & -> & _)|destruct (added_other q y Hy) as (_ & x & -> & _)]; by eexists.
Qed.

Lemma added_block_lookup b' : b' ≠ b → tm_blocks m' !! b' = tm_blocks m !! b'.
Proof. intros H. rewrite (ad_blocks _ _ _ _ _ _ _ _ A). by rewrite lookup_insert_ne. Qed.

Lemma added_chain s c' : p ∉ c' → chain (tm_ents m) s c' → chain (tm_ents m') s c'.
Proof.
  intros Hp. apply chain_frame. intros q Hq. rewrite <- (data_chain _ _ [q] (ad_data _ _ _ _ _ _ _ _ A) q) by (by left).
  rewrite lookup_insert_ne; [done|]. set_solver.
Qed.

Lemma added_entries_of b' c' : entries_of (tm_ents m) b' c' →
  entries_of (tm_ents m') b' (if decide (b' = b) then p :: c' else c') ∧ p ∉ c'.
Proof.
  intros [Hnd Hc]. destruct (ad_entry _ _ _ _ _ _ _ _ A) as [Heb _].
  assert (Hp : p ∉ c') by (intros (y & Hy & _)%Hc; by rewrite (ad_fresh _ _ _ _ _ _ _ _ A) in Hy). split; [|done].
  assert (Hother : ∀ q, q ≠ p → (∃ x, tm_ents m' !! q = Some x ∧ te_block x = b') ↔ q ∈ c').
  { intros q Hq. rewrite Hc. split.
    - intros (x & [[-> _]|[_ (y & Hy & E)]]%added_cases & <-); [done|]. exists y. injection E as _ -> _ _. done.
    - intros (y & (_ & x & Hx & E)%added_other & <-). exists x. injection E as _ -> _ _. done. }
  assert (Hself : (∃ x, tm_ents m' !! p = Some x ∧ te_block x = b') ↔ b' = b).
  { destruct added_self as (x & Hx & E). injection E as _ E _ _. rewrite Hx. split; [intros (y & [= <-] & <-); congruence|].
    intros ->. exists x. split; [done|congruence]. }
  case_decide as Hd; (split; [try (by apply NoDup_cons); done|]); intros q; destruct (decide (q = p)) as [->|Hq].
  - rewrite Hself. set_solver.
  - rewrite Hother by done. set_solver.
  - rewrite Hself. set_solver.
  - by rewrite Hother.
Qed.

Lemma added_block_ok b' k : tm_blocks m' !! b' = Some k → block_ok (tm_ents m') b' k.
Proof.
  destruct (ad_block _ _ _ _ _ _ _ _ A) as (D & Hc & Ho & Hr). intros Hk. destruct (decide (b' = b)) as [->|Hne].
  - rewrite (ad_blocks _ _ _ _ _ _ _ _ A), lookup_insert_eq in Hk. injection Hk as <-. split; [done|].
    destruct (added_entries_of b c Ho) as [Ho' Hp]. rewrite decide_True in Ho' by done. exists (p :: c).
    split_and!; [|done|done|cbn; rewrite Hr; lia]. split; [done|]. destruct (ad_entry _ _ _ _ _ _ _ _ A) as (_ & _ & Hn).
    pose proof (ad_data _ _ _ _ _ _ _ _ A p) as Hd. rewrite lookup_insert_eq in Hd. destruct (tm_ents m' !! p) as [x|]; [|done].
    exists x. split; [done|]. assert (te_block_next x = b_entries blk) as ->; [|by apply added_chain].
    destruct e, x. cbn in *. injection Hd. by intros; subst.
  - rewrite added_block_lookup in Hk by done. destruct (wf_block _ _ W _ _ Hk) as [Dk (c' & Hc' & Ho' & Hne' & Hr')].
    split; [done|]. destruct (added_entries_of b' c' Ho') as [Ho2 Hp]. rewrite decide_False in Ho2 by done.
    exists c'. split_and!; [by apply added_chain|done|done|done].
Qed.

Lemma added_msum : msum te_bytes (tm_ents m') = msum te_bytes (tm_ents m) + te_bytes e.
Proof.
  rewrite <- (msum_ext te_bytes (<[p := e]> (tm_ents m))).
  - rewrite msum_insert by apply (ad_fresh _ _ _ _ _ _ _ _ A). lia.
  - intros q. pose proof (added_plain q) as H. destruct (<[p := e]> (tm_ents m) !! q), (tm_ents m' !! q); try done.
    apply (inj Some) in H. injection H as _ _ H _. cbn. by rewrite H.
Qed.

Lemma added_wf : tm_wf m' (p :: ps).
Proof.
  constructor.
  - apply (ad_lru _ _ _ _ _ _ _ _ A).
  - apply added_dom.
  - destruct (ad_trees _ _ _ _ _ _ _ _ A). tauto.
  - intros id q. rewrite (ad_by_id _ _ _ _ _ _ _ _ A), (wf_id _ _ W). split.
    + intros [[-> ->]|[Hne (y & (_ & x & Hx & E)%added_other & <-)]].
      * destruct added_self as (x & Hx & E). exists x. injection E as -> _ _ _. done.
      * exists x. injection E as -> _ _ _. done.
    + intros (x & [[-> E]|[Hq (y & Hy & E)]]%added_cases & <-); injection E as -> _ _ _; [by left|right]. split; [|by exists y].
      intros Hid. assert (tree_find (tm_by_id m) (te_id e) = Some q) as F by (apply (wf_id _ _ W); by exists y).
      by rewrite (ad_new _ _ _ _ _ _ _ _ A) in F.
  - apply (ad_by_block _ _ _ _ _ _ _ _ A).
  - destruct (ad_entry _ _ _ _ _ _ _ _ A) as (Heb & [O1 O2] & _).
    intros q x [[-> E]|[_ (y & Hy & E)]]%added_cases; injection E as E1 E2 E3 _.
    + split; [split; congruence|]. rewrite E2, Heb, (ad_blocks _ _ _ _ _ _ _ _ A), lookup_insert_eq. by eexists.
    + destruct (wf_entry _ _ W _ _ Hy) as [[P1 P2] [k Hk]]. split; [split; congruence|]. rewrite E2.
      destruct (decide (te_block y = b)) as [->|]; [|rewrite added_block_lookup by done; by eexists].
      rewrite (ad_blocks _ _ _ _ _ _ _ _ A), lookup_insert_eq. by eexists.
  - apply added_block_ok.
  - rewrite (ad_entries _ _ _ _ _ _ _ _ A), (wf_entries _ _ W). cbn. lia.
  - rewrite (ad_bytes _ _ _ _ _ _ _ _ A), added_msum. lia.
  - destruct (ad_seen _ _ _ _ _ _ _ _ A) as [Hs ->]. intros b' k. destruct (decide (b' = b)) as [->|Hne].
    + rewrite (ad_blocks _ _ _ _ _ _ _ _ A), lookup_insert_eq. by intros [= <-].
    + rewrite added_block_lookup by done. apply (wf_seen _ _ W).
  - destruct (ad_seen _ _ _ _ _ _ _ _ A) as [_ ->]. apply (wf_scan _ _ W).
Qed.

Lemma added_view q : view m' q = if decide (q = p) then Some (Cached (te_id e) (b_dsml blk) (te_source e)) else view m q.
Proof.
  destruct (ad_entry _ _ _ _ _ _ _ _ A) as (Heb & _). unfold view. case_decide as Hq.
  - subst q. destruct added_self as (x & -> & E). injection E as E1 E2 _ E4. cbn [mbind option_bind].
    rewrite E2, Heb, (ad_blocks _ _ _ _ _ _ _ _ A), lookup_insert_eq. cbn. by rewrite E1, E4.
  - destruct (tm_ents m !! q) as [y|] eqn:Hy.
    + destruct (added_other q y Hy) as (_ & x & -> & E). injection E as E1 E2 _ E4. cbn [mbind option_bind]. rewrite E2.
      destruct (decide (te_block y = b)) as [Hb|]; [|by rewrite added_block_lookup, E1, E4].
      destruct (wf_entry _ _ W _ _ Hy) as [_ [k Hk]]. destruct (ad_old _ _ _ _ _ _ _ _ A) as [Hold|Hold]; [|congruence].
      rewrite Hb, Hold, (ad_blocks _ _ _ _ _ _ _ _ A), lookup_insert_eq. cbn. by rewrite E1, E4.
    + destruct (tm_ents m' !! q) as [x|] eqn:Hx; [|done]. apply added_cases in Hx as [[-> _]|[_ (y & Hy' & _)]]; congruence.
Qed.

End added_wf.

Lemma tree_insert (t : R) id p q id' : tree_find (Some t) id = None →
  tree_find (Some (raxInsert t id p).2) id' = Some q ↔ (id' = id ∧ q = p) ∨ (id' ≠ id ∧ tree_find (Some t) id' = Some q).
Proof.
  intros H. cbn. destruct (decide (id' = id)) as [->|Hne].
  - rewrite rax_find_insert. naive_solver.
  - rewrite rax_find_insert_ne by done. naive_solver.
Qed.

Lemma wf_bytes_nonneg m ps : tm_wf m ps → 0 <= tm_bytes m.
Proof.
  intros W. rewrite (wf_bytes _ _ W). apply Z.add_nonneg_nonneg; apply msum_nonneg.
  - intros q x Hx. destruct (wf_entry _ _ W _ _ Hx) as [[_ ->] _]. unfold sizeof_entry. lia.
  - intros q x Hx. destruct (wf_block _ _ W _ _ Hx) as [(_ & _ & ->) _]. unfold sizeof_block. lia.
Qed.

Lemma refs_succ m ps b c n : tm_wf m ps → tm_entries m < INT_MAX → entries_of (tm_ents m) b c → n = Z.of_nat (length c) →
  int_succ n = Some (n + 1).
Proof.
  intros W Hent [Hnd Hoc] ->. unfold int_succ. rewrite (wf_entries _ _ W) in Hent.
  assert (length c <= length ps)%nat.
  { apply submseteq_length, NoDup_submseteq; [done|]. intros q (x & Hx & _)%Hoc. apply (wf_dom _ _ W). by eexists. }
  assert (H' : Z.of_nat (length c) < INT_MAX) by lia. by apply Z.ltb_lt in H' as ->.
Qed.

Lemma lru_frame m m' ps p e : lru m ps → p ∉ ps → tm_ents m' = <[p := e]> (tm_ents m) → tm_head m' = tm_head m → tm_tail m' = tm_tail m →
  lru m' ps.
Proof.
  intros (N & Ds & Hh & Hta) Hp He Eh Et. split_and!; [done| |congruence|congruence].
  eapply dseg_frame; [|exact Ds]. intros q Hq. rewrite He, lookup_insert_ne; [done|]. by intros <-.
Qed.

Lemma msum_block_links (h : gmap loc tool_memory_block) b blk r n : msum b_bytes (<[b := b_set_refs r (b_set_entries n blk)]> h) = msum b_bytes (<[b := blk]> h).
Proof. apply msum_ext. intros q. destruct (decide (b = q)) as [<-|]; [by rewrite !lookup_insert_eq|by rewrite !lookup_insert_ne]. Qed.

Lemma put_new_added m ps id dsml src t ti : tm_wf m ps → tm_by_block m = Some t → tm_by_id m = Some ti →
  id ≠ [] → dsml ≠ [] → tree_find (tm_by_id m) id = None → tm_entries m < INT_MAX →
  tm_bytes m + text_cost dsml + entry_cost id <= UINT64_MAX →
  ∃ m' p b e blk c, put_new m id dsml src = Some m' ∧ added m ps p b e blk c m'
    ∧ te_id e = id ∧ te_source e = src ∧ b_dsml blk = dsml
    ∧ tm_max_entries m' = tm_max_entries m ∧ tm_max_bytes m' = tm_max_bytes m.
Proof.
  intros W Ht Hti Hid Hne Hnone Hent Hmax.
  pose proof (wf_bytes_nonneg _ _ W) as Hb0.
  destruct (get_block_spec m ps dsml t W Ht Hne Hb0) as (b & m1 & blk & c & t' & Hg & E1 & K1 & Old & Hd & D & Hc & Ho & Hr & T1 & B1 & B2 & Sn);
    [unfold entry_cost, sizeof_entry in Hmax; lia|].
  unfold put_new. rewrite Hg. cbn [mbind option_bind]. rewrite K1, lookup_insert_eq. cbn [mbind option_bind].
  assert (F : tm_ents m1 = tm_ents m ∧ tm_head m1 = tm_head m ∧ tm_tail m1 = tm_tail m ∧ tm_entries m1 = tm_entries m
    ∧ tm_max_entries m1 = tm_max_entries m ∧ tm_max_bytes m1 = tm_max_bytes m ∧ tm_by_id m1 = Some ti ∧ tm_by_block m1 = Some t'
    ∧ tm_scan_clock m1 = tm_scan_clock m).
  { rewrite E1, <- Hti. done. }
  clear E1. destruct F as (Hents & Fh & Ft & Fn & Fx & Fz & Hbi & Fb & Fs). rewrite Hents.
  set (p := fresh (dom (tm_ents m))). assert (Hp : tm_ents m !! p = None) by apply not_elem_of_dom, is_fresh.
  cbn [set_clock tm_clock tm_ents set_ents]. rewrite Hents. set (e := ToolMemoryEntry _ _ _ _ _ _ _ _).
  unfold upd_block. cbn [tm_blocks set_ents set_clock]. rewrite K1, lookup_insert_eq. cbn [mbind option_bind].
  rewrite (refs_succ m ps b c (b_refs blk) W Hent Ho Hr). cbn [mbind option_bind tm_blocks set_blocks]. rewrite insert_insert_eq, lookup_insert_eq.
  cbn [mbind option_bind tm_by_id set_blocks set_ents set_clock]. rewrite insert_insert_eq.
  rewrite Hbi. cbn [mbind option_bind].
  rewrite Hti in Hnone. pose proof (proj2 (rax_insert_new ti id p) Hnone) as Hnew. pose proof (tree_insert ti id p) as Ti.
  destruct (raxInsert ti id p) as [new ti']. cbn in Hnew. subst new. cbn [snd] in Ti.
  set (m2 := set_trees _ _ _).
  assert (Hps : p ∉ ps) by (intros [x Hx]%(wf_dom _ _ W); congruence).
  assert (L2 : lru m2 ps) by (eapply lru_frame; [apply W|exact Hps|done|done|done]).
  destruct (link_head_lru m2 ps p L2 Hps) as (m3 & -> & L3 & R3).
  { unfold m2. cbn. rewrite lookup_insert_eq. by eexists. }
  cbn [mbind option_bind].
  pose proof (relinked_fields _ _ R3) as (I3 & Bk3 & N3 & X3 & Y3 & Z3 & _ & S3 & K3). destruct R3 as [D3 _].
  assert (N3' : tm_entries m3 = tm_entries m) by (rewrite N3; exact Fn).
  assert (Y3' : tm_bytes m3 = tm_bytes m1) by done.
  unfold int_succ. rewrite N3'. pose proof Hent as Hent'. apply Z.ltb_lt in Hent' as ->. cbn [mbind option_bind].
  eexists _, p, b, e, blk, c. split; [done|]. split_and!; [|done|done|done|cbn; rewrite X3; exact Fx|cbn; rewrite Z3; exact Fz].
  constructor; cbn [tm_ents tm_blocks tm_by_id tm_by_block tm_entries tm_bytes set_counts]; try done.
  - intros id' q. rewrite I3, Hti. unfold m2. cbn [tm_by_id set_trees]. by apply Ti.
  - intros d b'. rewrite Bk3, K3. unfold m2. cbn [tm_by_block set_trees set_blocks set_ents set_clock tm_blocks].
    rewrite Fb. cbn [tree_find mbind option_bind]. rewrite T1, K1.
    destruct (decide (b = b')) as [<-|]; [|by rewrite !lookup_insert_ne].
    rewrite !lookup_insert_eq. split; intros (k & [= <-] & <-); by eexists.
  - rewrite I3, Bk3. unfold m2. cbn. rewrite Fb. split; by eexists.
  - by rewrite Hti.
  - cbn [tm_scan_clock set_counts]. rewrite S3. split; [|exact Fs]. pose proof (wf_scan _ _ W). destruct Sn; lia.
  - rewrite Y3', K3. unfold m2. cbn [tm_blocks set_trees set_blocks set_ents set_clock]. rewrite B1, K1.
    cbn [te_bytes e]. rewrite u64_small.
    + rewrite msum_block_links. lia.
    + rewrite <- K1, <- B1. fold (entry_cost id). unfold is_u64, entry_cost, sizeof_entry in *. lia.
Qed.

(** ** Ids *)

Lemma view_id m p x : view m p = Some x → ∃ e, tm_ents m !! p = Some e ∧ te_id e = ca_id x.
Proof.
  unfold view. destruct (tm_ents m !! p) as [e|]; [|done]. cbn [mbind option_bind].
  destruct (tm_blocks m !! te_block e); [|done]. intros [= <-]. by exists e.
Qed.

Lemma forget_other id k : (∀ x, x ∈ k → ca_id x ≠ id) → spec_forget id k = k ∧ filter (λ c, ca_id c = id) k = [].
Proof.
  intros H. unfold spec_forget. induction k as [|x k IH]; [done|]. destruct IH as [IH1 IH2]; [intros y Hy; apply H; by right|].
  specialize (H x ltac:(by left)). by rewrite filter_cons_True, filter_cons_False, IH1, IH2.
Qed.

Lemma shows_part m ps q k p e : tm_wf m ps → p ∉ q → shows m q k → tm_ents m !! p = Some e → ∀ x, x ∈ k → ca_id x ≠ te_id e.
Proof.
  intros W Hp Hv He x [i Hi]%list_elem_of_lookup_1 Hx.
  destruct (Forall2_lookup_r _ _ _ _ _ Hv Hi) as (r & Hr & (e' & He' & Ee)%view_id).
  apply Hp. assert (p = r) as -> by (eapply same_entry_id; [exact W|exact He|exact He'|congruence]). by eapply list_elem_of_lookup_2.
Qed.

Lemma find_split m ps l id p : tm_wf m ps → shows m ps l → tree_find (tm_by_id m) id = Some p →
  ∃ l1 l2 k1 c k2, ps = l1 ++ p :: l2 ∧ l = k1 ++ c :: k2 ∧ shows m l1 k1 ∧ view m p = Some c ∧ shows m l2 k2
    ∧ ca_id c = id ∧ spec_find id l = Some c ∧ spec_forget id l = k1 ++ k2.
Proof.
  intros W Hv Hf. pose proof Hf as (e & He & Eid)%(wf_id _ _ W).
  assert (p ∈ ps) as (l1 & l2 & ->)%list_elem_of_split by (apply (wf_dom _ _ W); by eexists).
  pose proof Hv as (k1 & k2' & -> & H1 & H2)%shows_app_inv. apply Forall2_cons_inv_l in H2 as (c & k2 & Hc & H2 & ->).
  exists l1, l2, k1, c, k2. pose proof (view_id _ _ _ Hc) as (e' & He' & Ec). rewrite He in He'. injection He' as <-.
  pose proof (wf_lru _ _ W) as [(_ & Hd & [Hp2 _]%NoDup_cons)%NoDup_app _].
  assert (Hp1 : p ∉ l1) by (intros H; apply (Hd p H); by left).
  assert (O1 : ∀ x, x ∈ k1 → ca_id x ≠ id) by (rewrite <- Eid; by eapply (shows_part m _ l1)).
  assert (O2 : ∀ x, x ∈ k2 → ca_id x ≠ id) by (rewrite <- Eid; by eapply (shows_part m _ l2)).
  destruct (forget_other id k1 O1) as [F1 G1], (forget_other id k2 O2) as [F2 G2].
  split_and!; [done|done|done|done|done|congruence| |].
  - unfold spec_find. rewrite filter_app, G1, filter_cons_True by congruence. done.
  - unfold spec_forget in *. rewrite filter_app, F1, filter_cons_False by congruence. by rewrite F2.
Qed.

Lemma find_none m ps l id : tm_wf m ps → shows m ps l → tree_find (tm_by_id m) id = None →
  spec_find id l = None ∧ spec_forget id l = l.
Proof.
  intros W Hv Hf. assert (O : ∀ x, x ∈ l → ca_id x ≠ id).
  { intros x [i Hi]%list_elem_of_lookup_1 Hx. destruct (Forall2_lookup_r _ _ _ _ _ Hv Hi) as (q & Hq & (e & He & Ee)%view_id).
    assert (tree_find (tm_by_id m) id = Some q) by (apply (wf_id _ _ W); exists e; split; congruence). congruence. }
  destruct (forget_other id l O) as [F G]. unfold spec_find. by rewrite G.
Qed.

(** ** Put *)

Lemma init_wf m ps : tm_wf m ps → tm_wf (tool_memory_init_locked m) ps
  ∧ (∃ t ti, tm_by_id (tool_memory_init_locked m) = Some ti ∧ tm_by_block (tool_memory_init_locked m) = Some t)
  ∧ tm_max_entries (tool_memory_init_locked m) = tm_max_entries m ∧ tm_max_bytes (tool_memory_init_locked m) = tm_max_bytes m
  ∧ tm_bytes (tool_memory_init_locked m) = tm_bytes m ∧ tm_entries (tool_memory_init_locked m) = tm_entries m
  ∧ ∀ q, view (tool_memory_init_locked m) q = view m q.
Proof.
  intros W. unfold tool_memory_init_locked. pose proof (wf_trees _ _ W) as Ht.
  destruct (tm_by_id m) as [ti|] eqn:E1, (tm_by_block m) as [t|] eqn:E2.
  - split; [done|]. split_and!; [by exists t, ti|done..].
  - destruct Ht as [Ht _]. destruct Ht; [by eexists|done].
  - destruct Ht as [_ Ht]. destruct Ht; [by eexists|done].
  - split_and!; [|by exists raxNew, raxNew|done..]. pose proof (wf_id _ _ W) as Wi. pose proof (wf_tree_block _ _ W) as Wb.
    rewrite E1 in Wi. rewrite E2 in Wb. destruct W. constructor; try done; cbn.
    + intros id p. rewrite <- Wi. cbn. by rewrite rax_find_new.
    + intros d b. rewrite <- Wb. cbn. by rewrite rax_find_new.
Qed.

Lemma put_new_rep m ps l id dsml src : tm_wf m ps → shows m ps l → is_Some (tm_by_id m) → id ≠ [] → dsml ≠ [] →
  tree_find (tm_by_id m) id = None → tm_entries m < INT_MAX → tm_bytes m + text_cost dsml + entry_cost id <= UINT64_MAX →
  ∃ m' p, put_new m id dsml src = Some m' ∧ tm_wf m' (p :: ps) ∧ shows m' (p :: ps) (Cached id dsml src :: l)
    ∧ tm_max_entries m' = tm_max_entries m ∧ tm_max_bytes m' = tm_max_bytes m.
Proof.
  intros W Hv [ti Hti] Hid Hd Hn He Hmax. assert (is_Some (tm_by_block m)) as [t Ht] by (apply (wf_trees _ _ W); by eexists).
  destruct (put_new_added m ps id dsml src t ti) as (m' & p & b & e & blk & c & Hput & A & E1 & E2 & E3 & E4 & E5); [done..|].
  pose proof (added_wf _ _ _ _ _ _ _ _ W A) as W'. exists m', p. split_and!; [done|done| |done|done]. constructor.
  - rewrite (added_view _ _ _ _ _ _ _ _ W A), decide_True by done. by rewrite E1, E2, E3.
  - eapply shows_mono; [|exact Hv]. intros q Hq. rewrite (added_view _ _ _ _ _ _ _ _ W A). case_decide as Hqp; [|done]. subst q.
    pose proof (wf_lru _ _ W') as [[Hnd _]%NoDup_cons _]. done.
Qed.

Lemma find_entry_tree m i r : tool_memory_find_entry_locked m (Some (i :: r)) = tree_find (tm_by_id m) (i :: r).
Proof. unfold tool_memory_find_entry_locked. by destruct (tm_by_id m). Qed.

Lemma same_text_view m p c dsml : view m p = Some c → (∀ b blk, tm_blocks m !! b = Some blk → b_len blk = length (b_dsml blk)) →
  same_text m p dsml = Some (bool_decide (ca_text c = dsml)).
Proof.
  unfold view, same_text. destruct (tm_ents m !! p) as [e|]; [|done]. cbn [mbind option_bind].
  destruct (tm_blocks m !! te_block e) as [blk|] eqn:Hb; [|done]. intros [= <-] Hl. cbn. rewrite (Hl _ _ Hb). f_equal.
  case_bool_decide as Hd.
  - subst dsml. by rewrite bytes_eqb_refl, Nat.eqb_refl.
  - apply bytes_eqb_neq in Hd as ->. apply andb_false_r.
Qed.

Lemma set_source_view m ps p c e src : tm_wf m ps → view m p = Some c → tm_ents m !! p = Some e →
  let f e := if decide (src = TOOL_MEMORY_RAM) then te_set_source TOOL_MEMORY_RAM e else e in
  let m' := set_ents (<[p := f e]> (tm_ents m)) m in
  tm_wf m' ps ∧ view m' p = Some (Cached (ca_id c) (ca_text c) (spec_source (Some c) (ca_text c) src))
  ∧ ∀ q, q ≠ p → view m' q = view m q.
Proof.
  intros W Hc He f m'. split; [|split].
  - apply wf_upd; [done|done|..]; unfold f; by case_decide.
  - unfold view in *. unfold m'. cbn [tm_ents set_ents tm_blocks]. rewrite lookup_insert_eq. rewrite He in Hc. cbn [mbind option_bind] in *.
    assert (te_block (f e) = te_block e) as -> by (unfold f; by case_decide).
    destruct (tm_blocks m !! te_block e) as [blk|]; [|done]. injection Hc as <-. cbn. unfold f, spec_source. cbn.
    destruct src; cbn; repeat case_decide; naive_solver.
  - intros q Hq. unfold view, m'. cbn. by rewrite lookup_insert_ne.
Qed.

Lemma fits_prune me mb l : 0 <= me → 0 <= mb → fits me mb (spec_prune me mb l) = true.
Proof.
  intros H1 H2. induction l as [|x l IH] using rev_ind.
  - unfold spec_prune, fits. cbn. apply andb_true_iff. split; apply Z.leb_le; [done|]. exact H2.
  - rewrite spec_prune_snoc. by destruct (fits me mb (l ++ [x])) eqn:E.
Qed.

Lemma limits_pos m : 0 < tool_memory_max_entries m ∧ 0 < tool_memory_max_bytes m.
Proof.
  unfold tool_memory_max_entries, tool_memory_max_bytes, DS4_TOOL_MEMORY_DEFAULT_MAX_IDS, DS4_TOOL_MEMORY_MAX_BYTES.
  split; case_if; bool_to_prop; lia.
Qed.

(** The state holds [l] and the limits are kept. *)
Definition holds m (l : list cached) : Prop :=
  tm_rep m l ∧ fits (tool_memory_max_entries m) (tool_memory_max_bytes m) l = true.

(** Room for one more entry in the counters. *)
Definition small_put m (id dsml : bytes) : Prop :=
  tool_memory_max_entries m < INT_MAX ∧ tool_memory_max_bytes m + text_cost dsml + entry_cost id <= UINT64_MAX.

Lemma prune_holds m ps l : tm_wf m ps → shows m ps l →
  ∃ m', tool_memory_prune_locked m = Some m' ∧ holds m' (spec_prune (tool_memory_max_entries m) (tool_memory_max_bytes m) l)
    ∧ tm_max_entries m' = tm_max_entries m ∧ tm_max_bytes m' = tm_max_bytes m.
Proof.
  intros W Hv. destruct (prune_rep m ps l W Hv) as (m' & Hp & Hr & E1 & E2). exists m'. split; [done|].
  destruct (limits_eq m m' E1 E2) as [L1 L2]. split; [|done]. split; [done|]. rewrite L1, L2.
  destruct (limits_pos m). apply fits_prune; lia.
Qed.

Lemma prune_holds_at m0 m ps l : tm_max_entries m = tm_max_entries m0 → tm_max_bytes m = tm_max_bytes m0 → tm_wf m ps → shows m ps l →
  ∃ m', tool_memory_prune_locked m = Some m' ∧ holds m' (spec_prune (tool_memory_max_entries m0) (tool_memory_max_bytes m0) l)
    ∧ tm_max_entries m' = tm_max_entries m0 ∧ tm_max_bytes m' = tm_max_bytes m0.
Proof. intros M1 M2 W Hv. destruct (limits_eq m0 m M1 M2) as [<- <-]. rewrite <- M1, <- M2. by eapply prune_holds. Qed.

(** Once the entry of an id is removed no entry has it. *)
Lemma removed_id_gone m m1 l1 p l2 k1 k2 c : tm_wf m (l1 ++ p :: l2) → view m p = Some c → tm_wf m1 (l1 ++ l2) →
  shows m1 (l1 ++ l2) (k1 ++ k2) → (∀ q, q ∈ l1 ++ l2 → view m1 q = view m q) → tree_find (tm_by_id m1) (ca_id c) = None.
Proof.
  intros W0 Vc W1 S' V1. destruct (tree_find (tm_by_id m1) (ca_id c)) as [q|] eqn:E; [|done]. exfalso.
  destruct (find_split _ _ _ _ _ W1 S' E) as (a1 & a2 & b1 & x & b2 & Eq & Ek & _ & Vx & _ & Ex & _).
  assert (Hq : q ∈ l1 ++ l2) by (rewrite Eq; apply elem_of_app; right; by left). rewrite (V1 q Hq) in Vx.
  apply view_id in Vc as (e & He & E1). apply view_id in Vx as (e' & He' & E2).
  assert (p = q) as -> by (eapply same_entry_id; [exact W0|exact He|exact He'|congruence]).
  pose proof (wf_lru _ _ W0) as [(_ & Hdis & [Hp2 _]%NoDup_cons)%NoDup_app _]. apply elem_of_app in Hq as [Hq|Hq]; [|done].
  apply (Hdis q Hq). by left.
Qed.

Lemma put_holds m l id dsml src : holds m l → id ≠ [] → dsml ≠ [] → small_put m id dsml →
  ∃ m', tool_memory_put_locked m (Some id) (Some dsml) src = Some m'
    ∧ holds m' (spec_put (tool_memory_max_entries m) (tool_memory_max_bytes m) id dsml src l)
    ∧ tm_max_entries m' = tm_max_entries m ∧ tm_max_bytes m' = tm_max_bytes m.
Proof.
  intros [(ps & W & Hv) Hfit] Hid Hd [Hs1 Hs2]. destruct id as [|i id]; [done|]. destruct dsml as [|d dsml]; [done|].
  cbn [tool_memory_put_locked]. set (ID := i :: id) in *. set (DS := d :: dsml) in *.
  apply andb_true_iff in Hfit as [F1%Z.leb_le F2%Z.leb_le]. rewrite <- (rep_length _ _ _ W Hv) in F1. rewrite <- (rep_bytes _ _ _ W Hv) in F2.
  destruct (init_wf m ps W) as (W0 & (t & ti & Hti & Ht) & X1 & X2 & Y1 & Y2 & V0). set (m0 := tool_memory_init_locked m) in *. clearbody m0.
  destruct (limits_eq m m0 X1 X2) as [L1 L2]. rewrite <- L1 in F1, Hs1 |- *. rewrite <- L2 in F2, Hs2 |- *.
  rewrite <- X1, <- X2. rewrite <- Y1 in F2. rewrite <- Y2 in F1.
  assert (Hv0 : shows m0 ps l) by (eapply shows_mono; [intros q _; apply V0|exact Hv]).
  unfold ID at 1. rewrite find_entry_tree. fold ID. clear W Hv V0 X1 X2 Y1 Y2 L1 L2 m.
  unfold spec_put. destruct (tree_find (tm_by_id m0) ID) as [p|] eqn:Ef.
  - destruct (find_split _ _ _ _ _ W0 Hv0 Ef) as (l1 & l2 & k1 & c & k2 & -> & -> & S1 & Vc & S2 & Ec & -> & ->).
    rewrite (same_text_view m0 p c DS Vc) by (intros b blk Hb; by destruct (wf_block _ _ W0 _ _ Hb) as [(_ & ? & _) _]).
    cbn [mbind option_bind]. case_bool_decide as Htext.
    + pose proof (view_id _ _ _ Vc) as (e & He & _). unfold upd_ent. rewrite He. cbn [mbind option_bind].
      destruct (set_source_view m0 _ p c e src W0 Vc He) as (W1 & V1 & V1'). cbn zeta in *. set (m1 := set_ents _ m0) in *.
      destruct (touch_wf m1 l1 p l2 W1) as (m2 & -> & W2 & M1 & M2 & _ & V2). cbn [mbind option_bind].
      eapply (prune_holds_at m0); [done|done|exact W2|]. rewrite <- Htext, <- Ec. constructor; [by rewrite V2|].
      pose proof (wf_lru _ _ W2) as [[Hp _]%NoDup_cons _]. apply Forall2_app; (eapply shows_mono; [|eassumption]);
        intros q Hq; rewrite V2; apply V1'; intros ->; apply Hp, elem_of_app; auto.
    + assert (spec_source (Some c) DS src = src) as -> by (unfold spec_source; by rewrite decide_False by naive_solver).
      destruct (remove_entry_wf m0 l1 p l2 W0) as (m1 & -> & W1 & M1 & M2 & V1 & T1 & B1). cbn [mbind option_bind].
      assert (S' : shows m1 (l1 ++ l2) (k1 ++ k2)).
      { apply Forall2_app; (eapply shows_mono; [|eassumption]); intros q Hq; apply V1, elem_of_app; auto. }
      pose proof (removed_id_gone m0 m1 l1 p l2 k1 k2 c W0 Vc W1 S' V1) as Hn. rewrite Ec in Hn.
      destruct (put_new_rep m1 (l1 ++ l2) (k1 ++ k2) ID DS src) as (m2 & p2 & -> & W2 & Hv2 & M3 & M4); try done.
      { apply T1. by eexists. } { rewrite (wf_entries _ _ W1). rewrite (wf_entries _ _ W0) in F1. rewrite !length_app in *. simpl in F1. lia. }
      { lia. }
      cbn [mbind option_bind]. eapply (prune_holds_at m0); [by rewrite M3|by rewrite M4|done|done].
  - destruct (find_none _ _ _ _ W0 Hv0 Ef) as [-> ->].
    destruct (put_new_rep m0 ps l ID DS src) as (m2 & p2 & -> & W2 & Hv2 & M3 & M4); try done; try lia.
    cbn [mbind option_bind spec_source]. by eapply (prune_holds_at m0).
Qed.

(** ** Lookup *)

#[local] Instance cost_perm : Proper ((≡ₚ) ==> (=)) cost.
Proof.
  intros l k H. unfold cost. rewrite H at 1. f_equal. apply sumZ_proper, fmap_Permutation. apply NoDup_Permutation; [apply NoDup_remove_dups..|].
  intros x. rewrite !elem_of_remove_dups. by rewrite H.
Qed.

Lemma fits_perm me mb l k : l ≡ₚ k → fits me mb l = fits me mb k.
Proof. intros H. unfold fits. by rewrite H. Qed.

Definition spec_lookup (id : option bytes) (l : list cached) : option cached :=
  match id with Some (c :: r) => spec_find (c :: r) l | _ => None end.

Definition spec_touch (id : option bytes) (l : list cached) : list cached :=
  match spec_lookup id l with Some c => c :: spec_forget (ca_id c) l | None => l end.

Lemma lookup_holds m l id : holds m l →
  ∃ m', (match spec_lookup id l with
         | Some c => ∃ b blk, tool_memory_lookup_locked m id = Some (Some (ca_text c, ca_source c, b), m')
                     ∧ tm_blocks m !! b = Some blk ∧ b_dsml blk = ca_text c
         | None => tool_memory_lookup_locked m id = Some (None, m')
         end)
    ∧ holds m' (spec_touch id l) ∧ tm_blocks m' = tm_blocks m
    ∧ tm_max_entries m' = tm_max_entries m ∧ tm_max_bytes m' = tm_max_bytes m.
Proof.
  intros H. pose proof H as [(ps & W & Hv) Hfit]. unfold tool_memory_lookup_locked, spec_touch.
  destruct id as [[|i r]|].
  1, 3: exists m; unfold tool_memory_find_entry_locked; cbn [spec_lookup]; (split; [by destruct (tm_by_id m)|done]).
  rewrite find_entry_tree. cbn [spec_lookup]. destruct (tree_find (tm_by_id m) (i :: r)) as [p|] eqn:E.
  - destruct (find_split _ _ _ _ _ W Hv E) as (l1 & l2 & k1 & c & k2 & -> & -> & S1 & Vc & S2 & Ec & -> & F). rewrite Ec, F.
    destruct (touch_wf m l1 p l2 W) as (m1 & -> & W1 & M1 & M2 & K1 & V1). cbn [mbind option_bind].
    pose proof Vc as Vc1. rewrite <- V1 in Vc1. unfold view in Vc1. destruct (tm_ents m1 !! p) as [e|]; [|done]. cbn [mbind option_bind] in *.
    destruct (tm_blocks m1 !! te_block e) as [blk|] eqn:Hb; [|done]. injection Vc1 as Vc1. exists m1. cbn [mbind option_bind].
    split; [exists (te_block e), blk; rewrite <- Vc1, <- K1; done|]. split; [|done]. split.
    + exists (p :: l1 ++ l2). split; [done|]. constructor; [by rewrite V1|].
      apply Forall2_app; (eapply shows_mono; [|eassumption]); intros q _; apply V1.
    + destruct (limits_eq m m1 M1 M2) as [-> ->]. rewrite <- Hfit. apply fits_perm, Permutation_middle.
  - destruct (find_none _ _ _ _ W Hv E) as [-> _]. by exists m.
Qed.

End rep.

(** ** Every run of the memory is a run of the cache *)

(** The calls the server makes. *)
Inductive memory_op :=
  | MPut (id dsml : option bytes) (source : tool_memory_source)
  | MLookup (id : option bytes).

(** A put answers nothing, a lookup the text and its source. *)
Definition memory_answer : Type := option (bytes * tool_memory_source).

Definition spec_op (me mb : Z) (op : memory_op) (l : list cached) : memory_answer * list cached :=
  match op with
  | MPut (Some (i :: id)) (Some (d :: dsml)) src => (None, spec_put me mb (i :: id) (d :: dsml) src l)
  | MPut _ _ _ => (None, l)
  | MLookup id => ((λ c, (ca_text c, ca_source c)) <$> spec_lookup id l, spec_touch id l)
  end.

Fixpoint spec_run (me mb : Z) (ops : list memory_op) (l : list cached) : list memory_answer * list cached :=
  match ops with
  | [] => ([], l)
  | op :: ops' =>
      let '(a, l) := spec_op me mb op l in
      let '(r, l) := spec_run me mb ops' l in
      (a :: r, l)
  end.

Section run.
Context {R : Type} `{!RaxOps R} `{!Rax R}.
Implicit Types m : tool_memory R.

Definition memory_do m (op : memory_op) : option (memory_answer * tool_memory R) :=
  match op with
  | MPut id dsml src => m ← tool_memory_put_locked m id dsml src; Some (None, m)
  | MLookup id =>
      match tool_memory_lookup_locked m id with
      | Some (found, m) => Some (fst <$> found, m)
      | None => None
      end
  end.

Fixpoint memory_run m (ops : list memory_op) : option (list memory_answer * tool_memory R) :=
  match ops with
  | [] => Some ([], m)
  | op :: ops' =>
      match memory_do m op with
      | Some (a, m) =>
          match memory_run m ops' with
          | Some (r, m) => Some (a :: r, m)
          | None => None
          end
      | None => None
      end
  end.

(** The counters have room for the texts of the operation. *)
Definition small_op (me mb : Z) (op : memory_op) : Prop :=
  match op with
  | MPut (Some id) (Some dsml) _ => me < INT_MAX ∧ mb + text_cost dsml + entry_cost id <= UINT64_MAX
  | _ => True
  end.

Lemma op_holds m l op : holds m l → small_op (tool_memory_max_entries m) (tool_memory_max_bytes m) op →
  ∃ m', memory_do m op = Some ((spec_op (tool_memory_max_entries m) (tool_memory_max_bytes m) op l).1, m')
    ∧ holds m' (spec_op (tool_memory_max_entries m) (tool_memory_max_bytes m) op l).2
    ∧ tm_max_entries m' = tm_max_entries m ∧ tm_max_bytes m' = tm_max_bytes m.
Proof.
  intros H Hs. destruct op as [id dsml src|id].
  - destruct id as [[|i id]|]; [by exists m| |by exists m]. destruct dsml as [[|d dsml]|]; [by exists m| |by exists m].
    cbn [memory_do spec_op fst snd]. destruct (put_holds m l (i :: id) (d :: dsml) src H) as (m' & -> & H' & M1 & M2); [done..|]. by exists m'.
  - cbn [memory_do spec_op fst snd]. destruct (lookup_holds m l id H) as (m' & Hl & H' & _ & M1 & M2). exists m'. split; [|done].
    destruct (spec_lookup id l) as [c|]; [destruct Hl as (b & blk & -> & _)|rewrite Hl]; done.
Qed.

Lemma run_holds ops : ∀ m l, holds m l → Forall (small_op (tool_memory_max_entries m) (tool_memory_max_bytes m)) ops →
  ∃ m', memory_run m ops = Some ((spec_run (tool_memory_max_entries m) (tool_memory_max_bytes m) ops l).1, m')
    ∧ holds m' (spec_run (tool_memory_max_entries m) (tool_memory_max_bytes m) ops l).2.
Proof.
  induction ops as [|op ops IH]; intros m l H Hs; [by exists m|]. apply Forall_cons in Hs as [Ho Hs].
  destruct (op_holds m l op H Ho) as (m1 & Hr & H1 & M1 & M2). cbn [memory_run spec_run]. rewrite Hr. cbn [mbind option_bind].
  destruct (limits_eq m m1 M1 M2) as [L1 L2]. rewrite <- L1, <- L2 in *. destruct (spec_op _ _ op l) as [a l1]. cbn [fst snd] in *.
  destruct (IH m1 l1 H1 Hs) as (m2 & -> & H2). destruct (spec_run _ _ ops l1) as [r l2]. cbn [mbind option_bind]. by exists m2.
Qed.

(** The memory before its first use, with the limits of the server. *)
Definition memory_start (me mb : Z) : tool_memory R := ToolMemory None None None None 0 me 0 mb 0 0 ∅ ∅.

Lemma start_holds me mb : holds (memory_start me mb) [].
Proof.
  split.
  - exists []. split; [|constructor]. constructor; try done; cbn.
    + split_and!; [apply NoDup_nil_2|done|done|done].
    + intros p. rewrite lookup_empty. split; [by intros [? ?]|by intros ?%elem_of_nil].
    + intros id p. rewrite lookup_empty. naive_solver.
    + intros d b. rewrite lookup_empty. naive_solver.
  - destruct (limits_pos (memory_start me mb)). unfold fits. apply andb_true_iff. split; apply Z.leb_le; cbn -[tool_memory_max_entries tool_memory_max_bytes]; [lia|].
    change (cost []) with 0. lia.
Qed.

End run.
