(* ===== verification/ToolReplay.v ===== *)
(** * Replaying sampled tool calls

    What the server relies on from the tool memory: a run of the memory is a run of
    the abstract cache, eviction keeps as much of the recently used as fits, a
    message gets its sampled text exactly when all its calls are known with one
    text, and a text that was remembered comes back. *)
From S2P Require Import Prelude CLib Json Request ToolText ToolMemory ToolMemoryWf ToolMemoryProps.

(** ** A finite map is a radix tree *)

#[export] Instance map_rax_ops : RaxOps (gmap bytes loc) := {
  raxNew := ∅;
  raxFind t k := t !! k;
  raxInsert t k p := (match t !! k with Some _ => false | None => true end, <[k := p]> t);
  raxRemove t k := delete k t;
}.

#[export] Instance map_rax : Rax (gmap bytes loc).
Proof.
  split; cbn.
  - apply lookup_empty.
  - intros t k p. by destruct (t !! k).
  - intros t k p. apply lookup_insert_eq.
  - intros t k k' p H. by apply lookup_insert_ne.
  - intros t k. apply lookup_delete_eq.
  - intros t k k' H. by apply lookup_delete_ne.
Qed.

(** ** Eviction keeps the longest part that fits *)

Lemma text_cost_pos t : 0 < text_cost t.
Proof. unfold text_cost, sizeof_block. lia. Qed.

Lemma cost_prefix k r : cost k <= cost (k ++ r).
Proof.
  unfold cost. rewrite !fmap_app, sumZ_app.
  assert (0 <= sumZ ((entry_cost ∘ ca_id) <$> r)).
  { apply sumZ_nonneg, Forall_fmap, Forall_forall. intros x _. cbn. unfold entry_cost, sizeof_entry. lia. }
  assert (remove_dups (ca_text <$> k) ⊆+ remove_dups ((ca_text <$> k) ++ (ca_text <$> r))) as [s Hs]%submseteq_Permutation.
  { apply NoDup_submseteq; [apply NoDup_remove_dups|]. intros x. rewrite !elem_of_remove_dups, elem_of_app. by left. }
  rewrite Hs, fmap_app, sumZ_app. assert (0 <= sumZ (text_cost <$> s)); [|lia].
  apply sumZ_nonneg, Forall_fmap, Forall_forall. intros x _. cbn. pose proof (text_cost_pos x). lia.
Qed.

Lemma fits_prefix me mb k r : fits me mb (k ++ r) = true → fits me mb k = true.
Proof.
  unfold fits. rewrite !andb_true_iff, !Z.leb_le, length_app. pose proof (cost_prefix k r). lia.
Qed.

Lemma prune_longest me mb l : 0 <= me → 0 <= mb →
  ∃ n, spec_prune me mb l = take n l ∧ (n <= length l)%nat
    ∧ ∀ j, (j <= length l)%nat → fits me mb (take j l) = true ↔ (j <= n)%nat.
Proof.
  intros H1 H2. induction l as [|x l IH] using rev_ind.
  - exists 0%nat. split; [done|]. split; [done|]. intros j Hj. rewrite take_nil. split; [simpl in Hj; lia|].
    intros _. by apply (fits_prune me mb []).
  - rewrite spec_prune_snoc, length_app. cbn [length]. destruct (fits me mb (l ++ [x])) eqn:E.
    + exists (length l + 1)%nat. split; [by rewrite take_ge by (rewrite length_app; simpl; lia)|]. split; [lia|].
      intros j Hj. split; [done|]. intros _. rewrite <- (take_drop j (l ++ [x])) in E. by eapply fits_prefix.
    + destruct IH as (n & -> & Hn & Hj). exists n. split; [by rewrite take_app_le|]. split; [lia|]. intros j Hj'.
      destruct (decide (j <= length l)%nat) as [Hle|Hgt]; [rewrite take_app_le by lia; by apply Hj|].
      rewrite take_ge by (rewrite length_app; simpl; lia). rewrite E. split; [done|lia].
Qed.

Section replay.
Context {R : Type} `{!RaxOps R} `{!Rax R}.
Implicit Types m : tool_memory R.

(** ** Messages *)

Lemma find_touch id id' l : spec_find id' (spec_touch id l) = spec_find id' l.
Proof.
  unfold spec_touch. destruct (spec_lookup id l) as [c|] eqn:E; [|done].
  assert (Hc : spec_find (ca_id c) l = Some c).
  { destruct id as [[|i r]|]; [done| |done]. cbn in E. pose proof E as E'. unfold spec_find in E'.
    destruct (filter (λ x, ca_id x = i :: r) l) as [|y s] eqn:Ef; [done|]. injection E' as ->.
    assert (Hin : c ∈ filter (λ x, ca_id x = i :: r) l) by (rewrite Ef; by left).
    apply list_elem_of_filter in Hin as [Hin _]. by rewrite Hin. }
  unfold spec_find in *. destruct (decide (ca_id c = id')) as [<-|Hne].
  - rewrite filter_cons_True by done. destruct (filter _ l); [done|]. by injection Hc as ->.
  - rewrite filter_cons_False by done. unfold spec_forget. rewrite list_filter_filter_l; [done|]. intros x ->. congruence.
Qed.

Lemma lookup_touch id id' l : spec_lookup id' (spec_touch id l) = spec_lookup id' l.
Proof. destruct id' as [[|i r]|]; [done|apply find_touch|done]. Qed.

(** The text the cache has for a call. *)
Definition text_of (l : list cached) (tc : tool_call) : option bytes := ca_text <$> spec_lookup (tc_id tc) l.

Definition spec_missing (l : list cached) (v : list tool_call) : Z :=
  Z.of_nat (length (filter (λ tc, text_of l tc = None) v)).

Definition touch_all (v : list tool_call) (l : list cached) : list cached := foldl (λ l tc, spec_touch (tc_id tc) l) l v.

Lemma lookup_touch_all v id l : spec_lookup id (touch_all v l) = spec_lookup id l.
Proof.
  revert l. induction v as [|tc v IH]; intros l; [done|]. cbn [touch_all foldl]. fold (touch_all v (spec_touch (tc_id tc) l)).
  by rewrite IH, lookup_touch.
Qed.

Lemma text_of_touch_all v tc l : text_of (touch_all v l) tc = text_of l tc.
Proof. unfold text_of. by rewrite lookup_touch_all. Qed.

(** What the loop over the calls of a message knows after the calls [v]. *)
Definition attach_inv m (l : list cached) (st : attach_state) (v : list tool_call) : Prop :=
  (match at_matched st with
   | None => ∀ tc, tc ∈ v → text_of l tc = None
   | Some b => ∃ blk tc, tm_blocks m !! b = Some blk ∧ tc ∈ v ∧ text_of l tc = Some (b_dsml blk)
   end)
  ∧ (at_exact st = true ↔ ∀ tc, tc ∈ v → ∃ b blk, at_matched st = Some b ∧ tm_blocks m !! b = Some blk ∧ text_of l tc = Some (b_dsml blk))
  ∧ at_missing st = spec_missing l v.

Lemma missing_snoc l v tc : spec_missing l (v ++ [tc]) = spec_missing l v + match text_of l tc with None => 1 | Some _ => 0 end.
Proof.
  unfold spec_missing. rewrite filter_app, length_app. destruct (text_of l tc) eqn:E.
  - rewrite (filter_cons_False _ tc) by congruence. simpl. lia.
  - rewrite (filter_cons_True _ tc) by done. simpl. lia.
Qed.

Lemma attach_call_inv m l l0 st v tc : holds m l → (∀ tc, text_of l tc = text_of l0 tc) → attach_inv m l0 st v →
  ∃ st' m', attach_call m st tc = Some (st', m') ∧ holds m' (spec_touch (tc_id tc) l) ∧ attach_inv m' l0 st' (v ++ [tc])
    ∧ tm_blocks m' = tm_blocks m ∧ tm_max_entries m' = tm_max_entries m ∧ tm_max_bytes m' = tm_max_bytes m.
Proof.
  intros H Heq (I1 & I2 & I3). unfold attach_call. destruct (lookup_holds m l (tc_id tc) H) as (m' & Hl & H' & K & M1 & M2).
  specialize (Heq tc). unfold text_of at 1 in Heq. destruct (spec_lookup (tc_id tc) l) as [c|].
  - destruct Hl as (b & blk & -> & Hb & Ht). cbn [mbind option_bind fmap option_fmap option_map] in *. rewrite <- Ht in Heq. symmetry in Heq.
    destruct (at_matched st) as [b0|] eqn:Em.
    + eexists _, m'. split; [done|]. split_and!; [done| |done..]. unfold attach_inv. cbn [at_matched at_exact at_missing]. rewrite K.
      rewrite missing_snoc, Heq, <- I3. destruct I1 as (blk0 & tc0 & Hb0 & Hin & Ht0).
      split_and!; [exists blk0, tc0; rewrite elem_of_snoc; auto| |lia].
      case_decide as Hd.
      * subst b0. rewrite Hb in Hb0. injection Hb0 as <-. rewrite I2. setoid_rewrite elem_of_snoc.
        split; [intros Hall x [Hx| ->]; [by apply Hall|by exists b, blk]|auto].
      * split; [done|]. intros Hall. exfalso. apply Hd. destruct (Hall tc) as (b1 & k1 & [= <-] & Hk1 & Hx); [apply elem_of_snoc; auto|].
        destruct H as [(ps & W & _) _]. eapply same_block_text; [exact W|exact Hk1|exact Hb|congruence].
    + eexists _, m'. split; [done|]. split_and!; [done| |done..]. unfold attach_inv. cbn [at_matched at_exact at_missing]. rewrite K.
      rewrite missing_snoc, Heq, <- I3. split_and!; [exists blk, tc; rewrite elem_of_snoc; auto| |lia].
      rewrite I2. setoid_rewrite elem_of_snoc. split.
      * intros Hall x [Hx| ->]; [|by exists b, blk]. by destruct (Hall x Hx) as (? & ? & ? & _).
      * intros Hall x Hx. destruct (Hall x) as (b1 & k1 & _ & _ & Hx1); [by left|]. by rewrite (I1 x Hx) in Hx1.
  - rewrite Hl. cbn [mbind option_bind fmap option_fmap option_map] in *. symmetry in Heq. eexists _, m'. split; [done|].
    split_and!; [done| |done..]. unfold attach_inv. cbn [at_matched at_exact at_missing]. rewrite K. rewrite missing_snoc, Heq, <- I3. split_and!; [| |done].
    + destruct (at_matched st) as [b0|]; [destruct I1 as (blk0 & tc0 & ? & ? & ?); exists blk0, tc0; rewrite elem_of_snoc; auto|].
      intros x. rewrite elem_of_snoc. intros [Hx| ->]; [by apply I1|done].
    + split; [done|]. intros Hall. destruct (Hall tc) as (b1 & k1 & _ & _ & Hx); [apply elem_of_snoc; auto|congruence].
Qed.

Lemma attach_calls_inv v : ∀ m l l0 st v0, holds m l → (∀ tc, text_of l tc = text_of l0 tc) → attach_inv m l0 st v0 →
  ∃ st' m', attach_calls m st v = Some (st', m') ∧ holds m' (touch_all v l) ∧ attach_inv m' l0 st' (v0 ++ v)
    ∧ tm_max_entries m' = tm_max_entries m ∧ tm_max_bytes m' = tm_max_bytes m.
Proof.
  induction v as [|tc v IH]; intros m l l0 st v0 H Heq I.
  { exists st, m. rewrite app_nil_r. done. }
  destruct (attach_call_inv m l l0 st v0 tc H Heq I) as (st1 & m1 & E1 & H1 & I1 & _ & M1 & M2).
  destruct (IH m1 (spec_touch (tc_id tc) l) l0 st1 (v0 ++ [tc]) H1) as (st2 & m2 & E2 & H2 & I2 & M3 & M4); [|done|].
  { intros x. rewrite <- Heq. unfold text_of. by rewrite lookup_touch. }
  exists st2, m2. cbn [attach_calls]. rewrite E1. cbn [mbind option_bind]. rewrite E2. rewrite <- app_assoc in I2.
  split_and!; [done|done|done|congruence|congruence].
Qed.

Lemma set_raw_ne msg t : needs_text msg = true → set_raw_tool_text msg (Some t) ≠ msg.
Proof. unfold needs_text. destruct msg as [? ? ? ? ? calls raw]. cbn. by destruct calls, raw. Qed.

Lemma attach_message_exact m l stats msg : holds m l → needs_text msg = true →
  ∃ msg' stats' m', attach_message m stats msg = Some (msg', stats', m') ∧ holds m' (touch_all (msg_calls msg) l)
    ∧ (∀ t, msg' = set_raw_tool_text msg (Some t) ↔ ∀ tc, tc ∈ msg_calls msg → text_of l tc = Some t)
    ∧ (msg' = msg ∨ ∃ t, msg' = set_raw_tool_text msg (Some t))
    ∧ rs_canonical stats' = rs_canonical stats + (if bool_decide (msg_raw_tool_text msg' = None) then 1 else 0)
    ∧ tm_max_entries m' = tm_max_entries m ∧ tm_max_bytes m' = tm_max_bytes m.
Proof.
  intros H Hn. unfold attach_message. rewrite Hn.
  destruct (attach_calls_inv (msg_calls msg) m l l (AttachState None TOOL_MEMORY_DISK true 0) []) as (st & m' & -> & H' & (I1 & I2 & I3) & M1 & M2).
  { done. } { done. } { split_and!; [by intros ? ?%elem_of_nil| |done]. split; [by intros _ ? ?%elem_of_nil|done]. }
  cbn [mbind option_bind app] in *.
  assert (Hraw : msg_raw_tool_text msg = None) by (unfold needs_text in Hn; by destruct (msg_calls msg), (msg_raw_tool_text msg)).
  assert (Hne : ∃ tc, tc ∈ msg_calls msg) by (unfold needs_text in Hn; destruct (msg_calls msg) as [|tc v]; [done|]; exists tc; by left).
  assert (Hyes : at_exact st = true → ∃ b blk, at_matched st = Some b ∧ tm_blocks m' !! b = Some blk
    ∧ ∀ tc, tc ∈ msg_calls msg → text_of l tc = Some (b_dsml blk)).
  { intros Ex. pose proof (proj1 I2 Ex) as Hall. destruct Hne as [tc0 Hin]. destruct (Hall tc0 Hin) as (b & blk & Em & Hb & Ht).
    exists b, blk. split_and!; [done|done|]. intros tc Htc. destruct (Hall tc Htc) as (b' & blk' & Em' & Hb' & ->). congruence. }
  assert (Hno : at_exact st = false → ∀ t, msg = set_raw_tool_text msg (Some t) ↔ ∀ tc, tc ∈ msg_calls msg → text_of l tc = Some t).
  { intros Ex t. split; [intros Hm; by destruct (set_raw_ne msg t Hn)|]. intros Hall. exfalso. rewrite <- not_true_iff_false in Ex. apply Ex, I2.
    destruct Hne as [tc0 Hin]. destruct (at_matched st) as [b|]; [|specialize (Hall tc0 Hin); by rewrite (I1 tc0 Hin) in Hall].
    destruct I1 as (blk & tc1 & Hb & Hin1 & Ht1). intros tc Htc. exists b, blk. split_and!; [done|done|].
    rewrite (Hall tc Htc). by rewrite (Hall tc1 Hin1) in Ht1. }
  destruct (at_exact st) eqn:Ex.
  - destruct (Hyes eq_refl) as (b & blk & -> & -> & Hall). cbn [mbind option_bind]. eexists _, _, m'. split; [done|].
    split_and!; [done| |right; by eexists| |done|done].
    + intros t. split.
      * intros E. apply (f_equal msg_raw_tool_text) in E. cbn in E. injection E as <-. exact Hall.
      * intros Hall'. destruct Hne as [tc0 Hin]. pose proof (Hall tc0 Hin). pose proof (Hall' tc0 Hin). congruence.
    + destruct (at_source st); cbn; lia.
  - exists msg. eexists _, m'. split; [by destruct (at_matched st)|]. split_and!; [done|by apply Hno|by left| |done|done].
    cbn. by rewrite bool_decide_eq_true_2.
Qed.

(** ** A text that was remembered comes back *)

(** The entries of new calls, the last first. *)
Definition new_entries (raw : bytes) (v : list tool_call) : list cached :=
  reverse ((λ tc, Cached (default [] (tc_id tc)) raw TOOL_MEMORY_RAM) <$> v).

Definition ids_ok (v : list tool_call) : Prop :=
  NoDup (tc_id <$> v) ∧ Forall (λ tc, ∃ c r, tc_id tc = Some (c :: r)) v.

Lemma forget_app id l k : spec_forget id (l ++ k) = spec_forget id l ++ spec_forget id k.
Proof. apply filter_app. Qed.

Lemma put_front me mb id raw src front rest : 0 <= me → 0 <= mb → (∀ x, x ∈ front → ca_id x ≠ id) →
  let c := Cached id raw (spec_source (spec_find id (front ++ rest)) raw src) in
  fits me mb (c :: front) = true → ∃ rest', spec_put me mb id raw src (front ++ rest) = (c :: front) ++ rest'.
Proof.
  intros H1 H2 Hf c Hfit. unfold spec_put. rewrite forget_app, (proj1 (forget_other id front Hf)). fold c.
  set (r := spec_forget id rest).
  destruct (prune_longest me mb (c :: front ++ r) H1 H2) as (n & -> & Hn & Hj).
  assert (Hlen : (length (c :: front) <= n)%nat).
  { apply Hj; [cbn [length]; rewrite length_app; lia|]. change (c :: front ++ r) with ((c :: front) ++ r). by rewrite take_app_length. }
  exists (take (n - length (c :: front)) r). change (c :: front ++ r) with ((c :: front) ++ r). by rewrite take_app_ge by done.
Qed.

Lemma source_ram o raw : spec_source o raw TOOL_MEMORY_RAM = TOOL_MEMORY_RAM.
Proof. destruct o as [c|]; [|done]. unfold spec_source. by rewrite decide_False by naive_solver. Qed.

Lemma put_calls_front raw v2 : raw ≠ [] → ∀ m v1 rest, ids_ok (v1 ++ v2) → holds m (new_entries raw v1 ++ rest) →
  fits (tool_memory_max_entries m) (tool_memory_max_bytes m) (new_entries raw (v1 ++ v2)) = true →
  (∀ tc id, tc ∈ v2 → tc_id tc = Some id → small_put m id raw) →
  ∃ m' rest', put_calls m v2 raw = Some m' ∧ holds m' (new_entries raw (v1 ++ v2) ++ rest').
Proof.
  intros Hraw. induction v2 as [|tc v2 IH]; intros m v1 rest Hids H Hfit Hs.
  { exists m, rest. rewrite app_nil_r. done. }
  assert (Hsplit : v1 ++ tc :: v2 = (v1 ++ [tc]) ++ v2) by (by rewrite <- app_assoc). rewrite Hsplit in *.
  destruct Hids as [Hnd Hall]. pose proof Hall as [[_ Hc]%Forall_app _]%Forall_app. apply Forall_singleton in Hc as (c & r & Hid).
  set (id := c :: r) in *. destruct (limits_pos m) as [P1 P2].
  assert (Hnew : new_entries raw (v1 ++ [tc]) = Cached id raw TOOL_MEMORY_RAM :: new_entries raw v1).
  { unfold new_entries. rewrite fmap_app, reverse_app. cbn. by rewrite Hid. }
  assert (Hf1 : fits (tool_memory_max_entries m) (tool_memory_max_bytes m) (new_entries raw (v1 ++ [tc])) = true).
  { unfold new_entries in Hfit |- *. rewrite fmap_app, reverse_app in Hfit. eapply fits_prefix. rewrite (fits_perm _ _ _ _ (Permutation_app_comm _ _)).
    exact Hfit. }
  destruct (put_holds m _ id raw TOOL_MEMORY_RAM H) as (m1 & E1 & H1 & M1 & M2); [done|done|apply (Hs tc); [by left|done]|].
  destruct (put_front (tool_memory_max_entries m) (tool_memory_max_bytes m) id raw TOOL_MEMORY_RAM (new_entries raw v1) rest) as (rest1 & Er); [lia|lia| |by rewrite source_ram, <- Hnew|].
  { unfold new_entries. intros x Hx. rewrite elem_of_reverse, list_elem_of_fmap in Hx. destruct Hx as (t & -> & Ht). cbn.
    rewrite !fmap_app in Hnd. apply NoDup_app in Hnd as [(_ & Hd & _)%NoDup_app _]. intros Et. apply (Hd (tc_id t)); [by apply list_elem_of_fmap_2|].
    apply Forall_app in Hall as [[Hall _]%Forall_app _]. rewrite Forall_forall in Hall. destruct (Hall t Ht) as (c' & r' & Ht').
    rewrite Ht' in Et |- *. cbn in Et. rewrite Et, <- Hid. apply list_elem_of_singleton. done. }
  rewrite Er, source_ram, <- Hnew in H1. cbn [put_calls]. rewrite Hid. fold id. rewrite E1. cbn [mbind option_bind].
  destruct (limits_eq m m1 M1 M2) as [L1 L2].
  apply (IH m1 (v1 ++ [tc]) rest1); [by split|done|by rewrite L1, L2|]. intros t i Ht Hi. unfold small_put. rewrite L1, L2. apply (Hs t); [by right|done].
Qed.

Lemma find_front id raw front rest : (∃ x, x ∈ front ∧ ca_id x = id) → (∀ x, x ∈ front → ca_text x = raw) →
  ca_text <$> spec_find id (front ++ rest) = Some raw.
Proof.
  intros (x & Hx & Hid) Ht. unfold spec_find. rewrite filter_app. destruct (filter (λ c, ca_id c = id) front) as [|y s] eqn:E.
  - exfalso. assert (Hin : x ∈ filter (λ c, ca_id c = id) front) by (by apply list_elem_of_filter). rewrite E in Hin. by apply elem_of_nil in Hin.
  - cbn. f_equal. apply Ht. assert (Hin : y ∈ filter (λ c, ca_id c = id) front) by (rewrite E; by left).
    by apply list_elem_of_filter in Hin as [_ Hin].
Qed.

End replay.

(** ** The claims *)

Section claims.
Context {R : Type} `{!RaxOps R} `{!Rax R}.

(** C2. Every run of puts and lookups from an empty memory goes through, never
    following a freed or missing pointer, answers what the abstract cache answers
    and ends in a state that stands for the same cache: a list of ids with their
    text in the order of use, cut to the limits. *)
Theorem tool_memory_refines_cache me mb ops
  (Hops : Forall (small_op (tool_memory_max_entries (memory_start (R := R) me mb)) (tool_memory_max_bytes (memory_start (R := R) me mb))) ops) :
  let '(answers, l) := spec_run (tool_memory_max_entries (memory_start (R := R) me mb)) (tool_memory_max_bytes (memory_start (R := R) me mb)) ops [] in
  ∃ m, memory_run (memory_start (R := R) me mb) ops = Some (answers, m) ∧ holds m l.
Proof.
  destruct (run_holds ops (memory_start (R := R) me mb) [] (start_holds me mb) Hops) as (m & Hm & H).
  destruct (spec_run _ _ ops []) as [answers l]. by exists m.
Qed.

(** A put keeps of the cache, with the new entry in front, the longest part
    that is within both limits: entries are dropped only from the least recently
    used end and only as far as needed. *)
Theorem put_keeps_longest (m : tool_memory R) l id dsml src (H : holds m l) (Hid : id ≠ []) (Hd : dsml ≠ []) (Hs : small_put m id dsml) :
  ∃ m' n, tool_memory_put_locked m (Some id) (Some dsml) src = Some m'
    ∧ (let all := Cached id dsml (spec_source (spec_find id l) dsml src) :: spec_forget id l in
       holds m' (take n all) ∧ (n <= length all)%nat
       ∧ ∀ j, (j <= length all)%nat → fits (tool_memory_max_entries m) (tool_memory_max_bytes m) (take j all) = true ↔ (j <= n)%nat).
Proof.
  destruct (put_holds m l id dsml src H Hid Hd Hs) as (m' & Hp & H' & _). exists m'. unfold spec_put in H'.
  destruct (limits_pos m). destruct (prune_longest (tool_memory_max_entries m) (tool_memory_max_bytes m)
    (Cached id dsml (spec_source (spec_find id l) dsml src) :: spec_forget id l)) as (n & En & Hn & Hj); [lia|lia|].
  exists n. split; [done|]. rewrite En in H'. done.
Qed.

(** A message with tool calls gets a sampled text exactly when the memory has
    that one text for every one of its calls; otherwise it is left as it is and
    counted for canonical rendering. *)
Theorem attach_exact (m : tool_memory R) l stats msg (H : holds m l) (Hn : needs_text msg = true) :
  ∃ msg' stats' m', tool_memory_attach_to_messages true m [msg] stats = Some ([msg'], stats', m')
    ∧ (∀ t, msg' = set_raw_tool_text msg (Some t) ↔ ∀ tc, tc ∈ msg_calls msg → text_of l tc = Some t)
    ∧ (msg' = msg ∨ ∃ t, msg' = set_raw_tool_text msg (Some t))
    ∧ rs_canonical stats' = rs_canonical stats + (if bool_decide (msg_raw_tool_text msg' = None) then 1 else 0).
Proof.
  destruct (attach_message_exact m l stats msg H Hn) as (msg' & stats' & m' & E & _ & H1 & H2 & H3 & _).
  exists msg', stats', m'. cbn [tool_memory_attach_to_messages attach_messages]. rewrite E. done.
Qed.

(** C26. The markup sampled for a turn is replayed byte for byte: once the calls of
    a turn are remembered, a later message that mentions their ids gets the sampled
    text, if the new entries alone are within the limits. *)
Theorem remember_then_attach (m : tool_memory R) l v raw msg stats (H : holds m l) (Hraw : raw ≠ []) (Hids : ids_ok v)
  (Hfit : fits (tool_memory_max_entries m) (tool_memory_max_bytes m) (new_entries raw v) = true)
  (Hs : ∀ tc id, tc ∈ v → tc_id tc = Some id → small_put m id raw)
  (Hn : needs_text msg = true) (Hin : ∀ tc, tc ∈ msg_calls msg → tc_id tc ∈ tc_id <$> v) :
  ∃ m1 m2 stats', tool_memory_remember true m (ToolCalls v (Some raw)) = Some m1
    ∧ tool_memory_attach_to_messages true m1 [msg] stats = Some ([set_raw_tool_text msg (Some raw)], stats', m2).
Proof.
  destruct raw as [|c raw]; [done|]. cbn [tool_memory_remember calls_raw_tool_text calls_v].
  destruct (put_calls_front (c :: raw) v Hraw m [] l) as (m1 & rest & -> & H1); [done|done|done|done|]. cbn [app] in H1.
  destruct (attach_message_exact m1 _ stats msg H1 Hn) as (msg' & stats' & m2 & E & _ & Hex & _).
  exists m1, m2, stats'. split; [done|]. cbn [tool_memory_attach_to_messages attach_messages]. rewrite E. cbn [mbind option_bind].
  do 4 f_equal. apply Hex. intros tc Htc. apply Hin in Htc. apply list_elem_of_fmap in Htc as (t & Et & Ht).
  destruct Hids as [_ Hall]. rewrite Forall_forall in Hall. destruct (Hall t Ht) as (i & r & Hi). unfold text_of. rewrite Et, Hi. cbn [spec_lookup].
  apply find_front.
  - exists (Cached (i :: r) (c :: raw) TOOL_MEMORY_RAM). split; [|done]. unfold new_entries. rewrite elem_of_reverse, list_elem_of_fmap.
    exists t. by rewrite Hi.
  - intros x. unfold new_entries. rewrite elem_of_reverse, list_elem_of_fmap. by intros (y & -> & _).
Qed.

End claims.

(** ** Concrete runs *)

Definition sample_start : tool_memory (gmap bytes loc) := memory_start 2 0.

Definition sample_call : tool_call := ToolCall (Some (bs "call_1")) (Some (bs "ls")) None.

Definition sample_msg : chat_msg := ChatMsg (Some (bs "assistant")) None None None [] [sample_call] None.

(** Witness of C2: with room for two ids, the id that was not used since is the one
    that goes. *)
Lemma tool_memory_refines_cache_witness :
  ∃ m : tool_memory (gmap bytes loc), memory_run sample_start
    [MPut (Some (bs "a")) (Some (bs "X")) TOOL_MEMORY_RAM; MPut (Some (bs "b")) (Some (bs "Y")) TOOL_MEMORY_DISK;
     MLookup (Some (bs "a")); MPut (Some (bs "c")) (Some (bs "X")) TOOL_MEMORY_RAM; MLookup (Some (bs "b")); MLookup (Some (bs "a"))]
  = Some ([None; None; Some (bs "X", TOOL_MEMORY_RAM); None; None; Some (bs "X", TOOL_MEMORY_RAM)], m).
Proof.
  destruct (tool_memory_refines_cache (R := gmap bytes loc) 2 0
    [MPut (Some (bs "a")) (Some (bs "X")) TOOL_MEMORY_RAM; MPut (Some (bs "b")) (Some (bs "Y")) TOOL_MEMORY_DISK;
     MLookup (Some (bs "a")); MPut (Some (bs "c")) (Some (bs "X")) TOOL_MEMORY_RAM; MLookup (Some (bs "b")); MLookup (Some (bs "a"))])
    as (m & Hm & _); [repeat constructor; vm_compute; congruence|exists m; exact Hm].
Defined.

(** Witness: the first put of a memory. *)
Lemma put_keeps_longest_witness :
  ∃ m' n, tool_memory_put_locked sample_start (Some (bs "a")) (Some (bs "X")) TOOL_MEMORY_RAM = Some m' ∧ (n <= 1)%nat
    ∧ (1 <= n)%nat.
Proof.
  destruct (put_keeps_longest sample_start [] (bs "a") (bs "X") TOOL_MEMORY_RAM) as (m' & n & Hp & _ & Hn & Hj);
    [apply start_holds|done|done|vm_compute; split; congruence|].
  exists m', n. split; [exact Hp|]. split; [exact Hn|]. apply Hj; [vm_compute; lia|vm_compute; reflexivity].
Defined.

(** Witness: a message whose call is not known. *)
Lemma attach_exact_witness :
  ∃ stats' m', tool_memory_attach_to_messages true sample_start [sample_msg] (ToolReplayStats 0 0 0 0) = Some ([sample_msg], stats', m')
    ∧ rs_canonical stats' = 1.
Proof.
  destruct (attach_exact sample_start [] (ToolReplayStats 0 0 0 0) sample_msg) as (msg' & stats' & m' & E & Hex & [->|[t ->]] & Hc);
    [apply start_holds|reflexivity|exists stats', m'; split; [exact E|exact Hc]|].
  exfalso. pose proof (proj1 (Hex t) eq_refl sample_call ltac:(by left)) as H. vm_compute in H. discriminate.
Defined.

(** Witness of C26: the call of the sample message. *)
Lemma remember_then_attach_witness :
  ∃ m1 m2 stats', tool_memory_remember true sample_start (ToolCalls [sample_call] (Some (bs "<ls>"))) = Some m1
    ∧ tool_memory_attach_to_messages true m1 [sample_msg] (ToolReplayStats 0 0 0 0)
      = Some ([set_raw_tool_text sample_msg (Some (bs "<ls>"))], stats', m2).
Proof.
  apply (remember_then_attach sample_start [] [sample_call] (bs "<ls>") sample_msg (ToolReplayStats 0 0 0 0)).
  - apply start_holds.
  - done.
  - split; [apply NoDup_singleton|]. apply Forall_singleton. eexists _, _. reflexivity.
  - vm_compute. reflexivity.
  - intros tc id Htc. apply list_elem_of_singleton in Htc as ->. intros [= <-]. vm_compute. split; congruence.
  - reflexivity.
  - intros tc Htc. apply list_elem_of_singleton in Htc as ->. by left.
Defined.
