(* ===== verification/ToolMap.v ===== *)
(** * The tool map of a checkpoint

    The trailer that [engine/src/server.c] writes after the payload of a KV
    checkpoint: the ids of the tool calls whose sampled markup stands in the
    checkpoint text, with that markup, so that a restarted server can replay it.
    The model of finding the markup in the text, measuring, writing and loading the
    map, and of restoring the tool memory for the messages of a request. *)
From S2P Require Import Prelude CLib KvHeader KvCache Json Request Stream ToolText ToolMemory.

(** ** Markup in the checkpoint text *)

Definition block_forms : list (bytes * bytes) :=
  [([10; 10] ++ DS4_TOOL_CALLS_START, DS4_TOOL_CALLS_END);
   (DS4_TOOL_CALLS_START, DS4_TOOL_CALLS_END);
   ([10; 10] ++ DS4_TOOL_CALLS_START_SHORT, DS4_TOOL_CALLS_END_SHORT);
   (DS4_TOOL_CALLS_START_SHORT, DS4_TOOL_CALLS_END_SHORT);
   ([10; 10] ++ bs "<tool_calls>", bs "</tool_calls>");
   (bs "<tool_calls>", bs "</tool_calls>")].

(** One form against the best block so far; a block is its start and its end. *)
Definition better_block (p : bytes) (best : option (nat * nat)) (form : bytes * bytes) : option (nat * nat) :=
  match strstr p form.1 with
  | None => best
  | Some s =>
      if match best with Some (b, _) => (b <=? s)%nat | None => false end then best
      else match strstr (drop s p) form.2 with
           | None => best
           | Some e => Some (s, s + e + length form.2)%nat
           end
  end.

Definition find_next_dsml_tool_block (p : bytes) : option (nat * nat) := foldl (better_block p) None block_forms.

(** ** Ids *)

Definition id_list_contains (ids : stop_list) (id : option bytes) : bool :=
  match id with
  | Some (c :: r) => existsb (bytes_eqb (c :: r)) (stop_v ids)
  | _ => false
  end.

Definition id_list_push_unique (ids : stop_list) (id : option bytes) : stop_list :=
  match id with
  | Some (c :: r) => if id_list_contains ids id then ids else stop_list_push ids (c :: r)
  | _ => ids
  end.

Definition collect_message_ids (ids : stop_list) (msg : chat_msg) : stop_list :=
  let ids := id_list_push_unique ids (msg_tool_call_id msg) in
  let ids := foldl (λ ids id, id_list_push_unique ids (Some id)) ids (msg_tool_call_ids msg) in
  foldl (λ ids tc, id_list_push_unique ids (tc_id tc)) ids (msg_calls msg).

Definition collect_tool_call_ids (msgs : list chat_msg) (ids : stop_list) : stop_list := foldl collect_message_ids ids msgs.

(** ** Writing *)

Definition KV_TOOL_MAP_MAGIC : bytes := bs "KTM".
Definition KV_TOOL_MAP_VERSION : Z := 1.
Definition KV_TOOL_MAP_HEADER : Z := 8.

Section tool_map.
Context {R : Type} `{!RaxOps R}.
Implicit Types m : tool_memory R.

(** The inner loop of the measure, over the entries of a block; false when the
    sizes leave their range. *)
Fixpoint measure_entries (fuel : nat) m (e : option loc) (dsml_len : Z) (count bytes : Z) : option (Z * Z * bool) :=
  match fuel with
  | O => None
  | S fuel' =>
      match e with
      | None => Some (count, bytes, true)
      | Some p =>
          x ← tm_ents m !! p;
          let id_len := Z.of_nat (length (te_id x)) in
          if (UINT32_MAX <? id_len) || (UINT32_MAX <? dsml_len) then measure_entries fuel' m (te_block_next x) dsml_len count bytes
          else if count =? UINT32_MAX then Some (count, bytes, false)
          else if (UINT64_MAX - bytes <? 8) || (UINT64_MAX - bytes - 8 <? id_len) || (UINT64_MAX - bytes - 8 - id_len <? dsml_len)
          then Some (count, bytes, false)
          else measure_entries fuel' m (te_block_next x) dsml_len (count + 1) (bytes + 8 + id_len + dsml_len)
      end
  end.

(** The loop over the blocks of the text, as the measure and the writer have it:
    each block of the memory is taken once; [f] does the entries of a block and ends
    the loop with false. *)
Fixpoint scan_text {A} (f : tool_memory R → tool_memory_block → A → option (A * bool)) (fuel : nat) m (scan : Z) (p : bytes) (acc : A)
  : option (A * bool * tool_memory R) :=
  match fuel with
  | O => None
  | S fuel' =>
      match find_next_dsml_tool_block p with
      | None => Some (acc, true, m)
      | Some (start, stop) =>
          let rest := drop stop p in
          match tool_memory_find_block_locked m (take (stop - start) (drop start p)) with
          | None => scan_text f fuel' m scan rest acc
          | Some b =>
              blk ← tm_blocks m !! b;
              if b_seen blk =? scan then scan_text f fuel' m scan rest acc
              else
                m ← upd_block b (b_set_seen scan) m;
                '(acc, ok) ← f m blk acc;
                if (ok : bool) then scan_text f fuel' m scan rest acc else Some (acc, false, m)
          end
      end
  end.

Definition measure_block m (blk : tool_memory_block) (acc : Z * Z) : option (Z * Z * bool) :=
  measure_entries (S (size (tm_ents m))) m (b_entries blk) (Z.of_nat (b_len blk)) acc.1 acc.2.

(** The count and the bytes, or nothing when they leave their range. *)
Definition kv_tool_map_measure_locked m (text : bytes) : option (option (Z * Z) * tool_memory R) :=
  let m := set_scan (u64 (tm_scan_clock m + 1)) m in
  '(count, bytes, ok, m) ← scan_text measure_block (S (length text)) m (tm_scan_clock m) text (0, KV_TOOL_MAP_HEADER);
  Some (if (ok : bool) then Some (count, if count =? 0 then 0 else bytes) else None, m).

(** [replay] is false when exact replay is disabled. *)
Definition kv_tool_map_serialized_size (replay : bool) m (text : bytes) : option (bool * Z * tool_memory R) :=
  if negb replay || bytes_eqb text [] then Some (true, 0, m)
  else
    '(r, m) ← kv_tool_map_measure_locked m text;
    match r with
    | Some (_, bytes) => Some (true, bytes, m)
    | None => Some (false, 0, m)
    end.

(** [fwrite] to a file that takes [room] bytes in all: what the file holds after it
    and whether all was written. *)
Definition fwrite (room : nat) (out data : bytes) : bytes * bool :=
  (out ++ take (room - length out) data, (length out + length data <=? room)%nat).

Definition map_record (id dsml : bytes) : bytes :=
  kv_store_le_put32 (Z.of_nat (length id)) ++ kv_store_le_put32 (Z.of_nat (length dsml)) ++ id ++ dsml.

(** One record: the lengths, the id and the text are three writes. *)
Definition write_record (room : nat) (out id dsml : bytes) : bytes * bool :=
  let '(out, ok) := fwrite room out (kv_store_le_put32 (Z.of_nat (length id)) ++ kv_store_le_put32 (Z.of_nat (length dsml))) in
  if negb ok then (out, false) else
  let '(out, ok) := fwrite room out id in
  if negb ok then (out, false) else fwrite room out dsml.

Fixpoint write_entries (fuel : nat) (room : nat) m (e : option loc) (dsml : bytes) (out : bytes) : option (bytes * bool) :=
  match fuel with
  | O => None
  | S fuel' =>
      match e with
      | None => Some (out, true)
      | Some p =>
          x ← tm_ents m !! p;
          if (UINT32_MAX <? Z.of_nat (length (te_id x))) || (UINT32_MAX <? Z.of_nat (length dsml))
          then write_entries fuel' room m (te_block_next x) dsml out
          else
            let '(out, ok) := write_record room out (te_id x) dsml in
            if ok then write_entries fuel' room m (te_block_next x) dsml out else Some (out, false)
      end
  end.

Definition write_block (room : nat) m (blk : tool_memory_block) (out : bytes) : option (bytes * bool) :=
  write_entries (S (size (tm_ents m))) room m (b_entries blk) (take (b_len blk) (b_dsml blk)) out.

(** What is appended to the file, the result and the size that is reported. *)
Definition kv_tool_map_write (replay : bool) (room : nat) m (text : bytes) : option (bytes * bool * Z * tool_memory R) :=
  if negb replay || bytes_eqb text [] then Some ([], true, 0, m)
  else
    '(r, m) ← kv_tool_map_measure_locked m text;
    match r with
    | None => Some ([], false, 0, m)
    | Some (count, bytes) =>
        if count =? 0 then Some ([], true, 0, m)
        else
          let '(out, ok) := fwrite room [] (KV_TOOL_MAP_MAGIC ++ [KV_TOOL_MAP_VERSION] ++ kv_store_le_put32 count) in
          let m := set_scan (u64 (tm_scan_clock m + 1)) m in
          if negb ok then Some (out, false, 0, m)
          else
            '(out, ok, m) ← scan_text (write_block room) (S (length text)) m (tm_scan_clock m) text out;
            Some (out, ok, if (ok : bool) then bytes else 0, m)
    end.

(** ** Loading *)

Definition wanted_id (wanted : option stop_list) (id : bytes) : bool :=
  match wanted with None => true | Some w => id_list_contains w (Some id) end.

(** The loop over the records; [n] of them are left. *)
Fixpoint load_records (n : nat) (replay : bool) m (fp : bytes) (wanted : option stop_list) (loaded : Z) : option (Z * tool_memory R) :=
  match n with
  | O => Some (loaded, m)
  | S n' =>
      match fread 8 fp with
      | None => Some (loaded, m)
      | Some (lens, fp) =>
          let id_len := kv_store_le_get32 lens in
          let dsml_len := kv_store_le_get32 (drop 4 lens) in
          if (id_len =? 0) || (256 <? id_len) || (dsml_len =? 0) || (DS4_TOOL_MEMORY_MAX_BYTES <? dsml_len) then Some (loaded, m)
          else
            match fread (Z.to_nat id_len) fp with
            | None => Some (loaded, m)
            | Some (id, fp) =>
                match fread (Z.to_nat dsml_len) fp with
                | None => Some (loaded, m)
                | Some (dsml, fp) =>
                    if wanted_id wanted (c_str id) then
                      m ← tool_memory_put_source replay m (Some (c_str id)) (Some (c_str dsml)) TOOL_MEMORY_DISK;
                      load_records n' replay m fp wanted (loaded + 1)
                    else load_records n' replay m fp wanted loaded
                end
            end
      end
  end.

Definition kv_tool_map_load_from_pos (replay : bool) m (fp : bytes) (wanted : option stop_list) : option (Z * tool_memory R) :=
  if negb replay then Some (0, m)
  else
    match fread 8 fp with
    | None => Some (0, m)
    | Some (h, fp) =>
        if negb (bytes_eqb (take 4 h) (KV_TOOL_MAP_MAGIC ++ [KV_TOOL_MAP_VERSION])) then Some (0, m)
        else
          let count := kv_store_le_get32 (drop 4 h) in
          if tool_memory_max_entries m * 4 <? count then Some (0, m)
          else load_records (Z.to_nat count) replay m fp wanted 0
    end.

(** One file of the directory: [fseeko] past the end of a file succeeds. *)
Definition restore_from_file (replay : bool) m (model_id : Z) (data : bytes) (wanted : stop_list) : option (tool_memory R) :=
  match kv_store_read_header data with
  | None => Some m
  | Some (hdr, text_bytes, fp) =>
      let skip := u64 (text_bytes + e_payload_bytes hdr) in
      if (e_model_id hdr =? model_id) && negb (Z.land (e_ext_flags hdr) EXT_TOOL_MAP =? 0) && (skip <=? INT64_MAX)
      then '(_, m) ← kv_tool_map_load_from_pos replay m (drop (Z.to_nat skip) fp) (Some wanted); Some m
      else Some m
  end.

Fixpoint restore_from_files (replay : bool) m (model_id : Z) (files : fs) (dir : bytes) (names : list bytes) (wanted : stop_list)
  : option (tool_memory R) :=
  match names with
  | [] => Some m
  | name :: names' =>
      m ← match kv_store_sha_hex_name name, files !! kv_store_path_join dir name with
          | Some _, Some data => restore_from_file replay m model_id data wanted
          | _, _ => Some m
          end;
      restore_from_files replay m model_id files dir names' wanted
  end.

Definition kv_cache_restore_tool_memory_for_messages `{ReadDir} (replay enabled : bool) m (model_id : Z) (files : fs) (dir : bytes)
    (msgs : list chat_msg) : option (tool_memory R) :=
  if negb replay || negb enabled then Some m
  else
    let wanted := collect_tool_call_ids msgs (StopList [] 0) in
    match stop_v wanted, readdir dir files with
    | _ :: _, Some names => restore_from_files replay m model_id files dir names wanted
    | _, _ => Some m
    end.

End tool_map.

(** The hooks the KV store gets: a call that is undefined for the memory writes
    nothing and fails. *)
Definition kv_cache_tool_map_hooks {R} `{!RaxOps R} (replay : bool) (room : nat) (m : tool_memory R) : kv_store_trailer_hooks := {|
  hk_ext_flag := EXT_TOOL_MAP;
  hk_serialized_size := Some (λ text, match kv_tool_map_serialized_size replay m text with
                                      | Some (ok, n, _) => (ok, n) | None => (false, 0) end);
  hk_write := Some (λ text, match kv_tool_map_write replay room m text with
                            | Some (out, ok, n, _) => (out, ok, n) | None => ([], false, 0) end);
  hk_load := true;
|}.
