(* ===== verification/ToolMapProps.v ===== *)
(** * The tool map brings the tool memory across a restart

    The size that is measured is the size that is written; the records are exactly
    the cached calls whose markup stands in the checkpoint text; and loading the map
    into another memory makes their markup known there. *)
From S2P Require Import Prelude CLib KvHeader KvCache Json Request Stream StreamProps ToolText ToolMemory ToolMemoryWf ToolMemoryProps ToolReplay ToolMap.

(** ** The blocks of a text *)

Lemma better_block_ok p best form : form.2 ≠ [] →
  (match best with Some (s, e) => (s < e <= length p)%nat | None => True end) →
  match better_block p best form with Some (s, e) => (s < e <= length p)%nat | None => True end.
Proof.
  intros Hf Hb. unfold better_block. destruct (strstr p form.1) as [s|] eqn:Es; [|done].
  destruct (match best with Some (b, _) => (b <=? s)%nat | None => false end); [done|].
  destruct (strstr (drop s p) form.2) as [e|] eqn:Ee; [|done]. apply strstr_occurs in Ee as [Ho%occurs_bound _].
  apply strstr_occurs in Es as [Hs%occurs_bound _]. rewrite length_drop in Ho. destruct form.2; [done|simpl in *; lia].
Qed.

Lemma next_block_ok p s e : find_next_dsml_tool_block p = Some (s, e) → (s < e <= length p)%nat.
Proof.
  assert (H : ∀ forms best, Forall (λ f : bytes * bytes, f.2 ≠ []) forms →
    (match best with Some (s, e) => (s < e <= length p)%nat | None => True end) →
    match foldl (better_block p) best forms with Some (s, e) => (s < e <= length p)%nat | None => True end).
  { induction forms as [|f forms IH]; intros best Hf Hb; [done|]. apply Forall_cons in Hf as [Hf Hfs]. by apply IH, better_block_ok. }
  intros E. specialize (H block_forms None). unfold find_next_dsml_tool_block in E. rewrite E in H. apply H; [|done]. by repeat constructor.
Qed.

(** The markup that stands in a text, in order. *)
Fixpoint text_blocks (fuel : nat) (p : bytes) : list bytes :=
  match fuel with
  | O => []
  | S fuel' =>
      match find_next_dsml_tool_block p with
      | None => []
      | Some (start, stop) => take (stop - start) (drop start p) :: text_blocks fuel' (drop stop p)
      end
  end.

Lemma text_blocks_nonempty fuel p t : t ∈ text_blocks fuel p → t ≠ [].
Proof.
  revert p. induction fuel as [|fuel IH]; intros p; cbn [text_blocks]; [by intros ?%elem_of_nil|].
  destruct (find_next_dsml_tool_block p) as [[s e]|] eqn:E; [|by intros ?%elem_of_nil]. apply next_block_ok in E.
  rewrite elem_of_cons. intros [->|H]; [|by eapply IH]. intros Hn. apply (f_equal length) in Hn.
  rewrite length_take, length_drop in Hn. simpl in Hn. lia.
Qed.

(** ** Walking the entries of a block *)

Definition ids_of (h : heap) (c : list loc) : list bytes := omap (λ p, te_id <$> h !! p) c.

Lemma ids_of_cons h p c e : h !! p = Some e → ids_of h (p :: c) = te_id e :: ids_of h c.
Proof. intros He. unfold ids_of. cbn. by rewrite He. Qed.

Definition skipped (id : bytes) (dsml_len : Z) : bool := (UINT32_MAX <? Z.of_nat (length id)) || (UINT32_MAX <? dsml_len).

Fixpoint measure_ids (ids : list bytes) (dsml_len count bytes : Z) : Z * Z * bool :=
  match ids with
  | [] => (count, bytes, true)
  | id :: ids' =>
      let id_len := Z.of_nat (length id) in
      if skipped id dsml_len then measure_ids ids' dsml_len count bytes
      else if count =? UINT32_MAX then (count, bytes, false)
      else if (UINT64_MAX - bytes <? 8) || (UINT64_MAX - bytes - 8 <? id_len) || (UINT64_MAX - bytes - 8 - id_len <? dsml_len)
      then (count, bytes, false)
      else measure_ids ids' dsml_len (count + 1) (bytes + 8 + id_len + dsml_len)
  end.

Fixpoint write_ids (room : nat) (ids : list bytes) (dsml out : bytes) : bytes * bool :=
  match ids with
  | [] => (out, true)
  | id :: ids' =>
      if skipped id (Z.of_nat (length dsml)) then write_ids room ids' dsml out
      else
        let '(out, ok) := write_record room out id dsml in
        if ok then write_ids room ids' dsml out else (out, false)
  end.

Section map.
Context {R : Type} `{!RaxOps R} `{!Rax R}.
Implicit Types m : tool_memory R.

Lemma measure_walk m c : ∀ fuel e dl n b, chain (tm_ents m) e c → (length c < fuel)%nat →
  measure_entries fuel m e dl n b = Some (measure_ids (ids_of (tm_ents m) c) dl n b).
Proof.
  induction c as [|p c IH]; intros fuel e dl n b Hc Hf; (destruct fuel as [|fuel]; [simpl in Hf; lia|]); cbn [measure_entries].
  - by rewrite Hc.
  - destruct Hc as [-> (x & Hx & Hc)]. rewrite Hx. cbn [mbind option_bind]. rewrite (ids_of_cons _ _ _ _ Hx). cbn [measure_ids].
    unfold skipped. simpl in Hf. repeat case_if; first [done|apply IH; [done|lia]].
Qed.

Lemma write_walk m c : ∀ fuel room e dsml out, chain (tm_ents m) e c → (length c < fuel)%nat →
  write_entries fuel room m e dsml out = Some (write_ids room (ids_of (tm_ents m) c) dsml out).
Proof.
  induction c as [|p c IH]; intros fuel room e dsml out Hc Hf; (destruct fuel as [|fuel]; [simpl in Hf; lia|]); cbn [write_entries].
  - by rewrite Hc.
  - destruct Hc as [-> (x & Hx & Hc)]. rewrite Hx. cbn [mbind option_bind]. rewrite (ids_of_cons _ _ _ _ Hx). cbn [write_ids].
    unfold skipped. simpl in Hf. case_if; [apply IH; [done|lia]|]. destruct (write_record room out (te_id x) dsml) as [o ok].
    destruct ok; [apply IH; [done|lia]|done].
Qed.

(** ** The scan *)

(** The same memory up to the marks of a scan. *)
Definition marked m m' : Prop :=
  m' = set_scan (tm_scan_clock m') (set_blocks (tm_blocks m') m)
  ∧ ∀ b, b_set_seen 0 <$> tm_blocks m' !! b = b_set_seen 0 <$> tm_blocks m !! b.

(** The texts among [ts] that the memory knows and that are not in [seen], once each. *)
Fixpoint visited m (seen ts : list bytes) : list bytes :=
  match ts with
  | [] => []
  | t :: ts' =>
      if bool_decide (tool_memory_find_block_locked m t = None ∨ t ∈ seen) then visited m seen ts'
      else t :: visited m (t :: seen) ts'
  end.

Fixpoint fold_stop {A} (g : bytes → A → A * bool) (ts : list bytes) (acc : A) : A * bool :=
  match ts with
  | [] => (acc, true)
  | t :: ts' => let '(acc, ok) := g t acc in if ok then fold_stop g ts' acc else (acc, false)
  end.

Lemma marked_find m m' t : marked m m' → tool_memory_find_block_locked m' t = tool_memory_find_block_locked m t.
Proof. intros [-> _]. done. Qed.

Lemma marked_lookup m m' b blk : marked m m' → tm_blocks m' !! b = Some blk →
  ∃ blk', tm_blocks m !! b = Some blk' ∧ b_set_seen 0 blk = b_set_seen 0 blk'.
Proof.
  intros [_ H] Hb. specialize (H b). rewrite Hb in H. destruct (tm_blocks m !! b) as [k|]; [|done]. exists k. split; [done|]. by apply (inj Some) in H.
Qed.

Lemma marked_set m m' b blk n : marked m m' → tm_blocks m' !! b = Some blk →
  marked m (set_blocks (<[b := b_set_seen n blk]> (tm_blocks m')) m').
Proof.
  intros [Em Mk] Hb. split.
  - destruct m, m'. cbn in *. injection Em. intros. by subst.
  - intros b'. cbn. destruct (decide (b = b')) as [<-|]; [|by rewrite lookup_insert_ne].
    by rewrite lookup_insert_eq, <- Mk, Hb.
Qed.

Lemma find_block_tree m t : t ≠ [] → tool_memory_find_block_locked m t = tree_find (tm_by_block m) t.
Proof. unfold tool_memory_find_block_locked. by destruct t, (tm_by_block m). Qed.

Lemma find_block_wf m ps t b : tm_wf m ps → t ≠ [] → tool_memory_find_block_locked m t = Some b ↔
  ∃ blk, tm_blocks m !! b = Some blk ∧ b_dsml blk = t.
Proof. intros W Ht. rewrite find_block_tree by done. apply (wf_tree_block _ _ W). Qed.

Lemma scan_text_visits {A} (f : tool_memory R → tool_memory_block → A → option (A * bool)) g m ps scan : tm_wf m ps →
  (∀ m' b blk acc, marked m m' → tm_blocks m' !! b = Some blk → f m' blk acc = Some (g (b_dsml blk) acc)) →
  (∀ m' blk acc, f m' (b_set_seen scan blk) acc = f m' blk acc) →
  ∀ fuel p m' acc seen, (length p < fuel)%nat → marked m m' →
  (∀ b blk, tm_blocks m' !! b = Some blk → b_seen blk = scan ↔ b_dsml blk ∈ seen) →
  ∃ m'' , scan_text f fuel m' scan p acc = Some (fold_stop g (visited m seen (text_blocks fuel p)) acc, m'') ∧ marked m m''
    ∧ tm_scan_clock m'' = tm_scan_clock m'
    ∧ ∀ b blk, tm_blocks m'' !! b = Some blk → b_seen blk = scan ∨ (tm_blocks m' !! b = Some blk ∧ b_seen blk ≠ scan).
Proof.
  intros W Hf Hseen. induction fuel as [|fuel IH]; intros p m' acc seen Hl Mk Hs; [lia|]. cbn [scan_text text_blocks].
  destruct (find_next_dsml_tool_block p) as [[s e]|] eqn:E; cycle 1.
  { exists m'. split; [done|]. split_and!; [done|done|]. intros b blk Hb. destruct (decide (b_seen blk = scan)); auto. }
  pose proof (next_block_ok p s e E) as Hse. set (t := take (e - s) (drop s p)).
  assert (Ht : t ≠ []) by (apply (text_blocks_nonempty (S fuel) p); cbn [text_blocks]; rewrite E; by left).
  assert (Hl' : (length (drop e p) < fuel)%nat) by (rewrite length_drop; lia).
  rewrite (marked_find _ _ _ Mk). cbn [visited]. destruct (tool_memory_find_block_locked m t) as [b|] eqn:Ef; cycle 1.
  { rewrite bool_decide_eq_true_2 by auto. by apply IH. }
  apply (find_block_wf m ps t b W Ht) in Ef as (blk0 & Hb0 & Hd0).
  destruct (tm_blocks m' !! b) as [blk|] eqn:Hb; cycle 1.
  { destruct Mk as [_ Mk]. specialize (Mk b). by rewrite Hb, Hb0 in Mk. }
  destruct (marked_lookup _ _ _ _ Mk Hb) as (blk' & Hb' & Es). rewrite Hb0 in Hb'. injection Hb' as <-.
  assert (Hd : b_dsml blk = t) by (apply (f_equal b_dsml) in Es; cbn in Es; congruence).
  cbn [mbind option_bind]. destruct (Z.eqb_spec (b_seen blk) scan) as [Hsc|Hsc].
  { assert (t ∈ seen) by (rewrite <- Hd; by apply (Hs b blk)). rewrite bool_decide_eq_true_2 by auto. by apply IH. }
  assert (Hns : t ∉ seen) by (rewrite <- Hd; by rewrite <- (Hs b blk Hb)).
  rewrite bool_decide_eq_false_2 by naive_solver. unfold upd_block. rewrite Hb. cbn [mbind option_bind].
  set (m1 := set_blocks (<[b := b_set_seen scan blk]> (tm_blocks m')) m').
  assert (Mk1 : marked m m1) by (by apply marked_set).
  rewrite <- Hseen, (Hf m1 b _ acc Mk1) by (unfold m1; cbn; by rewrite lookup_insert_eq). cbn [b_dsml b_set_seen]. rewrite Hd.
  cbn [mbind option_bind fold_stop].
  assert (Hkeep : ∀ b' k, tm_blocks m1 !! b' = Some k → b_seen k = scan ∨ (tm_blocks m' !! b' = Some k ∧ b_seen k ≠ scan)).
  { intros b' k Hk. unfold m1 in Hk. cbn in Hk. destruct (decide (b = b')) as [<-|].
    - rewrite lookup_insert_eq in Hk. injection Hk as <-. by left.
    - rewrite lookup_insert_ne in Hk by done. destruct (decide (b_seen k = scan)); auto. }
  destruct (g t acc) as [acc1 ok]. cbn [mbind option_bind]. destruct ok; cycle 1.
  { exists m1. split_and!; [done|done|done|exact Hkeep]. }
  destruct (IH (drop e p) m1 acc1 (t :: seen) Hl' Mk1) as (m2 & E2 & Mk2 & Sc2 & S2).
  { intros b' k Hk. unfold m1 in Hk. cbn in Hk. rewrite elem_of_cons. destruct (decide (b = b')) as [<-|Hne].
    - rewrite lookup_insert_eq in Hk. injection Hk as <-. cbn. split; [by left|done].
    - rewrite lookup_insert_ne in Hk by done. rewrite (Hs b' k Hk). split; [by right|]. intros [Hk'|]; [|done].
      exfalso. destruct (marked_lookup _ _ _ _ Mk Hk) as (k0 & Hk0 & Ek). apply (f_equal b_dsml) in Ek. cbn in Ek.
      apply Hne. eapply same_block_text; [exact W|exact Hb0|exact Hk0|congruence]. }
  exists m2. split_and!; [done|done|by rewrite Sc2|]. intros b' k Hk. destruct (S2 b' k Hk) as [|[Hk1 Hk2]]; [by left|].
  destruct (Hkeep b' k Hk1) as [|[]]; auto.
Qed.

(** ** The records *)

Fixpoint chain_list (fuel : nat) (h : heap) (e : option loc) : list loc :=
  match fuel, e with
  | S fuel', Some p => p :: chain_list fuel' h (e ← h !! p; te_block_next e)
  | _, _ => []
  end.

Lemma chain_list_eq h c : ∀ fuel e, chain h e c → (length c < fuel)%nat → chain_list fuel h e = c.
Proof.
  induction c as [|p c IH]; intros fuel e Hc Hf; (destruct fuel as [|fuel]; [simpl in Hf; lia|]); cbn [chain_list].
  - by rewrite Hc.
  - destruct Hc as [-> (x & Hx & Hc)]. rewrite Hx. cbn [mbind option_bind]. f_equal. apply IH; [done|simpl in Hf; lia].
Qed.

(** The ids of a text, in the order of its block. *)
Definition text_ids m (t : bytes) : list bytes :=
  match tool_memory_find_block_locked m t ≫= λ b, tm_blocks m !! b with
  | Some blk => ids_of (tm_ents m) (chain_list (S (size (tm_ents m))) (tm_ents m) (b_entries blk))
  | None => []
  end.

Lemma block_chain m ps b blk : tm_wf m ps → tm_blocks m !! b = Some blk →
  ∃ c, chain (tm_ents m) (b_entries blk) c ∧ (length c < S (size (tm_ents m)))%nat ∧ entries_of (tm_ents m) b c
    ∧ text_ids m (b_dsml blk) = ids_of (tm_ents m) c.
Proof.
  intros W Hb. destruct (wf_block _ _ W _ _ Hb) as [(Hne & _ & _) (c & Hc & Ho & _ & _)]. exists c.
  assert (Hl : (length c < S (size (tm_ents m)))%nat).
  { destruct Ho as [Hnd _]. pose proof (nodup_size (tm_ents m) c Hnd (λ q, chain_present _ _ _ q Hc)). lia. }
  split_and!; [done|done|done|]. unfold text_ids.
  assert (tool_memory_find_block_locked m (b_dsml blk) = Some b) as -> by (apply (find_block_wf m ps); eauto).
  cbn [mbind option_bind]. rewrite Hb. by rewrite (chain_list_eq _ c).
Qed.

Lemma marked_ents m m' : marked m m' → tm_ents m' = tm_ents m.
Proof. by intros [-> _]. Qed.

Lemma measure_block_ids m ps m' b blk acc : tm_wf m ps → marked m m' → tm_blocks m' !! b = Some blk →
  measure_block m' blk acc = Some (measure_ids (text_ids m (b_dsml blk)) (Z.of_nat (length (b_dsml blk))) acc.1 acc.2).
Proof.
  intros W Mk Hb. destruct (marked_lookup _ _ _ _ Mk Hb) as (k & Hk & E). destruct blk, k. cbn in E. injection E. intros. subst. cbn [b_dsml].
  destruct (block_chain m ps b _ W Hk) as (c & Hc & Hl & _ & Ei). cbn [b_dsml b_entries] in *. rewrite Ei.
  unfold measure_block. cbn [b_entries b_len]. rewrite <- (marked_ents _ _ Mk) in *.
  destruct (wf_block _ _ W _ _ Hk) as [(_ & Hlen & _) _]. cbn in Hlen. rewrite Hlen. by apply measure_walk.
Qed.

Lemma write_block_ids m ps m' room b blk out : tm_wf m ps → marked m m' → tm_blocks m' !! b = Some blk →
  write_block room m' blk out = Some (write_ids room (text_ids m (b_dsml blk)) (b_dsml blk) out).
Proof.
  intros W Mk Hb. destruct (marked_lookup _ _ _ _ Mk Hb) as (k & Hk & E). destruct blk, k. cbn in E. injection E. intros. subst. cbn [b_dsml].
  destruct (block_chain m ps b _ W Hk) as (c & Hc & Hl & _ & Ei). cbn [b_dsml b_entries] in *. rewrite Ei.
  unfold write_block. cbn [b_entries b_len b_dsml]. rewrite <- (marked_ents _ _ Mk) in *.
  destruct (wf_block _ _ W _ _ Hk) as [(_ & Hlen & _) _]. cbn in Hlen. rewrite Hlen, take_ge by lia. by apply write_walk.
Qed.

Definition text_records m (t : bytes) : list (bytes * bytes) :=
  (λ id, (id, t)) <$> filter (λ id, skipped id (Z.of_nat (length t)) = false) (text_ids m t).

(** What the map of a checkpoint holds: the id and the text of its records. *)
Definition map_records m (text : bytes) : list (bytes * bytes) :=
  concat (text_records m <$> visited m [] (text_blocks (S (length text)) text)).

Definition record_size (r : bytes * bytes) : Z := 8 + Z.of_nat (length r.1) + Z.of_nat (length r.2).
Definition records_size (l : list (bytes * bytes)) : Z := sumZ (record_size <$> l).
Definition records_text (l : list (bytes * bytes)) : bytes := concat ((λ r, map_record r.1 r.2) <$> l).

Lemma record_size_pos r : 8 <= record_size r.
Proof. unfold record_size. lia. Qed.

Lemma records_size_nonneg l : 0 <= records_size l.
Proof. apply sumZ_nonneg, Forall_fmap, Forall_forall. intros r _. pose proof (record_size_pos r). cbn. lia. Qed.

Lemma records_size_app l k : records_size (l ++ k) = records_size l + records_size k.
Proof. unfold records_size. by rewrite fmap_app, sumZ_app. Qed.

Lemma records_size_cons r l : records_size (r :: l) = record_size r + records_size l.
Proof. done. Qed.

Lemma map_record_length id dsml : Z.of_nat (length (map_record id dsml)) = record_size (id, dsml).
Proof. unfold map_record, record_size. rewrite !length_app, !le_put32_length. cbn. lia. Qed.

Lemma records_text_length l : Z.of_nat (length (records_text l)) = records_size l.
Proof.
  induction l as [|[id t] l IH]; [done|]. unfold records_text in *. rewrite fmap_cons. cbn [concat]. rewrite length_app, records_size_cons.
  pose proof (map_record_length id t). cbn [fst snd] in *. lia.
Qed.

Lemma measure_ids_sum ids t : ∀ n b, 
  let recs := (λ id, (id, t)) <$> filter (λ id, skipped id (Z.of_nat (length t)) = false) ids in
  n + Z.of_nat (length recs) <= UINT32_MAX → b + records_size recs <= UINT64_MAX →
  measure_ids ids (Z.of_nat (length t)) n b = (n + Z.of_nat (length recs), b + records_size recs, true).
Proof.
  induction ids as [|id ids IH]; intros n b recs Hn Hb.
  { unfold recs. cbn. unfold records_size. cbn. by rewrite !Z.add_0_r. }
  cbn [measure_ids]. unfold recs in *. clear recs. destruct (skipped id (Z.of_nat (length t))) eqn:E.
  - rewrite filter_cons_False in * by congruence. by apply IH.
  - rewrite filter_cons_True in * by done. rewrite fmap_cons in *. cbn [length] in *. rewrite records_size_cons in *. unfold record_size in *. cbn [fst snd] in *.
    set (recs := (λ id, (id, t)) <$> _) in *. pose proof (records_size_nonneg recs).
    destruct (Z.eqb_spec n UINT32_MAX); [lia|].
    destruct ((UINT64_MAX - b <? 8) || (UINT64_MAX - b - 8 <? Z.of_nat (length id)) || (UINT64_MAX - b - 8 - Z.of_nat (length id) <? Z.of_nat (length t))) eqn:E2.
    { exfalso. rewrite !orb_true_iff, !Z.ltb_lt in E2. lia. }
    rewrite IH by (fold recs; lia). fold recs. f_equal. f_equal; lia.
Qed.

Lemma fwrite_room room out data : (length out + length data <= room)%nat → fwrite room out data = (out ++ data, true).
Proof. intros H. unfold fwrite. rewrite take_ge by lia. f_equal. by apply Nat.leb_le. Qed.

Lemma write_record_room room out id dsml : Z.of_nat (length out) + record_size (id, dsml) <= Z.of_nat room →
  write_record room out id dsml = (out ++ map_record id dsml, true).
Proof.
  intros H. unfold record_size in H. cbn [fst snd] in H. unfold write_record, map_record.
  rewrite fwrite_room by (rewrite length_app, !le_put32_length; lia). cbn [negb].
  rewrite fwrite_room by (rewrite !length_app, !le_put32_length; lia). cbn [negb].
  rewrite fwrite_room by (rewrite !length_app, !le_put32_length; lia). by rewrite <- !app_assoc.
Qed.

Lemma write_ids_text room ids t : ∀ out,
  let recs := (λ id, (id, t)) <$> filter (λ id, skipped id (Z.of_nat (length t)) = false) ids in
  Z.of_nat (length out) + records_size recs <= Z.of_nat room →
  write_ids room ids t out = (out ++ records_text recs, true).
Proof.
  induction ids as [|id ids IH]; intros out recs Hr; [by rewrite app_nil_r|]. cbn [write_ids]. unfold recs in *. clear recs.
  destruct (skipped id (Z.of_nat (length t))) eqn:E; [rewrite filter_cons_False in * by congruence; by apply IH|].
  rewrite filter_cons_True in * by done. rewrite fmap_cons in *. rewrite records_size_cons in Hr.
  pose proof (records_size_nonneg ((λ id, (id, t)) <$> filter (λ id, skipped id (Z.of_nat (length t)) = false) ids)).
  rewrite write_record_room by lia. rewrite IH; [by rewrite <- app_assoc|]. rewrite length_app.
  pose proof (map_record_length id t). lia.
Qed.

Lemma measure_fold m ts : ∀ n b,
  let recs := concat (text_records m <$> ts) in
  n + Z.of_nat (length recs) <= UINT32_MAX → b + records_size recs <= UINT64_MAX →
  fold_stop (λ t acc, measure_ids (text_ids m t) (Z.of_nat (length t)) acc.1 acc.2) ts (n, b)
  = (n + Z.of_nat (length recs), b + records_size recs, true).
Proof.
  induction ts as [|t ts IH]; intros n b recs Hn Hb; unfold recs in *; clear recs.
  { cbn. unfold records_size. cbn. by rewrite !Z.add_0_r. }
  rewrite fmap_cons in *. cbn [concat fold_stop fst snd] in *. rewrite length_app in *. rewrite records_size_app in *.
  pose proof (records_size_nonneg (concat (text_records m <$> ts))). fold (text_records m t).
  pose proof (measure_ids_sum (text_ids m t) t n b) as Hm. cbn zeta in Hm. fold (text_records m t) in Hm.
  rewrite Hm by lia. rewrite IH by lia. f_equal. f_equal; lia.
Qed.

Lemma write_fold m room ts : ∀ out,
  let recs := concat (text_records m <$> ts) in
  Z.of_nat (length out) + records_size recs <= Z.of_nat room →
  fold_stop (λ t out, write_ids room (text_ids m t) t out) ts out = (out ++ records_text recs, true).
Proof.
  induction ts as [|t ts IH]; intros out recs Hr; unfold recs in *; clear recs.
  { cbn. by rewrite app_nil_r. }
  rewrite fmap_cons in *. cbn [concat fold_stop] in *. rewrite records_size_app in *.
  pose proof (records_size_nonneg (concat (text_records m <$> ts))).
  pose proof (write_ids_text room (text_ids m t) t out) as Hw. cbn zeta in Hw. fold (text_records m t) in Hw.
  rewrite Hw by lia. rewrite IH.
  - unfold records_text. by rewrite fmap_app, concat_app, <- app_assoc.
  - rewrite length_app. pose proof (records_text_length (text_records m t)). lia.
Qed.

(** A memory with the marks of a scan is as good as before. *)
Lemma marked_wf m m' ps : tm_wf m ps → marked m m' → 0 <= tm_scan_clock m' →
  (∀ b blk, tm_blocks m' !! b = Some blk → 0 <= b_seen blk <= tm_scan_clock m') → tm_wf m' ps.
Proof.
  intros W [Em Mk] H0 Hs.
  assert (Hf : ∀ b k, tm_blocks m !! b = Some k → ∃ k', tm_blocks m' !! b = Some k' ∧ b_set_seen 0 k' = b_set_seen 0 k).
  { intros b k Hk. specialize (Mk b). rewrite Hk in Mk. destruct (tm_blocks m' !! b) as [k'|]; [|done]. exists k'. split; [done|]. by apply (inj Some) in Mk. }
  assert (Hb : ∀ b k, tm_blocks m' !! b = Some k → ∃ k', tm_blocks m !! b = Some k' ∧ b_set_seen 0 k' = b_set_seen 0 k).
  { intros b k Hk. destruct (marked_lookup m m' b k) as (k' & ? & ?); [by split|done|]. by exists k'. }
  assert (E : tm_ents m' = tm_ents m ∧ tm_by_id m' = tm_by_id m ∧ tm_by_block m' = tm_by_block m ∧ tm_head m' = tm_head m
    ∧ tm_tail m' = tm_tail m ∧ tm_entries m' = tm_entries m ∧ tm_bytes m' = tm_bytes m) by (by rewrite Em).
  destruct E as (E1 & E2 & E3 & E4 & E5 & E6 & E7). destruct W. constructor; rewrite ?E1, ?E2, ?E3, ?E6, ?E7; try done.
  - unfold lru in *. by rewrite E1, E4, E5.
  - intros d b. rewrite wf_tree_block. split; intros (k & Hk & <-); [apply Hf in Hk as (k' & Hk' & E)|apply Hb in Hk as (k' & Hk' & E)];
      exists k'; (split; [done|]); by apply (f_equal b_dsml) in E.
  - intros p e He. destruct (wf_entry p e He) as [? [k Hk]]. split; [done|]. apply Hf in Hk as (k' & -> & _). by eexists.
  - intros b k Hk. apply Hb in Hk as (k' & Hk' & E). destruct (wf_block b k' Hk') as [D (c & Hc & Ho & Hne & Hr)].
    destruct k, k'. cbn in E. injection E. intros. subst. split; [done|]. by exists c.
  - rewrite wf_bytes. f_equal. apply msum_ext. intros b. specialize (Mk b). destruct (tm_blocks m !! b), (tm_blocks m' !! b); try done.
    apply (inj Some) in Mk. apply (f_equal b_bytes) in Mk. cbn in *. by rewrite Mk.
Qed.

Lemma marked_view m m' p : marked m m' → view m' p = view m p.
Proof.
  intros [Em Mk]. unfold view. assert (tm_ents m' = tm_ents m) as -> by (by rewrite Em). destruct (tm_ents m !! p) as [e|]; [|done].
  cbn [mbind option_bind]. specialize (Mk (te_block e)). destruct (tm_blocks m !! te_block e), (tm_blocks m' !! te_block e); try done.
  apply (inj Some) in Mk. apply (f_equal b_dsml) in Mk. cbn in *. by rewrite Mk.
Qed.

Lemma marked_trans m1 m2 m3 : marked m1 m2 → marked m2 m3 → marked m1 m3.
Proof. intros [E1 M1] [E2 M2]. split; [|intros b; by rewrite M2, M1]. rewrite E2. rewrite E1. by destruct m1. Qed.

Lemma marked_scan m n : marked m (set_scan n m).
Proof. split; [by destruct m|done]. Qed.

(** One scan of a text from a memory that holds [l]. *)
Lemma scan_holds {A} (f : tool_memory R → tool_memory_block → A → option (A * bool)) g m l text acc : holds m l →
  tm_scan_clock m < UINT64_MAX →
  (∀ ps m' b blk acc, tm_wf m ps → marked m m' → tm_blocks m' !! b = Some blk → f m' blk acc = Some (g (b_dsml blk) acc)) →
  (∀ m' blk n acc, f m' (b_set_seen n blk) acc = f m' blk acc) →
  let m1 := set_scan (u64 (tm_scan_clock m + 1)) m in
  ∃ m', scan_text f (S (length text)) m1 (tm_scan_clock m1) text acc
        = Some (fold_stop g (visited m [] (text_blocks (S (length text)) text)) acc, m')
    ∧ holds m' l ∧ marked m m' ∧ tm_scan_clock m' = tm_scan_clock m + 1.
Proof.
  intros [(ps & W & Hv) Hfit] Hclk Hf Hseen m1. pose proof (wf_scan _ _ W) as H0.
  assert (Hsc : tm_scan_clock m1 = tm_scan_clock m + 1) by (unfold m1; cbn; apply u64_small; unfold is_u64; lia).
  destruct (scan_text_visits f g m ps (tm_scan_clock m1) W) with (fuel := S (length text)) (p := text) (m' := m1) (acc := acc) (seen := @nil bytes)
    as (m' & E & Mk & Sc & Ss).
  - intros m' b blk a Mk Hb. by eapply Hf.
  - intros m' blk a. apply Hseen.
  - lia.
  - apply marked_scan.
  - intros b blk Hb. pose proof (wf_seen _ _ W b blk Hb). rewrite Hsc. split; [lia|by intros ?%elem_of_nil].
  - exists m'. split; [done|]. split_and!; [|done|by rewrite Sc]. split; [|destruct Mk as [-> _]; done].
    exists ps. split; [|eapply shows_mono; [|exact Hv]; intros q _; by apply marked_view]. apply (marked_wf m); [done|done|lia|].
    intros b blk Hb. destruct (Ss b blk Hb) as [->|[Hb' _]]; [lia|]. pose proof (wf_seen _ _ W b blk Hb'). lia.
Qed.

Lemma visited_marked m m' ts : ∀ seen, marked m m' → visited m' seen ts = visited m seen ts.
Proof. induction ts as [|t ts IH]; intros seen Mk; [done|]. cbn [visited]. rewrite (marked_find _ _ _ Mk), !IH by done. done. Qed.

Lemma text_ids_marked m m' t : marked m m' → text_ids m' t = text_ids m t.
Proof.
  intros Mk. unfold text_ids. rewrite (marked_find _ _ _ Mk). destruct (tool_memory_find_block_locked m t) as [b|]; [|done]. cbn [mbind option_bind].
  rewrite (marked_ents _ _ Mk). destruct Mk as [_ Mk]. specialize (Mk b). destruct (tm_blocks m !! b), (tm_blocks m' !! b); try done.
  apply (inj Some) in Mk. apply (f_equal b_entries) in Mk. cbn in *. by rewrite Mk.
Qed.

Lemma records_marked m m' text : marked m m' → map_records m' text = map_records m text.
Proof.
  intros Mk. unfold map_records. rewrite (visited_marked m m') by done. f_equal. apply list_fmap_ext. intros i t _.
  unfold text_records. by rewrite (text_ids_marked m m').
Qed.

(** ** The file *)

Definition map_trailer (recs : list (bytes * bytes)) : bytes :=
  KV_TOOL_MAP_MAGIC ++ [KV_TOOL_MAP_VERSION] ++ kv_store_le_put32 (Z.of_nat (length recs)) ++ records_text recs.

Lemma trailer_length recs : Z.of_nat (length (map_trailer recs)) = 8 + records_size recs.
Proof.
  unfold map_trailer. rewrite !length_app, le_put32_length. pose proof (records_text_length recs).
  change (length KV_TOOL_MAP_MAGIC) with 3%nat. change (length [KV_TOOL_MAP_VERSION]) with 1%nat. lia.
Qed.

(** The numbers the format can hold. *)
Definition records_fit (recs : list (bytes * bytes)) : Prop :=
  Z.of_nat (length recs) <= UINT32_MAX ∧ 8 + records_size recs <= UINT64_MAX.

Lemma measure_seen m' blk n acc : measure_block m' (b_set_seen n blk) acc = measure_block (R := R) m' blk acc.
Proof. done. Qed.

Lemma measure_map m l text : holds m l → tm_scan_clock m < UINT64_MAX → records_fit (map_records m text) →
  ∃ m', kv_tool_map_measure_locked m text
    = Some (Some (Z.of_nat (length (map_records m text)),
              if Z.of_nat (length (map_records m text)) =? 0 then 0 else Z.of_nat (length (map_trailer (map_records m text)))), m')
    ∧ holds m' l ∧ marked m m' ∧ tm_scan_clock m' = tm_scan_clock m + 1.
Proof.
  intros H Hc [F1 F2]. unfold kv_tool_map_measure_locked.
  destruct (scan_holds measure_block (λ t acc, measure_ids (text_ids m t) (Z.of_nat (length t)) acc.1 acc.2) m l text (0, KV_TOOL_MAP_HEADER) H Hc)
    as (m' & -> & H' & Mk & Sc).
  - intros ps m' b blk acc W Mk Hb. by eapply measure_block_ids.
  - intros. apply measure_seen.
  - pose proof (measure_fold m (visited m [] (text_blocks (S (length text)) text)) 0 KV_TOOL_MAP_HEADER) as Hm. cbn zeta in Hm.
    fold (map_records m text) in Hm. rewrite Hm by (unfold KV_TOOL_MAP_HEADER; lia). cbn [mbind option_bind]. exists m'. split; [|done].
    rewrite Z.add_0_l, trailer_length. done.
Qed.

Lemma write_map m l text room : holds m l → tm_scan_clock m + 1 < UINT64_MAX → text ≠ [] → records_fit (map_records m text) →
  (length (map_trailer (map_records m text)) <= room)%nat →
  let out := if bool_decide (map_records m text = []) then [] else map_trailer (map_records m text) in
  ∃ m', kv_tool_map_write true room m text = Some (out, true, Z.of_nat (length out), m') ∧ holds m' l ∧ marked m m'.
Proof.
  intros H Hc Ht Hfit Hroom. unfold kv_tool_map_write. rewrite (proj2 (bytes_eqb_neq text []) Ht). cbn [negb orb].
  destruct (measure_map m l text H ltac:(lia) Hfit) as (m1 & -> & H1 & Mk1 & Sc1). cbn [mbind option_bind].
  destruct (map_records m text) as [|r recs] eqn:Er.
  { rewrite bool_decide_eq_true_2 by done. exists m1. done. }
  rewrite bool_decide_eq_false_2 by done. change (Z.of_nat (length (r :: recs)) =? 0) with false. cbv iota.
  rewrite <- Er in *. set (rs := map_records m text) in *.
  rewrite fwrite_room by (cbn [length]; rewrite !length_app, le_put32_length; unfold map_trailer in Hroom; rewrite !length_app, le_put32_length in Hroom; cbn [length] in *; lia).
  cbn [negb]. rewrite app_nil_l.
  pose proof (scan_holds (write_block room) (λ t out, write_ids room (text_ids m1 t) t out) m1 l text
    (KV_TOOL_MAP_MAGIC ++ [KV_TOOL_MAP_VERSION] ++ kv_store_le_put32 (Z.of_nat (length rs))) H1 ltac:(lia)) as Hsc.
  destruct Hsc as (m2 & -> & H2 & Mk2 & _).
  { intros ps m' b blk out W Mk Hb. by eapply write_block_ids. }
  { done. }
  pose proof (write_fold m1 room (visited m1 [] (text_blocks (S (length text)) text))
    (KV_TOOL_MAP_MAGIC ++ [KV_TOOL_MAP_VERSION] ++ kv_store_le_put32 (Z.of_nat (length rs)))) as Hw. cbn zeta in Hw.
  fold (map_records m1 text) in Hw. rewrite (records_marked m m1) in Hw by done. fold rs in Hw. rewrite Hw.
  - cbn [mbind option_bind]. exists m2. split_and!; [|done|by eapply marked_trans]. unfold map_trailer. rewrite <- !app_assoc. done.
  - pose proof (trailer_length rs). rewrite !length_app, le_put32_length.
    change (length KV_TOOL_MAP_MAGIC) with 3%nat. change (length [KV_TOOL_MAP_VERSION]) with 1%nat. lia.
Qed.

(** ** Loading *)

Definition record_ok (r : bytes * bytes) : Prop :=
  r.1 ≠ [] ∧ (length r.1 <= 256)%nat ∧ r.2 ≠ [] ∧ Z.of_nat (length r.2) <= DS4_TOOL_MEMORY_MAX_BYTES
  ∧ Forall (λ c, c ≠ 0) r.1 ∧ Forall (λ c, c ≠ 0) r.2.

Definition put_record (me mb : Z) (l : list cached) (r : bytes * bytes) : list cached := spec_put me mb r.1 r.2 TOOL_MEMORY_DISK l.

Lemma fread_app data rest : fread (length data) (data ++ rest) = Some (data, rest).
Proof.
  unfold fread. assert ((length data <=? length (data ++ rest))%nat = true) as -> by (apply Nat.leb_le; rewrite length_app; lia).
  by rewrite take_app_length, drop_app_length.
Qed.

Lemma load_records_holds recs : ∀ m l rest wanted n, holds m l → Forall record_ok recs →
  Forall (λ r, small_put m r.1 r.2) recs →
  let sel := filter (λ r, wanted_id wanted r.1 = true) recs in
  ∃ m', load_records (length recs) true m (records_text recs ++ rest) wanted n = Some (n + Z.of_nat (length sel), m')
    ∧ holds m' (foldl (put_record (tool_memory_max_entries m) (tool_memory_max_bytes m)) l sel).
Proof.
  induction recs as [|[id t] recs IH]; intros m l rest wanted n H Hok Hs sel; unfold sel in *; clear sel.
  { exists m. cbn. by rewrite Z.add_0_r. }
  apply Forall_cons in Hok as [(O1 & O2 & O3 & O4 & O5 & O6) Hok]. apply Forall_cons in Hs as [Hs1 Hs]. cbn [fst snd] in *.
  cbn [length load_records]. unfold records_text. rewrite fmap_cons. cbn [concat fst snd]. fold (records_text recs). unfold map_record.
  repeat rewrite <- app_assoc.
  set (tail := records_text recs ++ rest). set (a := kv_store_le_put32 (Z.of_nat (length id))). set (b := kv_store_le_put32 (Z.of_nat (length t))).
  assert (fread 8 (a ++ b ++ id ++ t ++ tail) = Some (a ++ b, id ++ t ++ tail)) as ->.
  { rewrite app_assoc. change 8%nat with (length (a ++ b)). apply fread_app. }
  assert (Hu1 : is_u32 (Z.of_nat (length id))) by (unfold is_u32; lia).
  assert (Hu2 : is_u32 (Z.of_nat (length t))) by (unfold is_u32, DS4_TOOL_MEMORY_MAX_BYTES in *; lia).
  assert (kv_store_le_get32 (a ++ b) = Z.of_nat (length id)) as -> by exact (le_get32_put32 _ b Hu1).
  assert (kv_store_le_get32 (drop 4 (a ++ b)) = Z.of_nat (length t)) as -> by exact (le_get32_put32 _ [] Hu2).
  assert ((Z.of_nat (length id) =? 0) || (256 <? Z.of_nat (length id)) || (Z.of_nat (length t) =? 0) || (DS4_TOOL_MEMORY_MAX_BYTES <? Z.of_nat (length t)) = false) as ->.
  { rewrite !orb_false_iff, !Z.eqb_neq, !Z.ltb_ge. destruct id, t; try done. cbn [length] in *. split_and!; lia. }
  rewrite !Nat2Z.id, fread_app, fread_app, (c_str_id id O5), (c_str_id t O6). destruct (wanted_id wanted id) eqn:Ew.
  - rewrite filter_cons_True by done. destruct id as [|i id]; [done|]. destruct t as [|d t]; [done|]. cbn [tool_memory_put_source].
    destruct (put_holds m l (i :: id) (d :: t) TOOL_MEMORY_DISK H) as (m1 & -> & H1 & M1 & M2); [done..|]. cbn [mbind option_bind].
    destruct (limits_eq m m1 M1 M2) as [L1 L2].
    destruct (IH m1 _ rest wanted (n + 1) H1 Hok) as (m2 & E2 & H2).
    { eapply Forall_impl; [exact Hs|]. intros r. unfold small_put. by rewrite L1, L2. }
    exists m2. fold tail in E2. rewrite E2, L1, L2 in *. split; [|done]. do 2 f_equal. cbn [length]. lia.
  - rewrite filter_cons_False by (cbn [fst]; congruence). by apply IH.
Qed.

(** ** Which calls the map holds *)

Lemma elem_of_visited m ts : ∀ seen t, t ∈ visited m seen ts ↔ t ∈ ts ∧ is_Some (tool_memory_find_block_locked m t) ∧ t ∉ seen.
Proof.
  induction ts as [|x ts IH]; intros seen t; cbn [visited]; [split; [by intros ?%elem_of_nil|by intros [?%elem_of_nil _]]|].
  rewrite elem_of_cons. case_bool_decide as Hd.
  - rewrite IH. split; [naive_solver|]. intros ([->|Ht] & Hs & Hn); [|done]. destruct Hd as [Hd|Hd]; [|done]. rewrite Hd in Hs. by destruct Hs.
  - rewrite elem_of_cons, IH, elem_of_cons. assert (Hx : is_Some (tool_memory_find_block_locked m x)) by (destruct (tool_memory_find_block_locked m x); [by eexists|naive_solver]).
    split; [naive_solver|]. intros ([->|Ht] & Hs & Hn); [by left|]. destruct (decide (t = x)) as [->|]; [by left|]. right. naive_solver.
Qed.

Lemma NoDup_visited m ts : ∀ seen, NoDup (visited m seen ts).
Proof.
  induction ts as [|x ts IH]; intros seen; cbn [visited]; [constructor|]. case_bool_decide; [done|]. constructor; [|done].
  rewrite elem_of_visited. intros (_ & _ & Hn). apply Hn. by left.
Qed.

Lemma elem_of_ids_of h c id : id ∈ ids_of h c ↔ ∃ p e, p ∈ c ∧ h !! p = Some e ∧ te_id e = id.
Proof.
  unfold ids_of. rewrite list_elem_of_omap. split.
  - intros (p & Hp & He). destruct (h !! p) as [e|] eqn:E; [|done]. cbn in He. injection He as <-. by exists p, e.
  - intros (p & e & Hp & He & <-). exists p. by rewrite He.
Qed.

Lemma NoDup_ids_of m ps c : tm_wf m ps → NoDup c → (∀ p, p ∈ c → is_Some (tm_ents m !! p)) → NoDup (ids_of (tm_ents m) c).
Proof.
  intros W. induction 1 as [|p c Hp Hnd IH]; intros Hin; [constructor|]. destruct (Hin p ltac:(by left)) as [e He].
  rewrite (ids_of_cons _ _ _ _ He). constructor; [|apply IH; intros q Hq; apply Hin; by right].
  intros (q & e' & Hq & He' & E)%elem_of_ids_of. assert (p = q) as -> by (eapply same_entry_id; eauto). done.
Qed.

Lemma text_ids_spec m ps l t : tm_wf m ps → shows m ps l → t ≠ [] →
  NoDup (text_ids m t) ∧ ∀ id, id ∈ text_ids m t ↔ ∃ c, c ∈ l ∧ ca_id c = id ∧ ca_text c = t.
Proof.
  intros W Hv Ht.
  assert (Hl : ∀ c, c ∈ l ↔ ∃ p, p ∈ ps ∧ view m p = Some c).
  { intros c. split.
    - intros [i Hi]%list_elem_of_lookup_1. destruct (Forall2_lookup_r _ _ _ _ _ Hv Hi) as (p & Hp & Hc). exists p. split; [by eapply list_elem_of_lookup_2|done].
    - intros (p & [i Hi]%list_elem_of_lookup_1 & Hc). destruct (Forall2_lookup_l _ _ _ _ _ Hv Hi) as (c' & Hc' & E). assert (c' = c) as -> by congruence. by eapply list_elem_of_lookup_2. }
  destruct (tool_memory_find_block_locked m t) as [b|] eqn:E.
  - apply (find_block_wf m ps t b W Ht) in E as (blk & Hb & <-). destruct (block_chain m ps b blk W Hb) as (c & Hc & _ & [Hnd Ho] & ->). split.
    + apply (NoDup_ids_of m ps); [done|done|]. intros p Hp. by eapply chain_present.
    + intros id. rewrite elem_of_ids_of. split.
      * intros (p & e & Hp & He & <-). apply Ho in Hp as (e' & He' & Hbe). rewrite He in He'. injection He' as <-.
        exists (Cached (te_id e) (b_dsml blk) (te_source e)). split; [|done]. apply Hl. exists p. split; [apply (wf_dom _ _ W); by eexists|].
        unfold view. rewrite He. cbn [mbind option_bind]. by rewrite Hbe, Hb.
      * intros (x & (p & Hp & Hx)%Hl & <- & Et). unfold view in Hx. destruct (tm_ents m !! p) as [e|] eqn:He; [|done]. cbn [mbind option_bind] in Hx.
        destruct (tm_blocks m !! te_block e) as [k|] eqn:Hk; [|done]. injection Hx as <-. cbn in *. exists p, e. split_and!; [|done|done].
        apply Ho. exists e. split; [done|]. by eapply same_block_text.
  - unfold text_ids. rewrite E. cbn. split; [constructor|]. intros id. split; [by intros ?%elem_of_nil|].
    intros (x & (p & Hp & Hx)%Hl & _ & Et). exfalso. unfold view in Hx. destruct (tm_ents m !! p) as [e|] eqn:He; [|done]. cbn [mbind option_bind] in Hx.
    destruct (tm_blocks m !! te_block e) as [k|] eqn:Hk; [|done]. injection Hx as <-. cbn in Et.
    assert (tool_memory_find_block_locked m t = Some (te_block e)) by (apply (find_block_wf m ps); eauto). congruence.
Qed.

Lemma records_spec m ps l text id t : tm_wf m ps → shows m ps l →
  (id, t) ∈ map_records m text ↔
  t ∈ text_blocks (S (length text)) text ∧ skipped id (Z.of_nat (length t)) = false ∧ ∃ c, c ∈ l ∧ ca_id c = id ∧ ca_text c = t.
Proof.
  intros W Hv. unfold map_records, text_records. rewrite list_elem_of_In, in_concat. setoid_rewrite <- list_elem_of_In. split.
  - intros (rs & (t' & -> & (Ht & Hs & _)%elem_of_visited)%list_elem_of_fmap & Hin).
    apply list_elem_of_fmap in Hin as (id' & [= <- <-] & [Hsk Hid]%list_elem_of_filter). pose proof (text_blocks_nonempty _ _ _ Ht).
    split_and!; [done|done|]. by apply (text_ids_spec m ps l t W Hv).
  - intros (Ht & Hsk & Hc). pose proof (text_blocks_nonempty _ _ _ Ht) as Hne.
    assert (Hid : id ∈ text_ids m t) by (by apply (text_ids_spec m ps l t W Hv)).
    exists ((λ id, (id, t)) <$> filter (λ id, skipped id (Z.of_nat (length t)) = false) (text_ids m t)). split.
    + apply list_elem_of_fmap. exists t. split; [done|]. apply elem_of_visited. split_and!; [done| |apply not_elem_of_nil].
      unfold text_ids in Hid. destruct (tool_memory_find_block_locked m t); [by eexists|by apply elem_of_nil in Hid].
    + apply list_elem_of_fmap. exists id. split; [done|]. by apply list_elem_of_filter.
Qed.

Lemma shown_unique m ps l c c' : tm_wf m ps → shows m ps l → c ∈ l → c' ∈ l → ca_id c = ca_id c' → c = c'.
Proof.
  intros W Hv [i Hi]%list_elem_of_lookup_1 [j Hj]%list_elem_of_lookup_1 E.
  destruct (Forall2_lookup_r _ _ _ _ _ Hv Hi) as (p & _ & Hp), (Forall2_lookup_r _ _ _ _ _ Hv Hj) as (q & _ & Hq).
  destruct (view_id _ _ _ Hp) as (e & He & Ee), (view_id _ _ _ Hq) as (e' & He' & Ee').
  assert (p = q) as -> by (eapply same_entry_id; [exact W|exact He|exact He'|congruence]). congruence.
Qed.

Lemma NoDup_concat_tagged (f : bytes → list (bytes * bytes)) ts : NoDup ts → (∀ t, t ∈ ts → NoDup (f t)) →
  (∀ t x, x ∈ f t → x.2 = t) → NoDup (concat (f <$> ts)).
Proof.
  intros Hnd Hf Ht. induction Hnd as [|t ts Hnt Hnd IH]; [constructor|]. rewrite fmap_cons. cbn [concat]. apply NoDup_app.
  split_and!; [apply Hf; by left| |apply IH; intros x Hx; apply Hf; by right]. intros x Hx Hin.
  apply list_elem_of_In, in_concat in Hin as (r & Hr & Hxr). apply list_elem_of_In in Hr, Hxr.
  apply list_elem_of_fmap in Hr as (t' & -> & Ht'). apply Ht in Hx, Hxr. congruence.
Qed.

Lemma records_nodup m ps l text : tm_wf m ps → shows m ps l → NoDup (fst <$> map_records m text).
Proof.
  intros W Hv. apply NoDup_fmap_2_strong.
  - intros [id t] [id' t'] H1 H2 E. cbn in E. subst id'.
    apply (records_spec m ps l) in H1 as (_ & _ & c & Hc & E1 & <-); [|done..]. apply (records_spec m ps l) in H2 as (_ & _ & c' & Hc' & E2 & <-); [|done..].
    assert (c = c') as -> by (eapply shown_unique; [exact W|exact Hv|done|done|congruence]). done.
  - unfold map_records. apply NoDup_concat_tagged; [apply NoDup_visited| |].
    + intros t (Ht & _ & _)%elem_of_visited. pose proof (text_blocks_nonempty _ _ _ Ht) as Hne. unfold text_records.
      apply NoDup_fmap; [by intros ? ? [= ->]|]. apply NoDup_filter. by apply (text_ids_spec m ps l t W Hv).
    + intros t x (id & -> & _)%list_elem_of_fmap. done.
Qed.

Lemma load_trailer_holds m l recs wanted : holds m l → Forall record_ok recs → Forall (λ r, small_put m r.1 r.2) recs →
  Z.of_nat (length recs) <= UINT32_MAX → Z.of_nat (length recs) <= tool_memory_max_entries m * 4 →
  let sel := filter (λ r, wanted_id wanted r.1 = true) recs in
  ∃ m', kv_tool_map_load_from_pos true m (if bool_decide (recs = []) then [] else map_trailer recs) wanted = Some (Z.of_nat (length sel), m')
    ∧ holds m' (foldl (put_record (tool_memory_max_entries m) (tool_memory_max_bytes m)) l sel).
Proof.
  intros H Hok Hs Hlen Hcount sel. case_bool_decide as Hr; [exists m; unfold sel; by rewrite Hr|].
  unfold kv_tool_map_load_from_pos. cbn [negb].
  set (h := KV_TOOL_MAP_MAGIC ++ [KV_TOOL_MAP_VERSION] ++ kv_store_le_put32 (Z.of_nat (length recs))).
  assert (fread 8 (map_trailer recs) = Some (h, records_text recs)) as ->.
  { assert (map_trailer recs = h ++ records_text recs) as -> by (unfold map_trailer, h; by rewrite <- !app_assoc).
    change 8%nat with (length h). apply fread_app. }
  assert (Hu : is_u32 (Z.of_nat (length recs))) by (unfold is_u32; lia).
  assert (kv_store_le_get32 (drop 4 h) = Z.of_nat (length recs)) as -> by exact (le_get32_put32 _ [] Hu).
  change (negb (bytes_eqb (take 4 h) (KV_TOOL_MAP_MAGIC ++ [KV_TOOL_MAP_VERSION]))) with false. cbv iota.
  destruct (Z.ltb_spec (tool_memory_max_entries m * 4) (Z.of_nat (length recs))); [lia|]. rewrite Nat2Z.id.
  destruct (load_records_holds recs m l [] wanted 0 H Hok Hs) as (m' & El & Hl). rewrite app_nil_r in El. exists m'. by rewrite El.
Qed.

(** ** After the load *)

Definition pair_of (c : cached) : bytes * bytes := (ca_id c, ca_text c).

Lemma fits_pairs me mb l k : pair_of <$> l = pair_of <$> k → fits me mb l = fits me mb k.
Proof.
  intros H. unfold fits, cost. assert (Hl : length l = length k) by (apply (f_equal length) in H; by rewrite !length_fmap in H).
  assert (Ht : ca_text <$> l = ca_text <$> k).
  { apply (f_equal (fmap snd)) in H. by rewrite <- !list_fmap_compose in H. }
  assert (Hi : (entry_cost ∘ ca_id) <$> l = (entry_cost ∘ ca_id) <$> k).
  { apply (f_equal (fmap (entry_cost ∘ fst))) in H. by rewrite <- !list_fmap_compose in H. }
  by rewrite Hl, Ht, Hi.
Qed.

(** Records as fresh entries, the last first. *)
Definition as_cached (recs : list (bytes * bytes)) : list cached := reverse ((λ r, Cached r.1 r.2 TOOL_MEMORY_DISK) <$> recs).

Lemma put_records_front me mb r2 : 0 <= me → 0 <= mb → ∀ r1 front rest, NoDup (fst <$> r1 ++ r2) → pair_of <$> front = reverse r1 →
  fits me mb (as_cached (r1 ++ r2)) = true →
  ∃ front' rest', foldl (put_record me mb) (front ++ rest) r2 = front' ++ rest' ∧ pair_of <$> front' = reverse (r1 ++ r2).
Proof.
  intros H1 H2. induction r2 as [|[id t] r2 IH]; intros r1 front rest Hnd Hp Hfit.
  { exists front, rest. by rewrite app_nil_r. }
  assert (Hsplit : r1 ++ (id, t) :: r2 = (r1 ++ [(id, t)]) ++ r2) by (by rewrite <- app_assoc). rewrite Hsplit in *. cbn [foldl].
  unfold put_record at 2. cbn [fst snd]. destruct (put_front me mb id t TOOL_MEMORY_DISK front rest) as (rest1 & Er); [done|done| | |].
  - intros x Hx Hid. rewrite !fmap_app in Hnd. apply NoDup_app in Hnd as [(_ & Hd & _)%NoDup_app _]. apply (Hd id); [|by left].
    assert (Hin : pair_of x ∈ reverse r1) by (rewrite <- Hp; by apply list_elem_of_fmap_2). rewrite elem_of_reverse in Hin.
    apply (list_elem_of_fmap_2 fst) in Hin. cbn in Hin. by rewrite Hid in Hin.
  - rewrite (fits_pairs me mb _ (as_cached (r1 ++ [(id, t)]))).
    + unfold as_cached in Hfit |- *. rewrite fmap_app, reverse_app in Hfit. eapply fits_prefix.
      rewrite (fits_perm _ _ _ _ (Permutation_app_comm _ _)). exact Hfit.
    + unfold as_cached. rewrite fmap_app, reverse_app, fmap_cons, Hp. cbn. f_equal. rewrite fmap_reverse, <- list_fmap_compose. clear.
      f_equal. induction r1 as [|[a b] r1 IHr]; [done|]. rewrite fmap_cons. by rewrite <- IHr.
  - rewrite Er. apply (IH (r1 ++ [(id, t)])); [done| |done]. rewrite fmap_cons, Hp, reverse_app. done.
Qed.

End map.

Lemma find_front_of c front rest : NoDup (fst <$> (pair_of <$> front)) → pair_of c ∈ pair_of <$> front →
  ca_text <$> spec_find (ca_id c) (front ++ rest) = Some (ca_text c).
Proof.
  intros Hnd (x & Ex & Hx)%list_elem_of_fmap. injection Ex as E1 E2. unfold spec_find. rewrite filter_app.
  destruct (filter (λ y, ca_id y = ca_id c) front) as [|y s] eqn:E.
  - exfalso. assert (Hin : x ∈ filter (λ y, ca_id y = ca_id c) front) by (by apply list_elem_of_filter). rewrite E in Hin. by apply elem_of_nil in Hin.
  - cbn. f_equal. assert (Hin : y ∈ filter (λ y, ca_id y = ca_id c) front) by (rewrite E; by left). apply list_elem_of_filter in Hin as [Hy1 Hy2].
    rewrite <- list_fmap_compose in Hnd. rewrite E2. clear -Hnd Hy1 Hy2 Hx E1. rewrite E1 in Hy1. clear E1.
    induction front as [|z front IH]; [by apply elem_of_nil in Hx|]. rewrite fmap_cons in Hnd. apply NoDup_cons in Hnd as [Hz Hnd].
    apply elem_of_cons in Hx as [->|Hx], Hy2 as [->|Hy2]; [done| | |by apply IH].
    + destruct Hz. cbn. rewrite <- Hy1. by apply (list_elem_of_fmap_2 (fst ∘ pair_of)).
    + destruct Hz. cbn. rewrite Hy1. by apply (list_elem_of_fmap_2 (fst ∘ pair_of)).
Qed.

(** ** The claims *)

Section claims.
Context {R : Type} `{!RaxOps R} `{!Rax R}.
Implicit Types m : tool_memory R.

(** The trailer of a checkpoint is as long as it was measured: the size hook and
    the write hook of the KV store agree, and the records written are exactly the
    cached calls whose text stands in the checkpoint text, each once. *)
Theorem tool_map_size_exact m l text room (H : holds m l) (Hclk : tm_scan_clock m + 1 < UINT64_MAX) (Ht : text ≠ [])
  (Hfit : records_fit (map_records m text)) (Hroom : (length (map_trailer (map_records m text)) <= room)%nat) :
  let hooks := Some (kv_cache_tool_map_hooks true room m) in
  let '(out, ok, n) := kv_trailer_write hooks text in
  ok = true ∧ n = Z.of_nat (length out) ∧ kv_trailer_serialized_size hooks text = (true, n)
  ∧ out = (if bool_decide (map_records m text = []) then [] else map_trailer (map_records m text))
  ∧ NoDup (fst <$> map_records m text)
  ∧ ∀ id t, (id, t) ∈ map_records m text ↔ t ∈ text_blocks (S (length text)) text ∧ skipped id (Z.of_nat (length t)) = false
      ∧ ∃ c, c ∈ l ∧ ca_id c = id ∧ ca_text c = t.
Proof.
  cbn [kv_trailer_write kv_trailer_serialized_size mbind option_bind kv_cache_tool_map_hooks hk_write hk_serialized_size].
  destruct (write_map m l text room H Hclk Ht Hfit Hroom) as (m' & -> & _). cbn zeta. unfold kv_tool_map_serialized_size.
  rewrite (proj2 (bytes_eqb_neq text []) Ht). cbn [negb orb].
  destruct (measure_map m l text H ltac:(lia) Hfit) as (m1 & -> & _). cbn [mbind option_bind]. destruct H as [(ps & W & Hv) _].
  split_and!; [done|done| |done|by eapply records_nodup|intros id t; by apply (records_spec m ps)].
  case_bool_decide as Hr; [by rewrite Hr|]. destruct (map_records m text); [done|]. done.
Qed.

(** C24. Tool calls survive a restart: the map written with a checkpoint, loaded
    into the memory of another server, makes the text of every wanted cached call
    that stands in the checkpoint known there, byte for byte. *)
Theorem tool_map_survives_restart m l m2 l2 text room wanted (H : holds m l) (H2 : holds m2 l2) (Hclk : tm_scan_clock m + 1 < UINT64_MAX)
  (Ht : text ≠ []) (Hok : Forall (record_ok ∘ pair_of) l) (Hfit : records_fit (map_records m text))
  (Hroom : (length (map_trailer (map_records m text)) <= room)%nat)
  (Hcount : Z.of_nat (length (map_records m text)) <= tool_memory_max_entries m2 * 4)
  (Hsmall : Forall (λ c, small_put m2 (ca_id c) (ca_text c)) l)
  (Hkeep : fits (tool_memory_max_entries m2) (tool_memory_max_bytes m2)
     (as_cached (filter (λ r, wanted_id wanted r.1 = true) (map_records m text))) = true) :
  ∃ out n m' loaded m2', kv_tool_map_write true room m text = Some (out, true, n, m')
    ∧ kv_tool_map_load_from_pos true m2 out wanted = Some (loaded, m2')
    ∧ ∀ c, c ∈ l → ca_text c ∈ text_blocks (S (length text)) text → wanted_id wanted (ca_id c) = true →
      ∃ src b m3, tool_memory_lookup_locked m2' (Some (ca_id c)) = Some (Some (ca_text c, src, b), m3).
Proof.
  destruct (write_map m l text room H Hclk Ht Hfit Hroom) as (m' & Hw & _). cbn zeta in Hw.
  destruct H as [(ps & W & Hv) _]. set (recs := map_records m text) in *. rewrite !Forall_forall in *.
  assert (Hrec : ∀ r, r ∈ recs → ∃ c, c ∈ l ∧ pair_of c = r).
  { intros [id t] Hr. apply (records_spec m ps l) in Hr as (_ & _ & c & Hc & <- & <-); [|done..]. by exists c. }
  destruct (limits_pos m2) as [P1 P2]. set (me := tool_memory_max_entries m2) in *. set (mb := tool_memory_max_bytes m2) in *.
  set (sel := filter (λ r, wanted_id wanted r.1 = true) recs) in *.
  destruct (put_records_front me mb sel ltac:(lia) ltac:(lia) [] [] l2) as (front & rest & Ef & Hp); [|done|done|].
  { cbn [app]. eapply sublist_NoDup; [by eapply (records_nodup m ps l text)|]. apply fmap_sublist, sublist_filter. }
  destruct (load_trailer_holds m2 l2 recs wanted H2) as (m2' & Hl & Hh); [| |by destruct Hfit|done|].
  { apply Forall_forall. intros r Hr. destruct (Hrec r Hr) as (c & Hc & <-). by apply Hok. }
  { apply Forall_forall. intros r Hr. destruct (Hrec r Hr) as (c & Hc & <-). by apply Hsmall. }
  fold sel me mb in Hh. cbn [app] in Ef, Hp. rewrite Ef in Hh. eexists _, _, m', _, m2'. split; [exact Hw|]. split; [exact Hl|].
  intros c Hc Htb Hwant. pose proof (Hok c Hc) as (O1 & O2 & _ & O4 & _). cbn [pair_of fst snd] in *.
  assert (Hin : pair_of c ∈ pair_of <$> front).
  { rewrite Hp, elem_of_reverse. apply list_elem_of_filter. split; [done|]. apply (records_spec m ps l); [done..|]. split_and!; [done| |by exists c].
    unfold skipped. rewrite orb_false_iff, !Z.ltb_ge. unfold DS4_TOOL_MEMORY_MAX_BYTES in O4. lia. }
  destruct (lookup_holds m2' (front ++ rest) (Some (ca_id c)) Hh) as (m3 & Hlk & _).
  assert (Hfind : ca_text <$> spec_lookup (Some (ca_id c)) (front ++ rest) = Some (ca_text c)).
  { destruct (ca_id c) as [|i r] eqn:Eid; [done|]. cbn [spec_lookup]. rewrite <- Eid. apply find_front_of; [|done].
    rewrite Hp, fmap_reverse. rewrite reverse_Permutation. eapply sublist_NoDup; [by eapply (records_nodup m ps l text)|]. apply fmap_sublist, sublist_filter. }
  destruct (spec_lookup (Some (ca_id c)) (front ++ rest)) as [x|]; [|done]. destruct Hlk as (b & blk & Hlk & _). injection Hfind as <-. eauto.
Qed.

End claims.

(** ** A concrete checkpoint *)

Definition sample_markup : bytes := bs "<tool_calls>ls</tool_calls>".

(** A memory that has seen one call. *)
Definition sample_memory : tool_memory (gmap bytes loc) :=
  default sample_start (tool_memory_put_locked sample_start (Some (bs "call_1")) (Some sample_markup) TOOL_MEMORY_RAM).

Definition sample_cache : list cached := [Cached (bs "call_1") sample_markup TOOL_MEMORY_RAM].

Lemma sample_holds : holds sample_memory sample_cache.
Proof.
  destruct (put_holds sample_start [] (bs "call_1") sample_markup TOOL_MEMORY_RAM) as (m & E & H & _);
    [apply start_holds|done|done|vm_compute; split; congruence|].
  unfold sample_memory. rewrite E. exact H.
Qed.

Definition sample_text : bytes := bs "hello " ++ sample_markup ++ bs " bye".

(** Witness: the trailer of a text with the one call. *)
Lemma tool_map_size_exact_witness :
  kv_trailer_serialized_size (Some (kv_cache_tool_map_hooks true 100 sample_memory)) sample_text = (true, 49).
Proof.
  pose proof (tool_map_size_exact sample_memory sample_cache sample_text 100 sample_holds) as H. cbn zeta in H.
  destruct (kv_trailer_write (Some (kv_cache_tool_map_hooks true 100 sample_memory)) sample_text) as [[out ok] n].
  destruct H as (_ & -> & -> & -> & _); [reflexivity|discriminate|split; vm_compute; congruence|apply Nat.leb_le; vm_compute; reflexivity|].
  vm_compute. reflexivity.
Defined.

(** Witness of C24: another server learns the call. *)
Lemma tool_map_survives_restart_witness :
  ∃ out n m' loaded m2', kv_tool_map_write true 100 sample_memory sample_text = Some (out, true, n, m')
    ∧ kv_tool_map_load_from_pos true sample_start out None = Some (loaded, m2')
    ∧ ∃ src b m3, tool_memory_lookup_locked m2' (Some (bs "call_1")) = Some (Some (sample_markup, src, b), m3).
Proof.
  destruct (tool_map_survives_restart sample_memory sample_cache sample_start [] sample_text 100 None) as (out & n & m' & loaded & m2' & H1 & H2 & H3).
  - apply sample_holds.
  - apply start_holds.
  - vm_compute. reflexivity.
  - discriminate.
  - apply Forall_singleton. split_and!; [done|apply Nat.leb_le; vm_compute; reflexivity|done|vm_compute; congruence| |];
      repeat constructor; discriminate.
  - split; vm_compute; congruence.
  - apply Nat.leb_le. vm_compute. reflexivity.
  - vm_compute. congruence.
  - apply Forall_singleton. vm_compute. split; congruence.
  - vm_compute. reflexivity.
  - exists out, n, m', loaded, m2'. split; [exact H1|]. split; [exact H2|].
    apply (H3 (Cached (bs "call_1") sample_markup TOOL_MEMORY_RAM)); [by left|vm_compute; by left|reflexivity].
Defined.
