(* ===== verification/LiveState.v ===== *)
(** * Live continuations

    The bindings of [engine/src/server.c] from the ids of the tool calls of a turn
    to the session that sampled it, and the text a client will replay for it: set
    when a turn ends, cleared when the session moves on, and asked when a request
    brings tool results. *)
From S2P Require Import Prelude CLib KvHeader KvCache Json Request Stream ToolText ToolMemory ToolMap.

(** ** State of a slot *)

Record live_tool_state := LiveToolState {
  lt_valid : bool;
  lt_live_tokens : Z;
  lt_visible_text : option bytes;
  lt_call_ids : stop_list;
}.

Record visible_live_state := VisibleLiveState {
  vl_valid : bool;
  vl_live_tokens : Z;
  vl_visible_text : option bytes;
}.

Definition no_ids : stop_list := StopList [] 0.

Definition live_tool_zero : live_tool_state := LiveToolState false 0 None no_ids.
Definition visible_live_zero : visible_live_state := VisibleLiveState false 0 None.

Record slot_live := SlotLive {
  responses_live : live_tool_state;
  anthropic_live : live_tool_state;
  thinking_live : visible_live_state;
}.

Definition slot_live_zero : slot_live := SlotLive live_tool_zero live_tool_zero visible_live_zero.

(** ** Operations *)

Definition live_tool_state_clear_locked (st : live_tool_state) : live_tool_state :=
  LiveToolState false 0 None (stop_list_clear (lt_call_ids st)).

Definition visible_live_clear_locked (st : visible_live_state) : visible_live_state := visible_live_zero.

Definition nonempty (s : option bytes) : bool := match s with Some (_ :: _) => true | _ => false end.

Definition push_calls (ids : stop_list) (v : list tool_call) : stop_list := foldl (λ ids tc, id_list_push_unique ids (tc_id tc)) ids v.

(** [pos]: where the session of the slot stands. *)
Definition thinking_live_remember (sl : slot_live) (pos : Z) (visible_text : option bytes) : slot_live :=
  if nonempty visible_text then SlotLive (responses_live sl) (anthropic_live sl) (VisibleLiveState true pos visible_text) else sl.

Definition responses_live_remember (sl : slot_live) (pos : Z) (visible_text : option bytes) (calls : option tool_calls) : slot_live :=
  if nonempty visible_text then
    let st := live_tool_state_clear_locked (responses_live sl) in
    let ids := match calls with Some c => push_calls (lt_call_ids st) (calls_v c) | None => lt_call_ids st end in
    SlotLive (LiveToolState true pos visible_text ids) (anthropic_live sl) (thinking_live sl)
  else sl.

Definition anthropic_live_remember (sl : slot_live) (pos : Z) (calls : option tool_calls) : slot_live :=
  match calls with
  | Some (ToolCalls (tc :: v) _) =>
      let st := live_tool_state_clear_locked (anthropic_live sl) in
      let ids := push_calls (lt_call_ids st) (tc :: v) in
      SlotLive (responses_live sl) (LiveToolState (0 <? Z.of_nat (length (stop_v ids))) pos None ids) (thinking_live sl)
  | _ => sl
  end.

Definition responses_live_clear (sl : slot_live) : slot_live :=
  SlotLive (live_tool_state_clear_locked (responses_live sl)) (anthropic_live sl) (thinking_live sl).
Definition anthropic_live_clear (sl : slot_live) : slot_live :=
  SlotLive (responses_live sl) (live_tool_state_clear_locked (anthropic_live sl)) (thinking_live sl).
Definition thinking_live_clear (sl : slot_live) : slot_live :=
  SlotLive (responses_live sl) (anthropic_live sl) (visible_live_clear_locked (thinking_live sl)).

Definition request_live_state_clear (sl : slot_live) : slot_live :=
  thinking_live_clear (anthropic_live_clear (responses_live_clear sl)).

Definition live_has_call_id (st : live_tool_state) (id : option bytes) : bool :=
  lt_valid st && id_list_contains (lt_call_ids st) id.

Definition responses_live_has_call_id (slots : list slot_live) (id : option bytes) : bool :=
  nonempty id && existsb (λ sl, live_has_call_id (responses_live sl) id) slots.
Definition anthropic_live_has_call_id (slots : list slot_live) (id : option bytes) : bool :=
  nonempty id && existsb (λ sl, live_has_call_id (anthropic_live sl) id) slots.

Definition live_matches (st : live_tool_state) (ids : stop_list) (live_tokens : Z) : bool :=
  match stop_v ids with
  | [] => false
  | _ =>
      lt_valid st && (lt_live_tokens st =? live_tokens) && (length (stop_v (lt_call_ids st)) =? length (stop_v ids))%nat
      && forallb (λ id, id_list_contains (lt_call_ids st) (Some id)) (stop_v ids)
  end.

Definition responses_live_matches_request (sl : slot_live) (ids : stop_list) (live_tokens : Z) : bool :=
  live_matches (responses_live sl) ids live_tokens.
Definition anthropic_live_matches_request (sl : slot_live) (ids : stop_list) (live_tokens : Z) : bool :=
  live_matches (anthropic_live sl) ids live_tokens.

Definition live_state_contains_all (st : live_tool_state) (ids : stop_list) : bool :=
  match stop_v ids with
  | [] => false
  | _ => lt_valid st && forallb (λ id, id_list_contains (lt_call_ids st) (Some id)) (stop_v ids)
  end.

(** ** The key of a stored session

    A live session is stored under the text the client replays when one is bound to
    its position; otherwise under the text of its tokens. *)
Definition store_current_key (sl : slot_live) (tokens_len : Z) : option (bytes * Z * bytes) :=
  match lt_valid (responses_live sl) && (lt_live_tokens (responses_live sl) =? tokens_len), lt_visible_text (responses_live sl) with
  | true, Some (c :: r) => Some (c :: r, EXT_RESPONSES_VISIBLE, bs "responses-visible")
  | _, _ =>
      match vl_valid (thinking_live sl) && (vl_live_tokens (thinking_live sl) =? tokens_len), vl_visible_text (thinking_live sl) with
      | true, Some (c :: r) => Some (c :: r, EXT_THINKING_VISIBLE, bs "thinking-visible")
      | _, _ => None
      end
  end.

(** ** Id lists *)

Lemma id_list_contains_spec ids id : id_list_contains ids (Some id) = true ↔ id ≠ [] ∧ id ∈ stop_v ids.
Proof.
  destruct id as [|c r]; [split; [done|naive_solver]|]. cbn [id_list_contains]. rewrite existsb_exists. setoid_rewrite bytes_eqb_eq.
  rewrite list_elem_of_In. naive_solver.
Qed.

(** A list of ids: none empty, none twice. *)
Definition ids_set (ids : stop_list) : Prop := NoDup (stop_v ids) ∧ [] ∉ stop_v ids.

Lemma push_unique_set ids id : ids_set ids → ids_set (id_list_push_unique ids id)
  ∧ ∀ x, x ∈ stop_v (id_list_push_unique ids id) ↔ x ∈ stop_v ids ∨ (id = Some x ∧ x ≠ []).
Proof.
  intros [Hnd Hne]. destruct id as [[|c r]|]; [split; [done|naive_solver]| |split; [done|naive_solver]]. cbn [id_list_push_unique].
  destruct (id_list_contains ids (Some (c :: r))) eqn:E.
  - apply id_list_contains_spec in E as [_ E]. split; [done|]. intros x. split; [by left|]. intros [|[[= <-] _]]; done.
  - assert (Hn : c :: r ∉ stop_v ids).
    { intros H. assert (id_list_contains ids (Some (c :: r)) = true) by (by apply id_list_contains_spec). congruence. }
    unfold ids_set. change (stop_v (stop_list_push ids (c :: r))) with (stop_v ids ++ [c :: r]). split.
    + split; [|rewrite not_elem_of_app; split; [done|by intros ?%list_elem_of_singleton]].
      apply NoDup_app. split_and!; [done| |apply NoDup_singleton]. intros x Hx ->%list_elem_of_singleton. done.
    + intros x. rewrite elem_of_app, list_elem_of_singleton. naive_solver.
Qed.

Lemma push_calls_set v : ∀ ids, ids_set ids → ids_set (push_calls ids v)
  ∧ ∀ x, x ∈ stop_v (push_calls ids v) ↔ x ∈ stop_v ids ∨ (x ≠ [] ∧ ∃ tc, tc ∈ v ∧ tc_id tc = Some x).
Proof.
  induction v as [|tc v IH]; intros ids Hs.
  { split; [done|]. intros x. cbn. split; [by left|]. intros [|(_ & tc & Htc & _)]; [done|by apply elem_of_nil in Htc]. }
  cbn [push_calls foldl]. fold (push_calls (id_list_push_unique ids (tc_id tc)) v).
  destruct (push_unique_set ids (tc_id tc) Hs) as [H1 E1]. destruct (IH _ H1) as [H2 E2]. split; [done|].
  intros x. rewrite E2, E1. setoid_rewrite elem_of_cons. naive_solver.
Qed.

(** What every operation keeps true of a slot. *)
Definition live_ok (st : live_tool_state) : Prop := ids_set (lt_call_ids st).
Definition slot_live_ok (sl : slot_live) : Prop := live_ok (responses_live sl) ∧ live_ok (anthropic_live sl).

Lemma no_ids_set : ids_set no_ids.
Proof. split; [constructor|apply not_elem_of_nil]. Qed.

#[export] Hint Resolve no_ids_set : spark.

Lemma responses_remember_ok sl pos text calls : slot_live_ok sl → slot_live_ok (responses_live_remember sl pos text calls).
Proof.
  intros [H1 H2]. unfold responses_live_remember. case_if; [|done]. split; [|done]. unfold live_ok. cbn.
  destruct calls as [c|]; [|apply no_ids_set]. apply push_calls_set, no_ids_set.
Qed.

Lemma anthropic_remember_ok sl pos calls : slot_live_ok sl → slot_live_ok (anthropic_live_remember sl pos calls).
Proof.
  intros [H1 H2]. unfold anthropic_live_remember. destruct calls as [[[|tc v] raw]|]; [done| |done]. split; [done|].
  unfold live_ok. cbn [anthropic_live lt_call_ids]. apply push_calls_set, no_ids_set.
Qed.

(** ** A continuation is recognised exactly *)

Lemma live_matches_spec st ids n : live_ok st → ids_set ids →
  live_matches st ids n = true ↔ stop_v ids ≠ [] ∧ lt_valid st = true ∧ lt_live_tokens st = n ∧ stop_v (lt_call_ids st) ≡ₚ stop_v ids.
Proof.
  intros [Hnd Hne] [Hnd' Hne']. unfold live_matches. destruct (stop_v ids) as [|i r] eqn:E; [naive_solver|]. rewrite <- E in *.
  rewrite !andb_true_iff, Z.eqb_eq, Nat.eqb_eq, forallb_forall. setoid_rewrite id_list_contains_spec. split.
  - intros (((Hv & Hn) & Hl) & Hall). split_and!; [by rewrite E|done|done|]. symmetry. apply submseteq_length_Permutation; [|lia].
    apply NoDup_submseteq; [done|]. intros x Hx. apply list_elem_of_In in Hx. by apply Hall.
  - intros (_ & Hv & Hn & Hp). split_and!; [done|done|by rewrite Hp|]. intros x Hx. apply list_elem_of_In in Hx. rewrite Hp. split; [|done].
    by intros ->.
Qed.

(** After a turn with tool calls, a request continues it exactly when it brings
    results for precisely the ids of that turn, in any order, and the session has
    not moved; and after the state is cleared nothing continues it. *)
Theorem anthropic_continuation_exact sl pos tc v raw ids n (Hids : ids_set ids) :
  let sl' := anthropic_live_remember sl pos (Some (ToolCalls (tc :: v) raw)) in
  (anthropic_live_matches_request sl' ids n = true ↔
    stop_v ids ≠ [] ∧ n = pos ∧ ∀ x, x ∈ stop_v ids ↔ x ≠ [] ∧ ∃ c, c ∈ tc :: v ∧ tc_id c = Some x)
  ∧ anthropic_live_matches_request (request_live_state_clear sl') ids n = false.
Proof.
  intros sl'. destruct (push_calls_set (tc :: v) no_ids no_ids_set) as [Hs Hx].
  assert (Hempty : ∀ x, x ∈ stop_v no_ids ↔ False) by (intros x; split; [by intros ?%elem_of_nil|done]). split.
  - unfold anthropic_live_matches_request, sl'. rewrite live_matches_spec by done.
    cbn [anthropic_live_remember anthropic_live live_tool_state_clear_locked lt_call_ids lt_valid lt_live_tokens stop_list_clear]. fold no_ids. split.
    + intros (Hne & _ & <- & Hp). split_and!; [done|done|]. intros x. rewrite <- Hp, Hx, Hempty. naive_solver.
    + intros (Hne & -> & Hall). assert (Hp : stop_v (push_calls no_ids (tc :: v)) ≡ₚ stop_v ids).
      { destruct Hs as [Hnd _], Hids as [Hnd' _]. apply NoDup_Permutation; [done|done|]. intros x. rewrite Hx, Hall, Hempty. naive_solver. }
      split_and!; [done| |done|done]. apply Z.ltb_lt. rewrite Hp. destruct (stop_v ids); [done|cbn; lia].
  - unfold anthropic_live_matches_request, live_matches. by destruct (stop_v ids).
Qed.

(** Witness: a turn with two calls, answered in the other order. *)
Lemma anthropic_continuation_exact_witness :
  anthropic_live_matches_request
    (anthropic_live_remember slot_live_zero 7 (Some (ToolCalls [ToolCall (Some (bs "a")) None None; ToolCall (Some (bs "b")) None None] None)))
    (StopList [bs "b"; bs "a"] 1) 7 = true.
Proof.
  destruct (anthropic_continuation_exact slot_live_zero 7 (ToolCall (Some (bs "a")) None None) [ToolCall (Some (bs "b")) None None] None
    (StopList [bs "b"; bs "a"] 1) 7) as [H _].
  - split; [apply NoDup_cons; split; [by intros ?%list_elem_of_singleton|apply NoDup_singleton]|].
    cbn [stop_v]. intros [H|H%list_elem_of_singleton]%elem_of_cons; discriminate.
  - apply H. split_and!; [discriminate|reflexivity|]. intros x. split.
    + intros [->| ->%list_elem_of_singleton]%elem_of_cons; (split; [discriminate|]).
      * exists (ToolCall (Some (bs "b")) None None). split; [right; by left|reflexivity].
      * exists (ToolCall (Some (bs "a")) None None). split; [by left|reflexivity].
    + intros (_ & c & [->| ->%list_elem_of_singleton]%elem_of_cons & [= <-]); [right; by left|by left].
Defined.
