(* ===== verification/JobQueue.v ===== *)
(** * The queue of waiting jobs

    The singly linked queue of [engine/src/server.c]: jobs own their link, the
    server has the head and the tail. The model follows the pointers and the
    theorem says that the queue is the list of its jobs: a job is added at the end,
    taken from the front, or cut out by a walk that remembers the job before. *)
From S2P Require Import Prelude.

Definition job := positive.

(** [job.next] of the jobs that are alive, and the ends of the queue. *)
Record job_queue := JobQueue {
  q_head : option job;
  q_tail : option job;
  q_next : gmap job (option job);
}.

Definition queue_zero : job_queue := JobQueue None None ∅.

(** A job with its link cleared, as [memset] leaves it. *)
Definition job_new (q : job_queue) (j : job) : job_queue := JobQueue (q_head q) (q_tail q) (<[j := None]> (q_next q)).

(** [p->next = v]; the job must be alive. *)
Definition set_next (q : job_queue) (p : job) (v : option job) : option job_queue :=
  match q_next q !! p with
  | Some _ => Some (JobQueue (q_head q) (q_tail q) (<[p := v]> (q_next q)))
  | None => None
  end.

(** The links [enqueue] writes. *)
Definition queue_push (q : job_queue) (j : job) : option job_queue :=
  q ← match q_tail q with
      | Some t => set_next q t (Some j)
      | None => Some (JobQueue (Some j) (q_tail q) (q_next q))
      end;
  Some (JobQueue (q_head q) (Some j) (q_next q)).

(** The links [dequeue] writes. *)
Definition queue_pop (q : job_queue) : option (option job * job_queue) :=
  match q_head q with
  | None => Some (None, q)
  | Some j =>
      n ← q_next q !! j;
      let q := JobQueue n (match n with None => None | Some _ => q_tail q end) (q_next q) in
      q ← set_next q j None;
      Some (Some j, q)
  end.

(** Cutting [it] out, [prev] being the job before it. *)
Definition queue_cut (q : job_queue) (prev : option job) (it : job) : option job_queue :=
  n ← q_next q !! it;
  q ← match prev with
      | Some p => set_next q p n
      | None => Some (JobQueue n (q_tail q) (q_next q))
      end;
  let q := if decide (q_tail q = Some it) then JobQueue (q_head q) prev (q_next q) else q in
  set_next q it None.

(** The walk from the head that stops at the first job that [f] takes, as in
    [dispatch_jobs_locked] and [server_cancel_job]: the job with the one before it. *)
Fixpoint queue_find {A} (f : job → option A) (fuel : nat) (q : job_queue) (prev it : option job)
  : option (option (option job * job * A)) :=
  match fuel with
  | O => None
  | S fuel' =>
      match it with
      | None => Some None
      | Some j =>
          match f j with
          | Some a => Some (Some (prev, j, a))
          | None => n ← q_next q !! j; queue_find f fuel' q (Some j) n
          end
      end
  end.

(** Find and cut. *)
Definition queue_take_first {A} (f : job → option A) (q : job_queue) : option (option (job * A) * job_queue) :=
  r ← queue_find f (S (size (q_next q))) q None (q_head q);
  match r with
  | None => Some (None, q)
  | Some (prev, j, a) => q ← queue_cut q prev j; Some (Some (j, a), q)
  end.

(** ** The queue as a list *)

Fixpoint linked (h : gmap job (option job)) (it : option job) (l : list job) : Prop :=
  match l with
  | [] => it = None
  | j :: l' => it = Some j ∧ ∃ n, h !! j = Some n ∧ linked h n l'
  end.

Definition queue_is (q : job_queue) (l : list job) : Prop := NoDup l ∧ linked (q_next q) (q_head q) l ∧ q_tail q = last l.

(** The first job of a list that [f] takes, and the others. *)
Fixpoint take_first {A} (f : job → option A) (l : list job) : option (job * A * list job) :=
  match l with
  | [] => None
  | j :: l' =>
      match f j with
      | Some a => Some (j, a, l')
      | None => match take_first f l' with Some (x, a, r) => Some (x, a, j :: r) | None => None end
      end
  end.

Lemma linked_frame h h' it l : (∀ j, j ∈ l → h' !! j = h !! j) → linked h it l → linked h' it l.
Proof.
  revert it. induction l as [|j l IH]; intros it He; [done|]. intros [-> (n & Hj & Hl)]. split; [done|]. exists n.
  split; [rewrite He; [done|by left]|]. apply IH; [|done]. intros x Hx. apply He. by right.
Qed.

Lemma linked_app h it l1 j l2 : linked h it (l1 ++ j :: l2) → ∃ n, h !! j = Some n ∧ linked h n l2.
Proof.
  revert it. induction l1 as [|x l1 IH]; intros it; cbn [app linked].
  - intros [_ (n & Hn & Hl)]. by exists n.
  - intros [_ (n & _ & Hl)]. by apply IH in Hl.
Qed.

(** Another tail after [j]. *)
Lemma linked_set h it l1 j l2 n l3 : NoDup (l1 ++ j :: l2) → linked h it (l1 ++ j :: l2) → linked (<[j := n]> h) n l3 →
  linked (<[j := n]> h) it (l1 ++ j :: l3).
Proof.
  revert it. induction l1 as [|x l1 IH]; intros it Hnd; cbn [app linked].
  - intros [-> _] Hl. split; [done|]. exists n. by rewrite lookup_insert_eq.
  - cbn [app] in Hnd. apply NoDup_cons in Hnd as [Hx Hnd]. intros [-> (n' & Hn' & Hl)] Hs. split; [done|]. exists n'.
    split; [|by apply IH]. rewrite lookup_insert_ne; [done|]. intros <-. apply Hx, elem_of_app. right. by left.
Qed.

Lemma queue_push_is q l j : queue_is q l → j ∉ l → q_next q !! j = Some None →
  ∃ q', queue_push q j = Some q' ∧ queue_is q' (l ++ [j]) ∧ dom (q_next q') = dom (q_next q).
Proof.
  intros (Hnd & Hl & Ht) Hj Hn. assert (Hnd' : NoDup (l ++ [j])).
  { apply NoDup_app. split_and!; [done| |apply NoDup_singleton]. intros x Hx ->%list_elem_of_singleton. done. }
  unfold queue_push. rewrite Ht. destruct l as [|t l _] using rev_ind.
  - cbn [last mbind option_bind]. eexists. split; [done|]. split; [|done]. split_and!; [done| |done]. split; [done|]. by exists None.
  - rewrite last_snoc. unfold set_next. destruct (linked_app _ _ _ _ _ Hl) as (n & Hn' & _). rewrite Hn'. cbn [mbind option_bind].
    eexists. split; [done|]. cbn [q_next q_head q_tail]. split; [|by apply dom_insert_lookup_L; eexists].
    assert (Htj : t ≠ j) by (intros ->; apply Hj, elem_of_app; right; by left).
    split_and!; [done| |by rewrite last_snoc]. rewrite <- app_assoc. cbn [app q_head q_next]. eapply linked_set; [exact Hnd|exact Hl|].
    split; [done|]. exists None. by rewrite lookup_insert_ne.
Qed.

Lemma queue_pop_is q l : queue_is q l →
  ∃ q', queue_pop q = Some (head l, q') ∧ queue_is q' (tail l) ∧ dom (q_next q') = dom (q_next q).
Proof.
  intros (Hnd & Hl & Ht). unfold queue_pop. destruct l as [|j l].
  - cbn in Hl. rewrite Hl. exists q. split; [done|]. by split_and!.
  - destruct Hl as [-> (n & Hj & Hl)]. rewrite Hj. cbn [mbind option_bind]. unfold set_next. cbn [q_next]. rewrite Hj.
    cbn [mbind option_bind]. eexists. split; [done|]. cbn [q_next q_head q_tail]. apply NoDup_cons in Hnd as [Hn Hnd].
    split; [|by apply dom_insert_lookup_L; eexists]. cbn [tail]. split_and!; [done| |].
    + eapply linked_frame; [|exact Hl]. intros x Hx. cbn. rewrite lookup_insert_ne; [done|]. by intros <-.
    + cbn. destruct l as [|k l]; [by rewrite Hl|]. destruct Hl as [-> _]. by rewrite Ht.
Qed.

Lemma queue_find_is {A} (f : job → option A) q l : ∀ fuel prev it, linked (q_next q) it l → (length l < fuel)%nat →
  (take_first f l = None ∧ queue_find f fuel q prev it = Some None)
  ∨ ∃ l1 j a l2, l = l1 ++ j :: l2 ∧ take_first f l = Some (j, a, l1 ++ l2)
    ∧ queue_find f fuel q prev it = Some (Some (match last l1 with Some p => Some p | None => prev end, j, a)).
Proof.
  induction l as [|j l IH]; intros fuel prev it Hl Hf; (destruct fuel as [|fuel]; [simpl in Hf; lia|]); cbn [queue_find take_first].
  - left. by rewrite Hl.
  - destruct Hl as [-> (n & Hj & Hl)]. destruct (f j) as [a|] eqn:E.
    + right. exists [], j, a, l. done.
    + rewrite Hj. cbn [mbind option_bind].
      destruct (IH fuel (Some j) n Hl) as [[-> ->]|(l1 & x & a & l2 & -> & -> & ->)]; [simpl in Hf; lia|by left|right].
      exists (j :: l1), x, a, l2. split_and!; [done|done|]. rewrite last_cons. by destruct (last l1).
Qed.

Lemma queue_cut_is q l1 j l2 : queue_is q (l1 ++ j :: l2) →
  ∃ q', queue_cut q (last l1) j = Some q' ∧ queue_is q' (l1 ++ l2) ∧ dom (q_next q') = dom (q_next q).
Proof.
  intros (Hnd & Hl & Ht). pose proof (linked_app _ _ _ _ _ Hl) as (n & Hj & Hl2).
  pose proof Hnd as (N1 & Hd & [Hj2 N2]%NoDup_cons)%NoDup_app. assert (Hj1 : j ∉ l1) by (intros H; apply (Hd j H); by left).
  assert (Hnd' : NoDup (l1 ++ l2)) by (apply NoDup_app; split_and!; [done|intros x Hx H2; apply (Hd x Hx); by right|done]).
  assert (Htail : ∀ prev, prev = last l1 → (if decide (last (l1 ++ j :: l2) = Some j) then prev else last (l1 ++ j :: l2)) = last (l1 ++ l2)).
  { intros prev ->. rewrite !last_app, last_cons. destruct (last l2) as [x|] eqn:E.
    - rewrite decide_False; [done|]. intros [= ->]. apply Hj2. by apply last_Some_elem_of in E.
    - rewrite decide_True by done. apply last_None in E as ->. by destruct (last l1). }
  unfold queue_cut. rewrite Hj. cbn [mbind option_bind]. destruct l1 as [|p l1 _] using rev_ind.
  - cbn [last mbind option_bind q_tail q_head q_next]. cbn [app] in *. unfold set_next. specialize (Htail None eq_refl).
    rewrite Ht. case_decide; cbn [q_next q_head q_tail]; rewrite Hj; (eexists; split; [done|]); cbn [q_next q_head q_tail].
    all: split; [|by apply dom_insert_lookup_L; eexists]; split_and!; [done| |cbn; congruence].
    all: eapply linked_frame; [|exact Hl2]; intros x Hx; cbn; rewrite lookup_insert_ne; [done|]; by intros <-.
  - rewrite last_snoc. unfold set_next. rewrite <- app_assoc in Hl, Hnd. cbn [app] in Hl, Hnd.
    pose proof (linked_app _ _ _ _ _ Hl) as (np & Hp & _). rewrite Hp. cbn [mbind option_bind q_tail q_head q_next].
    assert (Hpj : p ≠ j) by (intros ->; apply Hj1, elem_of_app; right; by left). specialize (Htail (Some p) ltac:(by rewrite last_snoc)).
    assert (Hlk : linked (<[j := None]> (<[p := n]> (q_next q))) (q_head q) ((l1 ++ [p]) ++ l2)).
    { rewrite <- app_assoc. cbn [app]. eapply linked_frame; [|eapply (linked_set _ _ l1 p (j :: l2) n l2); [done|done|]].
      - intros x Hx. rewrite (lookup_insert_ne _ j); [done|]. intros <-. apply elem_of_app in Hx as [Hx|[->|Hx]%elem_of_cons]; [|done|done].
        apply Hj1, elem_of_app. by left.
      - eapply linked_frame; [|exact Hl2]. intros x Hx. rewrite lookup_insert_ne; [done|]. intros <-.
        apply (Hd p); [apply elem_of_app; right; by left|by right]. }
    assert (Hdom : dom (<[j := None]> (<[p := n]> (q_next q))) = dom (q_next q)).
    { rewrite dom_insert_lookup_L; [apply dom_insert_lookup_L; by eexists|]. rewrite lookup_insert_ne by done. by eexists. }
    rewrite Ht. case_decide; cbn [q_next q_head q_tail]; rewrite lookup_insert_ne, Hj by done; eexists; (split; [done|]).
    all: split; [|done]; split_and!; [done|done|cbn; congruence].
Qed.

Lemma linked_present h it l j : linked h it l → j ∈ l → is_Some (h !! j).
Proof. intros Hl (l1 & l2 & ->)%list_elem_of_split. apply linked_app in Hl as (n & -> & _). by eexists. Qed.

Lemma queue_size q l : queue_is q l → (length l <= size (q_next q))%nat.
Proof.
  intros (Hnd & Hl & _). rewrite <- size_dom, <- (size_list_to_set (C := gset job) l Hnd). apply subseteq_size.
  intros j Hj%elem_of_list_to_set. apply elem_of_dom. by eapply linked_present.
Qed.

Lemma queue_take_first_is {A} (f : job → option A) q l : queue_is q l →
  ∃ q', queue_take_first f q = Some (match take_first f l with Some (j, a, _) => Some (j, a) | None => None end, q')
    ∧ queue_is q' (match take_first f l with Some (_, _, r) => r | None => l end) ∧ dom (q_next q') = dom (q_next q).
Proof.
  intros Hq. pose proof (queue_size _ _ Hq) as Hsz. pose proof Hq as (_ & Hl & _). unfold queue_take_first.
  destruct (queue_find_is f q l (S (size (q_next q))) None (q_head q) Hl) as [[-> ->]|(l1 & j & a & l2 & -> & -> & ->)]; [lia|..]; cbn [mbind option_bind].
  - exists q. done.
  - destruct (queue_cut_is q l1 j l2 Hq) as (q' & E & Hq' & Hd). assert (match last l1 with Some p => Some p | None => None end = last l1) as -> by (by destruct (last l1)).
    rewrite E. cbn [mbind option_bind]. by exists q'.
Qed.

(** The linked queue is the list of its jobs: a new job goes to the end, the
    worker takes the front, and the walk that looks for a job to run or to cancel
    cuts out the first that fits and leaves the others in order, the ends of the
    queue included; no link of a job that is not alive is followed. *)
Theorem job_queue_is_list q l (Hq : queue_is q l) :
  (∀ j, j ∉ l → q_next q !! j = Some None → ∃ q', queue_push q j = Some q' ∧ queue_is q' (l ++ [j]))
  ∧ (∃ q', queue_pop q = Some (head l, q') ∧ queue_is q' (tail l))
  ∧ (∀ A (f : job → option A), ∃ q', queue_take_first f q = Some (match take_first f l with Some (j, a, _) => Some (j, a) | None => None end, q')
       ∧ queue_is q' (match take_first f l with Some (_, _, r) => r | None => l end)).
Proof.
  split; [|split].
  - intros j Hj Hn. destruct (queue_push_is q l j Hq Hj Hn) as (q' & E & H & _). by exists q'.
  - destruct (queue_pop_is q l Hq) as (q' & E & H & _). by exists q'.
  - intros A f. destruct (queue_take_first_is f q l Hq) as (q' & E & H & _). by exists q'.
Qed.

(** Witness: cutting the last of two jobs. *)
Lemma job_queue_is_list_witness :
  ∃ q', queue_take_first (λ j, if decide (j = 2%positive) then Some tt else None)
      (JobQueue (Some 1%positive) (Some 2%positive) {[1%positive := Some 2%positive; 2%positive := None]}) = Some (Some (2%positive, tt), q')
    ∧ queue_is q' [1%positive].
Proof.
  destruct (job_queue_is_list (JobQueue (Some 1%positive) (Some 2%positive) {[1%positive := Some 2%positive; 2%positive := None]}) [1%positive; 2%positive])
    as (_ & _ & H).
  - split_and!; [apply NoDup_cons; split; [by intros ?%list_elem_of_singleton|apply NoDup_singleton]| |reflexivity].
    split; [reflexivity|]. exists (Some 2%positive). split; [reflexivity|]. split; [reflexivity|]. exists None. split; reflexivity.
  - exact (H unit (λ j, if decide (j = 2%positive) then Some tt else None)).
Defined.
