(* ===== verification/Scheduler.v ===== *)
(** * The batched scheduler of the server

    The threads of [engine/src/server.c] in batched mode: a client thread per
    request, which owns its job on its stack and may cancel it, a worker thread per
    resident slot, and the decode thread that evaluates one token of every waiting
    slot together. Every critical section is a function on the state; the step
    relation lets the threads interleave between critical sections in any order.
    A function that follows a pointer to a job gives [None] when the job has been
    released. Inside [generate_job_inner] a worker makes any sequence of the calls
    that reach the scheduler. *)
From S2P Require Import Prelude CLib KvHeader KvCache Json Request Stream ToolText ToolMemory ToolMap LiveState JobQueue.

Definition DS4_SESSION_SYNC_INTERRUPTED : Z := 2.

(** ** Jobs *)

(** The fields of [request] that choose a slot. *)
Record live_request := LiveRequest {
  responses_requires_live_tool_state : bool;
  responses_live_call_ids : stop_list;
  anthropic_requires_live_tool_state : bool;
  anthropic_live_call_ids : stop_list;
}.

(** Where the client thread of a job is: waiting for it, in [server_cancel_job]
    before the queue is locked, before the model is locked, or before the job is
    marked as done. *)
Inductive client :=
  | CWaiting
  | CCut
  | CModel (detached : bool)
  | CComplete.

Record job_state := JobState {
  j_req : live_request;
  j_done : bool;
  j_cancelled : bool;
  j_client : client;
}.

Definition set_done (js : job_state) : job_state := JobState (j_req js) true (j_cancelled js) (j_client js).
Definition set_cancelled (js : job_state) : job_state := JobState (j_req js) (j_done js) true (j_client js).
Definition set_client (c : client) (js : job_state) : job_state := JobState (j_req js) (j_done js) (j_cancelled js) c.

(** ** Slots and their workers *)

(** What a worker does inside [generate_job_inner]: its own work, waiting in
    [server_prefill_enter], owning the model until [server_prefill_leave], waiting
    in [server_eval_token]. *)
Inductive activity := Working | PrefillWait | Prefilling | DecodeWait.

(** Where the worker thread of a slot is: at the top of its loop, with a job taken
    from the slot, in [generate_job] ([gen]: between [server_generation_enter] and
    [server_generation_leave]), before [job_complete], before it makes the slot free,
    or ended. *)
Inductive worker :=
  | WIdle
  | WTaken (j : job)
  | WRun (j : job) (gen : bool) (a : activity)
  | WDone (j : job)
  | WAfter
  | WExited.

Record server_slot := ServerSlot {
  sl_live : slot_live;
  assigned : option job;
  running : option job;
  busy : bool;
  prefill_waiting : bool;
  decode_pending : bool;
  decode_in_flight : bool;
  decode_done : bool;
  decode_token : Z;
  decode_rc : Z;
  decode_err : bytes;
  sl_worker : worker;
}.

Definition slot_zero : server_slot := ServerSlot slot_live_zero None None false false false false false 0 0 [] WIdle.

Definition set_live v (s : server_slot) := ServerSlot v (assigned s) (running s) (busy s) (prefill_waiting s)
  (decode_pending s) (decode_in_flight s) (decode_done s) (decode_token s) (decode_rc s) (decode_err s) (sl_worker s).
Definition set_assigned v b (s : server_slot) := ServerSlot (sl_live s) v (running s) b (prefill_waiting s)
  (decode_pending s) (decode_in_flight s) (decode_done s) (decode_token s) (decode_rc s) (decode_err s) (sl_worker s).
Definition set_running v (s : server_slot) := ServerSlot (sl_live s) (assigned s) v (busy s) (prefill_waiting s)
  (decode_pending s) (decode_in_flight s) (decode_done s) (decode_token s) (decode_rc s) (decode_err s) (sl_worker s).
Definition set_prefill_waiting v (s : server_slot) := ServerSlot (sl_live s) (assigned s) (running s) (busy s) v
  (decode_pending s) (decode_in_flight s) (decode_done s) (decode_token s) (decode_rc s) (decode_err s) (sl_worker s).
Definition set_decode p f d (s : server_slot) := ServerSlot (sl_live s) (assigned s) (running s) (busy s) (prefill_waiting s)
  p f d (decode_token s) (decode_rc s) (decode_err s) (sl_worker s).
Definition set_result rc err (s : server_slot) := ServerSlot (sl_live s) (assigned s) (running s) (busy s) (prefill_waiting s)
  (decode_pending s) (decode_in_flight s) (decode_done s) (decode_token s) rc err (sl_worker s).
Definition set_token t (s : server_slot) := ServerSlot (sl_live s) (assigned s) (running s) (busy s) (prefill_waiting s)
  (decode_pending s) (decode_in_flight s) (decode_done s) t (decode_rc s) (decode_err s) (sl_worker s).
Definition set_worker w (s : server_slot) := ServerSlot (sl_live s) (assigned s) (running s) (busy s) (prefill_waiting s)
  (decode_pending s) (decode_in_flight s) (decode_done s) (decode_token s) (decode_rc s) (decode_err s) w.

(** ** The server *)

(** The decode thread: between batches, evaluating the slots of a batch, ended. *)
Inductive decode_worker :=
  | DWait
  | DBatch (members : list nat)
  | DExited.

(** What [model_mu] protects besides the slots. *)
Record model_state := ModelState {
  model_busy : bool;
  model_stopping : bool;
  pending_decodes : Z;
  active_generations : Z;
  last_prefill_slot : Z;
  decoder : decode_worker;
}.

Record server := Server {
  slots : list server_slot;
  queue : job_queue;
  jobs : gmap job job_state;
  stopping : bool;
  stop_requested : bool;
  model : model_state;
}.

Definition set_slots v (st : server) := Server v (queue st) (jobs st) (stopping st) (stop_requested st) (model st).
Definition set_queue v (st : server) := Server (slots st) v (jobs st) (stopping st) (stop_requested st) (model st).
Definition set_jobs v (st : server) := Server (slots st) (queue st) v (stopping st) (stop_requested st) (model st).
Definition set_stopping v (st : server) := Server (slots st) (queue st) (jobs st) v (stop_requested st) (model st).
Definition set_stop_requested v (st : server) := Server (slots st) (queue st) (jobs st) (stopping st) v (model st).
Definition set_model v (st : server) := Server (slots st) (queue st) (jobs st) (stopping st) (stop_requested st) v.

(** A slot by its id: writing to it leaves the others. *)
Definition put_slot (i : nat) (s : server_slot) (st : server) := set_slots (<[i := s]> (slots st)) st.
Definition put_job (j : job) (js : job_state) (st : server) := set_jobs (<[j := js]> (jobs st)) st.

Definition set_model_busy v (m : model_state) :=
  ModelState v (model_stopping m) (pending_decodes m) (active_generations m) (last_prefill_slot m) (decoder m).
Definition set_pending v (m : model_state) :=
  ModelState (model_busy m) (model_stopping m) v (active_generations m) (last_prefill_slot m) (decoder m).
Definition set_active v (m : model_state) :=
  ModelState (model_busy m) (model_stopping m) (pending_decodes m) v (last_prefill_slot m) (decoder m).
Definition set_last_prefill v (m : model_state) :=
  ModelState (model_busy m) (model_stopping m) (pending_decodes m) (active_generations m) v (decoder m).
Definition set_decoder v (m : model_state) :=
  ModelState (model_busy m) (model_stopping m) (pending_decodes m) (active_generations m) (last_prefill_slot m) v.
Definition set_model_stopping v (m : model_state) :=
  ModelState (model_busy m) v (pending_decodes m) (active_generations m) (last_prefill_slot m) (decoder m).

(** [main] before the threads start. *)
Definition server_start (slot_count : nat) : server :=
  Server (replicate slot_count slot_zero) queue_zero ∅ false false
    (ModelState false false 0 0 (Z.of_nat slot_count - 1) DWait).

(** ** Flags of a job *)

Definition job_cancelled (st : server) (j : job) : option bool := j_cancelled <$> jobs st !! j.

Definition job_mark_cancelled (st : server) (j : job) : option server :=
  js ← jobs st !! j; Some (put_job j (set_cancelled js) st).

Definition job_complete (st : server) (j : job) : option server :=
  js ← jobs st !! j; Some (put_job j (set_done js) st).

Definition slot_job_cancelled (st : server) (s : server_slot) : option bool :=
  match running s with Some j => job_cancelled st j | None => Some false end.

(** ** Choosing a slot *)

Fixpoint required_from (r : live_request) (i : Z) (l : list server_slot) : Z :=
  match l with
  | [] => -1
  | s :: l' =>
      if responses_requires_live_tool_state r && live_state_contains_all (responses_live (sl_live s)) (responses_live_call_ids r) then i
      else if anthropic_requires_live_tool_state r && live_state_contains_all (anthropic_live (sl_live s)) (anthropic_live_call_ids r) then i
      else required_from r (i + 1) l'
  end.

Definition job_required_slot_locked (l : list server_slot) (r : live_request) : Z := required_from r 0 l.

(** [common]: [ds4_session_common_prefix] of the session of the slot and the prompt. *)
Definition job_slot_score (s : server_slot) (id : Z) (common required : Z) : Z :=
  if busy s || bool_decide (is_Some (assigned s)) then INT_MIN
  else if (0 <=? required) && negb (id =? required) then INT_MIN
  else if required =? id then INT_MAX
  else common.

Fixpoint best_from (common : nat → Z) (required : Z) (i : nat) (l : list server_slot) (best : option nat) (best_score : Z) : option nat :=
  match l with
  | [] => best
  | s :: l' =>
      let score := job_slot_score s (Z.of_nat i) (common i) required in
      if score >? best_score then best_from common required (S i) l' (Some i) score
      else best_from common required (S i) l' best best_score
  end.

(** The slot for a job, when one can run it now. *)
Definition best_slot (common : nat → job → Z) (js : gmap job job_state) (l : list server_slot) (j : job) : option nat :=
  match js !! j with
  | Some st => best_from (λ i, common i j) (job_required_slot_locked l (j_req st)) 0 l None INT_MIN
  | None => None
  end.

Fixpoint dispatch_loop (fuel : nat) (common : nat → job → Z) (js : gmap job job_state) (q : job_queue) (l : list server_slot)
  : option (job_queue * list server_slot) :=
  match fuel with
  | O => None
  | S fuel' =>
      match queue_take_first (best_slot common js l) q with
      | Some (Some (j, i), q') => dispatch_loop fuel' common js q' (alter (set_assigned (Some j) true) i l)
      | Some (None, q') => Some (q', l)
      | None => None
      end
  end.

Definition dispatch_jobs_locked (common : nat → job → Z) (st : server) : option server :=
  match dispatch_loop (S (length (slots st))) common (jobs st) (queue st) (slots st) with
  | Some (q, l) => Some (set_queue q (set_slots l st))
  | None => None
  end.

(** ** Arrival, cancellation and release of a job *)

(** A job on the stack of its client. *)
Definition job_create (j : job) (r : live_request) (st : server) : server :=
  put_job j (JobState r false false CWaiting) (set_queue (job_new (queue st) j) st).

Definition enqueue (common : nat → job → Z) (j : job) (st : server) : option (bool * server) :=
  if stopping st then Some (false, st)
  else
    q ← queue_push (queue st) j;
    st' ← dispatch_jobs_locked common (set_queue q st);
    Some (true, st').

(** The frame of the client is gone. *)
Definition job_free (j : job) (st : server) : server :=
  set_jobs (delete j (jobs st)) (set_queue (JobQueue (q_head (queue st)) (q_tail (queue st)) (delete j (q_next (queue st)))) st).

Definition find_assigned (j : job) (l : list server_slot) : option nat :=
  fst <$> list_find (λ s, assigned s = Some j) l.

(** The part of [server_cancel_job] under [mu]. *)
Definition cancel_detach (common : nat → job → Z) (j : job) (st : server) : option (bool * server) :=
  match queue_take_first (λ it, if decide (it = j) then Some tt else None) (queue st) with
  | None => None
  | Some (Some _, q) => Some (true, set_queue q st)
  | Some (None, q) =>
      match find_assigned j (slots st) with
      | None => Some (false, set_queue q st)
      | Some i =>
          st' ← dispatch_jobs_locked common (set_slots (alter (set_assigned None false) i (slots st)) (set_queue q st));
          Some (true, st')
      end
  end.

Definition server_cancel_pending_decode_locked (i : nat) (st : server) : bool * server :=
  match slots st !! i with
  | Some s =>
      if decode_pending s && negb (decode_in_flight s) then
        (true, put_slot i (set_decode false (decode_in_flight s) true
                             (set_result DS4_SESSION_SYNC_INTERRUPTED (bs "client disconnected") s))
                 (set_model (set_pending (pending_decodes (model st) - 1) (model st)) st))
      else (false, st)
  | None => (false, st)
  end.

(** The part of [server_cancel_job] under [model_mu]. *)
Definition cancel_model (j : job) (st : server) : server :=
  match list_find (λ s, running s = Some j) (slots st) with
  | Some (i, _) => snd (server_cancel_pending_decode_locked i st)
  | None => st
  end.

(** ** Prefill turns *)

Fixpoint next_prefill_from (l : list server_slot) (last : Z) (n : Z) (todo : nat) : Z :=
  match todo with
  | O => -1
  | S todo' =>
      let id := Z.rem (last + n) (Z.of_nat (length l)) in
      match l !! Z.to_nat id with
      | Some s => if prefill_waiting s then id else next_prefill_from l last (n + 1) todo'
      | None => next_prefill_from l last (n + 1) todo'
      end
  end.

Definition server_next_prefill_slot_locked (l : list server_slot) (last : Z) : Z := next_prefill_from l last 1 (length l).

(** [server_prefill_enter]: the test of its loop, ... *)
Definition prefill_blocked (st : server) (i : nat) : bool :=
  model_busy (model st) || (0 <? pending_decodes (model st))
  || negb (server_next_prefill_slot_locked (slots st) (last_prefill_slot (model st)) =? Z.of_nat i).

(** ... and the turn it takes. *)
Definition prefill_take (st : server) (i : nat) (s : server_slot) : server :=
  put_slot i (set_prefill_waiting false s)
    (set_model (set_model_busy true (set_last_prefill (Z.of_nat i) (model st))) st).

Definition server_prefill_leave (st : server) : server := set_model (set_model_busy false (model st)) st.

Definition server_generation_enter (st : server) : server :=
  set_model (set_active (active_generations (model st) + 1) (model st)) st.

Definition server_generation_leave (st : server) : server :=
  if 0 <? active_generations (model st) then set_model (set_active (active_generations (model st) - 1) (model st)) st else st.

Definition server_prefill_quantum_for (mixed_prefill_quantum : Z) (is_glm53 generation_active : bool) : Z :=
  let quantum := if generation_active then mixed_prefill_quantum else 2048 in
  if generation_active && (quantum <? 1024) && is_glm53 then 1024 else quantum.

(** ** Decoding a token *)

(** [server_eval_token] up to its loop: the error it returns at once, or the slot
    with its token submitted. *)
Definition eval_token_submit (st : server) (i : nat) (s : server_slot) (token : Z) : option (Z * bytes + server) :=
  cancelled ← slot_job_cancelled st s;
  Some (if stop_requested st || cancelled then
          inl (DS4_SESSION_SYNC_INTERRUPTED, if stop_requested st then bs "shutdown requested" else bs "client disconnected")
        else if decode_pending s || decode_in_flight s then inl (1, bs "session already has a decode in flight")
        else inr (put_slot i (set_decode true (decode_in_flight s) false (set_result 1 [] (set_token token s)))
                    (set_model (set_pending (pending_decodes (model st) + 1) (model st)) st))).

(** What it returns after its loop. *)
Definition eval_token_result (st : server) (s : server_slot) : Z * bytes :=
  let rc := if stop_requested st && (decode_rc s =? 0) then DS4_SESSION_SYNC_INTERRUPTED else decode_rc s in
  (rc, if rc =? 0 then []
       else if stop_requested st then bs "shutdown requested"
       else match decode_err s with [] => bs "decode interrupted" | e => e end).

(** The decode thread takes the pending tokens of all slots, in the order of the slots. *)
Fixpoint take_batch (i : nat) (l : list server_slot) (pending : Z) : list server_slot * Z * list (nat * Z) :=
  match l with
  | [] => ([], pending, [])
  | s :: l' =>
      if decode_pending s then
        let '(r, p, items) := take_batch (S i) l' (pending - 1) in
        (set_decode false true (decode_done s) s :: r, p, (i, decode_token s) :: items)
      else let '(r, p, items) := take_batch (S i) l' pending in (s :: r, p, items)
  end.

(** The result of the batch for one member, and for all. *)
Definition batch_result (rc : Z) (batch_err : bytes) (s : server_slot) : server_slot :=
  let s := set_decode (decode_pending s) false true s in
  set_result rc (if rc =? 0 then decode_err s else match batch_err with [] => bs "batched decode failed" | e => e end) s.

Definition finish_batch (rc : Z) (batch_err : bytes) (members : list nat) (l : list server_slot) : list server_slot :=
  foldl (λ l i, alter (batch_result rc batch_err) i l) l members.

(** The [server_eval_token] loop withdraws the token of a cancelled job. *)
Definition eval_token_withdraw (st : server) (i : nat) (cancelled : bool) : option server :=
  match server_cancel_pending_decode_locked i st with
  | (true, st') =>
      s ← slots st' !! i;
      Some (if cancelled then st' else put_slot i (set_result (decode_rc s) (bs "shutdown requested") s) st')
  | (false, _) => None
  end.

(** ** Steps *)

Inductive label :=
  | LClient
  | LServer
  | LGrant (i : nat).

(** The worker of slot [i] is at [w]. *)
Definition at_worker (st : server) (i : nat) (s : server_slot) (w : worker) : Prop := slots st !! i = Some s ∧ sl_worker s = w.

Definition common_ok (common : nat → job → Z) : Prop := ∀ i j, 0 <= common i j <= INT_MAX.

Inductive client_step : server → server → Prop :=
  (* client_main: the job is created and queued, or refused and released *)
  | step_arrive st j r common st' : jobs st !! j = None → common_ok common →
      enqueue common j (job_create j r st) = Some (true, st') → client_step st st'
  | step_refused st j r common st' : jobs st !! j = None → common_ok common →
      enqueue common j (job_create j r st) = Some (false, st') → client_step st (job_free j st')
  (* server_cancel_job, in its parts *)
  | step_mark st j js st' : jobs st !! j = Some js → j_client js = CWaiting →
      job_mark_cancelled (put_job j (set_client CCut js) st) j = Some st' → client_step st st'
  | step_detach st j js common detached st' : jobs st !! j = Some js → j_client js = CCut → common_ok common →
      cancel_detach common j (put_job j (set_client (CModel detached) js) st) = Some (detached, st') → client_step st st'
  | step_model st j js detached : jobs st !! j = Some js → j_client js = CModel detached →
      client_step st (put_job j (set_client (if detached then CComplete else CWaiting) js) (cancel_model j st))
  | step_complete_detached st j js st' : jobs st !! j = Some js → j_client js = CComplete →
      job_complete (put_job j (set_client CWaiting js) st) j = Some st' → client_step st st'
  (* wait_for_job_or_disconnect returns *)
  | step_release st j js : jobs st !! j = Some js → j_client js = CWaiting → j_done js = true → client_step st (job_free j st)
  (* a write to the client fails: the worker marks the job *)
  | step_write_failed st i s j gen a st' : at_worker st i s (WRun j gen a) → job_mark_cancelled st j = Some st' → client_step st st'
  (* stop_signal_handler, server_request_worker_stop, server_request_decode_stop *)
  | step_signal st : client_step st (set_stop_requested true st)
  | step_stop_workers st common st' : common_ok common → dispatch_jobs_locked common (set_stopping true st) = Some st' → client_step st st'
  | step_stop_decode st : Forall (λ s, sl_worker s = WExited) (slots st) → client_step st (set_model (set_model_stopping true (model st)) st).

Inductive worker_step : label → server → server → Prop :=
  (* slot_worker_main *)
  | step_take st i s j : at_worker st i s WIdle → assigned s = Some j →
      worker_step LServer st (put_slot i (set_worker (WTaken j) (set_assigned None (busy s) s)) st)
  | step_exit st i s : at_worker st i s WIdle → assigned s = None → stopping st = true → q_head (queue st) = None →
      worker_step LServer st (put_slot i (set_worker WExited s) st)
  | step_begin st i s j : at_worker st i s (WTaken j) →
      worker_step LServer st (put_slot i (set_worker (WRun j false Working) (set_running (Some j) s)) st)
  | step_end st i s j : at_worker st i s (WRun j false Working) →
      worker_step LServer st (put_slot i (set_worker (WDone j) (if decide (running s = Some j) then set_running None s else s)) st)
  | step_complete st i s j st' : at_worker st i s (WDone j) → job_complete st j = Some st' →
      worker_step LServer st (put_slot i (set_worker WAfter s) st')
  | step_after st i s common st' : at_worker st i s WAfter → common_ok common →
      dispatch_jobs_locked common (put_slot i (set_worker WIdle (set_assigned (assigned s) false s)) st) = Some st' →
      worker_step LServer st st'
  (* generate_job_inner *)
  | step_generation_enter st i s j : at_worker st i s (WRun j false Working) →
      worker_step LServer st (put_slot i (set_worker (WRun j true Working) s) (server_generation_enter st))
  | step_generation_leave st i s j : at_worker st i s (WRun j true Working) →
      worker_step LServer st (put_slot i (set_worker (WRun j false Working) s) (server_generation_leave st))
  | step_live st i s j gen live : at_worker st i s (WRun j gen Working) →
      worker_step LServer st (put_slot i (set_live live s) st)
  | step_prefill_ask st i s j gen : at_worker st i s (WRun j gen Working) → slot_job_cancelled st s = Some false →
      worker_step LServer st (put_slot i (set_worker (WRun j gen PrefillWait) (set_prefill_waiting true s)) st)
  | step_prefill_grant st i s j gen : at_worker st i s (WRun j gen PrefillWait) → stop_requested st = false →
      slot_job_cancelled st s = Some false → prefill_blocked st i = false →
      worker_step (LGrant i) st (prefill_take st i (set_worker (WRun j gen Prefilling) s))
  | step_prefill_refuse st i s j gen c : at_worker st i s (WRun j gen PrefillWait) → slot_job_cancelled st s = Some c →
      stop_requested st || c = true →
      worker_step LServer st (put_slot i (set_worker (WRun j gen Working) (set_prefill_waiting false s)) st)
  | step_prefill_leave st i s j gen : at_worker st i s (WRun j gen Prefilling) →
      worker_step LServer st (put_slot i (set_worker (WRun j gen Working) s) (server_prefill_leave st))
  | step_decode_submit st i s j gen token st' : at_worker st i s (WRun j gen Working) →
      eval_token_submit st i (set_worker (WRun j gen DecodeWait) s) token = Some (inr st') → worker_step LServer st st'
  | step_decode_withdraw st i s j gen c st' s' : at_worker st i s (WRun j gen DecodeWait) → decode_done s = false →
      slot_job_cancelled st s = Some c → stop_requested st || c = true → eval_token_withdraw st i c = Some st' → slots st' !! i = Some s' →
      worker_step LServer st (put_slot i (set_worker (WRun j gen Working) (set_decode (decode_pending s') (decode_in_flight s') false s')) st')
  | step_decode_return st i s j gen : at_worker st i s (WRun j gen DecodeWait) → decode_done s = true →
      worker_step LServer st (put_slot i (set_worker (WRun j gen Working) (set_decode (decode_pending s) (decode_in_flight s) false s)) st)
  (* decode_worker_main *)
  | step_batch_take st l pending item items : decoder (model st) = DWait → pending_decodes (model st) ≠ 0 → model_busy (model st) = false →
      take_batch 0 (slots st) (pending_decodes (model st)) = (l, pending, item :: items) →
      worker_step LServer st (set_slots l (set_model (set_decoder (DBatch (fst <$> item :: items)) (set_model_busy true (set_pending pending (model st)))) st))
  | step_batch_finish st members rc err : decoder (model st) = DBatch members →
      worker_step LServer st (set_slots (finish_batch rc err members (slots st)) (set_model (set_decoder DWait (set_model_busy false (model st))) st))
  | step_decode_exit st : decoder (model st) = DWait → pending_decodes (model st) = 0 → model_stopping (model st) = true →
      worker_step LServer st (set_model (set_decoder DExited (model st)) st).

Inductive step : label → server → server → Prop :=
  | client_moves st st' : client_step st st' → step LClient st st'
  | server_moves l st st' : worker_step l st st' → step l st st'.

Definition any_step (st st' : server) : Prop := ∃ l, step l st st'.

(** The states the server can be in. *)
Definition reachable (n : nat) (st : server) : Prop := rtc any_step (server_start n) st.
