(* ===== verification/SchedulerInv.v ===== *)
(** * What the scheduler keeps true

    The invariant of the batched scheduler: every job that is not done is in exactly
    one place, the counters of the model count what they say, one thread at most owns
    the model, and a waiting job has a busy slot to wait for.

    Which job gets which slot, that the loop of [dispatch_jobs_locked] ends, and
    that it keeps the invariant of the scheduler. *)
From S2P Require Import Prelude CLib KvHeader KvCache Json Request Stream ToolText ToolMemory ToolMap LiveState JobQueue Scheduler.

(** ** Counting over the slots *)

Definition cnt (f : server_slot → bool) (sl : list server_slot) : Z := sumZ ((λ s, Z.b2z (f s)) <$> sl).

Lemma cnt_insert f sl i s s' : sl !! i = Some s → cnt f (<[i := s']> sl) = cnt f sl - Z.b2z (f s) + Z.b2z (f s').
Proof.
  intros Hi. unfold cnt. rewrite insert_take_drop by (by eapply lookup_lt_Some). rewrite <- (take_drop_middle sl i s Hi) at 3.
  rewrite !fmap_app, !fmap_cons, !sumZ_app. unfold sumZ. cbn [foldr]. lia.
Qed.

Lemma cnt_nonneg f sl : 0 <= cnt f sl.
Proof. apply sumZ_nonneg, Forall_fmap, Forall_true. intros s. cbn. destruct (f s); cbn; lia. Qed.

Lemma cnt_pos f sl : 0 < cnt f sl → ∃ i s, sl !! i = Some s ∧ f s = true.
Proof.
  induction sl as [|s sl IH]; [cbn; lia|]. unfold cnt. cbn. destruct (f s) eqn:E; [by exists 0%nat, s|].
  intros H. destruct IH as (i & x & Hi & Hx); [cbn in H; unfold cnt, sumZ; lia|]. by exists (S i), x.
Qed.

Lemma cnt_elem f sl i s : sl !! i = Some s → f s = true → 0 < cnt f sl.
Proof.
  intros Hi Hf. pose proof (cnt_insert f sl i s s Hi) as E. rewrite list_insert_id in E by done.
  assert (H : cnt f sl = cnt f (take i sl) + (1 + cnt f (drop (S i) sl))).
  { rewrite <- (take_drop_middle sl i s Hi) at 1. unfold cnt. rewrite fmap_app, fmap_cons, sumZ_app. unfold sumZ. cbn [foldr]. rewrite Hf. cbn. lia. }
  pose proof (cnt_nonneg f (take i sl)). pose proof (cnt_nonneg f (drop (S i) sl)). lia.
Qed.

Lemma cnt_ext f g sl : Forall (λ s, f s = g s) sl → cnt f sl = cnt g sl.
Proof. unfold cnt. induction 1 as [|s sl E _ IH]; [done|]. rewrite !fmap_cons. unfold sumZ in *. cbn [foldr]. rewrite E, IH. done. Qed.

(** ** References to jobs *)

Definition worker_refs (w : worker) : list job :=
  match w with WTaken j | WRun j _ _ | WDone j => [j] | _ => [] end.

Definition slot_refs (s : server_slot) : list job := option_list (assigned s) ++ worker_refs (sl_worker s).

(** All the places a job can be in. *)
Definition refs (l : list job) (sl : list server_slot) : list job := l ++ (sl ≫= slot_refs).

Definition job_detached (js : job_state) : bool := match j_client js with CModel true | CComplete => true | _ => false end.
Definition open_job (js : job_state) : bool := negb (j_done js) && negb (job_detached js).

Lemma refs_insert sl i s s' : sl !! i = Some s → ∃ r, (sl ≫= slot_refs) ≡ₚ slot_refs s ++ r ∧ (<[i := s']> sl ≫= slot_refs) ≡ₚ slot_refs s' ++ r.
Proof.
  intros Hi. exists ((take i sl ++ drop (S i) sl) ≫= slot_refs). rewrite insert_take_drop by (by eapply lookup_lt_Some).
  rewrite <- (take_drop_middle sl i s Hi) at 1. rewrite !bind_app, !bind_cons. split; solve_Permutation.
Qed.

Lemma refs_insert_same sl i s s' : sl !! i = Some s → slot_refs s' = slot_refs s → (<[i := s']> sl ≫= slot_refs) = (sl ≫= slot_refs).
Proof.
  intros Hi E. rewrite insert_take_drop by (by eapply lookup_lt_Some). rewrite <- (take_drop_middle sl i s Hi) at 3.
  by rewrite !bind_app, !bind_cons, E.
Qed.

Lemma refs_elem sl i s j : sl !! i = Some s → j ∈ slot_refs s → j ∈ (sl ≫= slot_refs).
Proof. intros Hi Hj. apply list_elem_of_bind. exists s. split; [done|]. by eapply list_elem_of_lookup_2. Qed.

(** ** The invariant *)

Record jobs_inv (q : job_queue) (js : gmap job job_state) (l : list job) (sl : list server_slot) : Prop := JobsInv {
  ji_queue : queue_is q l;
  ji_dom : dom (q_next q) = dom js;
  ji_once : NoDup (refs l sl);
  ji_open : ∀ j, j ∈ refs l sl ↔ ∃ x, js !! j = Some x ∧ open_job x = true;
  ji_detached : ∀ j x, js !! j = Some x → job_detached x = true → j_done x = false;
}.

Definition flags (s : server_slot) : bool * bool * bool * bool :=
  (prefill_waiting s, decode_pending s, decode_in_flight s, decode_done s).

Definition activity_flags (a : activity) (f : bool * bool * bool * bool) : Prop :=
  match a with
  | Working | Prefilling => f = (false, false, false, false)
  | PrefillWait => f = (true, false, false, false)
  | DecodeWait => f = (false, true, false, false) ∨ f = (false, false, true, false) ∨ f = (false, false, false, true)
  end.

Definition slot_ok (s : server_slot) : Prop :=
  match sl_worker s with
  | WIdle => busy s = bool_decide (is_Some (assigned s)) ∧ running s = None ∧ activity_flags Working (flags s)
  | WTaken _ | WDone _ | WAfter => assigned s = None ∧ busy s = true ∧ running s = None ∧ activity_flags Working (flags s)
  | WExited => assigned s = None ∧ busy s = false ∧ running s = None ∧ activity_flags Working (flags s)
  | WRun j _ a => assigned s = None ∧ busy s = true ∧ running s = Some j ∧ activity_flags a (flags s)
  end.

Definition generating (s : server_slot) : bool := match sl_worker s with WRun _ g _ => g | _ => false end.
Definition owns_model (s : server_slot) : bool := match sl_worker s with WRun _ _ Prefilling => true | _ => false end.
Definition exited (s : server_slot) : bool := match sl_worker s with WExited => true | _ => false end.

Definition members (d : decode_worker) : list nat := match d with DBatch ms => ms | _ => [] end.
Definition in_batch (d : decode_worker) : bool := match d with DBatch _ => true | _ => false end.

Record model_inv (n : nat) (sl : list server_slot) (m : model_state) : Prop := ModelInv {
  mi_len : length sl = n;
  mi_slots : Forall slot_ok sl;
  mi_pending : pending_decodes m = cnt decode_pending sl;
  mi_active : active_generations m = cnt generating sl;
  mi_owner : cnt owns_model sl + Z.b2z (in_batch (decoder m)) = Z.b2z (model_busy m);
  mi_flight : ∀ i s, sl !! i = Some s → decode_in_flight s = bool_decide (i ∈ members (decoder m));
  mi_last : 0 <= last_prefill_slot m < Z.of_nat n;
  mi_exited : decoder m = DExited ∨ model_stopping m = true → Forall (λ s, exited s = true) sl;
}.

Record queue_inv (l : list job) (sl : list server_slot) (stop : bool) : Prop := QueueInv {
  qi_busy : l ≠ [] → 0 < cnt busy sl;
  qi_exited : 0 < cnt exited sl → l = [] ∧ stop = true;
}.

Definition inv (n : nat) (l : list job) (st : server) : Prop :=
  jobs_inv (queue st) (jobs st) l (slots st) ∧ model_inv n (slots st) (model st) ∧ queue_inv l (slots st) (stopping st).

Definition sched_inv (n : nat) (st : server) : Prop := ∃ l, inv n l st.

(** ** A step of one worker *)

Lemma jobs_inv_same q js l sl i s s' : jobs_inv q js l sl → sl !! i = Some s → slot_refs s' = slot_refs s → jobs_inv q js l (<[i := s']> sl).
Proof. intros [] Hi E. unfold refs in *. split; unfold refs; rewrite ?(refs_insert_same sl i s s' Hi E); done. Qed.

(** The model after the slot [s] became [s']. *)
Record model_moves (m m' : model_state) (s s' : server_slot) : Prop := ModelMoves {
  mm_decoder : decoder m' = decoder m;
  mm_stopping : model_stopping m' = model_stopping m;
  mm_pending : pending_decodes m' = pending_decodes m - Z.b2z (decode_pending s) + Z.b2z (decode_pending s');
  mm_active : active_generations m' = active_generations m - Z.b2z (generating s) + Z.b2z (generating s');
  mm_owner : Z.b2z (model_busy m') = Z.b2z (model_busy m) - Z.b2z (owns_model s) + Z.b2z (owns_model s');
}.

Lemma model_inv_put n sl m m' i s s' : model_inv n sl m → sl !! i = Some s → slot_ok s' → (exited s = true → exited s' = true) →
  decode_in_flight s' = decode_in_flight s → model_moves m m' s s' → 0 <= last_prefill_slot m' < Z.of_nat n → model_inv n (<[i := s']> sl) m'.
Proof.
  intros [] Hi Hok Hx Hf [] Hl. split; [by rewrite length_insert|by apply Forall_insert|rewrite (cnt_insert _ _ _ _ _ Hi), ?mm_decoder0; lia..| |done|].
  - intros k t. rewrite mm_decoder0. destruct (decide (i = k)) as [<-|Hik].
    + rewrite list_lookup_insert_eq by (by eapply lookup_lt_Some). intros [= <-]. rewrite Hf. by apply mi_flight0.
    + rewrite list_lookup_insert_ne by done. apply mi_flight0.
  - rewrite mm_decoder0, mm_stopping0. intros H. specialize (mi_exited0 H). apply Forall_insert; [done|]. apply Hx.
    by eapply (Forall_lookup_1 _ _ _ _ mi_exited0).
Qed.

Lemma queue_inv_put l sl stop i s s' : queue_inv l sl stop → sl !! i = Some s → busy s' = busy s → exited s' = exited s → queue_inv l (<[i := s']> sl) stop.
Proof. intros [] Hi Hb Hx. split; rewrite (cnt_insert _ _ _ _ _ Hi), ?Hb, ?Hx, Z.sub_add; done. Qed.

Lemma inv_put n l st i s s' m' : inv n l st → slots st !! i = Some s → slot_ok s' →
  slot_refs s' = slot_refs s → busy s' = busy s → exited s' = exited s → decode_in_flight s' = decode_in_flight s →
  model_moves (model st) m' s s' → 0 <= last_prefill_slot m' < Z.of_nat n → inv n l (put_slot i s' (set_model m' st)).
Proof.
  intros (Hj & Hm & Hq) Hi Hok Hr Hb Hx Hf Hmm Hl.
  split_and!; [by eapply jobs_inv_same| |by eapply queue_inv_put]. eapply model_inv_put; [done|done|done| |done|done|done]. by rewrite Hx.
Qed.

Lemma slot_at n l st i s w : inv n l st → at_worker st i s w → slots st !! i = Some s ∧ slot_ok s ∧ sl_worker s = w.
Proof. intros (_ & Hm & _) [Hi Hw]. split_and!; [done| |done]. by eapply (Forall_lookup_1 _ _ _ _ (mi_slots _ _ _ Hm)). Qed.

Lemma put_slot_model i s st : put_slot i s st = put_slot i s (set_model (model st) st).
Proof. by destruct st. Qed.

Lemma inv_last n l st : inv n l st → 0 <= last_prefill_slot (model st) < Z.of_nat n.
Proof. intros (_ & [] & _). done. Qed.

(** Opens a slot whose worker is known. *)
Ltac open_slot s Hok Hw :=
  destruct s as [lv asg run bsy pw dp df dd tok rc er w]; cbn in Hw; subst w; unfold slot_ok in Hok; cbn in Hok;
  unfold flags in Hok; cbn in Hok; destruct_and?; simplify_eq.

(** What remains after [inv_put]: every field is concrete. *)
Ltac local_fields :=
  first [done | cbn; done
        | (cbn; split; cbn; repeat match goal with H : model_busy _ = _ |- _ => rewrite H; cbn end; first [done | lia])
        | (split_and!; cbn; done) | cbn; lia].

(** A worker step that leaves the references to jobs in the slot. *)
Ltac local_step Hinv Hat s :=
  let Hi := fresh "Hi" in let Hok := fresh "Hok" in let Hw := fresh "Hw" in
  destruct (slot_at _ _ _ _ _ _ Hinv Hat) as (Hi & Hok & Hw);
  pose proof (inv_last _ _ _ Hinv) as Hlast; open_slot s Hok Hw.

Ltac solve_local Hinv Hat s :=
  local_step Hinv Hat s; eapply inv_put; [exact Hinv|eassumption|..]; local_fields.

Lemma generation_leave_inv n l st i s j : inv n l st → at_worker st i s (WRun j true Working) →
  inv n l (put_slot i (set_worker (WRun j false Working) s) (server_generation_leave st)).
Proof.
  intros Hinv Hat. local_step Hinv Hat s. assert (0 < active_generations (model st)).
  { destruct Hinv as (_ & [] & _). rewrite mi_active0. by eapply cnt_elem. }
  unfold server_generation_leave. rewrite (proj2 (Z.ltb_lt _ _)) by done. eapply inv_put; [exact Hinv|exact Hi|..]; local_fields.
Qed.

Lemma prefill_grant_inv n l st i s j gen : inv n l st → at_worker st i s (WRun j gen PrefillWait) → prefill_blocked st i = false →
  inv n l (prefill_take st i (set_worker (WRun j gen Prefilling) s)).
Proof.
  intros Hinv Hat Hb. local_step Hinv Hat s. unfold prefill_blocked in Hb. bool_to_prop.
  pose proof (lookup_lt_Some _ _ _ Hi). assert (length (slots st) = n) by (by destruct Hinv as (_ & [] & _)).
  eapply inv_put; [exact Hinv|exact Hi|..]; local_fields.
Qed.

Lemma prefill_leave_inv n l st i s j gen : inv n l st → at_worker st i s (WRun j gen Prefilling) →
  inv n l (put_slot i (set_worker (WRun j gen Working) s) (server_prefill_leave st)).
Proof.
  intros Hinv Hat. local_step Hinv Hat s. assert (model_busy (model st) = true) as Hb.
  { destruct Hinv as (_ & [] & _). assert (0 < cnt owns_model (slots st)) by (by eapply cnt_elem).
    destruct (model_busy (model st)); [done|]. destruct (in_batch (decoder (model st))); cbn in *; lia. }
  eapply inv_put; [exact Hinv|exact Hi|..]; local_fields.
Qed.

Lemma end_inv n l st i s j : inv n l st → at_worker st i s (WRun j false Working) →
  inv n l (put_slot i (set_worker (WDone j) (if decide (running s = Some j) then set_running None s else s)) st).
Proof.
  intros Hinv Hat. rewrite put_slot_model. local_step Hinv Hat s. cbn [running]. rewrite decide_True by done.
  eapply inv_put; [exact Hinv|exact Hi|..]; local_fields.
Qed.

Lemma take_inv n l st i s j : inv n l st → at_worker st i s WIdle → assigned s = Some j →
  inv n l (put_slot i (set_worker (WTaken j) (set_assigned None (busy s) s)) st).
Proof.
  intros Hinv Hat Ha. rewrite put_slot_model. local_step Hinv Hat s. cbn in Ha. subst asg.
  eapply inv_put; [exact Hinv|exact Hi|..]; local_fields.
Qed.

Lemma submit_inv n l st i s j gen token st' : inv n l st → at_worker st i s (WRun j gen Working) →
  eval_token_submit st i (set_worker (WRun j gen DecodeWait) s) token = Some (inr st') → inv n l st'.
Proof.
  intros Hinv Hat Hs. local_step Hinv Hat s. unfold eval_token_submit in Hs.
  destruct (slot_job_cancelled st _) as [c|]; [|done]. cbn [mbind option_bind] in Hs. destruct (stop_requested st || c); [done|].
  cbn in Hs. apply (inj Some), (inj inr) in Hs. subst st'. eapply inv_put; [exact Hinv|exact Hi|..]; try local_fields.
  split_and!; cbn; [done..|]. by left.
Qed.

(** A pending token is withdrawn: the counter follows. *)
Lemma withdraw_inv n l st i : inv n l st → inv n l (snd (server_cancel_pending_decode_locked i st)).
Proof.
  intros Hinv. unfold server_cancel_pending_decode_locked. destruct (slots st !! i) as [s|] eqn:Hi; [|done].
  destruct (decode_pending s && negb (decode_in_flight s)) eqn:E; [|done]. cbn [snd].
  pose proof (inv_last _ _ _ Hinv). assert (Hok : slot_ok s) by (destruct Hinv as (_ & [] & _); by eapply Forall_lookup_1).
  destruct s as [lv asg run bsy pw dp df dd tok rc er w]. cbn in E. apply andb_true_iff in E as [-> ->%negb_true_iff].
  unfold slot_ok in Hok. cbn in Hok. unfold flags in Hok. cbn in Hok.
  destruct w as [|?|k g []|?| |]; cbn in Hok; try (destruct_and?; simplify_eq; done).
  destruct Hok as (-> & -> & -> & Hf). assert (pw = false ∧ dd = false) as [-> ->] by naive_solver.
  eapply inv_put; [exact Hinv|exact Hi|..]; try local_fields. split_and!; cbn; [done..|]. right. by right.
Qed.

Lemma cancel_model_inv n l st j : inv n l st → inv n l (cancel_model j st).
Proof. intros Hinv. unfold cancel_model. destruct (list_find _ _) as [[i s]|]; [by apply withdraw_inv|done]. Qed.

Lemma return_inv n l st i s j gen : inv n l st → at_worker st i s (WRun j gen DecodeWait) → decode_done s = true →
  inv n l (put_slot i (set_worker (WRun j gen Working) (set_decode (decode_pending s) (decode_in_flight s) false s)) st).
Proof.
  intros Hinv Hat Hd. rewrite put_slot_model. local_step Hinv Hat s. cbn in Hd. subst dd.
  assert (pw = false ∧ dp = false ∧ df = false) as (-> & -> & ->) by naive_solver.
  eapply inv_put; [exact Hinv|exact Hi|..]; local_fields.
Qed.

(** A slot whose result is overwritten keeps all else. *)
Lemma result_inv n l st i s rc err : inv n l st → slots st !! i = Some s → inv n l (put_slot i (set_result rc err s) st).
Proof.
  intros Hinv Hi. rewrite put_slot_model. pose proof (inv_last _ _ _ Hinv).
  assert (Hok : slot_ok s) by (destruct Hinv as (_ & [] & _); by eapply Forall_lookup_1). destruct s.
  eapply inv_put; [exact Hinv|exact Hi|done..| |done]. split; cbn; unfold generating, owns_model; cbn; first [done|lia].
Qed.

Lemma cancel_pending_at st i st' : server_cancel_pending_decode_locked i st = (true, st') →
  ∃ s, slots st !! i = Some s ∧ slots st' !! i = Some (set_decode false (decode_in_flight s) true
    (set_result DS4_SESSION_SYNC_INTERRUPTED (bs "client disconnected") s)).
Proof.
  unfold server_cancel_pending_decode_locked. destruct (slots st !! i) as [s|] eqn:Hi; [|done].
  destruct (decode_pending s && _); [|done]. intros [= <-]. exists s. split; [done|]. cbn [slots put_slot set_slots set_model].
  by rewrite list_lookup_insert_eq by (by eapply lookup_lt_Some).
Qed.

Lemma eval_withdraw_inv n l st i s j gen c st' s' : inv n l st → at_worker st i s (WRun j gen DecodeWait) →
  eval_token_withdraw st i c = Some st' → slots st' !! i = Some s' →
  inv n l (put_slot i (set_worker (WRun j gen Working) (set_decode (decode_pending s') (decode_in_flight s') false s')) st').
Proof.
  intros Hinv [Hi Hw] Hs Hi'. unfold eval_token_withdraw in Hs.
  destruct (server_cancel_pending_decode_locked i st) as [[] st1] eqn:E; [|done].
  pose proof (withdraw_inv n l st i Hinv) as H1. rewrite E in H1. cbn [snd] in H1.
  apply cancel_pending_at in E as (t & Ht & Ht'). simplify_eq. rewrite Ht' in Hs. cbn [mbind option_bind] in Hs. apply (inj Some) in Hs.
  assert (Hst' : inv n l st' ∧ at_worker st' i s' (WRun j gen DecodeWait) ∧ decode_done s' = true).
  { destruct c; subst st'.
    - rewrite Ht' in Hi'. apply (inj Some) in Hi'. subst s'. done.
    - cbn in Hi'. rewrite list_lookup_insert_eq in Hi' by (by eapply lookup_lt_Some). apply (inj Some) in Hi'. subst s'.
      split; [by eapply result_inv|]. split; [|done]. split; [|done]. cbn. by rewrite list_lookup_insert_eq by (by eapply lookup_lt_Some). }
  destruct Hst' as (? & ? & ?). by apply return_inv.
Qed.

(** ** A step of the decode thread *)

(** The slots change, their workers and jobs do not. *)
Definition same_place (s s' : server_slot) : Prop := assigned s' = assigned s ∧ sl_worker s' = sl_worker s ∧ busy s' = busy s.

Lemma same_place_refs sl sl' : Forall2 same_place sl sl' → (sl' ≫= slot_refs) = (sl ≫= slot_refs).
Proof.
  induction 1 as [|s s' sl sl' (Ha & Hw & _) _ IH]; [done|]. rewrite !bind_cons, IH. unfold slot_refs. by rewrite Ha, Hw.
Qed.

Lemma cnt_place f sl sl' : (∀ s s', same_place s s' → f s' = f s) → Forall2 same_place sl sl' → cnt f sl' = cnt f sl.
Proof. intros Hf. unfold cnt, sumZ. induction 1 as [|s s' sl sl' H _ IH]; [done|]. cbn. by rewrite (Hf s s' H), IH. Qed.

Lemma place_counts sl sl' : Forall2 same_place sl sl' →
  cnt busy sl' = cnt busy sl ∧ cnt exited sl' = cnt exited sl ∧ cnt generating sl' = cnt generating sl ∧ cnt owns_model sl' = cnt owns_model sl.
Proof.
  intros H. split_and!; (apply cnt_place; [|done]); intros s s' (_ & Hw & Hb); unfold exited, generating, owns_model; by rewrite ?Hw.
Qed.

Lemma place_inv n l st sl m : inv n l st → Forall2 same_place (slots st) sl → model_inv n sl m → inv n l (set_slots sl (set_model m st)).
Proof.
  intros ([] & _ & []) H Hm. pose proof (place_counts _ _ H) as (Eb & Ex & _). pose proof (same_place_refs _ _ H) as Er.
  split_and!; [|done|].
  - split; cbn; unfold refs in *; rewrite ?Er; done.
  - split; cbn [slots set_slots stopping set_model]; by rewrite ?Eb, ?Ex.
Qed.

Definition batch_slot (s : server_slot) : server_slot := if decode_pending s then set_decode false true (decode_done s) s else s.

Lemma take_batch_spec l : ∀ i p,
  let '(l', p', items) := take_batch i l p in
  l' = batch_slot <$> l ∧ p' = p - cnt decode_pending l
  ∧ ∀ x, x ∈ items.*1 ↔ ∃ k s, x = (i + k)%nat ∧ l !! k = Some s ∧ decode_pending s = true.
Proof.
  induction l as [|s l IH]; intros i p; cbn [take_batch].
  { split_and!; [done|unfold cnt; cbn; lia|]. intros x. split; [by intros ?%elem_of_nil|]. by intros (? & ? & _ & ? & _). }
  assert (Hx : ∀ x, (∃ k t, x = (i + k)%nat ∧ (s :: l) !! k = Some t ∧ decode_pending t = true)
    ↔ (x = i ∧ decode_pending s = true) ∨ ∃ k t, x = (S i + k)%nat ∧ l !! k = Some t ∧ decode_pending t = true).
  { intros x. split.
    - intros ([|k] & t & -> & Ht & Hp); cbn in Ht; [simplify_eq; left; split; [lia|done]|right; exists k, t; split; [lia|done]].
    - intros [[-> Hp]|(k & t & -> & Ht & Hp)]; [exists 0%nat, s; split; [lia|done]|exists (S k), t; split; [lia|done]]. }
  unfold cnt, sumZ in *. cbn [fmap list_fmap foldr]. unfold batch_slot at 1. destruct (decode_pending s) eqn:E.
  - specialize (IH (S i) (p - 1)). destruct (take_batch (S i) l (p - 1)) as [[r q] items]. destruct IH as (-> & -> & IH).
    split_and!; [done|cbn; lia|]. intros x. rewrite Hx. cbn [fmap list_fmap]. rewrite elem_of_cons, IH. naive_solver.
  - specialize (IH (S i) p). destruct (take_batch (S i) l p) as [[r q] items]. destruct IH as (-> & -> & IH).
    split_and!; [done|cbn; lia|]. intros x. rewrite Hx, IH. naive_solver.
Qed.

Lemma batch_slot_ok s : slot_ok s → decode_in_flight s = false → slot_ok (batch_slot s) ∧ same_place s (batch_slot s)
  ∧ decode_pending (batch_slot s) = false ∧ decode_in_flight (batch_slot s) = decode_pending s.
Proof.
  intros Hok Hf. unfold batch_slot. destruct (decode_pending s) eqn:E; [|done]. split_and!; [|done..].
  destruct s as [lv asg run bsy pw dp df dd tok rc er w]. cbn in E, Hf. subst dp df. unfold slot_ok, flags in *. cbn in *.
  destruct w as [|?|k g []|?| |]; cbn in *; naive_solver.
Qed.

Lemma batch_take_inv n l st sl pending item items : inv n l st → decoder (model st) = DWait → model_busy (model st) = false →
  take_batch 0 (slots st) (pending_decodes (model st)) = (sl, pending, item :: items) →
  inv n l (set_slots sl (set_model (set_decoder (DBatch (fst <$> item :: items)) (set_model_busy true (set_pending pending (model st)))) st)).
Proof.
  intros Hinv Hd Hb Ht. pose proof (take_batch_spec (slots st) 0 (pending_decodes (model st))) as H. rewrite Ht in H. destruct H as (-> & -> & Hx).
  destruct Hinv as (Hj & Hm & Hq) eqn:Einv. clear Einv. pose proof Hm as [].
  assert (Hnf : ∀ i s, slots st !! i = Some s → slot_ok s ∧ decode_in_flight s = false).
  { intros i s Hi. split; [by eapply Forall_lookup_1|]. rewrite (mi_flight0 i s Hi), Hd. by apply bool_decide_eq_false, not_elem_of_nil. }
  assert (Hp : Forall2 same_place (slots st) (batch_slot <$> slots st)).
  { apply Forall2_fmap_r, Forall_Forall2_diag, Forall_lookup. intros i s Hi. by apply batch_slot_ok; apply (Hnf i s). }
  assert (H0 : cnt decode_pending (batch_slot <$> slots st) = 0).
  { unfold cnt. rewrite <- list_fmap_compose. clear -Hnf. induction (slots st) as [|s sl IH]; [done|]. unfold sumZ in *. cbn.
    destruct (Hnf 0%nat s eq_refl) as [Hok Hf]. destruct (batch_slot_ok s Hok Hf) as (_ & _ & E & _).
    rewrite E, IH; [done|]. intros i. apply (Hnf (S i)). }
  apply place_inv; [done|done|]. pose proof (place_counts _ _ Hp) as (_ & Ex & Eg & Eo). split; cbn -[fmap].
  - by rewrite length_fmap.
  - apply Forall_fmap, Forall_lookup. intros i s Hi. by apply batch_slot_ok; apply (Hnf i s).
  - rewrite H0, mi_pending0. lia.
  - by rewrite Eg.
  - rewrite Eo. rewrite Hd, Hb in mi_owner0. cbn in mi_owner0 |- *. lia.
  - intros i s'. rewrite list_lookup_fmap, fmap_Some. intros (s & Hi & ->). destruct (Hnf i s Hi) as [Hok Hf].
    destruct (batch_slot_ok s Hok Hf) as (_ & _ & _ & ->). apply eq_bool_prop_intro. rewrite bool_decide_spec, Hx. cbn [Nat.add].
    split; [intros H; exists i, s; split; [done|split; [done|by apply Is_true_true]]|]. intros (k & t & -> & Hi' & Hp'). rewrite Hi in Hi'. simplify_eq. by apply Is_true_true.
  - done.
  - intros [?|Hs]; [done|]. apply Forall_fmap. eapply Forall_impl; [apply mi_exited0; by right|]. intros s. unfold batch_slot. cbn. by destruct (decode_pending s).
Qed.

Lemma batch_result_idem rc err s : batch_result rc err (batch_result rc err s) = batch_result rc err s.
Proof. unfold batch_result. destruct s. cbn. by destruct (rc =? 0). Qed.

Lemma finish_batch_lookup rc err ms : ∀ sl k, finish_batch rc err ms sl !! k = (if bool_decide (k ∈ ms) then batch_result rc err <$> sl !! k else sl !! k).
Proof.
  unfold finish_batch. induction ms as [|i ms IH]; intros sl k; cbn [foldl]; [by rewrite bool_decide_false by apply not_elem_of_nil|].
  rewrite IH. destruct (decide (k = i)) as [->|Hk].
  - rewrite list_lookup_alter_eq, (bool_decide_true (i ∈ i :: ms)) by (by left). case_bool_decide; [|done].
    destruct (sl !! i); cbn; [|done]. by rewrite batch_result_idem.
  - rewrite list_lookup_alter_ne by done. assert (k ∈ i :: ms ↔ k ∈ ms) by (rewrite elem_of_cons; naive_solver).
    by repeat case_bool_decide; try naive_solver.
Qed.

Lemma finish_batch_length rc err ms sl : length (finish_batch rc err ms sl) = length sl.
Proof. unfold finish_batch. revert sl. induction ms as [|i ms IH]; intros sl; [done|]. cbn. by rewrite IH, length_alter. Qed.

Lemma batch_finish_inv n l st ms rc err : inv n l st → decoder (model st) = DBatch ms →
  inv n l (set_slots (finish_batch rc err ms (slots st)) (set_model (set_decoder DWait (set_model_busy false (model st))) st)).
Proof.
  intros Hinv Hd. pose proof Hinv as (_ & [] & _). rewrite Hd in *. cbn [members in_batch] in *.
  assert (Hl : ∀ i s', finish_batch rc err ms (slots st) !! i = Some s' → ∃ s, slots st !! i = Some s ∧ slot_ok s' ∧ same_place s s'
    ∧ decode_pending s' = decode_pending s ∧ decode_in_flight s' = false).
  { intros i s'. rewrite finish_batch_lookup. intros H. destruct (slots st !! i) as [s|] eqn:Hi; [|by case_bool_decide].
    assert (Hok : slot_ok s) by (by eapply Forall_lookup_1). pose proof (mi_flight0 i s Hi) as Hf. exists s. split; [done|].
    case_bool_decide; cbn in H; apply (inj Some) in H; subst s'; [|done]. split_and!; [|done..].
    destruct s as [lv asg run bsy pw dp df dd tok r er w]. cbn in Hf. subst df. unfold slot_ok, flags in *. cbn in *.
    destruct w as [|?|k g []|?| |]; cbn in *; naive_solver. }
  assert (Hp : Forall2 same_place (slots st) (finish_batch rc err ms (slots st))).
  { apply Forall2_same_length_lookup. split; [by rewrite finish_batch_length|]. intros i s s' Hs Hs'.
    destruct (Hl i s' Hs') as (t & Ht & _ & Hpl & _). congruence. }
  assert (Hc : cnt decode_pending (finish_batch rc err ms (slots st)) = cnt decode_pending (slots st)).
  { unfold cnt. f_equal. apply list_eq. intros i. rewrite !list_lookup_fmap. destruct (finish_batch rc err ms (slots st) !! i) as [s'|] eqn:E.
    - destruct (Hl i s' E) as (s & -> & _ & _ & Hpe & _). cbn. by rewrite Hpe.
    - apply lookup_ge_None in E. rewrite finish_batch_length in E. by rewrite lookup_ge_None_2. }
  apply place_inv; [done|done|]. pose proof (place_counts _ _ Hp) as (_ & _ & Eg & Eo). split; cbn.
  - by rewrite finish_batch_length.
  - apply Forall_lookup. intros i s' Hi. by destruct (Hl i s' Hi) as (? & ? & ? & _).
  - by rewrite Hc.
  - by rewrite Eg.
  - rewrite Eo. destruct (model_busy (model st)); cbn in mi_owner0; pose proof (cnt_nonneg owns_model (slots st)); lia.
  - intros i s' Hi. destruct (Hl i s' Hi) as (_ & _ & _ & _ & _ & ->). symmetry. by apply bool_decide_eq_false, not_elem_of_nil.
  - done.
  - intros [?|Hs]; [done|]. apply Forall_lookup. intros i s' Hi. destruct (Hl i s' Hi) as (s & Hs' & _ & (_ & Hw & _) & _).
    unfold exited. rewrite Hw. by eapply (Forall_lookup_1 _ _ _ _ (mi_exited0 (or_intror Hs))).
Qed.

(** * Dispatching jobs to slots *)

(** ** The best slot *)

Definition free (s : server_slot) : Prop := busy s = false ∧ assigned s = None.

Lemma score_bound s id common required : 0 <= common <= INT_MAX →
  job_slot_score s id common required = INT_MIN ∨ 0 <= job_slot_score s id common required <= INT_MAX.
Proof. intros H. unfold job_slot_score. repeat case_if; lia. Qed.

Lemma score_eligible s id common required : 0 <= common <= INT_MAX →
  INT_MIN < job_slot_score s id common required ↔ free s ∧ (required < 0 ∨ required = id).
Proof.
  intros H. unfold job_slot_score, free. destruct (busy s); cbn [orb]; [split; [lia|naive_solver]|].
  case_bool_decide as E; [split; [lia|]; intros [[_ Ha] _]; by rewrite Ha, is_Some_alt in E|].
  assert (assigned s = None) by (by apply eq_None_not_Some). destruct (Z.leb_spec 0 required), (Z.eqb_spec id required); cbn [andb negb].
  all: rewrite ?(Z.eqb_sym required id); subst; rewrite ?Z.eqb_refl; try (split; [intros _|]; [split; [done|lia]|lia]).
  - split; [lia|]. intros [_ ?]. lia.
  - destruct (Z.eqb_spec id required); [lia|]. split; [|lia]. intros _. split; [done|lia].
Qed.

Definition slot_score (common : nat → Z) (required : Z) (i : nat) (s : server_slot) : Z := job_slot_score s (Z.of_nat i) (common i) required.

(** The slots from [i] on: [k] is the first of those with the highest score. *)
Definition best_at (common : nat → Z) (required : Z) (i : nat) (l : list server_slot) (k : nat) : Prop :=
  ∃ s, l !! k = Some s ∧ (∀ k' s', l !! k' = Some s' → slot_score common required (i + k') s' <= slot_score common required (i + k) s)
    ∧ (∀ k' s', (k' < k)%nat → l !! k' = Some s' → slot_score common required (i + k') s' < slot_score common required (i + k) s).

Lemma best_at_cons common required i s l k : best_at common required (S i) l k →
  (∀ t, l !! k = Some t → slot_score common required i s < slot_score common required (S i + k) t) → best_at common required i (s :: l) (S k).
Proof.
  intros (t & Ht & Hmax & Hfst) Hs. specialize (Hs t Ht). assert (Ek : ∀ k, (i + S k = S i + k)%nat) by (intros; lia).
  exists t. rewrite Ek. split_and!; [done|..].
  - intros [|k'] s' Hs'; cbn in Hs'; [simplify_eq; rewrite Nat.add_0_r; lia|rewrite Ek; by apply Hmax].
  - intros [|k'] s' Hlt Hs'; cbn in Hs'; [simplify_eq; rewrite Nat.add_0_r; lia|rewrite Ek; apply Hfst; [lia|done]].
Qed.

Lemma best_from_spec common required l : ∀ i best bsc,
  (best_from common required i l best bsc = best ∧ ∀ k s, l !! k = Some s → slot_score common required (i + k) s <= bsc)
  ∨ ∃ k, best_from common required i l best bsc = Some (i + k)%nat ∧ best_at common required i l k
      ∧ ∀ s, l !! k = Some s → bsc < slot_score common required (i + k) s.
Proof.
  induction l as [|s l IH]; intros i best bsc; [by left|]. cbn [best_from]. fold (slot_score common required i s). rewrite Z.gtb_ltb.
  assert (Ek : ∀ k, (i + S k = S i + k)%nat) by (intros; lia).
  destruct (Z.ltb_spec bsc (slot_score common required i s)) as [Hlt|Hge].
  - destruct (IH (S i) (Some i) (slot_score common required i s)) as [[-> Hall]|(k & -> & Hb & Hk)]; right.
    + exists 0%nat. rewrite Nat.add_0_r. split_and!; [done| |by intros ? [= <-]]. exists s. rewrite Nat.add_0_r. split_and!; [done| |lia].
      intros [|k'] s' Hs'; cbn in Hs'; [simplify_eq; by rewrite Nat.add_0_r|rewrite Ek; by apply Hall].
    + exists (S k). rewrite Ek. split_and!; [done|by apply best_at_cons|]. intros t Ht. specialize (Hk t Ht). lia.
  - destruct (IH (S i) best bsc) as [[-> Hall]|(k & -> & Hb & Hk)].
    + left. split; [done|]. intros [|k'] s' Hs'; cbn in Hs'; [simplify_eq; by rewrite Nat.add_0_r|rewrite Ek; by apply Hall].
    + right. exists (S k). rewrite Ek. split_and!; [done| |done]. apply best_at_cons; [done|]. intros t Ht. specialize (Hk t Ht). lia.
Qed.

Lemma required_range r l : ∀ i, 0 <= i → required_from r i l = -1 ∨ i <= required_from r i l < i + Z.of_nat (length l).
Proof.
  induction l as [|s l IH]; intros i Hi; cbn [required_from]; [by left|]. repeat case_if; try (right; cbn [length]; lia).
  destruct (IH (i + 1)) as [->|]; [lia|by left|]. right. cbn [length]. lia.
Qed.

(** A slot that a job can have. *)
Lemma best_slot_some common js sl j i : common_ok common → best_slot common js sl j = Some i →
  ∃ x s, js !! j = Some x ∧ sl !! i = Some s ∧ free s
    ∧ (let required := job_required_slot_locked sl (j_req x) in
       (required < 0 ∨ required = Z.of_nat i)
       ∧ (required < 0 → ∀ k t, sl !! k = Some t → free t → common k j <= common i j ∧ (common k j = common i j → (i <= k)%nat))).
Proof.
  intros Hc. unfold best_slot. destruct (js !! j) as [x|]; [|done]. set (required := job_required_slot_locked sl (j_req x)).
  destruct (best_from_spec (λ i, common i j) required sl 0 None INT_MIN) as [[-> _]|(k & -> & (s & Hk & Hmax & Hfst) & Hs)]; [done|].
  cbn [Nat.add] in *. intros [= ->]. specialize (Hs s Hk). unfold slot_score in *. apply score_eligible in Hs as Hel; [|done]. destruct Hel as [Hf Hr]. exists x, s. split_and!; [done|done|done|done|].
  intros Hneg k t Ht Hft. assert (Hsc : ∀ k t, free t → job_slot_score t (Z.of_nat k) (common k j) required = common k j).
  { intros k' t' [Hb Ha]. unfold job_slot_score. rewrite Hb, Ha. cbn. destruct (Z.leb_spec 0 required); [lia|]. cbn [andb].
    destruct (Z.eqb_spec required (Z.of_nat k')); [lia|done]. }
  specialize (Hmax k t Ht). rewrite !Hsc in Hmax by done. split; [done|]. intros E. destruct (decide (k < i)%nat) as [Hlt|]; [|lia].
  specialize (Hfst k t Hlt Ht). rewrite !Hsc in Hfst by done. lia.
Qed.

(** With every slot free, every job can have one. *)
Lemma best_slot_free common js sl j x : common_ok common → js !! j = Some x → sl ≠ [] → Forall free sl → best_slot common js sl j ≠ None.
Proof.
  intros Hc Hx Hne Hfree. unfold best_slot. rewrite Hx. set (required := job_required_slot_locked sl (j_req x)).
  destruct (best_from_spec (λ i, common i j) required sl 0 None INT_MIN) as [[_ Hall]|(k & -> & _)]; [|done]. exfalso. cbn [Nat.add] in Hall. unfold slot_score in Hall.
  assert (Hnone : ∀ k s, sl !! k = Some s → ¬ (required < 0 ∨ required = Z.of_nat k)).
  { intros k s Hk Hr. specialize (Hall k s Hk). pose proof (proj2 (score_eligible s (Z.of_nat k) (common k j) required (Hc k j))) as H.
    assert (free s) by (by eapply Forall_lookup_1). specialize (H (conj H0 Hr)). lia. }
  destruct (required_range (j_req x) sl 0) as [E|E]; [lia|..]; change (required_from (j_req x) 0 sl) with required in E.
  - destruct sl as [|s sl]; [done|]. apply (Hnone 0%nat s eq_refl). lia.
  - destruct (lookup_lt_is_Some_2 sl (Z.to_nat required)) as [s Hs]; [lia|]. apply (Hnone _ s Hs). lia.
Qed.

(** ** The loop *)

Lemma take_first_some {A} (f : job → option A) l j a r : take_first f l = Some (j, a, r) →
  ∃ l1 l2, l = l1 ++ j :: l2 ∧ r = l1 ++ l2 ∧ f j = Some a ∧ Forall (λ x, f x = None) l1.
Proof.
  revert r. induction l as [|x l IH]; intros r; cbn [take_first]; [done|]. destruct (f x) as [b|] eqn:E.
  - intros [= -> -> ->]. by exists [], r.
  - destruct (take_first f l) as [[[y b] s]|]; [|done]. intros [= -> -> <-].
    destruct (IH s eq_refl) as (l1 & l2 & -> & -> & Hf & Hl). exists (x :: l1), l2. split_and!; [done|done|done|by constructor].
Qed.

Lemma take_first_none {A} (f : job → option A) l : take_first f l = None ↔ Forall (λ x, f x = None) l.
Proof.
  induction l as [|x l IH]; cbn [take_first]; [done|]. rewrite Forall_cons, <- IH. destruct (f x); [naive_solver|].
  destruct (take_first f l) as [[[? ?] ?]|]; naive_solver.
Qed.

Lemma jobs_inv_perm q js l sl q' l' sl' : jobs_inv q js l sl → queue_is q' l' → dom (q_next q') = dom (q_next q) →
  refs l' sl' ≡ₚ refs l sl → jobs_inv q' js l' sl'.
Proof. intros [] Hq Hd Hp. split; [done|congruence|by rewrite Hp|intros j; by rewrite Hp|done]. Qed.

Lemma alter_at (f : server_slot → server_slot) i (sl : list server_slot) s : sl !! i = Some s → alter f i sl = <[i := f s]> sl.
Proof.
  intros Hi. apply list_eq. intros k. destruct (decide (i = k)) as [<-|Hk].
  - rewrite list_lookup_alter_eq, Hi, list_lookup_insert_eq; [done|by eapply lookup_lt_Some].
  - by rewrite list_lookup_alter_ne, list_lookup_insert_ne.
Qed.

Lemma jobs_inv_assign q js l1 j l2 sl i s q' : jobs_inv q js (l1 ++ j :: l2) sl → queue_is q' (l1 ++ l2) → dom (q_next q') = dom (q_next q) →
  sl !! i = Some s → free s → jobs_inv q' js (l1 ++ l2) (<[i := set_assigned (Some j) true s]> sl).
Proof.
  intros Hj Hq Hd Hi [_ Ha]. eapply jobs_inv_perm; [done|done|done|]. unfold refs.
  destruct (refs_insert sl i s (set_assigned (Some j) true s) Hi) as (r & -> & ->).
  unfold slot_refs. cbn [assigned set_assigned sl_worker]. rewrite Ha. cbn [option_list app]. solve_Permutation.
Qed.

(** Slots before and after: some free ones have a job. *)
Definition dispatched (s s' : server_slot) : Prop := s' = s ∨ (free s ∧ ∃ j, s' = set_assigned (Some j) true s).

Lemma dispatched_trans s1 s2 s3 : dispatched s1 s2 → dispatched s2 s3 → dispatched s1 s3.
Proof. intros [->|[Hf [j ->]]] H; [done|]. destruct H as [->|[[Hb _] _]]; [right; by split; [|exists j]|done]. Qed.

Lemma dispatched_insert sl i s j : sl !! i = Some s → free s → Forall2 dispatched sl (<[i := set_assigned (Some j) true s]> sl).
Proof.
  intros Hi Hf. apply Forall2_same_length_lookup. split; [by rewrite length_insert|]. intros k x y Hx Hy.
  destruct (decide (i = k)) as [<-|Hk].
  - rewrite list_lookup_insert_eq in Hy by (by eapply lookup_lt_Some). simplify_eq. right. split; [done|by exists j].
  - rewrite list_lookup_insert_ne in Hy by done. simplify_eq. by left.
Qed.

Definition idle (s : server_slot) : bool := negb (busy s).

(** Enough rounds: each makes a slot busy. *)
Lemma dispatch_loop_ok common js : common_ok common → ∀ fuel q l sl, jobs_inv q js l sl → cnt idle sl < Z.of_nat fuel →
  ∃ q' l' sl', dispatch_loop fuel common js q sl = Some (q', sl') ∧ jobs_inv q' js l' sl' ∧ Forall2 dispatched sl sl'
    ∧ Forall (λ j, best_slot common js sl' j = None) l' ∧ (l = [] → l' = [] ∧ sl' = sl).
Proof.
  intros Hc. induction fuel as [|fuel IH]; intros q l sl Hj Hf; [pose proof (cnt_nonneg idle sl); lia|]. cbn [dispatch_loop].
  destruct (queue_take_first_is (best_slot common js sl) q l (ji_queue _ _ _ _ Hj)) as (q' & -> & Hq' & Hd).
  destruct (take_first (best_slot common js sl) l) as [[[j i] r]|] eqn:E.
  - apply take_first_some in E as (l1 & l2 & -> & -> & Hb & _). destruct (best_slot_some _ _ _ _ _ Hc Hb) as (x & s & _ & Hi & Hfree & _).
    rewrite (alter_at _ _ _ _ Hi). destruct (IH q' (l1 ++ l2) (<[i := set_assigned (Some j) true s]> sl)) as (q2 & l' & sl' & E & Hj' & Hd' & Hn & _).
    + by eapply jobs_inv_assign.
    + rewrite (cnt_insert _ _ _ _ _ Hi). unfold idle at 2 3. destruct Hfree as [-> _]. cbn. lia.
    + exists q2, l', sl'. split_and!; [done|done| |done|by destruct l1].
      eapply Forall2_trans; [|by apply dispatched_insert|done]. intros a b c. apply dispatched_trans.
  - exists q', l, sl. split_and!; [done|by eapply jobs_inv_perm| |by apply take_first_none|done].
    apply Forall_Forall2_diag, Forall_true. by left.
Qed.

(** ** The invariant after dispatching *)

Lemma dispatched_cnt f sl sl' : (∀ s s', dispatched s s' → f s' = f s) → Forall2 dispatched sl sl' → cnt f sl' = cnt f sl.
Proof. intros Hf. unfold cnt, sumZ. induction 1 as [|s s' sl sl' H _ IH]; [done|]. cbn. by rewrite (Hf s s' H), IH. Qed.

Lemma free_worker s : slot_ok s → free s → exited s = false → sl_worker s = WIdle.
Proof. unfold slot_ok, free, exited. intros Hok [Hb _] Hx. destruct (sl_worker s); try done; destruct_and?; congruence. Qed.

Lemma dispatched_ok s s' : slot_ok s → exited s = false → dispatched s s' → slot_ok s'.
Proof.
  intros Hok Hx [->|[Hf [j ->]]]; [done|]. pose proof (free_worker s Hok Hf Hx) as Hw. unfold slot_ok in *. cbn. rewrite Hw in *. naive_solver.
Qed.

Lemma model_inv_dispatch n sl sl' m : model_inv n sl m → Forall2 dispatched sl sl' → Forall (λ s, exited s = false) sl → model_inv n sl' m.
Proof.
  intros [Hlen Hok Hpe Hac How Hfl Hla Hex] Hd Hx. assert (Hlk : ∀ i s', sl' !! i = Some s' → ∃ s, sl !! i = Some s ∧ dispatched s s').
  { intros i s' Hs'. by destruct (Forall2_lookup_r _ _ _ _ _ Hd Hs') as (s & ? & ?); exists s. }
  assert (Hf : ∀ f, (∀ s j, f (set_assigned (Some j) true s) = f s) → cnt f sl' = cnt f sl).
  { intros f Hf. apply dispatched_cnt; [|done]. by intros s s' [->|[_ [j ->]]]. }
  split; [by rewrite <- (Forall2_length _ _ _ Hd)|..]; rewrite ?Hf by done; try done.
  - apply Forall_lookup. intros i s' Hs'. destruct (Hlk i s' Hs') as (s & Hs & Hds).
    eapply dispatched_ok; [by eapply (Forall_lookup_1 _ _ _ _ Hok)|by eapply (Forall_lookup_1 _ _ _ _ Hx)|done].
  - intros i s' Hs'. destruct (Hlk i s' Hs') as (s & Hs & Hds). rewrite <- (Hfl i s Hs). by destruct Hds as [->|[_ [j ->]]].
  - intros H. apply Forall_lookup. intros i s' Hs'. destruct (Hlk i s' Hs') as (s & Hs & Hds).
    pose proof (Forall_lookup_1 _ _ _ _ (Hex H) Hs) as Hxs. cbn in Hxs. by destruct Hds as [->|[_ [j ->]]].
Qed.

Lemma cnt_zero f sl : ¬ 0 < cnt f sl → Forall (λ s, f s = false) sl.
Proof.
  intros H. apply Forall_lookup. intros i s Hi. destruct (f s) eqn:E; [|done]. exfalso. apply H. by eapply cnt_elem.
Qed.

(** What must hold before: the invariant but for the progress of the queue. *)
Definition ready (n : nat) (l : list job) (st : server) : Prop :=
  jobs_inv (queue st) (jobs st) l (slots st) ∧ model_inv n (slots st) (model st) ∧ (0 < cnt exited (slots st) → l = [] ∧ stopping st = true).

Lemma dispatch_inv n l st common : common_ok common → ready n l st → ∃ st' l', dispatch_jobs_locked common st = Some st' ∧ inv n l' st'.
Proof.
  intros Hc (Hj & Hm & Hx). unfold dispatch_jobs_locked.
  destruct (dispatch_loop_ok common (jobs st) Hc (S (length (slots st))) (queue st) l (slots st) Hj) as (q' & l' & sl' & -> & Hj' & Hd & Hn & Hnil).
  { unfold cnt. clear. induction (slots st) as [|s sl IH]; [cbn; lia|]. unfold sumZ in *. cbn. destruct (idle s); cbn; cbn in IH; lia. }
  exists (set_queue q' (set_slots sl' st)), l'. split; [done|]. destruct (decide (l = [])) as [->|Hl].
  { destruct (Hnil eq_refl) as [-> ->]. split_and!; [done|done|]. split; [done|done]. }
  assert (Hne : Forall (λ s, exited s = false) (slots st)) by (apply cnt_zero; intros H; by apply Hx in H as [-> _]).
  pose proof (model_inv_dispatch _ _ _ _ Hm Hd Hne) as Hm'. split_and!; [done|done|]. cbn. split.
  - intros Hl'. destruct l' as [|j l']; [done|]. destruct (decide (0 < cnt busy sl')) as [|Hb]; [done|exfalso].
    apply cnt_zero in Hb. destruct (ji_open _ _ _ _ Hj' j) as [Hop _]. destruct Hop as (x & Hx' & _); [by left|].
    apply Forall_cons in Hn as [Hn _]. eapply best_slot_free; [done|exact Hx'| | |done].
    + intros ->. destruct Hm' as []. cbn in *. lia.
    + apply Forall_lookup. intros i s Hi. pose proof (Forall_lookup_1 _ _ _ _ Hb Hi) as Hbs. cbn in Hbs. split; [done|].
      pose proof (Forall_lookup_1 _ _ _ _ (mi_slots _ _ _ Hm') Hi) as Hok. unfold slot_ok in Hok. rewrite Hbs in Hok.
      destruct (sl_worker s); try (destruct_and?; congruence). destruct Hok as [E _]. symmetry in E. apply bool_decide_eq_false in E. by apply eq_None_not_Some.
  - intros H. exfalso. apply cnt_pos in H as (i & s & Hi & He). destruct (Forall2_lookup_r _ _ _ _ _ Hd Hi) as (t & Ht & Hdt).
    pose proof (Forall_lookup_1 _ _ _ _ Hne Ht) as Het. cbn in Het. destruct Hdt as [->|[_ [j' ->]]]; [congruence|]. unfold exited in He, Het. cbn in He. congruence.
Qed.
