(* ===== verification/SchedulerProps.v ===== *)
(** * The scheduler, step by step

    Every step of every thread keeps the invariant; what follows for the jobs, the
    model, the turns and the progress of the server. *)
From S2P Require Import Prelude CLib KvHeader KvCache Json Request Stream ToolText ToolMemory ToolMap LiveState JobQueue Scheduler SchedulerInv.

(** ** Flags of the jobs *)

(** The flags of a job change, its place does not. *)
Lemma jobs_inv_flag q js l sl j x x' : jobs_inv q js l sl → js !! j = Some x → open_job x' = open_job x → (job_detached x' = true → j_done x' = false) →
  jobs_inv q (<[j := x']> js) l sl.
Proof.
  intros [Hqi Hdm Hon Hop Hde] Hx Ho Hd. split; [done|by rewrite dom_insert_lookup_L|done| |].
  - intros k. rewrite Hop. destruct (decide (k = j)) as [->|Hk]; [|by rewrite lookup_insert_ne].
    rewrite lookup_insert_eq, Hx. split; intros (y & [= <-] & Hy); eexists; (split; [done|]); congruence.
  - intros k y. destruct (decide (k = j)) as [->|Hk]; [rewrite lookup_insert_eq; by intros [= <-]|rewrite lookup_insert_ne by done; apply Hde].
Qed.

(** A job that is somewhere is neither done nor detached. *)
Lemma ref_open q js l sl j x : jobs_inv q js l sl → j ∈ refs l sl → js !! j = Some x → j_done x = false ∧ job_detached x = false.
Proof.
  intros [_ _ _ Hop _] Hj Hx. apply Hop in Hj as (y & Hy & Ho). rewrite Hx in Hy. apply (inj Some) in Hy. subst y. unfold open_job in Ho.
  by apply andb_true_iff in Ho as [?%negb_true_iff ?%negb_true_iff].
Qed.

(** A job leaves its place for good. *)
Lemma jobs_inv_remove q js l sl q' l' sl' j x x' : jobs_inv q js l sl → queue_is q' l' → dom (q_next q') = dom (q_next q) →
  refs l sl ≡ₚ j :: refs l' sl' → js !! j = Some x → open_job x' = false → (job_detached x' = true → j_done x' = false) →
  jobs_inv q' (<[j := x']> js) l' sl'.
Proof.
  intros [Hqi Hdm Hon Hop Hde] Hq Hdom Hp Hx Ho Hd. rewrite Hp in Hon. apply NoDup_cons in Hon as [Hj Hnd].
  split; [done|rewrite dom_insert_lookup_L by done; congruence|done| |].
  - intros k. specialize (Hop k). rewrite Hp, elem_of_cons in Hop. destruct (decide (k = j)) as [->|Hk].
    + rewrite lookup_insert_eq. split; [done|]. intros (y & [= <-] & Hy). congruence.
    + rewrite lookup_insert_ne by done. rewrite <- Hop. naive_solver.
  - intros k y. destruct (decide (k = j)) as [->|Hk]; [rewrite lookup_insert_eq; by intros [= <-]|rewrite lookup_insert_ne by done; apply Hde].
Qed.

Lemma flag_inv n l st j x x' : inv n l st → jobs st !! j = Some x → open_job x' = open_job x → (job_detached x' = true → j_done x' = false) →
  inv n l (put_job j x' st).
Proof. intros (Hj & Hm & Hq) Hx Ho Hd. split_and!; [by eapply jobs_inv_flag|done|done]. Qed.

Lemma mark_inv n l st j st' : inv n l st → job_mark_cancelled st j = Some st' → inv n l st'.
Proof.
  intros Hinv. unfold job_mark_cancelled. destruct (jobs st !! j) as [x|] eqn:E; [|done]. cbn. intros [= <-].
  eapply flag_inv; [done|done|done|]. intros H. pose proof Hinv as ([Hqi Hdm Hon Hop Hde] & _). by apply (Hde j x).
Qed.

Lemma release_inv n l st j x : inv n l st → jobs st !! j = Some x → j_client x = CWaiting → j_done x = true → inv n l (job_free j st).
Proof.
  intros (Hj & Hm & Hq) Hx Hc Hd. split_and!; [|done|done]. destruct Hj as [Hqi Hdm Hon Hop Hde]. cbn. assert (Hn : j ∉ refs l (slots st)).
  { intros H. apply Hop in H as (y & Hy & Ho). rewrite Hx in Hy. apply (inj Some) in Hy. subst y. unfold open_job in Ho. by rewrite Hd in Ho. }
  split; cbn.
  - destruct Hqi as (Hnd & Hl & Ht). split_and!; [done| |done]. eapply linked_frame; [|exact Hl]. intros k Hk. cbn. rewrite lookup_delete_ne; [done|].
    intros <-. apply Hn. apply elem_of_app. by left.
  - rewrite !dom_delete_L. congruence.
  - done.
  - intros k. rewrite Hop. destruct (decide (k = j)) as [->|Hk]; [|by rewrite lookup_delete_ne].
    rewrite lookup_delete_eq. split; [|by intros (? & ? & _)]. intros H. apply Hop in H. done.
  - intros k y. destruct (decide (k = j)) as [->|Hk]; [by rewrite lookup_delete_eq|rewrite lookup_delete_ne by done; apply Hde].
Qed.

Lemma refused_inv st j r : jobs st !! j = None → q_next (queue st) !! j = None → job_free j (job_create j r st) = st.
Proof. intros H1 H2. destruct st as [sl [h t nx] js a b m]. cbn in *. unfold job_free, job_create. cbn. by rewrite !delete_insert_id by done. Qed.

(** A slot whose worker has no part in the model, before and after. *)
Ltac no_moves Hw := split; cbn; unfold generating, owns_model; cbn; rewrite ?Hw; cbn; first [done|lia].

(** ** Arrival and cancellation *)

Lemma arrive_inv n l st j r common st' : inv n l st → jobs st !! j = None → common_ok common →
  enqueue common j (job_create j r st) = Some (true, st') → sched_inv n st'.
Proof.
  intros (Hj & Hm & Hq) Hnew Hc. unfold enqueue. change (stopping (job_create j r st)) with (stopping st).
  destruct (stopping st) eqn:Es; [done|]. pose proof Hj as [Hqi Hdm Hon Hop Hde]. assert (Hn : j ∉ refs l (slots st)).
  { intros H. apply Hop in H as (x & Hx & _). congruence. }
  assert (Hl : j ∉ l) by (intros H; apply Hn, elem_of_app; by left).
  destruct (queue_push_is (job_new (queue st) j) l j) as (q & Eq & Hq' & Hd).
  { destruct Hqi as (Hnd & Hlk & Ht). split_and!; [done| |done]. eapply linked_frame; [|exact Hlk]. intros k Hk. cbn. rewrite lookup_insert_ne; [done|].
    by intros <-. }
  { done. }
  { cbn. by rewrite lookup_insert_eq. }
  change (queue (job_create j r st)) with (job_new (queue st) j). rewrite Eq. cbn [mbind option_bind].
  destruct (dispatch_inv n (l ++ [j]) (set_queue q (job_create j r st)) common Hc) as (st1 & l1 & E & Hinv).
  { split_and!; [|done|].
    - cbn. assert (Hp : refs (l ++ [j]) (slots st) ≡ₚ j :: refs l (slots st)) by (unfold refs; solve_Permutation). split; [done| | | |].
      + rewrite Hd. cbn. rewrite !dom_insert_L. congruence.
      + rewrite Hp. by apply NoDup_cons.
      + intros k. rewrite Hp, elem_of_cons, Hop. destruct (decide (k = j)) as [->|Hk]; [|rewrite lookup_insert_ne by done; naive_solver].
        rewrite lookup_insert_eq. split; [intros _; by eexists|by left].
      + intros k y. destruct (decide (k = j)) as [->|Hk]; [rewrite lookup_insert_eq; by intros [= <-]|rewrite lookup_insert_ne by done; apply Hde].
    - cbn. intros H. apply (qi_exited _ _ _ Hq) in H as [_ H]. congruence. }
  rewrite E. cbn [mbind option_bind]. intros [= <-]. by exists l1.
Qed.

Lemma detach_inv n l st j x common d st' : inv n l st → jobs st !! j = Some x → j_client x = CCut → common_ok common →
  cancel_detach common j (put_job j (set_client (CModel d) x) st) = Some (d, st') → sched_inv n st'.
Proof.
  intros Hinv Hx Hcl Hc. pose proof Hinv as (Hj & Hm & Hq). pose proof Hj as [Hqi Hdm Hon Hop Hde]. unfold cancel_detach.
  change (queue (put_job j (set_client (CModel d) x) st)) with (queue st). change (slots (put_job j (set_client (CModel d) x) st)) with (slots st).
  destruct (queue_take_first_is (λ it, if decide (it = j) then Some tt else None) (queue st) l Hqi) as (q & -> & Hq' & Hd).
  destruct (take_first (λ it, if decide (it = j) then Some tt else None) l) as [[[k []] r]|] eqn:E.
  - intros [= <- <-]. apply take_first_some in E as (l1 & l2 & -> & -> & Hk & _). case_decide; [subst k|done]. exists (l1 ++ l2).
    split_and!; [|done|].
    + cbn. eapply jobs_inv_remove; [done|done|done| |done|by unfold open_job; rewrite andb_false_r|].
      * unfold refs. solve_Permutation.
      * intros _. cbn. eapply ref_open; [done| |done]. unfold refs. rewrite !elem_of_app. left. right. by left.
    + split; cbn; [|intros H; apply (qi_exited _ _ _ Hq) in H as [H _]; by destruct l1].
      intros _. apply (qi_busy _ _ _ Hq). by destruct l1.
  - apply take_first_none in E. destruct (find_assigned j (slots st)) as [i|] eqn:Ef.
    + unfold find_assigned in Ef. apply fmap_Some in Ef as ((i' & s) & Ef & ->). apply list_find_Some in Ef as (Hi & Ha & _). cbn [fst].
      rewrite (alter_at _ _ _ _ Hi). assert (Hok : slot_ok s) by (by eapply Forall_lookup_1; [apply (mi_slots _ _ _ Hm)|]).
      assert (Hw : sl_worker s = WIdle) by (unfold slot_ok in Hok; destruct (sl_worker s); try done; destruct_and?; congruence).
      destruct (dispatch_inv n l (set_slots (<[i' := set_assigned None false s]> (slots st)) (set_queue q (put_job j (set_client (CModel true) x) st))) common Hc) as (st1 & l1 & E1 & Hinv1).
      { destruct (refs_insert (slots st) i' s (set_assigned None false s) Hi) as (rr & Hp1 & Hp2).
        unfold slot_refs in Hp1, Hp2. cbn in Hp2. rewrite Ha, Hw in Hp1. rewrite Hw in Hp2. cbn in Hp1, Hp2. split_and!.
        - cbn. eapply jobs_inv_remove; [done|done|done| |done|by unfold open_job; rewrite andb_false_r|].
          + unfold refs. rewrite Hp1, Hp2. solve_Permutation.
          + intros _. cbn. eapply ref_open; [done| |done]. unfold refs. rewrite Hp1. apply elem_of_app. right. by left.
        - cbn. eapply model_inv_put; [done|done| | |done| |by apply (inv_last n l st)].
          + unfold slot_ok in *. cbn. rewrite Hw in *. naive_solver.
          + unfold exited. by rewrite Hw.
          + no_moves Hw.
        - cbn [slots set_slots stopping set_queue put_job set_jobs]. rewrite (cnt_insert _ _ _ _ _ Hi). unfold exited at 2 3. cbn. rewrite Hw. cbn.
          rewrite Z.sub_0_r, Z.add_0_r. apply (qi_exited _ _ _ Hq). }
      intros (st2 & E2 & [= <- <-])%bind_Some. rewrite E1 in E2. apply (inj Some) in E2. subst st2. by exists l1.
    + intros [= <- <-]. exists l. split_and!; [|done|done]. cbn. eapply jobs_inv_perm; [|done|done|done].
      eapply jobs_inv_flag; [done|done| |done]. unfold open_job, job_detached. by rewrite Hcl.
Qed.

(** ** The end of a job *)

Lemma complete_inv n l st i s j st' : inv n l st → at_worker st i s (WDone j) → job_complete st j = Some st' →
  inv n l (put_slot i (set_worker WAfter s) st').
Proof.
  intros Hinv Hat. destruct (slot_at _ _ _ _ _ _ Hinv Hat) as (Hi & Hok & Hw). pose proof Hinv as (Hj & Hm & Hq). unfold job_complete.
  destruct (jobs st !! j) as [x|] eqn:Hx; [|done]. cbn [mbind option_bind]. intros [= <-].
  destruct (refs_insert (slots st) i s (set_worker WAfter s) Hi) as (rr & Hp1 & Hp2).
  assert (Ha : assigned s = None) by (unfold slot_ok in Hok; rewrite Hw in Hok; by destruct_and?).
  unfold slot_refs in Hp1, Hp2. cbn in Hp2. rewrite Ha, Hw in Hp1. rewrite Ha in Hp2. cbn in Hp1, Hp2.
  assert (Hop : j_done x = false ∧ job_detached x = false) by (eapply ref_open; [done| |done]; unfold refs; rewrite Hp1; apply elem_of_app; right; by left).
  split_and!.
  - cbn. eapply (jobs_inv_remove _ _ l _ _ l); [done|apply Hj|done| |done|done|].
    + unfold refs. rewrite Hp1, Hp2. solve_Permutation.
    + destruct Hop as [_ Hd]. unfold job_detached in *. cbn. congruence.
  - cbn. eapply model_inv_put; [done|done| | |done| |by apply (inv_last n l st)].
    + unfold slot_ok in *. cbn. rewrite Hw in Hok. done.
    + unfold exited. by rewrite Hw.
    + no_moves Hw.
  - cbn. eapply queue_inv_put; [done|done|done|]. unfold exited. cbn. by rewrite Hw.
Qed.

Lemma after_ready n l st i s : inv n l st → at_worker st i s WAfter →
  ready n l (put_slot i (set_worker WIdle (set_assigned (assigned s) false s)) st).
Proof.
  intros Hinv Hat. destruct (slot_at _ _ _ _ _ _ Hinv Hat) as (Hi & Hok & Hw). pose proof Hinv as (Hj & Hm & Hq).
  unfold slot_ok in Hok. rewrite Hw in Hok. destruct Hok as (Ha & Hb & Hr & Hf). split_and!; cbn [slots put_slot set_slots queue jobs model stopping].
  - eapply jobs_inv_same; [done|done|]. unfold slot_refs. cbn. by rewrite Hw.
  - eapply model_inv_put; [done|done| | |done| |by apply (inv_last n l st)].
    + unfold slot_ok. cbn. by rewrite Ha.
    + unfold exited. by rewrite Hw.
    + no_moves Hw.
  - rewrite (cnt_insert _ _ _ _ _ Hi). unfold exited at 2 3. cbn. rewrite Hw. cbn. rewrite Z.sub_0_r, Z.add_0_r. apply (qi_exited _ _ _ Hq).
Qed.

Lemma after_inv n l st i s common st' : inv n l st → at_worker st i s WAfter → common_ok common →
  dispatch_jobs_locked common (put_slot i (set_worker WIdle (set_assigned (assigned s) false s)) st) = Some st' → sched_inv n st'.
Proof.
  intros Hinv Hat Hc E. pose proof (after_ready n l st i s Hinv Hat) as Hr.
  destruct (dispatch_inv n l _ common Hc Hr) as (st1 & l1 & E1 & H1). rewrite E1 in E. apply (inj Some) in E. subst st1. by exists l1.
Qed.

Lemma exit_inv n l st i s : inv n l st → at_worker st i s WIdle → assigned s = None → stopping st = true → q_head (queue st) = None →
  inv n l (put_slot i (set_worker WExited s) st).
Proof.
  intros Hinv Hat Ha Hs Hh. destruct (slot_at _ _ _ _ _ _ Hinv Hat) as (Hi & Hok & Hw). pose proof Hinv as (Hj & Hm & Hq).
  assert (Hl : l = []) by (destruct Hj as [(_ & Hlk & _) _ _ _ _]; rewrite Hh in Hlk; destruct l; [done|by destruct Hlk as [? _]]).
  unfold slot_ok in Hok. rewrite Hw, Ha in Hok. destruct Hok as (Hb & Hr & Hf). split_and!; cbn [slots put_slot set_slots queue jobs model stopping].
  - eapply jobs_inv_same; [done|done|]. unfold slot_refs. cbn. by rewrite Hw.
  - eapply model_inv_put; [done|done| |done|done| |by apply (inv_last n l st)]; [by unfold slot_ok; cbn|no_moves Hw].
  - split; [by subst l|done].
Qed.

(** ** The invariant *)

Lemma worker_step_inv n lab st st' : sched_inv n st → worker_step lab st st' → sched_inv n st'.
Proof.
  intros [l Hinv] Hs. destruct Hs.
  - exists l. by apply take_inv.
  - exists l. by apply exit_inv.
  - exists l. rewrite put_slot_model. solve_local Hinv H s.
  - exists l. by apply end_inv.
  - exists l. by eapply complete_inv.
  - by eapply after_inv.
  - exists l. solve_local Hinv H s.
  - exists l. by apply generation_leave_inv.
  - exists l. rewrite put_slot_model. solve_local Hinv H s.
  - exists l. rewrite put_slot_model. solve_local Hinv H s.
  - exists l. by apply prefill_grant_inv.
  - exists l. rewrite put_slot_model. solve_local Hinv H s.
  - exists l. by apply prefill_leave_inv.
  - exists l. by eapply submit_inv.
  - exists l. by eapply eval_withdraw_inv.
  - exists l. by apply return_inv.
  - exists l. by eapply batch_take_inv.
  - exists l. by apply batch_finish_inv.
  - exists l. destruct Hinv as (Hj & Hm & Hq). split_and!; [done| |done]. destruct Hm as [Hlen Hok Hpe Hac How Hfl Hla Hex]. rewrite H in *.
    split; cbn; try done. intros _. apply Hex. by right.
Qed.

Lemma client_step_inv n st st' : sched_inv n st → client_step st st' → sched_inv n st'.
Proof.
  intros [l Hinv] Hs. destruct Hs.
  - by eapply arrive_inv.
  - unfold enqueue in H1. change (stopping (job_create j r st)) with (stopping st) in H1. destruct (stopping st).
    + apply (inj Some) in H1. simplify_eq. rewrite refused_inv; [by exists l|done|]. apply not_elem_of_dom. destruct Hinv as ([_ -> _ _ _] & _).
      by apply not_elem_of_dom.
    + by apply bind_Some in H1 as (q & _ & (s & _ & [=])%bind_Some).
  - exists l. eapply mark_inv; [|exact H1]. eapply flag_inv; [done|done|unfold open_job, job_detached; by rewrite H0|done].
  - by eapply detach_inv.
  - exists l. apply (cancel_model_inv _ _ _ j) in Hinv as Hi'. eapply flag_inv; [done| |unfold open_job, job_detached; rewrite H0; by destruct detached|].
    + unfold cancel_model, server_cancel_pending_decode_locked. repeat case_match; done.
    + destruct Hinv as ([_ _ _ _ Hde] & _). intros Hd. apply (Hde j js H). unfold job_detached in *. rewrite H0. by destruct detached.
  - exists l. unfold job_complete in H1. cbn in H1. rewrite lookup_insert_eq in H1. apply (inj Some) in H1. subst st'.
    replace (put_job j (set_done (set_client CWaiting js)) (put_job j (set_client CWaiting js) st)) with (put_job j (set_done (set_client CWaiting js)) st)
      by (unfold put_job, set_jobs; cbn; by rewrite insert_insert_eq).
    eapply flag_inv; [done|done| |done]. unfold open_job, job_detached. rewrite H0. cbn. by rewrite andb_false_r.
  - exists l. by eapply release_inv.
  - exists l. by eapply mark_inv.
  - by exists l.
  - destruct Hinv as (Hj & Hm & Hq). destruct (dispatch_inv n l (set_stopping true st) common H) as (st1 & l1 & E & H1).
    + split_and!; [done|done|]. cbn. intros Hx. by apply (qi_exited _ _ _ Hq) in Hx as [-> _].
    + rewrite E in H0. apply (inj Some) in H0. subst st1. by exists l1.
  - exists l. destruct Hinv as (Hj & Hm & Hq). split_and!; [done| |done]. destruct Hm as [Hlen Hok Hpe Hac How Hfl Hla Hex]. split; cbn; try done.
    intros _. eapply Forall_impl; [exact H|]. intros s Hs. unfold exited. by rewrite Hs.
Qed.

Lemma start_inv n : (0 < n)%nat → sched_inv n (server_start n).
Proof.
  intros Hn. exists []. assert (Hc : ∀ f, f slot_zero = false → cnt f (replicate n slot_zero) = 0).
  { intros f Hf. unfold cnt, sumZ. rewrite fmap_replicate, Hf. clear. induction n as [|n IH]; [done|]. exact IH. }
  assert (Hr : (replicate n slot_zero ≫= slot_refs) = []) by (clear; induction n as [|n IH]; [done|]; cbn; done).
  split_and!.
  - split; cbn; [|done| | |done].
    + split_and!; [constructor|done|done].
    + unfold refs. cbn. rewrite Hr. constructor.
    + intros j. unfold refs. cbn. rewrite Hr, lookup_empty. split; [by intros ?%elem_of_nil|by intros (? & ? & _)].
  - split; cbn -[cnt]; rewrite ?Hc by done; try done; try lia.
    + by rewrite length_replicate.
    + by apply Forall_replicate.
    + intros i s Hs. apply lookup_replicate in Hs as [-> _]. symmetry. by apply bool_decide_eq_false, not_elem_of_nil.
    + by intros [?|?].
  - split; cbn -[cnt]; [done|]. rewrite Hc by done. lia.
Qed.

Lemma reachable_inv n st : (0 < n)%nat → reachable n st → sched_inv n st.
Proof.
  intros Hn Hr. refine (rtc_ind_r (R := any_step) (sched_inv n) (server_start n) _ _ st Hr); [by apply start_inv|].
  intros x y _ [lab Hs] Hx. destruct Hs; [by eapply client_step_inv|by eapply worker_step_inv].
Qed.
