(* ===== verification/SchedulerLive.v ===== *)
(** * What the batched scheduler guarantees

    Jobs are never lost, duplicated or used after their client released them; one
    thread at a time owns the model; while a job is open some thread can move; a
    waiting prefill is overtaken a bounded number of times; and a job gets the slot
    its conversation lives in, or the one with the longest common prefix. *)
From S2P Require Import Prelude CLib KvHeader KvCache Json Request Stream ToolText ToolMemory ToolMap LiveState JobQueue Scheduler SchedulerInv SchedulerProps.

(** ** Owners of the model *)

Lemma cnt_unique f sl i k s t : f slot_zero = false → cnt f sl <= 1 → sl !! i = Some s → sl !! k = Some t → f s = true → f t = true → i = k.
Proof.
  intros Hz Hc Hi Hk Hs Ht. destruct (decide (i = k)) as [|Hik]; [done|exfalso].
  pose proof (cnt_insert f sl i s slot_zero Hi) as E. rewrite Hz, Hs in E. cbn [Z.b2z] in E.
  assert (0 < cnt f (<[i := slot_zero]> sl)); [|lia]. apply (cnt_elem f _ k t); [|done]. by rewrite list_lookup_insert_ne.
Qed.

Lemma owner_unique n sl m : model_inv n sl m →
  cnt owns_model sl <= 1 ∧ (in_batch (decoder m) = true → cnt owns_model sl = 0) ∧ (model_busy m = false → cnt owns_model sl = 0 ∧ in_batch (decoder m) = false).
Proof.
  intros [_ _ _ _ How _ _ _]. pose proof (cnt_nonneg owns_model sl). destruct (in_batch (decoder m)), (model_busy m); cbn in How.
  all: split_and!; intros; first [done|lia|split; [lia|done]].
Qed.

Lemma owns_spec s : owns_model s = true ↔ ∃ j gen, sl_worker s = WRun j gen Prefilling.
Proof. unfold owns_model. split; [destruct (sl_worker s) as [| |j g []| | |]; try done; by exists j, g|by intros (j & g & ->)]. Qed.

(** ** Whose turn it is *)

(** The [m]-th slot after the last one that had a turn. *)
Definition turn (last : Z) (n : nat) (m : Z) : nat := Z.to_nat ((last + m) mod Z.of_nat n).

Definition waits (sl : list server_slot) (i : nat) : Prop := ∃ s, sl !! i = Some s ∧ prefill_waiting s = true.

Lemma next_prefill_from_spec sl last : ∀ todo m, 0 <= last → 0 <= m → (0 < length sl)%nat →
  (next_prefill_from sl last m todo = -1 ∧ ∀ k, m <= k < m + Z.of_nat todo → ¬ waits sl (turn last (length sl) k))
  ∨ ∃ k, m <= k < m + Z.of_nat todo ∧ next_prefill_from sl last m todo = Z.of_nat (turn last (length sl) k) ∧ waits sl (turn last (length sl) k)
      ∧ ∀ k', m <= k' < k → ¬ waits sl (turn last (length sl) k').
Proof.
  induction todo as [|todo IH]; intros m Hl Hm Hn; cbn [next_prefill_from]; [left; split; [done|lia]|].
  rewrite Z.rem_mod_nonneg by lia. change (Z.to_nat ((last + m) mod Z.of_nat (length sl))) with (turn last (length sl) m).
  assert (Ht : Z.of_nat (turn last (length sl) m) = (last + m) mod Z.of_nat (length sl)).
  { unfold turn. rewrite Z2Nat.id; [done|]. apply Z.mod_pos_bound. lia. }
  assert (Hrec : ¬ waits sl (turn last (length sl) m) → next_prefill_from sl last m (S todo) = next_prefill_from sl last (m + 1) todo).
  { intros Hw. cbn [next_prefill_from]. rewrite Z.rem_mod_nonneg by lia. fold (turn last (length sl) m).
    destruct (sl !! turn last (length sl) m) as [s|] eqn:E; [|done]. destruct (prefill_waiting s) eqn:Ep; [|done]. exfalso. apply Hw. by exists s. }
  destruct (sl !! turn last (length sl) m) as [s|] eqn:E.
  2: { assert (turn last (length sl) m < length sl)%nat; [|apply lookup_ge_None in E; lia]. pose proof (Z.mod_pos_bound (last + m) (Z.of_nat (length sl))). lia. }
  destruct (prefill_waiting s) eqn:Ep.
  - right. exists m. rewrite <- Ht. split_and!; [lia|lia|done|by exists s|lia].
  - assert (Hno : ¬ waits sl (turn last (length sl) m)) by (intros (t & Ht' & Hp); congruence).
    destruct (IH (m + 1) Hl ltac:(lia) Hn) as [[-> Hall]|(k & Hk & -> & Hw & Hall)].
    + left. split; [done|]. intros k Hk. destruct (decide (k = m)) as [->|]; [done|apply Hall; lia].
    + right. exists k. split_and!; [lia|lia|done|done|]. intros k' Hk'. destruct (decide (k' = m)) as [->|]; [done|apply Hall; lia].
Qed.

(** How many slots come before [i] at most. *)
Definition ahead (last : Z) (n i : nat) : Z := (Z.of_nat i - last - 1) mod Z.of_nat n.

Lemma turn_ahead last n i : (i < n)%nat → turn last n (ahead last n i + 1) = i.
Proof.
  intros Hi. unfold turn, ahead. replace (last + ((Z.of_nat i - last - 1) mod Z.of_nat n + 1)) with ((Z.of_nat i - last - 1) mod Z.of_nat n + (last + 1)) by lia.
  rewrite Zplus_mod_idemp_l. replace (Z.of_nat i - last - 1 + (last + 1)) with (Z.of_nat i) by lia. rewrite Z.mod_small by lia. lia.
Qed.

Lemma ahead_after last n i m : (0 < n)%nat → 0 <= m <= ahead last n i → ahead (Z.of_nat (turn last n m)) n i = ahead last n i - m.
Proof.
  intros Hn Hm. unfold ahead, turn in *. rewrite Z2Nat.id by (apply Z.mod_pos_bound; lia).
  pose proof (Z.mod_pos_bound (Z.of_nat i - last - 1) (Z.of_nat n) ltac:(lia)).
  rewrite <- (Z.mod_small ((Z.of_nat i - last - 1) mod Z.of_nat n - m) (Z.of_nat n)) by lia.
  rewrite Zminus_mod_idemp_l. replace (Z.of_nat i - (last + m) mod Z.of_nat n - 1) with ((Z.of_nat i - 1) - (last + m) mod Z.of_nat n) by lia.
  rewrite Zminus_mod_idemp_r. f_equal. lia.
Qed.

Lemma next_prefill_some sl last i : 0 <= last → waits sl i →
  ∃ k, 1 <= k <= ahead last (length sl) i + 1 ∧ server_next_prefill_slot_locked sl last = Z.of_nat (turn last (length sl) k) ∧ waits sl (turn last (length sl) k).
Proof.
  intros Hl Hw. pose proof Hw as (s & Hi & _). assert (Hlt : (i < length sl)%nat) by (by eapply lookup_lt_Some).
  pose proof (Z.mod_pos_bound (Z.of_nat i - last - 1) (Z.of_nat (length sl)) ltac:(lia)) as Hb. fold (ahead last (length sl) i) in Hb.
  pose proof (turn_ahead last _ _ Hlt) as Ht. unfold server_next_prefill_slot_locked.
  destruct (next_prefill_from_spec sl last (length sl) 1 Hl ltac:(lia) ltac:(lia)) as [[_ Hall]|(k & Hk & -> & Hwk & Hall)].
  - exfalso. apply (Hall (ahead last (length sl) i + 1)); [lia|]. by rewrite Ht.
  - exists k. split_and!; [lia| |done|done]. destruct (decide (k <= ahead last (length sl) i + 1)) as [|Hgt]; [done|]. exfalso.
    apply (Hall (ahead last (length sl) i + 1)); [lia|]. by rewrite Ht.
Qed.

(** ** Some thread can move *)

Definition can_move (st : server) : Prop := ∃ lab st', worker_step lab st st'.

Lemma slot_alive n l st i s j : inv n l st → slots st !! i = Some s → running s = Some j →
  ∃ x, jobs st !! j = Some x ∧ open_job x = true ∧ ∃ gen a, sl_worker s = WRun j gen a.
Proof.
  intros (Hj & Hm & _) Hi Hr. assert (Hok : slot_ok s) by (by eapply Forall_lookup_1; [apply (mi_slots _ _ _ Hm)|]).
  assert (Hw : ∃ gen a, sl_worker s = WRun j gen a).
  { unfold slot_ok in Hok. rewrite Hr in Hok. destruct (sl_worker s) as [| |k g a| | |]; destruct_and?; simplify_eq. by exists g, a. }
  destruct (ji_open _ _ _ _ Hj j) as [Hop _]. destruct Hop as (x & Hx & Ho).
  { apply elem_of_app. right. eapply refs_elem; [done|]. unfold slot_refs. destruct Hw as (g & a & ->). apply elem_of_app. right. by left. }
  by exists x.
Qed.

Lemma cancelled_defined n l st i s : inv n l st → slots st !! i = Some s → ∃ c, slot_job_cancelled st s = Some c.
Proof.
  intros Hinv Hi. unfold slot_job_cancelled, job_cancelled. destruct (running s) as [j|] eqn:Hr; [|by eexists].
  destruct (slot_alive _ _ _ _ _ _ Hinv Hi Hr) as (x & -> & _). by eexists.
Qed.

Lemma batch_moves st ms : decoder (model st) = DBatch ms → can_move st.
Proof. intros H. eexists _, _. by apply (step_batch_finish st ms 0 []). Qed.

Lemma owned_model_moves n l st : inv n l st → model_busy (model st) = true → can_move st.
Proof.
  intros (_ & Hm & _) Hb. destruct (decoder (model st)) as [|ms|] eqn:E; [|by eapply batch_moves|].
  all: pose proof (mi_owner _ _ _ Hm) as How; rewrite Hb, E in How; cbn in How; destruct (cnt_pos owns_model (slots st)) as (i & s & Hi & Hs); [lia|];
    apply owns_spec in Hs as (j & g & Hw); eexists _, _; by apply (step_prefill_leave st i s j g).
Qed.

Lemma pending_moves n l st : inv n l st → 0 < pending_decodes (model st) → can_move st.
Proof.
  intros Hinv Hp. destruct (model_busy (model st)) eqn:Hb; [by eapply owned_model_moves|]. pose proof Hinv as (_ & Hm & _).
  pose proof Hp as Hc. rewrite (mi_pending _ _ _ Hm) in Hc. apply cnt_pos in Hc as (i & s & Hi & Hs).
  destruct (decoder (model st)) as [|ms|] eqn:Hd; [|by eapply batch_moves|].
  - pose proof (take_batch_spec (slots st) 0 (pending_decodes (model st))) as H.
    destruct (take_batch 0 (slots st) (pending_decodes (model st))) as [[sl p] [|it items]] eqn:E; destruct H as (_ & _ & H).
    + exfalso. apply (not_elem_of_nil i), H. by exists i, s.
    + eexists _, _. eapply step_batch_take; [done|lia|done|done].
  - exfalso. pose proof (Forall_lookup_1 _ _ _ _ (mi_exited _ _ _ Hm (or_introl Hd)) Hi) as Hx.
    pose proof (Forall_lookup_1 _ _ _ _ (mi_slots _ _ _ Hm) Hi) as Hok. unfold exited in Hx. unfold slot_ok, activity_flags, flags in Hok.
    destruct (sl_worker s); try done. destruct Hok as (_ & _ & _ & [=]). congruence.
Qed.

Lemma waiting_worker n l st i s : inv n l st → slots st !! i = Some s → prefill_waiting s = true → ∃ j gen, sl_worker s = WRun j gen PrefillWait.
Proof.
  intros (_ & Hm & _) Hi Hp. pose proof (Forall_lookup_1 _ _ _ _ (mi_slots _ _ _ Hm) Hi) as Hok. unfold slot_ok, activity_flags, flags in Hok.
  rewrite Hp in Hok. destruct (sl_worker s) as [| |j g []| | |]; try naive_solver.
Qed.

Lemma waiting_moves n l st i : inv n l st → waits (slots st) i → can_move st.
Proof.
  intros Hinv Hw. destruct (model_busy (model st)) eqn:Hb; [by eapply owned_model_moves|].
  destruct (decide (0 < pending_decodes (model st))) as [Hp|Hp]; [by eapply pending_moves|].
  pose proof (inv_last _ _ _ Hinv) as [Hl _].
  destruct (next_prefill_some _ _ _ Hl Hw) as (k & _ & E & (s & Hi & Hs)). destruct (waiting_worker _ _ _ _ _ Hinv Hi Hs) as (j & g & Hwk).
  destruct (cancelled_defined _ _ _ _ _ Hinv Hi) as (c & Hcc). destruct (stop_requested st || c) eqn:Hstop.
  - eexists _, _. by eapply step_prefill_refuse.
  - apply orb_false_iff in Hstop as [Hst ->]. eexists _, _. eapply step_prefill_grant; [done|done|done|].
    unfold prefill_blocked. rewrite E, Hb, Z.eqb_refl. cbn. rewrite orb_false_r. apply Z.ltb_ge. lia.
Qed.

Lemma decode_moves n l st i s j gen : inv n l st → at_worker st i s (WRun j gen DecodeWait) → can_move st.
Proof.
  intros Hinv Hat. destruct (slot_at _ _ _ _ _ _ Hinv Hat) as (Hi & Hok & Hw). pose proof Hinv as (_ & Hm & _).
  unfold slot_ok in Hok. rewrite Hw in Hok. destruct Hok as (_ & _ & _ & [Hf|[Hf|Hf]]); unfold flags in Hf; simplify_eq.
  - apply (pending_moves n l); [done|]. rewrite (mi_pending _ _ _ Hm). by eapply cnt_elem.
  - pose proof (mi_flight _ _ _ Hm i s Hi) as Hfl. assert (Hin : i ∈ members (decoder (model st))) by (apply (bool_decide_eq_true (i ∈ members (decoder (model st)))); congruence).
    destruct (decoder (model st)) as [|ms|] eqn:Hd; [by apply elem_of_nil in Hin|by eapply batch_moves|by apply elem_of_nil in Hin].
  - eexists _, _. by apply step_decode_return.
Qed.

(** A busy slot, or another thread its worker waits for. *)
Lemma busy_moves n l st i s : inv n l st → slots st !! i = Some s → busy s = true → can_move st.
Proof.
  intros Hinv Hi Hb. pose proof Hinv as (Hj & Hm & _). assert (Hok : slot_ok s) by (by eapply Forall_lookup_1; [apply (mi_slots _ _ _ Hm)|]).
  assert (Hat : ∀ w, sl_worker s = w → at_worker st i s w) by done.
  unfold slot_ok in Hok. destruct (sl_worker s) as [|j|j g a|j| |] eqn:Hw; specialize (Hat _ eq_refl).
  - destruct Hok as (E & _). rewrite Hb in E. symmetry in E. apply bool_decide_eq_true in E as [j Ha]. eexists _, _. by eapply step_take.
  - eexists _, _. by eapply step_begin.
  - destruct a.
    + destruct g; eexists _, _; [by eapply step_generation_leave|by eapply step_end].
    + apply (waiting_moves n l st i); [done|]. exists s. split; [done|]. destruct Hok as (_ & _ & _ & Hf). unfold activity_flags, flags in Hf. by simplify_eq.
    + eexists _, _. by eapply step_prefill_leave.
    + by eapply decode_moves.
  - destruct (ji_open _ _ _ _ Hj j) as [Hop _]. destruct Hop as (x & Hx & _).
    { apply elem_of_app. right. eapply refs_elem; [done|]. unfold slot_refs. rewrite Hw. apply elem_of_app. right. by left. }
    eexists _, _. eapply step_complete; [done|]. unfold job_complete. by rewrite Hx.
  - destruct (dispatch_inv n l _ (λ _ _, 0) ltac:(by intros ? ?) (after_ready n l st i s Hinv Hat)) as (st' & l' & E & _).
    eexists _, _. by eapply step_after with (common := λ _ _, 0).
  - destruct Hok as (_ & E & _). congruence.
Qed.

Lemma ref_busy n l st j : inv n l st → j ∈ refs l (slots st) → 0 < cnt busy (slots st).
Proof.
  intros (_ & Hm & Hq) [Hl|Hs]%elem_of_app; [apply (qi_busy _ _ _ Hq); by destruct l; [apply elem_of_nil in Hl|]|].
  apply list_elem_of_bind in Hs as (s & Hs & [i Hi]%list_elem_of_lookup_1). apply (cnt_elem busy _ i s Hi).
  pose proof (Forall_lookup_1 _ _ _ _ (mi_slots _ _ _ Hm) Hi) as Hok. unfold slot_ok in Hok. unfold slot_refs in Hs.
  destruct (sl_worker s); destruct_and?; try done.
  - destruct (assigned s); [done|]. by apply elem_of_nil in Hs.
  - rewrite H in Hs. by apply elem_of_nil in Hs.
Qed.

(** ** Turns along a run *)

Definition last_of (st : server) : Z := last_prefill_slot (model st).

Lemma dispatch_last common st st' : dispatch_jobs_locked common st = Some st' → last_of st' = last_of st.
Proof. unfold dispatch_jobs_locked. destruct (dispatch_loop _ _ _ _ _) as [[q l]|]; [|done]. by intros [= <-]. Qed.

Lemma withdraw_last i st : last_of (snd (server_cancel_pending_decode_locked i st)) = last_of st.
Proof. unfold server_cancel_pending_decode_locked. destruct (slots st !! i) as [s|]; [|done]. by destruct (decode_pending s && _). Qed.

Lemma client_last st st' : client_step st st' → last_of st' = last_of st.
Proof.
  destruct 1 as [st j r common st' _ _ E|st j r common st' _ _ E|st j js st' _ _ E|st j js common d st' _ _ _ E| |st j js st' _ _ E| |
    st i s j gen a st' _ E| |st common st' _ E| ]; try done.
  - unfold enqueue in E. change (stopping (job_create j r st)) with (stopping st) in E. destruct (stopping st); [done|].
    apply bind_Some in E as (q & _ & (s & E & [= <-])%bind_Some). by apply dispatch_last in E.
  - unfold enqueue in E. change (stopping (job_create j r st)) with (stopping st) in E. destruct (stopping st); [by apply (inj Some) in E; simplify_eq|].
    by apply bind_Some in E as (q & _ & (s & _ & [=])%bind_Some).
  - by apply bind_Some in E as (x & _ & [= <-]).
  - unfold cancel_detach in E. destruct (queue_take_first _ _) as [[[?|] q]|]; [by apply (inj Some) in E; simplify_eq| |done].
    destruct (find_assigned _ _); [|by apply (inj Some) in E; simplify_eq]. apply bind_Some in E as (s & E & [= _ <-]). by apply dispatch_last in E.
  - unfold cancel_model. destruct (list_find _ _) as [[i s]|]; [|done]. exact (withdraw_last i st).
  - by apply bind_Some in E as (x & _ & [= <-]).
  - by apply bind_Some in E as (x & _ & [= <-]).
  - by apply dispatch_last in E.
Qed.

Definition turns (lab : label) : nat := match lab with LGrant _ => 1 | _ => 0 end.

Lemma worker_last lab st st' : worker_step lab st st' →
  match lab with
  | LGrant i => last_of st' = Z.of_nat i ∧ server_next_prefill_slot_locked (slots st) (last_of st) = Z.of_nat i ∧ ¬ waits (slots st') i
  | _ => last_of st' = last_of st
  end.
Proof.
  destruct 1 as [| | | |st i s j st' _ E|st i s common st' _ _ E| |st i s j _| | |st i s j gen [Hi _] _ _ E| | |st i s j gen token st' _ E|
    st i s j gen c st' s' _ _ _ _ E _| | | | ]; try done.
  - by apply bind_Some in E as (x & _ & [= <-]).
  - by apply dispatch_last in E.
  - unfold server_generation_leave. by destruct (0 <? _).
  - unfold prefill_blocked in E. apply orb_false_iff in E as [_ E%negb_false_iff%Z.eqb_eq]. split_and!; [done|done|].
    intros (t & Ht & Hp). cbn in Ht. rewrite list_lookup_insert_eq in Ht by (by eapply lookup_lt_Some). by simplify_eq.
  - unfold eval_token_submit in E. apply bind_Some in E as (c & _ & E). apply (inj Some) in E. repeat case_match; simplify_eq. done.
  - unfold eval_token_withdraw in E. pose proof (withdraw_last i st) as H. destruct (server_cancel_pending_decode_locked i st) as [[] st1]; [|done].
    cbn in H. apply bind_Some in E as (t & _ & E). apply (inj Some) in E. subst st'. rewrite <- H. by destruct c.
Qed.

(** A run in which slot [i] keeps waiting for its turn, with the number of turns granted. *)
Inductive waiting_run (i : nat) : nat → server → server → Prop :=
  | waiting_here st : waits (slots st) i → waiting_run i 0 st st
  | waiting_step lab k st1 st2 st3 : waits (slots st1) i → step lab st1 st2 → waiting_run i k st2 st3 → waiting_run i (turns lab + k) st1 st3.

Lemma waiting_run_waits i k st st' : waiting_run i k st st' → waits (slots st) i.
Proof. by destruct 1. Qed.

Lemma turn_nearer n st i k st' : sched_inv n st → waits (slots st) i → worker_step (LGrant k) st st' → waits (slots st') i →
  ahead (last_of st') n i < ahead (last_of st) n i.
Proof.
  intros [l Hinv] Hw Hs Hw'. pose proof (inv_last _ _ _ Hinv) as [Hl _]. pose proof Hinv as (_ & Hm & _). pose proof (mi_len _ _ _ Hm) as Hlen.
  destruct (worker_last _ _ _ Hs) as (-> & Hn & Hno). destruct (next_prefill_some _ _ _ Hl Hw) as (m & Hk & E & _). rewrite Hlen in *.
  assert (Hkm : turn (last_of st) n m = k) by (apply Nat2Z.inj; unfold last_of in *; congruence).
  pose proof Hw as (s & Hi & _). assert (i < n)%nat by (rewrite <- Hlen; by eapply lookup_lt_Some).
  destruct (decide (m = ahead (last_of st) n i + 1)) as [->|]; [rewrite turn_ahead in Hkm by done; by subst k|].
  rewrite <- Hkm. unfold last_of in *. rewrite ahead_after by lia. lia.
Qed.

Lemma waiting_run_bound n i k st st' : waiting_run i k st st' → sched_inv n st → Z.of_nat k <= ahead (last_of st) n i.
Proof.
  induction 1 as [st Hw|lab k st1 st2 st3 Hw Hs Hr IH]; intros Hinv.
  - destruct Hinv as [l Hinv]. pose proof (inv_last _ _ _ Hinv). apply Z.mod_pos_bound. lia.
  - pose proof (waiting_run_waits _ _ _ _ Hr) as Hw2. destruct Hs as [st st2 Hc|lab st st2 Hc].
    + rewrite <- (client_last _ _ Hc). apply IH. by eapply client_step_inv.
    + specialize (IH (worker_step_inv _ _ _ _ Hinv Hc)). destruct lab as [| |g]; cbn [turns Nat.add].
      1,2: by rewrite <- (worker_last _ _ _ Hc). pose proof (turn_nearer _ _ _ _ _ Hinv Hw Hc Hw2). lia.
Qed.

(** ** The guarantees *)

(** C1. In every state the server can reach, whatever the interleaving of clients,
    workers, the decode thread, cancellations and shutdown: every place that refers
    to a job (the queue, the slots, the workers) refers to one whose client still
    waits for it and that is not done, no job is in two places, and every job that is
    open is in one of them. So no job is lost or served twice, and no thread uses a
    job after its client's stack frame is gone. *)
Theorem scheduler_jobs_safe n st (Hn : (0 < n)%nat) (Hr : reachable n st) :
  ∃ l, queue_is (queue st) l ∧ dom (q_next (queue st)) = dom (jobs st)
    ∧ NoDup (refs l (slots st))
    ∧ (∀ j, j ∈ refs l (slots st) ↔ ∃ x, jobs st !! j = Some x ∧ open_job x = true)
    ∧ (∀ i s j, slots st !! i = Some s → running s = Some j → ∃ x, jobs st !! j = Some x ∧ j_done x = false).
Proof.
  destruct (reachable_inv n st Hn Hr) as [l Hinv]. exists l. pose proof Hinv as ([Hqi Hdm Hon Hop Hde] & _). split_and!; [done..|].
  intros i s j Hi Hrun. destruct (slot_alive _ _ _ _ _ _ Hinv Hi Hrun) as (x & Hx & Ho & _). exists x. split; [done|].
  unfold open_job in Ho. by destruct (j_done x).
Qed.

(** C22. One thread at a time works on the model: two slots never own it together,
    none owns it while a batch is evaluated, [model_busy] is clear only when nobody
    does, and the slots of a batch are exactly those marked in flight, whose workers
    wait with a job that is still open. *)
Theorem scheduler_model_exclusive n st (Hn : (0 < n)%nat) (Hr : reachable n st) :
  (∀ i k s t, slots st !! i = Some s → slots st !! k = Some t → owns_model s = true → owns_model t = true → i = k)
  ∧ (∀ i s, slots st !! i = Some s → owns_model s = true → in_batch (decoder (model st)) = false ∧ model_busy (model st) = true)
  ∧ (in_batch (decoder (model st)) = true → model_busy (model st) = true)
  ∧ (∀ i s, slots st !! i = Some s →
       (i ∈ members (decoder (model st)) ↔ decode_in_flight s = true)
       ∧ (decode_in_flight s = true → ∃ j gen x, sl_worker s = WRun j gen DecodeWait ∧ jobs st !! j = Some x ∧ open_job x = true)).
Proof.
  destruct (reachable_inv n st Hn Hr) as [l Hinv]. pose proof Hinv as (_ & Hm & _). destruct (owner_unique _ _ _ Hm) as (H1 & Hb & Hf). split_and!.
  - intros i k s t. by apply cnt_unique.
  - intros i s Hi Hs. pose proof (cnt_elem _ _ _ _ Hi Hs) as Hc. split; [destruct (in_batch _)|destruct (model_busy _)]; try done; exfalso.
    + specialize (Hb eq_refl). lia.
    + destruct (Hf eq_refl). lia.
  - intros Hd. destruct (model_busy (model st)); [done|]. destruct (Hf eq_refl). congruence.
  - intros i s Hi. pose proof (mi_flight _ _ _ Hm i s Hi) as Hfl. split.
    + rewrite Hfl. by rewrite bool_decide_eq_true.
    + intros Hd. pose proof (Forall_lookup_1 _ _ _ _ (mi_slots _ _ _ Hm) Hi) as Hok. unfold slot_ok, activity_flags, flags in Hok. rewrite Hd in Hok.
      destruct (sl_worker s) as [| |j g []| | |] eqn:Hw; destruct_and?; try done. destruct (slot_alive n l st i s j Hinv Hi) as (x & ? & ? & _); [done|].
      by exists j, g, x.
Qed.

(** C21. There is no deadlock: while a job is not done, a worker or the decode thread
    can make a step, or the job's own client is in the middle of cancelling it and
    can. *)
Theorem scheduler_no_deadlock n st j x (Hn : (0 < n)%nat) (Hr : reachable n st) (Hj : jobs st !! j = Some x) (Hd : j_done x = false) :
  (∃ lab st', worker_step lab st st') ∨ (job_detached x = true ∧ ∃ st', client_step st st').
Proof.
  destruct (reachable_inv n st Hn Hr) as [l Hinv]. pose proof Hinv as ([Hqi Hdm Hon Hop Hde] & _). destruct (job_detached x) eqn:E; [right|left].
  - split; [done|]. unfold job_detached in E. destruct (j_client x) as [| |d|] eqn:Ec; try done.
    + eexists. by eapply step_model.
    + eexists. eapply step_complete_detached; [done|done|]. unfold job_complete. cbn. by rewrite lookup_insert_eq.
  - assert (Hin : j ∈ refs l (slots st)) by (apply Hop; exists x; split; [done|]; unfold open_job; by rewrite Hd, E).
    apply (ref_busy _ _ _ _ Hinv), cnt_pos in Hin as (i & s & Hi & Hb). by eapply busy_moves.
Qed.

(** C23. No prefill starves: while a slot waits for its turn, whatever else the
    threads do, fewer turns are granted to others than there are slots. *)
Theorem prefill_bounded_bypass n st st' i k (Hn : (0 < n)%nat) (Hr : reachable n st) (Hw : waiting_run i k st st') : (k < n)%nat.
Proof.
  pose proof (reachable_inv n st Hn Hr) as Hinv. pose proof (waiting_run_bound _ _ _ _ _ Hw Hinv) as Hb.
  pose proof (Z.mod_pos_bound (Z.of_nat i - last_of st - 1) (Z.of_nat n) ltac:(lia)) as Hm. unfold ahead in Hb. lia.
Qed.

(** ** Which job runs where *)

Lemma best_slot_none common js sl j x i s : common_ok common → best_slot common js sl j = None → js !! j = Some x → sl !! i = Some s → free s →
  0 <= job_required_slot_locked sl (j_req x) ∧ job_required_slot_locked sl (j_req x) ≠ Z.of_nat i.
Proof.
  intros Hc Hb Hx Hi Hf. unfold best_slot in Hb. rewrite Hx in Hb. set (required := job_required_slot_locked sl (j_req x)) in *.
  destruct (best_from_spec (λ i, common i j) required sl 0 None INT_MIN) as [[_ Hall]|(k & E & _)]; [|congruence]. cbn [Nat.add] in Hall.
  specialize (Hall i s Hi). unfold slot_score in Hall. pose proof (proj2 (score_eligible s (Z.of_nat i) (common i j) required (Hc i j))) as H.
  split; [destruct (decide (required < 0)); [|lia]|intros E]; exfalso; enough (INT_MIN < INT_MIN) by lia; eapply Z.lt_le_trans; [apply H|exact Hall|apply H|exact Hall]; naive_solver.
Qed.

(** A round of the dispatcher takes the first job of the queue that can run now,
    the jobs before it waiting for the busy slot their conversation lives in; a job
    that needs a live slot gets that one, any other the free slot whose session has
    the longest prefix of the prompt, the first of them on a tie. *)
Theorem dispatch_picks_best common js q l sl j i q' (Hc : common_ok common) (Hq : queue_is q l)
    (Ht : queue_take_first (best_slot common js sl) q = Some (Some (j, i), q')) :
  ∃ l1 l2 x s, l = l1 ++ j :: l2 ∧ queue_is q' (l1 ++ l2) ∧ js !! j = Some x ∧ sl !! i = Some s ∧ free s
    ∧ (∀ k y, k ∈ l1 → js !! k = Some y → 0 <= job_required_slot_locked sl (j_req y)
         ∧ ∀ i' t, sl !! i' = Some t → free t → job_required_slot_locked sl (j_req y) ≠ Z.of_nat i')
    ∧ (0 <= job_required_slot_locked sl (j_req x) → job_required_slot_locked sl (j_req x) = Z.of_nat i)
    ∧ (job_required_slot_locked sl (j_req x) < 0 → ∀ k t, sl !! k = Some t → free t →
         common k j <= common i j ∧ (common k j = common i j → (i <= k)%nat)).
Proof.
  destruct (queue_take_first_is (best_slot common js sl) q l Hq) as (q2 & E & Hq2 & _). rewrite E in Ht.
  destruct (take_first (best_slot common js sl) l) as [[[j2 i2] r]|] eqn:Et; [|done]. apply (inj Some) in Ht. simplify_eq.
  apply take_first_some in Et as (l1 & l2 & -> & -> & Hb & Hl1). destruct (best_slot_some _ _ _ _ _ Hc Hb) as (x & s & Hx & Hi & Hf & Hr & Hmax).
  exists l1, l2, x, s. split_and!; [done..| |lia|done].
  intros k y Hk Hy. apply (proj1 (Forall_forall _ _) Hl1) in Hk. split; [by eapply best_slot_none|]. intros i' t Hi' Hf'. by eapply best_slot_none.
Qed.

(** ** Witnesses

    Two slots, two clients: both jobs are dispatched, both workers ask for the model,
    the first has its turn. *)
Definition plain : live_request := LiveRequest false no_ids false no_ids.
Definition zero_common (i : nat) (j : job) : Z := 0.

Definition slot_asking (j : job) : server_slot :=
  ServerSlot slot_live_zero None (Some j) true true false false false 0 0 [] (WRun j false PrefillWait).
Definition slot_prefilling (j : job) : server_slot :=
  ServerSlot slot_live_zero None (Some j) true false false false false 0 0 [] (WRun j false Prefilling).

Definition two_jobs : gmap job job_state :=
  {[1%positive := JobState plain false false CWaiting; 2%positive := JobState plain false false CWaiting]}.

Definition both_ask : server :=
  Server [slot_asking 1%positive; slot_asking 2%positive] (JobQueue None None {[1%positive := None; 2%positive := None]}) two_jobs false false (ModelState false false 0 0 1 DWait).
Definition first_turn : server :=
  Server [slot_prefilling 1%positive; slot_asking 2%positive] (JobQueue None None {[1%positive := None; 2%positive := None]}) two_jobs false false (ModelState true false 0 0 0 DWait).

Lemma zero_common_ok : common_ok zero_common.
Proof. intros i j. unfold zero_common. lia. Qed.

Lemma both_ask_reachable : reachable 2 both_ask.
Proof.
  eapply rtc_l. { eexists. apply client_moves. eapply (step_arrive _ 1%positive plain zero_common); [reflexivity|apply zero_common_ok|vm_compute; reflexivity]. }
  eapply rtc_l. { eexists. apply client_moves. eapply (step_arrive _ 2%positive plain zero_common); [reflexivity|apply zero_common_ok|vm_compute; reflexivity]. }
  eapply rtc_l. { eexists. apply server_moves. eapply (step_take _ 0); [split; reflexivity|reflexivity]. }
  eapply rtc_l. { eexists. apply server_moves. eapply (step_take _ 1); [split; reflexivity|reflexivity]. }
  eapply rtc_l. { eexists. apply server_moves. eapply (step_begin _ 0). split; reflexivity. }
  eapply rtc_l. { eexists. apply server_moves. eapply (step_begin _ 1). split; reflexivity. }
  eapply rtc_l. { eexists. apply server_moves. eapply (step_prefill_ask _ 0); [split; reflexivity|reflexivity]. }
  eapply rtc_l. { eexists. apply server_moves. eapply (step_prefill_ask _ 1); [split; reflexivity|reflexivity]. }
  match goal with |- rtc _ ?x ?y => replace x with y by (vm_compute; reflexivity) end. apply rtc_refl.
Qed.

Lemma first_turn_step : step (LGrant 0) both_ask first_turn.
Proof.
  apply server_moves. replace first_turn with (prefill_take both_ask 0 (set_worker (WRun 1%positive false Prefilling) (slot_asking 1%positive))) by reflexivity.
  eapply step_prefill_grant; [split; reflexivity|reflexivity|reflexivity|reflexivity].
Qed.

(** Witness of C1. *)
Lemma scheduler_jobs_safe_witness : ∃ l, NoDup (refs l (slots both_ask)) ∧ 1%positive ∈ refs l (slots both_ask).
Proof.
  destruct (scheduler_jobs_safe 2 both_ask ltac:(lia) both_ask_reachable) as (l & _ & _ & Hnd & Hop & _). exists l. split; [exact Hnd|].
  apply Hop. exists (JobState plain false false CWaiting). split; reflexivity.
Defined.

(** Witness of C22. *)
Lemma scheduler_model_exclusive_witness : in_batch (decoder (model first_turn)) = false ∧ model_busy (model first_turn) = true.
Proof.
  destruct (scheduler_model_exclusive 2 first_turn ltac:(lia)) as (_ & H & _).
  - eapply rtc_r; [exact both_ask_reachable|]. exists (LGrant 0). exact first_turn_step.
  - apply (H 0%nat (slot_prefilling 1%positive)); reflexivity.
Defined.

(** Witness of C21. *)
Lemma scheduler_no_deadlock_witness : (∃ lab st', worker_step lab both_ask st') ∨ (job_detached (JobState plain false false CWaiting) = true ∧ ∃ st', client_step both_ask st').
Proof. apply (scheduler_no_deadlock 2 both_ask 1%positive); [lia|exact both_ask_reachable|reflexivity|reflexivity]. Defined.

(** Witness of C23: the second slot waits while the first has its turn. *)
Lemma prefill_bounded_bypass_witness : (1 < 2)%nat.
Proof.
  apply (prefill_bounded_bypass 2 both_ask first_turn 1 1); [lia|exact both_ask_reachable|].
  apply (waiting_step 1 (LGrant 0) 0 _ first_turn); [|exact first_turn_step|apply waiting_here]; exists (slot_asking 2%positive); split; reflexivity.
Defined.

(** Witness: the second slot holds more of the prompt. *)
Lemma dispatch_picks_best_witness :
  ∃ l1 l2 x s, [1%positive] = l1 ++ 1%positive :: l2 ∧ queue_is (JobQueue None None {[1%positive := None]}) (l1 ++ l2)
    ∧ two_jobs !! 1%positive = Some x ∧ [slot_zero; slot_zero] !! 1%nat = Some s ∧ free s.
Proof.
  destruct (dispatch_picks_best (λ i _, Z.of_nat (Nat.min i 7)) two_jobs (JobQueue (Some 1%positive) (Some 1%positive) {[1%positive := None]}) [1%positive]
    [slot_zero; slot_zero] 1%positive 1 (JobQueue None None {[1%positive := None]})) as (l1 & l2 & x & s & E & Hq & Hx & Hs & Hf & _).
  - intros i j. lia.
  - split_and!; [apply NoDup_singleton| |reflexivity]. split; [reflexivity|]. exists None. split; reflexivity.
  - vm_compute. reflexivity.
  - exists l1, l2, x, s. split_and!; assumption.
Defined.
