(* ===== verification/Prefill.v ===== *)
(** * Synchronising a session with a prompt in quanta

    [server_session_sync] of [engine/src/server.c] in batched mode: the prompt is
    evaluated in pieces so that other sessions get their turn in between. The
    evaluation is [ds4_session_sync] of the engine, an argument here, of which the
    theorems use what [engine/include/engine.h] says of it. *)
From S2P Require Import Prelude CLib KvHeader KvCache Json Request Stream ToolText ToolMemory ToolMap LiveState JobQueue Scheduler.

(** The tokens a session stands at. *)
Record session := Session {
  checkpoint_valid : bool;
  checkpoint : list Z;
}.

Definition ds4_session_pos (s : session) : Z := Z.of_nat (length (checkpoint s)).

Fixpoint common_len (a b : list Z) : Z :=
  match a, b with
  | x :: a', y :: b' => if x =? y then 1 + common_len a' b' else 0
  | _, _ => 0
  end.

Definition ds4_session_common_prefix (s : session) (prompt : list Z) : Z :=
  if checkpoint_valid s then common_len (checkpoint s) prompt else 0.

(** What a round finds: whether the server or the client has stopped, whether
    [server_prefill_enter] lets it in, whether another slot generates. *)
Record sync_round := SyncRound {
  sr_stopped : bool;
  sr_entered : bool;
  sr_generating : bool;
}.

(** Where a round goes: [done + quantum] in [int], cut to the prompt. *)
Definition sync_target (done quantum len : Z) : Z :=
  let target := i32 (done + quantum) in
  let target := if (target >? len) || (target <? done) then len else target in
  if target <=? 0 then len else target.

Section sync.
Context (mixed_prefill_quantum : Z) (is_glm53 : bool).
Context (session_sync : session → list Z → Z * bytes * session).
Context (rounds : nat → sync_round).

Definition quantum_of (k : nat) : Z := server_prefill_quantum_for mixed_prefill_quantum is_glm53 (sr_generating (rounds k)).

(** The result, the message, the session, and the pieces: round, from, to. *)
Fixpoint sync_loop (fuel k : nat) (s : session) (prompt : list Z) (done : Z) (called : bool) (pieces : list (nat * Z * Z))
  : option (Z * bytes * session * list (nat * Z * Z)) :=
  match fuel with
  | O => None
  | S fuel' =>
      let len := Z.of_nat (length prompt) in
      if negb (sr_stopped (rounds k)) && (negb called || (done <? len)) then
        let target := sync_target done (quantum_of k) len in
        if negb (sr_entered (rounds k)) then Some (DS4_SESSION_SYNC_INTERRUPTED, [], s, pieces)
        else
          let '(rc, err, s') := session_sync s (take (Z.to_nat target) prompt) in
          let pieces := pieces ++ [(k, done, target)] in
          if negb (rc =? 0) then Some (rc, err, s', pieces)
          else
            let done := ds4_session_pos s' in
            if len <=? done then Some (0, err, s', pieces)
            else if done <? target then Some (1, bs "prefill made no progress", s', pieces)
            else sync_loop fuel' (S k) s' prompt done true pieces
      else Some (if sr_stopped (rounds k) then DS4_SESSION_SYNC_INTERRUPTED else 0, [], s, pieces)
  end.

Definition server_session_sync (s : session) (prompt : list Z) : option (Z * bytes * session * list (nat * Z * Z)) :=
  let live := ds4_session_pos s in
  let common := ds4_session_common_prefix s prompt in
  let done := if (common =? live) && (live <=? Z.of_nat (length prompt)) then live else 0 in
  sync_loop (S (S (length prompt))) 0 s prompt done false [].

(** ** It ends *)

Hypothesis quantum_pos : 1 <= mixed_prefill_quantum <= INT_MAX.

Lemma quantum_range k : 1 <= quantum_of k <= INT_MAX.
Proof. unfold quantum_of, server_prefill_quantum_for. repeat case_if; bool_to_prop; lia. Qed.

Lemma target_range done q len : 0 <= done <= len → 1 <= q <= INT_MAX → len <= INT_MAX →
  let t := sync_target done q len in t <= len ∧ (done < len → done < t ∧ t - done <= q) ∧ (done = len → t = len) ∧ (0 < len → 0 < t).
Proof.
  intros Hd Hq Hl. unfold sync_target. destruct (decide (done + q <= INT_MAX)) as [Hs|Hs].
  - rewrite i32_small by (unfold is_i32; lia). destruct (Z.gtb_spec (done + q) len), (Z.ltb_spec (done + q) done); cbn [orb]; case_if; bool_to_prop; lia.
  - assert (E : i32 (done + q) = done + q - 2 ^ 32).
    { unfold i32. replace (done + q + 2 ^ 31) with (done + q - 2 ^ 31 + 1 * 2 ^ 32) by lia. rewrite Z.mod_add by lia. rewrite Z.mod_small by lia. lia. }
    rewrite E. destruct (Z.ltb_spec (done + q - 2 ^ 32) done); [|lia]. rewrite orb_true_r. case_if; bool_to_prop; lia.
Qed.

Lemma sync_loop_total fuel : ∀ k s prompt dn called pieces, Z.of_nat (length prompt) <= INT_MAX → 0 <= dn <= Z.of_nat (length prompt) →
  Z.of_nat (length prompt) - dn < Z.of_nat fuel → ∃ r, sync_loop fuel k s prompt dn called pieces = Some r.
Proof.
  induction fuel as [|fuel IH]; intros k s prompt dn called pieces Hl Hd Hf; [lia|]. cbn [sync_loop].
  case_if; [|by eexists]. case_if; [by eexists|]. destruct (session_sync s _) as [[rc err] s'].
  case_if; [by eexists|]. case_if; [by eexists|]. case_if; [by eexists|]. bool_to_prop.
  destruct (target_range dn (quantum_of k) (Z.of_nat (length prompt)) Hd (quantum_range k) Hl) as (H1 & H2 & H3 & _).
  destruct (decide (dn = Z.of_nat (length prompt))) as [Hdone|]; [rewrite (H3 Hdone) in *; lia|]. apply IH; lia.
Qed.

Lemma common_len_range a b : 0 <= common_len a b <= Z.of_nat (length a) ∧ common_len a b <= Z.of_nat (length b).
Proof. revert b. induction a as [|x a IH]; intros [|y b]; cbn [common_len length]; [lia..|]. specialize (IH b). case_if; lia. Qed.

Lemma sync_start_range s prompt :
  let live := ds4_session_pos s in
  0 <= (if (ds4_session_common_prefix s prompt =? live) && (live <=? Z.of_nat (length prompt)) then live else 0) <= Z.of_nat (length prompt).
Proof. cbn. unfold ds4_session_pos. case_if; bool_to_prop; lia. Qed.

Lemma session_sync_total s prompt : Z.of_nat (length prompt) <= INT_MAX → ∃ r, server_session_sync s prompt = Some r.
Proof.
  intros Hl. unfold server_session_sync. pose proof (sync_start_range s prompt) as Hr. cbn in Hr. apply sync_loop_total; [done|done|lia].
Qed.

(** ** It reaches the prompt *)

(** What the engine promises: after a success the session stands at the tokens it
    was given. *)
Definition sync_promise : Prop := ∀ s p rc err s', p ≠ [] → session_sync s p = (rc, err, s') → rc = 0 → checkpoint_valid s' = true ∧ checkpoint s' = p.

(** Each piece starts where the one before ended, and is not longer than the quantum
    of its round. *)
Fixpoint pieces_ok (from : Z) (to : Z) (pieces : list (nat * Z * Z)) : Prop :=
  match pieces with
  | [] => from = to
  | (k, a, b) :: r => a = from ∧ a <= b <= a + quantum_of k ∧ pieces_ok b to r
  end.

Lemma pieces_snoc from mid to k pieces : pieces_ok from mid pieces → mid <= to <= mid + quantum_of k → pieces_ok from to (pieces ++ [(k, mid, to)]).
Proof.
  revert from. induction pieces as [|[[k' a] b] r IH]; intros from; cbn [pieces_ok app].
  - intros -> Ht. split_and!; [done|lia|lia|done].
  - intros (-> & Hb & Hr) Ht. split_and!; [done|lia|lia|by apply IH].
Qed.

Hypothesis promise : sync_promise.

Lemma sync_loop_sound fuel : ∀ k s prompt from dn called pieces rc err s' out, prompt ≠ [] → Z.of_nat (length prompt) <= INT_MAX →
  0 <= dn <= Z.of_nat (length prompt) → (called = true → dn < Z.of_nat (length prompt)) → pieces_ok from dn pieces →
  sync_loop fuel k s prompt dn called pieces = Some (rc, err, s', out) → rc = 0 →
  checkpoint_valid s' = true ∧ checkpoint s' = prompt ∧ pieces_ok from (Z.of_nat (length prompt)) out.
Proof.
  induction fuel as [|fuel IH]; intros k s prompt from dn called pieces rc err s' out Hne Hl Hd Hc Hp; cbn [sync_loop]; [done|].
  set (len := Z.of_nat (length prompt)) in *. assert (Hlen : 0 < len) by (subst len; destruct prompt; [done|cbn [length]; lia]).
  destruct (negb (sr_stopped (rounds k)) && (negb called || (dn <? len))) eqn:Eg.
  2: { intros [= <- <- <- <-]. destruct (sr_stopped (rounds k)); [done|]. exfalso. cbn in Eg. apply orb_false_iff in Eg as [->%negb_false_iff ?%Z.ltb_ge].
       specialize (Hc eq_refl). lia. }
  destruct (negb (sr_entered (rounds k))); [by intros [= <- <- <- <-]|].
  destruct (target_range dn (quantum_of k) len Hd (quantum_range k) Hl) as (H1 & H2 & H3 & H4). set (t := sync_target dn (quantum_of k) len) in *.
  destruct (session_sync s (take (Z.to_nat t) prompt)) as [[rc1 err1] s1] eqn:Es. destruct (Z.eqb_spec rc1 0) as [->|]; cbn [negb]; [|by intros [= <- <- <- <-]].
  assert (Htk : take (Z.to_nat t) prompt ≠ []).
  { intros E. apply (f_equal length) in E. rewrite length_take in E. cbn in E. specialize (H4 Hlen). lia. }
  destruct (promise _ _ _ _ _ Htk Es eq_refl) as [Hv Hck].
  assert (Hpos : ds4_session_pos s1 = t) by (unfold ds4_session_pos; rewrite Hck, length_take; specialize (H4 Hlen); lia).
  assert (Hp' : pieces_ok from t (pieces ++ [(k, dn, t)])) by (apply pieces_snoc; [done|]; pose proof (quantum_range k); lia).
  rewrite Hpos. destruct (Z.leb_spec len t).
  - intros [= <- <- <- <-] _. rewrite Hck, take_ge by lia. split_and!; [done|done|]. by replace len with t by lia.
  - rewrite Z.ltb_irrefl. intros Hloop. eapply IH; [done|done| | |exact Hp'|exact Hloop]; [|intros _]; lia.
Qed.
End sync.

Lemma session_sync_sound mixed glm53 sync rounds s prompt
    (Hq : 1 <= mixed <= INT_MAX) (Hl : Z.of_nat (length prompt) <= INT_MAX) (Hne : prompt ≠ []) (Hp : sync_promise sync) :
  ∃ rc err s' pieces, server_session_sync mixed glm53 sync rounds s prompt = Some (rc, err, s', pieces)
    ∧ (rc = 0 → checkpoint_valid s' = true ∧ checkpoint s' = prompt
         ∧ ∃ from, pieces_ok mixed glm53 rounds from (Z.of_nat (length prompt)) pieces ∧ (from = 0 ∨ from = ds4_session_common_prefix s prompt)).
Proof.
  destruct (session_sync_total mixed glm53 sync rounds Hq s prompt Hl) as ((((rc & err) & s') & pieces) & E).
  exists rc, err, s', pieces. split; [done|]. intros Hrc. pose proof (sync_start_range s prompt) as Hr. unfold server_session_sync in E. cbn zeta in Hr, E.
  eapply (sync_loop_sound mixed glm53 sync rounds Hq Hp) in E as (Hv & Hck & Hpc); [|exact Hne|exact Hl|exact Hr|discriminate|reflexivity|exact Hrc].
  split_and!; [done|done|]. eexists. split; [exact Hpc|]. case_if; [right|by left]. bool_to_prop. lia.
Qed.

(** Synchronising a prompt always returns; when it reports success the session
    stands at exactly the prompt, and the pieces it was evaluated in join up from
    where the session stood to the end of the prompt, each no longer than the quantum
    of its round; a session that holds another conversation starts over. *)
Theorem session_sync_exact mixed glm53 sync rounds s prompt
    (Hq : 1 <= mixed <= INT_MAX) (Hl : Z.of_nat (length prompt) <= INT_MAX) (Hne : prompt ≠ []) (Hp : sync_promise sync) :
  ∃ rc err s' pieces, server_session_sync mixed glm53 sync rounds s prompt = Some (rc, err, s', pieces)
    ∧ (rc = 0 → checkpoint_valid s' = true ∧ checkpoint s' = prompt
         ∧ ∃ from, pieces_ok mixed glm53 rounds from (Z.of_nat (length prompt)) pieces ∧ (from = 0 ∨ from = ds4_session_common_prefix s prompt)).
Proof. by apply session_sync_sound. Qed.

(** A prompt of five tokens on a session that holds the first two,
    with an engine that evaluates what it is given and a quantum of two. *)
Lemma session_sync_exact_witness :
  ∃ rc err s' pieces, server_session_sync 2 false (λ _ p, (0, [], Session true p)) (λ _, SyncRound false true true) (Session true [7; 8]) [7; 8; 9; 10; 11]
      = Some (rc, err, s', pieces) ∧ (rc = 0 → checkpoint s' = [7; 8; 9; 10; 11]) ∧ rc = 0 ∧ pieces = [(0%nat, 2, 4); (1%nat, 4, 5)].
Proof.
  destruct (session_sync_exact 2 false (λ _ p, (0, [], Session true p)) (λ _, SyncRound false true true) (Session true [7; 8]) [7; 8; 9; 10; 11])
    as (rc & err & s' & pieces & E & H).
  - lia.
  - cbn. lia.
  - discriminate.
  - intros s p rc err s' _ [= <- <- <-] _. split; reflexivity.
  - exists rc, err, s', pieces. split; [exact E|]. split; [intros Hrc; apply H in Hrc as (_ & Hc & _); exact Hc|]. vm_compute in E. injection E as <- <- <- <-. split; reflexivity.
Defined.
