(* ===== verification/Http.v ===== *)
(** * Reading an HTTP request

    [read_http_request] of [engine/src/server.c] with its helpers. The socket is the
    list of what arrives on it: pieces of data, interrupted calls, an error; its end
    is the end of the connection. A piece longer than the buffer of the caller is
    handed over in parts, as [recv] does.

    A request written with CRLF lines and its length is read back exactly, for every
    way the network cuts it into pieces. *)
From Stdlib Require Import Floats.SpecFloat.
From S2P Require Import Prelude CLib Strtod.

(** ** The socket *)

Inductive net_event :=
  | NData (d : bytes)
  | NIntr
  | NFail.

Inductive recv_result :=
  | RData (d : bytes)
  | RIntr
  | RStop.

Definition recv (cap : nat) (net : list net_event) : recv_result * list net_event :=
  match net with
  | [] => (RStop, [])
  | NFail :: r => (RStop, r)
  | NIntr :: r => (RIntr, r)
  | NData [] :: r => (RStop, r)
  | NData d :: r => if (length d <=? cap)%nat then (RData d, r) else (RData (take cap d), NData (drop cap d) :: r)
  end.

(** ** The head *)

Definition CRLF : bytes := [13; 10].

Definition header_end (p : bytes) : option nat :=
  match strstr p (CRLF ++ CRLF) with
  | Some i => Some (i + 4)%nat
  | None => match strstr p [10; 10] with Some i => Some (i + 2)%nat | None => None end
  end.

(** The line at [p], up to its newline or the end of the head. *)
Fixpoint line_at (p : bytes) : bytes :=
  match p with
  | [] => []
  | c :: r => if c =? 10 then [] else c :: line_at r
  end.

Definition strip_cr (l : bytes) : bytes := match last l with Some 13 => removelast l | _ => l end.

(** The loop of [content_length] over the head [h], with what follows it in the
    buffer: [strtol] reads on from the value to the end of the string. *)
Fixpoint content_length_loop (fuel : nat) (h rest : bytes) : option Z :=
  match fuel with
  | O => None
  | S fuel' =>
      match h with
      | [] => Some 0
      | _ =>
          let line := line_at h in
          let body := strip_cr line in
          match (if (15 <=? length body)%nat then strip_nocase (bs "content-length:") line else None) with
          | Some _ =>
              let skipped := (length (drop 15 body) - length (drop_while isspace (drop 15 body)))%nat in
              Some (fst (fst (strtol (c_str (drop (15 + skipped) (h ++ rest))))))
          | None => content_length_loop fuel' (drop (S (length line)) h) rest
          end
      end
  end.

Definition content_length (b : bytes) (n : nat) : option Z := content_length_loop (S n) (take n b) (drop n b).

(** [sscanf(line, "%7s %255s", ...)]: one word of at most [width] bytes. *)
Fixpoint scan_word (width : nat) (s : bytes) : bytes * bytes :=
  match width, s with
  | S w, c :: r => if isspace c then ([], s) else let '(a, b) := scan_word w r in (c :: a, b)
  | _, _ => ([], s)
  end.

Definition scan_request_line (line : bytes) : option (bytes * bytes) :=
  let '(method, r) := scan_word 7 (skip_space line) in
  let '(path, _) := scan_word 255 (skip_space r) in
  match method, path with
  | _ :: _, _ :: _ => Some (method, path)
  | _, _ => None
  end.

Fixpoint before_query (path : bytes) : bytes :=
  match path with
  | [] => []
  | c :: r => if c =? 63 then [] else c :: before_query r
  end.

(** ** The request *)

Definition max_header : nat := 65536.
Definition max_body : Z := 67108864.

Record http_request := HttpRequest {
  hr_method : bytes;
  hr_path : bytes;
  hr_body : bytes;
}.

(** The outer option is for running out of fuel, the inner one for [goto fail]. *)
Fixpoint read_head (fuel : nat) (b : bytes) (net : list net_event) : option (option (bytes * nat * list net_event)) :=
  match fuel with
  | O => None
  | S fuel' =>
      if (length b <? max_header)%nat then
        match recv 4096 net with
        | (RIntr, net') => read_head fuel' b net'
        | (RStop, _) => Some None
        | (RData d, net') =>
            match header_end (b ++ d) with
            | Some hend => Some (Some (b ++ d, hend, net'))
            | None => read_head fuel' (b ++ d) net'
            end
        end
      else Some None
  end.

Fixpoint read_body (fuel : nat) (b : bytes) (want : nat) (net : list net_event) : option (option bytes) :=
  match fuel with
  | O => None
  | S fuel' =>
      if (length b <? want)%nat then
        match recv 8192 net with
        | (RIntr, net') => read_body fuel' b want net'
        | (RStop, _) => Some None
        | (RData d, net') => read_body fuel' (b ++ d) want net'
        end
      else Some (Some b)
  end.

Definition net_size (net : list net_event) : nat := foldr (λ e n, (S (match e with NData d => length d | _ => 0 end) + n)%nat) 0%nat net.

Definition read_http_request (net : list net_event) : option (option http_request) :=
  r ← read_head (S (net_size net)) [] net;
  match r with
  | None => Some None
  | Some (b, hend, net) =>
      match scan_request_line (c_str (take 511 (line_at b))) with
      | None => Some None
      | Some (method, path) =>
          clen ← content_length b hend;
          if (clen <? 0) || (max_body <? clen) then Some None
          else
            r ← read_body (S (net_size net)) b (hend + Z.to_nat clen) net;
            match r with
            | None => Some None
            | Some b => Some (Some (HttpRequest method (before_query path) (take (Z.to_nat clen) (drop hend b))))
            end
      end
  end.

(** ** It always returns *)

Lemma recv_size cap net : (0 < cap)%nat →
  match recv cap net with (RStop, _) => True | (_, net') => (net_size net' < net_size net)%nat end.
Proof.
  intros Hc. destruct net as [|[[|c d]| |] r]; cbn [recv]; [done|done| |unfold net_size; cbn [foldr]; lia|done].
  unfold net_size. destruct (length (c :: d) <=? cap)%nat; cbn [foldr]; rewrite ?length_drop; cbn [length]; lia.
Qed.

Lemma read_head_total fuel : ∀ b net, (net_size net < fuel)%nat → ∃ r, read_head fuel b net = Some r
  ∧ match r with Some (b', hend, net') => header_end b' = Some hend | None => True end.
Proof.
  induction fuel as [|fuel IH]; intros b net Hf; [lia|]. cbn [read_head]. destruct (length b <? max_header)%nat; [|by exists None].
  pose proof (recv_size 4096 net ltac:(lia)) as Hs. destruct (recv 4096 net) as [[d| |] net'].
  - destruct (header_end (b ++ d)) as [h|] eqn:E; [by eexists|]. apply IH. lia.
  - apply IH. lia.
  - by exists None.
Qed.

Lemma read_body_total fuel : ∀ b want net, (net_size net < fuel)%nat → ∃ r, read_body fuel b want net = Some r.
Proof.
  induction fuel as [|fuel IH]; intros b want net Hf; [lia|]. cbn [read_body]. destruct (length b <? want)%nat; [|by eexists].
  pose proof (recv_size 8192 net ltac:(apply Nat.ltb_lt; reflexivity)) as Hs. destruct (recv 8192 net) as [[d| |] net']; [apply IH; lia|apply IH; lia|by eexists].
Qed.

Lemma content_length_total fuel h rest : (length h < fuel)%nat → ∃ v, content_length_loop fuel h rest = Some v.
Proof.
  revert h. induction fuel as [|fuel IH]; intros h Hf; [lia|]. cbn [content_length_loop]. destruct h as [|c h]; [by eexists|].
  destruct (if _ : bool then _ else None); [by eexists|]. apply IH. rewrite length_drop. cbn [length] in *. lia.
Qed.

Lemma read_http_request_total net : ∃ r, read_http_request net = Some r.
Proof.
  unfold read_http_request. destruct (read_head_total (S (net_size net)) [] net) as (r & -> & _); [lia|]. cbn [mbind option_bind].
  destruct r as [[[b h] net']|]; [|by eexists]. destruct (scan_request_line _) as [[m p]|]; [|by eexists].
  unfold content_length. destruct (content_length_total (S h) (take h b) (drop h b)) as [v ->]; [rewrite length_take; lia|]. cbn [mbind option_bind].
  destruct (_ || _); [by eexists|]. destruct (read_body_total (S (net_size net')) b (h + Z.to_nat v) net') as [r ->]; [lia|]. cbn. destruct r; by eexists.
Qed.

(** * Theorems about the reader *)

(** ** A request as a client writes it *)

Definition text_line (l : bytes) : Prop := l ≠ [] ∧ Forall (λ c, c ≠ 0 ∧ c ≠ 10 ∧ c ≠ 13) l.

Definition http_lines (ls : list bytes) : bytes := concat ((λ l, l ++ CRLF) <$> ls).

Definition request_line (method target : bytes) : bytes := method ++ 32 :: target ++ bs " HTTP/1.1".

Definition http_head (method target : bytes) (before : list bytes) (n : Z) (after : list bytes) : bytes :=
  http_lines (request_line method target :: before ++ (bs "Content-Length: " ++ fmt_u n) :: after) ++ CRLF.

(** ** The end of the head *)

Lemma http_lines_cons l ls : http_lines (l :: ls) = l ++ CRLF ++ http_lines ls.
Proof. unfold http_lines. cbn [fmap list_fmap concat]. by rewrite <- app_assoc. Qed.

Lemma strstr_skip l s a needle : Forall (λ c, c ≠ a) l → strstr (l ++ s) (a :: needle) = Nat.add (length l) <$> strstr s (a :: needle).
Proof.
  induction 1 as [|c l Hc _ IH]; [cbn [app length]; by destruct (strstr s (a :: needle))|]. cbn [app strstr strip_prefix].
  destruct (Z.eqb_spec a c); [by subst|]. rewrite IH. by destruct (strstr s (a :: needle)).
Qed.

Lemma no_byte l a : Forall (λ c, c ≠ 0 ∧ c ≠ 10 ∧ c ≠ 13) l → (a = 0 ∨ a = 10 ∨ a = 13) → Forall (λ c, c ≠ a) l.
Proof. intros H Ha. eapply Forall_impl; [exact H|]. intros c (? & ? & ?). destruct Ha as [->|[->| ->]]; done. Qed.

Lemma strstr_lines ls rest : ls ≠ [] → Forall text_line ls →
  strstr (http_lines ls ++ CRLF ++ rest) (CRLF ++ CRLF) = Some (length (http_lines ls) - 2)%nat.
Proof.
  intros Hne Hls. induction Hls as [|l ls [Hl Hc] Hls IH]; [done|]. rewrite http_lines_cons, <- !app_assoc. change (CRLF ++ CRLF) with (13 :: [10; 13; 10]).
  rewrite strstr_skip by (apply no_byte; [done|tauto]). destruct ls as [|k ls].
  - change (http_lines []) with (@nil Z). cbn [app]. cbn [strstr strip_prefix CRLF Z.eqb Pos.eqb fmap option_fmap option_map app].
    f_equal. rewrite !length_app. cbn [length CRLF]. lia.
  - specialize (IH ltac:(done)). inversion Hls as [|? ? [Hk Hck] _]. subst. destruct k as [|c k]; [done|]. inversion Hck as [|? ? (H0 & H10 & H13) _]. subst.
    change (CRLF ++ CRLF) with (13 :: [10; 13; 10]) in IH.
    assert (E : strstr (CRLF ++ http_lines ((c :: k) :: ls) ++ CRLF ++ rest) [13; 10; 13; 10] = Nat.add 2 <$> strstr (http_lines ((c :: k) :: ls) ++ CRLF ++ rest) [13; 10; 13; 10]).
    { set (x := http_lines ((c :: k) :: ls) ++ CRLF ++ rest). assert (Hx : strip_prefix [13; 10] x = None).
      { subst x. rewrite http_lines_cons. cbn [app strip_prefix]. destruct (Z.eqb_spec 13 c); [by subst|done]. }
      clearbody x. change (CRLF ++ x) with (13 :: 10 :: x). assert (E1 : strip_prefix [13; 10; 13; 10] (13 :: 10 :: x) = None).
      { destruct (strip_prefix [13; 10; 13; 10] (13 :: 10 :: x)) as [r|] eqn:Er; [|done]. apply strip_prefix_Some in Er. injection Er as Er. by rewrite Er in Hx. }
      assert (E2 : strip_prefix [13; 10; 13; 10] (10 :: x) = None) by reflexivity. cbn [strstr]. rewrite E1, E2.
      by destruct (strstr x [13; 10; 13; 10]). }
    rewrite E, IH. cbn [fmap option_fmap option_map]. f_equal. rewrite !length_app. rewrite http_lines_cons, !length_app. cbn [length CRLF]. lia.
Qed.

Lemma no_double_lf ls : Forall text_line ls → strstr (http_lines ls ++ CRLF) [10; 10] = None.
Proof.
  induction 1 as [|l ls [Hl Hc] Hls IH]; [done|]. rewrite http_lines_cons, <- !app_assoc. rewrite strstr_skip by (apply no_byte; [done|tauto]).
  apply fmap_None. assert (Hy : ∀ r, http_lines ls ++ CRLF ≠ 10 :: r).
  { intros r. destruct Hls as [|k ls [Hk Hck] _]; [done|]. rewrite http_lines_cons. destruct k as [|c k]; [done|].
    inversion Hck as [|? ? (? & ? & ?) _]. subst. by intros [= ->]. }
  set (y := http_lines ls ++ CRLF) in *. clearbody y. change (CRLF ++ y) with (13 :: 10 :: y).
  assert (E : strip_prefix [10; 10] (10 :: y) = None).
  { destruct (strip_prefix [10; 10] (10 :: y)) as [r|] eqn:Er; [|done]. apply strip_prefix_Some in Er. injection Er as Er. by apply Hy in Er. }
  assert (E1 : strip_prefix [10; 10] (13 :: 10 :: y) = None) by reflexivity. cbn [strstr]. by rewrite E1, E, IH.
Qed.

Section head.
Context (ls : list bytes) (Hne : ls ≠ []) (Hls : Forall text_line ls).

Definition head_text : bytes := http_lines ls ++ CRLF.

Lemma head_length : (length head_text = length (http_lines ls) - 2 + 4)%nat.
Proof.
  unfold head_text. rewrite length_app. destruct ls as [|l r]; [done|]. rewrite http_lines_cons, !length_app. cbn [length CRLF]. lia.
Qed.

Lemma header_end_whole extra : header_end (head_text ++ extra) = Some (length head_text).
Proof. unfold header_end, head_text. rewrite <- app_assoc, strstr_lines by done. f_equal. symmetry. apply head_length. Qed.

Lemma header_end_part p q : p ++ q = head_text → q ≠ [] → header_end p = None.
Proof.
  intros E Hq. assert (Hlq : (0 < length q)%nat) by (destruct q; [done|cbn; lia]). unfold header_end.
  destruct (strstr p (CRLF ++ CRLF)) as [i|] eqn:Es.
  - exfalso. apply strstr_Some in Es as (pre & post & -> & <-). pose proof (strstr_lines ls [] Hne Hls) as Hs. rewrite !app_nil_r in Hs. fold head_text in Hs.
    rewrite <- E in Hs. rewrite <- !app_assoc in Hs. rewrite (app_assoc CRLF CRLF) in Hs.
    pose proof (strstr_first _ _ _ _ pre (post ++ q) Hs eq_refl eq_refl) as Hle. pose proof head_length as Hh. rewrite <- E in Hh.
    rewrite !length_app in Hh. cbn [length CRLF] in Hh. lia.
  - destruct (strstr p [10; 10]) as [i|] eqn:El; [|done]. exfalso. apply strstr_Some in El as (pre & post & -> & <-).
    apply (strstr_None _ _ pre (post ++ q) (no_double_lf ls Hls)). fold head_text. rewrite <- E. by rewrite <- !app_assoc.
Qed.

(** ** The pieces *)

Definition data_of (net : list net_event) : bytes := net ≫= λ e, match e with NData d => d | _ => [] end.

Definition flows (net : list net_event) : Prop :=
  Forall (λ e, match e with NData d => d ≠ [] | NIntr => True | NFail => False end) net.

Lemma recv_flows cap net : (0 < cap)%nat → flows net →
  match recv cap net with
  | (RData d, net') => flows net' ∧ data_of net = d ++ data_of net'
  | (RIntr, net') => flows net' ∧ data_of net = data_of net'
  | (RStop, _) => net = []
  end.
Proof.
  intros Hc Hf. destruct Hf as [|e r He Hf]; [done|]. destruct e as [[|c d]| |]; try done. cbn [recv].
  destruct (Nat.leb_spec (length (c :: d)) cap) as [|Hlt]; [done|]. split.
  - apply Forall_cons. split; [|done]. intros E. apply (f_equal length) in E. rewrite length_drop in E. cbn [length] in *. lia.
  - unfold data_of. rewrite !bind_cons, app_assoc. f_equal. by rewrite take_drop.
Qed.

Lemma read_head_flows body fuel : ∀ b net, flows net → (net_size net < fuel)%nat → (length head_text <= max_header)%nat →
  b ++ data_of net = head_text ++ body → (length b < length head_text)%nat →
  ∃ extra net', read_head fuel b net = Some (Some (head_text ++ extra, length head_text, net')) ∧ flows net' ∧ extra ++ data_of net' = body.
Proof.
  induction fuel as [|fuel IH]; intros b net Hf Hs Hmax Hd Hb; [lia|]. cbn [read_head].
  destruct (Nat.ltb_spec (length b) max_header) as [_|]; [|lia]. pose proof (recv_flows 4096 net ltac:(lia) Hf) as Hr. pose proof (recv_size 4096 net ltac:(lia)) as Hsz.
  destruct (recv 4096 net) as [[d| |] net'].
  - destruct Hr as [Hf' Hd']. rewrite Hd', app_assoc in Hd. destruct (decide (length (b ++ d) < length head_text)%nat) as [Hlt|Hge].
    + assert (Hp : ∃ q, (b ++ d) ++ q = head_text ∧ q ≠ []).
      { exists (drop (length (b ++ d)) head_text). split; [|intros E; apply (f_equal length) in E; rewrite length_drop in E; cbn in E; lia].
        rewrite <- (take_drop (length (b ++ d)) head_text) at 2. f_equal. apply (f_equal (take (length (b ++ d)))) in Hd.
        rewrite take_app_length, take_app_le in Hd by lia. exact Hd. }
      destruct Hp as (q & Hq & Hqne). rewrite (header_end_part _ _ Hq Hqne). apply IH; [done|lia|done|done|done].
    + assert (Hx : ∃ extra, b ++ d = head_text ++ extra).
      { exists (drop (length head_text) (b ++ d)). rewrite <- (take_drop (length head_text) (b ++ d)) at 1. f_equal.
        apply (f_equal (take (length head_text))) in Hd. rewrite take_app_length, take_app_le in Hd by lia. done. }
      destruct Hx as [extra Hx]. rewrite Hx in *. rewrite header_end_whole. exists extra, net'. split_and!; [done|done|].
      rewrite <- app_assoc in Hd. by apply app_inv_head in Hd.
  - destruct Hr as [Hf' Hd']. apply IH; [done|lia|done| |done]. by rewrite <- Hd'.
  - subst net. exfalso. cbn in Hd. rewrite app_nil_r in Hd. apply (f_equal length) in Hd. rewrite length_app in Hd. lia.
Qed.

Lemma read_body_flows b0 body want fuel : ∀ b net, flows net → (net_size net < fuel)%nat → b ++ data_of net = b0 ++ body →
  (want <= length (b0 ++ body))%nat → ∃ b', read_body fuel b want net = Some (Some b') ∧ (want <= length b')%nat ∧ ∃ r, b' ++ r = b0 ++ body.
Proof.
  induction fuel as [|fuel IH]; intros b net Hf Hs Hd Hw; [lia|]. cbn [read_body]. destruct (Nat.ltb_spec (length b) want) as [Hlt|Hge].
  - assert (H8 : (0 < 8192)%nat) by (apply Nat.ltb_lt; reflexivity).
    pose proof (recv_flows 8192 net H8 Hf) as Hr. pose proof (recv_size 8192 net H8) as Hsz. destruct (recv 8192 net) as [[d| |] net'].
    + destruct Hr as [Hf' Hd']. apply IH; [done|lia| |done]. by rewrite <- Hd, Hd', app_assoc.
    + destruct Hr as [Hf' Hd']. apply IH; [done|lia| |done]. by rewrite <- Hd, Hd'.
    + subst net. exfalso. cbn in Hd. rewrite app_nil_r in Hd. subst b. lia.
  - exists b. split_and!; [done|lia|by eexists].
Qed.
End head.

(** ** The length and the request line *)

Lemma line_at_app l r : Forall (λ c, c ≠ 10) l → line_at (l ++ 10 :: r) = l.
Proof. induction 1 as [|c l Hc _ IH]; [done|]. cbn [app line_at]. destruct (Z.eqb_spec c 10); [done|]. by rewrite IH. Qed.

Lemma text_line_at l r : text_line l → line_at (l ++ CRLF ++ r) = l ++ [13].
Proof.
  intros [_ Hc]. change (l ++ CRLF ++ r) with (l ++ [13] ++ 10 :: r). rewrite app_assoc. apply line_at_app, Forall_app. split; [apply no_byte; [done|tauto]|].
  by apply Forall_singleton.
Qed.

Lemma strip_cr_line l : strip_cr (l ++ [13]) = l.
Proof. unfold strip_cr. rewrite last_snoc. apply removelast_last. Qed.

Lemma strip_nocase_none lit l x : strip_nocase lit l = None → (length lit <= length l)%nat → strip_nocase lit (l ++ x) = None.
Proof.
  revert l. induction lit as [|a lit IH]; intros l Hn Hl; [done|]. destruct l as [|c l]; [cbn in Hl; lia|]. cbn [strip_nocase app] in *.
  destruct (a =? tolower c); [|done]. apply IH; [done|cbn in Hl; lia].
Qed.

Definition LENGTH_NAME : bytes := bs "content-length:".

Lemma content_length_skip fuel l r rest : text_line l → strip_nocase LENGTH_NAME l = None →
  content_length_loop (S fuel) (l ++ CRLF ++ r) rest = content_length_loop fuel r rest.
Proof.
  intros Hl Hn. cbn [content_length_loop]. destruct (l ++ CRLF ++ r) as [|c s] eqn:E; [by destruct l|]. rewrite <- E. rewrite text_line_at by done.
  rewrite strip_cr_line. assert ((if (15 <=? length l)%nat then strip_nocase (bs "content-length:") (l ++ [13]) else None) = None) as ->.
  { destruct (Nat.leb_spec 15 (length l)); [|done]. by apply strip_nocase_none. }
  f_equal. rewrite length_app. cbn [length]. rewrite app_assoc, drop_app_ge by (rewrite length_app; cbn; lia).
  replace (S (length l + 1) - length (l ++ CRLF))%nat with 0%nat by (rewrite length_app; cbn; lia). done.
Qed.

Lemma content_length_here fuel n r rest : 0 <= n <= LONG_MAX →
  content_length_loop (S fuel) ((bs "Content-Length: " ++ fmt_u n) ++ CRLF ++ r) rest = Some n.
Proof.
  intros Hn. pose proof (fmt_u_digit n ltac:(lia)) as Hd. set (d := fmt_u n) in *. set (l := bs "Content-Length: " ++ d).
  assert (Hl : text_line l).
  { split; [discriminate|]. apply Forall_app. split; [repeat constructor; discriminate|]. eapply Forall_impl; [exact Hd|].
    intros c Hc%isdigit_true. lia. }
  cbn [content_length_loop]. destruct (l ++ CRLF ++ r) as [|c0 s0] eqn:E; [by subst l|]. rewrite <- E. rewrite text_line_at by done. rewrite strip_cr_line.
  assert ((15 <=? length l)%nat = true) as -> by (apply Nat.leb_le; subst l; rewrite length_app; change (length (bs "Content-Length: ")) with 16%nat; lia).
  change (strip_nocase (bs "content-length:") (l ++ [13])) with (Some (32 :: d ++ [13])). change (drop 15 l) with (32 :: d).
  assert (Hdw : drop_while isspace (32 :: d) = d).
  { change (drop_while isspace (32 :: d)) with (drop_while isspace d). apply drop_while_stop. intros c x ->. inversion Hd as [|? ? Hc _]. subst.
    apply isdigit_true in Hc. unfold isspace. lia. }
  rewrite Hdw. replace (15 + (length (32%Z :: d) - length d))%nat with 16%nat by (cbn [length]; lia).
  change (drop 16 ((l ++ CRLF ++ r) ++ rest)) with ((d ++ CRLF ++ r) ++ rest). rewrite <- !app_assoc.
  assert (Hcs : c_str (d ++ CRLF ++ r ++ rest) = d ++ c_str (CRLF ++ r ++ rest)).
  { clear -Hd. induction Hd as [|c d Hc Hd IH]; [done|]. apply isdigit_true in Hc. cbn [app c_str]. destruct (Z.eqb_spec c 0); [lia|]. by rewrite IH. }
  rewrite Hcs. unfold d. rewrite strtol_fmt_u; [done|done|]. by intros c x [= <- <-].
Qed.

Lemma content_length_head fuel ls n after rest : Forall text_line ls → Forall (λ l, strip_nocase LENGTH_NAME l = None) ls → 0 <= n <= LONG_MAX →
  (length ls < fuel)%nat → content_length_loop fuel (http_lines (ls ++ (bs "Content-Length: " ++ fmt_u n) :: after) ++ CRLF) rest = Some n.
Proof.
  intros Hls. revert fuel. induction Hls as [|l ls Hl _ IH]; intros fuel Hn Hr Hf; (destruct fuel as [|fuel]; [lia|]); cbn [app].
  - rewrite http_lines_cons, <- app_assoc. change ((CRLF ++ http_lines after) ++ CRLF) with (CRLF ++ (http_lines after ++ CRLF)). by apply content_length_here.
  - apply Forall_cons in Hn as [Hn1 Hn]. rewrite http_lines_cons, <- !app_assoc. rewrite content_length_skip by done. apply IH; [done|done|cbn in Hf; lia].
Qed.

(** A word for [sscanf]. *)
Definition word (w : bytes) : Prop := w ≠ [] ∧ Forall (λ c, isspace c = false ∧ c ≠ 0) w.

Lemma scan_word_app width w r : (length w <= width)%nat → Forall (λ c, isspace c = false ∧ c ≠ 0) w → (∃ r', r = 32 :: r') →
  scan_word width (w ++ r) = (w, r).
Proof.
  intros Hw Hf [r' ->]. revert width Hw. induction Hf as [|c w [Hc _] _ IH]; intros width Hw; [by destruct width|].
  destruct width as [|width]; [cbn in Hw; lia|]. cbn [app scan_word]. rewrite Hc, IH by (cbn in Hw; lia). done.
Qed.

Lemma scan_request_ok m t : word m → word t → (length m <= 7)%nat → (length t <= 255)%nat →
  scan_request_line (request_line m t ++ [13]) = Some (m, t).
Proof.
  intros [Hm Hmf] [Ht Htf] Hlm Hlt. unfold scan_request_line, request_line, skip_space.
  assert (Hskip : ∀ w r, w ≠ [] → Forall (λ c, isspace c = false ∧ c ≠ 0) w → drop_while isspace (w ++ r) = w ++ r).
  { intros w r Hw Hf. apply drop_while_stop. intros c x E. destruct Hf as [|y w [Hy _] _]; [done|]. by injection E as -> _. }
  rewrite <- app_assoc. rewrite Hskip by done. rewrite scan_word_app; [|done|done|by eexists]. cbn [app drop_while]. change (isspace 32) with true. cbn iota.
  rewrite <- app_assoc. rewrite Hskip by done. rewrite scan_word_app; [|done|done|by eexists]. by destruct m, t.
Qed.

Lemma word_text w : word w → Forall (λ c, c ≠ 0 ∧ c ≠ 10 ∧ c ≠ 13) w.
Proof. intros [_ Hf]. eapply Forall_impl; [exact Hf|]. intros c [Hs H0]. unfold isspace in Hs. cbn in Hs. lia. Qed.

Lemma request_text m t : word m → word t → text_line (request_line m t).
Proof.
  intros Hm Ht. unfold request_line. split; [by destruct Hm as [? _]; destruct m|]. apply Forall_app. split; [by apply word_text|].
  apply Forall_cons. split; [lia|]. apply Forall_app. split; [by apply word_text|]. repeat constructor; discriminate.
Qed.

Lemma request_not_length m t : (length m <= 7)%nat → strip_nocase LENGTH_NAME (request_line m t) = None.
Proof.
  unfold request_line. generalize (t ++ bs " HTTP/1.1"). intros r Hm.
  assert (H : ∀ lit m, Forall (λ c, c ≠ 32) lit → (length m < length lit)%nat → strip_nocase lit (m ++ 32 :: r) = None).
  { induction lit as [|a lit IH]; intros w Hf Hl; [cbn in Hl; lia|]. apply Forall_cons in Hf as [Ha Hf]. destruct w as [|c w]; cbn [app strip_nocase].
    - change (tolower 32) with 32. by destruct (Z.eqb_spec a 32).
    - destruct (a =? tolower c); [|done]. apply IH; [done|cbn in Hl; lia]. }
  apply H; [repeat constructor; discriminate|]. change (length LENGTH_NAME) with 15%nat. lia.
Qed.

Lemma length_text n : 0 <= n → text_line (bs "Content-Length: " ++ fmt_u n).
Proof.
  intros Hn. split; [discriminate|]. apply Forall_app. split; [repeat constructor; discriminate|]. eapply Forall_impl; [by apply fmt_u_digit|].
  intros c Hc%isdigit_true. lia.
Qed.

Lemma first_line m t r : word m → word t → (length m <= 7)%nat → (length t <= 255)%nat →
  c_str (take 511 (line_at (request_line m t ++ CRLF ++ r))) = request_line m t ++ [13].
Proof.
  intros Hm Ht Hlm Hlt. pose proof (request_text m t Hm Ht) as Hl. rewrite text_line_at by done. rewrite take_ge.
  - apply c_str_id, Forall_app. split; [apply no_byte; [apply Hl|tauto]|by apply Forall_singleton].
  - unfold request_line. rewrite !length_app. cbn [length]. rewrite !length_app. change (length (bs " HTTP/1.1")) with 9%nat. lia.
Qed.

Lemma http_lines_length ls : (length ls <= length (http_lines ls))%nat.
Proof. induction ls as [|l ls IH]; [done|]. rewrite http_lines_cons, !length_app. cbn [length CRLF]. lia. Qed.

(** A request with CRLF lines and a Content-Length is read exactly, the method,
    the path without its query, and the body byte for byte, however the network cuts
    it into pieces and however often a call is interrupted, also when more data
    follows. *)
Lemma http_request_read m t before n after body junk net
    (Hm : word m) (Hlm : (length m <= 7)%nat) (Ht : word t) (Hlt : (length t <= 255)%nat)
    (Hb : Forall text_line before) (Hnb : Forall (λ l, strip_nocase LENGTH_NAME l = None) before) (Ha : Forall text_line after)
    (Hn : 0 <= n <= max_body) (Hlen : Z.of_nat (length body) = n) (Hmax : (length (http_head m t before n after) <= max_header)%nat)
    (Hf : flows net) (Hd : data_of net = http_head m t before n after ++ body ++ junk) :
  read_http_request net = Some (Some (HttpRequest m (before_query t) body)).
Proof.
  set (ls := request_line m t :: before ++ (bs "Content-Length: " ++ fmt_u n) :: after).
  assert (Hls : Forall text_line ls).
  { apply Forall_cons. split; [by apply request_text|]. apply Forall_app. split; [done|]. apply Forall_cons. split; [apply length_text; lia|done]. }
  assert (Hn64 : n <= LONG_MAX) by (unfold max_body in Hn; lia).
  change (http_head m t before n after) with (head_text ls) in *. unfold read_http_request.
  destruct (read_head_flows ls ltac:(done) Hls (body ++ junk) (S (net_size net)) [] net Hf ltac:(lia) Hmax Hd) as (extra & net' & -> & Hf' & Hx).
  { rewrite head_length by done. cbn. lia. }
  cbn [mbind option_bind]. assert (Hline : c_str (take 511 (line_at (head_text ls ++ extra))) = request_line m t ++ [13]).
  { unfold head_text, ls. rewrite http_lines_cons, <- !app_assoc. by apply first_line. }
  rewrite Hline, scan_request_ok by done. unfold content_length. rewrite take_app_length, drop_app_length.
  assert (Hcl : content_length_loop (S (length (head_text ls))) (head_text ls) extra = Some n).
  { apply (content_length_head _ (request_line m t :: before) n after extra); [by apply Forall_cons; split; [apply request_text|]| |lia|].
    - apply Forall_cons. split; [by apply request_not_length|done].
    - unfold head_text. rewrite length_app. pose proof (http_lines_length ls) as Hll. unfold ls in Hll at 1. cbn [length] in *. rewrite length_app in Hll. cbn [length] in Hll. lia. }
  rewrite Hcl. cbn [mbind option_bind]. destruct (Z.ltb_spec n 0); [lia|]. destruct (Z.ltb_spec max_body n); [lia|]. cbn [orb].
  destruct (read_body_flows (head_text ls) (body ++ junk) (length (head_text ls) + Z.to_nat n) (S (net_size net')) (head_text ls ++ extra) net') as (b' & -> & Hw & r & Hr).
  { done. } { lia. } { by rewrite <- app_assoc, Hx. } { rewrite !length_app. lia. }
  cbn [mbind option_bind]. do 3 f_equal.
  assert (Hdrop : drop (length (head_text ls)) (b' ++ r) = body ++ junk) by (by rewrite Hr, drop_app_length).
  rewrite drop_app_le in Hdrop by lia. apply (f_equal (take (Z.to_nat n))) in Hdrop. rewrite !take_app_le in Hdrop by (rewrite ?length_drop; lia).
  rewrite Hdrop. apply take_ge. lia.
Qed.

(** A head of LF lines ends at the first CRLFCRLF of what has arrived, which can be in
    the body: the same bytes are read differently in one piece and in two. *)
Lemma lf_head_depends_on_pieces :
  let head := bs "POST / HTTP/1.0" ++ [10] ++ bs "Content-Length: 6" ++ [10; 10] in
  let body := bs "a" ++ [13; 10; 13; 10] ++ bs "b" in
  read_http_request [NData head; NData body] = Some (Some (HttpRequest (bs "POST") (bs "/") body))
  ∧ read_http_request [NData (head ++ body)] = Some None.
Proof. split; vm_compute; reflexivity. Qed.
