(* ===== verification/Prompt.v ===== *)
(** * The prompt of a conversation

    Rendering of [engine/src/server.c]: a list of messages becomes the text the model
    is given, in the markup of either model family; the tail that continues a live
    session; the texts that describe a finished turn; and the report of a tool call
    that could not be read. A message has a role, which the request parsers always
    set. *)
From S2P Require Import Prelude CLib Json Request Stream Dsml ToolText.

(** ** Literals *)

(** A text with single quotes for the double quotes. *)
Definition qs (s : string) : bytes := (λ c, if c =? 39 then 34 else c) <$> bs s.
Definition nl : bytes := [10].

Definition sot : bytes := bs "<" ++ bar.
Definition eot : bytes := bar ++ bs ">".
Definition low : bytes := [0xe2; 0x96; 0x81].

Definition BOS : bytes := sot ++ bs "begin" ++ low ++ bs "of" ++ low ++ bs "sentence" ++ eot.
Definition EOS : bytes := sot ++ bs "end" ++ low ++ bs "of" ++ low ++ bs "sentence" ++ eot.
Definition USER : bytes := sot ++ bs "User" ++ eot.
Definition ASSISTANT : bytes := sot ++ bs "Assistant" ++ eot.
Definition THINK : bytes := bs "<think>".
Definition END_THINK : bytes := bs "</think>".

Definition ds4_think_max_prefix : bytes :=
  bs "Reasoning Effort: Absolute maximum with no shortcuts permitted." ++ nl
  ++ bs "You MUST be very thorough in your thinking and comprehensively decompose the problem to resolve the root cause, rigorously stress-testing your logic against all potential paths, edge cases, and adversarial scenarios." ++ nl
  ++ bs "Explicitly write out your entire deliberation process, documenting every intermediate step, considered alternative, and rejected hypothesis to ensure absolutely no assumption is left unchecked." ++ nl ++ nl.

Definition ds4_glm_reasoning_effort_text (mode : ds4_think_mode) : option bytes :=
  match mode with
  | DS4_THINK_HIGH => Some (bs "Reasoning Effort: High")
  | DS4_THINK_MAX => Some (bs "Reasoning Effort: Max")
  | DS4_THINK_NONE => None
  end.

(** [s && s[0]] of a string that may be absent. *)
Definition present (s : option bytes) : bool := match s with Some (_ :: _) => true | _ => false end.
Definition text_or_empty (s : option bytes) : bytes := match s with Some t => t | None => [] end.

(** ** Tool schemas *)

Definition append_tools_prompt_text (tool_schemas : option bytes) : bytes :=
  if present tool_schemas then
    bs "## Tools" ++ nl ++ nl
    ++ bs "You have access to a set of tools to help answer the user question. "
    ++ qs "You can invoke tools by writing a '" ++ DS4_TOOL_CALLS_START ++ qs "' block like the following:" ++ nl ++ nl
    ++ DS4_TOOL_CALLS_START ++ nl
    ++ DS4_INVOKE_START ++ qs " name='$TOOL_NAME'>" ++ nl
    ++ DS4_PARAM_START ++ qs " name='$PARAMETER_NAME' string='true|false'>$PARAMETER_VALUE" ++ DS4_PARAM_END ++ nl
    ++ bs "..." ++ nl
    ++ DS4_INVOKE_END ++ nl
    ++ DS4_INVOKE_START ++ qs " name='$TOOL_NAME2'>" ++ nl
    ++ bs "..." ++ nl
    ++ DS4_INVOKE_END ++ nl
    ++ DS4_TOOL_CALLS_END ++ nl ++ nl
    ++ qs "String parameters should be specified as raw text and set `string='true'`. "
    ++ bs "Preserve characters such as `>`, `&`, and `&&` exactly; never replace normal string characters with XML or HTML entity escapes. "
    ++ bs "Only if a string value itself contains the exact closing parameter tag `" ++ DS4_PARAM_END
    ++ bs "`, write that tag as `&lt;/" ++ DS4_DSML ++ bs "parameter>` inside the value. "
    ++ qs "For all other types (numbers, booleans, arrays, objects), pass the value in JSON format and set `string='false'`." ++ nl ++ nl
    ++ bs "When thinking mode is enabled, finish reasoning with </think> before any tool calls or final response." ++ nl ++ nl
    ++ bs "Otherwise, output directly after </think> with tool calls or final response." ++ nl ++ nl
    ++ bs "### Available Tool Schemas" ++ nl ++ nl
    ++ text_or_empty tool_schemas
    ++ nl ++ nl ++ bs "You MUST strictly follow the above defined tool name and parameter schemas to invoke tool calls. "
    ++ bs "Use the exact parameter names from the schemas."
  else [].

(** The members with [", "] between them. *)
Fixpoint spaced_join (l : list bytes) : bytes :=
  match l with
  | [] => []
  | [x] => x
  | x :: l' => x ++ bs ", " ++ spaced_join l'
  end.

Definition deferred (arg : json_arg) : bool :=
  bytes_eqb (arg_key arg) (bs "defer_loading") && negb (arg_is_string arg) && bytes_eqb (arg_value arg) (bs "true").
Definition hidden_key (arg : json_arg) : bool :=
  bytes_eqb (arg_key arg) (bs "defer_loading") || bytes_eqb (arg_key arg) (bs "strict").
Definition schema_member (arg : json_arg) : bytes :=
  json_escape (arg_key arg) ++ bs ": " ++ (if arg_is_string arg then json_escape (arg_value arg) else arg_value arg).

(** [None] where the code returns false; otherwise what it appends, and whether it
    says so. *)
Definition append_glm_tool_schema_json (json : bytes) : option (bytes * bool) :=
  match json_args_parse (Some json) with
  | None => None
  | Some args =>
      if existsb deferred args then Some ([], false)
      else Some (bs "{" ++ spaced_join (schema_member <$> List.filter (λ a, negb (hidden_key a)) args) ++ bs "}", true)
  end.

Fixpoint glm_schemas_loop (fuel : nat) (p : bytes) (any : bool) : option (bytes * bool) :=
  match fuel with
  | O => None
  | S fuel' =>
      match p with
      | [] => Some ([], any)
      | _ =>
          match json_raw_value p with
          | None => Some ([], any)
          | Some (raw, p) =>
              let '(text, emitted) := match append_glm_tool_schema_json raw with Some r => r | None => (raw, true) end in
              match glm_schemas_loop fuel' (json_ws p) (any || emitted) with
              | Some (rest, any) => Some (text ++ (if emitted then nl ++ nl ++ nl else []) ++ rest, any)
              | None => None
              end
          end
      end
  end.

Definition append_glm_tools_prompt_text (tool_schemas : option bytes) : option bytes :=
  if present tool_schemas then
    let p := json_ws (text_or_empty tool_schemas) in
    match glm_schemas_loop (S (length p)) p false with
    | None => None
    | Some (schemas, any) =>
        Some (nl ++ bs "# Tools" ++ nl ++ nl
              ++ bs "You may call one or more functions to assist with the user query." ++ nl ++ nl
              ++ bs "You are provided with function signatures within <tools></tools> XML tags:" ++ nl
              ++ bs "<tools>" ++ nl ++ nl
              ++ schemas ++ (if any then [] else nl)
              ++ bs "</tools>" ++ nl ++ nl
              ++ bs "For each function call, output the function name and arguments within the following XML format:" ++ nl
              ++ bs "<tool_call>{function-name}" ++ bs "<arg_key>{arg-key-1}</arg_key>" ++ bs "<arg_value>{arg-value-1}</arg_value>"
              ++ bs "<arg_key>{arg-key-2}</arg_key>" ++ bs "<arg_value>{arg-value-2}</arg_value>" ++ bs "...</tool_call>")
    end
  else Some [].

(** ** Roles and tool results *)

Definition role_is (m : chat_msg) (role : string) : bool :=
  match msg_role m with Some r => bytes_eqb r (bs role) | None => false end.
Definition role_is_system (m : chat_msg) : bool := role_is m "system" || role_is m "developer".
Definition role_is_user_like (m : chat_msg) : bool := role_is m "user" || role_is m "tool" || role_is m "function".

Definition msg_tool_calls (m : chat_msg) : tool_calls := ToolCalls (msg_calls m) (msg_raw_tool_text m).

Definition chat_history_uses_tool_context (msgs : list chat_msg) (tool_schemas : option bytes) : bool :=
  present tool_schemas
  || existsb (λ m, (role_is m "assistant" && negb (length (msg_calls m) =? 0)%nat) || role_is m "tool" || role_is m "function") msgs.

Definition append_tool_result_text (s : option bytes) : bytes := append_glm_tag_body_text (text_or_empty s) (bs "</tool_result>").

Definition chat_msg_is_glm_tool_result (m : chat_msg) : bool :=
  role_is m "tool" || role_is m "function" || (role_is m "user" && negb (length (msg_tool_call_ids m) =? 0)%nat).

Definition append_glm_tool_response (text : bytes) : bytes :=
  bs "<tool_response>" ++ append_glm_tool_response_text text ++ bs "</tool_response>".

(** The [<tool_result>] blocks of a message, one after the other. *)
Fixpoint tool_result_blocks (fuel : nat) (p : bytes) : option (list bytes) :=
  match fuel with
  | O => None
  | S fuel' =>
      match strstr p (bs "<tool_result>") with
      | None => Some []
      | Some i =>
          let body := drop (i + 13) p in
          match strstr body (bs "</tool_result>") with
          | None => Some []
          | Some n => l ← tool_result_blocks fuel' (drop (n + 14) body); Some (take n body :: l)
          end
      end
  end.

Definition append_glm_tool_result_message (m : chat_msg) : option bytes :=
  let content := text_or_empty (msg_content m) in
  if role_is m "user" && negb (length (msg_tool_call_ids m) =? 0)%nat then
    l ← tool_result_blocks (S (length content)) content;
    Some (match l with [] => append_glm_tool_response content | _ => concat (append_glm_tool_response <$> l) end)
  else Some (append_glm_tool_response content).

(** ** The DeepSeek prompt *)

(** The system text: the tool schemas, then the system messages. *)
Definition system_text (msgs : list chat_msg) (tool_schemas : option bytes) : bytes :=
  foldl (λ system m,
    if role_is_system m then system ++ (match system with [] => [] | _ => nl ++ nl end) ++ text_or_empty (msg_content m) else system)
    (append_tools_prompt_text tool_schemas) msgs.

Fixpoint last_user_from (i last : Z) (msgs : list chat_msg) : Z :=
  match msgs with
  | [] => last
  | m :: r => last_user_from (i + 1) (if role_is_user_like m then i else last) r
  end.
Definition last_user_idx (msgs : list chat_msg) : Z := last_user_from 0 (-1) msgs.

(** One message after the state [pending_assistant], [pending_tool_result]; [show]:
    whether the reasoning of this message is part of the prompt. *)
Definition deepseek_msg (think show : bool) (m : chat_msg) (st : bool * bool) : bytes * (bool * bool) :=
  let '(pending_assistant, pending_tool_result) := st in
  if role_is_system m then ([], st)
  else if role_is m "user" then (USER ++ text_or_empty (msg_content m), (true, false))
  else if role_is m "tool" || role_is m "function" then
    ((if pending_tool_result then [] else USER)
     ++ bs "<tool_result>" ++ append_tool_result_text (msg_content m) ++ bs "</tool_result>", (true, true))
  else if role_is m "assistant" then
    ((if pending_assistant then
        ASSISTANT ++ (if think then if show then THINK ++ text_or_empty (msg_reasoning m) ++ END_THINK else END_THINK else END_THINK)
      else [])
     ++ text_or_empty (msg_content m) ++ append_dsml_tool_calls_text (msg_tool_calls m) ++ EOS, (false, false))
  else ([], st).

Fixpoint deepseek_loop (think : bool) (show : Z → bool) (i : Z) (msgs : list chat_msg) (st : bool * bool) : bytes * (bool * bool) :=
  match msgs with
  | [] => ([], st)
  | m :: r =>
      let '(t, st) := deepseek_msg think (show i) m st in
      let '(t', st) := deepseek_loop think show (i + 1) r st in
      (t ++ t', st)
  end.

Definition deepseek_end (think : bool) (st : bool * bool) : bytes :=
  if fst st then ASSISTANT ++ (if think then THINK else END_THINK) else [].

Definition render_deepseek_chat_prompt_text (msgs : list chat_msg) (tool_schemas : option bytes) (think_mode : ds4_think_mode) : bytes :=
  let think := ds4_think_mode_enabled think_mode in
  let tool_context := chat_history_uses_tool_context msgs tool_schemas in
  let last := last_user_idx msgs in
  let '(t, st) := deepseek_loop think (λ i, tool_context || (last <? i)) 0 msgs (false, false) in
  BOS ++ (match think_mode with DS4_THINK_MAX => ds4_think_max_prefix | _ => [] end) ++ system_text msgs tool_schemas ++ t ++ deepseek_end think st.

(** The messages from [start] on, after a turn that is in the session. *)
Definition render_deepseek_live_tool_tail (msgs : list chat_msg) (start : nat) (think_mode : ds4_think_mode) : bytes :=
  let think := ds4_think_mode_enabled think_mode in
  let '(t, st) := deepseek_loop think (λ _, true) (Z.of_nat start) (drop start msgs) (false, false) in
  EOS ++ t ++ deepseek_end think st.

(** ** The GLM prompt *)

Definition text_starts_with_think_tag (s : bytes) : bool :=
  match strip_prefix THINK s, strip_prefix END_THINK s with None, None => false | _, _ => true end.

Definition append_trimmed_text (text : option bytes) : bytes := rtrim (skip_space (text_or_empty text)).

Definition append_glm_assistant_message_prefix (m : chat_msg) (preserve_reasoning : bool) : bytes :=
  if text_starts_with_think_tag (text_or_empty (msg_content m)) then []
  else if preserve_reasoning then THINK ++ text_or_empty (msg_reasoning m) ++ END_THINK
  else bs "<think></think>".

(** One message after the state [pending_assistant], [observation_open]. *)
Definition glm_msg (orders : list tool_schema_order) (think show : bool) (m : chat_msg) (st : bool * bool) : option (bytes * (bool * bool)) :=
  let '(pending_assistant, observation_open) := st in
  if role_is_system m then Some ([], (pending_assistant, false))
  else if chat_msg_is_glm_tool_result m then
    t ← append_glm_tool_result_message m;
    Some ((if observation_open then [] else bs "<|observation|>") ++ t, (true, true))
  else if role_is m "user" then Some (bs "<|user|>" ++ text_or_empty (msg_content m), (true, false))
  else if role_is m "assistant" then
    Some (bs "<|assistant|>" ++ append_glm_assistant_message_prefix m (think && show) ++ append_trimmed_text (msg_content m)
          ++ append_tool_calls_text_for_syntax SERVER_MODEL_SYNTAX_GLM (msg_tool_calls m) orders, (false, false))
  else Some ([], st).

Fixpoint glm_loop (orders : list tool_schema_order) (think : bool) (show : Z → bool) (i : Z) (msgs : list chat_msg) (st : bool * bool)
  : option (bytes * (bool * bool)) :=
  match msgs with
  | [] => Some ([], st)
  | m :: r =>
      match glm_msg orders think (show i) m st with
      | None => None
      | Some (t, st) =>
          match glm_loop orders think show (i + 1) r st with
          | None => None
          | Some (t', st) => Some (t ++ t', st)
          end
      end
  end.

Definition glm_end (think : bool) (st : bool * bool) : bytes :=
  if fst st then bs "<|assistant|>" ++ (if think then THINK else bs "<think></think>") else [].

Definition glm_system_text (msgs : list chat_msg) : bytes :=
  concat ((λ m, if role_is_system m then bs "<|system|>" ++ text_or_empty (msg_content m) else []) <$> msgs).

Definition glm_head (tool_schemas : option bytes) (think_mode : ds4_think_mode) : option bytes :=
  tools ← append_glm_tools_prompt_text tool_schemas;
  Some (bs "[gMASK]<sop>"
        ++ (if ds4_think_mode_enabled think_mode
            then bs "<|system|>" ++ default (bs "Reasoning Effort: Max") (ds4_glm_reasoning_effort_text think_mode) else [])
        ++ (match tools with [] => [] | _ => bs "<|system|>" ++ tools end)).

Definition render_glm_chat_prompt_text (msgs : list chat_msg) (tool_schemas : option bytes) (orders : list tool_schema_order)
    (think_mode : ds4_think_mode) : option bytes :=
  let think := ds4_think_mode_enabled think_mode in
  let tool_context := chat_history_uses_tool_context msgs tool_schemas in
  let last := last_user_idx msgs in
  match glm_head tool_schemas think_mode, glm_loop orders think (λ i, tool_context || (last <? i)) 0 msgs (false, false) with
  | Some h, Some (t, st) => Some (h ++ glm_system_text msgs ++ t ++ glm_end think st)
  | _, _ => None
  end.

Definition render_glm_live_tool_tail (msgs : list chat_msg) (start : nat) (orders : list tool_schema_order)
    (think_mode : ds4_think_mode) : option bytes :=
  let think := ds4_think_mode_enabled think_mode in
  match glm_loop orders think (λ _, true) (Z.of_nat start) (drop start msgs) (false, false) with
  | Some (t, st) => Some (t ++ glm_end think st)
  | None => None
  end.

(** ** Either family *)

Definition render_chat_prompt_text_for_syntax (syntax : server_model_syntax) (msgs : list chat_msg) (tool_schemas : option bytes)
    (orders : list tool_schema_order) (think_mode : ds4_think_mode) : option bytes :=
  match syntax with
  | SERVER_MODEL_SYNTAX_GLM => render_glm_chat_prompt_text msgs tool_schemas orders think_mode
  | SERVER_MODEL_SYNTAX_DEEPSEEK => Some (render_deepseek_chat_prompt_text msgs tool_schemas think_mode)
  end.

Definition render_live_tool_tail_for_syntax (syntax : server_model_syntax) (msgs : list chat_msg) (start : nat)
    (orders : list tool_schema_order) (think_mode : ds4_think_mode) : option bytes :=
  match syntax with
  | SERVER_MODEL_SYNTAX_GLM => render_glm_live_tool_tail msgs start orders think_mode
  | SERVER_MODEL_SYNTAX_DEEPSEEK => Some (render_deepseek_live_tool_tail msgs start think_mode)
  end.

(** ** A finished turn as text *)

Definition eos_for (syntax : server_model_syntax) : bytes :=
  match syntax with SERVER_MODEL_SYNTAX_GLM => [] | SERVER_MODEL_SYNTAX_DEEPSEEK => EOS end.

Definition build_tool_checkpoint_suffix (syntax : server_model_syntax) (orders : list tool_schema_order) (think_mode : ds4_think_mode)
    (content reasoning : option bytes) (calls : tool_calls) : bytes :=
  (if ds4_think_mode_enabled think_mode then text_or_empty reasoning ++ END_THINK else [])
  ++ text_or_empty content ++ append_tool_calls_text_for_syntax syntax calls orders ++ eos_for syntax.

Definition build_responses_visible_assistant_suffix (syntax : server_model_syntax) (orders : list tool_schema_order)
    (think_mode : ds4_think_mode) (reasoning_summary_emit : bool) (content reasoning : option bytes) (calls : tool_calls) : bytes :=
  (if ds4_think_mode_enabled think_mode then
     (if reasoning_summary_emit && negb (length (calls_v calls) =? 0)%nat then text_or_empty reasoning else []) ++ END_THINK
   else [])
  ++ text_or_empty content ++ append_tool_calls_text_for_syntax syntax calls orders ++ eos_for syntax.

Definition build_toolless_thinking_visible_text (prompt_text : option bytes) (think_mode : ds4_think_mode) (content : option bytes) : option bytes :=
  match prompt_text with
  | None => None
  | Some p =>
      if negb (ds4_think_mode_enabled think_mode) then None
      else
        let n := (length p - 7)%nat in
        if (length p <? 7)%nat || negb (bytes_eqb (drop n p) THINK) then None
        else Some (take n p ++ END_THINK ++ text_or_empty content ++ EOS)
  end.

Definition should_remember_thinking_checkpoint (is_chat has_tools prompt_preserves_reasoning : bool) (think_mode : ds4_think_mode)
    (inside : bool) (finish : option bytes) : bool :=
  is_chat && negb has_tools && negb prompt_preserves_reasoning && ds4_think_mode_enabled think_mode
  && negb (match finish with Some f => bytes_eqb f (bs "error") || bytes_eqb f (bs "length") | None => false end) && negb inside.

(** ** A tool call that could not be read *)

Definition earlier (a b : option nat) : option nat :=
  match a, b with Some x, Some y => Some (if (x <? y)%nat then x else y) | Some x, None => Some x | None, b => b end.

Definition rendered_chat_system_region (prompt_text : option bytes) : bytes :=
  match prompt_text with
  | None => []
  | Some p =>
      let p := match strip_prefix BOS p with Some r => r | None => p end in
      let p := match strip_prefix ds4_think_max_prefix p with Some r => r | None => p end in
      let p := skip_space p in
      let text := match earlier (strstr p USER) (strstr p ASSISTANT) with Some n => take n p | None => p end in
      rtrim text
  end.

Definition error_detail (detail : option bytes) : bytes := if present detail then bs ": " ++ text_or_empty detail else [].

Definition build_invalid_dsml_tool_error_suffix (prompt_text : option bytes) (think_mode : ds4_think_mode) (inside : bool) (detail : option bytes) : bytes :=
  let system := rendered_chat_system_region prompt_text in
  let tool_error :=
    bs "Tool error: invalid DSML tool call" ++ error_detail detail
    ++ nl ++ bs "The previous assistant output was not executed because the DSML syntax was malformed. "
    ++ bs "Emit a new valid DSML tool call, or answer normally if no tool is needed."
    ++ (match system with [] => [] | _ => nl ++ nl ++ bs "System prompt reminder:" ++ nl ++ system end) in
  (if ds4_think_mode_enabled think_mode && inside then END_THINK else [])
  ++ EOS ++ USER ++ bs "<tool_result>" ++ append_tool_result_text (Some tool_error) ++ bs "</tool_result>" ++ ASSISTANT
  ++ (if ds4_think_mode_enabled think_mode then THINK else END_THINK).

Definition build_invalid_glm_tool_error_suffix (think_mode : ds4_think_mode) (inside : bool) (detail : option bytes) : bytes :=
  let tool_error :=
    bs "Tool error: invalid GLM tool call" ++ error_detail detail
    ++ nl ++ bs "The previous assistant output was not executed because the "
    ++ bs "<tool_call> syntax was malformed. Emit a new valid <tool_call>, "
    ++ bs "or answer normally if no tool is needed." in
  (if ds4_think_mode_enabled think_mode && inside then END_THINK else [])
  ++ bs "<|observation|><tool_response>" ++ append_glm_tool_response_text tool_error ++ bs "</tool_response><|assistant|>"
  ++ (if ds4_think_mode_enabled think_mode then THINK else bs "<think></think>").

Definition build_invalid_tool_call_error_suffix (syntax : server_model_syntax) (prompt_text : option bytes) (think_mode : ds4_think_mode)
    (inside : bool) (detail : option bytes) : bytes :=
  match syntax with
  | SERVER_MODEL_SYNTAX_GLM => build_invalid_glm_tool_error_suffix think_mode inside detail
  | SERVER_MODEL_SYNTAX_DEEPSEEK => build_invalid_dsml_tool_error_suffix prompt_text think_mode inside detail
  end.
