(* ===== verification/PromptProps.v ===== *)
(** * Prompts extend one another

    What the cache of the server relies on: the prompt of the next turn is the prompt
    of this one, the text of the finished turn, and the tail of new messages. *)
From Stdlib Require Import Floats.SpecFloat.
From S2P Require Import Prelude CLib Strtod Json JsonProps Request Stream StreamProps Dsml DsmlText ToolText ToolRoundTrip Prompt.

(** ** Roles *)

Lemma role_is_spec m r : role_is m r = true ↔ msg_role m = Some (bs r).
Proof.
  unfold role_is. destruct (msg_role m) as [x|]; [|done]. rewrite bytes_eqb_eq. split; [by intros ->|by intros [= ->]].
Qed.

(** The role of a message decides every test on it. *)
Ltac role_cases m H := apply role_is_spec in H; unfold role_is_system, role_is_user_like, chat_msg_is_glm_tool_result, role_is; rewrite H.

Lemma user_like_role m : role_is_user_like m = true → role_is m "user" = true ∨ role_is m "tool" = true ∨ role_is m "function" = true.
Proof. unfold role_is_user_like. rewrite !orb_true_iff. tauto. Qed.

(** ** The loops over lists in two parts *)

Lemma deepseek_loop_app think show l1 : ∀ l2 i st, deepseek_loop think show i (l1 ++ l2) st =
  (let '(t1, st1) := deepseek_loop think show i l1 st in
   let '(t2, st2) := deepseek_loop think show (i + Z.of_nat (length l1)) l2 st1 in (t1 ++ t2, st2)).
Proof.
  induction l1 as [|m l1 IH]; intros l2 i st.
  - cbn [app deepseek_loop length]. rewrite Z.add_0_r. by destruct (deepseek_loop think show i l2 st).
  - cbn [app deepseek_loop length]. destruct (deepseek_msg think (show i) m st) as [t st1]. rewrite IH.
    replace (i + Z.of_nat (S (length l1))) with (i + 1 + Z.of_nat (length l1)) by lia.
    destruct (deepseek_loop think show (i + 1) l1 st1) as [t1 st2]. destruct (deepseek_loop think show (i + 1 + Z.of_nat (length l1)) l2 st2) as [t2 st3].
    by rewrite <- app_assoc.
Qed.

Lemma glm_loop_app orders think show l1 : ∀ l2 i st, glm_loop orders think show i (l1 ++ l2) st =
  match glm_loop orders think show i l1 st with
  | None => None
  | Some (t1, st1) =>
      match glm_loop orders think show (i + Z.of_nat (length l1)) l2 st1 with
      | None => None
      | Some (t2, st2) => Some (t1 ++ t2, st2)
      end
  end.
Proof.
  induction l1 as [|m l1 IH]; intros l2 i st.
  - cbn [app glm_loop length]. rewrite Z.add_0_r. by destruct (glm_loop orders think show i l2 st) as [[? ?]|].
  - cbn [app glm_loop length]. destruct (glm_msg orders think (show i) m st) as [[t st1]|]; [|done]. rewrite IH.
    replace (i + Z.of_nat (S (length l1))) with (i + 1 + Z.of_nat (length l1)) by lia.
    destruct (glm_loop orders think show (i + 1) l1 st1) as [[t1 st2]|]; [|done].
    destruct (glm_loop orders think show (i + 1 + Z.of_nat (length l1)) l2 st2) as [[t2 st3]|]; [|done]. by rewrite <- app_assoc.
Qed.

(** Without thinking the reasoning of a message makes no difference; otherwise the
    messages that show theirs must agree. *)
Definition same_show (think : bool) (show show' : Z → bool) (i : Z) (n : nat) : Prop :=
  think = false ∨ ∀ k, i <= k < i + Z.of_nat n → show k = show' k.

Lemma same_show_tail think show show' i n : same_show think show show' i (S n) → same_show think show show' (i + 1) n.
Proof. intros [H|H]; [by left|right]. intros k Hk. apply H. lia. Qed.

Lemma deepseek_loop_ext think show show' l : ∀ i st, same_show think show show' i (length l) → deepseek_loop think show i l st = deepseek_loop think show' i l st.
Proof.
  induction l as [|m l IH]; intros i st Hs; [done|]. cbn [deepseek_loop].
  assert (deepseek_msg think (show i) m st = deepseek_msg think (show' i) m st) as ->.
  { destruct Hs as [->|Hs]; [by unfold deepseek_msg|]. rewrite Hs; [done|cbn [length]; lia]. }
  destruct (deepseek_msg think (show' i) m st) as [t st1]. by rewrite (IH _ _ (same_show_tail _ _ _ _ _ Hs)).
Qed.

Lemma glm_loop_ext orders think show show' l : ∀ i st, same_show think show show' i (length l) → glm_loop orders think show i l st = glm_loop orders think show' i l st.
Proof.
  induction l as [|m l IH]; intros i st Hs; [done|]. cbn [glm_loop].
  assert (glm_msg orders think (show i) m st = glm_msg orders think (show' i) m st) as ->.
  { destruct Hs as [->|Hs]; [by unfold glm_msg|]. rewrite Hs; [done|cbn [length]; lia]. }
  destruct (glm_msg orders think (show' i) m st) as [[t st1]|]; [|done]. by rewrite (IH _ _ (same_show_tail _ _ _ _ _ Hs)).
Qed.

(** The index only matters through [show]. *)
Lemma deepseek_loop_shift think l : ∀ i k st, deepseek_loop think (λ _, true) i l st = deepseek_loop think (λ _, true) k l st.
Proof.
  induction l as [|m l IH]; intros i k st; [done|]. cbn [deepseek_loop]. destruct (deepseek_msg think true m st) as [t st1]. by rewrite (IH (i + 1) (k + 1)).
Qed.

(** ** After a message of the user the assistant is next *)

Definition ends_with_user (msgs : list chat_msg) : Prop := ∃ l u, msgs = l ++ [u] ∧ role_is_user_like u = true.

Lemma deepseek_pending think show msgs i st : ends_with_user msgs → fst (snd (deepseek_loop think show i msgs st)) = true.
Proof.
  intros (l & u & -> & Hu). rewrite deepseek_loop_app. destruct (deepseek_loop think show i l st) as [t [pa pt]]. cbn [deepseek_loop].
  apply user_like_role in Hu as [Hu|[Hu|Hu]]; unfold deepseek_msg; role_cases u Hu; reflexivity.
Qed.

Lemma glm_pending orders think show msgs i st t st' : ends_with_user msgs → glm_loop orders think show i msgs st = Some (t, st') → fst st' = true.
Proof.
  intros (l & u & -> & Hu). rewrite glm_loop_app. destruct (glm_loop orders think show i l st) as [[t1 [pa ob]]|]; [|done]. cbn [glm_loop].
  intros H. destruct (glm_msg orders think (show (i + Z.of_nat (length l))) u (pa, ob)) as [[t2 st2]|] eqn:E; [|done].
  apply (inj Some) in H. simplify_eq. unfold glm_msg in E. apply user_like_role in Hu as [Hu|[Hu|Hu]].
  all: revert E; role_cases u Hu; change (bytes_eqb (bs "user") (bs "user")) with true; cbn -[append_glm_tool_result_message]; intros E.
  all: repeat case_match; try done; repeat match goal with H : (_ ≫= _) = Some _ |- _ => apply bind_Some in H as (? & _ & H) end; simplify_eq; done.
Qed.

(** ** The head of the prompt *)

Definition no_system (l : list chat_msg) : Prop := Forall (λ m, role_is_system m = false) l.

Lemma system_text_app msgs l schemas : no_system l → system_text (msgs ++ l) schemas = system_text msgs schemas.
Proof.
  intros Hl. unfold system_text. rewrite foldl_app. generalize (foldl (λ system m, if role_is_system m then
    system ++ (match system with [] => [] | _ => nl ++ nl end) ++ text_or_empty (msg_content m) else system) (append_tools_prompt_text schemas) msgs).
  induction Hl as [|m l Hm _ IH]; intros x; [done|]. cbn [foldl]. rewrite Hm. apply IH.
Qed.

Lemma glm_system_text_app msgs l : no_system l → glm_system_text (msgs ++ l) = glm_system_text msgs.
Proof.
  intros Hl. unfold glm_system_text. rewrite fmap_app, concat_app. rewrite <- (app_nil_r (concat _)) at 2. f_equal.
  induction Hl as [|m l Hm _ IH]; [done|]. cbn [fmap list_fmap concat]. by rewrite Hm.
Qed.

Lemma tool_context_app msgs l schemas : chat_history_uses_tool_context msgs schemas = true → chat_history_uses_tool_context (msgs ++ l) schemas = true.
Proof. unfold chat_history_uses_tool_context. rewrite existsb_app. destruct (present schemas); [done|]. cbn [orb]. by intros ->. Qed.

Lemma assistant_not_system a : role_is a "assistant" = true → role_is_system a = false.
Proof. intros Ha. role_cases a Ha. reflexivity. Qed.

(** ** A finished turn *)

(** What the model wrote after the prompt, for the message it became. *)
Definition turn_text (syntax : server_model_syntax) (orders : list tool_schema_order) (think : bool) (a : chat_msg) : bytes :=
  (if think then text_or_empty (msg_reasoning a) ++ END_THINK else [])
  ++ (match syntax with SERVER_MODEL_SYNTAX_GLM => append_trimmed_text (msg_content a) | SERVER_MODEL_SYNTAX_DEEPSEEK => text_or_empty (msg_content a) end)
  ++ append_tool_calls_text_for_syntax syntax (msg_tool_calls a) orders.

Lemma deepseek_turn think orders a pt : role_is a "assistant" = true →
  deepseek_msg think true a (true, pt)
    = (ASSISTANT ++ (if think then THINK else END_THINK) ++ turn_text SERVER_MODEL_SYNTAX_DEEPSEEK orders think a ++ EOS, (false, false)).
Proof.
  intros Ha. unfold deepseek_msg, turn_text. role_cases a Ha. cbn -[append_dsml_tool_calls_text ASSISTANT THINK END_THINK EOS].
  destruct think; cbn [app]; rewrite <- ?app_assoc; done.
Qed.

Lemma glm_turn orders think a pa ob : role_is a "assistant" = true → text_starts_with_think_tag (text_or_empty (msg_content a)) = false →
  glm_msg orders think true a (pa, ob)
    = Some (bs "<|assistant|>" ++ (if think then THINK else bs "<think></think>") ++ turn_text SERVER_MODEL_SYNTAX_GLM orders think a, (false, false)).
Proof.
  intros Ha Ht. unfold glm_msg, turn_text, append_glm_assistant_message_prefix. rewrite Ht. role_cases a Ha.
  cbn -[append_glm_tool_calls_text append_trimmed_text THINK END_THINK bs]. rewrite andb_true_r. destruct think; cbn [app]; rewrite <- ?app_assoc; done.
Qed.

Section extend.
Context (schemas : option bytes) (orders : list tool_schema_order) (tm : ds4_think_mode).
Context (msgs : list chat_msg) (a : chat_msg) (tail : list chat_msg).
Context (Hu : ends_with_user msgs) (Ha : role_is a "assistant" = true) (Htail : no_system tail).
Context (Hctx : ds4_think_mode_enabled tm = false ∨ chat_history_uses_tool_context msgs schemas = true).

Notation think := (ds4_think_mode_enabled tm).
Notation show_in l := (λ i, chat_history_uses_tool_context l schemas || (last_user_idx l <? i)).

Lemma shows_all i n l : same_show think (show_in (msgs ++ l)) (λ _, true) i n ∧ same_show think (show_in msgs) (λ _, true) i n.
Proof.
  destruct Hctx as [H|H]; [by split; left|]. split; right; intros k _; [by rewrite (tool_context_app _ _ _ H)|by rewrite H].
Qed.

Lemma deepseek_extends :
  render_deepseek_chat_prompt_text (msgs ++ a :: tail) schemas tm
    = render_deepseek_chat_prompt_text msgs schemas tm ++ turn_text SERVER_MODEL_SYNTAX_DEEPSEEK orders think a
      ++ render_deepseek_live_tool_tail (msgs ++ a :: tail) (S (length msgs)) tm.
Proof.
  unfold render_deepseek_chat_prompt_text, render_deepseek_live_tool_tail.
  replace (drop (S (length msgs)) (msgs ++ a :: tail)) with tail by (by rewrite drop_app_ge, Nat.sub_succ_l, Nat.sub_diag by lia).
  rewrite (system_text_app msgs (a :: tail)) by (apply Forall_cons; split; [by apply assistant_not_system|done]).
  rewrite deepseek_loop_app. destruct (shows_all 0 (length msgs) (a :: tail)) as [H1 H2]. rewrite (deepseek_loop_ext _ _ _ _ _ _ H1), (deepseek_loop_ext _ _ _ _ _ _ H2).
  pose proof (deepseek_pending think (λ _, true) msgs 0 (false, false) Hu) as Hp.
  destruct (deepseek_loop think (λ _, true) 0 msgs (false, false)) as [t1 [pa pt]]. cbn [fst snd] in Hp. subst pa.
  destruct (shows_all (0 + Z.of_nat (length msgs)) (length (a :: tail)) (a :: tail)) as [H3 _]. rewrite (deepseek_loop_ext _ _ _ (a :: tail) _ _ H3).
  cbn [deepseek_loop]. rewrite (deepseek_turn _ orders) by done. rewrite (deepseek_loop_shift think tail _ (Z.of_nat (S (length msgs)))).
  destruct (deepseek_loop think (λ _, true) (Z.of_nat (S (length msgs))) tail (false, false)) as [t2 st2].
  unfold deepseek_end at 2. cbn [fst]. by rewrite <- !app_assoc.
Qed.

Lemma glm_loop_shift l : ∀ i k st, glm_loop orders think (λ _, true) i l st = glm_loop orders think (λ _, true) k l st.
Proof.
  induction l as [|m l IH]; intros i k st; [done|]. cbn [glm_loop]. destruct (glm_msg orders think true m st) as [[t st1]|]; [|done]. by rewrite (IH (i + 1) (k + 1)).
Qed.

Lemma glm_extends p q : text_starts_with_think_tag (text_or_empty (msg_content a)) = false →
  render_glm_chat_prompt_text msgs schemas orders tm = Some p → render_glm_live_tool_tail (msgs ++ a :: tail) (S (length msgs)) orders tm = Some q →
  render_glm_chat_prompt_text (msgs ++ a :: tail) schemas orders tm = Some (p ++ turn_text SERVER_MODEL_SYNTAX_GLM orders think a ++ q).
Proof.
  intros Ht. unfold render_glm_chat_prompt_text, render_glm_live_tool_tail.
  replace (drop (S (length msgs)) (msgs ++ a :: tail)) with tail by (by rewrite drop_app_ge, Nat.sub_succ_l, Nat.sub_diag by lia).
  rewrite (glm_system_text_app msgs (a :: tail)) by (apply Forall_cons; split; [by apply assistant_not_system|done]).
  destruct (glm_head schemas tm) as [h|]; [|done].
  rewrite glm_loop_app. destruct (shows_all 0 (length msgs) (a :: tail)) as [H1 H2]. rewrite (glm_loop_ext _ _ _ _ _ _ _ H1), (glm_loop_ext _ _ _ _ _ _ _ H2).
  destruct (glm_loop orders think (λ _, true) 0 msgs (false, false)) as [[t1 [pa ob]]|] eqn:E; [|done]. pose proof (glm_pending _ _ _ _ _ _ _ _ Hu E) as Hp.
  cbn [fst] in Hp. subst pa. intros [= <-] Hq.
  destruct (shows_all (0 + Z.of_nat (length msgs)) (length (a :: tail)) (a :: tail)) as [H3 _]. rewrite (glm_loop_ext _ _ _ _ (a :: tail) _ _ H3).
  cbn [glm_loop]. rewrite glm_turn by done. rewrite (glm_loop_shift tail _ (Z.of_nat (S (length msgs)))).
  destruct (glm_loop orders think (λ _, true) (Z.of_nat (S (length msgs))) tail (false, false)) as [[t2 st2]|]; [|done]. injection Hq as <-.
  unfold glm_end at 2. cbn [fst]. by rewrite <- !app_assoc.
Qed.
End extend.

(** ** Rendering always ends *)

Lemma tool_result_blocks_total fuel : ∀ p, (length p < fuel)%nat → ∃ l, tool_result_blocks fuel p = Some l.
Proof.
  induction fuel as [|fuel IH]; intros p Hf; [lia|]. cbn [tool_result_blocks]. destruct (strstr p (bs "<tool_result>")) as [i|] eqn:E; [|by eexists].
  apply strstr_Some in E as (pre & post & -> & <-). destruct (strstr _ (bs "</tool_result>")) as [n|]; [|by eexists].
  destruct (IH (drop (n + 14) (drop (length pre + 13) (pre ++ bs "<tool_result>" ++ post)))) as [l ->]; [|by eexists].
  rewrite !length_drop, !length_app in *. change (length (bs "<tool_result>")) with 13%nat in *. lia.
Qed.

Lemma glm_loop_total orders think show msgs : ∀ i st, ∃ r, glm_loop orders think show i msgs st = Some r.
Proof.
  induction msgs as [|m msgs IH]; intros i st; [by eexists|]. cbn [glm_loop].
  assert (Hm : ∃ r, glm_msg orders think (show i) m st = Some r).
  { unfold glm_msg. destruct st as [pa ob]. destruct (role_is_system m); [by eexists|]. destruct (chat_msg_is_glm_tool_result m); [|by repeat case_match; eexists].
    unfold append_glm_tool_result_message. destruct (_ && _); [|by eexists].
    destruct (tool_result_blocks_total (S (length (text_or_empty (msg_content m)))) (text_or_empty (msg_content m))) as [l ->]; [lia|by eexists]. }
  destruct Hm as [[t st1] ->]. destruct (IH (i + 1) st1) as [[t2 st2] ->]. by eexists.
Qed.

Lemma glm_schemas_total fuel : ∀ p any, (length p < fuel)%nat → ∃ r, glm_schemas_loop fuel p any = Some r.
Proof.
  induction fuel as [|fuel IH]; intros p any Hf; [lia|]. cbn [glm_schemas_loop]. destruct p as [|c p]; [by eexists|].
  destruct (json_raw_value (c :: p)) as [[raw q]|] eqn:E; [|by eexists].
  assert (Hq : (length q < length (c :: p))%nat).
  { unfold json_raw_value in E. apply bind_Some in E as (r & Hr & [= _ <-]). apply skip_value_length in Hr. pose proof (drop_while_length isspace (c :: p)).
    unfold json_ws in *. lia. }
  destruct (match append_glm_tool_schema_json raw with Some r => r | None => (raw, true) end) as [t e].
  destruct (IH (json_ws q) (any || e)) as [[rest any'] ->]; [|by eexists]. pose proof (drop_while_length isspace q). unfold json_ws. cbn [length] in *. lia.
Qed.

Lemma render_total syntax msgs schemas orders tm : ∃ p, render_chat_prompt_text_for_syntax syntax msgs schemas orders tm = Some p.
Proof.
  destruct syntax; [by eexists|]. cbn [render_chat_prompt_text_for_syntax]. unfold render_glm_chat_prompt_text, glm_head, append_glm_tools_prompt_text.
  destruct (glm_loop_total orders (ds4_think_mode_enabled tm) (λ i, chat_history_uses_tool_context msgs schemas || (last_user_idx msgs <? i)) msgs 0 (false, false)) as [[t st] ->].
  destruct (present schemas); [|by eexists]. destruct (glm_schemas_total (S (length (json_ws (text_or_empty schemas)))) (json_ws (text_or_empty schemas)) false) as [[x y] ->]; [lia|by eexists].
Qed.

Lemma live_tail_total syntax msgs start orders tm : ∃ q, render_live_tool_tail_for_syntax syntax msgs start orders tm = Some q.
Proof.
  destruct syntax; [by eexists|]. cbn [render_live_tool_tail_for_syntax]. unfold render_glm_live_tool_tail.
  destruct (glm_loop_total orders (ds4_think_mode_enabled tm) (λ _, true) (drop start msgs) (Z.of_nat start) (false, false)) as [[t st] ->]. by eexists.
Qed.

(** ** The claims *)

(** A message as the parser of the generated text leaves it: in the GLM markup the
    content has no white space at its ends and no reasoning tag in front. *)
Definition settled (syntax : server_model_syntax) (a : chat_msg) : Prop :=
  match syntax with
  | SERVER_MODEL_SYNTAX_GLM =>
      append_trimmed_text (msg_content a) = text_or_empty (msg_content a) ∧ text_starts_with_think_tag (text_or_empty (msg_content a)) = false
  | SERVER_MODEL_SYNTAX_DEEPSEEK => True
  end.

Lemma prompt_extends syntax schemas orders tm msgs a tail
    (Hu : ends_with_user msgs) (Ha : role_is a "assistant" = true) (Hs : settled syntax a) (Htail : no_system tail)
    (Hctx : ds4_think_mode_enabled tm = false ∨ chat_history_uses_tool_context msgs schemas = true) :
  ∃ p text q,
    render_chat_prompt_text_for_syntax syntax msgs schemas orders tm = Some p
    ∧ render_live_tool_tail_for_syntax syntax (msgs ++ a :: tail) (S (length msgs)) orders tm = Some q
    ∧ render_chat_prompt_text_for_syntax syntax (msgs ++ a :: tail) schemas orders tm = Some (p ++ text ++ q)
    ∧ build_tool_checkpoint_suffix syntax orders tm (msg_content a) (msg_reasoning a) (msg_tool_calls a) = text ++ eos_for syntax.
Proof.
  destruct (render_total syntax msgs schemas orders tm) as [p Hp]. destruct (live_tail_total syntax (msgs ++ a :: tail) (S (length msgs)) orders tm) as [q Hq].
  exists p, (turn_text syntax orders (ds4_think_mode_enabled tm) a), q. split_and!; [done|done| |].
  - destruct syntax.
    + cbn in Hp, Hq. injection Hp as <-. injection Hq as <-. cbn [render_chat_prompt_text_for_syntax]. f_equal. by apply deepseek_extends.
    + destruct Hs as [_ Ht]. by apply glm_extends.
  - unfold build_tool_checkpoint_suffix, turn_text. destruct syntax; [by rewrite <- !app_assoc|]. destruct Hs as [-> _]. by rewrite <- !app_assoc.
Qed.


(** ** Conversations without tools *)

Lemma last_user_ge l : ∀ i last, last < i → last <= last_user_from i last l.
Proof.
  induction l as [|m l IH]; intros i last Hl; [cbn; lia|]. cbn [last_user_from]. destruct (role_is_user_like m); [specialize (IH (i + 1) i)|specialize (IH (i + 1) last)]; lia.
Qed.

Lemma last_user_app l1 : ∀ l2 i last, last_user_from i last (l1 ++ l2) = last_user_from (i + Z.of_nat (length l1)) (last_user_from i last l1) l2.
Proof.
  induction l1 as [|m l1 IH]; intros l2 i last; cbn [app last_user_from length]; [f_equal; lia|]. rewrite IH. f_equal. lia.
Qed.

Lemma last_user_lt l : ∀ i last, last < i → last_user_from i last l < i + Z.of_nat (length l).
Proof.
  induction l as [|m l IH]; intros i last Hl; cbn [last_user_from length]; [lia|].
  destruct (role_is_user_like m); [specialize (IH (i + 1) i)|specialize (IH (i + 1) last)]; lia.
Qed.

Lemma last_user_snoc l u : role_is_user_like u = true → last_user_idx (l ++ [u]) = Z.of_nat (length l).
Proof. intros Hu. unfold last_user_idx. rewrite last_user_app. cbn [last_user_from]. rewrite Hu. lia. Qed.

Lemma last_user_tail l u r : role_is_user_like u = true → Z.of_nat (length l) <= last_user_idx (l ++ u :: r).
Proof.
  intros Hu. unfold last_user_idx. rewrite last_user_app. cbn [last_user_from]. rewrite Hu.
  pose proof (last_user_ge r (0 + Z.of_nat (length l) + 1) (0 + Z.of_nat (length l))). lia.
Qed.

Section toolless.
Context (orders : list tool_schema_order) (tm : ds4_think_mode).
Context (msgs : list chat_msg) (a : chat_msg) (tail1 : list chat_msg) (u : chat_msg) (tail2 : list chat_msg).
Context (Hend : ends_with_user msgs) (Ha : role_is a "assistant" = true) (Hu : role_is_user_like u = true).
Let tail := tail1 ++ u :: tail2.
Context (Htail : no_system tail) (Hctx : chat_history_uses_tool_context (msgs ++ a :: tail) None = false).
Context (Hthink : ds4_think_mode_enabled tm = true).

Notation show_in l := (λ i, chat_history_uses_tool_context l None || (last_user_idx l <? i)).

Lemma hides_all : same_show true (show_in msgs) (λ _, false) 0 (length msgs) ∧ same_show true (show_in (msgs ++ a :: tail)) (λ _, false) 0 (S (length msgs)).
Proof.
  assert (Hc : chat_history_uses_tool_context msgs None = false).
  { destruct (chat_history_uses_tool_context msgs None) eqn:E; [|done]. by rewrite (tool_context_app _ _ _ E) in Hctx. }
  split; right; intros k Hk; [rewrite Hc|rewrite Hctx]; cbn [orb]; apply Z.ltb_ge.
  - destruct Hend as (l & v & -> & Hv). rewrite last_user_snoc by done. rewrite length_app in Hk. cbn in Hk. lia.
  - unfold tail. replace (msgs ++ a :: tail1 ++ u :: tail2) with ((msgs ++ a :: tail1) ++ u :: tail2) by (by rewrite <- app_assoc).
    pose proof (last_user_tail (msgs ++ a :: tail1) u tail2 Hu) as H. rewrite length_app in H. cbn [length] in H. lia.
Qed.

Lemma no_calls : msg_calls a = [].
Proof.
  unfold chat_history_uses_tool_context in Hctx. rewrite existsb_app in Hctx. cbn [present orb existsb] in Hctx. rewrite Ha in Hctx. cbn [andb] in Hctx.
  destruct (msg_calls a); [done|]. cbn in Hctx. by rewrite orb_true_r in Hctx.
Qed.

Lemma deepseek_grows show i st : ∃ c t st', deepseek_loop true show i tail st = (c :: t, st').
Proof.
  unfold tail. rewrite deepseek_loop_app. destruct (deepseek_loop true show i tail1 st) as [t1 [pa pt]]. cbn [deepseek_loop].
  assert (Hm : ∃ c t st', deepseek_msg true (show (i + Z.of_nat (length tail1))) u (pa, pt) = (c :: t, st')).
  { apply user_like_role in Hu as [H|[H|H]]; unfold deepseek_msg; role_cases u H; destruct pt; by eexists _, _, _. }
  destruct Hm as (c & t & st' & ->). destruct (deepseek_loop true show (i + Z.of_nat (length tail1) + 1) tail2 st') as [t2 st2].
  destruct t1 as [|d t1]; by eexists _, _, _.
Qed.

Lemma thinking_key_prefix : ∃ key c rest,
  build_toolless_thinking_visible_text (Some (render_deepseek_chat_prompt_text msgs None tm)) tm (msg_content a) = Some key
  ∧ render_deepseek_chat_prompt_text (msgs ++ a :: tail) None tm = key ++ c :: rest.
Proof.
  unfold render_deepseek_chat_prompt_text. rewrite Hthink. destruct hides_all as [H1 H2].
  rewrite (system_text_app msgs (a :: tail)) by (apply Forall_cons; split; [by apply assistant_not_system|done]).
  rewrite deepseek_loop_app. assert (H3 : same_show true (show_in (msgs ++ a :: tail)) (λ _, false) 0 (length msgs)).
  { destruct H2 as [?|H2]; [by left|right]. intros k Hk. apply H2. lia. }
  rewrite (deepseek_loop_ext _ _ _ _ _ _ H1), (deepseek_loop_ext _ _ _ _ _ _ H3).
  pose proof (deepseek_pending true (λ _, false) msgs 0 (false, false) Hend) as Hp.
  destruct (deepseek_loop true (λ _, false) 0 msgs (false, false)) as [t1 [pa pt]]. cbn [fst snd] in Hp. subst pa. cbn [deepseek_loop].
  assert (Hs : (chat_history_uses_tool_context (msgs ++ a :: tail) None || (last_user_idx (msgs ++ a :: tail) <? 0 + Z.of_nat (length msgs))) = false).
  { destruct H2 as [?|H2]; [done|]. apply (H2 (0 + Z.of_nat (length msgs))). lia. }
  rewrite Hs. assert (Hmsg : deepseek_msg true false a (true, pt) = (ASSISTANT ++ END_THINK ++ text_or_empty (msg_content a) ++ EOS, (false, false))).
  { pose proof no_calls as Hno. unfold deepseek_msg. role_cases a Ha. unfold append_dsml_tool_calls_text, msg_tool_calls. cbn [calls_v]. rewrite Hno.
    cbn -[ASSISTANT END_THINK EOS]. by rewrite <- !app_assoc. }
  rewrite Hmsg. set (show := show_in (msgs ++ a :: tail)).
  destruct (deepseek_grows show (0 + Z.of_nat (length msgs) + 1) (false, false)) as (c & t2 & st2 & E). rewrite E.
  set (head := BOS ++ (match tm with DS4_THINK_MAX => ds4_think_max_prefix | _ => [] end) ++ system_text msgs None ++ t1 ++ ASSISTANT).
  exists (head ++ END_THINK ++ text_or_empty (msg_content a) ++ EOS), c, (t2 ++ deepseek_end true st2). split.
  - unfold build_toolless_thinking_visible_text. rewrite Hthink. cbn [negb]. unfold deepseek_end. cbn [fst].
    replace (BOS ++ _) with (head ++ THINK) by (unfold head; by rewrite <- !app_assoc).
    rewrite length_app. change (length THINK) with 7%nat. replace (length head + 7 - 7)%nat with (length head) by lia.
    rewrite drop_app_length, take_app_length, bytes_eqb_refl. destruct (Nat.ltb_spec (length head + 7) 7); [lia|]. done.
  - unfold head. by rewrite <- !app_assoc.
Qed.

Lemma glm_key_never key p q : text_starts_with_think_tag (text_or_empty (msg_content a)) = false →
  render_glm_chat_prompt_text msgs None orders tm = Some p →
  build_toolless_thinking_visible_text (Some p) tm (msg_content a) = Some key →
  render_glm_chat_prompt_text (msgs ++ a :: tail) None orders tm = Some q → strip_prefix key q = None.
Proof.
  intros Ht. unfold render_glm_chat_prompt_text. rewrite Hthink. destruct hides_all as [H1 H2].
  rewrite (glm_system_text_app msgs (a :: tail)) by (apply Forall_cons; split; [by apply assistant_not_system|done]).
  rewrite glm_loop_app. assert (H3 : same_show true (show_in (msgs ++ a :: tail)) (λ _, false) 0 (length msgs)).
  { destruct H2 as [?|H2]; [by left|right]. intros k Hk. apply H2. lia. }
  rewrite (glm_loop_ext _ _ _ _ _ _ _ H1), (glm_loop_ext _ _ _ _ _ _ _ H3). destruct (glm_head None tm) as [h|]; [|done].
  destruct (glm_loop orders true (λ _, false) 0 msgs (false, false)) as [[t1 [pa ob]]|] eqn:E1; [|done].
  pose proof (glm_pending _ _ _ _ _ _ _ _ Hend E1) as Hp. cbn [fst] in Hp. subst pa. intros [= <-]. cbn [glm_loop].
  assert (Hs : (chat_history_uses_tool_context (msgs ++ a :: tail) None || (last_user_idx (msgs ++ a :: tail) <? 0 + Z.of_nat (length msgs))) = false).
  { destruct H2 as [?|H2]; [done|]. apply (H2 (0 + Z.of_nat (length msgs))). lia. }
  rewrite Hs. set (y := append_trimmed_text (msg_content a) ++ append_tool_calls_text_for_syntax SERVER_MODEL_SYNTAX_GLM (msg_tool_calls a) orders).
  assert (Hmsg : glm_msg orders true false a (true, ob) = Some (bs "<|assistant|>" ++ bs "<think></think>" ++ y, (false, false))).
  { unfold glm_msg, append_glm_assistant_message_prefix. rewrite Ht. role_cases a Ha. reflexivity. }
  rewrite Hmsg. set (show := show_in (msgs ++ a :: tail)).
  destruct (glm_loop orders true show (0 + Z.of_nat (length msgs) + 1) tail (false, false)) as [[t2 st2]|]; [|done].
  unfold build_toolless_thinking_visible_text. rewrite Hthink. cbn [negb].
  set (head := h ++ glm_system_text msgs ++ t1 ++ bs "<|assistant|>").
  replace (h ++ glm_system_text msgs ++ t1 ++ glm_end true (true, ob)) with (head ++ THINK) by (unfold head, glm_end; cbn [fst]; by rewrite <- !app_assoc).
  rewrite length_app. change (length THINK) with 7%nat. replace (length head + 7 - 7)%nat with (length head) by lia.
  rewrite drop_app_length, take_app_length, bytes_eqb_refl. destruct (Nat.ltb_spec (length head + 7) 7); [lia|]. cbn [orb negb].
  intros [= <-] [= <-]. destruct (strip_prefix _ _) as [r|] eqn:E; [|done]. exfalso. apply strip_prefix_Some in E.
  rewrite <- !app_assoc in E. unfold head in E. rewrite <- !app_assoc in E. do 3 apply app_inv_head in E. discriminate.
Qed.
End toolless.

(** Without tools, the text remembered for a finished turn (the prompt without
    its last reasoning tag, the answer, the end-of-sentence mark) is a proper prefix of
    the prompt of the next turn in the DeepSeek markup, so the next request finds the
    live session. *)
Theorem thinking_key_found tm msgs a tail1 u tail2
    (Hend : ends_with_user msgs) (Ha : role_is a "assistant" = true) (Hu : role_is_user_like u = true)
    (Htail : no_system (tail1 ++ u :: tail2)) (Hctx : chat_history_uses_tool_context (msgs ++ a :: tail1 ++ u :: tail2) None = false)
    (Hthink : ds4_think_mode_enabled tm = true) :
  ∃ key c rest,
    build_toolless_thinking_visible_text (Some (render_deepseek_chat_prompt_text msgs None tm)) tm (msg_content a) = Some key
    ∧ render_deepseek_chat_prompt_text (msgs ++ a :: tail1 ++ u :: tail2) None tm = key ++ c :: rest.
Proof. by apply thinking_key_prefix. Qed.

(** In the GLM markup that text is never a prefix of the prompt of the next turn:
    the prompt has an empty pair of reasoning tags where the text has only the closing
    one. The session of a finished turn is not found this way. *)
Theorem glm_thinking_key_lost orders tm msgs a tail1 u tail2 p key q
    (Hend : ends_with_user msgs) (Ha : role_is a "assistant" = true) (Hu : role_is_user_like u = true)
    (Htail : no_system (tail1 ++ u :: tail2)) (Hctx : chat_history_uses_tool_context (msgs ++ a :: tail1 ++ u :: tail2) None = false)
    (Hthink : ds4_think_mode_enabled tm = true) (Ht : text_starts_with_think_tag (text_or_empty (msg_content a)) = false)
    (Hp : render_chat_prompt_text_for_syntax SERVER_MODEL_SYNTAX_GLM msgs None orders tm = Some p)
    (Hk : build_toolless_thinking_visible_text (Some p) tm (msg_content a) = Some key)
    (Hq : render_chat_prompt_text_for_syntax SERVER_MODEL_SYNTAX_GLM (msgs ++ a :: tail1 ++ u :: tail2) None orders tm = Some q) :
  strip_prefix key q = None.
Proof. by eapply glm_key_never. Qed.

(** ** Errors and results as tool messages *)

Definition tool_msg (content : bytes) : chat_msg := ChatMsg (Some (bs "tool")) (Some content) None None [] [] None.

(** The report of a malformed tool call continues the session exactly as a tool
    result would: it closes an open reasoning, and then is the live tail of a
    conversation whose new message is a tool result with the error text. *)
Theorem error_suffix_is_tool_tail syntax prompt tm orders inside detail :
  ∃ text q, render_live_tool_tail_for_syntax syntax [tool_msg text] 0 orders tm = Some q
    ∧ build_invalid_tool_call_error_suffix syntax prompt tm inside detail
      = (if ds4_think_mode_enabled tm && inside then END_THINK else []) ++ q
    ∧ ∃ rest, text = bs "Tool error: invalid " ++ rest.
Proof.
  destruct syntax; cbn [render_live_tool_tail_for_syntax build_invalid_tool_call_error_suffix].
  - unfold build_invalid_dsml_tool_error_suffix. set (text := bs "Tool error: invalid DSML tool call" ++ _). exists text. eexists. split; [done|]. split.
    + f_equal. unfold render_deepseek_live_tool_tail. cbn [drop deepseek_loop deepseek_msg].
      change (role_is_system (tool_msg text)) with false. change (role_is (tool_msg text) "user") with false. change (role_is (tool_msg text) "tool") with true.
      cbn [orb]. unfold deepseek_end. cbn [fst msg_content tool_msg]. rewrite app_nil_r, <- !app_assoc. done.
    + eexists. unfold text. change (bs "Tool error: invalid DSML tool call") with (bs "Tool error: invalid " ++ bs "DSML tool call"). by rewrite <- app_assoc.
  - unfold build_invalid_glm_tool_error_suffix. set (text := bs "Tool error: invalid GLM tool call" ++ _). exists text. eexists. split; [|split].
    + unfold render_glm_live_tool_tail. cbn [drop glm_loop]. unfold glm_msg. change (role_is_system (tool_msg text)) with false.
      change (chat_msg_is_glm_tool_result (tool_msg text)) with true. cbn iota.
      change (append_glm_tool_result_message (tool_msg text)) with (Some (append_glm_tool_response text)). cbn [mbind option_bind]. reflexivity.
    + f_equal. unfold glm_end, append_glm_tool_response. cbn [fst]. rewrite app_nil_r, <- !app_assoc. done.
    + eexists. unfold text. change (bs "Tool error: invalid GLM tool call") with (bs "Tool error: invalid " ++ bs "GLM tool call"). by rewrite <- app_assoc.
Qed.

(** A message of an Anthropic client: texts and tool results in turn. *)
Definition result_block (r : bytes) : bytes := bs "<tool_result>" ++ append_tool_result_text (Some r) ++ bs "</tool_result>".
Definition mixed_content (parts : list (bytes * bytes)) (rest : bytes) : bytes := concat ((λ p, p.1 ++ result_block p.2) <$> parts) ++ rest.

Lemma tool_result_blocks_mixed parts rest : Forall (λ p, strstr p.1 (bs "<tool_result>") = None) parts → strstr rest (bs "<tool_result>") = None →
  ∀ fuel, (length (mixed_content parts rest) < fuel)%nat →
  tool_result_blocks fuel (mixed_content parts rest) = Some ((λ p, append_tool_result_text (Some p.2)) <$> parts).
Proof.
  intros Hp Hr. unfold mixed_content. induction Hp as [|[x r] parts Hx Hp IH]; intros fuel Hf; (destruct fuel as [|fuel]; [lia|]); cbn [tool_result_blocks].
  - cbn [fmap list_fmap concat app]. by rewrite Hr.
  - cbn [fmap list_fmap concat fst snd] in *. unfold result_block in *. rewrite <- !app_assoc in *. set (e := append_tool_result_text (Some r)) in *.
    set (more := concat ((λ p, p.1 ++ bs "<tool_result>" ++ append_tool_result_text (Some p.2) ++ bs "</tool_result>") <$> parts) ++ rest) in *.
    assert (Hfm : (length more < fuel)%nat) by (rewrite !length_app in Hf; change (length (bs "<tool_result>")) with 13%nat in Hf; lia).
    change (bs "<tool_result>" ++ e ++ bs "</tool_result>" ++ more) with ((60 :: bs "tool_result>") ++ e ++ bs "</tool_result>" ++ more).
    change (bs "<tool_result>") with (60 :: bs "tool_result>"). rewrite strstr_body; [|exact Hx|vm_compute; intros H; repeat apply elem_of_cons in H as [H|H]; try discriminate; by apply elem_of_nil in H].
    assert (Hb : drop (length x + 13) (x ++ (60 :: bs "tool_result>") ++ e ++ bs "</tool_result>" ++ more) = e ++ bs "</tool_result>" ++ more).
    { rewrite app_assoc. replace (length x + 13)%nat with (length (x ++ 60 :: bs "tool_result>")) by (rewrite length_app; reflexivity). by rewrite drop_app_length. }
    rewrite Hb. change (bs "</tool_result>") with (60 :: bs "/tool_result>"). rewrite strstr_body.
    2: { apply body_no_end. vm_compute. intros H. repeat apply elem_of_cons in H as [H|H]; try discriminate. by apply elem_of_nil in H. }
    2: { vm_compute. intros H. repeat apply elem_of_cons in H as [H|H]; try discriminate. by apply elem_of_nil in H. }
    assert (Hd : drop (length e + 14) (e ++ (60 :: bs "/tool_result>") ++ more) = more).
    { rewrite app_assoc. replace (length e + 14)%nat with (length (e ++ 60 :: bs "/tool_result>")) by (rewrite length_app; reflexivity). by rewrite drop_app_length. }
    rewrite Hd, take_app_length, IH; [done|exact Hfm].
Qed.

(** In the GLM markup each tool result of an Anthropic message becomes a response
    of its own, with its text kept; the texts of the message around the results do not
    reach the prompt at all. *)
Theorem glm_results_without_text m parts rest
    (Hrole : role_is m "user" = true) (Hids : msg_tool_call_ids m ≠ []) (Hne : parts ≠ [])
    (Hc : msg_content m = Some (mixed_content parts rest))
    (Hp : Forall (λ p, strstr p.1 (bs "<tool_result>") = None) parts) (Hr : strstr rest (bs "<tool_result>") = None) :
  append_glm_tool_result_message m = Some (concat ((λ p, append_glm_tool_response (append_tool_result_text (Some p.2))) <$> parts)).
Proof.
  unfold append_glm_tool_result_message. rewrite Hrole, Hc. destruct (msg_tool_call_ids m) as [|id ids]; [done|]. cbn [length Nat.eqb negb andb text_or_empty].
  rewrite tool_result_blocks_mixed by (done || lia). cbn [mbind option_bind]. destruct parts as [|p parts]; [done|]. by rewrite <- list_fmap_compose.
Qed.

(** ** Witnesses *)

Definition say (role : string) (content : bytes) : chat_msg := ChatMsg (Some (bs role)) (Some content) None None [] [] None.


(** Witness. *)
Lemma thinking_key_found_witness : ∃ key c rest,
  build_toolless_thinking_visible_text (Some (render_deepseek_chat_prompt_text [say "user" (bs "hi")] None DS4_THINK_HIGH)) DS4_THINK_HIGH (Some (bs "ok")) = Some key
  ∧ render_deepseek_chat_prompt_text ([say "user" (bs "hi")] ++ say "assistant" (bs "ok") :: [] ++ say "user" (bs "and") :: []) None DS4_THINK_HIGH = key ++ c :: rest.
Proof.
  apply (thinking_key_found DS4_THINK_HIGH [say "user" (bs "hi")] (say "assistant" (bs "ok")) [] (say "user" (bs "and")) []).
  - exists [], (say "user" (bs "hi")). split; reflexivity.
  - reflexivity.
  - reflexivity.
  - constructor; [reflexivity|constructor].
  - reflexivity.
  - reflexivity.
Defined.

(** Witness: the same conversation in the GLM markup. *)
Lemma glm_thinking_key_lost_witness :
  strip_prefix (bs "[gMASK]<sop><|system|>Reasoning Effort: High<|user|>hi<|assistant|></think>ok" ++ EOS)
    (bs "[gMASK]<sop><|system|>Reasoning Effort: High<|user|>hi<|assistant|><think></think>ok<|user|>and<|assistant|><think>") = None.
Proof.
  apply (glm_thinking_key_lost [] DS4_THINK_HIGH [say "user" (bs "hi")] (say "assistant" (bs "ok")) [] (say "user" (bs "and")) []
    (bs "[gMASK]<sop><|system|>Reasoning Effort: High<|user|>hi<|assistant|><think>")).
  - exists [], (say "user" (bs "hi")). split; reflexivity.
  - reflexivity.
  - reflexivity.
  - constructor; [reflexivity|constructor].
  - reflexivity.
  - reflexivity.
  - reflexivity.
  - vm_compute. reflexivity.
  - vm_compute. reflexivity.
  - vm_compute. reflexivity.
Defined.

(** Witness: a result with a remark of the user, who is not heard. *)
Lemma glm_results_without_text_witness :
  append_glm_tool_result_message (ChatMsg (Some (bs "user")) (Some (mixed_content [([], bs "one")] (bs "please stop"))) None None [bs "id"] [] None)
    = Some (bs "<tool_response>one</tool_response>").
Proof.
  apply (glm_results_without_text (ChatMsg (Some (bs "user")) (Some (mixed_content [([], bs "one")] (bs "please stop"))) None None [bs "id"] [] None) [([], bs "one")] (bs "please stop")).
  - reflexivity.
  - discriminate.
  - discriminate.
  - reflexivity.
  - constructor; [reflexivity|constructor].
  - reflexivity.
Defined.
