(* ===== verification/Continuation.v ===== *)
(** * Requests that bring tool results

    [engine/src/server.c]: which tool results a request may carry, and what it asks of
    a live session. The map from call ids to the message that declares them, a radix
    tree of the code that lives for one call, is a finite map here. *)
From Stdlib Require Import Floats.SpecFloat.
From S2P Require Import Prelude CLib Strtod KvHeader KvCache Json JsonProps Request Stream StreamProps Dsml DsmlText ToolText ToolRoundTrip ToolMemory ToolMap LiveState Prompt PromptProps.

(** ** Ids *)

Definition chat_msg_collect_tool_call_ids (m : chat_msg) (ids : stop_list) : stop_list :=
  foldl (λ ids id, id_list_push_unique ids (Some id)) (id_list_push_unique ids (msg_tool_call_id m)) (msg_tool_call_ids m).

(** The calls of an assistant message, later ones taking the place of earlier ones. *)
Definition register_calls (m : chat_msg) (by_call_id : gmap bytes chat_msg) : gmap bytes chat_msg :=
  foldl (λ t tc, match tc_id tc with Some (c :: r) => <[c :: r := m]> t | _ => t end) by_call_id (msg_calls m).

Definition find_call (by_call_id : gmap bytes chat_msg) (id : bytes) : option chat_msg :=
  match id with [] => None | _ => by_call_id !! id end.

(** ** Validation *)

(** [snprintf] into a buffer of [errlen] bytes. *)
Definition truncated (errlen : nat) (s : bytes) : bytes := take (errlen - 1) s.

(** What was learnt: a result whose call is only live, a call without its reasoning. *)
Definition needs : Type := bool * bool.

(** The ids of one message against the calls before it. *)
Fixpoint validate_ids (live prior : bytes → bool) (bare : bytes → bool) (unknown : bytes → bytes) (ids : list bytes) (st : needs) : bytes + needs :=
  match ids with
  | [] => inr st
  | id :: ids' =>
      if negb (live id) && negb (prior id) then inl (unknown id)
      else if negb (prior id) then validate_ids live prior bare unknown ids' (true, snd st)
      else validate_ids live prior bare unknown ids' (fst st, snd st || bare id)
  end.

Definition is_prior (t : gmap bytes chat_msg) (id : bytes) : bool := match find_call t id with Some _ => true | None => false end.

(** The call of [id] was made without reasoning that the client replays. *)
Definition bare_call (needs_reasoning : bool) (found : option chat_msg) : bool :=
  match found with Some m => needs_reasoning && negb (present (msg_reasoning m)) | None => false end.

(** The loop over the messages; [answers]: the messages that carry results. *)
Fixpoint validate_loop (live : bytes → bool) (needs_reasoning : bool) (unknown : bytes → bytes) (answers : chat_msg → bool)
    (msgs : list chat_msg) (t : gmap bytes chat_msg) (st : needs) : bytes + needs :=
  match msgs with
  | [] => inr st
  | m :: r =>
      if role_is m "assistant" then validate_loop live needs_reasoning unknown answers r (register_calls m t) st
      else if negb (answers m) then validate_loop live needs_reasoning unknown answers r t st
      else
        match validate_ids live (is_prior t) (λ id, bare_call needs_reasoning (find_call t id)) unknown
                (stop_v (chat_msg_collect_tool_call_ids m no_ids)) st with
        | inl e => inl e
        | inr st => validate_loop live needs_reasoning unknown answers r t st
        end
  end.

Definition is_tool_output (m : chat_msg) : bool := role_is m "tool" || role_is m "function".

Definition responses_validate_tool_outputs (slots : list slot_live) (msgs : list chat_msg) (think_mode : ds4_think_mode) (errlen : nat) : bytes + needs :=
  validate_loop (λ id, responses_live_has_call_id slots (Some id)) (ds4_think_mode_enabled think_mode)
    (λ id, truncated errlen (bs "Responses continuation state is not available for call_id " ++ id ++ bs "; retry by replaying the full input history"))
    is_tool_output msgs ∅ (false, false).

Definition anthropic_msg_is_tool_result_tail (m : chat_msg) : bool :=
  role_is m "user" && (present (msg_tool_call_id m) || negb (length (msg_tool_call_ids m) =? 0)%nat).

Definition anthropic_validate_tool_results (slots : list slot_live) (msgs : list chat_msg) (errlen : nat) : bytes + bool :=
  match validate_loop (λ id, anthropic_live_has_call_id slots (Some id)) false
    (λ id, truncated errlen (bs "Anthropic continuation state is not available for tool_use_id " ++ id ++ bs "; retry by replaying the full messages history"))
    anthropic_msg_is_tool_result_tail msgs ∅ (false, false) with
  | inl e => inl e
  | inr st => inr (fst st)
  end.

(** ** Preparing a live continuation *)

(** How many messages at the end of the list [f] takes. *)
Fixpoint run_length (f : chat_msg → bool) (l : list chat_msg) : nat :=
  match l with [] => 0 | m :: r => if f m then S (run_length f r) else 0 end.
Definition tail_count (f : chat_msg → bool) (msgs : list chat_msg) : nat := run_length f (reverse msgs).

Definition collect_ids (msgs : list chat_msg) : stop_list := foldl (λ ids m, chat_msg_collect_tool_call_ids m ids) no_ids msgs.

(** The ids and the tail the request asks a live session for; [None]: what the request
    had stays. *)
Definition anthropic_prepare_live_continuation (syntax : server_model_syntax) (orders : list tool_schema_order) (think_mode : ds4_think_mode)
    (msgs : list chat_msg) : option (stop_list * option bytes) :=
  let tail_end := (length msgs - tail_count role_is_system msgs)%nat in
  let tail_start := (tail_end - tail_count anthropic_msg_is_tool_result_tail (take tail_end msgs))%nat in
  if (tail_start =? tail_end)%nat then None
  else
    let ids := collect_ids (drop tail_start msgs) in
    Some (ids, match stop_v ids with [] => None | _ => render_live_tool_tail_for_syntax syntax msgs tail_start orders think_mode end).

Definition responses_prepare_live_continuation (syntax : server_model_syntax) (orders : list tool_schema_order) (think_mode : ds4_think_mode)
    (msgs : list chat_msg) : option (stop_list * option bytes) :=
  let tail_start := (length msgs - tail_count is_tool_output msgs)%nat in
  if (tail_start =? length msgs)%nat then None
  else
    let finish ids := Some (ids, match stop_v ids with [] => None | _ => render_live_tool_tail_for_syntax syntax msgs tail_start orders think_mode end) in
    match tail_start with
    | O => finish (collect_ids msgs)
    | S anchor =>
        match msgs !! anchor with
        | Some assistant =>
            if negb (role_is assistant "assistant") || (length (msg_calls assistant) =? 0)%nat then Some (no_ids, None)
            else finish (push_calls no_ids (msg_calls assistant))
        | None => Some (no_ids, None)
        end
    end.

(** ** The map finds the nearest call before *)

(** The search the map stands for: back over the messages before. *)
Definition declares (m : chat_msg) (id : bytes) : bool :=
  role_is m "assistant" && existsb (λ tc, match tc_id tc with Some x => bytes_eqb x id | None => false end) (msg_calls m).

Fixpoint prior_call (before_rev : list chat_msg) (id : bytes) : option chat_msg :=
  match before_rev with
  | [] => None
  | m :: r => if declares m id then Some m else prior_call r id
  end.

(** Validation with that search, message by message. *)
Fixpoint validate_scan (live : bytes → bool) (needs_reasoning : bool) (unknown : bytes → bytes) (answers : chat_msg → bool)
    (before_rev msgs : list chat_msg) (st : needs) : bytes + needs :=
  match msgs with
  | [] => inr st
  | m :: r =>
      if role_is m "assistant" || negb (answers m) then validate_scan live needs_reasoning unknown answers (m :: before_rev) r st
      else
        match validate_ids live (λ id, match prior_call before_rev id with Some _ => true | None => false end)
                (λ id, bare_call needs_reasoning (prior_call before_rev id)) unknown
                (stop_v (chat_msg_collect_tool_call_ids m no_ids)) st with
        | inl e => inl e
        | inr st => validate_scan live needs_reasoning unknown answers (m :: before_rev) r st
        end
  end.

Lemma register_lookup m t id : id ≠ [] →
  register_calls m t !! id
    = (if existsb (λ tc, match tc_id tc with Some x => bytes_eqb x id | None => false end) (msg_calls m) then Some m else t !! id).
Proof.
  intros Hid. unfold register_calls. revert t. induction (msg_calls m) as [|tc v IH]; intros t; [done|]. cbn [foldl existsb]. rewrite IH.
  destruct (existsb _ v); [by rewrite orb_true_r|]. rewrite orb_false_r. destruct (tc_id tc) as [[|c r]|]; [by destruct id| |done].
  destruct (bytes_eqb (c :: r) id) eqn:E; [apply bytes_eqb_eq in E; subst; by rewrite lookup_insert_eq|].
  apply bytes_eqb_neq in E. by rewrite lookup_insert_ne.
Qed.

(** The ids of a message are never empty. *)
Lemma collected_nonempty m : Forall (λ id, id ≠ []) (stop_v (chat_msg_collect_tool_call_ids m no_ids)).
Proof.
  assert (H : ids_set (chat_msg_collect_tool_call_ids m no_ids)).
  { unfold chat_msg_collect_tool_call_ids. assert (H0 : ids_set (id_list_push_unique no_ids (msg_tool_call_id m))) by (apply push_unique_set, no_ids_set).
    revert H0. generalize (id_list_push_unique no_ids (msg_tool_call_id m)). induction (msg_tool_call_ids m) as [|x l IH]; intros ids Hs; [done|].
    cbn [foldl]. apply IH. by apply push_unique_set. }
  destruct H as [_ H]. apply Forall_forall. intros id Hid ->. done.
Qed.

Lemma validate_ids_ext live p p' b b' unknown ids st : Forall (λ id, p id = p' id ∧ b id = b' id) ids →
  validate_ids live p b unknown ids st = validate_ids live p' b' unknown ids st.
Proof. intros H. revert st. induction H as [|id ids [E1 E2] _ IH]; intros st; [done|]. cbn [validate_ids]. by rewrite E1, E2, !IH. Qed.

Lemma validate_loop_scan live needs_reasoning unknown answers msgs : ∀ t before st,
  (∀ id, id ≠ [] → t !! id = prior_call before id) →
  validate_loop live needs_reasoning unknown answers msgs t st = validate_scan live needs_reasoning unknown answers before msgs st.
Proof.
  induction msgs as [|m msgs IH]; intros t before st Ht; [done|]. cbn [validate_loop validate_scan]. destruct (role_is m "assistant") eqn:Ea; cbn [orb].
  - apply IH. intros id Hid. rewrite register_lookup by done. cbn [prior_call]. unfold declares. rewrite Ea. cbn [andb]. by rewrite Ht.
  - assert (Hk : ∀ id, id ≠ [] → t !! id = prior_call (m :: before) id) by (intros id Hid; cbn [prior_call]; unfold declares; rewrite Ea; by apply Ht).
    destruct (negb (answers m)); [by apply IH|].
    rewrite (validate_ids_ext live (is_prior t) (λ id, match prior_call before id with Some _ => true | None => false end)
      (λ id, bare_call needs_reasoning (find_call t id)) (λ id, bare_call needs_reasoning (prior_call before id))).
    + destruct (validate_ids _ _ _ _ _ _); [done|by apply IH].
    + eapply Forall_impl; [apply collected_nonempty|]. intros id Hid. cbn. unfold is_prior, find_call. destruct id as [|c r]; [done|]. by rewrite Ht.
Qed.

(** The one-pass validation of tool results, with its map of call ids, gives what
    the search back over the history gives: a result is accepted exactly when its call
    is live or declared by an earlier assistant message, the nearest one before it
    deciding whether reasoning is missing. *)
Theorem validation_is_nearest_prior slots msgs tm errlen :
  responses_validate_tool_outputs slots msgs tm errlen
    = validate_scan (λ id, responses_live_has_call_id slots (Some id)) (ds4_think_mode_enabled tm)
        (λ id, truncated errlen (bs "Responses continuation state is not available for call_id " ++ id ++ bs "; retry by replaying the full input history"))
        is_tool_output [] msgs (false, false).
Proof. apply validate_loop_scan. intros id _. by rewrite lookup_empty. Qed.

(** ** The tail a live session is asked to append *)

Lemma run_length_app f l m r : Forall (λ x, f x = true) l → f m = false → run_length f (l ++ m :: r) = length l.
Proof. intros Hl Hm. induction Hl as [|x l Hx _ IH]; cbn [app run_length length]; [by rewrite Hm|]. by rewrite Hx, IH. Qed.

Lemma tail_count_app f l m r : Forall (λ x, f x = true) l → f m = false → tail_count f (r ++ m :: l) = length l.
Proof.
  intros Hl Hm. unfold tail_count. rewrite reverse_app, reverse_cons, <- app_assoc. cbn [app]. rewrite run_length_app; [by rewrite length_reverse| |done].
  by apply Forall_reverse.
Qed.

Lemma result_role m : anthropic_msg_is_tool_result_tail m = true → role_is_system m = false.
Proof. unfold anthropic_msg_is_tool_result_tail. intros [H _]%andb_true_iff. role_cases m H. reflexivity. Qed.

Lemma tail_count_none f l m : f m = false → tail_count f (l ++ [m]) = 0%nat.
Proof. intros Hm. apply (tail_count_app f [] m l); [constructor|done]. Qed.

Lemma anthropic_tail_start msgs a tail : role_is a "assistant" = true → tail ≠ [] → Forall (λ m, anthropic_msg_is_tool_result_tail m = true) tail →
  let all := msgs ++ a :: tail in
  (length all - tail_count role_is_system all = length all)%nat
  ∧ (length all - tail_count anthropic_msg_is_tool_result_tail all = S (length msgs))%nat.
Proof.
  intros Ha Hne Ht all. split.
  - destruct tail as [|u t _] using rev_ind; [done|]. apply Forall_app in Ht as [_ Hu]. apply Forall_cons in Hu as [Hu _].
    replace all with ((msgs ++ a :: t) ++ [u]) by (unfold all; by rewrite <- app_assoc). rewrite (tail_count_none role_is_system _ u (result_role u Hu)). lia.
  - unfold all. rewrite tail_count_app; [rewrite length_app; cbn [length]; lia|done|].
    unfold anthropic_msg_is_tool_result_tail. role_cases a Ha. reflexivity.
Qed.

(** When a client answers the tool calls of the last turn, the tail prepared for
    the live session is exactly what the full prompt has after the prompt and the text
    of that turn, and the ids it asks for are those of the results: continuing the
    session and rendering the whole conversation give the same text. *)
Theorem anthropic_continuation_aligned syntax schemas orders tm msgs a tail
    (Hu : ends_with_user msgs) (Ha : role_is a "assistant" = true) (Hs : settled syntax a) (Hne : tail ≠ [])
    (Ht : Forall (λ m, anthropic_msg_is_tool_result_tail m = true) tail) (Hids : stop_v (collect_ids tail) ≠ [])
    (Hctx : ds4_think_mode_enabled tm = false ∨ chat_history_uses_tool_context msgs schemas = true) :
  ∃ p text q,
    anthropic_prepare_live_continuation syntax orders tm (msgs ++ a :: tail) = Some (collect_ids tail, Some q)
    ∧ render_chat_prompt_text_for_syntax syntax msgs schemas orders tm = Some p
    ∧ render_chat_prompt_text_for_syntax syntax (msgs ++ a :: tail) schemas orders tm = Some (p ++ text ++ q)
    ∧ build_tool_checkpoint_suffix syntax orders tm (msg_content a) (msg_reasoning a) (msg_tool_calls a) = text ++ eos_for syntax.
Proof.
  assert (Hsys : no_system tail) by (eapply Forall_impl; [exact Ht|]; exact result_role).
  destruct (prompt_extends syntax schemas orders tm msgs a tail Hu Ha Hs Hsys Hctx) as (p & text & q & Hp & Hq & Hr & Hc).
  exists p, text, q. split_and!; [|done..]. unfold anthropic_prepare_live_continuation.
  destruct (anthropic_tail_start msgs a tail Ha Hne Ht) as [E1 E2]. rewrite E1, firstn_all, E2.
  assert (Hl : (S (length msgs) < length (msgs ++ a :: tail))%nat) by (rewrite length_app; destruct tail; [done|cbn [length]; lia]).
  destruct (Nat.eqb_spec (S (length msgs)) (length (msgs ++ a :: tail))); [lia|].
  replace (drop (S (length msgs)) (msgs ++ a :: tail)) with tail by (by rewrite drop_app_ge, Nat.sub_succ_l, Nat.sub_diag by lia).
  rewrite Hq. by destruct (stop_v (collect_ids tail)).
Qed.

(** Witness. *)
Lemma anthropic_continuation_aligned_witness :
  let a := ChatMsg (Some (bs "assistant")) (Some (bs "ok")) (Some (bs "hm")) None [] [ToolCall (Some (bs "i")) (Some (bs "ls")) (Some (bs "{}"))] None in
  let answer := ChatMsg (Some (bs "user")) (Some (bs "<tool_result>r</tool_result>")) None (Some (bs "i")) [bs "i"] [] None in
  ∃ p text q,
    anthropic_prepare_live_continuation SERVER_MODEL_SYNTAX_GLM [] DS4_THINK_NONE ([say "user" (bs "hi")] ++ a :: [answer]) = Some (collect_ids [answer], Some q)
    ∧ render_chat_prompt_text_for_syntax SERVER_MODEL_SYNTAX_GLM [say "user" (bs "hi")] None [] DS4_THINK_NONE = Some p
    ∧ render_chat_prompt_text_for_syntax SERVER_MODEL_SYNTAX_GLM ([say "user" (bs "hi")] ++ a :: [answer]) None [] DS4_THINK_NONE = Some (p ++ text ++ q)
    ∧ build_tool_checkpoint_suffix SERVER_MODEL_SYNTAX_GLM [] DS4_THINK_NONE (msg_content a) (msg_reasoning a) (msg_tool_calls a) = text ++ eos_for SERVER_MODEL_SYNTAX_GLM.
Proof.
  intros a answer. apply (anthropic_continuation_aligned SERVER_MODEL_SYNTAX_GLM None [] DS4_THINK_NONE [say "user" (bs "hi")] a [answer]).
  - exists [], (say "user" (bs "hi")). split; reflexivity.
  - reflexivity.
  - split; reflexivity.
  - discriminate.
  - constructor; [reflexivity|constructor].
  - discriminate.
  - left. reflexivity.
Defined.
