(* ===== verification/Gguf.v ===== *)
(** * The GGUF model file

    The cursor and the GGUF parser of [engine/src/engine.c]: [cursor_has],
    [cursor_read], [cursor_string], [skip_value], [tensor_nbytes], [parse_metadata],
    [parse_tensors], [model_open] and the metadata readers [model_get_string],
    [model_get_u32], [model_get_token_id], [model_get_u64_compat],
    [model_get_bool], [model_get_array].

    The mapped file is the list of its bytes. A cursor function takes the position
    and gives a value with the new position, or the error text of the cursor; the
    callers end the process with that text. The host is little endian, as the code
    assumes when it copies integers out of the file. *)
From S2P Require Import Prelude CLib KvHeader.

(** ** Cursor functions *)

(** [Fail]: the function returned false with this text in [error], or the process
    ended with it. [Stuck]: the fuel of a loop ran out. *)
Inductive outcome (A : Type) :=
  | Ok (a : A) (pos : Z)
  | Fail (error : bytes)
  | Stuck.
Arguments Ok {A} _ _.
Arguments Fail {A} _.
Arguments Stuck {A}.

Definition cursor_m (A : Type) : Type := Z → outcome A.

Definition cret {A} (a : A) : cursor_m A := λ pos, Ok a pos.
Definition cbind {A B} (m : cursor_m A) (k : A → cursor_m B) : cursor_m B := λ pos,
  match m pos with Ok a pos' => k a pos' | Fail e => Fail e | Stuck => Stuck end.

Declare Scope cursor_scope.
Delimit Scope cursor_scope with cursor.
Notation "'let!' x := m 'in' k" := (cbind m (λ x, k)) (at level 200, x binder, m at level 100, k at level 200) : cursor_scope.
#[local] Open Scope cursor_scope.

(** [cursor_error] in a cursor that has no error yet. *)
Definition cursor_error {A} (msg : bytes) : cursor_m A := λ pos, Fail (msg ++ bs " at byte " ++ fmt_u pos).
Definition ds4_die {A} (msg : bytes) : cursor_m A := λ _, Fail msg.
Definition cpos : cursor_m Z := λ pos, Ok pos pos.

(** The integer in little-endian bytes. *)
Definition le_value (b : bytes) : Z := foldr (λ c v, c + 256 * v) 0 b.

(** A string of the file: where it starts and its length. *)
Record ds4_str := Ds4Str { str_ptr : Z; str_len : Z }.

#[export] Instance ds4_str_eq_dec : EqDecision ds4_str.
Proof. solve_decision. Defined.

Section file.
Context (file : bytes).

Definition map_size : Z := Z.of_nat (length file).

Definition bytes_at (pos n : Z) : bytes := take (Z.to_nat n) (drop (Z.to_nat pos) file).

Definition str_bytes (s : ds4_str) : bytes := bytes_at (str_ptr s) (str_len s).

Definition cursor_has (n : Z) : cursor_m unit := λ pos,
  if (n >? map_size) || (pos >? map_size - n) then cursor_error (bs "truncated GGUF file") pos
  else Ok tt pos.

Definition cursor_read (n : Z) : cursor_m bytes :=
  let! _ := cursor_has n in λ pos, Ok (bytes_at pos n) (u64 (pos + n)).

Definition cursor_skip (n : Z) : cursor_m unit :=
  let! _ := cursor_has n in λ pos, Ok tt (u64 (pos + n)).

Definition cursor_u32 : cursor_m Z := let! b := cursor_read 4 in cret (le_value b).
Definition cursor_u64 : cursor_m Z := let! b := cursor_read 8 in cret (le_value b).

Definition cursor_string : cursor_m ds4_str :=
  let! len := cursor_u64 in
  let! _ := cursor_has len in
  λ pos, Ok (Ds4Str pos len) (u64 (pos + len)).

Definition align_up (value alignment : Z) : Z :=
  let rem := value mod alignment in
  if rem =? 0 then value else u64 (u64 (value + alignment) - rem).

(** ** Metadata values *)

Definition GGUF_VALUE_UINT8 : Z := 0.
Definition GGUF_VALUE_INT8 : Z := 1.
Definition GGUF_VALUE_UINT16 : Z := 2.
Definition GGUF_VALUE_INT16 : Z := 3.
Definition GGUF_VALUE_UINT32 : Z := 4.
Definition GGUF_VALUE_INT32 : Z := 5.
Definition GGUF_VALUE_FLOAT32 : Z := 6.
Definition GGUF_VALUE_BOOL : Z := 7.
Definition GGUF_VALUE_STRING : Z := 8.
Definition GGUF_VALUE_ARRAY : Z := 9.
Definition GGUF_VALUE_UINT64 : Z := 10.
Definition GGUF_VALUE_INT64 : Z := 11.
Definition GGUF_VALUE_FLOAT64 : Z := 12.

Definition scalar_value_size (type : Z) : Z :=
  if (type =? GGUF_VALUE_UINT8) || (type =? GGUF_VALUE_INT8) || (type =? GGUF_VALUE_BOOL) then 1
  else if (type =? GGUF_VALUE_UINT16) || (type =? GGUF_VALUE_INT16) then 2
  else if (type =? GGUF_VALUE_UINT32) || (type =? GGUF_VALUE_INT32) || (type =? GGUF_VALUE_FLOAT32) then 4
  else if (type =? GGUF_VALUE_UINT64) || (type =? GGUF_VALUE_INT64) || (type =? GGUF_VALUE_FLOAT64) then 8
  else 0.

(** The loop over the items of an array. *)
Fixpoint skip_items (item : cursor_m unit) (fuel : nat) (i len : Z) : cursor_m unit :=
  if i <? len then
    match fuel with
    | O => λ _, Stuck
    | S fuel' => let! _ := item in skip_items item fuel' (u64 (i + 1)) len
    end
  else cret tt.

(** [levels] is nine less [depth]: a value deeper than eight is refused. *)
Fixpoint skip_value (levels : nat) (type : Z) : cursor_m unit :=
  match levels with
  | O => cursor_error (bs "metadata array nesting is too deep")
  | S levels' =>
      let scalar := scalar_value_size type in
      if negb (scalar =? 0) then cursor_skip scalar
      else if type =? GGUF_VALUE_STRING then let! _ := cursor_string in cret tt
      else if type =? GGUF_VALUE_ARRAY then
        let! item_type := cursor_u32 in
        let! len := cursor_u64 in
        let item_size := scalar_value_size item_type in
        if negb (item_size =? 0) then
          if len >? UINT64_MAX / item_size then cursor_error (bs "metadata array is too large")
          else cursor_skip (u64 (len * item_size))
        else skip_items (skip_value levels' item_type) (S (length file)) 0 len
      else cursor_error (bs "unknown GGUF metadata type")
  end.

Definition max_levels : nat := 9.

(** ** Tensor types *)

Record gguf_type_info := GgufType { type_name : bytes; block_elems : Z; block_bytes : Z }.

Definition gguf_types (type : Z) : option gguf_type_info :=
  match type with
  | 0 => Some (GgufType (bs "f32") 1 4)
  | 1 => Some (GgufType (bs "f16") 1 2)
  | 2 => Some (GgufType (bs "q4_0") 32 18)
  | 3 => Some (GgufType (bs "q4_1") 32 20)
  | 6 => Some (GgufType (bs "q5_0") 32 22)
  | 7 => Some (GgufType (bs "q5_1") 32 24)
  | 8 => Some (GgufType (bs "q8_0") 32 34)
  | 9 => Some (GgufType (bs "q8_1") 32 40)
  | 10 => Some (GgufType (bs "q2_k") 256 84)
  | 11 => Some (GgufType (bs "q3_k") 256 110)
  | 12 => Some (GgufType (bs "q4_k") 256 144)
  | 13 => Some (GgufType (bs "q5_k") 256 176)
  | 14 => Some (GgufType (bs "q6_k") 256 210)
  | 15 => Some (GgufType (bs "q8_k") 256 292)
  | 16 => Some (GgufType (bs "iq2_xxs") 256 66)
  | 17 => Some (GgufType (bs "iq2_xs") 256 74)
  | 18 => Some (GgufType (bs "iq3_xxs") 256 98)
  | 19 => Some (GgufType (bs "iq1_s") 256 110)
  | 20 => Some (GgufType (bs "iq4_nl") 256 50)
  | 21 => Some (GgufType (bs "iq3_s") 256 110)
  | 22 => Some (GgufType (bs "iq2_s") 256 82)
  | 23 => Some (GgufType (bs "iq4_xs") 256 136)
  | 24 => Some (GgufType (bs "i8") 1 1)
  | 25 => Some (GgufType (bs "i16") 1 2)
  | 26 => Some (GgufType (bs "i32") 1 4)
  | 27 => Some (GgufType (bs "i64") 1 8)
  | 28 => Some (GgufType (bs "f64") 1 8)
  | 29 => Some (GgufType (bs "iq1_m") 256 56)
  | 30 => Some (GgufType (bs "bf16") 1 2)
  | 39 => Some (GgufType (bs "mxfp4") 32 17)
  | _ => None
  end.

Definition tensor_type (type : Z) : option gguf_type_info := gguf_types type.

Definition tensor_type_name (type : Z) : bytes :=
  match tensor_type type with Some info => type_name info | None => bs "unknown" end.

Definition tensor_nbytes (type elements : Z) : option Z :=
  match tensor_type type with
  | None => None
  | Some info =>
      if block_elems info =? 0 then None
      else
        let blocks := u64 (u64 (elements + block_elems info) - 1) / block_elems info in
        if blocks >? UINT64_MAX / block_bytes info then None
        else Some (u64 (blocks * block_bytes info))
  end.

(** ** The model *)

Record ds4_kv := Ds4Kv { kv_key : ds4_str; kv_type : Z; kv_value_pos : Z }.

Record ds4_tensor := Ds4Tensor {
  t_name : ds4_str;
  t_ndim : Z;
  t_dim : list Z;
  t_type : Z;
  t_rel_offset : Z;
  t_abs_offset : Z;
  t_elements : Z;
  t_bytes : Z;
}.

Definition set_abs_offset (t : ds4_tensor) (off : Z) : ds4_tensor :=
  Ds4Tensor (t_name t) (t_ndim t) (t_dim t) (t_type t) (t_rel_offset t) off (t_elements t) (t_bytes t).

Record ds4_model := Ds4Model {
  m_version : Z;
  m_n_kv : Z;
  m_n_tensors : Z;
  m_alignment : Z;
  m_tensor_data_pos : Z;
  m_max_tensor_bytes : Z;
  m_kv : list ds4_kv;
  m_tensors : list ds4_tensor;
}.

Definition DS4_GGUF_MAGIC : Z := 0x46554747.
Definition DS4_MAX_DIMS : Z := 8.

(** [general.alignment] at the position of its value, when it is there and not zero. *)
Definition metadata_alignment (kv : ds4_kv) (alignment : Z) : Z :=
  if bytes_eqb (str_bytes (kv_key kv)) (bs "general.alignment") && (kv_type kv =? GGUF_VALUE_UINT32) then
    match cursor_u32 (kv_value_pos kv) with
    | Ok a _ => if a =? 0 then alignment else a
    | _ => alignment
    end
  else alignment.

(** One entry of the metadata table. *)
Definition metadata_entry : cursor_m ds4_kv :=
  let! key := cursor_string in
  let! type := cursor_u32 in
  let! pos := cpos in
  let! _ := skip_value max_levels type in
  cret (Ds4Kv key type pos).

Fixpoint metadata_loop (n : nat) (kvs : list ds4_kv) (alignment : Z) : cursor_m (list ds4_kv * Z) :=
  match n with
  | O => cret (kvs, alignment)
  | S n' =>
      let! kv := metadata_entry in
      metadata_loop n' (kvs ++ [kv]) (metadata_alignment kv alignment)
  end.

Definition parse_metadata (n_kv : Z) : cursor_m (list ds4_kv * Z) :=
  let! pos := cpos in
  if n_kv >? u64 (map_size - pos) then ds4_die (bs "GGUF metadata count exceeds file size")
  else metadata_loop (Z.to_nat n_kv) [] 32.

(** The dimensions of a tensor and their product. *)
Fixpoint dims_loop (n : nat) (dims : list Z) (elements : Z) : cursor_m (list Z * Z) :=
  match n with
  | O => cret (dims, elements)
  | S n' =>
      let! d := cursor_u64 in
      if negb (d =? 0) && (elements >? UINT64_MAX / d) then ds4_die (bs "tensor element count overflow")
      else dims_loop n' (dims ++ [d]) (u64 (elements * d))
  end.

(** One entry of the tensor table; an unsupported type leaves the size at zero. *)
Definition tensor_entry : cursor_m ds4_tensor :=
  let! name := cursor_string in
  let! ndim := cursor_u32 in
  if (ndim =? 0) || (ndim >? DS4_MAX_DIMS) then ds4_die (bs "tensor has an unsupported number of dimensions")
  else
    let! '(dims, elements) := dims_loop (Z.to_nat ndim) [] 1 in
    let! type := cursor_u32 in
    let! rel := cursor_u64 in
    cret (Ds4Tensor name ndim dims type rel 0 elements (default 0 (tensor_nbytes type elements))).

Fixpoint tensor_loop (n : nat) (ts : list ds4_tensor) : cursor_m (list ds4_tensor) :=
  match n with
  | O => cret ts
  | S n' => let! t := tensor_entry in tensor_loop n' (ts ++ [t])
  end.

(** The second loop: offsets from the start of the file, and the largest size. *)
Fixpoint place_tensors (data_pos : Z) (ts placed : list ds4_tensor) (max_bytes : Z) : cursor_m (list ds4_tensor * Z) :=
  match ts with
  | [] => cret (placed, max_bytes)
  | t :: r =>
      if t_rel_offset t >? UINT64_MAX - data_pos then ds4_die (bs "tensor offset overflow")
      else
        let abs := u64 (data_pos + t_rel_offset t) in
        if negb (t_bytes t =? 0) && ((abs >? map_size) || (t_bytes t >? u64 (map_size - abs)))
        then ds4_die (bs "tensor points outside GGUF file")
        else place_tensors data_pos r (placed ++ [set_abs_offset t abs]) (if t_bytes t >? max_bytes then t_bytes t else max_bytes)
  end.

Definition parse_tensors (n_tensors alignment : Z) : cursor_m (Z * list ds4_tensor * Z) :=
  let! pos := cpos in
  if n_tensors >? u64 (map_size - pos) then ds4_die (bs "GGUF tensor count exceeds file size")
  else
    let! ts := tensor_loop (Z.to_nat n_tensors) [] in
    let! pos := cpos in
    let data_pos := align_up pos alignment in
    let! '(placed, max_bytes) := place_tensors data_pos ts [] 0 in
    cret (data_pos, placed, max_bytes).

(** [model_open] on a file that could be opened and mapped. *)
Definition model_open : outcome ds4_model :=
  if map_size <? 32 then Fail (bs "model file is too small to be GGUF")
  else
    (let! magic := cursor_u32 in
     if negb (magic =? DS4_GGUF_MAGIC) then ds4_die (bs "model is not a GGUF file")
     else
       let! version := cursor_u32 in
       let! n_tensors := cursor_u64 in
       let! n_kv := cursor_u64 in
       if negb (version =? 3) then ds4_die (bs "only GGUF v3 is supported")
       else
         let! '(kvs, alignment) := parse_metadata n_kv in
         let! '(data_pos, ts, max_bytes) := parse_tensors n_tensors alignment in
         cret (Ds4Model version n_kv n_tensors alignment data_pos max_bytes kvs ts)) 0.

(** ** Reading metadata *)

Definition model_find_kv (m : ds4_model) (key : bytes) : option ds4_kv :=
  List.find (λ kv, bytes_eqb (str_bytes (kv_key kv)) key) (m_kv m).

(** What a cursor function that succeeds gives. *)
Definition read_ok {A} (r : outcome A) : option A := match r with Ok a _ => Some a | _ => None end.

Definition model_get_string (m : ds4_model) (key : bytes) : option ds4_str :=
  kv ← model_find_kv m key;
  if negb (kv_type kv =? GGUF_VALUE_STRING) then None else read_ok (cursor_string (kv_value_pos kv)).

Definition model_get_u32 (m : ds4_model) (key : bytes) : option Z :=
  kv ← model_find_kv m key;
  if negb (kv_type kv =? GGUF_VALUE_UINT32) then None else read_ok (cursor_u32 (kv_value_pos kv)).

(** A 32-bit and a 64-bit value read as a signed number. *)
Definition s32 (v : Z) : Z := if v <? 2 ^ 31 then v else v - 2 ^ 32.
Definition s64 (v : Z) : Z := if v <? 2 ^ 63 then v else v - 2 ^ 64.

Definition model_get_token_id (m : ds4_model) (key : bytes) : option Z :=
  kv ← model_find_kv m key;
  let pos := kv_value_pos kv in
  if kv_type kv =? GGUF_VALUE_UINT32 then
    v ← read_ok (cursor_u32 pos); if v >? INT_MAX then None else Some v
  else if kv_type kv =? GGUF_VALUE_INT32 then
    v ← s32 <$> read_ok (cursor_u32 pos); if v <? 0 then None else Some v
  else if kv_type kv =? GGUF_VALUE_UINT64 then
    v ← read_ok (cursor_u64 pos); if v >? INT_MAX then None else Some v
  else if kv_type kv =? GGUF_VALUE_INT64 then
    v ← s64 <$> read_ok (cursor_u64 pos); if (v <? 0) || (v >? INT_MAX) then None else Some v
  else None.

Definition model_get_u64_compat (m : ds4_model) (key : bytes) : option Z :=
  kv ← model_find_kv m key;
  if kv_type kv =? GGUF_VALUE_UINT64 then read_ok (cursor_u64 (kv_value_pos kv))
  else if kv_type kv =? GGUF_VALUE_UINT32 then read_ok (cursor_u32 (kv_value_pos kv))
  else None.

Definition model_get_bool (m : ds4_model) (key : bytes) : option bool :=
  kv ← model_find_kv m key;
  if negb (kv_type kv =? GGUF_VALUE_BOOL) then None
  else v ← read_ok (cursor_read 1 (kv_value_pos kv)); Some (negb (le_value v =? 0)).

Record ds4_array_ref := ArrayRef { a_type : Z; a_len : Z; a_data_pos : Z }.

Definition model_get_array (m : ds4_model) (key : bytes) : option ds4_array_ref :=
  kv ← model_find_kv m key;
  if negb (kv_type kv =? GGUF_VALUE_ARRAY) then None
  else
    read_ok ((let! type := cursor_u32 in let! len := cursor_u64 in let! pos := cpos in cret (ArrayRef type len pos)) (kv_value_pos kv)).

End file.
