(* ===== verification/GgufProps.v ===== *)
(** * What the GGUF parser guarantees

    Weakest preconditions of cursor functions, with which the parser is shown to end
    on every file and to accept only tables whose parts lie inside the file. *)
From S2P Require Import Prelude CLib KvHeader Gguf.

#[local] Open Scope cursor_scope.

(** ** Weakest preconditions *)

(** The function ends at [pos], and when it succeeds [Q] holds of the value and the
    new position. *)
Definition wp {A} (m : cursor_m A) (pos : Z) (Q : A → Z → Prop) : Prop :=
  match m pos with Ok a pos' => Q a pos' | Fail _ => True | Stuck => False end.

Lemma wp_bind {A B} (m : cursor_m A) (k : A → cursor_m B) pos Q :
  wp m pos (λ a p, wp (k a) p Q) → wp (cbind m k) pos Q.
Proof. unfold wp, cbind. by destruct (m pos). Qed.

Lemma wp_mono {A} (m : cursor_m A) pos (Q R : A → Z → Prop) : wp m pos Q → (∀ a p, Q a p → R a p) → wp m pos R.
Proof. unfold wp. destruct (m pos); auto. Qed.

Lemma wp_ret {A} (a : A) pos (Q : A → Z → Prop) : Q a pos → wp (cret a) pos Q.
Proof. done. Qed.

Lemma wp_pos pos (Q : Z → Z → Prop) : Q pos pos → wp cpos pos Q.
Proof. done. Qed.

Lemma wp_die {A} msg pos (Q : A → Z → Prop) : wp (ds4_die msg) pos Q.
Proof. done. Qed.

Lemma wp_error {A} msg pos (Q : A → Z → Prop) : wp (cursor_error msg) pos Q.
Proof. done. Qed.

Lemma wp_if {A} (b : bool) (m k : cursor_m A) pos Q :
  (b = true → wp m pos Q) → (b = false → wp k pos Q) → wp (if b then m else k) pos Q.
Proof. by destruct b; auto. Qed.

Create HintDb cursor.
#[export] Hint Resolve wp_die wp_error : cursor.

(** Step over the next call with the lemma [lem] of the called function. *)
Ltac wp_call lem := apply wp_bind; eapply wp_mono; [eapply lem; try eassumption; try lia|].

(** ** Little-endian values *)

Lemma le_value_range b : is_bytes b → 0 <= le_value b < 256 ^ Z.of_nat (length b).
Proof.
  induction 1 as [|c b Hc _ IH]; [simpl; lia|]. cbn [le_value foldr length]. fold (le_value b). unfold is_u8 in Hc.
  rewrite Nat2Z.inj_succ, Z.pow_succ_r by lia. lia.
Qed.

Lemma le_value_list n v : 0 <= v < 256 ^ Z.of_nat n → le_value (le_list n v) = v.
Proof.
  revert v. induction n as [|n IH]; intros v Hv; [simpl in *; lia|]. cbn [le_list le_value foldr]. fold (le_value (le_list n (Z.shiftr v 8))).
  rewrite Nat2Z.inj_succ, Z.pow_succ_r in Hv by lia. rewrite Z.shiftr_div_pow2 by lia. change (2 ^ 8) with 256.
  rewrite IH; [unfold u8; change (2 ^ 8) with 256; pose proof (Z.div_mod v 256); lia|].
  split; [apply Z.div_pos; lia|apply Z.div_lt_upper_bound; lia].
Qed.

Section safety.
Context (file : bytes) (Hbytes : is_bytes file) (Hsize : map_size file <= INT64_MAX).
Abbreviation size := (map_size file).

Lemma bytes_at_length pos n : 0 <= pos → 0 <= n → pos + n <= size → Z.of_nat (length (bytes_at file pos n)) = n.
Proof. unfold bytes_at, map_size. intros. rewrite length_take, length_drop. lia. Qed.

Lemma bytes_at_bytes pos n : is_bytes (bytes_at file pos n).
Proof. by apply Forall_take, Forall_drop. Qed.

(** ** The primitives *)

Lemma wp_has n pos (Q : unit → Z → Prop) : 0 <= n → (pos + n <= size → Q tt pos) → wp (cursor_has file n) pos Q.
Proof. intros Hn H. unfold wp, cursor_has. case_if; [done|]. apply H. bool_to_prop. lia. Qed.

Lemma wp_read n pos : 0 <= n → 0 <= pos →
  wp (cursor_read file n) pos (λ b p, p = pos + n ∧ p <= size ∧ b = bytes_at file pos n).
Proof.
  intros Hn Hp. apply wp_bind, wp_has; [done|]. intros H. cbn. rewrite u64_small; [done|]. unfold is_u64. lia.
Qed.

Lemma wp_skip n pos : 0 <= n → 0 <= pos → wp (cursor_skip file n) pos (λ _ p, p = pos + n ∧ p <= size).
Proof.
  intros Hn Hp. apply wp_bind, wp_has; [done|]. intros H. cbn. rewrite u64_small; [done|]. unfold is_u64. lia.
Qed.

Lemma wp_u32 pos : 0 <= pos → wp (cursor_u32 file) pos (λ v p, p = pos + 4 ∧ p <= size ∧ is_u32 v).
Proof.
  intros Hp. wp_call wp_read. intros b p (-> & Hs & ->). apply wp_ret. split_and!; [done|done|].
  pose proof (le_value_range (bytes_at file pos 4) (bytes_at_bytes _ _)) as H. rewrite bytes_at_length in H by lia. unfold is_u32. lia.
Qed.

Lemma wp_u64 pos : 0 <= pos → wp (cursor_u64 file) pos (λ v p, p = pos + 8 ∧ p <= size ∧ is_u64 v).
Proof.
  intros Hp. wp_call wp_read. intros b p (-> & Hs & ->). apply wp_ret. split_and!; [done|done|].
  pose proof (le_value_range (bytes_at file pos 8) (bytes_at_bytes _ _)) as H. rewrite bytes_at_length in H by lia. unfold is_u64. lia.
Qed.

(** A string lies inside the file. *)
Definition str_in (s : ds4_str) : Prop := 0 <= str_ptr s ∧ 0 <= str_len s ∧ str_ptr s + str_len s <= size.

Lemma wp_string pos : 0 <= pos →
  wp (cursor_string file) pos (λ s p, pos + 8 <= p <= size ∧ str_in s).
Proof.
  intros Hp. wp_call wp_u64. intros len p (-> & Hs & Hl). unfold is_u64 in Hl. apply wp_bind, wp_has; [lia|]. intros H. cbn.
  rewrite u64_small by (unfold is_u64; lia). unfold str_in. cbn. lia.
Qed.

Lemma wp_skip_items item fuel : (∀ p, 0 <= p → wp item p (λ _ p', p < p' <= size)) →
  ∀ i len pos, 0 <= pos <= size → size - pos < Z.of_nat fuel → wp (skip_items item fuel i len) pos (λ _ p, pos <= p <= size).
Proof.
  intros Hitem. induction fuel as [|fuel IH]; intros i len pos Hp Hf; [lia|]. cbn [skip_items].
  apply wp_if; intros _; [|apply wp_ret; lia]. wp_call Hitem. intros a p Hp'. cbn beta in Hp'.
  eapply wp_mono; [apply IH; lia|]. cbn. lia.
Qed.

Lemma scalar_value_size_pos type : 0 <= scalar_value_size type <= 8.
Proof. unfold scalar_value_size. repeat case_if; lia. Qed.

Lemma wp_skip_value levels : ∀ type pos, 0 <= pos → wp (skip_value file levels type) pos (λ _ p, pos < p <= size).
Proof.
  induction levels as [|levels IH]; intros type pos Hp; cbn [skip_value]; [apply wp_error|].
  pose proof (scalar_value_size_pos type) as Hs. apply wp_if; intros E; bool_to_prop.
  { eapply wp_mono; [apply wp_skip; lia|]. cbn. lia. }
  apply wp_if; intros _. { wp_call wp_string. intros s p [H _]. apply wp_ret. lia. }
  apply wp_if; intros _; [|apply wp_error].
  wp_call wp_u32. intros it p (-> & H1 & _). wp_call wp_u64. intros len p (-> & H2 & Hl).
  pose proof (scalar_value_size_pos it) as Hi. apply wp_if; intros Ei; bool_to_prop.
  - apply wp_if; intros Eo; bool_to_prop; [apply wp_error|]. unfold is_u64 in Hl.
    assert (len * scalar_value_size it <= UINT64_MAX).
    { pose proof (Z.mul_div_le UINT64_MAX (scalar_value_size it) ltac:(lia)). nia. }
    rewrite u64_small by (unfold is_u64; nia). eapply wp_mono; [apply wp_skip; nia|]. cbn. nia.
  - eapply wp_mono; [eapply wp_skip_items; [intros q Hq; by apply IH|lia|unfold map_size; lia]|]. cbn. lia.
Qed.

Lemma wp_eq {A} (m : cursor_m A) pos Q : wp m pos Q → wp m pos (λ a p, Q a p ∧ m pos = Ok a p).
Proof. unfold wp. by destruct (m pos). Qed.

(** ** The tables *)

(** An entry of the metadata table: its key is a string of the file and its value can
    be read to its end. *)
Definition kv_ok (kv : ds4_kv) : Prop :=
  str_in (kv_key kv) ∧ is_u32 (kv_type kv) ∧ 0 <= kv_value_pos kv
  ∧ ∃ e, skip_value file max_levels (kv_type kv) (kv_value_pos kv) = Ok tt e ∧ kv_value_pos kv < e <= size.

Lemma wp_metadata_entry pos : 0 <= pos → wp (metadata_entry file) pos (λ kv p, pos < p <= size ∧ kv_ok kv).
Proof.
  intros Hp. wp_call wp_string. intros key p [H1 Hk]. wp_call wp_u32. intros type p2 (-> & H2 & Ht).
  apply wp_bind, wp_pos, wp_bind. eapply wp_mono; [apply wp_eq, wp_skip_value; lia|]. cbn beta. intros [] e [He Eq]. apply wp_ret.
  split; [lia|]. split_and!; [done|done|cbn; lia|]. exists e. split; [done|cbn; lia].
Qed.

Lemma metadata_alignment_range kv a : 0 < a <= UINT32_MAX → 0 <= kv_value_pos kv → 0 < metadata_alignment file kv a <= UINT32_MAX.
Proof.
  intros Ha Hp. unfold metadata_alignment. case_if; [|done]. pose proof (wp_u32 (kv_value_pos kv) Hp) as H. unfold wp in H.
  destruct (cursor_u32 file (kv_value_pos kv)) as [v p| |]; [|done|done]. destruct H as (_ & _ & H). unfold is_u32 in H.
  case_if; bool_to_prop; lia.
Qed.

Lemma wp_metadata_loop n : ∀ kvs a pos, 0 <= pos <= size → Forall kv_ok kvs → 0 < a <= UINT32_MAX →
  wp (metadata_loop file n kvs a) pos (λ r p, pos <= p <= size ∧ Forall kv_ok (fst r) ∧ length (fst r) = (length kvs + n)%nat ∧ 0 < snd r <= UINT32_MAX).
Proof.
  induction n as [|n IH]; intros kvs a pos Hp Hk Ha; cbn [metadata_loop].
  { apply wp_ret. cbn. split_and!; try done; lia. }
  wp_call wp_metadata_entry. cbn beta. intros kv p [Hp' Hkv]. eapply wp_mono.
  - apply IH; [lia|by apply Forall_snoc; split|apply metadata_alignment_range; [done|by destruct Hkv as (_ & _ & ? & _)]].
  - cbn beta. intros [l b] p2 (H1 & H2 & H3 & H4). rewrite length_app in H3. simpl in *. split_and!; try done; lia.
Qed.

Lemma wp_parse_metadata n pos : 0 <= n → 0 <= pos <= size →
  wp (parse_metadata file n) pos (λ r p, pos <= p <= size ∧ Forall kv_ok (fst r) ∧ Z.of_nat (length (fst r)) = n ∧ 0 < snd r <= UINT32_MAX).
Proof.
  intros Hn Hp. apply wp_bind, wp_pos. apply wp_if; intros _; [apply wp_die|].
  eapply wp_mono; [apply wp_metadata_loop; [done|constructor|lia]|]. cbn beta. intros r p (? & ? & -> & ?). cbn [length Nat.add]. split_and!; try done; lia.
Qed.

Definition product (l : list Z) : Z := foldr Z.mul 1 l.

Lemma product_snoc l d : product (l ++ [d]) = product l * d.
Proof. induction l as [|x l IH]; cbn [app product foldr] in *; [lia|]. fold (product (l ++ [d])). fold (product l). rewrite IH. lia. Qed.

Lemma wp_dims_loop n : ∀ dims elements pos, 0 <= pos <= size → elements = product dims → is_u64 elements →
  wp (dims_loop file n dims elements) pos (λ r p, pos <= p <= size ∧ length (fst r) = (length dims + n)%nat ∧ snd r = product (fst r) ∧ is_u64 (snd r)).
Proof.
  induction n as [|n IH]; intros dims elements pos Hp He Hu; cbn [dims_loop].
  { apply wp_ret. cbn. split_and!; try done; lia. }
  wp_call wp_u64. intros d p (-> & Hs & Hd). apply wp_if; intros E; [apply wp_die|].
  assert (Hm : is_u64 (elements * d)).
  { unfold is_u64 in *. apply andb_false_iff in E as [E|E]; bool_to_prop; [subst d; lia|].
    destruct (Z.eq_dec d 0) as [->|]; [lia|]. pose proof (Z.mul_div_le UINT64_MAX d ltac:(lia)). nia. }
  rewrite u64_small by done. eapply wp_mono; [apply IH; [lia|by rewrite product_snoc, He|done]|].
  cbn beta. intros r p (H1 & H2 & H3 & H4). rewrite length_app in H2. simpl in H2. split_and!; try done; lia.
Qed.

Lemma tensor_nbytes_range type elements v : tensor_nbytes type elements = Some v → is_u64 v.
Proof. unfold tensor_nbytes. destruct (tensor_type type); [|done]. repeat case_if; try done. intros [= <-]. apply u64_range. Qed.

(** An entry of the tensor table before it has a place: the element count is the exact
    product of the dimensions. *)
Definition tensor_entry_ok (t : ds4_tensor) : Prop :=
  str_in (t_name t) ∧ 1 <= t_ndim t <= DS4_MAX_DIMS ∧ Z.of_nat (length (t_dim t)) = t_ndim t
  ∧ t_elements t = product (t_dim t) ∧ is_u64 (t_elements t) ∧ t_bytes t = default 0 (tensor_nbytes (t_type t) (t_elements t))
  ∧ is_u64 (t_rel_offset t).

Lemma wp_tensor_entry pos : 0 <= pos <= size → wp (tensor_entry file) pos (λ t p, pos <= p <= size ∧ tensor_entry_ok t).
Proof.
  intros Hp. wp_call wp_string. intros name p [H1 Hn]. wp_call wp_u32. intros ndim p2 (-> & H2 & Hd). unfold is_u32 in Hd.
  apply wp_if; intros E; [apply wp_die|]. bool_to_prop. apply wp_bind.
  eapply wp_mono; [apply (wp_dims_loop (Z.to_nat ndim) [] 1); [lia|done|unfold is_u64; lia]|].
  cbn beta. intros [dims elements] p3 (H3 & H4 & H5 & H6). cbn [fst snd length Nat.add] in *.
  wp_call wp_u32. intros type p4 (-> & H7 & Ht). wp_call wp_u64. intros rel p5 (-> & H8 & Hr). apply wp_ret.
  split; [lia|]. unfold DS4_MAX_DIMS in *. split_and!; try done; cbn; try lia.
Qed.

Lemma wp_tensor_loop n : ∀ ts pos, 0 <= pos <= size → Forall tensor_entry_ok ts →
  wp (tensor_loop file n ts) pos (λ r p, pos <= p <= size ∧ Forall tensor_entry_ok r ∧ length r = (length ts + n)%nat).
Proof.
  induction n as [|n IH]; intros ts pos Hp Ht; cbn [tensor_loop].
  { apply wp_ret. split_and!; try done; lia. }
  wp_call wp_tensor_entry. cbn beta. intros t p [Hp' Hok]. eapply wp_mono; [apply IH; [lia|by apply Forall_snoc; split]|].
  cbn beta. intros r p2 (H1 & H2 & H3). rewrite length_app in H3. simpl in H3. split_and!; try done; lia.
Qed.

(** A tensor with its place: the offset did not wrap and its bytes are in the file. *)
Definition tensor_ok (data_pos max_bytes : Z) (t : ds4_tensor) : Prop :=
  tensor_entry_ok t ∧ t_abs_offset t = data_pos + t_rel_offset t ∧ t_abs_offset t <= UINT64_MAX
  ∧ (t_bytes t ≠ 0 → t_abs_offset t + t_bytes t <= size) ∧ t_bytes t <= max_bytes.

Lemma tensor_ok_mono dp mb mb' t : mb <= mb' → tensor_ok dp mb t → tensor_ok dp mb' t.
Proof. intros H (? & ? & ? & ? & ?). split_and!; try done; lia. Qed.

Lemma wp_place_tensors dp ts : ∀ placed mb pos, 0 <= dp <= UINT64_MAX → Forall tensor_entry_ok ts → Forall (tensor_ok dp mb) placed →
  wp (place_tensors file dp ts placed mb) pos (λ r p, p = pos ∧ Forall (tensor_ok dp (snd r)) (fst r) ∧ length (fst r) = (length placed + length ts)%nat).
Proof.
  induction ts as [|t ts IH]; intros placed mb pos Hd Ht Hok; cbn [place_tensors].
  { apply wp_ret. cbn. split_and!; try done; lia. }
  apply Forall_cons in Ht as [Ht Hts]. apply wp_if; intros E; [apply wp_die|]. apply wp_if; intros E2; [apply wp_die|].
  bool_to_prop. pose proof Ht as (_ & _ & _ & _ & Hel & Hb & Hr). unfold is_u64 in Hr.
  assert (Hu : u64 (dp + t_rel_offset t) = dp + t_rel_offset t) by (apply u64_small; unfold is_u64; lia). rewrite Hu in *.
  assert (Hin : t_bytes t ≠ 0 → dp + t_rel_offset t + t_bytes t <= size).
  { intros Hne. apply andb_false_iff in E2 as [E2|E2]; bool_to_prop; [lia|]. rewrite u64_small in * by (unfold is_u64, map_size in *; lia). lia. }
  eapply wp_mono; [apply IH; [done|done|]|].
  - apply Forall_snoc. split; [eapply Forall_impl; [exact Hok|]; intros x; apply tensor_ok_mono; case_if; bool_to_prop; lia|].
    split_and!; try done; cbn; try lia; try done; case_if; bool_to_prop; lia.
  - cbn beta. intros r p (? & ? & H3). rewrite length_app in H3. simpl in H3. cbn [length]. split_and!; try done; lia.
Qed.

Lemma align_up_spec v a : 0 <= v <= INT64_MAX → 0 < a <= UINT32_MAX → v <= align_up v a < v + a ∧ align_up v a mod a = 0.
Proof.
  intros Hv Ha. unfold align_up. pose proof (Z.mod_pos_bound v a ltac:(lia)) as Hm. case_if; bool_to_prop; [lia|].
  rewrite (u64_small (v + a)), u64_small by (unfold is_u64; lia). split; [lia|].
  pose proof (Z.div_mod v a ltac:(lia)) as Hd. replace (v + a - v mod a) with ((v / a + 1) * a) by lia. apply Z.mod_mul. lia.
Qed.

Lemma wp_parse_tensors n a pos : 0 <= n → 0 < a <= UINT32_MAX → 0 <= pos <= size →
  wp (parse_tensors file n a) pos (λ r p, pos <= p <= size ∧ p <= fst (fst r) ∧ fst (fst r) mod a = 0
    ∧ Forall (tensor_ok (fst (fst r)) (snd r)) (snd (fst r)) ∧ Z.of_nat (length (snd (fst r))) = n).
Proof.
  intros Hn Ha Hp. apply wp_bind, wp_pos. apply wp_if; intros _; [apply wp_die|].
  wp_call (wp_tensor_loop (Z.to_nat n) []). { constructor. } cbn beta. intros ts p (H1 & H2 & H3). apply wp_bind, wp_pos.
  destruct (align_up_spec p a) as [Hal Hmod]; [lia|done|]. apply wp_bind.
  eapply wp_mono; [apply (wp_place_tensors (align_up p a) ts []); [lia|done|constructor]|].
  cbn beta. intros [placed mb] p2 (-> & H4 & H5). apply wp_ret. cbn [fst snd length Nat.add] in *. split_and!; try done; try lia.
Qed.

(** What an accepted file guarantees; [pos] is where its tables end. *)
Definition model_ok (m : ds4_model) (pos : Z) : Prop :=
  m_version m = 3 ∧ Z.of_nat (length (m_kv m)) = m_n_kv m ∧ Z.of_nat (length (m_tensors m)) = m_n_tensors m
  ∧ 0 < m_alignment m ∧ pos <= size ∧ pos <= m_tensor_data_pos m ∧ m_tensor_data_pos m mod m_alignment m = 0
  ∧ Forall kv_ok (m_kv m) ∧ Forall (tensor_ok (m_tensor_data_pos m) (m_max_tensor_bytes m)) (m_tensors m).

Lemma wp_model_open : match model_open file with Ok m pos => model_ok m pos | Fail _ => True | Stuck => False end.
Proof.
  unfold model_open. case_if; [done|]. bool_to_prop.
  match goal with |- match ?k 0 with _ => _ end => change (wp k 0 model_ok) end.
  wp_call wp_u32. intros magic p (-> & H1 & _). apply wp_if; intros _; [apply wp_die|].
  wp_call wp_u32. intros version p (-> & H2 & _). wp_call wp_u64. intros nt p (-> & H3 & Hnt).
  wp_call wp_u64. intros nk p (-> & H4 & Hnk). unfold is_u64 in *. apply wp_if; intros Ev; [apply wp_die|]. bool_to_prop.
  wp_call wp_parse_metadata. cbn beta. intros [kvs a] p (H5 & H6 & H7 & H8). cbn [fst snd] in *.
  wp_call wp_parse_tensors. cbn beta. intros [[dp ts] mb] p2 (H9 & H10 & H11 & H12 & H13). cbn [fst snd] in *. apply wp_ret.
  split_and!; try done; cbn; try lia.
Qed.

(** ** Reading the metadata of an accepted file *)

Lemma find_kv_ok m pos key kv : model_ok m pos → model_find_kv file m key = Some kv → kv_ok kv.
Proof.
  intros (_ & _ & _ & _ & _ & _ & _ & Hk & _) Hf. apply find_some in Hf as [Hin _].
  rewrite List.Forall_forall in Hk. by apply Hk.
Qed.

Lemma ok_wp {A} (m : cursor_m A) pos a p Q : m pos = Ok a p → wp m pos Q → Q a p.
Proof. unfold wp. by intros ->. Qed.

Lemma bind_ok {A B} (m : cursor_m A) (k : A → cursor_m B) pos b p : cbind m k pos = Ok b p → ∃ a p0, m pos = Ok a p0 ∧ k a p0 = Ok b p.
Proof. unfold cbind. destruct (m pos) as [a p0| |]; [|done|done]. intros H. by exists a, p0. Qed.

Lemma get_string_ok m key kv : model_find_kv file m key = Some kv → kv_ok kv → kv_type kv = GGUF_VALUE_STRING →
  ∃ s, model_get_string file m key = Some s ∧ str_in s.
Proof.
  intros Hf (_ & _ & Hp & e & He & _) Ht. unfold model_get_string. rewrite Hf. cbn [mbind option_bind]. rewrite Ht in *. cbn.
  change (skip_value file max_levels GGUF_VALUE_STRING) with (let! _ := cursor_string file in cret tt) in He.
  apply bind_ok in He as (s & p & Hs & _). rewrite Hs. cbn. exists s. split; [done|]. by apply (ok_wp _ _ _ _ _ Hs (wp_string _ Hp)).
Qed.

Lemma get_u32_ok m key kv : model_find_kv file m key = Some kv → kv_ok kv → kv_type kv = GGUF_VALUE_UINT32 →
  ∃ v, model_get_u32 file m key = Some v ∧ is_u32 v.
Proof.
  intros Hf (_ & _ & Hp & e & He & _) Ht. unfold model_get_u32. rewrite Hf. cbn [mbind option_bind]. rewrite Ht in *. cbn [negb Z.eqb].
  change (skip_value file max_levels GGUF_VALUE_UINT32) with (cursor_skip file 4) in He.
  apply bind_ok in He as (u & p & Hh & _). pose proof (wp_u32 _ Hp) as W. unfold wp, cursor_u32, cursor_read, cbind in *. rewrite Hh in *. cbn in *.
  eexists. split; [done|]. apply W.
Qed.

Lemma skip_array_eq levels : skip_value file (S levels) GGUF_VALUE_ARRAY =
  (let! item_type := cursor_u32 file in
   let! len := cursor_u64 file in
   if negb (scalar_value_size item_type =? 0) then
     if len >? UINT64_MAX / scalar_value_size item_type then cursor_error (bs "metadata array is too large")
     else cursor_skip file (u64 (len * scalar_value_size item_type))
   else skip_items (skip_value file levels item_type) (S (length file)) 0 len).
Proof. done. Qed.

(** The head of an array that can be skipped. *)
Lemma get_array_ok m key kv : model_find_kv file m key = Some kv → kv_ok kv → kv_type kv = GGUF_VALUE_ARRAY →
  ∃ a, model_get_array file m key = Some a ∧ a_data_pos a = kv_value_pos kv + 12 ∧ a_data_pos a <= size ∧ is_u32 (a_type a) ∧ is_u64 (a_len a).
Proof.
  intros Hf (_ & _ & Hp & e & He & _) Ht. unfold model_get_array. rewrite Hf. cbn [mbind option_bind]. rewrite Ht in *. cbn [negb Z.eqb].
  unfold max_levels in He. rewrite skip_array_eq in He. apply bind_ok in He as (t & p & H1 & He). apply bind_ok in He as (len & p2 & H2 & _).
  pose proof (ok_wp _ _ _ _ _ H1 (wp_u32 _ Hp)) as (-> & Hs & Hu). pose proof (ok_wp _ _ _ _ _ H2 (wp_u64 (kv_value_pos kv + 4) ltac:(lia))) as (-> & Hs2 & Hu2).
  unfold cbind. rewrite H1, H2. cbn. eexists. split; [done|]. cbn. split_and!; try done; lia.
Qed.

End safety.

(** ** Sizes *)

Lemma tensor_type_range type info : tensor_type type = Some info → 1 <= block_elems info <= 256 ∧ 1 <= block_bytes info <= 292.
Proof.
  unfold tensor_type, gguf_types. intros H. repeat (case_match_in H; try done); injection H as <-; cbn; lia.
Qed.

(** The bytes of whole blocks that hold the elements. *)
Definition blocks_size (info : gguf_type_info) (elements : Z) : Z := (elements + block_elems info - 1) / block_elems info * block_bytes info.

Lemma tensor_nbytes_exact type info elements : tensor_type type = Some info → 0 <= elements <= 2 ^ 55 →
  tensor_nbytes type elements = Some (blocks_size info elements).
Proof.
  intros Ht He. destruct (tensor_type_range _ _ Ht) as [H1 H2]. unfold tensor_nbytes. rewrite Ht.
  assert ((block_elems info =? 0) = false) as -> by lia. rewrite (u64_small (_ + _)) by (unfold is_u64; lia).
  rewrite (u64_small (_ - 1)) by (unfold is_u64; lia). unfold blocks_size.
  set (b := (elements + block_elems info - 1) / block_elems info).
  assert (0 <= b <= 2 ^ 55 + 256).
  { unfold b. split; [apply Z.div_pos; lia|]. apply Z.div_le_upper_bound; nia. }
  assert ((b >? UINT64_MAX / block_bytes info) = false) as ->.
  { rewrite Z.gtb_ltb. apply Z.ltb_ge, Z.div_le_lower_bound; nia. }
  rewrite u64_small; [done|]. unfold is_u64. nia.
Qed.

(** A file of one tensor, of 2^64 - 1 elements in blocks of 32. *)
Definition huge_tensor_file : bytes :=
  le_list 4 DS4_GGUF_MAGIC ++ le_list 4 3 ++ le_list 8 1 ++ le_list 8 0
  ++ le_list 8 1 ++ bs "w" ++ le_list 4 1 ++ le_list 8 UINT64_MAX ++ le_list 4 8 ++ le_list 8 0.

(** The element count of a tensor is rounded up to whole blocks in 64 bits: a count
    close to 2^64 wraps to no block at all, the size is zero, and the check that the
    tensor lies inside the file is skipped. *)
Lemma tensor_size_wraps :
  tensor_nbytes 8 UINT64_MAX = Some 0
  ∧ ∃ m pos, model_open huge_tensor_file = Ok m pos ∧ (λ t, (t_type t, t_elements t, t_bytes t)) <$> m_tensors m = [(8, UINT64_MAX, 0)].
Proof. split; [reflexivity|]. eexists _, _. split; vm_compute; reflexivity. Qed.
