(* ===== verification/GgufRoundTrip.v ===== *)
(** * A GGUF file is read back

    A writer of the GGUF format, version 3, and the theorem that the parser of the
    engine reads back what it writes. *)
From S2P Require Import Prelude CLib KvHeader Gguf GgufProps.

#[local] Open Scope cursor_scope.

(** ** The format *)

(** A metadata value: a number as its bytes, a string, an array of items of one type. *)
Inductive gguf_value :=
  | GScalar (type : Z) (raw : bytes)
  | GString (s : bytes)
  | GArray (item_type : Z) (items : list gguf_value).

Definition value_type (v : gguf_value) : Z :=
  match v with GScalar t _ => t | GString _ => GGUF_VALUE_STRING | GArray _ _ => GGUF_VALUE_ARRAY end.

Definition string_bytes (s : bytes) : bytes := le_list 8 (Z.of_nat (length s)) ++ s.

Fixpoint value_bytes (v : gguf_value) : bytes :=
  match v with
  | GScalar _ raw => raw
  | GString s => string_bytes s
  | GArray t items => le_list 4 t ++ le_list 8 (Z.of_nat (length items)) ++ concat (value_bytes <$> items)
  end.

(** Values that can be written: numbers of the size of their type, arrays of one type,
    nested at most [levels] deep. *)
Fixpoint value_ok (levels : nat) (v : gguf_value) : Prop :=
  match levels with
  | O => False
  | S levels' =>
      match v with
      | GScalar t raw => scalar_value_size t = Z.of_nat (length raw) ∧ raw ≠ []
      | GString s => True
      | GArray t items =>
          is_u32 t ∧ (∀ x, x ∈ items → value_type x = t)
          ∧ (if scalar_value_size t =? 0 then ∀ x, x ∈ items → value_ok levels' x
             else ∀ x, x ∈ items → Z.of_nat (length (value_bytes x)) = scalar_value_size t)
      end
  end.

Record tensor_desc := TensorDesc { td_name : bytes; td_dims : list Z; td_type : Z; td_offset : Z }.

Definition tensor_desc_bytes (t : tensor_desc) : bytes :=
  string_bytes (td_name t) ++ le_list 4 (Z.of_nat (length (td_dims t))) ++ concat (le_list 8 <$> td_dims t)
  ++ le_list 4 (td_type t) ++ le_list 8 (td_offset t).

Record gguf_doc := GgufDoc { d_kvs : list (bytes * gguf_value); d_tensors : list tensor_desc; d_data : bytes }.

Definition kv_bytes (kv : bytes * gguf_value) : bytes := string_bytes kv.1 ++ le_list 4 (value_type kv.2) ++ value_bytes kv.2.

(** The alignment a document asks for. *)
Definition alignment_step (a : Z) (kv : bytes * gguf_value) : Z :=
  match kv.2 with
  | GScalar t raw => if bytes_eqb kv.1 (bs "general.alignment") && (t =? GGUF_VALUE_UINT32)
                     then (if le_value raw =? 0 then a else le_value raw) else a
  | _ => a
  end.

Definition doc_alignment (kvs : list (bytes * gguf_value)) : Z := foldl alignment_step 32 kvs.

Definition gguf_tables (d : gguf_doc) : bytes :=
  le_list 4 DS4_GGUF_MAGIC ++ le_list 4 3 ++ le_list 8 (Z.of_nat (length (d_tensors d))) ++ le_list 8 (Z.of_nat (length (d_kvs d)))
  ++ concat (kv_bytes <$> d_kvs d) ++ concat (tensor_desc_bytes <$> d_tensors d).

Definition data_start (d : gguf_doc) : Z := align_up (Z.of_nat (length (gguf_tables d))) (doc_alignment (d_kvs d)).

Definition gguf_file (d : gguf_doc) : bytes :=
  gguf_tables d ++ replicate (Z.to_nat (data_start d) - length (gguf_tables d)) 0 ++ d_data d.

Definition tensor_desc_ok (data : bytes) (t : tensor_desc) : Prop :=
  1 <= Z.of_nat (length (td_dims t)) <= DS4_MAX_DIMS ∧ Forall (λ x, 1 <= x) (td_dims t) ∧ product (td_dims t) <= UINT64_MAX
  ∧ is_u32 (td_type t) ∧ 0 <= td_offset t
  ∧ ∃ n, tensor_nbytes (td_type t) (product (td_dims t)) = Some n ∧ td_offset t + n <= Z.of_nat (length data).

Definition kv_writable (kv : bytes * gguf_value) : Prop := value_ok max_levels kv.2 ∧ is_u32 (value_type kv.2).

Definition doc_ok (d : gguf_doc) : Prop :=
  Forall kv_writable (d_kvs d) ∧ Forall (tensor_desc_ok (d_data d)) (d_tensors d)
  ∧ 32 <= map_size (gguf_file d) <= INT64_MAX ∧ is_bytes (gguf_file d).

(** ** Slices of a file *)

Definition slice_at (file : bytes) (pos : Z) (x : bytes) : Prop := ∃ pre post, file = pre ++ x ++ post ∧ Z.of_nat (length pre) = pos.

Section slices.
Context (file : bytes).

Lemma slice_app pos x y : slice_at file pos (x ++ y) → slice_at file pos x ∧ slice_at file (pos + Z.of_nat (length x)) y.
Proof.
  intros (pre & post & -> & <-). split.
  - exists pre, (y ++ post). by rewrite <- !app_assoc.
  - exists (pre ++ x), post. rewrite <- !app_assoc, length_app. split; [done|lia].
Qed.

Lemma slice_bound pos x : slice_at file pos x → 0 <= pos ∧ pos + Z.of_nat (length x) <= map_size file.
Proof. intros (pre & post & -> & <-). unfold map_size. rewrite !length_app. lia. Qed.

Lemma slice_bytes pos x : slice_at file pos x → bytes_at file pos (Z.of_nat (length x)) = x.
Proof. intros (pre & post & -> & <-). unfold bytes_at. by rewrite !Nat2Z.id, drop_app_length, take_app_length. Qed.

Lemma has_at pos x : slice_at file pos x → cursor_has file (Z.of_nat (length x)) pos = Ok tt pos.
Proof.
  intros H%slice_bound. unfold cursor_has.
  assert ((Z.of_nat (length x) >? map_size file) || (pos >? map_size file - Z.of_nat (length x)) = false) as ->; [|done].
  rewrite !Z.gtb_ltb. apply orb_false_iff. split; apply Z.ltb_ge; lia.
Qed.

Lemma slice_eq pos pos' x : pos' = pos → slice_at file pos' x → slice_at file pos x.
Proof. by intros ->. Qed.

Context (Hsize : map_size file <= INT64_MAX).

Lemma skip_at pos x : slice_at file pos x → cursor_skip file (Z.of_nat (length x)) pos = Ok tt (pos + Z.of_nat (length x)).
Proof.
  intros H. pose proof (slice_bound _ _ H). unfold cursor_skip, cbind. rewrite has_at by done. cbn. rewrite u64_small; [done|]. unfold is_u64. lia.
Qed.

Lemma read_at pos x : slice_at file pos x → cursor_read file (Z.of_nat (length x)) pos = Ok x (pos + Z.of_nat (length x)).
Proof.
  intros H. pose proof (slice_bound _ _ H). unfold cursor_read, cbind. rewrite has_at by done. cbn. rewrite slice_bytes by done.
  rewrite u64_small; [done|]. unfold is_u64. lia.
Qed.

Lemma u32_at pos v : slice_at file pos (le_list 4 v) → is_u32 v → cursor_u32 file pos = Ok v (pos + 4).
Proof.
  intros H Hv. apply read_at in H. rewrite le_list_length in H. unfold cursor_u32, cbind. change 4 with (Z.of_nat 4). rewrite H. cbn [cret].
  by rewrite le_value_list by (unfold is_u32 in Hv; cbn; lia).
Qed.

Lemma u64_at pos v : slice_at file pos (le_list 8 v) → is_u64 v → cursor_u64 file pos = Ok v (pos + 8).
Proof.
  intros H Hv. apply read_at in H. rewrite le_list_length in H. unfold cursor_u64, cbind. change 8 with (Z.of_nat 8). rewrite H. cbn [cret].
  by rewrite le_value_list by (unfold is_u64 in Hv; cbn; lia).
Qed.

Lemma string_at pos s : slice_at file pos (string_bytes s) →
  cursor_string file pos = Ok (Ds4Str (pos + 8) (Z.of_nat (length s))) (pos + Z.of_nat (length (string_bytes s)))
  ∧ str_bytes file (Ds4Str (pos + 8) (Z.of_nat (length s))) = s.
Proof.
  intros H. pose proof (slice_bound _ _ H) as Hb. apply slice_app in H as [H1 H2]. rewrite le_list_length in H2. unfold string_bytes in *.
  rewrite length_app, le_list_length in *. split; [|by apply slice_bytes].
  unfold cursor_string, cbind. rewrite (u64_at pos _ H1) by (unfold is_u64; lia). rewrite has_at by done.
  rewrite u64_small by (unfold is_u64; lia). f_equal. lia.
Qed.

(** ** Values *)

Lemma skip_items_at item items : (∀ x p, x ∈ items → slice_at file p (value_bytes x) → item p = Ok tt (p + Z.of_nat (length (value_bytes x)))) →
  ∀ fuel i len pos, slice_at file pos (concat (value_bytes <$> items)) → Z.of_nat (length items) <= UINT64_MAX - i → 0 <= i → len = i + Z.of_nat (length items) →
  (length items <= fuel)%nat → skip_items item fuel i len pos = Ok tt (pos + Z.of_nat (length (concat (value_bytes <$> items)))).
Proof.
  intros Hitem. induction items as [|x items IH]; intros fuel i len pos Hs Hm Hi Hl Hf.
  - cbn in Hl. destruct fuel; cbn [skip_items]; assert ((i <? len) = false) as -> by lia; cbn; f_equal; lia.
  - destruct fuel as [|fuel]; [simpl in Hf; lia|]. cbn [skip_items length] in *. assert ((i <? len) = true) as -> by lia.
    cbn [fmap list_fmap concat] in *. apply slice_app in Hs as [H1 H2]. unfold cbind. rewrite (Hitem x pos) by (auto with *; by left).
    rewrite u64_small by (unfold is_u64; lia). rewrite IH; try done; try lia.
    + rewrite length_app. f_equal. lia.
    + intros y p Hy. apply Hitem. by right.
Qed.

Lemma value_bytes_pos levels v : value_ok levels v → (1 <= length (value_bytes v))%nat.
Proof.
  destruct levels; [done|]. destruct v as [t raw|s|t items]; cbn [value_ok value_bytes].
  - intros [_ Hne]. destruct raw; [done|simpl; lia].
  - unfold string_bytes. rewrite length_app, le_list_length. lia.
  - rewrite length_app, le_list_length. lia.
Qed.

Lemma concat_min {A} (f : A → bytes) l n : (∀ x, x ∈ l → (n <= length (f x))%nat) → (n * length l <= length (concat (f <$> l)))%nat.
Proof.
  induction l as [|x l IH]; intros H; [simpl; lia|]. cbn [fmap list_fmap concat length]. rewrite length_app.
  pose proof (H x ltac:(by left)). assert (n * length l <= length (concat (f <$> l)))%nat by (apply IH; intros; apply H; by right).
  unfold fmap in *. lia.
Qed.

Lemma concat_exact {A} (f : A → bytes) l n : (∀ x, x ∈ l → Z.of_nat (length (f x)) = n) → Z.of_nat (length (concat (f <$> l))) = n * Z.of_nat (length l).
Proof.
  induction l as [|x l IH]; intros H; [simpl; lia|]. cbn [fmap list_fmap concat length]. rewrite length_app.
  pose proof (H x ltac:(by left)). assert (Z.of_nat (length (concat (f <$> l))) = n * Z.of_nat (length l)) by (apply IH; intros; apply H; by right).
  unfold fmap in *. lia.
Qed.

Lemma skip_value_at levels : ∀ v pos, value_ok levels v → slice_at file pos (value_bytes v) →
  skip_value file levels (value_type v) pos = Ok tt (pos + Z.of_nat (length (value_bytes v))).
Proof.
  induction levels as [|levels IH]; intros v pos Hv Hs; [done|]. destruct v as [t raw|s|t items].
  - cbn [value_ok value_type value_bytes] in *. destruct Hv as [Ht Hne]. cbn [skip_value]. rewrite Ht.
    assert (negb (Z.of_nat (length raw) =? 0) = true) as -> by (destruct raw; [done|simpl; lia]). by apply skip_at.
  - change (skip_value file (S levels) (value_type (GString s))) with (let! _ := cursor_string file in cret tt).
    unfold cbind. by rewrite (proj1 (string_at _ _ Hs)).
  - cbn [value_type]. rewrite skip_array_eq. destruct Hv as (Ht & Hty & Hit). cbn [value_bytes] in *.
    pose proof (slice_bound _ _ Hs) as Hb. rewrite !length_app, !le_list_length in *.
    apply slice_app in Hs as [H1 Hs]. apply slice_app in Hs as [H2 H3]. rewrite !le_list_length in *.
    change (Z.of_nat 4) with 4 in *. change (Z.of_nat 8) with 8 in *. unfold cbind at 1. rewrite (u32_at pos t H1 Ht). destruct (Z.eqb_spec (scalar_value_size t) 0) as [E|E]; cbn [negb].
    + pose proof (concat_min value_bytes items 1 ltac:(intros x Hx; eapply value_bytes_pos, Hit, Hx)) as Hc.
      unfold cbind. rewrite (u64_at _ _ H2) by (unfold is_u64, map_size in *; lia).
      rewrite (skip_items_at _ items); try (unfold map_size in *; lia); [f_equal; lia| |eapply slice_eq; [|exact H3]; lia].
      intros x p Hx Hp. rewrite <- (Hty x Hx). apply IH; [by apply Hit|done].
    + pose proof (concat_exact value_bytes items _ Hit) as Hc. pose proof (scalar_value_size_pos t) as Hp.
      unfold cbind. rewrite (u64_at _ _ H2) by (unfold is_u64; unfold map_size in *; nia).
      assert ((Z.of_nat (length items) >? UINT64_MAX / scalar_value_size t) = false) as ->.
      { rewrite Z.gtb_ltb. apply Z.ltb_ge, Z.div_le_lower_bound; unfold map_size in *; nia. }
      rewrite u64_small by (unfold is_u64; unfold map_size in *; nia). rewrite Z.mul_comm, <- Hc.
      rewrite (skip_at _ (concat (value_bytes <$> items))); [f_equal; lia|]. eapply slice_eq; [|exact H3]. lia.
Qed.

(** ** The metadata table *)

(** An entry of the table stands for a key and a value of the document. *)
Definition kv_is (d : bytes * gguf_value) (kv : ds4_kv) : Prop :=
  str_bytes file (kv_key kv) = d.1 ∧ kv_type kv = value_type d.2 ∧ slice_at file (kv_value_pos kv) (value_bytes d.2).

Lemma metadata_entry_at pos d : slice_at file pos (kv_bytes d) → kv_writable d →
  ∃ kv, metadata_entry file pos = Ok kv (pos + Z.of_nat (length (kv_bytes d))) ∧ kv_is d kv.
Proof.
  intros Hs [Hv Ht]. unfold kv_bytes in *. rewrite !length_app, le_list_length. apply slice_app in Hs as [H1 Hs]. apply slice_app in Hs as [H2 H3].
  rewrite le_list_length in H3. destruct (string_at _ _ H1) as [E1 E2]. eexists. split.
  - unfold metadata_entry, cbind. rewrite E1, (u32_at _ _ H2 Ht). cbn [cpos cret].
    rewrite (skip_value_at max_levels d.2); [f_equal; lia|done|done].
  - split_and!; [done|done|done].
Qed.

Lemma u32_raw_at pos raw : slice_at file pos raw → length raw = 4%nat → cursor_u32 file pos = Ok (le_value raw) (pos + 4).
Proof. intros H Hl. apply read_at in H. rewrite Hl in H. unfold cursor_u32, cbind. change 4 with (Z.of_nat 4). by rewrite H. Qed.

Lemma metadata_alignment_at d kv a : kv_writable d → kv_is d kv → metadata_alignment file kv a = alignment_step a d.
Proof.
  intros [Hv _] (E1 & E2 & E3). unfold metadata_alignment, alignment_step. rewrite E1, E2. destruct d as [k [t raw|s|t items]]; cbn [fst snd value_type] in *.
  - destruct (bytes_eqb k _); [cbn|done]. destruct (Z.eqb_spec t GGUF_VALUE_UINT32) as [->|]; [|done].
    destruct Hv as [Hl _]. change (scalar_value_size GGUF_VALUE_UINT32) with 4 in Hl. by rewrite (u32_raw_at _ raw E3) by lia.
  - by rewrite andb_false_r.
  - by rewrite andb_false_r.
Qed.

Lemma metadata_loop_at l : ∀ kvs a pos, slice_at file pos (concat (kv_bytes <$> l)) → Forall kv_writable l →
  ∃ r, metadata_loop file (length l) kvs a pos = Ok (kvs ++ r, foldl alignment_step a l) (pos + Z.of_nat (length (concat (kv_bytes <$> l)))) ∧ Forall2 kv_is l r.
Proof.
  induction l as [|d l IH]; intros kvs a pos Hs Hw.
  - exists []. cbn. rewrite app_nil_r, Z.add_0_r. split; [done|constructor].
  - apply Forall_cons in Hw as [Hd Hl]. cbn [fmap list_fmap concat length metadata_loop foldl] in *. apply slice_app in Hs as [H1 H2].
    destruct (metadata_entry_at _ _ H1 Hd) as (kv & E & Hkv). destruct (IH (kvs ++ [kv]) (metadata_alignment file kv a) _ H2 Hl) as (r & Er & Hr).
    exists (kv :: r). split; [|by constructor]. unfold cbind. rewrite E, Er, (metadata_alignment_at d kv a Hd Hkv), <- app_assoc.
    cbn [app]. f_equal. rewrite length_app. unfold fmap. lia.
Qed.

(** ** The tensor table *)

Lemma product_pos l : Forall (λ x, 1 <= x) l → 1 <= product l.
Proof. induction 1 as [|x l Hx _ IH]; [done|]. cbn [product foldr]. fold (product l). nia. Qed.

Lemma dims_loop_at ds : ∀ dims elements pos, slice_at file pos (concat (le_list 8 <$> ds)) → Forall (λ x, 1 <= x) ds → 1 <= elements →
  elements * product ds <= UINT64_MAX →
  dims_loop file (length ds) dims elements pos = Ok (dims ++ ds, elements * product ds) (pos + 8 * Z.of_nat (length ds)).
Proof.
  induction ds as [|d ds IH]; intros dims elements pos Hs Hd He Hm.
  - cbn. rewrite app_nil_r, Z.add_0_r, Z.mul_1_r. done.
  - apply Forall_cons in Hd as [Hd Hds]. cbn [fmap list_fmap concat length dims_loop] in *. apply slice_app in Hs as [H1 H2]. rewrite le_list_length in H2.
    pose proof (product_pos ds Hds) as Hp. change (product (d :: ds)) with (d * product ds) in *.
    assert (elements * d <= UINT64_MAX) by nia. assert (1 <= elements * d) by nia.
    unfold cbind. rewrite (u64_at _ d H1) by (unfold is_u64; nia).
    assert (negb (d =? 0) && (elements >? UINT64_MAX / d) = false) as ->.
    { apply andb_false_iff. right. rewrite Z.gtb_ltb. apply Z.ltb_ge, Z.div_le_lower_bound; lia. }
    rewrite u64_small by (unfold is_u64; lia). rewrite (IH (dims ++ [d]) (elements * d)); [|exact H2|done|done|nia].
    rewrite <- app_assoc. cbn [app]. f_equal; [f_equal; lia|lia].
Qed.

(** An entry of the tensor table stands for a tensor of the document. *)
Definition tensor_is (d : tensor_desc) (t : ds4_tensor) : Prop :=
  str_bytes file (t_name t) = td_name d ∧ t_dim t = td_dims d ∧ t_type t = td_type d ∧ t_rel_offset t = td_offset d
  ∧ t_elements t = product (td_dims d) ∧ tensor_nbytes (td_type d) (product (td_dims d)) = Some (t_bytes t).

Lemma tensor_entry_at pos d data : slice_at file pos (tensor_desc_bytes d) → tensor_desc_ok data d → Z.of_nat (length data) <= INT64_MAX →
  ∃ t, tensor_entry file pos = Ok t (pos + Z.of_nat (length (tensor_desc_bytes d))) ∧ tensor_is d t.
Proof.
  intros Hs (Hn & Hd & Hp & Ht & Ho & n & Hb & Hfit) Hdata. unfold tensor_desc_bytes in *. rewrite !length_app, !le_list_length.
  apply slice_app in Hs as [H1 Hs]. apply slice_app in Hs as [H2 Hs]. apply slice_app in Hs as [H3 Hs]. apply slice_app in Hs as [H4 H5].
  rewrite !le_list_length in *. destruct (string_at _ _ H1) as [E1 E2].
  pose proof (concat_exact (le_list 8) (td_dims d) 8 ltac:(intros; by rewrite le_list_length)) as Hc.
  pose proof (tensor_nbytes_range _ _ _ Hb) as Hn2. unfold is_u64, DS4_MAX_DIMS in *.
  eexists. split.
  - unfold tensor_entry, cbind. rewrite E1, (u32_at _ _ H2) by (unfold is_u32; lia).
    assert ((Z.of_nat (length (td_dims d)) =? 0) || (Z.of_nat (length (td_dims d)) >? DS4_MAX_DIMS) = false) as ->.
    { unfold DS4_MAX_DIMS. rewrite Z.gtb_ltb. apply orb_false_iff. split; lia. }
    rewrite Nat2Z.id, (dims_loop_at (td_dims d) [] 1) by (done || lia). cbn [app].
    rewrite (u32_at _ (td_type d)); [|eapply slice_eq; [|exact H4]; lia|done].
    rewrite (u64_at _ (td_offset d)); [|eapply slice_eq; [|exact H5]; lia|unfold is_u64; lia]. cbn [cret]. f_equal. lia.
  - rewrite Z.mul_1_l. split_and!; try done. cbn. by rewrite Hb.
Qed.

Lemma tensor_loop_at l data : ∀ ts pos, slice_at file pos (concat (tensor_desc_bytes <$> l)) → Forall (tensor_desc_ok data) l → Z.of_nat (length data) <= INT64_MAX →
  ∃ r, tensor_loop file (length l) ts pos = Ok (ts ++ r) (pos + Z.of_nat (length (concat (tensor_desc_bytes <$> l)))) ∧ Forall2 tensor_is l r.
Proof.
  induction l as [|d l IH]; intros ts pos Hs Hw Hdata.
  - exists []. cbn. rewrite app_nil_r, Z.add_0_r. split; [done|constructor].
  - apply Forall_cons in Hw as [Hd Hl]. cbn [fmap list_fmap concat length tensor_loop] in *. apply slice_app in Hs as [H1 H2].
    destruct (tensor_entry_at _ _ _ H1 Hd Hdata) as (t & E & Ht). destruct (IH (ts ++ [t]) _ H2 Hl Hdata) as (r & Er & Hr).
    exists (t :: r). split; [|by constructor]. unfold cbind. rewrite E, Er, <- app_assoc. cbn [app]. f_equal. rewrite length_app. unfold fmap. lia.
Qed.

Lemma place_tensors_at l data dp : ∀ ts placed mb pos, Forall2 tensor_is l ts → Forall (tensor_desc_ok data) l →
  0 <= dp → dp + Z.of_nat (length data) = map_size file →
  ∃ mb', place_tensors file dp ts placed mb pos = Ok (placed ++ ((λ t, set_abs_offset t (dp + t_rel_offset t)) <$> ts), mb') pos.
Proof.
  induction l as [|d l IH]; intros ts placed mb pos Ht Hw Hd Hdata; inversion Ht as [|? t ? ts' H1 H2]; subst.
  - exists mb. cbn. by rewrite app_nil_r.
  - apply Forall_cons in Hw as [Hw Hl]. destruct H1 as (_ & _ & _ & E4 & _ & E6). destruct Hw as (_ & _ & _ & _ & Ho & n & Hn & Hfit).
    rewrite E6 in Hn. injection Hn as <-. pose proof (tensor_nbytes_range _ _ _ E6) as Hb. unfold is_u64 in Hb.
    cbn [place_tensors]. rewrite E4. assert ((td_offset d >? UINT64_MAX - dp) = false) as -> by (rewrite Z.gtb_ltb; lia).
    rewrite (u64_small (dp + td_offset d)) by (unfold is_u64; lia).
    assert (negb (t_bytes t =? 0) && ((dp + td_offset d >? map_size file) || (t_bytes t >? u64 (map_size file - (dp + td_offset d)))) = false) as ->.
    { apply andb_false_iff. right. rewrite (u64_small (map_size file - _)) by (unfold is_u64; lia). rewrite !Z.gtb_ltb. apply orb_false_iff. split; lia. }
    destruct (IH ts' (placed ++ [set_abs_offset t (dp + td_offset d)]) (if t_bytes t >? mb then t_bytes t else mb) pos H2 Hl Hd Hdata) as (mb' & ->).
    exists mb'. cbn [fmap list_fmap]. by rewrite E4, <- app_assoc.
Qed.
End slices.

(** ** The whole file *)

Lemma slice_here pre x post : slice_at (pre ++ x ++ post) (Z.of_nat (length pre)) x.
Proof. by exists pre, post. Qed.

Section document.
Context (d : gguf_doc) (Hok : doc_ok d).
Abbreviation file := (gguf_file d).

Lemma file_size_ok : map_size file <= INT64_MAX.
Proof. apply Hok. Qed.

Lemma counts_ok : Z.of_nat (length (d_kvs d)) <= Z.of_nat (length (concat (kv_bytes <$> d_kvs d)))
  ∧ Z.of_nat (length (d_tensors d)) <= Z.of_nat (length (concat (tensor_desc_bytes <$> d_tensors d))).
Proof.
  split.
  - pose proof (concat_min kv_bytes (d_kvs d) 1) as H. rewrite Nat.mul_1_l in H. apply Nat2Z.inj_le, H. intros x _. unfold kv_bytes, string_bytes.
    rewrite !length_app, !le_list_length. lia.
  - pose proof (concat_min tensor_desc_bytes (d_tensors d) 1) as H. rewrite Nat.mul_1_l in H. apply Nat2Z.inj_le, H. intros x _.
    unfold tensor_desc_bytes, string_bytes. rewrite !length_app, !le_list_length. lia.
Qed.

(** Where the tables are. *)
Lemma tables_at : slice_at file 0 (le_list 4 DS4_GGUF_MAGIC) ∧ slice_at file 4 (le_list 4 3)
  ∧ slice_at file 8 (le_list 8 (Z.of_nat (length (d_tensors d)))) ∧ slice_at file 16 (le_list 8 (Z.of_nat (length (d_kvs d))))
  ∧ slice_at file 24 (concat (kv_bytes <$> d_kvs d))
  ∧ slice_at file (24 + Z.of_nat (length (concat (kv_bytes <$> d_kvs d)))) (concat (tensor_desc_bytes <$> d_tensors d)).
Proof.
  assert (H : slice_at file 0 (gguf_tables d)) by (by exists [], (replicate (Z.to_nat (data_start d) - length (gguf_tables d)) 0 ++ d_data d)). unfold gguf_tables in H.
  do 5 (apply slice_app in H as [? H]; rewrite ?le_list_length in H). split_and!; assumption.
Qed.

Lemma tables_length : Z.of_nat (length (gguf_tables d)) =
  24 + Z.of_nat (length (concat (kv_bytes <$> d_kvs d))) + Z.of_nat (length (concat (tensor_desc_bytes <$> d_tensors d))).
Proof. unfold gguf_tables. rewrite !length_app, !le_list_length. lia. Qed.

Lemma tables_bound : Z.of_nat (length (gguf_tables d)) <= map_size file.
Proof. unfold map_size, gguf_file. rewrite length_app. lia. Qed.

Lemma parse_metadata_doc : ∃ kvs, parse_metadata file (Z.of_nat (length (d_kvs d))) 24
    = Ok (kvs, doc_alignment (d_kvs d)) (24 + Z.of_nat (length (concat (kv_bytes <$> d_kvs d)))) ∧ Forall2 (kv_is file) (d_kvs d) kvs.
Proof.
  destruct tables_at as (_ & _ & _ & _ & H & _). pose proof file_size_ok as Hsz. pose proof (slice_bound _ _ _ H) as [_ Hb]. pose proof counts_ok as [Hc _].
  destruct (metadata_loop_at file Hsz (d_kvs d) [] 32 24 H ltac:(apply Hok)) as (r & E & Hr). exists r. split; [|done].
  unfold parse_metadata, cbind, cpos. rewrite u64_small by (unfold is_u64; lia).
  assert ((Z.of_nat (length (d_kvs d)) >? map_size file - 24) = false) as -> by (rewrite Z.gtb_ltb; lia). by rewrite Nat2Z.id.
Qed.

Lemma doc_alignment_range : 0 < doc_alignment (d_kvs d) <= UINT32_MAX.
Proof.
  destruct parse_metadata_doc as (kvs & E & _). pose proof file_size_ok as Hsz.
  pose proof (wp_parse_metadata file ltac:(apply Hok) Hsz (Z.of_nat (length (d_kvs d))) 24 ltac:(lia)) as W. unfold wp in W. rewrite E in W.
  apply W. destruct Hok as (_ & _ & ? & _). lia.
Qed.

Lemma data_start_spec : Z.of_nat (length (gguf_tables d)) <= data_start d ∧ data_start d + Z.of_nat (length (d_data d)) = map_size file.
Proof.
  pose proof tables_bound as Hb. pose proof file_size_ok as Hsz.
  destruct (align_up_spec (Z.of_nat (length (gguf_tables d))) (doc_alignment (d_kvs d))) as [Ha _]; [lia|apply doc_alignment_range|].
  fold (data_start d) in Ha. split; [lia|]. unfold map_size, gguf_file. rewrite !length_app, length_replicate. lia.
Qed.

Lemma data_at off n : 0 <= off → 0 <= n → bytes_at file (data_start d + off) n = bytes_at (d_data d) off n.
Proof.
  intros Ho Hn. destruct data_start_spec as [Hs _]. unfold bytes_at, gguf_file. f_equal. rewrite app_assoc. rewrite drop_app_ge.
  - rewrite length_app, length_replicate. f_equal. lia.
  - rewrite length_app, length_replicate. lia.
Qed.

Lemma parse_tensors_doc : ∃ ts mb pos, parse_tensors file (Z.of_nat (length (d_tensors d))) (doc_alignment (d_kvs d)) (24 + Z.of_nat (length (concat (kv_bytes <$> d_kvs d))))
    = Ok (data_start d, (λ t, set_abs_offset t (data_start d + t_rel_offset t)) <$> ts, mb) pos ∧ Forall2 (tensor_is file) (d_tensors d) ts.
Proof.
  destruct tables_at as (_ & _ & _ & _ & _ & H). pose proof file_size_ok as Hsz. pose proof (slice_bound _ _ _ H) as [_ Hb]. pose proof counts_ok as [_ Hc].
  destruct data_start_spec as [Hd1 Hd2]. pose proof Hok as (_ & Hts & _).
  destruct (tensor_loop_at file Hsz (d_tensors d) (d_data d) [] _ H Hts ltac:(lia)) as (r & E & Hr).
  destruct (place_tensors_at file Hsz (d_tensors d) (d_data d) (data_start d) r [] 0 (Z.of_nat (length (gguf_tables d))) Hr Hts ltac:(lia) Hd2) as (mb & Ep).
  exists r, mb, (Z.of_nat (length (gguf_tables d))). split; [|done]. unfold parse_tensors, cbind, cpos. rewrite u64_small by (unfold is_u64; lia).
  assert ((Z.of_nat (length (d_tensors d)) >? map_size file - (24 + Z.of_nat (length (concat (kv_bytes <$> d_kvs d))))) = false) as -> by (rewrite Z.gtb_ltb; lia).
  rewrite Nat2Z.id, E. cbn [app]. rewrite <- tables_length. fold (data_start d). by rewrite Ep.
Qed.

Lemma placed_tensors_doc l ts : Forall2 (tensor_is file) l ts → Forall (tensor_desc_ok (d_data d)) l →
  Forall2 (λ td t, tensor_is file td t ∧ bytes_at file (t_abs_offset t) (t_bytes t) = bytes_at (d_data d) (td_offset td) (t_bytes t))
    l ((λ t, set_abs_offset t (data_start d + t_rel_offset t)) <$> ts).
Proof.
  induction 1 as [|td t l ts Ht _ IH]; intros Hw; [constructor|]. apply Forall_cons in Hw as [Hw Hl]. cbn [fmap list_fmap]. constructor; [|by apply IH].
  split; [exact Ht|]. destruct Ht as (_ & _ & _ & E4 & _ & E6). destruct Hw as (_ & _ & _ & _ & Ho & _).
  pose proof (tensor_nbytes_range _ _ _ E6) as [Hn _]. cbn. rewrite E4. by apply data_at.
Qed.
End document.

(** ** Reading a document *)

Definition doc_get (d : gguf_doc) (key : bytes) : option gguf_value := snd <$> List.find (λ kv, bytes_eqb kv.1 key) (d_kvs d).

Lemma find_kv_is file l r key : Forall2 (kv_is file) l r →
  match List.find (λ kv : bytes * gguf_value, bytes_eqb kv.1 key) l with
  | Some x => ∃ kv, List.find (λ kv, bytes_eqb (str_bytes file (kv_key kv)) key) r = Some kv ∧ kv_is file x kv
  | None => List.find (λ kv, bytes_eqb (str_bytes file (kv_key kv)) key) r = None
  end.
Proof.
  induction 1 as [|x kv l r Hx _ IH]; [done|]. cbn [List.find]. destruct Hx as (E1 & E2 & E3). rewrite E1.
  destruct (bytes_eqb x.1 key); [|done]. by exists kv.
Qed.

Lemma items_count levels t items : value_ok levels (GArray t items) → (length items <= length (concat (value_bytes <$> items)))%nat.
Proof.
  destruct levels as [|levels]; [done|]. intros (_ & _ & Hi). pose proof (concat_min value_bytes items 1) as H. rewrite Nat.mul_1_l in H. apply H.
  intros x Hx. destruct (Z.eqb_spec (scalar_value_size t) 0).
  - eapply value_bytes_pos, Hi, Hx.
  - pose proof (scalar_value_size_pos t). specialize (Hi x Hx). lia.
Qed.

(** What the readers give for a value of the document. *)
Definition reads_as (file : bytes) (m : ds4_model) (key : bytes) (v : gguf_value) : Prop :=
  match v with
  | GString s => ∃ p, model_get_string file m key = Some p ∧ str_bytes file p = s
  | GScalar t raw => t = GGUF_VALUE_UINT32 → model_get_u32 file m key = Some (le_value raw)
  | GArray t items => ∃ p, model_get_array file m key = Some (ArrayRef t (Z.of_nat (length items)) p) ∧ slice_at file p (concat (value_bytes <$> items))
  end.

Lemma kv_reads file m key v kv (Hsize : map_size file <= INT64_MAX) : model_find_kv file m key = Some kv →
  kv_type kv = value_type v → slice_at file (kv_value_pos kv) (value_bytes v) → value_ok max_levels v →
  reads_as file m key v.
Proof.
  intros Hf Ht Hs Hv. destruct v as [t raw|s|t items]; cbn [reads_as value_type value_bytes] in *.
  - intros ->. unfold model_get_u32. rewrite Hf. cbn [mbind option_bind]. rewrite Ht. cbn [negb Z.eqb]. destruct Hv as [Hl _].
    change (scalar_value_size GGUF_VALUE_UINT32) with 4 in Hl. cbn. by rewrite (u32_raw_at file Hsize _ raw Hs) by lia.
  - destruct (string_at file Hsize _ _ Hs) as [E1 E2]. eexists. split; [|exact E2]. unfold model_get_string. rewrite Hf. cbn [mbind option_bind].
    rewrite Ht. cbn. by rewrite E1.
  - pose proof Hv as (Hu & _). apply slice_app in Hs as [H1 Hs]. apply slice_app in Hs as [H2 H3]. rewrite !le_list_length in *.
    eexists. split; [|exact H3]. unfold model_get_array. rewrite Hf. cbn [mbind option_bind]. rewrite Ht. cbn [negb Z.eqb Pos.eqb GGUF_VALUE_ARRAY].
    unfold cbind. pose proof (slice_bound _ _ _ H3). pose proof (slice_bound _ _ _ H2).
    rewrite (u32_at file Hsize _ _ H1 Hu). change (Z.of_nat 4) with 4 in *. change (Z.of_nat 8) with 8 in *.
    rewrite (u64_at file Hsize _ _ H2); [done|]. pose proof (items_count _ _ _ Hv). unfold is_u64. lia.
Qed.

(** A document is opened, with its keys and its tensors in place. *)
Lemma open_doc d (Hok : doc_ok d) :
  ∃ m pos, model_open (gguf_file d) = Ok m pos
    ∧ m_alignment m = doc_alignment (d_kvs d)
    ∧ Forall2 (kv_is (gguf_file d)) (d_kvs d) (m_kv m)
    ∧ Forall2 (λ td t, tensor_is (gguf_file d) td t
        ∧ bytes_at (gguf_file d) (t_abs_offset t) (t_bytes t) = bytes_at (d_data d) (td_offset td) (t_bytes t)) (d_tensors d) (m_tensors m).
Proof.
  destruct (parse_metadata_doc d Hok) as (kvs & Ek & Hk). destruct (parse_tensors_doc d Hok) as (ts & mb & pos & Et & Ht).
  destruct (tables_at d) as (T1 & T2 & T3 & T4 & _). pose proof (file_size_ok d Hok) as Hsz. pose proof (slice_bound _ _ _ T4) as Hb.
  destruct (counts_ok d) as [C1 C2]. pose proof (tables_length d) as Hl. pose proof (tables_bound d) as Hb2.
  pose proof Hok as (Hw & Htd & H32 & _). eexists _, _. split_and!.
  - unfold model_open. assert ((map_size (gguf_file d) <? 32) = false) as -> by lia. unfold cbind.
    rewrite (u32_at _ Hsz _ _ T1) by done. change (0 + 4) with 4. cbn [negb Z.eqb Pos.eqb DS4_GGUF_MAGIC].
    rewrite (u32_at _ Hsz _ _ T2) by done. change (4 + 4) with 8. rewrite (u64_at _ Hsz _ _ T3) by (unfold is_u64; lia). change (8 + 8) with 16.
    rewrite (u64_at _ Hsz _ _ T4) by (unfold is_u64; lia). change (16 + 8) with 24. cbn [negb Z.eqb Pos.eqb]. rewrite Ek, Et. reflexivity.
  - done.
  - exact Hk.
  - cbn [m_tensors]. by apply placed_tensors_doc.
Qed.

(** The readers find the values of the document. *)
Lemma doc_reads d m key (Hok : doc_ok d) : Forall2 (kv_is (gguf_file d)) (d_kvs d) (m_kv m) →
  match doc_get d key with
  | Some v => reads_as (gguf_file d) m key v ∧ value_ok max_levels v
  | None => model_find_kv (gguf_file d) m key = None
  end.
Proof.
  intros Hk. pose proof (file_size_ok d Hok) as Hsz. pose proof Hok as (Hw & _). unfold doc_get. pose proof (find_kv_is _ _ _ key Hk) as Hf.
  destruct (List.find _ (d_kvs d)) as [x|] eqn:Ex; [|done].
  cbn. destruct Hf as (kv & Hf & E1 & E2 & E3). apply find_some in Ex as [Hin _]. rewrite List.Forall_forall in Hw. destruct (Hw x Hin) as [Hv _].
  split; [|done]. by eapply (kv_reads _ _ key x.2 kv Hsz).
Qed.

(** C33. A file in the GGUF format is read back: the tables have the keys, the types and
    the values of the document and its tensors with their dimensions, the bytes at a
    tensor's offset are its bytes in the data, and the readers find the value of a key,
    the first one when a key is repeated. *)
Theorem gguf_roundtrip d (Hok : doc_ok d) :
  ∃ m pos, model_open (gguf_file d) = Ok m pos
    ∧ m_alignment m = doc_alignment (d_kvs d)
    ∧ Forall2 (λ x kv, str_bytes (gguf_file d) (kv_key kv) = x.1 ∧ kv_type kv = value_type x.2) (d_kvs d) (m_kv m)
    ∧ Forall2 (λ td t, tensor_is (gguf_file d) td t
        ∧ bytes_at (gguf_file d) (t_abs_offset t) (t_bytes t) = bytes_at (d_data d) (td_offset td) (t_bytes t)) (d_tensors d) (m_tensors m)
    ∧ ∀ key, match doc_get d key with Some v => reads_as (gguf_file d) m key v | None => model_find_kv (gguf_file d) m key = None end.
Proof.
  destruct (open_doc d Hok) as (m & pos & E & Ha & Hk & Ht). exists m, pos. split_and!; [done|done| |done|].
  - eapply Forall2_impl; [exact Hk|]. by intros x kv (? & ? & _).
  - intros key. pose proof (doc_reads d m key Hok Hk) as H. destruct (doc_get d key); [apply H|done].
Qed.

Definition sample_doc : gguf_doc := GgufDoc
  [(bs "general.alignment", GScalar GGUF_VALUE_UINT32 [16; 0; 0; 0]); (bs "general.name", GString (bs "spark"));
   (bs "tokenizer.ggml.tokens", GArray GGUF_VALUE_STRING [GString (bs "a"); GString (bs "b")])]
  [TensorDesc (bs "w") [2; 3] 0 0] (replicate 24 7).

Lemma sample_doc_ok : doc_ok sample_doc.
Proof.
  unfold doc_ok. split_and!.
  - repeat constructor; cbn; try done; set_solver.
  - constructor; [|done]. unfold tensor_desc_ok. cbn. split_and!; try done; [repeat constructor; lia|]. exists 24. done.
  - vm_compute. discriminate.
  - vm_compute. discriminate.
  - apply is_bytesb_ok. reflexivity.
Qed.


(** Witness of C33: the name and the first tensor of the sample document. *)
Lemma gguf_roundtrip_witness : ∃ m pos p, model_open (gguf_file sample_doc) = Ok m pos ∧ m_alignment m = 16
  ∧ model_get_string (gguf_file sample_doc) m (bs "general.name") = Some p ∧ str_bytes (gguf_file sample_doc) p = bs "spark".
Proof.
  destruct (gguf_roundtrip sample_doc sample_doc_ok) as (m & pos & E & Ha & _ & _ & Hk). specialize (Hk (bs "general.name")).
  destruct Hk as (p & Hp & Hs). exists m, pos, p. split_and!; [done|rewrite Ha; reflexivity|done|done].
Defined.
