(* ===== verification/StrTable.v ===== *)
(** * The hash tables of the tokenizer

    [hash_bytes], [next_pow2], [table_init], [table_put] and [table_get] of
    [engine/src/engine.c]: open addressing with linear probing in a table of a power
    of two, and the proof that it is a finite map. The keys point into the mapped
    file, which does not change; a key is its bytes. A loop that would never end gives
    [None]. *)
From S2P Require Import Prelude.

(** ** Definitions *)

Definition hash_bytes (b : bytes) : Z :=
  foldl (λ h c, u64 (Z.lxor h c * 1099511628211)) 1469598103934665603 b.

Record str_i32_table := StrTable {
  tb_entry : list (option (bytes * Z));
  tb_cap : Z;
  tb_used : Z;
}.

(** The loop of [next_pow2]; [p <<= 1] drops the top bit. *)
Fixpoint pow2_loop (fuel : nat) (p n : Z) : option Z :=
  if p <? n then match fuel with O => None | S fuel' => pow2_loop fuel' (u64 (Z.shiftl p 1)) n end
  else Some p.

Definition next_pow2 (n : Z) : option Z := pow2_loop 64 1 n.

Definition table_init (expected : Z) : option str_i32_table :=
  cap ← next_pow2 (u64 (u64 (expected * 2) + 16));
  Some (StrTable (replicate (Z.to_nat cap) None) cap 0).

(** The loop of [table_put] and [table_get]: the first place from [i] on that is
    free or has the key. *)
Fixpoint table_probe (fuel : nat) (entry : list (option (bytes * Z))) (mask i : Z) (key : bytes) : option Z :=
  match fuel with
  | O => None
  | S fuel' =>
      match entry !! Z.to_nat i with
      | None => None
      | Some None => Some i
      | Some (Some (k, _)) => if bytes_eqb k key then Some i else table_probe fuel' entry mask (Z.land (u64 (i + 1)) mask) key
      end
  end.

Definition table_slot (t : str_i32_table) (key : bytes) : option Z :=
  let mask := u64 (tb_cap t - 1) in
  table_probe (length (tb_entry t)) (tb_entry t) mask (Z.land (hash_bytes key) mask) key.

Definition table_put (t : str_i32_table) (key : bytes) (value : Z) : option str_i32_table :=
  i ← table_slot t key;
  match tb_entry t !! Z.to_nat i with
  | Some (Some (k, _)) => Some (StrTable (<[Z.to_nat i := Some (k, value)]> (tb_entry t)) (tb_cap t) (tb_used t))
  | Some None => Some (StrTable (<[Z.to_nat i := Some (key, value)]> (tb_entry t)) (tb_cap t) (u64 (tb_used t + 1)))
  | None => None
  end.

(** The value, or [None] where the function returns false. *)
Definition table_get (t : str_i32_table) (key : bytes) : option (option Z) :=
  if tb_cap t =? 0 then Some None
  else
    i ← table_slot t key;
    match tb_entry t !! Z.to_nat i with
    | Some (Some (_, v)) => Some (Some v)
    | Some None => Some None
    | None => None
    end.

(** ** The capacity *)

Lemma pow2_loop_spec fuel : ∀ k n, 0 <= k → k + Z.of_nat fuel = 64 → n <= 2 ^ 63 → (k = 0 ∨ 2 ^ (k - 1) < n) →
  (k <= 63) → ∃ j, pow2_loop fuel (2 ^ k) n = Some (2 ^ j) ∧ k <= j <= 63 ∧ n <= 2 ^ j.
Proof.
  induction fuel as [|fuel IH]; intros k n Hk Hf Hn Hlo H63; [lia|]. cbn [pow2_loop]. destruct (Z.ltb_spec (2 ^ k) n) as [Hlt|Hge].
  - assert (k < 63) by (destruct (Z.eq_dec k 63) as [->|]; lia).
    assert (Hs : u64 (Z.shiftl (2 ^ k) 1) = 2 ^ (k + 1)).
    { rewrite Z.shiftl_mul_pow2 by lia. rewrite Z.pow_1_r, Z.pow_add_r, Z.pow_1_r by lia. apply u64_small. unfold is_u64.
      assert (2 ^ k <= 2 ^ 62) by (apply Z.pow_le_mono_r; lia). pose proof (Z.pow_pos_nonneg 2 k). lia. }
    rewrite Hs. destruct (IH (k + 1) n) as (j & Hj & ? & ?); try lia. { right. by replace (k + 1 - 1) with k by lia. }
    exists j. split; [done|lia].
  - exists k. split; [done|lia].
Qed.

(** ** Linear probing *)

(** How many places are taken. *)
Fixpoint taken (l : list (option (bytes * Z))) : nat :=
  match l with [] => 0 | Some _ :: r => S (taken r) | None :: r => taken r end.

Lemma taken_free l : (taken l < length l)%nat → ∃ i, l !! i = Some None.
Proof.
  induction l as [|[x|] l IH]; simpl; intros H; [lia| |by exists 0%nat]. destruct IH as [i Hi]; [lia|]. by exists (S i).
Qed.

Lemma taken_insert l i x : l !! i = Some None → taken (<[i := Some x]> l) = S (taken l).
Proof.
  revert i. induction l as [|o l IH]; intros [|i] H; try done; simpl in *.
  - by injection H as ->.
  - destruct o; by rewrite IH.
Qed.

Lemma taken_update l i x y : l !! i = Some (Some x) → taken (<[i := Some y]> l) = taken l.
Proof.
  revert i. induction l as [|o l IH]; intros [|i] H; try done; simpl in *.
  - by injection H as ->.
  - destruct o; by rewrite IH.
Qed.

Lemma taken_replicate n : taken (replicate n None) = 0%nat.
Proof. by induction n. Qed.

Section probing.
Context (l : list (option (bytes * Z))) (n : nat) (Hlen : length l = n) (Hn : (0 < n)%nat).

(** The probe stops at this place. *)
Definition stops (key : bytes) (i : nat) : Prop := l !! i = Some None ∨ ∃ v, l !! i = Some (Some (key, v)).

(** The first of the places from [h] on, cyclically, where the probe stops. *)
Definition first_stop (key : bytes) (h d : nat) : Prop :=
  (d < n)%nat ∧ stops key ((h + d) mod n) ∧ ∀ d', (d' < d)%nat → ¬ stops key ((h + d') mod n).

Lemma mod_lookup i : ∃ o, l !! (i mod n)%nat = Some o.
Proof. apply lookup_lt_is_Some. rewrite Hlen. apply Nat.mod_upper_bound. lia. Qed.

Lemma first_stop_unique key h d d' : first_stop key h d → first_stop key h d' → d = d'.
Proof.
  intros (_ & S1 & M1) (_ & S2 & M2). destruct (Nat.lt_trichotomy d d') as [H|[H|H]]; [|done|].
  - by destruct (M2 d H).
  - by destruct (M1 d' H).
Qed.

#[local] Instance stops_dec key i : Decision (stops key i).
Proof.
  unfold stops. destruct (l !! i) as [[[k v]|]|] eqn:E.
  - destruct (decide (k = key)) as [->|Hk]; [left; right; by exists v|right]. intros [?|[w ?]]; [done|]. congruence.
  - by left; left.
  - right. intros [?|[? ?]]; done.
Defined.

Lemma first_stop_before key h d0 : (d0 < n)%nat → stops key ((h + d0) mod n) → ∃ d, (d <= d0)%nat ∧ first_stop key h d.
Proof.
  induction d0 as [d0 IH] using lt_wf_ind. intros Hd Hs.
  destruct (decide (Exists (λ d', stops key ((h + d') mod n)) (seq 0 d0))) as [He|He].
  - apply Exists_exists in He as (d' & Hin & Hs'). apply elem_of_seq in Hin. destruct (IH d') as (d & ? & ?); [lia|lia|done|]. exists d. split; [lia|done].
  - exists d0. split; [lia|]. split_and!; [done|done|]. intros d' Hd' Hs'. apply He, Exists_exists. exists d'. split; [apply elem_of_seq; lia|done].
Qed.

Lemma first_stop_exists key h i : (i < n)%nat → stops key i → ∃ d, first_stop key h d.
Proof.
  intros Hi Hs. set (d0 := ((i + n - h mod n) mod n)%nat).
  assert (Hd : ((h + d0) mod n)%nat = i).
  { unfold d0. rewrite Nat.Div0.add_mod_idemp_r. pose proof (Nat.mod_upper_bound h n ltac:(lia)).
    rewrite <- Nat.Div0.add_mod_idemp_l. replace (h mod n + (i + n - h mod n))%nat with (i + 1 * n)%nat by lia.
    rewrite Nat.Div0.mod_add. by apply Nat.mod_small. }
  destruct (first_stop_before key h d0) as (d & _ & H); [apply Nat.mod_upper_bound; lia|by rewrite Hd|]. by exists d.
Qed.

Context (k : Z) (Hk : 0 <= k <= 63) (Hcap : Z.of_nat n = 2 ^ k).

Lemma next_place j : Z.land (u64 (Z.of_nat (j mod n) + 1)) (2 ^ k - 1) = Z.of_nat (S j mod n).
Proof.
  pose proof (Nat.mod_upper_bound j n ltac:(lia)) as Hj. assert (2 ^ k <= 2 ^ 63) by (apply Z.pow_le_mono_r; lia).
  rewrite u64_small by (unfold is_u64; lia). replace (2 ^ k - 1) with (Z.ones k) by (rewrite Z.ones_equiv; lia). rewrite Z.land_ones by lia.
  rewrite <- Hcap, !Nat2Z.inj_mod, Zplus_mod_idemp_l. f_equal. lia.
Qed.

Lemma probe_finds key h d1 : first_stop key h d1 → ∀ fuel d, (d <= d1)%nat → (d1 - d < fuel)%nat →
  table_probe fuel l (2 ^ k - 1) (Z.of_nat ((h + d) mod n)) key = Some (Z.of_nat ((h + d1) mod n)).
Proof.
  intros (Hd1 & Hs & Hmin). induction fuel as [|fuel IH]; intros d Hd Hf; [lia|]. cbn [table_probe]. rewrite Nat2Z.id.
  destruct (mod_lookup (h + d)) as [o Ho]. rewrite Ho. destruct (Nat.eq_dec d d1) as [->|Hne].
  - destruct Hs as [E|[v E]]; rewrite E in Ho; injection Ho as <-; [done|]. by rewrite bytes_eqb_refl.
  - assert (Hno : ¬ stops key ((h + d) mod n)) by (apply Hmin; lia). destruct o as [[k' v]|]; [|destruct Hno; by left].
    destruct (bytes_eqb k' key) eqn:E; [apply bytes_eqb_eq in E as ->; destruct Hno; right; by exists v|].
    rewrite next_place. replace (S (h + d)) with (h + S d)%nat by lia. apply IH; lia.
Qed.
End probing.

(** ** The table is a map *)

(** Where the probes of a key start. *)
Definition home (n : nat) (key : bytes) : nat := Z.to_nat (hash_bytes key mod Z.of_nat n).

Record table_rep (t : str_i32_table) (m : gmap bytes Z) : Prop := {
  tr_cap : ∃ k, 0 <= k <= 63 ∧ tb_cap t = 2 ^ k ∧ Z.of_nat (length (tb_entry t)) = 2 ^ k;
  tr_used : tb_used t = Z.of_nat (taken (tb_entry t));
  tr_size : taken (tb_entry t) = size m;
  tr_unique i j k v v' : tb_entry t !! i = Some (Some (k, v)) → tb_entry t !! j = Some (Some (k, v')) → i = j;
  tr_reach i k v : tb_entry t !! i = Some (Some (k, v)) →
    ∃ d, (d < length (tb_entry t))%nat ∧ ((home (length (tb_entry t)) k + d) mod length (tb_entry t))%nat = i
      ∧ ∀ d', (d' < d)%nat → tb_entry t !! ((home (length (tb_entry t)) k + d') mod length (tb_entry t))%nat ≠ Some None;
  tr_map k v : m !! k = Some v ↔ ∃ i, tb_entry t !! i = Some (Some (k, v));
}.

Lemma slot_spec t m key : table_rep t m → (size m < length (tb_entry t))%nat →
  let n := length (tb_entry t) in
  ∃ d, first_stop (tb_entry t) n key (home n key) d ∧ table_slot t key = Some (Z.of_nat ((home n key + d) mod n))
    ∧ tb_entry t !! ((home n key + d) mod n)%nat = Some (match m !! key with Some v => Some (key, v) | None => None end).
Proof.
  intros R Hroom n. destruct (tr_cap _ _ R) as (k & Hk & Hc & Hl). assert (Hn : (0 < n)%nat) by (subst n; lia).
  assert (Hp : 0 < 2 ^ k) by (apply Z.pow_pos_nonneg; lia).
  destruct (taken_free (tb_entry t)) as [i0 Hi0]; [rewrite (tr_size _ _ R); lia|].
  destruct (first_stop_exists (tb_entry t) n eq_refl Hn key (home n key) i0) as [d Hd]; [by apply lookup_lt_Some in Hi0|by left|].
  exists d. split; [done|]. split.
  - unfold table_slot. rewrite Hc. assert (2 ^ k <= 2 ^ 63) by (apply Z.pow_le_mono_r; lia). rewrite u64_small by (unfold is_u64; lia).
    assert (Hh : Z.land (hash_bytes key) (2 ^ k - 1) = Z.of_nat ((home n key + 0) mod n)).
    { replace (2 ^ k - 1) with (Z.ones k) by (rewrite Z.ones_equiv; lia). rewrite Z.land_ones by lia. unfold home. rewrite Nat.add_0_r.
      pose proof (Z.mod_pos_bound (hash_bytes key) (2 ^ k) Hp). subst n. rewrite Hl, Nat.mod_small by lia. lia. }
    rewrite Hh. apply (probe_finds (tb_entry t) n eq_refl Hn k Hk Hl key _ d Hd); [lia|]. destruct Hd as [? _]. subst n. lia.
  - destruct Hd as (Hdn & Hs & Hmin). destruct (m !! key) as [v|] eqn:Em.
    + destruct Hs as [Hs|[v' Hs]].
      * exfalso. apply (tr_map _ _ R) in Em as [i Hi]. destruct (tr_reach _ _ R i key v Hi) as (d2 & Hd2 & E2 & Hocc). fold n in Hd2, E2, Hocc.
        destruct (Nat.lt_trichotomy d d2) as [H|[->|H]]; [by destruct (Hocc d H)|rewrite E2, Hi in Hs; done|].
        apply (Hmin d2 H). rewrite E2. right. by exists v.
      * rewrite Hs. assert (Hm' : m !! key = Some v') by (apply (tr_map _ _ R); by eexists). congruence.
    + destruct Hs as [Hs|[v' Hs]]; [done|]. assert (Hm' : m !! key = Some v') by (apply (tr_map _ _ R); by eexists). congruence.
Qed.

Lemma get_rep t m key : table_rep t m → (size m < length (tb_entry t))%nat → table_get t key = Some (m !! key).
Proof.
  intros R Hroom. destruct (slot_spec t m key R Hroom) as (d & _ & Hs & He). unfold table_get.
  destruct (tr_cap _ _ R) as (k & Hk & Hc & Hl). assert (0 < 2 ^ k) by (apply Z.pow_pos_nonneg; lia).
  assert ((tb_cap t =? 0) = false) as -> by lia. rewrite Hs. cbn [mbind option_bind]. rewrite Nat2Z.id, He. by destruct (m !! key).
Qed.

Section insertion.
Context (t : str_i32_table) (m : gmap bytes Z) (key : bytes) (v : Z) (d : nat) (used : Z).
Abbreviation l := (tb_entry t).
Abbreviation n := (length (tb_entry t)).
Abbreviation j := ((home n key + d) mod n)%nat.
Context (R : table_rep t m) (Hd : first_stop l n key (home n key) d).
Context (He : l !! j = Some (match m !! key with Some v0 => Some (key, v0) | None => None end)).
Abbreviation l' := (<[j := Some (key, v)]> l).
Context (Hused : used = Z.of_nat (taken l')).

Lemma insert_lookup i k w : l' !! i = Some (Some (k, w)) ↔ (i = j ∧ k = key ∧ w = v) ∨ (i ≠ j ∧ l !! i = Some (Some (k, w))).
Proof.
  destruct (decide (i = j)) as [->|Hne].
  - rewrite list_lookup_insert_eq by (by eapply lookup_lt_Some). naive_solver.
  - rewrite list_lookup_insert_ne by done. naive_solver.
Qed.

(** Another place never has the key. *)
Lemma insert_other i w : i ≠ j → l !! i ≠ Some (Some (key, w)).
Proof.
  intros Hne Hi. destruct (m !! key) as [v0|] eqn:Em.
  - apply Hne. by eapply (tr_unique _ _ R).
  - assert (m !! key = Some w) by (apply (tr_map _ _ R); by eexists). congruence.
Qed.

Lemma insert_free i : l' !! i = Some None → l !! i = Some None.
Proof.
  destruct (decide (i = j)) as [->|Hne].
  - by rewrite list_lookup_insert_eq by (by eapply lookup_lt_Some).
  - by rewrite list_lookup_insert_ne by done.
Qed.

Lemma insert_taken : taken l' = size (<[key := v]> m).
Proof.
  destruct (m !! key) as [v0|] eqn:Em.
  - rewrite (taken_update _ _ (key, v0)) by done. rewrite map_size_insert_Some by (by eexists). apply R.
  - rewrite taken_insert, map_size_insert_None by done. f_equal. apply R.
Qed.

Lemma insert_rep : table_rep (StrTable l' (tb_cap t) used) (<[key := v]> m).
Proof.
  constructor; cbn [tb_entry tb_cap tb_used]; rewrite ?length_insert.
  - apply R.
  - done.
  - apply insert_taken.
  - intros i i2 k w w' [(-> & -> & ->)|[Hi Hl]]%insert_lookup [(-> & H1 & H2)|[Hi2 Hl2]]%insert_lookup; [done| | |].
    + by destruct (insert_other i2 w' Hi2).
    + subst k. by destruct (insert_other i w Hi).
    + by eapply (tr_unique _ _ R).
  - intros i k w [(-> & -> & ->)|[Hi Hl]]%insert_lookup.
    + destruct Hd as (Hdn & _ & Hmin). exists d. split_and!; [done|done|]. intros d' Hd' Hf%insert_free. apply (Hmin d' Hd'). by left.
    + destruct (tr_reach _ _ R _ _ _ Hl) as (d2 & ? & ? & Hocc). exists d2. split_and!; [done|done|]. intros d' Hd' Hf%insert_free. by apply (Hocc d').
  - intros k w. setoid_rewrite insert_lookup. destruct (decide (key = k)) as [<-|Hne].
    + rewrite lookup_insert_eq. split; [intros [= <-]; by exists j; left|]. intros (i & [(_ & _ & ->)|[Hi Hl]]); [done|]. by destruct (insert_other i w Hi).
    + rewrite lookup_insert_ne by done. rewrite (tr_map _ _ R). split.
      * intros [i Hi]. exists i. right. split; [|done]. intros ->. rewrite He in Hi. destruct (m !! key); congruence.
      * intros (i & [(_ & -> & _)|[Hi Hl]]); [done|]. by exists i.
Qed.
End insertion.

Lemma put_rep t m key v : table_rep t m → (size m < length (tb_entry t))%nat →
  ∃ t', table_put t key v = Some t' ∧ table_rep t' (<[key := v]> m) ∧ length (tb_entry t') = length (tb_entry t).
Proof.
  intros R Hroom. destruct (slot_spec t m key R Hroom) as (d & Hd & Hs & He). unfold table_put. rewrite Hs. cbn [mbind option_bind].
  rewrite Nat2Z.id, He. destruct (m !! key) as [v0|] eqn:Em.
  - eexists. split; [done|]. split; [|cbn; apply length_insert]. apply (insert_rep t m key v d); [done|done|by rewrite Em|].
    rewrite (taken_update _ _ (key, v0)) by done. apply R.
  - eexists. split; [done|]. split; [|cbn; apply length_insert]. apply (insert_rep t m key v d); [done|done|by rewrite Em|].
    rewrite taken_insert by done. rewrite (tr_used _ _ R), (tr_size _ _ R). destruct (tr_cap _ _ R) as (k & Hk & _ & Hl).
    assert (2 ^ k <= 2 ^ 63) by (apply Z.pow_le_mono_r; lia). rewrite u64_small; [lia|]. unfold is_u64. lia.
Qed.

Lemma init_rep expected : 0 <= expected <= 2 ^ 61 → ∃ t, table_init expected = Some t ∧ table_rep t ∅ ∧ expected * 2 + 16 <= Z.of_nat (length (tb_entry t)).
Proof.
  intros He. unfold table_init. rewrite (u64_small (expected * 2)), u64_small by (unfold is_u64; lia).
  destruct (pow2_loop_spec 64 0 (expected * 2 + 16)) as (j & Hj & Hj2 & Hge); try lia. unfold next_pow2. rewrite Z.pow_0_r in Hj. rewrite Hj.
  assert (0 < 2 ^ j) by (apply Z.pow_pos_nonneg; lia). cbn [mbind option_bind]. eexists. split; [done|]. cbn. rewrite length_replicate. split; [|lia].
  constructor; cbn [tb_entry tb_cap tb_used]; rewrite ?length_replicate, ?taken_replicate.
  - exists j. lia.
  - done.
  - by rewrite map_size_empty.
  - intros i i2 k v v' H1. by apply lookup_replicate in H1 as [? _].
  - intros i k v H1. by apply lookup_replicate in H1 as [? _].
  - intros k v. rewrite lookup_empty. split; [done|]. intros [i H1]. by apply lookup_replicate in H1 as [? _].
Qed.

(** A table filled with a list of keys and values, as [vocab_load] fills it. *)
Fixpoint put_all (t : str_i32_table) (kvs : list (bytes * Z)) : option str_i32_table :=
  match kvs with [] => Some t | (k, v) :: r => t' ← table_put t k v; put_all t' r end.

Definition table_of (expected : Z) (kvs : list (bytes * Z)) : option str_i32_table := t ← table_init expected; put_all t kvs.

Lemma put_all_rep kvs : ∀ t m, table_rep t m → (size m + length kvs < length (tb_entry t))%nat →
  ∃ t', put_all t kvs = Some t' ∧ table_rep t' (foldl (λ m kv, <[kv.1 := kv.2]> m) m kvs) ∧ length (tb_entry t') = length (tb_entry t).
Proof.
  induction kvs as [|[k v] kvs IH]; intros t m R Hroom; cbn [put_all foldl length] in *; [by exists t|].
  destruct (put_rep t m k v R) as (t1 & E & R1 & Hl); [lia|]. rewrite E. cbn [mbind option_bind].
  destruct (IH t1 (<[k := v]> m) R1) as (t2 & E2 & R2 & Hl2).
  - rewrite Hl. destruct (m !! k) eqn:Em; [rewrite map_size_insert_Some by (by eexists)|rewrite map_size_insert_None by done]; lia.
  - exists t2. split_and!; [done|done|congruence].
Qed.

Lemma size_inserts kvs : ∀ m : gmap bytes Z, (size (foldl (λ m kv, <[kv.1 := kv.2]> m) m kvs) <= size m + length kvs)%nat.
Proof.
  induction kvs as [|[k v] kvs IH]; intros m; cbn [foldl length]; [lia|]. etrans; [apply IH|].
  cbn. destruct (m !! k) eqn:Em; [rewrite map_size_insert_Some by (by eexists)|rewrite map_size_insert_None by done]; lia.
Qed.

(** The map of a list of keys and values: the last value of a key. *)
Definition inserts (kvs : list (bytes * Z)) : gmap bytes Z := foldl (λ m kv, <[kv.1 := kv.2]> m) ∅ kvs.

Lemma table_of_rep expected kvs : Z.of_nat (length kvs) <= expected <= 2 ^ 61 →
  ∃ t0 t, table_init expected = Some t0 ∧ put_all t0 kvs = Some t ∧ ∀ key, table_get t key = Some (inserts kvs !! key).
Proof.
  intros He. destruct (init_rep expected) as (t0 & E0 & R0 & Hl0); [lia|].
  destruct (put_all_rep kvs t0 ∅ R0) as (t & E & R & Hl); [rewrite map_size_empty; lia|]. exists t0, t. split_and!; [done|done|].
  intros key. apply get_rep; [done|]. pose proof (size_inserts kvs ∅). unfold inserts. rewrite map_size_empty in *. lia.
Qed.

(** C34. The hash tables are finite maps: a table made for as many keys as are put into
    it always ends its probes, and looking up a key gives the value put last for it,
    whatever the hashes of the keys. *)
Theorem str_table_is_map expected kvs key (He : Z.of_nat (length kvs) <= expected <= 2 ^ 61) :
  ∃ t, table_of expected kvs = Some t ∧ table_get t key = Some (inserts kvs !! key).
Proof.
  destruct (table_of_rep expected kvs He) as (t0 & t & E0 & E & Hg). exists t. unfold table_of. rewrite E0. by split.
Qed.

(** Witness of C34: two keys, one put twice. *)
Lemma str_table_is_map_witness : ∃ t, table_of 3 [(bs "a", 1); (bs "b", 2); (bs "a", 3)] = Some t ∧ table_get t (bs "a") = Some (Some 3).
Proof.
  destruct (str_table_is_map 3 [(bs "a", 1); (bs "b", 2); (bs "a", 3)] (bs "a") ltac:(simpl; lia)) as (t & E & H). exists t. split; [done|].
  rewrite H. reflexivity.
Defined.
