(* ===== verification/Tokenizer.v ===== *)
(** * The tokenizer

    The byte-level BPE tokenizer of [engine/src/engine.c]: the mapping of bytes to
    printable characters, the merge loop, the two pre-tokenizers ([joyai] for
    DeepSeek, [glm4] for GLM), special tokens in rendered conversations, the escaping
    of tool output, the encoding of chat prompts, and the text of a token.

    A position in a text is the text from there on; the length of the text bounds
    every look ahead. Loops over a text are written on the list of its bytes, with the
    number of bytes that the current character or piece still covers. The tables are
    those of [StrTable]; the model family is an argument. *)
From S2P Require Import Prelude Json Stream Request Prompt Gguf StrTable.

(** ** Bytes as printable characters *)

(** [utf8_put] of [engine.c]. *)
Definition engine_utf8_put (cp : Z) : bytes :=
  if cp <=? 0x7f then [u8 cp]
  else if cp <=? 0x7ff then [u8 (Z.lor 0xc0 (Z.shiftr cp 6)); u8 (Z.lor 0x80 (Z.land cp 0x3f))]
  else if cp <=? 0xffff then
    [u8 (Z.lor 0xe0 (Z.shiftr cp 12)); u8 (Z.lor 0x80 (Z.land (Z.shiftr cp 6) 0x3f)); u8 (Z.lor 0x80 (Z.land cp 0x3f))]
  else
    [u8 (Z.lor 0xf0 (Z.shiftr cp 18)); u8 (Z.lor 0x80 (Z.land (Z.shiftr cp 12) 0x3f));
     u8 (Z.lor 0x80 (Z.land (Z.shiftr cp 6) 0x3f)); u8 (Z.lor 0x80 (Z.land cp 0x3f))].

(** The bytes that stand for themselves. *)
Definition gpt2_printable (x : Z) : bool := ((33 <=? x) && (x <=? 126)) || ((161 <=? x) && (x <=? 172)) || (174 <=? x).

Definition all_bytes : list Z := Z.of_nat <$> seq 0 256.

Fixpoint codepoint_loop (xs : list Z) (b n : Z) : Z :=
  match xs with
  | [] => b
  | x :: r =>
      if gpt2_printable x then codepoint_loop r b n
      else if x =? b then 256 + n else codepoint_loop r b (n + 1)
  end.

Definition gpt2_byte_to_codepoint (b : Z) : Z :=
  if gpt2_printable b then b else codepoint_loop all_bytes b 0.

Definition byte_encode (input : bytes) : bytes := concat ((λ b, engine_utf8_put (gpt2_byte_to_codepoint b)) <$> input).

Definition utf8_len_from_first_byte (c : Z) : nat :=
  if c <? 0x80 then 1
  else if Z.land c 0xe0 =? 0xc0 then 2
  else if Z.land c 0xf0 =? 0xe0 then 3
  else if Z.land c 0xf8 =? 0xf0 then 4
  else 1.

(** The bytes of the first character of a text, one when it is cut short. *)
Definition char_len (s : bytes) : nat :=
  let n := utf8_len_from_first_byte (hd0 s) in if (length s <? n)%nat then 1 else n.

(** ** Byte pair encoding *)

Record ds4_vocab := Vocab {
  v_token : list bytes;
  v_bos_id : Z;
  v_eos_id : Z;
  v_system_id : Z;
  v_user_id : Z;
  v_assistant_id : Z;
  v_observation_id : Z;
  v_sop_id : Z;
  v_think_start_id : Z;
  v_think_end_id : Z;
  v_tool_call_start_id : Z;
  v_tool_call_end_id : Z;
  v_tool_response_start_id : Z;
  v_tool_response_end_id : Z;
  v_arg_key_start_id : Z;
  v_arg_key_end_id : Z;
  v_arg_value_start_id : Z;
  v_arg_value_end_id : Z;
  v_dsml_id : Z;
  v_token_to_id : str_i32_table;
  v_merge_rank : str_i32_table;
}.

(** The value of a key; the probes of the tables that [vocab_load] makes end. *)
Definition table_find (t : str_i32_table) (key : bytes) : option Z := default None (table_get t key).

Definition bpe_rank (v : ds4_vocab) (a b : bytes) : Z := default (-1) (table_find (v_merge_rank v) (a ++ [32] ++ b)).

(** The symbols of an encoded piece: its characters. [cur] is the symbol begun,
    [skip] how many bytes it still has. *)
Fixpoint symbols_loop (s : bytes) (skip : nat) (cur : bytes) : list bytes :=
  match s with
  | [] => match cur with [] => [] | _ => [cur] end
  | c :: r =>
      match skip with
      | O => (match cur with [] => [] | _ => [cur] end) ++ symbols_loop r (char_len s - 1) [c]
      | S k => symbols_loop r k (cur ++ [c])
      end
  end.

Definition bpe_symbols (encoded : bytes) : list bytes := symbols_loop encoded 0 [].

(** The first pair of the lowest rank. *)
Fixpoint best_pair (v : ds4_vocab) (syms : list bytes) (i : nat) (best : option nat) (best_rank : Z) : option nat :=
  match syms with
  | a :: r =>
      match r with
      | b :: _ =>
          let rank := bpe_rank v a b in
          if (0 <=? rank) && (rank <? best_rank) then best_pair v r (S i) (Some i) rank
          else best_pair v r (S i) best best_rank
      | [] => best
      end
  | [] => best
  end.

Definition merge_at (syms : list bytes) (i : nat) : list bytes :=
  take i syms ++ [nth i syms [] ++ nth (S i) syms []] ++ drop (S (S i)) syms.

(** The merge loop; every round joins two symbols, so as many rounds as symbols are
    enough. *)
Fixpoint bpe_merge (fuel : nat) (v : ds4_vocab) (syms : list bytes) : option (list bytes) :=
  match best_pair v syms 0 None INT_MAX with
  | None => Some syms
  | Some i => match fuel with O => None | S fuel' => bpe_merge fuel' v (merge_at syms i) end
  end.

(** The tokens of a symbol, byte by byte when it is not one. *)
Definition symbol_tokens (v : ds4_vocab) (sym : bytes) : list Z :=
  match table_find (v_token_to_id v) sym with
  | Some t => [t]
  | None => omap (λ c, table_find (v_token_to_id v) [c]) sym
  end.

Definition bpe_emit_piece (v : ds4_vocab) (raw_piece : bytes) : list Z :=
  let syms := bpe_symbols (byte_encode raw_piece) in
  concat (symbol_tokens v <$> default [] (bpe_merge (length syms) v syms)).

(** ** Character classes *)

Definition ascii_alpha (c : Z) : bool := ((65 <=? c) && (c <=? 90)) || ((97 <=? c) && (c <=? 122)).
Definition ascii_digit (c : Z) : bool := (48 <=? c) && (c <=? 57).
Definition ascii_space (c : Z) : bool := (c =? 32) || (c =? 9) || (c =? 10) || (c =? 13) || (c =? 11) || (c =? 12).
Definition ascii_newline (c : Z) : bool := (c =? 10) || (c =? 13).
Definition joyai_ascii_punct_symbol (c : Z) : bool :=
  ((33 <=? c) && (c <=? 47)) || ((58 <=? c) && (c <=? 64)) || ((91 <=? c) && (c <=? 96)) || ((123 <=? c) && (c <=? 126)).

Definition in_ranges (l : list (Z * Z)) (cp : Z) : bool := existsb (λ r, (r.1 <=? cp) && (cp <=? r.2)) l.

Definition utf8_is_cjk_hira_kata (cp : Z) : bool := in_ranges [(0x4e00, 0x9fa5); (0x3040, 0x309f); (0x30a0, 0x30ff)] cp.

(** The code point of the first character. *)
Definition utf8_peek_one (s : bytes) : Z :=
  let c0 := hd0 s in
  let b i := Z.land (nth i s 0) 0x3f in
  match char_len s with
  | 1%nat => c0
  | 2%nat => Z.lor (Z.shiftl (Z.land c0 0x1f) 6) (b 1%nat)
  | 3%nat => Z.lor (Z.lor (Z.shiftl (Z.land c0 0x0f) 12) (Z.shiftl (b 1%nat) 6)) (b 2%nat)
  | _ => Z.lor (Z.lor (Z.lor (Z.shiftl (Z.land c0 0x07) 18) (Z.shiftl (b 1%nat) 12)) (Z.shiftl (b 2%nat) 6)) (b 3%nat)
  end.

Definition joyai_letter_like_at (s : bytes) : bool := let c := hd0 s in if c <? 128 then ascii_alpha c else true.

Definition joyai_cjk_at (s : bytes) : bool := if hd0 s <? 128 then false else utf8_is_cjk_hira_kata (utf8_peek_one s).

(** ** Pre-tokenizers *)

(** The bytes of the characters from here on for which [P] holds. *)
Fixpoint scan_chars (P : bytes → bool) (s : bytes) (skip : nat) : nat :=
  match s with
  | [] => 0
  | _ :: r =>
      match skip with
      | S k => S (scan_chars P r k)
      | O => if P s then S (scan_chars P r (char_len s - 1)) else 0
      end
  end.

Fixpoint count_while (P : Z → bool) (s : bytes) : nat :=
  match s with c :: r => if P c then S (count_while P r) else 0 | [] => 0 end.

Definition joyai_consume_letters (s : bytes) : nat := scan_chars joyai_letter_like_at s 0.

(** At most [n] digits. *)
Fixpoint digit_run (n : nat) (s : bytes) : nat :=
  match n, s with
  | S n', c :: r => if ascii_digit c then S (digit_run n' r) else 0
  | _, _ => 0
  end.

(** The end of the last newline of the white space from here on. *)
Fixpoint last_newline_end (s : bytes) (i : nat) (last : option nat) : option nat :=
  match s with
  | c :: r => if ascii_space c then last_newline_end r (S i) (if ascii_newline c then Some (S i) else last) else last
  | [] => last
  end.

(** A run of punctuation from byte [k] on with the newlines after it. *)
Definition punct_run (s : bytes) (k : nat) : nat :=
  let k := (k + count_while joyai_ascii_punct_symbol (drop k s))%nat in (k + count_while ascii_newline (drop k s))%nat.

(** The bytes of the next piece in the loop of [bpe_tokenize_text]. *)
Definition joyai_piece (s : bytes) : nat :=
  let c := hd0 s in
  let more := (1 <? length s)%nat in
  let n :=
    if ascii_digit c then digit_run 3 s
    else if joyai_cjk_at s then scan_chars joyai_cjk_at s 0
    else if joyai_ascii_punct_symbol c && more && ascii_alpha (nth 1 s 0) then S (count_while ascii_alpha (drop 1 s))
    else if joyai_letter_like_at s then joyai_consume_letters s
    else if negb (ascii_newline c) && negb (joyai_ascii_punct_symbol c) && more && joyai_letter_like_at (drop 1 s)
      then S (joyai_consume_letters (drop 1 s))
    else if (c =? 32) && more && joyai_ascii_punct_symbol (nth 1 s 0) then punct_run s 1
    else if joyai_ascii_punct_symbol c then punct_run s 0
    else if ascii_space c then
      let p := count_while ascii_space s in
      match last_newline_end s 0 None with
      | Some e => e
      | None =>
          if (p <? length s)%nat && (1 <? p)%nat && (joyai_letter_like_at (drop p s) || joyai_ascii_punct_symbol (nth p s 0))
          then (p - 1)%nat else p
      end
    else char_len s in
  if (n =? 0)%nat then char_len s else n.

Definition glm4_unicode_whitespace (cp : Z) : bool :=
  if cp <? 128 then ascii_space (u8 cp)
  else in_ranges [(0x0085, 0x0085); (0x00a0, 0x00a0); (0x1680, 0x1680); (0x2000, 0x200a); (0x2028, 0x2028); (0x2029, 0x2029);
                  (0x202f, 0x202f); (0x205f, 0x205f); (0x3000, 0x3000)] cp.

Definition glm4_unicode_number (cp : Z) : bool :=
  if cp <? 128 then ascii_digit (u8 cp)
  else in_ranges [(0x0660, 0x0669); (0x06f0, 0x06f9); (0x07c0, 0x07c9); (0x0966, 0x096f); (0x09e6, 0x09ef); (0x0a66, 0x0a6f);
                  (0x0ae6, 0x0aef); (0x0b66, 0x0b6f); (0x0be6, 0x0bef); (0x0c66, 0x0c6f); (0x0ce6, 0x0cef); (0x0d66, 0x0d6f);
                  (0x0de6, 0x0def); (0x0e50, 0x0e59); (0x0ed0, 0x0ed9); (0x0f20, 0x0f29); (0x1040, 0x1049); (0x1090, 0x1099);
                  (0x17e0, 0x17e9); (0x1810, 0x1819); (0xff10, 0xff19)] cp.

Definition glm4_unicode_punct_symbol (cp : Z) : bool :=
  if cp <? 128 then joyai_ascii_punct_symbol (u8 cp)
  else in_ranges [(0x00a1, 0x00a9); (0x00ab, 0x00ac); (0x00ae, 0x00b1); (0x00b4, 0x00b4); (0x00b6, 0x00b8); (0x00bb, 0x00bb);
                  (0x00bf, 0x00bf); (0x00d7, 0x00d7); (0x00f7, 0x00f7); (0x02c2, 0x02df); (0x02e5, 0x02eb); (0x02ed, 0x02ff);
                  (0x0375, 0x037e); (0x0384, 0x0385); (0x0387, 0x0387); (0x055a, 0x055f); (0x0589, 0x058a); (0x05be, 0x05c0);
                  (0x05c3, 0x05c3); (0x05c6, 0x05c7); (0x0609, 0x060a); (0x060c, 0x060d); (0x061b, 0x061b); (0x061e, 0x061f);
                  (0x066a, 0x066a); (0x066d, 0x066d); (0x06d4, 0x06d4); (0x2000, 0x206f); (0x20a0, 0x20cf); (0x2100, 0x214f);
                  (0x2190, 0x23ff); (0x2460, 0x24ff); (0x2500, 0x2775); (0x2794, 0x2bff); (0x2e00, 0x2e7f); (0x3000, 0x303f);
                  (0xfd3e, 0xfd3f); (0xfe10, 0xfe6f); (0xff01, 0xff0f); (0xff1a, 0xff20); (0xff3b, 0xff40); (0xff5b, 0xff65);
                  (0x1f000, 0x1faff)] cp.

(** [gi_len] is [next] less the position of the character. *)
Record glm4_char_info := Glm4Char {
  gi_cp : Z;
  gi_len : nat;
  gi_valid : bool;
  gi_letter : bool;
  gi_number : bool;
  gi_whitespace : bool;
}.

Definition glm4_char_at (s : bytes) : glm4_char_info :=
  match s with
  | [] => Glm4Char 0 0 false false false false
  | _ =>
      let cp := utf8_peek_one s in
      let ws := glm4_unicode_whitespace cp in
      let num := glm4_unicode_number cp in
      Glm4Char cp (char_len s) true
        (if cp <? 128 then ascii_alpha (u8 cp) else negb ws && negb num && negb (glm4_unicode_punct_symbol cp)) num ws
  end.

Definition ascii_tolower_cp (cp : Z) : Z := if (65 <=? cp) && (cp <=? 90) then cp + 32 else cp.

Definition is_cr_lf (i : glm4_char_info) : bool := (gi_cp i =? 13) || (gi_cp i =? 10).

(** An English contraction: ['s], ['t], ['m], ['d], ['re], ['ve], ['ll]. *)
Definition glm4_contraction (s : bytes) : option nat :=
  let cur := glm4_char_at s in
  let s1 := drop (gi_len cur) s in
  if (gi_cp cur =? 39) && (gi_len cur <? length s)%nat then
    let next := glm4_char_at s1 in
    let n1 := ascii_tolower_cp (gi_cp next) in
    if (n1 =? 115) || (n1 =? 116) || (n1 =? 109) || (n1 =? 100) then Some (gi_len cur + gi_len next)%nat
    else if gi_valid next && (gi_len next <? length s1)%nat then
      let next2 := glm4_char_at (drop (gi_len next) s1) in
      let n2 := ascii_tolower_cp (gi_cp next2) in
      if ((n1 =? 114) && (n2 =? 101)) || ((n1 =? 118) && (n2 =? 101)) || ((n1 =? 108) && (n2 =? 108))
      then Some (gi_len cur + gi_len next + gi_len next2)%nat else None
    else None
  else None.

(** At most [n] number characters. *)
Fixpoint number_run (n : nat) (s : bytes) (skip : nat) : nat :=
  match s with
  | [] => 0
  | _ :: r =>
      match skip with
      | S k => S (number_run n r k)
      | O => match n with
             | S n' => if gi_number (glm4_char_at s) then S (number_run n' r (char_len s - 1)) else 0
             | O => 0
             end
      end
  end.

(** The white space from here on: where it ends, where its last newline ends, where its
    last character starts, how many characters it has. *)
Fixpoint glm4_space_run (s : bytes) (skip p : nat) (newline : option nat) (last n : nat) : nat * option nat * nat * nat :=
  match s with
  | [] => (p, newline, last, n)
  | _ :: r =>
      match skip with
      | S k => glm4_space_run r k (S p) newline last n
      | O =>
          let i := glm4_char_at s in
          if gi_whitespace i
          then glm4_space_run r (char_len s - 1) (S p) (if is_cr_lf i then Some (p + gi_len i)%nat else newline) p (S n)
          else (p, newline, last, n)
      end
  end.

Definition is_other (i : glm4_char_info) : bool := negb (gi_whitespace i) && negb (gi_letter i) && negb (gi_number i).

(** The bytes of the next piece in the loop of [bpe_tokenize_text_glm4]. *)
Definition glm4_piece (s : bytes) : nat :=
  let cur := glm4_char_at s in
  let s1 := drop (gi_len cur) s in
  match glm4_contraction s with
  | Some n => n
  | None =>
      if negb (is_cr_lf cur || gi_number cur) && (gi_letter cur || gi_letter (glm4_char_at s1))
      then (gi_len cur + scan_chars (λ t, gi_letter (glm4_char_at t)) s1 0)%nat
      else if gi_number cur then number_run 3 s 0
      else
        let k := if gi_cp cur =? 32 then gi_len cur else 0%nat in
        let punct := if gi_cp cur =? 32 then glm4_char_at s1 else cur in
        if gi_valid punct && is_other punct then
          let k := (k + scan_chars (λ t, is_other (glm4_char_at t)) (drop k s) 0)%nat in
          (k + scan_chars (λ t, is_cr_lf (glm4_char_at t)) (drop k s) 0)%nat
        else if gi_whitespace cur then
          let '(p, newline, last, n) := glm4_space_run s 0 0 None 0 0 in
          match newline with
          | Some e => e
          | None => if (1 <? n)%nat && (p <? length s)%nat then last else p
          end
        else if (gi_len cur =? 0)%nat then char_len s else gi_len cur
  end.

(** The pieces of a text; a piece is never empty. *)
Fixpoint split_pieces (piece : bytes → nat) (s : bytes) (skip : nat) : list bytes :=
  match s with
  | [] => []
  | _ :: r =>
      match skip with
      | S k => split_pieces piece r k
      | O => let n := piece s in take n s :: split_pieces piece r (n - 1)
      end
  end.

Definition pre_tokenize (glm : bool) (text : bytes) : list bytes :=
  split_pieces (if glm then glm4_piece else joyai_piece) text 0.

Definition bpe_tokenize_text (glm : bool) (v : ds4_vocab) (text : bytes) : list Z := concat (bpe_emit_piece v <$> pre_tokenize glm text).

(** ** Special tokens in a rendered conversation *)

Definition specials (v : ds4_vocab) : list (bytes * Z) :=
  [(BOS, v_bos_id v); (EOS, v_eos_id v); (bs "[gMASK]", v_bos_id v); (bs "<sop>", v_sop_id v); (bs "<|system|>", v_system_id v);
   (USER, v_user_id v); (ASSISTANT, v_assistant_id v); (bs "<|user|>", v_user_id v); (bs "<|assistant|>", v_assistant_id v);
   (bs "<|observation|>", v_observation_id v); (bs "<think>", v_think_start_id v); (bs "</think>", v_think_end_id v);
   (bs "<tool_call>", v_tool_call_start_id v); (bs "</tool_call>", v_tool_call_end_id v);
   (bs "<tool_response>", v_tool_response_start_id v); (bs "</tool_response>", v_tool_response_end_id v);
   (bs "<arg_key>", v_arg_key_start_id v); (bs "</arg_key>", v_arg_key_end_id v);
   (bs "<arg_value>", v_arg_value_start_id v); (bs "</arg_value>", v_arg_value_end_id v);
   (bar ++ bs "DSML" ++ bar, v_dsml_id v)].

(** The special token at the start of a text, with its length. *)
Definition special_token_at (v : ds4_vocab) (p : bytes) : option (Z * nat) :=
  match List.find (λ s, (0 <=? s.2) && (match strip_prefix s.1 p with Some _ => true | None => false end)) (specials v) with
  | Some (text, token) => Some (token, length text)
  | None => None
  end.

Definition tokenize_span (glm : bool) (v : ds4_vocab) (span : bytes) : list Z :=
  match span with [] => [] | _ => bpe_tokenize_text glm v span end.

(** [span] is the text since the last special token. *)
Fixpoint rendered_loop (glm : bool) (v : ds4_vocab) (span p : bytes) (skip : nat) : list Z :=
  match p with
  | [] => tokenize_span glm v span
  | c :: r =>
      match skip with
      | S k => rendered_loop glm v span r k
      | O =>
          match special_token_at v p with
          | Some (token, len) => tokenize_span glm v span ++ [token] ++ rendered_loop glm v [] r (len - 1)
          | None => rendered_loop glm v (span ++ [c]) r 0
          end
      end
  end.

Definition tokenize_rendered_chat_vocab (glm : bool) (v : ds4_vocab) (text : option bytes) : list Z :=
  rendered_loop glm v [] (text_or_empty text) 0.

(** Tool output, with the closing tag protected. *)
Fixpoint wrapped_loop (glm : bool) (v : ds4_vocab) (end_tag span p : bytes) : list Z :=
  match p with
  | [] => tokenize_span glm v span
  | c :: r =>
      match strip_prefix end_tag p with
      | Some _ => tokenize_span glm v span ++ bpe_tokenize_text glm v (bs "&lt;") ++ wrapped_loop glm v end_tag [] r
      | None => wrapped_loop glm v end_tag (span ++ [c]) r
      end
  end.

Definition bpe_tokenize_wrapped_payload_text (glm : bool) (v : ds4_vocab) (content : option bytes) (end_tag : bytes) : list Z :=
  wrapped_loop glm v end_tag [] (text_or_empty content).

Definition bpe_tokenize_tool_result_text (glm : bool) (v : ds4_vocab) (content : option bytes) : list Z :=
  bpe_tokenize_wrapped_payload_text glm v content (bs "</tool_result>").

Definition bpe_tokenize_tool_response_text (glm : bool) (v : ds4_vocab) (content : option bytes) : list Z :=
  bpe_tokenize_wrapped_payload_text glm v content (bs "</tool_response>").

(** ** Chat prompts *)

Definition chat_push_bos_sequence (glm : bool) (v : ds4_vocab) : list Z :=
  [v_bos_id v] ++ (if glm && (0 <=? v_sop_id v) then [v_sop_id v] else []).

Definition chat_push_think_prefix (glm : bool) (v : ds4_vocab) (mode : ds4_think_mode) : list Z :=
  if glm then
    match ds4_glm_reasoning_effort_text mode with
    | Some effort => [v_system_id v] ++ bpe_tokenize_text glm v effort
    | None => []
    end
  else match mode with DS4_THINK_MAX => bpe_tokenize_text glm v ds4_think_max_prefix | _ => [] end.

(** [None] where the process ends because the markers are missing. *)
Definition encode_chat_prompt (glm : bool) (v : ds4_vocab) (system : option bytes) (prompt : bytes) (mode : ds4_think_mode) : option (list Z) :=
  let think := ds4_think_mode_enabled mode in
  let need_think_start := think || glm in
  if (v_bos_id v <? 0) || (v_user_id v <? 0) || (v_assistant_id v <? 0) || (v_think_end_id v <? 0)
     || (glm && (v_system_id v <? 0)) || (need_think_start && (v_think_start_id v <? 0)) then None
  else Some (
    chat_push_bos_sequence glm v ++ chat_push_think_prefix glm v mode
    ++ (if present system then (if glm then [v_system_id v] else []) ++ bpe_tokenize_text glm v (text_or_empty system) else [])
    ++ [v_user_id v] ++ bpe_tokenize_text glm v prompt ++ [v_assistant_id v]
    ++ (if think then [v_think_start_id v] else if glm then [v_think_start_id v; v_think_end_id v] else [v_think_end_id v])).

Definition ds4_chat_append_message (glm : bool) (v : ds4_vocab) (role content : option bytes) : list Z :=
  let role := match role with Some r => r | None => bs "user" end in
  let content := text_or_empty content in
  let role_is r := bytes_eqb role (bs r) in
  let thinks := text_starts_with_think_tag content in
  if glm then
    if role_is "system" || role_is "developer" then
      (if 0 <=? v_system_id v then [v_system_id v] else []) ++ tokenize_rendered_chat_vocab glm v (Some content)
    else if role_is "assistant" then
      [v_assistant_id v] ++ (if thinks then [] else [v_think_start_id v; v_think_end_id v]) ++ tokenize_rendered_chat_vocab glm v (Some content)
    else if role_is "tool" || role_is "function" then
      (if 0 <=? v_observation_id v then [v_observation_id v] else [])
      ++ tokenize_rendered_chat_vocab glm v (Some (bs "<tool_response>")) ++ bpe_tokenize_tool_response_text glm v (Some content)
      ++ tokenize_rendered_chat_vocab glm v (Some (bs "</tool_response>"))
    else [v_user_id v] ++ bpe_tokenize_text glm v content
  else
    if role_is "system" || role_is "developer" then bpe_tokenize_text glm v content
    else if role_is "assistant" then [v_assistant_id v] ++ (if thinks then [] else [v_think_end_id v]) ++ bpe_tokenize_text glm v content
    else if role_is "tool" || role_is "function" then
      [v_user_id v] ++ bpe_tokenize_text glm v (bs "<tool_result>") ++ bpe_tokenize_tool_result_text glm v (Some content)
      ++ bpe_tokenize_text glm v (bs "</tool_result>")
    else [v_user_id v] ++ bpe_tokenize_text glm v content.

Definition ds4_chat_append_assistant_prefix (glm : bool) (v : ds4_vocab) (mode : ds4_think_mode) : list Z :=
  [v_assistant_id v]
  ++ (if glm && negb (ds4_think_mode_enabled mode) then [v_think_start_id v; v_think_end_id v]
      else [if ds4_think_mode_enabled mode then v_think_start_id v else v_think_end_id v]).

(** ** The text of a token *)

(** A code point and how many bytes it takes. *)
Definition utf8_decode_one (s : bytes) : Z * nat :=
  let c := hd0 s in
  let len := length s in
  let b i := Z.land (nth i s 0) 0x3f in
  if (c <? 0x80) || (len <=? 1)%nat then (c, 1%nat)
  else if (Z.land c 0xe0 =? 0xc0) && (1 <? len)%nat then (Z.lor (Z.shiftl (Z.land c 0x1f) 6) (b 1%nat), 2%nat)
  else if (Z.land c 0xf0 =? 0xe0) && (2 <? len)%nat then
    (Z.lor (Z.lor (Z.shiftl (Z.land c 0x0f) 12) (Z.shiftl (b 1%nat) 6)) (b 2%nat), 3%nat)
  else if (Z.land c 0xf8 =? 0xf0) && (3 <? len)%nat then
    (Z.lor (Z.lor (Z.lor (Z.shiftl (Z.land c 0x07) 18) (Z.shiftl (b 1%nat) 12)) (Z.shiftl (b 2%nat) 6)) (b 3%nat), 4%nat)
  else (c, 1%nat).

Fixpoint byte_loop (bs : list Z) (cp n : Z) : option Z :=
  match bs with
  | [] => None
  | b :: r =>
      if gpt2_printable b then byte_loop r cp n
      else if cp =? 256 + n then Some b else byte_loop r cp (n + 1)
  end.

Definition gpt2_codepoint_to_byte (cp : Z) : option Z :=
  if ((33 <=? cp) && (cp <=? 126)) || ((161 <=? cp) && (cp <=? 172)) || ((174 <=? cp) && (cp <=? 255)) then Some cp
  else byte_loop all_bytes cp 0.

(** A token with a full-width bar is written as it is. *)
Fixpoint vocab_token_is_literal_special (s : bytes) : bool :=
  match s with
  | [] => false
  | _ :: r => match strip_prefix bar s with Some _ => true | None => vocab_token_is_literal_special r end
  end.

Fixpoint decode_loop (s : bytes) (skip : nat) : bytes :=
  match s with
  | [] => []
  | _ :: r =>
      match skip with
      | S k => decode_loop r k
      | O =>
          let '(cp, n) := utf8_decode_one s in
          (match gpt2_codepoint_to_byte cp with Some b => [b] | None => [] end) ++ decode_loop r (n - 1)
      end
  end.

Definition ds4_token_text (v : ds4_vocab) (token : Z) : bytes :=
  if (token <? 0) || (token >=? Z.of_nat (length (v_token v))) then []
  else
    let s := nth (Z.to_nat token) (v_token v) [] in
    if vocab_token_is_literal_special s then s else decode_loop s 0.

Definition vocab_token_is_generation_stop (glm : bool) (v : ds4_vocab) (token : Z) : bool :=
  if token <? 0 then false
  else (token =? v_eos_id v)
    || (glm && (((0 <=? v_system_id v) && (token =? v_system_id v)) || ((0 <=? v_user_id v) && (token =? v_user_id v))
        || ((0 <=? v_assistant_id v) && (token =? v_assistant_id v)) || ((0 <=? v_observation_id v) && (token =? v_observation_id v)))).

Definition ds4_token_is_thinking_control (v : ds4_vocab) (token : Z) : bool :=
  negb (token <? 0) && (((0 <=? v_think_start_id v) && (token =? v_think_start_id v)) || ((0 <=? v_think_end_id v) && (token =? v_think_end_id v))).

Definition ds4_token_is_stop_for_think_mode (glm : bool) (v : ds4_vocab) (token : Z) (mode : ds4_think_mode) : bool :=
  vocab_token_is_generation_stop glm v token || (negb (ds4_think_mode_enabled mode) && ds4_token_is_thinking_control v token).
