(* ===== verification/TokenizerProps.v ===== *)
(** * Properties of the tokenizer

    The pre-tokenizers cut a text into pieces that join to it, the merge loop of the
    byte pair encoding ends in a list of symbols that no merge rule applies to, and the
    texts of the tokens of a text join to the text. *)
From S2P Require Import Prelude CLib Json Stream Dsml DsmlText Request Prompt Gguf StrTable Tokenizer.

(** ** Pieces *)

Lemma char_len_range s : s ≠ [] → (1 <= char_len s <= length s)%nat.
Proof.
  destruct s as [|c s]; [done|]. intros _. unfold char_len. set (n := utf8_len_from_first_byte _).
  assert (1 <= n)%nat by (unfold n, utf8_len_from_first_byte; repeat case_if; lia). destruct (Nat.ltb_spec (length (c :: s)) n); cbn [length] in *; lia.
Qed.

Lemma scan_chars_le P s : ∀ k, (scan_chars P s k <= length s)%nat.
Proof. induction s as [|c s IH]; intros k; [done|]. cbn [scan_chars length]. destruct k; [case_if; [|lia]|]; apply le_n_S, IH. Qed.

Lemma scan_chars_pos P s : s ≠ [] → P s = true → (1 <= scan_chars P s 0)%nat.
Proof. destruct s; [done|]. intros _ H. cbn [scan_chars]. rewrite H. lia. Qed.

Lemma count_while_le P s : (count_while P s <= length s)%nat.
Proof. induction s as [|c s IH]; [done|]. cbn [count_while length]. case_if; lia. Qed.

Lemma count_while_pos P s : s ≠ [] → P (hd0 s) = true → (1 <= count_while P s)%nat.
Proof. destruct s; [done|]. cbn. intros _ ->. lia. Qed.

Lemma digit_run_le n s : (digit_run n s <= length s)%nat.
Proof. revert s. induction n as [|n IH]; intros [|c s]; cbn [digit_run length]; try lia. case_if; [|lia]. apply le_n_S, IH. Qed.

Lemma last_newline_range s : ∀ i l e, last_newline_end s i l = Some e → l = Some e ∨ (i < e <= i + length s)%nat.
Proof.
  induction s as [|c s IH]; intros i l e; cbn [last_newline_end length]; [by left|]. case_if; [|by left].
  intros H%IH. destruct H as [H|H]; [|right; lia]. destruct (ascii_newline c); [|by left]. injection H as <-. right. lia.
Qed.

Lemma punct_run_range s k : (k <= length s)%nat → (k <= punct_run s k <= length s)%nat.
Proof.
  intros Hk. unfold punct_run. set (a := count_while joyai_ascii_punct_symbol (drop k s)).
  assert (a <= length s - k)%nat by (unfold a; rewrite <- length_drop; apply count_while_le).
  set (b := count_while ascii_newline (drop (k + a) s)).
  assert (b <= length s - (k + a))%nat by (unfold b; rewrite <- length_drop; apply count_while_le). lia.
Qed.

(** [drop n s] keeps at most the rest. *)
Lemma scan_drop_le P n s k : (n <= length s)%nat → (n + scan_chars P (drop n s) k <= length s)%nat.
Proof. intros Hn. pose proof (scan_chars_le P (drop n s) k). rewrite length_drop in *. lia. Qed.

(** A piece is not empty and stays within the text. *)
Definition piece_ok (piece : bytes → nat) : Prop := ∀ s, s ≠ [] → (1 <= piece s <= length s)%nat.

Lemma at_least_one s n : s ≠ [] → (n <= length s)%nat → (1 <= (if n =? 0 then char_len s else n) <= length s)%nat.
Proof. intros Hs Hn. pose proof (char_len_range s Hs). destruct (Nat.eqb_spec n 0); lia. Qed.

Lemma joyai_piece_ok : piece_ok joyai_piece.
Proof.
  intros s Hs. unfold joyai_piece. apply at_least_one; [done|]. pose proof (char_len_range s Hs) as Hc.
  assert (H1 : (1 <= length s)%nat) by lia.
  pose proof (punct_run_range s 1 H1). pose proof (punct_run_range s 0 ltac:(lia)). pose proof (count_while_le ascii_space s).
  pose proof (digit_run_le 3 s). pose proof (scan_chars_le joyai_cjk_at s 0). pose proof (scan_chars_le joyai_letter_like_at s 0).
  pose proof (count_while_le ascii_alpha (drop 1 s)). pose proof (scan_drop_le joyai_letter_like_at 1 s 0 H1). rewrite length_drop in *.
  unfold joyai_consume_letters. repeat (case_if; [lia|]). case_if; [|lia].
  destruct (last_newline_end s 0 None) as [e|] eqn:El; [|case_if; lia]. apply last_newline_range in El as [?|?]; [done|lia].
Qed.

Lemma char_at_len s : s ≠ [] → gi_len (glm4_char_at s) = char_len s.
Proof. by destruct s. Qed.

Lemma char_at_drop s n : (n < length s)%nat → (1 <= gi_len (glm4_char_at (drop n s)) <= length s - n)%nat.
Proof.
  intros Hn. assert (drop n s ≠ []) as Hd by (intros H%(f_equal length); rewrite length_drop in H; simpl in H; lia).
  rewrite char_at_len by done. rewrite <- length_drop. by apply char_len_range.
Qed.

Lemma contraction_range s n : s ≠ [] → glm4_contraction s = Some n → (1 <= n <= length s)%nat.
Proof.
  intros Hs. unfold glm4_contraction. pose proof (char_at_len s Hs) as El. pose proof (char_len_range s Hs) as Hc. rewrite El.
  case_if; [|done]. apply andb_prop in E as [_ Hlt%Nat.ltb_lt]. pose proof (char_at_drop s (char_len s) Hlt) as H1.
  case_if; [intros [= <-]; lia|]. destruct (_ && (_ <? _)%nat) eqn:Ev; [|done]. apply andb_prop in Ev as [_ Hlt2%Nat.ltb_lt]. rewrite length_drop in Hlt2. rewrite drop_drop in *.
  pose proof (char_at_drop s (char_len s + gi_len (glm4_char_at (drop (char_len s) s))) ltac:(lia)) as H2. case_if; [|done].
  intros [= <-]. lia.
Qed.

Lemma number_run_le s : ∀ n k, (number_run n s k <= length s)%nat.
Proof.
  induction s as [|c s IH]; intros n k; [done|]. cbn [number_run length]. destruct k; [|apply le_n_S, IH].
  destruct n; [lia|]. case_if; [|lia]. apply le_n_S, IH.
Qed.

(** The white space from [p] on, with the character at [last] the one before. *)
Lemma space_run_range s : ∀ k p nl last n, (k <= length s)%nat →
  let '(p', nl', last', n') := glm4_space_run s k p nl last n in
  (p + k <= p' <= p + length s)%nat ∧ (nl' = nl ∨ ∃ e, nl' = Some e ∧ (p + k < e <= p + length s)%nat) ∧ (n <= n')%nat
  ∧ (n' = n ∧ last' = last ∧ p' = (p + k)%nat ∨ (n < n')%nat ∧ (p + k <= last')%nat ∧ (last' < p')%nat ∧ ((S n < n')%nat → (p + k < last')%nat)).
Proof.
  induction s as [|c s IH]; intros k p nl last n Hk; cbn [glm4_space_run].
  - cbn [length] in *. split_and!; try lia; by left.
  - destruct k as [|k].
    + case_if; [|cbn [length]; split_and!; try lia; by left].
      pose proof (char_len_range (c :: s) ltac:(done)) as Hc. pose proof (char_at_len (c :: s) ltac:(done)) as El. rewrite El.
      specialize (IH (char_len (c :: s) - 1)%nat (S p) (if is_cr_lf (glm4_char_at (c :: s)) then Some (p + char_len (c :: s))%nat else nl) p (S n)
        ltac:(cbn [length] in *; lia)).
      destruct (glm4_space_run s _ _ _ _ _) as [[[p' nl'] last'] n']. destruct IH as (H1 & H2 & H3 & H4). cbn [length] in *. split_and!; try lia.
      destruct H2 as [->|(e & -> & ?)]; [|right; exists e; split; [done|lia]].
      destruct (is_cr_lf _); [|by left]. right. eexists. split; [done|]. lia.
    + cbn [length] in *. specialize (IH k (S p) nl last n ltac:(lia)). destruct (glm4_space_run s _ _ _ _ _) as [[[p' nl'] last'] n'].
      destruct IH as (H1 & H2 & H3 & H4). split_and!; try lia. destruct H2 as [->|(e & -> & ?)]; [by left|]. right. exists e. split; [done|lia].
Qed.

Lemma space_run_step c s : gi_whitespace (glm4_char_at (c :: s)) = true →
  ∃ p nl last n, glm4_space_run (c :: s) 0 0 None 0 0 = (p, nl, last, n) ∧ (1 <= p <= length (c :: s))%nat
    ∧ (∀ e, nl = Some e → 1 <= e <= length (c :: s))%nat ∧ ((1 < n)%nat → (1 <= last <= length (c :: s))%nat).
Proof.
  intros Hw. pose proof (space_run_range (c :: s) 0 0 None 0 0 ltac:(lia)) as H.
  destruct (glm4_space_run (c :: s) 0 0 None 0 0) as [[[p nl] last] n] eqn:Er. destruct H as (H1 & H2 & H3 & H4). exists p, nl, last, n.
  assert (n ≠ 0)%nat as Hn.
  { cbn [glm4_space_run] in Er. rewrite Hw in Er. pose proof (char_len_range (c :: s) ltac:(done)) as Hc.
    match type of Er with glm4_space_run s ?k ?p ?nl ?l ?n = _ => pose proof (space_run_range s k p nl l n ltac:(cbn [length] in *; lia)) as H end.
    rewrite Er in H. destruct H as (_ & _ & H & _). lia. }
  split_and!; [done|lia|lia| |].
  - intros e ->. destruct H2 as [?|(e' & [= <-] & ?)]; [done|lia].
  - intros Hn1. destruct H4 as [?|(? & ? & ? & H4)]; [lia|]. specialize (H4 Hn1). lia.
Qed.

Lemma glm4_piece_ok : piece_ok glm4_piece.
Proof.
  intros s Hs. unfold glm4_piece. destruct (glm4_contraction s) as [n|] eqn:Ec; [by apply contraction_range|].
  rewrite (char_at_len s Hs). pose proof (char_len_range s Hs) as Hc.
  pose proof (scan_drop_le (λ t, gi_letter (glm4_char_at t)) (char_len s) s 0 ltac:(lia)).
  case_if; [lia|]. destruct (gi_number (glm4_char_at s)) eqn:En.
  { pose proof (number_run_le s 3 0). destruct s; [done|]. cbn [number_run] in *. rewrite En in *. lia. }
  set (k := if gi_cp (glm4_char_at s) =? 32 then char_len s else 0%nat). set (punct := if gi_cp (glm4_char_at s) =? 32 then _ else _).
  destruct (gi_valid punct && is_other punct) eqn:Ep.
  { set (a := scan_chars (λ t, is_other (glm4_char_at t)) (drop k s) 0).
    assert (k <= length s)%nat as Hk by (unfold k; case_if; lia). pose proof (scan_drop_le (λ t, is_other (glm4_char_at t)) k s 0 Hk) as Ha. fold a in Ha.
    pose proof (scan_drop_le (λ t, is_cr_lf (glm4_char_at t)) (k + a) s 0 Ha) as Hb. split; [|exact Hb].
    unfold k, a, punct, k in *. destruct (gi_cp (glm4_char_at s) =? 32); [lia|]. apply andb_prop in Ep as [_ Ep].
    pose proof (scan_chars_pos (λ t, is_other (glm4_char_at t)) s Hs Ep). rewrite drop_0. lia. }
  destruct (gi_whitespace (glm4_char_at s)) eqn:Ew; [|case_if; lia].
  destruct s as [|c s]; [done|]. destruct (space_run_step c s Ew) as (p & nl & last & n & -> & Hp & He & Hl).
  destruct nl as [e|]; [by apply He|]. destruct ((1 <? n)%nat && _) eqn:En1; [|lia]. apply Hl. by apply andb_prop in En1 as [?%Nat.ltb_lt _].
Qed.

Lemma split_pieces_spec piece : piece_ok piece → ∀ s k, (k <= length s)%nat →
  concat (split_pieces piece s k) = drop k s ∧ Forall (λ p, p ≠ []) (split_pieces piece s k).
Proof.
  intros Hp. induction s as [|c s IH]; intros k Hk; cbn [split_pieces]; [by rewrite drop_nil; split|].
  destruct k as [|k]; [|cbn [drop length] in *; apply IH; lia].
  destruct (Hp (c :: s) ltac:(done)) as [H1 H2]. destruct (piece (c :: s)) as [|n]; [lia|]. cbn [take concat length] in *.
  rewrite Nat.sub_succ, Nat.sub_0_r. destruct (IH n ltac:(lia)) as [E F]. rewrite E. split; [|by constructor]. cbn. by rewrite take_drop.
Qed.

Lemma pieces_ok (glm : bool) : piece_ok (if glm then glm4_piece else joyai_piece).
Proof. destruct glm; [apply glm4_piece_ok|apply joyai_piece_ok]. Qed.

Lemma pre_tokenize_concat glm text : concat (pre_tokenize glm text) = text.
Proof. apply (split_pieces_spec _ (pieces_ok glm) text 0 (le_0_n _)). Qed.

(** Both pre-tokenizers cut a text into pieces that are not empty, stay within the
    text and join to it, so that their loops end after as many steps as pieces. *)
Theorem pre_tokenize_partition glm text :
  concat (pre_tokenize glm text) = text ∧ Forall (λ p, p ≠ []) (pre_tokenize glm text)
  ∧ ∀ s, s ≠ [] → (1 <= glm4_piece s <= length s)%nat ∧ (1 <= joyai_piece s <= length s)%nat.
Proof.
  split_and!; [apply pre_tokenize_concat|apply (split_pieces_spec _ (pieces_ok glm) text 0 (le_0_n _))|].
  intros s Hs. split; [by apply glm4_piece_ok|by apply joyai_piece_ok].
Qed.

(** ** Bytes as printable characters *)

(** The character of a byte. *)
Definition enc (b : Z) : bytes := engine_utf8_put (gpt2_byte_to_codepoint b).

(** What every byte satisfies, checked on the 256 bytes. *)
Lemma all_bytes_check (f : Z → bool) : forallb f all_bytes = true → ∀ b, is_u8 b → f b = true.
Proof.
  intros H b Hb. eapply forallb_forall; [exact H|]. apply list_elem_of_In. unfold all_bytes. apply list_elem_of_fmap.
  exists (Z.to_nat b). unfold is_u8 in Hb. split; [lia|]. apply elem_of_seq. lia.
Qed.

(** One byte below 0x80, or a lead byte of two with its continuation. *)
Definition short_char (x : bytes) : bool :=
  match x with
  | [c] => (0 <=? c) && (c <? 0x80)
  | [c; d] => (0xc0 <=? c) && (c <? 0xe0) && (Z.land c 0xe0 =? 0xc0) && (0x80 <=? d) && (d <? 0xc0)
  | _ => false
  end.

Lemma enc_short b : is_u8 b → short_char (enc b) = true.
Proof. apply (all_bytes_check (λ b, short_char (enc b))). vm_compute. reflexivity. Qed.

Lemma enc_decode b : is_u8 b → gpt2_codepoint_to_byte (utf8_decode_one (enc b)).1 = Some b.
Proof.
  intros Hb. assert ((λ b, bool_decide (gpt2_codepoint_to_byte (utf8_decode_one (enc b)).1 = Some b)) b = true) as H; [|by apply bool_decide_eq_true in H].
  revert b Hb. apply all_bytes_check. vm_compute. reflexivity.
Qed.

Lemma enc_cases b : is_u8 b → (∃ c, enc b = [c] ∧ 0 <= c < 0x80) ∨ (∃ c d, enc b = [c; d] ∧ 0xc0 <= c < 0xe0 ∧ Z.land c 0xe0 = 0xc0 ∧ 0x80 <= d < 0xc0).
Proof.
  intros H%enc_short. destruct (enc b) as [|c [|d [|? ?]]]; try done; cbn [short_char] in H; bool_to_prop; [left; by exists c|right; by exists c, d].
Qed.

Lemma byte_encode_cons b xs : byte_encode (b :: xs) = enc b ++ byte_encode xs.
Proof. done. Qed.

Lemma byte_encode_app xs ys : byte_encode (xs ++ ys) = byte_encode xs ++ byte_encode ys.
Proof. unfold byte_encode. by rewrite fmap_app, concat_app. Qed.

(** The first character of an encoded text: a byte of the text, in its length and in
    its value. *)
Lemma char_len_enc b r : is_u8 b → char_len (enc b ++ r) = length (enc b).
Proof.
  intros [(c & -> & Hc)|(c & d & -> & Hc & Hl & _)]%enc_cases; unfold char_len, utf8_len_from_first_byte; cbn [app hd0 length].
  - assert ((c <? 0x80) = true) as -> by lia. done.
  - assert ((c <? 0x80) = false) as -> by lia. by rewrite Hl.
Qed.

Lemma decode_enc b r : is_u8 b → utf8_decode_one (enc b ++ r) = ((utf8_decode_one (enc b)).1, length (enc b)).
Proof.
  intros [(c & -> & Hc)|(c & d & -> & Hc & Hl & _)]%enc_cases; unfold utf8_decode_one; cbn [app hd0 length].
  - assert ((c <? 0x80) = true) as -> by lia. done.
  - assert ((c <? 0x80) = false) as -> by lia. by rewrite Hl.
Qed.

Lemma decode_loop_skip x r : decode_loop (x ++ r) (length x) = decode_loop r 0.
Proof. induction x as [|c x IH]; [done|]. exact IH. Qed.

Lemma decode_encode xs : is_bytes xs → decode_loop (byte_encode xs) 0 = xs.
Proof.
  induction 1 as [|b xs Hb _ IH]; [done|]. rewrite byte_encode_cons. pose proof (decode_enc b (byte_encode xs) Hb) as E.
  pose proof (enc_decode b Hb) as Ed. pose proof (enc_cases b Hb) as Hc. destruct (enc b) as [|c x] eqn:Eb; [destruct Hc as [(? & ? & _)|(? & ? & ? & _)]; done|].
  cbn [app decode_loop length] in *. rewrite E, Ed, Nat.sub_succ, Nat.sub_0_r, decode_loop_skip, IH. done.
Qed.

Lemma byte_encode_low xs : is_bytes xs → Forall (λ c, c < 0xe0) (byte_encode xs).
Proof.
  induction 1 as [|b xs Hb _ IH]; [constructor|]. rewrite byte_encode_cons. apply Forall_app. split; [|done].
  destruct (enc_cases b Hb) as [(c & -> & ?)|(c & d & -> & ? & _ & ?)]; repeat constructor; lia.
Qed.

Lemma low_not_literal s : Forall (λ c, c < 0xe0) s → vocab_token_is_literal_special s = false.
Proof.
  induction 1 as [|c s Hc _ IH]; [done|]. cbn [vocab_token_is_literal_special]. destruct (strip_prefix bar (c :: s)) as [r|] eqn:E; [|done].
  apply strip_prefix_Some in E. injection E as -> _. lia.
Qed.

(** ** Symbols *)

Lemma symbols_skip x r cur : symbols_loop (x ++ r) (length x) cur = symbols_loop r 0 (cur ++ x).
Proof. revert cur. induction x as [|c x IH]; intros cur; cbn [app symbols_loop length]; [by rewrite app_nil_r|]. by rewrite IH, <- app_assoc. Qed.

Lemma symbols_encode xs : is_bytes xs → ∀ cur, symbols_loop (byte_encode xs) 0 cur = (match cur with [] => [] | _ => [cur] end) ++ (enc <$> xs).
Proof.
  induction 1 as [|b xs Hb _ IH]; intros cur; [by rewrite app_nil_r|]. rewrite byte_encode_cons. pose proof (char_len_enc b (byte_encode xs) Hb) as E.
  pose proof (enc_cases b Hb) as Hc. destruct (enc b) as [|c x] eqn:Eb; [destruct Hc as [(? & ? & _)|(? & ? & ? & _)]; done|].
  cbn [app symbols_loop length] in *. rewrite E, Nat.sub_succ, Nat.sub_0_r, symbols_skip, IH. cbn [app fmap list_fmap]. by rewrite Eb.
Qed.

Lemma bpe_symbols_encode xs : is_bytes xs → bpe_symbols (byte_encode xs) = enc <$> xs.
Proof. intros H. apply (symbols_encode xs H []). Qed.

(** ** The merge loop *)

(** [a] and [b] are next to each other at place [i]. *)
Definition adjacent (syms : list bytes) (i : nat) (a b : bytes) : Prop := syms !! i = Some a ∧ syms !! S i = Some b.

(** A merge of byte pair encoding: the leftmost pair of the lowest rank is joined. *)
Inductive bpe_step (v : ds4_vocab) (syms : list bytes) : list bytes → Prop :=
  | merge_step i a b :
      adjacent syms i a b → 0 <= bpe_rank v a b < INT_MAX →
      (∀ j c d, adjacent syms j c d → 0 <= bpe_rank v c d →
        bpe_rank v a b <= bpe_rank v c d ∧ ((j < i)%nat → bpe_rank v a b < bpe_rank v c d)) →
      bpe_step v syms (take i syms ++ [a ++ b] ++ drop (S (S i)) syms).

Lemma adjacent_S x syms i a b : adjacent (x :: syms) (S i) a b ↔ adjacent syms i a b.
Proof. done. Qed.

Lemma adjacent_lt syms i a b : adjacent syms i a b → (S i < length syms)%nat.
Proof. intros [_ H]. by apply lookup_lt_Some in H. Qed.

Lemma best_pair_cons v x y syms i best br : best_pair v (x :: y :: syms) i best br =
  (if (0 <=? bpe_rank v x y) && (bpe_rank v x y <? br) then best_pair v (y :: syms) (S i) (Some i) (bpe_rank v x y)
   else best_pair v (y :: syms) (S i) best br).
Proof. done. Qed.

(** The pair that [best_pair] gives for [syms], which stands at [i0]: the one found
    before when no pair here has a lower rank. *)
Lemma best_pair_spec v syms : ∀ i0 best br,
  (best_pair v syms i0 best br = best ∧ ∀ j c d, adjacent syms j c d → 0 <= bpe_rank v c d → br <= bpe_rank v c d)
  ∨ ∃ i a b, best_pair v syms i0 best br = Some (i0 + i)%nat ∧ adjacent syms i a b ∧ 0 <= bpe_rank v a b < br
      ∧ ∀ j c d, adjacent syms j c d → 0 <= bpe_rank v c d → bpe_rank v a b <= bpe_rank v c d ∧ ((j < i)%nat → bpe_rank v a b < bpe_rank v c d).
Proof.
  induction syms as [|x syms IH]; intros i0 best br; [left; split; [done|]; by intros j c d [? _]|].
  destruct syms as [|y syms]; [left; split; [done|]; intros j c d H%adjacent_lt; simpl in H; lia|].
  rewrite best_pair_cons. destruct ((0 <=? bpe_rank v x y) && (bpe_rank v x y <? br)) eqn:E.
  - bool_to_prop. right. destruct (IH (S i0) (Some i0) (bpe_rank v x y)) as [[-> Hmin]|(i & a & b & -> & Ha & Hr & Hmin)].
    + exists 0%nat, x, y. split_and!; [by rewrite Nat.add_0_r|done|first [done|lia]|lia|]. intros [|j] c d Hj Hc; [|split; [by eapply Hmin|intros; lia]].
      destruct Hj as [[= ->] [= ->]]. split; [|intros]; lia.
    + exists (S i), a, b. split_and!; [f_equal; lia|done|lia|lia|]. intros [|j] c d Hj Hc.
      * destruct Hj as [[= ->] [= ->]]. split; [|intros _]; lia.
      * destruct (Hmin j c d Hj Hc). split; [done|]. intros. auto with lia.
  - assert (0 <= bpe_rank v x y → br <= bpe_rank v x y) as Hxy by (intros; apply andb_false_iff in E as [?|?]; bool_to_prop; lia).
    destruct (IH (S i0) best br) as [[-> Hmin]|(i & a & b & -> & Ha & Hr & Hmin)].
    + left. split; [done|]. intros [|j] c d Hj Hc; [destruct Hj as [[= ->] [= ->]]; by apply Hxy|by eapply Hmin].
    + right. exists (S i), a, b. split_and!; [f_equal; lia|done|lia|lia|]. intros [|j] c d Hj Hc.
      * destruct Hj as [[= ->] [= ->]]. specialize (Hxy Hc). split; [|intros _]; lia.
      * destruct (Hmin j c d Hj Hc). split; [done|]. intros. auto with lia.
Qed.

Lemma best_pair_none v syms : best_pair v syms 0 None INT_MAX = None → ∀ out, ¬ bpe_step v syms out.
Proof.
  intros H out [i a b Ha Hr _]. destruct (best_pair_spec v syms 0 None INT_MAX) as [[_ Hmin]|(i' & a' & b' & E & _)]; [|congruence].
  specialize (Hmin i a b Ha). lia.
Qed.

Lemma best_pair_step v syms i : best_pair v syms 0 None INT_MAX = Some i → bpe_step v syms (merge_at syms i) ∧ length (merge_at syms i) = pred (length syms).
Proof.
  intros H. destruct (best_pair_spec v syms 0 None INT_MAX) as [[E _]|(i' & a & b & E & Ha & Hr & Hmin)]; [congruence|].
  assert (i' = i) as -> by (rewrite E in H; by injection H). pose proof (adjacent_lt _ _ _ _ Ha) as Hl. unfold merge_at.
  pose proof Ha as [H1 H2]. rewrite (nth_lookup_Some _ _ [] _ H1), (nth_lookup_Some _ _ [] _ H2). split; [by constructor|].
  rewrite !length_app, length_take, length_drop. cbn [length]. lia.
Qed.

Lemma bpe_step_det v syms x y : bpe_step v syms x → bpe_step v syms y → x = y.
Proof.
  intros [i a b Ha Hr Hm] [j c d Hc Hs Hn]. destruct (Hm _ _ _ Hc ltac:(lia)) as [H1 H2]. destruct (Hn _ _ _ Ha ltac:(lia)) as [H3 H4].
  assert (i = j) as -> by (destruct (Nat.lt_trichotomy i j) as [?|[?|?]]; [lia|done|lia]). destruct Ha as [Ha1 Ha2], Hc as [Hc1 Hc2]. by simplify_eq.
Qed.

Lemma bpe_merge_normal v fuel : ∀ syms, (length syms <= fuel)%nat →
  ∃ out, bpe_merge fuel v syms = Some out ∧ rtc (bpe_step v) syms out ∧ ∀ y, ¬ bpe_step v out y.
Proof.
  induction fuel as [|fuel IH]; intros syms Hf; cbn [bpe_merge]; destruct (best_pair v syms 0 None INT_MAX) as [i|] eqn:E.
  - exfalso. destruct syms; [done|simpl in Hf; lia].
  - exists syms. split_and!; [done|done|by apply best_pair_none].
  - apply best_pair_step in E as [Hs Hl]. destruct (IH (merge_at syms i)) as (out & -> & Hr & Hn); [lia|]. exists out. split_and!; [done|by eapply rtc_l|done].
  - exists syms. split_and!; [done|done|by apply best_pair_none].
Qed.

Lemma normal_form_unique v syms out : rtc (bpe_step v) syms out → (∀ y, ¬ bpe_step v out y) →
  ∀ z, rtc (bpe_step v) syms z → (∀ y, ¬ bpe_step v z y) → z = out.
Proof.
  intros H Hn. induction H as [x|x y out Hxy _ IH]; intros z Hz Hnz.
  - destruct Hz as [|x y z Hxy _]; [done|]. by destruct (Hn y).
  - destruct Hz as [|x y' z Hxy' Hz]; [by destruct (Hnz y)|]. rewrite (bpe_step_det _ _ _ _ Hxy' Hxy) in Hz. by apply IH.
Qed.

(** C35. The merge loop of the byte pair encoding ends, and gives the one list of symbols
    that merging again and again the leftmost pair of the lowest rank leads to and
    that no merge applies to. *)
Theorem bpe_merge_refines v syms :
  ∃ out, bpe_merge (length syms) v syms = Some out
    ∧ ∀ z, rtc (bpe_step v) syms z ∧ (∀ y, ¬ bpe_step v z y) ↔ z = out.
Proof.
  destruct (bpe_merge_normal v (length syms) syms) as (out & E & Hr & Hn); [done|]. exists out. split; [done|]. intros z. split.
  - intros [Hz Hnz]. by eapply normal_form_unique.
  - by intros ->.
Qed.

(** ** Tokens and their texts *)

(** What the tokenizer relies on: a token is found by its string, every byte has a
    token, and what a merge rule gives is a token. *)
Record vocab_ok (v : ds4_vocab) : Prop := {
  vo_find : ∀ key id, table_find (v_token_to_id v) key = Some id → 0 <= id ∧ v_token v !! Z.to_nat id = Some key;
  vo_bytes : ∀ b, is_u8 b → is_Some (table_find (v_token_to_id v) (enc b));
  vo_merges : ∀ a b, 0 <= bpe_rank v a b < INT_MAX → is_Some (table_find (v_token_to_id v) (a ++ b));
}.

(** The text of a list of tokens. *)
Definition tokens_text (v : ds4_vocab) (tokens : list Z) : bytes := concat (ds4_token_text v <$> tokens).

Lemma tokens_text_app v a b : tokens_text v (a ++ b) = tokens_text v a ++ tokens_text v b.
Proof. unfold tokens_text. by rewrite fmap_app, concat_app. Qed.

Lemma tokens_text_cons v t l : tokens_text v (t :: l) = ds4_token_text v t ++ tokens_text v l.
Proof. done. Qed.

Lemma token_text_lookup v id s : 0 <= id → v_token v !! Z.to_nat id = Some s →
  ds4_token_text v id = (if vocab_token_is_literal_special s then s else decode_loop s 0).
Proof.
  intros Hid Hs. unfold ds4_token_text. pose proof (lookup_lt_Some _ _ _ Hs). rewrite Z.geb_leb.
  assert ((id <? 0) || (Z.of_nat (length (v_token v)) <=? id) = false) as -> by (apply orb_false_iff; split; lia).
  by rewrite (nth_lookup_Some _ _ [] _ Hs).
Qed.

(** The symbols of a piece: the characters of parts of it, each of them a token. *)
Definition symbols_of (v : ds4_vocab) (piece : bytes) (syms : list bytes) : Prop :=
  ∃ xss, syms = byte_encode <$> xss ∧ concat xss = piece ∧ Forall (λ s, is_Some (table_find (v_token_to_id v) s)) syms.

Section vocabulary.
Context (v : ds4_vocab) (Hv : vocab_ok v).

Lemma step_symbols piece syms out : bpe_step v syms out → symbols_of v piece syms → symbols_of v piece out.
Proof.
  intros [i a b [Ha Hb] Hr _] (xss & -> & Hc & Hf).
  apply list_lookup_fmap_Some in Ha as (xa & -> & Ha). apply list_lookup_fmap_Some in Hb as (xb & -> & Hb).
  pose proof (take_drop_middle _ _ _ Ha) as E1. rewrite (drop_S _ _ _ Hb) in E1.
  exists (take i xss ++ [xa ++ xb] ++ drop (S (S i)) xss). split_and!.
  - rewrite !fmap_app, fmap_take, fmap_drop. cbn [fmap list_fmap]. by rewrite byte_encode_app.
  - rewrite <- Hc. rewrite <- E1 at 3. rewrite !concat_app. cbn [concat app]. by rewrite !app_nil_r, <- app_assoc.
  - apply Forall_app. split; [by apply Forall_take|]. apply Forall_app. split; [|by apply Forall_drop].
    repeat constructor. by apply (vo_merges v Hv).
Qed.

Lemma steps_symbols piece syms out : rtc (bpe_step v) syms out → symbols_of v piece syms → symbols_of v piece out.
Proof. induction 1 as [|x y z Hs _ IH]; [done|]. intros H. apply IH. by eapply step_symbols. Qed.

Lemma symbol_text xs : is_bytes xs → is_Some (table_find (v_token_to_id v) (byte_encode xs)) → tokens_text v (symbol_tokens v (byte_encode xs)) = xs.
Proof.
  intros Hxs [id Hid]. unfold symbol_tokens. rewrite Hid. destruct (vo_find v Hv _ _ Hid) as [H0 Hl].
  unfold tokens_text. cbn. rewrite app_nil_r, (token_text_lookup v id _ H0 Hl).
  by rewrite low_not_literal, decode_encode by (try apply byte_encode_low; done).
Qed.

Lemma symbols_text piece syms : is_bytes piece → symbols_of v piece syms → tokens_text v (concat (symbol_tokens v <$> syms)) = piece.
Proof.
  intros Hp (xss & -> & <- & Hf). induction xss as [|xs xss IH]; [done|]. cbn [fmap list_fmap concat] in *. apply Forall_cons in Hf as [Hx Hf].
  apply Forall_app in Hp as [H1 H2]. rewrite tokens_text_app, symbol_text by done. f_equal. by apply IH.
Qed.

Lemma piece_text piece : is_bytes piece → tokens_text v (bpe_emit_piece v piece) = piece.
Proof.
  intros Hp. unfold bpe_emit_piece. rewrite bpe_symbols_encode by done.
  destruct (bpe_merge_normal v (length (enc <$> piece)) (enc <$> piece)) as (out & -> & Hr & _); [done|]. cbn [default].
  apply symbols_text; [done|]. eapply steps_symbols; [done|]. exists ((λ b, [b]) <$> piece). split_and!.
  - rewrite <- list_fmap_compose. apply list_fmap_ext. intros i b _. unfold byte_encode. cbn. by rewrite app_nil_r.
  - clear. induction piece as [|b l IH]; [done|]. cbn. by f_equal.
  - apply Forall_fmap, (Forall_impl is_u8); [done|]. apply (vo_bytes v Hv).
Qed.

Lemma pieces_text pieces : is_bytes (concat pieces) → tokens_text v (concat (bpe_emit_piece v <$> pieces)) = concat pieces.
Proof.
  induction pieces as [|p ps IH]; [done|]. cbn [concat fmap list_fmap]. intros [H1 H2]%Forall_app. rewrite tokens_text_app, piece_text by done. f_equal. by apply IH.
Qed.

Lemma text_tokens_text glm text : is_bytes text → tokens_text v (bpe_tokenize_text glm v text) = text.
Proof. intros H. unfold bpe_tokenize_text. rewrite pieces_text, pre_tokenize_concat; [done..|by rewrite pre_tokenize_concat]. Qed.

Lemma span_text glm span : is_bytes span → tokens_text v (tokenize_span glm v span) = span.
Proof. destruct span; [done|]. apply text_tokens_text. Qed.
End vocabulary.

(** ** Rendered conversations and tool output *)

(** [s] occurs nowhere in [text]. *)
Definition absent (s text : bytes) : Prop := ∀ pre post, text ≠ pre ++ s ++ post.

Lemma absent_suffix s a b : absent s (a ++ b) → absent s b.
Proof. intros H pre post ->. apply (H (a ++ pre) post). by rewrite <- app_assoc. Qed.

(** Every special string of the text is the text of its token. *)
Definition specials_ok (v : ds4_vocab) (text : bytes) : Prop :=
  ∀ s id, (s, id) ∈ specials v → 0 <= id → ds4_token_text v id = s ∨ absent s text.

Lemma specials_ok_suffix v a b : specials_ok v (a ++ b) → specials_ok v b.
Proof. intros H s id Hs Hid. destruct (H s id Hs Hid) as [?|?%absent_suffix]; auto. Qed.

Lemma specials_nonempty v s id : (s, id) ∈ specials v → s ≠ [].
Proof. unfold specials. intros H. repeat (apply elem_of_cons in H as [[= -> _]|H]; [done|]). by apply elem_of_nil in H. Qed.

Lemma special_token_spec v p token len : special_token_at v p = Some (token, len) →
  ∃ s r, (s, token) ∈ specials v ∧ 0 <= token ∧ p = s ++ r ∧ len = length s ∧ s ≠ [].
Proof.
  unfold special_token_at. destruct (List.find _ (specials v)) as [[s id]|] eqn:E; [|done]. intros [= <- <-].
  apply find_some in E as [Hin Hp]. apply list_elem_of_In in Hin. cbn in Hp. apply andb_prop in Hp as [Hid Hp]. bool_to_prop.
  destruct (strip_prefix s p) as [r|] eqn:Es; [|done]. apply strip_prefix_Some in Es. exists s, r.
  split_and!; [done|done|done|done|by eapply specials_nonempty].
Qed.

Lemma rendered_skip glm v x : ∀ r, rendered_loop glm v [] (x ++ r) (length x) = rendered_loop glm v [] r 0.
Proof. induction x as [|c x IH]; intros r; [done|]. exact (IH r). Qed.

Lemma rendered_text glm v (Hv : vocab_ok v) n : ∀ p span, (length p <= n)%nat → is_bytes p → is_bytes span → specials_ok v p →
  tokens_text v (rendered_loop glm v span p 0) = span ++ p.
Proof.
  induction n as [|n IH]; intros [|c p] span Hn Hp Hs Hok; cbn [rendered_loop]; try (simpl in Hn; lia);
    try (by rewrite app_nil_r; apply span_text).
  destruct (special_token_at v (c :: p)) as [[token len]|] eqn:E.
  - apply special_token_spec in E as (s & r & Hin & Hid & Ep & -> & Hne). destruct s as [|c' s]; [done|]. injection Ep as <- ->.
    rewrite !tokens_text_app, (span_text v Hv) by done. f_equal. rewrite tokens_text_cons. cbn [tokens_text fmap list_fmap concat].
    cbn [length] in *. rewrite Nat.sub_succ, Nat.sub_0_r, rendered_skip, app_nil_r.
    destruct (Hok _ _ Hin Hid) as [->|Ha]; [|by destruct (Ha [] r)]. cbn [app]. f_equal. f_equal.
    apply Forall_cons in Hp as [_ Hp]. apply Forall_app in Hp as [_ Hp]. rewrite length_app in Hn.
    apply IH; [lia|done|constructor|]. by apply (specials_ok_suffix v (c :: s)).
  - apply Forall_cons in Hp as [Hc Hp]. rewrite IH; [by rewrite <- app_assoc|simpl in Hn; lia|done| |by apply (specials_ok_suffix v [c])].
    apply Forall_app. split; [done|by constructor].
Qed.

Lemma wrapped_text glm v (Hv : vocab_ok v) end_tag p : ∀ span, is_bytes p → is_bytes span →
  tokens_text v (wrapped_loop glm v end_tag span p) = span ++ append_glm_tag_body_text p end_tag.
Proof.
  induction p as [|c p IH]; intros span Hp Hs; cbn [wrapped_loop append_glm_tag_body_text]; [rewrite app_nil_r; by apply span_text|].
  apply Forall_cons in Hp as [Hc Hp]. destruct (strip_prefix end_tag (c :: p)).
  - rewrite !tokens_text_app, (span_text v Hv), (text_tokens_text v Hv) by (try done; apply is_bytesb_ok; reflexivity). rewrite (IH [] Hp (Forall_nil_2 _)). done.
  - rewrite IH; [by rewrite <- app_assoc|done|]. apply Forall_app. split; [done|by constructor].
Qed.
