(* ===== verification/Vocab.v ===== *)
(** * The vocabulary of a model file

    [vocab_lookup], [vocab_lookup_optional] and [vocab_load] of
    [engine/src/engine.c] on the metadata readers of [Gguf] and the tables of
    [StrTable], and the theorems that follow a text from the model file to its tokens
    and back. A string of the vocabulary is its bytes: the file stays mapped. *)
From S2P Require Import Prelude CLib KvHeader Json Stream Dsml DsmlText Request Prompt Gguf GgufProps GgufRoundTrip StrTable Tokenizer TokenizerProps.

#[local] Open Scope cursor_scope.

(** ** Loading *)

Section load.
Context (file : bytes).

(** A step whose table operation does not end is stuck. *)
Definition of_table {A} (t : option A) : cursor_m A := λ pos, match t with Some a => Ok a pos | None => Stuck end.

Fixpoint tokens_loop (n : nat) (i : Z) (token : list bytes) (t : str_i32_table) : cursor_m (list bytes * str_i32_table) :=
  match n with
  | O => cret (token, t)
  | S n' =>
      let! s := cursor_string file in
      let! t' := of_table (table_put t (str_bytes file s) i) in
      tokens_loop n' (i + 1) (token ++ [str_bytes file s]) t'
  end.

Fixpoint merges_loop (n : nat) (i : Z) (t : str_i32_table) : cursor_m str_i32_table :=
  match n with
  | O => cret t
  | S n' =>
      let! merge := cursor_string file in
      let! t' := of_table (table_put t (str_bytes file merge) (i32 i)) in
      merges_loop n' (u64 (i + 1)) t'
  end.

Definition vocab_lookup (t : str_i32_table) (text : bytes) : cursor_m Z := λ pos,
  match table_get t text with
  | None => Stuck
  | Some None => Fail (bs "ds4: required tokenizer token is missing: " ++ text)
  | Some (Some token) => Ok token pos
  end.

Definition vocab_lookup_optional (t : str_i32_table) (text : bytes) : Z := default (-1) (table_find t text).

(** The array of strings of a key. *)
Definition string_array (m : ds4_model) (key : bytes) : option ds4_array_ref :=
  a ← model_get_array file m key; if a_type a =? GGUF_VALUE_STRING then Some a else None.

Definition vocab_load (glm : bool) (m : ds4_model) : cursor_m ds4_vocab :=
  match string_array m (bs "tokenizer.ggml.tokens") with
  | None => ds4_die (bs "GGUF tokenizer token table is missing or invalid")
  | Some tokens =>
      if a_len tokens >? INT_MAX then ds4_die (bs "GGUF tokenizer token table is missing or invalid")
      else
        match string_array m (bs "tokenizer.ggml.merges") with
        | None => ds4_die (bs "GGUF tokenizer merge table is missing or invalid")
        | Some merges =>
            let! t0 := of_table (table_init (a_len tokens)) in
            let! '(token, t) := λ _, tokens_loop (Z.to_nat (a_len tokens)) 0 [] t0 (a_data_pos tokens) in
            let! r0 := of_table (table_init (a_len merges)) in
            let! rank := λ _, merges_loop (Z.to_nat (a_len merges)) 0 r0 (a_data_pos merges) in
            let opt := vocab_lookup_optional t in
            if glm then
              let bos := default (opt (bs "<sop>")) (model_get_token_id file m (bs "tokenizer.ggml.bos_token_id")) in
              let eos := default (opt (bs "<|endoftext|>")) (model_get_token_id file m (bs "tokenizer.ggml.eos_token_id")) in
              cret (Vocab token bos eos (opt (bs "<|system|>")) (opt (bs "<|user|>")) (opt (bs "<|assistant|>"))
                (opt (bs "<|observation|>")) (opt (bs "<sop>")) (opt (bs "<think>")) (opt (bs "</think>"))
                (opt (bs "<tool_call>")) (opt (bs "</tool_call>")) (opt (bs "<tool_response>")) (opt (bs "</tool_response>"))
                (opt (bs "<arg_key>")) (opt (bs "</arg_key>")) (opt (bs "<arg_value>")) (opt (bs "</arg_value>")) (-1) t rank)
            else
              let! bos := vocab_lookup t BOS in
              let! eos := vocab_lookup t EOS in
              let! user := vocab_lookup t USER in
              let! assistant := vocab_lookup t ASSISTANT in
              let! think_start := vocab_lookup t (bs "<think>") in
              let! think_end := vocab_lookup t (bs "</think>") in
              let! dsml := vocab_lookup t DS4_DSML in
              cret (Vocab token bos eos (-1) user assistant (-1) (-1) think_start think_end
                (-1) (-1) (-1) (-1) (-1) (-1) (-1) (-1) dsml t rank)
        end
  end.
End load.

(** ** What is loaded *)

(** Strings with their indices, the keys and values of a table. *)
Definition indexed (l : list bytes) : list (bytes * Z) := imap (λ i s, (s, Z.of_nat i)) l.

Lemma indexed_snoc l s : indexed (l ++ [s]) = indexed l ++ [(s, Z.of_nat (length l))].
Proof. unfold indexed. rewrite imap_app. cbn. by rewrite Nat.add_0_r. Qed.

Lemma inserts_snoc kvs k x : inserts (kvs ++ [(k, x)]) = <[k := x]> (inserts kvs).
Proof. unfold inserts. by rewrite foldl_app. Qed.

Lemma indexed_lookup l key id : inserts (indexed l) !! key = Some id → 0 <= id ∧ l !! Z.to_nat id = Some key.
Proof.
  induction l as [|s l IH] using rev_ind; [done|]. rewrite indexed_snoc, inserts_snoc. destruct (decide (s = key)) as [->|Hne].
  - rewrite lookup_insert_eq. intros [= <-]. split; [lia|]. rewrite Nat2Z.id. by apply list_lookup_middle.
  - rewrite lookup_insert_ne by done. intros [? Hl]%IH. split; [done|]. by apply lookup_app_l_Some.
Qed.

Lemma indexed_mem l key : key ∈ l ↔ is_Some (inserts (indexed l) !! key).
Proof.
  split; [|intros [id [_ H]%indexed_lookup]; by eapply list_elem_of_lookup_2].
  induction l as [|s l IH] using rev_ind; [by intros ?%elem_of_nil|]. rewrite indexed_snoc, inserts_snoc, elem_of_snoc.
  destruct (decide (s = key)) as [->|Hne]; [by rewrite lookup_insert_eq|]. rewrite lookup_insert_ne by done. intros [?|?]; [by apply IH|done].
Qed.

Section loops.
Context (file : bytes) (Hsize : map_size file <= INT64_MAX).

Lemma tokens_loop_at l : ∀ i token t t' pos, slice_at file pos (concat (string_bytes <$> l)) →
  put_all t (imap (λ j s, (s, i + Z.of_nat j)) l) = Some t' →
  ∃ p, tokens_loop file (length l) i token t pos = Ok (token ++ l, t') p.
Proof.
  induction l as [|s l IH]; intros i token t t' pos Hs Hp; cbn [length tokens_loop].
  - injection Hp as <-. exists pos. by rewrite app_nil_r.
  - cbn [fmap list_fmap concat] in Hs. apply slice_app in Hs as [H1 H2]. destruct (string_at file Hsize pos s H1) as [E1 E2].
    unfold cbind. rewrite E1, E2. cbn [imap put_all] in Hp. rewrite Z.add_0_r in Hp. destruct (table_put t s i) as [t1|] eqn:Et; [|done].
    cbn [mbind option_bind of_table] in *.
    destruct (IH (i + 1) (token ++ [s]) t1 t' _ H2) as (p & E); [|exists p; rewrite E; by rewrite <- app_assoc].
    rewrite <- Hp. f_equal. apply imap_ext. intros j x _. cbn. f_equal. lia.
Qed.

Lemma merges_loop_at l : ∀ i t t' pos, slice_at file pos (concat (string_bytes <$> l)) → 0 <= i → i + Z.of_nat (length l) <= INT64_MAX →
  put_all t (imap (λ j s, (s, i32 (i + Z.of_nat j))) l) = Some t' →
  ∃ p, merges_loop file (length l) i t pos = Ok t' p.
Proof.
  induction l as [|s l IH]; intros i t t' pos Hs Hi Hl Hp; cbn [length merges_loop].
  - injection Hp as <-. by exists pos.
  - cbn [fmap list_fmap concat length] in *. apply slice_app in Hs as [H1 H2]. destruct (string_at file Hsize pos s H1) as [E1 E2].
    unfold cbind. rewrite E1, E2. cbn [imap put_all] in Hp. rewrite Z.add_0_r in Hp. destruct (table_put t s (i32 i)) as [t1|] eqn:Et; [|done].
    cbn [mbind option_bind of_table] in *. rewrite u64_small by (unfold is_u64; lia). apply IH; [done|lia|lia|].
    rewrite <- Hp. f_equal. apply imap_ext. intros j x _. cbn. f_equal. f_equal. lia.
Qed.
End loops.

Lemma inserts_elem kvs k x : inserts kvs !! k = Some x → (k, x) ∈ kvs.
Proof.
  induction kvs as [|[k' x'] kvs IH] using rev_ind; [done|]. rewrite inserts_snoc, elem_of_snoc. destruct (decide (k' = k)) as [->|Hne].
  - rewrite lookup_insert_eq. intros [= ->]. by right.
  - rewrite lookup_insert_ne by done. intros ?%IH. by left.
Qed.

(** A document with these tokens and merge rules. *)
Definition strings_of (d : gguf_doc) (key : bytes) (l : list bytes) : Prop := doc_get d key = Some (GArray GGUF_VALUE_STRING (GString <$> l)).

Record tokenizer_doc (d : gguf_doc) (toks mrg : list bytes) : Prop := {
  td_doc : doc_ok d;
  td_toks : strings_of d (bs "tokenizer.ggml.tokens") toks;
  td_mrg : strings_of d (bs "tokenizer.ggml.merges") mrg;
  td_count : Z.of_nat (length toks) <= INT_MAX;
}.

(** The tokens without which a DeepSeek model is refused. *)
Definition required : list bytes := [BOS; EOS; USER; ASSISTANT; bs "<think>"; bs "</think>"; DS4_DSML].

(** The special strings that stand for another string's token. *)
Definition aliases (glm : bool) : list bytes :=
  if glm then [BOS; EOS; bs "[gMASK]"; USER; ASSISTANT] else [bs "[gMASK]"; bs "<|user|>"; bs "<|assistant|>"].

Definition ranks (mrg : list bytes) : list (bytes * Z) := imap (λ i s, (s, i32 (Z.of_nat i))) mrg.

(** What a vocabulary has when it is loaded from these tokens and merge rules. *)
Record loaded (glm : bool) (toks mrg : list bytes) (v : ds4_vocab) : Prop := {
  ld_token : v_token v = toks;
  ld_ids : ∀ key, table_find (v_token_to_id v) key = inserts (indexed toks) !! key;
  ld_ranks : ∀ key, table_find (v_merge_rank v) key = inserts (ranks mrg) !! key;
  ld_specials : Forall (λ p, p.1 ∈ aliases glm ∨ (0 <= p.2 → toks !! Z.to_nat p.2 = Some p.1)) (specials v);
}.

(** A concrete member of a concrete list of strings. *)
Ltac solve_member := repeat first [left; reflexivity|right]; fail.
Ltac solve_required := unfold required; solve_member.

(** The special strings one by one: an alias, or the token by [tac]. *)
Ltac solve_specials tac :=
  unfold specials; cbn [v_bos_id v_eos_id v_system_id v_user_id v_assistant_id v_observation_id v_sop_id v_think_start_id v_think_end_id
    v_tool_call_start_id v_tool_call_end_id v_tool_response_start_id v_tool_response_end_id v_arg_key_start_id v_arg_key_end_id
    v_arg_value_start_id v_arg_value_end_id v_dsml_id];
  repeat (constructor; [first [left; unfold aliases; solve_member|right; cbn [fst snd]; tac]|]); constructor.

Section document.
Context (d : gguf_doc) (toks mrg : list bytes) (Hd : tokenizer_doc d toks mrg) (m : ds4_model).
Context (Hm : Forall2 (kv_is (gguf_file d)) (d_kvs d) (m_kv m)).

Lemma doc_size : map_size (gguf_file d) <= INT64_MAX.
Proof. apply file_size_ok, Hd. Qed.

Lemma strings_array key l : strings_of d key l →
  ∃ p, string_array (gguf_file d) m key = Some (ArrayRef GGUF_VALUE_STRING (Z.of_nat (length l)) p)
    ∧ slice_at (gguf_file d) p (concat (string_bytes <$> l)) ∧ Z.of_nat (length l) <= 2 ^ 61.
Proof.
  intros Hk. pose proof (doc_reads d m key (td_doc _ _ _ Hd) Hm) as H. rewrite Hk in H. destruct H as [(p & Ea & Hs) _].
  rewrite length_fmap in Ea. rewrite <- list_fmap_compose in Hs. exists p. split_and!; [unfold string_array; by rewrite Ea|done|].
  pose proof (slice_bound _ _ _ Hs) as [? Hb]. pose proof doc_size.
  pose proof (concat_min (value_bytes ∘ GString) l 8) as Hc. lapply Hc; [lia|]. intros x _. change ((value_bytes ∘ GString) x) with (string_bytes x). unfold string_bytes. rewrite length_app, le_list_length. lia.
Qed.

Lemma table_find_get t kvs : (∀ key, table_get t key = Some (inserts kvs !! key)) → ∀ key, table_find t key = inserts kvs !! key.
Proof. intros H key. unfold table_find. by rewrite H. Qed.

Lemma lookup_found t key : (∀ key, table_get t key = Some (inserts (indexed toks) !! key)) → key ∈ toks →
  ∃ id, vocab_lookup t key = cret id ∧ 0 <= id ∧ toks !! Z.to_nat id = Some key.
Proof.
  intros H [id Hid]%indexed_mem. exists id. split; [|by apply indexed_lookup]. unfold vocab_lookup, cret. by rewrite H, Hid.
Qed.

Lemma lookup_optional_found t key : (∀ key, table_get t key = Some (inserts (indexed toks) !! key)) → 0 <= vocab_lookup_optional t key →
  toks !! Z.to_nat (vocab_lookup_optional t key) = Some key.
Proof.
  intros H. unfold vocab_lookup_optional. rewrite (table_find_get _ _ H). destruct (inserts (indexed toks) !! key) as [id|] eqn:E; [|cbn; lia].
  intros _. by apply indexed_lookup.
Qed.

Lemma load_doc (glm : bool) : (if glm then True else required ⊆ toks) → ∃ v pos, vocab_load (gguf_file d) glm m 0 = Ok v pos ∧ loaded glm toks mrg v.
Proof.
  intros Hreq. destruct (strings_array _ _ (td_toks _ _ _ Hd)) as (pt & Et & Ht & Hlt). destruct (strings_array _ _ (td_mrg _ _ _ Hd)) as (pm & Em & Hsm & Hlm).
  destruct (table_of_rep (Z.of_nat (length toks)) (indexed toks)) as (t0 & t & E0 & Ep & Hg); [unfold indexed; rewrite length_imap; lia|].
  destruct (table_of_rep (Z.of_nat (length mrg)) (ranks mrg)) as (r0 & r & F0 & Fp & Hr); [unfold ranks; rewrite length_imap; lia|].
  destruct (tokens_loop_at _ doc_size toks 0 [] t0 t pt Ht Ep) as (p1 & El). destruct (merges_loop_at _ doc_size mrg 0 r0 r pm Hsm ltac:(lia) ltac:(lia) Fp) as (p2 & Fl).
  pose proof (td_count _ _ _ Hd) as Hc. unfold vocab_load. rewrite Et, Em. cbn [a_len a_data_pos].
  assert ((Z.of_nat (length toks) >? INT_MAX) = false) as -> by (rewrite Z.gtb_ltb; lia).
  unfold cbind at 1 2 3 4. rewrite E0, F0. cbn [of_table]. rewrite !Nat2Z.id, El, Fl.
  pose proof (table_find_get _ _ Hg) as Hg'. pose proof (table_find_get _ _ Hr) as Hr'. destruct glm.
  - eexists _, _. split; [reflexivity|]. constructor; [done|done|done|]. solve_specials ltac:(first [by apply lookup_optional_found|lia]).
  - assert (∀ key, key ∈ required → ∃ id, vocab_lookup t key = cret id ∧ 0 <= id ∧ toks !! Z.to_nat id = Some key) as Hl
      by (intros key Hk; by apply lookup_found, Hreq).
    destruct (Hl BOS) as (i1 & E1 & _ & L1); [solve_required|]. destruct (Hl EOS) as (i2 & E2 & _ & L2); [solve_required|].
    destruct (Hl USER) as (i3 & E3 & _ & L3); [solve_required|]. destruct (Hl ASSISTANT) as (i4 & E4 & _ & L4); [solve_required|].
    destruct (Hl (bs "<think>")) as (i5 & E5 & _ & L5); [solve_required|]. destruct (Hl (bs "</think>")) as (i6 & E6 & _ & L6); [solve_required|].
    destruct (Hl DS4_DSML) as (i7 & E7 & _ & L7); [solve_required|]. unfold cbind, cret in *. rewrite E1, E2, E3, E4, E5, E6, E7.
    eexists _, _. split; [reflexivity|]. constructor; [done|done|done|]. solve_specials ltac:(first [intros _; assumption|lia]).
Qed.
End document.

(** ** Texts, tokens and texts *)

(** Every byte has a token, and so has what a merge rule gives. *)
Definition complete (toks mrg : list bytes) : Prop :=
  (∀ b, is_u8 b → enc b ∈ toks) ∧ ∀ a b, a ++ [32] ++ b ∈ mrg → a ++ b ∈ toks.

Lemma ranks_elem mrg key r : inserts (ranks mrg) !! key = Some r → key ∈ mrg.
Proof. intros H%inserts_elem. unfold ranks in H. apply elem_of_lookup_imap_1 in H as (i & s & [= -> _] & Hs). by eapply list_elem_of_lookup_2. Qed.

Lemma loaded_ok glm toks mrg v : loaded glm toks mrg v → complete toks mrg → vocab_ok v.
Proof.
  intros [Et Hi Hr _] [Hb Hmg]. constructor.
  - intros key id. rewrite Hi, Et. apply indexed_lookup.
  - intros b H%Hb%indexed_mem. by rewrite Hi.
  - intros a b. unfold bpe_rank. rewrite Hr, Hi. destruct (inserts (ranks mrg) !! (a ++ [32] ++ b)) as [r|] eqn:E; [|cbn; lia].
    intros _. by apply indexed_mem, Hmg, (ranks_elem _ _ r).
Qed.

(** The special strings are written as they are. *)
Lemma special_text v : Forall (λ p, (if vocab_token_is_literal_special p.1 then p.1 else decode_loop p.1 0) = p.1) (specials v).
Proof. unfold specials. repeat (constructor; [vm_compute; reflexivity|]). constructor. Qed.

(** The aliases do not occur in the text, or are the text of their token. *)
Definition aliases_ok (glm : bool) (v : ds4_vocab) (text : bytes) : Prop :=
  ∀ s id, (s, id) ∈ specials v → s ∈ aliases glm → absent s text ∨ ds4_token_text v id = s.

Lemma loaded_specials glm toks mrg v text : loaded glm toks mrg v → aliases_ok glm v text → specials_ok v text.
Proof.
  intros [Et _ _ Hs] Ha s id Hin Hid. rewrite Forall_forall in Hs. pose proof (special_text v) as Ht. rewrite Forall_forall in Ht.
  destruct (Hs _ Hin) as [Hal|Hl]; cbn in *; [destruct (Ha s id Hin Hal); auto|]. left. specialize (Hl Hid). rewrite <- Et in Hl.
  rewrite (token_text_lookup v id s Hid Hl). exact (Ht _ Hin).
Qed.

(** C19. From the model file to a text and back: opening a file with a complete
    vocabulary and loading it succeeds, the tokens are those of the file, and the
    texts of the tokens of any text join to that text, for both families of models. *)
Theorem loaded_tokenizer_roundtrip (glm : bool) d toks mrg (Hd : tokenizer_doc d toks mrg) (Hc : complete toks mrg)
    (Hreq : if glm then True else required ⊆ toks) :
  ∃ m p v q, model_open (gguf_file d) = Ok m p ∧ vocab_load (gguf_file d) glm m 0 = Ok v q ∧ v_token v = toks
    ∧ ∀ text, is_bytes text → tokens_text v (bpe_tokenize_text glm v text) = text.
Proof.
  destruct (open_doc d (td_doc _ _ _ Hd)) as (m & p & Eo & _ & Hk & _). destruct (load_doc d toks mrg Hd m Hk glm Hreq) as (v & q & El & Hl).
  exists m, p, v, q. split_and!; [done|done|apply Hl|]. intros text Ht. by apply text_tokens_text; [eapply loaded_ok|].
Qed.

(** C20. A rendered conversation is cut into special tokens and text, and the texts of
    the tokens join to the conversation, provided that it has no alias whose token
    has another text. *)
Theorem loaded_rendered_roundtrip (glm : bool) d toks mrg (Hd : tokenizer_doc d toks mrg) (Hc : complete toks mrg)
    (Hreq : if glm then True else required ⊆ toks) :
  ∃ m p v q, model_open (gguf_file d) = Ok m p ∧ vocab_load (gguf_file d) glm m 0 = Ok v q
    ∧ ∀ text, is_bytes text → aliases_ok glm v text → tokens_text v (tokenize_rendered_chat_vocab glm v (Some text)) = text.
Proof.
  destruct (open_doc d (td_doc _ _ _ Hd)) as (m & p & Eo & _ & Hk & _). destruct (load_doc d toks mrg Hd m Hk glm Hreq) as (v & q & El & Hl).
  exists m, p, v, q. split_and!; [done|done|]. intros text Ht Ha. unfold tokenize_rendered_chat_vocab. cbn [text_or_empty].
  eapply (rendered_text glm v (loaded_ok _ _ _ _ Hl Hc)); [done|done|constructor|by eapply loaded_specials].
Qed.

(** Tool output becomes the tokens of the text that the server's renderer writes
    for it, in which the closing tag does not occur. *)
Theorem tool_output_tokens glm v content (Hv : vocab_ok v) (Hb : is_bytes content) :
  tokens_text v (bpe_tokenize_tool_result_text glm v (Some content)) = append_tool_result_text (Some content)
  ∧ tokens_text v (bpe_tokenize_tool_response_text glm v (Some content)) = append_glm_tag_body_text content (bs "</tool_response>")
  ∧ strstr (append_tool_result_text (Some content)) (bs "</tool_result>") = None
  ∧ strstr (append_glm_tag_body_text content (bs "</tool_response>")) (bs "</tool_response>") = None.
Proof.
  unfold bpe_tokenize_tool_result_text, bpe_tokenize_tool_response_text, bpe_tokenize_wrapped_payload_text, append_tool_result_text. cbn [text_or_empty].
  rewrite !(wrapped_text glm v Hv) by (try done; constructor).
  split_and!; [done|done|apply body_no_end; by apply (bool_decide_unpack _)|apply body_no_end; by apply (bool_decide_unpack _)].
Qed.

(** ** A small vocabulary *)

Definition sample_tokens : list bytes :=
  (enc <$> all_bytes) ++ [bs "th"; bs "the"; bs "[gMASK]"; bs "<sop>"; bs "<|user|>"; bs "<|assistant|>"] ++ required.
Definition sample_merges : list bytes := [bs "t h"; bs "th e"].

Definition sample_vocab_doc : gguf_doc := GgufDoc
  [(bs "tokenizer.ggml.tokens", GArray GGUF_VALUE_STRING (GString <$> sample_tokens));
   (bs "tokenizer.ggml.merges", GArray GGUF_VALUE_STRING (GString <$> sample_merges));
   (bs "tokenizer.ggml.bos_token_id", GScalar GGUF_VALUE_UINT32 (le_list 4 258))] [] [].

Lemma strings_writable key l : kv_writable (key, GArray GGUF_VALUE_STRING (GString <$> l)).
Proof.
  split; [|done]. cbn [snd max_levels value_ok]. split_and!; [done..| |].
  - by intros x (s & -> & _)%list_elem_of_fmap.
  - cbn. by intros x (s & -> & _)%list_elem_of_fmap.
Qed.

Lemma sample_vocab_doc_ok : tokenizer_doc sample_vocab_doc sample_tokens sample_merges.
Proof.
  constructor; [|done|done|vm_compute; discriminate]. unfold doc_ok. split_and!; [|constructor|vm_compute; discriminate..|apply is_bytesb_ok; vm_compute; reflexivity].
  repeat (constructor; [first [apply strings_writable|split; [split; done|done]]|]). constructor.
Qed.

(** A check of [complete]. *)
Definition mergesb (toks mrg : list bytes) : bool :=
  forallb (λ m, forallb (λ i, if nth i m 0 =? 32 then bool_decide (take i m ++ drop (S i) m ∈ toks) else true) (seq 0 (length m))) mrg.

Lemma complete_check toks mrg : forallb (λ b, bool_decide (enc b ∈ toks)) all_bytes = true → mergesb toks mrg = true → complete toks mrg.
Proof.
  intros Hb Hm. split.
  - intros b H. pose proof (all_bytes_check _ Hb b H) as Hd. by apply bool_decide_eq_true in Hd.
  - intros a b Hin%list_elem_of_In. unfold mergesb in Hm. rewrite forallb_forall in Hm. specialize (Hm _ Hin). rewrite forallb_forall in Hm.
    specialize (Hm (length a)). cbn [app] in Hm. rewrite nth_middle in Hm. cbn [Z.eqb Pos.eqb] in Hm.
    rewrite take_app_length, drop_app_ge in Hm by lia. replace (S (length a) - length a)%nat with 1%nat in Hm by lia.
    apply (bool_decide_eq_true (a ++ b ∈ toks)), Hm, list_elem_of_In, elem_of_seq. rewrite !length_app. cbn [length]. lia.
Qed.

Lemma sample_complete : complete sample_tokens sample_merges.
Proof. apply complete_check; vm_compute; reflexivity. Qed.

Lemma sample_required : required ⊆ sample_tokens.
Proof. intros s Hs. unfold sample_tokens. apply elem_of_app. right. apply elem_of_app. by right. Qed.

(** Witness of C19: the text "the" with the small vocabulary. *)
Lemma loaded_tokenizer_roundtrip_witness : ∃ m p v q, model_open (gguf_file sample_vocab_doc) = Ok m p
  ∧ vocab_load (gguf_file sample_vocab_doc) true m 0 = Ok v q ∧ tokens_text v (bpe_tokenize_text true v (bs "the")) = bs "the".
Proof.
  destruct (loaded_tokenizer_roundtrip true sample_vocab_doc sample_tokens sample_merges sample_vocab_doc_ok sample_complete I)
    as (m & p & v & q & Eo & El & _ & H). exists m, p, v, q. split_and!; [done|done|]. apply H, is_bytesb_ok. reflexivity.
Defined.

Definition sample_prompt : bytes := BOS ++ USER ++ bs "the" ++ ASSISTANT ++ bs "<think>".

(** Witness of C20: a prompt of a DeepSeek model. *)
Lemma loaded_rendered_roundtrip_witness : ∃ m p v q, model_open (gguf_file sample_vocab_doc) = Ok m p
  ∧ vocab_load (gguf_file sample_vocab_doc) false m 0 = Ok v q
  ∧ tokens_text v (tokenize_rendered_chat_vocab false v (Some sample_prompt)) = sample_prompt.
Proof.
  destruct (loaded_rendered_roundtrip false sample_vocab_doc sample_tokens sample_merges sample_vocab_doc_ok sample_complete sample_required)
    as (m & p & v & q & Eo & El & H). exists m, p, v, q. split_and!; [done|done|]. apply H; [apply is_bytesb_ok; reflexivity|].
  assert (Forall (λ s, strstr sample_prompt s = None) (aliases false)) as Ha by (repeat constructor).
  intros s id _ Hs. left. intros pre post. apply strstr_None. rewrite Forall_forall in Ha. by apply Ha.
Defined.

(** The vocabulary of the small document. *)
Definition sample_vocab (glm : bool) : option ds4_vocab :=
  m ← read_ok (model_open (gguf_file sample_vocab_doc)); read_ok (vocab_load (gguf_file sample_vocab_doc) glm m 0).

(** The merge rules apply, and the special strings are single tokens. *)
Example sample_prompt_tokens : (λ v, tokenize_rendered_chat_vocab false v (Some sample_prompt)) <$> sample_vocab false = Some [262; 264; 257; 265; 266].
Proof. vm_compute. reflexivity. Qed.

(** In a DeepSeek vocabulary the text "<|user|>" of a conversation becomes the token
    that starts a user turn, whose text is another one. *)
Lemma alias_changes_text :
  (λ v, tokens_text v (tokenize_rendered_chat_vocab false v (Some (bs "<|user|>")))) <$> sample_vocab false = Some USER
  ∧ USER ≠ bs "<|user|>".
Proof. split; [vm_compute; reflexivity|discriminate]. Qed.

(** Witness: output with both closing tags. *)
Lemma tool_output_tokens_witness : ∃ v, vocab_ok v
  ∧ tokens_text v (bpe_tokenize_tool_result_text true v (Some (bs "a</tool_result>"))) = bs "a&lt;/tool_result>".
Proof.
  destruct (open_doc sample_vocab_doc (td_doc _ _ _ sample_vocab_doc_ok)) as (m & p & _ & _ & Hk & _).
  destruct (load_doc _ _ _ sample_vocab_doc_ok m Hk true I) as (v & q & _ & Hl). exists v.
  pose proof (loaded_ok _ _ _ _ Hl sample_complete) as Hv. split; [done|].
  rewrite (proj1 (tool_output_tokens true v (bs "a</tool_result>") Hv ltac:(apply is_bytesb_ok; reflexivity))). reflexivity.
Defined.
