(* ===== verification/ToolStream.v ===== *)
(** * Streaming tool calls

    The projection of generated DSML to tool call events while it is generated:
    [openai_tool_stream] and [anthropic_tool_stream] of [engine/src/server.c] with
    [..._init], [..._start_invoke], [..._start_param], [..._finish_param],
    [..._emit_param_prefix], [..._emit_string_value], [..._id] and [..._update].

    The two copies in the source differ in the events they send: here one definition
    takes the events of the protocol as a record of operations. The sending of an event
    succeeds or fails as an argument says; a function that would return false because
    a send failed is [Closed]. The random id of a call is the result of the loop that
    draws ids until one is free, an argument [pick]. Text has no NUL byte. *)
From S2P Require Import Prelude CLib Json Stream Dsml.

(** ** Sending *)

Inductive result (A : Type) := Done (a : A) | Closed | Stuck.
Arguments Done {A} _.
Arguments Closed {A}.
Arguments Stuck {A}.

(** What has been sent, and what a function that sends gives with it. *)
Definition io (E A : Type) : Type := list E → list E * result A.

Definition iret {E A} (a : A) : io E A := λ out, (out, Done a).
Definition ibind {E A B} (m : io E A) (k : A → io E B) : io E B := λ out,
  match m out with
  | (out, Done a) => k a out
  | (out, Closed) => (out, Closed)
  | (out, Stuck) => (out, Stuck)
  end.
Definition stuck {E A} : io E A := λ out, (out, Stuck).

Declare Scope io_scope.
Delimit Scope io_scope with io.
Notation "'let*' x := m 'in' k" := (ibind m (λ x, k)) (at level 200, x binder, m at level 100, k at level 200) : io_scope.
#[local] Open Scope io_scope.

(** [send_all] of one event; [send n] says whether the event after [n] others is sent. *)
Definition send_event {E} (send : nat → bool) (e : E) : io E unit := λ out,
  (out ++ [e], if send (length out) then Done tt else Closed).

(** ** The state *)

Inductive dsml_tool_stream_state :=
  | DSML_TOOL_BETWEEN_INVOKES
  | DSML_TOOL_BETWEEN_PARAMS
  | DSML_TOOL_PARAM_VALUE
  | DSML_TOOL_DONE
  | DSML_TOOL_ERROR.

#[export] Instance dsml_tool_stream_state_eq_dec : EqDecision dsml_tool_stream_state.
Proof. solve_decision. Defined.

Record tool_stream := ToolStream {
  ts_state : dsml_tool_stream_state;
  ts_syn : dsml_syntax;
  ts_parse_pos : nat;
  ts_index : nat;
  ts_active : bool;
  ts_emitted_any : bool;
  ts_args_open : bool;
  ts_first_param : bool;
  ts_param_is_string : bool;
  ts_ids : gmap nat bytes;
}.

Definition no_syntax : dsml_syntax := DsmlSyntax [] [] [] [] [] [].
Definition tool_stream_zero : tool_stream := ToolStream DSML_TOOL_BETWEEN_INVOKES no_syntax 0 0 false false false false false ∅.

Definition ts_move (pos : nat) (t : tool_stream) : tool_stream :=
  ToolStream (ts_state t) (ts_syn t) pos (ts_index t) (ts_active t) (ts_emitted_any t) (ts_args_open t) (ts_first_param t) (ts_param_is_string t) (ts_ids t).
Definition ts_goto (st : dsml_tool_stream_state) (pos : nat) (t : tool_stream) : tool_stream :=
  ToolStream st (ts_syn t) pos (ts_index t) (ts_active t) (ts_emitted_any t) (ts_args_open t) (ts_first_param t) (ts_param_is_string t) (ts_ids t).
Definition ts_stop (st : dsml_tool_stream_state) (pos : nat) (t : tool_stream) : tool_stream :=
  ToolStream st (ts_syn t) pos (ts_index t) false (ts_emitted_any t) (ts_args_open t) (ts_first_param t) (ts_param_is_string t) (ts_ids t).
Definition ts_first (b : bool) (t : tool_stream) : tool_stream :=
  ToolStream (ts_state t) (ts_syn t) (ts_parse_pos t) (ts_index t) (ts_active t) (ts_emitted_any t) (ts_args_open t) b (ts_param_is_string t) (ts_ids t).
Definition ts_set_ids (ids : gmap nat bytes) (t : tool_stream) : tool_stream :=
  ToolStream (ts_state t) (ts_syn t) (ts_parse_pos t) (ts_index t) (ts_active t) (ts_emitted_any t) (ts_args_open t) (ts_first_param t) (ts_param_is_string t) ids.

(** [memset] and the syntax of the marker at [pos]; the second is the result. *)
Definition tool_stream_init (raw : bytes) (pos : nat) : tool_stream * bool :=
  match List.find (λ syn, raw_full_lit raw pos (tool_calls_start syn)) dsml_syntaxes with
  | Some syn => (ToolStream DSML_TOOL_BETWEEN_INVOKES syn (pos + length (tool_calls_start syn)) 0 true false false false false ∅, true)
  | None => (ToolStream DSML_TOOL_ERROR no_syntax pos 0 false false false false false ∅, false)
  end.

Definition tool_stream_fail (t : tool_stream) : tool_stream := ts_stop DSML_TOOL_ERROR (ts_parse_pos t) t.

(** ** Identifiers *)

Definition tool_stream_has_id (t : tool_stream) (id : bytes) (upto : nat) : bool :=
  match id with
  | [] => false
  | _ => existsb (λ i, match ts_ids t !! i with Some x => bytes_eqb x id | None => false end) (seq 0 upto)
  end.

(** ** Events of a protocol *)

(** [op_start] announces call [index] with its id and name, [op_args] sends a piece
    of its arguments, which is not empty, [op_stop] ends it. *)
Record tool_ops (St Ev : Type) := ToolOps {
  op_start : nat → bytes → bytes → St → io Ev St;
  op_args : nat → bytes → St → io Ev St;
  op_stop : St → io Ev St;
}.
Arguments op_start {St Ev} _ _ _ _ _.
Arguments op_args {St Ev} _ _ _ _.
Arguments op_stop {St Ev} _ _.

Section stream.
Context {St Ev : Type} (ops : tool_ops St Ev) (known : bytes → bool) (pick : (bytes → bool) → bytes).

Definition tool_stream_id (t : tool_stream) (index : nat) : bytes * tool_stream :=
  match ts_ids t !! index with
  | Some id => (id, t)
  | None =>
      let id := pick (λ id, tool_stream_has_id t id index || known id) in
      (id, ts_set_ids (<[index := id]> (ts_ids t)) t)
  end.

Definition tool_emit_args_fragment (t : tool_stream) (text : bytes) (s : St) : io Ev St :=
  match text with [] => iret s | _ => op_args ops (ts_index t) text s end.

Definition tool_emit_string_value (t : tool_stream) (text : bytes) (s : St) : io Ev St :=
  match text with
  | [] => iret s
  | _ => let unescaped := dsml_unescape_text text in tool_emit_args_fragment t (json_escape_fragment_n unescaped (length unescaped)) s
  end.

Definition tool_emit_param_prefix (t : tool_stream) (name : bytes) (is_string : bool) (s : St) : io Ev (St * tool_stream) :=
  let frag := (if ts_first_param t then [] else [44]) ++ json_escape name ++ [58] ++ (if is_string then [34] else []) in
  let t := ts_first false t in
  let* s := tool_emit_args_fragment t frag s in iret (s, t).

(** The bytes from [a] to [b]. *)
Definition text_span (raw : bytes) (a b : nat) : bytes := take (b - a) (drop a raw).

Definition tool_start_invoke (raw : bytes) (t : tool_stream) (s : St) : io Ev (St * tool_stream) :=
  match after_gt raw (ts_parse_pos t) with
  | None => iret (s, t)
  | Some e =>
      match dsml_attr (text_span raw (ts_parse_pos t) e) (bs "name") with
      | None => iret (s, tool_stream_fail t)
      | Some name =>
          let '(tool_id, t) := tool_stream_id t (ts_index t) in
          let* s := op_start ops (ts_index t) tool_id name s in
          let* s := tool_emit_args_fragment t (bs "{") s in
          iret (s, ToolStream DSML_TOOL_BETWEEN_PARAMS (ts_syn t) e (ts_index t) (ts_active t) true true true (ts_param_is_string t) (ts_ids t))
      end
  end.

Definition tool_start_param (raw : bytes) (t : tool_stream) (s : St) : io Ev (St * tool_stream) :=
  match after_gt raw (ts_parse_pos t) with
  | None => iret (s, t)
  | Some e =>
      let tag := text_span raw (ts_parse_pos t) e in
      match dsml_attr tag (bs "name"), dsml_attr tag (bs "string") with
      | Some name, Some is_string =>
          let string_value := bytes_eqb is_string (bs "true") in
          let* '(s, t) := tool_emit_param_prefix t name string_value s in
          iret (s, ToolStream DSML_TOOL_PARAM_VALUE (ts_syn t) e (ts_index t) (ts_active t) (ts_emitted_any t) (ts_args_open t)
                     (ts_first_param t) string_value (ts_ids t))
      | _, _ => iret (s, tool_stream_fail t)
      end
  end.

(** A piece of the value, from the position on. *)
Definition tool_emit_value (raw : bytes) (t : tool_stream) (upto : nat) (s : St) : io Ev St :=
  if (ts_parse_pos t <? upto)%nat then
    if ts_param_is_string t then tool_emit_string_value t (text_span raw (ts_parse_pos t) upto) s
    else tool_emit_args_fragment t (text_span raw (ts_parse_pos t) upto) s
  else iret s.

Definition tool_finish_param (raw : bytes) (value_end : nat) (t : tool_stream) (s : St) : io Ev (St * tool_stream) :=
  let* s := tool_emit_value raw t value_end s in
  let* s := (if ts_param_is_string t then tool_emit_args_fragment t [34] s else iret s) in
  iret (s, ts_goto DSML_TOOL_BETWEEN_PARAMS (value_end + length (param_end (ts_syn t))) t).

Definition raw_partial_any (raw : bytes) (pos : nat) (a b : bytes) : bool := raw_partial_lit raw pos a || raw_partial_lit raw pos b.

(** A start that found no end of its tag changed nothing and waits. *)
Definition tag_waits (before after : tool_stream) : bool :=
  (ts_parse_pos after =? ts_parse_pos before)%nat && bool_decide (ts_state after = ts_state before).

(** One round of the loop: the state, and whether the loop goes on. *)
Definition tool_round (raw : bytes) (t : tool_stream) (s : St) : io Ev (St * tool_stream * bool) :=
  let syn := ts_syn t in
  match ts_state t with
  | DSML_TOOL_BETWEEN_INVOKES =>
      let pos := skip_space_from raw (ts_parse_pos t) in
      let t := ts_move pos t in
      if (length raw <=? pos)%nat then iret (s, t, false)
      else if raw_full_lit raw pos (tool_calls_end syn) then
        iret (s, ts_stop DSML_TOOL_DONE (pos + length (tool_calls_end syn)) t, false)
      else if raw_partial_any raw pos (tool_calls_end syn) (invoke_start syn) then iret (s, t, false)
      else if raw_full_lit raw pos (invoke_start syn) then
        let* '(s, t') := tool_start_invoke raw t s in iret (s, t', negb (tag_waits t t'))
      else iret (s, tool_stream_fail t, false)
  | DSML_TOOL_BETWEEN_PARAMS =>
      let pos := skip_space_from raw (ts_parse_pos t) in
      let t := ts_move pos t in
      if (length raw <=? pos)%nat then iret (s, t, false)
      else if raw_full_lit raw pos (invoke_end syn) then
        let* s := (if ts_args_open t then tool_emit_args_fragment t (bs "}") s else iret s) in
        let* s := op_stop ops s in
        iret (s, ToolStream DSML_TOOL_BETWEEN_INVOKES syn (pos + length (invoke_end syn)) (1 + ts_index t) (ts_active t) (ts_emitted_any t) false
                   (ts_first_param t) (ts_param_is_string t) (ts_ids t), true)
      else if raw_partial_any raw pos (invoke_end syn) (param_start syn) then iret (s, t, false)
      else if raw_full_lit raw pos (param_start syn) then
        let* '(s, t') := tool_start_param raw t s in iret (s, t', negb (tag_waits t t'))
      else iret (s, tool_stream_fail t, false)
  | DSML_TOOL_PARAM_VALUE =>
      match find_lit_bounded (drop (ts_parse_pos t) raw) (param_end syn) with
      | Some e => let* '(s, t) := tool_finish_param raw (ts_parse_pos t + e) t s in iret (s, t, true)
      | None =>
          let limit := tool_param_value_stream_safe_len raw (ts_parse_pos t) (param_end syn) (ts_param_is_string t) in
          let* s := tool_emit_value raw t limit s in
          iret (s, if (ts_parse_pos t <? limit)%nat then ts_move limit t else t, false)
      end
  | _ => iret (s, t, false)
  end.

(** Every round that goes on has moved ahead, so that the length of the text bounds
    the rounds. *)
Fixpoint tool_loop (fuel : nat) (raw : bytes) (t : tool_stream) (s : St) : io Ev (St * tool_stream) :=
  if ts_active t && (ts_parse_pos t <? length raw)%nat then
    match fuel with
    | O => stuck
    | S fuel' =>
        let* '(s, t, go_on) := tool_round raw t s in
        if go_on then tool_loop fuel' raw t s else iret (s, t)
    end
  else iret (s, t).

Definition tool_stream_update (raw : bytes) (t : tool_stream) (s : St) : io Ev (St * tool_stream) :=
  tool_loop (length raw) raw t s.
End stream.
