(* ===== verification/ToolStreamProps.v ===== *)
(** * The streamed tool calls are the parsed ones

    A tool block that is streamed while it is generated, in whatever pieces its text
    arrives, announces the calls that the parser of the whole text finds, with the same
    parameters: the invariant of the stream says how the parser goes on from the
    position that the stream has reached. *)
From S2P Require Import Prelude CLib Json JsonProps JsonSafe Request RequestProps Stream StreamProps Dsml DsmlProps DsmlText ToolText ToolStream.

#[local] Open Scope io_scope.

(** ** Sending functions *)

(** [m] never gets stuck, and [Q] holds of what it gives when no send fails. *)
Definition iwp {E A} (m : io E A) (out : list E) (Q : A → list E → Prop) : Prop :=
  match m out with (out', Done a) => Q a out' | (_, Closed) => True | (_, Stuck) => False end.

Lemma iwp_bind {E A B} (m : io E A) (k : A → io E B) out Q : iwp m out (λ a out', iwp (k a) out' Q) → iwp (ibind m k) out Q.
Proof. unfold iwp, ibind. destruct (m out) as [out' [a| |]]; done. Qed.

Lemma iwp_ret {E A} (a : A) (out : list E) (Q : A → list E → Prop) : Q a out → iwp (iret a) out Q.
Proof. done. Qed.

Lemma iwp_mono {E A} (m : io E A) out (Q R : A → list E → Prop) : iwp m out Q → (∀ a o, Q a o → R a o) → iwp m out R.
Proof. unfold iwp. destruct (m out) as [out' [a| |]]; auto. Qed.

Lemma iwp_send {E} send (e : E) out (Q : unit → list E → Prop) : Q tt (out ++ [e]) → iwp (send_event send e) out Q.
Proof. unfold iwp, send_event. by destruct (send (length out)). Qed.

(** ** The parser from a position on *)

Definition inv_run (syn : dsml_syntax) (p : bytes) (calls : tool_calls) : option bytes * tool_calls := invokes_loop (S (length p)) syn p calls.
Definition par_run (syn : dsml_syntax) (p args : bytes) : option (bytes * bytes) := params_loop (S (length p)) syn p args.

(** The rest of an invocation of [name] and what follows it. *)
Definition after_params (syn : dsml_syntax) (calls : tool_calls) (name : bytes) (r : option (bytes * bytes)) : option bytes * tool_calls :=
  match r with
  | None => (None, calls)
  | Some (args, p) => inv_run syn p (tool_calls_push calls (ToolCall None (Some name) (Some (bs "{" ++ args ++ bs "}"))))
  end.

Lemma inv_run_eq syn p calls : inv_run syn p calls =
  match strip_prefix (tool_calls_end syn) (skip_space p) with
  | Some r => (Some r, calls)
  | None =>
      match strip_prefix (invoke_start syn) (skip_space p), index_of 62 (skip_space p) with
      | Some _, Some e =>
          match dsml_attr (take (S e) (skip_space p)) (bs "name") with
          | None => (None, calls)
          | Some name => after_params syn calls name (par_run syn (drop (S e) (skip_space p)) [])
          end
      | _, _ => (None, calls)
      end
  end.
Proof.
  unfold inv_run at 1. cbn [invokes_loop]. destruct (strip_prefix (tool_calls_end syn) (skip_space p)); [done|].
  destruct (strip_prefix (invoke_start syn) (skip_space p)); [|done]. destruct (index_of 62 (skip_space p)) as [e|] eqn:Ee; [|done].
  apply index_of_bound in Ee. destruct (dsml_attr _ _) as [name|]; [|done]. unfold par_run.
  rewrite (params_fuel syn (S (length (skip_space p))) (S (length (drop (S e) (skip_space p))))) by (rewrite ?length_drop; lia).
  destruct (params_loop _ syn _ []) as [[args q]|] eqn:E; [|done]. cbn [after_params]. unfold inv_run. apply invokes_fuel; [|lia].
  apply params_len in E. rewrite length_drop in E. pose proof (skip_space_length p). lia.
Qed.

Lemma par_run_eq syn p args : par_run syn p args =
  match strip_prefix (invoke_end syn) (skip_space p) with
  | Some r => Some (args, r)
  | None =>
      match param_tag syn (skip_space p) with
      | Some (Some name, Some type, v) =>
          match param_value syn v (Some type) with
          | None => None
          | Some (value, type, q) => par_run syn q (tool_call_json_args_add args name value type)
          end
      | _ => par_run syn p args
      end
  end.
Proof.
  unfold par_run at 1. cbn [params_loop]. destruct (strip_prefix (invoke_end syn) (skip_space p)) eqn:Ei; [done|].
  destruct (param_tag syn (skip_space p)) as [[[[n|] [t|]] v]|] eqn:Et;
    [|unfold par_run; cbn [params_loop]; by rewrite Ei, Et..].
  destruct (param_value syn v (Some t)) as [[[x y] q]|] eqn:Ev; [|done]. unfold par_run.
  assert (length q < length p)%nat by (eapply params_step_len; eauto). apply params_fuel; lia.
Qed.

Lemma inv_run_skip syn p q calls : skip_space p = skip_space q → inv_run syn p calls = inv_run syn q calls.
Proof. intros H. by rewrite !inv_run_eq, H. Qed.

Lemma par_run_skip syn p q args : skip_space p = skip_space q → par_run syn p args = par_run syn q args.
Proof.
  intros H. unfold par_run. cbn [params_loop]. rewrite H. destruct (strip_prefix (invoke_end syn) (skip_space q)); [done|].
  destruct (param_tag syn (skip_space q)) as [[[[n|] t] v]|] eqn:Et; [|done..].
  assert (∀ r, (length r < length (skip_space q))%nat → ∀ a, params_loop (length p) syn r a = params_loop (length q) syn r a) as Hf.
  { intros r Hr a. pose proof (skip_space_length p). pose proof (skip_space_length q). rewrite H in *. apply params_fuel; lia. }
  pose proof (param_tag_len _ _ _ _ _ Et) as Hv.
  destruct t as [t|]; [|destruct (strip_prefix (param_start syn) (skip_space v))].
  - destruct (param_value syn v (Some t)) as [[[x y] r]|] eqn:Ev; [|done]. apply param_value_len in Ev. apply Hf. lia.
  - destruct (dsml_parse_nested_params_object syn v) as [[o r]|] eqn:Ev; [|done]. apply nested_object_len in Ev.
    pose proof (skip_space_length r). pose proof (optional_tag_len (param_end syn) (skip_space r)). apply Hf. lia.
  - destruct (param_value syn v None) as [[[x y] r]|] eqn:Ev; [|done]. apply param_value_len in Ev. apply Hf. lia.
Qed.

(** ** Positions in a text that grows *)

Section positions.
Context (raw more : bytes).

Lemma skip_from_space pos : (pos <= length raw)%nat → skip_space (drop (skip_space_from raw pos) (raw ++ more)) = skip_space (drop pos (raw ++ more)).
Proof.
  intros Hp. pose proof (skip_from_resume raw more pos Hp) as H. destruct (skip_from_alt raw pos Hp) as [_ Hb].
  destruct (skip_from_alt (raw ++ more) pos) as [<- _]; [rewrite length_app; lia|]. rewrite <- H.
  destruct (skip_from_alt (raw ++ more) (skip_space_from raw pos)) as [<- _]; [rewrite length_app; lia|done].
Qed.

(** Where the white space ends within the text, the next byte is not one. *)
Lemma skip_from_stop pos : (pos <= length raw)%nat → (skip_space_from raw pos < length raw)%nat →
  skip_space (drop (skip_space_from raw pos) (raw ++ more)) = drop (skip_space_from raw pos) (raw ++ more).
Proof.
  intros Hp Hl. rewrite skip_from_space by done. destruct (skip_from_alt (raw ++ more) pos) as [<- _]; [rewrite length_app; lia|].
  by rewrite skip_from_more.
Qed.

Lemma full_strip pos lit : raw_full_lit raw pos lit = true → strip_prefix lit (drop pos (raw ++ more)) = Some (drop (pos + length lit) (raw ++ more)).
Proof.
  intros H%(full_more raw more). apply full_occurs in H as (_ & post & H). rewrite H, strip_prefix_app. f_equal.
  rewrite <- drop_drop, H. by rewrite drop_app_length.
Qed.

Lemma gt_index pos e : (pos <= length raw)%nat → after_gt raw pos = Some e →
  index_of 62 (drop pos (raw ++ more)) = Some (e - pos - 1)%nat ∧ S (e - pos - 1) = (e - pos)%nat.
Proof.
  intros Hp H. pose proof (after_gt_bound _ _ _ H). apply (after_gt_more raw more) in H. unfold after_gt in H.
  destruct (index_of 62 (drop pos (raw ++ more))) as [i|]; [|done]. injection H as <-. split; [f_equal|]; lia.
Qed.

Lemma span_more a b : (b <= length raw)%nat → text_span (raw ++ more) a b = text_span raw a b.
Proof.
  intros Hb. unfold text_span. destruct (Nat.le_gt_cases a (length raw)).
  - rewrite drop_app_le by done. rewrite take_app_le; [done|]. rewrite length_drop. lia.
  - replace (b - a)%nat with 0%nat by lia. by rewrite !take_0.
Qed.
End positions.

Lemma span_split raw a b c : (a <= b <= c)%nat → (c <= length raw)%nat → text_span raw a c = text_span raw a b ++ text_span raw b c.
Proof.
  intros H Hc. unfold text_span. rewrite <- (take_drop (b - a) (drop a raw)) at 1. rewrite drop_drop. replace (a + (b - a))%nat with b by lia.
  rewrite take_app_ge by (rewrite length_take, length_drop; lia). f_equal. f_equal. rewrite length_take, length_drop. lia.
Qed.

(** ** Values cut into pieces *)

(** The piece [x] of a value as it stands in the arguments. *)
Definition piece (is_string : bool) (x : bytes) : bytes := if is_string then dsml_unescape_text x ≫= escape_char else x.

(** The value from [v] on may be decoded in two pieces, whatever follows. *)
Definition value_cut (raw : bytes) (v pos : nat) (is_string : bool) : Prop :=
  (v <= pos <= length raw)%nat ∧
  (is_string = true → ∀ more c, (pos <= c <= length (raw ++ more))%nat →
    dsml_unescape_text (text_span (raw ++ more) v c) = dsml_unescape_text (text_span raw v pos) ++ dsml_unescape_text (text_span (raw ++ more) pos c)).

Lemma span_nil raw a : text_span raw a a = [].
Proof. unfold text_span. by rewrite Nat.sub_diag, take_0. Qed.

Lemma cut_start raw v is_string : (v <= length raw)%nat → value_cut raw v v is_string.
Proof. intros Hv. split; [lia|]. intros _ more c _. by rewrite span_nil. Qed.

Lemma cut_more raw more v pos is_string : value_cut raw v pos is_string → value_cut (raw ++ more) v pos is_string.
Proof.
  intros [Hb Hc]. split; [rewrite length_app; lia|]. intros Hi m c Hl. rewrite <- (app_assoc raw more m) in *.
  rewrite (span_more raw more v pos) by lia. by apply Hc.
Qed.

Lemma clean_cut_span raw more start l c : clean_cut raw start l → (l <= c <= length (raw ++ more))%nat →
  dsml_unescape_text (text_span (raw ++ more) start c) = dsml_unescape_text (text_span raw start l) ++ dsml_unescape_text (text_span (raw ++ more) l c).
Proof.
  intros Hcl Hc. pose proof Hcl as [Hb _]. rewrite (span_split _ start l c) by lia. rewrite (span_more raw more start l) by lia. apply unescape_cut.
  intros p1 p2 e x Hp Hne Hin Hl post E. apply (cut_straddle raw more start l Hcl p1 p2 e x Hp Hne Hin Hl (post ++ drop c (raw ++ more))).
  rewrite app_assoc, <- E, <- app_assoc. f_equal. unfold text_span. rewrite <- (take_drop (c - l) (drop l (raw ++ more))) at 1. f_equal.
  rewrite drop_drop. f_equal. lia.
Qed.

Lemma cut_trans raw v pos l is_string : value_cut raw v pos is_string → (pos <= l <= length raw)%nat → (is_string = true → clean_cut raw pos l) →
  value_cut raw v l is_string.
Proof.
  intros [Hb Hc] Hl Hcl. split; [lia|]. intros Hi more c Hm. specialize (Hc Hi). rewrite (Hc more c) by lia.
  rewrite (clean_cut_span raw more pos l c) by auto. rewrite app_assoc. f_equal. specialize (Hc [] l). rewrite app_nil_r in Hc. symmetry. apply Hc. lia.
Qed.

Lemma cut_pieces raw v pos c is_string : value_cut raw v pos is_string → (pos <= c <= length raw)%nat →
  piece is_string (text_span raw v c) = piece is_string (text_span raw v pos) ++ piece is_string (text_span raw pos c).
Proof.
  intros [Hb Hc] Hl. unfold piece. destruct is_string; [|apply span_split; lia]. specialize (Hc eq_refl [] c). rewrite app_nil_r in Hc.
  rewrite Hc by lia. by rewrite bind_app.
Qed.

(** ** Parameters and calls *)

(** The name, the type and the text of a parameter. *)
Definition param : Type := bytes * bytes * bytes.

Definition is_true (type : bytes) : bool := bytes_eqb type (bs "true").

(** The members of the argument object as the parser writes them. *)
Definition parsed_args (ps : list param) : bytes :=
  foldl (λ a p, tool_call_json_args_add a p.1.1 (if is_true p.1.2 then dsml_unescape_text p.2 else p.2) p.1.2) [] ps.

(** One member as the stream sends it, and how it begins. *)
Definition member_head (name : bytes) (is_string : bool) : bytes := json_escape name ++ [58] ++ (if is_string then [34] else []).
Definition member_tail (is_string : bool) : bytes := if is_string then [34] else [].
Definition streamed_member (p : param) : bytes :=
  member_head p.1.1 (is_true p.1.2) ++ piece (is_true p.1.2) p.2 ++ member_tail (is_true p.1.2).

Definition separator (a : bytes) : bytes := match a with [] => [] | _ => [44] end.
Definition streamed_args (ps : list param) : bytes := foldl (λ a p, a ++ separator a ++ streamed_member p) [] ps.

Lemma streamed_args_snoc ps p : streamed_args (ps ++ [p]) = streamed_args ps ++ separator (streamed_args ps) ++ streamed_member p.
Proof. unfold streamed_args. by rewrite foldl_app. Qed.

Lemma parsed_args_snoc ps p : parsed_args (ps ++ [p]) = tool_call_json_args_add (parsed_args ps) p.1.1 (if is_true p.1.2 then dsml_unescape_text p.2 else p.2) p.1.2.
Proof. unfold parsed_args. by rewrite foldl_app. Qed.

Lemma streamed_args_nil ps : streamed_args ps = [] ↔ ps = [].
Proof.
  split; [|by intros ->]. destruct ps as [|p ps _] using rev_ind; [done|]. rewrite streamed_args_snoc. intros H%app_eq_nil.
  destruct H as [_ H%app_eq_nil]. destruct H as [_ H]. unfold streamed_member, member_head, json_escape in H. done.
Qed.

Definition call : Type := bytes * list param.
Definition parsed_call (c : call) : tool_call := ToolCall None (Some c.1) (Some (bs "{" ++ parsed_args c.2 ++ bs "}")).
Definition streamed_call (c : call) : bytes * bytes := (c.1, bs "{" ++ streamed_args c.2 ++ bs "}").

Definition push_parsed (calls : tool_calls) (cs : list call) : tool_calls := foldl (λ z c, tool_calls_push z (parsed_call c)) calls cs.

Lemma push_parsed_snoc calls cs c : push_parsed calls (cs ++ [c]) = tool_calls_push (push_parsed calls cs) (parsed_call c).
Proof. unfold push_parsed. by rewrite foldl_app. Qed.

(** ** What a protocol promises *)

(** What the client has got of the calls, the name and the arguments of each, and how
    the events change it. *)
Class ToolView {St Ev : Type} (ops : tool_ops St Ev) := {
  tv_view : list Ev → list (bytes * bytes);
  tv_idle : St → Prop;
  tv_busy : St → Prop;
  tv_start i id n s out : tv_idle s → length (tv_view out) = i →
    iwp (op_start ops i id n s) out (λ s' out', tv_busy s' ∧ tv_view out' = tv_view out ++ [(n, [])]);
  tv_args i t s out cs n a : tv_busy s → tv_view out = cs ++ [(n, a)] → length cs = i → t ≠ [] →
    iwp (op_args ops i t s) out (λ s' out', tv_busy s' ∧ tv_view out' = cs ++ [(n, a ++ t)]);
  tv_stop s out : tv_busy s → iwp (op_stop ops s) out (λ s' out', tv_idle s' ∧ tv_view out' = tv_view out);
}.

Section stream.
Context {St Ev : Type} (ops : tool_ops St Ev) `{!ToolView ops} (known : bytes → bool) (pick : (bytes → bool) → bytes).
Context (syn : dsml_syntax) (Hsyn : syn ∈ dsml_syntaxes) (p0 : nat) (z : tool_calls).

(** The parser on [text] from the start of the block. *)
Definition whole (text : bytes) : option bytes * tool_calls := inv_run syn (drop p0 text) z.

(** The rest of a parameter whose value starts at [v]. *)
Definition after_value (text : bytes) (ps : list param) (name type : bytes) (v : nat) : option (bytes * bytes) :=
  match param_value syn (drop v text) (Some type) with
  | None => None
  | Some (value, type, q) => par_run syn q (tool_call_json_args_add (parsed_args ps) name value type)
  end.

(** The invariant: what the client has got, and how the parser goes on. *)
Definition between_invokes raw (t : tool_stream) (s : St) (out : list Ev) : Prop :=
  ∃ cs, tv_idle s ∧ ts_index t = length cs ∧ tv_view out = streamed_call <$> cs
    ∧ ∀ more, whole (raw ++ more) = inv_run syn (drop (ts_parse_pos t) (raw ++ more)) (push_parsed z cs).

Definition in_call (t : tool_stream) (s : St) (out : list Ev) (cs : list call) (name args : bytes) : Prop :=
  tv_busy s ∧ ts_index t = length cs ∧ ts_args_open t = true ∧ tv_view out = (streamed_call <$> cs) ++ [(name, bs "{" ++ args)].

Definition between_params raw (t : tool_stream) (s : St) (out : list Ev) : Prop :=
  ∃ cs name ps, in_call t s out cs name (streamed_args ps) ∧ ts_first_param t = bool_decide (ps = [])
    ∧ ∀ more, whole (raw ++ more) = after_params syn (push_parsed z cs) name (par_run syn (drop (ts_parse_pos t) (raw ++ more)) (parsed_args ps)).

Definition in_value raw (t : tool_stream) (s : St) (out : list Ev) : Prop :=
  ∃ cs name ps pname type v,
    in_call t s out cs name (streamed_args ps ++ separator (streamed_args ps) ++ member_head pname (is_true type)
                             ++ piece (is_true type) (text_span raw v (ts_parse_pos t)))
    ∧ ts_first_param t = false ∧ ts_param_is_string t = is_true type ∧ value_cut raw v (ts_parse_pos t) (is_true type)
    ∧ (∀ more q, (v <= q < ts_parse_pos t)%nat → ¬ occurs (raw ++ more) (param_end syn) q)
    ∧ ∀ more, whole (raw ++ more) = after_params syn (push_parsed z cs) name (after_value (raw ++ more) ps pname type v).

Definition finished raw (t : tool_stream) (s : St) (out : list Ev) : Prop :=
  ∃ cs, tv_idle s ∧ tv_view out = streamed_call <$> cs ∧ ∀ more, whole (raw ++ more) = (Some (drop (ts_parse_pos t) (raw ++ more)), push_parsed z cs).

Definition streaming raw (t : tool_stream) (s : St) (out : list Ev) : Prop :=
  ts_syn t = syn ∧ (ts_parse_pos t <= length raw)%nat ∧
  match ts_state t with
  | DSML_TOOL_BETWEEN_INVOKES => ts_active t = true ∧ between_invokes raw t s out
  | DSML_TOOL_BETWEEN_PARAMS => ts_active t = true ∧ between_params raw t s out
  | DSML_TOOL_PARAM_VALUE => ts_active t = true ∧ in_value raw t s out
  | DSML_TOOL_DONE => ts_active t = false ∧ finished raw t s out
  | DSML_TOOL_ERROR => ts_active t = false ∧ (tv_idle s ∨ tv_busy s)
  end.

Lemma streaming_more raw more t s out : streaming raw t s out → streaming (raw ++ more) t s out.
Proof.
  intros (Es & Hp & H). split_and!; [done|rewrite length_app; lia|]. destruct (ts_state t); destruct H as [Ha H]; (split; [done|]).
  - destruct H as (cs & ? & ? & ? & H). exists cs. split_and!; [done..|]. intros m. rewrite <- app_assoc. apply H.
  - destruct H as (cs & n & ps & ? & ? & H). exists cs, n, ps. split_and!; [done..|]. intros m. rewrite <- app_assoc. apply H.
  - destruct H as (cs & n & ps & pn & ty & v & Hc & ? & ? & Hcut & Hno & H). exists cs, n, ps, pn, ty, v.
    rewrite span_more by done. split_and!; [done..|by apply cut_more| |]; intros m; rewrite <- app_assoc; [apply Hno|apply H].
  - destruct H as (cs & ? & ? & H). exists cs. split_and!; [done..|]. intros m. rewrite <- app_assoc. apply H.
  - done.
Qed.

Lemma emit_args t text s out cs name args : in_call t s out cs name args →
  iwp (tool_emit_args_fragment ops t text s) out (λ s' out', in_call t s' out' cs name (args ++ text)).
Proof.
  intros (Hb & Hi & Ho & Hv). unfold tool_emit_args_fragment. destruct text as [|c text]; [apply iwp_ret; by rewrite app_nil_r|].
  eapply iwp_mono; [eapply tv_args; [done|done|by rewrite length_fmap|done]|]. intros s' out' [Hb' Hv']. split_and!; try done; by rewrite Hv', app_assoc.
Qed.

Lemma emit_value raw t upto s out cs name args is_string : ts_param_is_string t = is_string → in_call t s out cs name args →
  (ts_parse_pos t <= upto)%nat →
  iwp (tool_emit_value ops raw t upto s) out (λ s' out', in_call t s' out' cs name (args ++ piece is_string (text_span raw (ts_parse_pos t) upto))).
Proof.
  intros Hi Hc Hle. unfold tool_emit_value. rewrite Hi. destruct (Nat.ltb_spec (ts_parse_pos t) upto).
  - destruct is_string; [|by apply emit_args]. unfold tool_emit_string_value, json_escape_fragment_n. rewrite take_ge by lia.
    destruct (text_span raw (ts_parse_pos t) upto) as [|c x] eqn:E; [|by apply emit_args].
    apply iwp_ret. unfold piece. cbn. by rewrite app_nil_r.
  - replace upto with (ts_parse_pos t) by lia. rewrite span_nil. apply iwp_ret. destruct is_string; by rewrite app_nil_r.
Qed.

(** ** A round keeps the invariant *)

(** What a round gives: the invariant, and a round that goes on has moved ahead or has
    come to an end. *)
Definition round_ok raw (t : tool_stream) (r : St * tool_stream * bool) (out : list Ev) : Prop :=
  streaming raw r.1.2 r.1.1 out ∧ (r.2 = true → (ts_parse_pos t < ts_parse_pos r.1.2)%nat ∨ ts_active r.1.2 = false).

Lemma waits_refl t : tag_waits t t = true.
Proof. unfold tag_waits. by rewrite Nat.eqb_refl, bool_decide_eq_true_2. Qed.

Lemma other_tag raw more pos a b : (pos <= length raw)%nat → a ∈ tags syn → b ∈ tags syn → a ≠ b → raw_full_lit raw pos b = true →
  strip_prefix a (drop pos (raw ++ more)) = None.
Proof.
  intros Hp Ha Hb Hne Hf. pose proof (tag_apart_more raw more syn pos a b Hsyn Ha Hb Hne Hf) as H.
  destruct (strip_prefix a (drop pos (raw ++ more))) as [r|] eqn:E; [|done]. exfalso. apply strip_prefix_Some in E.
  apply not_true_iff_false in H. apply H, full_occurs. split; [rewrite length_app; lia|]. by exists r.
Qed.

Lemma tags_differ : tool_calls_end syn ≠ invoke_start syn ∧ invoke_end syn ≠ param_start syn.
Proof. apply list_elem_of_In in Hsyn. destruct Hsyn as [<-|[<-|[<-|[]]]]; split; vm_compute; discriminate. Qed.

(** Where a block ends or an invocation starts. *)
Lemma run_block_end raw more pos calls : (pos <= length raw)%nat → (skip_space_from raw pos < length raw)%nat →
  raw_full_lit raw (skip_space_from raw pos) (tool_calls_end syn) = true →
  inv_run syn (drop pos (raw ++ more)) calls = (Some (drop (skip_space_from raw pos + length (tool_calls_end syn)) (raw ++ more)), calls).
Proof.
  intros Hp Hl Hf. rewrite (inv_run_skip syn _ (drop (skip_space_from raw pos) (raw ++ more))) by (by rewrite skip_from_space).
  rewrite inv_run_eq, skip_from_stop by done. by rewrite (full_strip raw more _ _ Hf).
Qed.

Lemma run_invoke raw more pos e name calls : (pos <= length raw)%nat → (skip_space_from raw pos < length raw)%nat →
  raw_full_lit raw (skip_space_from raw pos) (invoke_start syn) = true → after_gt raw (skip_space_from raw pos) = Some e →
  dsml_attr (text_span raw (skip_space_from raw pos) e) (bs "name") = Some name →
  inv_run syn (drop pos (raw ++ more)) calls = after_params syn calls name (par_run syn (drop e (raw ++ more)) []).
Proof.
  intros Hp Hl Hf He Ha. rewrite (inv_run_skip syn _ (drop (skip_space_from raw pos) (raw ++ more))) by (by rewrite skip_from_space).
  rewrite inv_run_eq, skip_from_stop by done. set (q := skip_space_from raw pos) in *. pose proof (after_gt_bound _ _ _ He) as Hb.
  rewrite (other_tag raw more q (tool_calls_end syn) (invoke_start syn)); [|lia|by left|by do 2 right; left|apply tags_differ|done].
  rewrite (full_strip raw more _ _ Hf). destruct (gt_index raw more q e ltac:(lia) He) as [-> ->]. cbn [mbind].
  fold (text_span (raw ++ more) q e). rewrite span_more, Ha by lia. do 2 f_equal. rewrite drop_drop. f_equal. lia.
Qed.

(** Where an invocation ends or a parameter starts. *)
Lemma run_invoke_end raw more pos args : (pos <= length raw)%nat → (skip_space_from raw pos < length raw)%nat →
  raw_full_lit raw (skip_space_from raw pos) (invoke_end syn) = true →
  par_run syn (drop pos (raw ++ more)) args = Some (args, drop (skip_space_from raw pos + length (invoke_end syn)) (raw ++ more)).
Proof.
  intros Hp Hl Hf. rewrite (par_run_skip syn _ (drop (skip_space_from raw pos) (raw ++ more))) by (by rewrite skip_from_space).
  rewrite par_run_eq, skip_from_stop by done. by rewrite (full_strip raw more _ _ Hf).
Qed.

Lemma run_param raw more pos e ps name type : (pos <= length raw)%nat → (skip_space_from raw pos < length raw)%nat →
  raw_full_lit raw (skip_space_from raw pos) (param_start syn) = true → after_gt raw (skip_space_from raw pos) = Some e →
  dsml_attr (text_span raw (skip_space_from raw pos) e) (bs "name") = Some name →
  dsml_attr (text_span raw (skip_space_from raw pos) e) (bs "string") = Some type →
  par_run syn (drop pos (raw ++ more)) (parsed_args ps) = after_value (raw ++ more) ps name type e.
Proof.
  intros Hp Hl Hf He Hn Ht. rewrite (par_run_skip syn _ (drop (skip_space_from raw pos) (raw ++ more))) by (by rewrite skip_from_space).
  rewrite par_run_eq, skip_from_stop by done. set (q := skip_space_from raw pos) in *. pose proof (after_gt_bound _ _ _ He) as Hb.
  rewrite (other_tag raw more q (invoke_end syn) (param_start syn)); [|lia|by right; left|by do 3 right; left|apply tags_differ|done].
  unfold param_tag. rewrite (full_strip raw more _ _ Hf). destruct (gt_index raw more q e ltac:(lia) He) as [-> ->].
  fold (text_span (raw ++ more) q e). rewrite span_more, Hn, Ht by lia. rewrite drop_drop. replace (q + (e - q))%nat with e by lia. done.
Qed.

Lemma skip_bounds raw pos : (pos <= length raw)%nat → (pos <= skip_space_from raw pos <= length raw)%nat.
Proof. intros H. by apply skip_from_alt. Qed.

(** The state after white space. *)
Lemma between_invokes_move raw t s out : (ts_parse_pos t <= length raw)%nat → between_invokes raw t s out →
  between_invokes raw (ts_move (skip_space_from raw (ts_parse_pos t)) t) s out.
Proof.
  intros Hp (cs & ? & ? & ? & H). exists cs. split_and!; [done..|]. intros more. rewrite H. apply inv_run_skip. symmetry. by apply skip_from_space.
Qed.

Lemma between_params_move raw t s out : (ts_parse_pos t <= length raw)%nat → between_params raw t s out →
  between_params raw (ts_move (skip_space_from raw (ts_parse_pos t)) t) s out.
Proof.
  intros Hp (cs & n & ps & ? & ? & H). exists cs, n, ps. split_and!; [done..|]. intros more. rewrite H. f_equal. apply par_run_skip.
  symmetry. by apply skip_from_space.
Qed.

Lemma failed raw t s out : ts_syn t = syn → (ts_parse_pos t <= length raw)%nat → tv_idle s ∨ tv_busy s → streaming raw (tool_stream_fail t) s out.
Proof. intros Es Hp Hs. by split_and!. Qed.

Lemma stream_id_keeps t i : ∃ ids, (tool_stream_id known pick t i).2 = ts_set_ids ids t.
Proof. unfold tool_stream_id. destruct (ts_ids t !! i) as [id|]; [exists (ts_ids t); by destruct t|by eexists]. Qed.

Lemma start_invoke raw t s out : ts_syn t = syn → ts_state t = DSML_TOOL_BETWEEN_INVOKES → ts_active t = true →
  (ts_parse_pos t < length raw)%nat → skip_space_from raw (ts_parse_pos t) = ts_parse_pos t → raw_full_lit raw (ts_parse_pos t) (invoke_start syn) = true →
  between_invokes raw t s out →
  iwp (let* '(s, t') := tool_start_invoke ops known pick raw t s in iret (s, t', negb (tag_waits t t'))) out (round_ok raw t).
Proof.
  intros Es Et Ea Hp Hsk Hf Hb. pose proof Hb as (cs & Hidle & Hi & Hv & Hrun). apply iwp_bind. unfold tool_start_invoke.
  destruct (after_gt raw (ts_parse_pos t)) as [e|] eqn:He.
  2: { do 2 apply iwp_ret. rewrite waits_refl. split; [|done]. split_and!; cbn; [done|lia|]. rewrite Et. by split. }
  destruct (dsml_attr _ _) as [name|] eqn:Hn.
  2: { do 2 apply iwp_ret. split; [apply failed; [done|lia|by left]|by right]. }
  destruct (stream_id_keeps t (ts_index t)) as [ids Hids]. destruct (tool_stream_id known pick t (ts_index t)) as [id t1]. cbn in Hids. subst t1.
  apply iwp_bind. eapply iwp_mono; [apply tv_start; [done|by rewrite Hv, length_fmap]|]. intros s1 out1 [Hbusy Hv1]. apply iwp_bind.
  eapply iwp_mono; [eapply (tv_args _ _ _ _ (streamed_call <$> cs) name []); [done|by rewrite Hv1, Hv|by rewrite length_fmap|done]|].
  intros s2 out2 [Hbusy2 Hv2]. do 2 apply iwp_ret. pose proof (after_gt_bound _ _ _ He).
  split; [|intros _; left; cbn; lia]. split_and!; [done|cbn; lia|]. split; [done|]. exists cs, name, []. split_and!; [|done|].
  { split_and!; [done|done|done|]. by rewrite Hv2. }
  intros more. rewrite Hrun. rewrite <- Hsk in He, Hf, Hn. by apply (run_invoke raw more (ts_parse_pos t) e name); [lia|lia|..].
Qed.

Lemma start_param raw t s out : ts_syn t = syn → ts_state t = DSML_TOOL_BETWEEN_PARAMS → ts_active t = true →
  (ts_parse_pos t < length raw)%nat → skip_space_from raw (ts_parse_pos t) = ts_parse_pos t → raw_full_lit raw (ts_parse_pos t) (param_start syn) = true →
  between_params raw t s out →
  iwp (let* '(s, t') := tool_start_param ops raw t s in iret (s, t', negb (tag_waits t t'))) out (round_ok raw t).
Proof.
  intros Es Et Ea Hp Hsk Hf Hb. pose proof Hb as (cs & name & ps & Hc & Hfirst & Hrun). apply iwp_bind. unfold tool_start_param.
  destruct (after_gt raw (ts_parse_pos t)) as [e|] eqn:He.
  2: { do 2 apply iwp_ret. rewrite waits_refl. split; [|done]. split_and!; cbn; [done|lia|]. rewrite Et. by split. }
  destruct (dsml_attr _ (bs "name")) as [pname|] eqn:Hn; [destruct (dsml_attr _ (bs "string")) as [type|] eqn:Ht|];
    [|do 2 apply iwp_ret; split; [apply failed; [done|lia|right; apply Hc]|by right]..].
  apply iwp_bind. unfold tool_emit_param_prefix. apply iwp_bind.
  eapply iwp_mono; [apply (emit_args (ts_first false t)); exact Hc|]. intros s1 out1 Hc1. do 3 apply iwp_ret. pose proof (after_gt_bound _ _ _ He).
  split; [|intros _; left; cbn; lia]. split_and!; [done|cbn; lia|]. split; [done|]. exists cs, name, ps, pname, type, e.
  cbn [fst snd ts_parse_pos ts_first_param ts_param_is_string]. split_and!; [|done|done|apply cut_start; lia|intros; lia|].
  { destruct Hc1 as (? & ? & ? & Hv). split_and!; [done|done|done|]. rewrite Hv. do 4 f_equal. rewrite span_nil.
    replace (piece (is_true type) []) with ([] : bytes) by (by destruct (is_true type)). rewrite app_nil_r. f_equal. rewrite Hfirst.
    destruct (decide (ps = [])) as [->|Hne]; [by rewrite bool_decide_eq_true_2|]. rewrite bool_decide_eq_false_2 by done.
    destruct (streamed_args ps) eqn:E; [|done]. by apply streamed_args_nil in E. }
  intros more. rewrite Hrun. f_equal. rewrite <- Hsk in He, Hf, Hn, Ht. by apply (run_param raw more (ts_parse_pos t) e ps pname type); [lia|lia|..].
Qed.

Lemma strstr_at text x v q : (v <= q)%nat → occurs text x q → (∀ q', (v <= q' < q)%nat → ¬ occurs text x q') → strstr (drop v text) x = Some (q - v)%nat.
Proof.
  intros Hv Ho Hno. assert (v <= length text)%nat as Hl by (apply occurs_bound in Ho; lia).
  assert (occurs (drop v text) x (q - v)) as Ho' by (apply occurs_drop; [done|]; by replace (v + (q - v))%nat with q by lia).
  destruct (strstr (drop v text) x) as [i|] eqn:E; [|by destruct (strstr_none_occurs _ _ (q - v)%nat E)].
  apply strstr_occurs in E as [Hi Hmin]. specialize (Hmin _ Ho'). apply occurs_drop in Hi; [|done].
  destruct (Nat.eq_dec i (q - v)%nat) as [->|]; [done|]. destruct (Hno (v + i)%nat); [lia|done].
Qed.

(** The first closing tag from the position on, and how the parser reads the value. *)
Lemma found_end raw t v e : (ts_parse_pos t <= length raw)%nat → (v <= ts_parse_pos t)%nat →
  (∀ more q, (v <= q < ts_parse_pos t)%nat → ¬ occurs (raw ++ more) (param_end syn) q) →
  find_lit_bounded (drop (ts_parse_pos t) raw) (param_end syn) = Some e →
  (ts_parse_pos t + e + length (param_end syn) <= length raw)%nat
  ∧ ∀ more ps name type, after_value (raw ++ more) ps name type v
    = par_run syn (drop (ts_parse_pos t + e + length (param_end syn)) (raw ++ more)) (parsed_args (ps ++ [(name, type, text_span raw v (ts_parse_pos t + e))])).
Proof.
  intros Hp Hv Hno He. rewrite find_lit_strstr in He. apply strstr_occurs in He as [Ho Hmin]. apply occurs_drop in Ho; [|done].
  pose proof (occurs_bound _ _ _ Ho) as Hb. set (q := (ts_parse_pos t + e)%nat) in *. split; [lia|]. intros more ps name type.
  unfold after_value, param_value. rewrite (strstr_at (raw ++ more) (param_end syn) v q).
  - fold (text_span (raw ++ more) v q). rewrite span_more by lia. rewrite parsed_args_snoc. cbn [default fst snd]. unfold is_true.
    rewrite drop_drop. by replace (v + (q - v + length (param_end syn)))%nat with (q + length (param_end syn))%nat by lia.
  - lia.
  - by apply occurs_more.
  - intros q' Hq' Ho'. destruct (Nat.lt_ge_cases q' (ts_parse_pos t)); [by apply (Hno more q'); [lia|]|].
    apply occurs_app_l in Ho'; [|lia]. replace q' with (ts_parse_pos t + (q' - ts_parse_pos t))%nat in Ho' by lia.
    apply occurs_drop in Ho'; [|done]. specialize (Hmin _ Ho'). unfold q in *. lia.
Qed.

Lemma finish_value raw t s out e : ts_syn t = syn → ts_active t = true → (ts_parse_pos t <= length raw)%nat →
  in_value raw t s out → find_lit_bounded (drop (ts_parse_pos t) raw) (param_end syn) = Some e →
  iwp (let* '(s, t) := tool_finish_param ops raw (ts_parse_pos t + e) t s in iret (s, t, true)) out (round_ok raw t).
Proof.
  intros Es Ea Hp (cs & name & ps & pname & type & v & Hc & Hf & Hi & Hcut & Hno & Hrun) He. pose proof Hcut as [Hvp _].
  destruct (found_end raw t v e Hp ltac:(lia) Hno He) as [Hb Hpar]. apply iwp_bind. unfold tool_finish_param. apply iwp_bind.
  eapply iwp_mono; [apply (emit_value raw t (ts_parse_pos t + e) s out cs name _ (is_true type) Hi Hc); lia|]. cbn beta. intros s1 out1 Hc1. apply iwp_bind.
  apply (iwp_mono _ _ (λ s' out', in_call t s' out' cs name (streamed_args (ps ++ [(pname, type, text_span raw v (ts_parse_pos t + e))])))).
  - assert (∀ s' out' x, in_call t s' out' cs name x → x = streamed_args (ps ++ [(pname, type, text_span raw v (ts_parse_pos t + e))]) →
      in_call t s' out' cs name (streamed_args (ps ++ [(pname, type, text_span raw v (ts_parse_pos t + e))]))) as Hsub by (intros ??? H ->; exact H).
    rewrite streamed_args_snoc in *. unfold streamed_member, member_tail in *. cbn [fst snd] in *.
    rewrite (cut_pieces raw v (ts_parse_pos t) (ts_parse_pos t + e)) in * by (try done; lia). rewrite Hi.
    destruct (is_true type).
    + eapply iwp_mono; [apply emit_args; exact Hc1|]. cbn beta. intros s2 out2 Hc2. eapply Hsub; [exact Hc2|]. by rewrite <- !app_assoc.
    + apply iwp_ret. eapply Hsub; [exact Hc1|]. by rewrite !app_nil_r, <- !app_assoc.
  - cbn beta. intros s2 out2 Hc2. do 2 apply iwp_ret. pose proof (tags_nonempty syn Hsyn) as Hne. apply Forall_cons in Hne as [Hne _]. rewrite Es.
    split; [|intros _; left; cbn; lia]. split_and!; [done|cbn; lia|]. split; [done|].
    exists cs, name, (ps ++ [(pname, type, text_span raw v (ts_parse_pos t + e))]). split_and!; [done| |].
    + cbn. rewrite Hf. symmetry. apply bool_decide_eq_false_2. by destruct ps.
    + intros more. rewrite Hrun. cbn [fst snd ts_parse_pos ts_goto]. f_equal. apply Hpar.
Qed.

Lemma wait_value raw t s out : ts_syn t = syn → ts_state t = DSML_TOOL_PARAM_VALUE → ts_active t = true → (ts_parse_pos t <= length raw)%nat →
  in_value raw t s out → find_lit_bounded (drop (ts_parse_pos t) raw) (param_end syn) = None →
  let limit := tool_param_value_stream_safe_len raw (ts_parse_pos t) (param_end syn) (ts_param_is_string t) in
  iwp (let* s := tool_emit_value ops raw t limit s in iret (s, if (ts_parse_pos t <? limit)%nat then ts_move limit t else t, false)) out (round_ok raw t).
Proof.
  intros Es Et Ea Hp (cs & name & ps & pname & type & v & Hc & Hf & Hi & Hcut & Hno & Hrun) He. cbn zeta. pose proof Hcut as [Hvp _].
  destruct (param_limit_spec raw (ts_parse_pos t) syn (ts_param_is_string t) Hp Hsyn) as (Hb & Hheld & Hclean).
  set (limit := tool_param_value_stream_safe_len _ _ _ _) in *. clearbody limit. apply iwp_bind.
  eapply iwp_mono; [apply (emit_value raw t limit s out cs name _ (is_true type) Hi Hc); lia|]. cbn beta. intros s1 out1 Hc1. apply iwp_ret.
  split; [|done]. cbn [fst snd]. assert ((if (ts_parse_pos t <? limit)%nat then ts_move limit t else t) = ts_move limit t) as ->.
  { destruct (Nat.ltb_spec (ts_parse_pos t) limit); [done|]. replace limit with (ts_parse_pos t) by lia. by destruct t. }
  split_and!; [done|cbn; lia|]. cbn [ts_move ts_state]. rewrite Et. split; [done|]. exists cs, name, ps, pname, type, v.
  cbn [ts_parse_pos ts_move ts_first_param ts_param_is_string]. split_and!; [|done|done|..|done].
  - rewrite (cut_pieces raw v (ts_parse_pos t) limit) by (try done; lia). rewrite !app_assoc. rewrite !app_assoc in Hc1. exact Hc1.
  - eapply cut_trans; [done|lia|]. intros H. apply Hclean. congruence.
  - intros more q Hq Ho. destruct (Nat.lt_ge_cases q (ts_parse_pos t)); [by apply (Hno more q); [lia|]|].
    assert (¬ occurs raw (param_end syn) q) as Hnr.
    { intros Hr. rewrite find_lit_strstr in He. replace q with (ts_parse_pos t + (q - ts_parse_pos t))%nat in Hr by lia.
      apply occurs_drop in Hr; [|done]. by apply strstr_none_occurs in Hr. }
    specialize (Hheld more q ltac:(lia) Ho Hnr). lia.
Qed.

Lemma round_ok_le raw t t' r out : (ts_parse_pos t <= ts_parse_pos t')%nat → round_ok raw t' r out → round_ok raw t r out.
Proof. intros H [H1 H2]. split; [done|]. intros Hr. destruct (H2 Hr); [left; lia|by right]. Qed.

Lemma skip_idem raw pos : (pos <= length raw)%nat → skip_space_from raw (skip_space_from raw pos) = skip_space_from raw pos.
Proof. intros H. pose proof (skip_from_resume raw [] pos H) as E. by rewrite app_nil_r in E. Qed.

Lemma round_streaming raw t s out : streaming raw t s out → ts_active t = true → (ts_parse_pos t < length raw)%nat →
  iwp (tool_round ops known pick raw t s) out (round_ok raw t).
Proof.
  intros (Es & Hp & H) Ha Hl. unfold tool_round. pose proof (skip_bounds raw _ Hp) as Hsk. pose proof (skip_idem raw _ Hp) as Hid. rewrite Es.
  destruct (ts_state t) eqn:Et; destruct H as [Hact H]; try congruence.
  - apply (between_invokes_move raw t s out Hp) in H. set (t1 := ts_move (skip_space_from raw (ts_parse_pos t)) t) in *.
    assert (streaming raw t1 s out) as Hst by (split_and!; [done|cbn; lia|]; cbn [ts_state t1 ts_move]; rewrite Et; by split).
    destruct (Nat.leb_spec (length raw) (skip_space_from raw (ts_parse_pos t))); [apply iwp_ret; by split|].
    destruct (raw_full_lit raw _ (tool_calls_end syn)) eqn:Hend.
    { apply iwp_ret. split; [|done]. pose proof (full_bound _ _ _ Hend). split_and!; [done|cbn; lia|]. split; [done|].
      destruct H as (cs & ? & _ & ? & Hrun). exists cs. split_and!; [done..|]. intros more. rewrite Hrun. cbn [fst snd ts_parse_pos ts_stop t1 ts_move].
      rewrite run_block_end; rewrite ?Hid; try done; cbn; lia. }
    destruct (raw_partial_any raw _ _ _); [apply iwp_ret; by split|].
    destruct (raw_full_lit raw _ (invoke_start syn)) eqn:Hinv.
    + eapply iwp_mono; [apply (start_invoke raw t1 s out); done|]. intros r o. apply round_ok_le. cbn. lia.
    + apply iwp_ret. split; [|done]. apply failed; [done|cbn; lia|]. left. by destruct H as (? & ? & _).
  - apply (between_params_move raw t s out Hp) in H. set (t1 := ts_move (skip_space_from raw (ts_parse_pos t)) t) in *.
    assert (streaming raw t1 s out) as Hst by (split_and!; [done|cbn; lia|]; cbn [ts_state t1 ts_move]; rewrite Et; by split).
    destruct (Nat.leb_spec (length raw) (skip_space_from raw (ts_parse_pos t))); [apply iwp_ret; by split|].
    destruct (raw_full_lit raw _ (invoke_end syn)) eqn:Hend.
    { destruct H as (cs & name & ps & Hc & _ & Hrun). pose proof Hc as (Hb & Hi & Ho & Hv). rewrite Ho. apply iwp_bind.
      eapply iwp_mono; [apply emit_args; exact Hc|]. cbn beta. intros s1 out1 (Hb1 & _ & _ & Hv1). apply iwp_bind.
      eapply iwp_mono; [apply tv_stop, Hb1|]. cbn beta. intros s2 out2 [Hidle Hv2]. apply iwp_ret. pose proof (full_bound _ _ _ Hend).
      pose proof (tags_nonempty syn Hsyn) as Hne. do 2 apply Forall_cons in Hne as [_ Hne]. apply Forall_cons in Hne as [Hne _].
      split; [|intros _; left; cbn; lia]. split_and!; [done|cbn; lia|]. split; [done|]. exists (cs ++ [(name, ps)]). split_and!; [done| | |].
      - cbn. rewrite length_app. cbn in *. lia.
      - rewrite Hv2, Hv1, fmap_app. done.
      - intros more. rewrite Hrun, push_parsed_snoc. cbn [fst snd ts_parse_pos t1 ts_move]. rewrite run_invoke_end; rewrite ?Hid; try done; cbn; lia. }
    destruct (raw_partial_any raw _ _ _); [apply iwp_ret; by split|].
    destruct (raw_full_lit raw _ (param_start syn)) eqn:Hpar.
    + eapply iwp_mono; [apply (start_param raw t1 s out); done|]. intros r o. apply round_ok_le. cbn. lia.
    + apply iwp_ret. split; [|done]. apply failed; [done|cbn; lia|]. right. by destruct H as (? & ? & ? & (? & _) & _).
  - destruct (find_lit_bounded _ _) as [e|] eqn:He; [by apply finish_value|by apply wait_value].
Qed.

Lemma loop_streaming raw fuel : ∀ t s out, streaming raw t s out → (length raw - ts_parse_pos t <= fuel)%nat →
  iwp (tool_loop ops known pick fuel raw t s) out (λ r out', streaming raw r.2 r.1 out').
Proof.
  induction fuel as [|fuel IH]; intros t s out H Hf; cbn [tool_loop]; destruct (ts_active t && _) eqn:E; try (by apply iwp_ret);
    apply andb_prop in E as [Ea El%Nat.ltb_lt]; [lia|].
  apply iwp_bind. eapply iwp_mono; [by apply round_streaming|]. intros [[s1 t1] go] out1 [H1 Hgo]. cbn [fst snd] in *.
  destruct go; [|by apply iwp_ret]. destruct (Hgo eq_refl) as [Hm|Hm]; [apply IH; [done|lia]|].
  destruct fuel; cbn [tool_loop]; rewrite Hm; by apply iwp_ret.
Qed.

Lemma update_streaming raw t s out : streaming raw t s out →
  iwp (tool_stream_update ops known pick raw t s) out (λ r out', streaming raw r.2 r.1 out').
Proof. intros H. apply loop_streaming; [done|lia]. Qed.
End stream.
