(* ===== verification/SseStream.v ===== *)
(** * Streaming a generated message

    The live streams of [engine/src/server.c]: [openai_sse_stream_update] and
    [anthropic_sse_stream_update] split a message that is being generated into
    reasoning, content and tool calls and send what is safe to send; with the finish of
    both streams and the text of their events.

    The two functions in the source take the same decisions and differ in the events
    they send. Here one definition takes the events as a record of operations, and each
    protocol is an instance of it. An event is one call of [send_all]; its bytes are a
    function of it, of the identifier of the message, of the time and of the model.
    Where a block cannot be opened because another one is open, the code returns false
    and the model is stuck. *)
From S2P Require Import Prelude CLib Json Request Stream Dsml ToolText ToolStream.

#[local] Open Scope io_scope.

(** ** The split of a message *)

Inductive channel := Reasoning | Content.

Inductive stream_mode := STREAM_THINKING | STREAM_TEXT | STREAM_TOOL | STREAM_SUPPRESS.

#[export] Instance channel_eq_dec : EqDecision channel.
Proof. solve_decision. Defined.
#[export] Instance stream_mode_eq_dec : EqDecision stream_mode.
Proof. solve_decision. Defined.

(** The events of a protocol: a piece of text, which is not empty, the end of what was
    being sent, with whether its closing tag was seen, tool calls, and whether tool
    calls are streamed in an update that is final or not. *)
Record stream_ops (St Ev : Type) := StreamOps {
  so_delta : channel → bytes → St → io Ev St;
  so_close : bool → St → io Ev St;
  so_stream_tools : bool → bool;
  so_tool : tool_ops St Ev;
}.
Arguments so_delta {St Ev} _ _ _ _.
Arguments so_close {St Ev} _ _ _.
Arguments so_stream_tools {St Ev} _ _.
Arguments so_tool {St Ev} _.

Record sse_stream := SseStream {
  ss_mode : stream_mode;
  ss_emit_pos : nat;
  ss_active : bool;
  ss_checked_think_prefix : bool;
  ss_guard_second_reasoning : bool;
  ss_tool : tool_stream;
}.

Definition ss_to (mode : stream_mode) (pos : nat) (st : sse_stream) : sse_stream :=
  SseStream mode pos (ss_active st) (ss_checked_think_prefix st) (ss_guard_second_reasoning st) (ss_tool st).
Definition ss_at (pos : nat) (st : sse_stream) : sse_stream := ss_to (ss_mode st) pos st.
Definition ss_unguard (st : sse_stream) : sse_stream :=
  SseStream (ss_mode st) (ss_emit_pos st) (ss_active st) (ss_checked_think_prefix st) false (ss_tool st).
Definition ss_checked (pos : nat) (st : sse_stream) : sse_stream :=
  SseStream (ss_mode st) pos (ss_active st) true (ss_guard_second_reasoning st) (ss_tool st).
Definition ss_with_tool (mode : stream_mode) (t : tool_stream) (st : sse_stream) : sse_stream :=
  SseStream mode (ss_emit_pos st) (ss_active st) (ss_checked_think_prefix st) (ss_guard_second_reasoning st) t.

Definition stream_start (think_mode : ds4_think_mode) (has_tools : bool) : sse_stream :=
  let think := ds4_think_mode_enabled think_mode in
  SseStream (if think then STREAM_THINKING else STREAM_TEXT) 0 true false (think && has_tools) tool_stream_zero.

Definition THINK_OPEN : bytes := bs "<think>".
Definition THINK_CLOSE : bytes := bs "</think>".

(** The search for a tool call, when the request has tools. *)
Definition tool_from (has_tools : bool) (raw : bytes) (pos : nat) : option nat := if has_tools then find_any_tool_start (drop pos raw) else None.

(** [a] comes before [b], which may be missing. *)
Definition before (a b : option nat) : bool :=
  match a, b with Some x, Some y => (x <? y)%nat | Some _, None => true | None, _ => false end.

Section update.
Context {St Ev : Type} (ops : stream_ops St Ev) (known : bytes → bool) (pick : (bytes → bool) → bytes) (has_tools : bool).

(** Send from the position up to [limit] on a channel. *)
Definition send_upto (ch : channel) (raw : bytes) (limit : nat) (st : sse_stream) (s : St) : io Ev (St * sse_stream) :=
  if (ss_emit_pos st <? limit)%nat then
    let* s := so_delta ops ch (text_span raw (ss_emit_pos st) limit) s in iret (s, ss_at limit st)
  else iret (s, st).

(** The opening tag that the model may repeat; [None] while it may still come. *)
Definition skip_think_open (raw : bytes) (final : bool) (st : sse_stream) : option sse_stream :=
  if ss_checked_think_prefix st then Some st
  else if (length raw <? length THINK_OPEN)%nat && bytes_eqb raw (take (length raw) THINK_OPEN) && negb final then None
  else Some (ss_checked (match strip_prefix THINK_OPEN raw with Some _ => length THINK_OPEN | None => ss_emit_pos st end) st).

(** The part of the update in thinking mode; the boolean says whether it goes on. *)
Definition update_thinking (raw : bytes) (final : bool) (st : sse_stream) (s : St) : io Ev (St * sse_stream * bool) :=
  match skip_think_open raw final st with
  | None => iret (s, st, false)
  | Some st =>
      let pos := ss_emit_pos st in
      let close := strstr (drop pos raw) THINK_CLOSE in
      let tool := tool_from has_tools raw pos in
      let tool_before_close := before tool close in
      let hold := (length THINK_CLOSE - 1)%nat in
      let limit :=
        match tool_before_close, tool, close with
        | true, Some t, _ => trim_tool_separator_ws raw pos (pos + t)
        | _, _, Some c => (pos + c)%nat
        | _, _, None =>
            if final then length raw
            else utf8_stream_safe_len (Some raw) pos (if (hold <? length raw)%nat then (length raw - hold)%nat else pos) false
        end in
      let* '(s, st) := send_upto Reasoning raw limit st s in
      match tool_before_close, tool, close with
      | true, Some t, _ =>
          match find_any_tool_end (drop (pos + t) raw) with
          | Some _ => let* s := so_close ops false s in iret (s, ss_to STREAM_SUPPRESS (pos + t) st, false)
          | None => iret (s, st, false)
          end
      | _, _, Some c => let* s := so_close ops true s in iret (s, ss_to STREAM_TEXT (pos + c + length THINK_CLOSE) st, true)
      | _, _, None =>
          if final then let* s := so_close ops false s in iret (s, ss_to STREAM_SUPPRESS (ss_emit_pos st) st, false)
          else iret (s, st, false)
      end
  end.

(** A second pass of reasoning before the text: held until its closing tag, a tool call
    or the end decides. *)
Definition update_guard (raw : bytes) (final : bool) (st : sse_stream) (s : St) : io Ev (St * sse_stream * bool) :=
  if ss_guard_second_reasoning st then
    let pos := ss_emit_pos st in
    let close := strstr (drop pos raw) THINK_CLOSE in
    let tool := tool_from has_tools raw pos in
    match close, before close tool with
    | Some c, true =>
        let* '(s, st) := send_upto Reasoning raw (pos + c) st s in
        let* s := so_close ops true s in
        iret (s, ss_unguard (ss_at (pos + c + length THINK_CLOSE) st), true)
    | _, _ =>
        if (match tool with None => true | Some _ => false end) && negb final then iret (s, st, false)
        else iret (s, ss_unguard st, true)
    end
  else iret (s, st, true).

Definition update_text (raw : bytes) (final : bool) (st : sse_stream) (s : St) : io Ev (St * sse_stream * bool) :=
  let* '(s, st, go_on) := update_guard raw final st s in
  if negb go_on then iret (s, st, false)
  else
    let pos := ss_emit_pos st in
    let tool := tool_from has_tools raw pos in
    let limit := text_stream_safe_limit raw pos has_tools final in
    let* '(s, st) := send_upto Content raw limit st s in
    match tool with
    | Some t =>
        let* s := so_close ops false s in
        let st := ss_at (pos + t) st in
        if so_stream_tools ops final then
          let '(ts, ok) := tool_stream_init raw (pos + t) in
          iret (s, ss_with_tool (if ok then STREAM_TOOL else STREAM_SUPPRESS) ts st, true)
        else iret (s, ss_to STREAM_SUPPRESS (pos + t) st, true)
    | None =>
        if final then let* s := so_close ops false s in iret (s, ss_to STREAM_SUPPRESS (ss_emit_pos st) st, true)
        else iret (s, st, true)
    end.

(** [openai_sse_stream_update], and [anthropic_sse_stream_update] with its events. *)
Definition sse_stream_update (raw : bytes) (final : bool) (st : sse_stream) (s : St) : io Ev (St * sse_stream) :=
  if negb (ss_active st) then iret (s, st)
  else
    let* '(s, st, go_on) := (match ss_mode st with STREAM_THINKING => update_thinking raw final st s | _ => iret (s, st, true) end) in
    if negb go_on then iret (s, st)
    else
      let* '(s, st, go_on) := (match ss_mode st with STREAM_TEXT => update_text raw final st s | _ => iret (s, st, true) end) in
      if negb go_on then iret (s, st)
      else
        match ss_mode st with
        | STREAM_TOOL =>
            let* '(s, t) := tool_stream_update (so_tool ops) known pick raw (ss_tool st) s in
            iret (s, ss_with_tool (if ts_active t then STREAM_TOOL else STREAM_SUPPRESS) t st)
        | _ => iret (s, st)
        end.
End update.

(** ** OpenAI *)

(** JSON text, written here with single quotes. *)
Definition js (s : string) : bytes := (λ c, if c =? 39 then 34 else c) <$> bs s.

Inductive openai_event :=
  | OaRole
  | OaDelta (ch : channel) (text : bytes)
  | OaToolStart (index : nat) (id name : bytes)
  | OaToolArgs (index : nat) (text : bytes)
  | OaFinish (calls : list tool_call) (finish : bytes)
  | OaUsage (prompt_tokens completion_tokens cached_tokens cache_write_tokens : Z)
  | OaDone.

(** [sent_reasoning] and [sent_content]. *)
Record openai_state := OpenaiState { oa_sent_reasoning : bool; oa_sent_content : bool }.

Section openai.
Context (send : nat → bool).

Definition sse_chat_delta_n (ch : channel) (text : bytes) : io openai_event unit :=
  match text with [] => iret tt | _ => send_event send (OaDelta ch text) end.
Definition sse_chat_tool_call_start_delta (index : nat) (id name : bytes) : io openai_event unit := send_event send (OaToolStart index id name).
Definition sse_chat_tool_call_args_delta_n (index : nat) (text : bytes) : io openai_event unit :=
  match text with [] => iret tt | _ => send_event send (OaToolArgs index text) end.

Definition openai_ops : stream_ops openai_state openai_event :=
  StreamOps _ _
    (λ ch text s,
      let* _ := sse_chat_delta_n ch text in
      iret (match ch with Reasoning => OpenaiState true (oa_sent_content s) | Content => OpenaiState (oa_sent_reasoning s) true end))
    (λ _, iret) (λ _, true)
    (ToolOps _ _
      (λ index id name s, let* _ := sse_chat_tool_call_start_delta index id name in iret s)
      (λ index text s, let* _ := sse_chat_tool_call_args_delta_n index text in iret s)
      iret).

Definition openai_sse_stream_update (known : bytes → bool) (pick : (bytes → bool) → bytes) (has_tools : bool) (raw : bytes) (final : bool)
    (st : sse_stream) (s : openai_state) : io openai_event (openai_state * sse_stream) :=
  sse_stream_update openai_ops known pick has_tools raw final st s.

Definition clamp_usage_tokens (value max : Z) : Z :=
  if value <? 0 then 0 else if (max >=? 0) && (value >? max) then max else value.

(** [sse_usage_chunk] and the end mark. *)
Definition sse_done (include_usage : bool) (prompt_tokens completion_tokens cache_read cache_write : Z) : io openai_event unit :=
  let* _ := (if include_usage then
               let cached := clamp_usage_tokens cache_read prompt_tokens in
               send_event send (OaUsage prompt_tokens completion_tokens cached (clamp_usage_tokens cache_write (prompt_tokens - cached)))
             else iret tt) in
  send_event send OaDone.

(** The calls are sent whole when none of them was streamed. *)
Definition openai_sse_finish_live (known : bytes → bool) (pick : (bytes → bool) → bytes) (has_tools include_usage : bool) (raw : bytes)
    (st : sse_stream) (s : openai_state) (calls : list tool_call) (finish : bytes)
    (prompt_tokens completion_tokens cache_read cache_write : Z) : io openai_event sse_stream :=
  let* '(s, st) := openai_sse_stream_update known pick has_tools raw true st s in
  let* _ := send_event send (OaFinish (if ts_emitted_any (ss_tool st) then [] else calls) finish) in
  let* _ := sse_done include_usage prompt_tokens completion_tokens cache_read cache_write in
  iret st.
End openai.

Definition append_tool_call_delta_json (id_prefix : bytes) (i : nat) (tc : tool_call) : bytes :=
  js "{'index':" ++ fmt_d (Z.of_nat i)
  ++ js ",'id':" ++ json_escape (default (take 127 (id_prefix ++ bs "_tool_" ++ fmt_d (Z.of_nat i))) (tc_id tc))
  ++ js ",'type':'function','function':{'name':" ++ json_escape (default [] (tc_name tc))
  ++ js ",'arguments':" ++ append_json_object_string (tc_arguments tc) ++ js "}}".

Definition append_tool_call_deltas_json (calls : list tool_call) (id_prefix : bytes) : bytes :=
  bs "[" ++ comma_join (imap (append_tool_call_delta_json id_prefix) calls) ++ bs "]".

(** The bytes of an event; [head] begins every chunk. *)
Definition openai_event_bytes (id : bytes) (now : Z) (model : bytes) (e : openai_event) : bytes :=
  let head := js "data: {'id':'" ++ id ++ js "','object':'chat.completion.chunk','created':" ++ fmt_d now ++ js ",'model':" ++ json_escape model in
  let choice delta := head ++ js ",'choices':[{'index':0,'delta':" ++ delta ++ js ",'finish_reason':null}]}" ++ [10; 10] in
  match e with
  | OaRole => choice (js "{'role':'assistant'}")
  | OaDelta ch text =>
      choice ([123] ++ json_escape (match ch with Reasoning => bs "reasoning_content" | Content => bs "content" end) ++ [58] ++ json_escape text ++ [125])
  | OaToolStart index tool_id name =>
      choice (js "{'tool_calls':[{'index':" ++ fmt_d (Z.of_nat index) ++ js ",'id':" ++ json_escape tool_id
              ++ js ",'type':'function','function':{'name':" ++ json_escape name ++ js ",'arguments':''}}]}")
  | OaToolArgs index text =>
      choice (js "{'tool_calls':[{'index':" ++ fmt_d (Z.of_nat index) ++ js ",'function':{'arguments':" ++ json_escape text ++ js "}}]}")
  | OaFinish calls finish =>
      (match calls with [] => [] | _ => choice (js "{'tool_calls':" ++ append_tool_call_deltas_json calls id ++ [125]) end)
      ++ head ++ js ",'choices':[{'index':0,'delta':{},'finish_reason':" ++ json_escape finish ++ js "}]}" ++ [10; 10]
  | OaUsage p c cached written =>
      head ++ js ",'choices':[],'usage':{'prompt_tokens':" ++ fmt_d p ++ js ",'completion_tokens':" ++ fmt_d c
      ++ js ",'total_tokens':" ++ fmt_d (p + c) ++ js ",'prompt_tokens_details':{'cached_tokens':" ++ fmt_d cached
      ++ js ",'cache_write_tokens':" ++ fmt_d written ++ js "}}}" ++ [10; 10]
  | OaDone => bs "data: [DONE]" ++ [10; 10]
  end.

(** ** Anthropic *)

Inductive anthropic_block_type := ANTH_BLOCK_NONE | ANTH_BLOCK_THINKING | ANTH_BLOCK_TEXT | ANTH_BLOCK_TOOL.

#[export] Instance anthropic_block_type_eq_dec : EqDecision anthropic_block_type.
Proof. solve_decision. Defined.

Inductive anthropic_event :=
  | AnStart (input_tokens cache_read cache_write : Z)
  | AnBlockStart (index : Z) (type : anthropic_block_type)
  | AnToolStart (index : Z) (id name : bytes)
  | AnDelta (index : Z) (type : anthropic_block_type) (text : bytes)
  | AnToolDelta (index : Z) (text : bytes)
  | AnSignature (index : Z) (signature : bytes)
  | AnBlockStop (index : Z)
  | AnMessageDelta (stop_reason : bytes) (completion_tokens : Z)
  | AnMessageStop.

Record anthropic_state := AnthropicState {
  an_open_block : anthropic_block_type;
  an_next_index : Z;
  an_sent_thinking : bool;
  an_sent_text : bool;
}.

Definition an_open (b : anthropic_block_type) (s : anthropic_state) : anthropic_state :=
  AnthropicState b (an_next_index s) (an_sent_thinking s) (an_sent_text s).

Section anthropic.
Context (send : nat → bool) (id : bytes).

Definition anthropic_sse_open_block (type : anthropic_block_type) (s : anthropic_state) : io anthropic_event anthropic_state :=
  if decide (an_open_block s = type) then iret s
  else if decide (an_open_block s = ANTH_BLOCK_NONE) then
    let* _ := send_event send (AnBlockStart (an_next_index s) type) in iret (an_open type s)
  else stuck.

Definition anthropic_sse_open_tool_block (tool_id name : bytes) (s : anthropic_state) : io anthropic_event anthropic_state :=
  if decide (an_open_block s = ANTH_BLOCK_TOOL) then iret s
  else if decide (an_open_block s = ANTH_BLOCK_NONE) then
    let* _ := send_event send (AnToolStart (an_next_index s) tool_id name) in iret (an_open ANTH_BLOCK_TOOL s)
  else stuck.

Definition anthropic_sse_delta_live (type : anthropic_block_type) (text : bytes) (s : anthropic_state) : io anthropic_event unit :=
  match text with [] => iret tt | _ => send_event send (AnDelta (an_next_index s) type text) end.

Definition anthropic_sse_tool_delta_live (text : bytes) (s : anthropic_state) : io anthropic_event unit :=
  match text with [] => iret tt | _ => send_event send (AnToolDelta (an_next_index s) text) end.

Definition anthropic_sse_close_block_live (s : anthropic_state) : io anthropic_event anthropic_state :=
  if decide (an_open_block s = ANTH_BLOCK_NONE) then iret s
  else
    let* _ := (if decide (an_open_block s = ANTH_BLOCK_THINKING) then send_event send (AnSignature (an_next_index s) id) else iret tt) in
    let* _ := send_event send (AnBlockStop (an_next_index s)) in
    iret (AnthropicState ANTH_BLOCK_NONE (an_next_index s + 1) (an_sent_thinking s) (an_sent_text s)).

Definition anthropic_delta (ch : channel) (text : bytes) (s : anthropic_state) : io anthropic_event anthropic_state :=
  let type := match ch with Reasoning => ANTH_BLOCK_THINKING | Content => ANTH_BLOCK_TEXT end in
  let* s := anthropic_sse_open_block type s in
  let* _ := anthropic_sse_delta_live type text s in
  iret (match ch with
        | Reasoning => AnthropicState (an_open_block s) (an_next_index s) true (an_sent_text s)
        | Content => AnthropicState (an_open_block s) (an_next_index s) (an_sent_thinking s) true
        end).

Definition anthropic_ops : stream_ops anthropic_state anthropic_event :=
  StreamOps _ _ anthropic_delta (λ _, anthropic_sse_close_block_live) negb
    (ToolOps _ _
      (λ _ tool_id name s, anthropic_sse_open_tool_block tool_id name s)
      (λ _ text s, let* _ := anthropic_sse_tool_delta_live text s in iret s)
      anthropic_sse_close_block_live).

(** The steps of the tool stream with these events. *)
Definition anthropic_tool_emit_string_value := tool_emit_string_value (so_tool anthropic_ops).
Definition anthropic_tool_emit_param_prefix := tool_emit_param_prefix (so_tool anthropic_ops).
Definition anthropic_tool_start_invoke := tool_start_invoke (so_tool anthropic_ops).
Definition anthropic_tool_start_param := tool_start_param (so_tool anthropic_ops).
Definition anthropic_tool_finish_param := tool_finish_param (so_tool anthropic_ops).
Definition anthropic_tool_stream_update := tool_stream_update (so_tool anthropic_ops).

Definition anthropic_sse_stream_update (known : bytes → bool) (pick : (bytes → bool) → bytes) (has_tools : bool) (raw : bytes) (final : bool)
    (st : sse_stream) (s : anthropic_state) : io anthropic_event (anthropic_state * sse_stream) :=
  sse_stream_update anthropic_ops known pick has_tools raw final st s.

(** [message_start], with an input count that is not negative. *)
Definition anthropic_sse_start_live (prompt_tokens cache_read cache_write : Z) : io anthropic_event anthropic_state :=
  let read := clamp_usage_tokens cache_read prompt_tokens in
  let written := clamp_usage_tokens cache_write (prompt_tokens - read) in
  let* _ := send_event send (AnStart (Z.max 0 (prompt_tokens - read - written)) read written) in
  iret (AnthropicState ANTH_BLOCK_NONE 0 false false).

(** The calls from [i] on that were not streamed. *)
Fixpoint tool_blocks_from (i : nat) (calls : list tool_call) (s : anthropic_state) : io anthropic_event anthropic_state :=
  match calls with
  | [] => iret s
  | tc :: r =>
      let tool_id := match tc_id tc with Some (c :: x) => c :: x | _ => take 127 (bs "toolu_" ++ id ++ [95] ++ fmt_d (Z.of_nat i)) end in
      let* _ := send_event send (AnToolStart (an_next_index s) tool_id (default [] (tc_name tc))) in
      let* _ := send_event send (AnToolDelta (an_next_index s) (append_json_object_or_empty (tc_arguments tc))) in
      let* _ := send_event send (AnBlockStop (an_next_index s)) in
      tool_blocks_from (S i) r (AnthropicState (an_open_block s) (an_next_index s + 1) (an_sent_thinking s) (an_sent_text s))
  end.

Definition anthropic_sse_tool_blocks_live (t : tool_stream) (calls : list tool_call) (s : anthropic_state) : io anthropic_event anthropic_state :=
  let already_streamed := Nat.min (if ts_emitted_any t then ts_index t else 0%nat) (length calls) in
  tool_blocks_from already_streamed (drop already_streamed calls) s.

Definition anthropic_stop_reason (finish : bytes) : bytes :=
  if bytes_eqb finish (bs "tool_calls") then bs "tool_use" else if bytes_eqb finish (bs "length") then bs "max_tokens" else bs "end_turn".

Definition anthropic_sse_stop_live (finish : bytes) (completion_tokens : Z) : io anthropic_event unit :=
  let* _ := send_event send (AnMessageDelta (anthropic_stop_reason finish) completion_tokens) in send_event send AnMessageStop.

Definition anthropic_sse_finish_live (known : bytes → bool) (pick : (bytes → bool) → bytes) (has_tools : bool) (raw : bytes)
    (st : sse_stream) (s : anthropic_state) (calls : list tool_call) (finish : bytes) (completion_tokens : Z) : io anthropic_event sse_stream :=
  let* '(s, st) := anthropic_sse_stream_update known pick has_tools raw true st s in
  let* s := (if an_sent_thinking s && negb (an_sent_text s) && (match calls with [] => true | _ => false end) then
               let* s := anthropic_sse_open_block ANTH_BLOCK_TEXT s in anthropic_sse_close_block_live s
             else iret s) in
  let* s := anthropic_sse_tool_blocks_live (ss_tool st) calls s in
  let* _ := anthropic_sse_stop_live finish completion_tokens in
  iret st.
End anthropic.

Definition sse_event (event data : bytes) : bytes := bs "event: " ++ event ++ [10] ++ bs "data: " ++ data ++ [10; 10].

Definition anthropic_event_bytes (id model : bytes) (e : anthropic_event) : bytes :=
  let at_index name index := js "{'type':'" ++ bs name ++ js "','index':" ++ fmt_d index in
  let start index := at_index "content_block_start"%string index ++ js ",'content_block':{'type':" in
  let delta index := at_index "content_block_delta"%string index ++ js ",'delta':{'type':" in
  match e with
  | AnStart input cache_read cache_write =>
      sse_event (bs "message_start")
        (js "{'type':'message_start','message':{'id':'" ++ id ++ js "','type':'message','role':'assistant','model':" ++ json_escape model
         ++ js ",'content':[],'stop_reason':null,'stop_sequence':null,'usage':{'input_tokens':" ++ fmt_d input
         ++ js ",'output_tokens':0,'cache_read_input_tokens':" ++ fmt_d cache_read
         ++ js ",'cache_creation_input_tokens':" ++ fmt_d cache_write ++ js "}}}")
  | AnBlockStart index type =>
      sse_event (bs "content_block_start")
        (start index ++ match type with ANTH_BLOCK_THINKING => js "'thinking','thinking':'','signature':''}}" | _ => js "'text','text':''}}" end)
  | AnToolStart index tool_id name =>
      sse_event (bs "content_block_start")
        (start index ++ js "'tool_use','id':" ++ json_escape tool_id ++ js ",'name':" ++ json_escape name ++ js ",'input':{}}}")
  | AnDelta index type text =>
      sse_event (bs "content_block_delta")
        (delta index ++ match type with ANTH_BLOCK_THINKING => js "'thinking_delta','thinking':" | _ => js "'text_delta','text':" end
         ++ json_escape text ++ js "}}")
  | AnToolDelta index text =>
      sse_event (bs "content_block_delta") (delta index ++ js "'input_json_delta','partial_json':" ++ json_escape text ++ js "}}")
  | AnSignature index signature =>
      sse_event (bs "content_block_delta") (delta index ++ js "'signature_delta','signature':" ++ json_escape signature ++ js "}}")
  | AnBlockStop index => sse_event (bs "content_block_stop") (at_index "content_block_stop"%string index ++ js "}")
  | AnMessageDelta reason n =>
      sse_event (bs "message_delta")
        (js "{'type':'message_delta','delta':{'stop_reason':" ++ json_escape reason
         ++ js ",'stop_sequence':null},'usage':{'output_tokens':" ++ fmt_d n ++ js "}}")
  | AnMessageStop => sse_event (bs "message_stop") (js "{'type':'message_stop'}")
  end.
