(* ===== verification/SseProps.v ===== *)
(** * The streamed message is the generated one

    Whatever the pieces in which a message is generated, the reasoning, the content and
    the tool calls that a live stream sends are those of the whole text. The theorems
    are proved against what a protocol promises about its events; the OpenAI and the
    Anthropic events keep these promises. *)
From S2P Require Import Prelude CLib Json JsonProps JsonSafe Request RequestProps Stream StreamProps Dsml DsmlProps DsmlText ToolText ToolStream ToolStreamProps SseStream.

#[local] Open Scope io_scope.

(** ** What a protocol promises *)

(** The text that the client has got on a channel, and whether the protocol sends it.
    [sv_state] says which channel is being sent, if any. *)
Class StreamView {St Ev : Type} (ops : stream_ops St Ev) := {
  sv_tool :: ToolView (so_tool ops);
  sv_text : channel → list Ev → bytes;
  sv_shown : channel → bool;
  sv_state : option channel → St → list Ev → Prop;
  sv_idle b s out : so_stream_tools ops b = true → sv_state None s out → tv_idle s;
  sv_delta ch t s out : sv_state None s out ∨ sv_state (Some ch) s out → t ≠ [] →
    iwp (so_delta ops ch t s) out (λ s' out', sv_state (Some ch) s' out' ∧ tv_view out' = tv_view out
      ∧ ∀ c, sv_text c out' = sv_text c out ++ (if decide (c = ch) then if sv_shown ch then t else [] else []));
  sv_close o b s out : sv_state o s out →
    iwp (so_close ops b s) out (λ s' out', sv_state None s' out' ∧ tv_view out' = tv_view out ∧ ∀ c, sv_text c out' = sv_text c out);
  sv_tool_start i id n s c out : sv_text c (op_start (so_tool ops) i id n s out).1 = sv_text c out;
  sv_tool_args i t s c out : sv_text c (op_args (so_tool ops) i t s out).1 = sv_text c out;
  sv_tool_stop s c out : sv_text c (op_stop (so_tool ops) s out).1 = sv_text c out;
}.

(** ** The OpenAI events *)

Definition openai_call_step (cs : list (bytes * bytes)) (e : openai_event) : list (bytes * bytes) :=
  match e with
  | OaToolStart _ _ n => cs ++ [(n, [])]
  | OaToolArgs i t => alter (λ c, (c.1, c.2 ++ t)) i cs
  | _ => cs
  end.
Definition openai_calls (out : list openai_event) : list (bytes * bytes) := foldl openai_call_step [] out.

Definition openai_text (ch : channel) (out : list openai_event) : bytes :=
  out ≫= λ e, match e with OaDelta c t => if decide (c = ch) then t else [] | _ => [] end.

Lemma openai_calls_snoc out e : openai_calls (out ++ [e]) = openai_call_step (openai_calls out) e.
Proof. unfold openai_calls. by rewrite foldl_app. Qed.

Lemma openai_text_snoc ch out e : openai_text ch (out ++ [e]) =
  openai_text ch out ++ match e with OaDelta c t => if decide (c = ch) then t else [] | _ => [] end.
Proof. unfold openai_text. rewrite bind_app. f_equal. destruct e; cbn; by rewrite ?app_nil_r. Qed.

Lemma alter_last {A} (f : A → A) l x i : length l = i → alter f i (l ++ [x]) = l ++ [f x].
Proof. intros <-. induction l as [|y l IH]; [done|]. cbn. f_equal. apply IH. Qed.

#[export] Instance openai_tool_view send : ToolView (so_tool (openai_ops send)).
Proof.
  refine {| tv_view := openai_calls; tv_idle := λ _, True; tv_busy := λ _, True |}.
  - intros i id n s out _ _. apply iwp_bind, iwp_send. split; [done|]. apply openai_calls_snoc.
  - intros i [|c t] s out cs n a _ Hv Hl Ht; [done|]. apply iwp_bind, iwp_send. split; [done|]. rewrite openai_calls_snoc, Hv. cbn [openai_call_step]. by rewrite (alter_last _ cs (n, a) i Hl).
  - intros s out _. by apply iwp_ret.
Defined.

#[export] Instance openai_view send : StreamView (openai_ops send).
Proof.
  refine {| sv_tool := openai_tool_view send; sv_text := openai_text; sv_shown := λ _, true; sv_state := λ _ _ _, True |}.
  - done.
  - intros ch [|c t] s out _ Ht; [done|]. apply iwp_bind, iwp_send. cbn. split_and!; [done|apply openai_calls_snoc|]. intros c'.
    rewrite openai_text_snoc. f_equal. by destruct (decide (ch = c')), (decide (c' = ch)).
  - intros o b s out _. by apply iwp_ret.
  - intros i id n s c out. transitivity (openai_text c (out ++ [OaToolStart i id n])); [|by rewrite openai_text_snoc, app_nil_r].
    cbn. unfold ibind, send_event. by destruct (send (length out)).
  - intros i [|x t] s c out; [done|]. transitivity (openai_text c (out ++ [OaToolArgs i (x :: t)])); [|by rewrite openai_text_snoc, app_nil_r].
    cbn. unfold ibind, send_event. by destruct (send (length out)).
  - done.
Defined.

(** ** The Anthropic events *)

Definition anthropic_call_step (cs : list (bytes * bytes)) (e : anthropic_event) : list (bytes * bytes) :=
  match e with
  | AnToolStart _ _ n => cs ++ [(n, [])]
  | AnToolDelta _ t => alter (λ c, (c.1, c.2 ++ t)) (length cs - 1)%nat cs
  | _ => cs
  end.
Definition anthropic_calls (out : list anthropic_event) : list (bytes * bytes) := foldl anthropic_call_step [] out.

Definition block_of (ch : channel) : anthropic_block_type := match ch with Reasoning => ANTH_BLOCK_THINKING | Content => ANTH_BLOCK_TEXT end.

Definition anthropic_text (ch : channel) (out : list anthropic_event) : bytes :=
  out ≫= λ e, match e with AnDelta _ b t => if decide (b = block_of ch) then t else [] | _ => [] end.

Lemma anthropic_calls_snoc out e : anthropic_calls (out ++ [e]) = anthropic_call_step (anthropic_calls out) e.
Proof. unfold anthropic_calls. by rewrite foldl_app. Qed.

Lemma anthropic_text_snoc ch out e : anthropic_text ch (out ++ [e]) =
  anthropic_text ch out ++ match e with AnDelta _ b t => if decide (b = block_of ch) then t else [] | _ => [] end.
Proof. unfold anthropic_text. rewrite bind_app. f_equal. destruct e; cbn; by rewrite ?app_nil_r. Qed.

(** Closing a block sends nothing of a text or a call. *)
Lemma close_block send id s out : iwp (anthropic_sse_close_block_live send id s) out
  (λ s' out', an_open_block s' = ANTH_BLOCK_NONE ∧ anthropic_calls out' = anthropic_calls out ∧ ∀ c, anthropic_text c out' = anthropic_text c out).
Proof.
  unfold anthropic_sse_close_block_live. destruct (decide (an_open_block s = ANTH_BLOCK_NONE)); [by apply iwp_ret|]. apply iwp_bind.
  destruct (decide (an_open_block s = ANTH_BLOCK_THINKING)).
  - apply iwp_send, iwp_bind, iwp_send, iwp_ret. rewrite !anthropic_calls_snoc. split_and!; [done|done|]. intros c. by rewrite !anthropic_text_snoc, !app_nil_r.
  - apply iwp_ret, iwp_bind, iwp_send, iwp_ret. rewrite !anthropic_calls_snoc. split_and!; [done|done|]. intros c. by rewrite !anthropic_text_snoc, !app_nil_r.
Qed.

#[export] Instance anthropic_tool_view send id : ToolView (so_tool (anthropic_ops send id)).
Proof.
  refine {| tv_view := anthropic_calls; tv_idle := λ s, an_open_block s = ANTH_BLOCK_NONE; tv_busy := λ s, an_open_block s = ANTH_BLOCK_TOOL |}.
  - intros i tid n s out Hs _. cbn. unfold anthropic_sse_open_tool_block. rewrite Hs. cbn. apply iwp_bind, iwp_send, iwp_ret. split; [done|]. apply anthropic_calls_snoc.
  - intros i [|c t] s out cs n a Hs Hv Hl Ht; [done|]. apply iwp_bind, iwp_send, iwp_ret. split; [done|]. rewrite anthropic_calls_snoc, Hv.
    cbn [anthropic_call_step]. rewrite (alter_last _ cs (n, a)); [done|]. rewrite length_app. cbn. lia.
  - intros s out Hs. eapply iwp_mono; [apply close_block|]. by intros s' out' (? & ? & _).
Defined.

Lemma close_quiet send id s c out : anthropic_text c (anthropic_sse_close_block_live send id s out).1 = anthropic_text c out.
Proof.
  unfold anthropic_sse_close_block_live. destruct (decide (an_open_block s = ANTH_BLOCK_NONE)); [done|].
  destruct (decide (an_open_block s = ANTH_BLOCK_THINKING)); unfold ibind, iret, send_event;
    repeat (match goal with |- context [if send ?n then _ else _] => destruct (send n) end; cbn [fst]); by rewrite !anthropic_text_snoc, ?app_nil_r.
Qed.

#[export] Instance anthropic_view send id : StreamView (anthropic_ops send id).
Proof.
  refine {| sv_tool := anthropic_tool_view send id; sv_text := anthropic_text; sv_shown := λ _, true;
            sv_state := λ o s _, an_open_block s = match o with None => ANTH_BLOCK_NONE | Some ch => block_of ch end |}.
  - done.
  - intros ch [|c t] s out Hs Ht; [done|]. cbn. unfold anthropic_delta. apply iwp_bind. fold (block_of ch).
    apply (iwp_mono _ _ (λ s' out', an_open_block s' = block_of ch ∧ anthropic_calls out' = anthropic_calls out ∧ ∀ c, anthropic_text c out' = anthropic_text c out)).
    + unfold anthropic_sse_open_block. destruct (decide (an_open_block s = block_of ch)); [by apply iwp_ret|]. destruct Hs as [Hs|Hs]; [|done].
      rewrite decide_True by done. apply iwp_bind, iwp_send, iwp_ret. rewrite anthropic_calls_snoc. split_and!; [done|done|].
      intros c'. by rewrite anthropic_text_snoc, app_nil_r.
    + cbn beta. intros s1 out1 (Hb & Hc & Htx). apply iwp_bind, iwp_send, iwp_ret. rewrite anthropic_calls_snoc. split_and!; [by destruct ch|done|].
      intros c'. rewrite anthropic_text_snoc, Htx. f_equal. destruct (decide (c' = ch)) as [->|]; [by rewrite decide_True|].
      rewrite decide_False; [done|]. by destruct c', ch.
  - intros o b s out _. apply close_block.
  - intros i tid n s c out. cbn. unfold anthropic_sse_open_tool_block. destruct (decide _); [done|]. destruct (decide _); [|done].
    transitivity (anthropic_text c (out ++ [AnToolStart (an_next_index s) tid n])); [|by rewrite anthropic_text_snoc, app_nil_r].
    unfold ibind, send_event. by destruct (send (length out)).
  - intros i [|x t] s c out; [done|]. transitivity (anthropic_text c (out ++ [AnToolDelta (an_next_index s) (x :: t)])); [|by rewrite anthropic_text_snoc, app_nil_r].
    cbn. unfold ibind, send_event. by destruct (send (length out)).
  - intros s c out. apply close_quiet.
Defined.

(** ** What every sending function keeps *)

(** A property of sending functions that sequencing keeps and that the events of a
    protocol have holds of the whole update. *)
Section closure.
Context {St Ev : Type} (ops : stream_ops St Ev) (known : bytes → bool) (pick : (bytes → bool) → bytes).
Context (ok : ∀ A, io Ev A → Prop).
Arguments ok {A} _.
Context (ok_ret : ∀ A (a : A), ok (iret a)) (ok_stuck : ∀ A, ok (@stuck Ev A)).
Context (ok_bind : ∀ A B (m : io Ev A) (k : A → io Ev B), ok m → (∀ a, ok (k a)) → ok (ibind m k)).
Context (ok_start : ∀ i id n s, ok (op_start (so_tool ops) i id n s)) (ok_args : ∀ i t s, ok (op_args (so_tool ops) i t s)).
Context (ok_stop : ∀ s, ok (op_stop (so_tool ops) s)).

Create HintDb closure.
#[local] Hint Resolve ok_ret ok_stuck ok_start ok_args ok_stop : closure.

Ltac solve_closure := repeat first [progress eauto with closure|apply ok_bind; [|intros]|progress case_match].

Lemma ok_fragment t text s : ok (tool_emit_args_fragment (so_tool ops) t text s).
Proof. unfold tool_emit_args_fragment. solve_closure. Qed.
#[local] Hint Resolve ok_fragment : closure.

Lemma ok_value raw t upto s : ok (tool_emit_value (so_tool ops) raw t upto s).
Proof. unfold tool_emit_value, tool_emit_string_value. solve_closure. Qed.
#[local] Hint Resolve ok_value : closure.

Lemma ok_round raw t s : ok (tool_round (so_tool ops) known pick raw t s).
Proof. unfold tool_round, tool_start_invoke, tool_start_param, tool_emit_param_prefix, tool_finish_param. solve_closure. Qed.
#[local] Hint Resolve ok_round : closure.

Lemma ok_tool_update raw t s : ok (tool_stream_update (so_tool ops) known pick raw t s).
Proof.
  unfold tool_stream_update. generalize (length raw). intros fuel. revert t s. induction fuel as [|fuel IH]; intros t s; cbn [tool_loop]; solve_closure.
Qed.
#[local] Hint Resolve ok_tool_update : closure.

Context (has_tools : bool) (ok_delta : ∀ ch t s, ok (so_delta ops ch t s)) (ok_close : ∀ b s, ok (so_close ops b s)).
#[local] Hint Resolve ok_delta ok_close : closure.

Lemma ok_send_upto ch raw limit st s : ok (send_upto ops ch raw limit st s).
Proof. unfold send_upto. solve_closure. Qed.
#[local] Hint Resolve ok_send_upto : closure.

Lemma ok_update raw final st s : ok (sse_stream_update ops known pick has_tools raw final st s).
Proof. unfold sse_stream_update, update_thinking, update_text, update_guard. solve_closure. Qed.
End closure.

(** The text on the channels is left alone. *)
Definition quiet {St Ev : Type} (ops : stream_ops St Ev) `{!StreamView ops} {A} (m : io Ev A) : Prop := ∀ c out, sv_text c (m out).1 = sv_text c out.

Lemma quiet_tools {St Ev : Type} (ops : stream_ops St Ev) `{!StreamView ops} known pick raw t s :
  quiet ops (tool_stream_update (so_tool ops) known pick raw t s).
Proof.
  apply (ok_tool_update ops known pick (@quiet _ _ ops _)).
  - done.
  - done.
  - intros A B m k Hm Hk c out. unfold ibind. specialize (Hm c out). destruct (m out) as [out' [a| |]]; [|done|done]. cbn in Hm. rewrite <- Hm. apply Hk.
  - intros i id n s' c out. apply sv_tool_start.
  - intros i x s' c out. apply sv_tool_args.
  - intros s' c out. apply sv_tool_stop.
Qed.

Lemma quiet_iwp {St Ev : Type} (ops : stream_ops St Ev) `{!StreamView ops} {A} (m : io Ev A) out Q :
  quiet ops m → iwp m out Q → iwp m out (λ a out', Q a out' ∧ ∀ c, sv_text c out' = sv_text c out).
Proof. intros Hq H. unfold iwp in *. specialize (λ c, Hq c out). destruct (m out) as [out' [a| |]]; [|done|done]. by split. Qed.

(** No send fails. *)
Definition open {Ev A : Type} (m : io Ev A) : Prop := ∀ out, (m out).2 ≠ Closed.

Lemma open_ret {Ev A : Type} (a : A) : open (Ev := Ev) (iret a).
Proof. done. Qed.
Lemma open_stuck {Ev A : Type} : open (@stuck Ev A).
Proof. done. Qed.
Lemma open_bind {Ev A B : Type} (m : io Ev A) (k : A → io Ev B) : open m → (∀ a, open (k a)) → open (ibind m k).
Proof. intros Hm Hk out. unfold ibind. specialize (Hm out). destruct (m out) as [out' [a| |]]; [apply Hk|done|done]. Qed.
Lemma open_send {Ev : Type} send (e : Ev) : (∀ n, send n = true) → open (send_event send e).
Proof. intros H out. unfold send_event. by rewrite H. Qed.

Create HintDb open.
#[export] Hint Resolve open_ret open_stuck open_send : open.
Ltac solve_open := repeat first [progress eauto with open|apply open_bind; [|intros]|progress case_match].

(** A protocol whose events are sent when every send succeeds. *)
Class Opens {St Ev : Type} (ops : stream_ops St Ev) := {
  opens_start i id n s : open (op_start (so_tool ops) i id n s);
  opens_args i t s : open (op_args (so_tool ops) i t s);
  opens_stop s : open (op_stop (so_tool ops) s);
  opens_delta ch t s : open (so_delta ops ch t s);
  opens_close b s : open (so_close ops b s);
}.

Lemma openai_opens send : (∀ n, send n = true) → Opens (openai_ops send).
Proof. intros H. split; cbn; unfold sse_chat_tool_call_start_delta, sse_chat_tool_call_args_delta_n, sse_chat_delta_n; intros; solve_open. Qed.

Lemma anthropic_opens send id : (∀ n, send n = true) → Opens (anthropic_ops send id).
Proof.
  intros H. split; cbn; unfold anthropic_sse_open_tool_block, anthropic_sse_tool_delta_live, anthropic_sse_close_block_live, anthropic_delta, anthropic_sse_open_block, anthropic_sse_delta_live;
    intros; solve_open.
Qed.

Lemma open_update {St Ev : Type} (ops : stream_ops St Ev) `{!Opens ops} known pick has_tools raw final st s :
  open (sse_stream_update ops known pick has_tools raw final st s).
Proof.
  apply (ok_update ops known pick (@open Ev)); intros; [apply open_ret|apply open_stuck|by apply open_bind|apply opens_start|apply opens_args|apply opens_stop|apply opens_delta|apply opens_close].
Qed.

Lemma iwp_open {Ev A : Type} (m : io Ev A) out Q : open m → iwp m out Q → ∃ a out', m out = (out', Done a) ∧ Q a out'.
Proof. intros Ho H. specialize (Ho out). unfold iwp in H. destruct (m out) as [out' [a| |]]; [by exists a, out'|done|done]. Qed.

Lemma iwp_and {Ev A : Type} (m : io Ev A) out Q R : iwp m out Q → iwp m out R → iwp m out (λ a out', Q a out' ∧ R a out').
Proof. unfold iwp. by destruct (m out) as [out' [a| |]]. Qed.

Lemma iwp_when {Ev A : Type} (P : Prop) (m : io Ev A) out Q R : iwp m out Q → (P → iwp m out R) → iwp m out (λ a out', Q a out' ∧ (P → R a out')).
Proof. unfold iwp. destruct (m out) as [out' [a| |]]; auto. Qed.

(** ** Protocols without a tool stream *)

(** A relation that the texts and their ends keep is kept by every update. *)
Section keeps.
Context {St Ev : Type} (ops : stream_ops St Ev) (known : bytes → bool) (pick : (bytes → bool) → bytes) (has_tools : bool).
Context (rel : St → list Ev → Prop) (Hno : ∀ b, so_stream_tools ops b = false).
Context (Hdelta : ∀ ch t s out, rel s out → iwp (so_delta ops ch t s) out rel) (Hclose : ∀ b s out, rel s out → iwp (so_close ops b s) out rel).

Definition kept {A} (r : St * sse_stream * A) (out : list Ev) : Prop := rel r.1.1 out ∧ ss_mode r.1.2 ≠ STREAM_TOOL.

Lemma send_keeps ch raw limit st s out : rel s out →
  iwp (send_upto ops ch raw limit st s) out (λ r out', rel r.1 out' ∧ ss_mode r.2 = ss_mode st).
Proof.
  intros H. unfold send_upto. destruct (_ <? _)%nat; [|by apply iwp_ret]. apply iwp_bind. eapply iwp_mono; [by apply Hdelta|]. cbn beta.
  intros s1 out1 H1. by apply iwp_ret.
Qed.

Lemma close_keeps {A} b st (x : A) s out : rel s out → ss_mode st ≠ STREAM_TOOL → iwp (let* s := so_close ops b s in iret (s, st, x)) out kept.
Proof. intros H Hm. apply iwp_bind. eapply iwp_mono; [by apply Hclose|]. cbn beta. intros s1 out1 H1. by apply iwp_ret. Qed.

Lemma thinking_keeps raw final st s out : rel s out → ss_mode st ≠ STREAM_TOOL → iwp (update_thinking ops has_tools raw final st s) out kept.
Proof.
  intros H Hm. unfold update_thinking. destruct (skip_think_open raw final st) as [st1|] eqn:E; [|by apply iwp_ret]. cbn zeta.
  assert (ss_mode st1 ≠ STREAM_TOOL) as Hm1. { unfold skip_think_open in E. repeat case_match; simplify_eq; done. }
  apply iwp_bind. eapply iwp_mono; [by apply send_keeps|]. cbn beta. intros [s2 st2] out2 [H2 Hm2]. cbn [fst snd] in *.
  assert (ss_mode st2 ≠ STREAM_TOOL) by congruence.
  repeat case_match; first [by apply close_keeps|by apply iwp_ret].
Qed.

Lemma text_keeps raw final st s out : rel s out → ss_mode st ≠ STREAM_TOOL → iwp (update_text ops has_tools raw final st s) out kept.
Proof.
  intros H Hm. unfold update_text. apply iwp_bind. apply (iwp_mono _ _ kept).
  { unfold update_guard. destruct (ss_guard_second_reasoning st); [|by apply iwp_ret]. cbn zeta. destruct (strstr _ _) as [c|]; [destruct (before _ _)|].
    - apply iwp_bind. eapply iwp_mono; [by apply send_keeps|]. cbn beta. intros [s2 st2] out2 [H2 Hm2]. cbn [fst snd] in *. apply close_keeps; [done|]. cbn. congruence.
    - case_match; by apply iwp_ret.
    - case_match; by apply iwp_ret. }
  cbn beta. intros [[s1 st1] go] out1 [H1 Hm1]. cbn [fst snd] in *. destruct go; cbn [negb]; [|by apply iwp_ret]. cbn zeta. apply iwp_bind.
  eapply iwp_mono; [by apply send_keeps|]. cbn beta. intros [s2 st2] out2 [H2 Hm2]. cbn [fst snd] in *. rewrite !Hno.
  destruct (tool_from _ _ _) as [t|]; [by apply close_keeps|]. destruct final; [by apply close_keeps|]. apply iwp_ret. split; [done|]. cbn. congruence.
Qed.

Lemma update_keeps raw final st s out : rel s out → ss_mode st ≠ STREAM_TOOL →
  iwp (sse_stream_update ops known pick has_tools raw final st s) out (λ r out', rel r.1 out' ∧ ss_mode r.2 ≠ STREAM_TOOL).
Proof.
  intros H Hm. unfold sse_stream_update. destruct (negb (ss_active st)); [by apply iwp_ret|]. apply iwp_bind. apply (iwp_mono _ _ kept).
  { destruct (ss_mode st) eqn:E; try (by apply iwp_ret; split; cbn; rewrite ?E). apply thinking_keeps; [done|congruence]. }
  cbn beta. intros [[s1 st1] go] out1 [H1 Hm1]. cbn [fst snd] in *. destruct go; cbn [negb]; [|by apply iwp_ret]. apply iwp_bind. apply (iwp_mono _ _ kept).
  { destruct (ss_mode st1) eqn:E; try (by apply iwp_ret; split; cbn; rewrite ?E). apply text_keeps; [done|congruence]. }
  cbn beta. intros [[s2 st2] go] out2 [H2 Hm2]. cbn [fst snd] in *. destruct go; cbn [negb]; [|by apply iwp_ret].
  destruct (ss_mode st2) eqn:E; try (apply iwp_ret; split; cbn; [done|congruence]). done.
Qed.
End keeps.
