(* ===== verification/SseMessage.v ===== *)
(** * A whole message through a live stream

    A message is generated in pieces: after each piece the stream is updated with the
    text so far, and at the end once more with the final text. What the client has got
    then is a function of the whole text, not of the pieces: the content before the
    first tool marker and the calls of the block there, and without tools the reasoning
    and the content around the closing tag. *)
From S2P Require Import Prelude CLib Json JsonProps JsonSafe Request RequestProps Stream StreamProps Dsml DsmlProps DsmlText ToolText ToolStream ToolStreamProps SseStream SseProps.

#[local] Open Scope io_scope.

(** ** Limits *)

(** No white space has been cut off before [pos] that a later trim would reach. *)
Definition trimmed (raw : bytes) (pos : nat) : Prop :=
  pos = 0%nat ∨ isspace (byte_at raw (pos - 1)) = false ∨ ((pos < length raw)%nat ∧ 128 <= byte_at raw pos).

Lemma isspace_small c : isspace c = true → c < 128.
Proof. unfold isspace. rewrite orb_true_iff, andb_true_iff, Z.eqb_eq, !Z.leb_le. lia. Qed.

Lemma trim_from raw pos q : trimmed raw pos → (pos <= q)%nat → (q = pos → byte_at raw pos < 128) →
  trim_tool_separator_ws raw pos q = trim_tool_separator_ws raw 0 q.
Proof.
  intros Ht. induction q as [|l IH]; intros Hle Hb; [done|]. cbn [trim_tool_separator_ws].
  destruct (Nat.eq_dec pos (S l)) as [->|Hne].
  - rewrite Nat.ltb_irrefl. cbn [andb]. destruct Ht as [?|[Ht|Ht]]; [done| |specialize (Hb eq_refl); lia].
    replace (S l - 1)%nat with l in Ht by lia. by rewrite Ht, andb_false_r.
  - destruct (Nat.ltb_spec pos (S l)); [|lia]. destruct (Nat.ltb_spec 0 (S l)); [|lia]. cbn [andb].
    destruct (isspace (byte_at raw l)) eqn:Es; [|done]. apply IH; [lia|]. intros ->. by apply isspace_small.
Qed.

Lemma trim_stop raw start limit : (start < trim_tool_separator_ws raw start limit)%nat →
  isspace (byte_at raw (trim_tool_separator_ws raw start limit - 1)) = false.
Proof.
  induction limit as [|l IH]; cbn [trim_tool_separator_ws]; [lia|]. destruct (Nat.ltb_spec start (S l)); cbn [andb].
  - destruct (isspace (byte_at raw l)) eqn:Es; [done|]. intros _. by replace (S l - 1)%nat with l by lia.
  - intros ?. lia.
Qed.

Lemma trim_ge raw start limit : (start <= limit)%nat → (start <= trim_tool_separator_ws raw start limit)%nat.
Proof.
  induction limit as [|l IH]; intros H; cbn [trim_tool_separator_ws]; [lia|]. destruct (Nat.ltb_spec start (S l)); cbn [andb]; [|lia].
  destruct (isspace _); [apply IH|]; lia.
Qed.

Lemma expected_lead c : (1 < utf8_expected_len c)%nat → 128 <= c.
Proof. unfold utf8_expected_len. destruct (Z.ltb_spec c 128); simpl; lia. Qed.

(** A character that is held back begins with a byte above ASCII. *)
Lemma utf8_back raw start limit : let r := utf8_stream_safe_len (Some raw) start limit false in
  (start < r)%nat → r = limit ∨ ((r < limit)%nat ∧ 128 <= byte_at raw r).
Proof.
  cbn zeta. unfold utf8_stream_safe_len. cbn [orb]. destruct (Nat.leb_spec limit start); [by left|].
  pose proof (back_over_cont_le raw start 4 limit). set (p := back_over_cont _ _ _ _) in *. clearbody p.
  destruct (Nat.eqb_spec p limit).
  - destruct (Nat.ltb_spec 1 (utf8_expected_len (byte_at raw (limit - 1)))); [|by left]. intros _. right. split; [lia|by apply expected_lead].
  - destruct (_ && _); [lia|]. destruct (Nat.ltb_spec (limit - (p - 1)) (utf8_expected_len (byte_at raw (p - 1)))); [|by left].
    intros ?. right. split; [lia|]. apply expected_lead. lia.
Qed.

Lemma safe_limit_trimmed raw start : (start < length raw)%nat → find_any_tool_start (drop start raw) = None →
  let l := text_stream_safe_limit raw start true false in (start < l)%nat → trimmed raw l ∧ (l <= length raw)%nat.
Proof.
  intros Hs Hn. cbn zeta. unfold text_stream_safe_limit. destruct (Nat.leb_spec (length raw) start); [lia|]. rewrite Hn.
  set (b := match last_byte _ _ _ _ with Some m => _ | None => _ end).
  assert (b <= length raw)%nat as Hb.
  { unfold b. pose proof (trim_le raw start (length raw)). destruct (last_byte _ _ _ _); [destruct (Nat.ltb_spec n (trim_tool_separator_ws raw start (length raw)))|]; lia. }
  clearbody b. pose proof (trim_le raw start b) as Ht. intros Hl. destruct (utf8_back raw start (trim_tool_separator_ws raw start b) Hl) as [E|[Hlt Hc]].
  - rewrite E in *. split; [|lia]. right. left. by apply trim_stop.
  - split; [|lia]. right. right. split; [lia|done].
Qed.

Lemma trimmed_more raw more pos : (pos <= length raw)%nat → trimmed raw pos → trimmed (raw ++ more) pos.
Proof.
  intros Hp [->|[H|[Hl H]]]; [by left| |].
  - destruct (Nat.eq_dec pos 0%nat) as [->|]; [by left|]. right. left. by rewrite byte_at_app_l by lia.
  - right. right. rewrite length_app, byte_at_app_l by lia. split; [lia|done].
Qed.

Lemma take_span raw a b : (a <= b)%nat → take a raw ++ text_span raw a b = take b raw.
Proof.
  intros H. unfold text_span. destruct (Nat.le_gt_cases a (length raw)).
  - rewrite <- (take_drop a (take b raw)). rewrite take_take, Nat.min_l by lia. f_equal. by rewrite skipn_firstn_comm.
  - rewrite drop_ge by lia. rewrite take_nil, app_nil_r, !take_ge by lia. done.
Qed.

Lemma span_empty raw a b : (b <= a)%nat → text_span raw a b = [].
Proof. intros H. unfold text_span. by replace (b - a)%nat with 0%nat by lia. Qed.

(** ** Pieces *)

(** The updates after each piece, and with the final one. *)
Fixpoint sse_updates {St Ev : Type} (ops : stream_ops St Ev) (known : bytes → bool) (pick : (bytes → bool) → bytes) (has_tools : bool)
    (seen : bytes) (chunks : list bytes) (st : sse_stream) (s : St) : io Ev (St * sse_stream) :=
  match chunks with
  | [] => iret (s, st)
  | c :: r => let* '(s, st) := sse_stream_update ops known pick has_tools (seen ++ c) false st s in sse_updates ops known pick has_tools (seen ++ c) r st s
  end.

Definition sse_feed {St Ev : Type} (ops : stream_ops St Ev) (known : bytes → bool) (pick : (bytes → bool) → bytes) (has_tools : bool)
    (seen : bytes) (chunks : list bytes) (st : sse_stream) (s : St) : io Ev (St * sse_stream) :=
  let* '(s, st) := sse_updates ops known pick has_tools seen chunks st s in sse_stream_update ops known pick has_tools (seen ++ concat chunks) true st s.

Lemma open_updates {St Ev : Type} (ops : stream_ops St Ev) `{!Opens ops} known pick has_tools chunks : ∀ seen st s,
  open (sse_updates ops known pick has_tools seen chunks st s).
Proof.
  induction chunks as [|c r IH]; intros seen st s; cbn [sse_updates]; [apply open_ret|]. apply open_bind; [by apply open_update|]. intros [s1 st1]. apply IH.
Qed.

Lemma open_feed {St Ev : Type} (ops : stream_ops St Ev) `{!Opens ops} known pick has_tools seen chunks st s :
  open (sse_feed ops known pick has_tools seen chunks st s).
Proof. apply open_bind; [by apply open_updates|]. intros [s1 st1]. by apply open_update. Qed.

Section message.
Context {St Ev : Type} (ops : stream_ops St Ev) `{!StreamView ops} (known : bytes → bool) (pick : (bytes → bool) → bytes).

(** What of a text is sent on a channel. *)
Definition shown (ch : channel) (t : bytes) : bytes := if sv_shown ch then t else [].

Lemma shown_app ch a b : shown ch (a ++ b) = shown ch a ++ shown ch b.
Proof. unfold shown. by destruct (sv_shown ch). Qed.

Lemma shown_nil ch : shown ch [] = [].
Proof. unfold shown. by destruct (sv_shown ch). Qed.

(** The client has got [r] and [c]. *)
Definition got (out : list Ev) (r c : bytes) : Prop := sv_text Reasoning out = shown Reasoning r ∧ sv_text Content out = shown Content c.

Definition ready (ch : channel) (s : St) (out : list Ev) : Prop := sv_state None s out ∨ sv_state (Some ch) s out.

Lemma send_upto_spec ch raw limit st s out : ready ch s out →
  (ss_emit_pos st <= length raw)%nat → (limit <= length raw)%nat →
  iwp (send_upto ops ch raw limit st s) out (λ r out', r.2 = ss_at (Nat.max (ss_emit_pos st) limit) st ∧ ready ch r.1 out' ∧ tv_view out' = tv_view out
    ∧ ∀ c, sv_text c out' = sv_text c out ++ (if decide (c = ch) then shown ch (text_span raw (ss_emit_pos st) limit) else [])).
Proof.
  intros Hs Hp Hl. unfold send_upto. destruct (Nat.ltb_spec (ss_emit_pos st) limit).
  - apply iwp_bind. eapply iwp_mono; [apply sv_delta; [done|]|].
    + intros E. apply (f_equal length) in E. unfold text_span in E. rewrite length_take, length_drop in E. cbn in E. lia.
    + cbn beta. intros s' out' (Hs' & Hv & Ht). apply iwp_ret. cbn [fst snd]. rewrite Nat.max_r by lia. split_and!; [done|by right|done|done].
  - apply iwp_ret. cbn [fst snd]. rewrite Nat.max_l by lia. split_and!; [by destruct st|done|done|]. intros c. rewrite span_empty by lia.
    case_decide; by rewrite ?shown_nil, app_nil_r.
Qed.

Lemma updates_rule has_tools (inv : bytes → sse_stream → St → list Ev → Prop) :
  (∀ raw c st s out, inv raw st s out → iwp (sse_stream_update ops known pick has_tools (raw ++ c) false st s) out (λ r out', inv (raw ++ c) r.2 r.1 out')) →
  ∀ chunks seen st s out, inv seen st s out →
    iwp (sse_updates ops known pick has_tools seen chunks st s) out (λ r out', inv (seen ++ concat chunks) r.2 r.1 out').
Proof.
  intros Hstep. induction chunks as [|c r IH]; intros seen st s out H; cbn [sse_updates concat].
  - rewrite app_nil_r. by apply iwp_ret.
  - apply iwp_bind. eapply iwp_mono; [by apply Hstep|]. cbn beta. intros [s1 st1] out1 H1. rewrite app_assoc. by apply IH.
Qed.

Lemma feed_rule has_tools (inv post : bytes → sse_stream → St → list Ev → Prop) :
  (∀ raw c st s out, inv raw st s out → iwp (sse_stream_update ops known pick has_tools (raw ++ c) false st s) out (λ r out', inv (raw ++ c) r.2 r.1 out')) →
  (∀ raw st s out, inv raw st s out → iwp (sse_stream_update ops known pick has_tools raw true st s) out (λ r out', post raw r.2 r.1 out')) →
  ∀ chunks seen st s out, inv seen st s out →
    iwp (sse_feed ops known pick has_tools seen chunks st s) out (λ r out', post (seen ++ concat chunks) r.2 r.1 out').
Proof.
  intros Hstep Hfin chunks seen st s out H. apply iwp_bind. eapply iwp_mono; [by apply (updates_rule has_tools inv)|]. cbn beta.
  intros [s1 st1] out1 H1. by apply Hfin.
Qed.

(** ** Content and tool calls *)

Definition content_of (text : bytes) : bytes :=
  match find_any_tool_start text with None => text | Some q => take (trim_tool_separator_ws text 0 q) text end.

(** The position is in the content, and nothing before it can become a marker. *)
Definition in_text (raw : bytes) (st : sse_stream) (s : St) (out : list Ev) : Prop :=
  ss_active st = true ∧ ss_mode st = STREAM_TEXT ∧ ss_guard_second_reasoning st = false ∧ ss_tool st = tool_stream_zero
  ∧ (ss_emit_pos st <= length raw)%nat ∧ ready Content s out ∧ tv_view out = [] ∧ got out [] (take (ss_emit_pos st) raw)
  ∧ (∀ more m q, m ∈ tool_starts → (q < ss_emit_pos st)%nat → ¬ occurs (raw ++ more) m q) ∧ trimmed raw (ss_emit_pos st).

(** The calls of a block that was streamed to its end. *)
Definition calls_done (raw : bytes) (q : nat) (t : tool_stream) (out : list Ev) : Prop :=
  ts_state t = DSML_TOOL_DONE → ∃ syn cs, syn ∈ dsml_syntaxes ∧ raw_full_lit raw q (tool_calls_start syn) = true ∧ tv_view out = streamed_call <$> cs
    ∧ inv_run syn (drop (q + length (tool_calls_start syn)) raw) tool_calls_zero = (Some (drop (ts_parse_pos t) raw), push_parsed tool_calls_zero cs).

Definition in_block (raw : bytes) (q : nat) (st : sse_stream) (s : St) (out : list Ev) : Prop :=
  (∃ syn, syn ∈ dsml_syntaxes ∧ raw_full_lit raw q (tool_calls_start syn) = true
     ∧ streaming (so_tool ops) syn (q + length (tool_calls_start syn)) tool_calls_zero raw (ss_tool st) s out)
  ∨ (ss_mode st = STREAM_SUPPRESS ∧ ts_state (ss_tool st) ≠ DSML_TOOL_DONE).

Definition in_tool (raw : bytes) (st : sse_stream) (s : St) (out : list Ev) : Prop :=
  ss_active st = true ∧ (ss_mode st = STREAM_TOOL ∨ ss_mode st = STREAM_SUPPRESS)
  ∧ ∃ q, first_marker raw 0 q ∧ got out [] (take (trim_tool_separator_ws raw 0 q) raw) ∧ in_block raw q st s out.

(** What holds when the final text has been sent. *)
Definition message_sent (raw : bytes) (st : sse_stream) (s : St) (out : list Ev) : Prop :=
  got out [] (content_of raw) ∧ ∀ q, find_any_tool_start raw = Some q → calls_done raw q (ss_tool st) out.

Lemma trim_more raw more start limit : (limit <= length raw)%nat → trim_tool_separator_ws (raw ++ more) start limit = trim_tool_separator_ws raw start limit.
Proof.
  induction limit as [|l IH]; intros H; [done|]. cbn [trim_tool_separator_ws]. rewrite byte_at_app_l by lia. by rewrite IH by lia.
Qed.

Lemma first_marker_bound raw q : first_marker raw 0 q → (q < length raw)%nat.
Proof.
  intros (_ & (m & Hm & Ho) & _). pose proof (occurs_bound _ _ _ Ho). destruct (tool_start_shape m Hm) as (_ & r & -> & _). cbn in *. lia.
Qed.

Lemma in_text_more raw more st s out : in_text raw st s out → in_text (raw ++ more) st s out.
Proof.
  intros (Ha & Hm & Hg & Ht & Hp & Hs & Hv & Hgot & Hno & Htr). unfold in_text. split_and!; try done.
  - rewrite length_app. lia.
  - by rewrite take_app_le by lia.
  - intros m. rewrite <- app_assoc. apply Hno.
  - by apply trimmed_more.
Qed.

Lemma in_tool_more raw more st s out : in_tool raw st s out → in_tool (raw ++ more) st s out.
Proof.
  intros (Ha & Hm & q & Hq & Hgot & Hb). split_and!; [done|done|]. exists q. pose proof (first_marker_bound _ _ Hq).
  split_and!; [by apply first_marker_more| |].
  - rewrite trim_more by lia. rewrite take_app_le; [done|]. pose proof (trim_le raw 0 q). lia.
  - destruct Hb as [(syn & Hsyn & Hf & Hst)|Hb]; [left|by right]. exists syn. split_and!; [done|by apply full_more|by apply streaming_more].
Qed.

Lemma find_start_some raw q : find_any_tool_start raw = Some q ↔ first_marker raw 0 q.
Proof.
  split.
  - intros H. pose proof (find_start_spec raw 0 ltac:(lia)) as Hs. rewrite drop_0, H in Hs. done.
  - intros H. pose proof (find_start_eq raw 0 0 q ltac:(lia) ltac:(lia) H ltac:(lia)) as E. rewrite drop_0 in E. by rewrite E, Nat.sub_0_r.
Qed.

(** The block begins: nothing of it is sent yet. *)
Lemma init_streaming raw q b t s out : so_stream_tools ops b = true → tool_stream_init raw q = (t, true) → sv_state None s out → tv_view out = [] →
  ∃ syn, syn ∈ dsml_syntaxes ∧ raw_full_lit raw q (tool_calls_start syn) = true ∧ ts_active t = true
    ∧ streaming (so_tool ops) syn (q + length (tool_calls_start syn)) tool_calls_zero raw t s out.
Proof.
  intros Hstream. unfold tool_stream_init. destruct (List.find _ _) as [syn|] eqn:Ef; [|done]. intros [= <-] Hs Hv. apply List.find_some in Ef as [Hin%list_elem_of_In Hf].
  exists syn. split_and!; [done..|]. pose proof (full_bound _ _ _ Hf). split_and!; [done|cbn; lia|]. split; [done|]. exists [].
  split_and!; [by apply (sv_idle b s out)|done|done|]. done.
Qed.

Lemma init_failed raw q t : tool_stream_init raw q = (t, false) → ts_state t = DSML_TOOL_ERROR.
Proof. unfold tool_stream_init. destruct (List.find _ _); [done|]. by intros [= <-]. Qed.

(** The marker that is found from the position on is the first of the text. *)
Lemma found_from raw pos : (pos <= length raw)%nat → (∀ m q, m ∈ tool_starts → (q < pos)%nat → ¬ occurs raw m q) →
  match find_any_tool_start (drop pos raw) with Some t => first_marker raw 0 (pos + t) | None => find_any_tool_start raw = None end.
Proof.
  intros Hp Hno. pose proof (find_start_spec raw pos Hp) as H. destruct (find_any_tool_start (drop pos raw)) as [t|].
  - destruct H as (Hle & Hm & Hmin). split_and!; [lia|done|]. intros m q Hin _ Ho. destruct (Nat.lt_ge_cases q pos); [by destruct (Hno m q)|by apply (Hmin m)].
  - destruct (find_any_tool_start raw) as [q|] eqn:E; [|done]. apply find_start_some in E as (_ & (m & Hm & Ho) & _).
    destruct (Nat.lt_ge_cases q pos); [by destruct (Hno m q)|by destruct (H m q)].
Qed.

Lemma marker_byte raw q : first_marker raw 0 q → byte_at raw q = 60.
Proof.
  intros (_ & (m & Hm & Ho) & _). destruct (tool_start_shape m Hm) as (_ & r & -> & _).
  pose proof (occurs_byte _ _ _ 0 Ho ltac:(cbn; lia)) as H. by rewrite Nat.add_0_r in H.
Qed.

(** What the update of the content gives. *)
Definition text_ok (raw : bytes) (final : bool) (r : St * sse_stream * bool) (out : list Ev) : Prop :=
  r.2 = true ∧
  match find_any_tool_start raw with
  | None => if final then ss_mode r.1.2 = STREAM_SUPPRESS ∧ got out [] raw else in_text raw r.1.2 r.1.1 out
  | Some q => in_tool raw r.1.2 r.1.1 out
  end.

Lemma text_limit_final raw pos : (pos <= length raw)%nat → find_any_tool_start (drop pos raw) = None → text_stream_safe_limit raw pos true true = length raw.
Proof. intros Hp Hn. unfold text_stream_safe_limit. destruct (Nat.leb_spec (length raw) pos); [done|]. by rewrite Hn. Qed.

Lemma text_limit_tool raw pos t final : find_any_tool_start (drop pos raw) = Some t → (pos < length raw)%nat →
  text_stream_safe_limit raw pos true final = trim_tool_separator_ws raw pos (pos + t).
Proof. intros Hn Hp. unfold text_stream_safe_limit. destruct (Nat.leb_spec (length raw) pos); [lia|]. by rewrite Hn. Qed.

Lemma text_limit_bound raw pos final : (pos <= length raw)%nat → (text_stream_safe_limit raw pos true final <= length raw)%nat.
Proof.
  intros Hp. unfold text_stream_safe_limit. destruct (Nat.leb_spec (length raw) pos); [done|]. pose proof (find_start_spec raw pos Hp) as H'.
  destruct (find_any_tool_start (drop pos raw)) as [t|]; (etransitivity; [apply utf8_safe_le|]).
  - destruct H' as (_ & (m & _ & Ho) & _). apply occurs_bound in Ho. pose proof (trim_le raw pos (pos + t)). lia.
  - destruct final; [done|]. etransitivity; [apply trim_le|]. pose proof (trim_le raw pos (length raw)).
    destruct (last_byte _ _ _ _); [destruct (Nat.ltb_spec n (trim_tool_separator_ws raw pos (length raw)))|]; lia.
Qed.

(** The text waits: what was sent cannot become part of a marker. *)
Lemma text_waits raw st s out st' s' out' : in_text raw st s out → find_any_tool_start (drop (ss_emit_pos st) raw) = None →
  let pos' := Nat.max (ss_emit_pos st) (text_stream_safe_limit raw (ss_emit_pos st) true false) in
  st' = ss_at pos' st → ready Content s' out' → tv_view out' = tv_view out → got out' [] (take pos' raw) → in_text raw st' s' out'.
Proof.
  intros (Ha & Hm & Hg & Ht & Hp & Hs & Hv & Hgot & Hno & Htr) Hn pos' -> Hs' Hv' Hgot'. pose proof (text_limit_bound raw _ false Hp) as Hb.
  unfold in_text. cbn [ss_active ss_mode ss_guard_second_reasoning ss_tool ss_emit_pos ss_at ss_to]. split_and!; try done; [unfold pos'; lia|congruence|..].
  - intros more m q Hin Hq Ho. destruct (Nat.lt_ge_cases q (ss_emit_pos st)); [by apply (Hno more m q)|].
    destruct (Nat.lt_ge_cases (ss_emit_pos st) (length raw)); [|unfold pos' in Hq; lia].
    pose proof (safe_limit_held raw more _ m q ltac:(done) Hn Hin ltac:(lia) Ho). unfold pos' in Hq. lia.
  - destruct (Nat.lt_ge_cases (ss_emit_pos st) (text_stream_safe_limit raw (ss_emit_pos st) true false)) as [Hlt|].
    + unfold pos'. rewrite Nat.max_r by lia. apply safe_limit_trimmed; [lia|done|done].
    + unfold pos'. by rewrite Nat.max_l by lia.
Qed.

(** The content up to the marker, trimmed. *)
Lemma text_to_marker raw st s out t : in_text raw st s out → find_any_tool_start (drop (ss_emit_pos st) raw) = Some t →
  let q := (ss_emit_pos st + t)%nat in let limit := text_stream_safe_limit raw (ss_emit_pos st) true false in
  first_marker raw 0 q ∧ (∀ final, text_stream_safe_limit raw (ss_emit_pos st) true final = limit)
  ∧ take (ss_emit_pos st) raw ++ text_span raw (ss_emit_pos st) limit = take (trim_tool_separator_ws raw 0 q) raw.
Proof.
  intros (Ha & Hm & Hg & Ht & Hp & Hs & Hv & Hgot & Hno & Htr) Hn q limit.
  assert (first_marker raw 0 q) as Hq.
  { pose proof (found_from raw (ss_emit_pos st) Hp) as H. rewrite Hn in H. apply H. intros m q' Hin Hlt Ho. apply (Hno [] m q'); [done..|]. by rewrite app_nil_r. }
  pose proof (first_marker_bound _ _ Hq). unfold q in *. split_and!; [done| |].
  - intros final. unfold limit. by rewrite !(text_limit_tool raw _ t) by (try done; lia).
  - unfold limit. rewrite (text_limit_tool raw _ t) by (try done; lia). rewrite (trim_from raw (ss_emit_pos st) (ss_emit_pos st + t)).
    + apply take_span. rewrite <- (trim_from raw (ss_emit_pos st) (ss_emit_pos st + t)); [apply trim_ge; lia|done|lia|].
      intros E. rewrite <- E, (marker_byte _ _ Hq). lia.
    + done.
    + lia.
    + intros E. rewrite <- E, (marker_byte _ _ Hq). lia.
Qed.

Lemma update_text_ok raw final st s out : in_text raw st s out → iwp (update_text ops true raw final st s) out (text_ok raw final).
Proof.
  intros H. pose proof H as (Ha & Hm & Hg & Ht & Hp & Hs & Hv & [Hr Hc] & Hno & Htr). unfold update_text, update_guard. rewrite Hg. apply iwp_bind, iwp_ret.
  cbn [negb fst snd]. cbn zeta. apply iwp_bind. pose proof (text_limit_bound raw _ final Hp) as Hb.
  eapply iwp_mono; [apply (send_upto_spec Content raw _ st s out Hs Hp Hb)|]. cbn beta. intros [s1 st1] out1 (E & Hs1 & Hv1 & Htx). cbn [fst snd] in *. subst st1.
  assert (sv_text Reasoning out1 = shown Reasoning []) as Hr1 by (by rewrite (Htx Reasoning), Hr, decide_False, app_nil_r).
  specialize (Htx Content). rewrite decide_True, Hc, <- shown_app in Htx by done. unfold tool_from.
  pose proof (found_from raw (ss_emit_pos st) Hp) as Hfound.
  assert (∀ m q, m ∈ tool_starts → (q < ss_emit_pos st)%nat → ¬ occurs raw m q) as Hno0 by (intros m q ?? Ho; apply (Hno [] m q); [done..|by rewrite app_nil_r]).
  specialize (Hfound Hno0). destruct (find_any_tool_start (drop (ss_emit_pos st) raw)) as [t|] eqn:En.
  - destruct (text_to_marker raw st s out t H En) as (Hq & Hlim & Htake). rewrite Hlim, Htake in Htx. apply iwp_bind.
    assert (∃ o, sv_state o s1 out1) as [o Ho] by (destruct Hs1; by eexists). eapply iwp_mono; [by apply (sv_close o false)|].
    cbn beta. intros s2 out2 (Hs2 & Hv2 & Ht2). cbn zeta. apply find_start_some in Hq as Eq. unfold text_ok. rewrite Eq.
    assert (got out2 [] (take (trim_tool_separator_ws raw 0 (ss_emit_pos st + t)) raw)) as Hgot by (split; by rewrite Ht2).
    destruct (so_stream_tools ops final) eqn:Estream.
    + destruct (tool_stream_init raw (ss_emit_pos st + t)) as [ts ok] eqn:Ei. apply iwp_ret. split; [done|]. split_and!; [done|by destruct ok; [left|right]|].
      eexists. split_and!; [done|done|]. destruct ok.
      * left. destruct (init_streaming raw _ final ts s2 out2 Estream Ei Hs2) as (syn & ? & ? & _ & ?); [congruence|]. by exists syn.
      * right. split; [done|]. cbn. by rewrite (init_failed _ _ _ Ei).
    + apply iwp_ret. split; [done|]. split_and!; [done|by right|]. eexists. split_and!; [done|done|]. right. split; [done|]. cbn. by rewrite Ht.
  - destruct final.
    + apply iwp_bind. assert (∃ o, sv_state o s1 out1) as [o Ho] by (destruct Hs1; by eexists). eapply iwp_mono; [by apply (sv_close o false)|].
      cbn beta. intros s2 out2 (Hs2 & Hv2 & Ht2). apply iwp_ret. split; [done|]. rewrite Hfound. split; [done|]. split; rewrite Ht2; [done|].
      rewrite Htx, text_limit_final, take_span by done. by rewrite take_ge.
    + apply iwp_ret. split; [done|]. rewrite Hfound. cbn [fst snd]. eapply text_waits; [done|done|reflexivity|done|done|]. split; [done|]. rewrite Htx.
      destruct (Nat.le_gt_cases (ss_emit_pos st) (text_stream_safe_limit raw (ss_emit_pos st) true false)).
      * rewrite Nat.max_r by lia. by rewrite take_span.
      * rewrite Nat.max_l by lia. rewrite span_empty by lia. by rewrite app_nil_r.
Qed.

Definition flowing (raw : bytes) (st : sse_stream) (s : St) (out : list Ev) : Prop := in_text raw st s out ∨ in_tool raw st s out.

(** Tool text goes to the tool stream, and what comes after it to nobody. *)
Lemma tool_part raw st s out : in_tool raw st s out →
  iwp (match ss_mode st with
       | STREAM_TOOL =>
           let* '(s, t) := tool_stream_update (so_tool ops) known pick raw (ss_tool st) s in
           iret (s, ss_with_tool (if ts_active t then STREAM_TOOL else STREAM_SUPPRESS) t st)
       | _ => iret (s, st)
       end) out (λ r out', in_tool raw r.2 r.1 out').
Proof.
  intros H. pose proof H as (Ha & Hm & q & Hq & [Hr Hc] & Hb). destruct (ss_mode st) eqn:Em; try (by apply iwp_ret). apply iwp_bind.
  destruct Hb as [(syn & Hin & Hf & Hst)|[? _]]; [|congruence].
  eapply iwp_mono; [apply quiet_iwp; [apply quiet_tools|by apply update_streaming]|]. cbn beta. intros [s1 t1] out1 [Hst1 Ht1]. apply iwp_ret. cbn [fst snd] in *.
  split_and!; [done|destruct (ts_active t1); [by left|by right]|]. exists q. split_and!; [done|by split; rewrite Ht1|]. left. exists syn. by split_and!.
Qed.

Lemma update_more raw st s out : flowing raw st s out →
  iwp (sse_stream_update ops known pick true raw false st s) out (λ r out', flowing raw r.2 r.1 out').
Proof.
  intros [H|H]; pose proof H as (Ha & Hm & _); unfold sse_stream_update; rewrite Ha; cbn [negb].
  - rewrite Hm. apply iwp_bind, iwp_ret. cbn [negb]. rewrite Hm. apply iwp_bind.
    eapply iwp_mono; [by apply update_text_ok|]. cbn beta. intros [[s1 st1] go] out1 [Hgo H1]. cbn [fst snd] in *. subst go. cbn [negb].
    destruct (find_any_tool_start raw).
    + eapply iwp_mono; [by apply tool_part|]. cbn beta. intros r o ?. by right.
    + pose proof H1 as (_ & -> & _). apply iwp_ret. by left.
  - destruct Hm as [Hm|Hm]; rewrite Hm; apply iwp_bind, iwp_ret; cbn [negb]; rewrite Hm; apply iwp_bind, iwp_ret; cbn [negb];
      (eapply iwp_mono; [by apply tool_part|]); cbn beta; intros r o ?; by right.
Qed.

Lemma sent_tool raw st s out : in_tool raw st s out → message_sent raw st s out.
Proof.
  intros (_ & _ & q & Hq & Hgot & Hb). apply find_start_some in Hq. split; [unfold content_of; by rewrite Hq|]. rewrite Hq. intros q' [= <-] Hdone.
  destruct Hb as [(syn & Hin & Hf & (_ & _ & Hst))|[_ ?]]; [|done]. rewrite Hdone in Hst. destruct Hst as (_ & cs & _ & Hv & Hrun).
  exists syn, cs. split_and!; [done..|]. specialize (Hrun []). rewrite app_nil_r in Hrun. exact Hrun.
Qed.

Lemma update_final raw st s out : flowing raw st s out →
  iwp (sse_stream_update ops known pick true raw true st s) out (λ r out', message_sent raw r.2 r.1 out').
Proof.
  intros [H|H]; pose proof H as (Ha & Hm & _); unfold sse_stream_update; rewrite Ha; cbn [negb].
  - rewrite Hm. apply iwp_bind, iwp_ret. cbn [negb]. rewrite Hm. apply iwp_bind.
    eapply iwp_mono; [by apply update_text_ok|]. cbn beta. intros [[s1 st1] go] out1 [Hgo H1]. cbn [fst snd] in *. subst go. cbn [negb].
    destruct (find_any_tool_start raw) as [q|] eqn:Eq.
    + eapply iwp_mono; [by apply tool_part|]. cbn beta. intros r o ?. by apply sent_tool.
    + destruct H1 as [-> Hgot]. apply iwp_ret. split; [unfold content_of; by rewrite Eq|]. by rewrite Eq.
  - destruct Hm as [Hm|Hm]; rewrite Hm; apply iwp_bind, iwp_ret; cbn [negb]; rewrite Hm; apply iwp_bind, iwp_ret; cbn [negb];
      (eapply iwp_mono; [by apply tool_part|]); cbn beta; intros r o ?; by apply sent_tool.
Qed.

Lemma message_streamed chunks s out0 : sv_state None s out0 → tv_view out0 = [] → got out0 [] [] →
  iwp (sse_feed ops known pick true [] chunks (stream_start DS4_THINK_NONE true) s) out0 (λ r out, message_sent (concat chunks) r.2 r.1 out).
Proof.
  intros Hs Hv Hgot. apply (feed_rule true flowing message_sent).
  - intros raw c st s' out H. apply update_more. destruct H as [H|H]; [left; by apply in_text_more|right; by apply in_tool_more].
  - apply update_final.
  - left. unfold in_text. cbn. split_and!; try done; [by left|lia|by left].
Qed.
End message.
