(* ===== verification/SseClaims.v ===== *)
(** * Reasoning and content through a live stream

    Without tools, a live stream splits the message at the closing tag of the
    reasoning, in whatever pieces the text arrives, as the parser of the whole message
    does; and the claims about whole messages for both protocols.

    The streams of both protocols send what the parser of the whole message finds. *)
From S2P Require Import Prelude CLib Json JsonProps JsonSafe Request RequestProps Stream StreamProps Dsml DsmlProps DsmlText ToolText.
From S2P Require Import ToolStream ToolStreamProps SseStream SseProps SseMessage.

#[local] Open Scope io_scope.

(** ** The split of a whole text *)

Definition think_start (raw : bytes) : nat := match strip_prefix THINK_OPEN raw with Some _ => length THINK_OPEN | None => 0%nat end.

Definition split_message (think : bool) (raw : bytes) : bytes * bytes :=
  if think then
    let body := drop (think_start raw) raw in
    match strstr body THINK_CLOSE with Some c => (take c body, drop (c + length THINK_CLOSE) body) | None => (body, []) end
  else ([], raw).

Lemma think_start_bound raw : (think_start raw <= length raw)%nat.
Proof. unfold think_start. destruct (strip_prefix THINK_OPEN raw) as [r|] eqn:E; [|lia]. apply strip_prefix_len in E. lia. Qed.

(** The split where the closing tag is known, and where there is none. *)
Lemma split_at raw b q : think_start raw = b → (b <= q)%nat → occurs raw THINK_CLOSE q → (∀ q', (b <= q' < q)%nat → ¬ occurs raw THINK_CLOSE q') →
  split_message true raw = (text_span raw b q, drop (q + length THINK_CLOSE) raw).
Proof.
  intros <- Hb Ho Hno. unfold split_message. rewrite (strstr_at raw THINK_CLOSE _ q Hb Ho Hno). f_equal. rewrite drop_drop. f_equal. lia.
Qed.

Lemma split_none raw b : think_start raw = b → (∀ q', (b <= q')%nat → ¬ occurs raw THINK_CLOSE q') → split_message true raw = (drop b raw, []).
Proof.
  intros <- Hno. unfold split_message. destruct (strstr _ _) as [c|] eqn:E; [|done]. apply strstr_occurs in E as [Ho _].
  apply occurs_drop in Ho; [|apply think_start_bound]. destruct (Hno (think_start raw + c)%nat); [lia|done].
Qed.


(** The opening tag is there in every longer text, or in none. *)
Lemma think_start_open raw more : strip_prefix THINK_OPEN raw ≠ None → think_start (raw ++ more) = length THINK_OPEN.
Proof.
  unfold think_start. destruct (strip_prefix THINK_OPEN raw) as [r|] eqn:E; [|done]. intros _. apply strip_prefix_Some in E as ->.
  by rewrite <- app_assoc, strip_prefix_app.
Qed.

Lemma think_start_none raw more : strip_prefix THINK_OPEN raw = None →
  (length raw <? length THINK_OPEN)%nat && bytes_eqb raw (take (length raw) THINK_OPEN) = false → think_start (raw ++ more) = 0%nat.
Proof.
  unfold think_start. intros Hn Hp. destruct (strip_prefix THINK_OPEN (raw ++ more)) as [r|] eqn:E; [|done]. exfalso. apply strip_prefix_Some in E.
  destruct (Nat.ltb_spec (length raw) (length THINK_OPEN)).
  - apply (f_equal (take (length raw))) in E. rewrite take_app_length, take_app_le in E by lia. cbn [andb] in Hp.
    by rewrite <- E, bytes_eqb_refl in Hp.
  - apply (f_equal (take (length THINK_OPEN))) in E. rewrite take_app_length, take_app_le in E by lia.
    rewrite <- (take_drop (length THINK_OPEN) raw), E, strip_prefix_app in Hn. done.
Qed.

Section split.
Context {St Ev : Type} (ops : stream_ops St Ev) `{!StreamView ops} (known : bytes → bool) (pick : (bytes → bool) → bytes) (think : bool).

(** The texts that may follow: none after the final one. *)
Definition follows (final : bool) (more : bytes) : Prop := final = true → more = [].

(** The opening tag may still come. *)
Definition unchecked (raw : bytes) (st : sse_stream) (s : St) (out : list Ev) : Prop :=
  think = true ∧ ss_mode st = STREAM_THINKING ∧ ss_checked_think_prefix st = false ∧ ss_emit_pos st = 0%nat
  ∧ sv_state None s out ∧ got ops out [] [].

(** In the reasoning, which starts at [b]: what was sent cannot become a closing tag. *)
Definition in_reasoning (final : bool) (raw : bytes) (st : sse_stream) (s : St) (out : list Ev) : Prop :=
  think = true ∧ ss_mode st = STREAM_THINKING ∧ ss_checked_think_prefix st = true ∧ (ss_emit_pos st <= length raw)%nat
  ∧ ready ops Reasoning s out ∧ ∃ b, (b <= ss_emit_pos st)%nat ∧ got ops out (text_span raw b (ss_emit_pos st)) []
  ∧ (∀ more, follows final more → think_start (raw ++ more) = b)
  ∧ (∀ more q, (b <= q < ss_emit_pos st)%nat → ¬ occurs (raw ++ more) THINK_CLOSE q).

(** In the content, which starts at [base], with all of the reasoning sent. *)
Definition in_content (final : bool) (raw : bytes) (st : sse_stream) (s : St) (out : list Ev) : Prop :=
  ss_mode st = STREAM_TEXT ∧ (ss_emit_pos st <= length raw)%nat ∧ ready ops Content s out
  ∧ ∃ base r, (base <= ss_emit_pos st)%nat ∧ got ops out r (text_span raw base (ss_emit_pos st))
    ∧ ∀ more, follows final more → split_message think (raw ++ more) = (r, drop base (raw ++ more)).

Definition all_sent (raw : bytes) (st : sse_stream) (s : St) (out : list Ev) : Prop :=
  ss_mode st = STREAM_SUPPRESS ∧ got ops out (split_message think raw).1 (split_message think raw).2.

Definition plain (st : sse_stream) : Prop := ss_active st = true ∧ ss_guard_second_reasoning st = false.

Definition splitting (raw : bytes) (st : sse_stream) (s : St) (out : list Ev) : Prop :=
  plain st ∧ (unchecked raw st s out ∨ in_reasoning false raw st s out ∨ in_content false raw st s out).

Lemma splitting_more raw c st s out : splitting raw st s out → splitting (raw ++ c) st s out.
Proof.
  intros [Hpl [H|[H|H]]]; (split; [done|]).
  - by left.
  - right. left. destruct H as (? & ? & ? & Hp & ? & b & Hb & Hgot & Hst & Hno). split_and!; [done..|rewrite length_app; lia|done|].
    exists b. rewrite span_more by done. split_and!; [done|done|..].
    + intros more _. rewrite <- app_assoc. by apply Hst.
    + intros more. rewrite <- app_assoc. apply Hno.
  - right. right. destruct H as (? & Hp & ? & base & r & Hb & Hgot & Hst). split_and!; [done|rewrite length_app; lia|done|].
    exists base, r. rewrite span_more by done. split_and!; [done|done|]. intros more _. rewrite <- app_assoc. by apply Hst.
Qed.

(** The check of the opening tag. *)
Lemma skip_open raw final st s out : unchecked raw st s out →
  match skip_think_open raw final st with
  | None => final = false
  | Some st' => in_reasoning final raw st' s out ∧ ss_active st' = ss_active st ∧ ss_guard_second_reasoning st' = ss_guard_second_reasoning st
  end.
Proof.
  intros (Ht & Hm & Hc & Hp & Hs & Hgot). unfold skip_think_open. rewrite Hc.
  destruct (_ && _ && negb final) eqn:E; [by destruct final; [rewrite andb_false_r in E|]|].
  split_and!; [|done|done]. split_and!; [done|done|done| |by left|].
  - cbn [ss_checked ss_emit_pos]. rewrite Hp. destruct (strip_prefix THINK_OPEN raw) as [r|] eqn:Er; [apply strip_prefix_len in Er|]; lia.
  - cbn [ss_checked ss_emit_pos]. rewrite Hp. exists (match strip_prefix THINK_OPEN raw with Some _ => length THINK_OPEN | None => 0%nat end).
    split_and!; [done|by rewrite span_nil| |intros; lia]. intros more Hf. destruct (strip_prefix THINK_OPEN raw) eqn:Er.
    + apply think_start_open. by rewrite Er.
    + destruct final; [rewrite (Hf eq_refl), app_nil_r; unfold think_start; by rewrite Er|]. rewrite andb_true_r in E. by apply think_start_none.
Qed.

(** A closing tag found from the position on is the first of the reasoning. *)
Lemma close_found raw pos b c : (pos <= length raw)%nat → (∀ more q, (b <= q < pos)%nat → ¬ occurs (raw ++ more) THINK_CLOSE q) →
  strstr (drop pos raw) THINK_CLOSE = Some c →
  (pos + c + length THINK_CLOSE <= length raw)%nat ∧ ∀ more, occurs (raw ++ more) THINK_CLOSE (pos + c)
  ∧ ∀ q, (b <= q < pos + c)%nat → ¬ occurs (raw ++ more) THINK_CLOSE q.
Proof.
  intros Hp Hno Hc. apply strstr_occurs in Hc as [Ho Hmin]. apply occurs_drop in Ho; [|done]. pose proof (occurs_bound _ _ _ Ho) as Hb.
  split; [done|]. intros more. split; [by apply occurs_more|]. intros q Hq Hoq. destruct (Nat.lt_ge_cases q pos); [by apply (Hno more q); [lia|]|].
  apply occurs_app_l in Hoq; [|lia]. replace q with (pos + (q - pos))%nat in Hoq by lia. apply occurs_drop in Hoq; [|done].
  specialize (Hmin _ Hoq). lia.
Qed.

Lemma close_missing raw pos q : (pos <= length raw)%nat → strstr (drop pos raw) THINK_CLOSE = None → (pos <= q)%nat → ¬ occurs raw THINK_CLOSE q.
Proof.
  intros Hp Hc Hq Ho. replace q with (pos + (q - pos))%nat in Ho by lia. apply occurs_drop in Ho; [|done]. by apply strstr_none_occurs in Ho.
Qed.

Definition thinking_ok (final : bool) (raw : bytes) (r : St * sse_stream * bool) (out : list Ev) : Prop :=
  plain r.1.2 ∧ (if r.2 then in_content final raw r.1.2 r.1.1 out
                 else if final then all_sent raw r.1.2 r.1.1 out
                 else unchecked raw r.1.2 r.1.1 out ∨ in_reasoning false raw r.1.2 r.1.1 out).

Lemma reasoning_known raw st s out : in_reasoning false raw st s out → ∀ final, in_reasoning final raw st s out.
Proof.
  intros (? & ? & ? & ? & ? & b & ? & ? & Hst & ?) final. split_and!; [done..|]. exists b. split_and!; [done|done| |done]. intros more _. by apply Hst.
Qed.

(** The hold of seven bytes keeps a closing tag whole. *)
Lemma reasoning_limit raw pos : (pos <= length raw)%nat → strstr (drop pos raw) THINK_CLOSE = None →
  let limit := utf8_stream_safe_len (Some raw) pos (if (7 <? length raw)%nat then (length raw - 7)%nat else pos) false in
  (limit <= length raw)%nat ∧ ∀ more q, (pos <= q < Nat.max pos limit)%nat → ¬ occurs (raw ++ more) THINK_CLOSE q.
Proof.
  intros Hp Hc. cbn zeta. pose proof (utf8_safe_le (Some raw) pos (if (7 <? length raw)%nat then (length raw - 7)%nat else pos) false) as Hl.
  set (limit := utf8_stream_safe_len _ _ _ _) in *. clearbody limit. destruct (Nat.ltb_spec 7 (length raw)); (split; [lia|]); intros more q Hq Ho; [|lia].
  apply occurs_app_l in Ho; [|cbn; lia]. by apply (close_missing raw pos q) in Ho; [..|lia].
Qed.

Lemma reasoning_sent raw final st s out : in_reasoning final raw st s out → strstr (drop (ss_emit_pos st) raw) THINK_CLOSE = None → final = true →
  ∃ b, got ops out (text_span raw b (ss_emit_pos st)) [] ∧ (b <= ss_emit_pos st <= length raw)%nat ∧ split_message think raw = (drop b raw, []).
Proof.
  intros (-> & _ & _ & Hp & _ & b & Hb & Hgot & Hst & Hno) Hc ->. exists b. split_and!; [done|lia..|]. apply split_none.
  - specialize (Hst [] (λ _, eq_refl)). by rewrite app_nil_r in Hst.
  - intros q Hq Ho. destruct (Nat.lt_ge_cases q (ss_emit_pos st)).
    + apply (Hno [] q); [lia|]. by rewrite app_nil_r.
    + by apply (close_missing raw (ss_emit_pos st) q).
Qed.

Lemma span_to_end raw b : text_span raw b (length raw) = drop b raw.
Proof. unfold text_span. apply take_ge. rewrite length_drop. lia. Qed.

Lemma thinking_step raw final st s out : plain st → in_reasoning final raw st s out → iwp (update_thinking ops false raw final st s) out (thinking_ok final raw).
Proof.
  intros Hpl H. pose proof H as (Ht & Hm & Hck & Hp & Hs & b & Hb & [Hr Hc] & Hst & Hno). unfold update_thinking, skip_think_open, tool_from. rewrite Hck.
  cbn [before]. cbn zeta. apply iwp_bind. destruct (strstr (drop (ss_emit_pos st) raw) THINK_CLOSE) as [c|] eqn:Ec.
  - destruct (close_found raw _ b c Hp Hno Ec) as [Hend Hfirst].
    eapply iwp_mono; [apply send_upto_spec; [done|done|lia]|]. cbn beta. intros [s1 st1] out1 (E & Hs1 & _ & Htx). cbn [fst snd] in *. subst st1.
    assert (∃ o, sv_state o s1 out1) as [o Ho] by (destruct Hs1; by eexists). apply iwp_bind. eapply iwp_mono; [by apply (sv_close o _)|].
    cbn beta. intros s2 out2 (Hs2 & _ & Ht2). apply iwp_ret. split; [done|]. cbn [fst snd]. split_and!; [done|cbn [ss_to ss_emit_pos]; lia|by left|].
    exists (ss_emit_pos st + c + length THINK_CLOSE)%nat, (text_span raw b (ss_emit_pos st + c)). cbn [ss_to ss_emit_pos]. split_and!; [done| |].
    + rewrite span_nil. split; rewrite Ht2, Htx; [|by rewrite decide_False by done; rewrite app_nil_r].
      rewrite decide_True, Hr, <- shown_app by done. rewrite (span_split raw b (ss_emit_pos st) (ss_emit_pos st + c)) by lia. done.
    + intros more Hf. rewrite Ht. destruct (Hfirst more) as [Ho' Hmin]. rewrite <- (span_more raw more b) by lia. by apply split_at; [by apply Hst|lia|..].
  - destruct final.
    + destruct (reasoning_sent raw true st s out H Ec eq_refl) as (b' & [Hr' _] & Hb' & Hsp).
      eapply iwp_mono; [apply send_upto_spec; [done|done|done]|]. cbn beta. intros [s1 st1] out1 (E & Hs1 & _ & Htx). cbn [fst snd] in *. subst st1.
      assert (∃ o, sv_state o s1 out1) as [o Ho] by (destruct Hs1; by eexists). apply iwp_bind. eapply iwp_mono; [by apply (sv_close o _)|].
      cbn beta. intros s2 out2 (_ & _ & Ht2). apply iwp_ret. split; [done|]. cbn [fst snd]. split; [done|]. rewrite Hsp. cbn [fst snd]. split; rewrite Ht2, Htx.
      * rewrite decide_True, Hr', <- shown_app by done. rewrite <- (span_split raw b' (ss_emit_pos st) (length raw)) by lia. by rewrite span_to_end.
      * by rewrite decide_False, app_nil_r by done.
    + destruct (reasoning_limit raw _ Hp Ec) as [Hl Hheld].
      change (length THINK_CLOSE - 1)%nat with 7%nat. set (limit := utf8_stream_safe_len _ _ _ _) in *. clearbody limit.
      eapply iwp_mono; [apply send_upto_spec; [done|done|done]|]. cbn beta. intros [s1 st1] out1 (E & Hs1 & _ & Htx). cbn [fst snd] in *. subst st1.
      apply iwp_ret. split; [done|]. cbn [fst snd]. right. split_and!; [done|done|done|cbn [ss_at ss_to ss_emit_pos]; lia|done|]. exists b. cbn [ss_at ss_to ss_emit_pos].
      split_and!; [lia| |done|].
      * split; rewrite Htx; [|by rewrite decide_False, app_nil_r by done]. rewrite decide_True, Hr, <- shown_app by done.
        destruct (Nat.le_gt_cases (ss_emit_pos st) limit).
        -- rewrite Nat.max_r by lia. by rewrite <- span_split by lia.
        -- rewrite Nat.max_l, (span_empty raw (ss_emit_pos st)) by lia. by rewrite app_nil_r.
      * intros more q Hq. destruct (Nat.lt_ge_cases q (ss_emit_pos st)); [apply Hno; lia|apply Hheld; lia].
Qed.

Lemma thinking_first raw final st s out : plain st → unchecked raw st s out ∨ in_reasoning false raw st s out →
  iwp (update_thinking ops false raw final st s) out (thinking_ok final raw).
Proof.
  intros Hpl [H|H]; [|apply thinking_step; [done|by apply reasoning_known]]. pose proof (skip_open raw final st s out H) as Hk.
  destruct (skip_think_open raw final st) as [st'|] eqn:E.
  - destruct Hk as (Hr & Ha & Hg). replace (update_thinking ops false raw final st s) with (update_thinking ops false raw final st' s).
    + apply thinking_step; [|done]. destruct Hpl. split; congruence.
    + pose proof Hr as (_ & _ & Hck & _). unfold update_thinking. rewrite E. unfold skip_think_open. by rewrite Hck.
  - unfold update_thinking. rewrite E. apply iwp_ret. split; [done|]. cbn [fst snd]. rewrite Hk. by left.
Qed.

Lemma content_limit raw pos final : (text_stream_safe_limit raw pos false final <= length raw)%nat ∧ (final = true → text_stream_safe_limit raw pos false final = length raw).
Proof.
  unfold text_stream_safe_limit. destruct (length raw <=? pos)%nat; [done|]. split; [apply utf8_safe_le|]. by intros ->.
Qed.

Lemma content_step raw final st s out : plain st → in_content final raw st s out →
  iwp (update_text ops false raw final st s) out (λ r out', r.2 = true ∧ plain r.1.2 ∧
    if final then all_sent raw r.1.2 r.1.1 out' else in_content false raw r.1.2 r.1.1 out').
Proof.
  intros [Ha Hg] (Hm & Hp & Hs & base & r & Hb & [Hr Hc] & Hsp). unfold update_text, update_guard. rewrite Hg. apply iwp_bind, iwp_ret.
  cbn [negb tool_from]. cbn zeta. apply iwp_bind. destruct (content_limit raw (ss_emit_pos st) final) as [Hl Hfin].
  set (limit := text_stream_safe_limit _ _ _ _) in *. clearbody limit.
  eapply iwp_mono; [apply send_upto_spec; [done|done|done]|]. cbn beta. intros [s1 st1] out1 (E & Hs1 & _ & Htx). cbn [fst snd] in *. subst st1.
  destruct final.
  - assert (∃ o, sv_state o s1 out1) as [o Ho] by (destruct Hs1; by eexists). apply iwp_bind. eapply iwp_mono; [by apply (sv_close o _)|].
    cbn beta. intros s2 out2 (_ & _ & Ht2). apply iwp_ret. split_and!; [done|by split|]. split; [done|]. specialize (Hsp [] (λ _, eq_refl)).
    rewrite app_nil_r in Hsp. rewrite Hsp. cbn [fst snd]. split; rewrite Ht2, Htx; [by rewrite decide_False, app_nil_r by done|].
    rewrite decide_True, Hc, (Hfin eq_refl), <- shown_app by done. rewrite <- (span_split raw base (ss_emit_pos st) (length raw)) by lia. by rewrite span_to_end.
  - apply iwp_ret. split_and!; [done|by split|]. split_and!; [done|cbn [fst snd ss_at ss_to ss_emit_pos]; lia|done|]. exists base, r.
    cbn [fst snd ss_at ss_to ss_emit_pos]. split_and!; [lia| |done]. split; rewrite Htx; [by rewrite decide_False, app_nil_r by done|].
    rewrite decide_True, Hc, <- shown_app by done. destruct (Nat.le_gt_cases (ss_emit_pos st) limit).
    + rewrite Nat.max_r by lia. by rewrite <- span_split by lia.
    + rewrite Nat.max_l, (span_empty raw (ss_emit_pos st)) by lia. by rewrite app_nil_r.
Qed.

(** The two kinds of update; the final one has sent everything. *)
Lemma split_update raw final st s out : splitting raw st s out →
  iwp (sse_stream_update ops known pick false raw final st s) out (λ r out',
    if final then all_sent raw r.2 r.1 out' else splitting raw r.2 r.1 out').
Proof.
  intros [Hpl H]. pose proof Hpl as [Ha Hg]. unfold sse_stream_update. rewrite Ha. cbn [negb].
  assert (∀ st s out, plain st → in_content final raw st s out →
    iwp (let* '(s, st, go_on) := (match ss_mode st with STREAM_TEXT => update_text ops false raw final st s | _ => iret (s, st, true) end) in
         if negb go_on then iret (s, st)
         else match ss_mode st with
              | STREAM_TOOL => let* '(s, t) := tool_stream_update (so_tool ops) known pick raw (ss_tool st) s in
                               iret (s, ss_with_tool (if ts_active t then STREAM_TOOL else STREAM_SUPPRESS) t st)
              | _ => iret (s, st)
              end) out (λ r out', if final then all_sent raw r.2 r.1 out' else splitting raw r.2 r.1 out')) as Hcontent.
  { clear -StreamView0. intros st s out Hpl H. pose proof H as (Hm & _). rewrite Hm. apply iwp_bind. eapply iwp_mono; [by apply content_step|].
    cbn beta. intros [[s1 st1] go] out1 (E & Hpl1 & H1). cbn [fst snd] in *. subst go. cbn [negb]. destruct final.
    - pose proof H1 as [-> _]. by apply iwp_ret.
    - pose proof H1 as [-> _]. apply iwp_ret. split; [done|]. right. by right. }
  apply iwp_bind. assert (ss_mode st = STREAM_THINKING ∧ (unchecked raw st s out ∨ in_reasoning false raw st s out) ∨ in_content false raw st s out) as [[Hm H']|H'].
  { destruct H as [H|[H|H]]; [left; split; [apply H|by left]|left; split; [apply H|by right]|by right]. }
  - rewrite Hm. eapply iwp_mono; [by apply thinking_first|]. cbn beta. intros [[s1 st1] go] out1 [Hpl1 H1]. cbn [fst snd] in *. destruct go; cbn [negb].
    + by apply Hcontent.
    + apply iwp_ret. destruct final; [done|]. split; [done|]. cbn [fst snd]. destruct H1; [by left|right; by left].
  - pose proof H' as (Hm & Hrest). rewrite Hm. apply iwp_ret. cbn [negb]. apply Hcontent; [done|]. split; [done|].
    destruct Hrest as (? & ? & base & r & ? & ? & Hsp). split_and!; [done..|]. exists base, r. split_and!; [done..|]. intros more _. by apply Hsp.
Qed.

Lemma split_streamed mode chunks s out0 : ds4_think_mode_enabled mode = think → sv_state None s out0 → got ops out0 [] [] →
  iwp (sse_feed ops known pick false [] chunks (stream_start mode false) s) out0 (λ r out, all_sent (concat chunks) r.2 r.1 out).
Proof.
  intros Ht Hs Hgot. apply (feed_rule ops known pick false splitting all_sent).
  - intros raw c st s' out H. by apply (split_update (raw ++ c) false), splitting_more.
  - intros raw st s' out H. by apply (split_update raw true).
  - unfold stream_start. rewrite Ht, andb_false_r. split; [done|]. destruct think eqn:E.
    + left. unfold unchecked. by rewrite E.
    + right. right. split_and!; [done|cbn; lia|by left|]. exists 0%nat, []. split_and!; [done|done|]. intros more _. by rewrite E.
Qed.
End split.

(** * Live streams and the parser *)

#[local] Open Scope io_scope.

(** ** The parser's block *)

Lemma occurs_tail t a b i : occurs t (a ++ b) i → occurs t b (i + length a).
Proof.
  intros (pre & post & -> & <-)%occurs_split. apply occurs_split. exists (pre ++ a), post. rewrite <- !app_assoc, length_app. done.
Qed.

Lemma syntax_start syn : syn ∈ dsml_syntaxes → tool_calls_start syn ∈ tool_starts.
Proof. unfold dsml_syntaxes, tool_starts. rewrite !elem_of_cons. intros [->|[->|[->|[]%not_elem_of_nil]]]; cbn [tool_calls_start]; auto. Qed.

(** One of the searches of [find_tool_block]. *)
Definition block_of_syntax (text : bytes) (syn : dsml_syntax) : option (nat * dsml_syntax) :=
  match strstr text ([10; 10] ++ tool_calls_start syn) with
  | Some i => Some (i, syn)
  | None => match strstr text (tool_calls_start syn) with Some i => Some (i, syn) | None => None end
  end.

Lemma block_found text off syn : block_of_syntax text syn = Some (off, syn) →
  occurs text ([10; 10] ++ tool_calls_start syn) off ∨ occurs text (tool_calls_start syn) off.
Proof.
  unfold block_of_syntax. destruct (strstr text ([10; 10] ++ _)) as [i|] eqn:E; [intros [= <-]; left; by apply strstr_occurs in E as [? _]|].
  destruct (strstr text (tool_calls_start syn)) as [i|] eqn:E'; [|done]. intros [= <-]. right. by apply strstr_occurs in E' as [? _].
Qed.

Lemma find_block_spec text off syn : find_tool_block text = Some (off, syn) → syn ∈ dsml_syntaxes ∧ block_of_syntax text syn = Some (off, syn).
Proof.
  assert (∀ syn' x, block_of_syntax text syn' = Some x → x.2 = syn') as Hsnd.
  { intros syn' x. unfold block_of_syntax. by destruct (strstr text ([10; 10] ++ _)); [|destruct (strstr text _)]; intros [= <-]. }
  assert (∀ l k x, foldl (λ k syn, match k with Some _ => k | None => block_of_syntax text syn end) k l = Some x →
    k = Some x ∨ ∃ syn', syn' ∈ l ∧ block_of_syntax text syn' = Some x) as Hfold.
  { induction l as [|y l IH]; intros k x; cbn [foldl]; [by left|]. intros [H|(syn' & ? & ?)]%IH; [|right; exists syn'; set_solver].
    destruct k; [by left|]. right. exists y. set_solver. }
  intros H. apply (Hfold dsml_syntaxes None) in H as [|(syn' & Hin & H)]; [done|]. by pose proof (Hsnd _ _ H) as <-.
Qed.

Lemma find_block_none text : find_any_tool_start text = None → find_tool_block text = None.
Proof.
  intros H. destruct (find_tool_block text) as [[off syn]|] eqn:E; [|done]. apply find_block_spec in E as [Hsyn E].
  pose proof (earliest_spec text tool_starts) as Hs. unfold find_any_tool_start in H. rewrite H in Hs.
  destruct (block_found _ _ _ E) as [Ho|Ho]; [apply (occurs_tail _ [10; 10]) in Ho|]; by apply Hs in Ho; [|apply syntax_start].
Qed.

(** Between the start of the block and its marker there is white space. *)
Lemma block_trim text off syn i : find_tool_block text = Some (off, syn) → strstr (drop off text) (tool_calls_start syn) = Some i →
  trim_tool_separator_ws text 0 off = trim_tool_separator_ws text 0 (off + i).
Proof.
  intros [Hsyn Hb]%find_block_spec Hi. apply strstr_occurs in Hi as [Ho Hmin]. destruct (block_found _ _ _ Hb) as [H|H].
  - pose proof (occurs_bound _ _ _ H) as Hl. apply occurs_drop in Ho; [|lia]. pose proof (occurs_tail _ [10; 10] _ _ H) as H2.
    apply occurs_drop in H2; [|lia]. specialize (Hmin _ H2). destruct (tool_start_shape _ (syntax_start _ Hsyn)) as (_ & r & E & _).
    pose proof (occurs_byte _ _ _ 0 H ltac:(cbn; lia)) as H0. pose proof (occurs_byte _ _ _ 1 H ltac:(cbn; lia)) as H1.
    pose proof (occurs_byte _ _ _ 0 Ho ltac:(rewrite E; cbn; lia)) as Hc. rewrite E in Hc. rewrite Nat.add_0_r in Hc, H0. cbn in H0, H1, Hc, Hmin.
    destruct i as [|[|[|i]]]; [rewrite Nat.add_0_r in Hc; congruence|congruence| |lia].
    replace (off + 2)%nat with (S (S off)) by lia. cbn [trim_tool_separator_ws]. replace (S off) with (off + 1)%nat at 2 by lia. by rewrite H0, H1.
  - pose proof (occurs_bound _ _ _ H). specialize (Hmin 0%nat ltac:(apply occurs_drop; [lia|by rewrite Nat.add_0_r])).
    by replace (off + i)%nat with off by lia.
Qed.

(** ** The parser's split *)

Lemma find_last_some s x : x ≠ [] → match find_last_substr s x with Some e => occurs s x e | None => ∀ j, ¬ occurs s x j end.
Proof.
  intros Hx. induction s as [|c s IH]; cbn [find_last_substr].
  - intros j Ho. apply occurs_bound in Ho. destruct x; [done|]. cbn in Ho. lia.
  - destruct x as [|b x]; [done|]. set (y := b :: x) in *. destruct (find_last_substr s y) as [e|].
    + apply (occurs_drop (c :: s) y 1 e) in IH; [done|cbn; lia].
    + destruct (strip_prefix y (c :: s)) as [r|] eqn:Es.
      * apply strip_prefix_Some in Es. rewrite Es. apply occurs_split. by exists [], r.
      * intros j Ho. destruct j as [|j]; [|destruct (IH j); by apply (occurs_drop (c :: s) y 1 j); [cbn; lia|]].
        destruct Ho as [_ [post Ho]]. rewrite drop_0 in Ho. by rewrite Ho, strip_prefix_app in Es.
Qed.

(** The opening tag holds no part of a closing tag. *)
Lemma close_after_open text q : occurs text THINK_CLOSE q → (think_start text <= q)%nat.
Proof.
  intros Ho. unfold think_start. destruct (strip_prefix THINK_OPEN text) as [r|] eqn:E; [|lia]. apply strip_prefix_Some in E. subst text.
  pose proof (occurs_byte _ _ _ 0 Ho ltac:(cbn; lia)) as H0. pose proof (occurs_byte _ _ _ 1 Ho ltac:(cbn; lia)) as H1.
  destruct (Nat.le_gt_cases (length THINK_OPEN) q) as [|Hlt]; [done|exfalso]. rewrite Nat.add_0_r in H0. unfold byte_at in H0, H1. cbn in Hlt.
  do 7 (destruct q as [|q]; [cbn in H0, H1; discriminate|]). lia.
Qed.

Lemma parser_splits text calls : find_any_tool_start text = None →
  parse_deepseek_generated_message_ex (Some text) true calls = (Some (Some (split_message true text).2, Some (split_message true text).1), calls).
Proof.
  intros Hn. unfold parse_deepseek_generated_message_ex, tool_search_from. change (default [] (Some text)) with text. rewrite Hn. cbn zeta.
  pose proof (find_last_some text THINK_CLOSE ltac:(done)) as Hlast. change (bs "</think>") with THINK_CLOSE.
  assert ((match strip_prefix (bs "<think>") text with Some b => b | None => text end) = drop (think_start text) text) as Hbody.
  { unfold think_start. change (bs "<think>") with THINK_OPEN. destruct (strip_prefix THINK_OPEN text) eqn:E; [|done]. apply strip_prefix_Some in E as ->.
    by rewrite drop_app_length. }
  destruct (find_last_substr text THINK_CLOSE) as [e|].
  - assert (find_tool_block (drop (e + 8) text) = None) as ->.
    { apply find_block_none. pose proof (occurs_bound _ _ _ Hlast) as Hb. cbn in Hb. pose proof (find_start_spec text (e + 8) ltac:(lia)) as H.
      destruct (find_any_tool_start (drop (e + 8) text)) as [off|]; [|done]. destruct H as (_ & (m & Hm & Ho) & _).
      pose proof (earliest_spec text tool_starts) as Hs. unfold find_any_tool_start in Hn. rewrite Hn in Hs. by destruct (Hs m (e + 8 + off)%nat). }
    unfold split_reasoning_content, split_message. rewrite take_ge by done. change (bs "</think>") with THINK_CLOSE. rewrite Hbody.
    destruct (strstr (drop (think_start text) text) THINK_CLOSE) as [c|] eqn:Ec; [done|]. exfalso.
    pose proof (close_after_open _ _ Hlast). apply (strstr_none_occurs _ _ (e - think_start text)) in Ec. apply Ec. apply occurs_drop; [apply think_start_bound|].
    by replace (think_start text + (e - think_start text))%nat with e by lia.
  - unfold ds4_local_unterminated_reasoning. rewrite Hbody, (split_none text (think_start text)); [done|done|]. intros q _. apply Hlast.
Qed.

Lemma push_parsed_list cs : push_parsed tool_calls_zero cs = ToolCalls (parsed_call <$> cs) None.
Proof. induction cs as [|c cs IH] using rev_ind; [done|]. rewrite push_parsed_snoc, IH, fmap_app. done. Qed.

(** The parser on a message whose block is the one at [q]. *)
Lemma parser_calls text off syn q rest cs : find_tool_block text = Some (off, syn) → strstr (drop off text) (tool_calls_start syn) = Some (q - off)%nat → (off <= q)%nat →
  inv_run syn (drop (q + length (tool_calls_start syn)) text) tool_calls_zero = (Some rest, push_parsed tool_calls_zero cs) →
  parse_deepseek_generated_message_ex (Some text) false tool_calls_zero
  = (Some (split_reasoning_content text (trim_tool_separator_ws text 0 q)),
     ToolCalls (parsed_call <$> cs) (Some (take (length (drop off text) - length rest) (drop off text)))).
Proof.
  intros Hb Hs Hle Hrun. unfold parse_deepseek_generated_message_ex, tool_search_from. change (default [] (Some text)) with text. cbn zeta. rewrite drop_0, Hb. cbn [Nat.add]. rewrite Hs.
  unfold inv_run in Hrun. rewrite drop_drop. replace (off + (q - off + length (tool_calls_start syn)))%nat with (q + length (tool_calls_start syn))%nat by lia.
  rewrite Hrun, push_parsed_list. cbn [calls_v]. rewrite (block_trim text off syn (q - off) Hb Hs). by replace (off + (q - off))%nat with q by lia.
Qed.

(** ** Whole messages *)

(** What a stream has sent of a message without reasoning, whose tool stream ended as
    [t], against the parser of the whole text: the content before the first tool marker,
    and for a block that was streamed to its end the calls the parser's loop reads there.
    The parser itself gives these calls and this content when the block it picks is the
    first one. *)
Definition message_matches (text : bytes) (t : tool_stream) (reasoning content : bytes) (calls : list (bytes * bytes)) : Prop :=
  reasoning = [] ∧ content = content_of text ∧
  ∀ q, find_any_tool_start text = Some q → ts_state t = DSML_TOOL_DONE →
    ∃ syn cs, syn ∈ dsml_syntaxes ∧ occurs text (tool_calls_start syn) q ∧ calls = streamed_call <$> cs
      ∧ (let p := drop (q + length (tool_calls_start syn)) text in
         invokes_loop (S (length p)) syn p tool_calls_zero = (Some (drop (ts_parse_pos t) text), ToolCalls (parsed_call <$> cs) None))
      ∧ ∀ off, find_tool_block text = Some (off, syn) → (off <= q)%nat → strstr (drop off text) (tool_calls_start syn) = Some (q - off)%nat →
          ∃ raw, parse_deepseek_generated_message_ex (Some text) false tool_calls_zero
                 = (Some (split_reasoning_content text (length content)), ToolCalls (parsed_call <$> cs) (Some raw)).

Lemma sent_matches {St Ev : Type} (ops : stream_ops St Ev) `{!StreamView ops} text st s out : (∀ c, sv_shown c = true) → message_sent ops text st s out →
  message_matches text (ss_tool st) (sv_text Reasoning out) (sv_text Content out) (tv_view out).
Proof.
  intros Hshow [[Hr Hc] Hd]. unfold shown in Hr, Hc. rewrite Hshow in Hr, Hc. split_and!; [done|done|]. intros q Hq Hdone. destruct (Hd q Hq Hdone) as (syn & cs & Hsyn & Hf & Hv & Hrun). exists syn, cs.
  split_and!; [done|by apply full_occurs|done|unfold inv_run in Hrun; by rewrite <- push_parsed_list|]. intros off Hoff Hle Hs. eexists.
  rewrite (parser_calls text off syn q _ cs Hoff Hs Hle Hrun). rewrite Hc. unfold content_of. rewrite Hq, length_take.
  apply find_start_some, first_marker_bound in Hq. pose proof (trim_le text 0 q). by rewrite Nat.min_l by lia.
Qed.

Lemma sent_splits {St Ev : Type} (ops : stream_ops St Ev) `{!StreamView ops} think text st s out : (∀ c, sv_shown c = true) → all_sent ops think text st s out →
  split_message think text = (sv_text Reasoning out, sv_text Content out).
Proof. intros Hshow [_ [-> ->]]. unfold shown. rewrite !Hshow. by destruct (split_message think text). Qed.

Lemma anthropic_started send p r w : (∀ n, send n = true) →
  ∃ e, anthropic_sse_start_live send p r w [] = ([e], Done (AnthropicState ANTH_BLOCK_NONE 0 false false)) ∧ anthropic_calls [e] = [] ∧ ∀ c, anthropic_text c [e] = [].
Proof. intros H. eexists. split_and!; [unfold anthropic_sse_start_live, ibind, send_event; rewrite H; reflexivity|done|done]. Qed.




(** ** Witnesses *)

Definition always (n : nat) : bool := true.
Definition unknown (id : bytes) : bool := false.
Definition fixed_id (taken : bytes → bool) : bytes := bs "call_0".

(** A closing tag in two pieces. *)
Definition thought : list bytes := [bs "<thi"; bs "nk>hm</th"; bs "ink>Hi"; bs " you"].


(** A call in pieces that cut the marker, the tags and an entity. *)
Definition called : list bytes :=
  [bs "Hi "; bs "there <tool_"; js "calls><invoke name='f'><param"; js "eter name='a' string='true'>x&am"; bs "p;y</param"; bs "eter></invoke></tool_calls>"].



(** ** Where the stream and the parser part *)

(** In reasoning only the seven bytes of a closing tag are held back, fewer than a
    tool marker has: a marker that arrives in pieces is sent as reasoning, and then the
    whole block with it; in one piece, none of it is. *)
Lemma marker_in_reasoning_leaks :
  let block := js "calls><invoke name='f'></invoke></tool_calls>" in
  let reasoning chunks :=
    openai_text Reasoning (sse_feed (openai_ops always) unknown fixed_id true [] chunks (stream_start DS4_THINK_HIGH true) (OpenaiState false false) []).1 in
  reasoning [bs "hm <tool_" ++ block] = bs "hm"
  ∧ reasoning [bs "hm <tool_ca"; drop 2 block] = bs "hm <tool_" ++ block.
Proof. split; vm_compute; reflexivity. Qed.

(** A parameter without the attribute [string], which the parser reads. *)
Definition untyped : bytes := js "<tool_calls><invoke name='f'><parameter name='a'>x</parameter></invoke></tool_calls>".
Definition untyped_calls : list tool_call := calls_v (parse_deepseek_generated_message_ex (Some untyped) false tool_calls_zero).2.

(** The stream gives up inside the call. OpenAI: the client is left with the call cut
    off, because the calls are sent whole only when none was begun. *)
Lemma openai_call_cut_short :
  untyped_calls = [ToolCall None (Some (bs "f")) (Some (js "{'a': 'x'}"))]
  ∧ openai_calls ((let* '(s, st) := openai_sse_stream_update always unknown fixed_id true untyped false (stream_start DS4_THINK_NONE true) (OpenaiState false false) in
                   openai_sse_finish_live always unknown fixed_id true false untyped st s untyped_calls (bs "tool_calls") 1 1 0 0) []).1 = [(bs "f", bs "{")].
Proof. split; vm_compute; reflexivity. Qed.

(** Anthropic: the call is sent again in a block with the index of the one that is
    still open. *)
Lemma anthropic_block_reused :
  ((let* '(s, st) := anthropic_sse_stream_update always (bs "m") unknown fixed_id true untyped false (stream_start DS4_THINK_NONE true) (AnthropicState ANTH_BLOCK_NONE 0 false false) in
    anthropic_sse_finish_live always (bs "m") unknown fixed_id true untyped st s untyped_calls (bs "tool_calls") 1) []).1
  = [AnToolStart 0 (bs "call_0") (bs "f"); AnToolDelta 0 (bs "{"); AnToolStart 0 (bs "toolu_m_0") (bs "f"); AnToolDelta 0 (js "{'a':'x'}"); AnBlockStop 0;
     AnMessageDelta (bs "tool_use") 1; AnMessageStop].
Proof. vm_compute. reflexivity. Qed.

(** An empty value that is not a string is sent as nothing, where the parser writes
    [null]. *)
Lemma empty_value_not_json :
  let text := js "<tool_calls><invoke name='f'><parameter name='a' string='false'></parameter></invoke></tool_calls>" in
  openai_calls (sse_feed (openai_ops always) unknown fixed_id true [] [text] (stream_start DS4_THINK_NONE true) (OpenaiState false false) []).1 = [(bs "f", js "{'a':}")]
  ∧ calls_v (parse_deepseek_generated_message_ex (Some text) false tool_calls_zero).2 = [ToolCall None (Some (bs "f")) (Some (js "{'a': null}"))].
Proof. split; vm_compute; reflexivity. Qed.
