(* ===== verification/ResponsesStream.v ===== *)
(** * The Responses stream

    [responses_stream] of [engine/src/server.c]: its items, the events of their lives,
    the update while a message is generated, the finish with the calls and the terminal
    event, and the text of the events.

    The update takes the decisions of the other live streams and is their definition
    with these events; tool calls are not streamed but sent whole at the end. Random
    identifiers are arguments. *)
From S2P Require Import Prelude CLib Json Request Stream Dsml ToolText ToolStream SseStream.

#[local] Open Scope io_scope.

(** ** State *)

Record responses_stream := ResponsesStream {
  rs_reasoning_item_opened : bool;
  rs_reasoning_item_closed : bool;
  rs_reasoning_summary_started : bool;
  rs_reasoning_closed_naturally : bool;
  rs_message_item_opened : bool;
  rs_message_text_part_open : bool;
  rs_message_item_closed : bool;
  rs_reasoning_emitted_any : bool;
  rs_message_emitted_any : bool;
  rs_reasoning_text : bytes;
  rs_message_text : bytes;
  rs_response_id : bytes;
  rs_reasoning_id : bytes;
  rs_message_id : bytes;
  rs_reasoning_index : Z;
  rs_message_index : Z;
  rs_next_output_index : Z;
  rs_sequence : Z;
}.

Definition responses_stream_init (response_id reasoning_id message_id : bytes) : responses_stream :=
  ResponsesStream false false false false false false false false false [] [] response_id reasoning_id message_id (-1) (-1) 0 0.

(** One more event, and the flags of the two items. *)
Definition rs_next (s : responses_stream) : responses_stream :=
  ResponsesStream (rs_reasoning_item_opened s) (rs_reasoning_item_closed s) (rs_reasoning_summary_started s) (rs_reasoning_closed_naturally s)
    (rs_message_item_opened s) (rs_message_text_part_open s) (rs_message_item_closed s) (rs_reasoning_emitted_any s) (rs_message_emitted_any s)
    (rs_reasoning_text s) (rs_message_text s) (rs_response_id s) (rs_reasoning_id s) (rs_message_id s)
    (rs_reasoning_index s) (rs_message_index s) (rs_next_output_index s) (rs_sequence s + 1).
Definition rs_reasoning (opened closed started naturally emitted : bool) (text : bytes) (index next : Z) (s : responses_stream) : responses_stream :=
  ResponsesStream opened closed started naturally (rs_message_item_opened s) (rs_message_text_part_open s) (rs_message_item_closed s) emitted
    (rs_message_emitted_any s) text (rs_message_text s) (rs_response_id s) (rs_reasoning_id s) (rs_message_id s)
    index (rs_message_index s) next (rs_sequence s).
Definition rs_message (opened part closed emitted : bool) (text : bytes) (index next : Z) (s : responses_stream) : responses_stream :=
  ResponsesStream (rs_reasoning_item_opened s) (rs_reasoning_item_closed s) (rs_reasoning_summary_started s) (rs_reasoning_closed_naturally s)
    opened part closed (rs_reasoning_emitted_any s) emitted (rs_reasoning_text s) text (rs_response_id s) (rs_reasoning_id s) (rs_message_id s)
    (rs_reasoning_index s) index next (rs_sequence s).

Definition responses_item_status_for_finish (finish : bytes) : bytes :=
  if bytes_eqb finish (bs "length") || bytes_eqb finish (bs "error") then bs "incomplete" else bs "completed".

Definition responses_status_for_finish (finish : bytes) : bytes :=
  if bytes_eqb finish (bs "length") then bs "incomplete" else if bytes_eqb finish (bs "error") then bs "failed" else bs "completed".

(** ** Calls *)

Record responses_tool_item := ResponsesToolItem { ti_fc_id : bytes; ti_call_id : bytes; ti_is_custom : bool; ti_output_index : Z }.

Definition responses_tool_call_is_tool_search (tc : tool_call) (order : option tool_schema_order) : bool :=
  match tc_name tc with
  | Some n => bytes_eqb n (bs "tool_search") && match order with None => true | Some o => tso_responses_tool_search o end
  | None => false
  end.

(** [fc_id i] and [call_id i] are the random identifiers of call [i]; the buffer of a
    call identifier keeps 63 bytes. *)
Definition responses_tool_items_build (fc_id call_id : nat → bytes) (calls : list tool_call) (starting_output_index : Z) : list responses_tool_item :=
  imap (λ i tc, ResponsesToolItem (fc_id i) (match tc_id tc with Some (c :: x) => take 63 (c :: x) | _ => call_id i end) false
                  (starting_output_index + Z.of_nat i)) calls.

Definition wire_name (tc : tool_call) (order : option tool_schema_order) : bytes := default (default [] (tc_name tc)) (order ≫= tso_wire_name).

Definition namespace_member (order : option tool_schema_order) : bytes :=
  match order ≫= tso_namespace with Some ns => js ",'namespace':" ++ json_escape ns | None => [] end.

Definition responses_append_function_call_item (tc : tool_call) (item : responses_tool_item) (item_status : bytes) (with_args : bool)
    (orders : list tool_schema_order) : bytes :=
  let order := tool_schema_orders_find orders (tc_name tc) in
  if responses_tool_call_is_tool_search tc order then
    js "{'id':'" ++ ti_fc_id item ++ js "','type':'tool_search_call','status':'" ++ item_status ++ js "','call_id':'" ++ ti_call_id item
    ++ js "','execution':'client','arguments':" ++ (if with_args then append_json_object_or_empty (tc_arguments tc) else bs "{}") ++ bs "}"
  else
    js "{'id':'" ++ ti_fc_id item ++ js "','type':'" ++ (if ti_is_custom item then bs "custom_tool_call" else bs "function_call")
    ++ js "','status':'" ++ item_status ++ js "','name':" ++ json_escape (wire_name tc order) ++ namespace_member order
    ++ js ",'call_id':" ++ json_escape (ti_call_id item) ++ js ",'" ++ (if ti_is_custom item then bs "input" else bs "arguments") ++ js "':"
    ++ (if negb with_args then js "''" else if ti_is_custom item then json_escape (default [] (tc_arguments tc)) else append_json_object_string (tc_arguments tc))
    ++ bs "}".

(** ** Events *)

Inductive responses_body :=
  | ReCreated (response_id : bytes) (created_at : Z) (model : bytes)
  | ReReasoningAdded (index : Z) (id : bytes)
  | ReSummaryAdded (index : Z) (id : bytes)
  | ReReasoningDelta (index : Z) (id text : bytes)
  | ReSummaryTextDone (index : Z) (id text : bytes)
  | ReSummaryPartDone (index : Z) (id text : bytes)
  | ReReasoningDone (index : Z) (id status text : bytes)
  | ReMessageAdded (index : Z) (id : bytes)
  | ReTextPartAdded (index : Z) (id : bytes)
  | ReTextDelta (index : Z) (id text : bytes)
  | ReTextDone (index : Z) (id text : bytes)
  | ReTextPartDone (index : Z) (id text : bytes)
  | ReMessageDone (index : Z) (id status text : bytes)
  | ReCall (tc : tool_call) (item : responses_tool_item) (status : bytes) (final : bool)
  | ReArgumentsDelta (item : responses_tool_item) (arguments : bytes)
  | ReArgumentsDone (tc : tool_call) (item : responses_tool_item) (arguments : bytes)
  | ReTerminal (finish : bytes) (response_id : bytes) (created_at : Z) (model : bytes)
      (reasoning message : option (bytes * bytes * bytes)) (calls : list (tool_call * responses_tool_item))
      (prompt_tokens completion_tokens cached written : Z).

(** An event with its sequence number. *)
Record responses_event := ResponsesEvent { re_sequence : option Z; re_body : responses_body }.

Section bytes.
Context (orders : list tool_schema_order).

Definition summary_text (text : bytes) : bytes := match text with [] => [] | _ => js "{'type':'summary_text','text':" ++ json_escape text ++ bs "}" end.

Definition append_responses_usage_json (input_tokens output_tokens cached written : Z) : bytes :=
  js "{'input_tokens':" ++ fmt_d input_tokens ++ js ",'input_tokens_details':{'cached_tokens':" ++ fmt_d cached ++ js ",'cache_write_tokens':" ++ fmt_d written
  ++ js "},'output_tokens':" ++ fmt_d output_tokens ++ js ",'output_tokens_details':{'reasoning_tokens':0},'total_tokens':"
  ++ fmt_d (input_tokens + output_tokens) ++ bs "}".

Definition reasoning_item (id status text : bytes) : bytes :=
  js "{'id':'" ++ id ++ js "','type':'reasoning','status':'" ++ status ++ js "','summary':[" ++ summary_text text ++ bs "]}".

Definition message_item (id status text : bytes) : bytes :=
  js "{'id':'" ++ id ++ js "','type':'message','status':'" ++ status ++ js "','role':'assistant','content':[{'type':'output_text','text':"
  ++ json_escape text ++ js ",'annotations':[]}]}".

Definition responses_body_bytes (e : responses_body) : bytes :=
  let at_item (type : string) (id : bytes) (index : Z) (part : string) :=
    js "{'type':'" ++ bs type ++ js "','item_id':'" ++ id ++ js "','output_index':" ++ fmt_d index ++ js "," ++ js part in
  let item (event : string) (index : Z) := js "{'type':'response.output_item." ++ bs event ++ js "','output_index':" ++ fmt_d index ++ js ",'item':" in
  match e with
  | ReCreated id created_at model =>
      js "{'type':'response.created','response':{'id':'" ++ id ++ js "','object':'response','created_at':" ++ fmt_d created_at
      ++ js ",'status':'in_progress','model':" ++ json_escape model ++ js ",'output':[]}}"
  | ReReasoningAdded index id =>
      item "added"%string index ++ js "{'id':'" ++ id ++ js "','type':'reasoning','status':'in_progress','summary':[]}}"
  | ReSummaryAdded index id =>
      at_item "response.reasoning_summary_part.added"%string id index "'summary_index':0,'part':{'type':'summary_text','text':''}}"%string
  | ReReasoningDelta index id text =>
      at_item "response.reasoning_summary_text.delta"%string id index "'summary_index':0,'delta':"%string ++ json_escape text ++ bs "}"
  | ReSummaryTextDone index id text =>
      at_item "response.reasoning_summary_text.done"%string id index "'summary_index':0,'text':"%string ++ json_escape text ++ bs "}"
  | ReSummaryPartDone index id text =>
      at_item "response.reasoning_summary_part.done"%string id index "'summary_index':0,'part':{'type':'summary_text','text':"%string ++ json_escape text ++ bs "}}"
  | ReReasoningDone index id status text => item "done"%string index ++ reasoning_item id status text ++ bs "}"
  | ReMessageAdded index id =>
      item "added"%string index ++ js "{'id':'" ++ id ++ js "','type':'message','status':'in_progress','role':'assistant','content':[]}}"
  | ReTextPartAdded index id =>
      at_item "response.content_part.added"%string id index "'content_index':0,'part':{'type':'output_text','text':'','annotations':[]}}"%string
  | ReTextDelta index id text =>
      at_item "response.output_text.delta"%string id index "'content_index':0,'delta':"%string ++ json_escape text ++ bs "}"
  | ReTextDone index id text =>
      at_item "response.output_text.done"%string id index "'content_index':0,'text':"%string ++ json_escape text ++ bs "}"
  | ReTextPartDone index id text =>
      at_item "response.content_part.done"%string id index "'content_index':0,'part':{'type':'output_text','text':"%string ++ json_escape text
      ++ js ",'annotations':[]}}"
  | ReMessageDone index id status text => item "done"%string index ++ message_item id status text ++ bs "}"
  | ReCall tc it status final =>
      item (if final then "done" else "added")%string (ti_output_index it) ++ responses_append_function_call_item tc it status final orders ++ bs "}"
  | ReArgumentsDelta it arguments =>
      js "{'type':'response.function_call_arguments.delta','item_id':'" ++ ti_fc_id it ++ js "','output_index':" ++ fmt_d (ti_output_index it)
      ++ js ",'delta':" ++ json_escape arguments ++ bs "}"
  | ReArgumentsDone tc it arguments =>
      let order := tool_schema_orders_find orders (tc_name tc) in
      js "{'type':'response.function_call_arguments.done','item_id':'" ++ ti_fc_id it ++ js "','output_index':" ++ fmt_d (ti_output_index it)
      ++ js ",'name':" ++ json_escape (wire_name tc order) ++ namespace_member order ++ js ",'arguments':" ++ json_escape arguments ++ bs "}"
  | ReTerminal finish id created_at model reasoning message calls prompt_tokens completion_tokens cached written =>
      js "{'type':'" ++ (if bytes_eqb finish (bs "error") then bs "response.failed" else if bytes_eqb finish (bs "length") then bs "response.incomplete"
                         else bs "response.completed")
      ++ js "','response':{'id':'" ++ id ++ js "','object':'response','created_at':" ++ fmt_d created_at
      ++ js ",'status':'" ++ responses_status_for_finish finish ++ js "','model':" ++ json_escape model
      ++ (if bytes_eqb finish (bs "error") then js ",'error':{'code':'server_error','message':'generation failed'}"
          else if bytes_eqb finish (bs "length") then js ",'incomplete_details':{'reason':'max_tokens'}" else [])
      ++ js ",'output':["
      ++ comma_join (match reasoning with Some (id, status, text) => [reasoning_item id status text] | None => [] end
                     ++ match message with Some (id, status, text) => [message_item id status text] | None => [] end
                     ++ ((λ c, responses_append_function_call_item c.1 c.2 (responses_item_status_for_finish finish) true orders) <$> calls))
      ++ js "],'usage':" ++ append_responses_usage_json prompt_tokens completion_tokens cached written ++ bs "}}"
  end.

(** The place after the closing quote of the type, where the number goes. *)
Fixpoint string_close (s : bytes) : option nat :=
  match s with
  | [] => None
  | 34 :: _ => Some 1%nat
  | 92 :: _ :: r => (λ n, S (S n)) <$> string_close r
  | _ :: r => S <$> string_close r
  end.

Definition type_close (body : bytes) : option nat :=
  match strip_prefix (js "{'type':'") body with Some r => (λ n, (9 + n)%nat) <$> string_close r | None => None end.

Definition responses_event_bytes (e : responses_event) : bytes :=
  let body := responses_body_bytes (re_body e) in
  bs "data: " ++ (match re_sequence e, type_close body with
                  | Some n, Some k => take k body ++ js ",'sequence_number':" ++ fmt_d n ++ drop k body
                  | _, _ => body
                  end) ++ [10; 10].
End bytes.

(** ** Sending *)

Section responses.
Context (send : nat → bool) (orders : list tool_schema_order).

Notation op := (responses_stream → io responses_event responses_stream).

(** The number is used up when there is a place for it. *)
Definition responses_sse_emit_event (e : responses_body) : op := λ s,
  match type_close (responses_body_bytes orders e) with
  | Some _ => let* _ := send_event send (ResponsesEvent (Some (rs_sequence s)) e) in iret (rs_next s)
  | None => let* _ := send_event send (ResponsesEvent None e) in iret s
  end.

Definition responses_sse_created (created_at : Z) (model : bytes) : op := λ s,
  responses_sse_emit_event (ReCreated (rs_response_id s) created_at model) s.

Definition responses_sse_reasoning_added : op := λ s, responses_sse_emit_event (ReReasoningAdded (rs_reasoning_index s) (rs_reasoning_id s)) s.
Definition responses_sse_reasoning_summary_part_added : op := λ s, responses_sse_emit_event (ReSummaryAdded (rs_reasoning_index s) (rs_reasoning_id s)) s.
Definition responses_sse_reasoning_delta (text : bytes) : op := λ s,
  match text with [] => iret s | _ => responses_sse_emit_event (ReReasoningDelta (rs_reasoning_index s) (rs_reasoning_id s) text) s end.

Definition responses_sse_reasoning_done : op := λ s,
  let status := if rs_reasoning_closed_naturally s then bs "completed" else bs "incomplete" in
  let* s := responses_sse_emit_event (ReSummaryTextDone (rs_reasoning_index s) (rs_reasoning_id s) (rs_reasoning_text s)) s in
  let* s := (if rs_reasoning_summary_started s
             then responses_sse_emit_event (ReSummaryPartDone (rs_reasoning_index s) (rs_reasoning_id s) (rs_reasoning_text s)) s else iret s) in
  responses_sse_emit_event (ReReasoningDone (rs_reasoning_index s) (rs_reasoning_id s) status (rs_reasoning_text s)) s.

Definition responses_sse_message_added : op := λ s, responses_sse_emit_event (ReMessageAdded (rs_message_index s) (rs_message_id s)) s.
Definition responses_sse_message_text_part_added : op := λ s, responses_sse_emit_event (ReTextPartAdded (rs_message_index s) (rs_message_id s)) s.
Definition responses_sse_output_text_delta (text : bytes) : op := λ s,
  match text with [] => iret s | _ => responses_sse_emit_event (ReTextDelta (rs_message_index s) (rs_message_id s) text) s end.

Definition responses_sse_message_done (finish : bytes) : op := λ s,
  let* s := responses_sse_emit_event (ReTextDone (rs_message_index s) (rs_message_id s) (rs_message_text s)) s in
  let* s := responses_sse_emit_event (ReTextPartDone (rs_message_index s) (rs_message_id s) (rs_message_text s)) s in
  responses_sse_emit_event (ReMessageDone (rs_message_index s) (rs_message_id s) (responses_item_status_for_finish finish) (rs_message_text s)) s.

(** *** The two items in an update *)

Definition open_reasoning : op := λ s,
  let* s := (if rs_reasoning_item_opened s then iret s
             else
               let s := rs_reasoning false (rs_reasoning_item_closed s) (rs_reasoning_summary_started s) (rs_reasoning_closed_naturally s)
                          (rs_reasoning_emitted_any s) (rs_reasoning_text s) (rs_next_output_index s) (rs_next_output_index s + 1) s in
               let* s := responses_sse_reasoning_added s in
               iret (rs_reasoning true (rs_reasoning_item_closed s) (rs_reasoning_summary_started s) (rs_reasoning_closed_naturally s)
                       (rs_reasoning_emitted_any s) (rs_reasoning_text s) (rs_reasoning_index s) (rs_next_output_index s) s)) in
  if rs_reasoning_summary_started s then iret s
  else
    let* s := responses_sse_reasoning_summary_part_added s in
    iret (rs_reasoning (rs_reasoning_item_opened s) (rs_reasoning_item_closed s) true (rs_reasoning_closed_naturally s)
            (rs_reasoning_emitted_any s) (rs_reasoning_text s) (rs_reasoning_index s) (rs_next_output_index s) s).

Definition reasoning_delta (text : bytes) : op := λ s,
  let* s := open_reasoning s in
  let* s := responses_sse_reasoning_delta text s in
  iret (rs_reasoning (rs_reasoning_item_opened s) (rs_reasoning_item_closed s) (rs_reasoning_summary_started s) (rs_reasoning_closed_naturally s)
          true (rs_reasoning_text s ++ text) (rs_reasoning_index s) (rs_next_output_index s) s).

Definition open_message : op := λ s,
  let* s := (if rs_message_item_opened s then iret s
             else
               let s := rs_message false (rs_message_text_part_open s) (rs_message_item_closed s) (rs_message_emitted_any s) (rs_message_text s)
                          (rs_next_output_index s) (rs_next_output_index s + 1) s in
               let* s := responses_sse_message_added s in
               iret (rs_message true (rs_message_text_part_open s) (rs_message_item_closed s) (rs_message_emitted_any s) (rs_message_text s)
                       (rs_message_index s) (rs_next_output_index s) s)) in
  if rs_message_text_part_open s then iret s
  else
    let* s := responses_sse_message_text_part_added s in
    iret (rs_message (rs_message_item_opened s) true (rs_message_item_closed s) (rs_message_emitted_any s) (rs_message_text s)
            (rs_message_index s) (rs_next_output_index s) s).

Definition message_delta (text : bytes) : op := λ s,
  let* s := open_message s in
  let* s := responses_sse_output_text_delta text s in
  iret (rs_message (rs_message_item_opened s) (rs_message_text_part_open s) (rs_message_item_closed s) true (rs_message_text s ++ text)
          (rs_message_index s) (rs_next_output_index s) s).

Definition close_naturally (tag : bool) : op := λ s,
  iret (if tag then rs_reasoning (rs_reasoning_item_opened s) (rs_reasoning_item_closed s) (rs_reasoning_summary_started s) true
                      (rs_reasoning_emitted_any s) (rs_reasoning_text s) (rs_reasoning_index s) (rs_next_output_index s) s
        else s).

(** The client has asked for reasoning or not; there is no stream of tool calls. *)
Definition responses_ops (emit_reasoning : bool) : stream_ops responses_stream responses_event :=
  StreamOps _ _
    (λ ch text s, match ch with Reasoning => if emit_reasoning then reasoning_delta text s else iret s | Content => message_delta text s end)
    close_naturally (λ _, false)
    (ToolOps _ _ (λ _ _ _ _, stuck) (λ _ _ _, stuck) (λ _, stuck)).

Definition responses_sse_stream_update (known : bytes → bool) (pick : (bytes → bool) → bytes) (emit_reasoning has_tools : bool) (raw : bytes) (final : bool)
    (st : sse_stream) (s : responses_stream) : io responses_event (responses_stream * sse_stream) :=
  sse_stream_update (responses_ops emit_reasoning) known pick has_tools raw final st s.

(** A second pass of reasoning is not looked for. *)
Definition responses_stream_start (think_mode : ds4_think_mode) : sse_stream := stream_start think_mode false.

(** ** The finish *)

Definition responses_sse_function_call_event (tc : tool_call) (item : responses_tool_item) (finish : bytes) (final : bool) : op :=
  responses_sse_emit_event (ReCall tc item (if final then responses_item_status_for_finish finish else bs "in_progress") final).

Definition responses_sse_function_call_arguments_done (tc : tool_call) (item : responses_tool_item) : op := λ s,
  if ti_is_custom item || responses_tool_call_is_tool_search tc (tool_schema_orders_find orders (tc_name tc)) then iret s
  else
    let args := append_json_object_or_empty (tc_arguments tc) in
    let* s := responses_sse_emit_event (ReArgumentsDelta item args) s in
    responses_sse_emit_event (ReArgumentsDone tc item args) s.

Definition responses_sse_completed (model finish : bytes) (calls : list (tool_call * responses_tool_item))
    (prompt_tokens completion_tokens cache_read cache_write created_at : Z) : op := λ s,
  let cached := clamp_usage_tokens cache_read prompt_tokens in
  let written := clamp_usage_tokens cache_write (prompt_tokens - cached) in
  let reasoning := if rs_reasoning_emitted_any s
                   then Some (rs_reasoning_id s, if rs_reasoning_closed_naturally s then bs "completed" else bs "incomplete", rs_reasoning_text s) else None in
  let message := if rs_message_emitted_any s then Some (rs_message_id s, responses_item_status_for_finish finish, rs_message_text s) else None in
  responses_sse_emit_event (ReTerminal finish (rs_response_id s) created_at model reasoning message calls prompt_tokens completion_tokens cached written) s.

Fixpoint send_calls (finish : bytes) (calls : list (tool_call * responses_tool_item)) (s : responses_stream) : io responses_event responses_stream :=
  match calls with
  | [] => iret s
  | (tc, item) :: r =>
      let* s := responses_sse_function_call_event tc item finish false s in
      let* s := responses_sse_function_call_arguments_done tc item s in
      let* s := responses_sse_function_call_event tc item finish true s in
      send_calls finish r s
  end.

(** What was held back of a text that is no tool call after all. *)
Definition send_recovered (recovered : bool) (raw : bytes) (st : sse_stream) (s : responses_stream) : io responses_event (responses_stream * sse_stream) :=
  if recovered && (ss_emit_pos st <? length raw)%nat then
    let* s := message_delta (drop (ss_emit_pos st) raw) s in iret (s, ss_at (length raw) st)
  else iret (s, st).

Definition finish_reasoning : op := λ s,
  if rs_reasoning_item_opened s && negb (rs_reasoning_item_closed s) then
    let* s := responses_sse_reasoning_done s in
    iret (rs_reasoning (rs_reasoning_item_opened s) true (rs_reasoning_summary_started s) (rs_reasoning_closed_naturally s)
            (rs_reasoning_emitted_any s) (rs_reasoning_text s) (rs_reasoning_index s) (rs_next_output_index s) s)
  else iret s.

Definition finish_message (finish : bytes) : op := λ s,
  if rs_message_item_opened s && negb (rs_message_item_closed s) then
    let* s := responses_sse_message_done finish s in
    iret (rs_message (rs_message_item_opened s) (rs_message_text_part_open s) true (rs_message_emitted_any s) (rs_message_text s)
            (rs_message_index s) (rs_next_output_index s) s)
  else iret s.

Definition responses_sse_finish_live (known : bytes → bool) (pick : (bytes → bool) → bytes) (fc_id call_id : nat → bytes)
    (emit_reasoning has_tools recovered : bool) (model raw : bytes) (calls : list tool_call) (finish : bytes)
    (prompt_tokens completion_tokens cache_read cache_write created_at : Z) (st : sse_stream) (s : responses_stream)
    : io responses_event (responses_stream * sse_stream) :=
  let* '(s, st) := responses_sse_stream_update known pick emit_reasoning has_tools raw true st s in
  let* s := finish_reasoning s in
  let* '(s, st) := send_recovered recovered raw st s in
  let* s := finish_message finish s in
  let items := responses_tool_items_build fc_id call_id calls (rs_next_output_index s) in
  let s := rs_message (rs_message_item_opened s) (rs_message_text_part_open s) (rs_message_item_closed s) (rs_message_emitted_any s) (rs_message_text s)
             (rs_message_index s) (rs_next_output_index s + Z.of_nat (length calls)) s in
  let* s := send_calls finish (zip calls items) s in
  let* s := responses_sse_completed model finish (zip calls items) prompt_tokens completion_tokens cache_read cache_write created_at s in
  iret (s, st).
End responses.
