(* ===== verification/ResponsesProps.v ===== *)
(** * The life of the items of a Responses stream

    A client follows the events of a stream with a small automaton: every item is added
    with the next output index, gets its text, is completed in the order of the
    protocol and with the text that was sent, and the terminal event comes when nothing
    is open and repeats the items. Every stream is accepted by it, whatever the pieces
    of the message and however it ends. *)
From S2P Require Import Prelude CLib Json JsonProps JsonSafe Request RequestProps Stream StreamProps Dsml DsmlProps DsmlText ToolText ToolStream ToolStreamProps SseStream SseProps SseMessage SseClaims ResponsesStream.

#[local] Open Scope io_scope.

(** ** The client *)

Inductive phase := PhNone | PhAdded | PhText (t : bytes) | PhTextDone (t : bytes) | PhPartDone (t : bytes) | PhDone (t : bytes).

Record client := Client {
  cl_created : bool;
  cl_over : bool;
  cl_sequence : Z;
  cl_next : Z;
  cl_reasoning : Z * phase;
  cl_message : Z * phase;
  cl_call : option (responses_tool_item * option bytes);
  cl_calls : list (responses_tool_item * option bytes);
}.

Definition client_start : client := Client false false 0 0 (-1, PhNone) (-1, PhNone) None [].

(** The events of the life of an item with a text. *)
Inductive item_event := IAdded | IPart | IDelta (t : bytes) | ITextDone (t : bytes) | IPartDone (t : bytes) | IDone (t : bytes).

Definition item_step (next : Z) (it : Z * phase) (index : Z) (e : item_event) : option (Z * (Z * phase)) :=
  match e, it.2 with
  | IAdded, PhNone => if index =? next then Some (next + 1, (index, PhAdded)) else None
  | IPart, PhAdded => if index =? it.1 then Some (next, (index, PhText [])) else None
  | IDelta t, PhText x => if index =? it.1 then Some (next, (index, PhText (x ++ t))) else None
  | ITextDone t, PhText x => if (index =? it.1) && bytes_eqb t x then Some (next, (index, PhTextDone x)) else None
  | IPartDone t, PhTextDone x => if (index =? it.1) && bytes_eqb t x then Some (next, (index, PhPartDone x)) else None
  | IDone t, PhPartDone x => if (index =? it.1) && bytes_eqb t x then Some (next, (index, PhDone x)) else None
  | _, _ => None
  end.

Definition reasoning_step (c : client) (index : Z) (e : item_event) : option client :=
  '(next, it) ← item_step (cl_next c) (cl_reasoning c) index e;
  Some (Client (cl_created c) (cl_over c) (cl_sequence c) next it (cl_message c) (cl_call c) (cl_calls c)).

Definition message_step (c : client) (index : Z) (e : item_event) : option client :=
  '(next, it) ← item_step (cl_next c) (cl_message c) index e;
  Some (Client (cl_created c) (cl_over c) (cl_sequence c) next (cl_reasoning c) it (cl_call c) (cl_calls c)).

Definition call_to (next : Z) (call : option (responses_tool_item * option bytes)) (calls : list (responses_tool_item * option bytes)) (c : client) : client :=
  Client (cl_created c) (cl_over c) (cl_sequence c) next (cl_reasoning c) (cl_message c) call calls.

(** An item is absent or complete, and the terminal event has its text. *)
Definition settled (it : Z * phase) (final : option (bytes * bytes * bytes)) : bool :=
  match it.2, final with PhNone, None => true | PhDone t, Some (_, _, t') => bytes_eqb t t' | _, _ => false end.

#[export] Instance tool_item_eq_dec : EqDecision responses_tool_item.
Proof. solve_decision. Defined.

Definition body_step (c : client) (e : responses_body) : option client :=
  match e with
  | ReCreated _ _ _ => if cl_created c then None else Some (Client true (cl_over c) (cl_sequence c) (cl_next c) (cl_reasoning c) (cl_message c) (cl_call c) (cl_calls c))
  | ReReasoningAdded i _ => reasoning_step c i IAdded
  | ReSummaryAdded i _ => reasoning_step c i IPart
  | ReReasoningDelta i _ t => reasoning_step c i (IDelta t)
  | ReSummaryTextDone i _ t => reasoning_step c i (ITextDone t)
  | ReSummaryPartDone i _ t => reasoning_step c i (IPartDone t)
  | ReReasoningDone i _ _ t => reasoning_step c i (IDone t)
  | ReMessageAdded i _ => message_step c i IAdded
  | ReTextPartAdded i _ => message_step c i IPart
  | ReTextDelta i _ t => message_step c i (IDelta t)
  | ReTextDone i _ t => message_step c i (ITextDone t)
  | ReTextPartDone i _ t => message_step c i (IPartDone t)
  | ReMessageDone i _ _ t => message_step c i (IDone t)
  | ReCall _ it _ false =>
      match cl_call c with
      | None => if ti_output_index it =? cl_next c then Some (call_to (cl_next c + 1) (Some (it, None)) (cl_calls c) c) else None
      | Some _ => None
      end
  | ReArgumentsDelta it a =>
      match cl_call c with
      | Some (it', None) => if decide (it' = it) then Some (call_to (cl_next c) (Some (it, Some a)) (cl_calls c) c) else None
      | _ => None
      end
  | ReArgumentsDone _ it a =>
      match cl_call c with
      | Some (it', Some a') => if decide (it' = it) then if bytes_eqb a' a then Some c else None else None
      | _ => None
      end
  | ReCall _ it _ true =>
      match cl_call c with
      | Some (it', a) => if decide (it' = it) then Some (call_to (cl_next c) None (cl_calls c ++ [(it, a)]) c) else None
      | None => None
      end
  | ReTerminal _ _ _ _ reasoning message calls _ _ _ _ =>
      match cl_call c with
      | None =>
          if settled (cl_reasoning c) reasoning && settled (cl_message c) message && bool_decide ((cl_calls c).*1 = calls.*2)
          then Some (Client (cl_created c) true (cl_sequence c) (cl_next c) (cl_reasoning c) (cl_message c) None (cl_calls c)) else None
      | Some _ => None
      end
  end.

(** The first event creates the response, the terminal one is the last, and every event
    has the next number. *)
Definition client_step (c : client) (e : responses_event) : option client :=
  let first := match re_body e with ReCreated _ _ _ => true | _ => false end in
  if negb (cl_over c) && (cl_created c || first) && bool_decide (re_sequence e = Some (cl_sequence c)) then
    c ← body_step c (re_body e);
    Some (Client (cl_created c) (cl_over c) (cl_sequence c + 1) (cl_next c) (cl_reasoning c) (cl_message c) (cl_call c) (cl_calls c))
  else None.

Definition client_run (out : list responses_event) : option client := foldl (λ c e, c ≫= λ c, client_step c e) (Some client_start) out.

Lemma client_run_snoc out e : client_run (out ++ [e]) = client_run out ≫= λ c, client_step c e.
Proof. unfold client_run. by rewrite foldl_app. Qed.

(** ** Sending an event *)

Lemma string_close_app r n : ∀ s, (length s <= n)%nat → ∀ k, string_close s = Some k → string_close (s ++ r) = Some k.
Proof.
  induction n as [|n IH]; intros s Hl k; [destruct s; [done|cbn in Hl; lia]|]. destruct s as [|c s]; [done|]. cbn in Hl.
  assert (∀ j, string_close s = Some j → string_close (s ++ r) = Some j) as H1 by (intros j Hj; apply IH; [lia|done]).
  destruct (decide (c = 34)) as [->|H34]; [done|]. destruct (decide (c = 92)) as [->|H92].
  - destruct s as [|d s]; [done|]. cbn [app string_close]. intros H. destruct (string_close s) as [j|] eqn:E; [|done]. by rewrite (IH s ltac:(cbn in Hl; lia) j E).
  - assert (∀ t, string_close (c :: t) = S <$> string_close t) as Heq.
    { intros t. destruct c as [|p|p]; [done| |done]. cbn [string_close]. do 7 (destruct p as [p|p|]; try done). }
    cbn [app]. rewrite !Heq. intros H. destruct (string_close s) as [j|] eqn:E; [|done]. by rewrite (H1 j eq_refl).
Qed.

Lemma type_close_app s r : is_Some (type_close s) → is_Some (type_close (s ++ r)).
Proof.
  unfold type_close. destruct (strip_prefix _ s) as [t|] eqn:E; [|by intros []%is_Some_None]. apply strip_prefix_Some in E as ->.
  rewrite <- app_assoc, strip_prefix_app. destruct (string_close t) as [k|] eqn:Ek; [|by intros []%is_Some_None]. intros _.
  rewrite (string_close_app r (length t) t (le_n _) k Ek). by eexists.
Qed.

Lemma type_close_app3 a b c r : is_Some (type_close (a ++ b ++ c)) → is_Some (type_close (a ++ b ++ c ++ r)).
Proof. intros H. rewrite (app_assoc b), app_assoc. apply type_close_app. by rewrite <- ?app_assoc. Qed.

(** Every body begins with its type. *)
Lemma type_close_found orders e : is_Some (type_close (responses_body_bytes orders e)).
Proof.
  destruct e; cbn [responses_body_bytes]; cbn zeta; rewrite <- ?app_assoc;
    try (by apply type_close_app; vm_compute; eexists); try (by apply type_close_app3; vm_compute; eexists).
  - destruct final; apply type_close_app3; vm_compute; by eexists.
  - case_match; [|case_match]; apply type_close_app3; vm_compute; by eexists.
Qed.

#[local] Arguments responses_sse_emit_event : simpl never.

Section run.
Context (send : nat → bool) (orders : list tool_schema_order).

Lemma emit_spec e s out : iwp (responses_sse_emit_event send orders e s) out (λ s' out', s' = rs_next s ∧ out' = out ++ [ResponsesEvent (Some (rs_sequence s)) e]).
Proof.
  unfold responses_sse_emit_event. destruct (type_close_found orders e) as [k ->]. by apply iwp_bind, iwp_send, iwp_ret.
Qed.

(** The client in the middle of a stream. *)
#[local] Notation following n x r m call calls := (Client true false n x r m call calls).

Lemma emit_rule e s out x r m call calls c' (Q : responses_stream → list responses_event → Prop) :
  client_run out = Some (following (rs_sequence s) x r m call calls) →
  body_step (following (rs_sequence s) x r m call calls) e = Some c' →
  (∀ out', client_run out' = Some (Client (cl_created c') (cl_over c') (cl_sequence c' + 1) (cl_next c') (cl_reasoning c') (cl_message c') (cl_call c') (cl_calls c')) →
     Q (rs_next s) out') →
  iwp (responses_sse_emit_event send orders e s) out Q.
Proof.
  intros Hrun Hb HQ. eapply iwp_mono; [apply emit_spec|]. cbn beta. intros ? ? [-> ->]. apply HQ. rewrite client_run_snoc, Hrun. cbn. unfold client_step.
  cbn [cl_over cl_created cl_sequence re_sequence re_body negb andb orb]. rewrite bool_decide_eq_true_2 by done. by rewrite Hb.
Qed.

Lemma emit_reasoning i ev e s out x r m call calls x' r' (Q : responses_stream → list responses_event → Prop) :
  client_run out = Some (following (rs_sequence s) x r m call calls) →
  (∀ c, body_step c e = reasoning_step c i ev) → item_step x r i ev = Some (x', r') →
  (∀ out', client_run out' = Some (following (rs_sequence s + 1) x' r' m call calls) → Q (rs_next s) out') →
  iwp (responses_sse_emit_event send orders e s) out Q.
Proof. intros Hrun Hb Hi HQ. eapply emit_rule; [exact Hrun|rewrite Hb; unfold reasoning_step; cbn [cl_next cl_reasoning]; rewrite Hi; reflexivity|exact HQ]. Qed.

Lemma emit_message i ev e s out x r m call calls x' m' (Q : responses_stream → list responses_event → Prop) :
  client_run out = Some (following (rs_sequence s) x r m call calls) →
  (∀ c, body_step c e = message_step c i ev) → item_step x m i ev = Some (x', m') →
  (∀ out', client_run out' = Some (following (rs_sequence s + 1) x' r m' call calls) → Q (rs_next s) out') →
  iwp (responses_sse_emit_event send orders e s) out Q.
Proof. intros Hrun Hb Hi HQ. eapply emit_rule; [exact Hrun|rewrite Hb; unfold message_step; cbn [cl_next cl_message]; rewrite Hi; reflexivity|exact HQ]. Qed.

(** The steps of the life of an item. *)
Lemma item_added x it : it.2 = PhNone → item_step x it x IAdded = Some (x + 1, (x, PhAdded)).
Proof. destruct it as [i p]. cbn. intros ->. by rewrite Z.eqb_refl. Qed.
Lemma item_part x i : item_step x (i, PhAdded) i IPart = Some (x, (i, PhText [])).
Proof. cbn. by rewrite Z.eqb_refl. Qed.
Lemma item_delta x i y t : item_step x (i, PhText y) i (IDelta t) = Some (x, (i, PhText (y ++ t))).
Proof. cbn. by rewrite Z.eqb_refl. Qed.
Lemma item_text_done x i y : item_step x (i, PhText y) i (ITextDone y) = Some (x, (i, PhTextDone y)).
Proof. cbn. by rewrite Z.eqb_refl, bytes_eqb_refl. Qed.
Lemma item_part_done x i y : item_step x (i, PhTextDone y) i (IPartDone y) = Some (x, (i, PhPartDone y)).
Proof. cbn. by rewrite Z.eqb_refl, bytes_eqb_refl. Qed.
Lemma item_done x i y : item_step x (i, PhPartDone y) i (IDone y) = Some (x, (i, PhDone y)).
Proof. cbn. by rewrite Z.eqb_refl, bytes_eqb_refl. Qed.

(** The reasoning and the message, before they are added and while they are sent. *)
Definition reasoning_at (s : responses_stream) (it : Z * phase) : Prop :=
  rs_reasoning_item_closed s = false ∧
  ((rs_reasoning_item_opened s = false ∧ rs_reasoning_summary_started s = false ∧ rs_reasoning_emitted_any s = false ∧ rs_reasoning_text s = [] ∧ it.2 = PhNone)
   ∨ (rs_reasoning_item_opened s = true ∧ rs_reasoning_summary_started s = true ∧ rs_reasoning_emitted_any s = true
      ∧ it = (rs_reasoning_index s, PhText (rs_reasoning_text s)))).

Definition message_at (s : responses_stream) (it : Z * phase) : Prop :=
  rs_message_item_closed s = false ∧
  ((rs_message_item_opened s = false ∧ rs_message_text_part_open s = false ∧ rs_message_emitted_any s = false ∧ rs_message_text s = [] ∧ it.2 = PhNone)
   ∨ (rs_message_item_opened s = true ∧ rs_message_text_part_open s = true ∧ rs_message_emitted_any s = true
      ∧ it = (rs_message_index s, PhText (rs_message_text s)))).

(** An item is absent, or complete with its text. *)
Definition reasoning_settled (s : responses_stream) (it : Z * phase) : Prop :=
  (rs_reasoning_emitted_any s = false ∧ it.2 = PhNone) ∨ (rs_reasoning_emitted_any s = true ∧ it.2 = PhDone (rs_reasoning_text s)).
Definition message_settled (s : responses_stream) (it : Z * phase) : Prop :=
  (rs_message_emitted_any s = false ∧ it.2 = PhNone) ∨ (rs_message_emitted_any s = true ∧ it.2 = PhDone (rs_message_text s)).

Definition phase_text (p : phase) : bytes := match p with PhText t | PhTextDone t | PhPartDone t | PhDone t => t | _ => [] end.

Ltac emit rule := eapply rule; [eassumption|reflexivity|first [apply item_part|apply item_delta|apply item_text_done|apply item_part_done|apply item_done|by apply item_added]|]; cbn beta; intros ? ?.

Lemma reasoning_delta_spec t s out r m : client_run out = Some (following (rs_sequence s) (rs_next_output_index s) r m None []) → reasoning_at s r →
  iwp (reasoning_delta send orders t s) out (λ s' out', ∃ r', client_run out' = Some (following (rs_sequence s') (rs_next_output_index s') r' m None []) ∧ reasoning_at s' r'
    ∧ (message_at s m → message_at s' m) ∧ phase_text r'.2 = phase_text r.2 ++ t).
Proof.
  intros Hrun [Hcl H]. unfold reasoning_delta, open_reasoning, responses_sse_reasoning_delta. apply iwp_bind, iwp_bind.
  destruct H as [(Ho & Hs & He & Htx & Hph)|(Ho & Hs & He & ->)]; rewrite Ho.
  - apply iwp_bind. emit emit_reasoning. apply iwp_ret. cbn [rs_reasoning rs_next rs_reasoning_summary_started]. rewrite Hs. apply iwp_bind.
    emit emit_reasoning. apply iwp_ret. apply iwp_bind. destruct t as [|b t].
    + do 2 apply iwp_ret. eexists. split_and!; [eassumption|split; [done|]; right; cbn; by rewrite Htx|done|by rewrite Hph].
    + emit emit_reasoning. apply iwp_ret. eexists. split_and!; [eassumption|split; [done|]; right; cbn; by rewrite Htx|done|by rewrite Hph].
  - apply iwp_ret. rewrite Hs. apply iwp_ret, iwp_bind. destruct t as [|b t].
    + do 2 apply iwp_ret. eexists. split_and!; [eassumption|split; [done|]; right; cbn; by rewrite app_nil_r|done|by rewrite app_nil_r].
    + emit emit_reasoning. apply iwp_ret. eexists. split_and!; [eassumption|split; [done|]; by right|done|done].
Qed.

Lemma message_delta_spec t s out r m : client_run out = Some (following (rs_sequence s) (rs_next_output_index s) r m None []) → message_at s m →
  iwp (message_delta send orders t s) out (λ s' out', ∃ m', client_run out' = Some (following (rs_sequence s') (rs_next_output_index s') r m' None []) ∧ message_at s' m'
    ∧ (reasoning_at s r → reasoning_at s' r) ∧ (reasoning_settled s r → reasoning_settled s' r) ∧ phase_text m'.2 = phase_text m.2 ++ t).
Proof.
  intros Hrun [Hcl H]. unfold message_delta, open_message, responses_sse_output_text_delta. apply iwp_bind, iwp_bind.
  destruct H as [(Ho & Hs & He & Htx & Hph)|(Ho & Hs & He & ->)]; rewrite Ho.
  - apply iwp_bind. emit emit_message. apply iwp_ret. cbn [rs_message rs_next rs_message_text_part_open]. rewrite Hs. apply iwp_bind.
    emit emit_message. apply iwp_ret. apply iwp_bind. destruct t as [|b t].
    + do 2 apply iwp_ret. eexists. split_and!; [eassumption|split; [done|]; right; cbn; by rewrite Htx|done|done|by rewrite Hph].
    + emit emit_message. apply iwp_ret. eexists. split_and!; [eassumption|split; [done|]; right; cbn; by rewrite Htx|done|done|by rewrite Hph].
  - apply iwp_ret. rewrite Hs. apply iwp_ret, iwp_bind. destruct t as [|b t].
    + do 2 apply iwp_ret. eexists. split_and!; [eassumption|split; [done|]; right; cbn; by rewrite app_nil_r|done|done|by rewrite app_nil_r].
    + emit emit_message. apply iwp_ret. eexists. split_and!; [eassumption|split; [done|]; by right|done|done|done].
Qed.

(** ** The two items at the end *)

Lemma finish_reasoning_spec s out r m : client_run out = Some (following (rs_sequence s) (rs_next_output_index s) r m None []) → reasoning_at s r → message_at s m →
  iwp (finish_reasoning send orders s) out (λ s' out', ∃ r', client_run out' = Some (following (rs_sequence s') (rs_next_output_index s') r' m None [])
    ∧ reasoning_settled s' r' ∧ message_at s' m ∧ phase_text r'.2 = phase_text r.2).
Proof.
  intros Hrun [Hcl H] Hm. unfold finish_reasoning, responses_sse_reasoning_done. rewrite Hcl. destruct H as [(Ho & Hs & He & Htx & Hph)|(Ho & Hs & He & ->)]; rewrite Ho; cbn [andb negb].
  - apply iwp_ret. exists r. split_and!; [done|left; by split|done|done].
  - cbn zeta. apply iwp_bind, iwp_bind. emit emit_reasoning. cbn [rs_next rs_reasoning_summary_started]. rewrite Hs. apply iwp_bind. emit emit_reasoning. emit emit_reasoning.
    apply iwp_ret. eexists. split_and!; [eassumption|right; by split|done|done].
Qed.

Lemma finish_message_spec finish s out r m : client_run out = Some (following (rs_sequence s) (rs_next_output_index s) r m None []) → reasoning_settled s r → message_at s m →
  iwp (finish_message send orders finish s) out (λ s' out', ∃ m', client_run out' = Some (following (rs_sequence s') (rs_next_output_index s') r m' None [])
    ∧ reasoning_settled s' r ∧ message_settled s' m' ∧ phase_text m'.2 = phase_text m.2).
Proof.
  intros Hrun Hr [Hcl H]. unfold finish_message, responses_sse_message_done. rewrite Hcl. destruct H as [(Ho & Hs & He & Htx & Hph)|(Ho & Hs & He & ->)]; rewrite Ho; cbn [andb negb].
  - apply iwp_ret. exists m. split_and!; [done|done|left; by split|done].
  - apply iwp_bind, iwp_bind. emit emit_message. apply iwp_bind. emit emit_message. emit emit_message.
    apply iwp_ret. eexists. split_and!; [eassumption|done|right; by split|done].
Qed.
(** ** The calls and the terminal event *)

(** What the client has got of a call. *)
Definition call_sent (c : tool_call * responses_tool_item) : responses_tool_item * option bytes :=
  (c.2, if ti_is_custom c.2 || responses_tool_call_is_tool_search c.1 (tool_schema_orders_find orders (tc_name c.1)) then None
        else Some (append_json_object_or_empty (tc_arguments c.1))).

(** Only the number of the next event differs. *)
Definition same_items (s s' : responses_stream) : Prop :=
  (∀ r, reasoning_settled s r → reasoning_settled s' r) ∧ (∀ m, message_settled s m → message_settled s' m).

Lemma same_trans s1 s2 s3 : same_items s1 s2 → same_items s2 s3 → same_items s1 s3.
Proof. unfold same_items. naive_solver. Qed.

Lemma send_call_spec finish tc it s out x r m l : client_run out = Some (following (rs_sequence s) x r m None l) → ti_output_index it = x →
  iwp (let* s := responses_sse_function_call_event send orders tc it finish false s in
       let* s := responses_sse_function_call_arguments_done send orders tc it s in
       responses_sse_function_call_event send orders tc it finish true s) out
    (λ s' out', client_run out' = Some (following (rs_sequence s') (x + 1) r m None (l ++ [call_sent (tc, it)])) ∧ same_items s s').
Proof.
  intros Hrun Hi. unfold responses_sse_function_call_event, responses_sse_function_call_arguments_done, call_sent. cbn [fst snd]. apply iwp_bind.
  eapply emit_rule; [exact Hrun|cbn; by rewrite Hi, Z.eqb_refl|]. cbn. intros out1 H1. apply iwp_bind. destruct (_ || _).
  - apply iwp_ret. eapply emit_rule; [exact H1|cbn; by rewrite decide_True|]. cbn. intros out2 H2. by split.
  - apply iwp_bind. eapply emit_rule; [exact H1|cbn; by rewrite decide_True|]. cbn. intros out2 H2.
    eapply emit_rule; [exact H2|cbn; by rewrite decide_True, bytes_eqb_refl|]. cbn. intros out3 H3.
    eapply emit_rule; [exact H3|cbn; by rewrite decide_True|]. cbn. intros out4 H4. by split.
Qed.

Lemma ibind_assoc {E A B C : Type} (m : io E A) (k : A → io E B) (h : B → io E C) out : ibind (ibind m k) h out = ibind m (λ a, ibind (k a) h) out.
Proof. unfold ibind. by destruct (m out) as [out' [a| |]]. Qed.

Lemma send_calls_spec finish l : ∀ s out x r m done_, client_run out = Some (following (rs_sequence s) x r m None done_) →
  (∀ i c, l !! i = Some c → ti_output_index c.2 = x + Z.of_nat i) →
  iwp (send_calls send orders finish l s) out
    (λ s' out', client_run out' = Some (following (rs_sequence s') (x + Z.of_nat (length l)) r m None (done_ ++ (call_sent <$> l))) ∧ same_items s s').
Proof.
  induction l as [|[tc it] l IH]; intros s out x r m done_ Hrun Hi; cbn [send_calls].
  - apply iwp_ret. cbn. rewrite Z.add_0_r, app_nil_r. by split.
  - assert (iwp (let* s1 := (let* s := responses_sse_function_call_event send orders tc it finish false s in
       let* s := responses_sse_function_call_arguments_done send orders tc it s in
       responses_sse_function_call_event send orders tc it finish true s) in send_calls send orders finish l s1) out
      (λ s' out', client_run out' = Some (following (rs_sequence s') (x + Z.of_nat (length ((tc, it) :: l))) r m None (done_ ++ (call_sent <$> (tc, it) :: l))) ∧ same_items s s')) as H.
    + apply iwp_bind. eapply iwp_mono; [apply (send_call_spec finish tc it s out x r m done_ Hrun)|].
      * specialize (Hi 0%nat (tc, it) eq_refl). cbn in Hi. lia.
      * cbn beta. intros s1 out1 [H1 Hs1]. eapply iwp_mono; [apply (IH s1 out1 (x + 1) r m _ H1)|].
        -- intros i c Hl. specialize (Hi (S i) c Hl). lia.
        -- cbn beta. intros s2 out2 [H2 Hs2]. split; [|by eapply same_trans]. rewrite H2. f_equal. f_equal; [cbn [length]; lia|]. by rewrite fmap_cons, <- app_assoc.
    + unfold iwp in *. rewrite ibind_assoc in H. unfold ibind in *.
      destruct (responses_sse_function_call_event send orders tc it finish false s out) as [o1 [a1| |]]; [|done|done].
      destruct (responses_sse_function_call_arguments_done send orders tc it a1 o1) as [o2 [a2| |]]; [|done|done].
      by destruct (responses_sse_function_call_event send orders tc it finish true a2 o2) as [o3 [a3| |]].
Qed.

Lemma items_index fc_id call_id calls x i c : zip calls (responses_tool_items_build fc_id call_id calls x) !! i = Some c → ti_output_index c.2 = x + Z.of_nat i.
Proof.
  rewrite lookup_zip_with. unfold responses_tool_items_build. rewrite list_lookup_imap. destruct (calls !! i); [|done]. cbn. by intros [= <-].
Qed.

Lemma items_length fc_id call_id calls x : length (responses_tool_items_build fc_id call_id calls x) = length calls.
Proof. apply length_imap. Qed.

Lemma completed_spec model finish l p c cr cw created s out x r m : client_run out = Some (following (rs_sequence s) x r m None (call_sent <$> l)) →
  reasoning_settled s r → message_settled s m →
  iwp (responses_sse_completed send orders model finish l p c cr cw created s) out
    (λ s' out', client_run out' = Some (Client true true (rs_sequence s') x r m None (call_sent <$> l))).
Proof.
  intros Hrun Hr Hm. unfold responses_sse_completed. eapply emit_rule; [exact Hrun| |].
  - cbn [body_step cl_call cl_reasoning cl_message cl_calls].
    assert (settled r (if rs_reasoning_emitted_any s then Some (rs_reasoning_id s, if rs_reasoning_closed_naturally s then bs "completed" else bs "incomplete", rs_reasoning_text s) else None) = true) as ->.
    { unfold settled. destruct Hr as [[-> ->]|[-> ->]]; [done|apply bytes_eqb_refl]. }
    assert (settled m (if rs_message_emitted_any s then Some (rs_message_id s, responses_item_status_for_finish finish, rs_message_text s) else None) = true) as ->.
    { unfold settled. destruct Hm as [[-> ->]|[-> ->]]; [done|apply bytes_eqb_refl]. }
    rewrite bool_decide_eq_true_2; [reflexivity|]. rewrite <- list_fmap_compose. done.
  - cbn. done.
Qed.
End run.

(** ** The protocol keeps its promises *)

(** The text of an item as the client has it. *)
Definition client_text (ch : channel) (out : list responses_event) : bytes :=
  match client_run out with
  | Some c => phase_text (match ch with Reasoning => cl_reasoning c | Content => cl_message c end).2
  | None => []
  end.

(** The client follows the stream. *)
Definition followed (s : responses_stream) (out : list responses_event) : Prop :=
  ∃ r m, client_run out = Some (Client true false (rs_sequence s) (rs_next_output_index s) r m None []) ∧ reasoning_at s r ∧ message_at s m.

Lemma responses_delta send orders emit ch t s out : followed s out →
  iwp (so_delta (responses_ops send orders emit) ch t s) out (λ s' out', followed s' out' ∧
    ∀ c, client_text c out' = client_text c out ++ (if decide (c = ch) then if (match ch with Reasoning => emit | Content => true end) then t else [] else [])).
Proof.
  intros (r & m & Hrun & Hr & Hm). destruct ch; cbn [so_delta responses_ops].
  - destruct emit.
    + eapply iwp_mono; [by apply (reasoning_delta_spec send orders t s out r m)|]. cbn beta. intros s' out' (r' & Hrun' & Hr' & Hm' & Ht).
      split; [exists r', m; auto|]. intros c. unfold client_text. rewrite Hrun, Hrun'. destruct c; cbn; by rewrite ?Ht, ?app_nil_r.
    + apply iwp_ret. split; [by exists r, m|]. intros c. by destruct c; cbn; rewrite app_nil_r.
  - eapply iwp_mono; [by apply (message_delta_spec send orders t s out r m)|]. cbn beta. intros s' out' (m' & Hrun' & Hm' & Hr' & _ & Ht).
    split; [exists r, m'; auto|]. intros c. unfold client_text. rewrite Hrun, Hrun'. destruct c; cbn; by rewrite ?Ht, ?app_nil_r.
Qed.

Lemma responses_close b s out : followed s out → iwp (close_naturally b s) out (λ s' out', followed s' out' ∧ out' = out).
Proof. intros (r & m & Hrun & Hr & Hm). apply iwp_ret. split; [|done]. exists r, m. by destruct b. Qed.

#[export] Instance responses_tool_view send orders emit : ToolView (so_tool (responses_ops send orders emit)).
Proof. by refine {| tv_view := λ _, []; tv_idle := λ _, False; tv_busy := λ _, False |}. Defined.

#[export] Instance responses_view send orders emit : StreamView (responses_ops send orders emit).
Proof.
  refine {| sv_tool := responses_tool_view send orders emit; sv_text := client_text; sv_shown := λ ch, match ch with Reasoning => emit | Content => true end;
            sv_state := λ _ s out, followed s out |}.
  - done.
  - intros ch t s out Hs _. eapply iwp_mono; [apply responses_delta; by destruct Hs|]. cbn beta. intros s' out' [H Ht]. by split_and!.
  - intros o b s out Hs. eapply iwp_mono; [by apply responses_close|]. cbn beta. intros s' out' [H ->]. by split_and!.
  - done.
  - done.
  - done.
Defined.

Lemma open_emit send orders e s : (∀ n, send n = true) → open (responses_sse_emit_event send orders e s).
Proof. intros H. unfold responses_sse_emit_event. solve_open. Qed.

Lemma responses_opens send orders emit : (∀ n, send n = true) → Opens (responses_ops send orders emit).
Proof.
  intros H. pose proof (λ e s, open_emit send orders e s H). split; cbn [so_tool so_delta so_close responses_ops op_start op_args op_stop];
    unfold reasoning_delta, open_reasoning, message_delta, open_message, close_naturally, responses_sse_reasoning_added, responses_sse_reasoning_summary_part_added,
      responses_sse_reasoning_delta, responses_sse_message_added, responses_sse_message_text_part_added, responses_sse_output_text_delta; intros; solve_open.
Qed.

(** ** A whole response *)

Section session.
Context (send : nat → bool) (orders : list tool_schema_order) (known : bytes → bool) (pick : (bytes → bool) → bytes) (fc_id call_id : nat → bytes).
Context (mode : ds4_think_mode) (emit has_tools recovered : bool) (model finish : bytes) (calls : list tool_call).
Context (prompt_tokens completion_tokens cache_read cache_write created_at : Z).

(** The event that creates the response, an update per piece, and the finish. *)
Definition responses_session (rid sid mid : bytes) (chunks : list bytes) : io responses_event (responses_stream * sse_stream) :=
  let* s := responses_sse_created send orders created_at model (responses_stream_init rid sid mid) in
  let* '(s, st) := sse_updates (responses_ops send orders emit) known pick has_tools [] chunks (responses_stream_start mode) s in
  responses_sse_finish_live send orders known pick fc_id call_id emit has_tools recovered model (concat chunks) calls finish
    prompt_tokens completion_tokens cache_read cache_write created_at st s.

(** An item was never added or is complete. *)
Definition complete (p : phase) : Prop := match p with PhNone | PhDone _ => True | _ => False end.

(** What the client has when the response is over: the texts of the two items, and the
    calls with the last output indices. *)
Definition response_over (r m : bytes) (out : list responses_event) : Prop :=
  ∃ c, client_run out = Some c ∧ cl_over c = true ∧ phase_text (cl_reasoning c).2 = r ∧ phase_text (cl_message c).2 = m
    ∧ cl_calls c = call_sent orders <$> zip calls (responses_tool_items_build fc_id call_id calls (cl_next c - Z.of_nat (length calls)))
    ∧ complete (cl_reasoning c).2 ∧ complete (cl_message c).2.

(** The part after the final update. *)
Definition finish_rest (raw : bytes) (st : sse_stream) (s : responses_stream) : io responses_event (responses_stream * sse_stream) :=
  let* s := finish_reasoning send orders s in
  let* '(s, st) := send_recovered send orders recovered raw st s in
  let* s := finish_message send orders finish s in
  let items := responses_tool_items_build fc_id call_id calls (rs_next_output_index s) in
  let s := rs_message (rs_message_item_opened s) (rs_message_text_part_open s) (rs_message_item_closed s) (rs_message_emitted_any s) (rs_message_text s)
             (rs_message_index s) (rs_next_output_index s + Z.of_nat (length calls)) s in
  let* s := send_calls send orders finish (zip calls items) s in
  let* s := responses_sse_completed send orders model finish (zip calls items) prompt_tokens completion_tokens cache_read cache_write created_at s in
  iret (s, st).

Lemma finish_rest_spec raw st s out : followed s out →
  iwp (finish_rest raw st s) out (λ r out', response_over (client_text Reasoning out)
    (client_text Content out ++ (if recovered && (ss_emit_pos st <? length raw)%nat then drop (ss_emit_pos st) raw else [])) out').
Proof.
  intros (r & m & Hrun & Hr & Hm). unfold finish_rest, client_text. rewrite Hrun. cbn [cl_reasoning cl_message]. apply iwp_bind.
  eapply iwp_mono; [by apply (finish_reasoning_spec send orders s out r m)|]. cbn beta. intros s1 out1 (r1 & Hrun1 & Hr1 & Hm1 & Ht1). apply iwp_bind.
  apply (iwp_mono _ _ (λ p out', ∃ m2, client_run out' = Some (Client true false (rs_sequence p.1) (rs_next_output_index p.1) r1 m2 None []) ∧ reasoning_settled p.1 r1
    ∧ message_at p.1 m2 ∧ phase_text m2.2 = phase_text m.2 ++ (if recovered && (ss_emit_pos st <? length raw)%nat then drop (ss_emit_pos st) raw else []))).
  { unfold send_recovered. destruct (_ && _).
    - apply iwp_bind. eapply iwp_mono; [by apply (message_delta_spec send orders _ s1 out1 r1 m)|]. cbn beta. intros s2 out2 (m2 & Hrun2 & Hm2 & _ & Hr2 & Ht2).
      apply iwp_ret. exists m2. auto.
    - apply iwp_ret. exists m. by rewrite app_nil_r. }
  cbn beta. intros [s2 st2] out2 (m2 & Hrun2 & Hr2 & Hm2 & Ht2). cbn [fst] in *. apply iwp_bind.
  eapply iwp_mono; [by apply (finish_message_spec send orders finish s2 out2 r1 m2)|]. cbn beta. intros s3 out3 (m3 & Hrun3 & Hr3 & Hm3 & Ht3). cbn zeta. apply iwp_bind.
  eapply iwp_mono; [apply (send_calls_spec send orders finish _ _ out3 (rs_next_output_index s3) r1 m3 [])|].
  - exact Hrun3.
  - intros i c. apply items_index.
  - cbn beta. intros s4 out4 [Hrun4 [Hr4 Hm4]]. apply iwp_bind. rewrite app_nil_l in Hrun4.
    eapply iwp_mono; [apply (completed_spec send orders _ _ _ _ _ _ _ _ s4 out4 _ r1 m3 Hrun4); [by apply Hr4|by apply Hm4]|]. cbn beta. intros s5 out5 Hrun5.
    apply iwp_ret. eexists. split_and!; [exact Hrun5|done|exact Ht1|exact (eq_trans Ht3 Ht2)| |cbn; destruct Hr1 as [[_ ->]|[_ ->]]; done|cbn; destruct Hm3 as [[_ ->]|[_ ->]]; done].
    cbn [cl_calls cl_next]. do 3 f_equal. rewrite length_zip_with, items_length. lia.
Qed.
Lemma created_spec rid sid mid : iwp (responses_sse_created send orders created_at model (responses_stream_init rid sid mid)) []
  (λ s out, followed s out ∧ ∀ c, client_text c out = []).
Proof.
  unfold responses_sse_created. eapply iwp_mono; [apply emit_spec|]. cbn beta. intros s out [-> ->]. split; [|by intros []].
  exists (-1, PhNone), (-1, PhNone). split_and!; [reflexivity|split; [done|by left]|split; [done|by left]].
Qed.

Lemma feed_keeps chunks s out : followed s out →
  iwp (sse_feed (responses_ops send orders emit) known pick has_tools [] chunks (responses_stream_start mode) s) out (λ r out', followed r.1 out').
Proof.
  intros Hf. assert (∀ raw final st s out, followed s out ∧ ss_mode st ≠ STREAM_TOOL →
    iwp (sse_stream_update (responses_ops send orders emit) known pick has_tools raw final st s) out (λ r out', followed r.1 out' ∧ ss_mode r.2 ≠ STREAM_TOOL)) as Hup.
  { intros raw final st s1 out1 [H1 Hm1]. apply (update_keeps _ known pick has_tools followed); [done| | |done|done].
    - intros ch t s2 out2 H2. eapply iwp_mono; [by apply responses_delta|]. by intros ? ? [? _].
    - intros b s2 out2 H2. eapply iwp_mono; [by apply responses_close|]. by intros ? ? [? ->]. }
  eapply iwp_mono; [apply (feed_rule _ known pick has_tools (λ _ st s out, followed s out ∧ ss_mode st ≠ STREAM_TOOL) (λ _ st s out, followed s out ∧ ss_mode st ≠ STREAM_TOOL))|].
  - intros raw c st s1 out1. apply Hup.
  - intros raw st s1 out1. apply Hup.
  - split; [done|]. unfold responses_stream_start, stream_start. cbn. by destruct (ds4_think_mode_enabled mode).
  - by intros r o [? _].
Qed.

(** The updates, the final one included, keep the client and send the texts. *)
Lemma feed_followed chunks s out : followed s out → (∀ c, client_text c out = []) →
  iwp (sse_feed (responses_ops send orders emit) known pick has_tools [] chunks (responses_stream_start mode) s) out
    (λ r out', (followed r.1 out'
      ∧ (has_tools = false → all_sent (responses_ops send orders emit) (ds4_think_mode_enabled mode) (concat chunks) r.2 r.1 out'))
      ∧ (has_tools = true ∧ ds4_think_mode_enabled mode = false → message_sent (responses_ops send orders emit) (concat chunks) r.2 r.1 out')).
Proof.
  intros Hf Ht. assert (got (responses_ops send orders emit) out [] []) as Hgot by (split; rewrite shown_nil; apply Ht).
  apply iwp_when; [apply iwp_when; [by apply feed_keeps|]|].
  - intros ->. by apply (split_streamed (responses_ops send orders emit) known pick _ mode chunks s out eq_refl).
  - intros [-> Hoff]. replace (responses_stream_start mode) with (stream_start DS4_THINK_NONE true).
    + by apply (message_streamed (responses_ops send orders emit) known pick chunks s out).
    + unfold responses_stream_start, stream_start. by rewrite Hoff.
Qed.

Lemma session_split rid sid mid chunks out : responses_session rid sid mid chunks out
  = ibind (responses_sse_created send orders created_at model (responses_stream_init rid sid mid)) (λ s,
      ibind (sse_feed (responses_ops send orders emit) known pick has_tools [] chunks (responses_stream_start mode) s) (λ p, finish_rest (concat chunks) p.2 p.1)) out.
Proof.
  unfold responses_session, sse_feed, responses_sse_finish_live, responses_sse_stream_update, finish_rest. cbn [app]. unfold ibind.
  destruct (responses_sse_created _ _ _ _ _ out) as [o1 [s1| |]]; [|done|done].
  destruct (sse_updates _ _ _ _ _ _ _ s1 o1) as [o2 [[s2 st2]| |]]; [|done|done].
  by destruct (sse_stream_update _ _ _ _ _ _ st2 s2 o2) as [o3 [[s3 st3]| |]].
Qed.
End session.

Lemma open_session send orders known pick fc_id call_id mode emit has_tools recovered model finish calls p c cr cw t rid sid mid chunks : (∀ n, send n = true) →
  open (responses_session send orders known pick fc_id call_id mode emit has_tools recovered model finish calls p c cr cw t rid sid mid chunks).
Proof.
  intros H. pose proof (λ e s, open_emit send orders e s H) as He. pose proof (responses_opens send orders emit H) as Hop. unfold responses_session.
  apply open_bind; [apply He|]. intros s. apply open_bind; [by apply open_updates|]. intros [s1 st1]. unfold responses_sse_finish_live.
  assert (∀ l s, open (send_calls send orders finish l s)) as Hcalls.
  { induction l as [|[tc it] l IH]; intros s2; cbn [send_calls]; unfold responses_sse_function_call_event, responses_sse_function_call_arguments_done; solve_open. }
  apply open_bind; [by apply open_update|]. intros [s2 st2].
  unfold finish_reasoning, send_recovered, finish_message, responses_sse_reasoning_done, responses_sse_message_done, responses_sse_completed.
  apply open_bind; [solve_open|]. intros s3. apply open_bind; [case_match; [apply open_bind; [exact (opens_delta (ops := responses_ops send orders emit) Content _ _)|intros; apply open_ret]|apply open_ret]|]. intros [s4 st4].
  apply open_bind; [solve_open|]. intros s5. cbn zeta. apply open_bind; [apply Hcalls|]. intros s6. apply open_bind; [apply He|]. intros s7. apply open_ret.
Qed.

(** The texts of a message that is not a recovered one: without tools the reasoning, if
    the client asked for it, and the content; with tools and without thinking the content
    before the first tool marker. *)
Definition session_texts (think emit has_tools recovered : bool) (text reasoning message : bytes) : Prop :=
  recovered = false →
  (has_tools = false → reasoning = (if emit then (split_message think text).1 else []) ∧ message = (split_message think text).2)
  ∧ (has_tools = true ∧ think = false → reasoning = [] ∧ message = content_of text).

Lemma iwp_eq {E A : Type} (m m' : io E A) out Q : m out = m' out → iwp m' out Q → iwp m out Q.
Proof. unfold iwp. by intros ->. Qed.

Lemma session_spec send orders known pick fc_id call_id mode emit has_tools recovered model finish calls p c cr cw t rid sid mid chunks :
  iwp (responses_session send orders known pick fc_id call_id mode emit has_tools recovered model finish calls p c cr cw t rid sid mid chunks) []
    (λ _ out, ∃ reasoning message, response_over orders fc_id call_id calls reasoning message out
       ∧ session_texts (ds4_think_mode_enabled mode) emit has_tools recovered (concat chunks) reasoning message).
Proof.
  eapply iwp_eq; [apply session_split|]. apply iwp_bind. eapply iwp_mono; [apply created_spec|]. cbn beta. intros s out [Hf Ht]. apply iwp_bind.
  eapply iwp_mono; [by apply feed_followed|]. cbn beta. intros [s1 st1] out1 [[Hf1 Hs1] Hm1]. cbn [fst snd] in *.
  eapply iwp_mono; [by apply finish_rest_spec|]. cbn beta. intros r out2 Hover. eexists _, _. split; [exact Hover|]. intros ->. cbn [andb]. rewrite app_nil_r. split.
  - intros Hh. by destruct (Hs1 Hh) as [_ [Hr Hc]].
  - intros Hh. destruct (Hm1 Hh) as [[Hr Hc] _]. split; [|done]. cbn in Hr. rewrite Hr. by destruct emit.
Qed.


