(* ===== verification/Reply.v ===== *)
(** * Replies

    The HTTP replies of [engine/src/server.c]: the head of a response, the error bodies,
    the heads and errors of an event stream, the chunks of a stream that is not a live
    one, and the whole responses of the four protocols.

    A reply is the bytes that are sent; a part of a request is an argument. Time and
    random identifiers are arguments. *)
From S2P Require Import Prelude CLib Json Request Stream Dsml ToolText ToolStream SseStream ResponsesStream.

(** ** Heads *)

Inductive api_style := API_OPENAI | API_ANTHROPIC | API_RESPONSES.
Inductive req_kind := REQ_CHAT | REQ_COMPLETION.

#[export] Instance api_style_eq_dec : EqDecision api_style.
Proof. solve_decision. Defined.
#[export] Instance req_kind_eq_dec : EqDecision req_kind.
Proof. solve_decision. Defined.

Definition crlf : bytes := [13; 10].

Definition append_cors_headers : bytes :=
  bs "Access-Control-Allow-Origin: *" ++ crlf ++ bs "Access-Control-Allow-Methods: GET, POST, OPTIONS" ++ crlf
  ++ bs "Access-Control-Allow-Headers: *" ++ crlf.

Definition http_reason (code : Z) : bytes :=
  if code =? 200 then bs "OK" else if code =? 204 then bs "No Content" else if code =? 400 then bs "Bad Request"
  else if code =? 404 then bs "Not Found" else if code =? 409 then bs "Conflict" else if code =? 500 then bs "Internal Server Error" else bs "Error".

Definition http_response_head (enable_cors : bool) (code : Z) (type : bytes) (body : bytes) : bytes :=
  bs "HTTP/1.1 " ++ fmt_d code ++ [32] ++ http_reason code ++ crlf ++ bs "Content-Length: " ++ fmt_d (Z.of_nat (length body)) ++ crlf
  ++ (match type with [] => [] | _ => bs "Content-Type: " ++ type ++ crlf end)
  ++ (if enable_cors then append_cors_headers else []) ++ bs "Connection: close" ++ crlf ++ crlf.

(** The two calls of [send_all] of one reply. *)
Definition http_response (enable_cors : bool) (code : Z) (type body : bytes) : bytes := http_response_head enable_cors code type body ++ body.

Definition application_json : bytes := bs "application/json".

Definition http_error_body (msg : bytes) : bytes := js "{'error':{'message':" ++ json_escape msg ++ js ",'type':'invalid_request_error'}}" ++ [10].

Definition http_error (enable_cors : bool) (code : Z) (msg : bytes) : bytes := http_response enable_cors code application_json (http_error_body msg).

Definition context_length_error_param (api : api_style) (kind : req_kind) : bytes :=
  match api, kind with API_RESPONSES, _ => bs "input" | _, REQ_COMPLETION => bs "prompt" | _, REQ_CHAT => bs "messages" end.

Definition request_exceeds_context (prompt_len ctx_size : Z) : bool := prompt_len >=? ctx_size.

(** The message buffer keeps 159 bytes. *)
Definition context_error_body (api : api_style) (kind : req_kind) (n_prompt_tokens ctx_size : Z) : bytes :=
  let msg := take 159 (bs "Prompt has " ++ fmt_d n_prompt_tokens ++ bs " tokens, but the configured context size is " ++ fmt_d ctx_size ++ bs " tokens") in
  match api with
  | API_ANTHROPIC =>
      js "{'type':'error','error':{'type':'invalid_request_error','message':" ++ json_escape msg
      ++ js ",'n_prompt_tokens':" ++ fmt_d n_prompt_tokens ++ js ",'n_ctx':" ++ fmt_d ctx_size ++ js "}}" ++ [10]
  | _ =>
      js "{'error':{'message':" ++ json_escape msg ++ js ",'type':'invalid_request_error','param':" ++ json_escape (context_length_error_param api kind)
      ++ js ",'code':'context_length_exceeded','n_prompt_tokens':" ++ fmt_d n_prompt_tokens ++ js ",'n_ctx':" ++ fmt_d ctx_size ++ js "}}" ++ [10]
  end.

Definition http_error_context_length_exceeded (enable_cors : bool) (api : api_style) (kind : req_kind) (n_prompt_tokens ctx_size : Z) : bytes :=
  http_response enable_cors 400 application_json (context_error_body api kind n_prompt_tokens ctx_size).

Definition sse_headers (enable_cors : bool) : bytes :=
  bs "HTTP/1.1 200 OK" ++ crlf ++ bs "Content-Type: text/event-stream" ++ crlf ++ bs "Cache-Control: no-cache" ++ crlf
  ++ (if enable_cors then append_cors_headers else []) ++ bs "Connection: close" ++ crlf ++ crlf.

Definition sse_error_event (api : api_style) (msg : bytes) : bytes :=
  let message := match msg with [] => bs "internal server error" | _ => msg end in
  match api with
  | API_ANTHROPIC => bs "event: error" ++ [10] ++ js "data: {'type':'error','error':{'type':'api_error','message':" ++ json_escape message ++ js "}}" ++ [10; 10]
  | _ => bs "event: error" ++ [10] ++ js "data: {'error':{'message':" ++ json_escape message ++ js ",'type':'server_error'}}" ++ [10; 10]
  end.

(** ** Chunks *)

Definition finish_json (finish : option bytes) : bytes := match finish with Some f => json_escape f | None => bs "null" end.

Definition chunk_head (kind : req_kind) (id : bytes) (now : Z) (model : bytes) : bytes :=
  js "data: {'id':'" ++ id ++ js "','object':'" ++ (match kind with REQ_CHAT => bs "chat.completion.chunk" | REQ_COMPLETION => bs "text_completion" end)
  ++ js "','created':" ++ fmt_d now ++ js ",'model':" ++ json_escape model.

Definition sse_chunk (kind : req_kind) (id : bytes) (now : Z) (model : bytes) (text finish : option bytes) : bytes :=
  match kind with
  | REQ_CHAT =>
      chunk_head kind id now model ++ js ",'choices':[{'index':0,'delta':"
      ++ (match text, finish with
          | Some t, _ => js "{'content':" ++ json_escape t ++ bs "}"
          | None, Some _ => bs "{}"
          | None, None => js "{'role':'assistant'}"
          end)
      ++ js ",'finish_reason':" ++ finish_json finish ++ bs "}]}" ++ [10; 10]
  | REQ_COMPLETION =>
      chunk_head kind id now model ++ js ",'choices':[{'text':" ++ json_escape (default [] text)
      ++ js ",'index':0,'finish_reason':" ++ finish_json finish ++ bs "}]}" ++ [10; 10]
  end.

Definition append_openai_usage_json (prompt_tokens completion_tokens cache_read cache_write : Z) : bytes :=
  let cached := clamp_usage_tokens cache_read prompt_tokens in
  js "{'prompt_tokens':" ++ fmt_d prompt_tokens ++ js ",'completion_tokens':" ++ fmt_d completion_tokens
  ++ js ",'total_tokens':" ++ fmt_d (prompt_tokens + completion_tokens) ++ js ",'prompt_tokens_details':{'cached_tokens':" ++ fmt_d cached
  ++ js ",'cache_write_tokens':" ++ fmt_d (clamp_usage_tokens cache_write (prompt_tokens - cached)) ++ js "}}".

Definition sse_usage_chunk (kind : req_kind) (include_usage : bool) (id : bytes) (now : Z) (model : bytes)
    (prompt_tokens completion_tokens cache_read cache_write : Z) : bytes :=
  if include_usage then
    chunk_head kind id now model ++ js ",'choices':[],'usage':" ++ append_openai_usage_json prompt_tokens completion_tokens cache_read cache_write ++ bs "}" ++ [10; 10]
  else [].

(** The reply of a stream that was not live: the whole message in a few chunks. *)
Definition sse_chat_finish (id : bytes) (now : Z) (model content reasoning : bytes) (calls : list tool_call) (finish : bytes) (include_usage : bool)
    (prompt_tokens completion_tokens cache_read cache_write : Z) : bytes :=
  let piece delta := chunk_head REQ_CHAT id now model ++ js ",'choices':[{'index':0,'delta':{" ++ delta ++ js "},'finish_reason':null}]}" ++ [10; 10] in
  sse_chunk REQ_CHAT id now model None None
  ++ (match reasoning with [] => [] | _ => piece (js "'reasoning_content':" ++ json_escape reasoning) end)
  ++ (match content with [] => [] | _ => piece (js "'content':" ++ json_escape content) end)
  ++ (match calls with [] => [] | _ => piece (js "'tool_calls':" ++ append_tool_call_deltas_json calls id) end)
  ++ chunk_head REQ_CHAT id now model ++ js ",'choices':[{'index':0,'delta':{},'finish_reason':" ++ json_escape finish ++ bs "}]}" ++ [10; 10]
  ++ sse_usage_chunk REQ_CHAT include_usage id now model prompt_tokens completion_tokens cache_read cache_write ++ bs "data: [DONE]" ++ [10; 10].

(** ** Whole responses *)

Definition final_body (kind : req_kind) (id : bytes) (now : Z) (model text reasoning : bytes) (calls : list tool_call) (finish : bytes)
    (prompt_tokens completion_tokens cache_read cache_write : Z) : bytes :=
  (match kind with
   | REQ_CHAT =>
       js "{'id':'" ++ id ++ js "','object':'chat.completion','created':" ++ fmt_d now ++ js ",'model':" ++ json_escape model
       ++ js ",'choices':[{'index':0,'message':{'role':'assistant','content':" ++ json_escape text
       ++ (match reasoning with [] => [] | _ => js ",'reasoning_content':" ++ json_escape reasoning end)
       ++ (match calls with [] => [] | _ => js ",'tool_calls':" ++ append_tool_calls_json calls id end)
       ++ js "},'finish_reason':" ++ json_escape finish ++ js "}],'usage':"
   | REQ_COMPLETION =>
       js "{'id':'" ++ id ++ js "','object':'text_completion','created':" ++ fmt_d now ++ js ",'model':" ++ json_escape model
       ++ js ",'choices':[{'text':" ++ json_escape text ++ js ",'index':0,'finish_reason':" ++ json_escape finish ++ js "}],'usage':"
   end)
  ++ append_openai_usage_json prompt_tokens completion_tokens cache_read cache_write ++ bs "}" ++ [10].

Definition final_response (enable_cors : bool) (kind : req_kind) (id : bytes) (now : Z) (model text reasoning : bytes) (calls : list tool_call) (finish : bytes)
    (prompt_tokens completion_tokens cache_read cache_write : Z) : bytes :=
  http_response enable_cors 200 application_json (final_body kind id now model text reasoning calls finish prompt_tokens completion_tokens cache_read cache_write).

Definition append_anthropic_tool_use (tc : tool_call) (id_prefix : bytes) (i : nat) : bytes :=
  js "{'type':'tool_use','id':"
  ++ json_escape (match tc_id tc with Some (c :: x) => c :: x | _ => take 127 (bs "toolu_" ++ id_prefix ++ [95] ++ fmt_d (Z.of_nat i)) end)
  ++ js ",'name':" ++ json_escape (default [] (tc_name tc)) ++ js ",'input':" ++ append_json_object_or_empty (tc_arguments tc) ++ bs "}".

Definition append_anthropic_thinking (reasoning signature : bytes) : bytes :=
  js "{'type':'thinking','thinking':" ++ json_escape reasoning ++ js ",'signature':" ++ json_escape signature ++ bs "}".

(** A text follows a reasoning, an empty one if there is nothing else. *)
Definition append_anthropic_content (text reasoning : bytes) (calls : list tool_call) (id_prefix : bytes) : bytes :=
  let thinking := match reasoning with [] => [] | _ => [append_anthropic_thinking reasoning id_prefix] end in
  let after := (match text with [] => [] | _ => [js "{'type':'text','text':" ++ json_escape text ++ bs "}"] end)
               ++ imap (λ i tc, append_anthropic_tool_use tc id_prefix i) calls in
  bs "[" ++ comma_join (thinking ++ match after with [] => [js "{'type':'text','text':''}"] | _ => after end) ++ bs "]".

Definition append_anthropic_usage_json (prompt_tokens completion_tokens cache_read cache_write : Z) : bytes :=
  let read := clamp_usage_tokens cache_read prompt_tokens in
  let written := clamp_usage_tokens cache_write (prompt_tokens - read) in
  js "{'input_tokens':" ++ fmt_d (Z.max 0 (prompt_tokens - read - written)) ++ js ",'output_tokens':" ++ fmt_d completion_tokens
  ++ js ",'cache_read_input_tokens':" ++ fmt_d read ++ js ",'cache_creation_input_tokens':" ++ fmt_d written ++ bs "}".

Definition anthropic_body (id model text reasoning : bytes) (calls : list tool_call) (finish : bytes)
    (prompt_tokens completion_tokens cache_read cache_write : Z) : bytes :=
  js "{'id':'" ++ id ++ js "','type':'message','role':'assistant','model':" ++ json_escape model
  ++ js ",'content':" ++ append_anthropic_content text reasoning calls id
  ++ js ",'stop_reason':" ++ json_escape (anthropic_stop_reason finish) ++ js ",'stop_sequence':null,'usage':"
  ++ append_anthropic_usage_json prompt_tokens completion_tokens cache_read cache_write ++ bs "}" ++ [10].

Definition anthropic_final_response (enable_cors : bool) (id model text reasoning : bytes) (calls : list tool_call) (finish : bytes)
    (prompt_tokens completion_tokens cache_read cache_write : Z) : bytes :=
  http_response enable_cors 200 application_json (anthropic_body id model text reasoning calls finish prompt_tokens completion_tokens cache_read cache_write).

Definition responses_final_body (orders : list tool_schema_order) (fc_id call_id : nat → bytes) (response_id reasoning_id message_id : bytes) (summary : bool)
    (now : Z) (model text reasoning : bytes) (calls : list tool_call) (finish : bytes) (prompt_tokens completion_tokens cache_read cache_write : Z) : bytes :=
  let items := responses_tool_items_build fc_id call_id calls 0 in
  let status := responses_item_status_for_finish finish in
  let cached := clamp_usage_tokens cache_read prompt_tokens in
  js "{'id':'" ++ response_id ++ js "','object':'response','created_at':" ++ fmt_d now ++ js ",'status':'" ++ responses_status_for_finish finish
  ++ js "','model':" ++ json_escape model
  ++ (if bytes_eqb finish (bs "error") then js ",'error':{'code':'server_error','message':'generation failed'}"
      else if bytes_eqb finish (bs "length") then js ",'incomplete_details':{'reason':'max_tokens'}" else [])
  ++ js ",'output':["
  ++ comma_join ((match reasoning with [] => [] | _ => if summary then [reasoning_item reasoning_id status reasoning] else [] end)
                 ++ (match text with [] => [] | _ => [message_item message_id status text] end)
                 ++ ((λ c, responses_append_function_call_item c.1 c.2 status true orders) <$> zip calls items))
  ++ js "],'usage':" ++ append_responses_usage_json prompt_tokens completion_tokens cached (clamp_usage_tokens cache_write (prompt_tokens - cached)) ++ bs "}".

Definition responses_final_response (enable_cors : bool) (orders : list tool_schema_order) (fc_id call_id : nat → bytes)
    (response_id reasoning_id message_id : bytes) (summary : bool) (now : Z) (model text reasoning : bytes) (calls : list tool_call) (finish : bytes)
    (prompt_tokens completion_tokens cache_read cache_write : Z) : bytes :=
  http_response enable_cors 200 application_json
    (responses_final_body orders fc_id call_id response_id reasoning_id message_id summary now model text reasoning calls finish
       prompt_tokens completion_tokens cache_read cache_write).
