(* ===== verification/ReplyProps.v ===== *)
(** * Replies are read back

    The bodies of the replies and the payloads of the event streams are the printed form
    of JSON documents that are given here as trees; a reader of JSON accepts each of
    them whole, a reader of HTTP finds the body, and a reader of an event stream finds
    the payloads. *)
From S2P Require Import Prelude CLib Json JsonProps JsonSafe Request RequestProps JsonTree Stream Dsml ToolText ToolStream SseStream ResponsesStream Http Reply.

(** ** Texts *)

(** Both sides of an equation as one sequence of pieces. *)
Ltac flat := repeat first [rewrite <- app_comm_cons|rewrite <- app_assoc].
Ltac opaque_pieces :=
  repeat match goal with
  | |- context [jprint ?x] => is_var x; let v := fresh "v" in generalize (jprint x); intros v
  | |- context [fmt_d ?x] => let v := fresh "v" in generalize (fmt_d x); intros v
  | |- context [json_escape (?f ?x)] => lazymatch f with bs => fail | _ => let v := fresh "v" in generalize (json_escape (f x)); intros v end
  | |- context [json_escape ?x] => is_var x; let v := fresh "v" in generalize (json_escape x); intros v
  end.
Ltac same_text := cbn [jprint fmap list_fmap join_close fst snd key]; rewrite ?jint_print; flat; opaque_pieces; vm_compute; reflexivity.

Definition openai_usage (p c cr cw : Z) : json :=
  let cached := clamp_usage_tokens cr p in
  JObj [key "prompt_tokens" (jint p); key "completion_tokens" (jint c); key "total_tokens" (jint (p + c));
        key "prompt_tokens_details" (JObj [key "cached_tokens" (jint cached); key "cache_write_tokens" (jint (clamp_usage_tokens cw (p - cached)))])].

Lemma openai_usage_print p c cr cw : append_openai_usage_json p c cr cw = jprint (openai_usage p c cr cw).
Proof. unfold openai_usage, append_openai_usage_json. same_text. Qed.

(** The id that a call without one gets. *)
Definition call_wire_id (id : bytes) (i : nat) (tc : tool_call) : bytes := default (take 127 (id ++ bs "_tool_" ++ fmt_d (Z.of_nat i))) (tc_id tc).

Definition call_json (id : bytes) (i : nat) (tc : tool_call) : json :=
  JObj [key "id" (JStr (call_wire_id id i tc)); key "type" (jtext "function");
        key "function" (JObj [key "name" (JStr (default [] (tc_name tc))); key "arguments" (JStr (append_json_object_or_empty (tc_arguments tc)))])].

Lemma call_json_print id i tc : tool_call_json id i tc = jprint (call_json id i tc).
Proof.
  unfold tool_call_json, call_json, append_json_object_string, call_wire_id. cbn zeta. generalize (default (take 127 (id ++ bs "_tool_" ++ fmt_d (Z.of_nat i))) (tc_id tc)).
  generalize (default [] (tc_name tc)). generalize (append_json_object_or_empty (tc_arguments tc)). intros a n d. same_text.
Qed.

Definition calls_json (id : bytes) (calls : list tool_call) : json := JArr (imap (call_json id) calls).

Lemma calls_json_print id calls : append_tool_calls_json calls id = jprint (calls_json id calls).
Proof.
  unfold append_tool_calls_json, calls_json. cbn [jprint]. rewrite join_close_comma. cbn [app bs]. f_equal. f_equal. f_equal.
  rewrite fmap_imap. apply imap_ext. intros i tc _. cbn. apply call_json_print.
Qed.

Definition chat_completion (id : bytes) (now : Z) (model text reasoning : bytes) (calls : list tool_call) (finish : bytes) (p c cr cw : Z) : json :=
  JObj [key "id" (JStr id); key "object" (jtext "chat.completion"); key "created" (jint now); key "model" (JStr model);
        key "choices" (JArr [JObj [key "index" jzero;
          key "message" (JObj ([key "role" (jtext "assistant"); key "content" (JStr text)]
            ++ match reasoning with [] => [] | _ => [key "reasoning_content" (JStr reasoning)] end
            ++ match calls with [] => [] | _ => [key "tool_calls" (calls_json id calls)] end));
          key "finish_reason" (JStr finish)]]);
        key "usage" (openai_usage p c cr cw)].

Lemma chat_completion_print id now model text reasoning calls finish p c cr cw : plain_text id →
  final_body REQ_CHAT id now model text reasoning calls finish p c cr cw = jprint (chat_completion id now model text reasoning calls finish p c cr cw) ++ [10].
Proof.
  intros Hid. unfold final_body, chat_completion. rewrite openai_usage_print. generalize (openai_usage p c cr cw). intros u.
  destruct calls as [|tc calls]; [|rewrite calls_json_print; generalize (calls_json id (tc :: calls)); intros j];
    destruct reasoning as [|x reasoning]; cbn [app jprint fmap list_fmap join_close fst snd key]; rewrite (plain_escape id Hid); same_text.
Qed.

Definition text_completion (id : bytes) (now : Z) (model text finish : bytes) (p c cr cw : Z) : json :=
  JObj [key "id" (JStr id); key "object" (jtext "text_completion"); key "created" (jint now); key "model" (JStr model);
        key "choices" (JArr [JObj [key "text" (JStr text); key "index" jzero; key "finish_reason" (JStr finish)]]); key "usage" (openai_usage p c cr cw)].

Lemma text_completion_print id now model text reasoning calls finish p c cr cw : plain_text id →
  final_body REQ_COMPLETION id now model text reasoning calls finish p c cr cw = jprint (text_completion id now model text finish p c cr cw) ++ [10].
Proof.
  intros Hid. unfold final_body, text_completion. rewrite openai_usage_print. generalize (openai_usage p c cr cw). intros u.
  cbn [jprint fmap list_fmap join_close fst snd key]. rewrite (plain_escape id Hid). same_text.
Qed.

Definition error_json (msg : bytes) : json := JObj [key "error" (JObj [key "message" (JStr msg); key "type" (jtext "invalid_request_error")])].

Lemma error_json_print msg : http_error_body msg = jprint (error_json msg) ++ [10].
Proof. unfold http_error_body, error_json. same_text. Qed.

Definition context_error_json (api : api_style) (kind : req_kind) (n ctx : Z) : json :=
  let msg := take 159 (bs "Prompt has " ++ fmt_d n ++ bs " tokens, but the configured context size is " ++ fmt_d ctx ++ bs " tokens") in
  match api with
  | API_ANTHROPIC =>
      JObj [key "type" (jtext "error"); key "error" (JObj [key "type" (jtext "invalid_request_error"); key "message" (JStr msg);
              key "n_prompt_tokens" (jint n); key "n_ctx" (jint ctx)])]
  | _ =>
      JObj [key "error" (JObj [key "message" (JStr msg); key "type" (jtext "invalid_request_error"); key "param" (JStr (context_length_error_param api kind));
              key "code" (jtext "context_length_exceeded"); key "n_prompt_tokens" (jint n); key "n_ctx" (jint ctx)])]
  end.

Lemma context_error_print api kind n ctx : context_error_body api kind n ctx = jprint (context_error_json api kind n ctx) ++ [10].
Proof.
  unfold context_error_body, context_error_json. cbn zeta. generalize (take 159 (bs "Prompt has " ++ fmt_d n ++ bs " tokens, but the configured context size is " ++ fmt_d ctx ++ bs " tokens")).
  intros m. generalize (context_length_error_param api kind). intros q. destruct api; same_text.
Qed.

(** *** Anthropic *)

Definition tool_use_id (id : bytes) (i : nat) (tc : tool_call) : bytes :=
  match tc_id tc with Some (c :: x) => c :: x | _ => take 127 (bs "toolu_" ++ id ++ [95] ++ fmt_d (Z.of_nat i)) end.

(** [input] is the document that the arguments of the call are. *)
Definition tool_use_json (id : bytes) (i : nat) (c : tool_call * json) : json :=
  JObj [key "type" (jtext "tool_use"); key "id" (JStr (tool_use_id id i c.1)); key "name" (JStr (default [] (tc_name c.1))); key "input" c.2].

Definition input_of (tc : tool_call) (input : json) : Prop :=
  append_json_object_or_empty (tc_arguments tc) = jprint input ∧ json_ok input ∧ jdepth input <= 200.

Lemma tool_use_print id i tc input : input_of tc input → append_anthropic_tool_use tc id i = jprint (tool_use_json id i (tc, input)).
Proof.
  intros [Hi _]. unfold append_anthropic_tool_use, tool_use_json. cbn [fst snd]. rewrite Hi. fold (tool_use_id id i tc). generalize (tool_use_id id i tc), (default [] (tc_name tc)).
  intros d n. same_text.
Qed.

Definition text_block (text : bytes) : json := JObj [key "type" (jtext "text"); key "text" (JStr text)].
Definition thinking_block (reasoning signature : bytes) : json :=
  JObj [key "type" (jtext "thinking"); key "thinking" (JStr reasoning); key "signature" (JStr signature)].

Definition content_json (text reasoning : bytes) (calls : list (tool_call * json)) (id : bytes) : json :=
  let after := match text with [] => [] | _ => [text_block text] end ++ imap (tool_use_json id) calls in
  JArr (match reasoning with [] => [] | _ => [thinking_block reasoning id] end ++ match after with [] => [text_block []] | _ => after end).

Lemma text_block_print text : jprint (text_block text) = js "{'type':'text','text':" ++ json_escape text ++ bs "}".
Proof. unfold text_block. same_text. Qed.
Lemma thinking_block_print r s : jprint (thinking_block r s) = append_anthropic_thinking r s.
Proof. unfold thinking_block, append_anthropic_thinking. same_text. Qed.

Lemma tool_uses_print id calls inputs : Forall2 input_of calls inputs →
  imap (λ i tc, append_anthropic_tool_use tc id i) calls = jprint <$> imap (tool_use_json id) (zip calls inputs).
Proof.
  intros H. apply list_eq. intros i. rewrite list_lookup_fmap, !list_lookup_imap, lookup_zip_with. apply (proj1 (Forall2_lookup _ _ _)) with (i := i) in H.
  destruct H as [tc v Hv|]; [|done]. cbn. f_equal. by apply tool_use_print.
Qed.

Lemma content_json_print text reasoning calls inputs id : Forall2 input_of calls inputs →
  append_anthropic_content text reasoning calls id = jprint (content_json text reasoning (zip calls inputs) id).
Proof.
  intros H. unfold append_anthropic_content, content_json. cbn zeta. rewrite (tool_uses_print id calls inputs H). generalize (imap (tool_use_json id) (zip calls inputs)). intros l.
  cbn [jprint]. rewrite join_close_comma. cbn [app bs]. f_equal. f_equal. f_equal. rewrite fmap_app. f_equal.
  - destruct reasoning; [done|]. by rewrite <- thinking_block_print.
  - destruct text as [|x text]; [destruct l; [by vm_compute|done]|]. by rewrite <- text_block_print.
Qed.

Definition anthropic_usage (p c cr cw : Z) : json :=
  let read := clamp_usage_tokens cr p in let written := clamp_usage_tokens cw (p - read) in
  JObj [key "input_tokens" (jint (Z.max 0 (p - read - written))); key "output_tokens" (jint c);
        key "cache_read_input_tokens" (jint read); key "cache_creation_input_tokens" (jint written)].

Lemma anthropic_usage_print p c cr cw : append_anthropic_usage_json p c cr cw = jprint (anthropic_usage p c cr cw).
Proof. unfold append_anthropic_usage_json, anthropic_usage. same_text. Qed.

Definition anthropic_message (id model text reasoning : bytes) (calls : list (tool_call * json)) (finish : bytes) (p c cr cw : Z) : json :=
  JObj [key "id" (JStr id); key "type" (jtext "message"); key "role" (jtext "assistant"); key "model" (JStr model);
        key "content" (content_json text reasoning calls id); key "stop_reason" (JStr (anthropic_stop_reason finish)); key "stop_sequence" JNull;
        key "usage" (anthropic_usage p c cr cw)].

Lemma anthropic_message_print id model text reasoning calls inputs finish p c cr cw : plain_text id → Forall2 input_of calls inputs →
  anthropic_body id model text reasoning calls finish p c cr cw
  = jprint (anthropic_message id model text reasoning (zip calls inputs) finish p c cr cw) ++ [10].
Proof.
  intros Hid Hi. unfold anthropic_body, anthropic_message. rewrite (content_json_print text reasoning calls inputs id Hi), anthropic_usage_print.
  generalize (content_json text reasoning (zip calls inputs) id), (anthropic_usage p c cr cw), (anthropic_stop_reason finish). intros j u f.
  cbn [jprint fmap list_fmap join_close fst snd key]. rewrite (plain_escape id Hid). same_text.
Qed.

(** ** The documents are accepted *)

Lemma openai_usage_doc d p c cr cw : 2 <= d → doc d (openai_usage p c cr cw).
Proof. intros Hd. unfold openai_usage. cbn zeta. solve_doc. Qed.

Lemma call_json_doc d id i tc : 2 <= d → str_ok id → wire_ok tc → doc d (call_json id i tc).
Proof.
  intros Hd Hid (H1 & H2 & H3). assert (str_ok (call_wire_id id i tc)).
  { unfold call_wire_id. destruct (tc_id tc) as [x|]; [by apply H1|]. apply str_ok_take, str_ok_app; [done|]. apply str_ok_app; [by apply bs_str_ok|apply fmt_d_ok]. }
  assert (str_ok (default [] (tc_name tc))) by (destruct (tc_name tc) as [x|]; [by apply H2|apply str_ok_nil]).
  pose proof (canonical_args_ok _ H3). unfold call_json. solve_doc.
Qed.

Lemma calls_json_doc d id calls : 3 <= d → str_ok id → Forall wire_ok calls → doc d (calls_json id calls).
Proof.
  intros Hd Hid H. apply doc_arr; [lia|]. apply Forall_lookup. intros i v Hv. rewrite list_lookup_imap in Hv. destruct (calls !! i) as [tc|] eqn:E; [|done].
  cbn in Hv. injection Hv as <-. apply call_json_doc; [lia|done|]. by eapply Forall_lookup_1.
Qed.

Lemma chat_completion_doc id now model text reasoning calls finish p c cr cw : str_ok id → str_ok model → str_ok text → str_ok reasoning → str_ok finish →
  Forall wire_ok calls → doc 256 (chat_completion id now model text reasoning calls finish p c cr cw).
Proof.
  intros Hid Hm Ht Hr Hf Hc. unfold chat_completion. pose proof (λ d H, openai_usage_doc d p c cr cw H) as Hu. pose proof (λ d H, calls_json_doc d id calls H Hid Hc) as Hj.
  generalize dependent (openai_usage p c cr cw). intros u Hu. generalize dependent (calls_json id calls). intros j Hj.
  destruct reasoning, calls; cbn [app]; solve_doc; first [apply Hu; lia|apply Hj; lia].
Qed.

Lemma text_completion_doc id now model text finish p c cr cw : str_ok id → str_ok model → str_ok text → str_ok finish →
  doc 256 (text_completion id now model text finish p c cr cw).
Proof. intros Hid Hm Ht Hf. unfold text_completion, openai_usage. cbn zeta. solve_doc. Qed.

Lemma error_doc msg : str_ok msg → doc 256 (error_json msg).
Proof. intros H. unfold error_json. solve_doc. Qed.

Lemma context_error_doc api kind n ctx : doc 256 (context_error_json api kind n ctx).
Proof.
  unfold context_error_json. cbn zeta. set (m := take 159 _). assert (str_ok m) by (unfold m; auto 10 with docs). clearbody m.
  assert (str_ok (context_length_error_param api kind)) by (destruct api, kind; apply bs_str_ok; reflexivity). destruct api; solve_doc.
Qed.

Lemma content_doc d text reasoning calls inputs id : 202 <= d → str_ok id → str_ok text → str_ok reasoning → Forall wire_ok calls → Forall2 input_of calls inputs →
  doc d (content_json text reasoning (zip calls inputs) id).
Proof.
  intros Hd Hid Ht Hr Hw Hi. assert (Forall (doc (d - 1)) (imap (tool_use_json id) (zip calls inputs))) as Hc.
  { apply Forall_lookup. intros i v Hv. rewrite list_lookup_imap in Hv. destruct (zip calls inputs !! i) as [[tc input]|] eqn:E; [|done]. cbn in Hv. injection Hv as <-.
    rewrite lookup_zip_with in E. destruct (calls !! i) as [tc'|] eqn:E1; [|done]. destruct (inputs !! i) as [input'|] eqn:E2; [|done]. cbn in E. injection E as -> ->.
    destruct (proj1 (Forall_lookup _ _) Hw i tc E1) as (H1 & H2 & _). destruct (Forall2_lookup_lr _ _ _ i _ _ Hi E1 E2) as (_ & Hok & Hdep).
    assert (str_ok (tool_use_id id i tc)).
    { unfold tool_use_id. destruct (tc_id tc) as [[|x y]|]; [|by apply H1|]; apply str_ok_take, str_ok_app; (try by apply bs_str_ok);
        (apply str_ok_app; [done|]; apply str_ok_app; [|apply fmt_d_ok]; split; by repeat constructor). }
    assert (str_ok (default [] (tc_name tc))) by (destruct (tc_name tc) as [x|]; [by apply H2|apply str_ok_nil]).
    assert (doc (d - 1 - 1) input) by (split; [done|lia]). unfold tool_use_json. cbn [fst snd]. solve_doc. }
  unfold content_json, text_block, thinking_block. cbn zeta. generalize dependent (imap (tool_use_json id) (zip calls inputs)). intros l Hc.
  apply doc_arr; [lia|]. apply Forall_app. split; [destruct reasoning; solve_doc|]. destruct text; [destruct l; [solve_doc|done]|]. cbn [app]. solve_doc.
Qed.

Lemma anthropic_usage_doc d p c cr cw : 1 <= d → doc d (anthropic_usage p c cr cw).
Proof. intros Hd. unfold anthropic_usage. cbn zeta. solve_doc. Qed.

Lemma stop_reason_ok finish : str_ok (anthropic_stop_reason finish).
Proof. unfold anthropic_stop_reason. repeat case_match; apply bs_str_ok; reflexivity. Qed.

Lemma anthropic_message_doc id model text reasoning calls inputs finish p c cr cw : str_ok id → str_ok model → str_ok text → str_ok reasoning →
  Forall wire_ok calls → Forall2 input_of calls inputs → doc 256 (anthropic_message id model text reasoning (zip calls inputs) finish p c cr cw).
Proof.
  intros Hid Hm Ht Hr Hw Hi. pose proof (λ d H, content_doc d text reasoning calls inputs id H Hid Ht Hr Hw Hi) as Hj. pose proof (stop_reason_ok finish).
  pose proof (λ d H, anthropic_usage_doc d p c cr cw H) as Hu. unfold anthropic_message. generalize dependent (content_json text reasoning (zip calls inputs) id). intros j Hj.
  generalize dependent (anthropic_usage p c cr cw). intros u Hu. solve_doc; first [apply Hu; lia|apply Hj; lia].
Qed.

(** ** The body is found *)

(** A client that looks for the end of the head and the length of the body as the
    reader of the server does. *)
Definition read_reply (r : bytes) : option bytes :=
  match header_end r with
  | None => None
  | Some n => match content_length r n with Some len => if 0 <=? len then Some (take (Z.to_nat len) (drop n r)) else None | None => None end
  end.

Definition status_line (code : Z) : bytes := bs "HTTP/1.1 " ++ fmt_d code ++ [32] ++ http_reason code.

Definition cors_lines : list bytes :=
  [bs "Access-Control-Allow-Origin: *"; bs "Access-Control-Allow-Methods: GET, POST, OPTIONS"; bs "Access-Control-Allow-Headers: *"].

Definition lines_after (enable_cors : bool) : list bytes :=
  bs "Content-Type: application/json" :: (if enable_cors then cors_lines else []) ++ [bs "Connection: close"].

Lemma head_lines enable_cors code body :
  http_response_head enable_cors code application_json body
  = http_lines ([status_line code] ++ (bs "Content-Length: " ++ fmt_u (Z.of_nat (length body))) :: lines_after enable_cors) ++ CRLF.
Proof.
  unfold http_response_head, status_line, fmt_d at 2. destruct (Z.ltb_spec (Z.of_nat (length body)) 0); [lia|].
  generalize (fmt_u (Z.of_nat (length body))), (fmt_d code), (http_reason code). intros n c r.
  unfold http_lines, lines_after, cors_lines. cbn [app fmap list_fmap concat]. destruct enable_cors; cbn [app fmap list_fmap concat]; flat; vm_compute; reflexivity.
Qed.

Lemma text_chars l : forallb (λ c, negb (c =? 0) && negb (c =? 10) && negb (c =? 13)) l = true → Forall (λ c, c ≠ 0 ∧ c ≠ 10 ∧ c ≠ 13) l.
Proof. intros H. apply List.Forall_forall. rewrite forallb_forall in H. intros c Hc. apply H in Hc. lia. Qed.

Lemma status_text code : text_line (status_line code).
Proof.
  split; [done|]. unfold status_line. apply Forall_app; split; [apply text_chars; reflexivity|]. apply Forall_app; split.
  - assert (∀ m, 0 <= m → Forall (λ c, c ≠ 0 ∧ c ≠ 10 ∧ c ≠ 13) (fmt_u m)) as H.
    { intros m Hm. eapply Forall_impl; [exact (fmt_u_digit m Hm)|]. intros c Hc%isdigit_true. lia. }
    unfold fmt_d. destruct (Z.ltb_spec code 0); [constructor; [lia|]|]; apply H; lia.
  - apply Forall_app; split; [apply text_chars; reflexivity|]. unfold http_reason. repeat case_match; apply text_chars; reflexivity.
Qed.

Lemma after_text enable_cors : Forall text_line (lines_after enable_cors).
Proof. unfold lines_after, cors_lines. destruct enable_cors; cbn [app]; repeat constructor; try discriminate; apply text_chars; reflexivity. Qed.

Lemma reply_read enable_cors code body : Z.of_nat (length body) <= LONG_MAX → read_reply (http_response enable_cors code application_json body) = Some body.
Proof.
  intros Hl. unfold read_reply, http_response. rewrite head_lines. set (ls := [status_line code] ++ _ :: _).
  assert (Forall text_line ls) as Hls.
  { unfold ls. constructor; [apply status_text|]. constructor; [by apply length_text; lia|apply after_text]. }
  fold (head_text ls). rewrite header_end_whole by done. unfold content_length. rewrite take_app_length, drop_app_length. unfold head_text at 2, ls.
  rewrite content_length_head; [|apply List.Forall_cons; [apply status_text|apply List.Forall_nil]|by repeat constructor|lia|].
  - destruct (Z.leb_spec 0 (Z.of_nat (length body))); [|lia]. rewrite Nat2Z.id. by rewrite take_ge.
  - cbn [length]. unfold head_text. rewrite length_app. cbn. lia.
Qed.



(** Replies that are read back, Anthropic: the reply to a message request is found by
    a reader of HTTP messages and is the printed form of the JSON document of the message:
    the reasoning as a thinking block, the text, a block for every call with its arguments
    as a document, and an empty text where nothing else follows the reasoning. *)
Theorem anthropic_reply_exact cors id model text reasoning calls inputs finish p c cr cw
    (Hid : plain_text id) (Hm : str_ok model) (Ht : str_ok text) (Hr : str_ok reasoning) (Hc : Forall wire_ok calls) (Hi : Forall2 input_of calls inputs)
    (Hl : Z.of_nat (length (anthropic_body id model text reasoning calls finish p c cr cw)) <= LONG_MAX) :
  let body := anthropic_body id model text reasoning calls finish p c cr cw in
  read_reply (anthropic_final_response cors id model text reasoning calls finish p c cr cw) = Some body
  ∧ body = jprint (anthropic_message id model text reasoning (zip calls inputs) finish p c cr cw) ++ [10]
  ∧ json_skip_value body = Some [10].
Proof.
  cbn zeta. rewrite (anthropic_message_print id model text reasoning calls inputs finish p c cr cw Hid Hi) at 2 3. split_and!; [by apply reply_read|done|].
  apply doc_accepted; [apply anthropic_message_doc; try done; by apply plain_ok|cbn; auto].
Qed.

(** Witness: a message with a reasoning and a call with a parameter. *)
Lemma anthropic_reply_exact_witness :
  let calls := [ToolCall (Some (bs "toolu_1")) (Some (bs "f")) (Some (js "{'a': 1}"))] in
  let input := JObj [key "a" (JNum false (bs "1"))] in
  read_reply (anthropic_final_response false (bs "msg_1") (bs "m") [] (bs "hm") calls (bs "tool_calls") 5 7 0 0)
  = Some (jprint (anthropic_message (bs "msg_1") (bs "m") [] (bs "hm") (zip calls [input]) (bs "tool_calls") 5 7 0 0) ++ [10]).
Proof.
  cbn zeta. destruct (anthropic_reply_exact false (bs "msg_1") (bs "m") [] (bs "hm") [ToolCall (Some (bs "toolu_1")) (Some (bs "f")) (Some (js "{'a': 1}"))]
    [JObj [key "a" (JNum false (bs "1"))]] (bs "tool_calls") 5 7 0 0) as (H1 & H2 & _).
  - repeat apply List.Forall_cons; try apply List.Forall_nil; cbn; lia.
  - by apply bs_str_ok.
  - apply str_ok_nil.
  - by apply bs_str_ok.
  - apply List.Forall_cons; [|apply List.Forall_nil]. split_and!; cbn [tc_id tc_name tc_arguments]; intros x [= <-]; try (by apply bs_str_ok). split; by repeat constructor.
  - constructor; [|constructor]. split; [vm_compute; reflexivity|]. split; [|cbn; lia].
    constructor. apply Forall_singleton. split; [by apply bs_str_ok|]. apply ok_num, num_text_digits. by repeat constructor.
  - vm_compute. discriminate.
  - exact (eq_trans H1 (f_equal Some H2)).
Defined.

(** ** Event streams *)

(** A reader of an event stream: the data of every event that has some, an event being
    ended by an empty line. *)
Fixpoint sse_read (line : bytes) (data : option bytes) (s : bytes) : list bytes :=
  match s with
  | [] => []
  | c :: r =>
      if c =? 10 then
        match line with
        | [] => match data with Some d => d :: sse_read [] None r | None => sse_read [] None r end
        | _ => sse_read [] (match strip_prefix (bs "data: ") line with Some d => Some d | None => data end) r
        end
      else sse_read (line ++ [c]) data r
  end.

Definition one_line (s : bytes) : Prop := Forall (λ c, c ≠ 10) s.

Lemma read_line s : ∀ line data r, one_line s → sse_read line data (s ++ r) = sse_read (line ++ s) data r.
Proof.
  induction s as [|c s IH]; intros line data r H; [by rewrite app_nil_r|]. apply Forall_cons in H as [Hc H]. cbn [app sse_read].
  destruct (Z.eqb_spec c 10); [done|]. by rewrite IH, <- app_assoc.
Qed.

(** An event with an optional name. *)
Definition sse_frame (name : option bytes) (d : bytes) : bytes :=
  match name with Some n => bs "event: " ++ n ++ [10] | None => [] end ++ bs "data: " ++ d ++ [10; 10].

Lemma read_frame name d r : one_line d → (∀ n, name = Some n → one_line n) → sse_read [] None (sse_frame name d ++ r) = d :: sse_read [] None r.
Proof.
  intros Hd Hn. assert (∀ data, sse_read [] data ((bs "data: " ++ d ++ [10; 10]) ++ r) = d :: sse_read [] None r) as H.
  { intros data. flat. rewrite (app_assoc (bs "data: ") d), read_line by (apply Forall_app; split; [by repeat constructor|done]).
    rewrite app_nil_l. cbn [sse_read]. change (10 =? 10) with true. cbn iota. rewrite strip_prefix_app. by destruct (bs "data: " ++ d) eqn:E. }
  unfold sse_frame. destruct name as [n|]; [|apply H]. rewrite <- !app_assoc. rewrite (app_assoc (bs "event: ") n).
  rewrite read_line by (apply Forall_app; split; [by repeat constructor|by apply Hn]). rewrite app_nil_l. cbn [app sse_read]. change (10 =? 10) with true. cbn iota.
  destruct (bs "event: " ++ n) as [|x y] eqn:E; [done|]. rewrite <- E. change (strip_prefix (bs "data: ") (bs "event: " ++ n)) with (@None bytes). rewrite <- (H None). by rewrite <- !app_assoc.
Qed.

(** No document has a line break. *)
Lemma printable_lit l : forallb (λ c, 32 <=? c) l = true → Forall (λ c, 32 <= c) l.
Proof. intros H. apply List.Forall_forall. rewrite forallb_forall in H. intros c Hc. apply H in Hc. lia. Qed.

Lemma hex4_printable c : Forall (λ x, 32 <= x) (hex4 c).
Proof.
  apply Forall_fmap, Forall_true. intros sh. unfold compose. change 15 with (Z.ones 4). rewrite Z.land_ones by lia.
  pose proof (Z.mod_pos_bound (Z.shiftr c sh) (2 ^ 4) ltac:(lia)) as Hm.
  apply (proj1 (List.Forall_forall _ _) (printable_lit (bs "0123456789abcdef") eq_refl)), nth_In. change (length (bs "0123456789abcdef")) with 16%nat. lia.
Qed.

Lemma escape_printable s : str_ok s → Forall (λ c, 32 <= c) (json_escape s).
Proof.
  intros [Hb _]. unfold json_escape. repeat (apply Forall_app; split); [by apply printable_lit| |by apply printable_lit].
  induction Hb as [|c s Hc Hb IH]; csimpl; [constructor|]. apply Forall_app. split; [|done]. unfold escape_char, is_u8 in *. repeat case_if; bool_to_prop;
    try (by apply printable_lit); try (apply Forall_app; split; [by apply printable_lit|apply hex4_printable]); repeat (apply List.Forall_cons; [lia|]); apply List.Forall_nil.
Qed.

Lemma join_printable close items : 32 <= close → Forall (Forall (λ c, 32 <= c)) items → Forall (λ c, 32 <= c) (join_close close items).
Proof.
  intros Hc. induction 1 as [|x items Hx Hi IH]; [by apply List.Forall_cons; [|apply List.Forall_nil]|].
  destruct items as [|y items]; [cbn; apply Forall_app; split; [done|by apply List.Forall_cons; [|apply List.Forall_nil]]|].
  rewrite join_close_cons. apply Forall_app. split; [done|]. constructor; [lia|done].
Qed.

Lemma jprint_printable v : json_ok v → Forall (λ c, 32 <= c) (jprint v).
Proof.
  induction v as [|b|neg dg|str|l IH|l IH] using json_nested_ind; intros Hok; inversion Hok as [| |? ? Hdg|? Hs|? Hl|? Hl]; subst.
  - by apply printable_lit.
  - destruct b; by apply printable_lit.
  - cbn [jprint]. apply Forall_app. split; [destruct neg; by apply printable_lit|]. eapply Forall_impl; [exact (num_text_chars dg Hdg)|]. cbn. lia.
  - by apply escape_printable.
  - cbn [jprint]. constructor; [lia|]. apply join_printable; [lia|]. apply Forall_fmap. clear Hok. induction IH as [|v l Hv _ IHl]; [constructor|].
    apply Forall_cons in Hl as [? ?]. constructor; auto.
  - cbn [jprint]. constructor; [lia|]. apply join_printable; [lia|]. apply Forall_fmap. clear Hok. induction IH as [|kv l Hv _ IHl]; [constructor|].
    apply Forall_cons in Hl as [[Hk ?] ?]. constructor; [|by apply IHl]. apply Forall_app. split; [by apply escape_printable|]. constructor; [lia|auto].
Qed.

Lemma jprint_one_line d v : doc d v → one_line (jprint v).
Proof. intros [H%jprint_printable _]. eapply Forall_impl; [exact H|]. cbn. lia. Qed.

(** *** OpenAI *)

Definition chunk_json (id : bytes) (now : Z) (model : bytes) (rest : list (bytes * json)) : json :=
  JObj ([key "id" (JStr id); key "object" (jtext "chat.completion.chunk"); key "created" (jint now); key "model" (JStr model)] ++ rest).

Definition choice_json (delta finish : json) : list (bytes * json) := [key "choices" (JArr [JObj [key "index" jzero; key "delta" delta; key "finish_reason" finish]])].

Definition delta_call_json (id : bytes) (i : nat) (tc : tool_call) : json :=
  JObj [key "index" (jint (Z.of_nat i)); key "id" (JStr (call_wire_id id i tc)); key "type" (jtext "function");
        key "function" (JObj [key "name" (JStr (default [] (tc_name tc))); key "arguments" (JStr (append_json_object_or_empty (tc_arguments tc)))])].

(** The data of the events of one event of the stream. *)
Definition openai_documents (id : bytes) (now : Z) (model : bytes) (e : openai_event) : list json :=
  let chunk delta finish := chunk_json id now model (choice_json delta finish) in
  let calls v := JObj [key "tool_calls" (JArr v)] in
  match e with
  | OaRole => [chunk (JObj [key "role" (jtext "assistant")]) JNull]
  | OaDelta ch text => [chunk (JObj [(match ch with Reasoning => bs "reasoning_content" | Content => bs "content" end, JStr text)]) JNull]
  | OaToolStart i tool_id name =>
      [chunk (calls [JObj [key "index" (jint (Z.of_nat i)); key "id" (JStr tool_id); key "type" (jtext "function");
                           key "function" (JObj [key "name" (JStr name); key "arguments" (jtext "")])]]) JNull]
  | OaToolArgs i text => [chunk (calls [JObj [key "index" (jint (Z.of_nat i)); key "function" (JObj [key "arguments" (JStr text)])]]) JNull]
  | OaFinish cs finish => match cs with [] => [] | _ => [chunk (calls (imap (delta_call_json id) cs)) JNull] end ++ [chunk (JObj []) (JStr finish)]
  | OaUsage p c cached written =>
      [chunk_json id now model [key "choices" (JArr []);
         key "usage" (JObj [key "prompt_tokens" (jint p); key "completion_tokens" (jint c); key "total_tokens" (jint (p + c));
           key "prompt_tokens_details" (JObj [key "cached_tokens" (jint cached); key "cache_write_tokens" (jint written)])])]]
  | OaDone => []
  end.

Definition openai_payloads (id : bytes) (now : Z) (model : bytes) (e : openai_event) : list bytes :=
  match e with OaDone => [bs "[DONE]"] | _ => jprint <$> openai_documents id now model e end.

Lemma delta_call_print id i tc : append_tool_call_delta_json id i tc = jprint (delta_call_json id i tc).
Proof.
  unfold append_tool_call_delta_json, delta_call_json, append_json_object_string, call_wire_id.
  generalize (default (take 127 (id ++ bs "_tool_" ++ fmt_d (Z.of_nat i))) (tc_id tc)), (default [] (tc_name tc)), (append_json_object_or_empty (tc_arguments tc)).
  intros d n a. same_text.
Qed.

Lemma delta_calls_print id calls : append_tool_call_deltas_json calls id = jprint (JArr (imap (delta_call_json id) calls)).
Proof.
  unfold append_tool_call_deltas_json. cbn [jprint]. rewrite join_close_comma. cbn [app bs]. f_equal. f_equal. f_equal. rewrite fmap_imap. apply imap_ext.
  intros i tc _. cbn. apply delta_call_print.
Qed.

Lemma openai_event_print id now model e : plain_text id →
  openai_event_bytes id now model e = concat (sse_frame None <$> openai_payloads id now model e).
Proof.
  intros Hid. unfold openai_event_bytes, openai_payloads, sse_frame. destruct e as [|[|] t|i tid n|i t|cs f|p c cached written|]; cbn zeta;
    cbn [openai_documents fmap list_fmap concat app]; rewrite ?app_nil_r.
  6: { rewrite delta_calls_print. destruct cs as [|tc cs]; [|generalize (imap (delta_call_json id) (tc :: cs)); intros l]; cbn [app fmap list_fmap concat].
       - rewrite app_nil_r. unfold chunk_json, choice_json. cbn [app jprint fmap list_fmap join_close fst snd key]. rewrite (plain_escape id Hid). same_text.
       - rewrite app_nil_r. unfold chunk_json, choice_json. generalize (JArr l). intros j. cbn [app jprint fmap list_fmap join_close fst snd key]. rewrite (plain_escape id Hid). same_text. }
  all: unfold chunk_json, choice_json; cbn [app jprint fmap list_fmap join_close fst snd key]; rewrite ?(plain_escape id Hid).
  7: reflexivity.
  all: same_text.
Qed.

(** The texts of an event are texts of C. *)
Definition openai_event_ok (e : openai_event) : Prop :=
  match e with
  | OaRole | OaUsage _ _ _ _ | OaDone => True
  | OaDelta _ t => str_ok t
  | OaToolStart _ tid n => str_ok tid ∧ str_ok n
  | OaToolArgs _ t => str_ok t
  | OaFinish cs f => Forall wire_ok cs ∧ str_ok f
  end.

Lemma delta_calls_doc d id cs : 3 <= d → str_ok id → Forall wire_ok cs → Forall (doc (d - 1)) (imap (delta_call_json id) cs).
Proof.
  intros Hd Hid H. apply Forall_lookup. intros i v Hv. rewrite list_lookup_imap in Hv. destruct (cs !! i) as [tc|] eqn:E; [|done]. cbn in Hv. injection Hv as <-.
  destruct (proj1 (Forall_lookup _ _) H i tc E) as (H1 & H2 & H3). assert (str_ok (call_wire_id id i tc)).
  { unfold call_wire_id. destruct (tc_id tc) as [x|]; [by apply H1|]. apply str_ok_take, str_ok_app; [done|]. apply str_ok_app; [by apply bs_str_ok|apply fmt_d_ok]. }
  assert (str_ok (default [] (tc_name tc))) by (destruct (tc_name tc) as [x|]; [by apply H2|apply str_ok_nil]). pose proof (canonical_args_ok _ H3).
  unfold delta_call_json. solve_doc.
Qed.

Lemma openai_documents_ok id now model e : str_ok id → str_ok model → openai_event_ok e → Forall (doc 256) (openai_documents id now model e).
Proof.
  intros Hid Hm He. unfold openai_documents, chunk_json, choice_json. cbn zeta. destruct e as [|[|] t|i tid n|i t|cs f|p c cached written|]; cbn [app] in *; cbn in He.
  6: { destruct He as [Hc Hf]. pose proof (λ d H, delta_calls_doc d id cs H Hid Hc) as Hd. destruct cs as [|tc cs]; cbn [app]; [solve_doc|].
       generalize dependent (imap (delta_call_json id) (tc :: cs)). intros l Hd. solve_doc. apply Hd. lia. }
  all: destruct_and?; solve_doc; try apply List.Forall_nil; (split; [by apply bs_str_ok|solve_doc]).
Qed.

Lemma read_frames id now model es : ∀ r, plain_text id → str_ok model → Forall openai_event_ok es →
  sse_read [] None (concat (openai_event_bytes id now model <$> es) ++ r) = concat (openai_payloads id now model <$> es) ++ sse_read [] None r.
Proof.
  intros r Hid Hm H. induction H as [|e es He H IH]; [done|]. cbn [fmap list_fmap concat]. rewrite <- !app_assoc, <- IH, openai_event_print by done.
  pose proof (openai_documents_ok id now model e (plain_ok _ Hid) Hm He) as Hd.
  assert (Forall one_line (openai_payloads id now model e)) as Hl.
  { unfold openai_payloads. destruct e; try (apply Forall_fmap; eapply Forall_impl; [exact Hd|]; intros v Hv; by eapply jprint_one_line). by repeat constructor. }
  clear -Hl. induction Hl as [|d l Hd Hl IHl]; [done|]. cbn [fmap list_fmap concat app]. rewrite <- app_assoc. rewrite read_frame by done. by rewrite IHl.
Qed.

(** *** Anthropic *)

Definition anthropic_document (id model : bytes) (e : anthropic_event) : bytes * json :=
  let event (name : string) (rest : list (bytes * json)) := (bs name, JObj (key "type" (jtext name) :: rest)) in
  let start index block := event "content_block_start"%string [key "index" (jint index); key "content_block" (JObj block)] in
  let delta index block := event "content_block_delta"%string [key "index" (jint index); key "delta" (JObj block)] in
  match e with
  | AnStart input cache_read cache_write =>
      event "message_start"%string [key "message" (JObj [key "id" (JStr id); key "type" (jtext "message"); key "role" (jtext "assistant"); key "model" (JStr model);
        key "content" (JArr []); key "stop_reason" JNull; key "stop_sequence" JNull;
        key "usage" (JObj [key "input_tokens" (jint input); key "output_tokens" jzero; key "cache_read_input_tokens" (jint cache_read);
                           key "cache_creation_input_tokens" (jint cache_write)])])]
  | AnBlockStart index type =>
      start index (match type with
                   | ANTH_BLOCK_THINKING => [key "type" (jtext "thinking"); key "thinking" (jtext ""); key "signature" (jtext "")]
                   | _ => [key "type" (jtext "text"); key "text" (jtext "")]
                   end)
  | AnToolStart index tool_id name =>
      start index [key "type" (jtext "tool_use"); key "id" (JStr tool_id); key "name" (JStr name); key "input" (JObj [])]
  | AnDelta index type text =>
      delta index (match type with
                   | ANTH_BLOCK_THINKING => [key "type" (jtext "thinking_delta"); key "thinking" (JStr text)]
                   | _ => [key "type" (jtext "text_delta"); key "text" (JStr text)]
                   end)
  | AnToolDelta index text => delta index [key "type" (jtext "input_json_delta"); key "partial_json" (JStr text)]
  | AnSignature index signature => delta index [key "type" (jtext "signature_delta"); key "signature" (JStr signature)]
  | AnBlockStop index => event "content_block_stop"%string [key "index" (jint index)]
  | AnMessageDelta reason n =>
      event "message_delta"%string [key "delta" (JObj [key "stop_reason" (JStr reason); key "stop_sequence" JNull]); key "usage" (JObj [key "output_tokens" (jint n)])]
  | AnMessageStop => event "message_stop"%string []
  end.

Lemma anthropic_event_print id model e : plain_text id →
  anthropic_event_bytes id model e = sse_frame (Some (anthropic_document id model e).1) (jprint (anthropic_document id model e).2).
Proof.
  intros Hid. unfold anthropic_event_bytes, sse_event, sse_frame. destruct e as [input r w|i t|i tid n|i t x|i x|i x|i|reason n|]; cbn zeta; unfold anthropic_document; cbn zeta;
    cbn [fst snd].
  1: { cbn [app jprint fmap list_fmap join_close fst snd key]. rewrite (plain_escape id Hid). same_text. }
  1: destruct t; same_text.
  2: destruct t; same_text.
  all: same_text.
Qed.

Definition anthropic_event_ok (e : anthropic_event) : Prop :=
  match e with
  | AnToolStart _ tid n => str_ok tid ∧ str_ok n
  | AnDelta _ _ t | AnToolDelta _ t | AnSignature _ t | AnMessageDelta t _ => str_ok t
  | _ => True
  end.

Lemma anthropic_document_ok id model e : str_ok id → str_ok model → anthropic_event_ok e →
  doc 256 (anthropic_document id model e).2 ∧ one_line (anthropic_document id model e).1.
Proof.
  intros Hid Hm He. unfold anthropic_document. cbn zeta. destruct e as [input r w|i t|i tid n|i t x|i x|i x|i|reason n|]; cbn in He; cbn [fst snd];
    (split; [|by repeat constructor]).
  2: destruct t; solve_doc.
  3: destruct t; solve_doc.
  all: destruct_and?; solve_doc.
Qed.


