(* ===== verification/ToolSchemas.v ===== *)
(** * Tool schemas of a request

    Model of [parse_tools_value] of [engine/src/server.c] and of what it calls: the
    schema inside an OpenAI tool, the functions of a Responses namespace, the hosted
    search tool, and the order in which a schema lists its properties.

    The [char *] locals of a parser that reads an object member by member are a finite
    map from their names; a local that is not in the map is [NULL].

    A reference that reads the tools from the tree of the document, and the theorem that
    [parse_tools_value] gives the same schemas and orders on the printed document. *)
From S2P Require Import Prelude CLib Strtod Json JsonProps JsonSafe Request RequestProps JsonTree ToolText.

(** ** Objects read into locals *)

Abbreviation locals := (gmap string bytes).

(** A member either goes to a local through a reader or is skipped. *)
Abbreviation member_table := (bytes → option (string * (bytes → option (bytes * bytes)))).

Definition local_field (table : member_table) (key : bytes) (vars : locals) (s : bytes) : option (locals * bytes) :=
  match table key with
  | Some (x, reader) => '(v, s) ← reader s; Some (<[x := v]> vars, s)
  | None => skip_field vars s
  end.

(** A value that is a string or is kept as its text. *)
Definition string_or_raw (s : bytes) : option (bytes * bytes) :=
  let s := json_ws s in if hd0 s =? 34 then json_string s else json_raw_value s.

(** A loop over the members that does not ask what ended it: the closing brace or the
    end of the text. *)
Fixpoint obj_scan {A} (field : bytes → A → bytes → option (A * bytes)) (fuel : nat) (st : A) (s : bytes) : option A :=
  match fuel with
  | O => None
  | S fuel' =>
      if (hd0 s =? 0) || (hd0 s =? 125) then Some st
      else
        '(key, s) ← json_string s;
        let s := json_ws s in
        if negb (hd0 s =? 58) then None
        else
          '(st, s) ← field key st (tl0 s);
          obj_scan field fuel' st (skip_comma s)
  end.

Definition scan_object {A} (field : bytes → A → bytes → option (A * bytes)) (st : A) (raw : bytes) : option A :=
  let s := json_ws raw in
  if negb (hd0 s =? 123) then None
  else let s := json_ws (tl0 s) in obj_scan field (S (length s)) st s.

(** ** Schemas out of tools *)

Definition append_raw_json_line (b json : bytes) : bytes :=
  match json with
  | [] => b
  | _ => (match b with [] => [] | _ => b ++ [10] end) ++ json
  end.

Fixpoint function_loop (fuel : nat) (s : bytes) : option bytes :=
  match fuel with
  | O => None
  | S fuel' =>
      if (hd0 s =? 0) || (hd0 s =? 125) then None
      else
        '(key, s) ← json_string s;
        let s := json_ws s in
        if negb (hd0 s =? 58) then None
        else if bytes_eqb key (bs "function") then fst <$> json_raw_value (tl0 s)
        else
          s ← json_skip_value (tl0 s);
          function_loop fuel' (skip_comma s)
  end.

Definition openai_function_schema_from_tool (raw : bytes) : option bytes :=
  let s := json_ws raw in
  if negb (hd0 s =? 123) then None
  else let s := json_ws (tl0 s) in function_loop (S (length s)) s.

Definition empty_parameters : bytes :=
  bs "{" ++ json_escape (bs "type") ++ bs ":" ++ json_escape (bs "object") ++ bs "," ++ json_escape (bs "properties") ++ bs ":{}}".

(** The schema with the three members the prompt has. *)
Definition schema_text (name description parameters : bytes) : bytes :=
  bs "{" ++ json_escape (bs "name") ++ bs ":" ++ json_escape name ++ bs "," ++ json_escape (bs "description") ++ bs ":" ++ json_escape description
  ++ bs "," ++ json_escape (bs "parameters") ++ bs ":" ++ parameters ++ bs "}".

Definition special_table : member_table := λ key,
  if bytes_eqb key (bs "type") then Some ("type", json_string)
  else if bytes_eqb key (bs "description") then Some ("description", json_string)
  else if bytes_eqb key (bs "parameters") then Some ("parameters", json_raw_value)
  else None.

Definition responses_special_schema_from_tool (raw : bytes) : option bytes :=
  v ← scan_object (local_field special_table) ∅ raw;
  if decide (v !! "type" = Some (bs "tool_search"))
  then Some (schema_text (bs "tool_search") (default (bs "Search available tools.") (v !! "description")) (default empty_parameters (v !! "parameters")))
  else None.

Definition namespace_function_table : member_table := λ key,
  if bytes_eqb key (bs "type") then Some ("type", json_string)
  else if bytes_eqb key (bs "name") then Some ("name", json_string)
  else if bytes_eqb key (bs "description") then Some ("description", json_string)
  else if bytes_eqb key (bs "parameters") || bytes_eqb key (bs "input_schema") then Some ("parameters", json_raw_value)
  else None.

(** The schema with the qualified name, and the name on the wire. *)
Definition responses_namespace_function_schema_from_tool (raw namespace : bytes) : option (bytes * bytes) :=
  v ← scan_object (local_field namespace_function_table) ∅ raw;
  match v !! "type", v !! "name" with
  | type, Some (c :: n) =>
      if decide (type = None ∨ type = Some (bs "function"))
      then Some (schema_text (namespace ++ c :: n) (default [] (v !! "description")) (default empty_parameters (v !! "parameters")), c :: n)
      else None
  | _, _ => None
  end.

(** ** The order of the properties *)

(** The members of [properties]: the names so far, also when the text breaks off, and
    the cursor at what ended the loop. *)
Fixpoint props_loop (fuel : nat) (props : list bytes) (s : bytes) : list bytes * option bytes :=
  match fuel with
  | O => (props, None)
  | S fuel' =>
      if (hd0 s =? 0) || (hd0 s =? 125) then (props, Some s)
      else
        match json_string s with
        | None => (props, None)
        | Some (prop, s) =>
            let s := json_ws s in
            if negb (hd0 s =? 58) then (props, None)
            else
              match json_skip_value (tl0 s) with
              | None => (props ++ [prop], None)
              | Some s => props_loop fuel' (props ++ [prop]) (skip_comma s)
              end
        end
  end.

Fixpoint schema_loop (fuel : nat) (props : list bytes) (s : bytes) : list bytes * bool :=
  match fuel with
  | O => (props, false)
  | S fuel' =>
      if (hd0 s =? 0) || (hd0 s =? 125) then (props, hd0 s =? 125)
      else
        match json_string s with
        | None => (props, false)
        | Some (key, s) =>
            let s := json_ws s in
            if negb (hd0 s =? 58) then (props, false)
            else if bytes_eqb key (bs "properties") then
              let s := json_ws (tl0 s) in
              if negb (hd0 s =? 123) then (props, false)
              else
                let s := json_ws (tl0 s) in
                match props_loop (S (length s)) props s with
                | (props, Some s) =>
                    if negb (hd0 s =? 125) then (props, false) else schema_loop fuel' props (skip_comma (tl0 s))
                | (props, None) => (props, false)
                end
            else
              match json_skip_value (tl0 s) with
              | None => (props, false)
              | Some s => schema_loop fuel' props (skip_comma s)
              end
        end
  end.

Definition parse_schema_properties (props : list bytes) (json : bytes) : list bytes * bool :=
  let s := json_ws json in
  if negb (hd0 s =? 123) then (props, false)
  else let s := json_ws (tl0 s) in schema_loop (S (length s)) props s.

Definition order_field (key : bytes) (st : option bytes * list bytes) (s : bytes) : option (option bytes * list bytes * bytes) :=
  if bytes_eqb key (bs "name") then '(n, s) ← json_string s; Some (Some n, st.2, s)
  else if bytes_eqb key (bs "input_schema") || bytes_eqb key (bs "parameters") then
    '(schema, s) ← json_raw_value s; Some (st.1, (parse_schema_properties st.2 schema).1, s)
  else skip_field st s.

Definition not_empty (s : option bytes) : option bytes := match s with Some (c :: r) => Some (c :: r) | _ => None end.

Definition tool_schema_orders_add_json_wire (orders : list tool_schema_order) (json : bytes) (namespace wire_name : option bytes)
    (responses_tool_search : bool) : list tool_schema_order :=
  match scan_object order_field (None, []) json with
  | Some (Some name, props) =>
      tool_schema_orders_push orders (ToolSchemaOrder (Some name) (not_empty wire_name) (not_empty namespace) responses_tool_search props)
  | _ => orders
  end.

Definition tool_schema_orders_add_json (orders : list tool_schema_order) (json : bytes) : list tool_schema_order :=
  tool_schema_orders_add_json_wire orders json None None false.

(** ** The list of tools *)

(** The schemas, a line each, and the orders. *)
Abbreviation tool_list := (bytes * list tool_schema_order)%type.

Definition namespace_table : member_table := λ key,
  if bytes_eqb key (bs "type") then Some ("type", json_string)
  else if bytes_eqb key (bs "name") then Some ("name", json_string)
  else if bytes_eqb key (bs "tools") then Some ("tools", json_raw_value)
  else None.

(** The functions of a namespace; a text that breaks off keeps those before. *)
Fixpoint namespace_loop (fuel : nat) (name : bytes) (acc : tool_list * bool) (s : bytes) : tool_list * bool :=
  match fuel with
  | O => acc
  | S fuel' =>
      if (hd0 s =? 0) || (hd0 s =? 93) then acc
      else
        match json_raw_value s with
        | None => acc
        | Some (tool_raw, s) =>
            let acc :=
              match responses_namespace_function_schema_from_tool tool_raw name with
              | Some (schema, wire_name) =>
                  (append_raw_json_line acc.1.1 schema,
                   tool_schema_orders_add_json_wire acc.1.2 schema (Some name) (Some wire_name) false, true)
              | None => acc
              end in
            namespace_loop fuel' name acc (skip_comma s)
        end
  end.

Definition append_responses_namespace_tool_schemas (acc : tool_list) (raw : bytes) : tool_list * bool :=
  match scan_object (local_field namespace_table) ∅ raw with
  | None => (acc, false)
  | Some v =>
      match v !! "name", v !! "tools" with
      | Some name, Some tools =>
          if decide (v !! "type" = Some (bs "namespace")) then
            let s := json_ws tools in
            if negb (hd0 s =? 91) then (acc, false)
            else let s := json_ws (tl0 s) in namespace_loop (S (length s)) name (acc, false) s
          else (acc, false)
      | _, _ => (acc, false)
      end
  end.

(** What one tool adds. *)
Definition add_tool (acc : tool_list) (raw : bytes) : tool_list :=
  match openai_function_schema_from_tool raw with
  | Some schema => (append_raw_json_line acc.1 schema, tool_schema_orders_add_json acc.2 schema)
  | None =>
      match append_responses_namespace_tool_schemas acc raw with
      | (acc', true) => acc'
      | (acc', false) =>
          match responses_special_schema_from_tool raw with
          | Some special => (append_raw_json_line acc'.1 special, tool_schema_orders_add_json_wire acc'.2 special None None true)
          | None => (append_raw_json_line acc'.1 raw, tool_schema_orders_add_json acc'.2 raw)
          end
      end
  end.

Definition tools_elem (acc : tool_list) (s : bytes) : option (tool_list * bytes) :=
  '(raw, s) ← json_raw_value s; Some (add_tool acc raw, s).

Definition parse_tools_value (orders : list tool_schema_order) (s : bytes) : option (tool_list * bytes) :=
  let s := json_ws s in
  match json_lit (bs "null") s with
  | Some r => Some ([], orders, r)
  | None => json_array tools_elem ([], orders) s
  end.

(** * Theorems about the tools of a request *)

#[local] Opaque json_escape json_string.

(** ** Objects read into locals *)

(** A table on trees. *)
Abbreviation tree_table := (bytes → option (string * (json → option bytes))).

Definition local_member (T : tree_table) (key : bytes) (vars : locals) (v : json) : option locals :=
  match T key with
  | Some (x, g) => (λ t, <[x := t]> vars) <$> g v
  | None => Some vars
  end.

(** A table and its reading on trees. *)
Definition table_reads (table : member_table) (T : tree_table) : Prop :=
  ∀ key, match table key, T key with
         | Some (x, f), Some (y, g) => x = y ∧ reads f g
         | None, None => True
         | _, _ => False
         end.

Lemma reads_local table T key vars : table_reads table T → reads (local_field table key vars) (local_member T key vars).
Proof.
  intros H. specialize (H key). unfold local_field, local_member. destruct (table key) as [[x f]|], (T key) as [[y g]|]; try done; [|apply reads_skip].
  destruct H as [-> H]. by apply reads_map.
Qed.

(** The value of the last member that goes to [x]. *)
Definition local (T : tree_table) (x : string) (l : list (bytes * json)) : option bytes :=
  foldl (λ acc kv, match T kv.1 with Some (y, g) => if decide (x = y) then g kv.2 else acc | None => acc end) None l.

Definition readable (T : tree_table) (kv : bytes * json) : bool :=
  match T kv.1 with Some (_, g) => bool_decide (is_Some (g kv.2)) | None => true end.

Lemma members_app {A} (field : bytes → A → json → option A) l1 l2 st : members field st (l1 ++ l2) = st ← members field st l1; members field st l2.
Proof. revert st. induction l1 as [|[k v] l1 IH]; intros st; [done|]. cbn [app members]. destruct (field k st v); [|done]. apply IH. Qed.

(** The locals after an object: all members that a local wants must be readable, and
    each local has the value of its last member. *)
Lemma members_locals T l :
  match members (local_member T) ∅ l with
  | Some w => forallb (readable T) l = true ∧ ∀ x, w !! x = local T x l
  | None => forallb (readable T) l = false
  end.
Proof.
  induction l as [|[k v] l IH] using rev_ind; [done|]. rewrite members_app, forallb_app. destruct (members (local_member T) ∅ l) as [w|]; [|by rewrite IH].
  destruct IH as [-> IH]. cbn [mbind option_bind members andb forallb]. rewrite andb_true_r. unfold local_member, readable. cbn [fst snd].
  destruct (T k) as [[y g]|] eqn:E.
  - destruct (g v) as [t|] eqn:Eg; [|done]. cbn [fmap option_fmap option_map mbind option_bind]. split; [done|]. intros x. unfold local. rewrite foldl_app. cbn [foldl fst snd].
    rewrite E, Eg. destruct (decide (x = y)) as [->|Hne]; [by rewrite lookup_insert_eq|]. rewrite lookup_insert_ne by done. apply IH.
  - cbn [mbind option_bind]. split; [done|]. intros x. unfold local. rewrite foldl_app. cbn [foldl fst snd]. rewrite E. apply IH.
Qed.

(** ** Scanning a whole text *)

Section scan.
Context {A : Type}.

Lemma obj_scan_print (field : bytes → A → bytes → option (A * bytes)) fieldT (Hf : ∀ k st, reads (field k st) (fieldT k st)) l : ∀ st fuel,
  Forall (λ kv, str_ok kv.1 ∧ doc 256 kv.2) l → (length l < fuel)%nat →
  obj_scan field fuel st (join_close 125 (member <$> l) ++ []) = members fieldT st l.
Proof.
  induction l as [|[k v] l IH]; intros st fuel Hl Hfuel; destruct fuel as [|fuel]; cbn [length] in Hfuel; try lia; [done|].
  apply Forall_cons in Hl as [[[Hb Hn] Hv] Hl]. rewrite member_text. cbn [fst snd members obj_scan] in *. rewrite escape_hd. cbn [Z.eqb Pos.eqb orb].
  rewrite json_string_escape by done. cbn [mbind option_bind]. rewrite json_ws_stop by done. cbn [hd0 tl0 Z.eqb Pos.eqb negb].
  rewrite (Hf k st v _ Hv (after_end 125 (member <$> l) [] (or_intror eq_refl))).
  destruct (fieldT k st v) as [st'|]; [|done]. fmap_some. rewrite members_skip. apply IH; [done|lia].
Qed.
End scan.

(** The white space before the first member. *)
Lemma members_ws l rest : json_ws (join_close 125 (member <$> l) ++ rest) = join_close 125 (member <$> l) ++ rest.
Proof. destruct l as [|kv l]; [done|]. rewrite member_text. apply escape_ws. Qed.

(** A printed object from its brace on. *)
Lemma object_text v rest : json_ok v →
  if is_obj v then ∃ l, v = JObj l ∧ json_ws (tl0 (json_ws (jprint v ++ rest))) = join_close 125 (member <$> l) ++ rest else True.
Proof.
  intros H. destruct v as [| | | | |l]; try done. exists l. split; [done|]. rewrite print_ws by done. cbn [jprint app tl0]. apply members_ws.
Qed.

Lemma scan_object_print {A} (field : bytes → A → bytes → option (A * bytes)) fieldT (Hf : ∀ k st, reads (field k st) (fieldT k st)) st v : doc 256 v →
  scan_object field st (jprint v) = match v with JObj l => members fieldT st l | _ => None end.
Proof.
  intros Hv. rewrite <- (app_nil_r (jprint v)). unfold scan_object. rewrite print_ws, print_obj by apply Hv. destruct v as [| | | | |l]; try done.
  cbn [is_obj negb]. cbn [jprint app tl0]. change (λ kv, json_escape kv.1 ++ 58 :: jprint kv.2) with member. rewrite members_ws.
  apply obj_scan_print; [done|by apply doc_obj_weak|]. rewrite length_app. pose proof (members_length l). lia.
Qed.

(** ** One tool *)

(** The first member with a key. *)
Fixpoint first_member (key : bytes) (l : list (bytes * json)) : option json :=
  match l with [] => None | (k, v) :: l' => if bytes_eqb k key then Some v else first_member key l' end.

Lemma function_loop_print l : ∀ fuel, Forall (λ kv, str_ok kv.1 ∧ doc 256 kv.2) l → (length l < fuel)%nat →
  function_loop fuel (join_close 125 (member <$> l) ++ []) = jprint <$> first_member (bs "function") l.
Proof.
  induction l as [|[k v] l IH]; intros fuel Hl Hfuel; destruct fuel as [|fuel]; cbn [length] in Hfuel; try lia; [done|].
  apply Forall_cons in Hl as [[[Hb Hn] Hv] Hl]. rewrite member_text. cbn [fst snd first_member function_loop] in *. rewrite escape_hd. cbn [Z.eqb Pos.eqb orb].
  rewrite json_string_escape by done. cbn [mbind option_bind]. rewrite json_ws_stop by done. cbn [hd0 tl0 Z.eqb Pos.eqb negb].
  pose proof (after_end 125 (member <$> l) [] (or_intror eq_refl)) as He. case_match.
  - by rewrite (reads_raw v _ Hv He).
  - rewrite doc_accepted by done. cbn [mbind option_bind]. rewrite members_skip. apply IH; [done|lia].
Qed.

Definition function_of (v : json) : option json := match v with JObj l => first_member (bs "function") l | _ => None end.

Lemma function_schema_print v : doc 256 v → openai_function_schema_from_tool (jprint v) = jprint <$> function_of v.
Proof.
  intros Hv. rewrite <- (app_nil_r (jprint v)) at 1. unfold openai_function_schema_from_tool. rewrite print_ws, print_obj by apply Hv.
  destruct v as [| | | | |l]; try done. cbn [is_obj negb function_of]. cbn [jprint app tl0]. change (λ kv, json_escape kv.1 ++ 58 :: jprint kv.2) with member.
  rewrite members_ws. apply function_loop_print; [by apply doc_obj_weak|]. rewrite length_app. pose proof (members_length l). lia.
Qed.

(** The names of the properties of a schema, in the order in which it lists them. *)
Fixpoint schema_props (l : list (bytes * json)) : list bytes :=
  match l with
  | [] => []
  | (k, v) :: l' =>
      if bytes_eqb k (bs "properties") then match v with JObj ps => ps.*1 ++ schema_props l' | _ => [] end else schema_props l'
  end.
Definition props_of (v : json) : list bytes := match v with JObj l => schema_props l | _ => [] end.

Lemma props_loop_print l : ∀ props rest fuel, Forall (λ kv, str_ok kv.1 ∧ doc 256 kv.2) l → (length l < fuel)%nat →
  props_loop fuel props (join_close 125 (member <$> l) ++ rest) = (props ++ l.*1, Some (125 :: rest)).
Proof.
  induction l as [|[k v] l IH]; intros props rest fuel Hl Hfuel; destruct fuel as [|fuel]; cbn [length] in Hfuel; try lia; [cbn; by rewrite app_nil_r|].
  apply Forall_cons in Hl as [[[Hb Hn] Hv] Hl]. rewrite member_text. cbn [fst snd props_loop] in *. rewrite escape_hd. cbn [Z.eqb Pos.eqb orb].
  rewrite json_string_escape by done. rewrite json_ws_stop by done. cbn [hd0 tl0 Z.eqb Pos.eqb negb].
  rewrite doc_accepted by (done || by apply after_end; auto). rewrite members_skip, IH by (done || lia). by rewrite <- app_assoc.
Qed.

Lemma schema_loop_print l : ∀ props fuel, Forall (λ kv, str_ok kv.1 ∧ doc 256 kv.2) l → (length l < fuel)%nat →
  (schema_loop fuel props (join_close 125 (member <$> l) ++ [])).1 = props ++ schema_props l.
Proof.
  induction l as [|[k v] l IH]; intros props fuel Hl Hfuel; destruct fuel as [|fuel]; cbn [length] in Hfuel; try lia; [cbn; by rewrite app_nil_r|].
  apply Forall_cons in Hl as [[[Hb Hn] Hv] Hl]. rewrite member_text. cbn [fst snd schema_loop schema_props] in *. rewrite escape_hd. cbn [Z.eqb Pos.eqb orb].
  rewrite json_string_escape by done. rewrite json_ws_stop by done. cbn [hd0 tl0 Z.eqb Pos.eqb negb].
  pose proof (after_end 125 (member <$> l) [] (or_intror eq_refl)) as He. destruct (bytes_eqb k (bs "properties")).
  - rewrite print_ws, print_obj by apply Hv. destruct v as [| | | | |ps]; try exact (eq_sym (app_nil_r props)). cbn [is_obj negb]. cbn [jprint app tl0].
    change (λ kv, json_escape kv.1 ++ 58 :: jprint kv.2) with member. rewrite members_ws. rewrite props_loop_print.
    + cbn [hd0 tl0 Z.eqb Pos.eqb negb]. rewrite members_skip, IH by (done || lia). by rewrite <- app_assoc.
    + by apply doc_obj_weak.
    + rewrite length_app. pose proof (members_length ps). lia.
  - rewrite doc_accepted by done. rewrite members_skip. apply IH; [done|lia].
Qed.

Lemma schema_properties_print v props : doc 256 v → (parse_schema_properties props (jprint v)).1 = props ++ props_of v.
Proof.
  intros Hv. rewrite <- (app_nil_r (jprint v)) at 1. unfold parse_schema_properties. rewrite print_ws, print_obj by apply Hv.
  destruct v as [| | | | |l]; try exact (eq_sym (app_nil_r props)). cbn [is_obj negb props_of]. cbn [jprint app tl0].
  change (λ kv, json_escape kv.1 ++ 58 :: jprint kv.2) with member. rewrite members_ws. apply schema_loop_print; [by apply doc_obj_weak|].
  rewrite length_app. pose proof (members_length l). lia.
Qed.

(** The last member with one of some keys. *)
Definition last_of (keys : list string) (l : list (bytes * json)) : option json :=
  foldl (λ acc kv, if one_of kv.1 keys then Some kv.2 else acc) None l.

Lemma last_of_elem keys l v : last_of keys l = Some v → ∃ k, (k, v) ∈ l.
Proof.
  induction l as [|[k w] l IH] using rev_ind; [done|]. unfold last_of. rewrite foldl_app. cbn [foldl fst snd]. case_match.
  - intros [= ->]. exists k. set_solver.
  - intros [k1 H1]%IH. exists k1. set_solver.
Qed.

(** A local holds what its reader makes of the last of its members. *)
Lemma local_last T x keys g l :
  (∀ k, match T k with Some (y, h) => if decide (x = y) then one_of k keys = true ∧ h = g else one_of k keys = false | None => one_of k keys = false end) →
  local T x l = last_of keys l ≫= g.
Proof.
  intros HT. induction l as [|[k v] l IH] using rev_ind; [done|]. unfold local, last_of. rewrite !foldl_app. cbn [foldl fst snd]. fold (local T x l) (last_of keys l).
  specialize (HT k). destruct (T k) as [[y h]|]; [|by rewrite HT]. destruct (decide (x = y)); [destruct HT as [-> ->]; done|by rewrite HT].
Qed.

(** Which key a table is asked about. *)
Ltac key_cases T := intros k; unfold T; cbn [one_of existsb];
  repeat match goal with |- context [bytes_eqb k ?x] => let E := fresh "E" in destruct (bytes_eqb k x) eqn:E; [apply bytes_eqb_eq in E; subst k|] end;
  try done; vm_compute; done.

(** *** Orders *)

Definition order_member (k : bytes) (st : option bytes * list bytes) (v : json) : option (option bytes * list bytes) :=
  if bytes_eqb k (bs "name") then (λ n, (Some n, st.2)) <$> str_of v
  else if bytes_eqb k (bs "input_schema") || bytes_eqb k (bs "parameters") then Some (st.1, st.2 ++ props_of v)
  else Some st.

(** A schema in the list of tools: its document, the namespace and name of a Responses
    tool, and whether it is the hosted search. *)
Record tool_entry := ToolEntry { te_schema : json; te_namespace : option bytes; te_wire_name : option bytes; te_search : bool }.

Definition order_of (e : tool_entry) : option tool_schema_order :=
  match te_schema e with
  | JObj l =>
      match members order_member (None, []) l with
      | Some (Some name, props) => Some (ToolSchemaOrder (Some name) (not_empty (te_wire_name e)) (not_empty (te_namespace e)) (te_search e) props)
      | _ => None
      end
  | _ => None
  end.

Definition add_entry (acc : tool_list) (e : tool_entry) : tool_list :=
  (append_raw_json_line acc.1 (jprint (te_schema e)),
   match order_of e with Some o => tool_schema_orders_push acc.2 o | None => acc.2 end).

Lemma add_order_print orders e : doc 256 (te_schema e) →
  tool_schema_orders_add_json_wire orders (jprint (te_schema e)) (te_namespace e) (te_wire_name e) (te_search e)
  = match order_of e with Some o => tool_schema_orders_push orders o | None => orders end.
Proof.
  intros He. unfold tool_schema_orders_add_json_wire, order_of. rewrite (scan_object_print order_field order_member); [|clear|done].
  - destruct (te_schema e) as [| | | | |l]; try done. by destruct (members order_member (None, []) l) as [[[n|] ps]|].
  - intros k st. unfold order_field, order_member. case_match; [exact (reads_map _ _ (λ n, (Some n, st.2)) reads_string)|]. case_match; [|apply reads_skip].
    intros v rest Hv Hr. rewrite reads_raw by done. fmap_some. by rewrite schema_properties_print.
Qed.

(** *** Schemas that are built *)

Definition empty_params_json : json := JObj [key "type" (jtext "object"); key "properties" (JObj [])].
Definition schema_json (name description : bytes) (parameters : json) : json :=
  JObj [key "name" (JStr name); key "description" (JStr description); key "parameters" parameters].

Lemma empty_params_print : empty_parameters = jprint empty_params_json.
Proof. reflexivity. Qed.

Lemma schema_print name description p : schema_text name description (jprint p) = jprint (schema_json name description p).
Proof.
  unfold schema_text, schema_json. cbn [jprint fmap list_fmap join_close fst snd key]. generalize (json_escape name), (json_escape description), (jprint p).
  intros a b c. repeat first [rewrite <- app_comm_cons|rewrite <- app_assoc]. reflexivity.
Qed.

(** The parameters a tool has, or none. *)
Definition params_of (keys : list string) (l : list (bytes * json)) : json := default empty_params_json (last_of keys l).
Definition text_or (d : bytes) (v : option json) : bytes := default d (v ≫= str_of).

Lemma params_print keys l : default empty_parameters (last_of keys l ≫= λ v, Some (jprint v)) = jprint (params_of keys l).
Proof. unfold params_of. by destruct (last_of keys l). Qed.

Definition special_tree : tree_table := λ key,
  if bytes_eqb key (bs "type") then Some ("type", str_of)
  else if bytes_eqb key (bs "description") then Some ("description", str_of)
  else if bytes_eqb key (bs "parameters") then Some ("parameters", λ v, Some (jprint v))
  else None.

Definition namespace_function_tree : tree_table := λ key,
  if bytes_eqb key (bs "type") then Some ("type", str_of)
  else if bytes_eqb key (bs "name") then Some ("name", str_of)
  else if bytes_eqb key (bs "description") then Some ("description", str_of)
  else if bytes_eqb key (bs "parameters") || bytes_eqb key (bs "input_schema") then Some ("parameters", λ v, Some (jprint v))
  else None.

Definition namespace_tree : tree_table := λ key,
  if bytes_eqb key (bs "type") then Some ("type", str_of)
  else if bytes_eqb key (bs "name") then Some ("name", str_of)
  else if bytes_eqb key (bs "tools") then Some ("tools", λ v, Some (jprint v))
  else None.

Create HintDb reads.
#[export] Hint Resolve reads_string reads_raw reads_content reads_bool reads_number reads_int : reads.

Ltac solve_table := intros k; repeat match goal with |- context [if ?b then _ else _] => destruct b end; try exact I; (split; [reflexivity|auto with reads]).

Lemma special_reads : table_reads special_table special_tree.
Proof. unfold special_table, special_tree. solve_table. Qed.
Lemma namespace_function_reads : table_reads namespace_function_table namespace_function_tree.
Proof. unfold namespace_function_table, namespace_function_tree. solve_table. Qed.
Lemma namespace_reads : table_reads namespace_table namespace_tree.
Proof. unfold namespace_table, namespace_tree. solve_table. Qed.

(** The hosted search tool. *)
Definition search_of (v : json) : option json :=
  match v with
  | JObj l =>
      if forallb (readable special_tree) l && bool_decide ((last_of ["type"] l ≫= str_of) = Some (bs "tool_search"))
      then Some (schema_json (bs "tool_search") (text_or (bs "Search available tools.") (last_of ["description"] l)) (params_of ["parameters"] l))
      else None
  | _ => None
  end.

(** A function of a namespace: its schema under the qualified name, and its own name. *)
Definition namespace_function (namespace : bytes) (v : json) : option (json * bytes) :=
  match v with
  | JObj l =>
      match last_of ["name"] l ≫= str_of with
      | Some (c :: n) =>
          if forallb (readable namespace_function_tree) l
             && bool_decide ((last_of ["type"] l ≫= str_of) = None ∨ (last_of ["type"] l ≫= str_of) = Some (bs "function"))
          then Some (schema_json (namespace ++ c :: n) (text_or [] (last_of ["description"] l)) (params_of ["parameters"; "input_schema"] l), c :: n)
          else None
      | _ => None
      end
  | _ => None
  end.

Definition function_entry (namespace : bytes) (v : json) : option tool_entry :=
  '(schema, wire) ← namespace_function namespace v; Some (ToolEntry schema (Some namespace) (Some wire) false).

Definition namespace_entries (v : json) : list tool_entry :=
  match v with
  | JObj l =>
      match last_of ["name"] l ≫= str_of, last_of ["tools"] l with
      | Some name, Some (JArr tools) =>
          if forallb (readable namespace_tree) l && bool_decide ((last_of ["type"] l ≫= str_of) = Some (bs "namespace"))
          then omap (function_entry name) tools else []
      | _, _ => []
      end
  | _ => []
  end.

(** The schemas a tool stands for. *)
Definition tool_entries (v : json) : list tool_entry :=
  match function_of v with
  | Some f => [ToolEntry f None None false]
  | None =>
      match namespace_entries v with
      | [] => [match search_of v with Some s => ToolEntry s None None true | None => ToolEntry v None None false end]
      | es => es
      end
  end.

Definition tools_of (orders : list tool_schema_order) (v : json) : option tool_list :=
  match v with
  | JNull => Some ([], orders)
  | JArr tools => Some (foldl add_entry ([], orders) (tools ≫= tool_entries))
  | _ => None
  end.

(** ** The parser gives what the document says *)

Lemma readable_docs keys l v : doc 256 (JObj l) → last_of keys l = Some v → doc 255 v.
Proof. intros Hd [k Hk]%last_of_elem. apply doc_obj_inv in Hd. by apply (proj1 (List.Forall_forall _ _) Hd (k, v)), list_elem_of_In. Qed.

Lemma params_doc keys l : doc 256 (JObj l) → doc 255 (params_of keys l).
Proof.
  intros Hd. unfold params_of. destruct (last_of keys l) as [v|] eqn:E; [by eapply readable_docs|]. cbn [default]. unfold empty_params_json. solve_doc.
Qed.

Lemma text_ok d keys l : doc 256 (JObj l) → str_ok d → str_ok (text_or d (last_of keys l)).
Proof.
  intros Hd Hok. unfold text_or. destruct (last_of keys l) as [v|] eqn:E; [|done]. apply (readable_docs keys l v Hd) in E as [Hv _].
  destruct v; try done. cbn. by inversion Hv.
Qed.

Lemma str_member_ok keys l s : doc 256 (JObj l) → last_of keys l ≫= str_of = Some s → str_ok s.
Proof.
  intros Hd. destruct (last_of keys l) as [v|] eqn:E; [|done]. apply (readable_docs keys l v Hd) in E as [Hv _]. destruct v; try done.
  cbn. intros [= ->]. by inversion Hv.
Qed.

Lemma schema_doc name description p : str_ok name → str_ok description → doc 255 p → doc 256 (schema_json name description p).
Proof. intros Hn Hd Hp. assert (doc (256 - 1) p) by exact Hp. unfold schema_json. solve_doc. Qed.

(** The locals of one object, by the last members. *)
Lemma scan_locals table T l : table_reads table T → doc 256 (JObj l) →
  if forallb (readable T) l then ∃ w, scan_object (local_field table) ∅ (jprint (JObj l)) = Some w ∧ ∀ x, w !! x = local T x l
  else scan_object (local_field table) ∅ (jprint (JObj l)) = None.
Proof.
  intros HT Hd. rewrite (scan_object_print _ (local_member T)); [|intros; by apply reads_local|done].
  pose proof (members_locals T l) as H. destruct (members (local_member T) ∅ l) as [w|]; [|by rewrite H]. destruct H as [-> H]. eauto.
Qed.

Lemma scan_locals_other table T v : table_reads table T → doc 256 v → is_obj v = false → scan_object (local_field table) ∅ (jprint v) = None.
Proof. intros HT Hd Hv. rewrite (scan_object_print _ (local_member T)); [|intros; by apply reads_local|done]. by destruct v. Qed.

Lemma search_print v : doc 256 v → responses_special_schema_from_tool (jprint v) = jprint <$> search_of v.
Proof.
  intros Hd. unfold responses_special_schema_from_tool. destruct (is_obj v) eqn:Eo.
  2: { rewrite (scan_locals_other _ _ _ special_reads Hd Eo). by destruct v. }
  destruct v as [| | | | |l]; try done. pose proof (scan_locals _ _ l special_reads Hd) as H. unfold search_of.
  destruct (forallb (readable special_tree) l); [|by rewrite H]. destruct H as (w & -> & Hw). cbn [mbind option_bind andb]. rewrite !Hw.
  rewrite (local_last special_tree "type" ["type"] str_of) by key_cases special_tree. rewrite (local_last special_tree "description" ["description"] str_of) by key_cases special_tree.
  rewrite (local_last special_tree "parameters" ["parameters"] (λ v, Some (jprint v))) by key_cases special_tree.
  rewrite params_print, schema_print. by destruct (decide _) as [E|E]; [rewrite (bool_decide_eq_true_2 _ E)|rewrite (bool_decide_eq_false_2 _ E)].
Qed.

Lemma namespace_function_print namespace v : doc 256 v →
  responses_namespace_function_schema_from_tool (jprint v) namespace = (λ e, (jprint e.1, e.2)) <$> namespace_function namespace v.
Proof.
  intros Hd. unfold responses_namespace_function_schema_from_tool. destruct (is_obj v) eqn:Eo.
  2: { rewrite (scan_locals_other _ _ _ namespace_function_reads Hd Eo). by destruct v. }
  destruct v as [| | | | |l]; try done. pose proof (scan_locals _ _ l namespace_function_reads Hd) as H. unfold namespace_function.
  destruct (forallb (readable namespace_function_tree) l).
  2: { rewrite H. cbn [mbind option_bind]. by destruct (last_of ["name"] l ≫= str_of) as [[|]|]. }
  destruct H as (w & -> & Hw). cbn [mbind option_bind andb]. rewrite !Hw.
  rewrite (local_last namespace_function_tree "type" ["type"] str_of) by key_cases namespace_function_tree. rewrite (local_last namespace_function_tree "name" ["name"] str_of) by key_cases namespace_function_tree.
  rewrite (local_last namespace_function_tree "description" ["description"] str_of) by key_cases namespace_function_tree.
  rewrite (local_last namespace_function_tree "parameters" ["parameters"; "input_schema"] (λ v, Some (jprint v))) by key_cases namespace_function_tree.
  rewrite params_print. destruct (last_of ["name"] l ≫= str_of) as [[|c n]|]; try done. rewrite schema_print.
  by destruct (decide _) as [E|E]; [rewrite (bool_decide_eq_true_2 _ E)|rewrite (bool_decide_eq_false_2 _ E)].
Qed.

Lemma function_entry_doc namespace v e : doc 256 v → str_ok namespace → function_entry namespace v = Some e → doc 256 (te_schema e).
Proof.
  intros Hd Hns. unfold function_entry, namespace_function. destruct v as [| | | | |l]; try done.
  destruct (last_of ["name"] l ≫= str_of) as [[|c n]|] eqn:En; try done. case_match; [|done]. cbn. intros [= <-]. cbn [te_schema].
  apply schema_doc; [|by apply text_ok; [|apply str_ok_nil]|by apply params_doc]. apply str_ok_app; [done|]. by apply (str_member_ok ["name"] l).
Qed.

Definition add_entries (acc : tool_list) (es : list tool_entry) : tool_list := foldl add_entry acc es.

Lemma namespace_loop_print name tools : str_ok name → ∀ acc b fuel, Forall (doc 256) tools → (length tools < fuel)%nat →
  namespace_loop fuel name (acc, b) (join_close 93 (jprint <$> tools) ++ [])
  = (add_entries acc (omap (function_entry name) tools), b || negb (length (omap (function_entry name) tools) =? 0)%nat).
Proof.
  intros Hname. induction tools as [|v tools IH]; intros acc b fuel Ht Hfuel; destruct fuel as [|fuel]; cbn [length] in Hfuel; try lia; [by rewrite orb_false_r|].
  apply Forall_cons in Ht as [Hv Ht]. rewrite fmap_cons, join_cons, <- app_assoc. cbn [namespace_loop].
  rewrite (print_hd 93 v), (print_hd 0 v) by (apply Hv || auto 6). cbn [Z.eqb Pos.eqb orb].
  rewrite (reads_raw v _ Hv (after_end 93 (jprint <$> tools) [] (or_introl eq_refl))). fmap_some. rewrite elements_skip by done.
  rewrite namespace_function_print by done. cbn [omap list_omap]. pose proof (λ e, function_entry_doc name v e Hv Hname) as He. unfold function_entry in He at 1.
  change (function_entry name v) with ('(schema, wire) ← namespace_function name v; Some (ToolEntry schema (Some name) (Some wire) false)).
  destruct (namespace_function name v) as [[schema wire]|]; [|by apply IH; [|lia]]. fmap_some. cbn [fst snd] in *. specialize (He _ eq_refl).
  rewrite IH by (done || lia). cbn [length Nat.eqb negb]. rewrite orb_true_r. f_equal. unfold add_entries. cbn [foldl]. f_equal.
  unfold add_entry. cbn [te_schema]. by rewrite <- (add_order_print acc.2 (ToolEntry schema (Some name) (Some wire) false)).
Qed.

Lemma namespace_print acc v : doc 256 v →
  append_responses_namespace_tool_schemas acc (jprint v)
  = (add_entries acc (namespace_entries v), negb (length (namespace_entries v) =? 0)%nat).
Proof.
  intros Hd. unfold append_responses_namespace_tool_schemas. destruct (is_obj v) eqn:Eo.
  2: { rewrite (scan_locals_other _ _ _ namespace_reads Hd Eo). by destruct v. }
  destruct v as [| | | | |l]; try done. pose proof (scan_locals _ _ l namespace_reads Hd) as H. unfold namespace_entries.
  destruct (forallb (readable namespace_tree) l).
  2: { rewrite H. destruct (last_of ["name"] l ≫= str_of), (last_of ["tools"] l) as [[]|]; done. }
  destruct H as (w & -> & Hw). cbn [andb]. rewrite !Hw.
  rewrite (local_last namespace_tree "type" ["type"] str_of) by key_cases namespace_tree. rewrite (local_last namespace_tree "name" ["name"] str_of) by key_cases namespace_tree.
  rewrite (local_last namespace_tree "tools" ["tools"] (λ v, Some (jprint v))) by key_cases namespace_tree.
  destruct (last_of ["name"] l ≫= str_of) as [name|] eqn:En; [|done]. destruct (last_of ["tools"] l) as [t|] eqn:Et; [|done]. cbn [mbind option_bind].
  pose proof (readable_docs _ _ _ Hd Et) as Ht. apply (str_member_ok _ _ _ Hd) in En. destruct (decide _) as [E|E].
  2: { rewrite (bool_decide_eq_false_2 _ E). by destruct t. }
  rewrite (bool_decide_eq_true_2 _ E). rewrite <- (app_nil_r (jprint t)). rewrite print_ws, print_arr by apply Ht. destruct t as [| | | |tools|]; try done.
  cbn [is_arr negb]. cbn [jprint app tl0]. assert (Forall (doc 256) tools) as Hts by (apply doc_arr_weak; by eapply doc_mono).
  rewrite elements_ws by done. rewrite namespace_loop_print; [done|done|done|]. rewrite length_app. pose proof (elements_length tools Hts). lia.
Qed.

Lemma first_member_elem k l v : first_member k l = Some v → ∃ k', (k', v) ∈ l.
Proof.
  induction l as [|[k' w] l IH]; [done|]. cbn. case_match; [intros [= ->]; exists k'; set_solver|]. intros [k1 H1]%IH. exists k1. set_solver.
Qed.

Lemma add_tool_print acc v : doc 256 v → add_tool acc (jprint v) = add_entries acc (tool_entries v).
Proof.
  intros Hd. unfold add_tool, tool_entries. rewrite function_schema_print by done. destruct (function_of v) as [f|] eqn:Ef.
  - fmap_some. cbn. unfold add_entry, tool_schema_orders_add_json. cbn [te_schema].
    assert (doc 256 f) as Hf.
    { destruct v as [| | | | |l]; try done. apply first_member_elem in Ef as [k Hk]. apply doc_obj_weak in Hd.
      by apply (proj1 (List.Forall_forall _ _) Hd (k, f)), list_elem_of_In. }
    by rewrite <- (add_order_print acc.2 (ToolEntry f None None false)).
  - rewrite namespace_print by done. cbn [fmap option_fmap option_map]. destruct (namespace_entries v) as [|e es]; [|done]. cbn [length Nat.eqb negb add_entries foldl].
    rewrite search_print by done. destruct (search_of v) as [sv|] eqn:Es; fmap_some; cbn [fmap option_fmap option_map].
    + assert (doc 256 sv) as Hs.
      { destruct v as [| | | | |l]; try done. unfold search_of in Es. case_match; [|done]. injection Es as <-.
        apply schema_doc; [by apply bs_str_ok|by apply text_ok; [|apply bs_str_ok]|by apply params_doc]. }
      unfold add_entry. cbn [te_schema]. by rewrite <- (add_order_print acc.2 (ToolEntry sv None None true)).
    + unfold add_entry, tool_schema_orders_add_json. cbn [te_schema]. by rewrite <- (add_order_print acc.2 (ToolEntry v None None false)).
Qed.

Lemma reads_tools orders : reads (parse_tools_value orders) (tools_of orders).
Proof.
  past_ws parse_tools_value. eapply reads_ext.
  - apply reads_or_null. apply reads_array with (elemT := λ acc v, Some (add_entries acc (tool_entries v))). intros acc v rest Hv Hr. unfold tools_elem.
    rewrite reads_raw by done. fmap_some. by rewrite add_tool_print.
  - intros [| | | |tools|]; try done. cbn [is_null tools_of]. generalize (@nil Z, orders). clear orders. intros acc. revert acc.
    induction tools as [|v tools IH]; intros acc; [done|]. cbn [elements mbind option_bind]. rewrite IH. by rewrite bind_cons, foldl_app.
Qed.

(** C31. The tools of a request: whatever the tools are as JSON documents, plain functions,
    functions inside an OpenAI tool, namespaces of functions or the search tool, in any
    order of their members, the schemas of the prompt are those of the entries, a line
    each, and the order of the properties of every named entry is that of its schema. *)
Theorem declared_tools_exact orders v rest (Hd : doc 256 v) (Hr : value_end rest) :
  parse_tools_value orders (jprint v ++ rest) = (λ t, (t, rest)) <$> tools_of orders v.
Proof. by apply reads_tools. Qed.

(** An OpenAI tool and a namespace with one function. *)
Definition two_tools : json :=
  JArr [JObj [key "type" (jtext "function"); key "function" (JObj [key "name" (jtext "ls"); key "parameters" (JObj [key "properties" (JObj [key "path" (JObj []); key "all" (JObj [])])])])];
        JObj [key "type" (jtext "namespace"); key "name" (jtext "git."); key "tools" (JArr [JObj [key "name" (jtext "log")]])]].

Lemma declared_tools_exact_witness : doc 256 two_tools ∧ value_end []
  ∧ ∃ text, parse_tools_value [] (jprint two_tools ++ []) = Some (text,
      [ToolSchemaOrder (Some (bs "ls")) None None false [bs "path"; bs "all"]; ToolSchemaOrder (Some (bs "git.log")) (Some (bs "log")) (Some (bs "git.")) false []], []).
Proof.
  assert (doc 256 two_tools) as Hd by (unfold two_tools; solve_doc). split_and!; [exact Hd|done|].
  rewrite (declared_tools_exact [] two_tools [] Hd I). eexists. vm_compute. reflexivity.
Defined.
