(* ===== verification/ClientInput.v ===== *)
(** * Conversations of the Anthropic and Responses formats

    Model of the parsers of [engine/src/server.c] that turn the content blocks of the
    Messages format and the input items of the Responses format into chat messages:
    [parse_anthropic_content_block], [parse_anthropic_content],
    [parse_anthropic_messages], [parse_anthropic_system],
    [parse_responses_content_array], [parse_responses_input] and
    [parse_responses_reasoning]. *)
From S2P Require Import Prelude CLib Json Request ToolText Prompt ToolSchemas.

(** ** Changing one part of a message *)

Definition set_role (v : option bytes) (m : chat_msg) : chat_msg :=
  ChatMsg v (msg_content m) (msg_reasoning m) (msg_tool_call_id m) (msg_tool_call_ids m) (msg_calls m) (msg_raw_tool_text m).
Definition set_content (v : option bytes) (m : chat_msg) : chat_msg :=
  ChatMsg (msg_role m) v (msg_reasoning m) (msg_tool_call_id m) (msg_tool_call_ids m) (msg_calls m) (msg_raw_tool_text m).
Definition set_reasoning (v : option bytes) (m : chat_msg) : chat_msg :=
  ChatMsg (msg_role m) (msg_content m) v (msg_tool_call_id m) (msg_tool_call_ids m) (msg_calls m) (msg_raw_tool_text m).
Definition push_call (tc : tool_call) (m : chat_msg) : chat_msg :=
  ChatMsg (msg_role m) (msg_content m) (msg_reasoning m) (msg_tool_call_id m) (msg_tool_call_ids m) (msg_calls m ++ [tc]) (msg_raw_tool_text m).

Definition add_content (t : bytes) (m : chat_msg) : chat_msg := set_content (Some (default [] (msg_content m) ++ t)) m.
Definition add_reasoning (t : bytes) (m : chat_msg) : chat_msg := set_reasoning (Some (default [] (msg_reasoning m) ++ t)) m.

(** A message with a role and a content. *)
Definition plain_msg (role content : bytes) : chat_msg := set_role (Some role) (set_content (Some content) chat_msg_zero).

(** ** Anthropic *)

Definition block_table : member_table := λ key,
  if bytes_eqb key (bs "type") then Some ("type", json_string)
  else if bytes_eqb key (bs "text") then Some ("text", json_content)
  else if bytes_eqb key (bs "thinking") then Some ("thinking", json_content)
  else if bytes_eqb key (bs "id") || bytes_eqb key (bs "tool_use_id") then Some ("id", json_string)
  else if bytes_eqb key (bs "name") then Some ("name", json_string)
  else if bytes_eqb key (bs "input") then Some ("input", json_raw_value)
  else if bytes_eqb key (bs "content") then Some ("tool_result", json_content)
  else None.

(** What a block adds to its message. *)
Definition add_block (v : locals) (msg : chat_msg) : chat_msg :=
  if decide (v !! "type" = Some (bs "tool_use")) then
    push_call (ToolCall (v !! "id") (Some (default [] (v !! "name"))) (Some (default (bs "{}") (v !! "input")))) msg
  else if decide (v !! "type" = Some (bs "tool_result")) then
    let msg := chat_msg_add_tool_call_id msg (default [] (v !! "id")) in
    add_content (bs "<tool_result>" ++ append_tool_result_text (v !! "tool_result") ++ bs "</tool_result>") msg
  else
    let msg := match v !! "text" with Some t => add_content t msg | None => msg end in
    match v !! "thinking" with Some t => add_reasoning t msg | None => msg end.

Definition parse_anthropic_content_block (msg : chat_msg) (s : bytes) : option (chat_msg * bytes) :=
  '(v, s) ← json_object (local_field block_table) ∅ s; Some (add_block v msg, s).

Definition anthropic_content_elem (msg : chat_msg) (s : bytes) : option (chat_msg * bytes) :=
  if hd0 s =? 34 then '(t, s) ← json_string s; Some (add_content t msg, s)
  else if hd0 s =? 123 then parse_anthropic_content_block msg s
  else skip_field msg s.

Definition parse_anthropic_content (msg : chat_msg) (s : bytes) : option (chat_msg * bytes) :=
  let s := json_ws s in
  if hd0 s =? 34 then '(t, s) ← json_string s; Some (set_content (Some t) msg, s)
  else match json_lit (bs "null") s with
  | Some r => Some (set_content (Some []) msg, r)
  | None =>
      if negb (hd0 s =? 91) then skip_field msg s
      else
        '(msg, s) ← json_array anthropic_content_elem msg s;
        Some (set_content (Some (default [] (msg_content msg))) msg, s)
  end.

Definition anthropic_message_field (key : bytes) (msg : chat_msg) (s : bytes) : option (chat_msg * bytes) :=
  if bytes_eqb key (bs "role") then '(v, s) ← json_string s; Some (set_role (Some v) msg, s)
  else if bytes_eqb key (bs "content") then parse_anthropic_content (set_content None msg) s
  else skip_field msg s.

Definition complete_message (m : chat_msg) : chat_msg :=
  set_role (Some (default (bs "user") (msg_role m))) (set_content (Some (default [] (msg_content m))) m).

Definition anthropic_message_elem (msgs : list chat_msg) (s : bytes) : option (list chat_msg * bytes) :=
  '(m, s) ← json_object anthropic_message_field chat_msg_zero s; Some (msgs ++ [complete_message m], s).

Definition parse_anthropic_messages (msgs : list chat_msg) (s : bytes) : option (list chat_msg * bytes) :=
  json_array anthropic_message_elem msgs (json_ws s).

Definition anthropic_system_part_is_private (s : bytes) : bool := bytes_eqb (take 12 s) (bs "x-anthropic-").

Definition append_anthropic_system_part (b s : bytes) : bytes :=
  match s with
  | [] => b
  | _ =>
      if anthropic_system_part_is_private s then b
      else (match last b with Some c => if c =? 10 then b else b ++ [10] | None => b end) ++ s
  end.

Definition system_object_field (key b s : bytes) : option (bytes * bytes) :=
  if bytes_eqb key (bs "text") then '(t, s) ← json_string s; Some (append_anthropic_system_part b t, s) else skip_field b s.

Definition parse_anthropic_system_object (b s : bytes) : option (bytes * bytes) := json_object system_object_field b s.

Definition system_elem (b s : bytes) : option (bytes * bytes) :=
  if hd0 s =? 34 then '(t, s) ← json_string s; Some (append_anthropic_system_part b t, s)
  else if hd0 s =? 123 then parse_anthropic_system_object b s
  else skip_field b s.

Definition parse_anthropic_system (s : bytes) : option (bytes * bytes) :=
  let s := json_ws s in
  if hd0 s =? 34 then '(t, s) ← json_string s; Some (append_anthropic_system_part [] t, s)
  else match json_lit (bs "null") s with
  | Some r => Some ([], r)
  | None =>
      if negb (hd0 s =? 91) then skip_field [] s
      else json_array system_elem [] s
  end.

(** ** Responses *)

Definition string_or_null (s : bytes) : option (bytes * bytes) :=
  let s := json_ws s in
  match json_lit (bs "null") s with Some r => Some ([], r) | None => json_string s end.

Definition text_table : member_table := λ key,
  if bytes_eqb key (bs "type") then Some ("type", json_string)
  else if bytes_eqb key (bs "text") then Some ("text", string_or_null)
  else None.

Definition text_types : list string := ["input_text"; "output_text"; "text"; "summary_text"; "reasoning_text"].

Definition responses_content_elem (b s : bytes) : option (bytes * bytes) :=
  if hd0 s =? 34 then '(t, s) ← json_string s; Some (b ++ t, s)
  else if hd0 s =? 123 then
    '(v, s) ← json_object (local_field text_table) ∅ s;
    type ← v !! "type";
    text ← v !! "text";
    if one_of type text_types then Some (b ++ text, s) else None
  else None.

Definition parse_responses_content_array (s : bytes) : option (bytes * bytes) :=
  let s := json_ws s in
  if hd0 s =? 34 then json_string s
  else match json_lit (bs "null") s with
  | Some r => Some ([], r)
  | None => json_array responses_content_elem [] s
  end.

Definition output_value (s : bytes) : option (bytes * bytes) :=
  let s := json_ws s in if hd0 s =? 91 then parse_responses_content_array s else string_or_raw s.

Definition item_table : member_table := λ key,
  if bytes_eqb key (bs "type") then Some ("type", json_string)
  else if bytes_eqb key (bs "role") then Some ("role", json_string)
  else if bytes_eqb key (bs "content") then Some ("content", parse_responses_content_array)
  else if bytes_eqb key (bs "name") then Some ("name", json_string)
  else if bytes_eqb key (bs "namespace") then Some ("namespace", json_string)
  else if bytes_eqb key (bs "call_id") then Some ("call_id", json_string)
  else if bytes_eqb key (bs "id") then Some ("item_id", json_string)
  else if bytes_eqb key (bs "arguments") then Some ("arguments", string_or_raw)
  else if bytes_eqb key (bs "output") then Some ("output", output_value)
  else if bytes_eqb key (bs "input") then Some ("input_str", string_or_raw)
  else if bytes_eqb key (bs "summary") then Some ("summary", parse_responses_content_array)
  else if bytes_eqb key (bs "action") then Some ("action", json_raw_value)
  else if bytes_eqb key (bs "result") then Some ("result", string_or_raw)
  else if bytes_eqb key (bs "status") then Some ("status_str", json_string)
  else if bytes_eqb key (bs "tools") then Some ("tools_json", json_raw_value)
  else None.

(** The messages so far, the reasoning that waits for its message, the schemas that
    tool searches loaded, and the orders. *)
Record input_state := InputState {
  in_msgs : list chat_msg;
  in_pending : bytes;
  in_loaded : bytes;
  in_orders : list tool_schema_order;
}.

Definition in_push (m : chat_msg) (st : input_state) : input_state := InputState (in_msgs st ++ [m]) (in_pending st) (in_loaded st) (in_orders st).
Definition in_wait (pending : bytes) (st : input_state) : input_state := InputState (in_msgs st) pending (in_loaded st) (in_orders st).

(** [NULL] unless some reasoning waits. *)
Definition take_pending (st : input_state) : option bytes := match in_pending st with [] => None | r => Some r end.

(** Reasoning that waits becomes an assistant message of its own. *)
Definition flush_pending (st : input_state) : input_state :=
  match in_pending st with
  | [] => st
  | r => in_wait [] (in_push (set_reasoning (Some r) (plain_msg (bs "assistant") [])) st)
  end.

(** A call joins the assistant message before it, or starts one. *)
Definition add_input_call (tc : tool_call) (st : input_state) : input_state :=
  match last (in_msgs st) with
  | Some l =>
      if decide (msg_role l = Some (bs "assistant")) then
        let '(l, pending) :=
          match in_pending st, msg_reasoning l with
          | _ :: _, (None | Some []) => (set_reasoning (Some (in_pending st)) l, [])
          | _, _ => (l, in_pending st)
          end in
        InputState (removelast (in_msgs st) ++ [push_call tc l]) pending (in_loaded st) (in_orders st)
      else in_wait [] (in_push (push_call tc (set_reasoning (take_pending st) (plain_msg (bs "assistant") []))) st)
  | None => in_wait [] (in_push (push_call tc (set_reasoning (take_pending st) (plain_msg (bs "assistant") []))) st)
  end.

Definition call_of_item (v : locals) : bytes := default (default [] (v !! "item_id")) (v !! "call_id").

(** A tool output, bound to the call it names. *)
Definition output_msg (v : locals) (body : bytes) : chat_msg := chat_msg_add_tool_call_id (plain_msg (bs "tool") body) (call_of_item v).

(** A line of reasoning joins what waits. *)
Definition wait_line (line : option bytes) (st : input_state) : input_state :=
  match line with
  | Some (c :: r) => in_wait ((match in_pending st with [] => [] | p => p ++ [10] end) ++ c :: r) st
  | _ => st
  end.

Definition hosted_calls : list string := ["local_shell_call"; "web_search_call"; "tool_search_call"; "image_generation_call"].
Definition hosted_outputs : list string :=
  ["local_shell_call_output"; "web_search_call_output"; "tool_search_output"; "tool_search_call_output"; "image_generation_call_output"].
Definition function_calls : list string := ["function_call"; "custom_tool_call"].
Definition function_outputs : list string := ["function_call_output"; "custom_tool_call_output"].
Definition bookkeeping : list string := ["compaction"; "context_compaction"].

(** The type of an item without one. *)
Definition item_type (v : locals) : bytes := default (bs "message") (v !! "type").

Definition consumes_reasoning (v : locals) : bool :=
  let t := item_type v in
  (bytes_eqb t (bs "message") && bool_decide (v !! "role" = Some (bs "assistant"))) || one_of t function_calls || one_of t hosted_calls.

Definition function_call_of (v : locals) : tool_call :=
  let arguments := default (default (bs "{}") (v !! "input_str")) (v !! "arguments") in
  let name := default [] (v !! "name") in
  let qualified :=
    if bytes_eqb (item_type v) (bs "custom_tool_call") then name
    else match name with [] => name | _ => default [] (v !! "namespace") ++ name end in
  ToolCall (Some (call_of_item v)) (Some qualified) (Some arguments).

Definition hosted_call_of (v : locals) : tool_call :=
  let t := item_type v in
  let name := if bytes_eqb t (bs "tool_search_call") then bs "tool_search" else if bytes_eqb t (bs "local_shell_call") then bs "local_shell" else t in
  ToolCall (Some (call_of_item v)) (Some name)
    (Some (default (default (default (bs "{}") (v !! "input_str")) (v !! "arguments")) (v !! "action"))).

(** The tools a search found join the loaded ones. *)
Definition load_tools (v : locals) (st : input_state) : option input_state :=
  match v !! "tools_json" with
  | Some tools =>
      if bytes_eqb (item_type v) (bs "tool_search_output") then
        '(schemas, orders, _) ← parse_tools_value (in_orders st) tools;
        let loaded := match schemas with [] => in_loaded st | _ => (match in_loaded st with [] => [] | l => l ++ [10] end) ++ schemas end in
        Some (InputState (in_msgs st) (in_pending st) loaded orders)
      else Some st
  | None => Some st
  end.

(** One item that was read whole. *)
Definition add_item (v : locals) (st : input_state) : option input_state :=
  let t := item_type v in
  if negb (match v !! "status_str" with Some (c :: r) => bytes_eqb (c :: r) (bs "completed") | _ => true end) then None
  else
    let st := if consumes_reasoning v || one_of t bookkeeping then st else flush_pending st in
    if bytes_eqb t (bs "message") then
      let m := plain_msg (default (bs "user") (v !! "role")) (default [] (v !! "content")) in
      if decide (msg_role m = Some (bs "assistant")) then Some (in_wait [] (in_push (set_reasoning (take_pending st) m) st))
      else Some (in_push m st)
    else if one_of t function_calls then Some (add_input_call (function_call_of v) st)
    else if one_of t function_outputs then Some (in_push (output_msg v (default [] (v !! "output"))) st)
    else if bytes_eqb t (bs "reasoning") then Some (wait_line (v !! "content") (wait_line (v !! "summary") st))
    else if one_of t hosted_calls then Some (add_input_call (hosted_call_of v) st)
    else if one_of t hosted_outputs then
      st ← load_tools v st;
      Some (in_push (output_msg v (default (default (default [] (v !! "tools_json")) (v !! "result")) (v !! "output"))) st)
    else if one_of t bookkeeping then Some st
    else None.

Definition input_elem (st : input_state) (s : bytes) : option (input_state * bytes) :=
  '(v, s) ← json_object (local_field item_table) ∅ s;
  st ← add_item v st;
  Some (st, s).

Definition parse_responses_input (loaded : bytes) (orders : list tool_schema_order) (s : bytes) : option (input_state * bytes) :=
  '(st, s) ← json_array input_elem (InputState [] [] loaded orders) (json_ws s);
  Some (flush_pending st, s).

(** The effort, whether summaries were asked for, whether an effort was given. *)
Abbreviation reasoning_state := (ds4_think_mode * bool * bool)%type.

Definition responses_reasoning_field (key : bytes) (st : reasoning_state) (s : bytes) : option (reasoning_state * bytes) :=
  let '(effort, summary, seen) := st in
  if bytes_eqb key (bs "effort") then
    let s := json_ws s in
    match json_lit (bs "null") s with
    | Some r => Some (st, r)
    | None => '(effort, s) ← parse_reasoning_effort_value effort s; Some (effort, summary, true, s)
    end
  else if bytes_eqb key (bs "summary") then
    let s := json_ws s in
    match json_lit (bs "null") s with
    | Some r => Some (st, r)
    | None =>
        if hd0 s =? 34 then
          '(mode, s) ← json_string s; Some (effort, summary || one_of mode ["auto"; "concise"; "detailed"], seen, s)
        else skip_field st s
    end
  else skip_field st s.

Definition parse_responses_reasoning (st : reasoning_state) (s : bytes) : option (reasoning_state * bytes) :=
  let s := json_ws s in
  match json_lit (bs "null") s with
  | Some r => Some (st, r)
  | None => if negb (hd0 s =? 123) then skip_field st s else json_object responses_reasoning_field st s
  end.
