(* ===== verification/RequestTree.v ===== *)
(** * Requests on trees

    What the parsers of [Request] and [ClientInput] read from the printed form of a
    document, as functions of its tree. *)
From S2P Require Import Prelude CLib Strtod Json JsonProps JsonSafe Request RequestProps JsonTree ToolText Prompt ToolSchemas ClientInput.
From Stdlib Require Import SpecFloat.

#[local] Opaque json_escape json_string.

(** The cases of a field by its key. *)
Ltac by_key := repeat match goal with |- context [if ?b then _ else _] => lazymatch b with context [bytes_eqb] => destruct b end end.

(** ** Fields *)

Definition effort_of (out : ds4_think_mode) (v : json) : option ds4_think_mode :=
  if is_null v then Some out else str_of v ≫= λ s, parse_reasoning_effort_name (Some s).

Lemma reads_effort out : reads (parse_reasoning_effort_value out) (effort_of out).
Proof. past_ws parse_reasoning_effort_value. apply reads_or_null, reads_then, reads_string. Qed.

Definition thinking_member_of (k : bytes) (enabled : bool) (v : json) : option bool :=
  if bytes_eqb k (bs "type") then
    (λ type, if bytes_eqb type (bs "enabled") then true else if bytes_eqb type (bs "disabled") then false else enabled) <$> str_of v
  else Some enabled.

Definition thinking_of (enabled : bool) (v : json) : option bool :=
  match v with
  | JBool b => Some b
  | JObj l => members thinking_member_of enabled l
  | _ => Some enabled
  end.

Lemma reads_thinking enabled : reads (parse_thinking_control_value enabled) (thinking_of enabled).
Proof.
  past_ws parse_thinking_control_value. eapply reads_ext.
  - apply reads_or_null. instantiate (1 := λ v, match v with JBool b => Some b | _ => thinking_of enabled v end). intros v rest Hv Hr.
    assert ((hd0 (jprint v ++ rest) =? 116) || (hd0 (jprint v ++ rest) =? 102) = match v with JBool _ => true | _ => false end) as ->.
    { destruct v as [|b|neg d| | |]; try destruct b; try done. destruct (num_hd neg d rest (json_ok_num_inv _ _ (proj1 Hv))) as (x & r & -> & Hx). cbn [hd0].
      destruct (Z.eqb_spec x 116), (Z.eqb_spec x 102); try done; lia. }
    destruct v as [|b|neg d|s|l|l]; try (rewrite print_obj by apply Hv; cbn [is_obj negb]; by apply reads_skip); [by apply (reads_bool (JBool b))|].
    rewrite print_obj by apply Hv. cbn [is_obj negb]. apply (reads_object thinking_field thinking_member_of); [|done|done].
    intros k st. unfold thinking_field, thinking_member_of. by_key; [apply reads_map, reads_string|apply reads_skip].
  - by intros [].
Qed.

Definition output_config_member (k : bytes) (effort : ds4_think_mode) (v : json) : option ds4_think_mode :=
  if bytes_eqb k (bs "effort") then effort_of effort v else Some effort.
Definition output_config_of (effort : ds4_think_mode) (v : json) : option ds4_think_mode :=
  match v with JObj l => members output_config_member effort l | _ => Some effort end.

Lemma reads_output_config effort : reads (parse_output_config_effort effort) (output_config_of effort).
Proof.
  past_ws parse_output_config_effort. eapply reads_ext.
  - apply reads_or_null, reads_unless_obj; [apply reads_skip|]. apply reads_object with (fieldT := output_config_member). intros k st.
    unfold output_config_field, output_config_member. by_key; [apply reads_effort|apply reads_skip].
  - by intros [].
Qed.

Definition stop_elem_of (stops : stop_list) (v : json) : option stop_list :=
  Some (match v with JStr s => stop_list_push stops s | _ => stops end).
Definition stops_of (v : json) : option stop_list :=
  match v with
  | JStr s => Some (stop_list_push (StopList [] 0) s)
  | JArr l => elements stop_elem_of (StopList [] 0) l
  | _ => Some (StopList [] 0)
  end.

Lemma reads_stop out : reads (parse_stop out) stops_of.
Proof.
  past_ws parse_stop. eapply reads_ext.
  - apply reads_if_str; [apply reads_map, reads_string|]. apply reads_unless_arr; [apply reads_skip|]. apply reads_array with (elemT := stop_elem_of). intros st.
    eapply reads_ext; [apply reads_if_str; [apply reads_map, reads_string|apply reads_skip]|by intros []].
  - by intros [].
Qed.

Definition usage_member (k : bytes) (b : bool) (v : json) : option bool := if bytes_eqb k (bs "include_usage") then bool_of v else Some b.
Definition stream_options_of (b : bool) (v : json) : option bool := match v with JObj l => members usage_member b l | _ => Some b end.

Lemma reads_stream_options b : reads (parse_stream_options b) (stream_options_of b).
Proof.
  past_ws parse_stream_options. eapply reads_ext.
  - apply reads_unless_obj; [apply reads_skip|]. apply reads_object with (fieldT := usage_member). intros k st.
    unfold stream_options_field, usage_member. by_key; [apply reads_bool|apply reads_skip].
  - by intros [].
Qed.

(** The first element of an array stands for all of it. *)
Definition prompt_of (v : json) : option bytes :=
  match v with
  | JStr s => Some s
  | JArr (JStr s :: _) => Some s
  | _ => Some []
  end.

Lemma prompt_rest_print l rest : ∀ fuel, Forall (doc 256) l → (length l < fuel)%nat →
  prompt_rest fuel (after_value 93 (jprint <$> l) ++ rest) = Some (93 :: rest).
Proof.
  induction l as [|v l IH]; intros fuel Hl Hf; destruct fuel as [|fuel]; cbn [length] in Hf; try lia; [done|]. apply Forall_cons in Hl as [Hv Hl].
  rewrite fmap_cons. unfold after_value. rewrite join_cons. cbn [prompt_rest app hd0 tl0]. rewrite json_ws_stop by done. cbn [hd0 tl0 Z.eqb Pos.eqb orb].
  rewrite <- app_assoc, doc_accepted by (done || by apply after_end; auto). cbn [mbind option_bind]. apply IH; [done|lia].
Qed.

Lemma reads_prompt : reads parse_prompt prompt_of.
Proof.
  intros v rest Hv Hr. unfold parse_prompt. rewrite print_ws, print_str, print_arr by apply Hv.
  destruct v as [| | |s|l|]; cbn [is_str is_arr negb]; try (by rewrite doc_accepted); [by apply (reads_string (JStr s))|].
  apply doc_arr_weak in Hv. cbn [jprint app tl0]. rewrite elements_ws by done. destruct Hv as [|v l Hv Hl]; [done|].
  rewrite fmap_cons, join_cons, <- app_assoc, print_str, (print_hd 0 v), (print_hd 93 v) by (apply Hv || auto 6). cbn [Z.eqb Pos.eqb negb andb].
  pose proof (after_end 93 (jprint <$> l) rest (or_introl eq_refl)) as He.
  assert ((length l < S (length (after_value 93 (jprint <$> l) ++ rest)))%nat) as Hlen.
  { pose proof (elements_length l Hl). rewrite length_app. unfold after_value. destruct (jprint <$> l) as [|x y] eqn:E; [destruct l; [cbn; lia|done]|cbn [length] in *; lia]. }
  assert ((if is_str v then json_string (jprint v ++ after_value 93 (jprint <$> l) ++ rest)
           else s ← json_skip_value (jprint v ++ after_value 93 (jprint <$> l) ++ rest); Some ([], s))
    = Some (match v with JStr s => s | _ => [] end, after_value 93 (jprint <$> l) ++ rest)) as ->.
  { destruct v; cbn [is_str]; try (by rewrite doc_accepted). by rewrite reads_string. }
  cbn [mbind option_bind]. rewrite prompt_rest_print by done. cbn [mbind option_bind hd0 tl0 Z.eqb Pos.eqb negb]. by destruct v.
Qed.

(** ** Chat messages *)

(** A value that is a string, or its text. *)
Definition str_or_text (v : json) : option bytes := Some (match v with JStr s => s | _ => jprint v end).

Lemma reads_string_or_raw : reads string_or_raw str_or_text.
Proof. past_ws string_or_raw. eapply reads_ext; [apply reads_if_str; [apply reads_string|apply reads_raw]|by intros []]. Qed.

Definition function_member (k : bytes) (tc : tool_call) (v : json) : option tool_call :=
  if bytes_eqb k (bs "name") then (λ n, ToolCall (tc_id tc) (Some n) (tc_arguments tc)) <$> str_of v
  else if bytes_eqb k (bs "arguments") then (λ a, ToolCall (tc_id tc) (tc_name tc) (Some a)) <$> str_or_text v
  else Some tc.
Definition call_member (k : bytes) (tc : tool_call) (v : json) : option tool_call :=
  if bytes_eqb k (bs "id") then (λ i, ToolCall (Some i) (tc_name tc) (tc_arguments tc)) <$> str_of v
  else if bytes_eqb k (bs "function") then match v with JObj l => members function_member tc l | _ => None end
  else Some tc.

(** A call without a name or arguments is left out. *)
Definition keep_call (calls : list tool_call) (tc : tool_call) : list tool_call :=
  match tc_name tc, tc_arguments tc with Some _, Some _ => calls ++ [tc] | _, _ => calls end.
Definition call_elem_of (calls : list tool_call) (v : json) : option (list tool_call) :=
  match v with JObj l => keep_call calls <$> members call_member tool_call_zero l | _ => None end.
Definition calls_of (v : json) : option (list tool_call) :=
  match v with JNull => Some [] | JArr l => elements call_elem_of [] l | _ => None end.

Lemma reads_function tc : reads (parse_function_call tc) (λ v, match v with JObj l => members function_member tc l | _ => None end).
Proof.
  past_ws parse_function_call. apply reads_object. intros k st. unfold function_call_field, function_member. by_key; [| |apply reads_skip].
  - unfold json_string_replace. intros v rest Hv Hr. rewrite reads_string by done. by destruct (str_of v).
  - intros v rest Hv Hr. rewrite print_ws, print_str by apply Hv. unfold json_string_replace, json_raw_value_replace.
    destruct v as [| | |s| |]; cbn [is_str]; try (rewrite reads_raw by done; reflexivity). by rewrite reads_string.
Qed.

Lemma reads_calls : reads (parse_tool_calls_value []) calls_of.
Proof.
  past_ws parse_tool_calls_value. eapply reads_ext.
  - apply reads_or_null, reads_array with (elemT := call_elem_of). intros calls. eapply reads_ext.
    + unfold tool_calls_elem. eapply (reads_map _ _ (keep_call calls)), reads_object with (fieldT := call_member). intros k st.
      unfold tool_call_field, call_member. by_key; [|apply reads_function|apply reads_skip].
      unfold json_string_replace. intros v rest Hv Hr. rewrite reads_string by done. by destruct (str_of v).
    + by intros [].
  - by intros [].
Qed.

Definition message_member (k : bytes) (m : chat_msg) (v : json) : option chat_msg :=
  if bytes_eqb k (bs "role") then (λ t, set_role (Some t) m) <$> str_of v
  else if bytes_eqb k (bs "content") then (λ t, set_content (Some t) m) <$> text_of v
  else if bytes_eqb k (bs "reasoning_content") then (λ t, set_reasoning (Some t) m) <$> text_of v
  else if bytes_eqb k (bs "tool_call_id") then chat_msg_add_tool_call_id m <$> str_of v
  else if bytes_eqb k (bs "tool_calls") then
    (λ calls, ChatMsg (msg_role m) (msg_content m) (msg_reasoning m) (msg_tool_call_id m) (msg_tool_call_ids m) calls None) <$> calls_of v
  else Some m.
Definition message_elem_of (msgs : list chat_msg) (v : json) : option (list chat_msg) :=
  match v with JObj l => (λ m, msgs ++ [complete_message m]) <$> members message_member chat_msg_zero l | _ => None end.
Definition messages_of (v : json) : option (list chat_msg) := match v with JArr l => elements message_elem_of [] l | _ => None end.

Lemma reads_messages : reads (parse_messages []) messages_of.
Proof.
  past_ws parse_messages. apply reads_array with (elemT := message_elem_of). intros msgs. eapply reads_ext.
  - unfold message_elem. eapply (reads_map _ _ (λ m, msgs ++ [complete_message m])), reads_object with (fieldT := message_member). intros k st.
    unfold message_field, message_member, json_string_replace, json_content_replace. by_key; [| | | | |apply reads_skip]; intros v rest Hv Hr.
    + rewrite reads_string by done. by destruct (str_of v).
    + rewrite reads_content by done. by destruct (text_of v).
    + rewrite reads_content by done. by destruct (text_of v).
    + rewrite reads_string by done. by destruct (str_of v).
    + rewrite reads_calls by done. by destruct (calls_of v).
  - by intros [].
Qed.

(** ** Anthropic *)

Definition block_tree : tree_table := λ key,
  if bytes_eqb key (bs "type") then Some ("type", str_of)
  else if bytes_eqb key (bs "text") then Some ("text", text_of)
  else if bytes_eqb key (bs "thinking") then Some ("thinking", text_of)
  else if bytes_eqb key (bs "id") || bytes_eqb key (bs "tool_use_id") then Some ("id", str_of)
  else if bytes_eqb key (bs "name") then Some ("name", str_of)
  else if bytes_eqb key (bs "input") then Some ("input", λ v, Some (jprint v))
  else if bytes_eqb key (bs "content") then Some ("tool_result", text_of)
  else None.

Lemma block_reads : table_reads block_table block_tree.
Proof. unfold block_table, block_tree. solve_table. Qed.

Definition anthropic_elem_of (msg : chat_msg) (v : json) : option chat_msg :=
  match v with
  | JStr t => Some (add_content t msg)
  | JObj l => (λ w, add_block w msg) <$> members (local_member block_tree) ∅ l
  | _ => Some msg
  end.
Definition anthropic_content_of (msg : chat_msg) (v : json) : option chat_msg :=
  match v with
  | JStr t => Some (set_content (Some t) msg)
  | JNull => Some (set_content (Some []) msg)
  | JArr l => (λ m, set_content (Some (default [] (msg_content m))) m) <$> elements anthropic_elem_of msg l
  | _ => Some msg
  end.

Lemma reads_anthropic_content msg : reads (parse_anthropic_content msg) (anthropic_content_of msg).
Proof.
  past_ws parse_anthropic_content. eapply reads_ext.
  - apply reads_if_str; [apply reads_map, reads_string|]. apply reads_or_null, reads_unless_arr; [apply reads_skip|].
    eapply (reads_map _ _ (λ m, set_content (Some (default [] (msg_content m))) m)), reads_array with (elemT := anthropic_elem_of). intros m. eapply reads_ext.
    + unfold anthropic_content_elem. apply reads_if_str; [apply reads_map, reads_string|]. apply reads_if_obj; [|apply reads_skip].
      unfold parse_anthropic_content_block. eapply (reads_map _ _ (λ w, add_block w m)), reads_object. intros k st. apply reads_local, block_reads.
    + by intros [].
  - by intros [].
Qed.

Definition anthropic_member (k : bytes) (m : chat_msg) (v : json) : option chat_msg :=
  if bytes_eqb k (bs "role") then (λ t, set_role (Some t) m) <$> str_of v
  else if bytes_eqb k (bs "content") then anthropic_content_of (set_content None m) v
  else Some m.
Definition anthropic_message_of (msgs : list chat_msg) (v : json) : option (list chat_msg) :=
  match v with JObj l => (λ m, msgs ++ [complete_message m]) <$> members anthropic_member chat_msg_zero l | _ => None end.
Definition anthropic_messages_of (v : json) : option (list chat_msg) := match v with JArr l => elements anthropic_message_of [] l | _ => None end.

Lemma reads_anthropic_messages : reads (parse_anthropic_messages []) anthropic_messages_of.
Proof.
  past_ws parse_anthropic_messages. apply reads_array with (elemT := anthropic_message_of). intros msgs. eapply reads_ext.
  - unfold anthropic_message_elem. eapply (reads_map _ _ (λ m, msgs ++ [complete_message m])), reads_object with (fieldT := anthropic_member). intros k st.
    unfold anthropic_message_field, anthropic_member. by_key; [apply (reads_map _ _ (λ t, set_role (Some t) st)), reads_string|apply reads_anthropic_content|apply reads_skip].
  - by intros [].
Qed.

Definition system_member (k b : bytes) (v : json) : option bytes :=
  if bytes_eqb k (bs "text") then append_anthropic_system_part b <$> str_of v else Some b.
Definition system_elem_of (b : bytes) (v : json) : option bytes :=
  match v with JStr t => Some (append_anthropic_system_part b t) | JObj l => members system_member b l | _ => Some b end.
Definition system_of (v : json) : option bytes :=
  match v with JStr t => Some (append_anthropic_system_part [] t) | JArr l => elements system_elem_of [] l | _ => Some [] end.

Lemma reads_system : reads parse_anthropic_system system_of.
Proof.
  past_ws parse_anthropic_system. eapply reads_ext.
  - apply reads_if_str; [apply reads_map, reads_string|]. apply reads_or_null, reads_unless_arr; [apply reads_skip|].
    apply reads_array with (elemT := system_elem_of). intros b. eapply reads_ext.
    + unfold system_elem. apply reads_if_str; [apply reads_map, reads_string|]. apply reads_if_obj; [|apply reads_skip].
      apply reads_object with (fieldT := system_member). intros k st. unfold system_object_field, system_member.
      by_key; [apply reads_map, reads_string|apply reads_skip].
    + by intros [].
  - by intros [].
Qed.

(** ** Responses *)

Definition str_or_null (v : json) : option bytes := if is_null v then Some [] else str_of v.

Lemma reads_string_or_null : reads string_or_null str_or_null.
Proof. past_ws string_or_null. apply reads_or_null, reads_string. Qed.

Definition text_tree : tree_table := λ key,
  if bytes_eqb key (bs "type") then Some ("type", str_of)
  else if bytes_eqb key (bs "text") then Some ("text", str_or_null)
  else None.

(** A text block must name a type of text and have a text. *)
Definition typed_text (w : locals) : option bytes :=
  type ← w !! "type"; text ← w !! "text"; if one_of type text_types then Some text else None.
Definition responses_text_elem (b : bytes) (v : json) : option bytes :=
  match v with
  | JStr t => Some (b ++ t)
  | JObj l => (λ t, b ++ t) <$> (members (local_member text_tree) ∅ l ≫= typed_text)
  | _ => None
  end.
Definition responses_text_of (v : json) : option bytes :=
  match v with
  | JStr t => Some t
  | JNull => Some []
  | JArr l => elements responses_text_elem [] l
  | _ => None
  end.

Lemma reads_responses_text : reads parse_responses_content_array responses_text_of.
Proof.
  past_ws parse_responses_content_array. eapply reads_ext.
  - apply reads_if_str; [apply reads_string|]. apply reads_or_null, reads_array with (elemT := responses_text_elem). intros b. eapply reads_ext.
    + unfold responses_content_elem. apply reads_if_str; [apply reads_map, reads_string|]. apply reads_if_obj; [|apply reads_fail].
      instantiate (1 := λ v, match v with JObj _ => responses_text_elem b v | _ => None end). intros v rest Hv Hr.
      rewrite (reads_object (local_field text_table) (local_member text_tree)); [|intros; apply reads_local; unfold text_table, text_tree|done|done].
      * destruct v as [| | | | |l]; try done. cbn [responses_text_elem]. destruct (members (local_member text_tree) ∅ l) as [w|]; [|done]. fmap_some. unfold typed_text.
        destruct (w !! "type") as [type|]; [|done]. cbn [mbind option_bind]. destruct (w !! "text") as [text|]; [|done]. cbn [mbind option_bind]. by case_match.
      * intros k'. repeat case_match; simplify_eq; try done; (split; [done|]); [apply reads_string|apply reads_string_or_null].
    + by intros [].
  - by intros [].
Qed.

Definition output_of (v : json) : option bytes := match v with JArr l => responses_text_of v | _ => str_or_text v end.

Lemma reads_output : reads output_value output_of.
Proof. past_ws output_value. eapply reads_ext; [apply reads_if_arr; [apply reads_responses_text|apply reads_string_or_raw]|by intros []]. Qed.

#[export] Hint Resolve reads_string_or_null reads_responses_text reads_output reads_string_or_raw : reads.

Definition item_tree : tree_table := λ key,
  if bytes_eqb key (bs "type") then Some ("type", str_of)
  else if bytes_eqb key (bs "role") then Some ("role", str_of)
  else if bytes_eqb key (bs "content") then Some ("content", responses_text_of)
  else if bytes_eqb key (bs "name") then Some ("name", str_of)
  else if bytes_eqb key (bs "namespace") then Some ("namespace", str_of)
  else if bytes_eqb key (bs "call_id") then Some ("call_id", str_of)
  else if bytes_eqb key (bs "id") then Some ("item_id", str_of)
  else if bytes_eqb key (bs "arguments") then Some ("arguments", str_or_text)
  else if bytes_eqb key (bs "output") then Some ("output", output_of)
  else if bytes_eqb key (bs "input") then Some ("input_str", str_or_text)
  else if bytes_eqb key (bs "summary") then Some ("summary", responses_text_of)
  else if bytes_eqb key (bs "action") then Some ("action", λ v, Some (jprint v))
  else if bytes_eqb key (bs "result") then Some ("result", str_or_text)
  else if bytes_eqb key (bs "status") then Some ("status_str", str_of)
  else if bytes_eqb key (bs "tools") then Some ("tools_json", λ v, Some (jprint v))
  else None.

Lemma item_reads : table_reads item_table item_tree.
Proof. unfold item_table, item_tree. solve_table. Qed.

Definition item_elem_of (st : input_state) (v : json) : option input_state :=
  match v with JObj l => members (local_member item_tree) ∅ l ≫= λ w, add_item w st | _ => None end.
Definition input_of_items (loaded : bytes) (orders : list tool_schema_order) (v : json) : option input_state :=
  match v with JArr l => flush_pending <$> elements item_elem_of (InputState [] [] loaded orders) l | _ => None end.

Lemma reads_input loaded orders : reads (parse_responses_input loaded orders) (input_of_items loaded orders).
Proof.
  past_ws parse_responses_input. eapply reads_ext.
  - eapply (reads_map _ _ flush_pending), reads_array with (elemT := item_elem_of). intros st. eapply reads_ext.
    + unfold input_elem. eapply (reads_then _ _ (λ w, add_item w st)), reads_object. intros k vars. apply reads_local, item_reads.
    + by intros [].
  - by intros [].
Qed.

Definition reasoning_member_of (k : bytes) (st : reasoning_state) (v : json) : option reasoning_state :=
  let '(effort, summary, seen) := st in
  if bytes_eqb k (bs "effort") then if is_null v then Some st else (λ e, (e, summary, true)) <$> effort_of effort v
  else if bytes_eqb k (bs "summary") then
    Some (effort, match v with JStr mode => summary || one_of mode ["auto"; "concise"; "detailed"] | _ => summary end, seen)
  else Some st.
Definition reasoning_of (st : reasoning_state) (v : json) : option reasoning_state :=
  match v with JObj l => members reasoning_member_of st l | _ => Some st end.

Lemma reads_reasoning st : reads (parse_responses_reasoning st) (reasoning_of st).
Proof.
  past_ws parse_responses_reasoning. eapply reads_ext.
  - apply reads_or_null, reads_unless_obj; [apply reads_skip|]. apply reads_object with (fieldT := reasoning_member_of). intros k [[effort summary] seen].
    unfold responses_reasoning_field, reasoning_member_of. by_key; [| |apply reads_skip]; intros v rest Hv Hr; rewrite print_ws, print_null by apply Hv.
    + destruct (is_null v); [done|]. rewrite reads_effort by done. by destruct (effort_of effort v).
    + destruct v as [| | |mode| |]; cbn [is_null]; try done; rewrite print_str by apply Hv; cbn [is_str]; try (by rewrite reads_skip). by rewrite reads_string.
  - by intros [].
Qed.
