(* ===== verification/InputProps.v ===== *)
(** * Conversations arrive whole

    What the messages of a conversation have in common with the items or blocks they
    were read from: the input of the Responses format loses no call, no text, no tool
    result and no reasoning and keeps each in its order; the turns of the Anthropic
    format become one message each, with its text, reasoning, calls and results. *)
From S2P Require Import Prelude CLib Strtod Json JsonProps JsonSafe Request RequestProps JsonTree ToolText Prompt ToolSchemas ClientInput RequestTree.

#[local] Opaque json_escape json_string.

(** ** Reasoning *)

(** Lines of text, one per line; an empty one is left out. *)
Definition glue (a b : bytes) : bytes := match a, b with [], _ => b | _, [] => a | _, _ => a ++ [10] ++ b end.

Lemma glue_nil_r a : glue a [] = a.
Proof. by destruct a. Qed.
Lemma glue_assoc a b c : glue a (glue b c) = glue (glue a b) c.
Proof. destruct a, b, c; try done; cbn [glue app]; f_equal; by rewrite <- ?app_assoc. Qed.

Definition glued (l : list bytes) : bytes := foldr glue [] l.
Lemma glued_app l1 l2 : glued (l1 ++ l2) = glue (glued l1) (glued l2).
Proof. unfold glued. induction l1 as [|a l IH]; [done|]. cbn [foldr app]. by rewrite IH, glue_assoc. Qed.

(** ** What messages say *)

Definition said (m : chat_msg) : option (bytes * bytes * list bytes) :=
  let role := default [] (msg_role m) in
  let content := default [] (msg_content m) in
  if bytes_eqb role (bs "assistant") && bytes_eqb content [] then None else Some (role, content, msg_tool_call_ids m).
Definition thought (m : chat_msg) : bytes := default [] (msg_reasoning m).

Definition all_calls (msgs : list chat_msg) : list tool_call := msgs ≫= msg_calls.
Definition all_said (msgs : list chat_msg) : list (bytes * bytes * list bytes) := omap said msgs.
Definition all_thoughts (msgs : list chat_msg) : bytes := glued (thought <$> msgs).

Lemma calls_snoc l m : all_calls (l ++ [m]) = all_calls l ++ msg_calls m.
Proof. unfold all_calls. rewrite bind_app. cbn. by rewrite app_nil_r. Qed.
Lemma said_snoc l m : all_said (l ++ [m]) = all_said l ++ option_list (said m).
Proof. unfold all_said. rewrite omap_app. cbn. by destruct (said m). Qed.
Lemma thoughts_snoc l m : all_thoughts (l ++ [m]) = glue (all_thoughts l) (thought m).
Proof. unfold all_thoughts. rewrite fmap_app, glued_app. cbn [fmap list_fmap]. unfold glued at 2. cbn [foldr]. by rewrite glue_nil_r. Qed.

(** ** What items say *)

Definition item_known (v : locals) : bool :=
  let t := item_type v in
  match v !! "status_str" with Some (c :: r) => bytes_eqb (c :: r) (bs "completed") | _ => true end
  && (bytes_eqb t (bs "message") || bytes_eqb t (bs "reasoning") || one_of t function_calls || one_of t function_outputs || one_of t hosted_calls
      || one_of t hosted_outputs || one_of t bookkeeping).

Definition item_call (v : locals) : option tool_call :=
  let t := item_type v in
  if one_of t function_calls then Some (function_call_of v) else if one_of t hosted_calls then Some (hosted_call_of v) else None.

Definition item_said (v : locals) : option (bytes * bytes * list bytes) :=
  let t := item_type v in
  if bytes_eqb t (bs "message") then said (plain_msg (default (bs "user") (v !! "role")) (default [] (v !! "content")))
  else if one_of t function_outputs then said (output_msg v (default [] (v !! "output")))
  else if one_of t hosted_outputs then said (output_msg v (default (default (default [] (v !! "tools_json")) (v !! "result")) (v !! "output")))
  else None.

Definition item_thought (v : locals) : bytes :=
  if bytes_eqb (item_type v) (bs "reasoning") then glue (default [] (v !! "summary")) (default [] (v !! "content")) else [].

(** The schemas and the orders after an item. *)
Definition item_tools (lo : bytes * list tool_schema_order) (v : locals) : option (bytes * list tool_schema_order) :=
  match v !! "tools_json" with
  | Some tools =>
      if bytes_eqb (item_type v) (bs "tool_search_output") then '(schemas, orders, _) ← parse_tools_value lo.2 tools; Some (glue lo.1 schemas, orders) else Some lo
  | None => Some lo
  end.

(** ** The history *)

Record history := History {
  h_calls : list tool_call;
  h_said : list (bytes * bytes * list bytes);
  h_thoughts : bytes;
  h_tools : bytes * list tool_schema_order;
}.

Definition history_of (st : input_state) : history :=
  History (all_calls (in_msgs st)) (all_said (in_msgs st)) (glue (all_thoughts (in_msgs st)) (in_pending st)) (in_loaded st, in_orders st).

(** An item adds its call, its text, its reasoning and its tools at the end. *)
Definition add_history (h : history) (v : locals) : option history :=
  if item_known v then
    (λ lo, History (h_calls h ++ option_list (item_call v)) (h_said h ++ option_list (item_said v)) (glue (h_thoughts h) (item_thought v)) lo)
    <$> item_tools (h_tools h) v
  else None.

Lemma history_push m st :
  history_of (in_push m st) = History (all_calls (in_msgs st) ++ msg_calls m) (all_said (in_msgs st) ++ option_list (said m))
    (glue (glue (all_thoughts (in_msgs st)) (thought m)) (in_pending st)) (in_loaded st, in_orders st).
Proof. unfold history_of, in_push. cbn [in_msgs in_pending in_loaded in_orders]. by rewrite calls_snoc, said_snoc, thoughts_snoc. Qed.

Lemma flush_history st : history_of (flush_pending st) = history_of st ∧ in_pending (flush_pending st) = [].
Proof.
  unfold flush_pending. destruct (in_pending st) as [|c r] eqn:E; [done|]. split; [|done].
  unfold history_of. cbn [in_wait in_push in_msgs in_pending in_loaded in_orders]. rewrite calls_snoc, said_snoc, thoughts_snoc, E.
  cbn [msg_calls set_reasoning plain_msg set_role set_content chat_msg_zero]. change (said _) with (@None (bytes * bytes * list bytes)). cbn [option_list].
  by rewrite !app_nil_r, glue_nil_r.
Qed.

Lemma push_history m st : thought m = [] →
  history_of (in_push m st) = History (h_calls (history_of st) ++ msg_calls m) (h_said (history_of st) ++ option_list (said m)) (h_thoughts (history_of st)) (h_tools (history_of st)).
Proof. intros Hm. by rewrite history_push, Hm, glue_nil_r. Qed.

(** A message of the assistant takes the reasoning that waits. *)
Lemma assistant_history m st : thought m = [] →
  history_of (in_wait [] (in_push (set_reasoning (take_pending st) m) st))
  = History (all_calls (in_msgs st) ++ msg_calls m) (all_said (in_msgs st) ++ option_list (said m)) (glue (all_thoughts (in_msgs st)) (in_pending st)) (in_loaded st, in_orders st).
Proof.
  intros Hm. unfold history_of. cbn [in_wait in_push in_msgs in_pending in_loaded in_orders]. rewrite calls_snoc, said_snoc, thoughts_snoc, glue_nil_r.
  unfold take_pending. by destruct (in_pending st).
Qed.

Lemma call_history tc st :
  history_of (add_input_call tc st) = History (h_calls (history_of st) ++ [tc]) (h_said (history_of st)) (h_thoughts (history_of st)) (h_tools (history_of st)).
Proof.
  unfold add_input_call.
  assert (history_of (in_wait [] (in_push (push_call tc (set_reasoning (take_pending st) (plain_msg (bs "assistant") []))) st))
    = History (h_calls (history_of st) ++ [tc]) (h_said (history_of st)) (h_thoughts (history_of st)) (h_tools (history_of st))) as Hnew.
  { change (push_call tc (set_reasoning ?p ?m)) with (set_reasoning p (push_call tc m)). rewrite assistant_history by done. cbn [option_list]. by rewrite app_nil_r. }
  destruct (last (in_msgs st)) as [l|] eqn:El; [|exact Hnew]. destruct (decide _) as [_|_]; [|exact Hnew]. clear Hnew.
  apply last_Some in El as [ms El]. unfold history_of. rewrite El, removelast_last. cbn [h_calls h_said h_thoughts h_tools].
  rewrite !calls_snoc, !said_snoc, !thoughts_snoc.
  destruct (in_pending st) as [|c r] eqn:Ep; [|destruct (msg_reasoning l) as [[|? ?]|] eqn:Er]; cbn [in_msgs in_pending in_loaded in_orders];
    rewrite ?calls_snoc, ?said_snoc, ?thoughts_snoc; unfold thought; cbn [msg_calls push_call set_reasoning msg_reasoning]; rewrite ?Er, ?app_assoc, ?glue_nil_r;
    try done; rewrite <- ?glue_assoc; done.
Qed.

Lemma tools_history v st : history_of <$> load_tools v st
  = (λ lo, History (all_calls (in_msgs st)) (all_said (in_msgs st)) (glue (all_thoughts (in_msgs st)) (in_pending st)) lo) <$> item_tools (in_loaded st, in_orders st) v.
Proof.
  unfold load_tools, item_tools. destruct (v !! "tools_json") as [tools|]; [|done]. destruct (bytes_eqb _ _); [|done].
  cbn [fst snd]. destruct (parse_tools_value (in_orders st) tools) as [[[schemas orders] s]|]; [|done]. fmap_some. f_equal. unfold history_of. cbn [in_msgs in_pending in_loaded in_orders].
  f_equal. f_equal. destruct schemas, (in_loaded st); cbn [glue app]; by rewrite <- ?app_assoc, ?app_nil_r.
Qed.

(** *** One item *)

Inductive kind := KMessage | KCall | KOutput | KReasoning | KHostedCall | KHostedOutput | KBookkeeping | KUnknown.
#[export] Instance kind_eq_dec : EqDecision kind.
Proof. solve_decision. Defined.

(** A name of the list, or none of them. *)
Ltac named Hin t l k :=
  let E := fresh "E" in destruct (one_of t l) eqn:E;
  [apply Hin in E as (? & E & ->); cbn in E; exists k; repeat destruct E as [E|E]; try subst; try done; vm_compute; tauto|].
(** Decide equations of kinds. *)
Ltac kinds := repeat match goal with |- context [@bool_decide (@eq kind ?a ?b) ?d] => let r := eval vm_compute in (@bool_decide (@eq kind a b) d) in change (@bool_decide (@eq kind a b) d) with r end.

(** The lists of types do not meet. *)
Lemma kind_of (t : bytes) : ∃ k, bytes_eqb t (bs "message") = bool_decide (k = KMessage) ∧ one_of t function_calls = bool_decide (k = KCall)
  ∧ one_of t function_outputs = bool_decide (k = KOutput) ∧ bytes_eqb t (bs "reasoning") = bool_decide (k = KReasoning)
  ∧ one_of t hosted_calls = bool_decide (k = KHostedCall) ∧ one_of t hosted_outputs = bool_decide (k = KHostedOutput)
  ∧ one_of t bookkeeping = bool_decide (k = KBookkeeping) ∧ (k = KHostedOutput ∨ bytes_eqb t (bs "tool_search_output") = false).
Proof.
  assert (∀ names, one_of t names = true → ∃ x, In x names ∧ t = bs x) as Hin.
  { intros names H. apply existsb_exists in H as (x & Hx & E%bytes_eqb_eq). by exists x. }
  named Hin t ["message"] KMessage. named Hin t function_calls KCall. named Hin t function_outputs KOutput. named Hin t ["reasoning"] KReasoning.
  named Hin t hosted_calls KHostedCall. named Hin t hosted_outputs KHostedOutput. named Hin t bookkeeping KBookkeeping. exists KUnknown.
  cbn [one_of existsb hosted_outputs] in *. rewrite !orb_false_r, ?orb_false_iff in *. tauto.
Qed.

Lemma output_plain v body : thought (output_msg v body) = [] ∧ msg_calls (output_msg v body) = [].
Proof. unfold output_msg. by destruct (call_of_item v). Qed.

Lemma wait_history line st : history_of (wait_line line st) = History (h_calls (history_of st)) (h_said (history_of st)) (glue (h_thoughts (history_of st)) (default [] line)) (h_tools (history_of st)).
Proof.
  destruct line as [[|c r]|]; cbn [wait_line default]; rewrite ?glue_nil_r; try by destruct (history_of st).
  unfold history_of. cbn [in_wait in_msgs in_pending in_loaded in_orders h_calls h_said h_thoughts h_tools]. f_equal. rewrite <- glue_assoc. f_equal.
  destruct (in_pending st); [done|]. cbn [glue app]. by rewrite <- app_assoc.
Qed.

Lemma item_history v st : history_of <$> add_item v st = add_history (history_of st) v.
Proof.
  unfold add_item, add_history, item_known, item_call, item_said, item_thought, consumes_reasoning.
  destruct (match v !! "status_str" with Some (c :: r) => bytes_eqb (c :: r) (bs "completed") | _ => true end); [|done]. cbn [negb andb].
  destruct (kind_of (item_type v)) as (k & -> & -> & -> & -> & -> & -> & -> & Hk).
  assert (k ≠ KHostedOutput → ∀ lo, item_tools lo v = Some lo) as Ht.
  { intros Hn lo. destruct Hk as [|Hk]; [done|]. unfold item_tools. rewrite Hk. by destruct (v !! "tools_json"). }
  destruct (flush_history st) as [Hf Hp]. remember (flush_pending st) as st' eqn:Est. clear Est.
  destruct k; kinds; cbn [orb andb]; cbn iota; rewrite ?Ht by done; fmap_some; rewrite ?app_nil_r, ?glue_nil_r.
  - destruct (decide (v !! "role" = Some (bs "assistant"))) as [Hr|Hr]; [rewrite Hr, bool_decide_eq_true_2 by done|rewrite (bool_decide_eq_false_2 _ Hr)]; cbn [orb].
    + rewrite decide_True by done. fmap_some. rewrite assistant_history by done. by rewrite app_nil_r.
    + rewrite decide_False; [fmap_some; rewrite push_history, Hf by done; by rewrite app_nil_r|]. intros E. destruct (v !! "role"); [by apply Hr|by vm_compute in E].
  - by rewrite call_history.
  - fmap_some. rewrite push_history, Hf by apply output_plain. by rewrite (proj2 (output_plain _ _)), app_nil_r.
  - fmap_some. by rewrite !wait_history, Hf, glue_assoc.
  - by rewrite call_history.
  - pose proof (tools_history v st') as Hl. change (in_loaded st', in_orders st') with (h_tools (history_of st')) in Hl. rewrite Hf in Hl.
    destruct (load_tools v st') as [s|], (item_tools (h_tools (history_of st)) v) as [lo|]; try done. apply Some_inj in Hl. fmap_some.
    cbn [mbind option_bind]. fmap_some. rewrite push_history by apply output_plain. rewrite Hl, (proj2 (output_plain _ _)), app_nil_r, <- Hf. done.
  - fmap_some. by destruct (history_of st).
  - done.
Qed.

(** ** Responses *)

(** The members of an item that are read. *)
Definition item_members (v : json) : option locals := match v with JObj l => members (local_member item_tree) ∅ l | _ => None end.

Lemma items_history items : ∀ st,
  history_of <$> elements item_elem_of st items = elements (λ h v, item_members v ≫= add_history h) (history_of st) items.
Proof.
  induction items as [|v items IH]; intros st; [done|]. cbn [elements]. 
  destruct v as [| | | | |l]; try reflexivity. cbn [item_elem_of item_members]. destruct (members (local_member item_tree) ∅ l) as [w|]; [|reflexivity]. cbn [mbind option_bind].
  rewrite <- item_history. destruct (add_item w st) as [st'|]; [|done]. fmap_some. cbn [mbind option_bind]. apply IH.
Qed.


(** Two calls of one turn, each after its reasoning. *)
Definition reasoning_item (t : string) : json := JObj [key "type" (jtext "reasoning"); key "summary" (JArr [JObj [key "type" (jtext "summary_text"); key "text" (jtext t)]])].
Definition call_item (id : string) : json := JObj [key "type" (jtext "function_call"); key "call_id" (jtext id); key "name" (jtext "run"); key "arguments" (jtext "{}")].
Definition two_calls : list json := [reasoning_item "first"; call_item "1"; reasoning_item "second"; call_item "2"].
Definition run_call (id : string) : tool_call := ToolCall (Some (bs id)) (Some (bs "run")) (Some (bs "{}")).

(** The reasoning before the second call does not stay with it: it becomes a message of
    its own behind both calls, because the call joins a message that has reasoning. *)
Lemma reasoning_displaced : (λ r, in_msgs r.1) <$> parse_responses_input [] [] (jprint (JArr two_calls)) =
  Some [ChatMsg (Some (bs "assistant")) (Some []) (Some (bs "first")) None [] [run_call "1"; run_call "2"] None;
        ChatMsg (Some (bs "assistant")) (Some []) (Some (bs "second")) None [] [] None].
Proof. vm_compute. reflexivity. Qed.


(** ** Anthropic *)

(** The blocks of a turn. *)
Inductive block :=
  | BText (t : bytes)
  | BThinking (t : bytes)
  | BToolUse (id name : bytes) (input : json)
  | BToolResult (id content : bytes).

Definition block_json (b : block) : json :=
  match b with
  | BText t => JObj [key "type" (jtext "text"); key "text" (JStr t)]
  | BThinking t => JObj [key "type" (jtext "thinking"); key "thinking" (JStr t)]
  | BToolUse id name input => JObj [key "type" (jtext "tool_use"); key "id" (JStr id); key "name" (JStr name); key "input" input]
  | BToolResult id content => JObj [key "type" (jtext "tool_result"); key "tool_use_id" (JStr id); key "content" (JStr content)]
  end.

Record turn := Turn { t_role : bytes; t_blocks : list block }.
Definition turn_json (t : turn) : json := JObj [key "role" (JStr (t_role t)); key "content" (JArr (block_json <$> t_blocks t))].

Definition block_ok (b : block) : Prop :=
  match b with
  | BText t => str_ok t
  | BThinking t => str_ok t
  | BToolUse id name input => str_ok id ∧ str_ok name ∧ doc 200 input
  | BToolResult id content => str_ok id ∧ str_ok content
  end.

(** The parts of a message, each from the blocks of its kind. *)
Definition block_text (b : block) : option bytes :=
  match b with
  | BText t => Some t
  | BToolResult _ content => Some (bs "<tool_result>" ++ append_tool_result_text (Some content) ++ bs "</tool_result>")
  | _ => None
  end.
Definition block_thinking (b : block) : option bytes := match b with BThinking t => Some t | _ => None end.
Definition block_call (b : block) : option tool_call :=
  match b with BToolUse id name input => Some (ToolCall (Some id) (Some name) (Some (jprint input))) | _ => None end.
Definition block_result (b : block) : option bytes := match b with BToolResult (c :: id) _ => Some (c :: id) | _ => None end.

(** Ids without repetitions, the first of each kept. *)
Definition add_id (ids : list bytes) (id : bytes) : list bytes := if existsb (bytes_eqb id) ids then ids else ids ++ [id].

(** [NULL] when there is none. *)
Definition joined (l : list bytes) : option bytes := match l with [] => None | _ => Some (concat l) end.

Definition turn_message (t : turn) : chat_msg :=
  let ids := omap block_result (t_blocks t) in
  ChatMsg (Some (t_role t)) (Some (concat (omap block_text (t_blocks t))))
    (joined (omap block_thinking (t_blocks t)))
    (head ids) (foldl add_id [] ids) (omap block_call (t_blocks t)) None.

Definition add_typed (m : chat_msg) (b : block) : chat_msg :=
  match b with
  | BText t => add_content t m
  | BThinking t => add_reasoning t m
  | BToolUse id name input => push_call (ToolCall (Some id) (Some name) (Some (jprint input))) m
  | BToolResult id content => add_content (bs "<tool_result>" ++ append_tool_result_text (Some content) ++ bs "</tool_result>") (chat_msg_add_tool_call_id m id)
  end.

Lemma block_step m b : anthropic_elem_of m (block_json b) = Some (add_typed m b).
Proof. destruct b; reflexivity. Qed.

Lemma blocks_fold blocks : ∀ m, elements anthropic_elem_of m (block_json <$> blocks) = Some (foldl add_typed m blocks).
Proof. induction blocks as [|b l IH]; intros m; [done|]. rewrite fmap_cons. cbn [elements foldl]. rewrite block_step. apply IH. Qed.

Lemma joined_snoc l x : joined (l ++ [x]) = Some (default [] (joined l) ++ x).
Proof. destruct l as [|y l]; cbn; [by rewrite app_nil_r|]. by rewrite concat_app, <- app_assoc; cbn; rewrite app_nil_r. Qed.

Lemma head_snoc {A} (l : list A) x : head (l ++ [x]) = match head l with None => Some x | Some y => Some y end.
Proof. by destruct l. Qed.

Lemma blocks_message role blocks :
  foldl add_typed (ChatMsg role None None None [] [] None) blocks
  = ChatMsg role (joined (omap block_text blocks)) (joined (omap block_thinking blocks)) (head (omap block_result blocks)) (foldl add_id [] (omap block_result blocks))
      (omap block_call blocks) None.
Proof.
  induction blocks as [|b l IH] using rev_ind; [done|]. rewrite foldl_snoc, IH, !omap_app.
  destruct b as [t|t|id name input|id content]; cbn [omap list_omap block_text block_thinking block_result block_call]; rewrite ?app_nil_r, ?joined_snoc.
  1,2,3: reflexivity.
  destruct id as [|c id]; cbn [omap list_omap block_result]; rewrite ?app_nil_r, ?foldl_snoc, ?head_snoc; reflexivity.
Qed.

Lemma block_doc b : block_ok b → doc 202 (block_json b).
Proof. destruct b; cbn [block_ok block_json]; intros; destruct_and?; solve_doc; by eapply doc_mono; [eassumption|lia]. Qed.

Lemma turn_doc t : str_ok (t_role t) → Forall block_ok (t_blocks t) → doc 204 (turn_json t).
Proof.
  intros Hr Hb. unfold turn_json. apply doc_obj; [lia|]. repeat apply List.Forall_cons; [apply doc_key; [reflexivity|by apply doc_str]| |apply List.Forall_nil].
  apply doc_key; [reflexivity|]. apply doc_arr; [lia|]. apply Forall_fmap. eapply Forall_impl; [exact Hb|]. apply block_doc.
Qed.

(** C29. Conversations of the Anthropic format: the printed turns, whatever the blocks
    they mix, are read as one message each, with its texts and tool results joined in
    order, its thinking joined in order, the ids of its tool results each once and its
    calls with the printed input. *)
Theorem anthropic_turns_exact turns rest (Ht : Forall (λ t, str_ok (t_role t) ∧ Forall block_ok (t_blocks t)) turns) (Hr : value_end rest) :
  parse_anthropic_messages [] (jprint (JArr (turn_json <$> turns)) ++ rest) = Some (turn_message <$> turns, rest).
Proof.
  rewrite reads_anthropic_messages; [|apply doc_arr; [lia|]; apply Forall_fmap; eapply Forall_impl; [exact Ht|]; intros t [? ?]; eapply doc_mono; [by apply turn_doc|lia]|done].
  cbn [anthropic_messages_of]. enough (∀ msgs, elements anthropic_message_of msgs (turn_json <$> turns) = Some (msgs ++ (turn_message <$> turns))) as -> by done.
  clear. induction turns as [|t turns IH]; intros msgs; [by rewrite app_nil_r|]. rewrite !fmap_cons. cbn [elements].
  assert (anthropic_message_of msgs (turn_json t) = Some (msgs ++ [turn_message t])) as ->; [|cbn [mbind option_bind]; by rewrite IH, <- app_assoc].
  unfold turn_json, anthropic_message_of. cbn [members key]. change (anthropic_member (bs "role") ?m (JStr ?r)) with (Some (set_role (Some r) m)). cbn [mbind option_bind].
  change (anthropic_member (bs "content") ?m ?v) with (anthropic_content_of (set_content None m) v). cbn [anthropic_content_of set_role set_content chat_msg_zero].
  rewrite blocks_fold. fmap_some. cbn [mbind option_bind]. fmap_some.
  change (set_content None (set_role (Some (t_role t)) chat_msg_zero)) with (ChatMsg (Some (t_role t)) None None None [] [] None). rewrite blocks_message.
  unfold turn_message, complete_message. cbn [set_content set_role msg_role msg_content msg_reasoning msg_tool_call_id msg_tool_call_ids msg_calls msg_raw_tool_text default].
  enough (default [] (joined (omap block_text (t_blocks t))) = concat (omap block_text (t_blocks t))) as E by by rewrite <- E.
  by destruct (omap block_text (t_blocks t)).
Qed.

Definition two_turns : list turn :=
  [Turn (bs "assistant") [BThinking (bs "look"); BText (bs "Looking."); BToolUse (bs "t1") (bs "ls") (JObj [key "path" (jtext "/")])];
   Turn (bs "user") [BToolResult (bs "t1") (bs "a.c"); BText (bs "And?")]].

Lemma anthropic_turns_exact_witness :
  Forall (λ t, str_ok (t_role t) ∧ Forall block_ok (t_blocks t)) two_turns ∧ value_end []
  ∧ parse_anthropic_messages [] (jprint (JArr (turn_json <$> two_turns)) ++ []) =
    Some ([ChatMsg (Some (bs "assistant")) (Some (bs "Looking.")) (Some (bs "look")) None [] [ToolCall (Some (bs "t1")) (Some (bs "ls")) (Some (jprint (JObj [key "path" (jtext "/")])))] None;
           ChatMsg (Some (bs "user")) (Some (bs "<tool_result>a.c</tool_result>And?")) None (Some (bs "t1")) [bs "t1"] [] None], []).
Proof.
  assert (Forall (λ t, str_ok (t_role t) ∧ Forall block_ok (t_blocks t)) two_turns) as Ht.
  { unfold two_turns. repeat apply List.Forall_cons; try apply List.Forall_nil; split; cbn [t_role t_blocks]; try (by apply bs_str_ok);
      repeat apply List.Forall_cons; try apply List.Forall_nil; cbn [block_ok]; split_and?; first [by apply bs_str_ok|solve_doc]. }
  split_and!; [exact Ht|done|]. rewrite (anthropic_turns_exact two_turns [] Ht I). vm_compute. reflexivity.
Defined.
