(* ===== verification/Handlers.v ===== *)
(** * Whole requests

    Model of the four request handlers of [engine/src/server.c]: [parse_chat_request],
    [parse_anthropic_request], [parse_responses_request] and [parse_completion_request],
    with [request_init]. A handler reads the members of the body into its locals and
    the fields of the request, decides whether tools and thinking are on, checks the
    tool results, attaches the sampled text of earlier calls and renders and tokenizes
    the prompt.

    The locals and the fields of the request that the loops set are one record,
    [request_body]; a numeric field with its flag is an option. *)
From S2P Require Import Prelude CLib Strtod Json Request ToolText ToolMemory KvHeader KvCache ToolMap LiveState Prompt Continuation Tokenizer Reply ToolSchemas ClientInput.
From Stdlib Require Import SpecFloat.

(** ** The request *)

Record request := Request {
  r_kind : req_kind;
  r_api : api_style;
  r_model_syntax : server_model_syntax;
  r_prompt : list Z;
  r_model : bytes;
  r_model_from_request : bool;
  r_stops : stop_list;
  r_prompt_text : bytes;
  r_tool_orders : list tool_schema_order;
  r_max_tokens : Z;
  r_top_k : Z; r_top_k_set : bool;
  r_temperature : spec_float; r_temperature_set : bool;
  r_top_p : spec_float; r_top_p_set : bool;
  r_min_p : spec_float; r_min_p_set : bool;
  r_seed : Z;
  r_stream : bool;
  r_stream_include_usage : bool;
  r_cache_read_tokens : Z;
  r_cache_write_tokens : Z;
  r_think_mode : ds4_think_mode;
  r_has_tools : bool;
  r_prompt_preserves_reasoning : bool;
  r_reasoning_summary_emit : bool;
  r_responses_requires_live_tool_state : bool;
  r_responses_requires_live_reasoning : bool;
  r_responses_live : stop_list * option bytes;
  r_anthropic_requires_live_tool_state : bool;
  r_anthropic_live : stop_list * option bytes;
  r_tool_replay : tool_replay_stats;
}.

(** The conversion to [float]: one more rounding. *)
Definition to_float (v : spec_float) : spec_float :=
  match v with
  | S754_finite s m e => binary_normalize 24 128 (cond_Zopp s (Z.pos m)) e s
  | _ => v
  end.

Definition DS4_DEFAULT_TEMPERATURE : spec_float := to_float (b64 1 0).
Definition DS4_DEFAULT_TOP_P : spec_float := to_float (b64 1 0).
Definition DS4_DEFAULT_MIN_P : spec_float := S754_finite false 13421773 (-28).

(** ** What the loops set *)

Record request_body := RequestBody {
  b_model : option bytes;
  b_stops : stop_list;
  b_orders : list tool_schema_order;
  b_max_tokens : Z;
  b_top_k : option Z;
  b_temperature : option spec_float;
  b_top_p : option spec_float;
  b_min_p : option spec_float;
  b_seed : Z;
  b_stream : bool;
  b_include_usage : bool;
  b_summary_emit : bool;
  b_msgs : option (list chat_msg);
  b_choice_none : bool;
  b_thinking : option bool;
  b_effort : ds4_think_mode;
  b_schemas : option bytes;
  b_system : option bytes;
  b_loaded : bytes;
}.

Definition set_b_model (v : option bytes) (b : request_body) : request_body :=
  RequestBody v (b_stops b) (b_orders b) (b_max_tokens b) (b_top_k b) (b_temperature b) (b_top_p b) (b_min_p b) (b_seed b) (b_stream b)
    (b_include_usage b) (b_summary_emit b) (b_msgs b) (b_choice_none b) (b_thinking b) (b_effort b) (b_schemas b) (b_system b) (b_loaded b).
Definition set_b_stops (v : stop_list) (b : request_body) : request_body :=
  RequestBody (b_model b) v (b_orders b) (b_max_tokens b) (b_top_k b) (b_temperature b) (b_top_p b) (b_min_p b) (b_seed b) (b_stream b)
    (b_include_usage b) (b_summary_emit b) (b_msgs b) (b_choice_none b) (b_thinking b) (b_effort b) (b_schemas b) (b_system b) (b_loaded b).
Definition set_b_orders (v : list tool_schema_order) (b : request_body) : request_body :=
  RequestBody (b_model b) (b_stops b) v (b_max_tokens b) (b_top_k b) (b_temperature b) (b_top_p b) (b_min_p b) (b_seed b) (b_stream b)
    (b_include_usage b) (b_summary_emit b) (b_msgs b) (b_choice_none b) (b_thinking b) (b_effort b) (b_schemas b) (b_system b) (b_loaded b).
Definition set_b_max_tokens (v : Z) (b : request_body) : request_body :=
  RequestBody (b_model b) (b_stops b) (b_orders b) v (b_top_k b) (b_temperature b) (b_top_p b) (b_min_p b) (b_seed b) (b_stream b) (b_include_usage b)
    (b_summary_emit b) (b_msgs b) (b_choice_none b) (b_thinking b) (b_effort b) (b_schemas b) (b_system b) (b_loaded b).
Definition set_b_top_k (v : option Z) (b : request_body) : request_body :=
  RequestBody (b_model b) (b_stops b) (b_orders b) (b_max_tokens b) v (b_temperature b) (b_top_p b) (b_min_p b) (b_seed b) (b_stream b)
    (b_include_usage b) (b_summary_emit b) (b_msgs b) (b_choice_none b) (b_thinking b) (b_effort b) (b_schemas b) (b_system b) (b_loaded b).
Definition set_b_temperature (v : option spec_float) (b : request_body) : request_body :=
  RequestBody (b_model b) (b_stops b) (b_orders b) (b_max_tokens b) (b_top_k b) v (b_top_p b) (b_min_p b) (b_seed b) (b_stream b) (b_include_usage b)
    (b_summary_emit b) (b_msgs b) (b_choice_none b) (b_thinking b) (b_effort b) (b_schemas b) (b_system b) (b_loaded b).
Definition set_b_top_p (v : option spec_float) (b : request_body) : request_body :=
  RequestBody (b_model b) (b_stops b) (b_orders b) (b_max_tokens b) (b_top_k b) (b_temperature b) v (b_min_p b) (b_seed b) (b_stream b)
    (b_include_usage b) (b_summary_emit b) (b_msgs b) (b_choice_none b) (b_thinking b) (b_effort b) (b_schemas b) (b_system b) (b_loaded b).
Definition set_b_min_p (v : option spec_float) (b : request_body) : request_body :=
  RequestBody (b_model b) (b_stops b) (b_orders b) (b_max_tokens b) (b_top_k b) (b_temperature b) (b_top_p b) v (b_seed b) (b_stream b)
    (b_include_usage b) (b_summary_emit b) (b_msgs b) (b_choice_none b) (b_thinking b) (b_effort b) (b_schemas b) (b_system b) (b_loaded b).
Definition set_b_seed (v : Z) (b : request_body) : request_body :=
  RequestBody (b_model b) (b_stops b) (b_orders b) (b_max_tokens b) (b_top_k b) (b_temperature b) (b_top_p b) (b_min_p b) v (b_stream b)
    (b_include_usage b) (b_summary_emit b) (b_msgs b) (b_choice_none b) (b_thinking b) (b_effort b) (b_schemas b) (b_system b) (b_loaded b).
Definition set_b_stream (v : bool) (b : request_body) : request_body :=
  RequestBody (b_model b) (b_stops b) (b_orders b) (b_max_tokens b) (b_top_k b) (b_temperature b) (b_top_p b) (b_min_p b) (b_seed b) v
    (b_include_usage b) (b_summary_emit b) (b_msgs b) (b_choice_none b) (b_thinking b) (b_effort b) (b_schemas b) (b_system b) (b_loaded b).
Definition set_b_include_usage (v : bool) (b : request_body) : request_body :=
  RequestBody (b_model b) (b_stops b) (b_orders b) (b_max_tokens b) (b_top_k b) (b_temperature b) (b_top_p b) (b_min_p b) (b_seed b) (b_stream b) v
    (b_summary_emit b) (b_msgs b) (b_choice_none b) (b_thinking b) (b_effort b) (b_schemas b) (b_system b) (b_loaded b).
Definition set_b_summary_emit (v : bool) (b : request_body) : request_body :=
  RequestBody (b_model b) (b_stops b) (b_orders b) (b_max_tokens b) (b_top_k b) (b_temperature b) (b_top_p b) (b_min_p b) (b_seed b) (b_stream b)
    (b_include_usage b) v (b_msgs b) (b_choice_none b) (b_thinking b) (b_effort b) (b_schemas b) (b_system b) (b_loaded b).
Definition set_b_msgs (v : option (list chat_msg)) (b : request_body) : request_body :=
  RequestBody (b_model b) (b_stops b) (b_orders b) (b_max_tokens b) (b_top_k b) (b_temperature b) (b_top_p b) (b_min_p b) (b_seed b) (b_stream b)
    (b_include_usage b) (b_summary_emit b) v (b_choice_none b) (b_thinking b) (b_effort b) (b_schemas b) (b_system b) (b_loaded b).
Definition set_b_choice_none (v : bool) (b : request_body) : request_body :=
  RequestBody (b_model b) (b_stops b) (b_orders b) (b_max_tokens b) (b_top_k b) (b_temperature b) (b_top_p b) (b_min_p b) (b_seed b) (b_stream b)
    (b_include_usage b) (b_summary_emit b) (b_msgs b) v (b_thinking b) (b_effort b) (b_schemas b) (b_system b) (b_loaded b).
Definition set_b_thinking (v : option bool) (b : request_body) : request_body :=
  RequestBody (b_model b) (b_stops b) (b_orders b) (b_max_tokens b) (b_top_k b) (b_temperature b) (b_top_p b) (b_min_p b) (b_seed b) (b_stream b)
    (b_include_usage b) (b_summary_emit b) (b_msgs b) (b_choice_none b) v (b_effort b) (b_schemas b) (b_system b) (b_loaded b).
Definition set_b_effort (v : ds4_think_mode) (b : request_body) : request_body :=
  RequestBody (b_model b) (b_stops b) (b_orders b) (b_max_tokens b) (b_top_k b) (b_temperature b) (b_top_p b) (b_min_p b) (b_seed b) (b_stream b)
    (b_include_usage b) (b_summary_emit b) (b_msgs b) (b_choice_none b) (b_thinking b) v (b_schemas b) (b_system b) (b_loaded b).
Definition set_b_schemas (v : option bytes) (b : request_body) : request_body :=
  RequestBody (b_model b) (b_stops b) (b_orders b) (b_max_tokens b) (b_top_k b) (b_temperature b) (b_top_p b) (b_min_p b) (b_seed b) (b_stream b)
    (b_include_usage b) (b_summary_emit b) (b_msgs b) (b_choice_none b) (b_thinking b) (b_effort b) v (b_system b) (b_loaded b).
Definition set_b_system (v : option bytes) (b : request_body) : request_body :=
  RequestBody (b_model b) (b_stops b) (b_orders b) (b_max_tokens b) (b_top_k b) (b_temperature b) (b_top_p b) (b_min_p b) (b_seed b) (b_stream b)
    (b_include_usage b) (b_summary_emit b) (b_msgs b) (b_choice_none b) (b_thinking b) (b_effort b) (b_schemas b) v (b_loaded b).
Definition set_b_loaded (v : bytes) (b : request_body) : request_body :=
  RequestBody (b_model b) (b_stops b) (b_orders b) (b_max_tokens b) (b_top_k b) (b_temperature b) (b_top_p b) (b_min_p b) (b_seed b) (b_stream b)
    (b_include_usage b) (b_summary_emit b) (b_msgs b) (b_choice_none b) (b_thinking b) (b_effort b) (b_schemas b) (b_system b) v.

(** [request_init] and the initial locals. *)
Definition body_init (max_tokens : Z) : request_body :=
  RequestBody None (StopList [] 0) [] max_tokens None None None None 0 false false false None false None DS4_THINK_HIGH None None [].

(** ** Fields that several formats have *)

Section handlers.
Context {R : Type} `{!RaxOps R} `{!ReadDir}.
(** What the machine makes of a [double] too large for [uint64_t]. *)
Context (cvt : spec_float → Z).

Definition seed_of (v : spec_float) : Z :=
  if SFltb (b64 0 0) v then (if SFltb v (b64 1 64) then sf_trunc v else cvt v) else 0.

Definition on_string (set : bytes → request_body → request_body) (b : request_body) (s : bytes) : option (request_body * bytes) :=
  '(v, s) ← json_string s; Some (set v b, s).
Definition on_number (set : spec_float → request_body → request_body) (b : request_body) (s : bytes) : option (request_body * bytes) :=
  '(v, s) ← json_number s; Some (set v b, s).
Definition on_int (set : Z → request_body → request_body) (b : request_body) (s : bytes) : option (request_body * bytes) :=
  '(v, s) ← json_int s; Some (set v b, s).
Definition on_bool (set : bool → request_body → request_body) (b : request_body) (s : bytes) : option (request_body * bytes) :=
  '(v, s) ← json_bool s; Some (set v b, s).

Definition tools_member (b : request_body) (s : bytes) : option (request_body * bytes) :=
  '(schemas, orders, s) ← parse_tools_value (b_orders b) s; Some (set_b_schemas (Some schemas) (set_b_orders orders b), s).
Definition model_member : request_body → bytes → option (request_body * bytes) := on_string (λ v, set_b_model (Some v)).
Definition stop_member (b : request_body) (s : bytes) : option (request_body * bytes) :=
  '(v, s) ← parse_stop (b_stops b) s; Some (set_b_stops v b, s).
Definition thinking_member (b : request_body) (s : bytes) : option (request_body * bytes) :=
  '(v, s) ← parse_thinking_control_value (default true (b_thinking b)) s; Some (set_b_thinking (Some v) b, s).
Definition effort_member (b : request_body) (s : bytes) : option (request_body * bytes) :=
  '(v, s) ← parse_reasoning_effort_value (b_effort b) s; Some (set_b_effort v b, s).
Definition stream_options_member (b : request_body) (s : bytes) : option (request_body * bytes) :=
  '(v, s) ← parse_stream_options (b_include_usage b) s; Some (set_b_include_usage v b, s).

Definition temperature_member := on_number (λ v, set_b_temperature (Some (to_float v))).
Definition top_p_member := on_number (λ v, set_b_top_p (Some (to_float v))).
Definition min_p_member := on_number (λ v, set_b_min_p (Some (to_float v))).
Definition top_k_member := on_int (λ v, set_b_top_k (Some v)).

(** ** The members of each format *)

Definition chat_field (key : bytes) (b : request_body) (s : bytes) : option (request_body * bytes) :=
  if bytes_eqb key (bs "messages") then '(msgs, s) ← parse_messages [] s; Some (set_b_msgs (Some msgs) b, s)
  else if bytes_eqb key (bs "tools") then tools_member b s
  else if bytes_eqb key (bs "tool_choice") then
    let s := json_ws s in
    if hd0 s =? 34 then on_string (λ v, set_b_choice_none (bytes_eqb v (bs "none"))) b s else skip_field b s
  else if bytes_eqb key (bs "model") then model_member b s
  else if bytes_eqb key (bs "max_tokens") || bytes_eqb key (bs "max_completion_tokens") then on_int set_b_max_tokens b s
  else if bytes_eqb key (bs "temperature") then temperature_member b s
  else if bytes_eqb key (bs "top_p") then top_p_member b s
  else if bytes_eqb key (bs "min_p") then min_p_member b s
  else if bytes_eqb key (bs "top_k") then top_k_member b s
  else if bytes_eqb key (bs "seed") then on_number (λ v, set_b_seed (seed_of v)) b s
  else if bytes_eqb key (bs "stream") then on_bool set_b_stream b s
  else if bytes_eqb key (bs "stream_options") then stream_options_member b s
  else if bytes_eqb key (bs "thinking") then thinking_member b s
  else if bytes_eqb key (bs "reasoning_effort") then effort_member b s
  else if bytes_eqb key (bs "think") then on_bool (λ v, set_b_thinking (Some v)) b s
  else if bytes_eqb key (bs "stop") then stop_member b s
  else skip_field b s.

Definition completion_field (key : bytes) (b : request_body) (s : bytes) : option (request_body * bytes) :=
  if bytes_eqb key (bs "prompt") then '(v, s) ← parse_prompt s; Some (set_b_system (Some v) b, s)
  else if bytes_eqb key (bs "model") then model_member b s
  else if bytes_eqb key (bs "max_tokens") then on_int set_b_max_tokens b s
  else if bytes_eqb key (bs "temperature") then temperature_member b s
  else if bytes_eqb key (bs "top_p") then top_p_member b s
  else if bytes_eqb key (bs "min_p") then min_p_member b s
  else if bytes_eqb key (bs "top_k") then top_k_member b s
  else if bytes_eqb key (bs "seed") then on_number (λ v, set_b_seed (seed_of v)) b s
  else if bytes_eqb key (bs "stream") then on_bool set_b_stream b s
  else if bytes_eqb key (bs "stream_options") then stream_options_member b s
  else if bytes_eqb key (bs "thinking") then thinking_member b s
  else if bytes_eqb key (bs "reasoning_effort") then effort_member b s
  else if bytes_eqb key (bs "think") then on_bool (λ v, set_b_thinking (Some v)) b s
  else if bytes_eqb key (bs "stop") then stop_member b s
  else skip_field b s.

Definition choice_field (key : bytes) (none : bool) (s : bytes) : option (bool * bytes) :=
  if bytes_eqb key (bs "type") then '(v, s) ← json_string s; Some (bytes_eqb v (bs "none"), s) else skip_field none s.

Definition anthropic_field (key : bytes) (b : request_body) (s : bytes) : option (request_body * bytes) :=
  if bytes_eqb key (bs "messages") then '(msgs, s) ← parse_anthropic_messages [] s; Some (set_b_msgs (Some msgs) b, s)
  else if bytes_eqb key (bs "system") then '(v, s) ← parse_anthropic_system s; Some (set_b_system (Some v) b, s)
  else if bytes_eqb key (bs "tools") then tools_member b s
  else if bytes_eqb key (bs "tool_choice") then
    let s := json_ws s in
    if hd0 s =? 123 then '(v, s) ← json_object choice_field (b_choice_none b) s; Some (set_b_choice_none v b, s) else skip_field b s
  else if bytes_eqb key (bs "model") then model_member b s
  else if bytes_eqb key (bs "max_tokens") then on_int set_b_max_tokens b s
  else if bytes_eqb key (bs "temperature") then temperature_member b s
  else if bytes_eqb key (bs "top_p") then top_p_member b s
  else if bytes_eqb key (bs "top_k") then top_k_member b s
  else if bytes_eqb key (bs "stream") then on_bool set_b_stream b s
  else if bytes_eqb key (bs "stop_sequences") then stop_member b s
  else if bytes_eqb key (bs "thinking") then thinking_member b s
  else if bytes_eqb key (bs "output_config") then '(v, s) ← parse_output_config_effort (b_effort b) s; Some (set_b_effort v b, s)
  else if bytes_eqb key (bs "reasoning_effort") then effort_member b s
  else skip_field b s.

(** *** Responses, whose members can be refused with a reason of their own *)

Definition invalid_json : bytes := bs "invalid JSON request".
Definition or_invalid {A} (o : option A) : bytes + A := match o with Some a => inr a | None => inl invalid_json end.

Definition input_member (b : request_body) (s : bytes) : option (request_body * bytes) :=
  let s := json_ws s in
  if hd0 s =? 34 then on_string (λ v, set_b_msgs (Some [plain_msg (bs "user") v])) b s
  else
    '(st, s) ← parse_responses_input (b_loaded b) (b_orders b) s;
    Some (set_b_msgs (Some (in_msgs st)) (set_b_loaded (in_loaded st) (set_b_orders (in_orders st) b)), s).

Definition reasoning_member (b : request_body) (s : bytes) : option (request_body * bytes) :=
  '(effort, summary, seen, s) ← parse_responses_reasoning (b_effort b, b_summary_emit b, false) s;
  let b := set_b_summary_emit summary (set_b_effort effort b) in
  Some (if seen : bool then set_b_thinking (Some (match effort with DS4_THINK_NONE => false | _ => default true (b_thinking b) end)) b else b, s).

Definition responses_field (errlen : nat) (key : bytes) (b : request_body) (s : bytes) : bytes + (request_body * bytes) :=
  if bytes_eqb key (bs "input") then or_invalid (input_member b s)
  else if bytes_eqb key (bs "instructions") then or_invalid ('(v, s) ← string_or_null s; Some (set_b_system (Some v) b, s))
  else if bytes_eqb key (bs "tools") then or_invalid (tools_member b s)
  else if bytes_eqb key (bs "tool_choice") then
    let s := json_ws s in
    if hd0 s =? 34 then
      match json_string s with
      | None => inl invalid_json
      | Some (choice, s) =>
          if bytes_eqb choice (bs "none") then inr (set_b_choice_none true b, s)
          else if bytes_eqb choice (bs "auto") then inr (b, s)
          else inl (truncated errlen (bs "tool_choice=" ++ choice ++ bs " not supported"))
      end
    else if hd0 s =? 123 then inl (truncated errlen (bs "forced tool_choice not supported"))
    else or_invalid (skip_field b s)
  else if bytes_eqb key (bs "model") then or_invalid (model_member b s)
  else if bytes_eqb key (bs "max_output_tokens") || bytes_eqb key (bs "max_tokens") then or_invalid (on_int set_b_max_tokens b s)
  else if bytes_eqb key (bs "temperature") then or_invalid (temperature_member b s)
  else if bytes_eqb key (bs "top_p") then or_invalid (top_p_member b s)
  else if bytes_eqb key (bs "stream") then or_invalid (on_bool set_b_stream b s)
  else if bytes_eqb key (bs "reasoning") then or_invalid (reasoning_member b s)
  else if bytes_eqb key (bs "previous_response_id") || bytes_eqb key (bs "conversation") then
    match json_lit (bs "null") (json_ws s) with
    | Some r => inr (b, r)
    | None => inl (truncated errlen (key ++ bs " is not supported; replay full input instead"))
    end
  else or_invalid (skip_field b s).

Fixpoint responses_loop (errlen fuel : nat) (b : request_body) (s : bytes) : bytes + request_body :=
  match fuel with
  | O => inl invalid_json
  | S fuel' =>
      if hd0 s =? 125 then inr b
      else if hd0 s =? 0 then inl invalid_json
      else
        match json_string s with
        | None => inl invalid_json
        | Some (key, s) =>
            let s := json_ws s in
            if negb (hd0 s =? 58) then inl invalid_json
            else
              match responses_field errlen key b (tl0 s) with
              | inl e => inl e
              | inr (b, s) => responses_loop errlen fuel' b (skip_comma s)
              end
        end
  end.

(** ** After the loops *)

Definition think_mode_of (b : request_body) (ctx_size : Z) : ds4_think_mode :=
  let model := Some (default (bs "deepseek-v4-flash") (b_model b)) in
  let enabled :=
    match b_thinking b with
    | Some v => v
    | None => if model_alias_enables_thinking model then true else negb (model_alias_disables_thinking model)
    end in
  ds4_think_mode_for_context (think_mode_from_enabled enabled (b_effort b)) ctx_size.

(** The tools that are active: some schema and no choice against them. *)
Definition active_schemas (schemas : option bytes) (choice_none : bool) : option bytes :=
  match schemas with
  | Some (c :: t) => if choice_none then None else Some (c :: t)
  | _ => None
  end.

(** The engine and the parts of the server that a handler uses. *)
Record server_view := ServerView {
  sv_glm : bool;
  sv_vocab : ds4_vocab;
  sv_slots : list slot_live;
  sv_replay : bool;
  sv_kv_enabled : bool;
  sv_model_id : Z;
  sv_files : fs;
  sv_kv_dir : bytes;
  sv_memory : tool_memory R;
}.

Definition server_model_syntax_for_engine (s : server_view) : server_model_syntax :=
  if sv_glm s then SERVER_MODEL_SYNTAX_GLM else SERVER_MODEL_SYNTAX_DEEPSEEK.

Definition no_live : stop_list * option bytes := (StopList [] 0, None).

(** The messages with the sampled text of their calls. *)
Definition with_sampled_text (s : server_view) (msgs : list chat_msg) : option (list chat_msg * tool_replay_stats * tool_memory R) :=
  m ← kv_cache_restore_tool_memory_for_messages (sv_replay s) (sv_kv_enabled s) (sv_memory s) (sv_model_id s) (sv_files s) (sv_kv_dir s) msgs;
  tool_memory_attach_to_messages (sv_replay s) m msgs (ToolReplayStats 0 0 0 0).

(** The request from its parts. *)
Definition make_request (s : server_view) (kind : req_kind) (api : api_style) (b : request_body) (think_mode : ds4_think_mode) (has_tools preserves : bool)
    (prompt_text : bytes) (responses_needs : bool * bool) (responses_live : stop_list * option bytes) (anthropic_needs : bool)
    (anthropic_live : stop_list * option bytes) (stats : tool_replay_stats) : request :=
  Request kind api (server_model_syntax_for_engine s) (tokenize_rendered_chat_vocab (sv_glm s) (sv_vocab s) (Some prompt_text))
    (default (bs "deepseek-v4-flash") (b_model b)) (bool_decide (is_Some (b_model b))) (b_stops b) prompt_text (b_orders b) (b_max_tokens b)
    (default 0 (b_top_k b)) (bool_decide (is_Some (b_top_k b)))
    (default DS4_DEFAULT_TEMPERATURE (b_temperature b)) (bool_decide (is_Some (b_temperature b)))
    (default DS4_DEFAULT_TOP_P (b_top_p b)) (bool_decide (is_Some (b_top_p b)))
    (default DS4_DEFAULT_MIN_P (b_min_p b)) (bool_decide (is_Some (b_min_p b)))
    (b_seed b) (b_stream b) (b_include_usage b) 0 0 think_mode has_tools preserves (b_summary_emit b)
    responses_needs.1 responses_needs.2 responses_live anthropic_needs anthropic_live stats.

(** A request and the memory after it, an error for the client, or undefined. *)
Abbreviation handled := (option (bytes + (request * tool_memory R))).
Definition refuse (e : bytes) : handled := Some (inl e).

Definition finish_chat (s : server_view) (b : request_body) (ctx_size : Z) : handled :=
  match b_msgs b with
  | None => refuse (bs "missing messages")
  | Some msgs =>
      let schemas := active_schemas (b_schemas b) (b_choice_none b) in
      let think_mode := think_mode_of b ctx_size in
      '(msgs, stats, m) ← with_sampled_text s msgs;
      prompt_text ← render_chat_prompt_text_for_syntax (server_model_syntax_for_engine s) msgs schemas (b_orders b) think_mode;
      Some (inr (make_request s REQ_CHAT API_OPENAI b think_mode (bool_decide (is_Some schemas)) (chat_history_uses_tool_context msgs schemas)
                   prompt_text (false, false) no_live false no_live stats, m))
  end.

Definition parse_chat_request (s : server_view) (body : bytes) (def_tokens ctx_size : Z) : handled :=
  match json_object chat_field (body_init def_tokens) (json_ws body) with
  | None => refuse invalid_json
  | Some (b, _) => finish_chat s b ctx_size
  end.

(** The system text comes after the messages. *)
Definition anthropic_history (b : request_body) (msgs : list chat_msg) : list chat_msg :=
  msgs ++ match b_system b with Some (c :: t) => [plain_msg (bs "system") (c :: t)] | _ => [] end.

Definition finish_anthropic (s : server_view) (b : request_body) (ctx_size : Z) (errlen : nat) : handled :=
  match b_msgs b with
  | None => refuse (bs "missing messages")
  | Some msgs =>
      let msgs := anthropic_history b msgs in
      let schemas := active_schemas (b_schemas b) (b_choice_none b) in
      let think_mode := think_mode_of b ctx_size in
      let syntax := server_model_syntax_for_engine s in
      match anthropic_validate_tool_results (sv_slots s) msgs errlen with
      | inl e => refuse e
      | inr needs =>
          '(msgs, stats, m) ← with_sampled_text s msgs;
          prompt_text ← render_chat_prompt_text_for_syntax syntax msgs schemas (b_orders b) think_mode;
          Some (inr (make_request s REQ_CHAT API_ANTHROPIC b think_mode (bool_decide (is_Some schemas)) (chat_history_uses_tool_context msgs schemas)
                       prompt_text (false, false) no_live needs
                       (default no_live (anthropic_prepare_live_continuation syntax (b_orders b) think_mode msgs)) stats, m))
      end
  end.

Definition parse_anthropic_request (s : server_view) (body : bytes) (def_tokens ctx_size : Z) (errlen : nat) : handled :=
  match json_object anthropic_field (body_init def_tokens) (json_ws body) with
  | None => refuse invalid_json
  | Some (b, _) => finish_anthropic s b ctx_size errlen
  end.

(** The schemas of the request and those loaded by searches. *)
Definition combined_schemas (b : request_body) : option bytes :=
  let own := default [] (b_schemas b) in
  match own, b_loaded b with
  | [], [] => None
  | [], l => Some l
  | o, [] => Some o
  | o, l => Some (o ++ [10] ++ l)
  end.

(** The instructions come before the messages. *)
Definition responses_history (b : request_body) (msgs : list chat_msg) : list chat_msg :=
  match b_system b with Some (c :: t) => [plain_msg (bs "system") (c :: t)] | _ => [] end ++ msgs.

Definition finish_responses (s : server_view) (b : request_body) (ctx_size : Z) (errlen : nat) : handled :=
  match b_msgs b with
  | None => refuse (bs "missing input")
  | Some msgs =>
      let msgs := responses_history b msgs in
      let schemas := active_schemas (combined_schemas b) (b_choice_none b) in
      let think_mode := think_mode_of b ctx_size in
      let syntax := server_model_syntax_for_engine s in
      match responses_validate_tool_outputs (sv_slots s) msgs think_mode errlen with
      | inl e => refuse e
      | inr needs =>
          '(msgs, stats, m) ← with_sampled_text s msgs;
          prompt_text ← render_chat_prompt_text_for_syntax syntax msgs schemas (b_orders b) think_mode;
          Some (inr (make_request s REQ_CHAT API_RESPONSES b think_mode (bool_decide (is_Some schemas)) (chat_history_uses_tool_context msgs schemas)
                       prompt_text needs
                       (default no_live (responses_prepare_live_continuation syntax (b_orders b) think_mode msgs)) false no_live stats, m))
      end
  end.

Definition parse_responses_request (s : server_view) (body : bytes) (def_tokens ctx_size : Z) (errlen : nat) : handled :=
  let p := json_ws body in
  if negb (hd0 p =? 123) then refuse invalid_json
  else
    let p := json_ws (tl0 p) in
    match responses_loop errlen (S (length p)) (body_init def_tokens) p with
    | inl e => refuse e
    | inr b => finish_responses s b ctx_size errlen
    end.

Definition finish_completion (s : server_view) (b : request_body) (ctx_size : Z) : handled :=
  match b_system b with
  | None => refuse (bs "missing prompt")
  | Some prompt =>
      let think_mode := think_mode_of b ctx_size in
      let msgs := [plain_msg (bs "system") (bs "You are a helpful assistant"); plain_msg (bs "user") prompt] in
      prompt_text ← render_chat_prompt_text_for_syntax (server_model_syntax_for_engine s) msgs None [] think_mode;
      Some (inr (make_request s REQ_COMPLETION API_OPENAI b think_mode false false prompt_text (false, false) no_live false no_live
                   (ToolReplayStats 0 0 0 0), sv_memory s))
  end.

Definition parse_completion_request (s : server_view) (body : bytes) (def_tokens ctx_size : Z) : handled :=
  match json_object completion_field (body_init def_tokens) (json_ws body) with
  | None => refuse invalid_json
  | Some (b, _) => finish_completion s b ctx_size
  end.
End handlers.
