(* ===== verification/HandlerProps.v ===== *)
(** * Whole requests are what their documents say

    On the printed form of a document every handler computes what its tree says: each
    field of the request comes from its own members alone, in whatever order the
    members with other keys stand between them, members with unknown keys are ignored,
    and a document with a member of the wrong shape is refused. *)
From S2P Require Import Prelude CLib Strtod Json JsonProps JsonSafe Request RequestProps JsonTree ToolText ToolMemory KvHeader KvCache ToolMap.
From S2P Require Import LiveState Prompt Continuation StrTable Tokenizer Reply ToolReplay KvCacheProps ToolSchemas ClientInput RequestTree Handlers.
From Stdlib Require Import SpecFloat.

#[local] Opaque json_escape json_string.

(** ** The loops on trees *)

Section trees.
Context (cvt : spec_float → Z).

Definition on_tree {A} (g : json → option A) (set : A → request_body → request_body) (b : request_body) (v : json) : option request_body := (λ x, set x b) <$> g v.

Definition int_of (v : json) : option Z := clamp_int <$> num_of v.
Definition float_of (v : json) : option spec_float := to_float <$> num_of v.

Definition tools_tree (b : request_body) (v : json) : option request_body :=
  (λ t, set_b_schemas (Some t.1) (set_b_orders t.2 b)) <$> tools_of (b_orders b) v.

(** The members that chat and completion requests share. *)
Definition common_member (k : bytes) (b : request_body) (v : json) : option request_body :=
  if bytes_eqb k (bs "model") then on_tree str_of (λ x, set_b_model (Some x)) b v
  else if bytes_eqb k (bs "temperature") then on_tree float_of (λ x, set_b_temperature (Some x)) b v
  else if bytes_eqb k (bs "top_p") then on_tree float_of (λ x, set_b_top_p (Some x)) b v
  else if bytes_eqb k (bs "min_p") then on_tree float_of (λ x, set_b_min_p (Some x)) b v
  else if bytes_eqb k (bs "top_k") then on_tree int_of (λ x, set_b_top_k (Some x)) b v
  else if bytes_eqb k (bs "seed") then on_tree num_of (λ x, set_b_seed (seed_of cvt x)) b v
  else if bytes_eqb k (bs "stream") then on_tree bool_of set_b_stream b v
  else if bytes_eqb k (bs "stream_options") then on_tree (stream_options_of (b_include_usage b)) set_b_include_usage b v
  else if bytes_eqb k (bs "thinking") then on_tree (thinking_of (default true (b_thinking b))) (λ x, set_b_thinking (Some x)) b v
  else if bytes_eqb k (bs "reasoning_effort") then on_tree (effort_of (b_effort b)) set_b_effort b v
  else if bytes_eqb k (bs "think") then on_tree bool_of (λ x, set_b_thinking (Some x)) b v
  else if bytes_eqb k (bs "stop") then on_tree stops_of set_b_stops b v
  else Some b.

Definition chat_member (k : bytes) (b : request_body) (v : json) : option request_body :=
  if bytes_eqb k (bs "messages") then on_tree messages_of (λ x, set_b_msgs (Some x)) b v
  else if bytes_eqb k (bs "tools") then tools_tree b v
  else if bytes_eqb k (bs "tool_choice") then Some (match v with JStr c => set_b_choice_none (bytes_eqb c (bs "none")) b | _ => b end)
  else if bytes_eqb k (bs "max_tokens") || bytes_eqb k (bs "max_completion_tokens") then on_tree int_of set_b_max_tokens b v
  else common_member k b v.

Definition completion_member (k : bytes) (b : request_body) (v : json) : option request_body :=
  if bytes_eqb k (bs "prompt") then on_tree prompt_of (λ x, set_b_system (Some x)) b v
  else if bytes_eqb k (bs "max_tokens") then on_tree int_of set_b_max_tokens b v
  else common_member k b v.

Lemma reads_on {A} (f : bytes → option (A * bytes)) g (set : A → request_body → request_body) b : reads f g →
  reads (λ s, '(v, s) ← f s; Some (set v b, s)) (on_tree g set b).
Proof. intros H. by apply (reads_map _ _ (λ x, set x b)). Qed.

Lemma reads_float set b : reads (on_number (λ v, set (Some (to_float v))) b) (on_tree float_of (λ x, set (Some x)) b).
Proof. unfold on_number. intros v rest Hv Hr. rewrite reads_number by done. unfold on_tree, float_of. by destruct (num_of v). Qed.

Lemma reads_tools_member b : reads (tools_member b) (tools_tree b).
Proof. intros v rest Hv Hr. unfold tools_member, tools_tree. rewrite reads_tools by done. by destruct (tools_of (b_orders b) v) as [[]|]. Qed.

Create HintDb members.
#[local] Hint Resolve reads_string reads_number reads_int reads_bool reads_messages reads_stream_options reads_thinking reads_effort reads_stop reads_prompt
  reads_anthropic_messages reads_system reads_output_config reads_on reads_float reads_tools_member reads_skip : members.

(** A member is either known to both or skipped by both. *)
Ltac known := first [apply reads_skip | apply reads_tools_member | apply reads_float | lazymatch goal with
  | |- reads _ (λ v, on_tree ?g ?set ?b v) => apply (reads_on _ g set b); auto with members
  | |- reads _ (on_tree ?g ?set ?b) => apply (reads_on _ g set b); auto with members end].
Ltac decide_keys := repeat match goal with |- context [bytes_eqb (bs ?x) (bs ?y)] =>
  let r := eval vm_compute in (bytes_eqb (bs x) (bs y)) in change (bytes_eqb (bs x) (bs y)) with r end; cbn [orb]; cbn iota.
Ltac same_members := intros k b; repeat match goal with |- context [bytes_eqb k ?x] => let E := fresh "E" in destruct (bytes_eqb k x) eqn:E; [apply bytes_eqb_eq in E; subst k; decide_keys|] end; cbn [orb]; cbn iota.

Lemma reads_chat k b : reads (chat_field cvt k b) (chat_member k b).
Proof.
  revert k b. unfold chat_field, chat_member, common_member. same_members; try known.
  intros v rest Hv Hr. rewrite print_ws, print_str by apply Hv. destruct v as [| | |s| |]; cbn [is_str]; try (by apply reads_skip).
  unfold on_string. by rewrite reads_string.
Qed.

Lemma reads_completion k b : reads (completion_field cvt k b) (completion_member k b).
Proof. revert k b. unfold completion_field, completion_member, common_member. same_members; known. Qed.

Definition choice_member (k : bytes) (none : bool) (v : json) : option bool :=
  if bytes_eqb k (bs "type") then (λ c, bytes_eqb c (bs "none")) <$> str_of v else Some none.
Definition choice_of (none : bool) (v : json) : option bool := match v with JObj l => members choice_member none l | _ => Some none end.

Definition anthropic_body_member (k : bytes) (b : request_body) (v : json) : option request_body :=
  if bytes_eqb k (bs "messages") then on_tree anthropic_messages_of (λ x, set_b_msgs (Some x)) b v
  else if bytes_eqb k (bs "system") then on_tree system_of (λ x, set_b_system (Some x)) b v
  else if bytes_eqb k (bs "tools") then tools_tree b v
  else if bytes_eqb k (bs "tool_choice") then on_tree (choice_of (b_choice_none b)) set_b_choice_none b v
  else if bytes_eqb k (bs "model") then on_tree str_of (λ x, set_b_model (Some x)) b v
  else if bytes_eqb k (bs "max_tokens") then on_tree int_of set_b_max_tokens b v
  else if bytes_eqb k (bs "temperature") then on_tree float_of (λ x, set_b_temperature (Some x)) b v
  else if bytes_eqb k (bs "top_p") then on_tree float_of (λ x, set_b_top_p (Some x)) b v
  else if bytes_eqb k (bs "top_k") then on_tree int_of (λ x, set_b_top_k (Some x)) b v
  else if bytes_eqb k (bs "stream") then on_tree bool_of set_b_stream b v
  else if bytes_eqb k (bs "stop_sequences") then on_tree stops_of set_b_stops b v
  else if bytes_eqb k (bs "thinking") then on_tree (thinking_of (default true (b_thinking b))) (λ x, set_b_thinking (Some x)) b v
  else if bytes_eqb k (bs "output_config") then on_tree (output_config_of (b_effort b)) set_b_effort b v
  else if bytes_eqb k (bs "reasoning_effort") then on_tree (effort_of (b_effort b)) set_b_effort b v
  else Some b.

Lemma reads_choice none : reads (json_object choice_field none) (λ v, match v with JObj l => members choice_member none l | _ => None end).
Proof. apply reads_object. intros k st. unfold choice_field, choice_member. by_key; [apply reads_map, reads_string|apply reads_skip]. Qed.

Lemma reads_anthropic k b : reads (anthropic_field k b) (anthropic_body_member k b).
Proof.
  revert k b. unfold anthropic_field, anthropic_body_member. same_members; try known.
  intros v rest Hv Hr. rewrite print_ws, print_obj by apply Hv. unfold on_tree. destruct v as [| | | | |l]; cbn [is_obj choice_of]; try (by rewrite reads_skip; destruct b).
  rewrite reads_choice by done. by destruct (members choice_member (b_choice_none b) l).
Qed.

(** *** Responses *)

Definition input_tree (b : request_body) (v : json) : option request_body :=
  match v with
  | JStr t => Some (set_b_msgs (Some [plain_msg (bs "user") t]) b)
  | _ => (λ st, set_b_msgs (Some (in_msgs st)) (set_b_loaded (in_loaded st) (set_b_orders (in_orders st) b))) <$> input_of_items (b_loaded b) (b_orders b) v
  end.

(** The thinking controls after a [reasoning] member. *)
Definition reasoning_result (thinking : option bool) (st : reasoning_state) : option bool :=
  if st.2 : bool then Some (match st.1.1 with DS4_THINK_NONE => false | _ => default true thinking end) else thinking.
Definition reasoning_tree (b : request_body) (v : json) : option request_body :=
  (λ st, set_b_thinking (reasoning_result (b_thinking b) st) (set_b_summary_emit st.1.2 (set_b_effort st.1.1 b)))
  <$> reasoning_of (b_effort b, b_summary_emit b, false) v.

Definition responses_member (errlen : nat) (k : bytes) (b : request_body) (v : json) : bytes + request_body :=
  if bytes_eqb k (bs "input") then or_invalid (input_tree b v)
  else if bytes_eqb k (bs "instructions") then or_invalid (on_tree str_or_null (λ x, set_b_system (Some x)) b v)
  else if bytes_eqb k (bs "tools") then or_invalid (tools_tree b v)
  else if bytes_eqb k (bs "tool_choice") then
    match v with
    | JStr c =>
        if bytes_eqb c (bs "none") then inr (set_b_choice_none true b)
        else if bytes_eqb c (bs "auto") then inr b
        else inl (truncated errlen (bs "tool_choice=" ++ c ++ bs " not supported"))
    | JObj _ => inl (truncated errlen (bs "forced tool_choice not supported"))
    | _ => inr b
    end
  else if bytes_eqb k (bs "model") then or_invalid (on_tree str_of (λ x, set_b_model (Some x)) b v)
  else if bytes_eqb k (bs "max_output_tokens") || bytes_eqb k (bs "max_tokens") then or_invalid (on_tree int_of set_b_max_tokens b v)
  else if bytes_eqb k (bs "temperature") then or_invalid (on_tree float_of (λ x, set_b_temperature (Some x)) b v)
  else if bytes_eqb k (bs "top_p") then or_invalid (on_tree float_of (λ x, set_b_top_p (Some x)) b v)
  else if bytes_eqb k (bs "stream") then or_invalid (on_tree bool_of set_b_stream b v)
  else if bytes_eqb k (bs "reasoning") then or_invalid (reasoning_tree b v)
  else if bytes_eqb k (bs "previous_response_id") || bytes_eqb k (bs "conversation") then
    if is_null v then inr b else inl (truncated errlen (k ++ bs " is not supported; replay full input instead"))
  else inr b.

(** A reader with reasons. *)
Definition tries (f : bytes → bytes + (request_body * bytes)) (g : json → bytes + request_body) : Prop :=
  ∀ v rest, doc 256 v → value_end rest → f (jprint v ++ rest) = match g v with inl e => inl e | inr b => inr (b, rest) end.

Lemma tries_reads f g : reads f g → tries (λ s, or_invalid (f s)) (λ v, or_invalid (g v)).
Proof. intros H v rest Hv Hr. rewrite H by done. by destruct (g v). Qed.

Lemma reads_input_member b : reads (input_member b) (input_tree b).
Proof.
  past_ws input_member. intros v rest Hv Hr. rewrite print_str by apply Hv. destruct v as [| | |t| |]; cbn [is_str];
    try (rewrite reads_input by done; unfold input_tree; by destruct (input_of_items (b_loaded b) (b_orders b) _)).
  unfold on_string. by rewrite reads_string.
Qed.

Lemma reads_reasoning_member b : reads (reasoning_member b) (reasoning_tree b).
Proof.
  intros v rest Hv Hr. unfold reasoning_member, reasoning_tree. rewrite reads_reasoning by done.
  destruct (reasoning_of _ v) as [[[effort summary] seen]|]; [|done]. fmap_some. cbn [fst snd]. by destruct seen, b.
Qed.

Lemma reads_instructions b : reads (λ s, '(v, s) ← string_or_null s; Some (set_b_system (Some v) b, s)) (on_tree str_or_null (λ x, set_b_system (Some x)) b).
Proof. apply (reads_on _ str_or_null (λ x, set_b_system (Some x)) b), reads_string_or_null. Qed.

Lemma tries_responses errlen k b : tries (responses_field errlen k b) (responses_member errlen k b).
Proof.
  revert k b. unfold responses_field, responses_member. same_members;
    try (apply tries_reads; first [apply reads_input_member|apply reads_instructions|apply reads_reasoning_member|known]);
    try (intros v rest Hv Hr; rewrite print_ws, print_null by apply Hv; by destruct (is_null v)); [|exact (tries_reads _ _ (reads_skip b))].
  intros v rest Hv Hr. rewrite print_ws, print_str, print_obj by apply Hv.
  destruct v as [| | |c| |]; cbn [is_str is_obj]; try done; try (by rewrite reads_skip). rewrite reads_string by done. cbn [str_of]. fmap_some. cbv beta iota.
  by destruct (bytes_eqb c (bs "none")), (bytes_eqb c (bs "auto")).
Qed.

Fixpoint try_members (errlen : nat) (b : request_body) (l : list (bytes * json)) : bytes + request_body :=
  match l with
  | [] => inr b
  | (k, v) :: l' => match responses_member errlen k b v with inl e => inl e | inr b => try_members errlen b l' end
  end.

Lemma responses_loop_print errlen l rest : ∀ b fuel, Forall (λ kv, str_ok kv.1 ∧ doc 256 kv.2) l → (length l < fuel)%nat →
  responses_loop errlen fuel b (join_close 125 (member <$> l) ++ rest) = try_members errlen b l.
Proof.
  induction l as [|[k v] l IH]; intros b fuel Hl Hfuel; destruct fuel as [|fuel]; cbn [length] in Hfuel; try lia; [done|].
  apply Forall_cons in Hl as [[[Hb Hn] Hv] Hl]. rewrite member_text. cbn [fst snd try_members responses_loop] in *. rewrite escape_hd. cbn [Z.eqb Pos.eqb].
  rewrite json_string_escape by done. rewrite json_ws_stop by done. cbn [hd0 tl0 Z.eqb Pos.eqb negb].
  rewrite (tries_responses errlen k b v _ Hv (after_end 125 (member <$> l) rest (or_intror eq_refl))).
  destruct (responses_member errlen k b v) as [e|b']; [done|]. rewrite members_skip. apply IH; [done|lia].
Qed.

(** ** A field and its members *)

(** What the members with some keys make of a state. *)
Definition of_keys {A} (keys : list string) (g : bytes → A → json → option A) : A → list (bytes * json) → option A :=
  members (λ k a v, if one_of k keys then g k a v else Some a).

Lemma of_keys_cons {A} keys (g : bytes → A → json → option A) a k v l :
  of_keys keys g a ((k, v) :: l) = (if one_of k keys then g k a v else Some a) ≫= λ a, of_keys keys g a l.
Proof. done. Qed.

(** The schemas, the orders, the loaded schemas and the messages: members that all
    add to the orders. *)
Record conversation := Conversation { cv_schemas : option bytes; cv_orders : list tool_schema_order; cv_loaded : bytes; cv_msgs : option (list chat_msg) }.
(** The thinking switch, the effort and whether summaries are sent. *)
Record thinking := Thinking { th_switch : option bool; th_effort : ds4_think_mode; th_summary : bool }.

(** The keys of a format, and its readers where they differ. *)
Record format := Format {
  k_max_tokens : list string; k_stops : list string; k_top_k : list string; k_min_p : list string; k_seed : list string; k_usage : list string;
  k_conversation : list string; read_conversation : bytes → conversation → json → option conversation;
  k_thinking : list string; read_thinking : bytes → thinking → json → option thinking;
  k_choice : list string; read_choice : bool → json → option bool;
  k_system : list string; read_system : json → option bytes;
}.

Definition conversation_of_body (b : request_body) : conversation := Conversation (b_schemas b) (b_orders b) (b_loaded b) (b_msgs b).
Definition thinking_of_body (b : request_body) : thinking := Thinking (b_thinking b) (b_effort b) (b_summary_emit b).

(** Every field of the request from its own members. *)
Definition fields (F : format) (b : request_body) (l : list (bytes * json)) : option request_body :=
  model ← of_keys ["model"] (λ _ _ v, Some <$> str_of v) (b_model b) l;
  stops ← of_keys (k_stops F) (λ _ _, stops_of) (b_stops b) l;
  max_tokens ← of_keys (k_max_tokens F) (λ _ _, int_of) (b_max_tokens b) l;
  top_k ← of_keys (k_top_k F) (λ _ _ v, Some <$> int_of v) (b_top_k b) l;
  temperature ← of_keys ["temperature"] (λ _ _ v, Some <$> float_of v) (b_temperature b) l;
  top_p ← of_keys ["top_p"] (λ _ _ v, Some <$> float_of v) (b_top_p b) l;
  min_p ← of_keys (k_min_p F) (λ _ _ v, Some <$> float_of v) (b_min_p b) l;
  seed ← of_keys (k_seed F) (λ _ _ v, seed_of cvt <$> num_of v) (b_seed b) l;
  stream ← of_keys ["stream"] (λ _ _, bool_of) (b_stream b) l;
  usage ← of_keys (k_usage F) (λ _, stream_options_of) (b_include_usage b) l;
  choice ← of_keys (k_choice F) (λ _, read_choice F) (b_choice_none b) l;
  system ← of_keys (k_system F) (λ _ _ v, Some <$> read_system F v) (b_system b) l;
  c ← of_keys (k_conversation F) (read_conversation F) (conversation_of_body b) l;
  t ← of_keys (k_thinking F) (read_thinking F) (thinking_of_body b) l;
  Some (RequestBody model stops (cv_orders c) max_tokens top_k temperature top_p min_p seed stream usage (th_summary t) (cv_msgs c) choice
          (th_switch t) (th_effort t) (cv_schemas c) system (cv_loaded c)).

Definition read_tools (c : conversation) (v : json) : option conversation :=
  (λ t, Conversation (Some t.1) t.2 (cv_loaded c) (cv_msgs c)) <$> tools_of (cv_orders c) v.
Definition set_msgs (c : conversation) (msgs : list chat_msg) : conversation := Conversation (cv_schemas c) (cv_orders c) (cv_loaded c) (Some msgs).
Definition read_switch (t : thinking) (o : option bool) : option thinking := (λ x, Thinking (Some x) (th_effort t) (th_summary t)) <$> o.
Definition read_effort (t : thinking) (o : option ds4_think_mode) : option thinking := (λ x, Thinking (th_switch t) x (th_summary t)) <$> o.

Definition chat_thinking (k : bytes) (t : thinking) (v : json) : option thinking :=
  if bytes_eqb k (bs "thinking") then read_switch t (thinking_of (default true (th_switch t)) v)
  else if bytes_eqb k (bs "think") then read_switch t (bool_of v)
  else read_effort t (effort_of (th_effort t) v).

Definition chat_format : format := {|
  k_max_tokens := ["max_tokens"; "max_completion_tokens"]; k_stops := ["stop"]; k_top_k := ["top_k"]; k_min_p := ["min_p"]; k_seed := ["seed"]; k_usage := ["stream_options"];
  k_conversation := ["messages"; "tools"];
  read_conversation k c v := if bytes_eqb k (bs "messages") then set_msgs c <$> messages_of v else read_tools c v;
  k_thinking := ["thinking"; "think"; "reasoning_effort"]; read_thinking := chat_thinking;
  k_choice := ["tool_choice"]; read_choice none v := Some (match v with JStr c => bytes_eqb c (bs "none") | _ => none end);
  k_system := []; read_system v := None |}.

Definition completion_format : format := {|
  k_max_tokens := ["max_tokens"]; k_stops := ["stop"]; k_top_k := ["top_k"]; k_min_p := ["min_p"]; k_seed := ["seed"]; k_usage := ["stream_options"];
  k_conversation := []; read_conversation k c v := None;
  k_thinking := ["thinking"; "think"; "reasoning_effort"]; read_thinking := chat_thinking;
  k_choice := []; read_choice none v := None;
  k_system := ["prompt"]; read_system := prompt_of |}.

Definition anthropic_format : format := {|
  k_max_tokens := ["max_tokens"]; k_stops := ["stop_sequences"]; k_top_k := ["top_k"]; k_min_p := []; k_seed := []; k_usage := [];
  k_conversation := ["messages"; "tools"];
  read_conversation k c v := if bytes_eqb k (bs "messages") then set_msgs c <$> anthropic_messages_of v else read_tools c v;
  k_thinking := ["thinking"; "output_config"; "reasoning_effort"];
  read_thinking k t v :=
    if bytes_eqb k (bs "thinking") then read_switch t (thinking_of (default true (th_switch t)) v)
    else if bytes_eqb k (bs "output_config") then read_effort t (output_config_of (th_effort t) v)
    else read_effort t (effort_of (th_effort t) v);
  k_choice := ["tool_choice"]; read_choice := choice_of;
  k_system := ["system"]; read_system := system_of |}.

(** The members of one step of the loop go to their fields. *)
Ltac chain_none := repeat match goal with |- None = of_keys ?ks ?g ?a ?l ≫= _ => destruct (of_keys ks g a l); cbn [mbind option_bind]; [|reflexivity] end; reflexivity.
Ltac one_field IH :=
  unfold on_tree, tools_tree, read_tools, read_switch, read_effort, chat_thinking, conversation_of_body, thinking_of_body in *; cbn [cv_schemas cv_orders cv_loaded cv_msgs th_switch th_effort th_summary];
  repeat match goal with
  | |- context [@fmap option _ _ _ _ (?g ?v)] => lazymatch type of v with json => destruct (g v) end
  end; fmap_some; cbn [fmap option_fmap option_map mbind option_bind]; [rewrite IH; reflexivity|chain_none].
Ltac split_member F :=
  cbn [members]; unfold fields; rewrite !of_keys_cons;
  cbn [one_of existsb F k_max_tokens k_stops k_top_k k_min_p k_seed k_usage k_conversation read_conversation k_thinking read_thinking k_choice read_choice k_system read_system].

Lemma chat_fields l : ∀ b, members chat_member b l = fields chat_format b l.
Proof.
  induction l as [|[k v] l IH]; intros b; [by destruct b|]. split_member chat_format. unfold chat_member, common_member.
  revert k b. same_members; cbn [orb mbind option_bind]; try (rewrite IH; reflexivity); try one_field IH.
  destruct v; rewrite IH; reflexivity.
Qed.

Lemma completion_fields l : ∀ b, members completion_member b l = fields completion_format b l.
Proof.
  induction l as [|[k v] l IH]; intros b; [by destruct b|]. split_member completion_format. unfold completion_member, common_member.
  revert k b. same_members; cbn [orb mbind option_bind]; try (rewrite IH; reflexivity); one_field IH.
Qed.

Lemma anthropic_fields l : ∀ b, members anthropic_body_member b l = fields anthropic_format b l.
Proof.
  induction l as [|[k v] l IH]; intros b; [by destruct b|]. split_member anthropic_format. unfold anthropic_body_member.
  revert k b. same_members; cbn [orb mbind option_bind]; try (rewrite IH; reflexivity); one_field IH.
Qed.

(** *** Responses *)

Definition input_conversation (c : conversation) (v : json) : option conversation :=
  match v with
  | JStr t => Some (set_msgs c [plain_msg (bs "user") t])
  | _ => (λ st, Conversation (cv_schemas c) (in_orders st) (in_loaded st) (Some (in_msgs st))) <$> input_of_items (cv_loaded c) (cv_orders c) v
  end.

Definition responses_format : format := {|
  k_max_tokens := ["max_output_tokens"; "max_tokens"]; k_stops := []; k_top_k := []; k_min_p := []; k_seed := []; k_usage := [];
  k_conversation := ["input"; "tools"];
  read_conversation k c v := if bytes_eqb k (bs "input") then input_conversation c v else read_tools c v;
  k_thinking := ["reasoning"];
  read_thinking k t v := (λ st, Thinking (reasoning_result (th_switch t) st) st.1.1 st.1.2) <$> reasoning_of (th_effort t, th_summary t, false) v;
  k_choice := ["tool_choice"];
  read_choice none v :=
    match v with
    | JStr c => if bytes_eqb c (bs "none") then Some true else if bytes_eqb c (bs "auto") then Some none else None
    | JObj _ => None
    | _ => Some none
    end;
  k_system := ["instructions"]; read_system := str_or_null |}.

(** A reference to stored state, which is not kept here. *)
Definition durable (kv : bytes * json) : bool := one_of kv.1 ["previous_response_id"; "conversation"] && negb (is_null kv.2).

(** Why a member is refused. *)
Definition reason (errlen : nat) (k : bytes) (v : json) : bytes :=
  if bytes_eqb k (bs "tool_choice") then
    match v with
    | JStr c => truncated errlen (bs "tool_choice=" ++ c ++ bs " not supported")
    | _ => truncated errlen (bs "forced tool_choice not supported")
    end
  else if one_of k ["previous_response_id"; "conversation"] then truncated errlen (k ++ bs " is not supported; replay full input instead")
  else invalid_json.

Definition responses_fields (b : request_body) (l : list (bytes * json)) : option request_body :=
  if existsb durable l then None else fields responses_format b l.

(** One member: it is refused with its reason, or it goes to its field. *)
Lemma responses_step errlen k b v l : responses_fields b ((k, v) :: l) = match responses_member errlen k b v with inl _ => None | inr b' => responses_fields b' l end.
Proof.
  unfold responses_fields. cbn [existsb]. destruct (existsb durable l); [rewrite orb_true_r; by destruct (responses_member errlen k b v)|]. rewrite orb_false_r.
  unfold fields at 1. rewrite !of_keys_cons. unfold durable. cbn [fst snd].
  cbn [one_of existsb responses_format k_max_tokens k_stops k_top_k k_min_p k_seed k_usage k_conversation read_conversation k_thinking read_thinking k_choice read_choice k_system read_system].
  unfold responses_member. revert k b. same_members; cbn [orb andb mbind option_bind]; try reflexivity.
  all: unfold on_tree, tools_tree, read_tools, reasoning_tree, input_tree, input_conversation, conversation_of_body, thinking_of_body, or_invalid in *;
    cbn [cv_schemas cv_orders cv_loaded cv_msgs th_switch th_effort th_summary].
  all: try (destruct v; try destruct (bytes_eqb _ (bs "none")); try destruct (bytes_eqb _ (bs "auto")); cbn [is_null negb fmap option_fmap option_map mbind option_bind]; first [reflexivity|symmetry; chain_none]).
  all: try match goal with |- context [match ?x with JStr _ => _ | _ => _ end] => is_var x; destruct x end.
  all: repeat match goal with
  | |- context [@fmap option _ _ _ _ (?g ?v)] => lazymatch type of v with json => destruct (g v) end
  end; fmap_some; cbn [fmap option_fmap option_map mbind option_bind]; first [reflexivity|symmetry; chain_none].
Qed.

Lemma responses_reason errlen k b v e : responses_member errlen k b v = inl e → e = reason errlen k v.
Proof.
  unfold responses_member, reason, or_invalid. cbn [one_of existsb]. revert k b. same_members; cbn [orb]; repeat case_match; intros; simplify_eq; done.
Qed.

(** The first member that is refused, or every field from its members. *)
Fixpoint refused (b : request_body) (l : list (bytes * json)) : (bytes * json) + request_body :=
  match l with
  | [] => inr b
  | kv :: l' => match responses_fields b [kv] with None => inl kv | Some b' => refused b' l' end
  end.

Lemma responses_none b : responses_fields b [] = Some b.
Proof. by destruct b. Qed.

Lemma try_refused errlen l : ∀ b, try_members errlen b l = match refused b l with inl (k, v) => inl (reason errlen k v) | inr b' => inr b' end.
Proof.
  induction l as [|[k v] l IH]; intros b; [done|]. cbn [try_members refused]. rewrite (responses_step errlen).
  destruct (responses_member errlen k b v) as [e|b'] eqn:E; [f_equal; by eapply responses_reason|]. rewrite responses_none. apply IH.
Qed.

Lemma responses_cons b kv l : responses_fields b (kv :: l) = responses_fields b [kv] ≫= λ b', responses_fields b' l.
Proof. destruct kv as [k v]. rewrite !(responses_step 0 k). destruct (responses_member 0 k b v); [reflexivity|]. by rewrite responses_none. Qed.

Lemma refused_outcome l : ∀ b,
  match refused b l with
  | inr b' => responses_fields b l = Some b'
  | inl (k, v) => ∃ l1 l2, l = l1 ++ (k, v) :: l2 ∧ is_Some (responses_fields b l1) ∧ responses_fields b (l1 ++ [(k, v)]) = None ∧ responses_fields b l = None
  end.
Proof.
  induction l as [|kv l IH]; intros b; [apply responses_none|]. cbn [refused]. rewrite (responses_cons b kv l). destruct (responses_fields b [kv]) as [b'|] eqn:E.
  - specialize (IH b'). cbn [mbind option_bind]. destruct (refused b' l) as [[k v]|]; [|done]. destruct IH as (l1 & l2 & -> & Hs & Hn & Ha).
    exists (kv :: l1), l2. cbn [app]. rewrite (responses_cons b kv l1), (responses_cons b kv (l1 ++ [(k, v)])), E. by split_and!.
  - destruct kv as [k v]. exists [], l. split_and!; [done|by rewrite responses_none|done|done].
Qed.
End trees.

(** ** The handlers *)

Section requests.
Context {R : Type} `{!RaxOps R} `{!ReadDir} (cvt : spec_float → Z).

(** A body that is an object is read member by member. *)
Lemma body_object (field : bytes → request_body → bytes → option (request_body * bytes)) fieldT b l rest :
  (∀ k b, reads (field k b) (fieldT k b)) → doc 256 (JObj l) → value_end rest →
  json_object field b (json_ws (jprint (JObj l) ++ rest)) = (λ b, (b, rest)) <$> members fieldT b l.
Proof. intros Hf Hd Hr. rewrite print_ws by apply Hd. by apply (reads_object field fieldT). Qed.

(** Chat and completion requests: whatever the body is as a JSON document, whatever the
    order of its members and whatever follows it, the handlers compute each field of the
    request from the members with its keys alone (the last one where a later member
    replaces an earlier one), ignore members with other keys, refuse a document in which
    a member has the wrong shape, and go on with those fields. *)
Lemma chat_read (s : server_view (R := R)) l rest def_tokens ctx_size : doc 256 (JObj l) → value_end rest →
  parse_chat_request cvt s (jprint (JObj l) ++ rest) def_tokens ctx_size
  = match fields cvt chat_format (body_init def_tokens) l with Some b => finish_chat s b ctx_size | None => refuse invalid_json end.
Proof.
  intros Hd Hr. unfold parse_chat_request. rewrite (body_object _ (chat_member cvt)) by (done || apply reads_chat). rewrite chat_fields. by destruct (fields cvt _ _ l).
Qed.

Lemma completion_read (s : server_view (R := R)) l rest def_tokens ctx_size : doc 256 (JObj l) → value_end rest →
  parse_completion_request cvt s (jprint (JObj l) ++ rest) def_tokens ctx_size
  = match fields cvt completion_format (body_init def_tokens) l with Some b => finish_completion s b ctx_size | None => refuse invalid_json end.
Proof.
  intros Hd Hr. unfold parse_completion_request. rewrite (body_object _ (completion_member cvt)) by (done || apply reads_completion). rewrite completion_fields.
  by destruct (fields cvt _ _ l).
Qed.

(** Message requests of the Anthropic format: the same, with its keys and its content
    blocks. *)
Lemma anthropic_read (s : server_view (R := R)) l rest def_tokens ctx_size errlen : doc 256 (JObj l) → value_end rest →
  parse_anthropic_request s (jprint (JObj l) ++ rest) def_tokens ctx_size errlen
  = match fields cvt anthropic_format (body_init def_tokens) l with Some b => finish_anthropic s b ctx_size errlen | None => refuse invalid_json end.
Proof.
  intros Hd Hr. unfold parse_anthropic_request. rewrite (body_object _ anthropic_body_member) by (done || apply reads_anthropic). rewrite (anthropic_fields cvt).
  by destruct (fields cvt _ _ l).
Qed.

Lemma responses_read (s : server_view (R := R)) l rest def_tokens ctx_size errlen : doc 256 (JObj l) → value_end rest →
  parse_responses_request s (jprint (JObj l) ++ rest) def_tokens ctx_size errlen
  = match refused cvt (body_init def_tokens) l with
    | inl (k, v) => refuse (reason errlen k v)
    | inr b => finish_responses s b ctx_size errlen
    end.
Proof.
  intros Hd Hr. unfold parse_responses_request. rewrite print_ws, print_obj by apply Hd. cbn [is_obj negb]. cbn [jprint app tl0].
  change (λ kv, json_escape kv.1 ++ 58 :: jprint kv.2) with member. rewrite members_ws, responses_loop_print; [|by apply doc_obj_weak|].
  - rewrite (try_refused cvt). by destruct (refused cvt _ l) as [[]|].
  - rewrite length_app. pose proof (members_length l). lia.
Qed.

(** C30. Requests of the Responses format: whatever the order of the members of a document,
    each field of the request is computed from the members with its keys alone, members
    with other keys are ignored, and a document that is refused is refused with the
    reason of the first member that cannot be accepted: a choice of
    tools that is not supported, a reference to stored state, or a wrong shape. *)
Theorem responses_request_exact (s : server_view (R := R)) l rest def_tokens ctx_size errlen (Hd : doc 256 (JObj l)) (Hr : value_end rest) :
  match responses_fields cvt (body_init def_tokens) l with
  | Some b => parse_responses_request s (jprint (JObj l) ++ rest) def_tokens ctx_size errlen = finish_responses s b ctx_size errlen
  | None => ∃ l1 k v l2, l = l1 ++ (k, v) :: l2 ∧ is_Some (responses_fields cvt (body_init def_tokens) l1)
      ∧ responses_fields cvt (body_init def_tokens) (l1 ++ [(k, v)]) = None
      ∧ parse_responses_request s (jprint (JObj l) ++ rest) def_tokens ctx_size errlen = refuse (reason errlen k v)
  end.
Proof.
  rewrite responses_read by done. pose proof (refused_outcome cvt l (body_init def_tokens)) as Hout. destruct (refused cvt (body_init def_tokens) l) as [[k v]|b].
  - destruct Hout as (l1 & l2 & -> & Hs & Hn & ->). by exists l1, k, v, l2.
  - by rewrite Hout.
Qed.
End requests.

(** ** A small server *)

Definition empty_vocab : ds4_vocab := Vocab [] 0 1 2 3 4 5 6 7 8 9 10 11 12 13 14 15 16 17 (StrTable [None] 1 0) (StrTable [None] 1 0).
Definition small_server : server_view (R := gmap bytes loc) := ServerView true empty_vocab [] false false 1 ∅ [] tool_memory_zero.

Definition chat_document : list (bytes * json) :=
  [key "model" (jtext "glm"); key "messages" (JArr [JObj [key "role" (jtext "user"); key "content" (jtext "hello")]]); key "unknown" JNull; key "max_tokens" (jint 7); key "stream" (JBool true)].

Lemma space_ends : value_end (bs " ").
Proof. right. right. right. reflexivity. Qed.

Definition zero_cvt (v : spec_float) : Z := 0.

Definition responses_document : list (bytes * json) := [key "input" (jtext "hello"); key "tool_choice" (jtext "none"); key "max_output_tokens" (jint 3)].

Lemma responses_request_exact_witness :
  doc 256 (JObj responses_document) ∧ value_end (bs " ")
  ∧ ∃ r m, parse_responses_request small_server (jprint (JObj responses_document) ++ bs " ") 100 4096 160 = Some (inr (r, m))
    ∧ r_max_tokens r = 3 ∧ r_api r = API_RESPONSES.
Proof.
  assert (doc 256 (JObj responses_document)) as Hd. { unfold responses_document. solve_doc. }
  split_and!; [done|exact space_ends|]. pose proof (responses_request_exact zero_cvt small_server responses_document (bs " ") 100 4096 160 Hd space_ends) as Hx.
  destruct (responses_fields zero_cvt (body_init 100) responses_document) as [b|] eqn:E; vm_compute in E; [|done].
  rewrite Hx. injection E as <-. vm_compute. do 2 eexists. split; [reflexivity|]. by split_and!.
Defined.
