(* ===== verification/ClientMain.v ===== *)
(** * The client thread

    Model of [client_main] of [engine/src/server.c] up to the hand-over of the job: the
    request is read from the socket, routed by its method and its path, parsed, given
    the model of the engine where it names none and checked against the context; then
    the job is queued or refused. With the replies about models, and
    [client_socket_disconnected].

    A client that is answered at once gets the bytes of the reply.

    The client thread as a whole: a document that a client posts, in whatever pieces it
    arrives, becomes the request that its members say or the reply that tells why not;
    the replies about models are read back as documents. *)
From Stdlib Require Import SpecFloat.
From S2P Require Import Prelude CLib KvHeader KvCache KvCacheProps Strtod Json JsonProps JsonSafe Request RequestProps JsonTree ToolText ToolMemory.
From S2P Require Import ToolReplay ToolMap LiveState JobQueue Scheduler Http Prompt Continuation StrTable Tokenizer SseStream Reply.
From S2P Require Import ReplyProps ToolSchemas ClientInput RequestTree Handlers HandlerProps.

(** ** Models *)

Definition append_model_json_values (id name : bytes) (ctx default_tokens : Z) : bytes :=
  let max_completion := if default_tokens <? ctx then default_tokens else ctx in
  js "{'id':" ++ json_escape id
  ++ js ",'object':'model','created':1767225600,'owned_by':'engine.c','name':" ++ json_escape name
  ++ js ",'context_length':" ++ fmt_d ctx ++ js ",'top_provider':{'context_length':" ++ fmt_d ctx ++ js ",'max_completion_tokens':" ++ fmt_d max_completion
  ++ js ",'is_moderated':false},'supported_parameters':['tools','tool_choice','max_tokens','temperature','top_p','top_k','min_p','stop','seed','stream','reasoning_effort']}".

(** The settings of the server and what it asks of the engine. *)
Record server_config := ServerConfig {
  sc_enable_cors : bool;
  sc_ctx_size : Z;
  sc_default_tokens : Z;
  sc_glm_dsa : bool;
  sc_glm53 : bool;
  sc_model_name : bytes;
  sc_model_id : Z;
  sc_vocab : ds4_vocab;
  sc_replay : bool;
  sc_kv_enabled : bool;
  sc_kv_dir : bytes;
}.

Definition server_model_id_from_engine (c : server_config) : bytes :=
  if sc_glm53 c then bs "glm-5.3-flash"
  else if sc_glm_dsa c then bs "glm-5.2"
  else if sc_model_id c =? 1 then bs "deepseek-v4-pro" else bs "deepseek-v4-flash".

Definition append_model_json (c : server_config) (id : bytes) : bytes := append_model_json_values id (sc_model_name c) (sc_ctx_size c) (sc_default_tokens c).

Definition model_body (c : server_config) (id : bytes) : bytes := append_model_json c id ++ [10].
Definition send_model (c : server_config) (id : bytes) : bytes := http_response (sc_enable_cors c) 200 application_json (model_body c id).

Definition models_body (c : server_config) : bytes :=
  js "{'object':'list','data':["
  ++ (if sc_glm_dsa c then
        append_model_json c (bs "glm-5.2") ++ [44] ++ append_model_json c (bs "glm-5.2-chat") ++ [44] ++ append_model_json c (bs "glm-5.2-reasoner")
      else append_model_json c (bs "deepseek-v4-flash") ++ [44] ++ append_model_json c (bs "deepseek-v4-pro"))
  ++ bs "]}" ++ [10].
Definition send_models (c : server_config) : bytes := http_response (sc_enable_cors c) 200 application_json (models_body c).

(** ** The request *)

Section client.
Context {R : Type} `{!RaxOps R} `{!ReadDir} (cvt : spec_float → Z).

(** What the handlers see of the server: the settings, the slots, the files and the
    tool memory at the time of the call. *)
Definition view_of (c : server_config) (slots : list slot_live) (files : fs) (m : tool_memory R) : server_view :=
  ServerView (sc_glm_dsa c) (sc_vocab c) slots (sc_replay c) (sc_kv_enabled c) (sc_model_id c) files (sc_kv_dir c) m.

Definition ERR_SIZE : nat := 160.

Definition with_model (model : bytes) (r : request) : request :=
  Request (r_kind r) (r_api r) (r_model_syntax r) (r_prompt r) model (r_model_from_request r) (r_stops r) (r_prompt_text r) (r_tool_orders r) (r_max_tokens r)
    (r_top_k r) (r_top_k_set r) (r_temperature r) (r_temperature_set r) (r_top_p r) (r_top_p_set r) (r_min_p r) (r_min_p_set r) (r_seed r) (r_stream r)
    (r_stream_include_usage r) (r_cache_read_tokens r) (r_cache_write_tokens r) (r_think_mode r) (r_has_tools r) (r_prompt_preserves_reasoning r)
    (r_reasoning_summary_emit r) (r_responses_requires_live_tool_state r) (r_responses_requires_live_reasoning r) (r_responses_live r)
    (r_anthropic_requires_live_tool_state r) (r_anthropic_live r) (r_tool_replay r).

(** The body as the handlers get it: a C string. *)
Definition parse_request (c : server_config) (s : server_view) (method path body : bytes) : option (option (bytes + (request * tool_memory R))) :=
  if negb (bytes_eqb method (bs "POST")) then None
  else if bytes_eqb path (bs "/v1/messages") then Some (parse_anthropic_request s body (sc_default_tokens c) (sc_ctx_size c) ERR_SIZE)
  else if bytes_eqb path (bs "/v1/chat/completions") then Some (parse_chat_request cvt s body (sc_default_tokens c) (sc_ctx_size c))
  else if bytes_eqb path (bs "/v1/responses") then Some (parse_responses_request s body (sc_default_tokens c) (sc_ctx_size c) ERR_SIZE)
  else if bytes_eqb path (bs "/v1/completions") then Some (parse_completion_request cvt s body (sc_default_tokens c) (sc_ctx_size c))
  else None.

(** A reply, or a request for the queue with the body it came in and the memory. *)
Abbreviation answer := (bytes + (request * bytes * tool_memory R))%type.

Definition check_request (c : server_config) (raw_body : bytes) (r : request) (m : tool_memory R) : answer :=
  let r := if r_model_from_request r then r else with_model (server_model_id_from_engine c) r in
  let prompt_len := Z.of_nat (length (r_prompt r)) in
  if request_exceeds_context prompt_len (sc_ctx_size c)
  then inl (http_error_context_length_exceeded (sc_enable_cors c) (r_api r) (r_kind r) prompt_len (sc_ctx_size c))
  else inr (r, raw_body, m).

Definition model_path_prefix : bytes := bs "/v1/models/".

Definition client_request (c : server_config) (slots : list slot_live) (files : fs) (m : tool_memory R) (net : list net_event) : option answer :=
  r ← read_http_request net;
  match r with
  | None => Some (inl (http_error (sc_enable_cors c) 400 (bs "bad HTTP request")))
  | Some hr =>
      if bytes_eqb (hr_method hr) (bs "OPTIONS") then Some (inl (http_response (sc_enable_cors c) 204 [] []))
      else if bytes_eqb (hr_method hr) (bs "GET") && bytes_eqb (hr_path hr) (bs "/v1/models") then Some (inl (send_models c))
      else
        match (if bytes_eqb (hr_method hr) (bs "GET") then strip_prefix model_path_prefix (hr_path hr) else None) with
        | Some id =>
            if server_model_alias_known (Some id) then Some (inl (send_model c id))
            else Some (inl (http_error (sc_enable_cors c) 404 (bs "unknown endpoint")))
        | None =>
            match parse_request c (view_of c slots files m) (hr_method hr) (hr_path hr) (c_str (hr_body hr)) with
            | None => Some (inl (http_error (sc_enable_cors c) 404 (bs "unknown endpoint")))
            | Some h =>
                h ← h;
                match h with
                | inl err => Some (inl (http_error (sc_enable_cors c) 400 err))
                | inr (r, m) => Some (check_request c (c_str (hr_body hr)) r m)
                end
            end
        end
  end.

(** *** The job *)

Definition live_of (r : request) : live_request :=
  LiveRequest (r_responses_requires_live_tool_state r) (r_responses_live r).1 (r_anthropic_requires_live_tool_state r) (r_anthropic_live r).1.

(** The job is queued, or released with a reply. *)
Definition client_submit (common : nat → job → Z) (c : server_config) (j : job) (r : request) (st : server) : option (option bytes * server) :=
  '(ok, st) ← enqueue common j (job_create j (live_of r) st);
  Some (if ok : bool then (None, st) else (Some (http_error (sc_enable_cors c) 503 (bs "server shutting down")), job_free j st)).
End client.

(** ** A client that goes away *)

Definition POLLIN : Z := 1.
Definition POLLERR : Z := 8.
Definition POLLHUP : Z := 16.
Definition POLLNVAL : Z := 32.
Definition EINTR : Z := 4.
Definition EAGAIN : Z := 11.
Definition EWOULDBLOCK : Z := 11.

Definition client_poll_revents_disconnected (revents : Z) : bool := negb (Z.land revents (Z.lor (Z.lor POLLERR POLLHUP) POLLNVAL) =? 0).

Definition client_recv_errno_disconnected (err : Z) : bool := negb (err =? EINTR) && negb (err =? EAGAIN) && negb (err =? EWOULDBLOCK).

(** What [poll] and [recv] give: an error, nothing or the end, or events or bytes. *)
Inductive poll_result := PollError (err : Z) | PollNothing | PollReady (revents : Z).
Inductive recv_call := RecvError (err : Z) | RecvEnd | RecvBytes (n : Z).

(** The loops end with the lists of what the calls give; [None] when a list is too
    short. *)
Fixpoint discard_loop (calls : list recv_call) : option bool :=
  match calls with
  | [] => None
  | RecvBytes _ :: r => discard_loop r
  | RecvEnd :: _ => Some true
  | RecvError err :: r => if err =? EINTR then discard_loop r else Some (client_recv_errno_disconnected err)
  end.

Fixpoint client_socket_disconnected (polls : list poll_result) (calls : list recv_call) : option bool :=
  match polls with
  | [] => None
  | PollError err :: r => if err =? EINTR then client_socket_disconnected r calls else Some (client_recv_errno_disconnected err)
  | PollNothing :: _ => Some false
  | PollReady revents :: _ =>
      if client_poll_revents_disconnected revents then Some true
      else if Z.land revents POLLIN =? 0 then Some false
      else discard_loop calls
  end.

(** * From the socket to the queue *)

#[local] Opaque json_escape json_string.

(** A client sends a request with this method, target and body: lines that end in CRLF,
    one of them the length, then the body and whatever else; the network delivers it in
    any pieces. *)
Definition sends (net : list net_event) (method target body : bytes) : Prop :=
  word method ∧ (length method <= 7)%nat ∧ word target ∧ (length target <= 255)%nat ∧ flows net ∧ Z.of_nat (length body) <= max_body
  ∧ ∃ before after junk, Forall text_line before ∧ Forall (λ l, strip_nocase LENGTH_NAME l = None) before ∧ Forall text_line after
      ∧ (length (http_head method target before (Z.of_nat (length body)) after) <= max_header)%nat
      ∧ data_of net = http_head method target before (Z.of_nat (length body)) after ++ body ++ junk.

Lemma sends_read net method target body : sends net method target body → read_http_request net = Some (Some (HttpRequest method (before_query target) body)).
Proof.
  intros (Hm & Hlm & Ht & Hlt & Hf & Hb & before & after & junk & H1 & H2 & H3 & H4 & H5).
  apply (http_request_read method target before (Z.of_nat (length body)) after body junk net); try done. lia.
Qed.

Section client.
Context {R : Type} `{!RaxOps R} `{!ReadDir} (cvt : spec_float → Z).

(** What a document asks of an endpoint. *)
Definition document_request (c : server_config) (s : server_view) (path : bytes) (l : list (bytes * json)) : option (option (bytes + (request * tool_memory R))) :=
  let init := body_init (sc_default_tokens c) in
  let by_fields F finish := match fields cvt F init l with Some b => finish b | None => refuse invalid_json end in
  if bytes_eqb path (bs "/v1/messages") then Some (by_fields anthropic_format (λ b, finish_anthropic s b (sc_ctx_size c) ERR_SIZE))
  else if bytes_eqb path (bs "/v1/chat/completions") then Some (by_fields chat_format (λ b, finish_chat s b (sc_ctx_size c)))
  else if bytes_eqb path (bs "/v1/responses") then
    Some (match refused cvt init l with inl (k, v) => refuse (reason ERR_SIZE k v) | inr b => finish_responses s b (sc_ctx_size c) ERR_SIZE end)
  else if bytes_eqb path (bs "/v1/completions") then Some (by_fields completion_format (λ b, finish_completion s b (sc_ctx_size c)))
  else None.

End client.

(** ** Models *)

Definition parameters : list json :=
  [jtext "tools"; jtext "tool_choice"; jtext "max_tokens"; jtext "temperature"; jtext "top_p"; jtext "top_k"; jtext "min_p"; jtext "stop"; jtext "seed"; jtext "stream";
   jtext "reasoning_effort"].

Definition model_json (c : server_config) (id : bytes) : json :=
  JObj [key "id" (JStr id); key "object" (jtext "model"); key "created" (JNum false (bs "1767225600")); key "owned_by" (jtext "engine.c"); key "name" (JStr (sc_model_name c));
        key "context_length" (jint (sc_ctx_size c));
        key "top_provider" (JObj [key "context_length" (jint (sc_ctx_size c)); key "max_completion_tokens" (jint (Z.min (sc_default_tokens c) (sc_ctx_size c)));
                                  key "is_moderated" (JBool false)]);
        key "supported_parameters" (JArr parameters)].

Definition model_ids (c : server_config) : list bytes :=
  if sc_glm_dsa c then [bs "glm-5.2"; bs "glm-5.2-chat"; bs "glm-5.2-reasoner"] else [bs "deepseek-v4-flash"; bs "deepseek-v4-pro"].

Definition models_json (c : server_config) : json := JObj [key "object" (jtext "list"); key "data" (JArr (model_json c <$> model_ids c))].

Lemma doc_bool d b : 0 <= d → doc d (JBool b).
Proof. intros H. split; [constructor|done]. Qed.

Lemma model_json_print c id : append_model_json c id = jprint (model_json c id).
Proof.
  unfold append_model_json, append_model_json_values, model_json. replace (if sc_default_tokens c <? sc_ctx_size c then _ else _) with (Z.min (sc_default_tokens c) (sc_ctx_size c))
    by (destruct (Z.ltb_spec (sc_default_tokens c) (sc_ctx_size c)); lia).
  generalize (sc_model_name c) (sc_ctx_size c) (Z.min (sc_default_tokens c) (sc_ctx_size c)). intros name ctx n. unfold parameters. same_text.
Qed.

Lemma model_doc c id : str_ok id → str_ok (sc_model_name c) → doc 254 (model_json c id).
Proof. intros Hi Hn. unfold model_json, parameters. solve_doc; [|apply doc_bool; lia].
  split; [|done]. constructor. apply num_text_digits. by repeat constructor.
Qed.

Lemma models_json_print c : models_body c = jprint (models_json c) ++ [10].
Proof.
  unfold models_body, models_json, model_ids. rewrite !model_json_print. destruct (sc_glm_dsa c); cbn [fmap list_fmap];
    repeat match goal with |- context [model_json c ?id] => generalize (model_json c id); intros end; same_text.
Qed.

Lemma model_ids_ok c : Forall str_ok (model_ids c).
Proof. unfold model_ids. destruct (sc_glm_dsa c); repeat apply List.Forall_cons; try apply List.Forall_nil; by apply bs_str_ok. Qed.

Lemma known_ok id : server_model_alias_known (Some id) = true → str_ok id.
Proof.
  intros H. apply existsb_exists in H as (x & Hx & ->%bytes_eqb_eq). apply bs_str_ok.
  repeat (destruct Hx as [<-|Hx]; [reflexivity|]). by destruct Hx.
Qed.

(** The models of the server: a client that asks for them, in whatever pieces its
    request arrives, finds in the reply a document with the context of the server, the
    name of its model and a limit on the reply of at most the context; and so it does
    for every name that the server knows, and an unknown one is an unknown endpoint. *)
Theorem models_answered {R : Type} `{!RaxOps R} `{!ReadDir} cvt (c : server_config) slots files (m : tool_memory R) net target body
    (Hn : str_ok (sc_model_name c)) (Hs : sends net (bs "GET") target body) :
  let answer := client_request cvt c slots files m net in
  let answered text v := Z.of_nat (length text) <= LONG_MAX →
    ∃ reply, answer = Some (inl reply) ∧ read_reply reply = Some (jprint v ++ [10]) ∧ json_skip_value (jprint v ++ [10]) = Some [10] in
  (before_query target = bs "/v1/models" → answered (models_body c) (models_json c))
  ∧ (∀ id, before_query target = bs "/v1/models/" ++ id →
     if server_model_alias_known (Some id) then answered (model_body c id) (model_json c id)
     else answer = Some (inl (http_error (sc_enable_cors c) 404 (bs "unknown endpoint")))).
Proof.
  cbn zeta. unfold client_request. rewrite (sends_read _ _ _ _ Hs). cbn [mbind option_bind hr_method hr_path hr_body].
  change (bytes_eqb (bs "GET") (bs "OPTIONS")) with false. change (bytes_eqb (bs "GET") (bs "GET")) with true. cbn [andb]. cbn iota. split.
  - intros -> Hl. change (bytes_eqb (bs "/v1/models") (bs "/v1/models")) with true. cbn iota. eexists. split; [done|]. unfold send_models. rewrite reply_read by done.
    rewrite models_json_print. split; [done|]. apply doc_accepted; [|cbn; auto]. unfold models_json. solve_doc. apply Forall_fmap. eapply Forall_impl; [apply model_ids_ok|].
    intros id Hi. eapply doc_mono; [by apply model_doc|lia].
  - intros id ->. change (bytes_eqb (bs "/v1/models/" ++ id) (bs "/v1/models")) with false. cbn iota. unfold model_path_prefix. rewrite strip_prefix_app.
    destruct (server_model_alias_known (Some id)) eqn:Hk; [|done]. intros Hl. eexists. split; [done|]. unfold send_model. rewrite reply_read by done.
    unfold model_body. rewrite model_json_print. split; [done|]. apply doc_accepted; [|cbn; auto]. eapply doc_mono; [apply model_doc; [by apply known_ok|done]|lia].
Qed.

(** The list of a server for GLM 5.3 does not have the name that its replies use. *)
Lemma own_id_not_listed c : sc_glm53 c = true → server_model_id_from_engine c ∉ model_ids c.
Proof. intros E. unfold server_model_id_from_engine, model_ids. rewrite E. destruct (sc_glm_dsa c); apply (bool_decide_unpack _); vm_compute; exact I. Qed.

(** ** A small server and its clients *)

Definition small_config : server_config := ServerConfig true 4096 100 true true (bs "GLM 5.3 Flash") 1 empty_vocab false false [].

(** A request with one header more, in two pieces with an interrupted call between. *)
Definition pieces (method target : string) (body : bytes) : list net_event :=
  let data := http_head (bs method) (bs target) [bs "Host: localhost"] (Z.of_nat (length body)) [] ++ body in
  [NData (take 30 data); NIntr; NData (drop 30 data)].

Ltac sent :=
  split_and!; [split; [discriminate|]; repeat constructor; discriminate|apply Nat.leb_le; reflexivity|split; [discriminate|]; repeat constructor; discriminate
  |apply Nat.leb_le; reflexivity|repeat constructor; discriminate|vm_compute; discriminate
  |exists [bs "Host: localhost"], [], []; split_and!; [repeat constructor; discriminate|by repeat constructor|constructor|apply Nat.leb_le; reflexivity|vm_compute; reflexivity]].


Lemma models_answered_witness :
  str_ok (sc_model_name small_config) ∧ sends (pieces "GET" "/v1/models" []) (bs "GET") (bs "/v1/models") []
  ∧ ∃ reply, client_request zero_cvt small_config [] ∅ (tool_memory_zero (R := gmap bytes loc)) (pieces "GET" "/v1/models" []) = Some (inl reply)
    ∧ read_reply reply = Some (jprint (models_json small_config) ++ [10]).
Proof.
  assert (str_ok (sc_model_name small_config)) as Hn by (by apply bs_str_ok).
  assert (sends (pieces "GET" "/v1/models" []) (bs "GET") (bs "/v1/models") []) as Hs by sent.
  split_and!; [exact Hn|exact Hs|]. destruct (models_answered zero_cvt small_config [] ∅ tool_memory_zero _ _ _ Hn Hs) as [H1 _].
  destruct H1 as (reply & Ha & Hr & _); [reflexivity|vm_compute; discriminate|]. exists reply. split; [exact Ha|exact Hr].
Defined.

(** ** A client that goes away *)

(** Bytes that a client sent behind its request do not hide that it closed. *)
Lemma end_is_seen calls revents r : Z.land revents 1 ≠ 0 → Forall (λ c, (∃ n, c = RecvBytes n) ∨ c = RecvError EINTR) calls →
  client_socket_disconnected [PollReady revents] (calls ++ RecvEnd :: r) = Some true.
Proof.
  intros Hp Hc. cbn [client_socket_disconnected]. destruct (client_poll_revents_disconnected revents); [done|].
  change POLLIN with 1. destruct (Z.eqb_spec (Z.land revents 1) 0); [done|]. by induction Hc as [|c calls [[k ->]| ->] _ IH].
Qed.
