(* ===== verification/Reuse.v ===== *)
(** * What a request keeps of a session

    Model of the first half of [generate_job_inner] of [engine/src/server.c]: which
    tokens of the slot, of a remembered turn or of a file on disk the request starts
    from ([responses_live_visible_prefix_prompt], [responses_live_continuation_prompt],
    [anthropic_live_continuation_prompt], [live_prefix_rewind_target],
    [thinking_live_visible_prefix_prompt], [live_text_prefix_prompt],
    [kv_cache_try_load]), the checkpoint that saves the conversation that is left, the
    cold checkpoint and the schedule of continued checkpoints of the slot; with
    [ds4_session_rewind] and [ds4_session_invalidate] of [engine/src/engine.c].

    The vocabulary is that of [Tokenizer]; what the engine does with its buffers is
    an argument: the payload of a session ([ev_stage], [ev_load]), the rewind of the
    draft state ([ev_mtp_rewind]) and the evaluation of a prompt ([ev_sync]), with the
    calls of the progress callback that each evaluation makes. *)
From S2P Require Import Prelude CLib Strtod Json Request Stream ToolText ToolMemory KvHeader KvPolicy KvCache ToolMap LiveState Prompt JobQueue Scheduler Prefill.
From S2P Require Import Continuation Tokenizer Reply ToolSchemas ClientInput Handlers.
From Stdlib Require Import SpecFloat.

(** ** The engine and the slot *)

Record engine_view := EngineView {
  ev_glm : bool;
  ev_glm53 : bool;
  ev_vocab : ds4_vocab;
  ev_ctx : Z;
  ev_quant_bits : Z;
  ev_model_id : Z;
  ev_stage : session → bytes + bytes;
  ev_load : bytes → Z → bool * option (list Z) * bytes;
  ev_mtp_rewind : session → Z → bool;
  ev_sync : session → list Z → Z * bytes * session;
}.

Definition ds4_tokenize_rendered_chat (e : engine_view) (text : bytes) : list Z := tokenize_rendered_chat_vocab (ev_glm e) (ev_vocab e) (Some text).
Definition render_tokens_text (e : engine_view) (tokens : list Z) : bytes := kv_store_render_tokens_text (ds4_token_text (ev_vocab e)) tokens.
Definition build_prompt_from_exact_prefix_and_text_suffix (e : engine_view) (exact_prefix : list Z) (suffix_text : bytes) : list Z :=
  kv_store_build_prompt_from_exact_prefix_and_text_suffix (ds4_tokenize_rendered_chat e) exact_prefix (Some suffix_text).

Definition ds4_session_invalidate (s : session) : session := Session false [].

(** A rewind keeps the first tokens; in a GLM 5.3 graph the draft state follows, and a
    failure there leaves the session invalid. *)
Definition ds4_session_rewind (e : engine_view) (s : session) (pos : Z) : session :=
  let pos := if pos <? 0 then 0 else pos in
  let pos := if ds4_session_pos s <? pos then ds4_session_pos s else pos in
  let ok := if ev_glm e && ev_glm53 e && (pos <? ds4_session_pos s) then ev_mtp_rewind e s pos else true in
  Session (checkpoint_valid s && ok) (take (Z.to_nat pos) (checkpoint s)).

(** The session of a slot, its live bindings and [continued_last_store_tokens]. *)
Record gen_slot := GenSlot {
  gs_session : session;
  gs_live : slot_live;
  gs_continued_last : Z;
}.
Definition gs_with (s : session) (sl : gen_slot) : gen_slot := GenSlot s (gs_live sl) (gs_continued_last sl).
Definition gs_set_live (l : slot_live) (sl : gen_slot) : gen_slot := GenSlot (gs_session sl) l (gs_continued_last sl).
Definition gs_set_last (n : Z) (sl : gen_slot) : gen_slot := GenSlot (gs_session sl) (gs_live sl) n.

(** The store and the files of the server. *)
Record disk := Disk { dk_kc : kv_store; dk_files : fs }.

(** ** Prefixes in memory *)

(** The number of tokens kept, 0 for none, and the prompt built on them. *)
Definition live_text_prefix_prompt (e : engine_view) (sl : gen_slot) (r : request) : Z * list Z :=
  match checkpoint (gs_session sl) with
  | [] => (0, [])
  | live =>
      let live_text := render_tokens_text e live in
      if negb (kv_store_byte_prefix_match (r_prompt_text r) live_text) then (0, [])
      else (Z.of_nat (length live), build_prompt_from_exact_prefix_and_text_suffix e live (drop (length live_text) (r_prompt_text r)))
  end.

Definition responses_live_continuation_prompt (e : engine_view) (sl : gen_slot) (r : request) (live_pos : Z) : Z * list Z :=
  if negb (bool_decide (r_api r = API_RESPONSES)) then (0, [])
  else
    match (r_responses_live r).2 with
    | None => (0, [])
    | Some suffix =>
        let ids := (r_responses_live r).1 in
        if (length (stop_v ids) =? 0)%nat then (0, [])
        else if negb (responses_live_matches_request (gs_live sl) ids live_pos) then (0, [])
        else
          let live := checkpoint (gs_session sl) in
          if negb (Z.of_nat (length live) =? live_pos) then (0, [])
          else (Z.of_nat (length live), build_prompt_from_exact_prefix_and_text_suffix e live suffix)
    end.

Definition anthropic_live_continuation_prompt (e : engine_view) (sl : gen_slot) (r : request) (live_pos : Z) : Z * list Z :=
  if negb (bool_decide (r_api r = API_ANTHROPIC)) then (0, [])
  else
    match (r_anthropic_live r).2 with
    | None => (0, [])
    | Some suffix =>
        let ids := (r_anthropic_live r).1 in
        if (length (stop_v ids) =? 0)%nat then (0, [])
        else if negb (anthropic_live_matches_request (gs_live sl) ids live_pos) then (0, [])
        else
          let live := checkpoint (gs_session sl) in
          if negb (Z.of_nat (length live) =? live_pos) then (0, [])
          else (Z.of_nat (length live), build_prompt_from_exact_prefix_and_text_suffix e live suffix)
    end.

(** The test under the lock: the length of the visible text when it is remembered for
    this position and the prompt goes on after it. *)
Definition visible_match (valid : bool) (live_tokens live_pos : Z) (visible : option bytes) (prompt_text : bytes) : option nat :=
  match visible with
  | Some text =>
      if valid && (live_tokens =? live_pos) && (length text <? length prompt_text)%nat && kv_store_byte_prefix_match prompt_text text
      then Some (length text) else None
  | None => None
  end.

Definition continue_after_visible (e : engine_view) (sl : gen_slot) (r : request) (live_pos : Z) (m : option nat) : Z * list Z :=
  match m with
  | None => (0, [])
  | Some visible_len =>
      let live := checkpoint (gs_session sl) in
      if negb (Z.of_nat (length live) =? live_pos) then (0, [])
      else (Z.of_nat (length live), build_prompt_from_exact_prefix_and_text_suffix e live (drop visible_len (r_prompt_text r)))
  end.

Definition responses_live_visible_prefix_prompt (e : engine_view) (sl : gen_slot) (r : request) (live_pos : Z) : Z * list Z :=
  if negb (bool_decide (r_api r = API_RESPONSES)) then (0, [])
  else
    let st := responses_live (gs_live sl) in
    continue_after_visible e sl r live_pos (visible_match (lt_valid st) (lt_live_tokens st) live_pos (lt_visible_text st) (r_prompt_text r)).

Definition thinking_live_visible_prefix_prompt (e : engine_view) (sl : gen_slot) (r : request) (live_pos : Z) : Z * list Z :=
  if negb (bool_decide (r_kind r = REQ_CHAT)) || bool_decide (r_api r = API_RESPONSES) then (0, [])
  else
    let st := thinking_live (gs_live sl) in
    continue_after_visible e sl r live_pos (visible_match (vl_valid st) (vl_live_tokens st) live_pos (vl_visible_text st) (r_prompt_text r)).

Definition live_prefix_rewind_target (backend_can_rewind : bool) (old_pos prompt_len common : Z) : Z :=
  if negb backend_can_rewind || (prompt_len <=? 1) || (old_pos <=? prompt_len) then -1
  else if negb (common =? prompt_len) then -1
  else prompt_len - 1.

(** ** Checkpoints of a slot *)

Definition kv_cache_slot_continued_target (kc : kv_store) (sl : gen_slot) (live_tokens : Z) : Z :=
  kv_store_continued_store_target (set_last kc (gs_continued_last sl)) live_tokens.

Definition kv_cache_slot_note_store (sl : gen_slot) (tokens : Z) : gen_slot :=
  if gs_continued_last sl <? tokens then gs_set_last tokens sl else sl.

Definition kv_cache_slot_suppress_continued (kc : kv_store) (sl : gen_slot) (tokens : Z) : Z * gen_slot :=
  if negb (kv_cache_slot_continued_target kc sl tokens =? tokens) then (-1, sl)
  else (gs_continued_last sl, kv_cache_slot_note_store sl tokens).

Definition kv_cache_slot_restore_suppressed (sl : gen_slot) (old_tokens suppressed_tokens : Z) : gen_slot :=
  if (0 <=? old_tokens) && (gs_continued_last sl =? suppressed_tokens) then gs_set_last old_tokens sl else sl.

Section disk.
Context `{!ReadDir} (e : engine_view) (exp2 : spec_float → spec_float) (hooks : kv_store_trailer_hooks).

Definition session_view_of (s : session) : session_view :=
  SessionView (Some (checkpoint s)) (ev_ctx e) (ev_quant_bits e) (ev_model_id e) (ds4_token_text (ev_vocab e)) (ev_stage e s).
Definition session_loader_of : session_loader :=
  SessionLoader (ev_ctx e) (ev_quant_bits e) (ev_model_id e) (ev_load e) (ds4_tokenize_rendered_chat e).

Definition kv_cache_store_live_prefix_text (io : store_io) (d : disk) (sl : gen_slot) (tokens : list Z) (store_len : Z) (reason : bytes)
    (override : option bytes) (ext : Z) : bool * disk :=
  let r := kv_store_store_live_prefix_text exp2 io (dk_kc d) (dk_files d) (session_view_of (gs_session sl)) (Some tokens) store_len
             (Some reason) override ext (Some hooks) in
  (sr_ok r, Disk (sr_kc r) (sr_files r)).

Definition kv_cache_store_live_prefix (io : store_io) (d : disk) (sl : gen_slot) (tokens : list Z) (store_len : Z) (reason : bytes) : bool * disk :=
  kv_cache_store_live_prefix_text io d sl tokens store_len reason None 0.

(** The whole session, under the text its client replays when there is one. *)
Definition kv_cache_store_current (io : store_io) (d : disk) (sl : gen_slot) (reason : bytes) : disk :=
  let tokens := checkpoint (gs_session sl) in
  let len := Z.of_nat (length tokens) in
  match store_current_key (gs_live sl) len with
  | Some (visible_text, visible_ext, _) => (kv_cache_store_live_prefix_text io d sl tokens len reason (Some visible_text) visible_ext).2
  | None => (kv_cache_store_live_prefix io d sl tokens len reason).2
  end.

Definition kv_cache_maybe_store_continued (io : store_io) (d : disk) (sl : gen_slot) : disk * gen_slot :=
  let tokens := checkpoint (gs_session sl) in
  let target := kv_cache_slot_continued_target (dk_kc d) sl (Z.of_nat (length tokens)) in
  if target =? 0 then (d, sl)
  else
    let '(ok, d) := kv_cache_store_live_prefix io d sl tokens target (bs "continued") in
    (d, if ok then kv_cache_slot_note_store sl target else sl).

Definition kv_cache_discard_failed_disk_entry (unlink_ok : bytes → bool) (d : disk) (sl : gen_slot) (path : option bytes) : disk * gen_slot :=
  match path with
  | None => (d, sl)
  | Some path => (Disk (dk_kc d) (unlink unlink_ok path (dk_files d)).2, gs_with (ds4_session_invalidate (gs_session sl)) (gs_set_last 0 sl))
  end.

(** The outcome of the system calls of a load. *)
Record load_io := LoadIO { li_unlink : bytes → bool; li_fopen : bool; li_now : Z }.

(** The loaded tokens and the prompt, the path and the flags of the file, the store,
    the slot, and what the file holds for the tool memory. *)
Definition kv_cache_try_load_text (io : load_io) (d : disk) (sl : gen_slot) (prompt_text : bytes)
    : Z * list Z * option (bytes * Z) * disk * gen_slot * option bytes :=
  let o := kv_store_try_load_text (li_unlink io) (li_fopen io) (li_now io) (dk_kc d) (dk_files d) session_loader_of (Some prompt_text) (Some hooks) in
  let s := if lo_invalidated o then ds4_session_invalidate (gs_session sl)
           else match lo_session o with Some v => Session true v | None => gs_session sl end in
  (lo_loaded o, lo_prompt o, if 0 <? lo_loaded o then (λ l, (lr_path l, lr_ext_flags l)) <$> lo_result o else None,
   Disk (lo_kc o) (lo_files o), gs_with s sl, lo_trailer o).

Definition kv_cache_try_load (io : load_io) (d : disk) (sl : gen_slot) (r : request)
    : Z * list Z * option (bytes * Z) * disk * gen_slot * option bytes :=
  kv_cache_try_load_text io d sl (r_prompt_text r).

(** ** The choice *)

Inductive cache_source :=
  | SRC_NONE
  | RESPONSES_VISIBLE
  | RESPONSES_TOOL_OUTPUT
  | ANTHROPIC_TOOL_OUTPUT
  | MEMORY_REWIND
  | MEMORY_TOKEN
  | THINKING_VISIBLE
  | MEMORY_TEXT
  | DISK_TEXT.

#[export] Instance cache_source_eq_dec : EqDecision cache_source.
Proof. solve_decision. Defined.

(** What a request starts from: the tokens kept and where they are from, the prompt to
    evaluate, the slot and the disk then, the file that was loaded and its flags. *)
Record kept := Kept {
  k_cached : Z;
  k_source : cache_source;
  k_prompt : list Z;
  k_slot : gen_slot;
  k_disk : disk;
  k_file : option (bytes * Z);
  k_trailer : option bytes;
}.

Definition hit (source : cache_source) (c : Z * list Z) : option (Z * list Z * cache_source) :=
  if 0 <? c.1 then Some (c, source) else None.

(** The live bindings, in the order in which they are asked. *)
Definition live_prefix (sl : gen_slot) (r : request) : option (Z * list Z * cache_source) :=
  let old_pos := ds4_session_pos (gs_session sl) in
  hit RESPONSES_VISIBLE (responses_live_visible_prefix_prompt e sl r old_pos)
  ∪ hit RESPONSES_TOOL_OUTPUT (responses_live_continuation_prompt e sl r old_pos)
  ∪ hit ANTHROPIC_TOOL_OUTPUT (anthropic_live_continuation_prompt e sl r old_pos).

Definition responses_state_gone : bytes := bs "Responses continuation state is not available; retry by replaying the full input history".
Definition anthropic_state_gone : bytes := bs "Anthropic continuation state is not available; retry by replaying the full messages history".

(** The tokens of the prompt that the session holds already. *)
Definition token_prefix (sl : gen_slot) (r : request) : option (Z * cache_source * session) :=
  let s := gs_session sl in
  let old_pos := ds4_session_pos s in
  let len := Z.of_nat (length (r_prompt r)) in
  let common := ds4_session_common_prefix s (r_prompt r) in
  let rewind_to := live_prefix_rewind_target (ev_glm e) old_pos len common in
  if 0 <=? rewind_to then Some (rewind_to, MEMORY_REWIND, ds4_session_rewind e s rewind_to)
  else
    let cached := if (common =? old_pos) && (old_pos <=? len) then common else 0 in
    if 0 <? cached then Some (cached, MEMORY_TOKEN, s) else None.

(** A session is saved before another one replaces it. *)
Definition save_replaced (sio : store_io) (d : disk) (sl : gen_slot) : disk :=
  if kc_enabled (dk_kc d) && (min_tokens (kc_opt (dk_kc d)) <=? ds4_session_pos (gs_session sl))
  then kv_cache_store_current sio d sl (bs "evict") else d.

Definition disk_prefix (sio : store_io) (lio : load_io) (d : disk) (sl : gen_slot) (r : request) : kept :=
  let sl := gs_set_last 0 sl in
  let d := save_replaced sio d sl in
  let '(loaded, effective, file, d, sl, trailer) := kv_cache_try_load lio d sl r in
  if 0 <? loaded then Kept loaded DISK_TEXT effective sl d file trailer
  else Kept 0 SRC_NONE (r_prompt r) sl d None trailer.

(** The prefix, or the message of a refusal with status 409. *)
Definition choose_prefix (sio : store_io) (lio : load_io) (d : disk) (sl : gen_slot) (r : request) : bytes + kept :=
  match live_prefix sl r with
  | Some (cached, effective, source) => inr (Kept cached source effective sl d None None)
  | None =>
      if bool_decide (r_api r = API_RESPONSES) && r_responses_requires_live_tool_state r then inl responses_state_gone
      else if bool_decide (r_api r = API_ANTHROPIC) && r_anthropic_requires_live_tool_state r then inl anthropic_state_gone
      else
        match token_prefix sl r with
        | Some (cached, source, s) => inr (Kept cached source (r_prompt r) (gs_with s sl) d None None)
        | None =>
            let old_pos := ds4_session_pos (gs_session sl) in
            match hit THINKING_VISIBLE (thinking_live_visible_prefix_prompt e sl r old_pos) ∪ hit MEMORY_TEXT (live_text_prefix_prompt e sl r) with
            | Some (cached, effective, source) => inr (Kept cached source effective sl d None None)
            | None => inr (disk_prefix sio lio d sl r)
            end
        end
  end.

(** ** Evaluating the prompt *)

(** One evaluation of the server: the rounds of [server_session_sync], and for each
    call of the engine the calls of the progress callback, as the tokens done, the
    session then and the system calls of a store. *)
Record sync_env := SyncEnv {
  se_batched : bool;
  se_mixed_quantum : Z;
  se_rounds : nat → sync_round;
  se_progress : nat → list (Z * session * store_io);
}.

(** [server_session_sync]: the result, the message, the session, the calls made. *)
Definition slot_session_sync (env : sync_env) (s : session) (prompt : list Z) : option (Z * bytes * session * list nat) :=
  if negb (se_batched env) then
    if negb (sr_entered (se_rounds env 0)) then Some (DS4_SESSION_SYNC_INTERRUPTED, [], s, [])
    else let '(rc, err, s) := ev_sync e s prompt in Some (rc, err, s, [0%nat])
  else
    '(rc, err, s, pieces) ← server_session_sync (se_mixed_quantum env) (ev_glm53 e) (ev_sync e) (se_rounds env) s prompt;
    Some (rc, err, s, map (λ p : nat * Z * Z, p.1.1) pieces).

(** The callback stores a continued checkpoint of what is new. *)
Definition server_progress_cb (cached : Z) (st : disk * gen_slot) (call : Z * session * store_io) : disk * gen_slot :=
  let '(current, s, io) := call in
  if cached <? current then kv_cache_maybe_store_continued io st.1 (gs_with s st.2) else st.

Definition sync_slot (env : sync_env) (cached : Z) (d : disk) (sl : gen_slot) (prompt : list Z) : option (Z * bytes * disk * gen_slot) :=
  '(rc, err, s, calls) ← slot_session_sync env (gs_session sl) prompt;
  let '(d, sl) := foldl (server_progress_cb cached) (d, sl) (calls ≫= se_progress env) in
  Some (rc, err, d, gs_with s sl).

(** The length of the cold checkpoint of a prompt that is new to the store. *)
Definition cold_store_len (kc : kv_store) (cached : Z) (prompt : list Z) : Z :=
  let len := Z.of_nat (length prompt) in
  let opt := kc_opt kc in
  if (cached =? 0) && kc_enabled kc && (min_tokens opt <=? len) && (0 <? cold_max_tokens opt) && (len <=? cold_max_tokens opt) then
    let anchor := kv_store_chat_anchor_pos kc (Some prompt) (v_user_id (ev_vocab e)) (v_assistant_id (ev_vocab e)) in
    if min_tokens opt <=? anchor then anchor else kv_store_store_len kc len
  else 0.

(** What a job has after its prompt: a session at the prompt; a failure with its
    message; or a client that is gone. *)
Inductive prepared :=
  | Ready (d : disk) (sl : gen_slot)
  | Failed (err : bytes) (d : disk) (sl : gen_slot)
  | Gone (d : disk) (sl : gen_slot).

(** The surroundings of the prefill: the evaluation of the cold prefix and of the
    prompt, the stores, and whether the client is gone after a failure and after the
    evaluation. *)
Record prefill_env := PrefillEnv {
  pe_cold_sync : sync_env;
  pe_sync : sync_env;
  pe_cold_io : store_io;
  pe_continued_io : store_io;
  pe_unlink : bytes → bool;
  pe_gone_failed : bool;
  pe_gone_after : bool;
}.

Definition gone (d : disk) (sl : gen_slot) : prepared := Gone d (gs_set_live (request_live_state_clear (gs_live sl)) sl).

Definition prefill_failed (env : prefill_env) (k : kept) (err : bytes) (d : disk) (sl : gen_slot) (suppressed cold_len : Z) : prepared :=
  let sl := kv_cache_slot_restore_suppressed sl suppressed cold_len in
  let '(d, sl) := kv_cache_discard_failed_disk_entry (pe_unlink env) d sl (fst <$> k_file k) in
  if pe_gone_failed env then gone d sl else Failed err d sl.

Definition store_cold (io : store_io) (d : disk) (sl : gen_slot) (prompt : list Z) (suppressed cold_len : Z) : disk * gen_slot :=
  let '(ok, d) := kv_cache_store_live_prefix io d sl prompt cold_len (bs "cold") in
  (d, if ok then kv_cache_slot_note_store sl cold_len else kv_cache_slot_restore_suppressed sl suppressed cold_len).

(** The bindings that this request did not continue from are stale. *)
Definition keep_live (source : cache_source) (l : slot_live) : slot_live :=
  let l := if bool_decide (source = RESPONSES_VISIBLE ∨ source = RESPONSES_TOOL_OUTPUT) then l else responses_live_clear l in
  let l := if bool_decide (source = ANTHROPIC_TOOL_OUTPUT) then l else anthropic_live_clear l in
  if bool_decide (source = THINKING_VISIBLE) then l else thinking_live_clear l.

Definition prefill_job (env : prefill_env) (k : kept) : option prepared :=
  let prompt := k_prompt k in
  let len := Z.of_nat (length prompt) in
  let d := k_disk k in
  let sl := k_slot k in
  let min := min_tokens (kc_opt (dk_kc d)) in
  let cold := cold_store_len (dk_kc d) (k_cached k) prompt in
  let '(suppressed, sl) := if min <=? cold then kv_cache_slot_suppress_continued (dk_kc d) sl cold else (-1, sl) in
  '(failed, suppressed, d, sl) ←
    (if kc_enabled (dk_kc d) && (min <=? cold) && (cold <? len) then
       '(rc, err, d, sl) ← sync_slot (pe_cold_sync env) (k_cached k) d sl (kv_store_tokens_copy_prefix (Some prompt) cold);
       if negb (rc =? 0) then Some (Some err, suppressed, d, sl)
       else let '(d, sl) := store_cold (pe_cold_io env) d sl prompt suppressed cold in Some (None, -1, d, sl)
     else Some (None, suppressed, d, sl));
  match failed with
  | Some err => Some (prefill_failed env k err d sl suppressed cold)
  | None =>
      '(rc, err, d, sl) ← sync_slot (pe_sync env) (k_cached k) d sl prompt;
      if negb (rc =? 0) then Some (prefill_failed env k err d sl suppressed cold)
      else if pe_gone_after env then Some (gone d sl)
      else
        let sl := gs_set_live (keep_live (k_source k) (gs_live sl)) sl in
        let '(d, sl) := kv_cache_maybe_store_continued (pe_continued_io env) d sl in
        if cold =? len then let '(d, sl) := store_cold (pe_cold_io env) d sl prompt suppressed cold in Some (Ready d sl)
        else Some (Ready d sl)
  end.

End disk.
