(* ===== verification/ReuseProps.v ===== *)
(** * What a request keeps of a session: theorems

    The choice of [Reuse] against a relation that says, for each source, which tokens
    may be kept and what is evaluated after them. *)
From S2P Require Import Prelude CLib Strtod Json Request Stream ToolText ToolMemory KvHeader KvPolicy KvCache KvCacheProps KvRoundTrip ToolMap LiveState Prompt PromptProps.
From S2P Require Import JobQueue Scheduler Prefill Continuation Tokenizer TokenizerProps Reply ToolSchemas ClientInput Handlers Reuse.
From Stdlib Require Import SpecFloat.

Lemma byte_prefix_match_spec text prefix : kv_store_byte_prefix_match text prefix = true ↔ ∃ rest, text = prefix ++ rest.
Proof.
  split; [|intros [rest ->]; apply byte_prefix_match_app]. unfold kv_store_byte_prefix_match. intros [_ H]%andb_true_iff. apply orb_true_iff in H as [H|H].
  - apply Nat.eqb_eq, length_zero_iff_nil in H as ->. by exists text.
  - apply bytes_eqb_eq in H. exists (drop (length prefix) text). rewrite <- H at 1. by rewrite take_drop.
Qed.

(** ** Loading, seen from the caller *)

(** A file that was loaded: its text, its payload and the tokens they gave. *)
Definition loaded_from (sl : session_loader) (files : fs) (path text : bytes) (v : list Z) : Prop :=
  ∃ data hdr n fp fp', files !! path = Some data ∧ kv_store_read_header data = Some (hdr, n, text ++ fp) ∧ Z.to_nat n = length text
    ∧ e_model_id hdr = u8 (sl_model_id sl) ∧ sl_load sl fp (e_payload_bytes hdr) = (true, Some v, fp').

Lemma load_check_inv data p sha model hdr n fp : load_check data p sha model = inl (hdr, n, fp) →
  ∃ text rest, p = text ++ rest ∧ Z.to_nat n = length text ∧ kv_store_read_header data = Some (hdr, n, text ++ fp) ∧ e_model_id hdr = u8 model.
Proof.
  unfold load_check. destruct (kv_store_read_header data) as [[[h t] f]|]; [|done]. destruct (Z.eqb_spec (e_model_id h) (u8 model)); [|done].
  cbn [negb]. rewrite Z.gtb_ltb. destruct (Z.ltb_spec (Z.of_nat (length p)) t); [done|]. unfold fread. destruct (Nat.leb_spec (Z.to_nat t) (length f)); [|done].
  case_match; [done|]. destruct (kv_store_byte_prefix_match p _) eqn:E; [|done]. intros [= <- <- <-]. apply byte_prefix_match_spec in E as [rest E].
  exists (take (Z.to_nat t) f), rest. rewrite take_drop. rewrite length_take. split_and!; [done|lia|done|done].
Qed.

Lemma try_load_inv `{!ReadDir} uok fok now kc files sl p hooks :
  let o := kv_store_try_load_text uok fok now kc files sl (Some p) hooks in
  0 < lo_loaded o → ∃ path text rest v, p = text ++ rest ∧ loaded_from sl files path text v
    ∧ lo_loaded o = Z.of_nat (length v) ∧ lo_prompt o = v ++ sl_tokenize sl rest ∧ lo_session o = Some v ∧ lo_invalidated o = false
    ∧ lr_path <$> lo_result o = Some path.
Proof.
  cbn zeta. unfold kv_store_try_load_text. destruct (negb (kc_enabled kc)); [cbn; lia|]. case_if; [cbn; lia|].
  destruct (kv_store_find_text_prefix _ _ _ _ _ _) as [idx kc1]. destruct (idx <? 0); [cbn; lia|]. destruct (kc_entry kc1 !! _) as [ent|]; [|cbn; lia].
  destruct (files !! e_path ent) as [data|] eqn:Ef; [|cbn; lia]. destruct fok; [|cbn; lia]. cbn [negb].
  destruct (load_check _ _ _ _) as [[[hdr n] fp]|] eqn:El; [|cbn; lia]. destruct (sl_load sl fp _) as [[[|] [v|]] fp'] eqn:Es; try (cbn; lia).
  destruct (Z.eqb_spec (Z.of_nat (length v)) (i32 (e_tokens hdr))) as [Ev|]; [|cbn; lia]. apply load_check_inv in El as (text & rest & -> & Hn & Hr & Hm).
  rewrite Z.gtb_ltb. destruct (Z.ltb_spec 0 (i32 (e_tokens hdr))); [|cbn; lia]. destruct (kv_store_touch_file _ _ _ _) as [b files']. intros _.
  exists (e_path ent), text, rest, v. cbn. unfold kv_store_build_prompt_from_exact_prefix_and_text_suffix. cbn [default]. rewrite Hn, drop_app_length.
  split_and!; try done. exists data, hdr, n, fp, fp'. done.
Qed.

(** ** What may be kept *)

Section reuse.
Context (e : engine_view) (sl : gen_slot) (r : request).

Local Abbreviation live := (checkpoint (gs_session sl)).
Local Abbreviation tok := (ds4_tokenize_rendered_chat e).

(** A visible text is remembered for the tokens of the slot and the prompt goes on
    after it. *)
Definition remembered (valid : bool) (at_tokens : Z) (visible : option bytes) (rest : bytes) : Prop :=
  valid = true ∧ at_tokens = Z.of_nat (length live) ∧ rest ≠ [] ∧ ∃ key, visible = Some key ∧ r_prompt_text r = key ++ rest.

(** [reuses files source kept prompt]: the request may start from the tokens [kept]
    and has to end at [prompt]; [files] are those on disk. *)
Inductive reuses (files : fs) : cache_source → list Z → list Z → Prop :=
  | reuses_none : reuses files SRC_NONE [] (r_prompt r)
  | reuses_responses_visible rest : r_api r = API_RESPONSES →
      remembered (lt_valid (responses_live (gs_live sl))) (lt_live_tokens (responses_live (gs_live sl))) (lt_visible_text (responses_live (gs_live sl))) rest →
      reuses files RESPONSES_VISIBLE live (live ++ tok rest)
  | reuses_responses_calls ids suffix : r_api r = API_RESPONSES → r_responses_live r = (ids, Some suffix) → stop_v ids ≠ [] →
      responses_live_matches_request (gs_live sl) ids (Z.of_nat (length live)) = true →
      reuses files RESPONSES_TOOL_OUTPUT live (live ++ tok suffix)
  | reuses_anthropic_calls ids suffix : r_api r = API_ANTHROPIC → r_anthropic_live r = (ids, Some suffix) → stop_v ids ≠ [] →
      anthropic_live_matches_request (gs_live sl) ids (Z.of_nat (length live)) = true →
      reuses files ANTHROPIC_TOOL_OUTPUT live (live ++ tok suffix)
  | reuses_rewound last more : ev_glm e = true → checkpoint_valid (gs_session sl) = true → live = r_prompt r ++ more → more ≠ [] →
      r_prompt r = removelast (r_prompt r) ++ [last] → removelast (r_prompt r) ≠ [] →
      reuses files MEMORY_REWIND (removelast (r_prompt r)) (r_prompt r)
  | reuses_tokens suffix : checkpoint_valid (gs_session sl) = true → r_prompt r = live ++ suffix → reuses files MEMORY_TOKEN live (r_prompt r)
  | reuses_thinking rest : r_kind r = REQ_CHAT → r_api r ≠ API_RESPONSES →
      remembered (vl_valid (thinking_live (gs_live sl))) (vl_live_tokens (thinking_live (gs_live sl))) (vl_visible_text (thinking_live (gs_live sl))) rest →
      reuses files THINKING_VISIBLE live (live ++ tok rest)
  | reuses_text rest : r_prompt_text r = render_tokens_text e live ++ rest → reuses files MEMORY_TEXT live (live ++ tok rest)
  | reuses_file path text rest v : r_prompt_text r = text ++ rest → loaded_from (session_loader_of e) files path text v →
      reuses files DISK_TEXT v (v ++ tok rest).

Lemma hit_Some source c n p src : hit source c = Some (n, p, src) → c = (n, p) ∧ src = source ∧ 0 < n.
Proof. unfold hit. destruct (Z.ltb_spec 0 c.1); [|done]. intros [= -> ->]. done. Qed.

Lemma common_full a b : common_len a b = Z.of_nat (length a) → ∃ c, b = a ++ c.
Proof.
  revert b. induction a as [|x a IH]; intros b H; [by exists b|]. destruct b as [|y b]; cbn [common_len length] in H; [lia|].
  destruct (Z.eqb_spec x y) as [->|]; [|lia]. destruct (IH b) as [c ->]; [lia|]. by exists c.
Qed.

Lemma common_sym a b : common_len a b = common_len b a.
Proof. revert b. induction a as [|x a IH]; intros [|y b]; try done. cbn. rewrite IH, Z.eqb_sym. done. Qed.

Lemma continue_after_visible_inv valid at_tokens visible n p :
  continue_after_visible e sl r (Z.of_nat (length live)) (visible_match valid at_tokens (Z.of_nat (length live)) visible (r_prompt_text r)) = (n, p) → 0 < n →
  ∃ rest, remembered valid at_tokens visible rest ∧ n = Z.of_nat (length live) ∧ p = live ++ tok rest.
Proof.
  unfold continue_after_visible, visible_match. destruct visible as [key|]; [|intros [= <-]; lia]. case_match eqn:E; [|intros [= <-]; lia].
  case_match eqn:Ec; [|done]. injection E as <-. rewrite Z.eqb_refl. cbn [negb]. intros [= <- <-] _. bool_to_prop.
  match goal with H : kv_store_byte_prefix_match _ _ = true |- _ => apply byte_prefix_match_spec in H as [rest Hr] end.
  exists rest. unfold build_prompt_from_exact_prefix_and_text_suffix, kv_store_build_prompt_from_exact_prefix_and_text_suffix. cbn [default].
  rewrite Hr, drop_app_length. split; [|done]. split_and!; try done; [|by eexists]. intros ->. rewrite Hr, app_nil_r in *. 
  match goal with H : (_ <? _)%nat = true |- _ => apply Nat.ltb_lt in H end. lia.
Qed.

Lemma live_prefix_inv files n p source : live_prefix e sl r = Some (n, p, source) →
  reuses files source live p ∧ n = Z.of_nat (length live) ∧ 0 < n ∧ source ∈ [RESPONSES_VISIBLE; RESPONSES_TOOL_OUTPUT; ANTHROPIC_TOOL_OUTPUT].
Proof.
  unfold live_prefix, ds4_session_pos. intros H. apply union_Some in H as [H|[_ H]]; [apply union_Some in H as [H|[_ H]]|];
    apply hit_Some in H as (H & -> & Hn).
  - revert H. unfold responses_live_visible_prefix_prompt. case_bool_decide; [|intros [= <-]; lia]. cbn [negb].
    intros H1. apply continue_after_visible_inv in H1 as (rest & Hm & -> & ->); [|done]. split_and!; [by constructor|done|done|set_solver].
  - revert H. unfold responses_live_continuation_prompt. case_bool_decide; [|intros [= <-]; lia]. cbn [negb].
    destruct (r_responses_live r) as [ids [suffix|]] eqn:El; [|intros [= <-]; lia]. cbn [fst snd]. case_match eqn:E0; [intros [= <-]; lia|].
    case_match eqn:E1; [intros [= <-]; lia|]. rewrite Z.eqb_refl. cbn [negb]. intros [= <- <-]. bool_to_prop.
    split_and!; [|done|done|set_solver]. apply (reuses_responses_calls files ids); try done. intros E. by rewrite E in E0.
  - revert H. unfold anthropic_live_continuation_prompt. case_bool_decide; [|intros [= <-]; lia]. cbn [negb].
    destruct (r_anthropic_live r) as [ids [suffix|]] eqn:El; [|intros [= <-]; lia]. cbn [fst snd]. case_match eqn:E0; [intros [= <-]; lia|].
    case_match eqn:E1; [intros [= <-]; lia|]. rewrite Z.eqb_refl. cbn [negb]. intros [= <- <-]. bool_to_prop.
    split_and!; [|done|done|set_solver]. apply (reuses_anthropic_calls files ids); try done. intros E. by rewrite E in E0.
Qed.

Lemma visible_match_remembered valid at_tokens visible rest : remembered valid at_tokens visible rest →
  ∃ key, r_prompt_text r = key ++ rest ∧ visible_match valid at_tokens (Z.of_nat (length live)) visible (r_prompt_text r) = Some (length key).
Proof.
  intros (-> & -> & Hr & key & -> & Hp). exists key. split; [done|]. unfold visible_match. rewrite Hp, byte_prefix_match_app, Z.eqb_refl, length_app.
  destruct rest; [done|]. cbn [length]. destruct (Nat.ltb_spec (length key) (length key + S (length rest))); [done|lia].
Qed.

Lemma continue_remembered valid at_tokens visible rest : remembered valid at_tokens visible rest →
  continue_after_visible e sl r (Z.of_nat (length live)) (visible_match valid at_tokens (Z.of_nat (length live)) visible (r_prompt_text r))
  = (Z.of_nat (length live), live ++ tok rest).
Proof.
  intros (key & Hp & ->)%visible_match_remembered. unfold continue_after_visible. rewrite Z.eqb_refl, Hp, drop_app_length. done.
Qed.

Lemma hit_pos source n p : 0 < n → hit source (n, p) = Some (n, p, source).
Proof. intros H. unfold hit. cbn [fst]. destruct (Z.ltb_spec 0 n); [done|lia]. Qed.

(** Where the live state allows it, it is used. *)
Lemma live_prefix_complete files kept p source : reuses files source kept p → kept ≠ [] →
  source ∈ [RESPONSES_VISIBLE; RESPONSES_TOOL_OUTPUT; ANTHROPIC_TOOL_OUTPUT] → is_Some (live_prefix e sl r).
Proof.
  intros H Hk Hs. assert (Hn : kept = live → 0 < Z.of_nat (length live)) by (intros <-; destruct kept; [done|cbn; lia]).
  unfold live_prefix, ds4_session_pos. destruct H; try (exfalso; set_solver); specialize (Hn eq_refl); rewrite !union_is_Some.
  - do 2 left. unfold responses_live_visible_prefix_prompt. rewrite bool_decide_true by done. cbn [negb]. rewrite (continue_remembered _ _ _ rest) by done.
    rewrite hit_pos by done. by eexists.
  - left. right. unfold responses_live_continuation_prompt. rewrite bool_decide_true by done. cbn [negb].
    match goal with H : r_responses_live r = _ |- _ => rewrite H end. cbn [fst snd]. rewrite Z.eqb_refl. case_match eqn:E; [by destruct (stop_v ids)|].
    match goal with H : responses_live_matches_request _ _ _ = true |- _ => rewrite H end. cbn [negb]. rewrite hit_pos by done. by eexists.
  - right. unfold anthropic_live_continuation_prompt. rewrite bool_decide_true by done. cbn [negb].
    match goal with H : r_anthropic_live r = _ |- _ => rewrite H end. cbn [fst snd]. rewrite Z.eqb_refl. case_match eqn:E; [by destruct (stop_v ids)|].
    match goal with H : anthropic_live_matches_request _ _ _ = true |- _ => rewrite H end. cbn [negb]. rewrite hit_pos by done. by eexists.
Qed.

Lemma token_prefix_inv files n source s : token_prefix e sl r = Some (n, source, s) →
  reuses files source (checkpoint s) (r_prompt r) ∧ n = Z.of_nat (length (checkpoint s)) ∧ 0 < n.
Proof.
  unfold token_prefix, live_prefix_rewind_target, ds4_session_pos. set (len := Z.of_nat (length (r_prompt r))).
  unfold ds4_session_common_prefix. destruct (checkpoint_valid (gs_session sl)) eqn:Ev.
  - pose proof (common_len_range live (r_prompt r)) as Hc. destruct (_ || _) eqn:Eg; [|destruct (Z.eqb_spec (common_len live (r_prompt r)) len) as [Ec|]].
    + cbn [negb]. destruct (Z.leb_spec 0 (-1)); [lia|]. destruct (_ && _) eqn:E2; [|cbn; done]. destruct (Z.ltb_spec 0 (common_len live (r_prompt r))); [|done].
      intros [= <- <- <-]. bool_to_prop. split; [|lia]. destruct (common_full live (r_prompt r)) as [c Hp]; [lia|]. by eapply reuses_tokens.
    + cbn [negb]. bool_to_prop. destruct (Z.leb_spec 0 (len - 1)); [|lia]. intros [= <- <- <-].
      destruct (common_full (r_prompt r) live) as [more Hm]; [by rewrite common_sym|]. unfold ds4_session_rewind, ds4_session_pos. cbn [checkpoint].
      destruct (Z.ltb_spec (len - 1) 0); [lia|]. destruct (Z.ltb_spec (Z.of_nat (length live)) (len - 1)); [lia|].
      replace (take (Z.to_nat (len - 1)) live) with (removelast (r_prompt r)).
      2:{ rewrite Hm, take_app_le by lia. rewrite removelast_firstn_len. f_equal. lia. }
      assert (Hne : r_prompt r ≠ []) by (intros E; subst len; rewrite E in *; cbn in *; lia). pose proof (app_removelast_last 0 Hne) as Hl.
      assert (Hlen : Z.of_nat (length (removelast (r_prompt r))) = len - 1) by (pose proof (f_equal length Hl) as Hf; rewrite length_app in Hf; cbn in Hf; lia).
      split; [|lia]. eapply (reuses_rewound files _ more); try done.
      * intros ->. rewrite app_nil_r in Hm. rewrite Hm in *. lia.
      * intros E. rewrite E in Hlen. cbn in Hlen. lia.
    + cbn [negb]. destruct (Z.leb_spec 0 (-1)); [lia|]. destruct (_ && _) eqn:E2; [|cbn; done]. destruct (Z.ltb_spec 0 (common_len live (r_prompt r))); [|done].
      intros [= <- <- <-]. bool_to_prop. split; [|lia]. destruct (common_full live (r_prompt r)) as [c Hp]; [lia|]. by eapply reuses_tokens.
  - destruct (_ || _) eqn:Eg; [|destruct (Z.eqb_spec 0 len)]; cbn [negb]; bool_to_prop; try lia; destruct (Z.leb_spec 0 (-1)); try lia; by case_if.
Qed.

End reuse.

(** ** The choice *)

Section choice.
Context `{!ReadDir} (e : engine_view) (exp2 : spec_float → spec_float) (hooks : kv_store_trailer_hooks).
Context (sio : store_io) (lio : load_io) (d : disk) (sl : gen_slot) (r : request).

(** The files among which a request looks: those of the disk after the session of the
    slot has been saved. *)
Definition searched_files : fs := dk_files (save_replaced e exp2 hooks sio d (gs_set_last 0 sl)).

Lemma kept_prefix files source kept p : reuses e sl r files source kept p → ∃ suffix, p = kept ++ suffix.
Proof. destruct 1; subst; eauto. Qed.

Lemma disk_prefix_inv : let k := disk_prefix e exp2 hooks sio lio d sl r in
  ∃ kept, reuses e sl r searched_files (k_source k) kept (k_prompt k) ∧ k_cached k = Z.of_nat (length kept)
    ∧ (0 < k_cached k → checkpoint (gs_session (k_slot k)) = kept).
Proof.
  cbn zeta. unfold disk_prefix, kv_cache_try_load, kv_cache_try_load_text. fold searched_files.
  match goal with |- context [kv_store_try_load_text ?a ?b ?c ?k ?f ?l ?p ?h] => pose proof (try_load_inv a b c k f l (r_prompt_text r) h) as Hl end.
  cbn zeta in Hl. destruct (Z.ltb_spec 0 (lo_loaded (kv_store_try_load_text (li_unlink lio) (li_fopen lio) (li_now lio)
    (dk_kc (save_replaced e exp2 hooks sio d (gs_set_last 0 sl))) searched_files (session_loader_of e) (Some (r_prompt_text r)) (Some hooks)))) as [Hpos|].
  - destruct (Hl Hpos) as (path & text & rest & v & Hp & Hf & El & Ep & Es & Ei & _). exists v. cbn [k_source k_prompt k_cached k_slot gs_with gs_session].
    rewrite Ep, Ei, Es, El. split_and!; [|done|done]. by eapply reuses_file.
  - exists []. split_and!; [constructor|done|]. cbn. lia.
Qed.

Lemma choose_kept k : choose_prefix e exp2 hooks sio lio d sl r = inr k →
  ∃ kept, reuses e sl r searched_files (k_source k) kept (k_prompt k) ∧ k_cached k = Z.of_nat (length kept)
    ∧ (0 < k_cached k → checkpoint (gs_session (k_slot k)) = kept).
Proof.
  unfold choose_prefix. destruct (live_prefix e sl r) as [[[n p] src]|] eqn:El.
  - intros [= <-]. apply (live_prefix_inv e sl r searched_files) in El as (Hu & -> & _ & _). by exists (checkpoint (gs_session sl)).
  - case_if; [done|]. case_if; [done|]. destruct (token_prefix e sl r) as [[[n src] s]|] eqn:Et.
    + intros [= <-]. apply (token_prefix_inv e sl r searched_files) in Et as (Hu & -> & _). by exists (checkpoint s).
    + destruct (_ ∪ _) as [[[n p] src]|] eqn:Eh; [|intros [= <-]; apply disk_prefix_inv]. intros [= <-]. cbn [k_source k_prompt k_cached k_slot].
      exists (checkpoint (gs_session sl)). apply union_Some in Eh as [Eh|[_ Eh]]; apply hit_Some in Eh as (Eh & -> & Hn); revert Eh.
      * unfold thinking_live_visible_prefix_prompt. destruct (negb _ || _) eqn:Eb; [intros [= <-]; lia|].
        bool_to_prop. apply bool_decide_eq_true in H0. apply bool_decide_eq_false in H1. intros Eh. apply continue_after_visible_inv in Eh as (rest & Hm & -> & ->); [|done]. split_and!; [by constructor|done|done].
      * unfold live_text_prefix_prompt. destruct (checkpoint (gs_session sl)) as [|t l] eqn:Ec; [intros [= <-]; lia|]. case_match eqn:Em; [intros [= <-]; lia|].
        intros [= <- <-]. apply negb_false_iff, byte_prefix_match_spec in Em as [rest Hr]. split_and!; [|done|done].
        rewrite Hr, drop_app_length. rewrite <- Ec. apply reuses_text. by rewrite Ec.
Qed.

Lemma choose_refused m : choose_prefix e exp2 hooks sio lio d sl r = inl m ↔
  live_prefix e sl r = None ∧ ((r_api r = API_RESPONSES ∧ r_responses_requires_live_tool_state r = true ∧ m = responses_state_gone)
    ∨ (r_api r = API_ANTHROPIC ∧ r_anthropic_requires_live_tool_state r = true ∧ m = anthropic_state_gone)).
Proof.
  unfold choose_prefix. destruct (live_prefix e sl r) as [[[n p] src]|] eqn:El; [naive_solver|].
  destruct (r_api r) eqn:Ea; repeat case_bool_decide; try done; cbn [andb];
    destruct (r_responses_requires_live_tool_state r), (r_anthropic_requires_live_tool_state r); cbn [andb];
    repeat match goal with |- context [match ?x with Some _ => _ | None => _ end] => destruct x as [[[? ?] ?]|] end; naive_solver.
Qed.

End choice.


(** ** The evaluation of the prompt *)

Section prefill.
Context `{!ReadDir} (e : engine_view) (exp2 : spec_float → spec_float) (hooks : kv_store_trailer_hooks).
Hypothesis (sync_ok : sync_promise (ev_sync e)).

(** A setting of the quantum that the options allow. *)
Definition quantum_ok (env : sync_env) : Prop := 1 <= se_mixed_quantum env <= INT_MAX.

Lemma slot_sync_total env s prompt : quantum_ok env → Z.of_nat (length prompt) <= INT_MAX → ∃ res, slot_session_sync e env s prompt = Some res.
Proof.
  intros Hq Hl. unfold slot_session_sync. case_if; [case_if; [by eexists|]; destruct (ev_sync e s prompt) as [[rc err] s']; by eexists|].
  destruct (session_sync_total (se_mixed_quantum env) (ev_glm53 e) (ev_sync e) (se_rounds env) Hq s prompt Hl) as [[[[rc err] s'] pieces] ->]. by eexists.
Qed.

Lemma slot_sync_exact env s prompt rc err s' calls : quantum_ok env → Z.of_nat (length prompt) <= INT_MAX → prompt ≠ [] →
  slot_session_sync e env s prompt = Some (rc, err, s', calls) → rc = 0 → s' = Session true prompt.
Proof.
  intros Hq Hl Hne. unfold slot_session_sync. destruct (se_batched env); cbn [negb].
  - destruct (session_sync_sound (se_mixed_quantum env) (ev_glm53 e) (ev_sync e) (se_rounds env) s prompt Hq Hl Hne sync_ok) as (rc1 & err1 & s1 & pieces & -> & Hs).
    intros [= <- <- <- <-] E. destruct (Hs E) as (Hv & Hc & _). destruct s1. cbn in *. by subst.
  - destruct (sr_entered _); cbn [negb]; [|intros [= <- _ _ _] E; done]. destruct (ev_sync e s prompt) as [[rc1 err1] s1] eqn:Es. intros [= <- <- <- <-] E.
    destruct (sync_ok _ _ _ _ _ Hne Es E) as [Hv Hc]. destruct s1. cbn in *. by subst.
Qed.

Lemma progress_live cached calls : ∀ st, gs_live (foldl (server_progress_cb e exp2 hooks cached) st calls).2 = gs_live st.2.
Proof.
  induction calls as [|[[n s] io] calls IH]; intros [d sl]; [done|]. cbn [foldl]. rewrite IH. cbn [server_progress_cb fst snd]. case_if; [|done].
  unfold kv_cache_maybe_store_continued. case_if; [done|]. destruct (kv_cache_store_live_prefix _ _ _ _ _ _ _ _ _) as [[|] ?]; [|done].
  cbn [snd]. unfold kv_cache_slot_note_store. by case_if.
Qed.

Lemma note_live sl n : gs_live (kv_cache_slot_note_store sl n) = gs_live sl.
Proof. unfold kv_cache_slot_note_store. by case_if. Qed.
Lemma note_session sl n : gs_session (kv_cache_slot_note_store sl n) = gs_session sl.
Proof. unfold kv_cache_slot_note_store. by case_if. Qed.
Lemma restore_live sl a b : gs_live (kv_cache_slot_restore_suppressed sl a b) = gs_live sl.
Proof. unfold kv_cache_slot_restore_suppressed. by case_if. Qed.
Lemma restore_session sl a b : gs_session (kv_cache_slot_restore_suppressed sl a b) = gs_session sl.
Proof. unfold kv_cache_slot_restore_suppressed. by case_if. Qed.

Lemma continued_slot io d sl d' sl' : kv_cache_maybe_store_continued e exp2 hooks io d sl = (d', sl') → gs_session sl' = gs_session sl ∧ gs_live sl' = gs_live sl.
Proof.
  unfold kv_cache_maybe_store_continued. case_if; [by intros [= <- <-]|]. destruct (kv_cache_store_live_prefix _ _ _ _ _ _ _ _ _) as [[|] ?]; intros [= <- <-]; [|done].
  by rewrite note_session, note_live.
Qed.

Lemma cold_slot io d sl p a b d' sl' : store_cold e exp2 hooks io d sl p a b = (d', sl') → gs_session sl' = gs_session sl ∧ gs_live sl' = gs_live sl.
Proof.
  unfold store_cold. destruct (kv_cache_store_live_prefix _ _ _ _ _ _ _ _ _) as [[|] ?]; intros [= <- <-];
    by rewrite ?note_session, ?note_live, ?restore_session, ?restore_live.
Qed.

Lemma sync_slot_spec env cached d sl prompt : quantum_ok env → Z.of_nat (length prompt) <= INT_MAX →
  ∃ rc err d' sl', sync_slot e exp2 hooks env cached d sl prompt = Some (rc, err, d', sl') ∧ gs_live sl' = gs_live sl
    ∧ (prompt ≠ [] → rc = 0 → gs_session sl' = Session true prompt).
Proof.
  intros Hq Hl. unfold sync_slot. destruct (slot_sync_total env (gs_session sl) prompt Hq Hl) as [[[[rc err] s] calls] E]. rewrite E. cbn.
  pose proof (progress_live cached (calls ≫= se_progress env) (d, sl)) as Hp. destruct (foldl _ _ _) as [d' sl']. exists rc, err, d', (gs_with s sl').
  split_and!; [done|exact Hp|]. intros Hne Hrc. exact (slot_sync_exact env _ prompt rc err s calls Hq Hl Hne E Hrc).
Qed.

(** What a prefill leaves, in each of its ends. *)
Definition prefill_result (k : kept) (p : prepared) : Prop :=
  match p with
  | Ready d sl => gs_session sl = Session true (k_prompt k) ∧ gs_live sl = keep_live (k_source k) (gs_live (k_slot k))
  | Failed err d sl => gs_live sl = gs_live (k_slot k) ∧ (k_file k ≠ None → gs_session sl = Session false [] ∧ gs_continued_last sl = 0)
  | Gone d sl => gs_live sl = request_live_state_clear (gs_live (k_slot k))
  end.

Lemma failed_result env k err d sl a b : gs_live sl = gs_live (k_slot k) → prefill_result k (prefill_failed env k err d sl a b).
Proof.
  intros Hl. unfold prefill_failed. destruct (k_file k) as [[path ext]|] eqn:Ef; cbn; destruct (pe_gone_failed env); cbn; rewrite ?restore_live, ?Hl; try done.
  all: rewrite ?Ef; done.
Qed.

Lemma prefill_total env k : quantum_ok (pe_cold_sync env) → quantum_ok (pe_sync env) → Z.of_nat (length (k_prompt k)) <= INT_MAX → k_prompt k ≠ [] →
  ∃ p, prefill_job e exp2 hooks env k = Some p ∧ prefill_result k p.
Proof.
  intros Hq1 Hq2 Hl Hne. unfold prefill_job. set (cold := cold_store_len e (dk_kc (k_disk k)) (k_cached k) (k_prompt k)).
  destruct (if _ <=? cold then _ else _) as [suppressed sl] eqn:Es.
  assert (Hsl : gs_live sl = gs_live (k_slot k)).
  { revert Es. case_if; [|by intros [= <- <-]]. unfold kv_cache_slot_suppress_continued. case_if; intros [= <- <-]; by rewrite ?note_live. }
  assert (Hrest : ∀ d sl suppressed, gs_live sl = gs_live (k_slot k) → ∃ p,
    ('(rc, err, d, sl) ← sync_slot e exp2 hooks (pe_sync env) (k_cached k) d sl (k_prompt k);
      if negb (rc =? 0) then Some (prefill_failed env k err d sl suppressed cold)
      else if pe_gone_after env then Some (gone d sl)
      else
        let sl := gs_set_live (keep_live (k_source k) (gs_live sl)) sl in
        let '(d, sl) := kv_cache_maybe_store_continued e exp2 hooks (pe_continued_io env) d sl in
        if cold =? Z.of_nat (length (k_prompt k)) then let '(d, sl) := store_cold e exp2 hooks (pe_cold_io env) d sl (k_prompt k) suppressed cold in Some (Ready d sl)
        else Some (Ready d sl)) = Some p ∧ prefill_result k p).
  { clear Es Hsl suppressed sl. intros d sl suppressed Hsl.
    destruct (sync_slot_spec (pe_sync env) (k_cached k) d sl (k_prompt k) Hq2 Hl) as (rc & err & d' & sl' & -> & Hlive & Hses). cbn [mbind option_bind].
    destruct (Z.eqb_spec rc 0) as [->|]; cbn [negb]; [|eexists; split; [done|]; apply failed_result; congruence].
    case_if; [eexists; split; [done|]; cbn; congruence|]. destruct (kv_cache_maybe_store_continued _ _ _ _ _ _) as [d2 sl2] eqn:Ec.
    apply continued_slot in Ec as [Ec1 Ec2]. cbn in Ec1, Ec2. rewrite Hses in Ec1 by done. rewrite Hlive, Hsl in Ec2.
    case_if; [|eexists; split; [done|done]]. destruct (store_cold e exp2 hooks _ _ _ _ _ _) as [d3 sl3] eqn:E3. apply cold_slot in E3 as [E31 E32].
    eexists; split; [done|]. cbn. by rewrite E31, E32. }
  destruct (kc_enabled _ && _ && _); [|cbn [mbind option_bind]; by apply Hrest].
  destruct (sync_slot_spec (pe_cold_sync env) (k_cached k) (k_disk k) sl (kv_store_tokens_copy_prefix (Some (k_prompt k)) cold) Hq1) as (rc & err & d' & sl' & -> & Hlive & _).
  { unfold kv_store_tokens_copy_prefix. rewrite length_take. lia. }
  cbn [mbind option_bind]. destruct (negb (rc =? 0)); cbn [mbind option_bind]; [eexists; split; [done|]; apply failed_result; congruence|]. destruct (store_cold e exp2 hooks _ _ _ _ _ _) as [d3 sl3] eqn:E3. apply cold_slot in E3 as [_ E32].
  cbn [mbind option_bind]. apply Hrest. congruence.
Qed.

End prefill.
