(* ===== verification/Decode.v ===== *)
(** * Generating a reply

    Model of the decode loop of [generate_job_inner] of [engine/src/server.c]: sample a
    token, evaluate it alone or with the tokens a draft adds, append its text, look for
    a stop sequence, send what is safe to send, watch for tool calls, and stop at the
    limit, at a stop token, at a stop sequence or at the end of a tool call; with the
    sampling parameters of each step, [server_eval_token] without batches and
    [append_rendered_suffix_to_live_session].

    The sampler and the evaluation are arguments, and so are the moments at which the
    server is stopped and at which the client is found to be gone, numbered by the
    checks the loop makes. The stream of the client is a record of operations. The text
    of a token has no NUL byte. *)
From S2P Require Import Prelude CLib Strtod Json Request Stream Dsml ToolText ToolStream ToolMemory KvHeader KvPolicy KvCache ToolMap LiveState Prompt JobQueue Scheduler Prefill.
From S2P Require Import Continuation Tokenizer SseStream Reply ToolSchemas ClientInput Handlers Reuse.
From Stdlib Require Import SpecFloat.

(** ** Tokens *)

(** The token ends the reply of a request with this mode. *)
Definition token_ends (e : engine_view) (token : Z) (mode : ds4_think_mode) : bool := ds4_token_is_stop_for_think_mode (ev_glm e) (ev_vocab e) token mode.

(** ** State *)

Record decode_state := DecodeState {
  dc_text : bytes;
  dc_plain_pos : nat;
  dc_stop_from : nat;
  dc_completion : Z;
  dc_thinking : thinking_state;
  dc_tracker : dsml_decode_tracker;
  dc_saw_start : bool;
  dc_saw_end : bool;
  dc_tool_from : nat;
  dc_waiting : bool;
  dc_recovery_from : nat;
}.

Definition chat_with_tools (r : request) : bool := bool_decide (r_kind r = REQ_CHAT) && r_has_tools r.

Definition decode_init (r : request) : decode_state :=
  let thinking := thinking_state_from_prompt (Some (r_prompt_text r)) (r_think_mode r) in
  DecodeState [] 0 0 0 thinking dsml_decode_tracker_init false false 0 (ds4_think_mode_enabled (r_think_mode r) && ts_inside thinking) 0.

(** ** Sampling *)

(** [temperature], [top_k], [top_p], [min_p]. *)
Definition sampling : Type := spec_float * Z * spec_float * spec_float.

Definition float_zero : spec_float := S754_zero false.

Definition decode_sampling (r : request) (dsml_state : dsml_decode_state) : sampling :=
  let on := ds4_think_mode_enabled (r_think_mode r) in
  let temperature := if on && negb (r_temperature_set r) then DS4_DEFAULT_TEMPERATURE else r_temperature r in
  let top_k := if on && negb (r_top_k_set r) then 0 else r_top_k r in
  let top_p := if on && negb (r_top_p_set r) then DS4_DEFAULT_TOP_P else r_top_p r in
  let min_p := if on && negb (r_min_p_set r) then DS4_DEFAULT_MIN_P else r_min_p r in
  (if dsml_decode_state_is_tool dsml_state && negb (dsml_decode_state_uses_payload_sampling dsml_state) then float_zero else temperature,
   top_k, top_p, min_p).

(** ** One token *)

(** The text of the token joins the text; [None] where the tracker faults. *)
Definition take_piece (r : request) (piece : bytes) (st : decode_state) : option decode_state :=
  let text := dc_text st ++ piece in
  tracker ← (if chat_with_tools r then dsml_decode_tracker_update (dc_tracker st) (Some text) else Some (dc_tracker st));
  Some (DecodeState text (dc_plain_pos st) (dc_stop_from st) (dc_completion st + 1) (thinking_state_feed (dc_thinking st) piece) tracker
          (dc_saw_start st) (dc_saw_end st) (dc_tool_from st) (dc_waiting st) (dc_recovery_from st)).

Definition set_stop_from (n : nat) (st : decode_state) : decode_state :=
  DecodeState (dc_text st) (dc_plain_pos st) n (dc_completion st) (dc_thinking st) (dc_tracker st) (dc_saw_start st) (dc_saw_end st)
    (dc_tool_from st) (dc_waiting st) (dc_recovery_from st).
Definition set_plain_pos (n : nat) (st : decode_state) : decode_state :=
  DecodeState (dc_text st) n (dc_stop_from st) (dc_completion st) (dc_thinking st) (dc_tracker st) (dc_saw_start st) (dc_saw_end st)
    (dc_tool_from st) (dc_waiting st) (dc_recovery_from st).
Definition set_text (t : bytes) (st : decode_state) : decode_state :=
  DecodeState t (dc_plain_pos st) (dc_stop_from st) (dc_completion st) (dc_thinking st) (dc_tracker st) (dc_saw_start st) (dc_saw_end st)
    (dc_tool_from st) (dc_waiting st) (dc_recovery_from st).
Definition set_tools (saw_start saw_end : bool) (tool_from : nat) (waiting : bool) (recovery_from : nat) (st : decode_state) : decode_state :=
  DecodeState (dc_text st) (dc_plain_pos st) (dc_stop_from st) (dc_completion st) (dc_thinking st) (dc_tracker st) saw_start saw_end
    tool_from waiting recovery_from.

(** Where a stop sequence starts, and how much of the text may be sent. *)
Definition scan_stop (r : request) (st : decode_state) : option nat * nat * decode_state :=
  let text := dc_text st in
  let hit := fst <$> stop_list_find_from (r_stops r) (Some text) (dc_stop_from st) in
  let stream_len := match hit with Some pos => pos | None => stop_list_stream_safe_len (r_stops r) (length text) end in
  let stream_len := if (length text <? stream_len)%nat then length text else stream_len in
  let stream_len := utf8_stream_safe_len (Some text) (dc_plain_pos st) stream_len (bool_decide (is_Some hit)) in
  let st := match hit with
            | Some _ => st
            | None =>
                if 1 <? stop_max_len (r_stops r) then
                  let hold := Z.to_nat (stop_max_len (r_stops r) - 1) in
                  set_stop_from (if (hold <? length text)%nat then length text - hold else 0)%nat st
                else st
            end in
  (hit, stream_len, st).

(** The state with the markers seen so far, and whether a complete call was found in
    reasoning that is not closed. *)
Definition scan_tools (r : request) (st : decode_state) : decode_state * bool :=
  let text := dc_text st in
  let len := length text in
  if negb (chat_with_tools r) then (st, false)
  else if ds4_think_mode_enabled (r_think_mode r) && ts_inside (dc_thinking st) then
    let '(complete, from) := complete_tool_call_inside_thinking text (dc_recovery_from st) in
    if complete then (set_tools true true (dc_tool_from st) (dc_waiting st) from st, true)
    else (set_tools (dc_saw_start st) (dc_saw_end st) len true from st, false)
  else
    let tool_from := if dc_waiting st then match find_last_substr text (bs "</think>") with Some p => (p + 8)%nat | None => len end else dc_tool_from st in
    let tool_from := if (len <? tool_from)%nat then len else tool_from in
    let '(saw_start, saw_end, _) := observe_tool_markers (Some (drop tool_from text)) (dc_saw_start st) (dc_saw_end st) false in
    let hold_from := if (80 <? len)%nat then (len - 80)%nat else 0%nat in
    (set_tools saw_start saw_end (if (tool_from <? hold_from)%nat then hold_from else tool_from) false (dc_recovery_from st) st, false).

(** ** The client *)

(** Whether text is sent as it is ([sse_chunk]), and the update of a live stream with
    the text and the length that is safe. *)
Record client_ops (St Ev : Type) := ClientOps {
  co_plain : bool;
  co_chunk : bytes → io Ev unit;
  co_update : bytes → nat → St → io Ev St;
}.
Arguments co_plain {St Ev} _.
Arguments co_chunk {St Ev} _ _ _.
Arguments co_update {St Ev} _ _ _ _ _.

(** A client that waits for the whole reply. *)
Definition silent_client {Ev} : client_ops unit Ev := ClientOps _ _ false (λ _, iret tt) (λ _ _ s, iret s).

(** A client that gets the text as it is: an event is the text of a chunk. *)
Definition plain_client (send : nat → bool) : client_ops unit bytes := ClientOps _ _ true (send_event send) (λ _ _ s, iret s).

(** A client with a live stream. The code passes the whole text and a length; nothing
    of the text after the length is a marker unless a stop sequence holds text back, so
    this is the client of a request without stop sequences. *)
Definition live_client {St Ev} (ops : stream_ops St Ev) (known : bytes → bool) (pick : (bytes → bool) → bytes) (has_tools : bool) : client_ops (St * sse_stream) Ev :=
  ClientOps _ _ false (λ _, iret tt) (λ text n s, sse_stream_update ops known pick has_tools (take n text) false s.2 s.1).

(** How a token ends: the loop goes on; it stops with a finish reason and a message;
    the client is gone. *)
Inductive token_end := Next | Stop (finish err : bytes) | Lost.

(** ** The engine while it decodes *)

(** [de_spec] is [None] when drafts are off; its tokens start with the one given. *)
Record decode_engine := DecodeEngine {
  de_sample : session → sampling → Z → Z * Z;
  de_eval : session → Z → Z * bytes * session;
  de_spec : option (session → Z → Z → sampling → Z → (bytes + list Z) * session * Z);
}.

(** What happens around the loop, by the number of the check: the server is asked to
    stop, the client is gone, and the system calls of a store. *)
Record decode_env := DecodeEnv {
  dn_stop : nat → bool;
  dn_gone : nat → bool;
  dn_store : nat → store_io;
}.

Section decode.
Context {St Ev : Type} (ops : client_ops St Ev).
Context `{!ReadDir} (e : engine_view) (exp2 : spec_float → spec_float) (hooks : kv_store_trailer_hooks).
Context (de : decode_engine) (env : decode_env) (r : request).

#[local] Open Scope io_scope.

(** The text that is safe to send. *)
Definition send_piece (stream_len : nat) (st : decode_state) (s : St) : io Ev (decode_state * St) :=
  let* st :=
    (if co_plain ops && (dc_plain_pos st <? stream_len)%nat
     then let* _ := co_chunk ops (text_span (dc_text st) (dc_plain_pos st) stream_len) in iret (set_plain_pos stream_len st)
     else iret st) in
  let* s := co_update ops (dc_text st) stream_len s in iret (st, s).

(** The loop's surroundings: the slot, the disk, the client and the checks so far. *)
Record world := World {
  w_st : decode_state;
  w_client : St;
  w_slot : gen_slot;
  w_disk : disk;
  w_tick : nat;
}.

Definition w_set (st : decode_state) (s : St) (w : world) : world := World st s (w_slot w) (w_disk w) (w_tick w).
Definition w_check (w : world) : world := World (w_st w) (w_client w) (w_slot w) (w_disk w) (S (w_tick w)).
Definition w_session (s : session) (w : world) : world := World (w_st w) (w_client w) (gs_with s (w_slot w)) (w_disk w) (w_tick w).

(** What the text of a token leads to. *)
Inductive piece_end := PieceNext | PieceCalls | PieceCut | PieceLost.

(** The body of the inner loop after the checks; [None] where the code would read
    outside of its data. *)
Definition piece_step (piece : bytes) (st : decode_state) (s : St) (out : list Ev) : list Ev * option (decode_state * St * piece_end) :=
  match take_piece r piece st with
  | None => (out, None)
  | Some st =>
      let '(hit, stream_len, st) := scan_stop r st in
      match send_piece stream_len st s out with
      | (out, Stuck) => (out, None)
      | (out, Closed) => (out, Some (st, s, PieceLost))
      | (out, Done (st, s)) =>
          let '(st, recovered) := scan_tools r st in
          if recovered then (out, Some (st, s, PieceCalls))
          else
            match hit with
            | Some pos => (out, Some (set_text (take pos (dc_text st)) st, s, PieceCut))
            | None => (out, Some (st, s, if chat_with_tools r && dc_saw_end st then PieceCalls else PieceNext))
            end
      end
  end.

(** The body of the inner loop; a stop sequence leaves a session that does not hold
    the reply. *)
Definition token_step (token : Z) (w : world) (out : list Ev) : list Ev * option (world * token_end) :=
  let w' := w_check w in
  if dn_gone env (w_tick w) then (out, Some (w', Lost))
  else if token_ends e token (r_think_mode r) then (out, Some (w', Stop (bs "stop") []))
  else
    match piece_step (ds4_token_text (ev_vocab e) token) (w_st w) (w_client w) out with
    | (out, None) => (out, None)
    | (out, Some (st, s, pe)) =>
        let w' := w_set st s w' in
        match pe with
        | PieceNext => (out, Some (w', Next))
        | PieceCalls => (out, Some (w', Stop (bs "tool_calls") []))
        | PieceCut => (out, Some (w_session (ds4_session_invalidate (gs_session (w_slot w))) w', Stop (bs "stop") []))
        | PieceLost => (out, Some (w', Lost))
        end
    end.

(** The tokens of one evaluation, as far as the limit allows. *)
Fixpoint token_loop (max_tokens : Z) (toks : list Z) (w : world) (out : list Ev) : list Ev * option (world * token_end) :=
  match toks with
  | [] => (out, Some (w, Next))
  | token :: toks' =>
      if max_tokens <=? dc_completion (w_st w) then (out, Some (w, Next))
      else
        match token_step token w out with
        | (out, Some (w', Next)) => token_loop max_tokens toks' w' out
        | res => res
        end
  end.

(** The evaluation of a sampled token: the tokens it gives, or the message of a failure. *)
Definition eval_sampled (token : Z) (max_tokens : Z) (p : sampling) (rng : Z) (w : world) : (bytes + list Z) * session * Z :=
  let s := gs_session (w_slot w) in
  match de_spec de with
  | Some spec => spec s token (max_tokens - dc_completion (w_st w)) p rng
  | None => let '(rc, err, s) := de_eval de s token in (if rc =? 0 then inr [token] else inl err, s, rng)
  end.

(** A continued checkpoint, outside of tool calls. *)
Definition loop_store (w : world) : world :=
  let dsml_state := if chat_with_tools r then dt_decode (dc_tracker (w_st w)) else DSML_DECODE_OUTSIDE in
  if chat_with_tools r && (dc_saw_start (w_st w) || dsml_decode_state_is_tool dsml_state) then w
  else let '(d, sl) := kv_cache_maybe_store_continued e exp2 hooks (dn_store env (w_tick w)) (w_disk w) (w_slot w) in
       World (w_st w) (w_client w) sl d (w_tick w).

(** The outer loop: the world, the state of the random numbers and how it ended. *)
Fixpoint decode_tokens (fuel : nat) (max_tokens : Z) (rng : Z) (w : world) (out : list Ev) : list Ev * option (world * Z * token_end) :=
  match fuel with
  | O => (out, None)
  | S fuel' =>
      if dn_stop env (w_tick w) then (out, Some (w_check w, rng, Stop (bs "length") []))
      else if dn_gone env (w_tick w) then (out, Some (w_check w, rng, Lost))
      else if negb ((dc_completion (w_st w) <? max_tokens) && (ds4_session_pos (gs_session (w_slot w)) <? ev_ctx e))
      then (out, Some (w_check w, rng, Stop (bs "length") []))
      else
        let w := loop_store (w_check w) in
        let dsml_state := if chat_with_tools r then dt_decode (dc_tracker (w_st w)) else DSML_DECODE_OUTSIDE in
        let p := decode_sampling r dsml_state in
        let '(token, rng) := de_sample de (gs_session (w_slot w)) p rng in
        if token_ends e token (r_think_mode r) then (out, Some (w, rng, Stop (bs "stop") []))
        else
          let '(res, s, rng) := eval_sampled token max_tokens p rng w in
          let w := w_session s w in
          match res with
          | inl err => (out, Some (w, rng, Stop (bs "error") err))
          | inr toks =>
              match token_loop max_tokens toks w out with
              | (out, Some (w, Next)) => decode_tokens fuel' max_tokens rng w out
              | (out, Some (w, t)) => (out, Some (w, rng, t))
              | (out, None) => (out, None)
              end
          end
  end.

(** The limit of a reply: what the request asks for and the context leaves. *)
Definition decode_max (s : session) : Z :=
  let room := ev_ctx e - ds4_session_pos s in
  let max_tokens := if r_max_tokens r <? 0 then 0 else r_max_tokens r in
  if room <? max_tokens then room else max_tokens.

(** The loop, the check for a client that is gone and for a server that stops. *)
Definition decode (rng : Z) (s : St) (sl : gen_slot) (d : disk) (tick : nat) (out : list Ev) : list Ev * option (world * Z * token_end) :=
  let max_tokens := decode_max (gs_session sl) in
  match decode_tokens (S (Z.to_nat max_tokens)) max_tokens rng (World (decode_init r) s sl d tick) out with
  | (out, Some (w, rng, t)) =>
      let w' := w_check w in
      match t with
      | Stop finish err =>
          if dn_gone env (w_tick w) then (out, Some (w', rng, Lost))
          else if dn_stop env (w_tick w) && negb (bytes_eqb finish (bs "error"))
          then (out, Some (w', rng, Stop (bs "error") (bs "shutdown requested")))
          else (out, Some (w', rng, t))
      | _ => (out, Some (w', rng, Lost))
      end
  | res => res
  end.

(** The text that is left of a reply that is sent as it is. *)
Definition flush_plain (w : world) : io Ev unit :=
  let st := w_st w in
  if co_plain ops && (dc_plain_pos st <? length (dc_text st))%nat
  then let* _ := co_chunk ops (drop (dc_plain_pos st) (dc_text st)) in iret tt
  else iret tt.

End decode.
