(* ===== verification/DecodeProps.v ===== *)
(** * Generating a reply: theorems

    An induction principle for the decode loop, the text it ends with, what a client
    that gets the text as it is receives, and what a live stream is fed. *)
From S2P Require Import Prelude CLib Strtod Json Request Stream StreamProps Dsml DsmlProps ToolText ToolStream ToolMemory KvHeader KvPolicy KvCache KvCacheProps KvRoundTrip ToolMap LiveState Prompt JobQueue Scheduler Prefill.
From S2P Require Import Continuation StrTable Tokenizer ToolStreamProps SseStream SseProps SseMessage SseClaims Reply ToolSchemas ClientInput Handlers Reuse ReuseProps Decode.
From Stdlib Require Import SpecFloat.

(** ** The loop *)

(** What the engine promises of an evaluation: the session grows by the tokens that
    were evaluated, the one given first; a draft gives at least that one. *)
Record decode_promise (de : decode_engine) : Prop := {
  dp_eval : ∀ s t err s', de_eval de s t = (0, err, s') → checkpoint s' = checkpoint s ++ [t];
  dp_spec : ∀ spec s t n p rng toks s' rng', de_spec de = Some spec → spec s t n p rng = (inr toks, s', rng') →
    toks ≠ [] ∧ checkpoint s' = checkpoint s ++ toks;
}.

Section principle.
Context {St Ev : Type} (ops : client_ops St Ev).
Context `{!ReadDir} (e : engine_view) (exp2 : spec_float → spec_float) (hooks : kv_store_trailer_hooks).
Context (de : decode_engine) (env : decode_env) (r : request) (Hde : decode_promise de).

Local Abbreviation text_of := (ds4_token_text (ev_vocab e)).

(** [J] holds between the tokens, given those taken so far; [Q] when one ends the loop. *)
Context (J : list Z → decode_state → St → list Ev → Prop) (Q : list Z → decode_state → St → list Ev → piece_end → Prop).
Hypothesis (J_step : ∀ toks t st s out, J toks st s out → token_ends e t (r_think_mode r) = false →
  match piece_step ops r (text_of t) st s out with
  | (out', Some (st', s', PieceNext)) => J (toks ++ [t]) st' s' out' ∧ dc_completion st' = dc_completion st + 1
  | (out', Some (st', s', pe)) => Q (toks ++ [t]) st' s' out' pe ∧ dc_completion st' = dc_completion st + 1
  | (_, None) => False
  end).

(** How the loop ends: the tokens taken, the session and the reason. *)
Inductive ended (ck : list Z) (toks : list Z) (w : world (St := St)) (out : list Ev) : token_end → Prop :=
  | ended_lost : ended ck toks w out Lost
  | ended_between finish err ahead : J toks (w_st w) (w_client w) out → finish ∈ [bs "length"; bs "stop"] →
      checkpoint (gs_session (w_slot w)) = ck ++ toks ++ ahead → (de_spec de = None → ahead = []) → ended ck toks w out (Stop finish err)
  | ended_error err : (J toks (w_st w) (w_client w) out ∨ ∃ pe, pe ∈ [PieceCalls; PieceCut] ∧ Q toks (w_st w) (w_client w) out pe) → ended ck toks w out (Stop (bs "error") err)
  | ended_calls err ahead : Q toks (w_st w) (w_client w) out PieceCalls →
      checkpoint (gs_session (w_slot w)) = ck ++ toks ++ ahead → (de_spec de = None → ahead = []) → ended ck toks w out (Stop (bs "tool_calls") err)
  | ended_cut err : Q toks (w_st w) (w_client w) out PieceCut → gs_session (w_slot w) = Session false [] → ended ck toks w out (Stop (bs "stop") err).

(** Without a draft an evaluation has one token, which the loop takes. *)
Definition single (max : Z) (w : world (St := St)) (new : list Z) : Prop :=
  de_spec de = None → (length new <= 1)%nat ∧ (new ≠ [] → dc_completion (w_st w) < max)
    ∧ Forall (λ t, token_ends e t (r_think_mode r) = false) new.

Lemma token_loop_ends max ck new : ∀ toks w out, J toks (w_st w) (w_client w) out →
  checkpoint (gs_session (w_slot w)) = ck ++ toks ++ new → single max w new →
  ∃ out' w' t taken, token_loop ops e env r max new w out = (out', Some (w', t)) ∧ gs_live (w_slot w') = gs_live (w_slot w)
    ∧ dc_completion (w_st w') = dc_completion (w_st w) + Z.of_nat (length taken) ∧ (dc_completion (w_st w) <= max → dc_completion (w_st w') <= max)
    ∧ match t with
      | Next => J (toks ++ taken) (w_st w') (w_client w') out' ∧ (∃ ahead, checkpoint (gs_session (w_slot w')) = ck ++ (toks ++ taken) ++ ahead
                  ∧ (de_spec de = None → ahead = []) ∧ (dc_completion (w_st w') < max → ahead = []))
                ∧ (dc_completion (w_st w) < max → new ≠ [] → taken ≠ [])
      | _ => ended ck (toks ++ taken) w' out' t
      end.
Proof.
  induction new as [|t new IH]; intros toks w out HJ Hck Hs; cbn [token_loop].
  { exists out, w, Next, []. rewrite !app_nil_r in *. split_and!; try done; try (cbn; lia). exists []. by rewrite app_nil_r. }
  destruct (Z.leb_spec max (dc_completion (w_st w))) as [Hm|Hm].
  { exists out, w, Next, []. rewrite app_nil_r. cbn [app]. split_and!; try done; try (cbn; lia). exists (t :: new). split_and!; [done| |lia].
    intros Hn. destruct (Hs Hn) as (_ & H1 & _). specialize (H1 ltac:(done)). lia. }
  unfold token_step. destruct (dn_gone env (w_tick w)).
  { exists out, (w_check w), Lost, []. split_and!; try done; try (cbn; lia). constructor. }
  destruct (token_ends e t (r_think_mode r)) eqn:Et.
  { exists out, (w_check w), (Stop (bs "stop") []), []. rewrite app_nil_r. split_and!; try done; try (cbn; lia).
    eapply (ended_between _ _ _ _ _ _ (t :: new)); try done; [set_solver|].
    intros Hn. destruct (Hs Hn) as (_ & _ & H1). inversion H1; congruence. }
  pose proof (J_step toks t (w_st w) (w_client w) out HJ Et) as Hp. destruct (piece_step _ _ _ _ _ _) as [out1 [[[st s] pe]|]]; [|done].
  rewrite cons_middle in Hck. rewrite (app_assoc toks) in Hck. destruct pe; destruct Hp as [Hp Hc].
  - destruct (IH (toks ++ [t]) (w_set st s (w_check w)) out1 Hp Hck) as (out2 & w2 & t2 & taken & E & Hl & Hn & Hle & Hend).
    { intros Hn. destruct (Hs Hn) as (Hlen & _ & Hf). cbn in Hlen. destruct new; [|cbn in Hlen; lia]. split_and!; [cbn; lia|done|constructor]. }
    exists out2, w2, t2, (t :: taken). rewrite E. cbn in Hl, Hn, Hle |- *. rewrite (cons_middle t toks taken), (app_assoc toks).
    split_and!; [done|done|lia|lia|]. destruct t2; [|done..]. destruct Hend as (H1 & H2 & _). done.
  - eexists out1, _, _, [t]. split_and!; [done|done|cbn; lia|cbn; lia|]. cbn. eapply (ended_calls _ _ _ _ _ new); cbn; [done|by rewrite Hck|].
    intros Hn. destruct (Hs Hn) as (Hlen & _). destruct new; [done|cbn in Hlen; lia].
  - eexists out1, _, _, [t]. split_and!; [done|done|cbn; lia|cbn; lia|]. cbn. by apply ended_cut.
  - eexists out1, _, _, [t]. split_and!; [done|done|cbn; lia|cbn; lia|]. constructor.
Qed.
Lemma loop_store_same (w : world (St := St)) : let w' := loop_store e exp2 hooks env r w in
  w_st w' = w_st w ∧ w_client w' = w_client w ∧ gs_session (w_slot w') = gs_session (w_slot w) ∧ gs_live (w_slot w') = gs_live (w_slot w).
Proof.
  cbn zeta. unfold loop_store. case_match; [done|]. destruct (kv_cache_maybe_store_continued _ _ _ _ _ _) as [d sl] eqn:E. by apply continued_slot in E as [E1 E2].
Qed.

Lemma eval_sampled_new t max p rng (w : world (St := St)) res s rng' : eval_sampled de t max p rng w = (res, s, rng') → dc_completion (w_st w) < max →
  token_ends e t (r_think_mode r) = false →
  match res with
  | inl _ => True
  | inr new => new ≠ [] ∧ checkpoint s = checkpoint (gs_session (w_slot w)) ++ new ∧ single max (w_session s w) new
  end.
Proof.
  unfold eval_sampled, single. intros He Hm Ht. destruct (de_spec de) as [spec|] eqn:Es.
  - destruct res as [|new]; [done|]. eapply (dp_spec _ Hde) in He as [H1 H2]; [|done]. done.
  - destruct (de_eval de _ t) as [[rc err] s1] eqn:Ee. destruct (Z.eqb_spec rc 0) as [->|]; injection He as <- <- <-; [|done].
    apply (dp_eval _ Hde) in Ee. split_and!; [done|done|]. intros _. split_and!; [cbn; lia|by intros _|by constructor].
Qed.

Lemma decode_tokens_ends fuel max ck : ∀ toks ahead rng w out, J toks (w_st w) (w_client w) out →
  checkpoint (gs_session (w_slot w)) = ck ++ toks ++ ahead → (de_spec de = None → ahead = []) → (dc_completion (w_st w) < max → ahead = []) →
  max - dc_completion (w_st w) < Z.of_nat fuel → dc_completion (w_st w) <= max →
  ∃ out' w' rng' t taken, decode_tokens ops e exp2 hooks de env r fuel max rng w out = (out', Some (w', rng', t)) ∧ t ≠ Next
    ∧ gs_live (w_slot w') = gs_live (w_slot w) ∧ dc_completion (w_st w') = dc_completion (w_st w) + Z.of_nat (length taken)
    ∧ dc_completion (w_st w') <= max ∧ ended ck (toks ++ taken) w' out' t.
Proof.
  induction fuel as [|fuel IH]; intros toks ahead rng w out HJ Hck Ha1 Ha2 Hf Hle; [lia|]. cbn [decode_tokens].
  assert (Hbreak : ∀ (rng' : Z) (w' : world (St := St)) finish, w_st w' = w_st w → w_client w' = w_client w → gs_session (w_slot w') = gs_session (w_slot w) →
    gs_live (w_slot w') = gs_live (w_slot w) → finish ∈ [bs "length"; bs "stop"] →
    ∃ out' w2 rng2 t taken, (out, Some (w', rng', Stop finish [])) = (out', Some (w2, rng2, t)) ∧ t ≠ Next ∧ gs_live (w_slot w2) = gs_live (w_slot w)
      ∧ dc_completion (w_st w2) = dc_completion (w_st w) + Z.of_nat (length taken) ∧ dc_completion (w_st w2) <= max ∧ ended ck (toks ++ taken) w2 out' t).
  { intros rng' w' finish E1 E2 E3 E4 Hfin. exists out, w', rng', (Stop finish []), []. rewrite app_nil_r. split_and!; try done; [rewrite E1; cbn; lia|by rewrite E1|].
    eapply (ended_between _ _ _ _ _ _ ahead); rewrite ?E1, ?E2, ?E3; done. }
  destruct (dn_stop env (w_tick w)); [apply Hbreak; done || set_solver|].
  destruct (dn_gone env (w_tick w)). { exists out, (w_check w), rng, Lost, []. split_and!; try done; [cbn; lia|constructor]. }
  destruct (negb _) eqn:Eh; [apply Hbreak; done || set_solver|]. apply negb_false_iff, andb_true_iff in Eh as [Hlt%Z.ltb_lt _].
  rewrite (Ha2 Hlt) in Hck. destruct (loop_store_same (w_check w)) as (E1 & E2 & E3 & E4). set (w1 := loop_store _ _ _ _ _ _) in *. cbn [w_check w_st w_client w_slot] in *.
  destruct (de_sample de _ _ _) as [t rng1]. destruct (token_ends e t (r_think_mode r)) eqn:Et; [apply Hbreak; done || set_solver|].
  destruct (eval_sampled _ _ _ _ _ _) as [[res s] rng2] eqn:Ee. apply eval_sampled_new in Ee; [|rewrite E1; done|done]. destruct res as [err|new].
  { exists out, (w_session s w1), rng2, (Stop (bs "error") err), []. rewrite app_nil_r. cbn. rewrite E1. split_and!; try done; [lia|].
    apply ended_error. left. cbn. by rewrite E1, E2. }
  destruct Ee as (Hnew & Hses & Hsingle). rewrite E3, Hck, app_nil_r, <- app_assoc in Hses.
  destruct (token_loop_ends max ck new toks (w_session s w1) out) as (out2 & w2 & t2 & taken & -> & Hl & Hn & Hle2 & Hend); [cbn; by rewrite E1, E2|done|done|].
  cbn in Hl, Hn, Hle2, Hend. rewrite E1 in *. rewrite E4 in Hl. specialize (Hle2 Hle). destruct t2.
  - destruct Hend as (HJ2 & (ahead2 & Hck2 & Ha3 & Ha4) & Htk). specialize (Htk Hlt Hnew). assert (0 < length taken)%nat by (destruct taken; [done|cbn; lia]).
    destruct (IH (toks ++ taken) ahead2 rng2 w2 out2 HJ2 Hck2 Ha3 Ha4 ltac:(lia) Hle2) as (out3 & w3 & rng3 & t3 & taken3 & E5 & Ht3 & Hl3 & Hn3 & Hle3 & Hend3).
    exists out3, w3, rng3, t3, (taken ++ taken3). rewrite E5, app_assoc, length_app. split_and!; try done; [congruence|lia].
  - exists out2, w2, rng2, (Stop finish err), taken. split_and!; done.
  - exists out2, w2, rng2, Lost, taken. split_and!; done.
Qed.
Lemma decode_ends rng s sl d tick out : J [] (decode_init r) s out → ds4_session_pos (gs_session sl) <= ev_ctx e →
  ∃ out' w rng' t toks, decode ops e exp2 hooks de env r rng s sl d tick out = (out', Some (w, rng', t)) ∧ t ≠ Next
    ∧ gs_live (w_slot w) = gs_live sl ∧ dc_completion (w_st w) = Z.of_nat (length toks) ∧ dc_completion (w_st w) <= decode_max e r (gs_session sl)
    ∧ ended (checkpoint (gs_session sl)) toks w out' t.
Proof.
  intros HJ Hpos. unfold decode. assert (Hmax : 0 <= decode_max e r (gs_session sl)) by (unfold decode_max; repeat case_if; bool_to_prop; lia).
  destruct (decode_tokens_ends (S (Z.to_nat (decode_max e r (gs_session sl)))) (decode_max e r (gs_session sl)) (checkpoint (gs_session sl)) [] [] rng
    (World (decode_init r) s sl d tick) out) as (out' & w & rng' & t & toks & -> & Ht & Hl & Hn & Hle & Hend); try done; [cbn; by rewrite app_nil_r|cbn; lia|].
  cbn in Hl, Hn, Hend. destruct t as [|finish err|]; [done| |exists out', (w_check w), rng', Lost, toks; split_and!; try done; constructor].
  destruct (dn_gone env (w_tick w)); [exists out', (w_check w), rng', Lost, toks; split_and!; try done; constructor|]. case_if.
  - exists out', (w_check w), rng', (Stop (bs "error") (bs "shutdown requested")), toks. split_and!; try done. apply ended_error. cbn.
    inversion Hend; subst; [by left|done|right; exists PieceCalls; set_solver|right; exists PieceCut; set_solver].
  - exists out', (w_check w), rng', (Stop finish err), toks. split_and!; try done.
    inversion Hend; subst; [by eapply ended_between|by eapply ended_error|by eapply ended_calls|by eapply ended_cut].
Qed.
End principle.

(** ** How much may be sent grows *)

Lemma back_over_cont_inv s fuel : ∀ p, let b := back_over_cont s 0 fuel p in
  (b <= p)%nat ∧ (p - b <= fuel)%nat ∧ (∀ i, (b <= i < p)%nat → is_cont (byte_at s i) = true) ∧ ((p - b < fuel)%nat → b = 0%nat ∨ is_cont (byte_at s (b - 1)) = false).
Proof.
  induction fuel as [|fuel IH]; intros p; cbn [back_over_cont]; [cbn zeta; split_and!; intros; lia|].
  destruct (Nat.ltb_spec 0 p); cbn [andb]; [|split_and!; intros; lia]. destruct (is_cont (byte_at s (p - 1))) eqn:Ec; [|split_and!; try (intros; lia); auto].
  destruct (IH (p - 1)%nat) as (H1 & H2 & H3 & H4). set (b := back_over_cont s 0 fuel (p - 1)) in *. cbn zeta. split_and!; [lia|lia| |intros; apply H4; lia].
  intros i Hi. destruct (decide (i = p - 1)%nat) as [->|]; [done|]. apply H3. lia.
Qed.

(** Where a text is cut: at the limit, or at the start of a character that does not end
    before the limit. *)
Definition cut_char (s : bytes) (limit p : nat) : Prop :=
  (p < limit)%nat ∧ (limit - p < utf8_expected_len (byte_at s p))%nat ∧ is_cont (byte_at s p) = false
  ∧ ∀ i, (p < i < limit)%nat → is_cont (byte_at s i) = true.

Definition all_cont (s : bytes) (limit : nat) : Prop := (limit <= 4)%nat ∧ ∀ i, (i < limit)%nat → is_cont (byte_at s i) = true.

Lemma utf8_safe_cases s limit : let n := utf8_stream_safe_len (Some s) 0 limit false in
  n = limit ∨ cut_char s limit n ∨ (n = 0%nat ∧ all_cont s limit).
Proof.
  cbn zeta. unfold utf8_stream_safe_len. cbn [orb]. destruct (Nat.leb_spec limit 0); [by left|].
  destruct (back_over_cont_inv s 4 limit) as (H1 & H2 & H3 & H4). set (b := back_over_cont s 0 4 limit) in *. destruct (Nat.eqb_spec b limit) as [Eb|].
  - destruct (Nat.ltb_spec 1 (utf8_expected_len (byte_at s (limit - 1)))); [|by left]. right; left. split_and!; [lia|lia| |intros; lia].
    destruct H4 as [H4|H4]; [lia|lia|]. by rewrite Eb in H4.
  - destruct (Nat.eqb_spec b 0) as [Eb|]; cbn [andb].
    + assert (is_cont (byte_at s b) = true) as -> by (apply H3; lia). right; right. split; [done|]. split; [lia|]. intros i Hi. apply H3. lia.
    + destruct (Nat.ltb_spec (limit - (b - 1)) (utf8_expected_len (byte_at s (b - 1)))) as [Hn|]; [|by left]. right; left.
      pose proof (utf8_expected_len_le (byte_at s (b - 1))). split_and!; [lia|done|destruct H4 as [H4|H4]; [lia|lia|done]|intros i Hi; apply H3; lia].
Qed.

Lemma cut_char_safe s limit p : cut_char s limit p → utf8_stream_safe_len (Some s) 0 limit false = p.
Proof.
  intros (H1 & H2 & H3 & H4). unfold utf8_stream_safe_len. cbn [orb]. destruct (Nat.leb_spec limit 0); [lia|].
  destruct (back_over_cont_inv s 4 limit) as (B1 & B2 & B3 & B4). set (b := back_over_cont s 0 4 limit) in *.
  pose proof (utf8_expected_len_le (byte_at s p)). assert (b = S p) as ->.
  { assert (p < b)%nat. { destruct (Nat.lt_ge_cases p b); [done|]. rewrite B3 in H3 by lia. done. }
    destruct (decide (b = S p)); [done|]. destruct B4 as [B4|B4]; [lia|lia|]. rewrite H4 in B4 by lia. done. }
  destruct (Nat.eqb_spec (S p) limit) as [E|].
  - replace (limit - 1)%nat with p by lia. destruct (Nat.ltb_spec 1 (utf8_expected_len (byte_at s p))); [lia|lia].
  - destruct (Nat.eqb_spec (S p) 0); [lia|]. cbn [andb]. replace (S p - 1)%nat with p by lia.
    destruct (Nat.ltb_spec (limit - p) (utf8_expected_len (byte_at s p))); [done|lia].
Qed.

Lemma all_cont_safe s limit : all_cont s limit → utf8_stream_safe_len (Some s) 0 limit false = 0%nat.
Proof.
  intros [Hl Hc]. unfold utf8_stream_safe_len. cbn [orb]. destruct (Nat.leb_spec limit 0); [lia|].
  destruct (back_over_cont_inv s 4 limit) as (B1 & B2 & B3 & B4). set (b := back_over_cont s 0 4 limit) in *. assert (b = 0%nat) as ->.
  { destruct (decide (b = 0%nat)); [done|]. destruct B4 as [B4|B4]; [lia|done|]. rewrite Hc in B4 by lia. done. }
  destruct (Nat.eqb_spec 0 limit); [lia|]. cbn [Nat.eqb andb]. by rewrite Hc by lia.
Qed.

Lemma utf8_safe_mono s piece l1 l2 : (l1 <= l2)%nat → (l1 <= length s)%nat →
  (utf8_stream_safe_len (Some s) 0 l1 false <= utf8_stream_safe_len (Some (s ++ piece)) 0 l2 false)%nat.
Proof.
  intros Hl Hs. pose proof (utf8_safe_le (Some s) 0 l1 false) as Hle. assert (Hb : ∀ i, (i < l1)%nat → byte_at (s ++ piece) i = byte_at s i) by (intros; apply byte_at_app_l; lia).
  destruct (utf8_safe_cases (s ++ piece) l2) as [->|[(H1 & H2 & H3 & H4)|[E [Hl4 Hc]]]]; [lia| |].
  - set (p := utf8_stream_safe_len (Some (s ++ piece)) 0 l2 false) in *. destruct (Nat.lt_ge_cases p l1) as [Hp|]; [|lia].
    rewrite (cut_char_safe s l1 p); [done|]. unfold cut_char. rewrite <- Hb by lia. split_and!; [lia|lia|done|].
    intros i Hi. rewrite <- Hb by lia. apply H4. lia.
  - rewrite E. rewrite (all_cont_safe s l1); [done|]. split; [lia|]. intros i Hi. rewrite <- Hb by lia. apply Hc. lia.
Qed.

(** ** The text of a reply *)

(** No stop sequence occurs in a text; the first one starts at [q]. *)
Definition no_stop (stops : stop_list) (t : bytes) : Prop := ∀ x q, x ∈ stop_v stops → ¬ occurs t x q.
Definition first_stop (stops : stop_list) (t : bytes) (q : nat) : Prop :=
  (∃ x, x ∈ stop_v stops ∧ occurs t x q) ∧ ∀ y p, y ∈ stop_v stops → occurs t y p → (q <= p)%nat.

Definition hold_from (stops : stop_list) (n : nat) : nat :=
  if 1 <? stop_max_len stops then let hold := Z.to_nat (stop_max_len stops - 1) in if (hold <? n)%nat then (n - hold)%nat else 0%nat else 0%nat.

(** A new occurrence is not before where the search resumes, nor before what may have
    been sent. *)
Lemma new_occurrence stops old piece x q : stops_ok stops → no_stop stops old → x ∈ stop_v stops → occurs (old ++ piece) x q →
  (hold_from stops (length old) <= q ∧ stop_list_stream_safe_len stops (length old) <= q)%nat.
Proof.
  intros [Hm Hall] Hn Hx Ho. rewrite Forall_forall in Hall. destruct (Hall x Hx) as [Hne Hlen].
  assert (Hlt : (length old < q + length x)%nat).
  { destruct (Nat.lt_ge_cases (length old) (q + length x)) as [|Hge]; [done|]. destruct (Hn x q Hx). by eapply occurs_app_l. }
  assert (0 < length x)%nat by (destruct x; [done|cbn; lia]). unfold hold_from, stop_list_stream_safe_len. destruct (stop_v stops); [set_solver|].
  split.
  - destruct (Z.ltb_spec 1 (stop_max_len stops)); [|lia]. destruct (Nat.ltb_spec (Z.to_nat (stop_max_len stops - 1)) (length old)); lia.
  - destruct (Z.leb_spec (stop_max_len stops) 1); [lia|]. destruct (Nat.ltb_spec (Z.to_nat (stop_max_len stops - 1)) (length old)); lia.
Qed.

Lemma hold_from_le stops n : (hold_from stops n <= n)%nat.
Proof. unfold hold_from. repeat case_if; lia. Qed.
Lemma safe_len_le stops n : (stop_list_stream_safe_len stops n <= n)%nat.
Proof. unfold stop_list_stream_safe_len. destruct (stop_v stops); [done|]. repeat case_if; lia. Qed.
Lemma safe_len_mono stops n m : (n <= m)%nat → (stop_list_stream_safe_len stops n <= stop_list_stream_safe_len stops m)%nat.
Proof.
  intros H. unfold stop_list_stream_safe_len. destruct (stop_v stops); [done|]. case_if; [done|].
  destruct (Nat.ltb_spec (Z.to_nat (stop_max_len stops - 1)) n), (Nat.ltb_spec (Z.to_nat (stop_max_len stops - 1)) m); lia.
Qed.

Section text.
Context (r : request) (Hstops : stops_ok (r_stops r)).

(** The parts of the state that only the search for stop sequences changes. *)
Definition same_but_scan (a b : decode_state) : Prop :=
  dc_text a = dc_text b ∧ dc_plain_pos a = dc_plain_pos b ∧ dc_completion a = dc_completion b ∧ dc_tracker a = dc_tracker b ∧ dc_thinking a = dc_thinking b.

Lemma scan_stop_spec st old piece hit n st' : dc_text st = old ++ piece → no_stop (r_stops r) old → dc_stop_from st = hold_from (r_stops r) (length old) →
  scan_stop r st = (hit, n, st') →
  same_but_scan st' st ∧ (n <= length (dc_text st))%nat
  ∧ match hit with
    | None => no_stop (r_stops r) (dc_text st) ∧ dc_stop_from st' = hold_from (r_stops r) (length (dc_text st))
        ∧ n = utf8_stream_safe_len (Some (dc_text st)) (dc_plain_pos st) (stop_list_stream_safe_len (r_stops r) (length (dc_text st))) false
    | Some q => first_stop (r_stops r) (dc_text st) q ∧ n = q ∧ (stop_list_stream_safe_len (r_stops r) (length old) <= q <= length (dc_text st))%nat
    end.
Proof.
  intros Ht Hfree Hfrom. assert (Hlen : (length old <= length (dc_text st))%nat) by (rewrite Ht, length_app; lia). unfold scan_stop.
  pose proof (find_from_earliest (r_stops r) (dc_text st) (dc_stop_from st)) as He.
  assert (Hfl : (dc_stop_from st <= length (dc_text st))%nat) by (rewrite Hfrom; pose proof (hold_from_le (r_stops r) (length old)); lia). specialize (He Hfl).
  assert (Hnew : ∀ x q, x ∈ stop_v (r_stops r) → occurs (dc_text st) x q → (dc_stop_from st <= q ∧ stop_list_stream_safe_len (r_stops r) (length old) <= q)%nat).
  { intros x q Hx Ho. rewrite Hfrom. rewrite Ht in Ho. by apply (new_occurrence _ _ piece x q). }
  destruct (stop_list_find_from (r_stops r) (Some (dc_text st)) (dc_stop_from st)) as [[pos l]|]; cbn [fmap option_fmap option_map fst].
  - destruct He as (H1 & (x & Hx & _ & Ho) & Hmin). pose proof (occurs_bound _ _ _ Ho). destruct (Nat.ltb_spec (length (dc_text st)) pos); [lia|].
    rewrite bool_decide_true by by eexists. intros [= <- <- <-]. assert (pos <= length (dc_text st))%nat by lia. split_and!; [done|done| |done|by eapply Hnew|done].
    split; [by exists x|]. intros y p Hy Hp. eapply Hmin; [done| |done]. by apply (Hnew y).
  - pose proof (safe_len_le (r_stops r) (length (dc_text st))). destruct (Nat.ltb_spec (length (dc_text st)) (stop_list_stream_safe_len (r_stops r) (length (dc_text st)))); [lia|].
    rewrite bool_decide_false by by intros [? [=]]. remember (utf8_stream_safe_len _ _ _ _) as u eqn:Eu. intros [= <- <- <-]. split_and!.
    + destruct (1 <? _); done.
    + rewrite Eu. etransitivity; [apply utf8_safe_le|lia].
    + intros x q Hx Ho. eapply He; [done| |done]. by apply (Hnew x).
    + unfold hold_from. destruct (1 <? stop_max_len (r_stops r)) eqn:Em; [done|]. rewrite Hfrom. unfold hold_from. by rewrite Em.
    + done.
Qed.

(** Between two tokens: no stop sequence so far, the search resumes where one may
    start, the tracker is sound. *)
Record between (pieces : bytes) (st : decode_state) : Prop := {
  bt_text : dc_text st = pieces;
  bt_free : no_stop (r_stops r) (dc_text st);
  bt_from : dc_stop_from st = hold_from (r_stops r) (length (dc_text st));
  bt_tracker : tracker_wf (dc_tracker st);
}.

Lemma init_between : between [] (decode_init r).
Proof.
  constructor; try done.
  - intros x q Hx Ho. apply occurs_bound in Ho. cbn in Ho. destruct Hstops as [_ Hall]. rewrite Forall_forall in Hall. destruct (Hall x Hx) as [Hne _].
    destruct x; [done|cbn in Ho; lia].
  - cbn. pose proof (hold_from_le (r_stops r) 0). lia.
Qed.

Lemma take_piece_between pieces st piece : between pieces st → ∃ st', take_piece r piece st = Some st' ∧ dc_text st' = dc_text st ++ piece
  ∧ dc_plain_pos st' = dc_plain_pos st ∧ dc_stop_from st' = dc_stop_from st ∧ dc_completion st' = dc_completion st + 1 ∧ tracker_wf (dc_tracker st').
Proof.
  intros [Ht Hf Hs Hw]. unfold take_piece. destruct (chat_with_tools r).
  - destruct (update_total (dc_tracker st) (dc_text st ++ piece) Hw) as (dt & -> & Hdt). by eexists.
  - by eexists.
Qed.

Lemma scan_tools_same st st' b : scan_tools r st = (st', b) → same_but_scan st' st ∧ dc_stop_from st' = dc_stop_from st.
Proof.
  unfold scan_tools. repeat case_match; intros [= <- <-]; done.
Qed.

End text.

(** ** The loop and its client *)

Section client.
Context {St Ev : Type} (ops : client_ops St Ev) (e : engine_view) (r : request) (Hstops : stops_ok (r_stops r)).

Local Abbreviation text_of := (ds4_token_text (ev_vocab e)).
Definition reply_of (toks : list Z) : bytes := toks ≫= text_of.

(** How much may be sent of a text without a stop sequence, and how much of a text
    with one, when the text before it is [old]. *)
Definition may_send (old text : bytes) (pos : nat) (hit : option nat) (n : nat) : Prop :=
  match hit with
  | None => n = utf8_stream_safe_len (Some text) pos (stop_list_stream_safe_len (r_stops r) (length text)) false
  | Some q => n = q ∧ (stop_list_stream_safe_len (r_stops r) (length old) <= q <= length text)%nat
  end.

(** [K text pos s out]: a client in state [s] has got [out] of [text], [pos] of it as
    it is; [KF] the same of a text that will not grow. *)
Context (K KF : bytes → nat → St → list Ev → Prop).
Hypothesis (K_done : ∀ text pos s out, K text pos s out → KF text pos s out).
Hypothesis (K_send : ∀ old piece st hit n s out, K old (dc_plain_pos st) s out → dc_text st = old ++ piece → may_send old (dc_text st) (dc_plain_pos st) hit n →
  match send_piece ops n st s out with
  | (out', Done (st', s')) => (st' = st ∨ ∃ m, st' = set_plain_pos m st)
      ∧ match hit with
        | None => K (dc_text st) (dc_plain_pos st') s' out'
        | Some q => KF (dc_text st) (dc_plain_pos st') s' out' ∧ KF (take q (dc_text st)) (dc_plain_pos st') s' out'
        end
  | (_, Closed) => True
  | (_, Stuck) => False
  end).

Definition JK (toks : list Z) (st : decode_state) (s : St) (out : list Ev) : Prop :=
  between r (reply_of toks) st ∧ K (dc_text st) (dc_plain_pos st) s out.

(** A call was found in reasoning that is not closed. *)
Definition call_in_reasoning (st : decode_state) : Prop :=
  chat_with_tools r = true ∧ ds4_think_mode_enabled (r_think_mode r) = true ∧ ts_inside (dc_thinking st) = true.

Definition QK (toks : list Z) (st : decode_state) (s : St) (out : list Ev) (pe : piece_end) : Prop :=
  match pe with
  | PieceLost | PieceNext => True
  | PieceCut => KF (dc_text st) (dc_plain_pos st) s out ∧ ∃ q, first_stop (r_stops r) (reply_of toks) q ∧ dc_text st = take q (reply_of toks)
  | PieceCalls => KF (dc_text st) (dc_plain_pos st) s out ∧ dc_text st = reply_of toks ∧ (no_stop (r_stops r) (dc_text st) ∨ call_in_reasoning st)
  end.

Lemma scan_tools_recovered st st' : scan_tools r st = (st', true) → call_in_reasoning st'.
Proof.
  unfold scan_tools, call_in_reasoning. destruct (chat_with_tools r); [|done]. cbn [negb]. destruct (_ && _) eqn:E; [|by repeat case_match].
  apply andb_true_iff in E as [E1 E2]. repeat case_match; intros [= <-]. done.
Qed.

Lemma client_step toks t st s out : JK toks st s out →
  match piece_step ops r (text_of t) st s out with
  | (out', Some (st', s', PieceNext)) => JK (toks ++ [t]) st' s' out' ∧ dc_completion st' = dc_completion st + 1
  | (out', Some (st', s', pe)) => QK (toks ++ [t]) st' s' out' pe ∧ dc_completion st' = dc_completion st + 1
  | (_, None) => False
  end.
Proof.
  intros [Hb HK]. assert (Hrep : reply_of (toks ++ [t]) = reply_of toks ++ text_of t) by (unfold reply_of; rewrite bind_app; cbn; by rewrite app_nil_r).
  unfold piece_step. destruct (take_piece_between r _ _ (text_of t) Hb) as (st1 & -> & Ht1 & Hp1 & Hs1 & Hc1 & Hw1). destruct Hb as [Ht Hf Hs Hw].
  destruct (scan_stop r st1) as [[hit n] st2] eqn:E2. eapply scan_stop_spec in E2 as ((E21 & E22 & E23 & E24 & E25) & Hn & Hhit); [|done|exact Ht1|done|by rewrite Hs1].
  specialize (K_send (dc_text st) (text_of t) st2 hit n s out). rewrite E21, E22, Hp1 in K_send. specialize (K_send HK Ht1).
  assert (may_send (dc_text st) (dc_text st1) (dc_plain_pos st) hit n) as Hms.
  { unfold may_send. destruct hit; [by destruct Hhit as (_ & -> & ?)|]. destruct Hhit as (_ & _ & ->). by rewrite Hp1. }
  specialize (K_send Hms). destruct (send_piece ops n st2 s out) as [out3 [[st3 s3]| |]]; [|cbn; split; [done|congruence]|done].
  destruct K_send as [Hst3 HK3]. assert (Hsame : dc_text st3 = dc_text st1 ∧ dc_completion st3 = dc_completion st1 ∧ dc_tracker st3 = dc_tracker st1 ∧ dc_stop_from st3 = dc_stop_from st2).
  { destruct Hst3 as [->|[m ->]]; cbn; done. }
  destruct Hsame as (S1 & S2 & S3 & S4). destruct (scan_tools r st3) as [st4 recovered] eqn:E4. pose proof (scan_tools_same r _ _ _ E4) as [(T1 & T2 & T3 & T4 & _) T5].
  assert (Ht4 : dc_text st4 = reply_of (toks ++ [t])) by (rewrite T1, S1, Ht1, Hrep; by rewrite Ht).
  assert (Hc4 : dc_completion st4 = dc_completion st + 1) by congruence. destruct recovered.
  - apply scan_tools_recovered in E4. split; [|done]. cbn. split_and!; [|done|by right]. rewrite T1, S1, T2. destruct hit; [apply HK3|by apply K_done].
  - destruct hit as [q|].
    + destruct Hhit as (Hfirst & _ & _). cbn [QK set_text dc_text dc_plain_pos dc_completion]. split; [|done]. rewrite T1, S1, T2. split; [apply HK3|].
      exists q. rewrite Hrep, <- Ht, <- Ht1. done.
    + destruct Hhit as (Hfree & Hfrom & _). destruct (chat_with_tools r && dc_saw_end st4).
      * split; [|done]. cbn. rewrite T1, S1, T2. split_and!; [by apply K_done|by rewrite Ht1, Hrep, Ht|by left].
      * split; [|done]. split; [|rewrite T1, S1, T2; exact HK3]. constructor; [done| | |].
        -- by rewrite T1, S1.
        -- rewrite T5, S4, T1, S1. exact Hfrom.
        -- by rewrite T4, S3.
Qed.

(** How a reply ends: whole, cut before its first stop sequence, with a call found in
    open reasoning, or with an error. *)
Inductive reply_end (no_draft : Prop) (ck toks : list Z) (st : decode_state) (s : session) : bytes → Prop :=
  | reply_whole finish ahead : dc_text st = reply_of toks → no_stop (r_stops r) (dc_text st) → finish ∈ [bs "length"; bs "stop"; bs "tool_calls"] →
      checkpoint s = ck ++ toks ++ ahead → (no_draft → ahead = []) → reply_end no_draft ck toks st s finish
  | reply_recovered ahead : dc_text st = reply_of toks → call_in_reasoning st → checkpoint s = ck ++ toks ++ ahead → (no_draft → ahead = []) →
      reply_end no_draft ck toks st s (bs "tool_calls")
  | reply_cut q : first_stop (r_stops r) (reply_of toks) q → dc_text st = take q (reply_of toks) → s = Session false [] → reply_end no_draft ck toks st s (bs "stop")
  | reply_error : (∃ n, dc_text st = take n (reply_of toks)) → reply_end no_draft ck toks st s (bs "error").

Lemma decode_reply `{!ReadDir} exp2 hooks de env rng s sl d tick out : decode_promise de → K [] 0 s out → ds4_session_pos (gs_session sl) <= ev_ctx e →
  ∃ out' w rng' t toks, decode ops e exp2 hooks de env r rng s sl d tick out = (out', Some (w, rng', t)) ∧ gs_live (w_slot w) = gs_live sl
    ∧ dc_completion (w_st w) = Z.of_nat (length toks) ∧ dc_completion (w_st w) <= decode_max e r (gs_session sl)
    ∧ match t with
      | Next => False
      | Lost => True
      | Stop finish err => KF (dc_text (w_st w)) (dc_plain_pos (w_st w)) (w_client w) out'
          ∧ reply_end (de_spec de = None) (checkpoint (gs_session sl)) toks (w_st w) (gs_session (w_slot w)) finish
      end.
Proof.
  intros Hde HK Hpos.
  destruct (decode_ends ops e exp2 hooks de env r Hde JK QK (λ toks t st s out HJ _, client_step toks t st s out HJ) rng s sl d tick out)
    as (out' & w & rng' & t & toks & E & Ht & Hl & Hn & Hle & Hend); [split; [apply init_between; done|done]|done|].
  exists out', w, rng', t, toks. split_and!; try done. destruct Hend as [|finish err ahead [[H1 H2 _ _] H3] H4 H5 H6|err H1|err ahead (H1 & H2 & H3) H4 H5|err (H1 & q & H2 & H3) H4].
  - done.
  - split; [by apply K_done|]. eapply reply_whole; try done. set_solver.
  - destruct H1 as [[[H1 _ _ _] H3]|(pe & Hpe & H1)].
    + split; [by apply K_done|]. apply reply_error. exists (length (reply_of toks)). by rewrite firstn_all.
    + rewrite !elem_of_cons, elem_of_nil in Hpe. destruct Hpe as [->|[->|[]]]; cbn in H1.
      * destruct H1 as (H1 & H2 & _). split; [done|]. apply reply_error. exists (length (reply_of toks)). by rewrite firstn_all.
      * destruct H1 as (H1 & q & _ & H2). split; [done|]. apply reply_error. by exists q.
  - split; [done|]. destruct H3 as [H3|H3]; [eapply reply_whole; try done; set_solver|by eapply reply_recovered].
  - split; [done|]. by eapply reply_cut.
Qed.

End client.

(** ** Text sent as it is *)

Section plain.
Context (e : engine_view) (r : request) (Hstops : stops_ok (r_stops r)) (send : nat → bool).

Definition got_plain (text : bytes) (pos : nat) (s : unit) (out : list bytes) : Prop :=
  concat out = take pos text ∧ (pos <= stop_list_stream_safe_len (r_stops r) (length text))%nat.
Definition got_plain_final (text : bytes) (pos : nat) (s : unit) (out : list bytes) : Prop := concat out = take pos text ∧ (pos <= length text)%nat.

Lemma plain_send old piece st hit n s out : got_plain old (dc_plain_pos st) s out → dc_text st = old ++ piece → may_send r old (dc_text st) (dc_plain_pos st) hit n →
  match send_piece (plain_client send) n st s out with
  | (out', Done (st', s')) => (st' = st ∨ ∃ m, st' = set_plain_pos m st)
      ∧ match hit with
        | None => got_plain (dc_text st) (dc_plain_pos st') s' out'
        | Some q => got_plain_final (dc_text st) (dc_plain_pos st') s' out' ∧ got_plain_final (take q (dc_text st)) (dc_plain_pos st') s' out'
        end
  | (_, Closed) => True
  | (_, Stuck) => False
  end.
Proof.
  intros [Hout Hpos] Ht Hn. pose proof (safe_len_le (r_stops r) (length old)) as Hso. assert (Hlen : (length old <= length (dc_text st))%nat) by (rewrite Ht, length_app; lia).
  rewrite <- (take_app_le old piece (dc_plain_pos st)), <- Ht in Hout by lia.
  unfold send_piece, ibind, iret, plain_client, send_event. cbn [co_plain co_chunk co_update andb].
  assert (Hnb : match hit with None => (n <= stop_list_stream_safe_len (r_stops r) (length (dc_text st)))%nat | Some q => n = q ∧ (dc_plain_pos st <= q <= length (dc_text st))%nat end).
  { unfold may_send in Hn. destruct hit; [destruct Hn as [-> ?]; lia|]. rewrite Hn. apply utf8_safe_le. }
  clear Hn. pose proof (safe_len_le (r_stops r) (length (dc_text st))) as Hst. pose proof (safe_len_mono (r_stops r) _ _ Hlen) as Hm.
  assert (Htk : ∀ p q, (p <= q)%nat → take p (take q (dc_text st)) = take p (dc_text st)) by (intros; rewrite take_take; f_equal; lia).
  destruct (Nat.ltb_spec (dc_plain_pos st) n) as [Hlt|Hge]; [destruct (send _); [|done]|].
  - cbn [set_plain_pos dc_text dc_plain_pos]. split; [right; by eexists|]. assert (Hc : concat (out ++ [text_span (dc_text st) (dc_plain_pos st) n]) = take n (dc_text st)).
    { rewrite concat_app. cbn [concat]. rewrite app_nil_r, Hout. apply take_span. lia. }
    destruct hit; unfold got_plain, got_plain_final; rewrite Hc; [|done]. destruct Hnb as [-> ?]. cbn [set_plain_pos dc_plain_pos]. rewrite Htk, length_take by lia. split_and!; try done; lia.
  - split; [by left|]. destruct hit; unfold got_plain, got_plain_final; rewrite Hout; [|split; [done|lia]].
    destruct Hnb as [-> ?]. rewrite Htk, length_take by lia. split_and!; try done; lia.
Qed.

End plain.

(** C6. Generating a reply that is sent as it is. The loop always ends, within the
    limit of the request and of the context; the text is the text of the tokens taken,
    cut before the first stop sequence in it, also when that sequence comes in pieces;
    what the client has got with the last chunk is exactly the text; and the session
    holds the tokens of the reply unless the text was cut, which leaves it empty. *)
Theorem plain_reply_exact `{!ReadDir} e exp2 hooks de env r send rng sl d tick (Hstops : stops_ok (r_stops r)) (Hde : decode_promise de)
    (Hpos : ds4_session_pos (gs_session sl) <= ev_ctx e) :
  ∃ out w rng' t toks, decode (plain_client send) e exp2 hooks de env r rng tt sl d tick [] = (out, Some (w, rng', t))
    ∧ dc_completion (w_st w) = Z.of_nat (length toks) ∧ dc_completion (w_st w) <= decode_max e r (gs_session sl)
    ∧ match t with
      | Next => False
      | Lost => True
      | Stop finish err => (∀ out', flush_plain (plain_client send) w out = (out', Done tt) → concat out' = dc_text (w_st w))
          ∧ reply_end e r (de_spec de = None) (checkpoint (gs_session sl)) toks (w_st w) (gs_session (w_slot w)) finish
      end.
Proof.
  destruct (decode_reply (plain_client send) e r Hstops (got_plain r) (got_plain_final) (λ text pos s out HK, conj (proj1 HK) (Nat.le_trans _ _ _ (proj2 HK) (safe_len_le _ _)))
    (plain_send r send) exp2 hooks de env rng tt sl d tick [] Hde (conj eq_refl (Nat.le_0_l _)) Hpos) as (out & w & rng' & t & toks & E & _ & Hn & Hle & Hend).
  exists out, w, rng', t, toks. split_and!; [done|done|done|]. destruct t as [|finish err|]; [done| |done]. destruct Hend as [[Hout Hp] Hend]. split; [|done].
  unfold flush_plain, plain_client, ibind, iret, send_event. cbn [co_plain co_chunk andb]. intros out'. destruct (Nat.ltb_spec (dc_plain_pos (w_st w)) (length (dc_text (w_st w)))).
  - destruct (send _); [|done]. intros [= <-]. rewrite concat_app. cbn [concat]. rewrite app_nil_r, Hout. apply take_drop.
  - intros [= <-]. rewrite Hout. apply take_ge. lia.
Qed.

(** ** Live streams *)

Section live.
Context {St Ev : Type} (ops : stream_ops St Ev) (known : bytes → bool) (pick : (bytes → bool) → bytes) (has_tools : bool).
Context (e : engine_view) (r : request) (Hnone : stop_v (r_stops r) = []) (Hok : stops_ok (r_stops r)).
Context (inv post : bytes → sse_stream → St → list Ev → Prop).
Hypothesis (inv_more : ∀ raw c st s out, inv raw st s out → iwp (sse_stream_update ops known pick has_tools (raw ++ c) false st s) out (λ r out', inv (raw ++ c) r.2 r.1 out')).
Hypothesis (inv_final : ∀ raw c st s out, inv raw st s out → iwp (sse_stream_update ops known pick has_tools (raw ++ c) true st s) out (λ r out', post (raw ++ c) r.2 r.1 out')).

(** What of a text is ready for the stream. *)
Definition ready_len (text : bytes) : nat := utf8_stream_safe_len (Some text) 0 (length text) false.

Definition fed (text : bytes) (pos : nat) (s : St * sse_stream) (out : list Ev) : Prop := pos = 0%nat ∧ inv (take (ready_len text) text) s.2 s.1 out.
Definition fed_final (text : bytes) (pos : nat) (s : St * sse_stream) (out : list Ev) : Prop := ∃ n, inv (take n text) s.2 s.1 out.

Lemma take_grows (old piece : bytes) n m : (n <= m)%nat → (n <= length old)%nat → ∃ c, take m (old ++ piece) = take n old ++ c.
Proof.
  intros Hn Hl. exists (drop n (take m (old ++ piece))). rewrite <- (take_drop n (take m (old ++ piece))) at 1. f_equal. rewrite take_take, Nat.min_l by done.
  by rewrite take_app_le.
Qed.

Lemma live_send old piece st hit n s out : fed old (dc_plain_pos st) s out → dc_text st = old ++ piece → may_send r old (dc_text st) (dc_plain_pos st) hit n →
  match send_piece (live_client ops known pick has_tools) n st s out with
  | (out', Done (st', s')) => (st' = st ∨ ∃ m, st' = set_plain_pos m st)
      ∧ match hit with
        | None => fed (dc_text st) (dc_plain_pos st') s' out'
        | Some q => fed_final (dc_text st) (dc_plain_pos st') s' out' ∧ fed_final (take q (dc_text st)) (dc_plain_pos st') s' out'
        end
  | (_, Closed) => True
  | (_, Stuck) => False
  end.
Proof.
  intros [Hp Hinv] Ht Hn. assert (Hsafe : ∀ k, stop_list_stream_safe_len (r_stops r) k = k) by (intros k; unfold stop_list_stream_safe_len; by rewrite Hnone).
  assert (Hready : (ready_len old <= n)%nat ∧ (hit = None → n = ready_len (dc_text st)) ∧ (∀ q, hit = Some q → n = q)).
  { pose proof (utf8_safe_le (Some old) 0 (length old) false) as Hle. unfold ready_len. destruct hit as [q|]; unfold may_send in Hn.
    - destruct Hn as [-> Hq]. rewrite Hsafe in Hq. split_and!; [lia|done|by intros ? [= ->]].
    - rewrite Hsafe, Hp in Hn. split_and!; [|done|done]. rewrite Hn, Ht. apply utf8_safe_mono; rewrite ?length_app; lia. }
  destruct Hready as (Hr1 & Hr2 & Hr3). pose proof (utf8_safe_le (Some old) 0 (length old) false) as Hle. fold (ready_len old) in Hle.
  destruct (take_grows old piece (ready_len old) n Hr1 Hle) as [c Hc]. rewrite <- Ht in Hc.
  unfold send_piece, live_client, ibind, iret. cbn [co_plain co_update andb]. rewrite Hc. specialize (inv_more _ c _ _ _ Hinv). rewrite <- Hc in *.
  unfold iwp in inv_more. destruct (sse_stream_update _ _ _ _ _ _ _ _ _) as [out' [[s' st']| |]]; [|done|done]. cbn [fst snd] in inv_more.
  split; [by left|]. destruct hit as [q|].
  - rewrite (Hr3 q eq_refl) in *. split; [by exists q|]. exists q. rewrite take_take, Nat.min_id. done.
  - split; [done|]. by rewrite <- Hr2.
Qed.

Lemma live_decode `{!ReadDir} exp2 hooks de env rng s sl d tick out : decode_promise de → inv [] s.2 s.1 out → ds4_session_pos (gs_session sl) <= ev_ctx e →
  ∃ out' w rng' t toks, decode (live_client ops known pick has_tools) e exp2 hooks de env r rng s sl d tick out = (out', Some (w, rng', t))
    ∧ dc_completion (w_st w) = Z.of_nat (length toks) ∧ dc_completion (w_st w) <= decode_max e r (gs_session sl)
    ∧ match t with
      | Next => False
      | Lost => True
      | Stop finish err =>
          iwp (sse_stream_update ops known pick has_tools (dc_text (w_st w)) true (w_client w).2 (w_client w).1) out' (λ p out2, post (dc_text (w_st w)) p.2 p.1 out2)
          ∧ reply_end e r (de_spec de = None) (checkpoint (gs_session sl)) toks (w_st w) (gs_session (w_slot w)) finish
      end.
Proof.
  intros Hde Hinv Hpos. assert (H0 : fed [] 0 s out) by (split; [done|]; done).
  destruct (decode_reply (live_client ops known pick has_tools) e r Hok fed fed_final (λ text pos s out HK, ex_intro _ _ (proj2 HK))
    live_send exp2 hooks de env rng s sl d tick out Hde H0 Hpos) as (out' & w & rng' & t & toks & E & _ & Hn & Hle & Hend).
  exists out', w, rng', t, toks. split_and!; [done|done|done|]. destruct t as [|finish err|]; [done| |done]. destruct Hend as [[n Hf] Hend]. split; [|done].
  rewrite <- (take_drop n (dc_text (w_st w))). by apply inv_final.
Qed.

End live.

Lemma flowing_more {St Ev : Type} (ops : stream_ops St Ev) `{!StreamView ops} raw c st s out : flowing ops raw st s out → flowing ops (raw ++ c) st s out.
Proof. intros [Hf|Hf]; [left; by apply in_text_more|right; by apply in_tool_more]. Qed.

(** A stream that has sent nothing of the message yet. *)
Lemma split_start {St Ev : Type} (ops : stream_ops St Ev) `{!StreamView ops} mode s out : sv_state None s out → got ops out [] [] →
  splitting ops (ds4_think_mode_enabled mode) [] (stream_start mode false) s out.
Proof.
  intros Hs Hg. unfold stream_start. rewrite andb_false_r. split; [done|]. destruct (ds4_think_mode_enabled mode) eqn:E.
  - left. done.
  - right. right. split_and!; [done|cbn; lia|by left|]. exists 0%nat, []. split_and!; [done|done|]. done.
Qed.

Lemma flow_start {St Ev : Type} (ops : stream_ops St Ev) `{!StreamView ops} s out : sv_state None s out → tv_view out = [] → got ops out [] [] →
  flowing ops [] (stream_start DS4_THINK_NONE true) s out.
Proof. intros Hs Hv Hg. left. unfold in_text. cbn. split_and!; try done; [by left|lia|by left]. Qed.

(** The message that a client shows, against the whole text. *)
Definition shows_message (has_tools think : bool) (text : bytes) (t : tool_stream) (out : list openai_event) : Prop :=
  if has_tools then message_matches text t (openai_text Reasoning out) (openai_text Content out) (openai_calls out)
  else split_message think text = (openai_text Reasoning out, openai_text Content out).


(** ** Witnesses *)

(** A vocabulary of four tokens, the last of which ends a reply, and a model that
    samples given tokens after a prompt of two. *)
Definition tiny_table : str_i32_table := StrTable [None] 1 0.
Definition tiny_vocab (tokens : list bytes) (eos : Z) : ds4_vocab :=
  Vocab tokens (-1) eos (-1) (-1) (-1) (-1) (-1) (-1) (-1) (-1) (-1) (-1) (-1) (-1) (-1) (-1) (-1) (-1) tiny_table tiny_table.
Definition tiny_engine (tokens : list bytes) (eos : Z) : engine_view :=
  EngineView false false (tiny_vocab tokens eos) 100 2 0 (λ _, inl []) (λ _ _, (false, None, [])) (λ _ _, true) (λ _ p, (0, [], Session true p)).
Definition scripted (toks : list Z) (eos : Z) : decode_engine :=
  DecodeEngine (λ s _ rng, (nth (length (checkpoint s) - 2) toks eos, rng)) (λ s t, (0, [], Session true (checkpoint s ++ [t]))) None.
Definition quiet_env : decode_env := DecodeEnv (λ _, false) (λ _, false) (λ _, demo_io).
Definition no_hooks : kv_store_trailer_hooks := Hooks 0 None None false.
Definition tiny_slot : gen_slot := GenSlot (Session true [7; 7]) slot_live_zero 0.
Definition tiny_disk : disk := Disk kv_store_zero ∅.
Definition tiny_request (kind : req_kind) (api : api_style) (stops : stop_list) (think : ds4_think_mode) (has_tools : bool) : request :=
  Request kind api SERVER_MODEL_SYNTAX_DEEPSEEK [7; 7] [] false stops [] [] 10 0 false float_zero false float_zero false float_zero false 0 true false 0 0
    think has_tools false false false false (StopList [] 0, None) false (StopList [] 0, None) (ToolReplayStats 0 0 0 0).

Lemma scripted_promise toks eos : decode_promise (scripted toks eos).
Proof. split; [by intros s t err s' [= <- <-]|done]. Qed.

(** Witness of C6: the stop sequence "END" comes in two tokens. *)
Lemma plain_reply_exact_witness :
  let toks := [bs "ab"; bs "cEN"; bs "Dx"; bs "$"] in
  let r := tiny_request REQ_COMPLETION API_OPENAI (StopList [bs "END"] 3) DS4_THINK_NONE false in
  ∃ out w rng' t, decode (plain_client always) (tiny_engine toks 3) (λ _, dbl 1) no_hooks (scripted [0; 1; 2] 3) quiet_env r 1 tt tiny_slot tiny_disk 0 []
      = (out, Some (w, rng', t)) ∧ dc_completion (w_st w) <= 10 ∧ t = Stop (bs "stop") [] ∧ dc_text (w_st w) = bs "abc" ∧ concat out = bs "abc".
Proof.
  cbn zeta. destruct (plain_reply_exact (tiny_engine [bs "ab"; bs "cEN"; bs "Dx"; bs "$"] 3) (λ _, dbl 1) no_hooks (scripted [0; 1; 2] 3) quiet_env
    (tiny_request REQ_COMPLETION API_OPENAI (StopList [bs "END"] 3) DS4_THINK_NONE false) always 1 tiny_slot tiny_disk 0) as (out & w & rng' & t & toks & E & Hn & Hle & Hend).
  - split; [cbn; lia|]. repeat constructor; cbn; [discriminate|lia].
  - apply scripted_promise.
  - vm_compute. discriminate.
  - exists out, w, rng', t. split; [exact E|]. split; [etransitivity; [exact Hle|vm_compute; discriminate]|]. vm_compute in E. injection E as <- <- <- <-. split_and!; reflexivity.
Defined.

