(* ===== verification/Generate.v ===== *)
(** * A turn

    Model of the second half of [generate_job_inner] of [engine/src/server.c]: a tool
    call that was cut off is completed, or the model is told of it and generates again;
    the reply is parsed, its calls get their ids and are remembered; and the slot
    remembers what the next request of the conversation will show. With
    [append_rendered_suffix_to_live_session], [continue_after_invalid_dsml],
    [should_canonicalize_tool_checkpoint] and [canonicalize_tool_checkpoint], and
    [ds4_session_rewrite_from_common] of [engine/src/engine.c]. *)
From S2P Require Import Prelude CLib Strtod Json Request Stream Dsml ToolText ToolStream ToolMemory KvHeader KvPolicy KvCache ToolMap LiveState Prompt JobQueue Scheduler Prefill.
From S2P Require Import Continuation Tokenizer SseStream Reply ToolSchemas ClientInput Handlers Reuse Decode.
From Stdlib Require Import SpecFloat.

(** ** Telling the model *)

(** The tokens of the session and of the text after them are evaluated; success, the
    message, the slot. *)
Definition append_rendered_suffix_to_live_session (e : engine_view) (env : sync_env) (sl : gen_slot) (suffix : bytes) : option (bool * bytes * gen_slot) :=
  match suffix with
  | [] => Some (true, [], sl)
  | _ =>
      let target := build_prompt_from_exact_prefix_and_text_suffix e (checkpoint (gs_session sl)) suffix in
      '(rc, err, s, _) ← slot_session_sync e env (gs_session sl) target;
      Some (rc =? 0, err, gs_with s sl)
  end.

Definition continue_after_invalid_dsml (e : engine_view) (env : sync_env) (sl : gen_slot) (r : request) (inside : bool) (detail : bytes)
    : option (bool * bytes * gen_slot) :=
  append_rendered_suffix_to_live_session e env sl
    (build_invalid_tool_call_error_suffix (r_model_syntax r) (Some (r_prompt_text r)) (r_think_mode r) inside (Some detail)).

(** ** Rewriting the end of a session *)

Inductive ds4_session_rewrite_result := DS4_SESSION_REWRITE_OK | DS4_SESSION_REWRITE_REBUILD_NEEDED | DS4_SESSION_REWRITE_ERROR.

Definition ds4_session_rewrite_requires_rebuild (live_len canonical_len common : Z) : bool :=
  if (live_len <? 0) || (canonical_len <? 0) || (common <? 0) then true
  else if (live_len <? common) || (canonical_len <? common) then true
  else common <? live_len.

Definition ds4_session_rewrite_from_common (e : engine_view) (s : session) (prompt : list Z) (common : Z) : ds4_session_rewrite_result * session :=
  let len := Z.of_nat (length prompt) in
  let live_len := ds4_session_pos s in
  if len <=? 0 then (DS4_SESSION_REWRITE_ERROR, s)
  else if ev_ctx e <=? len then (DS4_SESSION_REWRITE_ERROR, s)
  else if negb (checkpoint_valid s) then (DS4_SESSION_REWRITE_ERROR, s)
  else if (common <? 0) || (live_len <? common) || (len <? common) then (DS4_SESSION_REWRITE_ERROR, s)
  else if negb (bytes_eqb (take (Z.to_nat common) (checkpoint s)) (take (Z.to_nat common) prompt)) then (DS4_SESSION_REWRITE_ERROR, s)
  else if common =? live_len then
    let '(rc, _, s) := ev_sync e s prompt in (if rc =? 0 then DS4_SESSION_REWRITE_OK else DS4_SESSION_REWRITE_ERROR, s)
  else if ds4_session_rewrite_requires_rebuild live_len len common then (DS4_SESSION_REWRITE_REBUILD_NEEDED, s)
  else (DS4_SESSION_REWRITE_ERROR, s).

Definition should_canonicalize_tool_checkpoint (replay : bool) (calls : tool_calls) : bool :=
  match calls_v calls with
  | [] => false
  | _ => negb (replay && nonempty (calls_raw_tool_text calls))
  end.

Section canonical.
Context `{!ReadDir} (e : engine_view) (exp2 : spec_float → spec_float) (hooks : kv_store_trailer_hooks).

(** The text that the next request renders for the turn. *)
Definition checkpoint_text (r : request) (content reasoning : option bytes) (calls : tool_calls) : bytes :=
  r_prompt_text r ++ build_tool_checkpoint_suffix (r_model_syntax r) (r_tool_orders r) (r_think_mode r) content reasoning calls.

(** The session is made that of the text the client replays, from a file where it cannot
    be rewritten; with what the file holds for the tool memory. *)
Definition canonicalize_tool_checkpoint (lio : load_io) (env : sync_env) (d : disk) (sl : gen_slot) (r : request) (content reasoning : option bytes)
    (calls : tool_calls) : option (disk * gen_slot * option bytes) :=
  match calls_v calls with
  | [] => Some (d, sl, None)
  | _ =>
      let rendered := checkpoint_text r content reasoning calls in
      let canonical := ds4_tokenize_rendered_chat e rendered in
      let s := gs_session sl in
      let live_len := ds4_session_pos s in
      let common := ds4_session_common_prefix s canonical in
      if (common =? live_len) && (Z.of_nat (length canonical) =? live_len) then Some (d, sl, None)
      else if bytes_eqb (render_tokens_text e (checkpoint s)) rendered then Some (d, sl, None)
      else if common <? Z.of_nat (length (r_prompt r)) then Some (d, sl, None)
      else
        match ds4_session_rewrite_from_common e s canonical common with
        | (DS4_SESSION_REWRITE_REBUILD_NEEDED, s) =>
            let '(loaded, effective, _, d, sl, trailer) := kv_cache_try_load_text e hooks lio d (gs_with s sl) rendered in
            let sl := if loaded =? 0 then gs_with (ds4_session_invalidate (gs_session sl)) sl else sl in
            let prompt := if 0 <? loaded then effective else canonical in
            '(_, _, d, sl) ← sync_slot e exp2 hooks env loaded d sl prompt;
            Some (d, sl, trailer)
        | (_, s) => Some (d, gs_with s sl, None)
        end
  end.

(** ** What the slot remembers of a turn *)

(** A parsed reply with its finish reason. *)
Record turn := Turn {
  tn_finish : bytes;
  tn_content : option bytes;
  tn_reasoning : option bytes;
  tn_calls : tool_calls;
}.

Definition turn_failed (t : turn) : bool := bytes_eqb (tn_finish t) (bs "error") || bytes_eqb (tn_finish t) (bs "length").
Definition has_calls (t : turn) : bool := negb (length (calls_v (tn_calls t)) =? 0)%nat.

Definition remember_thinking_checkpoint (sl : gen_slot) (r : request) (content : option bytes) : gen_slot :=
  match build_toolless_thinking_visible_text (Some (r_prompt_text r)) (r_think_mode r) content with
  | None => sl
  | Some visible => gs_set_live (thinking_live_remember (gs_live sl) (ds4_session_pos (gs_session sl)) (Some visible)) sl
  end.

Definition remember_responses (r : request) (t : turn) (sl : gen_slot) : gen_slot :=
  if negb (bool_decide (r_api r = API_RESPONSES)) then sl
  else if turn_failed t then gs_set_live (responses_live_clear (gs_live sl)) sl
  else
    let visible := r_prompt_text r ++ build_responses_visible_assistant_suffix (r_model_syntax r) (r_tool_orders r) (r_think_mode r)
                     (r_reasoning_summary_emit r) (Some (text_or_empty (tn_content t))) (tn_reasoning t) (tn_calls t) in
    gs_set_live (responses_live_remember (gs_live sl) (ds4_session_pos (gs_session sl)) (Some visible) (if has_calls t then Some (tn_calls t) else None)) sl.

Definition remember_anthropic (r : request) (t : turn) (sl : gen_slot) : gen_slot :=
  if negb (bool_decide (r_api r = API_ANTHROPIC)) then sl
  else if has_calls t && negb (turn_failed t)
  then gs_set_live (anthropic_live_remember (gs_live sl) (ds4_session_pos (gs_session sl)) (Some (tn_calls t))) sl
  else gs_set_live (anthropic_live_clear (gs_live sl)) sl.

(** The state that the next request of the conversation finds; [inside] is the state of
    the thinking automaton at the end of the reply. *)
Definition publish_turn (replay : bool) (lio : load_io) (env : sync_env) (d : disk) (sl : gen_slot) (r : request) (inside : bool) (t : turn)
    : option (disk * gen_slot * option bytes) :=
  let sl := if bool_decide (r_kind r = REQ_CHAT) && negb (has_calls t) && bool_decide (r_api r = API_RESPONSES)
            then gs_set_live (responses_live_clear (gs_live sl)) sl else sl in
  let sl := remember_anthropic r t (remember_responses r t sl) in
  let forget sl := gs_set_live (thinking_live_clear (gs_live sl)) sl in
  if bool_decide (r_kind r = REQ_CHAT) && has_calls t && negb (bool_decide (r_api r = API_RESPONSES)) && should_canonicalize_tool_checkpoint replay (tn_calls t) then
    '(d, sl, trailer) ← canonicalize_tool_checkpoint lio env d sl r (Some (text_or_empty (tn_content t))) (tn_reasoning t) (tn_calls t);
    Some (d, forget sl, trailer)
  else if has_calls t then Some (d, forget sl, None)
  else if should_remember_thinking_checkpoint (bool_decide (r_kind r = REQ_CHAT)) (r_has_tools r) (r_prompt_preserves_reasoning r) (r_think_mode r) inside (Some (tn_finish t))
  then Some (d, remember_thinking_checkpoint sl r (Some (text_or_empty (tn_content t))), None)
  else Some (d, forget sl, None).

(** ** From the text to the turn *)

Section turn.
Context {R : Type} `{!RaxOps R}.

(** The text of a reply with its flags, and whether the model was told once already. *)
Record reply := ReplyText {
  ry_text : bytes;
  ry_saw_start : bool;
  ry_saw_end : bool;
  ry_inside : bool;
  ry_finish : bytes;
  ry_err : bytes;
}.

(** Either a value, or the model was told of its call and generates again. *)
Inductive or_again (A : Type) := Settled (a : A) (sl : gen_slot) | Again (sl : gen_slot).
Arguments Settled {A} _ _.
Arguments Again {A} _.

Definition err_text (s : bytes) : bytes := truncated 160 s.
Definition recovery_failed (err : bytes) : bytes :=
  err_text (bs "invalid tool call recovery failed: " ++ match err with [] => bs "unknown error" | _ => truncated 160 err end).

(** A call that was cut off: closed when that makes it a call. *)
Definition complete_truncation (r : request) (text : bytes) : option bytes :=
  match try_repair_dsml text with
  | None => None
  | Some repaired =>
      match parse_generated_message_ex_for_syntax (r_model_syntax r) (Some repaired) false tool_calls_zero with
      | (Some _, calls) => match calls_v calls with [] => None | _ => Some repaired end
      | (None, _) => None
      end
  end.

Definition settle_truncation (env : sync_env) (r : request) (attempted : bool) (y : reply) (sl : gen_slot) : option (or_again reply) :=
  if chat_with_tools r && ry_saw_start y && negb (ry_saw_end y) && negb (bytes_eqb (ry_finish y) (bs "error")) then
    match complete_truncation r (ry_text y) with
    | Some text => Some (Settled (ReplyText text (ry_saw_start y) true (ry_inside y) (ry_finish y) (ry_err y)) sl)
    | None =>
        let failed err := ReplyText (ry_text y) (ry_saw_start y) (ry_saw_end y) (ry_inside y) (bs "error") err in
        if negb (r_stream r) && negb attempted then
          res ← continue_after_invalid_dsml e env sl r (ry_inside y) (bs "unterminated tool call");
          let '(ok, err, sl) := (res : bool * bytes * gen_slot) in
          Some (if ok then Again sl else Settled (failed (recovery_failed err)) sl)
        else Some (Settled (failed (bs "unterminated tool call")) sl)
    end
  else Some (Settled y sl).

(** The reply as a turn; the finish reason when its calls could not be read. *)
Definition parse_turn (env : sync_env) (r : request) (attempted : bool) (y : reply) (sl : gen_slot) : option (or_again turn) :=
  if negb (bool_decide (r_kind r = REQ_CHAT)) then Some (Settled (Turn (ry_finish y) None None tool_calls_zero) sl)
  else
    let p := parse_generated_message_for_response_for_syntax (r_model_syntax r) (Some (ry_text y)) (r_has_tools r) (ry_saw_start y)
               (ds4_think_mode_enabled (r_think_mode r)) (Some (ry_finish y)) tool_calls_zero in
    let final := default [] (rp_finish p) in
    let settled finish sl := Settled (Turn finish (rp_content p) (rp_reasoning p) (rp_calls p)) sl in
    if negb (rp_ok p) && rp_recovered p && r_has_tools r && ry_saw_start y && negb (r_stream r) && negb attempted then
      res ← continue_after_invalid_dsml e env sl r (ry_inside y) (default (bs "invalid tool call") (rp_err p));
      let '(ok, err, sl) := (res : bool * bytes * gen_slot) in
      Some (if ok then Again sl else settled (bs "error") sl)
    else Some (settled final sl).

(** The calls with their ids, those that the client has seen first, and the memory of
    their text. [shown] are the ids of the stream, [rnd] random ids. *)
Definition name_calls (replay : bool) (m : tool_memory R) (shown : list (option bytes)) (rnd : list bytes) (t : turn) : option (turn * tool_memory R) :=
  if has_calls t then
    let calls := ToolCalls (apply_stream_tool_ids (calls_v (tn_calls t)) shown) (calls_raw_tool_text (tn_calls t)) in
    calls ← assign_tool_call_ids replay m calls rnd;
    m ← tool_memory_remember replay m calls;
    Some (Turn (bs "tool_calls") (tn_content t) (tn_reasoning t) calls, m)
  else Some (t, m).

End turn.
End canonical.

(** ** A job *)

Section job.
Context {St Ev : Type} (ops : client_ops St Ev).
Context `{!ReadDir} (e : engine_view) (exp2 : spec_float → spec_float) (hooks : kv_store_trailer_hooks).
Context (de : decode_engine) (env : decode_env) (r : request).

Definition w_slot_set (sl : gen_slot) (w : world (St := St)) : world := World (w_st w) (w_client w) sl (w_disk w) (w_tick w).

(** Either a turn with the text it was read from, or a client that is gone, whose
    bindings are cleared. *)
Inductive turn_end := Turned (y : reply) (t : turn) (w : world (St := St)) | TurnGone (w : world (St := St)).

Definition turn_gone (w : world (St := St)) : turn_end := TurnGone (w_slot_set (gs_set_live (request_live_state_clear (gs_live (w_slot w))) (w_slot w)) w).

Definition reply_text (w : world (St := St)) (finish err : bytes) : reply :=
  ReplyText (dc_text (w_st w)) (dc_saw_start (w_st w)) (dc_saw_end (w_st w)) (ts_inside (dc_thinking (w_st w))) finish err.

(** From [decode_again] to the turn. [attempted] is [dsml_recovery_attempted]; the
    evaluations of a correction are numbered. *)
Fixpoint generate_turn (attempts : nat) (syncs : nat → sync_env) (attempted : bool) (rng : Z) (s : St) (sl : gen_slot) (d : disk) (tick : nat) (out : list Ev)
    : list Ev * option turn_end :=
  match attempts with
  | O => (out, None)
  | S attempts' =>
      match decode ops e exp2 hooks de env r rng s sl d tick out with
      | (out, None) => (out, None)
      | (out, Some (w, rng, Stop finish err)) =>
          match settle_truncation e (syncs (2 * attempts)%nat) r attempted (reply_text w finish err) (w_slot w) with
          | None => (out, None)
          | Some (Again _ sl) => generate_turn attempts' syncs true rng (w_client w) sl (w_disk w) (w_tick w) out
          | Some (Settled _ y sl) =>
              let w := w_slot_set sl (w_set (set_text (ry_text y) (w_st w)) (w_client w) w) in
              match flush_plain ops w out with
              | (out, Stuck) => (out, None)
              | (out, Closed) => (out, Some (turn_gone w))
              | (out, Done _) =>
                  if dn_gone env (w_tick w) then (out, Some (turn_gone w))
                  else
                    match parse_turn e (syncs (2 * attempts + 1)%nat) r attempted y sl with
                    | None => (out, None)
                    | Some (Again _ sl) => generate_turn attempts' syncs true rng (w_client w) sl (w_disk w) (S (w_tick w)) out
                    | Some (Settled _ t sl) =>
                        let w := w_check (w_slot_set sl w) in
                        if dn_gone env (w_tick w) then (out, Some (turn_gone w)) else (out, Some (Turned y t (w_check w)))
                    end
              end
          end
      | (out, Some (w, _, _)) => (out, Some (turn_gone w))
      end
  end.

(** What is left of a job: a refusal with status 409; a prompt that could not be
    evaluated; a client that is gone; a turn that was answered. *)
Inductive job_end {R : Type} :=
  | JobRefused (message : bytes)
  | JobFailed (err : bytes) (d : disk) (sl : gen_slot) (m : tool_memory R)
  | JobGone (d : disk) (sl : gen_slot) (m : tool_memory R)
  | JobAnswered (y : reply) (t : turn) (d : disk) (sl : gen_slot) (m : tool_memory R).

Section answer.
Context {R : Type} `{!RaxOps R} (replay : bool) (lio : load_io) (respond : reply → turn → St → io Ev unit).

(** What a file that was loaded holds joins the memory of the calls. *)
Definition load_trailer (m : tool_memory R) (trailer : option bytes) : option (tool_memory R) :=
  match trailer with None => Some m | Some fp => snd <$> kv_tool_map_load_from_pos replay m fp None end.

(** The calls are named and remembered, the slot remembers the turn, and the reply is
    sent or, for a stream, finished; [shown] reads the ids of the client's stream. *)
Definition answer_turn (shown : St → list (option bytes)) (rnd : list bytes) (sync : sync_env) (m : tool_memory R) (y : reply) (t : turn)
    (w : world (St := St)) (out : list Ev) : list Ev * option job_end :=
  match name_calls replay m (shown (w_client w)) rnd t with
  | None => (out, None)
  | Some (t, m) =>
      let clear sl := gs_set_live (request_live_state_clear (gs_live sl)) sl in
      if dn_gone env (w_tick w) then (out, Some (JobGone (w_disk w) (clear (w_slot w)) m))
      else
        match ('(d, sl, trailer) ← publish_turn e exp2 hooks replay lio sync (w_disk w) (w_slot w) r (ry_inside y) t; (λ m, (d, sl, m)) <$> load_trailer m trailer) with
        | None => (out, None)
        | Some (d, sl, m) =>
            if dn_gone env (S (w_tick w)) then (out, Some (JobGone d (clear sl) m))
            else
              match respond y t (w_client w) out with
              | (out, Stuck) => (out, None)
              | (out, Closed) => (out, Some (JobGone d (clear sl) m))
              | (out, Done _) => (out, Some (if dn_gone env (S (S (w_tick w))) then JobGone d (clear sl) m else JobAnswered y t d sl m))
              end
        end
  end.

(** The job: [start] sends the headers and the first events of a stream. *)
Definition generate_job_inner (sio : store_io) (penv : prefill_env) (start : io Ev St) (shown : St → list (option bytes)) (rnd : list bytes)
    (syncs : nat → sync_env) (rng : Z) (m : tool_memory R) (d : disk) (sl : gen_slot) (out : list Ev) : list Ev * option job_end :=
  match choose_prefix e exp2 hooks sio lio d sl r with
  | inl message => (out, Some (JobRefused message))
  | inr k =>
      match (p ← prefill_job e exp2 hooks penv k; m ← load_trailer m (k_trailer k); Some (p, m)) with
      | None => (out, None)
      | Some (Failed err d sl, m) => (out, Some (JobFailed err d sl m))
      | Some (Gone d sl, m) => (out, Some (JobGone d sl m))
      | Some (Ready d sl, m) =>
          match start out with
          | (out, Stuck) => (out, None)
          | (out, Closed) => (out, Some (JobGone d (gs_set_live (request_live_state_clear (gs_live sl)) sl) m))
          | (out, Done s) =>
              match generate_turn 2 syncs false rng s sl d 0 out with
              | (out, None) => (out, None)
              | (out, Some (TurnGone w)) => (out, Some (JobGone (w_disk w) (w_slot w) m))
              | (out, Some (Turned y t w)) => answer_turn shown rnd (syncs 0%nat) m y t w out
              end
          end
      end
  end.

End answer.
End job.
