(* ===== verification/GenerateProps.v ===== *)
(** * A turn: theorems

    What a turn leaves in its slot is what the next request of the conversation starts
    from. *)
From S2P Require Import Prelude CLib Strtod Json Request Stream StreamProps Dsml DsmlProps ToolText ToolStream ToolMemory KvHeader KvPolicy KvCache KvCacheProps KvRoundTrip ToolMap LiveState Prompt PromptProps.
From S2P Require Import JobQueue Scheduler Prefill Continuation StrTable Tokenizer TokenizerProps SseStream Reply ToolSchemas ClientInput Handlers Reuse ReuseProps Decode DecodeProps Generate.
From Stdlib Require Import SpecFloat.

Lemma none_union {A} (my : option A) : None ∪ my = my.
Proof. by destruct my. Qed.

Section continues.
Context `{!ReadDir} (e : engine_view) (exp2 : spec_float → spec_float) (hooks : kv_store_trailer_hooks).
Context (replay : bool) (lio : load_io) (env : sync_env) (d : disk) (sl : gen_slot) (r1 : request) (inside : bool) (t : turn).

Local Abbreviation live := (checkpoint (gs_session sl)).

(** The text that a client of the Responses protocol replays for a turn. *)
Definition responses_visible (r : request) (t : turn) : bytes :=
  r_prompt_text r ++ build_responses_visible_assistant_suffix (r_model_syntax r) (r_tool_orders r) (r_think_mode r) (r_reasoning_summary_emit r)
    (Some (text_or_empty (tn_content t))) (tn_reasoning t) (tn_calls t).

(** A finished Responses turn keeps the session and binds its text and its calls. *)
Lemma publish_responses : r_kind r1 = REQ_CHAT → r_api r1 = API_RESPONSES → turn_failed t = false → responses_visible r1 t ≠ [] →
  ∃ sl', publish_turn e exp2 hooks replay lio env d sl r1 inside t = Some (d, sl', None) ∧ gs_session sl' = gs_session sl
    ∧ responses_live (gs_live sl') = LiveToolState true (Z.of_nat (length live)) (Some (responses_visible r1 t)) (push_calls no_ids (calls_v (tn_calls t))).
Proof.
  intros Hk Ha Hf Hv. unfold publish_turn, remember_anthropic, remember_responses. rewrite Hk, Ha, Hf. rewrite !bool_decide_true by done. rewrite bool_decide_false by done.
  cbn [negb andb]. rewrite !andb_false_r. cbn [andb]. fold (responses_visible r1 t).
  assert (Hr : ∀ l p, responses_live (responses_live_remember l p (Some (responses_visible r1 t)) (if has_calls t then Some (tn_calls t) else None))
    = LiveToolState true p (Some (responses_visible r1 t)) (push_calls no_ids (calls_v (tn_calls t)))).
  { intros l p. unfold responses_live_remember, nonempty. destruct (responses_visible r1 t); [done|]. cbn [responses_live]. f_equal.
    unfold has_calls. destruct (calls_v (tn_calls t)) as [|c v] eqn:Ec; cbn [negb Nat.eqb length]; rewrite ?Ec; done. }
  set (sl0 := if negb (has_calls t) && true then _ else sl). assert (Hs0 : gs_session sl0 = gs_session sl) by (unfold sl0; by destruct (has_calls t)).
  set (sl1 := gs_set_live _ sl0). assert (Hs1 : gs_session sl1 = gs_session sl) by done.
  assert (Hl1 : responses_live (gs_live sl1) = LiveToolState true (Z.of_nat (length live)) (Some (responses_visible r1 t)) (push_calls no_ids (calls_v (tn_calls t)))).
  { unfold sl1, ds4_session_pos. cbn [gs_set_live gs_live]. rewrite Hr, Hs0. done. }
  destruct (has_calls t); [eexists; split_and!; [done|done|exact Hl1]|]. case_match; [|eexists; split_and!; [done|done|exact Hl1]].
  eexists. split; [done|]. unfold remember_thinking_checkpoint. case_match; [|done]. split; [done|]. cbn [gs_set_live gs_live]. unfold thinking_live_remember. by case_match.
Qed.

(** The tokens of the text that follows. *)
Local Abbreviation tok := (ds4_tokenize_rendered_chat e).

Lemma responses_continues sl' r2 rest : gs_session sl' = gs_session sl → live ≠ [] → rest ≠ [] →
  responses_live (gs_live sl') = LiveToolState true (Z.of_nat (length live)) (Some (responses_visible r1 t)) (push_calls no_ids (calls_v (tn_calls t))) →
  r_api r2 = API_RESPONSES → r_prompt_text r2 = responses_visible r1 t ++ rest →
  live_prefix e sl' r2 = Some (Z.of_nat (length live), live ++ tok rest, RESPONSES_VISIBLE).
Proof.
  intros Hs Hne Hr Hl Ha Hp. unfold live_prefix, ds4_session_pos, responses_live_visible_prefix_prompt. rewrite Ha, Hl, <- Hs. rewrite bool_decide_true by done. cbn [negb].
  cbn [lt_valid lt_live_tokens lt_visible_text]. rewrite (continue_remembered e sl' r2 true _ (Some (responses_visible r1 t)) rest).
  - rewrite hit_pos; [by rewrite !union_Some_l|]. rewrite Hs. destruct live; [done|cbn; lia].
  - split_and!; [done|by rewrite Hs|done|by eexists].
Qed.

Lemma responses_answers sl' r2 ids suffix : gs_session sl' = gs_session sl → live ≠ [] → ids_set ids → stop_v ids ≠ [] →
  responses_live (gs_live sl') = LiveToolState true (Z.of_nat (length live)) (Some (responses_visible r1 t)) (push_calls no_ids (calls_v (tn_calls t))) →
  r_api r2 = API_RESPONSES → r_responses_live r2 = (ids, Some suffix) → (∀ x, x ∈ stop_v ids ↔ x ≠ [] ∧ ∃ c, c ∈ calls_v (tn_calls t) ∧ tc_id c = Some x) →
  (∀ rest, r_prompt_text r2 ≠ responses_visible r1 t ++ rest) →
  live_prefix e sl' r2 = Some (Z.of_nat (length live), live ++ tok suffix, RESPONSES_TOOL_OUTPUT).
Proof.
  intros Hs Hne Hids Hid Hl Ha Hr Hall Hp. unfold live_prefix, ds4_session_pos, responses_live_visible_prefix_prompt, responses_live_continuation_prompt. rewrite Ha, Hl, Hr.
  rewrite bool_decide_true by done. cbn [negb fst snd lt_valid lt_live_tokens lt_visible_text].
  assert (Hm : visible_match true (Z.of_nat (length live)) (Z.of_nat (length (checkpoint (gs_session sl')))) (Some (responses_visible r1 t)) (r_prompt_text r2) = None).
  { unfold visible_match. destruct (kv_store_byte_prefix_match _ _) eqn:E; [|by rewrite andb_false_r]. apply byte_prefix_match_spec in E as [rest E]. by destruct (Hp rest). }
  rewrite Hm. cbn [continue_after_visible]. unfold hit at 1. cbn [fst Z.ltb Z.compare]. rewrite none_union. destruct (Nat.eqb_spec (length (stop_v ids)) 0); [by destruct (stop_v ids)|].
  destruct (push_calls_set (calls_v (tn_calls t)) no_ids no_ids_set) as [Hset Hx].
  assert (Hempty : ∀ x, x ∈ stop_v no_ids ↔ False) by (intros x; split; [by intros ?%elem_of_nil|done]).
  assert (Hmt : responses_live_matches_request (gs_live sl') ids (Z.of_nat (length (checkpoint (gs_session sl')))) = true).
  { unfold responses_live_matches_request. rewrite Hl. apply live_matches_spec; [done|done|]. split_and!; [done|done|by rewrite Hs|].
    cbn [lt_call_ids]. destruct Hset as [Hnd _], Hids as [Hnd' _]. apply NoDup_Permutation; [done|done|]. intros x. rewrite Hx, Hall, Hempty. naive_solver. }
  rewrite Hmt, Z.eqb_refl. cbn [negb]. rewrite hit_pos; [|rewrite Hs; destruct live; [done|cbn; lia]]. rewrite union_Some_l. by rewrite Hs.
Qed.

(** A finished Anthropic turn with calls whose text is remembered. *)
Lemma publish_anthropic raw : r_api r1 = API_ANTHROPIC → turn_failed t = false → has_calls t = true → replay = true → calls_raw_tool_text (tn_calls t) = Some raw → raw ≠ [] →
  ∃ sl', publish_turn e exp2 hooks replay lio env d sl r1 inside t = Some (d, sl', None) ∧ gs_session sl' = gs_session sl
    ∧ anthropic_live (gs_live sl') = LiveToolState (0 <? Z.of_nat (length (stop_v (push_calls no_ids (calls_v (tn_calls t)))))) (Z.of_nat (length live)) None (push_calls no_ids (calls_v (tn_calls t))).
Proof.
  intros Ha Hf Hc -> Hraw Hne. unfold publish_turn, remember_anthropic, remember_responses, should_canonicalize_tool_checkpoint. rewrite Ha, Hf, Hc, Hraw.
  rewrite (bool_decide_true (API_ANTHROPIC = API_ANTHROPIC)) by done. rewrite (bool_decide_false (API_ANTHROPIC = API_RESPONSES)) by done. cbn [negb andb]. rewrite !andb_false_r. cbn [andb].
  assert (Hn : nonempty (Some raw) = true) by (by destruct raw). rewrite Hn. cbn [negb andb]. unfold has_calls in Hc. destruct (tn_calls t) as [[|c v] raw'] eqn:Et; [done|].
  cbn [calls_v] in *. rewrite andb_false_r. eexists. split_and!; [done|done|done].
Qed.

Lemma anthropic_answers sl' r2 ids suffix : gs_session sl' = gs_session sl → live ≠ [] → ids_set ids → stop_v ids ≠ [] →
  anthropic_live (gs_live sl') = LiveToolState (0 <? Z.of_nat (length (stop_v (push_calls no_ids (calls_v (tn_calls t)))))) (Z.of_nat (length live)) None (push_calls no_ids (calls_v (tn_calls t))) →
  r_api r2 = API_ANTHROPIC → r_anthropic_live r2 = (ids, Some suffix) → (∀ x, x ∈ stop_v ids ↔ x ≠ [] ∧ ∃ c, c ∈ calls_v (tn_calls t) ∧ tc_id c = Some x) →
  live_prefix e sl' r2 = Some (Z.of_nat (length live), live ++ tok suffix, ANTHROPIC_TOOL_OUTPUT).
Proof.
  intros Hs Hne Hids Hid Hl Ha Hr Hall. unfold live_prefix, ds4_session_pos, responses_live_visible_prefix_prompt, responses_live_continuation_prompt, anthropic_live_continuation_prompt.
  rewrite Ha, Hr. rewrite bool_decide_false by done. rewrite bool_decide_true by done. cbn [negb fst snd]. unfold hit at 1 2. cbn [fst Z.ltb Z.compare]. rewrite !none_union.
  destruct (Nat.eqb_spec (length (stop_v ids)) 0); [by destruct (stop_v ids)|].
  destruct (push_calls_set (calls_v (tn_calls t)) no_ids no_ids_set) as [Hset Hx].
  assert (Hempty : ∀ x, x ∈ stop_v no_ids ↔ False) by (intros x; split; [by intros ?%elem_of_nil|done]).
  assert (Hp : stop_v (push_calls no_ids (calls_v (tn_calls t))) ≡ₚ stop_v ids).
  { destruct Hset as [Hnd _], Hids as [Hnd' _]. apply NoDup_Permutation; [done|done|]. intros x. rewrite Hx, Hall, Hempty. naive_solver. }
  assert (Hmt : anthropic_live_matches_request (gs_live sl') ids (Z.of_nat (length (checkpoint (gs_session sl')))) = true).
  { unfold anthropic_live_matches_request. rewrite Hl. apply live_matches_spec; [done|done|]. cbn [lt_valid lt_live_tokens lt_call_ids]. split_and!; [done| |by rewrite Hs|done].
    apply Z.ltb_lt. rewrite Hp. destruct (stop_v ids); [done|cbn; lia]. }
  rewrite Hmt, Z.eqb_refl. cbn [negb]. rewrite hit_pos; [|rewrite Hs; destruct live; [done|cbn; lia]]. by rewrite Hs.
Qed.

End continues.

(** A request brings results for exactly the calls of a turn. *)
Definition answers_calls (t : turn) (ids : stop_list) : Prop :=
  ids_set ids ∧ stop_v ids ≠ [] ∧ ∀ x, x ∈ stop_v ids ↔ x ≠ [] ∧ ∃ c, c ∈ calls_v (tn_calls t) ∧ tc_id c = Some x.


(** ** Reasoning that the client does not see *)

Section thinking.
Context `{!ReadDir} (e : engine_view) (exp2 : spec_float → spec_float) (hooks : kv_store_trailer_hooks).
Context (replay : bool) (lio : load_io) (env : sync_env) (d : disk) (sl : gen_slot) (r1 : request) (t : turn) (key : bytes).

Lemma visible_text_form p tm content k : build_toolless_thinking_visible_text (Some p) tm (Some content) = Some k →
  p = take (length p - 7) p ++ THINK ∧ k = take (length p - 7) p ++ END_THINK ++ content ++ EOS ∧ k ≠ [].
Proof.
  unfold build_toolless_thinking_visible_text, text_or_empty. destruct (negb _); [done|]. destruct (_ || _) eqn:E; [done|]. apply orb_false_iff in E as [_ E].
  apply negb_false_iff, bytes_eqb_eq in E. remember (take (length p - 7) p ++ END_THINK ++ content ++ EOS) as v. intros [= <-]. split_and!; [|done|].
  - rewrite <- E at 1. by rewrite take_drop.
  - rewrite Heqv. by destruct (take (length p - 7) p).
Qed.

Lemma publish_thinking : r_kind r1 = REQ_CHAT → r_api r1 = API_OPENAI → r_has_tools r1 = false → r_prompt_preserves_reasoning r1 = false →
  ds4_think_mode_enabled (r_think_mode r1) = true → turn_failed t = false → has_calls t = false →
  build_toolless_thinking_visible_text (Some (r_prompt_text r1)) (r_think_mode r1) (Some (text_or_empty (tn_content t))) = Some key → key ≠ [] →
  ∃ sl', publish_turn e exp2 hooks replay lio env d sl r1 false t = Some (d, sl', None) ∧ gs_session sl' = gs_session sl
    ∧ thinking_live (gs_live sl') = VisibleLiveState true (Z.of_nat (length (checkpoint (gs_session sl)))) (Some key).
Proof.
  intros Hk Ha Ht Hp Hm Hf Hc Hb Hne. unfold publish_turn, remember_anthropic, remember_responses, should_remember_thinking_checkpoint, remember_thinking_checkpoint.
  unfold turn_failed in Hf. rewrite Hk, Ha, Hc, Ht, Hp, Hm, Hf, Hb. rewrite (bool_decide_false (API_OPENAI = API_RESPONSES)), (bool_decide_false (API_OPENAI = API_ANTHROPIC)) by done.
  rewrite bool_decide_true by done. cbn [negb andb]. eexists. split_and!; [done|done|]. unfold thinking_live_remember, nonempty. by destruct key.
Qed.

Lemma thinking_continues sl' r2 c rest sio lio2 : gs_session sl' = gs_session sl → checkpoint (gs_session sl) ≠ [] →
  thinking_live (gs_live sl') = VisibleLiveState true (Z.of_nat (length (checkpoint (gs_session sl)))) (Some key) →
  r_kind r2 = REQ_CHAT → r_api r2 = API_OPENAI → r_prompt_text r2 = key ++ c :: rest →
  ∃ k, choose_prefix e exp2 hooks sio lio2 d sl' r2 = inr k ∧ 0 < k_cached k ∧
    (k_prompt k = r_prompt r2 ∧ (k_source k = MEMORY_TOKEN ∨ k_source k = MEMORY_REWIND)
     ∨ k_source k = THINKING_VISIBLE ∧ k_cached k = Z.of_nat (length (checkpoint (gs_session sl)))
       ∧ k_prompt k = checkpoint (gs_session sl) ++ ds4_tokenize_rendered_chat e (c :: rest) ∧ gs_session (k_slot k) = gs_session sl).
Proof.
  intros Hs Hne Hl Hk Ha Hp. unfold choose_prefix. assert (Hno : live_prefix e sl' r2 = None).
  { unfold live_prefix, responses_live_visible_prefix_prompt, responses_live_continuation_prompt, anthropic_live_continuation_prompt. rewrite Ha. rewrite !bool_decide_false by done. done. }
  rewrite Hno, Ha. rewrite !bool_decide_false by done. cbn [andb]. destruct (token_prefix e sl' r2) as [[[n src] s]|] eqn:Et.
  - assert (Hsrc : src = MEMORY_TOKEN ∨ src = MEMORY_REWIND).
    { revert Et. unfold token_prefix. case_match; [intros [= _ <- _]; by right|]. case_match; intros [=]. by left. }
    apply (token_prefix_inv e sl' r2 ∅) in Et as (_ & _ & Hn). eexists. split_and!; [done|done|]. left. done.
  - assert (Hv : thinking_live_visible_prefix_prompt e sl' r2 (ds4_session_pos (gs_session sl')) = (Z.of_nat (length (checkpoint (gs_session sl'))), checkpoint (gs_session sl') ++ ds4_tokenize_rendered_chat e (c :: rest))).
    { unfold thinking_live_visible_prefix_prompt. rewrite Hk, Ha. rewrite bool_decide_true, bool_decide_false by done. cbn [negb orb].
      apply continue_remembered. rewrite Hl. split_and!; [done|by rewrite Hs|done|by exists key]. }
    assert (Hpos : 0 < Z.of_nat (length (checkpoint (gs_session sl')))) by (rewrite Hs; destruct (checkpoint (gs_session sl)); [done|cbn; lia]).
    rewrite Hv, hit_pos, union_Some_l by done. eexists. split_and!; [done|done|]. right. by rewrite Hs.
Qed.
End thinking.


(** ** A turn ends *)

(** What holds after every evaluation that succeeds holds after a synchronisation. *)
Lemma sync_loop_post mixed glm53 sync rounds (P : session → Prop) : (∀ s p err s', sync s p = (0, err, s') → P s') →
  ∀ fuel k s prompt dn called pieces err s' out, (called = true → dn < Z.of_nat (length prompt)) →
  sync_loop mixed glm53 sync rounds fuel k s prompt dn called pieces = Some (0, err, s', out) → P s'.
Proof.
  intros HP. induction fuel as [|fuel IH]; intros k s prompt dn called pieces err s' out Hc; cbn [sync_loop]; [done|].
  destruct (negb _ && _) eqn:Eg.
  2:{ destruct (sr_stopped (rounds k)); [done|]. cbn [negb andb] in Eg. apply orb_false_iff in Eg as [->%negb_false_iff ?%Z.ltb_ge]. specialize (Hc eq_refl). lia. }
  case_match; [done|]. destruct (sync s _) as [[rc err1] s1] eqn:Es. destruct (Z.eqb_spec rc 0) as [->|]; cbn [negb]; [|by intros [= ->]].
  case_match eqn:El; [intros [= _ <- _]; by eapply HP|]. case_match; [done|]. apply IH. intros _. by apply Z.leb_gt in El.
Qed.

Section turn_ends.
Context {Ev : Type} `{!ReadDir} (e : engine_view) (exp2 : spec_float → spec_float) (hooks : kv_store_trailer_hooks).
Context (de : decode_engine) (env : decode_env) (r : request) (syncs : nat → sync_env).

Local Abbreviation tok := (ds4_tokenize_rendered_chat e).
Local Abbreviation suffix inside detail := (build_invalid_tool_call_error_suffix (r_model_syntax r) (Some (r_prompt_text r)) (r_think_mode r) inside (Some detail)).

(** What a turn relies on: the engine keeps sessions within the context, and a server
    that works on several requests has no drafts, a quantum in its range, and room for
    a correction in an [int]. *)
Record turn_promise : Prop := {
  tp_decode : decode_promise de;
  tp_ctx : ∀ s p err s', ev_sync e s p = (0, err, s') → ds4_session_pos s' <= ev_ctx e;
  tp_batched : ∀ n, se_batched (syncs n) = true → de_spec de = None ∧ quantum_ok (syncs n)
    ∧ ∀ inside detail, ev_ctx e + Z.of_nat (length (tok (suffix inside detail))) <= INT_MAX;
}.
Context (Hp : turn_promise) (Hstops : stops_ok (r_stops r)).

Lemma suffix_nonempty inside detail : suffix inside detail ≠ [].
Proof.
  unfold build_invalid_tool_call_error_suffix, build_invalid_glm_tool_error_suffix, build_invalid_dsml_tool_error_suffix.
  destruct (r_model_syntax r); case_match; discriminate.
Qed.

(** The model is told, or not; then the session is within the context again. *)
Lemma correction_ends n sl inside detail : (se_batched (syncs n) = true → ds4_session_pos (gs_session sl) <= ev_ctx e) →
  ∃ ok err sl', continue_after_invalid_dsml e (syncs n) sl r inside detail = Some (ok, err, sl') ∧ gs_live sl' = gs_live sl
    ∧ (ok = true → ds4_session_pos (gs_session sl') <= ev_ctx e).
Proof.
  intros Hpos. unfold continue_after_invalid_dsml, append_rendered_suffix_to_live_session. destruct (suffix inside detail) as [|c rest] eqn:Es; [by destruct (suffix_nonempty inside detail)|].
  rewrite <- Es. set (target := build_prompt_from_exact_prefix_and_text_suffix e _ _).
  assert (Hsync : ∃ rc err s calls, slot_session_sync e (syncs n) (gs_session sl) target = Some (rc, err, s, calls) ∧ (rc = 0 → ds4_session_pos s <= ev_ctx e)).
  { unfold slot_session_sync. destruct (se_batched (syncs n)) eqn:Eb; cbn [negb].
    - destruct (tp_batched Hp n Eb) as (_ & Hq & Hfit). specialize (Hfit inside detail). specialize (Hpos eq_refl).
      destruct (session_sync_total (se_mixed_quantum (syncs n)) (ev_glm53 e) (ev_sync e) (se_rounds (syncs n)) Hq (gs_session sl) target) as [[[[rc err] s'] pieces] E].
      { unfold target, build_prompt_from_exact_prefix_and_text_suffix, kv_store_build_prompt_from_exact_prefix_and_text_suffix. cbn [default]. rewrite length_app. unfold ds4_session_pos in Hpos. unfold id. lia. }
      rewrite E. cbn. eexists rc, err, s', _. split; [done|]. intros ->. unfold server_session_sync in E. by eapply (sync_loop_post _ _ _ _ _ (tp_ctx Hp)) in E.
    - destruct (sr_entered _); cbn [negb]; [|by eexists _, _, _, _]. destruct (ev_sync e (gs_session sl) target) as [[rc err] s'] eqn:E. eexists rc, err, s', _. split; [done|].
      intros ->. by eapply (tp_ctx Hp). }
  destruct Hsync as (rc & err & s & calls & -> & Hs). cbn. eexists _, err, _. split_and!; [done|done|]. intros Hrc%Z.eqb_eq. by apply Hs.
Qed.

(** The text a turn is read from is what the model wrote, up to a stop sequence, with a
    call that was cut off closed. *)
Definition turn_text (toks : list Z) (y : reply) : Prop :=
  ∃ k, let text := take k (reply_of e toks) in
    ry_text y = text ∨ ry_saw_start y = true ∧ ry_saw_end y = true ∧ complete_truncation r text = Some (ry_text y).

Definition turn_read (y : reply) (t : turn) : Prop :=
  let p := parse_generated_message_for_response_for_syntax (r_model_syntax r) (Some (ry_text y)) (r_has_tools r) (ry_saw_start y)
    (ds4_think_mode_enabled (r_think_mode r)) (Some (ry_finish y)) tool_calls_zero in
  r_kind r = REQ_CHAT → tn_content t = rp_content p ∧ tn_reasoning t = rp_reasoning p ∧ tn_calls t = rp_calls p ∧ (tn_finish t = default [] (rp_finish p) ∨ tn_finish t = bs "error").

(** A call that was cut off and not closed makes an error of the turn. *)
Definition no_open_call (y : reply) : Prop := chat_with_tools r = true → ry_saw_start y = true → ry_saw_end y = false → ry_finish y = bs "error".

Definition turn_result (sl : gen_slot) (te : turn_end (St := unit)) : Prop :=
  match te with
  | TurnGone w => gs_live (w_slot w) = request_live_state_clear (gs_live sl)
  | Turned y t w => gs_live (w_slot w) = gs_live sl ∧ (∃ toks, turn_text toks y ∧ Z.of_nat (length toks) <= Z.max 0 (r_max_tokens r)) ∧ turn_read y t ∧ no_open_call y
  end.

Lemma settle_ends n attempted w finish err k toks : dc_text (w_st w) = take k (reply_of e toks) →
  (se_batched (syncs n) = true → finish ≠ bs "error" → ds4_session_pos (gs_session (w_slot w)) <= ev_ctx e) →
  ∃ res, settle_truncation e (syncs n) r attempted (reply_text (St := unit) w finish err) (w_slot w) = Some res
    ∧ match res with
      | Again _ sl' => attempted = false ∧ gs_live sl' = gs_live (w_slot w) ∧ ds4_session_pos (gs_session sl') <= ev_ctx e
      | Settled _ y sl' => gs_live sl' = gs_live (w_slot w) ∧ turn_text toks y ∧ no_open_call y
          ∧ (ry_finish y ≠ bs "error" → sl' = w_slot w ∧ finish ≠ bs "error")
      end.
Proof.
  intros Ht Hpos. unfold settle_truncation. destruct (chat_with_tools r && _ && _ && _) eqn:E.
  - rewrite !andb_true_iff, !negb_true_iff in E. destruct E as (((Hc & Hs) & He) & Hf). assert (Hne : finish ≠ bs "error") by (intros ->; by rewrite bytes_eqb_refl in Hf).
    destruct (complete_truncation r _) as [text|] eqn:Et.
    + eexists. split; [done|]. cbn. split_and!; [done| |done|done]. exists k. right. cbn in *. by rewrite <- Ht.
    + cbn [ry_inside reply_text]. destruct (negb (r_stream r) && negb attempted) eqn:Ea.
      * destruct (correction_ends n (w_slot w) (ts_inside (dc_thinking (w_st w))) (bs "unterminated tool call") (λ Hb, Hpos Hb Hne)) as (ok & err' & sl' & -> & Hl & Hk).
        cbn [mbind option_bind]. eexists. split; [done|]. apply andb_true_iff in Ea as [_ Ea%negb_true_iff]. destruct ok; [split_and!; [done|done|by apply Hk]|].
        split_and!; [done| |done|done]. exists k. by left.
      * eexists. split; [done|]. split_and!; [done| |done|done]. exists k. by left.
  - eexists. split; [done|]. split_and!; [done|exists k; by left| |done]. intros Hc Hs He. rewrite Hc, Hs, He in E. cbn [negb andb] in E. apply negb_false_iff, bytes_eqb_eq in E. exact E.
Qed.

Lemma parse_ends n attempted y sl : (se_batched (syncs n) = true → ry_finish y ≠ bs "error" → ds4_session_pos (gs_session sl) <= ev_ctx e) →
  ∃ res, parse_turn e (syncs n) r attempted y sl = Some res
    ∧ match res with
      | Again _ sl' => attempted = false ∧ gs_live sl' = gs_live sl ∧ ds4_session_pos (gs_session sl') <= ev_ctx e
      | Settled _ t sl' => gs_live sl' = gs_live sl ∧ turn_read y t
      end.
Proof.
  intros Hpos. unfold parse_turn, turn_read. destruct (decide (r_kind r = REQ_CHAT)) as [Hk|Hk]; [|rewrite bool_decide_false by done; eexists; split; [done|]; split; [done|]; intros Hk'; by destruct Hk].
  rewrite bool_decide_true by done. cbn [negb]. set (p := parse_generated_message_for_response_for_syntax _ _ _ _ _ _ _). destruct (negb (rp_ok p) && _ && _ && _ && _ && _) eqn:E.
  - rewrite !andb_true_iff, !negb_true_iff in E. destruct E as (((((_ & Hrec) & _) & _) & _) & ->). assert (Hne : ry_finish y ≠ bs "error").
    { intros Hf. revert Hrec. unfold p, parse_generated_message_for_response_for_syntax. rewrite Hf. destruct (parse_generated_message_ex_for_syntax _ _ _ _) as [[[c rs]|] calls]; [done|].
      cbn [default from_option]. rewrite bytes_eqb_refl, andb_false_r. done. }
    destruct (correction_ends n sl (ry_inside y) (default (bs "invalid tool call") (rp_err p)) (λ Hb, Hpos Hb Hne)) as (ok & err' & sl' & -> & Hl & Hc).
    cbn [mbind option_bind]. eexists. split; [done|]. destruct ok; [split_and!; [done|done|by apply Hc]|]. split; [done|]. intros _. cbn. split_and!; try done. by right.
  - eexists. split; [done|]. split; [done|]. intros _. cbn. split_and!; try done. by left.
Qed.

Lemma decode_max_le s : ds4_session_pos s <= ev_ctx e → decode_max e r s <= Z.max 0 (r_max_tokens r) ∧ decode_max e r s <= ev_ctx e - ds4_session_pos s.
Proof. intros Hc. unfold decode_max. repeat case_if; bool_to_prop; lia. Qed.

(** One generation for a client that waits. *)
Lemma decode_silent rng sl d tick (out : list Ev) : ds4_session_pos (gs_session sl) <= ev_ctx e →
  ∃ out' w rng' t, decode silent_client e exp2 hooks de env r rng tt sl d tick out = (out', Some (w, rng', t)) ∧ gs_live (w_slot w) = gs_live sl
    ∧ match t with
      | Next => False
      | Lost => True
      | Stop finish err => ∃ toks k, dc_text (w_st w) = take k (reply_of e toks) ∧ Z.of_nat (length toks) <= Z.max 0 (r_max_tokens r)
          ∧ (de_spec de = None → finish ≠ bs "error" → ds4_session_pos (gs_session (w_slot w)) <= ev_ctx e)
      end.
Proof.
  intros Hpos. destruct (decode_max_le (gs_session sl) Hpos) as [Hm1 Hm2].
  destruct (decode_reply (Ev := Ev) silent_client e r Hstops (λ _ _ _ _, True) (λ _ _ _ _, True) (λ _ _ _ _ Ho, Ho)) with (exp2 := exp2) (hooks := hooks) (de := de) (env := env)
    (rng := rng) (s := tt) (sl := sl) (d := d) (tick := tick) (out := out) (H := H) as (out' & w & rng' & t & toks & E & Hl & Hn & Hle & Hend); [|exact (tp_decode Hp)|done|done|].
  { intros old piece st hit n [] o _ _ _. unfold send_piece, silent_client. cbn. split; [by left|]. by destruct hit. }
  destruct t as [|finish err|]; [done| |].
  - destruct Hend as [_ Hend]. exists out', w, rng', (Stop finish err). split_and!; [done|done|]. assert (Hsess : ∀ ahead, checkpoint (gs_session (w_slot w)) = checkpoint (gs_session sl) ++ toks ++ ahead →
      (de_spec de = None → ahead = []) → de_spec de = None → ds4_session_pos (gs_session (w_slot w)) <= ev_ctx e).
    { intros ahead Hc Ha Hd. unfold ds4_session_pos in *. rewrite Hc, Ha, app_nil_r, length_app by done. lia. }
    assert (Hlen : Z.of_nat (length toks) <= Z.max 0 (r_max_tokens r)) by lia.
    assert (Hall : reply_of e toks = take (length (reply_of e toks)) (reply_of e toks)) by (by rewrite firstn_all).
    destruct Hend as [finish ahead Ht _ _ Hc Ha|ahead Ht _ Hc Ha|q _ Ht Hs|[k Ht]]; eexists toks, _; (split_and!; [etransitivity; [exact Ht|first [exact Hall|reflexivity]]|done|]).
    + intros Hd _. by eapply Hsess.
    + intros Hd _. by eapply Hsess.
    + intros _ _. rewrite Hs. unfold ds4_session_pos in *. cbn. lia.
    + done.
  - by exists out', w, rng', Lost.
Qed.

(** One round: a turn, or the model was told for the first time. *)
Lemma round_ends n attempted rng sl d tick (out : list Ev) : ds4_session_pos (gs_session sl) <= ev_ctx e →
  ∃ out', (∃ te, generate_turn silent_client e exp2 hooks de env r (S n) syncs attempted rng tt sl d tick out = (out', Some te) ∧ turn_result sl te)
    ∨ (attempted = false ∧ ∃ rng' sl' d' tick', generate_turn silent_client e exp2 hooks de env r (S n) syncs attempted rng tt sl d tick out
         = generate_turn silent_client e exp2 hooks de env r n syncs true rng' tt sl' d' tick' out' ∧ gs_live sl' = gs_live sl ∧ ds4_session_pos (gs_session sl') <= ev_ctx e).
Proof.
  intros Hpos. cbn [generate_turn]. destruct (decode_silent rng sl d tick out Hpos) as (out' & w & rng' & t & -> & Hl & Ht). exists out'. destruct t as [|finish err|]; [done| |].
  - destruct Ht as (toks & k & Htext & Hlen & Hsess). destruct (w_client w) eqn:Ew.
    assert (Hb : ∀ m, se_batched (syncs m) = true → finish ≠ bs "error" → ds4_session_pos (gs_session (w_slot w)) <= ev_ctx e) by (intros m Hm; apply Hsess; by apply (tp_batched Hp m)).
    destruct (settle_ends (2 * S n) attempted w finish err k toks Htext (Hb _)) as (res & -> & Hres). destruct res as [y sl'|sl'].
    + destruct Hres as (Hl' & Hy & Hopen & Hsame). unfold flush_plain, silent_client. cbn [co_plain andb]. unfold iret at 1. cbn beta iota.
      destruct (dn_gone env _); [left; eexists; split; [done|]; cbn; congruence|].
      destruct (parse_ends (2 * S n + 1) attempted y sl') as (res & -> & Hres).
      { intros Hm Hf. destruct (Hsame Hf) as [-> Hf']. by apply (Hb (2 * S n + 1)%nat). }
      destruct res as [t sl2|sl2].
      * left. destruct Hres as [Hl2 Hread]. case_match; (eexists; split; [done|]); cbn; [congruence|]. split_and!; [congruence|by exists toks|done|done].
      * right. destruct Hres as (Ha & Hl2 & Hpos2). split; [done|]. eexists _, _, _, _. split_and!; [done|congruence|done].
    + right. destruct Hres as (Ha & Hl2 & Hpos2). split; [done|]. eexists _, _, _, _. split_and!; [done|congruence|done].
  - left. eexists. split; [done|]. cbn. congruence.
Qed.

End turn_ends.

(** C4. A reply ends. Whatever tokens the model samples, with or without drafts, and
    whatever the evaluations give, a client that waits for its reply gets a turn after
    at most two generations, or is gone. The turn is the message read from the text of
    at most as many tokens as the request allows, cut before a stop sequence; a call
    that was cut off is in it only when it could be closed, and otherwise the turn is an
    error. The bindings of the slot are untouched until the turn is published, and
    cleared when the client is gone. *)
Theorem turn_ends {Ev : Type} `{!ReadDir} e exp2 hooks de env r syncs rng sl d tick (out : list Ev)
    (Hp : turn_promise e de r syncs) (Hstops : stops_ok (r_stops r)) (Hpos : ds4_session_pos (gs_session sl) <= ev_ctx e) :
  ∃ out' te, generate_turn silent_client e exp2 hooks de env r 2 syncs false rng tt sl d tick out = (out', Some te) ∧ turn_result e r sl te.
Proof.
  destruct (round_ends e exp2 hooks de env r syncs Hp Hstops 1 false rng sl d tick out Hpos) as (out1 & [(te & E & Hr)|(_ & rng' & sl' & d' & tick' & E & Hl & Hpos')]); [by exists out1, te|].
  destruct (round_ends e exp2 hooks de env r syncs Hp Hstops 0 true rng' sl' d' tick' out1 Hpos') as (out2 & [(te & E2 & Hr)|(? & _)]); [|done].
  exists out2, te. rewrite E. split; [done|]. destruct te; cbn in *; rewrite <- Hl; exact Hr.
Qed.

(** A stop sequence inside of a tool call. The session was invalidated with the reply,
    so what the model is told of its call is all that it is given: the session that it
    goes on from holds the tokens of the correction and none of the conversation. *)
Theorem correction_without_conversation e env r y sl :
  chat_with_tools r = true → r_stream r = false → ry_saw_start y = true → ry_saw_end y = false → ry_finish y = bs "stop" → complete_truncation r (ry_text y) = None →
  gs_session sl = Session false [] → se_batched env = false → sr_entered (se_rounds env 0) = true → sync_promise (ev_sync e) →
  let told := ds4_tokenize_rendered_chat e (build_invalid_tool_call_error_suffix (r_model_syntax r) (Some (r_prompt_text r)) (r_think_mode r) (ry_inside y) (Some (bs "unterminated tool call"))) in
  told ≠ [] → (ev_sync e (Session false []) told).1.1 = 0 →
  ∃ sl', settle_truncation e env r false y sl = Some (Again _ sl') ∧ gs_session sl' = Session true told.
Proof.
  intros Hc Hst Hs He Hf Hn Hses Hb Hen Hsync told Hne Hok. unfold settle_truncation. rewrite Hc, Hs, He, Hf, Hn, Hst. cbn [negb andb]. change (bytes_eqb (bs "stop") (bs "error")) with false.
  cbn [negb]. unfold continue_after_invalid_dsml, append_rendered_suffix_to_live_session. rewrite Hses. unfold slot_session_sync. rewrite Hb, Hen. cbn [negb checkpoint].
  assert (Htold : told = build_prompt_from_exact_prefix_and_text_suffix e [] (build_invalid_tool_call_error_suffix (r_model_syntax r) (Some (r_prompt_text r)) (r_think_mode r)
    (ry_inside y) (Some (bs "unterminated tool call")))) by done. rewrite <- Htold.
  destruct (build_invalid_tool_call_error_suffix _ _ _ _ _) as [|c rest] eqn:E; [by destruct (suffix_nonempty r (ry_inside y) (bs "unterminated tool call"))|].
  destruct (ev_sync e (Session false []) told) as [[rc err] s] eqn:Es. cbn in Hok. subst rc. destruct (Hsync _ _ _ _ _ Hne Es eq_refl) as [Hv Hck]. cbn.
  eexists. split; [done|]. cbn. destruct s. cbn in *. by subst.
Qed.

(** ** Witnesses *)

Definition asked (api : api_style) (text : bytes) : request :=
  Request REQ_CHAT api SERVER_MODEL_SYNTAX_DEEPSEEK [7; 7] [] false (StopList [] 0) text [] 10 0 false float_zero false float_zero false float_zero false 0 true false 0 0
    DS4_THINK_HIGH false false false false false (StopList [] 0, None) false (StopList [] 0, None) (ToolReplayStats 0 0 0 0).
Definition idle_load : load_io := LoadIO (λ _, true) true 0.
Definition idle_sync : sync_env := SyncEnv false 0 (λ _, SyncRound false true false) (λ _, []).
Definition said : turn := Turn (bs "stop") (Some (bs "ok")) (Some (bs "hm")) tool_calls_zero.



(** Tokens in the order of a script, whatever the session. *)
Definition in_order (toks : list Z) (eos : Z) : decode_engine :=
  DecodeEngine (λ _ _ rng, (nth (Z.to_nat rng) toks eos, rng + 1)) (λ s t, (0, [], Session true (checkpoint s ++ [t]))) None.
Definition waiting : request :=
  Request REQ_CHAT API_OPENAI SERVER_MODEL_SYNTAX_GLM [7; 7] [] false (StopList [] 0) (bs "Q") [] 10 0 false float_zero false float_zero false float_zero false 0 false false 0 0
    DS4_THINK_NONE true false false false false (StopList [] 0, None) false (StopList [] 0, None) (ToolReplayStats 0 0 0 0).
Definition strict_engine (tokens : list bytes) (eos : Z) : engine_view :=
  EngineView false false (tiny_vocab tokens eos) 100 2 0 (λ _, inl []) (λ _ _, (false, None, [])) (λ _ _, true)
    (λ s p, if 100 <=? Z.of_nat (length p) then (1, bs "too long", s) else (0, [], Session true p)).

(** Witness of C4: a call that stops in its middle, the correction, and an answer. *)
Lemma turn_ends_witness :
  let e := strict_engine [bs "<tool_call>"; bs "x"; bs "Hi"; bs "$"] 3 in
  ∃ out' te, generate_turn (Ev := unit) silent_client e (λ _, dbl 1) no_hooks (in_order [0; 1; 3; 2] 3) quiet_env waiting 2 (λ _, idle_sync) false 0 tt tiny_slot tiny_disk 0 []
      = (out', Some te) ∧ match te with Turned y t _ => ry_text y = bs "Hi" ∧ tn_finish t = bs "stop" ∧ tn_content t = Some (bs "Hi") | TurnGone _ => False end.
Proof.
  cbn zeta. destruct (turn_ends (Ev := unit) (strict_engine [bs "<tool_call>"; bs "x"; bs "Hi"; bs "$"] 3) (λ _, dbl 1) no_hooks (in_order [0; 1; 3; 2] 3) quiet_env waiting (λ _, idle_sync) 0
    tiny_slot tiny_disk 0 []) as (out' & te & E & _).
  - split.
    + split; [by intros s t err s' [= <- <-]|done].
    + intros s p err s'. cbn [strict_engine ev_sync ev_ctx]. destruct (Z.leb_spec 100 (Z.of_nat (length p))); [discriminate|]. intros [= <- <-]. unfold ds4_session_pos. cbn [checkpoint]. lia.
    + discriminate.
  - done.
  - vm_compute. discriminate.
  - exists out', te. split; [exact E|]. vm_compute in E. injection E as <- <-. split_and!; reflexivity.
Defined.
