(* ===== verification/DistWire.v ===== *)
(** * The wire of distributed inference

    The records of [engine/src/distributed.c] as they are sent between the coordinator
    and the workers: every record is a sequence of 32-bit words in network order, so
    [htonl] before a copy gives the big-endian bytes on every host. Frames are read over
    any sequence of [recv] results. With the token hash of a session and the check of a
    worker's HELLO.

    The activation widths of [engine/src/distributed.c]: a hidden state is an array of
    [float], sent as it is or packed to 16 or 8 bits per value. A [float] is its 32 bits;
    the arithmetic of [dist_f32_to_f8_e4m3] and [dist_f8_e4m3_to_f32] is that of
    [SpecFloat] at 24 bits. Arrays are sent in the order of the host, which is
    little-endian on every target of the engine. *)
From Stdlib Require Import SpecFloat.
From S2P Require Import Prelude CLib KvHeader Strtod Http.

(** ** Words *)

Definition be32 (v : Z) : bytes := [u8 (Z.shiftr v 24); u8 (Z.shiftr v 16); u8 (Z.shiftr v 8); u8 v].

(** [ntohl] of the four bytes at the head. *)
Definition get_be32 (b : bytes) : Z :=
  match b with
  | b3 :: b2 :: b1 :: b0 :: _ => Z.lor (Z.lor (Z.lor b0 (Z.shiftl b1 8)) (Z.shiftl b2 16)) (Z.shiftl b3 24)
  | _ => 0
  end.

Definition wire_words (l : list Z) : bytes := l ≫= be32.
Definition word_at (b : bytes) (i : nat) : Z := get_be32 (drop (4 * i) b).

Definition dist_u64_from_halves (hi lo : Z) : Z := Z.lor (u64 (Z.shiftl hi 32)) lo.
Definition dist_u64_to_halves (v : Z) : Z * Z := (u32 (Z.shiftr v 32), u32 v).

(** ** Records *)

Record dist_hello := DistHello {
  he_model_id : Z; he_quant_bits : Z; he_layer_start : Z; he_layer_end : Z; he_has_output : Z; he_has_hidden : Z;
  he_ctx_size : Z; he_n_layers : Z; he_listen_port : Z; he_model_name_len : Z;
}.
Definition HELLO_SIZE : nat := 40.
Definition dist_hello_to_wire (h : dist_hello) : bytes :=
  wire_words [he_model_id h; he_quant_bits h; he_layer_start h; he_layer_end h; he_has_output h; he_has_hidden h; he_ctx_size h; he_n_layers h;
    he_listen_port h; he_model_name_len h].
Definition dist_hello_from_wire (b : bytes) : dist_hello :=
  let w := word_at b in DistHello (w 0%nat) (w 1%nat) (w 2%nat) (w 3%nat) (w 4%nat) (w 5%nat) (w 6%nat) (w 7%nat) (w 8%nat) (w 9%nat).

Record dist_work := DistWork {
  wk_model_id : Z; wk_session_hi : Z; wk_session_lo : Z; wk_request_hi : Z; wk_request_lo : Z;
  wk_prefix_hash_hi : Z; wk_prefix_hash_lo : Z; wk_result_hash_hi : Z; wk_result_hash_lo : Z;
  wk_pos0 : Z; wk_n_tokens : Z; wk_layer_start : Z; wk_layer_end : Z; wk_flags : Z;
  wk_token_bytes : Z; wk_input_hc_bytes : Z; wk_input_hc_bits : Z; wk_route_count : Z; wk_route_index : Z; wk_route_bytes : Z;
}.
Definition WORK_SIZE : nat := 80.
Definition dist_work_to_wire (w : dist_work) : bytes :=
  wire_words [wk_model_id w; wk_session_hi w; wk_session_lo w; wk_request_hi w; wk_request_lo w; wk_prefix_hash_hi w; wk_prefix_hash_lo w;
    wk_result_hash_hi w; wk_result_hash_lo w; wk_pos0 w; wk_n_tokens w; wk_layer_start w; wk_layer_end w; wk_flags w; wk_token_bytes w;
    wk_input_hc_bytes w; wk_input_hc_bits w; wk_route_count w; wk_route_index w; wk_route_bytes w].
Definition dist_work_from_wire (b : bytes) : dist_work :=
  let w := word_at b in
  DistWork (w 0%nat) (w 1%nat) (w 2%nat) (w 3%nat) (w 4%nat) (w 5%nat) (w 6%nat) (w 7%nat) (w 8%nat) (w 9%nat) (w 10%nat) (w 11%nat) (w 12%nat)
    (w 13%nat) (w 14%nat) (w 15%nat) (w 16%nat) (w 17%nat) (w 18%nat) (w 19%nat).

Record dist_route_fixed := DistRouteFixed { rf_host_len : Z; rf_port : Z; rf_layer_start : Z; rf_layer_end : Z; rf_flags : Z }.
Definition ROUTE_SIZE : nat := 20.
Definition dist_route_to_wire (r : dist_route_fixed) : bytes := wire_words [rf_host_len r; rf_port r; rf_layer_start r; rf_layer_end r; rf_flags r].
Definition dist_route_from_wire (b : bytes) : dist_route_fixed :=
  let w := word_at b in DistRouteFixed (w 0%nat) (w 1%nat) (w 2%nat) (w 3%nat) (w 4%nat).

Record dist_route_return := DistRouteReturn { rr_kind : Z; rr_host_len : Z; rr_port : Z }.
Definition RETURN_SIZE : nat := 12.
Definition dist_route_return_to_wire (r : dist_route_return) : bytes := wire_words [rr_kind r; rr_host_len r; rr_port r].
Definition dist_route_return_from_wire (b : bytes) : dist_route_return :=
  let w := word_at b in DistRouteReturn (w 0%nat) (w 1%nat) (w 2%nat).

Record dist_result := DistResult {
  rs_request_hi : Z; rs_request_lo : Z; rs_result_hash_hi : Z; rs_result_hash_lo : Z; rs_status : Z; rs_result_kind : Z;
  rs_telemetry_count : Z; rs_telemetry_bytes : Z; rs_payload_bytes : Z; rs_payload_bits : Z;
}.
Definition RESULT_SIZE : nat := 40.
Definition dist_result_to_wire (r : dist_result) : bytes :=
  wire_words [rs_request_hi r; rs_request_lo r; rs_result_hash_hi r; rs_result_hash_lo r; rs_status r; rs_result_kind r; rs_telemetry_count r;
    rs_telemetry_bytes r; rs_payload_bytes r; rs_payload_bits r].
Definition dist_result_from_wire (b : bytes) : dist_result :=
  let w := word_at b in DistResult (w 0%nat) (w 1%nat) (w 2%nat) (w 3%nat) (w 4%nat) (w 5%nat) (w 6%nat) (w 7%nat) (w 8%nat) (w 9%nat).

Record dist_telemetry := DistTelemetry {
  te_layer_start : Z; te_layer_end : Z; te_route_index : Z; te_pos0 : Z; te_n_tokens : Z; te_eval_usec : Z; te_downstream_wait_usec : Z;
  te_forward_send_usec : Z; te_input_bytes : Z; te_output_bytes : Z;
}.
Definition TELEMETRY_SIZE : nat := 40.
Definition dist_telemetry_to_wire (t : dist_telemetry) : bytes :=
  wire_words [te_layer_start t; te_layer_end t; te_route_index t; te_pos0 t; te_n_tokens t; te_eval_usec t; te_downstream_wait_usec t;
    te_forward_send_usec t; te_input_bytes t; te_output_bytes t].

(** ** Reading a connection *)

(** The data and what is left; the end of the connection; an error. *)
Inductive full_read := FullOk (d : bytes) (net : list net_event) | FullEof | FullError.

Fixpoint dist_read_full (net : list net_event) (len : nat) : full_read :=
  if (len =? 0)%nat then FullOk [] net
  else
    match net with
    | [] => FullEof
    | NIntr :: net' => dist_read_full net' len
    | NFail :: _ => FullError
    | NData [] :: _ => FullEof
    | NData d :: net' =>
        if (length d <=? len)%nat then
          match dist_read_full net' (len - length d) with FullOk d' net'' => FullOk (d ++ d') net'' | e => e end
        else FullOk (take len d) (NData (drop len d) :: net')
    end.

Definition DS4_DIST_MAGIC : Z := 1146303556.
Definition DS4_DIST_MSG_HELLO : Z := 1.
Definition DS4_DIST_MSG_WORK : Z := 3.
Definition DS4_DIST_MSG_RESULT : Z := 4.
Definition DS4_DIST_MAX_MODEL_NAME : Z := 127.
Definition HEADER_SIZE : nat := 12.

Definition dist_write_frame_header (type len : Z) : bytes := wire_words [DS4_DIST_MAGIC; type; len].

(** The type and the length, or the result of the C function: 0 for the end of the
    connection, -1 for an error. *)
Definition dist_read_frame_header (net : list net_event) : Z + Z * Z * list net_event :=
  match dist_read_full net HEADER_SIZE with
  | FullError => inl (-1)
  | FullEof => inl 0
  | FullOk h net => if negb (word_at h 0 =? DS4_DIST_MAGIC) then inl (-1) else inr (word_at h 1, word_at h 2, net)
  end.

(** The message of a header that was not read; [errno_text] is that of [strerror]. *)
Definition hex8 (v : Z) : bytes := (λ i, let d := Z.land (Z.shiftr v (4 * i)) 15 in if d <? 10 then 48 + d else 87 + d) <$> [7; 6; 5; 4; 3; 2; 1; 0].
Definition frame_header_error (errno_text : bytes) (net : list net_event) : bytes :=
  match dist_read_full net HEADER_SIZE with
  | FullOk h _ => bs "bad frame magic 0x" ++ hex8 (word_at h 0)
  | _ => bs "failed to read frame header: " ++ errno_text
  end.

Definition dist_bytes_have_nul (b : bytes) : bool := existsb (Z.eqb 0) b.

(** ** The token hash *)

Definition DS4_DIST_TOKEN_HASH_INIT : Z := 1469598103934665603.
Definition DS4_DIST_TOKEN_HASH_PRIME : Z := 1099511628211.

Definition dist_token_hash_update (h token : Z) : Z :=
  let t := u32 token in
  foldl (λ h i, u64 (Z.lxor h (Z.land (Z.shiftr t (i * 8)) 255) * DS4_DIST_TOKEN_HASH_PRIME)) h [0; 1; 2; 3].
Definition dist_token_hash_update_span (h : Z) (tokens : list Z) : Z := foldl dist_token_hash_update h tokens.
Definition dist_token_hash_prefix (tokens : list Z) : Z := dist_token_hash_update_span DS4_DIST_TOKEN_HASH_INIT tokens.

(** ** HELLO *)

(** What a worker says of itself: the model, its options and its data port. *)
Record dist_identity := DistIdentity {
  di_model_id : Z; di_quant_bits : Z; di_model_name : bytes; di_n_layers : Z;
  di_layer_start : Z; di_layer_end : Z; di_has_output : bool; di_ctx_size : Z; di_listen_port : Z;
}.

(** [dist_resolved_layer_end] *)
Definition dist_resolved_layer_end (i : dist_identity) : Z := if di_has_output i then u32 (di_n_layers i - 1) else di_layer_end i.

Definition dist_send_hello (i : dist_identity) : bytes :=
  let name := take (Z.to_nat DS4_DIST_MAX_MODEL_NAME) (di_model_name i) in
  let h := DistHello (u32 (di_model_id i)) (u32 (di_quant_bits i)) (di_layer_start i) (dist_resolved_layer_end i) (if di_has_output i then 1 else 0) 1
             (if 0 <? di_ctx_size i then di_ctx_size i else 0) (di_n_layers i) (di_listen_port i) (Z.of_nat (length name)) in
  dist_write_frame_header DS4_DIST_MSG_HELLO (Z.of_nat HELLO_SIZE + Z.of_nat (length name)) ++ dist_hello_to_wire h ++ name.

(** The HELLO and the name, or the result of the C function; after an error the rest of
    the frame is dropped with the connection. *)
Definition dist_recv_hello (net : list net_event) : Z + dist_hello * bytes * list net_event :=
  match dist_read_frame_header net with
  | inl rc => inl rc
  | inr (type, len, net) =>
      if negb (type =? DS4_DIST_MSG_HELLO) then inl (-1)
      else if (len <? Z.of_nat HELLO_SIZE) || (Z.of_nat HELLO_SIZE + DS4_DIST_MAX_MODEL_NAME <? len) then inl (-1)
      else
        match dist_read_full net HELLO_SIZE with
        | FullEof => inl 0
        | FullError => inl (-1)
        | FullOk b net =>
            let h := dist_hello_from_wire b in
            if negb (he_model_name_len h =? len - Z.of_nat HELLO_SIZE) || (DS4_DIST_MAX_MODEL_NAME <? he_model_name_len h) then inl (-1)
            else
              match dist_read_full net (Z.to_nat (he_model_name_len h)) with
              | FullEof => inl 0
              | FullError => inl (-1)
              | FullOk name net => if dist_bytes_have_nul name then inl (-1) else inr (h, name, net)
              end
        end
  end.

(** * Hidden states on the wire *)

(** ** Widths *)

Definition DS4_DIST_ACTIVATION_BITS_DEFAULT : Z := 32.

Definition dist_activation_bits_or_default (bits : Z) : Z := if bits =? 0 then DS4_DIST_ACTIVATION_BITS_DEFAULT else bits.

Definition dist_activation_bits_valid (bits : Z) : bool :=
  let bits := dist_activation_bits_or_default bits in (bits =? 32) || (bits =? 16) || (bits =? 8).

Definition dist_activation_wire_bytes (bits values : Z) : option Z :=
  let bits := dist_activation_bits_or_default bits in
  if negb (dist_activation_bits_valid bits) || negb (bits mod 8 =? 0) then None
  else let n := u64 (values * (bits / 8)) in if UINT32_MAX <? n then None else Some n.

Definition dist_activation_values_from_wire_bytes (bits n : Z) : option Z :=
  let bits := dist_activation_bits_or_default bits in
  if negb (dist_activation_bits_valid bits) || negb (bits mod 8 =? 0) then None
  else let per := bits / 8 in if (per =? 0) || negb (n mod per =? 0) then None else Some (n / per).

Definition dist_activation_wire_bytes_from_f32_bytes (bits f32_bytes : Z) : option Z :=
  if negb (f32_bytes mod 4 =? 0) then None else dist_activation_wire_bytes bits (f32_bytes / 4).

(** ** 16 bits *)

Definition dist_f32_to_f16 (bits : Z) : Z :=
  let sign := Z.land (Z.shiftr bits 16) 32768 in
  let exp := Z.land (Z.shiftr bits 23) 255 - 127 + 15 in
  let mant := Z.land bits 8388607 in
  if exp <=? 0 then
    if exp <? -10 then sign
    else
      let mant := Z.lor mant 8388608 in
      let shift := 14 - exp in
      let half_mant := Z.shiftr mant shift in
      let round_bit := Z.land (Z.shiftr mant (shift - 1)) 1 in
      let sticky := Z.land mant (Z.shiftl 1 (shift - 1) - 1) in
      let half_mant := if negb (round_bit =? 0) && (negb (sticky =? 0) || negb (Z.land half_mant 1 =? 0)) then half_mant + 1 else half_mant in
      Z.lor sign half_mant
  else if 31 <=? exp then
    if (Z.land (Z.shiftr bits 23) 255 =? 255) && negb (mant =? 0) then Z.lor sign 32256 else Z.lor sign 31744
  else
    let half := Z.lor (Z.lor sign (Z.shiftl exp 10)) (Z.shiftr mant 13) in
    let round := Z.land mant 8191 in
    u32 (if (4096 <? round) || ((round =? 4096) && negb (Z.land half 1 =? 0)) then half + 1 else half) mod 65536.

(** The shifts of a mantissa below the smallest normal number; ten are enough. *)
Fixpoint normalize_half (fuel : nat) (mant exp : Z) : Z * Z :=
  match fuel with
  | O => (mant, exp)
  | S fuel' => if Z.land mant 1024 =? 0 then normalize_half fuel' (u32 (Z.shiftl mant 1)) (exp - 1) else (mant, exp)
  end.

Definition dist_f16_to_f32 (h : Z) : Z :=
  let sign := Z.shiftl (Z.land h 32768) 16 in
  let exp := Z.land (Z.shiftr h 10) 31 in
  let mant := Z.land h 1023 in
  if exp =? 0 then
    if mant =? 0 then sign
    else
      let '(mant, exp) := normalize_half 10 mant 1 in
      Z.lor (Z.lor sign (Z.shiftl (exp + 127 - 15) 23)) (Z.shiftl (Z.land mant 1023) 13)
  else if exp =? 31 then Z.lor (Z.lor sign 2139095040) (Z.shiftl mant 13)
  else Z.lor (Z.lor sign (Z.shiftl (exp + 127 - 15) 23)) (Z.shiftl mant 13).

(** ** 8 bits *)

Definition f32_of_bits (b : Z) : spec_float :=
  let s := Z.testbit b 31 in
  let e := Z.land (Z.shiftr b 23) 255 in
  let m := Z.land b 8388607 in
  if e =? 0 then (if m =? 0 then S754_zero s else S754_finite s (Z.to_pos m) (-149))
  else if e =? 255 then (if m =? 0 then S754_infinity s else S754_nan)
  else S754_finite s (Z.to_pos (m + 8388608)) (e - 150).

Definition bits_of_f32 (x : spec_float) : Z :=
  let sign (s : bool) := if s then 2147483648 else 0 in
  match x with
  | S754_zero s => sign s
  | S754_infinity s => sign s + 2139095040
  | S754_nan => 2143289344
  | S754_finite s m e => sign s + (if Z.pos m <? 8388608 then Z.pos m else Z.shiftl (e + 150) 23 + (Z.pos m - 8388608))
  end.

Definition flt (z : Z) : spec_float := binary_normalize 24 128 z 0 false.
Definition ldexpf (x : spec_float) (e : Z) : spec_float := SFldexp 24 128 x e.

(** [(int)floorf(x)] *)
Definition floor_int (x : spec_float) : Z :=
  match x with S754_finite s m e => let m := if s then Z.neg m else Z.pos m in Z.shiftl m e | _ => 0 end.

(** The rounding below the smallest normal number. *)
Definition f8_small (sign : Z) (a : spec_float) : Z :=
  let mant := floor_int (SFadd 24 128 (SFmul 24 128 a (flt 512)) (ldexpf (flt 1) (-1))) in
  if mant <=? 0 then sign else Z.lor sign (if 7 <? mant then 7 else mant).

Definition dist_f32_to_f8_e4m3 (bits : Z) : Z :=
  let sign := if Z.testbit bits 31 then 128 else 0 in
  let a := SFabs (f32_of_bits bits) in
  if SFeqb a (S754_zero false) then sign
  else if match a with S754_infinity _ | S754_nan => true | _ => SFleb (flt 240) a end then Z.lor sign 119
  else if SFltb a (ldexpf (flt 1) (-9)) then f8_small sign a
  else
    let exp2 := (SFfrexp 24 128 a).2 in
    let exp := exp2 - 1 + 7 in
    if exp <=? 0 then f8_small sign a
    else
      let base := ldexpf (flt 1) (exp2 - 1) in
      let mant := floor_int (SFadd 24 128 (SFmul 24 128 (SFsub 24 128 (SFdiv 24 128 a base) (flt 1)) (flt 8)) (ldexpf (flt 1) (-1))) in
      let '(mant, exp) := if 8 <=? mant then (0, exp + 1) else (mant, exp) in
      if 15 <=? exp then Z.lor sign 119 else Z.lor (Z.lor sign (u8 (Z.shiftl exp 3))) mant.

Definition dist_f8_e4m3_to_f32 (h : Z) : Z :=
  let sign := flt (if negb (Z.land h 128 =? 0) then -1 else 1) in
  let exp := Z.land (Z.shiftr h 3) 15 in
  let mant := Z.land h 7 in
  bits_of_f32
    (if exp =? 0 then SFmul 24 128 (SFmul 24 128 sign (flt mant)) (ldexpf (flt 1) (-9))
     else if 15 <=? exp then SFmul 24 128 sign (flt 240)
     else SFmul 24 128 sign (ldexpf (SFadd 24 128 (flt 1) (SFdiv 24 128 (flt mant) (flt 8))) (exp - 7))).

(** ** Arrays *)

Definition put16 (v : Z) : bytes := [u8 v; u8 (Z.shiftr v 8)].
Definition float_bytes (l : list Z) : bytes := l ≫= kv_store_le_put32.

(** An array of elements of a size, read from its bytes. *)
Fixpoint array_of (size : nat) (get : bytes → Z) (n : nat) (b : bytes) : list Z :=
  match n with O => [] | S n' => get b :: array_of size get n' (drop size b) end.
Definition get16 (b : bytes) : Z := Z.lor (nth 0 b 0) (Z.shiftl (nth 1 b 0) 8).
Definition get8 (b : bytes) : Z := nth 0 b 0.

(** What is written, [None] for -1; the pieces of a million values make no difference to
    the stream. *)
Definition dist_write_activation_payload (src : option (list Z)) (values bits : Z) : option bytes :=
  let bits := dist_activation_bits_or_default bits in
  if negb (dist_activation_bits_valid bits) then None
  else if values =? 0 then Some []
  else
    src ← src;
    let v := take (Z.to_nat values) src in
    if bits =? 32 then _ ← dist_activation_wire_bytes bits values; Some (float_bytes v)
    else if bits =? 16 then Some (v ≫= λ x, put16 (dist_f32_to_f16 x))
    else Some (dist_f32_to_f8_e4m3 <$> v).

(** The values, or the message. *)
Definition dist_decode_activation_payload (wire : option bytes) (bits wire_bytes : Z) : bytes + list Z :=
  let bits := dist_activation_bits_or_default bits in
  if negb (dist_activation_bits_valid bits) then inl (bs "invalid distributed activation width: " ++ fmt_d bits ++ bs " bits")
  else if negb (wire_bytes =? 0) && match wire with None => true | _ => false end then inl (bs "missing distributed activation payload")
  else
    match dist_activation_values_from_wire_bytes bits wire_bytes with
    | None => inl (bs "invalid distributed activation payload size")
    | Some values =>
        if UINT32_MAX <? values * 4 then inl (bs "distributed activation payload is too large")
        else
          let b := default [] wire in
          let n := Z.to_nat values in
          inr (if bits =? 32 then array_of 4 kv_store_le_get32 n b
               else if bits =? 16 then dist_f16_to_f32 <$> array_of 2 get16 n b
               else dist_f8_e4m3_to_f32 <$> array_of 1 get8 n b)
    end.

Example f16_values : dist_f32_to_f16 1065353216 = 15360 ∧ dist_f16_to_f32 15360 = 1065353216 ∧ dist_f32_to_f16 1199562752 = 31743.
Proof. vm_compute. done. Qed.
Example f8_values : dist_f8_e4m3_to_f32 56 = 1065353216 ∧ dist_f32_to_f8_e4m3 1065353216 = 56 ∧ dist_f8_e4m3_to_f32 128 = 2147483648.
Proof. vm_compute. done. Qed.
