(* ===== verification/DistRoute.v ===== *)
(** * Routes over workers

    The registry of the coordinator in [engine/src/distributed.c], the search for a chain
    of workers after the layers of the coordinator, and the route that travels with
    every piece of work: how it is written and how a worker reads it. The order of
    [qsort] among entries that compare equal is the class [Qsort]; allocation does not
    fail. *)
From Stdlib Require Import Sorting.Sorted.
From S2P Require Import Prelude CLib Strtod Http DistWire.

(** ** The registry *)

Record dist_worker_entry := DistWorker {
  we_fd : Z; we_peer_host : bytes; we_peer_port : bytes; we_model_name : bytes;
  we_model_id : Z; we_quant_bits : Z; we_layer_start : Z; we_layer_end : Z; we_has_output : Z; we_has_hidden : Z;
  we_ctx_size : Z; we_n_layers : Z; we_listen_port : Z;
}.

Record dist_coordinator := DistCoordinator {
  cd_model_id : Z; cd_model_name : bytes; cd_n_layers : Z; cd_local_start : Z; cd_local_end : Z; cd_ctx_size : Z;
  cd_local_has_output : bool; cd_local_can_output_head : bool; cd_use_control_for_work : bool; cd_activation_bits : Z;
  cd_generation : Z; cd_workers : list dist_worker_entry; cd_shutting_down : bool;
}.

Definition set_workers (l : list dist_worker_entry) (st : dist_coordinator) : dist_coordinator :=
  DistCoordinator (cd_model_id st) (cd_model_name st) (cd_n_layers st) (cd_local_start st) (cd_local_end st) (cd_ctx_size st) (cd_local_has_output st)
    (cd_local_can_output_head st) (cd_use_control_for_work st) (cd_activation_bits st) (u64 (cd_generation st + 1)) l (cd_shutting_down st).

(** Why a worker is turned away. *)
Definition check_hello (st : dist_coordinator) (h : dist_hello) (model_name : bytes) : option bytes :=
  if negb (he_model_id h =? cd_model_id st) then
    Some (bs "model id mismatch: worker=" ++ fmt_d (he_model_id h) ++ bs " coordinator=" ++ fmt_d (cd_model_id st))
  else if negb (bytes_eqb model_name (cd_model_name st)) then
    Some (take 255 (bs "model family mismatch: worker=" ++ model_name ++ bs " coordinator=" ++ cd_model_name st))
  else if negb (he_n_layers h =? cd_n_layers st) then
    Some (bs "layer count mismatch: worker=" ++ fmt_d (he_n_layers h) ++ bs " coordinator=" ++ fmt_d (cd_n_layers st))
  else if negb (he_quant_bits h =? 2) && negb (he_quant_bits h =? 4) then Some (bs "unsupported worker quant profile Q" ++ fmt_d (he_quant_bits h))
  else if 1 <? he_has_output h then Some (bs "invalid worker output-head flag " ++ fmt_d (he_has_output h))
  else if 1 <? he_has_hidden h then Some (bs "invalid worker hidden-state flag " ++ fmt_d (he_has_hidden h))
  else if (he_n_layers h <=? he_layer_start h) || (he_n_layers h <=? he_layer_end h) || (he_layer_end h <? he_layer_start h) then
    Some (bs "invalid worker layer range " ++ fmt_d (he_layer_start h) ++ bs ":" ++ fmt_d (he_layer_end h) ++ bs " for " ++ fmt_d (he_n_layers h) ++ bs " layers")
  else if negb (he_has_output h =? 0) && negb (u32 (he_layer_end h + 1) =? he_n_layers h) then
    Some (bs "worker output head requires final layer: range=" ++ fmt_d (he_layer_start h) ++ bs ":" ++ fmt_d (he_layer_end h)
          ++ bs " layers=" ++ fmt_d (he_n_layers h))
  else if negb (cd_ctx_size st =? 0) && (he_ctx_size h <? cd_ctx_size st) then
    Some (bs "worker context too small: worker=" ++ fmt_d (he_ctx_size h) ++ bs " coordinator=" ++ fmt_d (cd_ctx_size st))
  else if (he_listen_port h =? 0) || (65535 <? he_listen_port h) then Some (bs "invalid worker data listen port " ++ fmt_d (he_listen_port h))
  else None.

Definition entry_of (fd : Z) (peer_host peer_port : bytes) (h : dist_hello) (model_name : bytes) : dist_worker_entry :=
  DistWorker fd peer_host peer_port model_name (he_model_id h) (he_quant_bits h) (he_layer_start h) (he_layer_end h) (he_has_output h) (he_has_hidden h)
    (he_ctx_size h) (he_n_layers h) (he_listen_port h).

(** An older entry of the same worker. *)
Definition stale (peer_host : bytes) (h : dist_hello) (old : dist_worker_entry) : bool :=
  bytes_eqb (we_peer_host old) peer_host && (we_model_id old =? he_model_id h) && (we_layer_start old =? he_layer_start h)
  && (we_layer_end old =? he_layer_end h) && (we_has_output old =? he_has_output h).

Definition dist_coordinator_add_worker (st : dist_coordinator) (fd : Z) (peer_host peer_port : bytes) (h : dist_hello) (model_name : bytes) : dist_coordinator :=
  if cd_shutting_down st then st
  else set_workers (entry_of fd peer_host peer_port h model_name :: List.filter (λ old, negb (stale peer_host h old)) (cd_workers st)) st.

(** The first entry that fits is taken out. *)
Fixpoint remove_first (f : dist_worker_entry → bool) (l : list dist_worker_entry) : option (list dist_worker_entry) :=
  match l with
  | [] => None
  | w :: l' => if f w then Some l' else cons w <$> remove_first f l'
  end.

Definition dist_coordinator_remove_worker (st : dist_coordinator) (fd : Z) : dist_coordinator :=
  match remove_first (λ w, we_fd w =? fd) (cd_workers st) with Some l => set_workers l st | None => st end.

(** [dist_coordinator_client_main] up to the wait for the end of the connection: the
    refusal that is sent, or the new registry. *)
Definition dist_register (st : dist_coordinator) (fd : Z) (peer_host peer_port : bytes) (net : list net_event) : option bytes * dist_coordinator :=
  match dist_recv_hello net with
  | inl _ => (None, st)
  | inr (h, name, _) =>
      match check_hello st h name with
      | Some err => (Some err, st)
      | None => (None, dist_coordinator_add_worker st fd peer_host peer_port h name)
      end
  end.

(** ** The search *)

Definition dist_worker_route_cmp (a b : dist_worker_entry) : Z :=
  if we_layer_start a <? we_layer_start b then -1
  else if we_layer_start b <? we_layer_start a then 1
  else if negb (we_has_output a =? we_has_output b) then (if negb (we_has_output a =? 0) then -1 else 1)
  else if we_layer_end b <? we_layer_end a then -1
  else if we_layer_end a <? we_layer_end b then 1
  else 0.

(** What [qsort] promises when the comparison is an order on the elements. *)
Class Qsort := {
  qsort : ∀ {A}, (A → A → Z) → list A → list A;
  qsort_perm A (cmp : A → A → Z) l : qsort cmp l ≡ₚ l;
  qsort_sorted A (cmp : A → A → Z) l : (∀ a b, a ∈ l → b ∈ l → cmp a b <= 0 ∨ cmp b a <= 0) →
    (∀ a b c, a ∈ l → b ∈ l → c ∈ l → cmp a b <= 0 → cmp b c <= 0 → cmp a c <= 0) → StronglySorted (λ a b, cmp a b <= 0) (qsort cmp l);
}.

Definition dist_worker_route_candidate_ok (st : dist_coordinator) (w : dist_worker_entry) (last : Z) : bool :=
  let needs_hidden := (we_layer_end w <? last) || (we_has_output w =? 0) in
  if needs_hidden && (we_has_hidden w =? 0) then false
  else if (last <=? we_layer_end w) && (we_has_output w =? 0) && negb (cd_local_can_output_head st) then false
  else true.

Section search.
Context (st : dist_coordinator) (workers : list dist_worker_entry) (last : Z).

(** The loop over the workers; [child] is the search from a layer, with the first layer
    missing in it. *)
Fixpoint search_loop (child : Z → option (option (list dist_worker_entry) * Z)) (next : Z) (l : list dist_worker_entry) (saw_start : bool) (missing : Z)
    : option (option (list dist_worker_entry) * Z) :=
  let stop := Some (None, if negb saw_start && (missing <? next) then next else missing) in
  match l with
  | [] => stop
  | w :: l' =>
      if we_layer_start w <? next then search_loop child next l' saw_start missing
      else if next <? we_layer_start w then stop
      else if negb (dist_worker_route_candidate_ok st w last) then search_loop child next l' true missing
      else if last <=? we_layer_end w then Some (Some [w], missing)
      else
        match child (u32 (we_layer_end w + 1)) with
        | None => None
        | Some (Some path, _) => Some (Some (w :: path), missing)
        | Some (None, child_missing) => search_loop child next l' true (if missing <? child_missing then child_missing else missing)
        end
  end.

Fixpoint dist_route_search_workers (fuel : nat) (next missing : Z) : option (option (list dist_worker_entry) * Z) :=
  match fuel with
  | O => None
  | S fuel' => search_loop (λ n, dist_route_search_workers fuel' n n) next workers false missing
  end.
End search.

(** ** The plan *)

Record dist_route_entry := DistRoute { re_host : bytes; re_port : Z; re_layer_start : Z; re_layer_end : Z; re_flags : Z; re_fd : Z }.
Record dist_route_plan := DistPlan { rp_entries : list dist_route_entry; rp_blob : bytes }.

Definition DS4_DIST_ROUTE_F_OUTPUT_LOGITS : Z := 1.
Definition DS4_DIST_ROUTE_RETURN_UPSTREAM : Z := 1.
Definition NI_MAXHOST : Z := 1025.

Definition dist_route_plan_append_blob (blob : bytes) (entry : dist_route_entry) : bytes + bytes :=
  let host_len := Z.of_nat (length (re_host entry)) in
  let add := Z.of_nat ROUTE_SIZE + host_len in
  if (host_len =? 0) || (NI_MAXHOST <=? host_len) then inl (bs "invalid route host")
  else if (UINT32_MAX <? add) || (UINT32_MAX - add <? Z.of_nat (length blob)) then inl (bs "route payload is too large")
  else inr (blob ++ dist_route_to_wire (DistRouteFixed host_len (re_port entry) (re_layer_start entry) (re_layer_end entry) (re_flags entry)) ++ re_host entry).

Definition dist_route_plan_append_return_upstream (blob : bytes) : bytes + bytes :=
  if UINT32_MAX - Z.of_nat RETURN_SIZE <? Z.of_nat (length blob) then inl (bs "route payload is too large")
  else inr (blob ++ dist_route_return_to_wire (DistRouteReturn DS4_DIST_ROUTE_RETURN_UPSTREAM 0 0)).

Section plan.
Context `{!Qsort} (st : dist_coordinator) (dup : Z → Z + bytes).

Definition route_entry (w : dist_worker_entry) (fd : Z) : dist_route_entry :=
  DistRoute (we_peer_host w) (we_listen_port w) (we_layer_start w) (we_layer_end w) (if negb (we_has_output w =? 0) then DS4_DIST_ROUTE_F_OUTPUT_LOGITS else 0) fd.

(** The loop over the path; the first hop may use the connection of its worker. *)
Fixpoint plan_loop (path : list dist_worker_entry) (plan : dist_route_plan) : bytes + dist_route_plan :=
  match path with
  | [] => inr plan
  | w :: path' =>
      match (if cd_use_control_for_work st && (length (rp_entries plan) =? 0)%nat
             then match dup (we_fd w) with inl fd => inr fd | inr e => inl (bs "failed to duplicate first-hop worker connection: " ++ e) end
             else inr (-1)) with
      | inl err => inl err
      | inr fd =>
          let entry := route_entry w fd in
          match dist_route_plan_append_blob (rp_blob plan) entry with
          | inl err => inl err
          | inr blob => plan_loop path' (DistPlan (rp_entries plan ++ [entry]) blob)
          end
      end
  end.

(** [None] when the search does not end. *)
Definition dist_coordinator_build_route_plan : option (bytes + dist_route_plan * Z) :=
  let workers := qsort dist_worker_route_cmp (cd_workers st) in
  let last := u32 (cd_n_layers st - 1) in
  if negb (cd_local_start st =? 0) then Some (inl (bs "coordinator route does not start at layer 0"))
  else if (cd_local_end st =? last) && (cd_local_has_output st || cd_local_can_output_head st) then Some (inr (DistPlan [] [], cd_generation st))
  else
    let next := u32 (cd_local_end st + 1) in
    '(found, missing) ← dist_route_search_workers st workers last (S (length workers)) next next;
    Some (match found with
          | None => inl (bs "distributed route incomplete: missing layer " ++ fmt_d missing)
          | Some path =>
              match plan_loop path (DistPlan [] []) with
              | inl err => inl err
              | inr plan =>
                  if (length (rp_entries plan) =? 0)%nat then inr (plan, cd_generation st)
                  else
                    match dist_route_plan_append_return_upstream (rp_blob plan) with
                    | inl err => inl err
                    | inr blob => inr (DistPlan (rp_entries plan) blob, cd_generation st)
                    end
              end
          end).
End plan.

Definition dist_route_entry_matches_worker (route : dist_route_entry) (w : dist_worker_entry) : bool :=
  (re_port route =? we_listen_port w) && bytes_eqb (re_host route) (we_peer_host w) && (re_layer_start route =? we_layer_start w)
  && (re_layer_end route =? we_layer_end w) && Bool.eqb (negb (Z.land (re_flags route) DS4_DIST_ROUTE_F_OUTPUT_LOGITS =? 0)) (negb (we_has_output w =? 0)).

(** The workers of a route that failed, one for each entry, leave the registry. *)
Fixpoint forget_loop (entries : list dist_route_entry) (l : list dist_worker_entry) (removed_any : bool) : list dist_worker_entry * bool :=
  match entries with
  | [] => (l, removed_any)
  | e :: entries' =>
      match remove_first (dist_route_entry_matches_worker e) l with
      | Some l' => forget_loop entries' l' true
      | None => forget_loop entries' l removed_any
      end
  end.

Definition dist_coordinator_forget_route_workers (st : dist_coordinator) (plan : dist_route_plan) : dist_coordinator :=
  let '(l, removed_any) := forget_loop (rp_entries plan) (cd_workers st) false in if removed_any then set_workers l st else st.

(** ** Reading the route *)

(** The head of an entry and its host, and what follows; [inl] with the message. *)
Definition read_route_head (p : bytes) : bytes + dist_route_fixed * bytes :=
  if (length p <? ROUTE_SIZE)%nat then inl (bs "truncated route entry") else inr (dist_route_from_wire p, drop ROUTE_SIZE p).

Fixpoint get_entry_loop (count : nat) (target : nat) (p : bytes) : bytes + dist_route_entry :=
  match count with
  | O => inl (match p with [] => bs "route entry not found" | _ => bs "route payload has trailing bytes" end)
  | S count' =>
      match read_route_head p with
      | inl err => inl err
      | inr (f, p) =>
          let n := Z.to_nat (rf_host_len f) in
          if (rf_host_len f =? 0) || (NI_MAXHOST <=? rf_host_len f) || (Z.of_nat (length p) <? rf_host_len f) then inl (bs "invalid route host length")
          else if dist_bytes_have_nul (take n p) then inl (bs "route host contains NUL bytes")
          else
            match target with
            | O => inr (DistRoute (take n p) (rf_port f) (rf_layer_start f) (rf_layer_end f) (rf_flags f) (-1))
            | S target' => get_entry_loop count' target' (drop n p)
            end
      end
  end.

Definition dist_route_get_entry (blob : option bytes) (route_count target_index : Z) : bytes + dist_route_entry :=
  match blob with
  | None => inl (bs "invalid route entry index")
  | Some p =>
      if route_count <=? target_index then inl (bs "invalid route entry index")
      else get_entry_loop (Z.to_nat route_count) (Z.to_nat target_index) p
  end.

(** Past the entries; the host lengths are only compared with what is left. *)
Fixpoint skip_entries (count : nat) (p : bytes) : bytes + bytes :=
  match count with
  | O => inr p
  | S count' =>
      match read_route_head p with
      | inl err => inl err
      | inr (f, p) =>
          let n := Z.to_nat (rf_host_len f) in
          if Z.of_nat (length p) <? rf_host_len f then inl (bs "invalid route host length")
          else if dist_bytes_have_nul (take n p) then inl (bs "route host contains NUL bytes")
          else skip_entries count' (drop n p)
      end
  end.

(** The kind, the host and the port of the final destination. *)
Definition dist_route_get_return_target (blob : option bytes) (route_count : Z) : bytes + Z * bytes * Z :=
  match blob with
  | None => inl (bs "invalid route final destination")
  | Some p =>
      if route_count =? 0 then inl (bs "invalid route final destination")
      else
        match skip_entries (Z.to_nat route_count) p with
        | inl err => inl err
        | inr p =>
            if (length p <? RETURN_SIZE)%nat then inl (bs "route payload missing final destination")
            else
              let f := dist_route_return_from_wire p in
              let p := drop RETURN_SIZE p in
              let n := Z.to_nat (rr_host_len f) in
              if (NI_MAXHOST <=? rr_host_len f) || (Z.of_nat (length p) <? rr_host_len f) then inl (bs "invalid route final destination host length")
              else if dist_bytes_have_nul (take n p) then inl (bs "route final destination host contains NUL bytes")
              else if negb (length (drop n p) =? 0)%nat then inl (bs "route payload has trailing bytes")
              else inr (rr_kind f, take n p, rr_port f)
        end
  end.

(** The checks of one entry of a route. *)
Definition check_entry (n_layers : Z) (first : bool) (prev_end : Z) (f : dist_route_fixed) (p : bytes) : option bytes :=
  if (rf_host_len f =? 0) || (NI_MAXHOST <=? rf_host_len f) || (Z.of_nat (length p) <? rf_host_len f) then Some (bs "invalid route host length")
  else if dist_bytes_have_nul (take (Z.to_nat (rf_host_len f)) p) then Some (bs "route host contains NUL bytes")
  else if (rf_port f =? 0) || (65535 <? rf_port f) then Some (bs "invalid route port")
  else if (n_layers <=? rf_layer_start f) || (n_layers <=? rf_layer_end f) || (rf_layer_end f <? rf_layer_start f) then Some (bs "invalid route layer range")
  else if negb (Z.land (rf_flags f) (Z.lxor UINT32_MAX DS4_DIST_ROUTE_F_OUTPUT_LOGITS) =? 0) then Some (bs "invalid route flags")
  else if negb (Z.land (rf_flags f) DS4_DIST_ROUTE_F_OUTPUT_LOGITS =? 0) && negb (u32 (rf_layer_end f + 1) =? n_layers)
  then Some (bs "route logits require final layer")
  else if negb first && negb (rf_layer_start f =? u32 (prev_end + 1)) then Some (bs "route layer ranges are not contiguous")
  else None.

Fixpoint validate_entries (count : nat) (n_layers : Z) (first : bool) (prev_end : Z) (p : bytes) : bytes + bytes :=
  match count with
  | O => inr p
  | S count' =>
      match read_route_head p with
      | inl err => inl err
      | inr (f, p) =>
          match check_entry n_layers first prev_end f p with
          | Some err => inl err
          | None => validate_entries count' n_layers false (rf_layer_end f) (drop (Z.to_nat (rf_host_len f)) p)
          end
      end
  end.

Definition dist_route_validate_blob (blob : option bytes) (route_bytes route_count n_layers : Z) : option bytes :=
  if route_count =? 0 then (if route_bytes =? 0 then None else Some (bs "route payload has entries without a route count"))
  else
    match blob with
    | None => Some (bs "route payload is missing")
    | Some p =>
        match validate_entries (Z.to_nat route_count) n_layers true UINT32_MAX p with
        | inl err => Some err
        | inr p =>
            if (length p <? RETURN_SIZE)%nat then Some (bs "route payload missing final destination")
            else
              let f := dist_route_return_from_wire p in
              let p := drop RETURN_SIZE p in
              if (NI_MAXHOST <=? rr_host_len f) || (Z.of_nat (length p) <? rr_host_len f) then Some (bs "invalid route final destination host length")
              else if dist_bytes_have_nul (take (Z.to_nat (rr_host_len f)) p) then Some (bs "route final destination host contains NUL bytes")
              else if negb (rr_kind f =? DS4_DIST_ROUTE_RETURN_UPSTREAM) then Some (bs "unsupported route final destination")
              else if negb (rr_host_len f =? 0) || negb (rr_port f =? 0) then Some (bs "invalid upstream route final destination")
              else if negb (length (drop (Z.to_nat (rr_host_len f)) p) =? 0)%nat then Some (bs "route payload has trailing bytes")
              else None
        end
    end.
