(* ===== verification/DistRouteProps.v ===== *)
(** * Routes over workers: theorems

    The registry holds workers that fit the model; the search finds a chain of workers
    exactly when there is one; and every worker of a route reads from it what the
    coordinator wrote. *)
From Stdlib Require Import Sorting.Sorted.
From S2P Require Import Prelude CLib Strtod KvHeader Http DistWire DistRoute.

(** ** Words *)

Lemma be32_get v rest : is_u32 v → get_be32 (be32 v ++ rest) = v.
Proof. exact (le_get32_put32 v rest). Qed.

Lemma be32_length v : length (be32 v) = 4%nat.
Proof. done. Qed.

Lemma wire_words_length l : length (wire_words l) = (4 * length l)%nat.
Proof. unfold wire_words. induction l as [|v l IH]; [done|]. cbn [mbind list_bind]. rewrite length_app, IH, be32_length. cbn [length]. lia. Qed.

(** A word of a record is read back, whatever follows the record. *)
Lemma word_at_words l : ∀ i rest v, l !! i = Some v → is_u32 v → word_at (wire_words l ++ rest) i = v.
Proof.
  unfold word_at, wire_words. induction l as [|x l IH]; intros [|i] rest v Hl Hv; [done|done| |].
  - injection Hl as ->. cbn [mbind list_bind]. rewrite Nat.mul_0_r, drop_0, <- app_assoc. by apply be32_get.
  - cbn [mbind list_bind]. rewrite <- app_assoc. replace (4 * S i)%nat with (length (be32 x) + 4 * i)%nat by (rewrite be32_length; lia).
    rewrite <- drop_drop, drop_app_length. by apply IH.
Qed.

Ltac read_words := repeat match goal with |- context [word_at (wire_words ?l ++ ?rest) ?i] => rewrite (word_at_words l i rest _ eq_refl) by done end.

Lemma hello_wire h rest : Forall is_u32 [he_model_id h; he_quant_bits h; he_layer_start h; he_layer_end h; he_has_output h; he_has_hidden h; he_ctx_size h; he_n_layers h;
    he_listen_port h; he_model_name_len h] → dist_hello_from_wire (dist_hello_to_wire h ++ rest) = h.
Proof.
  intros H. repeat (apply Forall_cons in H as [? H]). unfold dist_hello_from_wire, dist_hello_to_wire. cbn zeta. read_words. by destruct h.
Qed.

(** ** The search *)

Lemma filter_le {A} (P Q : A → Prop) `{!∀ x, Decision (P x)} `{!∀ x, Decision (Q x)} (l : list A) : (∀ y, P y → Q y) → (length (filter P l) <= length (filter Q l))%nat.
Proof. intros HPQ. induction l as [|y l IH]; [done|]. rewrite !filter_cons. repeat case_decide; cbn [length]; naive_solver lia. Qed.

Lemma filter_shorter {A} (P Q : A → Prop) `{!∀ x, Decision (P x)} `{!∀ x, Decision (Q x)} x (l : list A) : (∀ y, P y → Q y) → x ∈ l → ¬ P x → Q x →
  (length (filter P l) < length (filter Q l))%nat.
Proof.
  intros HPQ Hx HP HQ. induction l as [|y l IH]; [by apply elem_of_nil in Hx|]. rewrite !filter_cons. pose proof (filter_le P Q l HPQ) as Hle. apply elem_of_cons in Hx as [->|Hx].
  - rewrite decide_False, decide_True by done. cbn [length]. lia.
  - specialize (IH Hx). repeat case_decide; cbn [length]; naive_solver lia.
Qed.

(** The workers a coordinator accepts. *)
Definition host_ok (host : bytes) : Prop := host ≠ [] ∧ Z.of_nat (length host) < NI_MAXHOST ∧ dist_bytes_have_nul host = false.

Record worker_wf (st : dist_coordinator) (w : dist_worker_entry) : Prop := {
  ww_range : 0 <= we_layer_start w <= we_layer_end w;
  ww_end : we_layer_end w < cd_n_layers st;
  ww_output : we_has_output w = 0 ∨ we_has_output w = 1 ∧ we_layer_end w + 1 = cd_n_layers st;
  ww_hidden : we_has_hidden w = 0 ∨ we_has_hidden w = 1;
  ww_port : 0 < we_listen_port w <= 65535;
  ww_host : host_ok (we_peer_host w);
  ww_model : we_model_id w = cd_model_id st ∧ we_model_name w = cd_model_name st;
  ww_ctx : cd_ctx_size st = 0 ∨ cd_ctx_size st <= we_ctx_size w;
}.

Section search.
Context (st : dist_coordinator) (last : Z).

(** A chain of workers from a layer to the last one. *)
Inductive chain : Z → list dist_worker_entry → Prop :=
  | chain_last w : dist_worker_route_candidate_ok st w last = true → last <= we_layer_end w → chain (we_layer_start w) [w]
  | chain_cons w path : dist_worker_route_candidate_ok st w last = true → we_layer_end w < last → chain (we_layer_end w + 1) path → chain (we_layer_start w) (w :: path).

Lemma chain_head next w path : chain next (w :: path) → we_layer_start w = next.
Proof. intros Hc. by inversion Hc; subst. Qed.

Context (W : list dist_worker_entry) (HW : Forall (λ w, 0 <= we_layer_start w <= we_layer_end w ∧ we_layer_end w < 2 ^ 32 - 1) W).
Context (HS : StronglySorted (λ a b, we_layer_start a <= we_layer_start b) W).

Definition found (next : Z) (res : option (list dist_worker_entry)) : Prop :=
  match res with
  | Some path => chain next path ∧ path ⊆ W
  | None => ∀ path, chain next path → path ⊆ W → False
  end.

Lemma next_layer w : w ∈ W → u32 (we_layer_end w + 1) = we_layer_end w + 1.
Proof. intros Hw. rewrite Forall_forall in HW. apply HW in Hw. apply u32_small. unfold is_u32. lia. Qed.

(** The loop, when the search from the layers after it is right. *)
Lemma search_loop_spec child next : (∀ w, w ∈ W → we_layer_start w = next → we_layer_end w < last → ∃ res m, child (u32 (we_layer_end w + 1)) = Some (res, m) ∧ found (we_layer_end w + 1) res) →
  ∀ l saw missing, l ⊆ W → StronglySorted (λ a b, we_layer_start a <= we_layer_start b) l →
  ∃ res m, search_loop st last child next l saw missing = Some (res, m)
    ∧ match res with
      | Some path => chain next path ∧ path ⊆ W
      | None => ∀ w path, w ∈ l → chain next (w :: path) → path ⊆ W → False
      end.
Proof.
  intros Hchild. induction l as [|w l IH]; intros saw missing Hl Hsort; cbn [search_loop].
  { eexists _, _. split; [done|]. cbn. intros w path Hw. by apply elem_of_nil in Hw. }
  apply StronglySorted_inv in Hsort as [Hsort Hmin]. assert (Hin : w ∈ W) by set_solver. assert (Hl' : l ⊆ W) by set_solver.
  assert (Hskip : ∀ saw missing, (∀ path, chain next (w :: path) → path ⊆ W → False) → ∃ res m, search_loop st last child next l saw missing = Some (res, m)
    ∧ match res with Some path => chain next path ∧ path ⊆ W | None => ∀ w' path, w' ∈ w :: l → chain next (w' :: path) → path ⊆ W → False end).
  { intros saw' missing' Hw. destruct (IH saw' missing' Hl' Hsort) as (res & m & -> & Hres). eexists _, _. split; [done|]. destruct res; [done|].
    intros w' path [->|Hw']%elem_of_cons Hc Hp; [by eapply Hw|by eapply Hres]. }
  destruct (Z.ltb_spec (we_layer_start w) next); [apply Hskip; intros path Hc%chain_head _; lia|].
  destruct (Z.ltb_spec next (we_layer_start w)).
  { eexists _, _. split; [done|]. cbn. intros w' path Hw' Hc. assert (we_layer_start w <= we_layer_start w').
    { apply elem_of_cons in Hw' as [->|Hw']; [lia|]. rewrite Forall_forall in Hmin. by apply Hmin. }
    intros _. apply chain_head in Hc. lia. }
  assert (Hn : we_layer_start w = next) by lia. destruct (dist_worker_route_candidate_ok st w last) eqn:Eok; cbn [negb].
  2:{ apply Hskip. intros path Hc _. inversion Hc; subst; congruence. }
  destruct (Z.leb_spec last (we_layer_end w)).
  { eexists _, _. split; [done|]. cbn. split; [rewrite <- Hn; by apply chain_last|set_solver]. }
  destruct (Hchild w Hin Hn) as (res & m & -> & Hres); [lia|]. destruct res as [path|].
  - eexists _, _. split; [done|]. destruct Hres as [Hc Hp]. split; [rewrite <- Hn; apply chain_cons; [done|lia|done]|set_solver].
  - apply Hskip. intros path Hc Hp. inversion Hc as [w' ? Hge|w' p ? ? Hc']; subst; [lia|]. by eapply Hres.
Qed.

(** Workers that start at a layer or after it. *)
Definition from (next : Z) : list dist_worker_entry := filter (λ w, next <= we_layer_start w) W.

Lemma from_smaller w : w ∈ W → (length (from (we_layer_end w + 1)) < length (from (we_layer_start w)))%nat.
Proof.
  intros Hw. rewrite Forall_forall in HW. pose proof (HW w Hw) as [Hr _]. apply (filter_shorter _ _ w); [intros y; lia|done|lia|lia].
Qed.

Lemma search_spec fuel : ∀ next missing, (length (from next) < fuel)%nat → ∃ res m, dist_route_search_workers st W last fuel next missing = Some (res, m) ∧ found next res.
Proof.
  induction fuel as [|fuel IH]; intros next missing Hf; [lia|]. cbn [dist_route_search_workers].
  destruct (search_loop_spec (λ n, dist_route_search_workers st W last fuel n n) next) with (l := W) (saw := false) (missing := missing) as (res & m & -> & Hres).
  - intros w Hw <- Hlt. rewrite next_layer by done. apply IH. pose proof (from_smaller w Hw). lia.
  - done.
  - done.
  - eexists _, _. split; [done|]. destruct res as [path|]; [done|]. intros path Hc Hp. assert (Hc' := Hc). inversion Hc as [w ? ?|w p ? ? ?]; subst; (eapply Hres; [|exact Hc'|]; set_solver).
Qed.

(** The chain goes up, so that it has no worker twice and fits the array of the path. *)
Lemma chain_length next path : chain next path → path ⊆ W → (length path <= length W)%nat.
Proof.
  intros Hc Hp. apply submseteq_length, NoDup_submseteq; [|done]. assert (Hlow : ∀ next path, chain next path → path ⊆ W → Forall (λ w, next <= we_layer_start w) path ∧ NoDup path).
  { clear next path Hc Hp. intros next path Hc. induction Hc as [w|w path Hok Hlt Hc IH]; intros Hp.
    - split; [by repeat constructor|apply NoDup_singleton].
    - destruct IH as [Hf Hnd]; [set_solver|]. rewrite Forall_forall in HW. assert (Hw : w ∈ W) by set_solver. pose proof (HW w Hw) as [Hr _]. split.
      + constructor; [lia|]. eapply Forall_impl; [exact Hf|]. intros x Hx. cbn in Hx. lia.
      + apply NoDup_cons. split; [|done]. intros Hin. rewrite Forall_forall in Hf. apply Hf in Hin. lia. }
  by apply (Hlow next path).
Qed.
End search.

(** ** The route on the wire *)

Record route_entry_ok (e : dist_route_entry) : Prop := {
  ro_host : host_ok (re_host e);
  ro_port : 0 < re_port e <= 65535;
  ro_range : 0 <= re_layer_start e <= re_layer_end e;
  ro_flags : re_flags e = 0 ∨ re_flags e = DS4_DIST_ROUTE_F_OUTPUT_LOGITS;
}.

Definition fixed_of (e : dist_route_entry) : dist_route_fixed :=
  DistRouteFixed (Z.of_nat (length (re_host e))) (re_port e) (re_layer_start e) (re_layer_end e) (re_flags e).
Definition entry_bytes (e : dist_route_entry) : bytes := dist_route_to_wire (fixed_of e) ++ re_host e.

(** The entry as a worker has it, without a connection. *)
Definition unbound (e : dist_route_entry) : dist_route_entry := DistRoute (re_host e) (re_port e) (re_layer_start e) (re_layer_end e) (re_flags e) (-1).

Lemma read_head_entry e rest : route_entry_ok e → re_layer_end e < 2 ^ 32 → read_route_head (entry_bytes e ++ rest) = inr (fixed_of e, re_host e ++ rest).
Proof.
  intros [(Hne & Hlen & _) Hport Hr Hf] Hend. unfold NI_MAXHOST in Hlen. unfold read_route_head, entry_bytes, dist_route_to_wire. rewrite !length_app, wire_words_length.
  destruct (Nat.ltb_spec (4 * length [rf_host_len (fixed_of e); rf_port (fixed_of e); rf_layer_start (fixed_of e); rf_layer_end (fixed_of e); rf_flags (fixed_of e)] + length (re_host e) + length rest) ROUTE_SIZE) as [Hlt|_].
  { unfold ROUTE_SIZE in Hlt. cbn [length] in Hlt. lia. }
  assert (H1 : is_u32 (re_flags e)) by (unfold is_u32; destruct Hf as [->| ->]; unfold DS4_DIST_ROUTE_F_OUTPUT_LOGITS; lia).
  assert (H2 : is_u32 (Z.of_nat (length (re_host e))) ∧ is_u32 (re_port e) ∧ is_u32 (re_layer_start e) ∧ is_u32 (re_layer_end e)) by (unfold is_u32; lia). destruct H2 as (? & ? & ? & ?).
  rewrite <- !app_assoc. rewrite drop_app_exact by apply wire_words_length. do 2 f_equal.
  unfold dist_route_from_wire, fixed_of. cbn zeta. cbn [rf_host_len rf_port rf_layer_start rf_layer_end rf_flags]. by read_words.
Qed.

Lemma host_checks host (rest : bytes) : host_ok host → let n := Z.of_nat (length host) in
  ((n =? 0) || (NI_MAXHOST <=? n) || (Z.of_nat (length (host ++ rest)) <? n)) = false ∧ dist_bytes_have_nul (take (Z.to_nat n) (host ++ rest)) = false
  ∧ take (Z.to_nat n) (host ++ rest) = host ∧ drop (Z.to_nat n) (host ++ rest) = rest.
Proof.
  intros (Hne & Hlen & Hnul). cbn zeta. rewrite Nat2Z.id, take_app_length, drop_app_length, length_app. split_and!; try done.
  rewrite !orb_false_iff, Z.eqb_neq, Z.leb_gt, Z.ltb_ge. destruct host; [done|]. cbn [length] in *. lia.
Qed.

Section blob.
Context (entries : list dist_route_entry) (Hok : Forall (λ e, route_entry_ok e ∧ re_layer_end e < 2 ^ 32) entries).

Lemma get_entry_blob : ∀ i e rest, entries !! i = Some e → get_entry_loop (length entries) i ((entries ≫= entry_bytes) ++ rest) = inr (unbound e).
Proof.
  induction Hok as [|e0 l [He Hend] Hl IH]; intros i e rest Hi; [done|]. cbn [length mbind list_bind get_entry_loop]. rewrite <- app_assoc, read_head_entry by done.
  destruct (host_checks (re_host e0) ((l ≫= entry_bytes) ++ rest)) as (H1 & H2 & H3 & H4); [apply He|]. cbn [fixed_of rf_host_len rf_port rf_layer_start rf_layer_end rf_flags].
  rewrite H1, H2, H3, H4. destruct i as [|i]; [by injection Hi as ->|]. by apply IH.
Qed.

Lemma skip_entries_blob : ∀ rest, skip_entries (length entries) ((entries ≫= entry_bytes) ++ rest) = inr rest.
Proof.
  induction Hok as [|e0 l [He Hend] Hl IH]; intros rest; [done|]. cbn [length mbind list_bind skip_entries]. rewrite <- app_assoc, read_head_entry by done.
  destruct (host_checks (re_host e0) ((l ≫= entry_bytes) ++ rest)) as (H1 & H2 & H3 & H4); [apply He|]. cbn [fixed_of rf_host_len].
  apply orb_false_iff in H1 as [_ H1]. rewrite H1, H2, H4. by apply IH.
Qed.

(** Each entry starts after the one before, and only one that ends with the last layer
    has the output head. *)
Fixpoint contiguous (n_layers : Z) (next : Z) (l : list dist_route_entry) : Prop :=
  match l with
  | [] => True
  | e :: l' => re_layer_start e = next ∧ re_layer_end e < n_layers ∧ (re_flags e = 0 ∨ re_layer_end e + 1 = n_layers) ∧ contiguous n_layers (re_layer_end e + 1) l'
  end.

Lemma validate_entries_blob n_layers : n_layers < 2 ^ 32 → ∀ first prev_end rest, (first = false → 0 <= prev_end < n_layers) →
  contiguous n_layers (if first then match entries with e :: _ => re_layer_start e | [] => 0 end else prev_end + 1) entries →
  validate_entries (length entries) n_layers first prev_end ((entries ≫= entry_bytes) ++ rest) = inr rest.
Proof.
  intros Hn. induction Hok as [|e0 l [He Hend] Hl IH]; intros first prev_end rest Hprev Hc; [done|]. destruct Hc as (Hs & He2 & Hout & Hc).
  cbn [length mbind list_bind validate_entries]. rewrite <- app_assoc, read_head_entry by done. destruct (host_checks (re_host e0) ((l ≫= entry_bytes) ++ rest)) as (H1 & H2 & H3 & H4); [apply He|].
  destruct He as [Hh Hp Hr Hf]. assert (Hcheck : check_entry n_layers first prev_end (fixed_of e0) (re_host e0 ++ (l ≫= entry_bytes) ++ rest) = None).
  { unfold check_entry. cbn [fixed_of rf_host_len rf_port rf_layer_start rf_layer_end rf_flags]. rewrite H1, H2.
    assert (E1 : ((re_port e0 =? 0) || (65535 <? re_port e0)) = false) by (rewrite orb_false_iff, Z.eqb_neq, Z.ltb_ge; lia).
    assert (E2 : ((n_layers <=? re_layer_start e0) || (n_layers <=? re_layer_end e0) || (re_layer_end e0 <? re_layer_start e0)) = false) by (rewrite !orb_false_iff, !Z.leb_gt, Z.ltb_ge; lia).
    rewrite E1, E2. rewrite u32_small by (unfold is_u32; lia).
    assert (E3 : (Z.land (re_flags e0) (Z.lxor UINT32_MAX DS4_DIST_ROUTE_F_OUTPUT_LOGITS) =? 0) = true) by (destruct Hf as [->| ->]; reflexivity). rewrite E3. cbn [negb].
    assert (E4 : negb (Z.land (re_flags e0) DS4_DIST_ROUTE_F_OUTPUT_LOGITS =? 0) && negb (re_layer_end e0 + 1 =? n_layers) = false).
    { destruct Hout as [->|Ho]; [done|]. rewrite (proj2 (Z.eqb_eq _ _) Ho). apply andb_false_r. }
    rewrite E4. destruct first; [done|]. cbn [negb andb]. specialize (Hprev eq_refl). rewrite u32_small by (unfold is_u32; lia). rewrite (proj2 (Z.eqb_eq _ _) Hs). done. }
  rewrite Hcheck. cbn [fixed_of rf_host_len rf_layer_end]. rewrite H4. apply IH; [done|lia|done].
Qed.
End blob.

(** ** An order for [qsort] *)

Fixpoint insert_by {A} (cmp : A → A → Z) (x : A) (l : list A) : list A :=
  match l with [] => [x] | y :: l' => if cmp x y <=? 0 then x :: l else y :: insert_by cmp x l' end.

Lemma insert_by_perm {A} (cmp : A → A → Z) x l : insert_by cmp x l ≡ₚ x :: l.
Proof. induction l as [|y l IH]; [done|]. cbn. case_match; [done|]. rewrite IH. apply Permutation_swap. Qed.

Lemma insert_by_sorted {A} (cmp : A → A → Z) x l : (∀ a b, a ∈ x :: l → b ∈ x :: l → cmp a b <= 0 ∨ cmp b a <= 0) →
  (∀ a b c, a ∈ x :: l → b ∈ x :: l → c ∈ x :: l → cmp a b <= 0 → cmp b c <= 0 → cmp a c <= 0) →
  StronglySorted (λ a b, cmp a b <= 0) l → StronglySorted (λ a b, cmp a b <= 0) (insert_by cmp x l).
Proof.
  intros Ht Htr Hs. induction Hs as [|y l Hs IH Hf]; [by repeat constructor|]. cbn. destruct (Z.leb_spec (cmp x y) 0).
  - constructor; [by constructor|]. constructor; [done|]. rewrite Forall_forall in Hf |- *. intros z Hz. apply (Htr x y z); [set_solver..|done|by apply Hf].
  - constructor.
    + apply IH; [intros a b Ha Hb; apply Ht; set_solver|intros a b c Ha Hb Hc; apply Htr; set_solver].
    + apply Forall_forall. intros z Hz. rewrite insert_by_perm in Hz. apply elem_of_cons in Hz as [->|Hz].
      * destruct (Ht x y); [set_solver|set_solver|lia|done].
      * rewrite Forall_forall in Hf. by apply Hf.
Qed.

#[export] Program Instance insertion_sort : Qsort := {| qsort A cmp l := foldr (insert_by cmp) [] l |}.
Next Obligation. intros A cmp l. induction l as [|x l IH]; [done|]. cbn. by rewrite insert_by_perm, IH. Qed.
Next Obligation.
  intros A cmp l Ht Htr. assert (Hp : ∀ l : list A, foldr (insert_by cmp) [] l ≡ₚ l) by (intros k; induction k as [|x k IH]; [done|]; cbn; by rewrite insert_by_perm, IH).
  induction l as [|x l IH]; [constructor|]. cbn. apply insert_by_sorted.
  - intros a b Ha Hb. rewrite (Hp l) in Ha, Hb. by apply Ht.
  - intros a b c Ha Hb Hc. rewrite (Hp l) in Ha, Hb, Hc. by apply Htr.
  - apply IH; [intros a b Ha Hb; apply Ht; set_solver|intros a b c Ha Hb Hc; apply Htr; set_solver].
Qed.

Lemma sorted_impl {A} (R S : A → A → Prop) l : (∀ a b, R a b → S a b) → StronglySorted R l → StronglySorted S l.
Proof. intros HRS Hs. induction Hs; constructor; [done|]. eapply Forall_impl; [eassumption|]. auto. Qed.

Lemma cmp_start a b : dist_worker_route_cmp a b <= 0 → we_layer_start a <= we_layer_start b.
Proof. unfold dist_worker_route_cmp. repeat case_if; bool_to_prop; lia. Qed.

Lemma sorted_workers `{!Qsort} st l : Forall (worker_wf st) l → StronglySorted (λ a b, we_layer_start a <= we_layer_start b) (qsort dist_worker_route_cmp l).
Proof.
  intros Hl. rewrite Forall_forall in Hl. assert (Ho : ∀ a, a ∈ l → we_has_output a = 0 ∨ we_has_output a = 1) by (intros a Ha; destruct (ww_output _ _ (Hl a Ha)) as [?|[? _]]; auto).
  eapply sorted_impl; [|apply qsort_sorted].
  - intros a b. apply cmp_start.
  - intros a b Ha Hb. specialize (Ho a Ha) as Ho1. specialize (Ho b Hb) as Ho2. unfold dist_worker_route_cmp. repeat case_if; bool_to_prop; lia.
  - intros a b c Ha Hb Hc. specialize (Ho a Ha) as Ho1. specialize (Ho b Hb) as Ho2. specialize (Ho c Hc) as Ho3. unfold dist_worker_route_cmp. repeat case_if; bool_to_prop; lia.
Qed.

(** ** The plan *)

Section plan.
Context (st : dist_coordinator) (dup : Z → Z + bytes) (Hdup : ∀ fd, ∃ fd', dup fd = inl fd').

(** The entries of a route are those of its workers. *)
Definition describes (path : list dist_worker_entry) (entries : list dist_route_entry) : Prop := Forall2 (λ w e, unbound e = route_entry w (-1)) path entries.

Lemma entry_from_worker w e : worker_wf st w → unbound e = route_entry w (-1) → route_entry_ok e ∧ re_layer_end e < cd_n_layers st
  ∧ re_layer_start e = we_layer_start w ∧ re_layer_end e = we_layer_end w ∧ (re_flags e = 0 ∨ re_layer_end e + 1 = cd_n_layers st).
Proof.
  intros [Hr He Ho _ Hp Hh _ _] Hu. destruct e as [host port a b flags fd]. unfold unbound, route_entry in Hu. cbn in Hu. injection Hu as -> -> -> -> ->. cbn. split; [constructor; cbn|]; try done.
  - destruct (we_has_output w =? 0); [by left|by right].
  - split_and!; try done. destruct Ho as [->|[-> Ho]]; [by left|by right].
Qed.

Lemma plan_loop_spec : ∀ path plan, Forall (worker_wf st) path → Z.of_nat (length (rp_blob plan)) + Z.of_nat (length path) * 1044 <= UINT32_MAX →
  ∃ new, plan_loop st dup path plan = inr (DistPlan (rp_entries plan ++ new) (rp_blob plan ++ (new ≫= entry_bytes))) ∧ describes path new.
Proof.
  induction path as [|w path IH]; intros plan Hw Hsize; cbn [plan_loop].
  { exists []. cbn. rewrite !app_nil_r. destruct plan. split; [done|constructor]. }
  apply Forall_cons in Hw as [Hw Hpath]. cbn [length] in Hsize.
  assert (Hfd : ∃ fd, (if cd_use_control_for_work st && (length (rp_entries plan) =? 0)%nat
      then match dup (we_fd w) with inl fd => inr fd | inr e => inl (bs "failed to duplicate first-hop worker connection: " ++ e) end else inr (-1)) = inr fd :> bytes + Z).
  { case_match; [|by eexists]. destruct (Hdup (we_fd w)) as [fd ->]. by eexists. }
  destruct Hfd as [fd ->]. set (e := route_entry w fd). assert (Hu : unbound e = route_entry w (-1)) by done.
  destruct (entry_from_worker w e Hw Hu) as ([(Hne & Hlen & Hnul) _ _ _] & _). assert (Hlb : length (entry_bytes e) = (20 + length (re_host e))%nat).
  { unfold entry_bytes, dist_route_to_wire. by rewrite length_app, wire_words_length. }
  assert (Happ : dist_route_plan_append_blob (rp_blob plan) e = inr (rp_blob plan ++ entry_bytes e)).
  { unfold dist_route_plan_append_blob. unfold NI_MAXHOST in *. assert (length (re_host e) ≠ 0%nat) by (by destruct (re_host e)). unfold ROUTE_SIZE.
    rewrite (proj2 (orb_false_iff _ _)) by (rewrite Z.eqb_neq, Z.leb_gt; lia). rewrite (proj2 (orb_false_iff _ _)) by (rewrite !Z.ltb_ge; lia). done. }
  rewrite Happ. destruct (IH (DistPlan (rp_entries plan ++ [e]) (rp_blob plan ++ entry_bytes e)) Hpath) as (new & -> & Hd).
  { cbn [rp_blob]. rewrite length_app, Hlb. unfold NI_MAXHOST in *. lia. }
  exists (e :: new). cbn [rp_entries rp_blob mbind list_bind]. rewrite <- !app_assoc. split; [done|by constructor].
Qed.

Lemma describes_ok path entries : Forall (worker_wf st) path → describes path entries → cd_n_layers st < 2 ^ 32 →
  Forall (λ e, route_entry_ok e ∧ re_layer_end e < 2 ^ 32) entries ∧ Z.of_nat (length (entries ≫= entry_bytes)) <= Z.of_nat (length path) * 1044.
Proof.
  intros Hw Hd Hn. induction Hd as [|w e path entries Hu Hd IH]; [split; [constructor|done]|]. apply Forall_cons in Hw as [Hw Hpath]. destruct (IH Hpath) as [H1 H2].
  destruct (entry_from_worker w e Hw Hu) as (Hok & Hend & _). split; [constructor; [split; [done|lia]|done]|]. cbn [mbind list_bind length]. unfold entry_bytes at 1, dist_route_to_wire.
  rewrite !length_app, wire_words_length. cbn [length]. destruct Hok as [(_ & Hlen & _) _ _ _]. unfold NI_MAXHOST in Hlen. lia.
Qed.

Lemma chain_contiguous last next path entries : chain st last next path → Forall (worker_wf st) path → describes path entries → contiguous (cd_n_layers st) next entries.
Proof.
  intros Hc. revert entries. induction Hc as [w Hok Hge|w path Hok Hlt Hc IH]; intros entries Hw Hd; inversion Hd as [|? e ? l Hu Hl]; subst; apply Forall_cons in Hw as [Hw Hpath];
    destruct (entry_from_worker w e Hw Hu) as (_ & H1 & H2 & H3 & H4); cbn [contiguous]; (split_and!; [done|done|done|]).
  - inversion Hl; subst. done.
  - rewrite H3. by apply IH.
Qed.

(** What a worker reads from the route is what the coordinator wrote. *)
Definition route_readable (entries : list dist_route_entry) (blob : bytes) : Prop :=
  let count := Z.of_nat (length entries) in
  dist_route_validate_blob (Some blob) (Z.of_nat (length blob)) count (cd_n_layers st) = None
  ∧ (∀ i e, entries !! i = Some e → dist_route_get_entry (Some blob) count (Z.of_nat i) = inr (unbound e))
  ∧ dist_route_get_return_target (Some blob) count = inr (DS4_DIST_ROUTE_RETURN_UPSTREAM, [], 0).

Lemma route_readable_blob entries next : entries ≠ [] → cd_n_layers st < 2 ^ 32 → Forall (λ e, route_entry_ok e ∧ re_layer_end e < 2 ^ 32) entries → contiguous (cd_n_layers st) next entries →
  route_readable entries ((entries ≫= entry_bytes) ++ dist_route_return_to_wire (DistRouteReturn DS4_DIST_ROUTE_RETURN_UPSTREAM 0 0)).
Proof.
  intros Hne Hn Hok Hc. unfold route_readable. assert (Hcount : (Z.of_nat (length entries) =? 0) = false) by (apply Z.eqb_neq; destruct entries; [done|cbn; lia]).
  assert (Hret : dist_route_return_from_wire (dist_route_return_to_wire (DistRouteReturn DS4_DIST_ROUTE_RETURN_UPSTREAM 0 0)) = DistRouteReturn DS4_DIST_ROUTE_RETURN_UPSTREAM 0 0) by reflexivity.
  split_and!.
  - unfold dist_route_validate_blob. rewrite Hcount, Nat2Z.id, (validate_entries_blob entries Hok); [reflexivity|done|done|]. destruct entries; [done|]. destruct Hc as (<- & Hc). done.
  - intros i e Hi. unfold dist_route_get_entry. pose proof (lookup_lt_Some _ _ _ Hi). destruct (Z.leb_spec (Z.of_nat (length entries)) (Z.of_nat i)); [lia|]. rewrite !Nat2Z.id. by apply get_entry_blob.
  - unfold dist_route_get_return_target. rewrite Hcount, Nat2Z.id, skip_entries_blob by done. reflexivity.
Qed.

End plan.

(** ** The registry *)

Definition worker_key (w : dist_worker_entry) : bytes * Z * Z * Z := (we_peer_host w, we_layer_start w, we_layer_end w, we_has_output w).

Record registry_wf (st : dist_coordinator) : Prop := {
  rw_workers : Forall (worker_wf st) (cd_workers st);
  rw_keys : NoDup (worker_key <$> cd_workers st);
}.

(** The bytes that arrive are bytes. *)
Definition net_bytes (net : list net_event) : Prop := Forall (λ e, match e with NData d => Forall is_u8 d | _ => True end) net.

Lemma read_full_bytes : ∀ net len d net', net_bytes net → dist_read_full net len = FullOk d net' → Forall is_u8 d ∧ net_bytes net'.
Proof.
  induction net as [|ev net IH]; intros len d net' Hb; cbn [dist_read_full]; (destruct (len =? 0)%nat; [intros [= <- <-]; done|]); [done|].
  apply Forall_cons in Hb as [Hev Hb]. destruct ev as [[|c dd]| |]; [done| |by apply IH|done]. case_match.
  - destruct (dist_read_full net _) as [d2 net2| |] eqn:E; [|done|done]. intros [= <- <-]. destruct (IH _ _ _ Hb E) as [H1 H2]. split; [|done]. change (Forall is_u8 ((c :: dd) ++ d2)). by apply Forall_app.
  - intros [= <- <-]. split; [by apply Forall_take|]. constructor; [by apply Forall_drop|done].
Qed.

Lemma get_be32_range b : Forall is_u8 b → is_u32 (get_be32 b).
Proof.
  intros Hb. unfold get_be32. destruct b as [|b3 [|b2 [|b1 [|b0 r]]]]; try (unfold is_u32; lia). repeat (apply Forall_cons in Hb as [? Hb]). unfold is_u8, is_u32 in *.
  rewrite (lor_add b0), !(lor_add (_ + _)) by lia. lia.
Qed.

Lemma word_at_range b i : Forall is_u8 b → is_u32 (word_at b i).
Proof. intros Hb. apply get_be32_range. by apply Forall_drop. Qed.

(** A HELLO that the coordinator accepts is that of a worker that fits. *)
Lemma accepted_wf st fd host port net h name net' : host_ok host → net_bytes net → dist_recv_hello net = inr (h, name, net') → check_hello st h name = None → cd_n_layers st < 2 ^ 32 →
  worker_wf st (entry_of fd host port h name).
Proof.
  intros Hhost Hnet Hr Hc Hn. assert (Hw : ∀ b, Forall is_u8 b → h = dist_hello_from_wire b → is_u32 (he_layer_start h) ∧ is_u32 (he_layer_end h) ∧ is_u32 (he_has_output h) ∧ is_u32 (he_has_hidden h) ∧ is_u32 (he_listen_port h)).
  { intros b Hb ->. cbn. split_and!; by apply word_at_range. }
  assert (Hb : ∃ b, Forall is_u8 b ∧ h = dist_hello_from_wire b).
  { revert Hr. unfold dist_recv_hello, dist_read_frame_header. destruct (dist_read_full net HEADER_SIZE) as [b0 net0| |] eqn:E0; [|done|done]. apply read_full_bytes in E0 as [_ Hnet0]; [|done].
    destruct (negb _); [done|]. destruct (negb _); [done|]. destruct (_ || _); [done|].
    destruct (dist_read_full net0 HELLO_SIZE) as [b1 net1| |] eqn:E1; [|done|done]. apply read_full_bytes in E1 as [Hb1 _]; [|done]. destruct (_ || _); [done|].
    destruct (dist_read_full net1 _) as [b2 net2| |]; [|done|done]. destruct (dist_bytes_have_nul b2); [done|]. intros [= <- _ _]. by exists b1. }
  destruct Hb as (b & Hb & Eh). destruct (Hw b Hb Eh) as (U1 & U2 & U3 & U4 & U5). unfold is_u32 in *. revert Hc. unfold check_hello.
  destruct (negb (he_model_id h =? _)) eqn:C1; [done|]. destruct (negb (bytes_eqb _ _)) eqn:C2; [done|]. destruct (negb (he_n_layers h =? _)) eqn:C3; [done|].
  destruct (negb (he_quant_bits h =? _) && _); [done|]. destruct (1 <? he_has_output h) eqn:C4; [done|]. destruct (1 <? he_has_hidden h) eqn:C5; [done|].
  destruct (_ || _ || (he_layer_end h <? _)) eqn:C6; [done|]. destruct (negb (he_has_output h =? 0) && _) eqn:C7; [done|]. destruct (negb (cd_ctx_size st =? 0) && _) eqn:C8; [done|].
  destruct ((he_listen_port h =? 0) || _) eqn:C9; [done|]. intros _. apply negb_false_iff, bytes_eqb_eq in C2. apply andb_false_iff in C7, C8. bool_to_prop.
  constructor; cbn; try lia; try done.
  - destruct C7 as [C7|C7]; bool_to_prop; [by left|]. rewrite u32_small in C7 by (unfold is_u32; lia). lia.
Qed.

(** The registry changes when a worker says HELLO, when its connection ends, and when a
    route over it failed. *)
Inductive registry_step (st : dist_coordinator) : dist_coordinator → Prop :=
  | step_register fd host port net : host_ok host → net_bytes net → registry_step st (dist_register st fd host port net).2
  | step_remove fd : registry_step st (dist_coordinator_remove_worker st fd)
  | step_forget plan : registry_step st (dist_coordinator_forget_route_workers st plan).

Definition same_setup (a b : dist_coordinator) : Prop :=
  cd_model_id a = cd_model_id b ∧ cd_model_name a = cd_model_name b ∧ cd_n_layers a = cd_n_layers b ∧ cd_local_start a = cd_local_start b ∧ cd_local_end a = cd_local_end b ∧ cd_ctx_size a = cd_ctx_size b
  ∧ cd_local_has_output a = cd_local_has_output b ∧ cd_local_can_output_head a = cd_local_can_output_head b.

Lemma worker_wf_same a b w : same_setup a b → worker_wf a w → worker_wf b w.
Proof. intros (E1 & E2 & E3 & _ & _ & E4 & _) [? ? ? ? ? ? ? ?]. constructor; rewrite <- ?E1, <- ?E2, <- ?E3, <- ?E4; done. Qed.

Lemma set_workers_setup l st : same_setup st (set_workers l st).
Proof. done. Qed.

Lemma registry_sublist st l : l `sublist_of` cd_workers st → registry_wf st → registry_wf (set_workers l st).
Proof.
  intros Hl [H1 H2]. constructor; cbn.
  - rewrite Forall_forall in H1 |- *. intros w Hw. apply (worker_wf_same st); [done|]. apply H1. by eapply elem_of_sublist.
  - eapply sublist_NoDup; [exact H2|]. by apply fmap_sublist.
Qed.

Lemma remove_first_sublist f l : ∀ l', remove_first f l = Some l' → l' `sublist_of` l.
Proof.
  induction l as [|w l IH]; intros l'; cbn; [done|]. case_match; [intros [= <-]; by constructor|]. destruct (remove_first f l) as [l2|]; [|done]. cbn. intros [= <-]. constructor. by apply IH.
Qed.

Lemma forget_loop_sublist entries : ∀ l b l' b', forget_loop entries l b = (l', b') → l' `sublist_of` l.
Proof.
  induction entries as [|e entries IH]; intros l b l' b'; cbn; [intros [= <- _]; done|]. destruct (remove_first _ l) as [l2|] eqn:E; intros Hl; apply IH in Hl; [|done].
  etransitivity; [exact Hl|]. by eapply remove_first_sublist.
Qed.

Lemma filter_sublist {A} (f : A → bool) l : List.filter f l `sublist_of` l.
Proof. induction l as [|x l IH]; [done|]. cbn. case_match; by constructor. Qed.

Lemma registry_add st fd host port h name : registry_wf st → worker_wf st (entry_of fd host port h name) → registry_wf (dist_coordinator_add_worker st fd host port h name).
Proof.
  intros Hst Hw. unfold dist_coordinator_add_worker. case_match; [done|]. destruct (registry_sublist st _ (filter_sublist (λ old, negb (stale host h old)) _) Hst) as [H1 H2].
  constructor; cbn.
  - constructor; [by apply (worker_wf_same st)|]. eapply Forall_impl; [exact H1|]. intros w. by apply worker_wf_same.
  - constructor; [|exact H2]. intros (old & Hk & Hin)%list_elem_of_fmap. apply list_elem_of_In, filter_In in Hin as [Hin Hs]. apply negb_true_iff in Hs.
    apply list_elem_of_In in Hin. destruct Hst as [Hf _]. rewrite Forall_forall in Hf. pose proof (ww_model _ _ (Hf old Hin)) as [Hm _]. pose proof (ww_model _ _ Hw) as [Hm' _]. cbn in Hm'.
    unfold worker_key in Hk. cbn in Hk. injection Hk as K1 K2 K3 K4. unfold stale in Hs. rewrite <- K1, <- K2, <- K3, <- K4, Hm, Hm', bytes_eqb_refl, !Z.eqb_refl in Hs. done.
Qed.

(** Every change keeps the registry one of workers that fit, none twice. *)
Lemma registry_step_wf st st' : cd_n_layers st < 2 ^ 32 → registry_wf st → registry_step st st' → registry_wf st' ∧ same_setup st st'.
Proof.
  intros Hn Hst [fd host port net Hh Hnet|fd|plan].
  - unfold dist_register. destruct (dist_recv_hello net) as [rc|[[h name] net']] eqn:E; [done|]. destruct (check_hello st h name) eqn:Ec; [done|]. cbn [snd]. split.
    + apply registry_add; [done|]. by eapply accepted_wf.
    + unfold dist_coordinator_add_worker. by case_match.
  - unfold dist_coordinator_remove_worker. destruct (remove_first _ _) as [l|] eqn:E; [|done]. split; [|done]. apply registry_sublist; [by eapply remove_first_sublist|done].
  - unfold dist_coordinator_forget_route_workers. destruct (forget_loop _ _ _) as [l b] eqn:E. destruct b; [|done]. split; [|done]. apply registry_sublist; [by eapply forget_loop_sublist|done].
Qed.

(** A coordinator with its layers, before any worker. *)
Record coordinator_start (st : dist_coordinator) : Prop := {
  cs_workers : cd_workers st = [];
  cs_layers : 0 < cd_n_layers st < 2 ^ 32;
  cs_local : cd_local_start st = 0 ∧ 0 <= cd_local_end st < cd_n_layers st;
}.

Lemma registry_reachable st0 st : coordinator_start st0 → rtc registry_step st0 st → registry_wf st ∧ same_setup st0 st.
Proof.
  intros [Hw Hl _] Hr. assert (H0 : registry_wf st0) by (constructor; rewrite Hw; [done|apply NoDup_nil_2]). clear Hw. induction Hr as [|a b c Hs Hr IH]; [done|].
  destruct (registry_step_wf a b) as [Hb Hab]; [lia|done|done|]. pose proof Hab as (_ & _ & E & _). destruct IH as [Hc Hbc]; [rewrite <- E; lia|done|]. split; [done|].
  destruct Hab as (? & ? & ? & ? & ? & ? & ? & ?), Hbc as (? & ? & ? & ? & ? & ? & ? & ?). unfold same_setup. split_and!; congruence.
Qed.

(** What a coordinator with a well-formed registry finds. *)
Lemma plan_spec `{!Qsort} st dup : registry_wf st → 0 < cd_n_layers st < 2 ^ 32 → cd_local_start st = 0 → 0 <= cd_local_end st < cd_n_layers st → (∀ fd, ∃ fd', dup fd = inl fd') →
  Z.of_nat (length (cd_workers st)) * 1044 + 12 <= UINT32_MAX →
  let last := cd_n_layers st - 1 in
  let alone := (cd_local_end st =? last) && (cd_local_has_output st || cd_local_can_output_head st) in
  ∃ r, dist_coordinator_build_route_plan st dup = Some r
    ∧ match r with
      | inl _ => alone = false ∧ ∀ path, chain st last (cd_local_end st + 1) path → path ⊆ cd_workers st → False
      | inr (plan, generation) => generation = cd_generation st
          ∧ (alone = true ∧ plan = DistPlan [] []
             ∨ ∃ path, chain st last (cd_local_end st + 1) path ∧ path ⊆ cd_workers st ∧ (length path <= length (cd_workers st))%nat
                 ∧ describes path (rp_entries plan) ∧ route_readable st (rp_entries plan) (rp_blob plan))
      end.
Proof.
  intros [Hw _] Hn Hl0 Hl Hdup Hsize. cbn zeta.
  unfold dist_coordinator_build_route_plan. rewrite u32_small by (unfold is_u32; lia). rewrite Hl0. cbn [negb Z.eqb]. destruct (_ && _) eqn:Ea; [eexists; split; [done|]; split; [done|by left]|].
  rewrite u32_small by (unfold is_u32; lia). set (workers := qsort dist_worker_route_cmp (cd_workers st)). assert (Hperm : workers ≡ₚ cd_workers st) by apply qsort_perm.
  destruct (search_spec st (cd_n_layers st - 1) workers) with (fuel := S (length workers)) (next := cd_local_end st + 1) (missing := cd_local_end st + 1) as (res & m & -> & Hres).
  { rewrite Hperm. eapply Forall_impl; [exact Hw|]. intros w [Hr He _ _ _ _ _ _]. lia. }
  { by apply (sorted_workers st). }
  { unfold from. pose proof (length_filter (λ w, cd_local_end st + 1 <= we_layer_start w) workers). lia. }
  cbn [mbind option_bind]. eexists. split; [done|]. destruct res as [path|]; cbn [found] in Hres.
  2:{ split; [done|]. intros path Hc Hp. apply (Hres path Hc). intros x Hx. rewrite Hperm. by apply Hp. }
  destruct Hres as [Hc Hp]. assert (Hp' : path ⊆ cd_workers st) by (intros x Hx; rewrite <- Hperm; by apply Hp).
  assert (Hpw : Forall (worker_wf st) path) by (rewrite Forall_forall in Hw |- *; intros w Hin; apply Hw, Hp', Hin).
  assert (Hlen : (length path <= length (cd_workers st))%nat).
  { rewrite <- Hperm. eapply (chain_length st (cd_n_layers st - 1)); [|by apply (sorted_workers st)|exact Hc|done]. rewrite Hperm. eapply Forall_impl; [exact Hw|]. intros w [Hr He _ _ _ _ _ _]. lia. }
  destruct (plan_loop_spec st dup Hdup path (DistPlan [] []) Hpw) as (new & -> & Hd); [cbn [rp_blob length]; lia|]. cbn [rp_entries rp_blob app].
  assert (Hnew : new ≠ []) by (destruct Hc; by inversion Hd). destruct (Nat.eqb_spec (length new) 0); [by destruct new|].
  destruct (describes_ok st path new Hpw Hd) as [Hok Hb]; [lia|]. unfold dist_route_plan_append_return_upstream, RETURN_SIZE in *.
  match goal with |- context [?a <? ?b] => destruct (Z.ltb_spec a b) as [Hlt|_] end; [lia|]. split; [done|]. right. exists path. cbn [rp_entries rp_blob].
  split_and!; try done. eapply route_readable_blob; [done|lia|done|]. by eapply chain_contiguous.
Qed.

(** C39. A route over workers. Whatever workers came, went and failed before, the
    search ends. It finds a route exactly when a chain of registered workers covers the
    layers after those of the coordinator, each taking over where the one before ended
    and each able to give what the next one, the output head or the coordinator needs;
    the chain fits the array it is written to. The route that travels with the work
    passes the checks of every worker, each of which reads from it its own entry as the
    coordinator wrote it and that the result goes back upstream. *)
Theorem route_exact `{!Qsort} st0 st dup (Hstart : coordinator_start st0) (Hreach : rtc registry_step st0 st) (Hdup : ∀ fd, ∃ fd', dup fd = inl fd')
    (Hsize : Z.of_nat (length (cd_workers st)) * 1044 + 12 <= UINT32_MAX) :
  let last := cd_n_layers st - 1 in
  let alone := (cd_local_end st =? last) && (cd_local_has_output st || cd_local_can_output_head st) in
  ∃ r, dist_coordinator_build_route_plan st dup = Some r
    ∧ match r with
      | inl _ => alone = false ∧ ∀ path, chain st last (cd_local_end st + 1) path → path ⊆ cd_workers st → False
      | inr (plan, generation) => generation = cd_generation st
          ∧ (alone = true ∧ plan = DistPlan [] []
             ∨ ∃ path, chain st last (cd_local_end st + 1) path ∧ path ⊆ cd_workers st ∧ (length path <= length (cd_workers st))%nat
                 ∧ describes path (rp_entries plan) ∧ route_readable st (rp_entries plan) (rp_blob plan))
      end.
Proof.
  destruct (registry_reachable st0 st Hstart Hreach) as [Hwf (_ & _ & E3 & E4 & E5 & _)]. destruct Hstart as [_ Hn [Hl0 Hl]]. rewrite E3 in Hn, Hl. rewrite E4 in Hl0. rewrite E5 in Hl. by apply plan_spec.
Qed.

(** A coordinator with the first two of four layers, and the worker with the others. *)
Definition two_of_four : dist_coordinator :=
  DistCoordinator 7 (bs "glm") 4 0 1 0 false false true 32 0 [] false.
Definition last_two : dist_identity := DistIdentity 7 2 (bs "glm") 4 2 3 true 4096 9000.
Definition with_last_two : dist_coordinator := (dist_register two_of_four 5 (bs "10.0.0.2") (bs "4000") [NData (dist_send_hello last_two)]).2.

Example with_last_two_runs : (option_map (λ r, match r with inr (p, _) => length (rp_entries p) | inl _ => 0%nat end)
    (dist_coordinator_build_route_plan with_last_two inl)) = Some 1%nat.
Proof. vm_compute. reflexivity. Qed.

Lemma two_of_four_start : coordinator_start two_of_four.
Proof. constructor; vm_compute; done. Qed.

Lemma last_two_registers : rtc registry_step two_of_four with_last_two.
Proof.
  apply rtc_once. apply (step_register two_of_four 5 (bs "10.0.0.2") (bs "4000") [NData (dist_send_hello last_two)]).
  - split_and!; by vm_compute.
  - apply Forall_singleton. apply is_bytesb_ok. by vm_compute.
Qed.

(** Witness of C39. *)
Lemma route_exact_witness : ∃ r, dist_coordinator_build_route_plan with_last_two inl = Some r
    ∧ match r with
      | inl _ => false = false ∧ ∀ path, chain with_last_two 3 2 path → path ⊆ cd_workers with_last_two → False
      | inr (plan, generation) => generation = cd_generation with_last_two
          ∧ (false = true ∧ plan = DistPlan [] []
             ∨ ∃ path, chain with_last_two 3 2 path ∧ path ⊆ cd_workers with_last_two ∧ (length path <= length (cd_workers with_last_two))%nat
                 ∧ describes path (rp_entries plan) ∧ route_readable with_last_two (rp_entries plan) (rp_blob plan))
      end.
Proof.
  refine (route_exact two_of_four with_last_two inl two_of_four_start last_two_registers _ _).
  - intros fd. by exists fd.
  - by vm_compute.
Defined.
