(* ===== verification/DistSlice.v ===== *)
(** * Layer slices of a session

    [ds4_session_eval_layer_slice] of [engine/src/engine.c] with the GLM graph: the checks,
    the tokens the session stands at, the pieces a span is evaluated in and the length of
    the dense cache that a snapshot is written from. The kernels of the graph are the
    class [GlmKernels]. The fields of the speculative draft that a slice only clears are
    one flag, and the session is not the leader of a tensor-parallel group. *)
From S2P Require Import Prelude CLib Strtod.

(** What the graph and the loaded weights say. *)
Record glm_graph := GlmGraph {
  gg_ready : bool; gg_layer_start : Z; gg_layer_end : Z; gg_full_kv_cache : bool; gg_ctx_cap : Z; gg_compact_cache_cap : Z;
  gg_indexed_prefill_cap : Z; gg_indexed_prefill_score_cap : Z; gg_indexed_buffers : bool;
  gg_top_k : Z; gg_force_indexed_decode : bool; gg_disable_indexed_decode : bool;
}.

Record slice_engine := SliceEngine {
  se_cpu : bool; se_layers : Z; se_layers_bound : Z → Z → bool; se_token_embd : bool; se_output_head : bool;
  se_hidden : Z; se_vocab : Z; se_backend : bytes; se_rocm_token_decode : bool; se_graph : glm_graph;
}.

(** The forward passes of the graph: over the state of the caches, whether they worked,
    the new state, the hidden states and the logits, each if asked for. *)
Class GlmKernels := {
  kv_state : Type;
  glm_graph_forward_token : kv_state → Z → option (list Z) → Z → bool → bool → bool * kv_state * list Z * list Z;
  glm_graph_forward_tokens : kv_state → list Z → option (list Z) → Z → bool → bool → bool * kv_state * list Z * list Z;
  glm_graph_forward_indexed_tokens : kv_state → list Z → option (list Z) → Z → bool → bool → bool * kv_state * list Z * list Z;
  glm_graph_encode_output_head : kv_state → list Z → bool * kv_state * list Z;
  gpu_synchronize : kv_state → bool;
}.

Section slice.
Context `{!GlmKernels} (e : slice_engine).

Record slice_session := SliceSession {
  sl_checkpoint_valid : bool; sl_checkpoint : list Z; sl_dense_cache_len : Z; sl_draft_valid : bool; sl_kv : kv_state; sl_ctx_size : Z; sl_prefill_cap : Z;
}.

Definition set_dense (n : Z) (s : slice_session) : slice_session :=
  SliceSession (sl_checkpoint_valid s) (sl_checkpoint s) n (sl_draft_valid s) (sl_kv s) (sl_ctx_size s) (sl_prefill_cap s).
Definition set_kv (kv : kv_state) (s : slice_session) : slice_session :=
  SliceSession (sl_checkpoint_valid s) (sl_checkpoint s) (sl_dense_cache_len s) (sl_draft_valid s) kv (sl_ctx_size s) (sl_prefill_cap s).
Definition set_invalid (s : slice_session) : slice_session :=
  SliceSession false (sl_checkpoint s) (sl_dense_cache_len s) (sl_draft_valid s) (sl_kv s) (sl_ctx_size s) (sl_prefill_cap s).
Definition clear_draft (s : slice_session) : slice_session :=
  SliceSession (sl_checkpoint_valid s) (sl_checkpoint s) (sl_dense_cache_len s) false (sl_kv s) (sl_ctx_size s) (sl_prefill_cap s).

Abbreviation g := (se_graph e).

(** [ds4_session_invalidate] and the GLM branch of [ds4_session_layer_slice_reset]. *)
Definition ds4_session_layer_slice_reset (s : slice_session) : slice_session :=
  SliceSession false [] 0 false (sl_kv s) (sl_ctx_size s) (sl_prefill_cap s).

(** ** The dense cache *)

Definition ds4_session_glm_cap_dense_cache (s : slice_session) : slice_session :=
  if gg_ready g && negb (gg_full_kv_cache g) then set_dense 0 s
  else
    let cap := u32 (Z.of_nat (length (sl_checkpoint s))) in
    let cap := if gg_ready g && (gg_ctx_cap g <? cap) then gg_ctx_cap g else cap in
    if cap <? sl_dense_cache_len s then set_dense cap s else s.

Definition ds4_session_glm_note_dense_cache (s : slice_session) (pos0 n_tokens : Z) : slice_session :=
  if n_tokens =? 0 then s
  else if gg_ready g && negb (gg_full_kv_cache g) then s
  else if sl_dense_cache_len s <? pos0 then s
  else
    let fin := u32 (pos0 + n_tokens) in
    let fin := if fin <? pos0 then UINT32_MAX else fin in
    let fin := if gg_ready g && (gg_ctx_cap g <? fin) then gg_ctx_cap g else fin in
    ds4_session_glm_cap_dense_cache (set_dense fin s).

(** The rows of the full cache a snapshot is written with. *)
Definition session_glm_full_live_rows (checkpoint_len dense_cache_len : Z) : Z :=
  if negb (gg_full_kv_cache g) then 0
  else
    let rows := gg_ctx_cap g in
    let rows := if checkpoint_len <? rows then checkpoint_len else rows in
    if dense_cache_len <? rows then dense_cache_len else rows.

Definition glm_graph_decode_uses_indexed_attention (pos : Z) (logits_out : bool) : bool :=
  negb (gg_compact_cache_cap g =? 0)
  && (negb (gg_full_kv_cache g) || (gg_ctx_cap g <=? pos) || gg_force_indexed_decode g || (logits_out && negb (gg_disable_indexed_decode g))).
Definition glm_graph_decode_updates_dense_cache (pos : Z) (logits_out : bool) : bool :=
  (pos <? gg_ctx_cap g) && negb (glm_graph_decode_uses_indexed_attention pos logits_out).

(** ** Pieces *)

Definition glm_graph_indexed_prefill_batch_available : bool :=
  negb (gg_compact_cache_cap g =? 0) && negb (gg_indexed_prefill_cap g =? 0) && negb (gg_indexed_prefill_score_cap g =? 0) && gg_indexed_buffers g.
Definition glm_graph_indexed_prefill_batch_ready (pos : Z) : bool :=
  glm_graph_indexed_prefill_batch_available && (negb (gg_full_kv_cache g) || (gg_ctx_cap g <=? pos)).
Definition glm_graph_limit_indexed_prefill_chunk (pos chunk : Z) : Z :=
  let bridge := gg_top_k g - pos in if (pos <? gg_top_k g) && (bridge <? chunk) then bridge else chunk.

(** ** The timeline *)

Definition ds4_session_slice_check_timeline (s : slice_session) (n_tokens pos0 : Z) : option bytes :=
  if n_tokens =? 0 then Some (bs "invalid layer-slice token span")
  else if (INT_MAX <? pos0) || (INT_MAX <? n_tokens) || (u32 (sl_ctx_size s) <? pos0) || (u32 (sl_ctx_size s) - pos0 <? n_tokens)
  then Some (bs "layer-slice token span exceeds context")
  else if negb (sl_checkpoint_valid s) then
    if negb (pos0 =? 0) then Some (bs "layer-slice session needs reset before pos " ++ fmt_d pos0) else None
  else if negb (Z.of_nat (length (sl_checkpoint s)) =? pos0) then
    Some (bs "layer-slice KV position mismatch: have " ++ fmt_d (Z.of_nat (length (sl_checkpoint s))) ++ bs " want " ++ fmt_d pos0)
  else None.

Definition ds4_session_slice_commit_timeline (s : slice_session) (tokens : list Z) : slice_session :=
  SliceSession true (sl_checkpoint s ++ tokens) (sl_dense_cache_len s) false (sl_kv s) (sl_ctx_size s) (sl_prefill_cap s).

(** ** Evaluation *)

(** The results of a pass over some tokens: the session after it, [None] when the pass
    failed, and the number of tokens. *)
Definition slice_piece (s : slice_session) (rest : list Z) (pos : Z) (input : option (list Z)) (want_out want_logits : bool) : Z * slice_session * option (list Z * list Z) :=
  let remaining := Z.of_nat (length rest) in
  let pack (want_lg : bool) (r : bool * kv_state * list Z * list Z) :=
    let '(ok, kv, out, lg) := r in (set_kv kv s, if ok then Some (if want_out then out else [], if want_lg then lg else []) else None) in
  if (remaining =? 1) && (0 <? pos) && ((match input with None => negb want_out | Some _ => false end) || se_rocm_token_decode e) then
    let '(s, r) := pack want_logits (glm_graph_forward_token (sl_kv s) (hd0 rest) input pos want_out want_logits) in
    (1, if (match r with Some _ => true | None => false end) && glm_graph_decode_updates_dense_cache pos want_logits then ds4_session_glm_note_dense_cache s pos 1 else s, r)
  else if gg_full_kv_cache g && (pos <? gg_ctx_cap g) then
    let dense_remaining := gg_ctx_cap g - pos in
    let chunk := if dense_remaining <? remaining then dense_remaining else remaining in
    let want_lg := want_logits && (chunk =? remaining) in
    let '(s, r) := pack want_lg (glm_graph_forward_tokens (sl_kv s) (take (Z.to_nat chunk) rest) (take (Z.to_nat (chunk * se_hidden e)) <$> input) pos want_out want_lg) in
    (chunk, if match r with Some _ => true | None => false end then ds4_session_glm_note_dense_cache s pos chunk else s, r)
  else if glm_graph_indexed_prefill_batch_ready pos then
    let chunk := if gg_indexed_prefill_cap g <? remaining then gg_indexed_prefill_cap g else remaining in
    let chunk := glm_graph_limit_indexed_prefill_chunk pos chunk in
    let chunk := if chunk =? 0 then 1 else chunk in
    let want_lg := want_logits && (chunk =? remaining) in
    let '(s, r) := pack want_lg (glm_graph_forward_indexed_tokens (sl_kv s) (take (Z.to_nat chunk) rest) (take (Z.to_nat (chunk * se_hidden e)) <$> input) pos want_out want_lg) in
    (chunk, s, r)
  else
    let want_lg := want_logits && (1 =? remaining) in
    let '(s, r) := pack want_lg (glm_graph_forward_token (sl_kv s) (hd0 rest) (take (Z.to_nat (se_hidden e)) <$> input) pos want_out want_lg) in
    (1, s, r).

(** The loop over the span; [inl] with the message when a pass fails. *)
Fixpoint slice_loop (fuel : nat) (s : slice_session) (rest : list Z) (pos : Z) (input : option (list Z)) (want_out want_logits : bool) (out lg : list Z)
    : option (slice_session * (bytes + list Z * list Z)) :=
  match rest with
  | [] => Some (s, inr (out, lg))
  | _ =>
      match fuel with
      | O => None
      | S fuel' =>
          let '(chunk, s, r) := slice_piece s rest pos input want_out want_logits in
          match r with
          | None =>
              Some (ds4_session_glm_cap_dense_cache (clear_draft (set_invalid s)),
                inl (se_backend e ++ bs " GLM layer-slice evaluation failed at pos " ++ fmt_d pos))
          | Some (o, l) =>
              slice_loop fuel' s (drop (Z.to_nat chunk) rest) (pos + chunk) (drop (Z.to_nat (chunk * se_hidden e)) <$> input) want_out want_logits (out ++ o)
                (if chunk =? Z.of_nat (length rest) then l else lg)
          end
      end
  end.

(** The session after the call, with the message or the hidden states and the logits;
    [None] when the loop does not end. *)
Definition ds4_session_eval_layer_slice (s : slice_session) (tokens : list Z) (pos0 layer_start layer_end : Z) (input_hc : option (list Z)) (want_hc output_logits : bool)
    : option (slice_session * (bytes + list Z * list Z)) :=
  let fail msg := Some (s, inl msg) in
  let n_tokens := Z.of_nat (length tokens) in
  let range := fmt_d layer_start ++ bs ":" ++ fmt_d layer_end in
  if (se_layers e =? 0) || (layer_end <? layer_start) || (se_layers e <=? layer_end) then fail (bs "invalid layer-slice layer range " ++ range)
  else if negb (layer_start =? 0) && match input_hc with None => true | Some _ => false end then
    fail (bs "layer-slice layer " ++ fmt_d layer_start ++ bs " requires input hidden-state")
  else if output_logits && negb (u32 (layer_end + 1) =? se_layers e) then fail (bs "layer-slice logits require final transformer layer")
  else if negb (se_layers_bound e layer_start layer_end) then fail (bs "requested layer slice " ++ range ++ bs " is not loaded")
  else if match input_hc with None => negb (se_token_embd e) | Some _ => false end then fail (bs "token embedding is not loaded")
  else if output_logits && negb (se_output_head e) then fail (bs "output head is not loaded")
  else
    match ds4_session_slice_check_timeline s n_tokens pos0 with
    | Some msg => fail msg
    | None =>
        if se_cpu e then Some (set_invalid s, inl (bs "layer slices require the graph backend"))
        else if negb (gg_ready g) then fail (se_backend e ++ bs " GLM graph is not initialized")
        else if negb (layer_start =? gg_layer_start g) || negb (layer_end =? gg_layer_end g) then
          Some (set_invalid s, inl (bs "requested GLM layer slice " ++ range ++ bs " does not match loaded slice " ++ fmt_d (gg_layer_start g) ++ bs ":" ++ fmt_d (gg_layer_end g)))
        else if sl_prefill_cap s <? n_tokens then
          fail (bs "GLM layer-slice chunk " ++ fmt_d n_tokens ++ bs " exceeds prefill cap " ++ fmt_d (sl_prefill_cap s))
        else
          '(s, r) ← slice_loop (length tokens) s tokens pos0 input_hc want_hc output_logits [] [];
          match r with
          | inl msg => Some (s, inl msg)
          | inr res =>
              if negb want_hc && negb output_logits && negb (gpu_synchronize (sl_kv s)) then
                Some (ds4_session_glm_cap_dense_cache (clear_draft (set_invalid s)), inl (se_backend e ++ bs " GLM layer-slice synchronization failed"))
              else Some (ds4_session_slice_commit_timeline s tokens, inr res)
          end
    end.

(** [ds4_session_eval_output_head_from_hc] of a session on the accelerator: the head on
    the last row. *)
Definition ds4_session_eval_output_head_from_hc (s : slice_session) (hidden_hc : list Z) (n_tokens : Z) : slice_session * (bytes + list Z) :=
  if n_tokens =? 0 then (s, inl (bs "invalid output-head hidden-state input"))
  else if negb (se_output_head e) then (s, inl (bs "output head is not loaded"))
  else
    let last_hc := take (Z.to_nat (se_hidden e)) (drop (Z.to_nat ((n_tokens - 1) * se_hidden e)) hidden_hc) in
    let '(ok, kv, logits) := glm_graph_encode_output_head (sl_kv s) last_hc in
    (set_kv kv s, if ok then inr logits else inl (se_backend e ++ bs " GLM output-head hidden-state evaluation failed")).
End slice.
