(* ===== verification/DistWork.v ===== *)
(** * Work on a worker

    WORK and RESULT frames of [engine/src/distributed.c] and what a worker does with them:
    the checks of a WORK frame, the session it belongs to, the evaluation of the layers
    of the worker, the frame for the next worker of the route, and the relay of its
    result to the worker before. A buffer is the list of its values; a write to a
    connection succeeds; times are those of a clock.

    The coordinator's side of [engine/src/distributed.c] for one span of tokens: its own
    layers, the WORK frame for the first worker of the route, the RESULT that comes back
    and the output head. The workers are a map from their address; a request passes them
    one after the other, each over a connection of its own. *)
From Stdlib Require Import SpecFloat.
From S2P Require Import Prelude CLib KvHeader Strtod Http DistWire DistRoute DistSlice.

Definition DS4_DIST_WORK_F_INPUT_HC : Z := 1.
Definition DS4_DIST_WORK_F_OUTPUT_LOGITS : Z := 2.
Definition DS4_DIST_WORK_F_RESET_SESSION : Z := 4.
Definition DS4_DIST_WORK_F_ACK_ONLY : Z := 8.
Definition DS4_DIST_WORK_F_VALID_MASK : Z := 15.
Definition DS4_DIST_RESULT_ACK : Z := 0.
Definition DS4_DIST_RESULT_HIDDEN_STATE : Z := 1.
Definition DS4_DIST_RESULT_LOGITS : Z := 2.

Definition has_flag (flags f : Z) : bool := negb (Z.land flags f =? 0).

(** ** Frames *)

(** The frame, [None] for -1. *)
Definition dist_send_work_frame (work : dist_work) (tokens : list Z) (input_hc : option (list Z)) (route_blob : option bytes) : option bytes :=
  if wk_n_tokens work =? 0 then None
  else if negb (wk_token_bytes work =? wk_n_tokens work * 4) then None
  else if negb (wk_input_hc_bytes work =? 0) && match input_hc with None => true | Some _ => false end then None
  else if negb (wk_route_bytes work =? 0) && match route_blob with None => true | Some _ => false end then None
  else
    values ← (if wk_input_hc_bytes work =? 0 then Some 0 else dist_activation_values_from_wire_bytes (wk_input_hc_bits work) (wk_input_hc_bytes work));
    let frame_bytes := Z.of_nat WORK_SIZE + wk_token_bytes work + wk_input_hc_bytes work + wk_route_bytes work in
    if UINT32_MAX <? frame_bytes then None
    else
      hc ← (if wk_input_hc_bytes work =? 0 then Some [] else dist_write_activation_payload input_hc values (wk_input_hc_bits work));
      Some (dist_write_frame_header DS4_DIST_MSG_WORK frame_bytes ++ dist_work_to_wire work ++ wire_words (u32 <$> take (Z.to_nat (wk_n_tokens work)) tokens) ++ hc
            ++ (if wk_route_bytes work =? 0 then [] else take (Z.to_nat (wk_route_bytes work)) (default [] route_blob))).

(** The payload of a result: an array of values or a message. *)
Inductive result_payload := PayFloats (l : list Z) | PayText (b : bytes).
Definition payload_size (p : result_payload) : Z := match p with PayFloats l => 4 * Z.of_nat (length l) | PayText b => Z.of_nat (length b) end.

Definition dist_send_work_result (request_id result_hash status result_kind payload_bits : Z) (telemetry : list dist_telemetry) (payload : result_payload) : option bytes :=
  let payload_bytes := payload_size payload in
  let hidden := (status =? 0) && (result_kind =? DS4_DIST_RESULT_HIDDEN_STATE) in
  '(bits, values, wire_bytes) ← (if hidden then
      let bits := dist_activation_bits_or_default payload_bits in
      if negb (dist_activation_bits_valid bits) || negb (payload_bytes mod 4 =? 0) then None
      else n ← dist_activation_wire_bytes bits (payload_bytes / 4); Some (bits, payload_bytes / 4, n)
    else Some (if (status =? 0) && (result_kind =? DS4_DIST_RESULT_LOGITS) then 32 else 0, 0, payload_bytes));
  let count := Z.of_nat (length telemetry) in
  let telemetry_bytes := count * Z.of_nat TELEMETRY_SIZE in
  if UINT32_MAX <? telemetry_bytes then None
  else
    let frame_bytes := Z.of_nat RESULT_SIZE + telemetry_bytes + wire_bytes in
    if UINT32_MAX <? frame_bytes then None
    else
      let '(rq_hi, rq_lo) := dist_u64_to_halves request_id in
      let '(h_hi, h_lo) := dist_u64_to_halves (if status =? 0 then result_hash else 0) in
      body ← (if hidden && negb (wire_bytes =? 0) then dist_write_activation_payload (match payload with PayFloats l => Some l | PayText _ => None end) values bits
              else Some (match payload with PayFloats l => float_bytes l | PayText b => b end));
      Some (dist_write_frame_header DS4_DIST_MSG_RESULT frame_bytes
            ++ dist_result_to_wire (DistResult rq_hi rq_lo h_hi h_lo status result_kind count telemetry_bytes wire_bytes bits) ++ (telemetry ≫= dist_telemetry_to_wire) ++ body).

Definition dist_send_work_error (request_id : Z) (msg : bytes) : option bytes := dist_send_work_result request_id 0 1 0 0 [] (PayText msg).

(** ** Worker state *)

(** The times a hop measures, by request and index on the route. *)
Class Clock := { eval_usec : Z → Z → Z; downstream_usec : Z → Z → Z; forward_usec : Z → Z → Z }.

Section worker.
Context `{!GlmKernels, !Clock} (ds4_session_create : slice_engine → Z → option slice_session).

Record dist_worker_session := WorkerSession { ws_session_id : Z; ws_token_hash : Z; ws_token_hash_valid : bool; ws_session : slice_session }.

Record dist_worker_state := WorkerState {
  dw_engine : slice_engine; dw_model_id : Z; dw_layer_start : Z; dw_layer_end : Z; dw_has_output : bool; dw_ctx_size : Z; dw_sessions : list dist_worker_session;
}.

Definition set_sessions (l : list dist_worker_session) (w : dist_worker_state) : dist_worker_state :=
  WorkerState (dw_engine w) (dw_model_id w) (dw_layer_start w) (dw_layer_end w) (dw_has_output w) (dw_ctx_size w) l.

(** The first session with the id takes its new value. *)
Fixpoint put_session (x : dist_worker_session) (l : list dist_worker_session) : list dist_worker_session :=
  match l with
  | [] => []
  | y :: l' => if ws_session_id y =? ws_session_id x then x :: l' else y :: put_session x l'
  end.

Definition dist_worker_find_session (w : dist_worker_state) (session_id : Z) : option dist_worker_session :=
  List.find (λ x, ws_session_id x =? session_id) (dw_sessions w).

Definition dist_worker_get_session_locked (w : dist_worker_state) (session_id : Z) : option (dist_worker_session * dist_worker_state) :=
  match dist_worker_find_session w session_id with
  | Some x => Some (x, w)
  | None =>
      s ← ds4_session_create (dw_engine w) (dw_ctx_size w);
      let x := WorkerSession session_id 0 false s in
      Some (x, set_sessions (x :: dw_sessions w) w)
  end.

(** ** A WORK frame *)

(** Why work is refused before its tokens are read. *)
Definition check_work (w : dist_worker_state) (work : dist_work) (remaining : Z) : option bytes :=
  let flags := wk_flags work in
  if negb (wk_token_bytes work =? wk_n_tokens work * 4) || negb (wk_token_bytes work + wk_input_hc_bytes work + wk_route_bytes work =? remaining)
  then Some (bs "invalid distributed WORK payload sizes")
  else if wk_route_count work =? 0 then Some (bs "WORK frame is missing distributed route")
  else if wk_route_count work <=? wk_route_index work then Some (bs "invalid distributed WORK route metadata")
  else if negb (wk_model_id work =? dw_model_id w) then
    Some (bs "model id mismatch: work=" ++ fmt_d (wk_model_id work) ++ bs " worker=" ++ fmt_d (dw_model_id w))
  else if negb (wk_layer_start work =? dw_layer_start w) || negb (wk_layer_end work =? dw_layer_end w) then
    Some (bs "worker is assigned layers " ++ fmt_d (dw_layer_start w) ++ bs ":" ++ fmt_d (dw_layer_end w) ++ bs " but request asked for "
          ++ fmt_d (wk_layer_start work) ++ bs ":" ++ fmt_d (wk_layer_end work))
  else if has_flag flags (Z.lxor UINT32_MAX DS4_DIST_WORK_F_VALID_MASK) then Some (bs "invalid distributed WORK flags")
  else if wk_n_tokens work =? 0 then Some (bs "WORK frame has no tokens")
  else if (u32 (dw_ctx_size w) <? wk_pos0 work) || (u32 (dw_ctx_size w) - wk_pos0 work <? wk_n_tokens work) then Some (bs "WORK token span exceeds worker context")
  else if has_flag flags DS4_DIST_WORK_F_INPUT_HC && (wk_layer_start work =? 0) then Some (bs "layer 0 WORK must not provide input hidden-state")
  else if negb (has_flag flags DS4_DIST_WORK_F_INPUT_HC) && negb (wk_layer_start work =? 0) then Some (bs "nonzero layer WORK requires input hidden-state")
  else if has_flag flags DS4_DIST_WORK_F_OUTPUT_LOGITS && negb (dw_has_output w) then Some (bs "worker was not assigned the output head")
  else if has_flag flags DS4_DIST_WORK_F_OUTPUT_LOGITS && negb (u32 (wk_layer_end work + 1) =? se_layers (dw_engine w))
  then Some (bs "WORK logits require final transformer layer")
  else None.

(** [inl None] is -1, [inl (Some msg)] the message that is sent upstream. *)
Fixpoint read_work_tokens (n : nat) (vocab : Z) (p : bytes) : option bytes + list Z * bytes :=
  match n with
  | O => inr ([], p)
  | S n' =>
      if (length p <? 4)%nat then inl None
      else
        let token := get_be32 p in
        if (INT_MAX <? token) || (vocab <=? token) then inl (Some (bs "WORK token id is outside the model vocabulary"))
        else match read_work_tokens n' vocab (drop 4 p) with inl e => inl e | inr (l, p) => inr (token :: l, p) end
  end.

(** The bytes of the hidden state, if any, and what follows. *)
Definition read_work_input (work : dist_work) (expected_values : Z) (p : bytes) : option bytes + option bytes * bytes :=
  let n := Z.to_nat (wk_input_hc_bytes work) in
  if has_flag (wk_flags work) DS4_DIST_WORK_F_INPUT_HC then
    let bits := dist_activation_bits_or_default (wk_input_hc_bits work) in
    match (if dist_activation_bits_valid bits then dist_activation_wire_bytes bits expected_values else None) with
    | None => inl (Some (bs "invalid distributed activation width"))
    | Some expected =>
        if negb (wk_input_hc_bytes work =? expected) then inl (Some (bs "input hidden-state size does not match token span"))
        else if Z.of_nat (length p) <? wk_input_hc_bytes work then inl None
        else inr (Some (take n p), drop n p)
    end
  else if negb (wk_input_hc_bytes work =? 0) then inl (Some (bs "WORK frame has hidden bytes without input flag"))
  else inr (None, p).

(** The next entry of the route, if there is one. *)
Definition read_work_route (w : dist_worker_state) (work : dist_work) (blob : option bytes) : bytes + option dist_route_entry :=
  let output_logits := has_flag (wk_flags work) DS4_DIST_WORK_F_OUTPUT_LOGITS in
  let has_next := u32 (wk_route_index work + 1) <? wk_route_count work in
  match dist_route_validate_blob blob (wk_route_bytes work) (wk_route_count work) (se_layers (dw_engine w)) with
  | Some msg => inl msg
  | None =>
      match dist_route_get_entry blob (wk_route_count work) (wk_route_index work) with
      | inl msg => inl msg
      | inr current =>
          if negb (re_layer_start current =? wk_layer_start work) || negb (re_layer_end current =? wk_layer_end work) then
            inl (bs "WORK layer range does not match route entry")
          else if negb (Bool.eqb (has_flag (re_flags current) DS4_DIST_ROUTE_F_OUTPUT_LOGITS) output_logits) then
            inl (bs "WORK logits flag does not match route entry")
          else if has_next then
            match dist_route_get_entry blob (wk_route_count work) (u32 (wk_route_index work + 1)) with
            | inl msg => inl msg
            | inr next => if output_logits then inl (bs "non-final route entry requested logits") else inr (Some next)
            end
          else
            match dist_route_get_return_target blob (wk_route_count work) with
            | inl msg => inl msg
            | inr (kind, _, _) => if negb (kind =? DS4_DIST_ROUTE_RETURN_UPSTREAM) then inl (bs "unsupported final result destination") else inr None
            end
      end
  end.

(** The reset and the hash of the session before the evaluation. *)
Definition ready_session (work : dist_work) (x : dist_worker_session) : dist_worker_session :=
  if has_flag (wk_flags work) DS4_DIST_WORK_F_RESET_SESSION then
    WorkerSession (ws_session_id x) DS4_DIST_TOKEN_HASH_INIT true (ds4_session_layer_slice_reset (ws_session x))
  else if negb (ws_token_hash_valid x) then
    WorkerSession (ws_session_id x) (dist_token_hash_prefix (sl_checkpoint (ws_session x))) true (ws_session x)
  else x.

(** The evaluation under the lock of the worker: the worker after it, and the message or
    the hidden states and the logits; [None] when the evaluation does not end. *)
Definition eval_work (w : dist_worker_state) (work : dist_work) (tokens : list Z) (input_hc : option (list Z)) (produce_hidden local_output_logits : bool)
    : option (dist_worker_state * (bytes + list Z * list Z)) :=
  match dist_worker_get_session_locked w (dist_u64_from_halves (wk_session_hi work) (wk_session_lo work)) with
  | None => Some (w, inl (bs "failed to create distributed worker session"))
  | Some (x, w) =>
      let x := ready_session work x in
      let put x := set_sessions (put_session x (dw_sessions w)) w in
      if negb (ws_token_hash x =? dist_u64_from_halves (wk_prefix_hash_hi work) (wk_prefix_hash_lo work)) then Some (put x, inl (bs "worker KV prefix hash mismatch"))
      else
        '(s, r) ← ds4_session_eval_layer_slice (dw_engine w) (ws_session x) tokens (wk_pos0 work) (wk_layer_start work) (wk_layer_end work) input_hc produce_hidden local_output_logits;
        Some (match r with
              | inr out => (put (WorkerSession (ws_session_id x) (dist_u64_from_halves (wk_result_hash_hi work) (wk_result_hash_lo work)) true s), inr out)
              | inl msg => (put (WorkerSession (ws_session_id x) (ws_token_hash x) false s), inl msg)
              end)
  end.

(** What a worker does with its work: the frame for the worker before, [None] for -1; or
    the entry of the next worker, the frame for it and the record that waits for its
    result. *)
Inductive work_out :=
  | WReply (frame : option bytes)
  | WForward (next : dist_route_entry) (frame : option bytes) (request_id : Z) (telemetry : dist_telemetry).

(** [dist_forward_work_to_next], once there is a connection to the next worker. *)
Definition dist_forward_work_to_next (next : dist_route_entry) (work : dist_work) (tokens hidden_hc : list Z) (hidden_hc_bytes : Z) (telemetry : dist_telemetry)
    (route_blob : option bytes) : work_out :=
  let request_id := dist_u64_from_halves (wk_request_hi work) (wk_request_lo work) in
  let bits := dist_activation_bits_or_default (wk_input_hc_bits work) in
  match dist_activation_wire_bytes_from_f32_bytes bits hidden_hc_bytes with
  | None => WReply (dist_send_work_error request_id (bs "invalid forwarded hidden-state size"))
  | Some wire_bytes =>
      let flags := Z.lor (wk_flags work) DS4_DIST_WORK_F_INPUT_HC in
      let flags := if has_flag (re_flags next) DS4_DIST_ROUTE_F_OUTPUT_LOGITS then Z.lor flags DS4_DIST_WORK_F_OUTPUT_LOGITS
                   else Z.land flags (Z.lxor UINT32_MAX DS4_DIST_WORK_F_OUTPUT_LOGITS) in
      let forwarded := DistWork (wk_model_id work) (wk_session_hi work) (wk_session_lo work) (wk_request_hi work) (wk_request_lo work)
        (wk_prefix_hash_hi work) (wk_prefix_hash_lo work) (wk_result_hash_hi work) (wk_result_hash_lo work) (wk_pos0 work) (wk_n_tokens work)
        (re_layer_start next) (re_layer_end next) flags (wk_token_bytes work) wire_bytes bits (wk_route_count work) (u32 (wk_route_index work + 1)) (wk_route_bytes work) in
      WForward next (dist_send_work_frame forwarded tokens (Some hidden_hc) route_blob) request_id telemetry
  end.

Definition dist_worker_process_work_payload (w : dist_worker_state) (payload : bytes) : option (dist_worker_state * work_out) :=
  if (length payload <? WORK_SIZE)%nat then Some (w, WReply (dist_send_work_error 0 (bs "truncated distributed WORK frame")))
  else
    let work := dist_work_from_wire payload in
    let request_id := dist_u64_from_halves (wk_request_hi work) (wk_request_lo work) in
    let result_hash := dist_u64_from_halves (wk_result_hash_hi work) (wk_result_hash_lo work) in
    let refuse msg := Some (w, WReply (dist_send_work_error request_id msg)) in
    let p := drop WORK_SIZE payload in
    let e := dw_engine w in
    match check_work w work (Z.of_nat (length p)) with
    | Some msg => refuse msg
    | None =>
        match read_work_tokens (Z.to_nat (wk_n_tokens work)) (se_vocab e) p with
        | inl None => Some (w, WReply None)
        | inl (Some msg) => refuse msg
        | inr (tokens, p) =>
            if negb (dist_token_hash_update_span (dist_u64_from_halves (wk_prefix_hash_hi work) (wk_prefix_hash_lo work)) tokens =? result_hash)
            then refuse (bs "WORK token prefix hash metadata mismatch")
            else
              let expected_values := u64 (wk_n_tokens work * se_hidden e) in
              if UINT32_MAX <? u64 (expected_values * 4) then refuse (bs "distributed hidden-state payload is too large")
              else
                match read_work_input work expected_values p with
                | inl None => Some (w, WReply None)
                | inl (Some msg) => refuse msg
                | inr (input_wire, p) =>
                    let route := Z.to_nat (wk_route_bytes work) in
                    if (length p <? route)%nat then Some (w, WReply None)
                    else
                      let blob := if wk_route_bytes work =? 0 then None else Some (take route p) in
                      match read_work_route w work blob with
                      | inl msg => refuse msg
                      | inr next =>
                          let has_next := match next with Some _ => true | None => false end in
                          let bits := dist_activation_bits_or_default (wk_input_hc_bits work) in
                          let final_ack_only := has_flag (wk_flags work) DS4_DIST_WORK_F_ACK_ONLY && negb has_next in
                          let local_output_logits := has_flag (wk_flags work) DS4_DIST_WORK_F_OUTPUT_LOGITS && negb has_next && negb final_ack_only in
                          let produce_hidden := negb local_output_logits && negb final_ack_only in
                          let kind := if final_ack_only then DS4_DIST_RESULT_ACK else if local_output_logits then DS4_DIST_RESULT_LOGITS else DS4_DIST_RESULT_HIDDEN_STATE in
                          match (match input_wire with
                                 | None => inr None
                                 | Some b =>
                                     match dist_decode_activation_payload (Some b) bits (wk_input_hc_bytes work) with
                                     | inl msg => inl msg
                                     | inr l => if negb (Z.of_nat (length l) =? expected_values) then inl (bs "decoded input hidden-state size does not match token span") else inr (Some l)
                                     end
                                 end) with
                          | inl msg => refuse msg
                          | inr input_hc =>
                              '(w, r) ← eval_work w work tokens input_hc produce_hidden local_output_logits;
                              match r with
                              | inl msg => Some (w, WReply (dist_send_work_error request_id msg))
                              | inr (hidden, logits) =>
                                  let result_bytes := if final_ack_only then 0 else if local_output_logits then u32 (u64 (se_vocab e * 4)) else u32 (expected_values * 4) in
                                  let result := take (Z.to_nat (result_bytes / 4)) (if local_output_logits then logits else hidden) in
                                  match (if kind =? DS4_DIST_RESULT_HIDDEN_STATE then dist_activation_wire_bytes_from_f32_bytes bits result_bytes else Some result_bytes) with
                                  | None => Some (w, WReply (dist_send_work_error request_id (bs "invalid output hidden-state size")))
                                  | Some wire_bytes =>
                                      let telemetry := DistTelemetry (wk_layer_start work) (wk_layer_end work) (wk_route_index work) (wk_pos0 work) (wk_n_tokens work)
                                        (eval_usec request_id (wk_route_index work)) 0 0 (u32 (wk_token_bytes work + wk_input_hc_bytes work)) wire_bytes in
                                      Some (w, match next with
                                               | Some n => dist_forward_work_to_next n work tokens result result_bytes telemetry blob
                                               | None => WReply (dist_send_work_result request_id result_hash 0 kind (if kind =? DS4_DIST_RESULT_HIDDEN_STATE then bits else 32)
                                                                   [telemetry] (PayFloats result))
                                               end)
                                  end
                              end
                          end
                      end
                end
        end
    end.

(** [dist_worker_handle_work]: the frame of a header that said WORK. *)
Definition dist_worker_handle_work (w : dist_worker_state) (net : list net_event) (n : Z) : option (dist_worker_state * work_out * list net_event) :=
  match dist_read_full net (Z.to_nat n) with
  | FullOk payload net => '(w, o) ← dist_worker_process_work_payload w payload; Some (w, o, net)
  | _ => Some (w, WReply None, net)
  end.
End worker.

(** ** Relay *)

Record dist_pending_request := PendingRequest { pq_request_id : Z; pq_telemetry : dist_telemetry }.
Record dist_worker_forwarder := Forwarder { fw_pending : list dist_pending_request; fw_depth : Z; fw_closing : bool }.

Definition set_pending (l : list dist_pending_request) (f : dist_worker_forwarder) : dist_worker_forwarder := Forwarder l (fw_depth f) (fw_closing f).

(** [None] while the caller waits for room; [Some None] for a forwarder that closes. *)
Definition dist_worker_forwarder_enqueue_request (f : dist_worker_forwarder) (request_id : Z) (t : dist_telemetry) : option (option dist_worker_forwarder) :=
  if negb (fw_closing f) && negb (fw_depth f =? 0) && (fw_depth f <=? Z.of_nat (length (fw_pending f))) then None
  else if fw_closing f then Some None
  else Some (Some (set_pending (fw_pending f ++ [PendingRequest request_id t]) f)).

Definition dist_worker_forwarder_pop_request (f : dist_worker_forwarder) : option (dist_pending_request * dist_worker_forwarder) :=
  match fw_pending f with [] => None | q :: l => Some (q, set_pending l f) end.

Fixpoint remove_request (request_id : Z) (l : list dist_pending_request) : list dist_pending_request :=
  match l with [] => [] | q :: l' => if pq_request_id q =? request_id then l' else q :: remove_request request_id l' end.
Definition dist_worker_forwarder_remove_request (f : dist_worker_forwarder) (request_id : Z) : dist_worker_forwarder :=
  set_pending (remove_request request_id (fw_pending f)) f.

Definition set_forward_usec (v : Z) (t : dist_telemetry) : dist_telemetry :=
  DistTelemetry (te_layer_start t) (te_layer_end t) (te_route_index t) (te_pos0 t) (te_n_tokens t) (te_eval_usec t) (te_downstream_wait_usec t) v (te_input_bytes t) (te_output_bytes t).
Definition set_downstream_usec (v : Z) (t : dist_telemetry) : dist_telemetry :=
  DistTelemetry (te_layer_start t) (te_layer_end t) (te_route_index t) (te_pos0 t) (te_n_tokens t) (te_eval_usec t) v (te_forward_send_usec t) (te_input_bytes t) (te_output_bytes t).

Fixpoint note_send (request_id v : Z) (l : list dist_pending_request) : list dist_pending_request :=
  match l with
  | [] => []
  | q :: l' => if pq_request_id q =? request_id then PendingRequest (pq_request_id q) (set_forward_usec v (pq_telemetry q)) :: l' else q :: note_send request_id v l'
  end.
Definition dist_worker_forwarder_note_send_done (f : dist_worker_forwarder) (request_id v : Z) : dist_worker_forwarder :=
  set_pending (note_send request_id v (fw_pending f)) f.

(** Bytes are copied in pieces of one MiB: what was written, what is left to read, and
    whether all of it came. *)
Definition RELAY_PIECE : Z := 1048576.
Fixpoint relay_copy (fuel : nat) (net : list net_event) (remaining : Z) : bytes * list net_event * bool :=
  if remaining =? 0 then ([], net, true)
  else
    match fuel with
    | O => ([], net, false)
    | S fuel' =>
        let n := if remaining <? RELAY_PIECE then remaining else RELAY_PIECE in
        match dist_read_full net (Z.to_nat n) with
        | FullOk d net => let '(b, net, ok) := relay_copy fuel' net (remaining - n) in (d ++ b, net, ok)
        | _ => ([], net, false)
        end
    end.
Definition relay_fuel (n : Z) : nat := S (Z.to_nat (n / RELAY_PIECE)).

(** Whether the body of a result has the sizes its head says. *)
Definition result_sizes_ok (r : dist_result) (body_bytes : Z) : bool :=
  (rs_telemetry_bytes r mod Z.of_nat TELEMETRY_SIZE =? 0) && (rs_telemetry_count r =? rs_telemetry_bytes r / Z.of_nat TELEMETRY_SIZE)
  && (rs_telemetry_bytes r <=? body_bytes) && (rs_payload_bytes r =? body_bytes - rs_telemetry_bytes r).

(** One round of [dist_worker_forwarder_relay_main]: the forwarder, what is written
    upstream, what is left to read, and whether the relay goes on. *)
Definition relay_round `{!Clock} (f : dist_worker_forwarder) (net : list net_event) : dist_worker_forwarder * bytes * list net_event * bool :=
  let stop f out := (f, out, net, false) in
  let fail msg :=
    match dist_worker_forwarder_pop_request f with
    | Some (q, f) => stop f (default [] (dist_send_work_error (pq_request_id q) msg))
    | None => stop f []
    end in
  match dist_read_frame_header net with
  | inl _ => fail (bs "next worker closed connection")
  | inr (type, n, net) =>
      if negb (type =? DS4_DIST_MSG_RESULT) || (n <? Z.of_nat RESULT_SIZE) then fail (bs "next worker did not return valid RESULT")
      else
        match dist_read_full net RESULT_SIZE with
        | FullEof | FullError => fail (bs "next worker closed while returning RESULT")
        | FullOk b net =>
            let r := dist_result_from_wire b in
            let got := dist_u64_from_halves (rs_request_hi r) (rs_request_lo r) in
            let body_bytes := n - Z.of_nat RESULT_SIZE in
            if negb (result_sizes_ok r body_bytes) then fail (bs "next worker RESULT metadata mismatch")
            else
              match dist_worker_forwarder_pop_request f with
              | None => stop f []
              | Some (q, f) =>
                  let refuse msg := stop f (default [] (dist_send_work_error (pq_request_id q) msg)) in
                  if negb (got =? pq_request_id q) then refuse (bs "next worker RESULT metadata mismatch")
                  else
                    let t := pq_telemetry q in
                    let t := set_downstream_usec (downstream_usec (pq_request_id q) (te_route_index t)) t in
                    let out_bytes := rs_telemetry_bytes r + Z.of_nat TELEMETRY_SIZE in
                    let out_count := u32 (rs_telemetry_count r + 1) in
                    if (UINT32_MAX <? out_bytes) || (out_count =? 0) then refuse (bs "distributed telemetry chain is too large")
                    else
                      let frame := Z.of_nat RESULT_SIZE + out_bytes + rs_payload_bytes r in
                      if UINT32_MAX <? frame then refuse (bs "distributed RESULT frame is too large")
                      else
                        let r' := DistResult (rs_request_hi r) (rs_request_lo r) (rs_result_hash_hi r) (rs_result_hash_lo r) (rs_status r) (rs_result_kind r) out_count out_bytes
                                    (rs_payload_bytes r) (rs_payload_bits r) in
                        let head := dist_write_frame_header DS4_DIST_MSG_RESULT frame ++ dist_result_to_wire r' in
                        let '(tel, net, ok) := relay_copy (relay_fuel (rs_telemetry_bytes r)) net (rs_telemetry_bytes r) in
                        if negb ok then (f, head ++ tel, net, false)
                        else
                          let '(pay, net, ok) := relay_copy (relay_fuel (rs_payload_bytes r)) net (rs_payload_bytes r) in
                          (f, head ++ tel ++ dist_telemetry_to_wire t ++ pay, net, ok)
              end
        end
  end.

(** * A span over the route *)

Definition DS4_DIST_RECV_REMOTE_ERROR : Z := 2.

(** ** Results *)

(** The payload of a result that is no hidden state, as the array the caller takes it for. *)
Definition received_floats (b : bytes) (n : Z) : list Z := array_of 4 kv_store_le_get32 (Z.to_nat (n / 4)) b.

(** The kind, the hash and the payload with its size in bytes; [inl] with the result of
    the C function and the message. *)
Definition dist_recv_result_alloc (errno_text : bytes) (net : list net_event) (request_id : Z) : (Z * bytes) + Z * Z * list Z * Z :=
  let fail msg := inl (1, msg) in
  match dist_read_frame_header net with
  | inl rc => inl (1, if rc =? 0 then bs "distributed worker closed connection" else frame_header_error errno_text net)
  | inr (type, n, net) =>
      if negb (type =? DS4_DIST_MSG_RESULT) || (n <? Z.of_nat RESULT_SIZE) then fail (bs "distributed worker returned invalid frame")
      else
        match dist_read_full net RESULT_SIZE with
        | FullEof | FullError => fail (bs "failed to read distributed result")
        | FullOk b net =>
            let r := dist_result_from_wire b in
            let body_bytes := n - Z.of_nat RESULT_SIZE in
            if negb (result_sizes_ok r body_bytes) then fail (bs "distributed result telemetry metadata mismatch")
            else if negb (dist_u64_from_halves (rs_request_hi r) (rs_request_lo r) =? request_id) then fail (bs "distributed result metadata mismatch")
            else
              match dist_read_full net (Z.to_nat (rs_telemetry_bytes r)) with
              | FullEof | FullError => fail (bs "failed to read distributed result telemetry")
              | FullOk _ net =>
                  match dist_read_full net (Z.to_nat (rs_payload_bytes r)) with
                  | FullEof | FullError => fail (bs "failed to read distributed result payload")
                  | FullOk buf _ =>
                      let hash := dist_u64_from_halves (rs_result_hash_hi r) (rs_result_hash_lo r) in
                      if negb (rs_status r =? 0) then
                        inl (DS4_DIST_RECV_REMOTE_ERROR, if rs_payload_bytes r =? 0 then bs "distributed worker returned an error" else c_str (take 255 buf))
                      else if (rs_result_kind r =? DS4_DIST_RESULT_HIDDEN_STATE) && negb (rs_payload_bytes r =? 0) then
                        match dist_decode_activation_payload (Some buf) (rs_payload_bits r) (rs_payload_bytes r) with
                        | inl msg => fail msg
                        | inr l => inr (rs_result_kind r, hash, l, 4 * Z.of_nat (length l))
                        end
                      else inr (rs_result_kind r, hash, received_floats buf (rs_payload_bytes r), rs_payload_bytes r)
                  end
              end
        end
  end.

(** ** Work *)

Definition dist_coordinator_send_remote_work_on_fd (st : dist_coordinator) (plan : dist_route_plan) (tokens : list Z) (pos0 session_id request_id prefix_hash result_hash : Z)
    (reset_session ack_only : bool) (hidden_hc : list Z) (hidden_hc_bytes : Z) : bytes + bytes :=
  match rp_entries plan with
  | [] => inl (bs "distributed route has no remote worker")
  | first :: _ =>
      let n_tokens := Z.of_nat (length tokens) in
      let '(s_hi, s_lo) := dist_u64_to_halves session_id in
      let '(r_hi, r_lo) := dist_u64_to_halves request_id in
      let '(p_hi, p_lo) := dist_u64_to_halves prefix_hash in
      let '(q_hi, q_lo) := dist_u64_to_halves result_hash in
      let flags := DS4_DIST_WORK_F_INPUT_HC in
      let flags := if reset_session then Z.lor flags DS4_DIST_WORK_F_RESET_SESSION else flags in
      let flags := if ack_only then Z.lor flags DS4_DIST_WORK_F_ACK_ONLY else flags in
      let flags := if has_flag (re_flags first) DS4_DIST_ROUTE_F_OUTPUT_LOGITS then Z.lor flags DS4_DIST_WORK_F_OUTPUT_LOGITS else flags in
      match dist_activation_wire_bytes_from_f32_bytes (cd_activation_bits st) hidden_hc_bytes with
      | None => inl (bs "invalid distributed hidden-state size")
      | Some wire_bytes =>
          let work := DistWork (cd_model_id st) s_hi s_lo r_hi r_lo p_hi p_lo q_hi q_lo pos0 n_tokens (re_layer_start first) (re_layer_end first) flags (u32 (n_tokens * 4)) wire_bytes
                        (cd_activation_bits st) (Z.of_nat (length (rp_entries plan))) 0 (Z.of_nat (length (rp_blob plan))) in
          match dist_send_work_frame work tokens (Some hidden_hc) (Some (rp_blob plan)) with
          | None => inl (bs "failed to send distributed work")
          | Some frame => inr frame
          end
      end
  end.

(** ** The workers *)

(** The workers by host and port. *)
Abbreviation workers := (gmap (bytes * Z) dist_worker_state).

Section net.
Context `{!GlmKernels, !Clock} (ds4_session_create : slice_engine → Z → option slice_session).
Context (errno_text : bytes) (connect_error : bytes → Z → bytes) (forward_window : Z).

(** A WORK frame sent to a worker: the workers after it, and what comes back on the
    connection until the worker has answered. [None] when an evaluation does not end or
    the fuel, one for each worker on the way, is used up. *)
Fixpoint deliver (fuel : nat) (ws : workers) (addr : bytes * Z) (stream : bytes) : option (workers * bytes) :=
  match fuel with
  | O => None
  | S fuel' =>
      w ← ws !! addr;
      match dist_read_frame_header [NData stream] with
      | inl _ => Some (ws, [])
      | inr (type, n, net) =>
          if negb (type =? DS4_DIST_MSG_WORK) then Some (ws, [])
          else
            '(w, o, _) ← dist_worker_handle_work ds4_session_create w net n;
            let ws := <[addr := w]> ws in
            match o with
            | WReply r => Some (ws, default [] r)
            | WForward next frame request_id t =>
                let next_addr := (re_host next, re_port next) in
                match ws !! next_addr, dist_worker_forwarder_enqueue_request (Forwarder [] forward_window false) request_id t with
                | None, _ => Some (ws, default [] (dist_send_work_error request_id (connect_error (re_host next) (re_port next))))
                | Some _, Some (Some f) =>
                    let f := dist_worker_forwarder_note_send_done f request_id (forward_usec request_id (te_route_index t)) in
                    match frame with
                    | None => Some (ws, default [] (dist_send_work_error request_id (bs "failed to forward distributed work")))
                    | Some frame =>
                        '(ws, back) ← deliver fuel' ws next_addr frame;
                        let '(_, out, _, _) := relay_round f [NData back] in
                        Some (ws, out)
                    end
                | Some _, Some None => Some (ws, default [] (dist_send_work_error request_id (bs "out of memory tracking forwarded request")))
                | Some _, None => None
                end
            end
      end
  end.

(** ** The span *)

Section span.
Context (e : slice_engine) (st : dist_coordinator).

(** [dist_session_token_hash_prefix] *)
Definition dist_session_token_hash_prefix (s : slice_session) (n_tokens : Z) : bytes + Z :=
  if Z.of_nat (length (sl_checkpoint s)) <? n_tokens then inl (bs "distributed session has no " ++ fmt_d n_tokens ++ bs "-token prefix")
  else inr (dist_token_hash_prefix (take (Z.to_nat n_tokens) (sl_checkpoint s))).

(** What the coordinator makes of the result: the session, and the message or the logits. *)
Definition span_result (s : slice_session) (n_tokens hidden_hc_bytes expected_hash : Z) (r : (Z * bytes) + Z * Z * list Z * Z) : slice_session * ((Z * bytes) + list Z) :=
  match r with
  | inl err => (s, inl err)
  | inr (kind, hash, payload, payload_bytes) =>
      if negb (hash =? expected_hash) then (s, inl (1, bs "distributed result prefix hash mismatch"))
      else if (kind =? DS4_DIST_RESULT_LOGITS) && (payload_bytes =? u32 (u64 (se_vocab e * 4))) then (s, inr payload)
      else if (kind =? DS4_DIST_RESULT_HIDDEN_STATE) && (payload_bytes =? hidden_hc_bytes) then
        let '(s, r) := ds4_session_eval_output_head_from_hc e s payload n_tokens in (s, match r with inl msg => inl (1, msg) | inr l => inr l end)
      else if kind =? DS4_DIST_RESULT_HIDDEN_STATE then (s, inl (1, bs "distributed route returned invalid hidden-state size"))
      else (s, inl (1, bs "distributed route did not return logits or hidden-state"))
  end.

Definition dist_coordinator_eval_remote_on_fd (ws : workers) (s : slice_session) (plan : dist_route_plan) (first : bytes * Z) (tokens : list Z)
    (pos0 session_id request_id prefix_hash expected_hash : Z) (reset_session : bool) (hidden : list Z) (hidden_bytes : Z)
    : option (workers * slice_session * ((Z * bytes) + list Z)) :=
  match dist_coordinator_send_remote_work_on_fd st plan tokens pos0 session_id request_id prefix_hash expected_hash reset_session false hidden hidden_bytes with
  | inl msg => Some (ws, s, inl (1, msg))
  | inr frame =>
      '(ws, back) ← deliver (length (rp_entries plan)) ws first frame;
      let '(s, r) := span_result s (Z.of_nat (length tokens)) hidden_bytes expected_hash (dist_recv_result_alloc errno_text [NData back] request_id) in
      Some (ws, s, r)
  end.

(** The workers, the session of the coordinator and the logits after a span. *)
Definition dist_coordinator_eval_span (ws : workers) (s : slice_session) (plan : dist_route_plan) (tokens : list Z) (pos0 session_id request_id : Z) (reset_session : bool)
    : option (workers * slice_session * ((Z * bytes) + list Z)) :=
  let fail s msg := Some (ws, s, inl (1, msg)) in
  let n_tokens := Z.of_nat (length tokens) in
  let hidden_bytes := u64 (n_tokens * se_hidden e * 4) in
  if UINT32_MAX <? hidden_bytes then fail s (bs "distributed coordinator hidden-state chunk is too large")
  else
    match (if reset_session then if negb (pos0 =? 0) then inl (bs "distributed reset span must start at position 0") else inr DS4_DIST_TOKEN_HASH_INIT
           else dist_session_token_hash_prefix s pos0) with
    | inl msg => fail s msg
    | inr prefix_hash =>
        let result_hash := dist_token_hash_update_span prefix_hash tokens in
        let s := if reset_session then ds4_session_layer_slice_reset s else s in
        let local_logits := (length (rp_entries plan) =? 0)%nat in
        if match rp_entries plan with first :: _ => re_fd first <? 0 | [] => false end then fail s (bs "distributed route has no live first-hop connection")
        else
        '(s, r) ← ds4_session_eval_layer_slice e s tokens pos0 (cd_local_start st) (cd_local_end st) None (negb local_logits) local_logits;
        match r, rp_entries plan with
        | inl msg, _ => fail s msg
        | inr (_, logits), [] => Some (ws, s, inr logits)
        | inr (hidden, _), first :: _ =>
            dist_coordinator_eval_remote_on_fd ws s plan (re_host first, re_port first) tokens pos0 session_id request_id prefix_hash result_hash reset_session
              (take (Z.to_nat (hidden_bytes / 4)) hidden) hidden_bytes
        end
    end.
End span.
End net.
