(* ===== verification/DistWorkProps.v ===== *)
(** * Work over the route: theorems

    A frame that one side writes is the frame that the other side reads, for the WORK and
    the RESULT frames and the activations in them. A slice of layers is evaluated to its
    end and leaves the session with the new tokens ([slice_spec]); its dense cache stays
    empty ([slice_snapshot_empty]). One worker does what the entry of the route asks of it
    ([hop_process]), so a span over the route is the
    slices one after the other ([span_exact]), and no frame makes the hash of a session
    wrong ([work_keeps_hashes]). *)

From Stdlib Require Import SpecFloat.
From S2P Require Import Prelude CLib Strtod KvHeader Http DistWire DistRoute DistRouteProps DistSlice DistWork.

(** ** Frames *)

(** What a connection delivers of some bytes, at once. *)
Definition net_of (b : bytes) : list net_event := match b with [] => [] | _ => [NData b] end.

Lemma read_net a b : dist_read_full (net_of (a ++ b)) (length a) = FullOk a (net_of b).
Proof.
  destruct a as [|x a]; [by destruct b|]. change ((x :: a) ++ b) with (x :: (a ++ b)). cbn [net_of dist_read_full]. change (x :: (a ++ b)) with ((x :: a) ++ b).
  destruct (Nat.eqb_spec (length (x :: a)) 0) as [E|_]; [done|]. rewrite length_app. destruct (Nat.leb_spec (length (x :: a) + length b) (length (x :: a))) as [Hle|Hgt].
  - destruct b; [|cbn [length] in Hle; lia]. rewrite !app_nil_r. cbn [length]. rewrite Nat.add_0_r, Nat.sub_diag. cbn. by rewrite app_nil_r.
  - destruct b as [|y b]; [cbn [length] in Hgt; lia|]. by rewrite take_app_length, drop_app_length.
Qed.

Lemma read_net_len a b n : length a = n → dist_read_full (net_of (a ++ b)) n = FullOk a (net_of b).
Proof. intros <-. apply read_net. Qed.

Lemma read_net_all a n : length a = n → dist_read_full (net_of a) n = FullOk a [].
Proof. intros <-. rewrite <- (app_nil_r a) at 1. apply (read_net a []). Qed.

Lemma frame_header_read type n body : is_u32 type → is_u32 n → dist_read_frame_header (net_of (dist_write_frame_header type n ++ body)) = inr (type, n, net_of body).
Proof.
  intros Ht Hn. unfold dist_read_frame_header, dist_write_frame_header. rewrite (read_net_len _ _ HEADER_SIZE) by done.
  rewrite <- (app_nil_r (wire_words _)). rewrite (word_at_words _ 0 _ DS4_DIST_MAGIC), (word_at_words _ 1 _ type), (word_at_words _ 2 _ n) by done. by rewrite Z.eqb_refl.
Qed.

Lemma dist_result_wire r rest : Forall is_u32 [rs_request_hi r; rs_request_lo r; rs_result_hash_hi r; rs_result_hash_lo r; rs_status r; rs_result_kind r; rs_telemetry_count r;
    rs_telemetry_bytes r; rs_payload_bytes r; rs_payload_bits r] → dist_result_from_wire (dist_result_to_wire r ++ rest) = r.
Proof. intros H. repeat (apply Forall_cons in H as [? H]). unfold dist_result_from_wire, dist_result_to_wire. cbn zeta. read_words. by destruct r. Qed.

Definition work_words (w : dist_work) : list Z :=
  [wk_model_id w; wk_session_hi w; wk_session_lo w; wk_request_hi w; wk_request_lo w; wk_prefix_hash_hi w; wk_prefix_hash_lo w;
    wk_result_hash_hi w; wk_result_hash_lo w; wk_pos0 w; wk_n_tokens w; wk_layer_start w; wk_layer_end w; wk_flags w; wk_token_bytes w;
    wk_input_hc_bytes w; wk_input_hc_bits w; wk_route_count w; wk_route_index w; wk_route_bytes w].

Lemma dist_work_wire w rest : Forall is_u32 (work_words w) → dist_work_from_wire (dist_work_to_wire w ++ rest) = w.
Proof. intros H. unfold work_words in H. repeat (apply Forall_cons in H as [? H]). unfold dist_work_from_wire, dist_work_to_wire. cbn zeta. read_words. by destruct w. Qed.

Lemma halves v : is_u64 v → dist_u64_from_halves (dist_u64_to_halves v).1 (dist_u64_to_halves v).2 = v ∧ is_u32 (dist_u64_to_halves v).1 ∧ is_u32 (dist_u64_to_halves v).2.
Proof.
  unfold is_u64, is_u32, dist_u64_from_halves, dist_u64_to_halves, u32, u64. cbn [fst snd]. intros Hv. rewrite Z.shiftr_div_pow2, Z.shiftl_mul_pow2 by lia.
  rewrite (Z.mod_small (v / 2 ^ 32)) by (split; [apply Z.div_pos; lia|apply Z.div_lt_upper_bound; lia]). rewrite Z.mod_small by (pose proof (Z.mul_div_le v (2 ^ 32)); pose proof (Z.div_pos v (2^32)); lia).
  pose proof (Z.mod_pos_bound v (2 ^ 32)) as Hm. assert (Hd : 0 <= v / 2 ^ 32 < 2 ^ 32) by (split; [apply Z.div_pos; lia|apply Z.div_lt_upper_bound; lia]).
  split; [|lia].
  assert (Hland : Z.land (v / 2 ^ 32 * 2 ^ 32) (v mod 2 ^ 32) = 0).
  { apply Z.bits_inj'. intros i Hi. rewrite Z.land_spec, Z.bits_0. destruct (Z.ltb_spec i 32); [rewrite Z.mul_pow2_bits_low by lia; done|].
    rewrite Z.mod_pow2_bits_high by lia. apply andb_false_r. }
  rewrite <- Z.lxor_lor, <- Z.add_nocarry_lxor by done. pose proof (Z.div_mod v (2 ^ 32)). lia.
Qed.

Lemma token_hash_update_u64 h t : is_u64 (dist_token_hash_update h t).
Proof. apply u64_range. Qed.
Lemma token_hash_span_u64 l : ∀ h, is_u64 h → is_u64 (dist_token_hash_update_span h l).
Proof. induction l as [|t l IH]; intros h Hh; [done|]. apply IH, token_hash_update_u64. Qed.
Lemma token_hash_prefix_u64 l : is_u64 (dist_token_hash_prefix l).
Proof. apply token_hash_span_u64. unfold is_u64, DS4_DIST_TOKEN_HASH_INIT. lia. Qed.
Lemma token_hash_span_app h a b : dist_token_hash_update_span h (a ++ b) = dist_token_hash_update_span (dist_token_hash_update_span h a) b.
Proof. apply foldl_app. Qed.

(** ** Hidden states *)

(** What a hidden state is after it was sent. *)
Definition quantize (bits : Z) (l : list Z) : list Z :=
  let b := dist_activation_bits_or_default bits in
  if b =? 32 then l else if b =? 16 then (λ x, dist_f16_to_f32 (dist_f32_to_f16 x)) <$> l else (λ x, dist_f8_e4m3_to_f32 (dist_f32_to_f8_e4m3 x)) <$> l.

Lemma quantize_length bits l : length (quantize bits l) = length l.
Proof. unfold quantize. cbn zeta. repeat case_if; by rewrite ?length_fmap. Qed.

Lemma lor_below n a b : 0 <= n → 0 <= a < 2 ^ n → 0 <= b < 2 ^ n → 0 <= Z.lor a b < 2 ^ n.
Proof.
  intros Hn [Ha Ha'] [Hb Hb']. assert (H0 : 0 <= Z.lor a b) by (apply Z.lor_nonneg; lia). split; [done|]. destruct (Z.eq_dec (Z.lor a b) 0) as [->|Hne]; [apply Z.pow_pos_nonneg; lia|].
  apply Z.log2_lt_pow2; [lia|]. rewrite Z.log2_lor by lia. apply Z.max_lub_lt.
  - destruct (Z.eq_dec a 0) as [->|]; [|apply Z.log2_lt_pow2; lia]. cbn. destruct (Z.eq_dec n 0) as [->|]; [|lia]. exfalso. apply Hne. replace b with 0 by (change (2 ^ 0) with 1 in Hb'; lia). done.
  - destruct (Z.eq_dec b 0) as [->|]; [|apply Z.log2_lt_pow2; lia]. cbn. destruct (Z.eq_dec n 0) as [->|]; [|lia]. exfalso. apply Hne. rewrite Z.lor_0_r. change (2 ^ 0) with 1 in Ha'. lia.
Qed.

Lemma land_mask x n : 0 <= n → 0 <= Z.land x (Z.ones n) < 2 ^ n.
Proof. intros Hn. rewrite Z.land_ones by done. apply Z.mod_pos_bound, Z.pow_pos_nonneg; lia. Qed.

Lemma sign_below x : 0 <= Z.land x 32768 < 2 ^ 16.
Proof. change 32768 with (Z.land 32768 (Z.ones 16)). rewrite Z.land_assoc. by apply land_mask. Qed.

Lemma f16_range x : 0 <= dist_f32_to_f16 x < 2 ^ 16.
Proof.
  unfold dist_f32_to_f16. cbn zeta. pose proof (sign_below (Z.shiftr x 16)) as Hs. pose proof (land_mask (Z.shiftr x 23) 8 ltac:(done)) as He. change (Z.ones 8) with 255 in He.
  pose proof (land_mask x 23 ltac:(done)) as Hm. change (Z.ones 23) with 8388607 in Hm. destruct (Z.leb_spec (Z.land (Z.shiftr x 23) 255 - 127 + 15) 0) as [He0|He0].
  - destruct (Z.ltb_spec (Z.land (Z.shiftr x 23) 255 - 127 + 15) (-10)) as [|He1]; [done|]. apply lor_below; [done|done|].
    pose proof (lor_below 24 (Z.land x 8388607) 8388608 ltac:(done) ltac:(lia) ltac:(lia)) as Hl. set (k := 14 - _). assert (Hk : 14 <= k) by lia.
    assert (Hsh : 0 <= Z.shiftr (Z.lor (Z.land x 8388607) 8388608) k < 2 ^ 10).
    { rewrite Z.shiftr_div_pow2 by lia. split; [apply Z.div_pos; [lia|apply Z.pow_pos_nonneg; lia]|]. apply Z.div_lt_upper_bound; [apply Z.pow_pos_nonneg; lia|].
      rewrite <- Z.pow_add_r by lia. eapply Z.lt_le_trans; [apply Hl|]. apply Z.pow_le_mono_r; lia. }
    case_if; change (2 ^ 10) with 1024 in Hsh; lia.
  - destruct (Z.leb_spec 31 (Z.land (Z.shiftr x 23) 255 - 127 + 15)); [case_if; (apply lor_below; [done|done|lia])|]. apply Z.mod_pos_bound. lia.
Qed.

Lemma get16_put16 v rest : 0 <= v < 2 ^ 16 → get16 (put16 v ++ rest) = v.
Proof.
  intros Hv. unfold get16, put16. cbn [app nth]. unfold u8. rewrite (Z.mod_small (Z.shiftr v 8)) by (rewrite Z.shiftr_div_pow2 by done; split; [apply Z.div_pos; lia|apply Z.div_lt_upper_bound; lia]).
  apply Z.bits_inj'. intros i Hi. rewrite Z.lor_spec. destruct (Z.ltb_spec i 8).
  - rewrite Z.shiftl_spec_low, orb_false_r by done. apply Z.mod_pow2_bits_low. lia.
  - rewrite Z.mod_pow2_bits_high, Z.shiftl_spec, Z.shiftr_spec by lia. cbn. f_equal. lia.
Qed.

Lemma array_of_spec {A} (size : nat) (get : bytes → Z) (put : A → bytes) (val : A → Z) l : (∀ x, x ∈ l → length (put x) = size ∧ ∀ rest, get (put x ++ rest) = val x) →
  array_of size get (length l) (l ≫= put) = val <$> l.
Proof.
  induction l as [|x l IH]; intros Hl; [done|]. destruct (Hl x) as [Hlen Hget]; [set_solver|]. cbn [mbind list_bind length array_of fmap list_fmap]. rewrite Hget. f_equal.
  rewrite (drop_app_length' (put x)) by done. apply IH. intros y Hy. apply Hl. set_solver.
Qed.

Lemma bind_length {A} (size : nat) (put : A → bytes) l : (∀ x, length (put x) = size) → length (l ≫= put) = (size * length l)%nat.
Proof. intros Hp. induction l as [|x l IH]; [cbn; lia|]. cbn [mbind list_bind length]. rewrite length_app, Hp, IH. lia. Qed.

Definition width (bits : Z) : Z := dist_activation_bits_or_default bits / 8.

Lemma valid_cases bits : dist_activation_bits_valid bits = true → let b := dist_activation_bits_or_default bits in
  dist_activation_bits_or_default b = b ∧ dist_activation_bits_valid b = true ∧ (b = 32 ∨ b = 16 ∨ b = 8).
Proof.
  unfold dist_activation_bits_valid. cbn zeta. set (b := dist_activation_bits_or_default bits). intros Hv. assert (Hb : b = 32 ∨ b = 16 ∨ b = 8).
  { apply orb_true_iff in Hv as [[Hv|Hv]%orb_true_iff|Hv]; apply Z.eqb_eq in Hv; tauto. }
  split; [|split; [|done]]; destruct Hb as [->|[->| ->]]; done.
Qed.

Lemma width_range bits : dist_activation_bits_valid bits = true → dist_activation_bits_or_default bits mod 8 = 0 ∧ 1 <= width bits <= 4.
Proof. intros (_ & _ & Hb)%valid_cases. unfold width. destruct Hb as [->|[->| ->]]; split; done. Qed.

Lemma wire_bytes_valid bits n : dist_activation_bits_valid bits = true → 0 <= n → 4 * n <= UINT32_MAX → dist_activation_wire_bytes bits n = Some (n * width bits).
Proof.
  intros Hv Hn Hmax. destruct (valid_cases bits Hv) as (_ & E & _). destruct (width_range bits Hv) as [Hm Hw]. unfold dist_activation_wire_bytes. cbn zeta.
  rewrite E, Hm. cbn [negb orb Z.eqb]. change (dist_activation_bits_or_default bits / 8) with (width bits). rewrite u64_small by (unfold is_u64; nia). destruct (Z.ltb_spec UINT32_MAX (n * width bits)); [nia|done].
Qed.

Lemma values_valid bits n : dist_activation_bits_valid bits = true → dist_activation_values_from_wire_bytes bits (n * width bits) = Some n.
Proof.
  intros Hv. destruct (valid_cases bits Hv) as (_ & E & _). destruct (width_range bits Hv) as [Hm Hw]. unfold dist_activation_values_from_wire_bytes. cbn zeta.
  rewrite E, Hm. cbn [negb orb Z.eqb]. change (dist_activation_bits_or_default bits / 8) with (width bits). rewrite Z.mod_mul, Z.div_mul by lia. destruct (Z.eqb_spec (width bits) 0); [lia|done].
Qed.

(** A hidden state arrives as its values at the width of the wire. *)
Lemma activation_roundtrip bits l : dist_activation_bits_valid bits = true → Forall is_u32 l → l ≠ [] → 4 * Z.of_nat (length l) <= UINT32_MAX →
  ∃ wire, dist_write_activation_payload (Some l) (Z.of_nat (length l)) bits = Some wire ∧ Z.of_nat (length wire) = Z.of_nat (length l) * width bits
    ∧ dist_decode_activation_payload (Some wire) bits (Z.of_nat (length wire)) = inr (quantize bits l).
Proof.
  intros Hv Hl Hne Hmax. destruct (valid_cases bits Hv) as (E1 & E2 & Hb). pose proof (values_valid bits (Z.of_nat (length l)) Hv) as Hval.
  assert (Hput : ∃ (put : Z → bytes), dist_write_activation_payload (Some l) (Z.of_nat (length l)) bits = Some (l ≫= put) ∧ (∀ x, length (put x) = Z.to_nat (width bits))
    ∧ quantize bits l = let b := dist_activation_bits_or_default bits in (if b =? 32 then array_of 4 kv_store_le_get32 (length l) (l ≫= put)
               else if b =? 16 then dist_f16_to_f32 <$> array_of 2 get16 (length l) (l ≫= put) else dist_f8_e4m3_to_f32 <$> array_of 1 get8 (length l) (l ≫= put))).
  { unfold dist_write_activation_payload, quantize, width. cbn zeta. rewrite E2. cbn [negb]. destruct (Z.eqb_spec (Z.of_nat (length l)) 0); [by destruct l|]. cbn [mbind option_bind].
    rewrite Nat2Z.id, take_ge by done. destruct Hb as [Hb|[Hb|Hb]].
    - exists kv_store_le_put32. rewrite Hb. cbn [Z.eqb Pos.eqb]. rewrite wire_bytes_valid by (done || lia). split; [done|]. split; [done|].
      rewrite (array_of_spec _ _ _ id); [by rewrite list_fmap_id|]. intros x Hx. rewrite Forall_forall in Hl. split; [done|]. intros rest. by apply le_get32_put32, Hl.
    - exists (λ x, put16 (dist_f32_to_f16 x)). rewrite Hb. cbn [Z.eqb Pos.eqb]. split; [done|]. split; [done|].
      rewrite (array_of_spec _ _ _ dist_f32_to_f16); [by rewrite <- list_fmap_compose|]. intros x _. split; [done|]. intros rest. apply get16_put16, f16_range.
    - exists (λ x, [dist_f32_to_f8_e4m3 x]). rewrite Hb. cbn [Z.eqb Pos.eqb]. split; [done|]. split; [done|].
      rewrite (array_of_spec _ _ _ dist_f32_to_f8_e4m3); [by rewrite <- list_fmap_compose|]. done. }
  destruct Hput as (put & Hs & Hlen & Hq). assert (Hlw : Z.of_nat (length (l ≫= put)) = Z.of_nat (length l) * width bits).
  { rewrite (bind_length _ _ _ Hlen). destruct (width_range bits Hv). nia. }
  eexists. split; [exact Hs|]. split; [done|]. rewrite Hlw. unfold dist_decode_activation_payload. cbn zeta. rewrite E2, andb_false_r. cbn [negb].
  assert (Hval' : dist_activation_values_from_wire_bytes (dist_activation_bits_or_default bits) (Z.of_nat (length l) * width bits) = Some (Z.of_nat (length l))).
  { rewrite <- Hval. unfold dist_activation_values_from_wire_bytes. by rewrite E1. }
  rewrite Hval'. destruct (Z.ltb_spec UINT32_MAX (Z.of_nat (length l) * 4)); [lia|]. cbn [default]. rewrite Nat2Z.id. by rewrite Hq.
Qed.

(** ** Results *)

Lemma relay_copy_all fuel : ∀ a b, Z.of_nat (length a) <= Z.of_nat fuel * RELAY_PIECE → relay_copy fuel (net_of (a ++ b)) (Z.of_nat (length a)) = (a, net_of b, true).
Proof.
  induction fuel as [|fuel IH]; intros a b Hf; (destruct (Z.eqb_spec (Z.of_nat (length a)) 0) as [E|E]; [destruct a; [by destruct b|cbn [length] in E; lia]|]); [lia|].
  cbn [relay_copy]. destruct (Z.eqb_spec (Z.of_nat (length a)) 0) as [?|_]; [done|]. set (n := if Z.of_nat (length a) <? RELAY_PIECE then _ else _).
  assert (Hn : 0 <= n <= Z.of_nat (length a) ∧ (n = Z.of_nat (length a) ∨ n = RELAY_PIECE)) by (unfold n, RELAY_PIECE; destruct (Z.ltb_spec (Z.of_nat (length a)) 1048576); lia). clearbody n.
  rewrite <- (take_drop (Z.to_nat n) a) at 1. rewrite <- app_assoc, (read_net_len (take (Z.to_nat n) a)) by (rewrite length_take; lia).
  replace (Z.of_nat (length a) - n) with (Z.of_nat (length (drop (Z.to_nat n) a))) by (rewrite length_drop; lia).
  rewrite IH; [by rewrite take_drop|]. rewrite length_drop. unfold RELAY_PIECE in *. lia.
Qed.

Lemma relay_copy_net a b n : n = Z.of_nat (length a) → relay_copy (relay_fuel n) (net_of (a ++ b)) n = (a, net_of b, true).
Proof.
  intros ->. apply relay_copy_all. unfold relay_fuel, RELAY_PIECE. pose proof (Z.div_mod (Z.of_nat (length a)) 1048576 ltac:(lia)). pose proof (Z.mod_pos_bound (Z.of_nat (length a)) 1048576 ltac:(lia)).
  pose proof (Z.div_pos (Z.of_nat (length a)) 1048576). lia.
Qed.

(** A result that is no error, with what every worker on the way measured. *)
Definition result_head (rid hash kind bits : Z) (tel : list dist_telemetry) (body : bytes) : dist_result :=
  DistResult (dist_u64_to_halves rid).1 (dist_u64_to_halves rid).2 (dist_u64_to_halves hash).1 (dist_u64_to_halves hash).2 0 kind (Z.of_nat (length tel))
    (Z.of_nat (length tel) * Z.of_nat TELEMETRY_SIZE) (Z.of_nat (length body)) bits.
Definition result_size (tel : list dist_telemetry) (body : bytes) : Z := Z.of_nat RESULT_SIZE + Z.of_nat (length tel) * Z.of_nat TELEMETRY_SIZE + Z.of_nat (length body).
Definition result_frame (rid hash kind bits : Z) (tel : list dist_telemetry) (body : bytes) : bytes :=
  dist_write_frame_header DS4_DIST_MSG_RESULT (result_size tel body) ++ dist_result_to_wire (result_head rid hash kind bits tel body) ++ (tel ≫= dist_telemetry_to_wire) ++ body.

Lemma result_frame_net rid hash kind bits tel body : [NData (result_frame rid hash kind bits tel body)] = net_of (result_frame rid hash kind bits tel body).
Proof. done. Qed.

Lemma telemetry_length tel : length (tel ≫= dist_telemetry_to_wire) = (TELEMETRY_SIZE * length tel)%nat.
Proof. apply bind_length. done. Qed.

Record result_ok (rid hash kind bits : Z) (tel : list dist_telemetry) (body : bytes) : Prop := {
  ro_rid : is_u64 rid; ro_hash : is_u64 hash; ro_kind : is_u32 kind; ro_bits : is_u32 bits; ro_size : result_size tel body <= UINT32_MAX;
}.

Section good_result.
Context rid hash kind bits tel body (Hok : result_ok rid hash kind bits tel body).

Lemma result_head_read rest : dist_read_frame_header (net_of (result_frame rid hash kind bits tel body ++ rest)) =
    inr (DS4_DIST_MSG_RESULT, result_size tel body, net_of (dist_result_to_wire (result_head rid hash kind bits tel body) ++ (tel ≫= dist_telemetry_to_wire) ++ body ++ rest))
  ∧ dist_result_from_wire (dist_result_to_wire (result_head rid hash kind bits tel body)) = result_head rid hash kind bits tel body
  ∧ result_sizes_ok (result_head rid hash kind bits tel body) (result_size tel body - Z.of_nat RESULT_SIZE) = true
  ∧ (result_size tel body <? Z.of_nat RESULT_SIZE) = false
  ∧ dist_u64_from_halves (rs_request_hi (result_head rid hash kind bits tel body)) (rs_request_lo (result_head rid hash kind bits tel body)) = rid.
Proof.
  destruct Hok as [Hr Hh Hk Hb Hs]. unfold result_size, RESULT_SIZE, TELEMETRY_SIZE in *. destruct (halves rid Hr) as (Er & ? & ?), (halves hash Hh) as (Eh & ? & ?). split_and!.
  - unfold result_frame. rewrite <- !app_assoc. rewrite frame_header_read; [done|unfold is_u32, DS4_DIST_MSG_RESULT; lia|unfold is_u32, result_size, RESULT_SIZE, TELEMETRY_SIZE; lia].
  - rewrite <- (app_nil_r (dist_result_to_wire _)). apply dist_result_wire. unfold result_head. cbn. repeat (apply Forall_cons; split); try done; unfold is_u32, TELEMETRY_SIZE; lia.
  - unfold result_sizes_ok, result_head, TELEMETRY_SIZE. cbn [rs_telemetry_bytes rs_telemetry_count rs_payload_bytes]. change (Z.of_nat 40) with 40. rewrite Z.mod_mul, Z.div_mul by lia. rewrite !Z.eqb_refl. cbn [andb].
    apply andb_true_iff. split; [apply Z.leb_le; lia|apply Z.eqb_eq; lia].
  - apply Z.ltb_ge. lia.
  - done.
Qed.

(** The relay passes the result on and adds what it measured. *)
Lemma relay_good `{!Clock} depth t : result_size tel body + Z.of_nat TELEMETRY_SIZE <= UINT32_MAX →
  relay_round (Forwarder [PendingRequest rid t] depth false) (net_of (result_frame rid hash kind bits tel body))
  = (Forwarder [] depth false, result_frame rid hash kind bits (tel ++ [set_downstream_usec (downstream_usec rid (te_route_index t)) t]) body, [], true).
Proof.
  intros Hsize. destruct (result_head_read []) as (H1 & H2 & H3 & H4 & H5). rewrite !app_nil_r in H1. unfold relay_round. cbn zeta. rewrite H1. rewrite H4. cbn [negb Z.eqb Pos.eqb orb DS4_DIST_MSG_RESULT].
  rewrite (read_net_len _ _ RESULT_SIZE) by done. rewrite H2, H3. cbn [negb dist_worker_forwarder_pop_request fw_pending set_pending fw_depth fw_closing pq_request_id pq_telemetry]. rewrite H5, Z.eqb_refl. cbn [negb].
  set (t' := set_downstream_usec _ t). destruct Hok as [Hr Hh Hk Hb Hs]. unfold result_size, RESULT_SIZE, TELEMETRY_SIZE in *. cbn [result_head rs_telemetry_bytes rs_telemetry_count rs_payload_bytes rs_request_hi rs_request_lo
    rs_result_hash_hi rs_result_hash_lo rs_status rs_result_kind rs_payload_bits]. unfold TELEMETRY_SIZE.
  rewrite u32_small by (unfold is_u32; lia). destruct (Z.ltb_spec UINT32_MAX (Z.of_nat (length tel) * Z.of_nat 40 + Z.of_nat 40)); [lia|]. destruct (Z.eqb_spec (Z.of_nat (length tel) + 1) 0); [lia|]. cbn [orb].
  destruct (Z.ltb_spec UINT32_MAX (Z.of_nat 40 + (Z.of_nat (length tel) * Z.of_nat 40 + Z.of_nat 40) + Z.of_nat (length body))); [lia|].
  rewrite (relay_copy_net (tel ≫= dist_telemetry_to_wire) body) by (rewrite telemetry_length; unfold TELEMETRY_SIZE; lia). cbn [negb].
  pose proof (relay_copy_net body [] (Z.of_nat (length body)) eq_refl) as Hb'. rewrite app_nil_r in Hb'. rewrite Hb'. unfold result_frame, result_head, result_size, RESULT_SIZE, TELEMETRY_SIZE.
  rewrite !length_app. cbn [length]. rewrite bind_app. cbn [mbind list_bind]. rewrite app_nil_r, <- !app_assoc. repeat f_equal; lia.
Qed.

(** The payload as the coordinator gets it. *)
Lemma recv_good errno_text : dist_recv_result_alloc errno_text (net_of (result_frame rid hash kind bits tel body)) rid =
  (if (kind =? DS4_DIST_RESULT_HIDDEN_STATE) && negb (Z.of_nat (length body) =? 0) then
     match dist_decode_activation_payload (Some body) bits (Z.of_nat (length body)) with inl msg => inl (1, msg) | inr l => inr (kind, hash, l, 4 * Z.of_nat (length l)) end
   else inr (kind, hash, received_floats body (Z.of_nat (length body)), Z.of_nat (length body))).
Proof.
  destruct (result_head_read []) as (H1 & H2 & H3 & H4 & H5). rewrite !app_nil_r in H1. unfold dist_recv_result_alloc. cbn zeta. rewrite H1, H4. cbn [negb Z.eqb Pos.eqb orb DS4_DIST_MSG_RESULT].
  rewrite (read_net_len _ _ RESULT_SIZE) by done. rewrite H2, H3. cbn [negb]. rewrite H5, Z.eqb_refl. cbn [negb]. destruct Hok as [Hr Hh Hk Hb Hs]. destruct (halves hash Hh) as (Eh & _).
  cbn [result_head rs_telemetry_bytes rs_telemetry_count rs_payload_bytes rs_request_hi rs_request_lo rs_result_hash_hi rs_result_hash_lo rs_status rs_result_kind rs_payload_bits Z.eqb negb].
  rewrite (read_net_len (tel ≫= dist_telemetry_to_wire)) by (rewrite telemetry_length; unfold TELEMETRY_SIZE; lia). rewrite read_net_all by lia. by rewrite Eh.
Qed.
End good_result.
(** ** Slices of layers *)

Section slice.
Context `{!GlmKernels} (e : slice_engine).

(** A forward pass over some tokens fills the buffers it is given. *)
Definition fills (n : nat) (want_out want_logits : bool) (r : bool * kv_state * list Z * list Z) : Prop :=
  let '(ok, _, out, lg) := r in ok = true →
    (want_out = true → Z.of_nat (length out) = Z.of_nat n * se_hidden e ∧ Forall is_u32 out) ∧ (want_logits = true → Z.of_nat (length lg) = se_vocab e ∧ Forall is_u32 lg).

Record kernels_fill : Prop := {
  kf_token kv t i pos o l : fills 1 o l (glm_graph_forward_token kv t i pos o l);
  kf_tokens kv ts i pos o l : fills (length ts) o l (glm_graph_forward_tokens kv ts i pos o l);
  kf_indexed kv ts i pos o l : fills (length ts) o l (glm_graph_forward_indexed_tokens kv ts i pos o l);
  kf_head kv h : let '(ok, _, lg) := glm_graph_encode_output_head kv h in ok = true → Z.of_nat (length lg) = se_vocab e ∧ Forall is_u32 lg;
  kf_caps : 0 <= gg_indexed_prefill_cap (se_graph e) ∧ 0 <= se_hidden e ∧ 0 <= se_vocab e ∧ 0 <= gg_ctx_cap (se_graph e);
}.

(** What a pass leaves of the session. *)
Definition same_timeline (pos : Z) (s s' : slice_session) : Prop :=
  sl_checkpoint_valid s' = sl_checkpoint_valid s ∧ sl_checkpoint s' = sl_checkpoint s ∧ sl_ctx_size s' = sl_ctx_size s ∧ sl_prefill_cap s' = sl_prefill_cap s
  ∧ (sl_dense_cache_len s = 0 → sl_checkpoint s = [] ∨ 0 < pos → sl_dense_cache_len s' = 0).

Lemma same_timeline_trans pos pos' a b c : pos <= pos' → same_timeline pos a b → same_timeline pos' b c → same_timeline pos a c.
Proof.
  intros Hle (H1 & H2 & H3 & H4 & H5) (G1 & G2 & G3 & G4 & G5). unfold same_timeline. rewrite G1, G2, G3, G4. split_and!; try done. intros Hd Hc. apply G5; [by apply H5|]. rewrite H2. destruct Hc; [by left|right; lia].
Qed.

Lemma cap_timeline s : sl_checkpoint s = [] → 0 <= gg_ctx_cap (se_graph e) → 0 <= sl_dense_cache_len s → sl_dense_cache_len (ds4_session_glm_cap_dense_cache e s) = 0.
Proof.
  intros Hc Hcap Hd. unfold ds4_session_glm_cap_dense_cache. case_if; [done|]. rewrite Hc. cbn zeta. change (u32 (Z.of_nat (length []))) with 0. rewrite (proj2 (Z.ltb_ge (gg_ctx_cap (se_graph e)) 0)) by lia.
  rewrite andb_false_r. destruct (Z.ltb_spec 0 (sl_dense_cache_len s)); [done|lia].
Qed.

Lemma note_timeline s pos n : 0 <= gg_ctx_cap (se_graph e) → same_timeline pos s (ds4_session_glm_note_dense_cache e s pos n).
Proof.
  intros Hcap. unfold ds4_session_glm_note_dense_cache. case_if; [done|]. case_if; [done|]. destruct (Z.ltb_spec (sl_dense_cache_len s) pos); [done|]. set (f := if _ && _ then _ else _).
  assert (Hf : 0 <= f) by (unfold f; pose proof (u32_range (pos + n)) as Hu; unfold is_u32 in Hu; repeat case_if; lia). clearbody f.
  split_and!; try (unfold ds4_session_glm_cap_dense_cache; repeat case_if; done).
  intros Hz [Hc|Hp]; [by apply cap_timeline|lia].
Qed.

Lemma kv_timeline pos kv s : same_timeline pos s (set_kv kv s).
Proof. done. Qed.

Lemma noted_timeline (b : bool) kv s pos n : 0 <= gg_ctx_cap (se_graph e) → same_timeline pos s (if b then ds4_session_glm_note_dense_cache e (set_kv kv s) pos n else set_kv kv s).
Proof. intros Hcap. destruct b; [|done]. apply (same_timeline_trans pos pos _ (set_kv kv s)); [done|done|by apply note_timeline]. Qed.

Context (Hk : kernels_fill).

Lemma slice_piece_spec s rest pos input want_out want_logits : rest ≠ [] → 0 <= pos → ∃ chunk s' r, slice_piece e s rest pos input want_out want_logits = (chunk, s', r)
  ∧ 1 <= chunk <= Z.of_nat (length rest) ∧ same_timeline pos s s'
  ∧ (∀ o l, r = Some (o, l) → (want_out = true → Z.of_nat (length o) = chunk * se_hidden e ∧ Forall is_u32 o)
       ∧ (want_logits = true → chunk = Z.of_nat (length rest) → Z.of_nat (length l) = se_vocab e ∧ Forall is_u32 l)).
Proof.
  intros Hne Hpos. destruct (kf_caps Hk) as (Hcap & Hh & Hv & Hctx). assert (Hlen : 1 <= Z.of_nat (length rest)) by (destruct rest; [done|cbn [length]; lia]). unfold slice_piece. cbn zeta.
  match goal with |- context [if ?b && (0 <? pos) && ?c then _ else _] => destruct (b && (0 <? pos) && c) eqn:E1 end.
  { pose proof (kf_token Hk (sl_kv s) (hd0 rest) input pos want_out want_logits) as Hf. destruct (glm_graph_forward_token _ _ _ _ _ _) as [[[ok kv] out] lg]. cbn [fills] in Hf. refine (ex_intro _ _ (ex_intro _ _ (ex_intro _ _ (conj eq_refl _)))).
    split; [lia|]. split; [by apply noted_timeline|]. intros o l Ho. destruct ok; [|done]. injection Ho as <- <-. destruct (Hf eq_refl) as [F1 F2].
    split; [intros ->; destruct F1 as [F1 Fu]; [done|]; split; [cbv beta iota; nia|exact Fu]|]. intros -> _. by apply F2. }
  destruct (gg_full_kv_cache (se_graph e) && (pos <? gg_ctx_cap (se_graph e))) eqn:E2.
  { set (chunk := if _ <? _ then _ else _). assert (Hc : 1 <= chunk <= Z.of_nat (length rest)).
    { unfold chunk. apply andb_true_iff in E2 as [_ E2]. destruct (Z.ltb_spec (gg_ctx_cap (se_graph e) - pos) (Z.of_nat (length rest))); lia. } clearbody chunk.
    pose proof (kf_tokens Hk (sl_kv s) (take (Z.to_nat chunk) rest) (take (Z.to_nat (chunk * se_hidden e)) <$> input) pos want_out (want_logits && (chunk =? Z.of_nat (length rest)))) as Hf.
    destruct (glm_graph_forward_tokens _ _ _ _ _ _) as [[[ok kv] out] lg]. cbn [fills] in Hf. rewrite length_take in Hf. refine (ex_intro _ _ (ex_intro _ _ (ex_intro _ _ (conj eq_refl _)))).
    split; [lia|]. split; [by apply noted_timeline|]. intros o l Ho. destruct ok; [|done]. injection Ho as <- <-. destruct (Hf eq_refl) as [F1 F2].
    split; [intros ->; destruct F1 as [F1 Fu]; [done|]; split; [cbv beta iota; nia|exact Fu]|]. intros -> E. rewrite (proj2 (Z.eqb_eq _ _) E) in F2. rewrite ?(proj2 (Z.eqb_eq _ _) E). exact (F2 eq_refl). }
  destruct (glm_graph_indexed_prefill_batch_ready e pos) eqn:E3.
  { set (chunk := if _ =? 0 then 1 else _). assert (Hc : 1 <= chunk <= Z.of_nat (length rest)).
    { unfold chunk, glm_graph_limit_indexed_prefill_chunk. cbn zeta. repeat case_if; bool_to_prop; lia. } clearbody chunk.
    pose proof (kf_indexed Hk (sl_kv s) (take (Z.to_nat chunk) rest) (take (Z.to_nat (chunk * se_hidden e)) <$> input) pos want_out (want_logits && (chunk =? Z.of_nat (length rest)))) as Hf.
    destruct (glm_graph_forward_indexed_tokens _ _ _ _ _ _) as [[[ok kv] out] lg]. cbn [fills] in Hf. rewrite length_take in Hf. refine (ex_intro _ _ (ex_intro _ _ (ex_intro _ _ (conj eq_refl _)))).
    split; [lia|]. split; [apply kv_timeline|]. intros o l Ho. destruct ok; [|done]. injection Ho as <- <-. destruct (Hf eq_refl) as [F1 F2].
    split; [intros ->; destruct F1 as [F1 Fu]; [done|]; split; [cbv beta iota; nia|exact Fu]|]. intros -> E. rewrite (proj2 (Z.eqb_eq _ _) E) in F2. rewrite ?(proj2 (Z.eqb_eq _ _) E). exact (F2 eq_refl). }
  pose proof (kf_token Hk (sl_kv s) (hd0 rest) (take (Z.to_nat (se_hidden e)) <$> input) pos want_out (want_logits && (1 =? Z.of_nat (length rest)))) as Hf.
  destruct (glm_graph_forward_token _ _ _ _ _ _) as [[[ok kv] out] lg]. cbn [fills] in Hf. refine (ex_intro _ _ (ex_intro _ _ (ex_intro _ _ (conj eq_refl _)))).
  split; [lia|]. split; [apply kv_timeline|]. intros o l Ho. destruct ok; [|done]. injection Ho as <- <-. destruct (Hf eq_refl) as [F1 F2].
  split; [intros ->; destruct F1 as [F1 Fu]; [done|]; split; [cbv beta iota; nia|exact Fu]|]. intros -> E. rewrite <- E in F2 |- *. exact (F2 eq_refl).
Qed.

(** The loop ends, keeps the timeline and fills the buffers. *)
Lemma slice_loop_spec fuel : ∀ s rest pos input want_out want_logits out lg, (length rest <= fuel)%nat → 0 <= pos →
  ∃ s' r, slice_loop e fuel s rest pos input want_out want_logits out lg = Some (s', r)
    ∧ match r with
      | inl _ => sl_checkpoint s' = sl_checkpoint s ∧ sl_checkpoint_valid s' = false
      | inr (o, l) => same_timeline pos s s'
          ∧ (want_out = true → Forall is_u32 out → Z.of_nat (length o) = Z.of_nat (length out) + Z.of_nat (length rest) * se_hidden e ∧ Forall is_u32 o)
          ∧ match rest with [] => l = lg | _ => want_logits = true → Z.of_nat (length l) = se_vocab e ∧ Forall is_u32 l end
      end.
Proof.
  induction fuel as [|fuel IH]; intros s rest pos input want_out want_logits out lg Hf Hpos; (destruct rest as [|t rest]; [eexists _, _; split; [done|]; split; [done|]; split; [intros _ ?; cbn [length]; split; [lia|done]|done]|]); [cbn [length] in Hf; lia|].
  set (l0 := t :: rest) in *. cbn [slice_loop]. change (match l0 with [] => ?a | _ => ?b end) with b. fold l0. destruct (slice_piece_spec s l0 pos input want_out want_logits) as (chunk & s1 & r & -> & Hc & Ht & Hr); [done|done|].
  destruct r as [[o l]|].
  2:{ eexists _, _. split; [done|]. destruct Ht as (_ & Ht & _). unfold ds4_session_glm_cap_dense_cache. repeat case_if; by rewrite <- Ht. }
  destruct (Hr o l eq_refl) as [Ho Hl]. set (lg' := if _ =? _ then l else lg).
  destruct (IH s1 (drop (Z.to_nat chunk) l0) (pos + chunk) (drop (Z.to_nat (chunk * se_hidden e)) <$> input) want_out want_logits (out ++ o) lg') as (s2 & r & -> & H2); [rewrite length_drop; lia|lia|].
  eexists _, _. split; [done|]. destruct r as [msg|[o2 l2]]; [destruct H2 as [-> ->]; by destruct Ht as (_ & -> & _)|]. destruct H2 as (Ht2 & Ho2 & Hl2). split; [apply (same_timeline_trans pos (pos + chunk) _ s1); [lia|done|done]|]. split.
  - intros Hw Hu. destruct (Ho Hw) as [Ho' Hou]. destruct (Ho2 Hw) as [E Hu2]; [by apply Forall_app|]. split; [|done]. rewrite E, length_app, length_drop. nia.
  - intros Hw. destruct (drop (Z.to_nat chunk) l0) as [|t' rest'] eqn:Hd; [|by apply Hl2].
    assert (Hce : chunk = Z.of_nat (length l0)) by (apply (f_equal length) in Hd; rewrite length_drop in Hd; cbn [length] in Hd; lia).
    rewrite Hl2. unfold lg'. rewrite (proj2 (Z.eqb_eq _ _) Hce). by apply Hl.
Qed.

(** The next check of the slice refuses, or the code goes on. *)
Ltac slice_check := match goal with |- ∃ _ _, (if ?b then _ else _) = _ ∧ _ => destruct b; [exact (ex_intro _ _ (ex_intro _ _ (conj eq_refl eq_refl)))|] end.

(** A slice ends. It leaves the tokens of the session as they were or adds the span to
    them, and then the buffers are full. *)
Lemma slice_spec s tokens pos0 layer_start layer_end input want_hc want_logits : 0 <= pos0 →
  ∃ s' r, ds4_session_eval_layer_slice e s tokens pos0 layer_start layer_end input want_hc want_logits = Some (s', r)
    ∧ match r with
      | inl _ => sl_checkpoint s' = sl_checkpoint s
      | inr (o, l) => sl_checkpoint_valid s' = true ∧ sl_checkpoint s' = sl_checkpoint s ++ tokens ∧ tokens ≠ []
          ∧ (sl_checkpoint_valid s = true → Z.of_nat (length (sl_checkpoint s)) = pos0) ∧ (sl_checkpoint_valid s = false → pos0 = 0)
          ∧ (want_hc = true → Z.of_nat (length o) = Z.of_nat (length tokens) * se_hidden e ∧ Forall is_u32 o)
          ∧ (want_logits = true → Z.of_nat (length l) = se_vocab e ∧ Forall is_u32 l)
          ∧ (sl_dense_cache_len s = 0 → sl_checkpoint s = [] ∨ 0 < pos0 → sl_dense_cache_len s' = 0)
      end.
Proof.
  intros Hpos. unfold ds4_session_eval_layer_slice. cbn zeta. do 6 slice_check. destruct (ds4_session_slice_check_timeline s (Z.of_nat (length tokens)) pos0) eqn:Ht; [exact (ex_intro _ _ (ex_intro _ _ (conj eq_refl eq_refl)))|].
  do 4 slice_check. destruct (slice_loop_spec (length tokens) s tokens pos0 input want_hc want_logits [] []) as (s1 & r & -> & Hr); [done|done|].
  cbn [mbind option_bind]. destruct r as [msg|[o l]]; [exact (ex_intro _ _ (ex_intro _ _ (conj eq_refl (proj1 Hr))))|]. destruct Hr as ((H1 & H2 & H3 & H4 & H5) & Ho & Hl).
  case_if; [refine (ex_intro _ _ (ex_intro _ _ (conj eq_refl _))); unfold ds4_session_glm_cap_dense_cache; repeat case_if; exact H2|]. refine (ex_intro _ _ (ex_intro _ _ (conj eq_refl _))). unfold ds4_session_slice_check_timeline in Ht.
  destruct (Z.eqb_spec (Z.of_nat (length tokens)) 0) as [|Hne]; [done|]. case_if_in Ht; [done|]. cbn [sl_checkpoint_valid sl_checkpoint sl_dense_cache_len ds4_session_slice_commit_timeline]. rewrite H2. split_and!; try done.
  - intros ->. by apply Hne.
  - intros Hv. rewrite Hv in Ht. cbn [negb] in Ht. by destruct (Z.eqb_spec (Z.of_nat (length (sl_checkpoint s))) pos0).
  - intros Hv. rewrite Hv in Ht. cbn [negb] in Ht. by destruct (Z.eqb_spec pos0 0).
  - intros Hw. apply Ho; [done|constructor].
  - destruct tokens; [done|]. exact Hl.
Qed.

(** ** The rows of a snapshot *)

(** A session that starts at no tokens and takes span after span. *)
Inductive slices (layer_start layer_end : Z) : slice_session → slice_session → Prop :=
  | slices_reset s : slices layer_start layer_end s (ds4_session_layer_slice_reset s)
  | slices_span s s1 s2 tokens pos0 input want_hc want_logits out : slices layer_start layer_end s s1 → 0 <= pos0 →
      ds4_session_eval_layer_slice e s1 tokens pos0 layer_start layer_end input want_hc want_logits = Some (s2, inr out) → slices layer_start layer_end s s2.

(** However many tokens a session has evaluated slice by slice, the length of its dense
    cache is zero: it is cut to the tokens of the session before the new ones are added
    to them. So a snapshot of the session has none of the rows of the full cache. *)
Theorem slice_snapshot_empty layer_start layer_end s s' (Hs : slices layer_start layer_end s s') :
  sl_dense_cache_len s' = 0 ∧ session_glm_full_live_rows e (Z.of_nat (length (sl_checkpoint s'))) (sl_dense_cache_len s') = 0.
Proof.
  assert (Hz : sl_dense_cache_len s' = 0 ∧ (sl_checkpoint s' = [] ∨ sl_checkpoint_valid s' = true ∧ sl_checkpoint s' ≠ [])).
  { induction Hs as [s|s s1 s2 tokens pos0 input want_hc want_logits [o l] Hs [IHd IHc] Hpos He]; [split; [done|by left]|].
    destruct (slice_spec s1 tokens pos0 layer_start layer_end input want_hc want_logits Hpos) as (s3 & r & E & Hr). rewrite He in E. injection E as <- <-. destruct Hr as (H1 & H2 & H3 & H4 & H5 & _ & _ & H6). split.
    - apply H6; [done|]. destruct IHc as [IHc|[IHv IHc]]; [by left|right]. specialize (H4 IHv). destruct (sl_checkpoint s1); [done|cbn [length] in H4; lia].
    - right. split; [done|]. rewrite H2. intros E%app_nil. by destruct E. }
  destruct Hz as [Hz _]. split; [done|]. rewrite Hz. unfold session_glm_full_live_rows. case_if; [done|]. destruct (kf_caps Hk) as (_ & _ & _ & Hc). cbn zeta. repeat case_if; lia.
Qed.
End slice.

Lemma f32_wire_bytes bits n : dist_activation_bits_valid bits = true → 0 <= n → n * 4 <= UINT32_MAX → dist_activation_wire_bytes_from_f32_bytes bits (n * 4) = Some (n * width bits).
Proof. intros Hv Hn Hm. unfold dist_activation_wire_bytes_from_f32_bytes. rewrite Z.mod_mul, Z.div_mul by lia. cbn [Z.eqb negb]. apply wire_bytes_valid; [done|done|lia]. Qed.

(** ** A request over a route *)

Section request.
Context `{!GlmKernels, !Clock} (create : slice_engine → Z → option slice_session).
Context (st : dist_coordinator) (hidden_values vocab : Z) (tokens : list Z) (pos0 sid rid prefix : Z) (reset : bool) (entries : list dist_route_entry) (blob : bytes).

Abbreviation bits := (cd_activation_bits st).
Abbreviation ntok := (Z.of_nat (length tokens)).
Abbreviation result := (dist_token_hash_update_span prefix tokens).
Abbreviation count := (Z.of_nat (length entries)).
Abbreviation output e := (has_flag (re_flags e) DS4_DIST_ROUTE_F_OUTPUT_LOGITS).

(** What the coordinator sends and the sizes of it. *)
Record request_ok : Prop := {
  rq_bits : bits = 32 ∨ bits = 16 ∨ bits = 8;
  rq_tokens : tokens ≠ [] ∧ Forall (λ t, 0 <= t < vocab ∧ t <= INT_MAX) tokens;
  rq_pos : 0 <= pos0 ∧ pos0 + ntok <= INT_MAX;
  rq_ids : is_u64 sid ∧ is_u64 rid ∧ is_u64 prefix ∧ is_u32 (cd_model_id st);
  rq_shape : 0 < hidden_values ∧ 0 < vocab;
  rq_work_size : Z.of_nat WORK_SIZE + ntok * 4 + ntok * hidden_values * 4 + Z.of_nat (length blob) <= UINT32_MAX;
  rq_result_size : Z.of_nat RESULT_SIZE + count * Z.of_nat TELEMETRY_SIZE + Z.max (ntok * hidden_values * 4) (vocab * 4) <= UINT32_MAX;
}.

Definition hop_flags (e : dist_route_entry) : Z :=
  let flags := if reset then Z.lor DS4_DIST_WORK_F_INPUT_HC DS4_DIST_WORK_F_RESET_SESSION else DS4_DIST_WORK_F_INPUT_HC in
  if output e then Z.lor flags DS4_DIST_WORK_F_OUTPUT_LOGITS else flags.

(** The work for an entry of the route. *)
Definition hop_work (i : nat) (e : dist_route_entry) : dist_work :=
  DistWork (cd_model_id st) (dist_u64_to_halves sid).1 (dist_u64_to_halves sid).2 (dist_u64_to_halves rid).1 (dist_u64_to_halves rid).2 (dist_u64_to_halves prefix).1 (dist_u64_to_halves prefix).2
    (dist_u64_to_halves result).1 (dist_u64_to_halves result).2 pos0 ntok (re_layer_start e) (re_layer_end e) (hop_flags e) (ntok * 4) (ntok * hidden_values * width bits) bits count (Z.of_nat i)
    (Z.of_nat (length blob)).
Definition hop_payload (i : nat) (e : dist_route_entry) (wire : bytes) : bytes := dist_work_to_wire (hop_work i e) ++ wire_words tokens ++ wire ++ blob.

Context (Hrq : request_ok) (Hrt : blob ≠ [] ∧ route_readable st entries blob ∧ Forall route_entry_ok entries).

Lemma bits_valid : dist_activation_bits_valid bits = true ∧ dist_activation_bits_or_default bits = bits.
Proof. destruct (rq_bits Hrq) as [->|[->| ->]]; done. Qed.

Lemma hop_flags_bits e : has_flag (hop_flags e) DS4_DIST_WORK_F_INPUT_HC = true ∧ has_flag (hop_flags e) DS4_DIST_WORK_F_OUTPUT_LOGITS = output e
  ∧ has_flag (hop_flags e) DS4_DIST_WORK_F_RESET_SESSION = reset ∧ has_flag (hop_flags e) DS4_DIST_WORK_F_ACK_ONLY = false
  ∧ has_flag (hop_flags e) (Z.lxor UINT32_MAX DS4_DIST_WORK_F_VALID_MASK) = false ∧ is_u32 (hop_flags e).
Proof. unfold hop_flags. destruct reset, (output e); cbn zeta; split_and!; done. Qed.

Lemma hop_words i e : entries !! i = Some e → re_layer_end e < 2 ^ 32 → Forall is_u32 (work_words (hop_work i e)).
Proof.
  intros Hi He. destruct Hrq as [_ [Htk _] [Hp1 Hp2] (H1 & H2 & H3 & H4) [Hh _] Hw Hr]. destruct Hrt as (_ & _ & Hok). pose proof (lookup_lt_Some _ _ _ Hi) as Hlt. rewrite Forall_forall in Hok.
  destruct (Hok e) as [_ _ He' _]; [by eapply list_elem_of_lookup_2|]. destruct (halves sid H1) as (_ & ? & ?), (halves rid H2) as (_ & ? & ?), (halves prefix H3) as (_ & ? & ?).
  destruct (halves result) as (_ & ? & ?); [by apply token_hash_span_u64|]. destruct (hop_flags_bits e) as (_ & _ & _ & _ & _ & Hf). destruct (width_range bits (proj1 bits_valid)) as [_ Hwd].
  assert (0 <= ntok * hidden_values * width bits <= ntok * hidden_values * 4) by (assert (0 <= ntok * hidden_values) by nia; nia). unfold WORK_SIZE, RESULT_SIZE, TELEMETRY_SIZE in *.
  assert (is_u32 bits) by (destruct (rq_bits Hrq) as [->|[->| ->]]; done).
  unfold work_words, hop_work. cbn. repeat (apply Forall_cons; split); try done; unfold is_u32; lia.
Qed.

(** The frame of an entry, and what its worker makes of the hidden state in it. *)
Lemma hop_frame i e hidden : Z.of_nat (length hidden) = ntok * hidden_values → Forall is_u32 hidden → ∃ wire,
  dist_send_work_frame (hop_work i e) tokens (Some hidden) (Some blob)
    = Some (dist_write_frame_header DS4_DIST_MSG_WORK (Z.of_nat (length (hop_payload i e wire))) ++ hop_payload i e wire)
  ∧ Z.of_nat (length wire) = ntok * hidden_values * width bits ∧ Z.of_nat (length (hop_payload i e wire)) <= UINT32_MAX
  ∧ dist_decode_activation_payload (Some wire) bits (ntok * hidden_values * width bits) = inr (quantize bits hidden).
Proof.
  intros Hlen Hu. destruct Hrq as [_ [Htk Htok] [Hp1 Hp2] _ [Hh _] Hw _]. destruct Hrt as (Hbl & _ & _). destruct bits_valid as [Hv Hd]. assert (Hn : 1 <= ntok) by (destruct tokens; [done|cbn [length]; lia]).
  destruct (width_range bits Hv) as [_ Hwd]. unfold WORK_SIZE in Hw. assert (0 < ntok * hidden_values) by nia.
  destruct (activation_roundtrip bits hidden Hv Hu) as (wire & Hs & Hlw & Hdec); [intros ->; cbn in Hlen; lia|rewrite Hlen; lia|]. rewrite Hlen in Hlw, Hs. exists wire.
  assert (Hpl : Z.of_nat (length (hop_payload i e wire)) = Z.of_nat WORK_SIZE + ntok * 4 + ntok * hidden_values * width bits + Z.of_nat (length blob)).
  { unfold hop_payload, dist_work_to_wire. rewrite !length_app, !wire_words_length. unfold WORK_SIZE. cbn [length]. lia. }
  split_and!; [|done|rewrite Hpl; unfold WORK_SIZE; nia|by rewrite Hlw in Hdec].
  unfold dist_send_work_frame. cbn [hop_work wk_n_tokens wk_token_bytes wk_input_hc_bytes wk_route_bytes wk_input_hc_bits]. destruct (Z.eqb_spec ntok 0); [lia|]. rewrite Z.eqb_refl. cbn [negb]. rewrite !andb_false_r.
  destruct (Z.eqb_spec (ntok * hidden_values * width bits) 0); [nia|]. rewrite values_valid by done. cbn [mbind option_bind]. destruct (Z.ltb_spec UINT32_MAX (Z.of_nat WORK_SIZE + ntok * 4 + ntok * hidden_values * width bits + Z.of_nat (length blob))).
  { unfold WORK_SIZE in *. nia. }
  rewrite Hs. cbn [mbind option_bind]. rewrite <- Hpl. destruct (Z.eqb_spec (Z.of_nat (length blob)) 0); [by destruct blob|]. rewrite !Nat2Z.id. cbn [default]. rewrite (take_ge blob), (take_ge tokens) by done.
  replace (u32 <$> tokens) with tokens; [done|]. symmetry. rewrite <- (list_fmap_id tokens) at 2. apply list_fmap_ext. intros k t Ht. rewrite Forall_forall in Htok.
  destruct (Htok t) as [Ht1 Ht2]; [by eapply list_elem_of_lookup_2|]. apply u32_small. unfold is_u32, id. lia.
Qed.

(** A worker that said HELLO with the layers of an entry. *)
Record serves (w : dist_worker_state) (e : dist_route_entry) : Prop := {
  sv_model : dw_model_id w = cd_model_id st;
  sv_layers : dw_layer_start w = re_layer_start e ∧ dw_layer_end w = re_layer_end e ∧ se_layers (dw_engine w) = cd_n_layers st;
  sv_output : dw_has_output w = output e;
  sv_ctx : pos0 + ntok <= dw_ctx_size w <= INT_MAX;
  sv_shape : se_hidden (dw_engine w) = hidden_values ∧ se_vocab (dw_engine w) = vocab;
}.

(** Where an entry is on the route. *)
Record on_route (i : nat) (e : dist_route_entry) : Prop := {
  or_entry : entries !! i = Some e;
  or_layers : 0 < re_layer_start e ∧ re_layer_end e < cd_n_layers st < 2 ^ 32;
  or_output : output e = true → re_layer_end e + 1 = cd_n_layers st;
  or_last : output e = true → entries !! S i = None;
}.

Lemma read_tokens_words : ∀ l rest, Forall (λ t, 0 <= t < vocab ∧ t <= INT_MAX) l → read_work_tokens (length l) vocab (wire_words l ++ rest) = inr (l, rest).
Proof.
  induction l as [|t l IH]; intros rest Hl; [done|]. apply Forall_cons in Hl as [[Ht Hi] Hl]. unfold wire_words. cbn [mbind list_bind length read_work_tokens]. rewrite <- app_assoc.
  assert (Hlen : (length (be32 t ++ (l ≫= be32) ++ rest) <? 4)%nat = false) by (rewrite length_app, be32_length; apply Nat.ltb_ge; lia). rewrite Hlen, be32_get by (unfold is_u32; lia).
  destruct (Z.ltb_spec INT_MAX t); [lia|]. destruct (Z.leb_spec vocab t); [lia|]. cbn [orb]. change (drop 4 (be32 t ++ ?x)) with x. rewrite IH by done. done.
Qed.

Lemma hop_checks i e w : on_route i e → serves w e → check_work w (hop_work i e) (ntok * 4 + ntok * hidden_values * width bits + Z.of_nat (length blob)) = None.
Proof.
  intros [Hi Hl Ho Hlast] [Hm (Hs & He & Hn) Hout Hctx _]. pose proof (lookup_lt_Some _ _ _ Hi) as Hlt. destruct Hrq as [_ [Htk _] [Hp1 Hp2] _ _ _ _]. destruct Hrt as (_ & _ & Hok).
  assert (Hn1 : 1 <= ntok) by (destruct tokens; [done|cbn [length]; lia]). rewrite Forall_forall in Hok. destruct (Hok e) as [_ _ He' _]; [by eapply list_elem_of_lookup_2|].
  destruct (hop_flags_bits e) as (F1 & F2 & F3 & F4 & F5 & _). unfold check_work. cbn [hop_work wk_token_bytes wk_n_tokens wk_input_hc_bytes wk_route_bytes wk_route_count wk_route_index wk_model_id wk_layer_start wk_layer_end wk_flags wk_pos0].
  cbn zeta. rewrite F1, F2, F5, Hm, Hs, He, Hn, Hout, !Z.eqb_refl. cbn [negb orb]. rewrite u32_small by (unfold is_u32; lia). rewrite (u32_small (re_layer_end e + 1)) by (unfold is_u32; lia).
  destruct (Z.eqb_spec count 0); [lia|]. destruct (Z.leb_spec count (Z.of_nat i)); [lia|]. destruct (Z.eqb_spec ntok 0); [lia|]. destruct (Z.ltb_spec (dw_ctx_size w) pos0); [lia|].
  destruct (Z.ltb_spec (dw_ctx_size w - pos0) ntok); [lia|]. cbn [orb]. destruct (Z.eqb_spec (re_layer_start e) 0); [lia|]. cbn [andb negb]. destruct (output e) eqn:E; [|done]. cbn [negb andb]. by rewrite Ho, Z.eqb_refl.
Qed.

Lemma hop_input i e wire rest : Z.of_nat (length wire) = ntok * hidden_values * width bits → read_work_input (hop_work i e) (ntok * hidden_values) (wire ++ rest) = inr (Some wire, rest).
Proof.
  intros Hlen. destruct bits_valid as [Hv Hd]. destruct (hop_flags_bits e) as (F1 & _). unfold read_work_input. cbn [hop_work wk_flags wk_input_hc_bits wk_input_hc_bytes]. cbn zeta. rewrite F1, Hd, Hv.
  destruct Hrq as [_ _ _ _ [Hh _] Hw _]. unfold WORK_SIZE in Hw. assert (0 <= ntok * hidden_values) by nia. rewrite wire_bytes_valid by (done || lia). rewrite Z.eqb_refl. cbn [negb]. rewrite length_app. destruct (Z.ltb_spec (Z.of_nat (length wire + length rest)) (ntok * hidden_values * width bits)); [lia|].
  replace (Z.to_nat (ntok * hidden_values * width bits)) with (length wire) by lia. by rewrite take_app_length, drop_app_length.
Qed.

Lemma hop_route i e w : on_route i e → serves w e → read_work_route w (hop_work i e) (Some blob) = inr (unbound <$> entries !! S i).
Proof.
  intros [Hi Hl Ho Hlast] [_ (_ & _ & Hn) _ _ _]. pose proof (lookup_lt_Some _ _ _ Hi) as Hlt. destruct Hrq as [_ _ _ _ [_ Hvoc] _ Hsz]. destruct Hrt as (_ & (R1 & R2 & R3) & _). destruct (hop_flags_bits e) as (_ & F2 & _).
  unfold TELEMETRY_SIZE, RESULT_SIZE in Hsz. unfold read_work_route. cbn [hop_work wk_flags wk_route_index wk_route_count wk_route_bytes wk_layer_start wk_layer_end]. cbn zeta. rewrite F2, Hn, R1, (R2 i e Hi).
  cbn [unbound re_layer_start re_layer_end re_flags]. rewrite !Z.eqb_refl, Bool.eqb_reflx. cbn [negb orb]. rewrite u32_small by (unfold is_u32; lia). destruct (entries !! S i) as [e'|] eqn:Hi'.
  - pose proof (lookup_lt_Some _ _ _ Hi'). destruct (Z.ltb_spec (Z.of_nat i + 1) count); [|lia]. replace (Z.of_nat i + 1) with (Z.of_nat (S i)) by lia. rewrite (R2 _ _ Hi'). destruct (output e) eqn:E; [by specialize (Hlast eq_refl)|done].
  - apply lookup_ge_None_1 in Hi'. destruct (Z.ltb_spec (Z.of_nat i + 1) count); [lia|]. by rewrite R3.
Qed.

(** The session of the request on a worker, and the worker with the session in place. *)
Definition aligned (w : dist_worker_state) (x : dist_worker_session) (w1 : dist_worker_state) : Prop :=
  dist_worker_get_session_locked create w sid = Some (x, w1)
  ∧ (reset = true ∧ prefix = DS4_DIST_TOKEN_HASH_INIT
     ∨ reset = false ∧ prefix = dist_token_hash_prefix (sl_checkpoint (ws_session x)) ∧ (ws_token_hash_valid x = true → ws_token_hash x = dist_token_hash_prefix (sl_checkpoint (ws_session x)))).

(** The session the layers are evaluated on. *)
Definition start_session (x : dist_worker_session) : slice_session := if reset then ds4_session_layer_slice_reset (ws_session x) else ws_session x.

(** The worker after a span that worked. *)
Definition advanced (x : dist_worker_session) (w1 : dist_worker_state) (s : slice_session) : dist_worker_state :=
  set_sessions (put_session (WorkerSession (ws_session_id x) result true s) (dw_sessions w1)) w1.

Lemma get_session_shape w x w1 : dist_worker_get_session_locked create w sid = Some (x, w1) → w1 = set_sessions (dw_sessions w1) w.
Proof.
  unfold dist_worker_get_session_locked. destruct (dist_worker_find_session w sid); [intros [= <- <-]; by destruct w|]. destruct (create _ _); [|done]. cbn [mbind option_bind]. by intros [= <- <-].
Qed.

Lemma hop_eval i e w x w1 tk input want_hc want_lg : aligned w x w1 →
  eval_work create w (hop_work i e) tk input want_hc want_lg =
    '(s, r) ← ds4_session_eval_layer_slice (dw_engine w) (start_session x) tk pos0 (re_layer_start e) (re_layer_end e) input want_hc want_lg;
    Some (match r with
          | inr out => (advanced x w1 s, inr out)
          | inl msg => (set_sessions (put_session (WorkerSession (ws_session_id x) prefix false s) (dw_sessions w1)) w1, inl msg)
          end).
Proof.
  intros [Hget Hal]. destruct (rq_ids Hrq) as (H1 & H2 & H3 & _). destruct (halves sid H1) as (Es & _), (halves prefix H3) as (Ep & _). destruct (halves result) as (Er & _); [by apply token_hash_span_u64|].
  destruct (hop_flags_bits e) as (_ & _ & F3 & _). unfold eval_work, advanced. cbn [hop_work wk_session_hi wk_session_lo wk_prefix_hash_hi wk_prefix_hash_lo wk_result_hash_hi wk_result_hash_lo wk_pos0 wk_layer_start wk_layer_end].
  rewrite Es, Ep, Er, Hget. assert (He : dw_engine w1 = dw_engine w) by (rewrite (get_session_shape _ _ _ Hget); done).
  assert (Hr : ready_session (hop_work i e) x = WorkerSession (ws_session_id x) prefix true (start_session x) ∨ ready_session (hop_work i e) x = x ∧ x = WorkerSession (ws_session_id x) prefix true (start_session x)).
  { unfold ready_session, start_session. cbn [hop_work wk_flags]. rewrite F3. destruct Hal as [[-> ->]|(-> & -> & Hv)]; [by left|]. destruct (ws_token_hash_valid x) eqn:E; [|by left]. right. split; [done|].
    destruct x as [id h v s]. cbn in *. subst v. by rewrite (Hv eq_refl). }
  assert (Hr' : ready_session (hop_work i e) x = WorkerSession (ws_session_id x) prefix true (start_session x)) by (destruct Hr as [->|[-> <-]]; done).
  rewrite Hr'. cbn [ws_token_hash ws_session ws_session_id]. rewrite Z.eqb_refl. cbn [negb]. by rewrite He.
Qed.

Definition hop_telemetry (i : nat) (e : dist_route_entry) (out_bytes : Z) : dist_telemetry :=
  DistTelemetry (re_layer_start e) (re_layer_end e) (Z.of_nat i) pos0 ntok (eval_usec rid (Z.of_nat i)) 0 0 (u32 (ntok * 4 + ntok * hidden_values * width bits)) out_bytes.

(** What a worker does with the work of its entry. *)
Lemma hop_process i e w x w1 wire hidden s out lg : on_route i e → serves w e → aligned w x w1 →
  Z.of_nat (length wire) = ntok * hidden_values * width bits → dist_decode_activation_payload (Some wire) bits (ntok * hidden_values * width bits) = inr hidden → Z.of_nat (length hidden) = ntok * hidden_values →
  ds4_session_eval_layer_slice (dw_engine w) (start_session x) tokens pos0 (re_layer_start e) (re_layer_end e) (Some hidden) (negb (output e)) (output e) = Some (s, inr (out, lg)) →
  dist_worker_process_work_payload create w (hop_payload i e wire) =
    Some (advanced x w1 s,
      match entries !! S i with
      | Some e' => dist_forward_work_to_next (unbound e') (hop_work i e) tokens (take (Z.to_nat (ntok * hidden_values)) out) (ntok * hidden_values * 4) (hop_telemetry i e (ntok * hidden_values * width bits)) (Some blob)
      | None =>
          if output e then WReply (dist_send_work_result rid result 0 DS4_DIST_RESULT_LOGITS 32 [hop_telemetry i e (vocab * 4)] (PayFloats (take (Z.to_nat vocab) lg)))
          else WReply (dist_send_work_result rid result 0 DS4_DIST_RESULT_HIDDEN_STATE bits [hop_telemetry i e (ntok * hidden_values * width bits)] (PayFloats (take (Z.to_nat (ntok * hidden_values)) out)))
      end).
Proof.
  intros Hon Hsv Hal Hlw Hdec Hlh Heval. pose proof Hrq as [_ [Htk Htok] [Hp1 Hp2] (H1 & H2 & H3 & H4) [Hh Hvoc] Hw Hrs]. destruct Hrt as (Hbl & _ & _). assert (Hsv' := Hsv). destruct Hsv as [Hm Hly Hout Hctx [Hsh Hsv]].
  destruct (halves rid H2) as (Er & _), (halves prefix H3) as (Ep & _). destruct (halves result) as (Eq & _); [by apply token_hash_span_u64|]. destruct bits_valid as [Hv Hd].
  destruct (hop_flags_bits e) as (F1 & F2 & F3 & F4 & F5 & _). assert (Hn : 1 <= ntok) by (destruct tokens; [done|cbn [length]; lia]). unfold WORK_SIZE, RESULT_SIZE, TELEMETRY_SIZE in Hw, Hrs.
  assert (Hnh : 0 < ntok * hidden_values) by nia. destruct (width_range bits Hv) as [_ Hwd].
  assert (Hdrop : drop WORK_SIZE (hop_payload i e wire) = wire_words tokens ++ wire ++ blob) by (unfold hop_payload; by rewrite drop_app_length').
  unfold dist_worker_process_work_payload. assert (Hlen : (length (hop_payload i e wire) <? WORK_SIZE)%nat = false).
  { apply Nat.ltb_ge. unfold hop_payload, dist_work_to_wire. rewrite length_app, wire_words_length. unfold WORK_SIZE. cbn [length]. lia. }
  assert (Hwork : dist_work_from_wire (hop_payload i e wire) = hop_work i e) by (apply dist_work_wire, hop_words; [apply Hon|destruct (or_layers _ _ Hon); lia]).
  rewrite Hlen. cbn zeta. rewrite Hdrop, Hwork.
  replace (Z.of_nat (length (wire_words tokens ++ wire ++ blob))) with (ntok * 4 + ntok * hidden_values * width bits + Z.of_nat (length blob)) by (rewrite !length_app, wire_words_length; lia).
  rewrite (hop_checks i e w Hon Hsv'), Hsh, Hsv.
  cbn [hop_work wk_n_tokens wk_request_hi wk_request_lo wk_prefix_hash_hi wk_prefix_hash_lo wk_result_hash_hi wk_result_hash_lo wk_route_bytes wk_flags wk_input_hc_bytes wk_input_hc_bits wk_layer_start wk_layer_end
    wk_route_index wk_pos0 wk_token_bytes].
  change (DistWork _ _ _ _ _ _ _ _ _ _ _ _ _ _ _ _ _ _ _ _) with (hop_work i e). rewrite Nat2Z.id, read_tokens_words by done. rewrite Ep, Eq, Er, Z.eqb_refl. cbn [negb].
  rewrite (u64_small (ntok * hidden_values)) by (unfold is_u64; lia). rewrite u64_small by (unfold is_u64; lia). destruct (Z.ltb_spec UINT32_MAX (ntok * hidden_values * 4)); [lia|].
  rewrite hop_input by done. rewrite !Nat2Z.id. rewrite (proj2 (Nat.ltb_ge (length blob) (length blob))) by done. destruct (Z.eqb_spec (Z.of_nat (length blob)) 0); [by destruct blob|]. rewrite take_ge by done.
  rewrite (hop_route i e w Hon Hsv'), Hd, Hdec, Hlh, Z.eqb_refl, F2, F4. cbn [negb andb orb]. rewrite (u32_small (ntok * hidden_values * 4)) by (unfold is_u32; lia).
  assert (Hlg : output e && negb (match unbound <$> entries !! S i with Some _ => true | None => false end) && true = output e).
  { rewrite andb_true_r. destruct (output e) eqn:E; [|done]. by rewrite (or_last _ _ Hon E). }
  rewrite !Hlg, andb_true_r, (hop_eval i e w x w1) by done. rewrite Heval. cbn [mbind option_bind]. rewrite (u64_small (vocab * 4)) by (unfold is_u64; lia). rewrite (u32_small (vocab * 4)) by (unfold is_u32; lia).
  unfold hop_telemetry. destruct (output e) eqn:E.
  - rewrite (or_last _ _ Hon E). cbn [Z.eqb Pos.eqb DS4_DIST_RESULT_LOGITS DS4_DIST_RESULT_HIDDEN_STATE fmap option_fmap option_map]. rewrite Z.div_mul by lia. done.
  - cbn [Z.eqb Pos.eqb DS4_DIST_RESULT_LOGITS DS4_DIST_RESULT_HIDDEN_STATE]. rewrite f32_wire_bytes by (done || lia). rewrite Z.div_mul by lia. by destruct (entries !! S i).
Qed.

Lemma hop_forward i e e' hid t : entries !! S i = Some e' → output e = false → is_u32 count →
  dist_forward_work_to_next (unbound e') (hop_work i e) tokens hid (ntok * hidden_values * 4) t (Some blob)
  = WForward (unbound e') (dist_send_work_frame (hop_work (S i) e') tokens (Some hid) (Some blob)) rid t.
Proof.
  intros Hi He Hc. destruct bits_valid as [Hv Hd]. destruct (rq_ids Hrq) as (_ & H2 & _). destruct (halves rid H2) as (Er & _). pose proof (lookup_lt_Some _ _ _ Hi). destruct (rq_shape Hrq) as [Hh _].
  pose proof (rq_work_size Hrq) as Hw. unfold WORK_SIZE in Hw. unfold dist_forward_work_to_next. cbn [hop_work wk_model_id wk_session_hi wk_session_lo wk_request_hi wk_request_lo wk_prefix_hash_hi wk_prefix_hash_lo wk_result_hash_hi
    wk_result_hash_lo wk_pos0 wk_n_tokens wk_flags wk_token_bytes wk_input_hc_bits wk_route_count wk_route_index wk_route_bytes unbound re_layer_start re_layer_end re_flags]. cbn zeta.
  rewrite Hd, Er, f32_wire_bytes by (done || nia). do 2 f_equal. unfold hop_work. f_equal.
  - unfold hop_flags. rewrite He. cbn zeta. by destruct reset, (output e').
  - rewrite u32_small by (unfold is_u32 in *; lia). lia.
Qed.

(** The result of the last worker. *)
Lemma reply_logits t lg : 0 < count → Z.of_nat (length lg) = vocab →
  dist_send_work_result rid result 0 DS4_DIST_RESULT_LOGITS 32 [t] (PayFloats lg) = Some (result_frame rid result DS4_DIST_RESULT_LOGITS 32 [t] (float_bytes lg)).
Proof.
  intros Hc Hl. pose proof (rq_result_size Hrq) as Hs. unfold RESULT_SIZE, TELEMETRY_SIZE in Hs. assert (Hb : Z.of_nat (length (float_bytes lg)) = 4 * Z.of_nat (length lg)).
  { unfold float_bytes. rewrite (bind_length 4) by done. lia. }
  unfold dist_send_work_result. cbn [payload_size Z.eqb Pos.eqb andb DS4_DIST_RESULT_LOGITS DS4_DIST_RESULT_HIDDEN_STATE mbind option_bind length]. unfold RESULT_SIZE, TELEMETRY_SIZE. change (Z.of_nat 1 * Z.of_nat 40) with 40.
  cbn zeta. destruct (Z.ltb_spec UINT32_MAX 40); [lia|]. change (Z.of_nat 40) with 40. destruct (Z.ltb_spec UINT32_MAX (40 + 40 + 4 * Z.of_nat (length lg))); [lia|]. cbn [dist_u64_to_halves]. unfold result_frame, result_size, result_head.
  cbn [length mbind option_bind]. rewrite Hb. done.
Qed.
Lemma reply_hidden t out : 0 < count → Z.of_nat (length out) = ntok * hidden_values → Forall is_u32 out → ∃ body,
  dist_send_work_result rid result 0 DS4_DIST_RESULT_HIDDEN_STATE bits [t] (PayFloats out) = Some (result_frame rid result DS4_DIST_RESULT_HIDDEN_STATE bits [t] body)
  ∧ Z.of_nat (length body) = ntok * hidden_values * width bits ∧ dist_decode_activation_payload (Some body) bits (Z.of_nat (length body)) = inr (quantize bits out).
Proof.
  intros Hc Hl Hu. pose proof (rq_result_size Hrq) as Hs. pose proof (rq_shape Hrq) as [Hh Hvoc]. destruct (rq_tokens Hrq) as [Htk _]. assert (Hn : 1 <= ntok) by (destruct tokens; [done|cbn [length]; lia]).
  unfold RESULT_SIZE, TELEMETRY_SIZE in Hs. destruct bits_valid as [Hv Hd]. destruct (width_range bits Hv) as [_ Hwd]. assert (Hnh : 0 < ntok * hidden_values) by nia.
  destruct (activation_roundtrip bits out Hv Hu) as (body & Hw & Hlb & Hdec); [intros ->; cbn in Hl; lia|lia|]. rewrite Hl in Hw, Hlb. exists body. split; [|by rewrite Hlb in *].
  unfold dist_send_work_result. cbn [payload_size]. cbn zeta. change ((0 =? 0) && (DS4_DIST_RESULT_HIDDEN_STATE =? DS4_DIST_RESULT_HIDDEN_STATE)) with true. cbn iota. rewrite Hd, Hv. cbn [negb orb].
  replace (4 * Z.of_nat (length out)) with (ntok * hidden_values * 4) by lia. rewrite Z.mod_mul, Z.div_mul by lia. cbn [Z.eqb negb]. rewrite wire_bytes_valid by (done || lia). cbn [mbind option_bind length].
  unfold RESULT_SIZE, TELEMETRY_SIZE. change (Z.of_nat 1 * Z.of_nat 40) with 40. destruct (Z.ltb_spec UINT32_MAX 40); [lia|]. change (Z.of_nat 40) with 40.
  destruct (Z.ltb_spec UINT32_MAX (40 + 40 + ntok * hidden_values * width bits)); [nia|]. cbn [dist_u64_to_halves]. destruct (Z.eqb_spec (ntok * hidden_values * width bits) 0); [nia|]. cbn [negb andb]. rewrite Hw.
  cbn [mbind option_bind]. unfold result_frame, result_size, result_head. rewrite Hlb. done.
Qed.

(** ** The workers one after the other *)

Definition addr (e : dist_route_entry) : bytes * Z := (re_host e, re_port e).

(** Each worker evaluates its layers on its session, with what the one before gave as it
    came over the wire; in the end the logits or the hidden state of the last. *)
Fixpoint run_route (ws : workers) (l : list dist_route_entry) (hidden : list Z) : option (workers * list Z) :=
  match l with
  | [] => Some (ws, hidden)
  | e :: l' =>
      w ← ws !! addr e;
      '(x, w1) ← dist_worker_get_session_locked create w sid;
      '(s, r) ← ds4_session_eval_layer_slice (dw_engine w) (start_session x) tokens pos0 (re_layer_start e) (re_layer_end e) (Some (quantize bits hidden)) (negb (output e)) (output e);
      match r with
      | inl _ => None
      | inr (out, lg) => run_route (<[addr e := advanced x w1 s]> ws) l' (if output e then lg else out)
      end
  end.

(** The worker of an entry is there, and its session stands where the request starts. *)
Definition ready (ws : workers) (e : dist_route_entry) : Prop :=
  ∃ w x w1, ws !! addr e = Some w ∧ serves w e ∧ aligned w x w1 ∧ kernels_fill (dw_engine w).

Context (Hroute : ∀ i e, entries !! i = Some e → on_route i e) (Hup : ∀ i j e e', entries !! i = Some e → entries !! j = Some e' → (i < j)%nat → re_layer_start e < re_layer_start e').

Lemma addr_distinct ws i j e e' : entries !! i = Some e → entries !! j = Some e' → (i < j)%nat → ready ws e → ready ws e' → addr e ≠ addr e'.
Proof.
  intros Hi Hj Hij (w & _ & _ & Hw & [_ (Hs & _) _ _ _] & _) (w' & _ & _ & Hw' & [_ (Hs' & _) _ _ _] & _) E. rewrite E, Hw' in Hw. injection Hw as ->. pose proof (Hup _ _ _ _ Hi Hj Hij). lia.
Qed.

(** A result frame that carries the values. *)
Definition carries (last : dist_route_entry) (out : list Z) (kind b : Z) (body : bytes) : Prop :=
  if output last then kind = DS4_DIST_RESULT_LOGITS ∧ b = 32 ∧ body = float_bytes out ∧ Z.of_nat (length out) = vocab ∧ Forall is_u32 out
  else kind = DS4_DIST_RESULT_HIDDEN_STATE ∧ b = bits ∧ Z.of_nat (length body) = ntok * hidden_values * width bits ∧ Z.of_nat (length out) = ntok * hidden_values
    ∧ dist_decode_activation_payload (Some body) bits (Z.of_nat (length body)) = inr (quantize bits out).

Lemma carries_ok last out kind b body tel : carries last out kind b body → (length tel <= length entries)%nat → result_ok rid result kind b tel body.
Proof.
  intros Hc Hl. pose proof (rq_result_size Hrq) as Hs. pose proof (rq_shape Hrq) as [Hh Hvoc]. destruct (rq_ids Hrq) as (_ & H2 & H3 & _). destruct bits_valid as [Hv Hd]. destruct (width_range bits Hv) as [_ Hwd].
  assert (Hb : Z.of_nat (length body) <= Z.max (ntok * hidden_values * 4) (vocab * 4) ∧ is_u32 kind ∧ is_u32 b).
  { assert (is_u32 bits) by (destruct (rq_bits Hrq) as [->|[->| ->]]; done). unfold carries in Hc. destruct (output last).
    - destruct Hc as (-> & -> & -> & Hlen & _). unfold float_bytes. rewrite (bind_length 4) by done. split; [lia|done].
    - destruct Hc as (-> & -> & -> & Hlen & _). split; [|done]. assert (0 <= ntok * hidden_values) by nia. nia. }
  destruct Hb as (Hb & Hk & Hbb). constructor; [done|by apply token_hash_span_u64|done|done|]. unfold result_size, RESULT_SIZE, TELEMETRY_SIZE in *. lia.
Qed.

Lemma ready_other ws e e' w : addr e' ≠ addr e → ready ws e' → ready (<[addr e := w]> ws) e'.
Proof. intros Hne (w' & x & w1 & Hw & Hrest). exists w', x, w1. split; [by rewrite lookup_insert_ne|done]. Qed.

(** ** The sessions after the route *)

(** The session of the request holds the tokens it had and the span, and its hash is that
    of all of them. *)
Definition advanced_by (ws ws' : workers) (e : dist_route_entry) : Prop :=
  ∃ w x w1 w' x', ws !! addr e = Some w ∧ dist_worker_get_session_locked create w sid = Some (x, w1) ∧ ws' !! addr e = Some w' ∧ dist_worker_find_session w' sid = Some x'
    ∧ sl_checkpoint (ws_session x') = sl_checkpoint (start_session x) ++ tokens ∧ ws_token_hash_valid x' = true ∧ ws_token_hash x' = result
    ∧ result = dist_token_hash_prefix (sl_checkpoint (ws_session x')).

Lemma find_put x y l : List.find (λ z, ws_session_id z =? sid) l = Some x → ws_session_id y = sid → List.find (λ z, ws_session_id z =? sid) (put_session y l) = Some y.
Proof.
  intros Hf Hy. induction l as [|z l IH]; [done|]. cbn in Hf |- *. rewrite Hy. destruct (ws_session_id z =? sid) eqn:E; cbn; [by rewrite Hy, Z.eqb_refl|]. rewrite E. by apply IH.
Qed.

Lemma get_session_found w x w1 : dist_worker_get_session_locked create w sid = Some (x, w1) → List.find (λ z, ws_session_id z =? sid) (dw_sessions w1) = Some x ∧ ws_session_id x = sid.
Proof.
  unfold dist_worker_get_session_locked, dist_worker_find_session. destruct (List.find _ (dw_sessions w)) as [y|] eqn:E.
  - intros [= <- <-]. split; [done|]. apply find_some in E as [_ E]. by apply Z.eqb_eq in E.
  - destruct (create _ _); [|done]. cbn [mbind option_bind]. intros [= <- <-]. cbn. by rewrite Z.eqb_refl.
Qed.

Lemma run_route_other ws l hidden ws' out a : run_route ws l hidden = Some (ws', out) → (∀ e, e ∈ l → addr e ≠ a) → ws' !! a = ws !! a.
Proof.
  revert ws hidden. induction l as [|e l IH]; intros ws hidden Hrun Ha; [by injection Hrun as <- _|]. cbn [run_route] in Hrun. destruct (ws !! addr e) as [w|]; [|done]. cbn [mbind option_bind] in Hrun.
  destruct (dist_worker_get_session_locked create w sid) as [[x w1]|]; [|done]. cbn [mbind option_bind] in Hrun. destruct (ds4_session_eval_layer_slice _ _ _ _ _ _ _ _ _) as [[s [msg|[o lg]]]|]; [done| |done]. cbn [mbind option_bind] in Hrun.
  apply IH in Hrun; [|set_solver]. rewrite Hrun. apply lookup_insert_ne. apply Ha. set_solver.
Qed.

Lemma run_route_advances : ∀ l i ws hidden ws' out, drop i entries = l → (∀ e, e ∈ l → ready ws e) → run_route ws l hidden = Some (ws', out) → ∀ e, e ∈ l → advanced_by ws ws' e.
Proof.
  induction l as [|e l IH]; intros i ws hidden ws' out Hd Hready Hrun e2 He2; [by apply elem_of_nil in He2|]. pose proof (rq_pos Hrq) as [Hp1 _].
  assert (Hi : entries !! i = Some e) by (rewrite <- (Nat.add_0_r i), <- lookup_drop, Hd; done). assert (Hd' : drop (S i) entries = l) by (replace (S i) with (i + 1)%nat by lia; rewrite <- drop_drop, Hd; done).
  destruct (Hready e) as (w & x & w1 & Hw & Hsv & [Hget Hal] & Hk); [set_solver|].
  assert (Hne : ∀ e2, e2 ∈ l → addr e2 ≠ addr e).
  { intros e3 Hin E. destruct (list_elem_of_lookup_1 _ _ Hin) as [k Hk2]. rewrite <- Hd', lookup_drop in Hk2. apply (addr_distinct ws i (S i + k) e e3 Hi Hk2); [lia|apply Hready; set_solver|apply Hready; set_solver|done]. }
  cbn [run_route] in Hrun. rewrite Hw in Hrun. cbn [mbind option_bind] in Hrun. rewrite Hget in Hrun. cbn [mbind option_bind] in Hrun.
  destruct (slice_spec (dw_engine w) Hk (start_session x) tokens pos0 (re_layer_start e) (re_layer_end e) (Some (quantize bits hidden)) (negb (output e)) (output e) Hp1) as (s & r & Heval & Hr).
  rewrite Heval in Hrun. cbn [mbind option_bind] in Hrun. destruct r as [msg|[o lg]]; [done|]. destruct Hr as (_ & Hck & _). apply elem_of_cons in He2 as [->|He2].
  - destruct (get_session_found _ _ _ Hget) as [Hf Hid]. exists w, x, w1, (advanced x w1 s), (WorkerSession (ws_session_id x) result true s). split_and!; try done.
    + rewrite (run_route_other _ _ _ _ _ _ Hrun) by (intros e3 Hin; by apply Hne). apply lookup_insert_eq.
    + unfold dist_worker_find_session, advanced. cbn [dw_sessions set_sessions]. eapply find_put; [exact Hf|done].
    + cbn [ws_session]. rewrite Hck. unfold dist_token_hash_prefix. rewrite token_hash_span_app. f_equal. unfold start_session. destruct Hal as [[-> ->]|(-> & -> & _)]; done.
  - destruct (IH (S i) _ _ _ _ Hd' ltac:(intros e3 Hin; apply ready_other; [by apply Hne|apply Hready; set_solver]) Hrun e2 He2) as (w2 & x2 & w3 & w4 & x4 & H2 & Hrest). rewrite lookup_insert_ne in H2 by (intros E; by apply (Hne e2)).
    exists w2, x2, w3, w4, x4. done.
Qed.

(** ** The way over the route *)

Context (errno_text : bytes) (connect_error : bytes → Z → bytes) (forward_window : Z) (Hwindow : 0 <= forward_window).

Lemma deliver_frame fuel ws e w payload : ws !! addr e = Some w → Z.of_nat (length payload) <= UINT32_MAX →
  deliver create connect_error forward_window (S fuel) ws (addr e) (dist_write_frame_header DS4_DIST_MSG_WORK (Z.of_nat (length payload)) ++ payload) =
    '(w', o) ← dist_worker_process_work_payload create w payload;
    let ws := <[addr e := w']> ws in
    match o with
    | WReply r => Some (ws, default [] r)
    | WForward next frame request_id t =>
        match ws !! addr next, dist_worker_forwarder_enqueue_request (Forwarder [] forward_window false) request_id t with
        | None, _ => Some (ws, default [] (dist_send_work_error request_id (connect_error (re_host next) (re_port next))))
        | Some _, Some (Some f) =>
            let f := dist_worker_forwarder_note_send_done f request_id (forward_usec request_id (te_route_index t)) in
            match frame with
            | None => Some (ws, default [] (dist_send_work_error request_id (bs "failed to forward distributed work")))
            | Some frame =>
                '(ws, back) ← deliver create connect_error forward_window fuel ws (addr next) frame;
                let '(_, out, _, _) := relay_round f [NData back] in Some (ws, out)
            end
        | Some _, Some None => Some (ws, default [] (dist_send_work_error request_id (bs "out of memory tracking forwarded request")))
        | Some _, None => None
        end
    end.
Proof.
  intros Hw Hp. cbn [deliver]. rewrite Hw. cbn [mbind option_bind]. change [NData (dist_write_frame_header DS4_DIST_MSG_WORK (Z.of_nat (length payload)) ++ payload)]
    with (net_of (dist_write_frame_header DS4_DIST_MSG_WORK (Z.of_nat (length payload)) ++ payload)).
  rewrite frame_header_read by (unfold is_u32, DS4_DIST_MSG_WORK; lia). cbn [Z.eqb Pos.eqb negb DS4_DIST_MSG_WORK]. unfold dist_worker_handle_work. rewrite read_net_all by lia.
  destruct (dist_worker_process_work_payload create w payload) as [[w' o]|]; done.
Qed.

Lemma enqueue_empty t : dist_worker_forwarder_enqueue_request (Forwarder [] forward_window false) rid t = Some (Some (Forwarder [PendingRequest rid t] forward_window false)).
Proof. unfold dist_worker_forwarder_enqueue_request. cbn [fw_closing fw_depth fw_pending length negb andb]. destruct (Z.eqb_spec forward_window 0) as [->|]; [done|]. cbn [negb]. destruct (Z.leb_spec forward_window (Z.of_nat 0)); [lia|done]. Qed.

Lemma note_sent t v : dist_worker_forwarder_note_send_done (Forwarder [PendingRequest rid t] forward_window false) rid v = Forwarder [PendingRequest rid (set_forward_usec v t)] forward_window false.
Proof. unfold dist_worker_forwarder_note_send_done. cbn. by rewrite Z.eqb_refl. Qed.

(** A frame sent to a worker of the route comes back as the result of the route from it
    on. *)
Lemma deliver_route : ∀ l i ws hidden ws' out, drop i entries = l → (∀ e, e ∈ l → ready ws e) → Z.of_nat (length hidden) = ntok * hidden_values → Forall is_u32 hidden →
  run_route ws l hidden = Some (ws', out) → ∀ e last, head l = Some e → list.last l = Some last →
  ∃ frame tel kind b body, dist_send_work_frame (hop_work i e) tokens (Some hidden) (Some blob) = Some frame
    ∧ deliver create connect_error forward_window (length l) ws (addr e) frame = Some (ws', result_frame rid result kind b tel body) ∧ length tel = length l ∧ carries last out kind b body.
Proof.
  induction l as [|e l IH]; intros i ws hidden ws' out Hd Hready Hlen Hu Hrun e0 last He Hlast; [done|]. injection He as <-. pose proof Hrq as [_ _ [Hp1 _] _ [Hh Hvoc] _ Hsz]. unfold RESULT_SIZE, TELEMETRY_SIZE in Hsz.
  assert (Hi : entries !! i = Some e) by (rewrite <- (Nat.add_0_r i), <- lookup_drop, Hd; done). pose proof (lookup_lt_Some _ _ _ Hi) as Hlt. assert (Hd' : drop (S i) entries = l) by (replace (S i) with (i + 1)%nat by lia; rewrite <- drop_drop, Hd; done).
  assert (Hnext : entries !! S i = head l) by (rewrite <- (Nat.add_0_r (S i)), <- lookup_drop, Hd'; by destruct l). pose proof (Hroute _ _ Hi) as Hon.
  destruct (Hready e) as (w & x & w1 & Hw & Hsv & Hal & Hk); [set_solver|]. cbn [run_route] in Hrun. rewrite Hw in Hrun. cbn [mbind option_bind] in Hrun. destruct Hal as [Hget Hal]. rewrite Hget in Hrun. cbn [mbind option_bind] in Hrun.
  destruct (slice_spec (dw_engine w) Hk (start_session x) tokens pos0 (re_layer_start e) (re_layer_end e) (Some (quantize bits hidden)) (negb (output e)) (output e) Hp1) as (s & r & Heval & Hr).
  rewrite Heval in Hrun. cbn [mbind option_bind] in Hrun. destruct r as [msg|[o lg]]; [done|]. destruct Hr as (_ & _ & _ & _ & _ & Ho & Hlg & _). destruct (sv_shape _ _ Hsv) as [Esh Esv]. rewrite Esh in Ho. rewrite Esv in Hlg.
  destruct (hop_frame i e hidden Hlen Hu) as (wire & Hframe & Hlw & Hpl & Hdec).
  exists (dist_write_frame_header DS4_DIST_MSG_WORK (Z.of_nat (length (hop_payload i e wire))) ++ hop_payload i e wire).
  assert (Hproc := hop_process i e w x w1 wire (quantize bits hidden) s o lg Hon Hsv (conj Hget Hal) Hlw Hdec ltac:(rewrite quantize_length; exact Hlen) Heval).
  destruct l as [|e' l].
  - cbn [head] in Hnext. rewrite Hnext in Hproc. cbn [run_route] in Hrun. injection Hrun as <- <-. injection Hlast as <-. cbn [length]. destruct (output e) eqn:Eo.
    + destruct (Hlg eq_refl) as [Hlv Hlu]. rewrite take_ge in Hproc by lia. eexists [_], _, _, _. split; [exact Hframe|]. rewrite (deliver_frame _ _ _ w) by done. rewrite Hproc. cbn [mbind option_bind].
      rewrite reply_logits by (done || lia). split; [done|]. split; [done|]. unfold carries. by rewrite Eo.
    + destruct (Ho eq_refl) as [Hlo Huo]. rewrite take_ge in Hproc by lia. destruct (reply_hidden (hop_telemetry i e (ntok * hidden_values * width bits)) o) as (body & Hrep & Hlb & Hdb); [lia|done|done|].
      eexists [_], _, _, _. split; [exact Hframe|]. rewrite (deliver_frame _ _ _ w) by done. rewrite Hproc. cbn [mbind option_bind]. rewrite Hrep. split; [done|]. split; [done|]. unfold carries. by rewrite Eo.
  - cbn [head] in Hnext. rewrite Hnext in Hproc. assert (Eo : output e = false) by (destruct (output e) eqn:Eo; [by rewrite (or_last _ _ Hon Eo) in Hnext|done]). rewrite Eo in *.
    destruct (Ho eq_refl) as [Hlo Huo]. rewrite take_ge in Hproc by lia. rewrite (hop_forward i e e') in Hproc by (done || unfold is_u32; lia).
    assert (Hne : ∀ e2, e2 ∈ e' :: l → addr e2 ≠ addr e).
    { intros e2 Hin E. destruct (list_elem_of_lookup_1 _ _ Hin) as [k Hk2]. rewrite <- Hd', lookup_drop in Hk2. apply (addr_distinct ws i (S i + k) e e2 Hi Hk2); [lia|apply Hready; set_solver|apply Hready; set_solver|done]. }
    destruct (IH (S i) (<[addr e := advanced x w1 s]> ws) o ws' out Hd') with (e := e') (last := last) as (frame & tel & kind & b & body & Hf & Hdel & Htel & Hcar); [|done|done|done|done|done|].
    { intros e2 Hin. apply ready_other; [by apply Hne|]. apply Hready. set_solver. }
    eexists _, kind, b, body. split; [exact Hframe|]. cbn [length]. rewrite (deliver_frame _ _ _ w) by done. rewrite Hproc. cbn [mbind option_bind]. change (addr (unbound e')) with (addr e').
    rewrite lookup_insert_ne by (intros E; by apply (Hne e'); [set_solver|]). destruct (Hready e') as (w' & _ & _ & Hw' & _); [set_solver|]. rewrite Hw', enqueue_empty, Hf. cbn [length] in Hdel. rewrite Hdel. cbn [mbind option_bind].
    rewrite result_frame_net. cbn zeta. rewrite note_sent.
    assert (Hcount : (length (e :: e' :: l) <= length entries)%nat) by (rewrite <- Hd, length_drop; lia). cbn [length] in Hcount, Htel.
    pose proof (carries_ok _ _ _ _ _ tel Hcar ltac:(lia)) as Hok.
    rewrite (relay_good _ _ _ _ _ _ Hok). 2:{ pose proof (ro_size _ _ _ _ _ _ (carries_ok _ _ _ _ _ (tel ++ [hop_telemetry i e 0]) Hcar ltac:(rewrite length_app; cbn [length]; lia))) as Hs. unfold result_size in *. rewrite length_app in Hs.
      cbn [length] in Hs. lia. }
    split; [done|]. split; [rewrite length_app; cbn [length]; lia|done].
Qed.

(** ** The span *)

Context (e0 : slice_engine) (He0 : kernels_fill e0 ∧ se_hidden e0 = hidden_values ∧ se_vocab e0 = vocab).

(** What the coordinator makes of the end of the route. *)
Definition span_end (s : slice_session) (last : dist_route_entry) (out : list Z) : slice_session * ((Z * bytes) + list Z) :=
  if output last then (s, inr out)
  else let '(s, r) := ds4_session_eval_output_head_from_hc e0 s (quantize bits out) ntok in (s, match r with inl msg => inl (1, msg) | inr l => inr l end).

Lemma recv_carries s last out kind b body tel : carries last out kind b body → result_ok rid result kind b tel body →
  span_result e0 s ntok (ntok * hidden_values * 4) result (dist_recv_result_alloc errno_text [NData (result_frame rid result kind b tel body)] rid) = span_end s last out.
Proof.
  intros Hc Hok. rewrite result_frame_net, (recv_good _ _ _ _ _ _ Hok). unfold carries in Hc. unfold span_end. pose proof (rq_shape Hrq) as [Hh Hvoc]. destruct He0 as (_ & _ & Hv0). pose proof (rq_result_size Hrq) as Hs.
  unfold RESULT_SIZE, TELEMETRY_SIZE in Hs. destruct (rq_tokens Hrq) as [Htk _]. assert (Hn : 1 <= ntok) by (destruct tokens; [done|cbn [length]; lia]). destruct bits_valid as [Hv Hd]. destruct (width_range bits Hv) as [_ Hwd].
  destruct (output last).
  - destruct Hc as (-> & -> & -> & Hlen & Hu). cbn [Z.eqb Pos.eqb andb DS4_DIST_RESULT_LOGITS DS4_DIST_RESULT_HIDDEN_STATE span_result]. rewrite Z.eqb_refl. cbn [negb].
    assert (Hb : Z.of_nat (length (float_bytes out)) = vocab * 4) by (unfold float_bytes; rewrite (bind_length 4) by done; lia). rewrite Hb, Hv0. rewrite u64_small by (unfold is_u64; lia). rewrite u32_small by (unfold is_u32; lia).
    rewrite Z.eqb_refl. cbn [andb]. unfold received_floats. rewrite Z.div_mul by lia. replace (Z.to_nat vocab) with (length out) by lia. unfold float_bytes.
    rewrite (array_of_spec _ _ _ id); [by rewrite list_fmap_id|]. intros x Hx. rewrite Forall_forall in Hu. split; [done|]. intros rest. by apply le_get32_put32, Hu.
  - destruct Hc as (-> & -> & Hlb & Hlen & Hdec). rewrite Hdec. cbn [Z.eqb Pos.eqb andb DS4_DIST_RESULT_LOGITS DS4_DIST_RESULT_HIDDEN_STATE]. assert (0 < ntok * hidden_values) by nia.
    destruct (Z.eqb_spec (Z.of_nat (length body)) 0); [nia|]. cbn [negb span_result]. rewrite Z.eqb_refl. cbn [negb Z.eqb Pos.eqb andb]. rewrite quantize_length, Hlen. replace (4 * (ntok * hidden_values)) with (ntok * hidden_values * 4) by lia.
    change (DS4_DIST_RESULT_HIDDEN_STATE =? DS4_DIST_RESULT_LOGITS) with false. rewrite !Z.eqb_refl. done.
Qed.

Lemma send_first first hidden : entries !! 0%nat = Some first → dist_coordinator_send_remote_work_on_fd st (DistPlan entries blob) tokens pos0 sid rid prefix result reset false hidden (ntok * hidden_values * 4)
  = match dist_send_work_frame (hop_work 0 first) tokens (Some hidden) (Some blob) with Some frame => inr frame | None => inl (bs "failed to send distributed work") end.
Proof.
  intros Hf. destruct entries as [|e l] eqn:E; [done|]. injection Hf as ->. rewrite <- E. unfold dist_coordinator_send_remote_work_on_fd. cbn [rp_entries rp_blob]. rewrite E. cbn [dist_u64_to_halves]. destruct bits_valid as [Hv _].
  pose proof (rq_work_size Hrq) as Hw. unfold WORK_SIZE in Hw. pose proof (rq_shape Hrq) as [Hh _]. assert (Hnh : 0 <= ntok * hidden_values) by nia. rewrite f32_wire_bytes by (done || lia). rewrite (u32_small (ntok * 4)) by (unfold is_u32; lia). unfold hop_work. rewrite E.
  replace (if has_flag (re_flags first) DS4_DIST_ROUTE_F_OUTPUT_LOGITS then _ else _) with (hop_flags first); [done|]. unfold hop_flags. by destruct reset.
Qed.

(** The coordinator's part: its own layers, then the route. *)
Lemma span_core ws s first last s1 hidden lg ws' out : entries !! 0%nat = Some first → list.last entries = Some last → 0 <= re_fd first → (∀ e, e ∈ entries → ready ws e) →
  (reset = true ∧ pos0 = 0 ∧ prefix = DS4_DIST_TOKEN_HASH_INIT ∨ reset = false ∧ pos0 <= Z.of_nat (length (sl_checkpoint s)) ∧ prefix = dist_token_hash_prefix (take (Z.to_nat pos0) (sl_checkpoint s))) →
  ds4_session_eval_layer_slice e0 (if reset then ds4_session_layer_slice_reset s else s) tokens pos0 (cd_local_start st) (cd_local_end st) None true false = Some (s1, inr (hidden, lg)) →
  run_route ws entries hidden = Some (ws', out) →
  dist_coordinator_eval_span create errno_text connect_error forward_window e0 st ws s (DistPlan entries blob) tokens pos0 sid rid reset
    = Some (ws', (span_end s1 last out).1, (span_end s1 last out).2).
Proof.
  intros Hfirst Hlast Hfd Hready Hpre Hloc Hrun. destruct He0 as (Hk & Hsh & Hsv). pose proof (rq_pos Hrq) as [Hp1 _]. pose proof (rq_shape Hrq) as [Hh _]. pose proof (rq_work_size Hrq) as Hw. unfold WORK_SIZE in Hw.
  destruct (slice_spec e0 Hk (if reset then ds4_session_layer_slice_reset s else s) tokens pos0 (cd_local_start st) (cd_local_end st) None true false Hp1) as (s2 & r & E & Hr). rewrite Hloc in E. injection E as <- <-.
  destruct Hr as (_ & _ & _ & _ & _ & Ho & _). destruct (Ho eq_refl) as [Hlh Huh]. rewrite Hsh in Hlh. assert (Hne : ∃ l, entries = first :: l) by (destruct entries; [done|injection Hfirst as ->; by eexists]). destruct Hne as [l El].
  destruct (deliver_route entries 0 ws hidden ws' out eq_refl Hready Hlh Huh Hrun first last) as (frame & tel & kind & b & body & Hf & Hdel & Htel & Hcar); [by rewrite El|done|].
  unfold dist_coordinator_eval_span. cbn [rp_entries rp_blob]. cbn zeta. rewrite Hsh. rewrite u64_small by (unfold is_u64; nia). destruct (Z.ltb_spec UINT32_MAX (ntok * hidden_values * 4)); [lia|].
  match goal with |- context [match ?m with inl msg => _ | inr prefix_hash => _ end = _] => assert (Em : m = inr prefix) end.
  { destruct Hpre as [(-> & -> & ->)|(-> & Hle & ->)]; [done|]. unfold dist_session_token_hash_prefix. destruct (Z.ltb_spec (Z.of_nat (length (sl_checkpoint s))) pos0); [lia|done]. }
  rewrite Em. rewrite El. cbn [length Nat.eqb negb]. destruct (Z.ltb_spec (re_fd first) 0); [lia|]. rewrite Hloc. cbn [mbind option_bind]. rewrite <- El. unfold dist_coordinator_eval_remote_on_fd.
  rewrite Z.div_mul by lia. rewrite take_ge by lia. rewrite (send_first first) by done. rewrite Hf. cbn [rp_entries]. change (re_host first, re_port first) with (addr first). rewrite Hdel. cbn [mbind option_bind].
  rewrite (recv_carries s1 last out kind b body tel) by (done || (apply (carries_ok last out); [done|lia])). by destruct (span_end s1 last out).
Qed.
End request.

(** ** A route that was built *)

Lemma contiguous_entries n : ∀ l next i e, contiguous n next l → l !! i = Some e → Forall route_entry_ok l → next <= re_layer_start e ∧ re_layer_end e < n ∧ (re_flags e = 0 ∨ re_layer_end e + 1 = n)
  ∧ ∀ j e', l !! (S i + j)%nat = Some e' → re_layer_end e < re_layer_start e'.
Proof.
  induction l as [|x l IH]; intros next i e Hc Hi Hok; [done|]. destruct Hc as (Hs & He & Hf & Hc). apply Forall_cons in Hok as [[_ _ Hr _] Hok]. destruct i as [|i].
  - injection Hi as <-. split_and!; [lia|done|done|]. intros j e' Hj. destruct (IH _ j e' Hc Hj Hok) as (Hn & _). lia.
  - destruct (IH _ i e Hc Hi Hok) as (Hn & He' & Hf' & Hj). split_and!; [lia|done|done|]. intros j e' H. by apply (Hj j).
Qed.

Lemma route_order st next entries : contiguous (cd_n_layers st) next entries → Forall route_entry_ok entries → 0 < next → cd_n_layers st < 2 ^ 32 →
  (∀ i e, entries !! i = Some e → on_route st entries i e)
  ∧ (∀ i j e e', entries !! i = Some e → entries !! j = Some e' → (i < j)%nat → re_layer_start e < re_layer_start e').
Proof.
  intros Hc Hok Hnext Hn. split.
  - intros i e Hi. destruct (contiguous_entries _ _ _ i e Hc Hi Hok) as (H1 & H2 & H3 & H4). assert (Hout : has_flag (re_flags e) DS4_DIST_ROUTE_F_OUTPUT_LOGITS = true → re_layer_end e + 1 = cd_n_layers st).
    { intros Ho. destruct H3 as [H3|H3]; [by rewrite H3 in Ho|done]. }
    constructor; [done|lia|done|]. intros Ho. destruct (entries !! S i) as [e'|] eqn:Hi'; [|done]. exfalso. specialize (H4 0%nat e'). rewrite Nat.add_0_r in H4. specialize (H4 Hi'). specialize (Hout Ho).
    destruct (contiguous_entries _ _ _ (S i) e' Hc Hi' Hok) as (_ & H5 & _). rewrite Forall_forall in Hok. destruct (Hok e') as [_ _ Hr _]; [by eapply list_elem_of_lookup_2|]. lia.
  - intros i j e e' Hi Hj Hij. destruct (contiguous_entries _ _ _ i e Hc Hi Hok) as (_ & _ & _ & H4). specialize (H4 (j - S i)%nat e'). replace (S i + (j - S i))%nat with j in H4 by lia. specialize (H4 Hj).
    rewrite Forall_forall in Hok. destruct (Hok e) as [_ _ Hr _]; [by eapply list_elem_of_lookup_2|]. lia.
Qed.

Lemma built_route `{!Qsort} st0 st dup plan generation : coordinator_start st0 → rtc registry_step st0 st → (∀ fd, ∃ fd', dup fd = inl fd') → Z.of_nat (length (cd_workers st)) * 1044 + 12 <= UINT32_MAX →
  dist_coordinator_build_route_plan st dup = Some (inr (plan, generation)) → rp_entries plan ≠ [] →
  (rp_blob plan ≠ [] ∧ route_readable st (rp_entries plan) (rp_blob plan) ∧ Forall route_entry_ok (rp_entries plan))
  ∧ (∀ i e, rp_entries plan !! i = Some e → on_route st (rp_entries plan) i e)
  ∧ (∀ i j e e', rp_entries plan !! i = Some e → rp_entries plan !! j = Some e' → (i < j)%nat → re_layer_start e < re_layer_start e').
Proof.
  intros Hstart Hreach Hdup Hsize Hplan Hne. destruct (registry_reachable st0 st Hstart Hreach) as [Hwf (_ & _ & E3 & E4 & E5 & _)]. destruct Hstart as [_ Hn [Hl0 Hl]]. rewrite E3 in Hn, Hl. rewrite E4 in Hl0. rewrite E5 in Hl.
  destruct (plan_spec st dup Hwf Hn Hl0 Hl Hdup Hsize) as (r & E & Hr). rewrite Hplan in E. injection E as <-. destruct Hr as [_ [[_ ->]|(path & Hch & Hp & _ & Hd & Hread)]]; [done|].
  assert (Hpw : Forall (worker_wf st) path) by (destruct Hwf as [Hw _]; rewrite Forall_forall in Hw |- *; intros w Hin; apply Hw, Hp, Hin). destruct (describes_ok st path _ Hpw Hd) as [Hok _]; [lia|].
  assert (Hok' : Forall route_entry_ok (rp_entries plan)) by (eapply Forall_impl; [exact Hok|]; intros x [Hx _]; done). split; [split_and!; [|done|done]|].
  - intros E. destruct Hread as (Hv & _). rewrite E in Hv. unfold dist_route_validate_blob in Hv. destruct (rp_entries plan) as [|e l]; [done|]. rewrite Nat2Z.id in Hv.
    destruct (Z.eqb_spec (Z.of_nat (length (e :: l))) 0) as [E0|_]; [cbn [length] in E0; lia|]. done.
  - eapply route_order; [by eapply chain_contiguous|done|lia|lia].
Qed.

(** ** The span is exact *)

(** What the theorem needs of the coordinator besides its route. *)
Definition prefix_of `{!GlmKernels} (reset : bool) (pos0 : Z) (s : slice_session) : Z := if reset then DS4_DIST_TOKEN_HASH_INIT else dist_token_hash_prefix (take (Z.to_nat pos0) (sl_checkpoint s)).

(** C36. A span of tokens over several machines. Over a route that the coordinator has
    built, when the worker of every entry is there with the layers it registered and a
    session that stands at the tokens before the span, the span gives what the slices of
    the layers give one after the other on those sessions, each on the hidden state of
    the one before as it is after the packing of the wire; the logits are those of the
    last worker, or of the output head of the coordinator on what the last worker sent.
    Every session then holds the span after the tokens it had, with the hash of all of
    them, so that the next span finds it where it must stand. *)
Theorem span_exact `{!GlmKernels, !Clock, !Qsort} create errno_text connect_error forward_window (e0 : slice_engine) st0 st dup plan generation hidden_values vocab ws s tokens pos0 sid rid reset first last
    s1 hidden lg ws' out (prefix := prefix_of reset pos0 s)
    (Hstart : coordinator_start st0) (Hreach : rtc registry_step st0 st) (Hdup : ∀ fd, ∃ fd', dup fd = inl fd') (Hsize : Z.of_nat (length (cd_workers st)) * 1044 + 12 <= UINT32_MAX)
    (Hplan : dist_coordinator_build_route_plan st dup = Some (inr (plan, generation))) (Hfirst : head (rp_entries plan) = Some first) (Hlast : list.last (rp_entries plan) = Some last) (Hfd : 0 <= re_fd first)
    (Hreq : request_ok st hidden_values vocab tokens pos0 sid rid prefix (rp_entries plan) (rp_blob plan)) (Hwindow : 0 <= forward_window)
    (Hready : ∀ e, e ∈ rp_entries plan → ready create st hidden_values vocab tokens pos0 sid prefix reset ws e)
    (Hengine : kernels_fill e0 ∧ se_hidden e0 = hidden_values ∧ se_vocab e0 = vocab) (Hpos : if reset then pos0 = 0 else pos0 <= Z.of_nat (length (sl_checkpoint s)))
    (Hlocal : ds4_session_eval_layer_slice e0 (if reset then ds4_session_layer_slice_reset s else s) tokens pos0 (cd_local_start st) (cd_local_end st) None true false = Some (s1, inr (hidden, lg)))
    (Hrun : run_route create st tokens pos0 sid prefix reset ws (rp_entries plan) hidden = Some (ws', out)) :
  dist_coordinator_eval_span create errno_text connect_error forward_window e0 st ws s plan tokens pos0 sid rid reset
    = Some (ws', (span_end st tokens e0 s1 last out).1, (span_end st tokens e0 s1 last out).2)
  ∧ (∀ e, e ∈ rp_entries plan → advanced_by create tokens sid prefix reset ws ws' e)
  ∧ sl_checkpoint s1 = (if reset then [] else sl_checkpoint s) ++ tokens.
Proof.
  assert (Hne : rp_entries plan ≠ []) by (by destruct (rp_entries plan)). destruct (built_route st0 st dup plan generation Hstart Hreach Hdup Hsize Hplan Hne) as (Hrt & Hon & Hup).
  destruct plan as [entries blob]. cbn [rp_entries rp_blob] in *. split_and!.
  - refine (span_core create st hidden_values vocab tokens pos0 sid rid prefix reset entries blob Hreq Hrt Hon Hup errno_text connect_error forward_window Hwindow e0 Hengine ws s first last s1 hidden lg ws' out _ Hlast Hfd Hready _ Hlocal Hrun);
      [by destruct entries|]. unfold prefix, prefix_of in *. destruct reset; [by left|right]. done.
  - exact (run_route_advances create st hidden_values vocab tokens pos0 sid rid prefix reset entries blob Hreq Hrt Hon Hup entries 0%nat ws hidden ws' out eq_refl Hready Hrun).
  - destruct Hengine as (Hk & _). destruct (slice_spec e0 Hk (if reset then ds4_session_layer_slice_reset s else s) tokens pos0 (cd_local_start st) (cd_local_end st) None true false) as (s2 & r & E & Hr); [apply Hreq|].
    rewrite Hlocal in E. injection E as <- <-. destruct Hr as (_ & -> & _). by destruct reset.
Qed.

(** ** Any frame *)

(** The hash of a session, when it is marked valid, is that of the tokens of the session. *)
Definition hash_ok `{!GlmKernels} (x : dist_worker_session) : Prop := ws_token_hash_valid x = true → ws_token_hash x = dist_token_hash_prefix (sl_checkpoint (ws_session x)).
Definition worker_ok `{!GlmKernels} (w : dist_worker_state) : Prop := Forall hash_ok (dw_sessions w).

Lemma put_ok `{!GlmKernels} y l : hash_ok y → Forall hash_ok l → Forall hash_ok (put_session y l).
Proof. intros Hy. induction 1 as [|z l Hz Hl IH]; [constructor|]. cbn. case_if; constructor; done. Qed.

Lemma get_session_ok `{!GlmKernels} create w sid x w1 : worker_ok w → dist_worker_get_session_locked create w sid = Some (x, w1) → worker_ok w1 ∧ hash_ok x ∧ dw_engine w1 = dw_engine w.
Proof.
  unfold dist_worker_get_session_locked, dist_worker_find_session, worker_ok. intros Hw. destruct (List.find _ (dw_sessions w)) as [y|] eqn:E.
  - intros [= <- <-]. apply find_some in E as [E _]. rewrite Forall_forall in Hw. split_and!; [by apply Forall_forall|by apply Hw, list_elem_of_In|done].
  - destruct (create _ _) as [s|]; [|done]. cbn [mbind option_bind]. intros [= <- <-]. split_and!; [constructor; [done|exact Hw]|done|done].
Qed.

Lemma ready_session_ok `{!GlmKernels} work x : hash_ok x → let y := ready_session work x in ws_session_id y = ws_session_id x ∧ ws_token_hash_valid y = true ∧ hash_ok y.
Proof. intros Hx. unfold ready_session. cbn zeta. case_if; [done|]. destruct (ws_token_hash_valid x) eqn:Ev; done. Qed.

(** The evaluation ends, and keeps the hashes when the hashes of the frame belong to its
    tokens. *)
Lemma eval_work_ok `{!GlmKernels} create w work tokens input want_hc want_lg : kernels_fill (dw_engine w) → worker_ok w → 0 <= wk_pos0 work →
  dist_token_hash_update_span (dist_u64_from_halves (wk_prefix_hash_hi work) (wk_prefix_hash_lo work)) tokens = dist_u64_from_halves (wk_result_hash_hi work) (wk_result_hash_lo work) →
  ∃ w' r, eval_work create w work tokens input want_hc want_lg = Some (w', r) ∧ worker_ok w' ∧ dw_engine w' = dw_engine w.
Proof.
  intros Hk Hw Hp Hh. unfold eval_work. destruct (dist_worker_get_session_locked create w _) as [[x w1]|] eqn:Eg; [|by eexists _, _]. destruct (get_session_ok _ _ _ _ _ Hw Eg) as (Hw1 & Hx & He).
  destruct (ready_session_ok work x Hx) as (Hid & Hv & Hy). set (y := ready_session work x) in *. destruct (Z.eqb_spec (ws_token_hash y) (dist_u64_from_halves (wk_prefix_hash_hi work) (wk_prefix_hash_lo work))) as [Ep|]; cbn [negb].
  2:{ eexists _, _. split; [done|]. split; [by apply put_ok|done]. }
  rewrite He. destruct (slice_spec (dw_engine w) Hk (ws_session y) tokens (wk_pos0 work) (wk_layer_start work) (wk_layer_end work) input want_hc want_lg Hp) as (s & r & -> & Hr). cbn [mbind option_bind].
  destruct r as [msg|[o lg]]; (eexists _, _; split; [done|]; split; [|done]); (apply put_ok; [|done]); [done|]. intros _. cbn [ws_token_hash ws_session]. destruct Hr as (_ & -> & _). unfold dist_token_hash_prefix. rewrite token_hash_span_app.
  rewrite <- Hh, <- Ep, (Hy Hv). done.
Qed.

(** C38. Whatever bytes arrive as a WORK frame, a worker comes to an answer, and after it the
    hash of every session, where it is marked valid, is the hash of the tokens the session
    holds. So the work of a coordinator whose tokens differ is refused before it touches
    the cache, unless two lists of tokens have one hash. *)
Theorem work_keeps_hashes `{!GlmKernels, !Clock} create w payload (Hk : kernels_fill (dw_engine w)) (Hw : worker_ok w) (Hb : is_bytes payload) :
  ∃ w' o, dist_worker_process_work_payload create w payload = Some (w', o) ∧ worker_ok w' ∧ dw_engine w' = dw_engine w.
Proof.
  unfold dist_worker_process_work_payload. case_if; [by eexists _, _|]. cbn zeta. destruct (check_work _ _ _); [by eexists _, _|]. destruct (read_work_tokens _ _ _) as [[msg|]|[tokens p]]; [by eexists _, _|by eexists _, _|].
  destruct (Z.eqb_spec (dist_token_hash_update_span (dist_u64_from_halves (wk_prefix_hash_hi (dist_work_from_wire payload)) (wk_prefix_hash_lo (dist_work_from_wire payload))) tokens)
    (dist_u64_from_halves (wk_result_hash_hi (dist_work_from_wire payload)) (wk_result_hash_lo (dist_work_from_wire payload)))) as [Eh|]; cbn [negb]; [|by eexists _, _].
  case_if; [by eexists _, _|]. destruct (read_work_input _ _ _) as [[msg|]|[input q]]; [by eexists _, _|by eexists _, _|]. case_if; [by eexists _, _|]. destruct (read_work_route _ _ _) as [msg|next]; [by eexists _, _|].
  match goal with |- context [match ?m with inl _ => Some (w, _) | inr input_hc => _ end] => destruct m as [msg|input_hc]; [by eexists _, _|] end.
  match goal with |- context [eval_work create w ?wk tokens input_hc ?a ?b] => destruct (eval_work_ok create w wk tokens input_hc a b Hk Hw) as (w' & r & -> & Hw' & He) end.
  { assert (Hp := word_at_range payload 9 Hb). unfold is_u32 in Hp. apply Hp. }
  { exact Eh. }
  cbn [mbind option_bind]. destruct r as [msg|[hid lg]]; [by eexists _, _|]. match goal with |- context [match ?m with Some wire_bytes => _ | None => _ end] => destruct m; by eexists _, _ end.
Qed.

(** ** A span over two machines *)

(** Kernels that add the token, the input and one to a row, and count the tokens. *)
Definition demo_out (ts : list Z) (input : option (list Z)) : list Z := imap (λ i t, u32 (t + 1 + default 0 (l ← input; l !! i))) ts.
Definition demo_forward (kv : Z) (ts : list Z) (input : option (list Z)) (want_out want_logits : bool) : bool * Z * list Z * list Z :=
  (true, kv + Z.of_nat (length ts), if want_out then demo_out ts input else [], if want_logits then map (λ i, u32 (i + default 0 (list.last (demo_out ts input)))) (seqZ 0 8) else []).
#[local] Instance demo_kernels : GlmKernels := {|
  kv_state := Z;
  glm_graph_forward_token kv t input _ := demo_forward kv [t] input;
  glm_graph_forward_tokens kv ts input _ := demo_forward kv ts input;
  glm_graph_forward_indexed_tokens kv ts input _ := demo_forward kv ts input;
  glm_graph_encode_output_head kv h := (true, kv, map u32 (seqZ 0 8));
  gpu_synchronize _ := true;
|}.
#[local] Instance demo_clock : Clock := {| eval_usec _ _ := 5; downstream_usec _ _ := 0; forward_usec _ _ := 0 |}.

Definition demo_engine (layer_start layer_end : Z) : slice_engine :=
  SliceEngine false 4 (λ _ _, true) true true 1 8 (bs "CUDA") false (GlmGraph true layer_start layer_end true 64 64 0 0 false 8 false false).
Definition demo_session : slice_session := SliceSession false [] 0 false (0 : kv_state) 64 16.
Definition demo_create (e : slice_engine) (ctx_size : Z) : option slice_session := Some demo_session.
Definition demo_workers : workers := {[ (bs "10.0.0.2", 9000) := WorkerState (demo_engine 2 3) 7 2 3 true 4096 [] ]}.
Definition demo_plan : dist_route_plan := match dist_coordinator_build_route_plan with_last_two inl with Some (inr (plan, _)) => plan | _ => DistPlan [] [] end.

Lemma demo_out_fills ts input : Z.of_nat (length (demo_out ts input)) = Z.of_nat (length ts) * 1 ∧ Forall is_u32 (demo_out ts input).
Proof.
  unfold demo_out. split; [rewrite length_imap; lia|]. apply Forall_lookup. intros i x. rewrite list_lookup_imap. destruct (ts !! i); [|done]. intros [= <-]. apply u32_range.
Qed.

Lemma demo_fills e kv ts input want_out want_logits : se_hidden e = 1 → se_vocab e = 8 → fills e (length ts) want_out want_logits (demo_forward kv ts input want_out want_logits).
Proof.
  intros Hh Hv _. rewrite Hh, Hv. split; intros ->; [apply demo_out_fills|]. split; [done|]. apply Forall_fmap, Forall_true. intros x. apply u32_range.
Qed.

Lemma demo_kernels_fill a b : kernels_fill (demo_engine a b).
Proof. constructor; [intros; by apply (demo_fills _ _ [_])|intros; by apply demo_fills|intros; by apply demo_fills|intros; repeat constructor; by vm_compute|by vm_compute]. Qed.

(** What the coordinator and the worker have after the span. *)
Definition demo_local : slice_session := SliceSession true [3; 4] 0 false (2 : kv_state) 64 16.
Definition demo_run : option (workers * list Z) := run_route demo_create with_last_two [3; 4] 0 11 DS4_DIST_TOKEN_HASH_INIT true demo_workers (rp_entries demo_plan) [4; 5].

Definition demo_after : workers := match demo_run with Some (ws, _) => ws | None => ∅ end.
Definition demo_entry : dist_route_entry := match rp_entries demo_plan with [e] => e | _ => DistRoute [] 0 0 0 0 (-1) end.

Lemma demo_run_logits : demo_run = Some (demo_after, [10; 11; 12; 13; 14; 15; 16; 17]).
Proof.
  assert (E : snd <$> demo_run = Some [10; 11; 12; 13; 14; 15; 16; 17]) by (vm_compute; reflexivity). revert E. unfold demo_after. destruct demo_run as [[ws out]|]; cbn; congruence.
Qed.

Lemma demo_entries : rp_entries demo_plan = [demo_entry].
Proof. vm_compute. reflexivity. Qed.

Lemma demo_slice : ds4_session_eval_layer_slice (demo_engine 0 1) (ds4_session_layer_slice_reset demo_session) [3; 4] 0 0 1 None true false = Some (demo_local, inr ([4; 5], [])).
Proof. reflexivity. Qed.

(** Witness of C36. *)
Lemma span_exact_witness :
  dist_coordinator_eval_span demo_create (bs "timeout") (λ _ _, bs "refused") 4 (demo_engine 0 1) with_last_two demo_workers demo_session demo_plan [3; 4] 0 11 12 true
    = Some (demo_after, (span_end with_last_two [3; 4] (demo_engine 0 1) demo_local demo_entry [10; 11; 12; 13; 14; 15; 16; 17]).1,
              (span_end with_last_two [3; 4] (demo_engine 0 1) demo_local demo_entry [10; 11; 12; 13; 14; 15; 16; 17]).2)
  ∧ (∀ e, e ∈ rp_entries demo_plan → advanced_by demo_create [3; 4] 11 DS4_DIST_TOKEN_HASH_INIT true demo_workers demo_after e)
  ∧ sl_checkpoint demo_local = [3; 4].
Proof.
  refine (span_exact demo_create (bs "timeout") (λ _ _, bs "refused") 4 (demo_engine 0 1) two_of_four with_last_two inl demo_plan (cd_generation with_last_two) 1 8 demo_workers demo_session [3; 4] 0 11 12 true
    demo_entry demo_entry demo_local [4; 5] [] demo_after [10; 11; 12; 13; 14; 15; 16; 17] _ _ _ _ _ _ _ _ _ _ _ _ _ _ _).
  - exact two_of_four_start.
  - exact last_two_registers.
  - intros fd. by exists fd.
  - by vm_compute.
  - by vm_compute.
  - by rewrite demo_entries.
  - by rewrite demo_entries.
  - by vm_compute.
  - constructor; [by left| |by vm_compute| |done|by vm_compute|by vm_compute].
    + split; [done|]. repeat constructor; by vm_compute.
    + unfold prefix_of. split_and!; by vm_compute.
  - done.
  - rewrite demo_entries. intros e ->%list_elem_of_singleton. eexists _, _, _. split; [reflexivity|]. split; [constructor; by vm_compute|]. split; [|apply demo_kernels_fill]. split; [reflexivity|by left].
  - split; [apply demo_kernels_fill|done].
  - done.
  - exact demo_slice.
  - exact demo_run_logits.
Defined.

(** The frame that the coordinator of the example sends. *)
Definition demo_payload : bytes := hop_payload with_last_two 1 [3; 4] 0 11 12 DS4_DIST_TOKEN_HASH_INIT true (rp_entries demo_plan) (rp_blob demo_plan) 0 demo_entry (float_bytes [4; 5]).

Lemma demo_payload_bytes : is_bytes demo_payload.
Proof. apply is_bytesb_ok. by vm_compute. Qed.

(** Witness of C38. *)
Lemma work_keeps_hashes_witness : ∃ w' o, dist_worker_process_work_payload demo_create (WorkerState (demo_engine 2 3) 7 2 3 true 4096 []) demo_payload = Some (w', o) ∧ worker_ok w' ∧ dw_engine w' = demo_engine 2 3.
Proof. apply (work_keeps_hashes demo_create (WorkerState (demo_engine 2 3) 7 2 3 true 4096 []) demo_payload); [apply demo_kernels_fill|constructor|exact demo_payload_bytes]. Defined.
